(* ===== verification/_CoqProject ===== *)
-Q . S2P
Prelude.v
IntFormat.v
Sacks.v
GF256.v
Tinymt32.v
Rlc.v
RlcCodec.v
Frames.v
AckFrame.v
Reassembly.v
Streams.v
MemoryPool.v
Congestion.v
Ubpf.v
UbpfRewrite.v
Packet.v
PacketProtect.v
PacketIn.v
Retransmit.v
RedBlackTree.v
WindowBuffers.v
FecFrames.v
FecSender.v
Transport.v
Containers.v
Connections.v
Timers.v
PathMtu.v
FecReceiver.v
SendStream.v
StreamTransfer.v
Protoops.v
PluginLoad.v
Tickets.v
PluginFrames.v
Repeat.v
Acks.v
