(* ===== verification/Prelude.v ===== *)
(** * A verification library for flec: PQUIC with forward erasure correction

    The program (src/) is a QUIC implementation, picoquic, extended with plugins, and
    plugins that protect the packets of a connection with random linear codes.  This
    library models the parts that carry the protocol and coding logic and proves what
    makes them correct.

    ** The program's parts and how they interact

    A datagram that arrives is cut into packets (picoquic/packet.c): the header is parsed,
    the connection is found, header protection is removed, the packet number is rebuilt
    from its low bytes and the content is decrypted.  The handler of the packet type then
    moves the connection through its states and hands the frames to frames.c, and the
    number is recorded in the packet context (sacks.c).  STREAM frames go to the reassembly
    queue of their stream and from there to the application, flow control frames change
    limits, ACK frames walk over ranges of packet numbers.  When a packet is prepared
    (sender.c), frames are written into it; the ACK frame is written from the ranges of the
    packet context, and when that frame is acknowledged in turn the ranges are pruned.  The
    packet is protected, paced and put into the queue of packets in flight, from which an
    acknowledgement or the loss detection takes it.  Integers on the wire use intformat.c.
    The congestion window of a path is driven by notifications (newreno.c).  Plugins are
    bytecode: ubpf_vm.c validates it, inserts a check before every memory access and
    interprets it, on a heap of the plugin's own (memory.c).  Nearly every function above
    is a protocol operation: it is called through a table of the connection (plugin.c), in
    which a plugin file may replace it or put observers before and after it.  The FEC plugin
    (plugins/simple_fec) gives every protected payload a symbol number, sends repair
    symbols that are linear combinations over GF(256) with coefficients from a seeded
    generator, and on the receiver solves a linear system for the lost symbols.

    ** Which file models what

    - [Prelude] (this file): fixed-width integers as [Z] with their casts ([u8] to
      [u64]), bit and byte lemmas, array lemmas, tactics, hint databases.
    - [IntFormat], module [IntFormat]: picoquic/intformat.c and the PICOPARSE macros.  A
      writer is the list of bytes it writes, a reader takes the bytes from its pointer on
      and is [None] where the C code would read past the object.
    - [Sacks], module [Sacks]: picoquic/sacks.c and process_ack_of_ack_range.  The chain
      of ranges is the embedded first item and the list of the others; the walk with a
      [previous] pointer carries the items already passed.
    - [Frames], module [Frames]: the frame parsers of picoquic/frames.c, the dispatch by
      type, picoquic_decode_frames, the skippers and seven writers.  A parser result keeps
      what the C function returns and stores: the new position, the frame, the flags, the
      error raised.  Processing of a frame is a parameter of the decoding loop.
    - [AckFrame], module [AckFrame]: picoquic_prepare_ack_frame_maybe_ecn with a buffer
      that is written in place, the walk of process_ack_frame_maybe_ecn, and
      picoquic_process_ack_of_ack_frame.
    - [Reassembly], module [Reassembly]: picoquic_queue_network_input and
      picoquic_stream_data_callback.
    - [Streams], module [Streams]: the streams of a connection, flow control, stream
      limits, the handlers of the frames that act on streams, the round robin, connection
      errors (quicctx.c).  A pointer to a stream is its id, unique by the invariant.
    - [SendStream], module [SendStream]: the sending side of streams (sender.c, frames.c):
      the calls of the application, the STREAM and CRYPTO frame writers, the loops that fill a
      packet.  The application that is polled is a parameter.
    - [StreamTransfer], module [StreamTransfer]: traces of [SendStream] with the peer's frames
      of [Streams], up to the receiver of [Frames] and [Reassembly].
    - [GF256], module [GF256]: the tables and field operations of
      rlc_gf256/gf256/swif_symbol.c and generated_table_code.c, symbol operations there and
      in picoquic/gf256/gf256.c.
    - [Tinymt32], module [Tinymt32]: fec_schemes/prng/tinymt32.c.
    - [Rlc], module [Rlc]: the linear system of rlc_fec_scheme_gf256_causal.c, rows of
      coefficients with the symbols of the right-hand side, Gaussian elimination.
    - [RlcCodec], module [RlcCodec]: the encoder (rlc_fec_scheme_generate_gf256.c) and
      fec_recover, the whole recovery from received and missing source symbols.
    - [MemoryPool], module [MemoryPool]: the block allocator of picoquic/memory.c.
    - [Congestion], module [Congestion]: picoquic/newreno.c and the integer functions of
      cc_common.c.
    - [Ubpf], module [Ubpf]: the instructions of ubpf/vm/ebpf.h, the interpreter and the
      validator of ubpf_vm.c.  A machine has sixteen registers, a program counter of 16 bits
      and a memory from addresses to bytes; what it does before an access is a parameter.
    - [UbpfRewrite], module [UbpfRewrite]: rewrite_with_memchecks and ubpf_load.
    - [Packet], module [Packet]: picoquic_parse_packet_header,
      picoquic_get_packet_number64, the header writers of sender.c, connection ids (util.c)
      and the version table (quicctx.c).  The tables of connections are functions of the
      [quic] record.
    - [PacketProtect], module [PacketProtect]: picoquic_protect_packet,
      picoquic_decrypt_packet, picoquic_parse_header_and_decrypt.  The ciphers are the
      operations of the class [Crypto]; [CryptoLaws] says that decryption inverts encryption
      and how long the results are, and an instance shows that this can hold.
    - [PacketIn], module [PacketIn]: the handlers of packet.c, the loops over segments and
      datagrams, version negotiation and Retry.  What the handlers call in frames.c,
      tls_api.c and quicctx.c is the class [Upper], what the loop needs of the tables of
      connections the class [Host].
    - [Retransmit], module [Retransmit]: the queues of sender.c on a heap of linked
      packets, loss detection and pacing.
    - [RedBlackTree], module [RedBlackTree]: picoquic/red_black_tree.c, the ordered map
      that plugins use.  A node is a constructor with its color and size; following a null
      pointer is [None].
    - [WindowBuffers], module [WindowBuffers]: the ring of source symbols and the tracker
      of received ids of plugins/simple_fec/window_framework.
    - [FecFrames], module [FecFrames]: the frames of the window framework (types.h): repair,
      receive-window and recovered frames, and the ranges filled from the recovered packets.
    - [FecSender], module [FecSender]: the sender of the window framework
      (framework_sender.h), its queue of repair symbols and its window of source symbols.
    - [Transport], module [Transport]: picoquic/transport.c, the transport parameters.
    - [Containers], module [Containers]: picoquic/picohash.c and picoquic/queue.c.
    - [Connections], module [Connections]: the tables, the list and the wake list of the
      connections of a context (quicctx.c), on a heap of linked connections.  The two lists
      share their lemmas through the class [Links].
    - [Timers], module [Timers]: the next wake time of a connection (sender.c), with the
      loss detection of [Retransmit] and the wake list of [Connections].
    - [PathMtu], module [PathMtu]: the discovery of the path MTU (sender.c, frames.c).
    - [FecReceiver], module [FecReceiver]: packets cut into symbols (fec.h) and put together
      again, and the receiver of the window framework (framework_receiver.h).  The coding
      scheme is the class [Scheme].
    - [Protoops], module [Protoops]: the table of protocol operations, its registration
      functions (quicctx.c), plugging and unplugging and the call of an operation (plugin.c).
      The body of an operation is a tree of its accesses to the arguments and results in the
      connection, its calls and its effects on everything else, which is left open.
    - [PluginLoad], module [PluginLoad]: plugin files (plugin.c), from their text to the
      pluglets in the table of [Protoops], the cache of plugins and their metadata.
    - [PluginFrames], module [PluginFrames]: the frames that plugins reserve (quicctx.c), the
      scheduler that picks reservations for a packet and the writer of these frames
      (sender.c).  What a plugin writes for a slot is a parameter.
    - [Repeat], module [Repeat]: what is done with the content of lost packets
      ([retransmit_needed] of sender.c, [picoquic_split_stream_frame] of util.c), and the
      acknowledged bytes of streams (frames.c).  It joins the queues of [Retransmit], the
      frames of [PluginFrames], the streams of [Streams] and the ranges of [Sacks].
    - [Acks], module [Acks]: what an ACK frame changes at its receiver (frames.c): the queues
      of [Retransmit] in the three packet contexts of a path, the round trip times, the
      bandwidth and the state of acknowledged data.
    - [Tickets], module [Tickets]: picoquic/ticket_store.c.

    ** What the theorems show

    - Coding: the tables are those of the field GF(256); the elimination only ever
      determines an unknown to the value that was sent; fec_recover keeps what was received,
      restores lost packets byte for byte and never invents one, and one repair symbol is
      enough for one loss; the encoder sends the combinations its seeds define; the
      generator never reaches the null state; the ring of source symbols is the window of
      the latest ones and the tracker knows the first id that is missing; the sender's
      window refines the sequence of its symbols in flight and the queue of repair symbols a
      bounded queue; the frames that announce recovered packets are read back as they were
      written; a packet of one symbol is restored with its number from the recovered symbol,
      packets of several symbols are not; the receiver advertises
      the first gap.
    - Packet numbers and ACK frames: the chain of ranges refines the set of numbers
      received, duplicates are detected exactly; an ACK frame is read back as exactly those
      ranges and its acknowledgement prunes them; integer formats are inverse to their
      readers.
    - Frames: parsers move forward and stay in the packet, decoding terminates, writers
      are inverted by the parsers; the exceptions are stated as theorems about the code.
    - Streams: bytes reach the application in order and once, whatever the order of the
      frames; flow control bounds what a peer can make the receiver hold; a STREAM frame is
      accepted exactly when the limits allow it; the scheduler is a fair round robin. What
      an application queues is sent in order and once, within the limits of the peer, in
      frames that the receiver reads back, and the queues drain while the limits allow it;
      end to end, without polled streams, the receiver delivers a prefix of what was queued,
      and all that was sent once every frame has arrived.
    - Packets: what the sender protects is what the receiver decrypts, with its full
      number; only authentic and new packets are accepted; headers are read back as they
      were written and stay inside the datagram; every datagram is processed in finitely
      many steps; Retry and version negotiation move the client as they should where their
      formats agree; the address of the peer follows its packets.
    - Connections: transport parameters are read back as they were written and every
      extension is parsed in finitely many steps; the hash table refines a list of entries,
      a finite map where keys are only inserted once, and the queue a first-in first-out
      queue; lookups by id and by address find exactly the live connection that was
      registered, and the connection that wakes first is served; the store of tickets never
      removes one it would need, and its file is read back.
    - Sending: the linked queues refine the list of packets in flight and their sum is
      bytes_in_transit; loss times and the pacing budget; the next wake time misses no
      deadline and has a reason; the search for the path MTU ends near it and below it; the
      frames of a lost packet are repeated or wait, and data is left out of a repetition
      only when it was acknowledged; an ACK frame takes exactly the packets it names out of
      the queue, and the oldest packets of the handshake when it names HANDSHAKE_DONE, so
      that the bytes in transit are those of what remains; the round trip times and the
      retransmission timer stay in their bounds.
    - Plugins: an accepted program only ever runs its own instructions; the rewritten
      program behaves as the original one under a monitor of its accesses, and the monitor
      is characterised exactly; no heap block is handed out twice; the red-black tree
      refines a finite map and stays balanced.
    - Protocol operations: calls through the arrays of the connection behave as calls with
      frames of their own and always end; an observer that only reads changes no result where
      the operation has a structure for its parameter; the table stays well formed; the lines
      of a plugin file are read back as they were written, and inserting a plugin in two
      passes around the negotiation is inserting it in one.  Reservations of frames leave in
      order, every plugin has its turn, and the writer accounts for every slot it takes.
    - Congestion window: it stays above its minimum and is reduced at most once per round
      trip, whatever is notified in between.
    - Theorems beside these state where the code departs from what it means to do; they are
      named by the findings of the manifest.

    ** Bounds and fuel

    Loops over lists are structural. [decode_loop] of Frames runs on fuel: the number of
    bytes of the packet is shown to be enough for every packet without a malformed STREAM
    header, and no fuel is enough for the others. [float16_loop] halves a 64-bit integer at
    most 64 times. The elimination and search loops of the decoder run over rows and
    columns, with the fuel their bounds give. [picoquic_incoming_packet] runs on fuel and
    the length of the datagram is shown to be enough. [run] of Ubpf is a bounded run of an
    interpreter that need not end; its theorems hold for every number of steps or say that
    two programs end alike. The implicit acknowledgement of the handshake takes one step
    whatever its fuel, deletions from the red-black tree have the number of its nodes. The
    loops of FecFrames over ranges run twice per announced packet, those of FecSender over
    the window or the queue. [receive_loop] of Transport has 65 rounds more than the
    extension has bytes, shown to be enough. The loops that empty a hash bin or a queue have
    its length, the walk over the wake list has the number of connections, each shown to be
    enough. The loops of SendStream that fill a packet run on fuel and are shown not to end
    in the cases that are stated; buffers for frames have at most 16384 bytes there. The
    fuel of [plugin_run_protoop_internal] is the depth of nested calls, shown to be at most
    the number of structures of the table; that of [plugin_preprocess_file] is the depth of
    include lines, for which no bound exists. The loop over retried frames has one round
    more than their number, the loops over the cache and the file of tickets the lengths of
    these, each shown to be enough. In Repeat, the walk over the frames of a lost packet has
    the number of its bytes, the walk over a queue one step (the oldest packet has no next
    one), and without plugins one round fills the packet. In Acks, the length of the queue
    and the numbers up to the largest acknowledged are shown to be enough, and the implicit
    acknowledgement has one round more than its context has packets. Packet numbers and
    values on the wire are assumed below 2^62 where the format requires it; buffers are
    shorter than 2^64.

    ** What is not modelled

    TLS and the ciphers (tls_api.c calls an external library), sockets, logging, the
    archives in which plugins are exchanged, the ELF loader and the machine code generator,
    floating-point congestion controllers and pacing rates, the michelfralloc and moepgf
    submodules (absent from the repository), the tests and demo programs.  Hooks that plugins
    may replace have their built-in behaviour, or are parameters.  picosplay.c is only called
    by tests.  The choice of the frames of a packet by the state of the connection (sender.c),
    the redundancy controllers, the online scheme with its min-max heap and the other plugins
    are left out: they are long sequences of calls of the parts above, or use floating
    point. *)
From stdpp Require Import base list numbers.
From Stdlib Require Import ZArith Lia Bool.
#[local] Open Scope Z_scope.

Declare Scope cint_scope.
Delimit Scope cint_scope with cint.

(** ** Fixed-width unsigned integers

    A C unsigned integer of [w] bits is a [Z] in [0, 2^w); the conversions
    below are the casts of the source, which reduce modulo [2^w]. *)
Definition u8 (x : Z) : Z := x mod 2 ^ 8.
Definition u16 (x : Z) : Z := x mod 2 ^ 16.
Definition u32 (x : Z) : Z := x mod 2 ^ 32.
Definition u64 (x : Z) : Z := x mod 2 ^ 64.

(** [(uint64_t)((int64_t)-1)], the "no value" sentinel of the sources. *)
Definition UINT64_MAX : Z := 2 ^ 64 - 1.

Definition is_u8 (x : Z) : Prop := 0 <= x < 2 ^ 8.
Definition is_u32 (x : Z) : Prop := 0 <= x < 2 ^ 32.
Definition is_u64 (x : Z) : Prop := 0 <= x < 2 ^ 64.

#[export] Instance is_u8_dec x : Decision (is_u8 x).
Proof. unfold is_u8. apply _. Defined.
#[export] Instance is_u32_dec x : Decision (is_u32 x).
Proof. unfold is_u32. apply _. Defined.
#[export] Instance is_u64_dec x : Decision (is_u64 x).
Proof. unfold is_u64. apply _. Defined.

(** Signed integers of [w] bits, in two's complement: the casts to [int16_t],
    [int32_t] and [int64_t]. *)
Definition s16 (x : Z) : Z := (x + 2 ^ 15) mod 2 ^ 16 - 2 ^ 15.
Definition s32 (x : Z) : Z := (x + 2 ^ 31) mod 2 ^ 32 - 2 ^ 31.
Definition s64 (x : Z) : Z := (x + 2 ^ 63) mod 2 ^ 64 - 2 ^ 63.

Notation "x <<8 y" := (u8 (Z.shiftl x y)) (at level 35) : cint_scope.
Notation "x <<32 y" := (u32 (Z.shiftl x y)) (at level 35) : cint_scope.
Notation "x <<64 y" := (u64 (Z.shiftl x y)) (at level 35) : cint_scope.

(** ** Tactics *)

(** Splits on every boolean comparison of the goal or of a hypothesis and
    keeps the arithmetic fact it stands for. *)
Ltac case_cmp :=
  repeat match goal with
    | |- context [?a <? ?b] => destruct (Z.ltb_spec a b)
    | |- context [?a <=? ?b] => destruct (Z.leb_spec a b)
    | |- context [?a =? ?b] => destruct (Z.eqb_spec a b)
    | H : context [?a <? ?b] |- _ => destruct (Z.ltb_spec a b)
    | H : context [?a <=? ?b] |- _ => destruct (Z.leb_spec a b)
    | H : context [?a =? ?b] |- _ => destruct (Z.eqb_spec a b)
    end.

(** Turns boolean comparison hypotheses into arithmetic ones. *)
Ltac reflect_cmp :=
  repeat match goal with
    | H : (_ <? _) = true |- _ => apply Z.ltb_lt in H
    | H : (_ <? _) = false |- _ => apply Z.ltb_ge in H
    | H : (_ <=? _) = true |- _ => apply Z.leb_le in H
    | H : (_ <=? _) = false |- _ => apply Z.leb_gt in H
    | H : (_ =? _) = true |- _ => apply Z.eqb_eq in H
    | H : (_ =? _) = false |- _ => apply Z.eqb_neq in H
    | H : negb _ = true |- _ => apply negb_true_iff in H
    | H : negb _ = false |- _ => apply negb_false_iff in H
    | H : (_ && _) = true |- _ => apply andb_true_iff in H; destruct H
    | H : (_ || _) = false |- _ => apply orb_false_iff in H; destruct H
    end.

(** Bit-by-bit equality of two integers. *)
Ltac bits_ext i Hi := apply Z.bits_inj'; intros i Hi.

(** ** Rewriting database of the casts *)
Create HintDb cint.
Create Rewrite HintDb cint.

Lemma u8_small x : 0 <= x < 2 ^ 8 -> u8 x = x.
Proof. apply Z.mod_small. Qed.
Lemma u16_small x : 0 <= x < 2 ^ 16 -> u16 x = x.
Proof. apply Z.mod_small. Qed.
Lemma u32_small x : 0 <= x < 2 ^ 32 -> u32 x = x.
Proof. apply Z.mod_small. Qed.
Lemma u64_small x : 0 <= x < 2 ^ 64 -> u64 x = x.
Proof. apply Z.mod_small. Qed.

Lemma s16_small x : - 2 ^ 15 <= x < 2 ^ 15 -> s16 x = x.
Proof. intros. unfold s16. rewrite Z.mod_small; lia. Qed.
Lemma s32_small x : - 2 ^ 31 <= x < 2 ^ 31 -> s32 x = x.
Proof. intros. unfold s32. rewrite Z.mod_small; lia. Qed.
Lemma s64_small x : - 2 ^ 63 <= x < 2 ^ 63 -> s64 x = x.
Proof. intros. unfold s64. rewrite Z.mod_small; lia. Qed.
Lemma u16_range x : 0 <= u16 x < 2 ^ 16.
Proof. apply Z.mod_pos_bound. lia. Qed.

Lemma u8_range x : is_u8 (u8 x).
Proof. unfold is_u8, u8. apply Z.mod_pos_bound. lia. Qed.
Lemma u32_range x : is_u32 (u32 x).
Proof. unfold is_u32, u32. apply Z.mod_pos_bound. lia. Qed.
Lemma u64_range x : is_u64 (u64 x).
Proof. unfold is_u64, u64. apply Z.mod_pos_bound. lia. Qed.

#[export] Hint Resolve u8_range u32_range u64_range : cint.
#[export] Hint Rewrite u8_small u16_small u32_small u64_small using lia : cint.

(** ** Bit operations as arithmetic *)

Lemma land_ones_mod x n : 0 <= n -> Z.land x (2 ^ n - 1) = x mod 2 ^ n.
Proof. intros Hn. rewrite <- Z.land_ones by lia. f_equal. rewrite Z.ones_equiv. lia. Qed.

(** [|] of a value below [2^n] and a multiple of [2^n] is their sum. *)
Lemma lor_add_disjoint hi lo n :
  0 <= n -> 0 <= lo < 2 ^ n -> Z.lor (hi * 2 ^ n) lo = hi * 2 ^ n + lo.
Proof.
  intros Hn Hlo. rewrite <- Z.add_lor_land.
  assert (Z.land (hi * 2 ^ n) lo = 0) as ->; [|lia].
  bits_ext i Hi. rewrite Z.land_spec, Z.bits_0.
  destruct (Z.lt_ge_cases i n).
  - rewrite Z.mul_pow2_bits_low by lia. reflexivity.
  - assert (Z.testbit lo i = false) as ->; [|apply andb_false_r].
    apply Z.testbit_false; [lia|]. rewrite Z.div_small; [reflexivity|].
    split; [lia|]. eapply Z.lt_le_trans; [apply Hlo|]. apply Z.pow_le_mono_r; lia.
Qed.

Lemma lxor_lt_pow2 a b n : 0 <= n -> 0 <= a < 2 ^ n -> 0 <= b < 2 ^ n -> 0 <= Z.lxor a b < 2 ^ n.
Proof.
  intros Hn Ha Hb. split; [apply Z.lxor_nonneg; lia|].
  destruct (Z.eq_dec (Z.lxor a b) 0) as [->|Hne]; [lia|].
  apply Z.log2_lt_pow2.
  - assert (0 <= Z.lxor a b) by (apply Z.lxor_nonneg; lia). lia.
  - eapply Z.le_lt_trans; [apply Z.log2_lxor; lia|].
    destruct (Z.eq_dec n 0) as [->|]; [assert (a = 0 /\ b = 0) as [-> ->] by lia; done|].
    apply Z.max_lub_lt; (destruct (Z.eq_dec a 0), (Z.eq_dec b 0); subst; simpl; try lia;
      apply Z.log2_lt_pow2; lia).
Qed.

(** ** Big-endian reading of a byte string *)
Fixpoint be_decode (acc : Z) (bs : list Z) : Z :=
  match bs with
  | [] => acc
  | b :: bs' => be_decode (acc * 2 ^ 8 + b) bs'
  end.

Lemma be_decode_acc bs acc : be_decode acc bs = acc * 2 ^ (8 * Z.of_nat (length bs)) + be_decode 0 bs.
Proof.
  revert acc. induction bs as [|b bs IH]; intros acc.
  - cbn [be_decode length]. change (2 ^ (8 * Z.of_nat 0)) with 1. lia.
  - cbn [be_decode length]. rewrite (IH (acc * 2 ^ 8 + b)), (IH (0 * 2 ^ 8 + b)).
    replace (8 * Z.of_nat (S (length bs))) with (8 + 8 * Z.of_nat (length bs)) by lia.
    rewrite Z.pow_add_r by lia. ring.
Qed.

Lemma be_decode_bound bs : Forall is_u8 bs -> 0 <= be_decode 0 bs < 2 ^ (8 * Z.of_nat (length bs)).
Proof.
  induction 1 as [|b bs Hb _ IH]; [cbn; lia|].
  cbn [be_decode length]. rewrite be_decode_acc.
  replace (8 * Z.of_nat (S (length bs))) with (8 + 8 * Z.of_nat (length bs)) by lia.
  rewrite Z.pow_add_r by lia. unfold is_u8 in Hb.
  assert (0 < 2 ^ (8 * Z.of_nat (length bs))) by (apply Z.pow_pos_nonneg; lia). nia.
Qed.

Lemma be_decode_app l1 l2 acc : be_decode acc (l1 ++ l2) = be_decode (be_decode acc l1) l2.
Proof. revert acc. induction l1; intros; simpl; auto. Qed.

(** The [k] low-order bytes of [n], most significant first. *)
Fixpoint be_digits (k : nat) (n : Z) : list Z :=
  match k with
  | O => []
  | S k' => u8 (Z.shiftr n (8 * Z.of_nat k')) :: be_digits k' n
  end.

Lemma be_digits_u8 k n : Forall is_u8 (be_digits k n).
Proof. induction k; simpl; constructor; auto with cint. Qed.

Lemma length_be_digits k n : length (be_digits k n) = k.
Proof. induction k; simpl; congruence. Qed.

Lemma be_decode_digits k n acc :
  be_decode acc (be_digits k n) = acc * 2 ^ (8 * Z.of_nat k) + n mod 2 ^ (8 * Z.of_nat k).
Proof.
  revert acc. induction k as [|k IH]; intros acc.
  - cbn [be_decode be_digits]. change (2 ^ (8 * Z.of_nat 0)) with 1. rewrite Z.mod_1_r. lia.
  - cbn [be_decode be_digits]. rewrite IH. unfold u8. rewrite Z.shiftr_div_pow2 by lia.
    replace (8 * Z.of_nat (S k)) with (8 * Z.of_nat k + 8) by lia.
    rewrite Z.pow_add_r by lia.
    rewrite (Z.rem_mul_r n (2 ^ (8 * Z.of_nat k))) by lia. ring.
Qed.

(** ** Exhaustive checks over bytes *)
Definition all_bytes : list Z := seqZ 0 256.

Lemma forall_bytes (f : Z -> bool) :
  forallb f all_bytes = true -> forall b, is_u8 b -> f b = true.
Proof.
  intros H b Hb. rewrite forallb_forall in H. apply H.
  apply list_elem_of_In, elem_of_seqZ. unfold is_u8 in Hb. lia.
Qed.

Lemma forall_bytes2 (f : Z -> Z -> bool) :
  forallb (fun a => forallb (f a) all_bytes) all_bytes = true ->
  forall a b, is_u8 a -> is_u8 b -> f a b = true.
Proof.
  intros H a b Ha Hb. apply (forall_bytes (f a)); [|done].
  apply (forall_bytes (fun a => forallb (f a) all_bytes)); done.
Qed.

Lemma Forall_filter_sub {A} (P Q : A -> Prop) `{!forall x, Decision (Q x)} l :
  Forall P l -> Forall P (filter Q l).
Proof. induction 1; [constructor|]. rewrite filter_cons. case_decide; [constructor|]; done. Qed.

Lemma filter_all {A} (P : A -> Prop) `{!forall x, Decision (P x)} (l : list A) : (forall x, x ∈ l -> P x) -> filter P l = l.
Proof.
  induction l as [|x l IH]; intros HP; [done|]. rewrite filter_cons, decide_True by (apply HP; left).
  f_equal. apply IH. intros y Hy. apply HP. by right.
Qed.

(** Zipping a prefix in two parts. *)
Lemma zip_prefix_split {A B} (f : A -> B -> A) k n (l1 : list A) (l2 : list B) :
  (k <= n)%nat -> (n <= length l1)%nat -> (n <= length l2)%nat ->
  zip_with f (take k l1) (take k l2) ++
    zip_with f (take (n - k) (drop k l1)) (take (n - k) (drop k l2)) ++ drop (n - k) (drop k l1) =
  zip_with f (take n l1) (take n l2) ++ drop n l1.
Proof.
  intros Hk H1 H2. rewrite app_assoc, <- zip_with_app by (rewrite !length_take; lia).
  rewrite !take_take_drop, drop_drop. by replace (k + (n - k))%nat with n by lia.
Qed.

(** ** Arrays: [nth] reads and list-insert writes *)
Lemma nth_insert_eq {A} (l : list A) k v d : (k < length l)%nat -> nth k (<[k:=v]> l) d = v.
Proof. intros. apply nth_lookup_Some, list_lookup_insert_eq. done. Qed.

Lemma nth_insert_ne {A} (l : list A) j k v d : j <> k -> nth j (<[k:=v]> l) d = nth j l d.
Proof. intros. rewrite !nth_lookup. by rewrite list_lookup_insert_ne. Qed.

Lemma nth_lookup_lt {A} (l : list A) k d : (k < length l)%nat -> l !! k = Some (nth k l d).
Proof. intros Hk. destruct (lookup_lt_is_Some_2 l k Hk) as [x Hx]. by rewrite Hx, (nth_lookup_Some _ _ _ _ Hx). Qed.

Lemma Forall_nth_lt {A} (P : A -> Prop) l k d : Forall P l -> (k < length l)%nat -> P (nth k l d).
Proof. intros HP Hk. eapply Forall_lookup_1; [done|]. by apply nth_lookup_lt. Qed.

Lemma Forall2_nth_lt {A B} (R : A -> B -> Prop) l k i d d' :
  Forall2 R l k -> (i < length l)%nat -> R (nth i l d) (nth i k d').
Proof.
  intros HR Hi. pose proof (Forall2_length HR).
  eapply Forall2_lookup_lr; [done|apply nth_lookup_lt; lia|apply nth_lookup_lt; lia].
Qed.

Lemma Forall_nth_u8 l k : Forall is_u8 l -> is_u8 (nth k l 0).
Proof.
  intros Hl. destruct (Nat.lt_ge_cases k (length l)); [by apply Forall_nth_lt|].
  rewrite nth_overflow by done. unfold is_u8. lia.
Qed.
#[export] Hint Resolve Forall_nth_u8 : cint.

Lemma nth_replicate {A} n i (x : A) : nth i (replicate n x) x = x.
Proof. revert i. induction n as [|n IH]; intros [|i]; cbn; auto. Qed.

(** A fold keeps what every step keeps. *)
Lemma foldl_keeps {A B} (P : A -> Prop) (f : A -> B -> A) l x :
  P x -> (forall y b, P y -> P (f y b)) -> P (foldl f x l).
Proof. intros Hx Hf. revert x Hx. induction l as [|b l IH]; intros x Hx; cbn [foldl]; auto. Qed.

(** The same, for a step that may use that its argument is in the list. *)
Lemma foldl_inv {A B} (P : A -> Prop) (f : A -> B -> A) (l : list B) s :
  P s -> (forall s x, P s -> x ∈ l -> P (f s x)) -> P (foldl f s l).
Proof.
  revert s. induction l as [|x l IH]; intros s Hs Hf; cbn [foldl]; [done|].
  apply IH; [apply Hf; [done|left]|]. intros. apply Hf; [done|by right].
Qed.

Lemma iter_inv {A} (P : A -> Prop) (f : A -> A) n x : P x -> (forall y, P y -> P (f y)) -> P (Nat.iter n f x).
Proof. intros Hx Hf. induction n as [|n IH]; [done|]. apply Hf, IH. Qed.
