(* ===== verification/IntFormat.v ===== *)
(** * Integer formats of the wire: picoquic/intformat.c

    Fixed-width big-endian integers ([picoformat_16/32/64], read back with the
    [PICOPARSE_16/32/64] macros of picoquic_internal.h) and QUIC variable-length
    integers.  A formatting function is modelled by the list of bytes it writes
    at its target, whose length is the C return value; a parsing function takes
    the bytes from its pointer to the end of the object it points into and
    returns [None] when the C code would read past that end. *)
From stdpp Require Import base list numbers.
From Stdlib Require Import ZArith Lia.
From S2P Require Import Prelude.
#[local] Open Scope Z_scope.

Module IntFormat.

Definition picoformat_16 (n16 : Z) : list Z := [u8 (Z.shiftr n16 8); u8 n16].

Definition picoformat_32 (n32 : Z) : list Z :=
  [u8 (Z.shiftr n32 24); u8 (Z.shiftr n32 16); u8 (Z.shiftr n32 8); u8 n32].

Definition picoformat_64 (n64 : Z) : list Z :=
  [u8 (Z.shiftr n64 56); u8 (Z.shiftr n64 48); u8 (Z.shiftr n64 40); u8 (Z.shiftr n64 32);
   u8 (Z.shiftr n64 24); u8 (Z.shiftr n64 16); u8 (Z.shiftr n64 8); u8 n64].

(** The [PICOPARSE] macros; [b] is the pointer they index. *)
Definition PICOPARSE_16 (b : list Z) : option Z :=
  match b with
  | b0 :: b1 :: _ => Some (Z.lor (Z.shiftl b0 8) b1)
  | _ => None
  end.

Definition PICOPARSE_24 (b : list Z) : option Z :=
  hi ← PICOPARSE_16 b; b2 ← b !! 2%nat; Some (Z.lor (u32 (Z.shiftl hi 16)) b2).

Definition PICOPARSE_32 (b : list Z) : option Z :=
  hi ← PICOPARSE_16 b; lo ← PICOPARSE_16 (drop 2 b); Some (Z.lor (u32 (Z.shiftl hi 16)) lo).

Definition PICOPARSE_64 (b : list Z) : option Z :=
  hi ← PICOPARSE_32 b; lo ← PICOPARSE_32 (drop 4 b); Some (Z.lor (u64 (Z.shiftl hi 32)) lo).

Definition picoquic_varint_encode (max_bytes n64 : Z) : list Z :=
  if n64 <? 16384 then
    if n64 <? 64 then
      if 0 <? max_bytes then [u8 n64] else []
    else if 2 <=? max_bytes then [u8 (Z.lor (Z.shiftr n64 8) 0x40); u8 n64] else []
  else if n64 <? 1073741824 then
    if 4 <=? max_bytes then
      [u8 (Z.lor (Z.shiftr n64 24) 0x80); u8 (Z.shiftr n64 16); u8 (Z.shiftr n64 8); u8 n64]
    else []
  else
    if 8 <=? max_bytes then
      [u8 (Z.lor (Z.shiftr n64 56) 0xC0); u8 (Z.shiftr n64 48); u8 (Z.shiftr n64 40);
       u8 (Z.shiftr n64 32); u8 (Z.shiftr n64 24); u8 (Z.shiftr n64 16);
       u8 (Z.shiftr n64 8); u8 n64]
    else [].

Definition picoquic_varint_encode_16 (n16 : Z) : list Z :=
  [u8 (Z.land (Z.lor (Z.shiftr n16 8) 0x40) 0x7F); u8 n16].

(** [((size_t)1) << ((bytes[0] & 0xC0) >> 6)] *)
Definition varint_prefix_length (b0 : Z) : Z := Z.shiftl 1 (Z.shiftr (Z.land b0 0xC0) 6).

(** The [for] loop of the decoder: [v <<= 8; v += *bytes++]. *)
Fixpoint varint_decode_loop (n : nat) (bytes : list Z) (v : Z) : option Z :=
  match n with
  | O => Some v
  | S n' =>
    match bytes with
    | [] => None
    | b :: bytes' => varint_decode_loop n' bytes' (u64 (u64 (Z.shiftl v 8) + b))
    end
  end.

(** Returns [(length, *n64)]. *)
Definition picoquic_varint_decode (bytes : list Z) (max_bytes : Z) : option (Z * Z) :=
  match bytes with
  | [] => None
  | b0 :: bytes' =>
    let length := varint_prefix_length b0 in
    if max_bytes <? length then Some (0, 0)
    else v ← varint_decode_loop (Z.to_nat (length - 1)) bytes' (Z.land b0 0x3F);
         Some (length, v)
  end.

Definition picoquic_varint_skip (bytes : list Z) : option Z :=
  b0 ← head bytes; Some (varint_prefix_length b0).

Definition picoquic_varint_len (val : Z) : Z :=
  if val <=? 63 then 1
  else if val <=? 16383 then 2
  else if val <=? 1073741823 then 4
  else if val <=? 4611686018427387903 then 8
  else 0.

(** ** Lemmas *)

(** Evaluates the closed powers of two that a length in bytes gives. *)
#[local] Ltac compute_pow :=
  repeat match goal with
    | H : context [2 ^ (8 * Z.of_nat (Z.to_nat ?m))] |- _ =>
      let v := eval vm_compute in (2 ^ (8 * Z.of_nat (Z.to_nat m))) in
      change (2 ^ (8 * Z.of_nat (Z.to_nat m))) with v in *
    | |- context [2 ^ (8 * Z.of_nat (Z.to_nat ?m))] =>
      let v := eval vm_compute in (2 ^ (8 * Z.of_nat (Z.to_nat m))) in
      change (2 ^ (8 * Z.of_nat (Z.to_nat m))) with v in *
    end.

(** What the two top bits of the first byte announce: length [2^k]. *)
Lemma prefix_byte k x :
  0 <= k <= 3 -> 0 <= x < 64 ->
  u8 (Z.lor x (64 * k)) = 64 * k + x /\
  varint_prefix_length (64 * k + x) = 2 ^ k /\ Z.land (64 * k + x) 0x3F = x.
Proof.
  intros Hk Hx.
  pose (f := fun b => let k := b / 64 in let x := b mod 64 in
    (u8 (Z.lor x (64 * k)) =? 64 * k + x) &&
    (varint_prefix_length (64 * k + x) =? 2 ^ k) && (Z.land (64 * k + x) 0x3F =? x)).
  assert (f (64 * k + x) = true) as Hf.
  { apply forall_bytes; [vm_compute; reflexivity|]. unfold is_u8. lia. }
  unfold f in Hf.
  replace ((64 * k + x) / 64) with k in Hf by (apply (Z.div_unique _ _ _ x); lia).
  replace ((64 * k + x) mod 64) with x in Hf by (apply (Z.mod_unique _ _ k); lia).
  reflect_cmp. tauto.
Qed.

(** The top byte of the 8-byte form, for any 64-bit value: its two upper bits
    are overwritten. *)
Lemma prefix_byte_top x :
  is_u8 x -> u8 (Z.lor x 0xC0) = 64 * 3 + x mod 64.
Proof.
  intros Hx. apply Z.eqb_eq.
  apply (forall_bytes (fun x => u8 (Z.lor x 0xC0) =? 64 * 3 + x mod 64)); [|done].
  vm_compute; reflexivity.
Qed.

Lemma decode_loop_spec bs rest v :
  Forall is_u8 bs -> 0 <= v -> v * 2 ^ (8 * Z.of_nat (length bs)) + 2 ^ (8 * Z.of_nat (length bs)) <= 2 ^ 64 ->
  varint_decode_loop (length bs) (bs ++ rest) v = Some (be_decode v bs).
Proof.
  intros Hbs. revert v. induction Hbs as [|b bs Hb _ IH]; intros v Hv Hbound; [done|].
  cbn [length app varint_decode_loop be_decode].
  replace (8 * Z.of_nat (length (b :: bs))) with (8 + 8 * Z.of_nat (length bs)) in Hbound by (simpl length; lia).
  rewrite Z.pow_add_r in Hbound by lia.
  assert (1 <= 2 ^ (8 * Z.of_nat (length bs))) by (apply Z.pow_le_mono_r with (b := 0); lia).
  unfold is_u8 in Hb. rewrite Z.shiftl_mul_pow2 by lia.
  rewrite (u64_small (v * _)) by nia. rewrite u64_small by nia.
  apply IH; nia.
Qed.

Lemma decode_app b0 bs rest max_bytes :
  is_u8 b0 -> Forall is_u8 bs -> varint_prefix_length b0 = 1 + Z.of_nat (length bs) ->
  (length bs <= 7)%nat -> 1 + Z.of_nat (length bs) <= max_bytes ->
  picoquic_varint_decode (b0 :: bs ++ rest) max_bytes =
  Some (1 + Z.of_nat (length bs), be_decode (Z.land b0 0x3F) bs).
Proof.
  intros Hb0 Hbs Hlen H7 Hmax. unfold picoquic_varint_decode. rewrite Hlen.
  destruct (Z.ltb_spec max_bytes (1 + Z.of_nat (length bs))); [lia|].
  replace (Z.to_nat (1 + Z.of_nat (length bs) - 1)) with (length bs) by lia.
  change 63 with (2 ^ 6 - 1). rewrite land_ones_mod by lia.
  assert (0 <= b0 mod 2 ^ 6 < 2 ^ 6) by (apply Z.mod_pos_bound; lia).
  rewrite decode_loop_spec; [reflexivity|done|lia|].
  assert (2 ^ (8 * Z.of_nat (length bs)) <= 2 ^ 56) by (apply Z.pow_le_mono_r; lia). nia.
Qed.

Lemma PICOPARSE_16_be b0 b1 rest :
  is_u8 b0 -> is_u8 b1 -> PICOPARSE_16 (b0 :: b1 :: rest) = Some (be_decode 0 [b0; b1]).
Proof.
  intros H0 H1. unfold is_u8 in *. cbn [PICOPARSE_16 be_decode].
  rewrite Z.shiftl_mul_pow2, lor_add_disjoint by lia. f_equal.
Qed.

Lemma PICOPARSE_32_be b rest :
  Forall is_u8 b -> length b = 4%nat -> PICOPARSE_32 (b ++ rest) = Some (be_decode 0 b).
Proof.
  intros Hb Hl. destruct b as [|b0 [|b1 [|b2 [|b3 [|]]]]]; try discriminate.
  decompose_Forall_hyps. unfold PICOPARSE_32. cbn [app drop].
  rewrite !PICOPARSE_16_be by done. cbn [mbind option_bind].
  pose proof (be_decode_bound [b0; b1] ltac:(auto using Forall_cons_2, Forall_nil_2)).
  pose proof (be_decode_bound [b2; b3] ltac:(auto using Forall_cons_2, Forall_nil_2)).
  cbn [length] in *. rewrite Z.shiftl_mul_pow2, u32_small by lia.
  rewrite lor_add_disjoint by lia. f_equal. cbn [be_decode]. ring.
Qed.

Lemma PICOPARSE_64_be b rest :
  Forall is_u8 b -> length b = 8%nat -> PICOPARSE_64 (b ++ rest) = Some (be_decode 0 b).
Proof.
  intros Hb Hl.
  assert (exists l1 l2, b = l1 ++ l2 /\ length l1 = 4%nat /\ length l2 = 4%nat) as (l1 & l2 & -> & Hl1 & Hl2).
  { exists (take 4 b), (drop 4 b). rewrite take_drop. split; [done|]. split; [rewrite length_take|rewrite length_drop]; lia. }
  apply Forall_app in Hb as [Hb1 Hb2]. rewrite <- app_assoc.
  unfold PICOPARSE_64. rewrite PICOPARSE_32_be by done. cbn [mbind option_bind].
  rewrite drop_app_length' by done. rewrite PICOPARSE_32_be by done. cbn [mbind option_bind].
  pose proof (be_decode_bound _ Hb1) as B1. pose proof (be_decode_bound _ Hb2) as B2.
  rewrite Hl1 in B1. rewrite Hl2 in B2.
  rewrite Z.shiftl_mul_pow2, u64_small by lia. rewrite lor_add_disjoint by lia.
  rewrite be_decode_app, (be_decode_acc l2 (be_decode 0 l1)), Hl2. reflexivity.
Qed.

(** Every encoding is the length prefix in the two upper bits of the first
    byte, followed by the value in network order. *)
Lemma encode_shape max_bytes n64 :
  0 <= n64 < 2 ^ 64 ->
  picoquic_varint_encode max_bytes n64 = [] \/
  exists k : Z, 0 <= k <= 3 /\ 2 ^ k <= max_bytes /\
    let len := Z.to_nat (2 ^ k - 1) in
    picoquic_varint_encode max_bytes n64 =
      (64 * k + (n64 / 2 ^ (8 * Z.of_nat len)) mod 64) :: be_digits len n64 /\
    (n64 < 2 ^ 62 -> picoquic_varint_len n64 = 2 ^ k /\ n64 < 2 ^ (8 * 2 ^ k - 2)).
Proof.
  intros Hn. unfold picoquic_varint_encode, picoquic_varint_len.
  case_cmp; try (left; reflexivity); try lia; right.
  1: exists 0. 2: exists 1. 3: exists 2. 4-5: exists 3.
  all: split; [lia|]; split; [lia|]; cbv zeta; split; [|lia].
  all: match goal with |- _ = (64 * ?k + _) :: be_digits ?l _ =>
         let v := eval vm_compute in l in change l with v end.
  all: cbn [be_digits]; change (Z.of_nat 0) with 0; rewrite ?Z.shiftr_0_r; f_equal.
  all: try reflexivity.
  - change (2 ^ (8 * Z.of_nat 0)) with 1. rewrite Z.div_1_r, u8_small, Z.mod_small by lia. reflexivity.
  - change (8 * Z.of_nat 1) with 8. rewrite Z.shiftr_div_pow2 by lia.
    assert (0 <= n64 / 2 ^ 8 < 64) by (split; [apply Z.div_pos|apply Z.div_lt_upper_bound]; lia).
    rewrite Z.mod_small by lia. apply (prefix_byte 1); lia.
  - change (8 * Z.of_nat 3) with 24. rewrite Z.shiftr_div_pow2 by lia.
    assert (0 <= n64 / 2 ^ 24 < 64) by (split; [apply Z.div_pos|apply Z.div_lt_upper_bound]; lia).
    rewrite Z.mod_small by lia. apply (prefix_byte 2); lia.
  - change (8 * Z.of_nat 7) with 56. rewrite Z.shiftr_div_pow2 by lia. apply prefix_byte_top.
    split; [apply Z.div_pos|apply Z.div_lt_upper_bound]; lia.
  - change (8 * Z.of_nat 7) with 56. rewrite Z.shiftr_div_pow2 by lia. apply prefix_byte_top.
    split; [apply Z.div_pos|apply Z.div_lt_upper_bound]; lia.
Qed.

Lemma encode_nonempty max_bytes n64 :
  picoquic_varint_len n64 <= max_bytes -> n64 < 2 ^ 62 \/ 8 <= max_bytes ->
  picoquic_varint_encode max_bytes n64 <> [].
Proof.
  unfold picoquic_varint_encode, picoquic_varint_len. intros H H'. case_cmp; lia || discriminate.
Qed.

(** Decoding what [picoquic_varint_encode] wrote, with anything behind it. *)
Lemma decode_shape k x rest max_bytes len :
  0 <= k <= 3 -> len = Z.to_nat (2 ^ k - 1) -> 2 ^ k <= max_bytes ->
  picoquic_varint_decode
    ((64 * k + (x / 2 ^ (8 * Z.of_nat len)) mod 64) :: be_digits len x ++ rest) max_bytes =
  Some (2 ^ k, x mod 2 ^ (8 * 2 ^ k - 2)).
Proof.
  intros Hk Hlen Hmax.
  assert (1 <= 2 ^ k <= 8).
  { split; [apply Z.pow_le_mono_r with (b := 0); lia|]. change 8 with (2 ^ 3). apply Z.pow_le_mono_r; lia. }
  assert (0 <= (x / 2 ^ (8 * Z.of_nat len)) mod 64 < 64) as Hd by (apply Z.mod_pos_bound; lia).
  destruct (prefix_byte k _ Hk Hd) as (_ & Hpl & Hland).
  rewrite decode_app; rewrite ?length_be_digits; try (rewrite Hpl); try lia.
  - rewrite Hland, be_decode_digits. f_equal. f_equal; [lia|].
    replace (8 * 2 ^ k - 2) with (8 * Z.of_nat len + 6) by lia.
    rewrite Z.pow_add_r, Z.rem_mul_r by lia. change (2 ^ 6) with 64. lia.
  - unfold is_u8. lia.
  - apply be_digits_u8.
Qed.

(** A decoder that succeeds returns a value in the range of its length. *)
Lemma decode_loop_be n bytes v w :
  Forall is_u8 bytes -> 0 <= v -> v * 2 ^ (8 * Z.of_nat n) + 2 ^ (8 * Z.of_nat n) <= 2 ^ 64 ->
  (n <= length bytes)%nat ->
  varint_decode_loop n bytes v = Some w -> w = be_decode v (take n bytes).
Proof.
  intros Hb Hv Hbound Hn Heq.
  assert (length (take n bytes) = n) as Hl by (rewrite length_take; lia).
  rewrite <- (take_drop n bytes) in Heq. rewrite <- Hl in Heq at 1.
  rewrite decode_loop_spec in Heq; rewrite ?Hl; try done; [congruence|].
  by apply Forall_take.
Qed.

Lemma decode_loop_range n bytes v w :
  Forall is_u8 bytes -> 0 <= v -> (v + 1) * 2 ^ (8 * Z.of_nat n) <= 2 ^ 64 ->
  varint_decode_loop n bytes v = Some w -> 0 <= w < (v + 1) * 2 ^ (8 * Z.of_nat n).
Proof.
  revert bytes v. induction n as [|n IH]; intros bytes v Hb Hv Hm H; [injection H as <-; simpl; lia|].
  destruct bytes as [|b bytes]; [done|]. simpl in H. apply list.Forall_cons in Hb as [Hb Hbs].
  rewrite Nat2Z.inj_succ in *. replace (8 * Z.succ (Z.of_nat n)) with (8 + 8 * Z.of_nat n) in * by lia.
  rewrite Z.pow_add_r in * by lia. change (2 ^ 8) with 256 in *.
  assert (1 <= 2 ^ (8 * Z.of_nat n)) by (apply (Z.pow_le_mono_r 2 0); lia).
  unfold is_u8 in Hb. rewrite Z.shiftl_mul_pow2 in H by lia. change (2 ^ 8) with 256 in H.
  rewrite (u64_small (v * 256)), (u64_small (v * 256 + b)) in H by nia.
  apply IH in H; [|done|lia|nia]. nia.
Qed.

(** What the decoder returns is in range whatever it reads. *)
Lemma decode_range bytes max_bytes n v :
  Forall is_u8 bytes -> picoquic_varint_decode bytes max_bytes = Some (n, v) -> 0 <= n <= 8 /\ 0 <= v < 2 ^ 62.
Proof.
  intros Hb. destruct bytes as [|b0 bytes]; [done|]. apply list.Forall_cons in Hb as [Hb0 Hb]. unfold is_u8 in Hb0.
  assert (exists k x, 0 <= k <= 3 /\ 0 <= x < 64 /\ b0 = 64 * k + x) as (k & x & Hk & Hx & ->).
  { exists (b0 / 64), (b0 mod 64). pose proof (Z.div_mod b0 64). pose proof (Z.mod_pos_bound b0 64). lia. }
  destruct (prefix_byte k x Hk Hx) as (_ & Hpl & Hland). unfold picoquic_varint_decode. rewrite Hpl, Hland.
  destruct (Z.ltb_spec max_bytes (2 ^ k)); [intros [= <- <-]; lia|].
  destruct (varint_decode_loop _ _ _) as [w|] eqn:Hl; [|done]. intros [= <- <-].
  assert (Hk8 : 1 <= 2 ^ k <= 2 ^ 3) by (split; [apply (Z.pow_le_mono_r 2 0)|apply Z.pow_le_mono_r]; lia).
  change (2 ^ 3) with 8 in Hk8.
  assert (2 ^ (8 * Z.of_nat (Z.to_nat (2 ^ k - 1))) <= 2 ^ 56) by (apply Z.pow_le_mono_r; lia).
  apply decode_loop_range in Hl; [nia|done|lia|nia].
Qed.

(** Encoding, then decoding or skipping. *)
Lemma varint_encode_decode (n64 max_bytes max_bytes' : Z) (rest : list Z) :
  0 <= n64 < 2 ^ 62 -> picoquic_varint_len n64 <= max_bytes -> picoquic_varint_len n64 <= max_bytes' ->
  let enc := picoquic_varint_encode max_bytes n64 in
  Z.of_nat (length enc) = picoquic_varint_len n64 /\ Forall is_u8 enc /\
  picoquic_varint_decode (enc ++ rest) max_bytes' = Some (picoquic_varint_len n64, n64) /\
  picoquic_varint_skip (enc ++ rest) = Some (picoquic_varint_len n64).
Proof.
  intros Hn Hmax Hmax' enc. subst enc.
  pose proof (encode_nonempty max_bytes n64 Hmax ltac:(lia)) as Hne.
  destruct (encode_shape max_bytes n64 ltac:(lia)) as [?|(k & Hk & Hkm & Henc & Hlen)]; [done|].
  cbv zeta in Henc. destruct Hlen as [Hlen Hlt]; [lia|]. rewrite Henc, Hlen in *.
  assert (1 <= 2 ^ k) by (apply Z.pow_le_mono_r with (b := 0); lia).
  set (x := (n64 / _) mod 64) in *.
  assert (0 <= x < 64) by (apply Z.mod_pos_bound; lia).
  split_and!.
  - cbn [length]. rewrite length_be_digits. lia.
  - constructor; [unfold is_u8; lia|apply be_digits_u8].
  - cbn [app]. subst x. rewrite decode_shape by done. rewrite Z.mod_small by lia. done.
  - cbn. f_equal. apply (prefix_byte k); lia.
Qed.

(** ** Properties *)

(** A QUIC variable-length integer below 2^62 that is encoded in a buffer of at
    least [picoquic_varint_len] bytes takes exactly that many bytes, and decoding (or
    skipping) those bytes, whatever follows them, gives the integer and its length back. *)
Theorem varint_roundtrip (n64 max_bytes max_bytes' : Z) (rest : list Z) :
  0 <= n64 < 2 ^ 62 -> picoquic_varint_len n64 <= max_bytes -> picoquic_varint_len n64 <= max_bytes' ->
  let enc := picoquic_varint_encode max_bytes n64 in
  Z.of_nat (length enc) = picoquic_varint_len n64 /\ Forall is_u8 enc /\
  picoquic_varint_decode (enc ++ rest) max_bytes' = Some (picoquic_varint_len n64, n64) /\
  picoquic_varint_skip (enc ++ rest) = Some (picoquic_varint_len n64).
Proof. apply varint_encode_decode. Qed.

Lemma varint_roundtrip_witness :
  (let enc := picoquic_varint_encode 8 15293 in
   Z.of_nat (length enc) = picoquic_varint_len 15293 /\ Forall is_u8 enc /\
   picoquic_varint_decode (enc ++ [7; 7]) 4 = Some (picoquic_varint_len 15293, 15293) /\
   picoquic_varint_skip (enc ++ [7; 7]) = Some (picoquic_varint_len 15293)) /\
  picoquic_varint_encode 8 15293 = [0x7b; 0xbd].
Proof.
  split; [apply (varint_roundtrip 15293 8 4 [7; 7]); first [lia | vm_compute; discriminate]|].
  reflexivity.
Defined.

(** The encoder never writes more than [max_bytes] bytes, writes nothing when the value
    does not fit, and on a 64-bit value of 2^62 or more (for which [picoquic_varint_len] is 0)
    it silently writes the value modulo 2^62. *)
Theorem varint_encode_bounds (n64 max_bytes : Z) (rest : list Z) :
  0 <= n64 < 2 ^ 64 -> 0 <= max_bytes ->
  let enc := picoquic_varint_encode max_bytes n64 in
  Z.of_nat (length enc) <= max_bytes /\
  (max_bytes < picoquic_varint_len n64 -> enc = []) /\
  (2 ^ 62 <= n64 -> 8 <= max_bytes ->
   picoquic_varint_len n64 = 0 /\
   picoquic_varint_decode (enc ++ rest) 8 = Some (8, n64 mod 2 ^ 62)).
Proof.
  intros Hn Hmax enc. subst enc. split_and!.
  - unfold picoquic_varint_encode. case_cmp; simpl; lia.
  - unfold picoquic_varint_len, picoquic_varint_encode. intros. case_cmp; lia || done.
  - intros H62 H8. split; [unfold picoquic_varint_len; case_cmp; lia|].
    assert (picoquic_varint_len n64 <= max_bytes) by (unfold picoquic_varint_len; case_cmp; lia).
    pose proof (encode_nonempty max_bytes n64 ltac:(done) ltac:(lia)) as Hne.
    destruct (encode_shape max_bytes n64 ltac:(lia)) as [?|(k & Hk & Hkm & Henc & _)]; [done|].
    cbv zeta in Henc. assert (k = 3) as ->.
    { apply (f_equal length) in Henc. cbn [length] in Henc. rewrite length_be_digits in Henc.
      unfold picoquic_varint_encode in Henc. case_cmp; try lia. cbn [length] in Henc.
      assert (k = 0 \/ k = 1 \/ k = 2 \/ k = 3) as [->|[->|[->| ->]]] by lia; try done. }
    rewrite Henc. cbn [app]. rewrite decode_shape by (lia || done). reflexivity.
Qed.

Lemma varint_encode_bounds_witness :
  picoquic_varint_decode (picoquic_varint_encode 8 (2 ^ 63 + 5) ++ []) 8 = Some (8, (2 ^ 63 + 5) mod 2 ^ 62).
Proof.
  apply (varint_encode_bounds (2 ^ 63 + 5) 8 []); lia.
Defined.

(** The decoder never reads past [max_bytes] bytes of its input (as long as that is
    at least one byte), and returns either length 0, when the announced length does not fit,
    or a value below 2^62 whose minimal encoding is no longer than the bytes consumed. *)
Theorem varint_decode_safe (bytes : list Z) (max_bytes : Z) :
  Forall is_u8 bytes -> 1 <= max_bytes <= Z.of_nat (length bytes) ->
  exists len v, picoquic_varint_decode bytes max_bytes = Some (len, v) /\
  ((len = 0 /\ v = 0 /\ picoquic_varint_skip bytes <> Some len) \/
   (1 <= len <= max_bytes /\ 0 <= v < 2 ^ 62 /\ 1 <= picoquic_varint_len v <= len /\
    picoquic_varint_skip bytes = Some len)).
Proof.
  intros Hb Hmax. destruct bytes as [|b0 bytes]; [simpl in Hmax; lia|].
  inversion Hb as [|? ? Hb0 Hb']; subst. clear Hb. rename Hb' into Hb. unfold is_u8 in Hb0.
  assert (exists k x, 0 <= k <= 3 /\ 0 <= x < 64 /\ b0 = 64 * k + x) as (k & x & Hk & Hx & ->).
  { exists (b0 / 64), (b0 mod 64). repeat split; try apply Z.mod_pos_bound; try lia.
    - apply Z.div_pos; lia.
    - apply Z.lt_succ_r, Z.div_lt_upper_bound; lia.
    - apply Z.div_mod; lia. }
  destruct (prefix_byte k x Hk Hx) as (_ & Hpl & Hland).
  assert (1 <= 2 ^ k <= 8).
  { split; [apply Z.pow_le_mono_r with (b := 0); lia|]. change 8 with (2 ^ 3). apply Z.pow_le_mono_r; lia. }
  unfold picoquic_varint_decode, picoquic_varint_skip. cbn [head mbind option_bind]. rewrite Hpl, Hland.
  destruct (Z.ltb_spec max_bytes (2 ^ k)).
  - exists 0, 0. split; [done|]. left. split_and!; try done. intros [=]. lia.
  - set (n := Z.to_nat (2 ^ k - 1)). cbn [length] in Hmax.
    assert (Hl : length (take n bytes) = n) by (rewrite length_take; lia).
    assert (2 ^ (8 * Z.of_nat n) <= 2 ^ 56) by (apply Z.pow_le_mono_r; lia).
    assert (0 < 2 ^ (8 * Z.of_nat n)) by (apply Z.pow_pos_nonneg; lia).
    exists (2 ^ k), (be_decode x (take n bytes)).
    rewrite <- (take_drop n bytes) at 1. rewrite <- Hl at 1.
    rewrite decode_loop_spec by (rewrite ?Hl; first [apply Forall_take; done | nia]).
    split; [done|]. right.
    pose proof (be_decode_bound (take n bytes) ltac:(by apply Forall_take)) as Hbd. rewrite Hl in Hbd.
    rewrite be_decode_acc, Hl. set (y := be_decode 0 _) in *.
    assert (Hv : 0 <= x * 2 ^ (8 * Z.of_nat n) + y < 64 * 2 ^ (8 * Z.of_nat n)) by nia.
    split_and!; try done; try nia; unfold picoquic_varint_len;
    assert (k = 0 \/ k = 1 \/ k = 2 \/ k = 3) as [->|[->|[->| ->]]] by lia;
    subst n; compute_pow; case_cmp; lia.
Qed.

Lemma varint_decode_safe_witness :
  exists len v, picoquic_varint_decode [0x40; 0x25; 9] 3 = Some (len, v) /\
  ((len = 0 /\ v = 0 /\ picoquic_varint_skip [0x40; 0x25; 9] <> Some len) \/
   (1 <= len <= 3 /\ 0 <= v < 2 ^ 62 /\ 1 <= picoquic_varint_len v <= len /\
    picoquic_varint_skip [0x40; 0x25; 9] = Some len)).
Proof.
  apply (varint_decode_safe [0x40; 0x25; 9] 3); [repeat constructor; lia|simpl; lia].
Defined.

(** Fixed-width integers: parsing what [picoformat_16], [picoformat_32] or
    [picoformat_64] wrote gives the integer back. *)
Theorem picoformat_roundtrip (n : Z) (rest : list Z) :
  (0 <= n < 2 ^ 16 -> PICOPARSE_16 (picoformat_16 n ++ rest) = Some n) /\
  (0 <= n < 2 ^ 32 -> PICOPARSE_32 (picoformat_32 n ++ rest) = Some n) /\
  (0 <= n < 2 ^ 64 -> PICOPARSE_64 (picoformat_64 n ++ rest) = Some n).
Proof.
  assert (picoformat_16 n = be_digits 2 n /\ picoformat_32 n = be_digits 4 n /\
          picoformat_64 n = be_digits 8 n) as (E2 & E4 & E8).
  { cbn [be_digits]. change (8 * Z.of_nat 0) with 0. rewrite !Z.shiftr_0_r. done. }
  split_and!; intros Hn.
  - change (picoformat_16 n ++ rest) with (u8 (Z.shiftr n 8) :: u8 n :: rest).
    rewrite PICOPARSE_16_be by auto with cint.
    change [u8 (Z.shiftr n 8); u8 n] with (picoformat_16 n).
    rewrite E2, be_decode_digits. f_equal. apply Z.mod_small. done.
  - rewrite E4, PICOPARSE_32_be by (apply be_digits_u8 || done).
    rewrite be_decode_digits. f_equal. apply Z.mod_small. done.
  - rewrite E8, PICOPARSE_64_be by (apply be_digits_u8 || done).
    rewrite be_decode_digits. f_equal. apply Z.mod_small. done.
Qed.

Lemma picoformat_roundtrip_witness : PICOPARSE_32 (picoformat_32 0xdeadbeef ++ [1]) = Some 0xdeadbeef.
Proof. apply (picoformat_roundtrip 0xdeadbeef [1]). lia. Defined.

End IntFormat.
