(* ===== verification/Sacks.v ===== *)
(** * Received packet numbers: picoquic/sacks.c

    A packet context records what it received as a chain of
    [picoquic_sack_item_t], highest range first.  The first item is embedded in
    the context; [start_of_sack_range = UINT64_MAX] in it means that nothing
    has been received.  The same chains record the acknowledged byte ranges of
    a stream.

    The chain is modelled by its first item and the list of the items after it.
    The loop of [picoquic_update_sack_list] walks the chain with a [previous]
    pointer and splices items in and out; its model carries the items already
    passed, nearest first, so that [previous] is their head. *)
From stdpp Require Import base tactics list numbers sets.
From Stdlib Require Import ZArith Lia.
From S2P Require Import Prelude.
#[local] Open Scope Z_scope.

Module Sacks.

(** [picoquic_sack_item_t], without the link. *)
Record sack_item := Sack { start_of_sack_range : Z; end_of_sack_range : Z }.

(** The part of [picoquic_packet_context_t] the functions of sacks.c use. *)
Record sack_chain := Chain { first_sack_item : sack_item; next_sacks : list sack_item }.

Record packet_context := PktCtx {
  sacks : sack_chain;
  time_stamp_largest_received : Z
}.

(** The initialisation of a packet context, and its reset. *)
Definition init_sack_chain : sack_chain := Chain (Sack UINT64_MAX 0) [].

Definition items (c : sack_chain) : list sack_item := first_sack_item c :: next_sacks c.

(** A chain rebuilt from the items of a walk; the walk never drops them all. *)
Definition of_items (c : sack_chain) (l : list sack_item) : sack_chain :=
  match l with [] => c | s :: l' => Chain s l' end.

Fixpoint is_received_loop (l : list sack_item) (pn64 : Z) : bool :=
  match l with
  | [] => false
  | sack :: l' =>
    if end_of_sack_range sack <? pn64 then false
    else if start_of_sack_range sack <=? pn64 then true
    else is_received_loop l' pn64
  end.

Definition picoquic_is_pn_already_received (c : sack_chain) (pn64 : Z) : bool :=
  if start_of_sack_range (first_sack_item c) =? UINT64_MAX then false
  else is_received_loop (items c) pn64.

Section Update.
(** Whether [malloc] of a new item succeeds. *)
Variable malloc_ok : bool.

(** The [do ... while] of [picoquic_update_sack_list].  [prev] holds the items
    before [sack], nearest first; [next] those after it.  Returns [ret] and the
    items of the whole chain. *)
Fixpoint update_loop (prev : list sack_item) (sack : sack_item) (next : list sack_item)
    (pn64_min pn64_max ret : Z) {struct next} : Z * list sack_item :=
  let new_hole :=
    if malloc_ok then (0, rev_append prev (Sack pn64_min pn64_max :: sack :: next))
    else (-1, rev_append prev (sack :: next)) in
  if end_of_sack_range sack <? pn64_max then
    if pn64_min <=? u64 (end_of_sack_range sack + 1) then
      let '(prev', sack') :=
        match prev with
        | previous :: prev0 =>
          if start_of_sack_range previous <=? u64 (pn64_max + 1)
          then (prev0, Sack (start_of_sack_range sack) (end_of_sack_range previous))
          else (prev, Sack (start_of_sack_range sack) pn64_max)
        | [] => (prev, Sack (start_of_sack_range sack) pn64_max)
        end in
      if start_of_sack_range sack' <=? pn64_min then (0, rev_append prev' (sack' :: next))
      else
        match next with
        | [] => (0, rev_append prev' [Sack pn64_min (end_of_sack_range sack')])
        | sack'' :: next' =>
          update_loop (sack' :: prev') sack'' next' pn64_min (u64 (start_of_sack_range sack' - 1)) 0
        end
    else
      match prev with
      | previous :: prev0 =>
        if start_of_sack_range previous <=? u64 (pn64_max + 1)
        then (0, rev_append prev0 (Sack pn64_min (end_of_sack_range previous) :: sack :: next))
        else new_hole
      | [] => new_hole
      end
  else if start_of_sack_range sack <=? pn64_max then
    if pn64_min <? start_of_sack_range sack then
      match next with
      | [] => (0, rev_append prev [Sack pn64_min (end_of_sack_range sack)])
      | sack'' :: next' =>
        update_loop (sack :: prev) sack'' next' pn64_min (u64 (start_of_sack_range sack - 1)) 0
      end
    else (ret, rev_append prev (sack :: next))
  else
    match next with
    | [] =>
      if u64 (pn64_max + 1) =? start_of_sack_range sack
      then (0, rev_append prev [Sack pn64_min (end_of_sack_range sack)])
      else if malloc_ok then (0, rev_append prev [sack; Sack pn64_min pn64_max])
      else (-1, rev_append prev [sack])
    | sack'' :: next' => update_loop (sack :: prev) sack'' next' pn64_min pn64_max ret
    end.

Definition picoquic_update_sack_list (c : sack_chain) (pn64_min pn64_max : Z) : Z * sack_chain :=
  if start_of_sack_range (first_sack_item c) =? UINT64_MAX
  then (0, Chain (Sack pn64_min pn64_max) (next_sacks c))
  else
    let '(ret, l) := update_loop [] (first_sack_item c) (next_sacks c) pn64_min pn64_max 1 in
    (ret, of_items c l).

Definition picoquic_record_pn_received (p : packet_context) (pn64 current_microsec : Z) : Z * packet_context :=
  let c := sacks p in
  if start_of_sack_range (first_sack_item c) =? UINT64_MAX
  then (0, PktCtx (Chain (Sack pn64 pn64) (next_sacks c)) current_microsec)
  else
    let ts := if end_of_sack_range (first_sack_item c) <? pn64 then current_microsec
              else time_stamp_largest_received p in
    let '(ret, c') := picoquic_update_sack_list c pn64 pn64 in
    (ret, PktCtx c' ts).
End Update.

Fixpoint check_loop (l : list sack_item) (pn64_min pn64_max : Z) : Z :=
  match l with
  | [] => -1
  | sack :: l' =>
    if end_of_sack_range sack <? pn64_max then 0
    else if start_of_sack_range sack <=? pn64_max then
      if pn64_min <? start_of_sack_range sack then 0 else -1
    else match l' with
         | [] => 0
         | _ => check_loop l' pn64_min pn64_max
         end
  end.

Definition picoquic_check_sack_list (c : sack_chain) (pn64_min pn64_max : Z) : Z :=
  if start_of_sack_range (first_sack_item c) =? UINT64_MAX then 0
  else check_loop (items c) pn64_min pn64_max.

(** [process_ack_of_ack_range] of picoquic/frames.c: when our acknowledgement of
    a range was itself acknowledged, the range is pruned from the chain. *)
Fixpoint ack_of_ack_loop (next : list sack_item) (start_of_range end_of_range : Z) : list sack_item :=
  match next with
  | [] => []
  | sack :: next' =>
    if (end_of_sack_range sack =? end_of_range) && (start_of_sack_range sack =? start_of_range)
    then next'
    else if end_of_range <? end_of_sack_range sack
    then sack :: ack_of_ack_loop next' start_of_range end_of_range
    else next
  end.

Definition process_ack_of_ack_range (c : sack_chain) (start_of_range end_of_range : Z) : sack_chain :=
  let first := first_sack_item c in
  if start_of_sack_range first =? start_of_range then
    if end_of_range <? end_of_sack_range first
    then Chain (Sack (u64 (end_of_range + 1)) (end_of_sack_range first)) (next_sacks c)
    else Chain (Sack (end_of_sack_range first) (end_of_sack_range first)) (next_sacks c)
  else Chain first (ack_of_ack_loop (next_sacks c) start_of_range end_of_range).

(** ** Float16 time deltas *)

(** [while (mantissa > 0x0FFF)]; 64 halvings empty a 64-bit word. *)
Fixpoint float16_loop (fuel : nat) (exponent mantissa : Z) : Z * Z :=
  match fuel with
  | O => (exponent, mantissa)
  | S fuel' =>
    if 0x0FFF <? mantissa then float16_loop fuel' (exponent + 1) (Z.shiftr mantissa 1)
    else (exponent, mantissa)
  end.

Definition picoquic_deltat_to_float16 (delta_t : Z) : Z :=
  let '(exponent, mantissa) := float16_loop 64 0 delta_t in
  if 30 <? exponent then 0xFFFF
  else if negb (Z.land mantissa 0x0800 =? 0)
  then u16 (Z.lor (Z.land mantissa 0x07FF) (Z.shiftl (exponent + 1) 11))
  else u16 mantissa.

Definition picoquic_float16_to_deltat (float16 : Z) : Z :=
  let exponent := Z.shiftr float16 11 in
  let ret := Z.land float16 0x07FF in
  if negb (exponent =? 0) then u64 (Z.shiftl (Z.lor ret 0x0800) (exponent - 1)) else ret.

(** ** Invariant and meaning of a chain *)

(** An item is a non-empty range of packet numbers; the all-ones value is the
    sentinel and never a packet number. *)
Definition item_ok (s : sack_item) : Prop :=
  0 <= start_of_sack_range s <= end_of_sack_range s /\ end_of_sack_range s < UINT64_MAX.

(** Highest range first, each range below [hi] and separated from it by at
    least one missing number. *)
Fixpoint descending (hi : Z) (l : list sack_item) : Prop :=
  match l with
  | [] => True
  | s :: l' => item_ok s /\ end_of_sack_range s + 1 < hi /\ descending (start_of_sack_range s) l'
  end.

Definition is_empty (c : sack_chain) : bool := start_of_sack_range (first_sack_item c) =? UINT64_MAX.

Definition chain_ok (c : sack_chain) : Prop :=
  if is_empty c then next_sacks c = [] else descending (2 ^ 64) (items c).

Definition in_item (n : Z) (s : sack_item) : Prop := start_of_sack_range s <= n <= end_of_sack_range s.
Definition covered (l : list sack_item) (n : Z) : Prop := Exists (in_item n) l.

(** The set of numbers a chain stands for. *)
Definition received (c : sack_chain) (n : Z) : Prop := is_empty c = false /\ covered (items c) n.

(** ** Lemmas on chains *)

(** The items passed by a walk, nearest first: each above [lo]. *)
Fixpoint ascending (lo : Z) (l : list sack_item) : Prop :=
  match l with
  | [] => True
  | s :: l' => item_ok s /\ lo < start_of_sack_range s /\ ascending (end_of_sack_range s + 1) l'
  end.

Lemma descending_mono hi hi' l : hi <= hi' -> descending hi l -> descending hi' l.
Proof. destruct l as [|s l]; simpl; [done|]. intros ? (? & ? & ?). split_and!; [done|lia|done]. Qed.

Lemma ascending_mono lo lo' l : lo' <= lo -> ascending lo l -> ascending lo' l.
Proof. destruct l as [|s l]; simpl; [done|]. intros ? (? & ? & ?). split_and!; [done|lia|done]. Qed.

Lemma descending_rev_append prev l lo :
  lo < 2 ^ 64 -> ascending lo prev -> descending (lo + 1) l -> descending (2 ^ 64) (rev_append prev l).
Proof.
  revert l lo. induction prev as [|p prev IH]; intros l lo Hlo Hasc Hdesc; simpl.
  - eapply descending_mono; [|done]. lia.
  - destruct Hasc as (Hp & ? & Hasc). pose proof Hp as [? ?]. unfold UINT64_MAX in *.
    eapply IH; [|apply Hasc|]; [lia|]. simpl. split_and!; [done|lia|].
    eapply descending_mono; [|done]. lia.
Qed.

Lemma covered_cons s l n : covered (s :: l) n <-> in_item n s \/ covered l n.
Proof. apply Exists_cons. Qed.

Lemma covered_nil n : covered [] n <-> False.
Proof. apply Exists_nil. Qed.

Lemma covered_rev_append prev l n : covered (rev_append prev l) n <-> covered prev n \/ covered l n.
Proof.
  revert l. induction prev as [|p prev IH]; intros l; simpl.
  - rewrite covered_nil. tauto.
  - rewrite IH, !covered_cons. tauto.
Qed.

#[export] Hint Rewrite covered_cons covered_nil covered_rev_append : cint.

Lemma descending_not_covered hi l n : descending hi l -> hi <= n + 1 -> ~ covered l n.
Proof.
  revert hi. induction l as [|s l IH]; intros hi; simpl; rewrite ?covered_nil, ?covered_cons; [tauto|].
  intros ([? ?] & ? & Hl) Hn [Hs|Hs]; [unfold in_item in Hs; lia|].
  eapply IH; [apply Hl| |apply Hs]. lia.
Qed.

(** What one run of the update loop promises, as a predicate on its result. *)
Definition update_spec (prev : list sack_item) (chain : list sack_item) (lo hi ret : Z)
    (res : Z * list sack_item) : Prop :=
  descending (2 ^ 64) res.2 /\
  (forall n, covered res.2 n <-> covered prev n \/ covered chain n \/ lo <= n <= hi) /\
  ((res.1 = 0 /\ (ret = 0 \/ exists n, lo <= n <= hi /\ ~ covered chain n)) \/
   (res = (ret, rev_append prev chain) /\ forall n, lo <= n <= hi -> covered chain n)).

(** The reading of a result in which the loop replaced or added items. *)
Lemma update_spec_changed prev chain lo hi ret l n0 :
  descending (2 ^ 64) l ->
  (forall n, covered l n <-> covered prev n \/ covered chain n \/ lo <= n <= hi) ->
  lo <= n0 <= hi -> ~ covered chain n0 ->
  update_spec prev chain lo hi ret (0, l).
Proof. intros Hd Hc Hn Hnc. split; [done|]. split; [done|]. left. eauto. Qed.

(** Going on with the rest of a range below an item. *)
Lemma update_spec_continue prev prev' chain chain' lo hi hi' ret res n0 :
  update_spec prev' chain' lo hi' 0 res ->
  (forall n, covered prev' n \/ covered chain' n \/ lo <= n <= hi' <->
             covered prev n \/ covered chain n \/ lo <= n <= hi) ->
  lo <= n0 <= hi -> ~ covered chain n0 ->
  update_spec prev chain lo hi ret res.
Proof.
  intros (Hd & Hc & Hr) Heq Hn Hnc. split; [done|]. split; [intros n; by rewrite Hc|].
  left. split; [|eauto]. destruct Hr as [[? _]|[-> _]]; done.
Qed.

#[local] Ltac cov := intros ?; autorewrite with cint; unfold in_item; simpl; intuition (try lia).

(** The first phase of an extension upwards: the items [prev'] and [sack'] that
    replace [prev] and [sack] once the range reaches up to [hi]. *)
Definition extend_up (prev : list sack_item) (sack : sack_item) (hi : Z) : list sack_item * sack_item :=
  match prev with
  | previous :: prev0 =>
    if start_of_sack_range previous <=? u64 (hi + 1)
    then (prev0, Sack (start_of_sack_range sack) (end_of_sack_range previous))
    else (prev, Sack (start_of_sack_range sack) hi)
  | [] => (prev, Sack (start_of_sack_range sack) hi)
  end.

Lemma extend_up_spec prev sack hi prev' sack' :
  extend_up prev sack hi = (prev', sack') ->
  ascending (end_of_sack_range sack + 1) prev -> item_ok sack ->
  match prev with p :: _ => hi < start_of_sack_range p | [] => True end ->
  end_of_sack_range sack < hi < UINT64_MAX ->
  ascending (end_of_sack_range sack' + 1) prev' /\ item_ok sack' /\
  start_of_sack_range sack' = start_of_sack_range sack /\ hi <= end_of_sack_range sack' /\
  (forall n, covered prev' n \/ in_item n sack' <->
             covered prev n \/ in_item n sack \/ start_of_sack_range sack <= n <= hi).
Proof.
  unfold extend_up, item_ok, UINT64_MAX. intros Heq Hasc Hs Hp Hhi.
  destruct prev as [|p prev0]; [injection Heq as <- <-; simpl; split_and!; try lia; cov|].
  simpl in Hasc. destruct Hasc as ([? ?] & ? & Hasc). unfold UINT64_MAX in *.
  rewrite u64_small in Heq by lia.
  destruct (Z.leb_spec (start_of_sack_range p) (hi + 1)); injection Heq as <- <-; simpl;
    split_and!; try done; try lia; cov.
Qed.

(** The invariant of the walk. *)
Definition walk_ok (prev : list sack_item) (sack : sack_item) (next : list sack_item) (lo hi : Z) : Prop :=
  ascending (end_of_sack_range sack + 1) prev /\ item_ok sack /\
  descending (start_of_sack_range sack) next /\
  match prev with p :: _ => hi < start_of_sack_range p | [] => True end /\
  0 <= lo <= hi /\ hi < UINT64_MAX.

(** Ends of the walk: the items passed, then the rest of the chain. *)
Lemma walk_end prev sack next :
  ascending (end_of_sack_range sack + 1) prev -> item_ok sack ->
  descending (start_of_sack_range sack) next ->
  descending (2 ^ 64) (rev_append prev (sack :: next)).
Proof.
  intros Hasc Hs Hnext. pose proof Hs as [? ?]. unfold UINT64_MAX in *.
  eapply descending_rev_append; [|done|]; [lia|]. simpl. split_and!; [done|lia|done].
Qed.

Section Walk.
Context (prev : list sack_item) (sack : sack_item) (next : list sack_item) (lo hi ret : Z).
Context (Hwalk : walk_ok prev sack next lo hi).
(** The walk from any later item, for a range that ends below it. *)
Context (IH : forall sack'' next', next = sack'' :: next' -> forall prev hi ret,
  walk_ok prev sack'' next' lo hi ->
  update_spec prev (sack'' :: next') lo hi ret (update_loop true prev sack'' next' lo hi ret)).

(** The range starts below [sack] and ends in it or above it: it is taken up to
    [start - 1] by the rest of the walk. *)
Lemma walk_continue prev' sack' n0 :
  ascending (end_of_sack_range sack' + 1) prev' -> item_ok sack' ->
  start_of_sack_range sack' = start_of_sack_range sack ->
  (forall n, covered prev' n \/ in_item n sack' <->
             covered prev n \/ in_item n sack \/ start_of_sack_range sack <= n <= hi) ->
  lo < start_of_sack_range sack ->
  start_of_sack_range sack <= hi + 1 ->
  lo <= n0 <= hi -> ~ covered (sack :: next) n0 ->
  update_spec prev (sack :: next) lo hi ret
    (match next with
     | [] => (0, rev_append prev' [Sack lo (end_of_sack_range sack')])
     | sack'' :: next' =>
       update_loop true (sack' :: prev') sack'' next' lo (u64 (start_of_sack_range sack' - 1)) 0
     end).
Proof.
  destruct Hwalk as (_ & [? ?] & Hdesc & _ & ? & ?). unfold UINT64_MAX in *.
  intros Hasc [? ?] Hst Hcov Hlo Hhi Hn0 Hnc. unfold UINT64_MAX in *.
  destruct next as [|sack'' next'].
  - apply update_spec_changed with n0; try done.
    + apply walk_end; simpl; [done| |done]. unfold item_ok, UINT64_MAX. simpl. lia.
    + intros n. specialize (Hcov n). destruct (Z.le_gt_cases (start_of_sack_range sack) n); autorewrite with cint;
      unfold in_item in *; rewrite ?Hst in *; simpl in *; intuition lia.
  - rewrite u64_small by lia. simpl in Hdesc. destruct Hdesc as ([? ?] & ? & Hdesc).
    eapply update_spec_continue with (n0 := n0) (prev' := sack' :: prev') (chain' := sack'' :: next'); [|
      |lia|done].
    + apply IH; [done|]. unfold walk_ok, item_ok, UINT64_MAX in *. simpl. split_and!; try lia; done.
    + intros n. specialize (Hcov n). destruct (Z.le_gt_cases (start_of_sack_range sack) n); autorewrite with cint;
      unfold in_item in *; rewrite ?Hst in *; simpl in *; intuition lia.
Qed.

(** A new item inserted just above [sack]. *)
Lemma walk_new_hole :
  end_of_sack_range sack + 1 < lo -> (match prev with p :: _ => hi + 1 < start_of_sack_range p | [] => True end) ->
  update_spec prev (sack :: next) lo hi ret (0, rev_append prev (Sack lo hi :: sack :: next)).
Proof.
  destruct Hwalk as (Hasc & [? ?] & Hdesc & _ & ? & ?). unfold UINT64_MAX in *. intros Hgap Hprev.
  apply update_spec_changed with hi; [| |lia|].
  - apply walk_end; simpl.
    + destruct prev as [|p prev0]; [done|]. destruct Hasc as ([? ?] & ? & ?). simpl. unfold item_ok, UINT64_MAX in *. split_and!; try lia; done.
    + unfold item_ok, UINT64_MAX. simpl. lia.
    + unfold item_ok, UINT64_MAX. split_and!; try lia; done.
  - cov.
  - rewrite covered_cons. intros [Hin|Hin]; [unfold in_item in Hin; lia|].
    eapply descending_not_covered; [apply Hdesc| |apply Hin]. lia.
Qed.

(** [hi] lies above [sack], hence outside the chain from [sack] on. *)
Lemma walk_above : end_of_sack_range sack < hi -> ~ covered (sack :: next) hi.
Proof.
  destruct Hwalk as (_ & [? ?] & Hdesc & _). intros Hhi. rewrite covered_cons. intros [Hin|Hin].
  - unfold in_item in Hin. lia.
  - eapply descending_not_covered; [apply Hdesc| |apply Hin]. lia.
Qed.

(** The range reaches above [sack] and touches it. *)
Lemma walk_extend :
  end_of_sack_range sack < hi -> lo <= end_of_sack_range sack + 1 ->
  update_spec prev (sack :: next) lo hi ret
    (let '(prev', sack') := extend_up prev sack hi in
     if start_of_sack_range sack' <=? lo then (0, rev_append prev' (sack' :: next))
     else match next with
          | [] => (0, rev_append prev' [Sack lo (end_of_sack_range sack')])
          | sack'' :: next' =>
            update_loop true (sack' :: prev') sack'' next' lo (u64 (start_of_sack_range sack' - 1)) 0
          end).
Proof.
  intros HA HB. pose proof (walk_above HA) as Hnc.
  destruct Hwalk as (Hasc & Hs & Hdesc & Hp & Hlo & Hhi). pose proof Hs as [? ?].
  destruct (extend_up prev sack hi) as [prev' sack'] eqn:E.
  destruct (extend_up_spec _ _ _ _ _ E Hasc Hs Hp ltac:(lia)) as (Ha & Hi & Hst & Hen & Hc).
  destruct (Z.leb_spec (start_of_sack_range sack') lo).
  - apply update_spec_changed with hi; try done; [apply walk_end; try done; by rewrite Hst| |lia].
    intros n. specialize (Hc n). autorewrite with cint. unfold in_item in *. intuition lia.
  - apply walk_continue with hi; try done; lia.
Qed.

(** The range reaches above [sack] without touching it. *)
Lemma walk_gap :
  end_of_sack_range sack + 1 < lo ->
  update_spec prev (sack :: next) lo hi ret
    (match prev with
     | previous :: prev0 =>
       if start_of_sack_range previous <=? u64 (hi + 1)
       then (0, rev_append prev0 (Sack lo (end_of_sack_range previous) :: sack :: next))
       else (0, rev_append prev (Sack lo hi :: sack :: next))
     | [] => (0, rev_append prev (Sack lo hi :: sack :: next))
     end).
Proof.
  intros HB. pose proof walk_new_hole as Hnew. pose proof walk_above as Hnc.
  destruct Hwalk as (Hasc & [? ?] & Hdesc & Hp & Hlo & Hhi). unfold UINT64_MAX in *.
  rewrite u64_small by lia. revert Hasc Hp Hnew.
  destruct prev as [|p prev0]; intros Hasc Hp Hnew; [by apply Hnew|].
  destruct (Z.leb_spec (start_of_sack_range p) (hi + 1)); [|apply Hnew; lia].
  destruct Hasc as ([? ?] & ? & Hasc). unfold UINT64_MAX in *.
  apply update_spec_changed with hi; [| |lia|apply Hnc; lia].
  - apply walk_end; [done| |]; unfold item_ok, UINT64_MAX; simpl; [lia|].
    unfold item_ok, UINT64_MAX. split_and!; try lia; done.
  - cov.
Qed.

(** The range ends below [sack]. *)
Lemma walk_below :
  hi < start_of_sack_range sack ->
  update_spec prev (sack :: next) lo hi ret
    (match next with
     | [] => if u64 (hi + 1) =? start_of_sack_range sack
             then (0, rev_append prev [Sack lo (end_of_sack_range sack)])
             else (0, rev_append prev [sack; Sack lo hi])
     | sack'' :: next' => update_loop true (sack :: prev) sack'' next' lo hi ret
     end).
Proof.
  intros HB. destruct Hwalk as (Hasc & Hs & Hdesc & Hp & Hlo & Hhi). pose proof Hs as [? ?].
  unfold UINT64_MAX in *. rewrite u64_small by lia. revert Hdesc IH. clear Hwalk.
  destruct next as [|sack'' next']; intros Hdesc IH.
  - assert (~ covered [sack] hi) by (rewrite covered_cons, covered_nil; unfold in_item; lia).
    destruct (Z.eqb_spec (hi + 1) (start_of_sack_range sack));
      apply update_spec_changed with hi; try done; try (apply walk_end; try done); try (by cov);
      unfold item_ok, UINT64_MAX; simpl; unfold item_ok, UINT64_MAX; simpl; lia.
  - simpl in Hdesc. destruct Hdesc as ([? ?] & ? & Hdesc). unfold UINT64_MAX in *.
    destruct (IH sack'' next' eq_refl (sack :: prev) hi ret) as (Hd & Hc & Hr).
    { unfold walk_ok, item_ok, UINT64_MAX. simpl. split_and!; try lia; done. }
    split; [done|]. split; [intros n; rewrite Hc; autorewrite with cint; tauto|].
    destruct Hr as [[-> [->|(n & ? & Hn)]]|[-> Hcov]]; [left; eauto| |].
    + left. split; [done|]. right. exists n. split; [done|]. rewrite covered_cons. unfold in_item. intuition lia.
    + right. split; [done|]. intros n Hn. rewrite covered_cons. auto.
Qed.

(** The range ends in [sack]. *)
Lemma walk_inside :
  start_of_sack_range sack <= hi <= end_of_sack_range sack ->
  update_spec prev (sack :: next) lo hi ret
    (if lo <? start_of_sack_range sack then
       match next with
       | [] => (0, rev_append prev [Sack lo (end_of_sack_range sack)])
       | sack'' :: next' =>
         update_loop true (sack :: prev) sack'' next' lo (u64 (start_of_sack_range sack - 1)) 0
       end
     else (ret, rev_append prev (sack :: next))).
Proof.
  intros HB. destruct Hwalk as (Hasc & Hs & Hdesc & Hp & Hlo & Hhi). pose proof Hs as [? ?].
  destruct (Z.ltb_spec lo (start_of_sack_range sack)) as [HC|HC].
  - apply walk_continue with (start_of_sack_range sack - 1); try done; try lia.
    + intros n. unfold in_item. intuition lia.
    + rewrite covered_cons. intros [Hin|Hin]; [unfold in_item in Hin; lia|].
      eapply descending_not_covered; [apply Hdesc| |apply Hin]. lia.
  - split; [by apply walk_end|]. split; [simpl snd; cov|].
    right. split; [done|]. intros n Hn. rewrite covered_cons. left. unfold in_item. lia.
Qed.

Lemma update_loop_step :
  update_spec prev (sack :: next) lo hi ret (update_loop true prev sack next lo hi ret).
Proof.
  pose proof walk_extend as H1. pose proof walk_gap as H2. pose proof walk_inside as H3.
  pose proof walk_below as H4. destruct Hwalk as (_ & [? ?] & _ & _ & ? & ?). unfold UINT64_MAX in *.
  unfold extend_up in H1. clear Hwalk IH.
  destruct next; cbn [update_loop]; rewrite (u64_small (end_of_sack_range sack + 1)) by lia;
    (destruct (Z.ltb_spec (end_of_sack_range sack) hi);
     [destruct (Z.leb_spec lo (end_of_sack_range sack + 1)); [by apply H1|by apply H2]|];
     destruct (Z.leb_spec (start_of_sack_range sack) hi); [by apply H3|by apply H4]).
Qed.
End Walk.

Lemma update_loop_spec prev sack next lo hi ret :
  walk_ok prev sack next lo hi ->
  update_spec prev (sack :: next) lo hi ret (update_loop true prev sack next lo hi ret).
Proof.
  revert prev sack hi ret. induction next as [|s next IH]; intros prev sack hi ret Hw;
    apply update_loop_step; try done; intros sack'' next' [=]; subst; auto.
Qed.

(** ** Lemmas on the operations *)

Lemma is_received_loop_spec l hi n :
  descending hi l -> is_received_loop l n = true <-> covered l n.
Proof.
  revert hi. induction l as [|s l IH]; intros hi; simpl; [intros _; rewrite covered_nil; done|].
  intros ([? ?] & ? & Hl). rewrite covered_cons. unfold in_item.
  destruct (Z.ltb_spec (end_of_sack_range s) n).
  - split; [done|]. intros [?|?]; [lia|]. exfalso. eapply descending_not_covered; [apply Hl| |done]. lia.
  - destruct (Z.leb_spec (start_of_sack_range s) n); [intuition lia|].
    rewrite IH by done. intuition lia.
Qed.

Lemma check_loop_spec l hi lo up :
  descending hi l -> l <> [] -> lo <= up ->
  check_loop l lo up = 0 <-> exists n, lo <= n <= up /\ ~ covered l n.
Proof.
  revert hi. induction l as [|s l IH]; intros hi; [done|]. cbn [check_loop descending].
  intros ([? ?] & ? & Hl) _ Hlo.
  assert (Hnc : forall n, start_of_sack_range s <= n + 1 -> ~ covered l n)
    by (intros; by eapply descending_not_covered).
  setoid_rewrite covered_cons. unfold in_item.
  destruct (Z.ltb_spec (end_of_sack_range s) up).
  { split; [intros _|done]. exists up. split; [lia|]. intros [?|?]; [lia|]. eapply Hnc; [|done]. lia. }
  destruct (Z.leb_spec (start_of_sack_range s) up).
  { destruct (Z.ltb_spec lo (start_of_sack_range s)).
    - split; [intros _|done]. exists (start_of_sack_range s - 1). split; [lia|].
      intros [?|?]; [lia|]. eapply Hnc; [|done]. lia.
    - split; [done|]. intros (n & ? & Hn). lia. }
  destruct l as [|s' l'].
  { split; [intros _|done]. exists up. rewrite covered_nil. split; [lia|]. intuition lia. }
  rewrite IH by done. split; intros (n & ? & Hn); exists n; split; try done; intuition lia.
Qed.

Lemma received_dec c n : chain_ok c -> received c n \/ ~ received c n.
Proof.
  unfold chain_ok, received. destruct (is_empty c) eqn:E; [right; intros [? _]; congruence|].
  intros Hc. pose proof (is_received_loop_spec _ _ n Hc) as Hr.
  destruct (is_received_loop (items c) n); intuition congruence.
Qed.

Lemma update_sack_list_spec c lo hi :
  chain_ok c -> 0 <= lo <= hi -> hi < UINT64_MAX ->
  let '(ret, c') := picoquic_update_sack_list true c lo hi in
  chain_ok c' /\ (forall n, received c' n <-> received c n \/ lo <= n <= hi) /\
  ((ret = 0 /\ exists n, lo <= n <= hi /\ ~ received c n) \/
   (ret = 1 /\ c' = c /\ forall n, lo <= n <= hi -> received c n)).
Proof.
  unfold chain_ok, picoquic_update_sack_list, received, is_empty.
  destruct c as [[st en] next]. cbn [first_sack_item start_of_sack_range next_sacks].
  intros Hc Hlo Hhi. destruct (Z.eqb_spec st UINT64_MAX) as [->|Hne].
  - subst next. cbn [items first_sack_item next_sacks start_of_sack_range].
    destruct (Z.eqb_spec lo UINT64_MAX); [lia|]. unfold UINT64_MAX in *. split_and!.
    + simpl. unfold item_ok, UINT64_MAX. simpl. lia.
    + intros n0. unfold items. cbn [first_sack_item next_sacks].
      rewrite !covered_cons, !covered_nil. unfold in_item. simpl. intuition (congruence || lia).
    + left. split; [done|]. exists lo. split; [lia|]. intros [? _]. congruence.
  - unfold items in Hc. cbn [first_sack_item next_sacks descending end_of_sack_range start_of_sack_range] in Hc.
    destruct Hc as ([Hs1 Hs2] & Hs3 & Hdesc).
    pose proof (update_loop_spec [] (Sack st en) next lo hi 1) as (Hd & Hcov & Hret).
    { unfold walk_ok. simpl. done. }
    destruct (update_loop true [] (Sack st en) next lo hi 1) as [ret l]. cbn [fst snd] in *.
    destruct l as [|s l].
    { exfalso. eapply (covered_nil lo), Hcov. right. right. lia. }
    cbn [of_items first_sack_item next_sacks items]. unfold items. cbn [first_sack_item next_sacks].
    assert ((start_of_sack_range s =? UINT64_MAX) = false) as ->.
    { apply Z.eqb_neq. destruct Hd as ([? ?] & _). lia. }
    setoid_rewrite covered_nil in Hcov. split_and!; [done| |].
    + intros n. rewrite Hcov. tauto.
    + destruct Hret as [[-> [?|(n & ? & Hn)]]|[[= -> -> ->] Hall]]; [done|left|right].
      * split; [done|]. exists n. split; [done|]. tauto.
      * split; [done|]. split; [done|]. intros n Hn. split; [done|]. by apply Hall.
Qed.

Lemma is_pn_already_received_spec c n :
  chain_ok c -> picoquic_is_pn_already_received c n = true <-> received c n.
Proof.
  unfold chain_ok, picoquic_is_pn_already_received, received, is_empty.
  destruct (_ =? _); [intuition congruence|]. intros Hc. rewrite is_received_loop_spec by done. tauto.
Qed.

Lemma float16_loop_spec fuel e x :
  0 <= x < 2 ^ (12 + Z.of_nat fuel) ->
  exists k, 0 <= k /\ float16_loop fuel e x = (e + k, x / 2 ^ k) /\ x / 2 ^ k < 4096 /\
            (k = 0 \/ 2048 <= x / 2 ^ k).
Proof.
  revert e x. induction fuel as [|fuel IH]; intros e x Hx; cbn [float16_loop].
  - exists 0. rewrite Z.add_0_r, Z.div_1_r. split_and!; [lia|done|simpl in Hx; lia|by left].
  - destruct (Z.ltb_spec 0x0FFF x).
    + rewrite Z.shiftr_div_pow2 by lia.
      destruct (IH (e + 1) (x / 2 ^ 1)) as (k & Hk & Heq & Hlt & Hge).
      { split; [apply Z.div_pos; lia|]. apply Z.div_lt_upper_bound; [lia|].
        rewrite <- Z.pow_add_r by lia. replace (1 + (12 + Z.of_nat fuel)) with (12 + Z.of_nat (S fuel)) by lia. lia. }
      rewrite Z.div_div, <- Z.pow_add_r in * by lia.
      exists (1 + k). split_and!; [lia|rewrite Heq; f_equal; lia|done|].
      right. destruct Hge as [->|?]; [|done]. rewrite Z.add_0_r. apply Z.div_le_lower_bound; lia.
    + exists 0. rewrite Z.add_0_r, Z.div_1_r. split_and!; [lia|done|lia|by left].
Qed.

(** The code of a mantissa with its twelfth bit set: exponent above, eleven bits below. *)
Lemma float16_pack m k :
  2048 <= m < 4096 -> 0 <= k <= 30 ->
  u16 (Z.lor (Z.land m 0x07FF) (Z.shiftl (k + 1) 11)) = (k + 1) * 2 ^ 11 + (m - 2048).
Proof.
  intros Hm Hk. change 0x07FF with (2 ^ 11 - 1). rewrite land_ones_mod by lia.
  rewrite Z.lor_comm, Z.shiftl_mul_pow2 by lia.
  assert (m mod 2 ^ 11 = m - 2048) as -> by (symmetry; apply (Z.mod_unique _ _ 1); lia).
  rewrite lor_add_disjoint, u16_small by lia. done.
Qed.

Lemma mantissa_bit m : 0 <= m < 4096 -> (Z.land m 0x0800 =? 0) = (m <? 2048).
Proof.
  intros Hm. change 0x0800 with (2 ^ 11). assert (Z.land m (2 ^ 11) = (m / 2 ^ 11) * 2 ^ 11) as ->.
  { rewrite <- Z.shiftr_div_pow2, <- Z.shiftl_mul_pow2 by lia. bits_ext i Hi.
    rewrite Z.land_spec, Z.shiftl_spec by lia. destruct (Z.lt_ge_cases i 11).
    - rewrite Z.pow2_bits_false by lia. rewrite (Z.testbit_neg_r _ (i - 11)) by lia. apply andb_false_r.
    - rewrite Z.shiftr_spec by lia. replace (i - 11 + 11) with i by lia.
      destruct (Z.eq_dec i 11) as [->|?]; [rewrite Z.pow2_bits_true by lia; apply andb_true_r|].
      rewrite Z.pow2_bits_false, andb_false_r by lia. symmetry. apply Z.testbit_false; [lia|].
      rewrite Z.div_small; [done|]. split; [lia|]. apply Z.lt_le_trans with (2 ^ 12); [lia|].
      apply Z.pow_le_mono_r; lia. }
  destruct (Z.ltb_spec m (2 ^ 11)).
  - rewrite Z.div_small by lia. reflexivity.
  - assert (m / 2 ^ 11 = 1) as -> by (symmetry; apply (Z.div_unique _ _ _ (m - 2048)); lia). reflexivity.
Qed.

(** The value of a code with exponent [k + 1] and mantissa bits [r]. *)
Lemma float16_unpack k r :
  0 <= k <= 30 -> 0 <= r < 2048 ->
  picoquic_float16_to_deltat ((k + 1) * 2 ^ 11 + r) = (2048 + r) * 2 ^ k.
Proof.
  intros Hk Hr. unfold picoquic_float16_to_deltat. rewrite Z.shiftr_div_pow2 by lia.
  change 0x07FF with (2 ^ 11 - 1). rewrite land_ones_mod by lia.
  assert (((k + 1) * 2 ^ 11 + r) / 2 ^ 11 = k + 1) as -> by (symmetry; apply (Z.div_unique _ _ _ r); lia).
  assert (((k + 1) * 2 ^ 11 + r) mod 2 ^ 11 = r) as -> by (symmetry; apply (Z.mod_unique _ _ (k + 1)); lia).
  destruct (Z.eqb_spec (k + 1) 0); [lia|]. cbn [negb].
  rewrite Z.lor_comm. change 0x0800 with (1 * 2 ^ 11). rewrite lor_add_disjoint by lia.
  rewrite Z.shiftl_mul_pow2 by lia. replace (k + 1 - 1) with k by lia.
  assert (0 < 2 ^ k <= 2 ^ 30) by (split; [apply Z.pow_pos_nonneg|apply Z.pow_le_mono_r]; lia).
  rewrite u64_small by nia. lia.
Qed.

(** ** Properties *)

(** Recording a range of packet numbers in a well-formed chain (disjoint ranges, highest
    first, separated by at least one number) gives a well-formed chain that stands for the old
    numbers and the range; the return value is 0 when the range has a number that was missing,
    and 1 (a duplicate), with the chain unchanged, when it has none. *)
Theorem update_sack_list_correct (c : sack_chain) (pn64_min pn64_max : Z) :
  chain_ok c -> 0 <= pn64_min <= pn64_max -> pn64_max < UINT64_MAX ->
  let '(ret, c') := picoquic_update_sack_list true c pn64_min pn64_max in
  chain_ok c' /\ (forall n, received c' n <-> received c n \/ pn64_min <= n <= pn64_max) /\
  ((ret = 0 /\ exists n, pn64_min <= n <= pn64_max /\ ~ received c n) \/
   (ret = 1 /\ c' = c /\ forall n, pn64_min <= n <= pn64_max -> received c n)).
Proof. apply update_sack_list_spec. Qed.

(** A chain with three ranges and a range that merges two of them and adds to the third. *)
Definition example_chain : sack_chain := Chain (Sack 20 25) [Sack 10 12; Sack 4 5].

Lemma example_chain_ok : chain_ok example_chain.
Proof. vm_compute. intuition discriminate. Qed.

Lemma update_sack_list_correct_witness :
  (let '(ret, c') := picoquic_update_sack_list true example_chain 6 19 in
   chain_ok c' /\ (forall n, received c' n <-> received example_chain n \/ 6 <= n <= 19) /\
   ((ret = 0 /\ exists n, 6 <= n <= 19 /\ ~ received example_chain n) \/
    (ret = 1 /\ c' = example_chain /\ forall n, 6 <= n <= 19 -> received example_chain n))) /\
  picoquic_update_sack_list true example_chain 6 19 = (0, Chain (Sack 4 25) []).
Proof.
  split; [|vm_compute; reflexivity].
  apply (update_sack_list_correct example_chain 6 19); [exact example_chain_ok|lia|vm_compute; reflexivity].
Defined.

(** Recording a sequence of packet numbers, with the return value of each. *)
Fixpoint record_all (p : packet_context) (pns : list (Z * Z)) : list Z * packet_context :=
  match pns with
  | [] => ([], p)
  | (pn, t) :: pns' =>
    let '(ret, p1) := picoquic_record_pn_received true p pn t in
    let '(rets, p2) := record_all p1 pns' in
    (ret :: rets, p2)
  end.

(** The largest number that was recorded, with its time; [None] before the first arrival. *)
Definition largest_of (p : packet_context) : option (Z * Z) :=
  if is_empty (sacks p) then None
  else Some (end_of_sack_range (first_sack_item (sacks p)), time_stamp_largest_received p).

(** Of two arrivals, the one with the larger number; the earlier one when they are equal. *)
Definition latest (acc : option (Z * Z)) (x : Z * Z) : option (Z * Z) :=
  match acc with
  | None => Some x
  | Some y => if y.1 <? x.1 then Some x else Some y
  end.

Lemma first_item_largest c n :
  chain_ok c -> received c n ->
  received c (end_of_sack_range (first_sack_item c)) /\ n <= end_of_sack_range (first_sack_item c).
Proof.
  unfold received, chain_ok. intros Hok [He Hn]. rewrite He in *. unfold items in *. simpl in Hok.
  destruct Hok as ([? ?] & ? & Hd). rewrite covered_cons in *. unfold in_item in *.
  split; [split; [done|]; left; lia|]. destruct Hn as [|Hn]; [lia|].
  destruct (Z.le_gt_cases n (end_of_sack_range (first_sack_item c))); [done|].
  exfalso. eapply descending_not_covered; [apply Hd| |apply Hn]. lia.
Qed.

Lemma first_item_unique c m :
  chain_ok c -> received c m -> (forall n, received c n -> n <= m) ->
  is_empty c = false /\ end_of_sack_range (first_sack_item c) = m.
Proof.
  intros Hok Hm Hmax. destruct (first_item_largest c m Hok Hm) as [Hr ?]. split; [apply Hm|].
  specialize (Hmax _ Hr). lia.
Qed.

(** The number and the time that a record leaves, in a chain that was not empty. *)
Lemma largest_of_update c c' ts pn t :
  chain_ok c -> is_empty c = false -> chain_ok c' ->
  (forall n, received c' n <-> received c n \/ n = pn) ->
  largest_of (PktCtx c' (if end_of_sack_range (first_sack_item c) <? pn then t else ts)) =
  latest (largest_of (PktCtx c ts)) (pn, t).
Proof.
  intros Hok He Hok' Hr. set (m := end_of_sack_range (first_sack_item c)).
  assert (Hm : received c m).
  { split; [done|]. unfold items. rewrite covered_cons. left. unfold in_item, m.
    unfold chain_ok in Hok. rewrite He in Hok. destruct Hok as ([? ?] & _). lia. }
  destruct (first_item_unique c' (Z.max m pn)) as [He' Hend]; [done| | |].
  - rewrite Hr. destruct (Z.max_spec m pn) as [[_ ->]|[_ ->]]; tauto.
  - intros n. rewrite Hr. intros [Hn| ->]; [|lia]. apply (first_item_largest c n Hok) in Hn. lia.
  - unfold largest_of, latest. simpl. rewrite He, He', Hend. fold m. simpl.
    destruct (Z.ltb_spec m pn); do 2 f_equal; lia.
Qed.

Lemma record_pn_received_spec p pn t :
  chain_ok (sacks p) -> 0 <= pn < UINT64_MAX ->
  let '(ret, p') := picoquic_record_pn_received true p pn t in
  chain_ok (sacks p') /\ (forall n, received (sacks p') n <-> received (sacks p) n \/ n = pn) /\
  (ret = 0 /\ ~ received (sacks p) pn \/ ret = 1 /\ received (sacks p) pn) /\
  largest_of p' = latest (largest_of p) (pn, t).
Proof.
  intros Hc Hpn. destruct p as [c ts]. cbn [sacks] in *. pose proof (update_sack_list_spec c pn pn Hc ltac:(lia) ltac:(lia)) as Hu.
  unfold picoquic_record_pn_received. cbn [sacks time_stamp_largest_received].
  destruct (Z.eqb_spec (start_of_sack_range (first_sack_item c)) UINT64_MAX) as [E|E].
  - unfold picoquic_update_sack_list in Hu. rewrite (proj2 (Z.eqb_eq _ _) E) in Hu.
    destruct Hu as (Hok & Hr & Hret). split_and!; [done|intros n; rewrite Hr; intuition lia| |].
    + destruct Hret as [[? (n & ? & Hn)]|(? & ? & Hn)]; [left|discriminate].
      split; [done|]. by replace pn with n by lia.
    + unfold largest_of, is_empty. simpl. rewrite (proj2 (Z.eqb_eq _ _) E), (proj2 (Z.eqb_neq _ _)) by lia. done.
  - destruct (picoquic_update_sack_list true c pn pn) as [ret c'].
    destruct Hu as (Hok & Hr & Hret).
    assert (Hr' : forall n, received c' n <-> received c n \/ n = pn) by (intros n; rewrite Hr; intuition lia).
    split_and!; [done|done| |].
    + destruct Hret as [[? (n & ? & Hn)]|(? & ? & Hn)]; [left|right].
      * split; [done|]. by replace pn with n by lia.
      * split; [done|]. apply Hn. lia.
    + apply largest_of_update; [done|by apply Z.eqb_neq|done|done].
Qed.

Lemma record_all_spec p pns :
  chain_ok (sacks p) -> Forall (fun x => 0 <= x.1 < UINT64_MAX) pns ->
  let '(rets, p') := record_all p pns in
  chain_ok (sacks p') /\
  (forall n, received (sacks p') n <-> received (sacks p) n \/ n ∈ pns.*1) /\
  (forall i r, rets !! i = Some r ->
     exists pn, pns.*1 !! i = Some pn /\
     (r = 0 /\ ~ (received (sacks p) pn \/ pn ∈ take i pns.*1) \/
      r = 1 /\ (received (sacks p) pn \/ pn ∈ take i pns.*1))) /\
  largest_of p' = foldl latest (largest_of p) pns.
Proof.
  revert p. induction pns as [|[pn t] pns IH]; intros p Hc Hpns; cbn [record_all].
  - split; [done|]. split; [|split; [intros i r Hi; by rewrite lookup_nil in Hi|done]]. intros n. simpl. rewrite elem_of_nil. tauto.
  - apply Forall_cons_1 in Hpns as [Hpn Hpns]. pose proof (record_pn_received_spec p pn t Hc Hpn) as Hrec.
    destruct (picoquic_record_pn_received true p pn t) as [ret p1]. destruct Hrec as (Hc1 & Hr1 & Hret & Hl1).
    specialize (IH p1 Hc1 Hpns). destruct (record_all p1 pns) as [rets p2].
    destruct IH as (Hc2 & Hr2 & Hrets & Hl2). split_and!; [done| | |].
    + intros n. rewrite Hr2, Hr1. simpl. rewrite elem_of_cons. tauto.
    + intros [|i] r Hi; simpl in Hi.
      * injection Hi as <-. exists pn. split; [done|]. simpl. rewrite elem_of_nil. tauto.
      * destruct (Hrets i r Hi) as (pn' & Hpn' & Hcase). exists pn'. split; [done|].
        simpl. rewrite !elem_of_cons. rewrite !Hr1 in Hcase. intuition.
    + cbn [foldl]. by rewrite Hl2, Hl1.
Qed.

(** C23. Whatever the order in which packets arrive, starting from a fresh packet context:
    [picoquic_record_pn_received] returns 1 exactly for the packet numbers that were already
    recorded, and afterwards [picoquic_is_pn_already_received] answers yes exactly for the
    packet numbers that arrived; the end of the first item is the largest number that arrived,
    and [time_stamp_largest_received] the time of its first arrival. *)
Theorem record_history_correct (pns : list (Z * Z)) (t0 : Z) :
  Forall (fun x => 0 <= x.1 < UINT64_MAX) pns ->
  let '(rets, p) := record_all (PktCtx init_sack_chain t0) pns in
  (forall n, picoquic_is_pn_already_received (sacks p) n = true <-> n ∈ pns.*1) /\
  (forall i r, rets !! i = Some r ->
     exists pn, pns.*1 !! i = Some pn /\
     (r = 0 /\ pn ∉ take i pns.*1 \/ r = 1 /\ pn ∈ take i pns.*1)) /\
  largest_of p = foldl latest None pns.
Proof.
  intros Hpns. pose proof (record_all_spec (PktCtx init_sack_chain t0) pns ltac:(done) Hpns) as Hspec.
  destruct (record_all _ pns) as [rets p]. destruct Hspec as (Hc & Hr & Hrets & Hl).
  assert (Hempty : forall n, ~ received (sacks (PktCtx init_sack_chain t0)) n) by (intros n [? _]; done).
  split_and!; [| |exact Hl].
  - intros n. rewrite is_pn_already_received_spec, Hr by done. specialize (Hempty n). tauto.
  - intros i r Hi. destruct (Hrets i r Hi) as (pn & Hpn & Hcase). exists pn. specialize (Hempty pn).
    split; [done|]. tauto.
Qed.

Lemma record_history_correct_witness :
  (let '(rets, p) := record_all (PktCtx init_sack_chain 0) [(5, 10); (3, 20); (5, 30); (4, 40)] in
   (forall n, picoquic_is_pn_already_received (sacks p) n = true <-> n ∈ [(5, 10); (3, 20); (5, 30); (4, 40)].*1) /\
   (forall i r, rets !! i = Some r ->
     exists pn, [(5, 10); (3, 20); (5, 30); (4, 40)].*1 !! i = Some pn /\
     (r = 0 /\ pn ∉ take i [(5, 10); (3, 20); (5, 30); (4, 40)].*1 \/
      r = 1 /\ pn ∈ take i [(5, 10); (3, 20); (5, 30); (4, 40)].*1)) /\
   largest_of p = foldl latest None [(5, 10); (3, 20); (5, 30); (4, 40)]) /\
  record_all (PktCtx init_sack_chain 0) [(5, 10); (3, 20); (5, 30); (4, 40)] =
  ([0; 0; 1; 0], PktCtx (Chain (Sack 3 5) []) 10).
Proof.
  split; [|vm_compute; reflexivity].
  apply (record_history_correct [(5, 10); (3, 20); (5, 30); (4, 40)] 0).
  repeat constructor; vm_compute; intuition discriminate.
Defined.

(** [picoquic_check_sack_list] predicts [picoquic_update_sack_list]: it returns 0 exactly
    when the update would return 0, that is when the range has a missing number. *)
Theorem check_sack_list_predicts (c : sack_chain) (pn64_min pn64_max : Z) :
  chain_ok c -> 0 <= pn64_min <= pn64_max -> pn64_max < UINT64_MAX ->
  (picoquic_check_sack_list c pn64_min pn64_max = 0 <->
   (picoquic_update_sack_list true c pn64_min pn64_max).1 = 0) /\
  (picoquic_check_sack_list c pn64_min pn64_max = 0 <->
   exists n, pn64_min <= n <= pn64_max /\ ~ received c n).
Proof.
  intros Hc Hlo Hhi.
  assert (Hchk : picoquic_check_sack_list c pn64_min pn64_max = 0 <->
                 exists n, pn64_min <= n <= pn64_max /\ ~ received c n).
  { pose proof Hc as Hc'. unfold chain_ok, picoquic_check_sack_list, received, is_empty in *.
    destruct (_ =? _).
    - split; [|done]. intros _. exists pn64_min. split; [lia|]. intros [? _]. congruence.
    - rewrite (check_loop_spec _ (2 ^ 64)) by (done || lia).
      split; intros (n & ? & Hn); exists n; (split; [done|]); tauto. }
  split; [|done]. rewrite Hchk. pose proof (update_sack_list_spec c pn64_min pn64_max Hc Hlo Hhi) as Hu.
  destruct (picoquic_update_sack_list true c pn64_min pn64_max) as [ret c']. cbn [fst].
  destruct Hu as (_ & _ & [[-> ?]|(-> & _ & Hall)]); [tauto|]. split; [|done].
  intros (n & ? & Hn). exfalso. auto.
Qed.

Lemma check_sack_list_predicts_witness :
  (picoquic_check_sack_list example_chain 10 12 = 0 <->
   (picoquic_update_sack_list true example_chain 10 12).1 = 0) /\
  picoquic_check_sack_list example_chain 10 12 = -1 /\ picoquic_check_sack_list example_chain 9 12 = 0.
Proof.
  split; [|split; reflexivity].
  apply (check_sack_list_predicts example_chain 10 12); [exact example_chain_ok|lia|vm_compute; reflexivity].
Defined.

Lemma ack_of_ack_loop_spec l hi lo up :
  descending hi l -> lo <= up ->
  descending hi (ack_of_ack_loop l lo up) /\
  (forall n, covered (ack_of_ack_loop l lo up) n -> covered l n) /\
  (forall n, covered l n -> covered (ack_of_ack_loop l lo up) n \/ lo <= n <= up).
Proof.
  revert hi. induction l as [|s l IH]; intros hi; cbn [ack_of_ack_loop descending]; [auto|].
  intros (Hs & ? & Hl) Hlo. pose proof Hs as [? ?].
  destruct (Z.eqb_spec (end_of_sack_range s) up), (Z.eqb_spec (start_of_sack_range s) lo); simpl.
  1: { split; [eapply descending_mono; [|done]; lia|]. setoid_rewrite covered_cons. unfold in_item.
       split; [auto|]. intros n [?|?]; [right; lia|auto]. }
  all: destruct (Z.ltb_spec up (end_of_sack_range s));
    [|cbn [descending]; split; [done|]; split; auto].
  all: destruct (IH _ Hl Hlo) as (IH1 & IH2 & IH3); cbn [descending]; setoid_rewrite covered_cons;
    split; [done|]; split; intros k [?|Hk]; [auto|auto|auto|destruct (IH3 k Hk); auto].
Qed.

(** Pruning after an acknowledgement of our acknowledgement keeps the chain well formed,
    forgets only numbers of the acknowledged range, and never forgets the highest number. *)
Theorem ack_of_ack_prunes (c : sack_chain) (start_of_range end_of_range : Z) :
  chain_ok c -> is_empty c = false -> 0 <= start_of_range <= end_of_range -> end_of_range < UINT64_MAX ->
  let c' := process_ack_of_ack_range c start_of_range end_of_range in
  chain_ok c' /\ (forall n, received c' n -> received c n) /\
  (forall n, received c n -> received c' n \/ start_of_range <= n <= end_of_range) /\
  end_of_sack_range (first_sack_item c') = end_of_sack_range (first_sack_item c) /\
  received c' (end_of_sack_range (first_sack_item c)).
Proof.
  unfold chain_ok, received. intros Hc Hne Hr Hu. rewrite Hne in *.
  destruct c as [[st en] next]. cbn in Hc. destruct Hc as ([Hs1 Hs2] & Hs3 & Hdesc).
  unfold process_ack_of_ack_range, is_empty in *. cbn [first_sack_item next_sacks start_of_sack_range end_of_sack_range] in *.
  apply Z.eqb_neq in Hne. unfold UINT64_MAX in *.
  destruct (ack_of_ack_loop_spec next st start_of_range end_of_range Hdesc ltac:(lia)) as (L1 & L2 & L3).
  unfold items. destruct (Z.eqb_spec st start_of_range) as [->|?].
  - destruct (Z.ltb_spec end_of_range en);
      cbn [first_sack_item next_sacks start_of_sack_range end_of_sack_range descending];
      rewrite ?u64_small by lia; rewrite (proj2 (Z.eqb_neq _ _)) by lia;
      repeat setoid_rewrite covered_cons; unfold in_item, item_ok, UINT64_MAX;
      cbn [start_of_sack_range end_of_sack_range];
      (split_and!; try lia; try (eapply descending_mono; [|done]; lia); try done; intros k; intuition lia).
  - cbn [first_sack_item next_sacks start_of_sack_range end_of_sack_range descending].
    rewrite (proj2 (Z.eqb_neq _ _)) by lia. repeat setoid_rewrite covered_cons.
    unfold in_item, item_ok, UINT64_MAX. cbn [start_of_sack_range end_of_sack_range].
    split_and!; try lia; try done; intros k (_ & [?|?]); auto. destruct (L3 k); auto.
Qed.

Lemma ack_of_ack_prunes_witness :
  (let c' := process_ack_of_ack_range example_chain 10 12 in
   chain_ok c' /\ (forall n, received c' n -> received example_chain n) /\
   (forall n, received example_chain n -> received c' n \/ 10 <= n <= 12) /\
   end_of_sack_range (first_sack_item c') = 25 /\ received c' 25) /\
  process_ack_of_ack_range example_chain 10 12 = Chain (Sack 20 25) [Sack 4 5].
Proof.
  split; [|reflexivity].
  apply (ack_of_ack_prunes example_chain 10 12);
    [exact example_chain_ok|reflexivity|lia|vm_compute; reflexivity].
Defined.

(** The 16-bit float of a time delta below 2^42 microseconds decodes to the delta rounded
    down with a relative error below 2^-11; larger deltas are clamped to 0xFFFF. *)
Theorem float16_precision (delta_t : Z) :
  0 <= delta_t < 2 ^ 64 ->
  let f := picoquic_deltat_to_float16 delta_t in
  0 <= f < 2 ^ 16 /\
  (delta_t < 2 ^ 42 ->
   let back := picoquic_float16_to_deltat f in
   back <= delta_t /\ (delta_t - back) * 2 ^ 11 <= delta_t) /\
  (2 ^ 42 <= delta_t -> f = 0xFFFF).
Proof.
  intros Hx f. subst f. unfold picoquic_deltat_to_float16.
  destruct (float16_loop_spec 64 0 delta_t) as (k & Hk & Heq & Hlt & Hge).
  { split; [lia|]. apply Z.lt_le_trans with (2 ^ 64); [lia|]. apply Z.pow_le_mono_r; lia. }
  rewrite Heq, Z.add_0_l. clear Heq.
  assert (0 < 2 ^ k) by (apply Z.pow_pos_nonneg; lia).
  assert (0 <= delta_t / 2 ^ k) by (apply Z.div_pos; lia).
  pose proof (Z.div_mod delta_t (2 ^ k) ltac:(lia)) as Hdm.
  pose proof (Z.mod_pos_bound delta_t (2 ^ k) ltac:(lia)) as Hmod.
  destruct (Z.ltb_spec 30 k).
  - split; [lia|]. split; [|done]. intros Hsmall.
    assert (2 ^ 31 <= 2 ^ k) by (apply Z.pow_le_mono_r; lia). nia.
  - assert (2 ^ k <= 2 ^ 30) by (apply Z.pow_le_mono_r; lia).
    rewrite mantissa_bit by lia. destruct (Z.ltb_spec (delta_t / 2 ^ k) 2048); cbn [negb].
    + destruct Hge as [->|?]; [|lia]. rewrite Z.pow_0_r, Z.div_1_r in *. rewrite u16_small by lia.
      split; [lia|]. split; [|lia]. intros _. unfold picoquic_float16_to_deltat.
      rewrite Z.shiftr_div_pow2, Z.div_small by lia. simpl negb. cbv iota.
      change 0x07FF with (2 ^ 11 - 1). rewrite land_ones_mod, Z.mod_small by lia. lia.
    + rewrite float16_pack by lia. split; [nia|]. split; [|nia]. intros _.
      rewrite float16_unpack by lia.
      replace (2048 + (delta_t / 2 ^ k - 2048)) with (delta_t / 2 ^ k) by lia. nia.
Qed.

Lemma float16_precision_witness :
  let f := picoquic_deltat_to_float16 1000000 in
  0 <= f < 2 ^ 16 /\
  (1000000 < 2 ^ 42 -> let back := picoquic_float16_to_deltat f in
   back <= 1000000 /\ (1000000 - back) * 2 ^ 11 <= 1000000) /\
  (2 ^ 42 <= 1000000 -> f = 0xFFFF).
Proof. apply (float16_precision 1000000). lia. Defined.

(** Every 16-bit code is the code of the time delta it stands for; and the code 0x0800,
    which the comment of the format says stands for 4096 microseconds, stands for 2048. *)
Theorem float16_codes_exact (f : Z) :
  0 <= f < 2 ^ 16 ->
  picoquic_deltat_to_float16 (picoquic_float16_to_deltat f) = f /\ picoquic_float16_to_deltat 0x0800 = 2048.
Proof.
  intros Hf. split; [|vm_compute; reflexivity].
  set (k := f / 2 ^ 11). set (r := f mod 2 ^ 11).
  assert (Hdm : f = k * 2 ^ 11 + r) by (subst k r; rewrite Z.mul_comm; apply Z.div_mod; lia).
  assert (0 <= r < 2 ^ 11) by (apply Z.mod_pos_bound; lia).
  assert (0 <= k < 32) by (split; [apply Z.div_pos|apply Z.div_lt_upper_bound]; lia).
  destruct (Z.eq_dec k 0) as [Hk0|Hk0].
  - rewrite Hk0, Z.mul_0_l, Z.add_0_l in Hdm. rewrite Hdm in *. clear Hdm.
    assert (picoquic_float16_to_deltat r = r) as ->.
    { unfold picoquic_float16_to_deltat. rewrite Z.shiftr_div_pow2, Z.div_small by lia. simpl negb. cbv iota.
      change 0x07FF with (2 ^ 11 - 1). rewrite land_ones_mod, Z.mod_small by lia. done. }
    unfold picoquic_deltat_to_float16. cbn [float16_loop].
    destruct (Z.ltb_spec 0x0FFF r); [lia|]. destruct (Z.ltb_spec 30 0); [lia|].
    rewrite mantissa_bit by lia. destruct (Z.ltb_spec r 2048); [|lia]. cbn [negb]. by rewrite u16_small by lia.
  - replace f with ((k - 1 + 1) * 2 ^ 11 + r) at 1 by lia. rewrite float16_unpack by lia.
    set (x := (2048 + r) * 2 ^ (k - 1)).
    assert (0 < 2 ^ (k - 1) <= 2 ^ 30) by (split; [apply Z.pow_pos_nonneg|apply Z.pow_le_mono_r]; lia).
    unfold picoquic_deltat_to_float16.
    destruct (float16_loop_spec 64 0 x) as (j & Hj & Heq & Hlt & Hge).
    { split; [nia|]. apply Z.lt_le_trans with (2 ^ 64); [nia|]. apply Z.pow_le_mono_r; lia. }
    assert (j = k - 1 /\ x / 2 ^ j = 2048 + r) as [-> Hx].
    { assert (0 < 2 ^ j) by (apply Z.pow_pos_nonneg; lia).
      destruct (Z.lt_trichotomy j (k - 1)) as [Hlt'|[->|Hgt]].
      - exfalso. assert (x / 2 ^ j = (2048 + r) * 2 ^ (k - 1 - j)) as Hdiv.
        { subst x. replace (k - 1) with ((k - 1 - j) + j) at 1 by lia.
          rewrite Z.pow_add_r, Z.mul_assoc, Z.div_mul by lia. done. }
        assert (2 ^ 1 <= 2 ^ (k - 1 - j)) by (apply Z.pow_le_mono_r; lia). nia.
      - split; [done|]. subst x. rewrite Z.div_mul; lia.
      - exfalso. assert (x / 2 ^ j < 2048); [|lia].
        apply Z.div_lt_upper_bound; [lia|]. assert (2 ^ (k - 1 + 1) <= 2 ^ j) as Hp by (apply Z.pow_le_mono_r; lia).
        rewrite Z.pow_add_r in Hp by lia. subst x. nia. }
    rewrite Heq, Hx, Z.add_0_l. destruct (Z.ltb_spec 30 (k - 1)); [lia|].
    rewrite mantissa_bit by lia. destruct (Z.ltb_spec (2048 + r) 2048); [lia|]. cbn [negb].
    rewrite float16_pack by lia. lia.
Qed.

Lemma float16_codes_exact_witness :
  picoquic_deltat_to_float16 (picoquic_float16_to_deltat 0xBEEF) = 0xBEEF /\
  picoquic_float16_to_deltat 0x0800 = 2048.
Proof. apply (float16_codes_exact 0xBEEF). lia. Defined.

End Sacks.
