(* ===== verification/GF256.v ===== *)
(** * Arithmetic of GF(2^8): swif_symbol.c, generated_table_code.c and picoquic/gf256/gf256.c

    The FEC plugins compute in GF(256) with the polynomial x^8+x^4+x^3+x^2+1:
    addition is exclusive or, multiplication and inversion go through two
    tables that are filled when a FEC scheme is created ([assign_mul],
    [assign_inv]) and passed around as [uint8_t **mul] and [uint8_t *inv].  The
    class [GFTables] states what the users of the tables rely on, the field
    laws; the tables of the source are an instance.

    Symbols (packet payloads) are lists of bytes.  A loop over the first
    [symbol_size] bytes of its arguments stops at the end of the shorter list;
    theorems about it ask the arguments to be long enough. *)
From stdpp Require Import base tactics list numbers.
From Stdlib Require Import ZArith Lia.
From S2P Require Import Prelude.
#[local] Open Scope Z_scope.

Module GF256.

(** One round of the loop of [gf256_mul_formula]. *)
Definition mul_round_a (a : Z) : Z :=
  let carry := negb (Z.land a 0x80 =? 0) in
  let a1 := u8 (Z.shiftl a 1) in
  if carry then Z.lxor a1 0x1d else a1.

Fixpoint mul_loop (i : nat) (a b p : Z) : Z :=
  match i with
  | O => p
  | S i' =>
    let p1 := if b mod 2 =? 1 then Z.lxor p a else p in
    mul_loop i' (mul_round_a a) (Z.shiftr b 1) p1
  end.

Definition gf256_mul_formula (a b : Z) : Z := mul_loop 8 a b 0.

Definition gf256_add (a b : Z) : Z := Z.lxor a b.
Definition gf256_sub (a b : Z) : Z := gf256_add a b.

(** [array[i][j] = gf256_mul_formula(i, j)] *)
Definition assign_mul : list (list Z) :=
  (fun i => (fun j => gf256_mul_formula i j) <$> all_bytes) <$> all_bytes.

Definition assign_inv : list Z :=
  [0; 1; 142; 244; 71; 167; 122; 186; 173; 157; 221; 152; 61; 170; 93; 150; 216; 114; 192; 88; 224; 62; 76; 102; 144; 222; 85; 128; 160; 131; 75; 42; 108; 237; 57; 81; 96; 86; 44; 138; 112; 208; 31; 74; 38; 139; 51; 110; 72; 137; 111; 46; 164; 195; 64; 94; 80; 34; 207; 169; 171; 12; 21; 225; 54; 95; 248; 213; 146; 78; 166; 4; 48; 136; 43; 30; 22; 103; 69; 147; 56; 35; 104; 140; 129; 26; 37; 97; 19; 193; 203; 99; 151; 14; 55; 65; 36; 87; 202; 91; 185; 196; 23; 77; 82; 141; 239; 179; 32; 236; 47; 50; 40; 209; 17; 217; 233; 251; 218; 121; 219; 119; 6; 187; 132; 205; 254; 252; 27; 84; 161; 29; 124; 204; 228; 176; 73; 49; 39; 45; 83; 105; 2; 245; 24; 223; 68; 79; 155; 188; 15; 92; 11; 220; 189; 148; 172; 9; 199; 162; 28; 130; 159; 198; 52; 194; 70; 5; 206; 59; 13; 60; 156; 8; 190; 183; 135; 229; 238; 107; 235; 242; 191; 175; 197; 100; 7; 123; 149; 154; 174; 182; 18; 89; 165; 53; 101; 184; 163; 158; 210; 247; 98; 90; 133; 125; 168; 58; 41; 113; 200; 246; 249; 67; 215; 214; 16; 115; 118; 120; 153; 10; 25; 145; 20; 63; 230; 240; 134; 177; 226; 241; 250; 116; 243; 180; 109; 33; 178; 106; 227; 231; 181; 234; 3; 143; 211; 201; 66; 212; 232; 117; 127; 255; 126; 253].

(** [mul[a][b]] *)
Definition gf256_mul (mul : list (list Z)) (a b : Z) : Z :=
  nth (Z.to_nat b) (nth (Z.to_nat a) mul []) 0.

(** [inv[a]] *)
Definition gf256_inv (inv : list Z) (a : Z) : Z := nth (Z.to_nat a) inv 0.

(** [data1[i] ^= gf256_mul(coef, data2[i], mul)] for [i < symbol_size] *)
Fixpoint symbol_add_scaled (mul : list (list Z)) (data1 : list Z) (coef : Z) (data2 : list Z)
    (symbol_size : nat) : list Z :=
  match symbol_size, data1, data2 with
  | S n, x :: data1', y :: data2' =>
    Z.lxor x (gf256_mul mul coef y) :: symbol_add_scaled mul data1' coef data2' n
  | _, _, _ => data1
  end.

(** [#define symbol_sub_scaled symbol_add_scaled] *)
Definition symbol_sub_scaled := symbol_add_scaled.

(** [symbol1[i] = gf256_mul(coef, symbol1[i], mul)] for [i < symbol_size] *)
Fixpoint symbol_mul (mul : list (list Z)) (symbol1 : list Z) (coef : Z) (symbol_size : nat) : list Z :=
  match symbol_size, symbol1 with
  | S n, x :: symbol1' => gf256_mul mul coef x :: symbol_mul mul symbol1' coef n
  | _, _ => symbol1
  end.

(** A 64-bit load at byte offset 0 of a buffer, little-endian. *)
Fixpoint le_word (n : nat) (data : list Z) : Z :=
  match n, data with
  | S n', x :: data' => x + 2 ^ 8 * le_word n' data'
  | _, _ => 0
  end.

(** The two loops of [symbol_is_zero]: 64-bit words, then the remaining bytes. *)
Fixpoint is_zero_words (words : nat) (data : list Z) : bool :=
  match words with
  | O => true
  | S w => if negb (le_word 8 data =? 0) then false else is_zero_words w (drop 8 data)
  end.

Fixpoint is_zero_bytes (n : nat) (data : list Z) : bool :=
  match n with
  | O => true
  | S n' => match data with
            | [] => true
            | x :: data' => if negb (x =? 0) then false else is_zero_bytes n' data'
            end
  end.

Definition symbol_is_zero (symbol : list Z) (symbol_size : nat) : bool :=
  is_zero_words (symbol_size / 8) symbol &&
  is_zero_bytes (symbol_size - symbol_size / 8 * 8) (drop (symbol_size / 8 * 8) symbol).

(** [symbol_add_slow_safe]: byte by byte. *)
Fixpoint symbol_add_slow_safe (data1 data2 : list Z) (symbol_size : nat) : list Z :=
  match symbol_size, data1, data2 with
  | S n, x :: data1', y :: data2' => Z.lxor x y :: symbol_add_slow_safe data1' data2' n
  | _, _, _ => data1
  end.

(** A 64-bit store: the eight bytes of a word, little-endian. *)
Fixpoint le_store (n : nat) (w : Z) : list Z :=
  match n with
  | O => []
  | S n' => w mod 2 ^ 8 :: le_store n' (w / 2 ^ 8)
  end.

(** [data64_1[i] ^= data64_2[i]] for the first [words] words. *)
Fixpoint add_words (words : nat) (data1 data2 : list Z) : list Z :=
  match words with
  | O => data1
  | S w => le_store 8 (Z.lxor (le_word 8 data1) (le_word 8 data2)) ++
           add_words w (drop 8 data1) (drop 8 data2)
  end.

Definition symbol_add_fast_safe (data1 data2 : list Z) (symbol_size : nat) : list Z :=
  let max_64_idx := (symbol_size / 8)%nat in
  let data1' := add_words max_64_idx data1 data2 in
  let k := (max_64_idx * 8)%nat in
  take k data1' ++ symbol_add_slow_safe (drop k data1') (drop k data2) (symbol_size - k).

Definition align (val : Z) : Z := (val + 32 - 1) / 32 * 32.

Definition align_below (val : Z) : Z :=
  let retval := align val in
  if (0 <? retval) && negb (retval =? val) then retval - 32 else retval.

(** [picoquic_gf256_symbol_add] with the moepgf library: [maddrc dst src c n]
    stands for [gflib.maddrc(dst, src, c, n)]. *)
Definition picoquic_gf256_symbol_add (maddrc : list Z -> list Z -> Z -> nat -> list Z)
    (symbol1 symbol2 : list Z) (symbol_size : nat) : list Z :=
  let aligned_below_size := Z.to_nat (align_below (Z.of_nat symbol_size)) in
  let s1 := if (0 <? aligned_below_size)%nat then maddrc symbol1 symbol2 1 aligned_below_size else symbol1 in
  let remaining := (symbol_size - aligned_below_size)%nat in
  if (0 <? remaining)%nat
  then take aligned_below_size s1 ++
       symbol_add_fast_safe (drop aligned_below_size s1) (drop aligned_below_size symbol2) remaining
  else s1.

(** ** The interface: what the users of the tables rely on *)
Class GFTables (mul : list (list Z)) (inv : list Z) : Prop := {
  gf_mul_u8 a b : is_u8 a -> is_u8 b -> is_u8 (gf256_mul mul a b);
  gf_inv_u8 a : is_u8 a -> is_u8 (gf256_inv inv a);
  gf_mul_comm a b : is_u8 a -> is_u8 b -> gf256_mul mul a b = gf256_mul mul b a;
  gf_mul_assoc a b c : is_u8 a -> is_u8 b -> is_u8 c ->
    gf256_mul mul (gf256_mul mul a b) c = gf256_mul mul a (gf256_mul mul b c);
  gf_mul_add_r a b c : is_u8 a -> is_u8 b -> is_u8 c ->
    gf256_mul mul a (Z.lxor b c) = Z.lxor (gf256_mul mul a b) (gf256_mul mul a c);
  gf_mul_1_l a : is_u8 a -> gf256_mul mul 1 a = a;
  gf_mul_0_l a : is_u8 a -> gf256_mul mul 0 a = 0;
  gf_mul_inv a : is_u8 a -> a <> 0 -> gf256_mul mul a (gf256_inv inv a) = 1;
  gf_inv_0 : gf256_inv inv 0 = 0
}.

(** ** The tables of the source are a field *)

Lemma lxor_u8 a b : is_u8 a -> is_u8 b -> is_u8 (Z.lxor a b).
Proof. unfold is_u8. intros. apply lxor_lt_pow2; lia. Qed.
#[export] Hint Resolve lxor_u8 : cint.

Lemma mul_round_u8 a : is_u8 a -> is_u8 (mul_round_a a).
Proof.
  intros Ha. unfold mul_round_a. destruct (Z.land a 0x80 =? 0); cbn [negb]; auto with cint.
  apply lxor_u8; [auto with cint|unfold is_u8; lia].
Qed.

Lemma land_bit7 a : (Z.land a 0x80 =? 0) = negb (Z.testbit a 7).
Proof.
  change 0x80 with (2 ^ 7). destruct (Z.testbit a 7) eqn:E; cbn [negb].
  - apply Z.eqb_neq. intros H0. apply (f_equal (fun z => Z.testbit z 7)) in H0.
    rewrite Z.land_spec, Z.pow2_bits_true, Z.bits_0, E in H0 by lia. done.
  - apply Z.eqb_eq. bits_ext i Hi. rewrite Z.land_spec, Z.bits_0.
    destruct (Z.eq_dec i 7) as [->|?]; [by rewrite E|].
    rewrite Z.pow2_bits_false by lia. apply andb_false_r.
Qed.

(** [lxor] of four values, the middle two exchanged. *)
Lemma lxor_exchange a b c d : Z.lxor (Z.lxor a b) (Z.lxor c d) = Z.lxor (Z.lxor a c) (Z.lxor b d).
Proof. rewrite !Z.lxor_assoc. f_equal. rewrite <- !Z.lxor_assoc. f_equal. apply Z.lxor_comm. Qed.

Lemma mul_round_lxor a b : mul_round_a (Z.lxor a b) = Z.lxor (mul_round_a a) (mul_round_a b).
Proof.
  assert (Hr : forall a, mul_round_a a = Z.lxor (Z.land (Z.shiftl a 1) 0xff) (if Z.testbit a 7 then 0x1d else 0)).
  { intros c. unfold mul_round_a, u8. rewrite land_bit7, negb_involutive.
    change 0xff with (2 ^ 8 - 1). rewrite land_ones_mod by lia.
    destruct (Z.testbit c 7); [done|by rewrite Z.lxor_0_r]. }
  rewrite !Hr, Z.shiftl_lxor, Z.lxor_spec.
  assert (Z.land (Z.lxor (Z.shiftl a 1) (Z.shiftl b 1)) 0xff =
          Z.lxor (Z.land (Z.shiftl a 1) 0xff) (Z.land (Z.shiftl b 1) 0xff)) as ->.
  { bits_ext i Hi. rewrite !Z.land_spec, !Z.lxor_spec, !Z.land_spec.
    destruct (Z.testbit 255 i); rewrite ?andb_true_r, ?andb_false_r; done. }
  rewrite lxor_exchange. f_equal. destruct (Z.testbit a 7), (Z.testbit b 7); reflexivity.
Qed.

Lemma mul_loop_u8 i a b p : is_u8 a -> is_u8 p -> is_u8 (mul_loop i a b p).
Proof.
  revert a b p. induction i as [|i IH]; intros a b p Ha Hp; cbn [mul_loop]; [done|].
  apply IH; [by apply mul_round_u8|]. destruct (_ =? 1); auto with cint.
Qed.

Lemma bit0_odd b : (b mod 2 =? 1) = Z.odd b.
Proof. rewrite Zmod_odd. by destruct (Z.odd b). Qed.

(** Linear in either factor together with the accumulator. *)
Lemma mul_loop_lxor_a i a a' b p p' :
  mul_loop i (Z.lxor a a') b (Z.lxor p p') = Z.lxor (mul_loop i a b p) (mul_loop i a' b p').
Proof.
  revert a a' b p p'. induction i as [|i IH]; intros a a' b p p'; cbn [mul_loop]; [done|].
  rewrite mul_round_lxor, <- IH. f_equal. destruct (b mod 2 =? 1); [apply lxor_exchange|done].
Qed.

Lemma mul_loop_lxor_b i a b b' p p' :
  mul_loop i a (Z.lxor b b') (Z.lxor p p') = Z.lxor (mul_loop i a b p) (mul_loop i a b' p').
Proof.
  revert a b b' p p'. induction i as [|i IH]; intros a b b' p p'; cbn [mul_loop]; [done|].
  rewrite Z.shiftr_lxor, <- IH. f_equal. rewrite !bit0_odd.
  rewrite <- !Z.bit0_odd, Z.lxor_spec, !Z.bit0_odd.
  destruct (Z.odd b), (Z.odd b'); cbn [xorb]; try done.
  - by rewrite (lxor_exchange p a p' a), Z.lxor_nilpotent, Z.lxor_0_r.
  - rewrite !Z.lxor_assoc. f_equal. apply Z.lxor_comm.
  - by rewrite Z.lxor_assoc.
Qed.

Lemma mul_formula_u8 a b : is_u8 a -> is_u8 (gf256_mul_formula a b).
Proof. intros. apply mul_loop_u8; [done|unfold is_u8; lia]. Qed.
#[export] Hint Resolve mul_formula_u8 : cint.

Lemma mul_formula_add_l a a' b :
  gf256_mul_formula (Z.lxor a a') b = Z.lxor (gf256_mul_formula a b) (gf256_mul_formula a' b).
Proof. unfold gf256_mul_formula. change 0 with (Z.lxor 0 0) at 1. apply mul_loop_lxor_a. Qed.

Lemma mul_formula_add_r a b b' :
  gf256_mul_formula a (Z.lxor b b') = Z.lxor (gf256_mul_formula a b) (gf256_mul_formula a b').
Proof. unfold gf256_mul_formula. change 0 with (Z.lxor 0 0) at 1. apply mul_loop_lxor_b. Qed.

(** The bytes with one bit set; linear functions on bytes are known from them. *)
Definition basis : list Z := [1; 2; 4; 8; 16; 32; 64; 128].

(** Two functions on bytes that are linear for [lxor] and agree on the powers of two agree. *)
Lemma linear_ext (f g : Z -> Z) :
  (forall a b, f (Z.lxor a b) = Z.lxor (f a) (f b)) ->
  (forall a b, g (Z.lxor a b) = Z.lxor (g a) (g b)) ->
  Forall (fun e => f e = g e) basis ->
  forall a, is_u8 a -> f a = g a.
Proof.
  intros Hf Hg Hb a Ha.
  pose (bits := fun a => filter (fun e => Z.land a e <> 0) basis).
  assert (a = foldr Z.lxor 0 (bits a)) as ->.
  { apply Z.eqb_eq. apply (forall_bytes (fun a => a =? foldr Z.lxor 0 (bits a))); [|done]. vm_compute. reflexivity. }
  assert (Forall (fun e => f e = g e) (bits a)) as Hbits by (by apply Forall_filter_sub).
  clear Hb. induction Hbits as [|e l He Hbits IH]; cbn [foldr].
  - assert (forall h : Z -> Z, (forall a b, h (Z.lxor a b) = Z.lxor (h a) (h b)) -> h 0 = 0) as H0.
    { intros h Hh. specialize (Hh 0 0). change (Z.lxor 0 0) with 0 in Hh. by rewrite Z.lxor_nilpotent in Hh. }
    rewrite (H0 f), (H0 g); done.
  - by rewrite Hf, Hg, He, IH.
Qed.

(** A check over triples of the basis. *)
Lemma forall_basis3 (f : Z -> Z -> Z -> bool) :
  forallb (fun a => forallb (fun b => forallb (f a b) basis) basis) basis = true ->
  Forall (fun a => Forall (fun b => Forall (fun c => f a b c = true) basis) basis) basis.
Proof.
  intros H. repeat (apply Forall_forall; intros ? ?; rewrite forallb_forall in H;
    match goal with Hin : In ?x basis |- _ => specialize (H x Hin); clear Hin end). done.
Qed.

Lemma mul_formula_comm a b : is_u8 a -> is_u8 b -> gf256_mul_formula a b = gf256_mul_formula b a.
Proof.
  intros Ha Hb. revert a Ha.
  apply (linear_ext (fun a => gf256_mul_formula a b) (gf256_mul_formula b));
    [intros; apply mul_formula_add_l|intros; apply mul_formula_add_r|].
  pose proof (forall_basis3 (fun a b _ => gf256_mul_formula a b =? gf256_mul_formula b a)
    ltac:(vm_compute; reflexivity)) as H.
  refine (Forall_impl _ _ H). clear H. cbv beta. intros a H. revert b Hb.
  apply (linear_ext (gf256_mul_formula a) (fun b => gf256_mul_formula b a));
    [intros; apply mul_formula_add_r|intros; apply mul_formula_add_l|].
  refine (Forall_impl _ _ H). cbv beta. intros b Hb. inversion Hb. by apply Z.eqb_eq.
Qed.

Lemma mul_formula_assoc a b c :
  is_u8 a -> is_u8 b -> is_u8 c ->
  gf256_mul_formula (gf256_mul_formula a b) c = gf256_mul_formula a (gf256_mul_formula b c).
Proof.
  intros Ha Hb Hc. revert a Ha.
  apply (linear_ext (fun a => gf256_mul_formula (gf256_mul_formula a b) c)
                    (fun a => gf256_mul_formula a (gf256_mul_formula b c)));
    [intros; by rewrite !mul_formula_add_l|intros; apply mul_formula_add_l|].
  pose proof (forall_basis3 (fun a b c => gf256_mul_formula (gf256_mul_formula a b) c =?
    gf256_mul_formula a (gf256_mul_formula b c)) ltac:(vm_compute; reflexivity)) as H.
  refine (Forall_impl _ _ H). clear H. cbv beta. intros a H. revert b Hb.
  apply (linear_ext (fun b => gf256_mul_formula (gf256_mul_formula a b) c)
                    (fun b => gf256_mul_formula a (gf256_mul_formula b c)));
    [intros; by rewrite mul_formula_add_r, mul_formula_add_l
    |intros; by rewrite mul_formula_add_l, mul_formula_add_r|].
  refine (Forall_impl _ _ H). clear H. cbv beta. intros b H. revert c Hc.
  apply (linear_ext (gf256_mul_formula (gf256_mul_formula a b))
                    (fun c => gf256_mul_formula a (gf256_mul_formula b c)));
    [intros; apply mul_formula_add_r|intros; by rewrite !mul_formula_add_r|].
  refine (Forall_impl _ _ H). cbv beta. intros c. apply Z.eqb_eq.
Qed.

Lemma nth_all_bytes {A} (f : Z -> A) d b : is_u8 b -> nth (Z.to_nat b) (f <$> all_bytes) d = f b.
Proof.
  intros Hb. unfold is_u8 in Hb. apply nth_lookup_Some. rewrite list_lookup_fmap.
  unfold all_bytes. rewrite (lookup_seqZ_lt) by lia. simpl. f_equal. f_equal. lia.
Qed.

Lemma gf256_mul_table a b : is_u8 a -> is_u8 b -> gf256_mul assign_mul a b = gf256_mul_formula a b.
Proof.
  intros Ha Hb. unfold gf256_mul, assign_mul.
  rewrite (nth_all_bytes (fun i => (fun j => gf256_mul_formula i j) <$> all_bytes)) by done.
  by rewrite nth_all_bytes.
Qed.

(** The tables the source computes satisfy the interface. *)
#[export] Instance source_tables : GFTables assign_mul assign_inv.
Proof.
  assert (H1 : is_u8 1) by (unfold is_u8; lia). assert (H0 : is_u8 0) by (unfold is_u8; lia).
  assert (Hinv : forall a, is_u8 a -> is_u8 (gf256_inv assign_inv a)).
  { intros a Ha. assert ((0 <=? gf256_inv assign_inv a) && (gf256_inv assign_inv a <? 256) = true) as Hb.
    { apply (forall_bytes (fun a => (0 <=? gf256_inv assign_inv a) && (gf256_inv assign_inv a <? 256)));
        [vm_compute; reflexivity|done]. }
    reflect_cmp. unfold is_u8. lia. }
  split.
  - intros a b Ha Hb. rewrite gf256_mul_table by done. auto with cint.
  - done.
  - intros a b Ha Hb. rewrite !gf256_mul_table by done. by apply mul_formula_comm.
  - intros a b c Ha Hb Hc. rewrite !gf256_mul_table; rewrite ?gf256_mul_table; auto with cint.
    by apply mul_formula_assoc.
  - intros a b c Ha Hb Hc. rewrite !gf256_mul_table by auto with cint.
    apply mul_formula_add_r.
  - intros a Ha. rewrite gf256_mul_table by done. apply Z.eqb_eq.
    apply (forall_bytes (fun a => gf256_mul_formula 1 a =? a)); [vm_compute; reflexivity|done].
  - intros a Ha. rewrite gf256_mul_table by done. apply Z.eqb_eq.
    apply (forall_bytes (fun a => gf256_mul_formula 0 a =? 0)); [vm_compute; reflexivity|done].
  - intros a Ha Hne. rewrite gf256_mul_table by auto. apply Z.eqb_eq.
    assert ((a =? 0) || (gf256_mul_formula a (gf256_inv assign_inv a) =? 1) = true) as Hb.
    { apply (forall_bytes (fun a => (a =? 0) || (gf256_mul_formula a (gf256_inv assign_inv a) =? 1)));
        [vm_compute; reflexivity|done]. }
    apply orb_true_iff in Hb as [Hb|Hb]; [|done]. apply Z.eqb_eq in Hb. congruence.
  - reflexivity.
Qed.

(** ** Word-wise loops *)

Lemma mod_lxor a b : (Z.lxor a b) mod 2 ^ 8 = Z.lxor (a mod 2 ^ 8) (b mod 2 ^ 8).
Proof.
  rewrite <- !Z.land_ones by lia. bits_ext i Hi. rewrite !Z.lxor_spec, !Z.land_spec, !Z.lxor_spec.
  destruct (Z.testbit (Z.ones 8) i); rewrite ?andb_true_r, ?andb_false_r; done.
Qed.

Lemma le_store_lxor n a b : le_store n (Z.lxor a b) = zip_with Z.lxor (le_store n a) (le_store n b).
Proof.
  revert a b. induction n as [|n IH]; intros a b; cbn [le_store zip_with]; [done|].
  rewrite mod_lxor, <- !Z.shiftr_div_pow2, Z.shiftr_lxor, !Z.shiftr_div_pow2 by lia. by rewrite IH.
Qed.

Lemma le_word_nonneg n d : Forall is_u8 d -> 0 <= le_word n d.
Proof.
  revert d. induction n as [|n IH]; intros d Hd; cbn [le_word]; [lia|].
  destruct Hd as [|x d Hx Hd]; [lia|]. specialize (IH d Hd). unfold is_u8 in Hx. lia.
Qed.

Lemma le_store_word n d : Forall is_u8 d -> (n <= length d)%nat -> le_store n (le_word n d) = take n d.
Proof.
  revert d. induction n as [|n IH]; intros d Hd Hn; cbn [le_word le_store]; [done|].
  destruct Hd as [|x d Hx Hd]; [simpl in Hn; lia|]. unfold is_u8 in Hx. cbn [take length] in *.
  rewrite (Z.mul_comm _ (le_word n d)), Z_mod_plus_full, Z.mod_small by lia.
  rewrite Z.div_add, Z.div_small, Z.add_0_l by lia. f_equal. apply IH; [done|lia].
Qed.

Lemma slow_safe_prefix d1 d2 n :
  (n <= length d1)%nat -> (n <= length d2)%nat ->
  symbol_add_slow_safe d1 d2 n = zip_with Z.lxor (take n d1) (take n d2) ++ drop n d1.
Proof.
  revert d1 d2. induction n as [|n IH]; intros d1 d2 H1 H2; [by destruct d1|].
  destruct d1 as [|x d1], d2 as [|y d2]; cbn [length] in *; try lia.
  cbn [symbol_add_slow_safe take drop zip_with app]. f_equal. apply IH; lia.
Qed.

Lemma add_words_prefix w d1 d2 :
  Forall is_u8 d1 -> Forall is_u8 d2 -> (w * 8 <= length d1)%nat -> (w * 8 <= length d2)%nat ->
  add_words w d1 d2 = zip_with Z.lxor (take (w * 8) d1) (take (w * 8) d2) ++ drop (w * 8) d1.
Proof.
  revert d1 d2. induction w as [|w IH]; intros d1 d2 H1 H2 L1 L2; [by cbn|].
  cbn [add_words]. rewrite le_store_lxor, !le_store_word by (done || lia).
  rewrite IH; [|by apply Forall_drop|by apply Forall_drop|rewrite length_drop; lia|rewrite length_drop; lia].
  change (S w * 8)%nat with (8 + w * 8)%nat.
  rewrite <- !take_take_drop, drop_drop, zip_with_app, app_assoc; [done|].
  rewrite !length_take. lia.
Qed.

Lemma fast_safe_eq d1 d2 n :
  Forall is_u8 d1 -> Forall is_u8 d2 -> (n <= length d1)%nat -> (n <= length d2)%nat ->
  symbol_add_fast_safe d1 d2 n = symbol_add_slow_safe d1 d2 n.
Proof.
  intros H1 H2 L1 L2. unfold symbol_add_fast_safe. set (k := (n / 8 * 8)%nat).
  assert (k <= n)%nat by (subst k; pose proof (Nat.Div0.mul_div_le n 8); lia).
  rewrite add_words_prefix by (done || (fold k; lia)). fold k.
  set (z := zip_with Z.lxor (take k d1) (take k d2)).
  assert (Hz : length z = k) by (subst z; rewrite length_zip_with, !length_take; lia).
  rewrite take_app_length' by done. rewrite drop_app_length' by done.
  rewrite !slow_safe_prefix by (rewrite ?length_drop; lia). by apply zip_prefix_split.
Qed.

Lemma is_zero_bytes_spec n d : is_zero_bytes n d = true <-> Forall (fun x => x = 0) (take n d).
Proof.
  revert d. induction n as [|n IH]; intros d; cbn [is_zero_bytes take]; [by split|].
  destruct d as [|x d]; [by split|]. destruct (Z.eqb_spec x 0); cbn [negb].
  - rewrite IH. split; [by constructor|by intros [_ ?]%Forall_cons_1].
  - split; [done|]. by intros [? _]%Forall_cons_1.
Qed.

Lemma le_word_zero n d : Forall is_u8 d -> le_word n d = 0 <-> Forall (fun x => x = 0) (take n d).
Proof.
  revert d. induction n as [|n IH]; intros d Hd; cbn [le_word take]; [by split|].
  destruct Hd as [|x d Hx Hd]; [by split|]. unfold is_u8 in Hx. pose proof (le_word_nonneg n d Hd).
  specialize (IH d Hd). split.
  - intros Heq. constructor; [lia|]. apply IH. lia.
  - intros [-> Hr]%Forall_cons_1. apply IH in Hr. lia.
Qed.

Lemma is_zero_words_spec w d :
  Forall is_u8 d -> is_zero_words w d = true <-> Forall (fun x => x = 0) (take (w * 8) d).
Proof.
  revert d. induction w as [|w IH]; intros d Hd; [by split|].
  cbn [is_zero_words]. change (S w * 8)%nat with (8 + w * 8)%nat.
  rewrite <- take_take_drop, Forall_app, <- IH by (by apply Forall_drop).
  pose proof (le_word_zero 8 d Hd) as Hz. destruct (Z.eqb_spec (le_word 8 d) 0); cbn [negb]; [tauto|].
  split; [done|]. tauto.
Qed.

Lemma symbol_is_zero_spec symbol n :
  Forall is_u8 symbol -> symbol_is_zero symbol n = true <-> Forall (fun x => x = 0) (take n symbol).
Proof.
  intros Hs. unfold symbol_is_zero. rewrite andb_true_iff, is_zero_words_spec, is_zero_bytes_spec by done.
  rewrite <- Forall_app, take_take_drop. pose proof (Nat.Div0.mul_div_le n 8).
  by replace (n / 8 * 8 + (n - n / 8 * 8))%nat with n by lia.
Qed.

(** ** Properties *)

(** GF(256): for the tables the source builds, multiplication is a commutative, associative
    operation on bytes with unit 1 that distributes over exclusive or, and every byte but 0
    times its entry of the inverse table is 1. *)
Theorem gf256_field (a b c : Z) :
  is_u8 a -> is_u8 b -> is_u8 c ->
  let mul := gf256_mul assign_mul in
  is_u8 (mul a b) /\ mul a b = mul b a /\ mul (mul a b) c = mul a (mul b c) /\
  mul a (gf256_add b c) = gf256_add (mul a b) (mul a c) /\ mul 1 a = a /\
  (a <> 0 -> mul a (gf256_inv assign_inv a) = 1) /\ (mul a b = 0 -> a = 0 \/ b = 0).
Proof.
  intros Ha Hb Hc mul. subst mul. unfold gf256_add. split; [by apply gf_mul_u8|]. split_and!.
  - by apply gf_mul_comm.
  - by apply gf_mul_assoc.
  - by apply gf_mul_add_r.
  - by apply gf_mul_1_l.
  - by apply gf_mul_inv.
  - intros H0. destruct (Z.eq_dec a 0) as [->|Hne]; [by left|right].
    assert (is_u8 (gf256_inv assign_inv a)) by (by apply gf_inv_u8).
    rewrite <- (gf_mul_1_l b), <- (gf_mul_inv a) by done.
    rewrite (gf_mul_comm a), gf_mul_assoc, H0 by done.
    rewrite gf_mul_comm by (done || (unfold is_u8; lia)). by apply gf_mul_0_l.
Qed.

Lemma gf256_field_witness :
  gf256_mul assign_mul (gf256_mul assign_mul 7 200) 91 = gf256_mul assign_mul 7 (gf256_mul assign_mul 200 91) /\
  gf256_mul_formula 7 200 = 66.
Proof.
  split; [|vm_compute; reflexivity].
  apply (gf256_field 7 200 91); unfold is_u8; lia.
Defined.

(** The word-wise zero test of a symbol agrees with the byte-wise one: it answers yes
    exactly when the first [symbol_size] bytes are zero. *)
Theorem symbol_is_zero_correct (symbol : list Z) (symbol_size : nat) :
  Forall is_u8 symbol ->
  symbol_is_zero symbol symbol_size = true <-> Forall (fun x => x = 0) (take symbol_size symbol).
Proof. apply symbol_is_zero_spec. Qed.

Lemma symbol_is_zero_correct_witness :
  symbol_is_zero [0; 0; 0; 0; 0; 0; 0; 0; 0; 0; 7] 11 = true <->
  Forall (fun x => x = 0) (take 11 [0; 0; 0; 0; 0; 0; 0; 0; 0; 0; 7]).
Proof.
  apply (symbol_is_zero_correct [0; 0; 0; 0; 0; 0; 0; 0; 0; 0; 7] 11). repeat constructor; lia.
Defined.

(** What the moepgf library documents of [maddrc]: it adds the multiple of the first [n] bytes
    of a region to another; here with the constant 1. *)
Definition maddrc_one_spec (maddrc : list Z -> list Z -> Z -> nat -> list Z) : Prop :=
  forall dst src n, (n <= length dst)%nat -> (n <= length src)%nat ->
  maddrc dst src 1 n = zip_with Z.lxor (take n dst) (take n src) ++ drop n dst.

(** Adding symbols: the 64-bit loop and the split between the library (for the part of the
    size that is a multiple of 32) and the 64-bit loop (for the rest) both compute the
    byte-wise exclusive or, and leave what lies behind [symbol_size] bytes untouched. *)
Theorem symbol_add_equivalence (maddrc : list Z -> list Z -> Z -> nat -> list Z)
    (symbol1 symbol2 : list Z) (symbol_size : nat) :
  maddrc_one_spec maddrc -> Forall is_u8 symbol1 -> Forall is_u8 symbol2 ->
  (symbol_size <= length symbol1)%nat -> (symbol_size <= length symbol2)%nat ->
  symbol_add_fast_safe symbol1 symbol2 symbol_size = symbol_add_slow_safe symbol1 symbol2 symbol_size /\
  picoquic_gf256_symbol_add maddrc symbol1 symbol2 symbol_size =
  symbol_add_slow_safe symbol1 symbol2 symbol_size.
Proof.
  intros Hm H1 H2 L1 L2. split; [by apply fast_safe_eq|].
  unfold picoquic_gf256_symbol_add. set (k := Z.to_nat (align_below (Z.of_nat symbol_size))).
  assert (k <= symbol_size)%nat.
  { subst k. unfold align_below, align.
    pose proof (Z.div_mod (Z.of_nat symbol_size + 32 - 1) 32 ltac:(lia)).
    pose proof (Z.mod_pos_bound (Z.of_nat symbol_size + 32 - 1) 32 ltac:(lia)).
    destruct (Z.ltb_spec 0 ((Z.of_nat symbol_size + 32 - 1) / 32 * 32)),
      (Z.eqb_spec ((Z.of_nat symbol_size + 32 - 1) / 32 * 32) (Z.of_nat symbol_size)); simpl; lia. }
  assert ((if (0 <? k)%nat then maddrc symbol1 symbol2 1 k else symbol1) =
          zip_with Z.lxor (take k symbol1) (take k symbol2) ++ drop k symbol1) as ->.
  { destruct (Nat.ltb_spec 0 k); [apply Hm; lia|]. by replace k with 0%nat by lia. }
  set (z := zip_with Z.lxor (take k symbol1) (take k symbol2)).
  assert (Hz : length z = k) by (subst z; rewrite length_zip_with, !length_take; lia).
  rewrite take_app_length' by done. rewrite drop_app_length' by done.
  rewrite fast_safe_eq by (try (by apply Forall_drop); rewrite length_drop; lia).
  rewrite !slow_safe_prefix by (rewrite ?length_drop; lia).
  pose proof (zip_prefix_split Z.lxor k symbol_size symbol1 symbol2 ltac:(done) L1 L2) as Heq. fold z in Heq.
  destruct (Nat.ltb_spec 0 (symbol_size - k)); [done|].
  rewrite <- Heq. replace (symbol_size - k)%nat with 0%nat by lia. by rewrite !take_0, drop_0.
Qed.

Lemma symbol_add_equivalence_witness :
  maddrc_one_spec (fun dst src _ n => zip_with Z.lxor (take n dst) (take n src) ++ drop n dst) /\
  symbol_add_fast_safe (replicate 40 3) (replicate 41 5) 37 = symbol_add_slow_safe (replicate 40 3) (replicate 41 5) 37 /\
  picoquic_gf256_symbol_add (fun dst src _ n => zip_with Z.lxor (take n dst) (take n src) ++ drop n dst)
    (replicate 40 3) (replicate 41 5) 37 = symbol_add_slow_safe (replicate 40 3) (replicate 41 5) 37.
Proof.
  split; [intros dst src n _ _; reflexivity|].
  apply (symbol_add_equivalence (fun dst src _ n => zip_with Z.lxor (take n dst) (take n src) ++ drop n dst)
           (replicate 40 3) (replicate 41 5) 37);
    [intros dst src n _ _; reflexivity|apply Forall_replicate; unfold is_u8; lia
    |apply Forall_replicate; unfold is_u8; lia|simpl; lia|simpl; lia].
Defined.

End GF256.
