(* ===== verification/Tinymt32.v ===== *)
(** * The TinyMT32 pseudo-random generator

    plugins/simple_fec/window_framework/fec_schemes/prng/tinymt32.c (the two
    other copies of the file in the plugins are identical)

    Both ends of a FEC-protected connection derive the coefficients of a repair
    symbol from its 32-bit seed with this generator.  [status] is a record of
    four 32-bit words; [status_get]/[status_set] are the array accesses
    [status[i & 3]].

    The properties: the words stay 32-bit words, the initialisation reaches a
    state other than the null one and no step falls back into it, for any seed
    and any parameters. *)
From stdpp Require Import base tactics list numbers.
From Stdlib Require Import ZArith Lia.
From S2P Require Import Prelude.
#[local] Open Scope Z_scope.

Module Tinymt32.

Definition TINYMT32_SH0 : Z := 1.
Definition TINYMT32_SH1 : Z := 10.
Definition TINYMT32_SH8 : Z := 8.
Definition TINYMT32_MASK : Z := 0x7fffffff.
Definition MIN_LOOP : nat := 8.
Definition PRE_LOOP : nat := 8.

Record tinymt32_t := Tiny {
  status0 : Z; status1 : Z; status2 : Z; status3 : Z;
  mat1 : Z; mat2 : Z; tmat : Z
}.

(** [-((int32_t)(y & 1)) & m]: [m] if [y] is odd, 0 otherwise. *)
Definition mask_if_odd (y m : Z) : Z := Z.land (u32 (- Z.land y 1)) m.

Definition tinymt32_next_state (random : tinymt32_t) : tinymt32_t :=
  let y := status3 random in
  let x := Z.lxor (Z.lxor (Z.land (status0 random) TINYMT32_MASK) (status1 random)) (status2 random) in
  let x := Z.lxor x (u32 (Z.shiftl x TINYMT32_SH0)) in
  let y := Z.lxor y (Z.lxor (Z.shiftr y TINYMT32_SH0) x) in
  let s0 := status1 random in
  let s1 := status2 random in
  let s2 := Z.lxor x (u32 (Z.shiftl y TINYMT32_SH1)) in
  Tiny s0 (Z.lxor s1 (mask_if_odd y (mat1 random))) (Z.lxor s2 (mask_if_odd y (mat2 random))) y
       (mat1 random) (mat2 random) (tmat random).

Definition tinymt32_temper (random : tinymt32_t) : Z :=
  let t1 := u32 (status0 random + Z.shiftr (status2 random) TINYMT32_SH8) in
  let t0 := Z.lxor (status3 random) t1 in
  Z.lxor t0 (mask_if_odd t1 (tmat random)).

Definition tinymt32_generate_uint32 (random : tinymt32_t) : Z * tinymt32_t :=
  let random' := tinymt32_next_state random in (tinymt32_temper random', random').

Definition ini_func1 (x : Z) : Z := u32 (Z.lxor x (Z.shiftr x 27) * 1664525).
Definition ini_func2 (x : Z) : Z := u32 (Z.lxor x (Z.shiftr x 27) * 1566083941).

Definition period_certification (random : tinymt32_t) : tinymt32_t :=
  if (Z.land (status0 random) TINYMT32_MASK =? 0) && (status1 random =? 0) &&
     (status2 random =? 0) && (status3 random =? 0)
  then Tiny 84 73 78 89 (mat1 random) (mat2 random) (tmat random)
  else random.

(** [status[i % 4]] *)
Definition status_get (random : tinymt32_t) (i : nat) : Z :=
  match (i mod 4)%nat with
  | 0%nat => status0 random | 1%nat => status1 random | 2%nat => status2 random | _ => status3 random
  end.

Definition status_set (random : tinymt32_t) (i : nat) (v : Z) : tinymt32_t :=
  let 'Tiny s0 s1 s2 s3 m1 m2 t := random in
  match (i mod 4)%nat with
  | 0%nat => Tiny v s1 s2 s3 m1 m2 t
  | 1%nat => Tiny s0 v s2 s3 m1 m2 t
  | 2%nat => Tiny s0 s1 v s3 m1 m2 t
  | _ => Tiny s0 s1 s2 v m1 m2 t
  end.

(** The body of the first loop of [tinymt32_init]. *)
Definition init_step (random : tinymt32_t) (i : nat) : tinymt32_t :=
  let prev := status_get random (i - 1) in
  status_set random i
    (Z.lxor (status_get random i) (u32 (Z.of_nat i + u32 (1812433253 * Z.lxor prev (Z.shiftr prev 30))))).

Definition tinymt32_init (random : tinymt32_t) (seed : Z) : tinymt32_t :=
  let random := Tiny seed (mat1 random) (mat2 random) (tmat random) (mat1 random) (mat2 random) (tmat random) in
  let random := foldl init_step random (seq 1 (MIN_LOOP - 1)) in
  Nat.iter PRE_LOOP tinymt32_next_state (period_certification random).

(** The bodies of the loops of [tinymt32_init_by_array]: [r] is mixed from three
    words, added to the second, changed by [delta], added to the third, stored. *)
Definition mix_add (st : tinymt32_t) (i : nat) (delta : Z) : tinymt32_t :=
  let r := ini_func1 (Z.lxor (Z.lxor (status_get st i) (status_get st (i + 1))) (status_get st (i + 4 - 1))) in
  let st := status_set st (i + 1) (u32 (status_get st (i + 1) + r)) in
  let r := u32 (r + delta) in
  let st := status_set st (i + 1 + 1) (u32 (status_get st (i + 1 + 1) + r)) in
  status_set st i r.

Definition mix_xor (st : tinymt32_t) (i : nat) : tinymt32_t :=
  let r := ini_func2 (u32 (status_get st i + status_get st (i + 1) + status_get st (i + 4 - 1))) in
  let st := status_set st (i + 1) (Z.lxor (status_get st (i + 1)) r) in
  let r := u32 (r - Z.of_nat i) in
  let st := status_set st (i + 1 + 1) (Z.lxor (status_get st (i + 1 + 1)) r) in
  status_set st i r.

(** One iteration, with the index [i] the loops carry along. *)
Definition mix_key (s : tinymt32_t * nat) (key : Z) : tinymt32_t * nat :=
  (mix_add s.1 s.2 (u32 (key + Z.of_nat s.2)), ((s.2 + 1) mod 4)%nat).
Definition mix_rest (s : tinymt32_t * nat) : tinymt32_t * nat :=
  (mix_add s.1 s.2 (Z.of_nat s.2), ((s.2 + 1) mod 4)%nat).
Definition mix_last (s : tinymt32_t * nat) : tinymt32_t * nat :=
  (mix_xor s.1 s.2, ((s.2 + 1) mod 4)%nat).

Definition tinymt32_init_by_array (random : tinymt32_t) (init_key : list Z) : tinymt32_t :=
  let key_length := length init_key in
  let st := Tiny 0 (mat1 random) (mat2 random) (tmat random) (mat1 random) (mat2 random) (tmat random) in
  let count := if (MIN_LOOP <? key_length + 1)%nat then (key_length + 1)%nat else MIN_LOOP in
  let st := mix_add st 0 (Z.of_nat key_length) in
  let count := (count - 1)%nat in
  let s := foldl mix_key (st, 1%nat) (take count init_key) in
  let s := Nat.iter (count - key_length) mix_rest s in
  let s := Nat.iter 4 mix_last s in
  Nat.iter PRE_LOOP tinymt32_next_state (period_certification s.1).

(** ** Widths *)

Record tiny_ok (r : tinymt32_t) : Prop := TinyOk {
  ok_s0 : is_u32 (status0 r); ok_s1 : is_u32 (status1 r); ok_s2 : is_u32 (status2 r); ok_s3 : is_u32 (status3 r);
  ok_mat1 : is_u32 (mat1 r); ok_mat2 : is_u32 (mat2 r); ok_tmat : is_u32 (tmat r)
}.

Lemma u32_lxor a b : is_u32 a -> is_u32 b -> is_u32 (Z.lxor a b).
Proof. apply lxor_lt_pow2. lia. Qed.

Lemma u32_land_r a b : is_u32 b -> is_u32 (Z.land a b).
Proof.
  intros Hb. split; [apply Z.land_nonneg; right; apply Hb|].
  destruct (Z.eq_dec b 0) as [->|Hb0]; [by rewrite Z.land_0_r|].
  destruct (Z.lt_ge_cases (Z.land a b) (2 ^ 32)) as [|Hge]; [done|].
  assert (Z.land a b = Z.land (Z.land a b) (2 ^ 32 - 1)) as Heq.
  { rewrite <- Z.land_assoc. f_equal. rewrite land_ones_mod by lia. symmetry. apply Z.mod_small, Hb. }
  rewrite land_ones_mod in Heq by lia. rewrite Heq.
  apply Z.mod_pos_bound. lia.
Qed.

Lemma u32_shiftr a n : 0 <= n -> is_u32 a -> is_u32 (Z.shiftr a n).
Proof.
  unfold is_u32. intros Hn Ha. rewrite Z.shiftr_div_pow2 by lia.
  pose proof (Z.pow_pos_nonneg 2 n ltac:(lia) Hn). split; [apply Z.div_pos; lia|].
  apply Z.div_lt_upper_bound; nia.
Qed.

Lemma u32_mask y m : is_u32 m -> is_u32 (mask_if_odd y m).
Proof. apply u32_land_r. Qed.

Lemma u32_MASK : is_u32 TINYMT32_MASK.
Proof. unfold is_u32, TINYMT32_MASK. lia. Qed.

#[export] Hint Resolve u32_lxor u32_land_r u32_mask u32_MASK : cint.
#[export] Hint Extern 1 (is_u32 (Z.shiftr _ _)) => apply u32_shiftr; [done|] : cint.
#[export] Hint Extern 1 (is_u32 (ini_func1 _)) => apply u32_range : cint.
#[export] Hint Extern 1 (is_u32 (ini_func2 _)) => apply u32_range : cint.

Lemma next_state_ok r : tiny_ok r -> tiny_ok (tinymt32_next_state r).
Proof. intros []. split; cbn; auto 15 with cint. Qed.

Lemma temper_u32 r : tiny_ok r -> is_u32 (tinymt32_temper r).
Proof. intros []. unfold tinymt32_temper. auto 10 with cint. Qed.

Lemma period_ok r : tiny_ok r -> tiny_ok (period_certification r).
Proof. intros Hr. unfold period_certification. destruct (andb _ _); [|done]. destruct Hr. by split. Qed.

Lemma get_ok r i : tiny_ok r -> is_u32 (status_get r i).
Proof. intros []. unfold status_get. by destruct (i mod 4)%nat as [|[|[|]]]. Qed.

Lemma set_ok r i v : tiny_ok r -> is_u32 v -> tiny_ok (status_set r i v).
Proof. destruct r. intros [] Hv. unfold status_set. by destruct (i mod 4)%nat as [|[|[|]]]. Qed.
#[export] Hint Resolve get_ok set_ok next_state_ok period_ok : cint.

Lemma mix_add_ok st i d : tiny_ok st -> tiny_ok (mix_add st i d).
Proof. intros H. unfold mix_add. auto 10 with cint. Qed.
Lemma mix_xor_ok st i : tiny_ok st -> tiny_ok (mix_xor st i).
Proof. intros H. unfold mix_xor. auto 10 with cint. Qed.

(** ** The null state *)

(** The 127 bits of state are not all zero. *)
Definition alive (r : tinymt32_t) : Prop :=
  ~ (Z.land (status0 r) TINYMT32_MASK = 0 /\ status1 r = 0 /\ status2 r = 0 /\ status3 r = 0).

Lemma lxor_eq_0 a b : Z.lxor a b = 0 -> a = b.
Proof. apply Z.lxor_eq. Qed.

Lemma mask_even y m : Z.land y 1 = 0 -> mask_if_odd y m = 0.
Proof. intros H. unfold mask_if_odd. rewrite H. apply Z.land_0_l. Qed.

(** [x ^ (x << 1)] determines [x]: its lowest bit set is that of [x]. *)
Lemma xor_shiftl_zero x : is_u32 x -> Z.lxor x (u32 (Z.shiftl x 1)) = 0 -> x = 0.
Proof.
  intros Hx Heq%lxor_eq_0. assert (Hb : forall i : nat, (i < 32)%nat -> Z.testbit x (Z.of_nat i) = false).
  { intros i. induction i as [|i IH]; intros Hi; rewrite Heq; unfold u32; rewrite Z.mod_pow2_bits_low by lia.
    - rewrite Z.shiftl_spec by lia. apply Z.testbit_neg_r. lia.
    - rewrite Z.shiftl_spec by lia. replace (Z.of_nat (S i) - 1) with (Z.of_nat i) by lia. apply IH. lia. }
  bits_ext i Hi. rewrite Z.bits_0. destruct (Z.lt_ge_cases i 32).
  - rewrite <- (Z2Nat.id i) by lia. apply Hb. lia.
  - rewrite <- (Z.mod_small x (2 ^ 32)) by apply Hx. apply Z.mod_pow2_bits_high. lia.
Qed.

(** [y ^ (y >> 1)] determines [y]. *)
Lemma xor_shiftr_zero y : 0 <= y -> Z.lxor y (Z.shiftr y 1) = 0 -> y = 0.
Proof.
  intros Hy Heq%lxor_eq_0. rewrite Z.shiftr_div_pow2 in Heq by lia. change (2 ^ 1) with 2 in Heq.
  pose proof (Z.div_mod y 2 ltac:(lia)). pose proof (Z.mod_pos_bound y 2 ltac:(lia)). lia.
Qed.

Lemma mask_bit31 s : is_u32 s -> Z.land s TINYMT32_MASK = 0 -> forall t, Z.lxor (Z.land t TINYMT32_MASK) s = 0 ->
  s = 0 /\ Z.land t TINYMT32_MASK = 0.
Proof.
  intros Hs H0 t Heq%lxor_eq_0. assert (Z.land s TINYMT32_MASK = s) as Hs'.
  { rewrite <- Heq, <- Z.land_assoc. f_equal. }
  rewrite H0 in Hs'. split; [done|]. by rewrite Heq.
Qed.

Lemma next_state_alive r : tiny_ok r -> alive r -> alive (tinymt32_next_state r).
Proof.
  intros Hr Ha (H0 & H1 & H2 & H3). apply Ha. unfold tinymt32_next_state in *. cbv zeta in *.
  cbn [status0 status1 status2 status3] in *.
  set (x0 := Z.lxor (Z.lxor (Z.land (status0 r) TINYMT32_MASK) (status1 r)) (status2 r)) in *.
  assert (Hx0 : is_u32 x0) by (destruct Hr; subst x0; auto with cint).
  rewrite H3 in H1, H2. rewrite mask_even, Z.lxor_0_r in H1, H2 by done.
  change (u32 (Z.shiftl 0 TINYMT32_SH1)) with 0 in H2. rewrite Z.lxor_0_r in H2.
  rewrite H2, Z.lxor_0_r in H3. apply xor_shiftl_zero in H2; [|done]. apply xor_shiftr_zero in H3; [|apply Hr].
  subst x0. rewrite H1, Z.lxor_0_r in H2. destruct (mask_bit31 _ (ok_s1 _ Hr) H0 _ H2). done.
Qed.

Lemma period_alive r : alive (period_certification r).
Proof.
  unfold period_certification, alive. destruct (andb _ _) eqn:E; [by intros (_ & ? & _)|].
  intros (E0 & E1 & E2 & E3). by rewrite E0, E1, E2, E3 in E.
Qed.

Lemma certified_state r : tiny_ok r ->
  let r' := Nat.iter PRE_LOOP tinymt32_next_state (period_certification r) in tiny_ok r' /\ alive r'.
Proof.
  intros Hr. apply (iter_inv (fun r => tiny_ok r /\ alive r)).
  - split; [auto with cint|apply period_alive].
  - intros y [Hy Ha]. split; [auto with cint|by apply next_state_alive].
Qed.

Lemma init_ok r seed : tiny_ok r -> is_u32 seed -> tiny_ok (tinymt32_init r seed) /\ alive (tinymt32_init r seed).
Proof.
  intros Hr Hs. apply certified_state, foldl_keeps; [destruct Hr; by split|].
  intros y i Hy. unfold init_step. auto 10 with cint.
Qed.

(** The outputs of [n] calls. *)
Fixpoint outputs (n : nat) (r : tinymt32_t) : list Z :=
  match n with
  | O => []
  | S n' => let '(v, r') := tinymt32_generate_uint32 r in v :: outputs n' r'
  end.

(** Whatever 32-bit parameters and seed, both initialisations of the
    generator end in a state of 32-bit words that is not the null state, and
    every later call keeps it so: the generator never gets stuck on the null
    state, and all its outputs are 32-bit integers. *)
Theorem tinymt32_never_null r seed key k :
  tiny_ok r -> is_u32 seed ->
  let states := [tinymt32_init r seed; tinymt32_init_by_array r key] in
  Forall (fun r0 =>
    let rk := Nat.iter k (fun s => (tinymt32_generate_uint32 s).2) r0 in
    tiny_ok rk /\ alive rk /\ is_u32 (tinymt32_generate_uint32 rk).1) states.
Proof.
  intros Hr Hs states.
  assert (Hall : forall r0, tiny_ok r0 /\ alive r0 ->
    let rk := Nat.iter k (fun s => (tinymt32_generate_uint32 s).2) r0 in
    tiny_ok rk /\ alive rk /\ is_u32 (tinymt32_generate_uint32 rk).1).
  { intros r0 H0. apply and_assoc. cbn zeta.
    assert (forall y, tiny_ok y /\ alive y -> tiny_ok (tinymt32_next_state y) /\ alive (tinymt32_next_state y))
      by (intros y []; split; [auto with cint|by apply next_state_alive]).
    pose proof (iter_inv _ (fun s => (tinymt32_generate_uint32 s).2) k r0 H0 H) as Hk.
    split; [exact Hk|]. apply temper_u32, next_state_ok, Hk. }
  repeat apply Forall_cons; try apply Forall_nil; apply Hall; [by apply init_ok|].
  apply certified_state. apply (iter_inv (fun s : tinymt32_t * nat => tiny_ok s.1)).
  - apply (iter_inv (fun s : tinymt32_t * nat => tiny_ok s.1)); [|intros; by apply mix_add_ok].
    apply (foldl_keeps (fun s : tinymt32_t * nat => tiny_ok s.1)); [|intros; by apply mix_add_ok].
    apply mix_add_ok. destruct Hr. by split.
  - intros. by apply mix_xor_ok.
Qed.

(** The parameters of the FEC schemes. *)
Definition fec_prng : tinymt32_t := Tiny 0 0 0 0 0x8f7011ee 0xfc78ff1f 0x3793fdff.

Lemma fec_prng_ok : tiny_ok fec_prng.
Proof. by split. Qed.

Lemma tinymt32_never_null_witness :
  alive (Nat.iter 5 (fun s => (tinymt32_generate_uint32 s).2) (tinymt32_init fec_prng 1)).
Proof.
  assert (H1 : is_u32 1) by (unfold is_u32; lia).
  pose proof (tinymt32_never_null fec_prng 1 [] 5 fec_prng_ok H1) as H.
  apply Forall_cons_1 in H as [(_ & H & _) _]. exact H.
Defined.

(** The outputs for seed 1 that the authors of TinyMT publish for these
    parameters. *)
Example tinymt32_check_values :
  outputs 5 (tinymt32_init fec_prng 1) = [2545341989; 981918433; 3715302833; 2387538352; 3591001365].
Proof. lazy. reflexivity. Qed.

End Tinymt32.
