(* ===== verification/Rlc.v ===== *)
(** * Decoding of random linear codes over GF(256)

    plugins/simple_fec/window_framework/fec_schemes/rlc_gf256/protoops/rlc_fec_scheme_gf256_causal.c

    A repair symbol is a linear combination of source symbols; the receiver
    collects the equations that involve its missing symbols and solves them with
    [gaussElimination].  The C arrays [a], [constant_terms], [x] and
    [undetermined] are lists indexed from 0; the functions below take and return
    the arrays they modify.  [candidate] runs from [n_unknowns - 1] down to -1
    and is modelled by the natural number [candidate + 1].

    The properties say that whatever the equations, an unknown that is left
    determined has the value of the symbol that was sent. *)
From stdpp Require Import base tactics list numbers.
From Stdlib Require Import ZArith Lia.
From S2P Require Import Prelude GF256.
Import GF256.
#[local] Open Scope Z_scope.

Module Rlc.

Definition swap {A} (a : list A) (i j : nat) : list A :=
  match a !! i, a !! j with
  | Some tmp, Some aj => <[j:=tmp]> (<[i:=aj]> a)
  | _, _ => a
  end.

Definition cmp_eq_i (a b : list Z) (idx : nat) : Z :=
  if nth idx a 0 <? nth idx b 0 then -1
  else if nth idx b 0 <? nth idx a 0 then 1
  else 0.

Fixpoint cmp_eq_loop (n i : nat) (a b : list Z) : Z :=
  match n with
  | O => 0
  | S n' =>
    let cmp := cmp_eq_i a b i in
    if negb (cmp =? 0) then cmp else cmp_eq_loop n' (S i) a b
  end.

Definition cmp_eq (a b : list Z) (n_unknowns : nat) : Z := cmp_eq_loop n_unknowns 0 a b.

(** The index the inner loop of the selection sort ends with. *)
Definition sort_max (a : list (list Z)) (n_eq n_unknowns i : nat) : nat :=
  foldl (fun max j => if cmp_eq (nth max a []) (nth j a []) n_unknowns <? 0 then j else max)
        i (seq (i + 1) (n_eq - (i + 1))).

Definition sort_system (a constant_terms : list (list Z)) (n_eq n_unknowns : nat) : list (list Z) * list (list Z) :=
  foldl (fun s i =>
           let max := sort_max s.1 n_eq n_unknowns i in
           (swap s.1 i max, swap s.2 i max))
        (a, constant_terms) (seq 0 n_eq).

Fixpoint first_non_zero_loop (n i : nat) (a : list Z) : option nat :=
  match n with
  | O => None
  | S n' => if negb (nth i a 0 =? 0) then Some i else first_non_zero_loop n' (S i) a
  end.

(** [None] for the C result -1. *)
Definition first_non_zero_idx (a : list Z) (n_unknowns : nat) : option nat := first_non_zero_loop n_unknowns 0 a.

Section Gauss.
Context (mul : list (list Z)) (inv : list Z).
Context (n_eq n_unknowns symbol_size : nat).

(** The size the C code passes for buffers that hold a symbol. *)
Definition aligned_size : nat := Z.to_nat (align (Z.of_nat symbol_size)).

(** The body of the elimination loops for pivot row [i] and row [k]. *)
Definition eliminate_row (i : nat) (s : list (list Z) * list (list Z)) (k : nat) : list (list Z) * list (list Z) :=
  let '(a, ct) := s in
  let mulnum := nth i (nth k a []) 0 in
  let muldenom := nth i (nth i a []) 0 in
  let term := gf256_mul mul mulnum (gf256_inv inv muldenom) in
  (<[k := symbol_add_scaled mul (nth k a []) term (nth i a []) n_unknowns]> a,
   <[k := symbol_sub_scaled mul (nth k ct []) term (nth i ct []) aligned_size]> ct).

Definition forward_elimination (s : list (list Z) * list (list Z)) : list (list Z) * list (list Z) :=
  foldl (fun s i => foldl (eliminate_row i) s (seq (i + 1) (n_eq - (i + 1)))) s (seq 0 (n_eq - 1)).

(** [a[i][l] -= term * a[k][l]] for [l >= j], and the same for the constant terms. *)
Definition cancel_with (i j k : nat) (s : list (list Z) * list (list Z)) : list (list Z) * list (list Z) :=
  let '(a, ct) := s in
  let term := gf256_mul mul (nth j (nth i a []) 0) (gf256_inv inv (nth j (nth k a []) 0)) in
  (<[i := take j (nth i a []) ++
          symbol_add_scaled mul (drop j (nth i a [])) term (drop j (nth k a [])) (n_unknowns - j)]> a,
   <[i := symbol_sub_scaled mul (nth i ct []) term (nth k ct []) aligned_size]> ct).

(** The loop on [k] that looks below row [i] for a row that starts at column [j]. *)
Fixpoint cancel_below (ks : list nat) (i j : nat) (s : list (list Z) * list (list Z)) : list (list Z) * list (list Z) :=
  match ks with
  | [] => s
  | k :: ks' =>
    match first_non_zero_idx (nth k s.1 []) n_unknowns with
    | None => s
    | Some first_nz_id_below =>
      if (first_nz_id_below <? j)%nat then s
      else if (first_nz_id_below =? j)%nat then cancel_with i j k s
      else cancel_below ks' i j s
    end
  end.

(** The loop on [j], which stops at the first zero of row [i]. *)
Fixpoint cancel_columns (fuel i j : nat) (s : list (list Z) * list (list Z)) : list (list Z) * list (list Z) :=
  match fuel with
  | O => s
  | S fuel' =>
    if negb (nth j (nth i s.1 []) 0 =? 0)
    then cancel_columns fuel' i (S j) (cancel_below (seq (i + 1) (n_eq - (i + 1))) i j s)
    else s
  end.

Fixpoint canonical_form (rows : list nat) (s : list (list Z) * list (list Z)) : list (list Z) * list (list Z) :=
  match rows with
  | [] => s
  | i :: rows' =>
    match first_non_zero_idx (nth i s.1 []) n_unknowns with
    | None => s
    | Some first_nz_id =>
      canonical_form rows' (cancel_columns (n_unknowns - S first_nz_id) i (S first_nz_id) s)
    end
  end.

(** [while (a[i][candidate] == 0 && candidate >= 0) undetermined[candidate--] = true].
    The flag tells that the loop read [a[i][-1]]. *)
Fixpoint skip_zeroes (row : list Z) (candidate1 : nat) (undetermined : list bool) : nat * list bool * bool :=
  match candidate1 with
  | O => (O, undetermined, true)
  | S candidate =>
    if nth candidate row 0 =? 0
    then skip_zeroes row candidate (<[candidate := true]> undetermined)
    else (S candidate, undetermined, false)
  end.

(** [memcpy(dst, src, n)] *)
Definition memcpy (dst src : list Z) (n : nat) : list Z := take n src ++ drop n dst.

(** The body of the loop that substitutes the unknowns of larger index. *)
Definition substitute_known (candidate : nat) (s : list (list Z) * list bool * list Z) (j : nat) :
    list (list Z) * list bool * list Z :=
  let '(x, undetermined, row) := s in
  if negb (nth j row 0 =? 0) then
    if nth j undetermined false then (x, <[candidate := true]> undetermined, row)
    else (<[candidate := symbol_sub_scaled mul (nth candidate x []) (nth j row 0) (nth j x []) aligned_size]> x,
          undetermined, <[j := 0]> row)
  else s.

(** State of the back-substitution; [oob] records reads before the start of a
    row, [stop] the [break] out of the loop. *)
Record back_state := Back {
  b_a : list (list Z); b_x : list (list Z); b_undetermined : list bool;
  b_candidate1 : nat; b_oob : bool; b_stop : bool
}.

Definition back_row (ct : list (list Z)) (s : back_state) (i : nat) : back_state :=
  let row := nth i (b_a s) [] in
  let only_zeroes := negb (existsb (fun j => negb (nth j row 0 =? 0)) (seq 0 n_unknowns)) in
  if only_zeroes then s
  else
    let '(candidate1, und, oob) := skip_zeroes row (b_candidate1 s) (b_undetermined s) in
    match candidate1 with
    | O => Back (b_a s) (b_x s) und O (b_oob s || oob) true
    | S candidate =>
      let x0 := <[candidate := memcpy (nth candidate (b_x s) []) (nth i ct []) symbol_size]> (b_x s) in
      let und0 := if existsb (fun j => negb (nth j row 0 =? 0)) (seq 0 candidate)
                  then <[candidate := true]> und else und in
      let '(x1, und1, row1) :=
        foldl (substitute_known candidate) (x0, und0, row) (seq (candidate + 1) (n_unknowns - (candidate + 1))) in
      let xc := nth candidate x1 [] in
      let rc := nth candidate row1 0 in
      if symbol_is_zero xc symbol_size || (rc =? 0)
      then Back (<[i := row1]> (b_a s)) x1 (<[candidate := true]> und1) candidate (b_oob s || oob) false
      else if negb (nth candidate und1 false)
      then Back (<[i := <[candidate := gf256_mul mul rc (gf256_inv inv rc)]> row1]> (b_a s))
                (<[candidate := symbol_mul mul xc (gf256_inv inv rc) symbol_size]> x1)
                und1 candidate (b_oob s || oob) false
      else Back (<[i := row1]> (b_a s)) x1 und1 candidate (b_oob s || oob) false
    end.

Fixpoint back_substitution (ct : list (list Z)) (rows : list nat) (s : back_state) : back_state :=
  match rows with
  | [] => s
  | i :: rows' =>
    let s' := back_row ct s i in
    if b_stop s' then s' else back_substitution ct rows' s'
  end.

(** The whole function: the resulting [x] and [undetermined], and whether a
    row was read out of bounds. *)
Definition gaussElimination (a constant_terms x : list (list Z)) (undetermined : list bool) :
    list (list Z) * list bool * bool :=
  let s1 := sort_system a constant_terms n_eq n_unknowns in
  let s2 := forward_elimination s1 in
  let s3 := sort_system s2.1 s2.2 n_eq n_unknowns in
  let s4 := canonical_form (seq 0 (n_eq - 1)) s3 in
  let s5 := back_substitution s4.2 (rev (seq 0 n_eq)) (Back s4.1 x undetermined n_unknowns false false) in
  let und := if (0 <? b_candidate1 s5)%nat
             then replicate (b_candidate1 s5) true ++ drop (b_candidate1 s5) (b_undetermined s5)
             else b_undetermined s5 in
  (b_x s5, und, b_oob s5).
End Gauss.

Lemma existsb_false_zero row k :
  existsb (fun j => negb (nth j row 0 =? 0)) (seq 0 k) = false -> Forall (fun a => a = 0) (take k row).
Proof.
  intros Hex. apply Forall_lookup_2. intros j a [Hj Hlt]%lookup_take_Some.
  destruct (Z.eq_dec a 0) as [|Hne]; [done|]. exfalso.
  assert (existsb (fun j => negb (nth j row 0 =? 0)) (seq 0 k) = true); [|congruence].
  apply existsb_exists. exists j. split; [apply in_seq; lia|].
  rewrite (nth_lookup_Some _ _ _ _ Hj). by apply negb_true_iff, Z.eqb_neq.
Qed.


(** ** Linear combinations *)
Section Algebra.
Context (mul : list (list Z)) (inv : list Z) `{!GFTables mul inv}.
Notation "a '⊗' b" := (gf256_mul mul a b) (at level 40, left associativity).

Lemma mul_u8' a b : is_u8 a -> is_u8 b -> is_u8 (a ⊗ b).
Proof. apply gf_mul_u8. Qed.
Lemma inv_u8' a : is_u8 a -> is_u8 (gf256_inv inv a).
Proof. apply gf_inv_u8. Qed.
Lemma u8_0 : is_u8 0.
Proof. unfold is_u8. lia. Qed.
#[local] Hint Resolve mul_u8' inv_u8' u8_0 : cint.

Lemma mul_add_l a b c : is_u8 a -> is_u8 b -> is_u8 c -> Z.lxor a b ⊗ c = Z.lxor (a ⊗ c) (b ⊗ c).
Proof.
  intros Ha Hb Hc. rewrite !(gf_mul_comm _ c) by auto with cint. by apply gf_mul_add_r.
Qed.

Lemma mul_0_r a : is_u8 a -> a ⊗ 0 = 0.
Proof. intros Ha. rewrite gf_mul_comm by auto with cint. by apply gf_mul_0_l. Qed.

(** The linear combination with coefficients [row]. *)
Definition dot (row xs : list Z) : Z := foldr Z.lxor 0 (zip_with (gf256_mul mul) row xs).

Lemma dot_u8 row xs : Forall is_u8 row -> Forall is_u8 xs -> is_u8 (dot row xs).
Proof.
  unfold dot. intros Hr. revert xs. induction Hr as [|x row Hx Hr IH]; intros xs Hxs; [by cbn; auto with cint|].
  destruct Hxs as [|y xs Hy Hxs]; [by cbn; auto with cint|]. cbn [zip_with foldr]. auto with cint.
Qed.
#[local] Hint Resolve dot_u8 : cint.

Lemma dot_add_scaled r1 t r2 xs :
  Forall is_u8 r1 -> Forall is_u8 r2 -> Forall is_u8 xs -> is_u8 t ->
  length r1 = length xs -> length r2 = length xs ->
  dot (symbol_add_scaled mul r1 t r2 (length xs)) xs = Z.lxor (dot r1 xs) (t ⊗ dot r2 xs).
Proof.
  unfold dot. intros H1 H2 Hx Ht. revert r1 r2 H1 H2.
  induction Hx as [|x xs Hx Hxs IH]; intros r1 r2 H1 H2 L1 L2; destruct r1 as [|a r1], r2 as [|b r2]; try done.
  - cbn. by rewrite mul_0_r.
  - inversion H1; inversion H2; subst. cbn [length symbol_add_scaled zip_with foldr] in *.
    assert (is_u8 (foldr Z.lxor 0 (zip_with (gf256_mul mul) r2 xs))) by (by apply dot_u8).
    rewrite IH by (done || lia). rewrite mul_add_l, gf_mul_add_r, gf_mul_assoc by auto with cint.
    apply lxor_exchange.
Qed.

Lemma length_add_scaled d1 t d2 k : length (symbol_add_scaled mul d1 t d2 k) = length d1.
Proof.
  revert d1 d2. induction k as [|k IH]; intros [|x d1] [|y d2]; cbn [symbol_add_scaled length]; auto.
Qed.

Lemma add_scaled_u8 d1 t d2 k :
  Forall is_u8 d1 -> Forall is_u8 d2 -> is_u8 t -> Forall is_u8 (symbol_add_scaled mul d1 t d2 k).
Proof.
  intros H1 H2 Ht. revert d1 d2 H1 H2.
  induction k as [|k IH]; intros d1 d2 H1 H2; destruct H1, H2; cbn [symbol_add_scaled]; auto with cint.
Qed.

Lemma nth_add_scaled d1 t d2 k p :
  (p < k)%nat -> (k <= length d1)%nat -> (k <= length d2)%nat ->
  nth p (symbol_add_scaled mul d1 t d2 k) 0 = Z.lxor (nth p d1 0) (t ⊗ nth p d2 0).
Proof.
  revert d1 d2 p. induction k as [|k IH]; intros d1 d2 p Hp H1 H2; [lia|].
  destruct d1 as [|x d1], d2 as [|y d2]; cbn [length] in *; try lia.
  destruct p as [|p]; cbn [symbol_add_scaled nth]; [done|]. apply IH; lia.
Qed.

End Algebra.

Lemma aligned_size_ge symbol_size : (symbol_size <= aligned_size symbol_size)%nat.
Proof.
  unfold aligned_size, align. pose proof (Z.div_mod (Z.of_nat symbol_size + 32 - 1) 32 ltac:(lia)).
  pose proof (Z.mod_pos_bound (Z.of_nat symbol_size + 32 - 1) 32 ltac:(lia)). lia.
Qed.

Lemma nth_memcpy dst src k p : (p < k)%nat -> (k <= length src)%nat -> nth p (memcpy dst src k) 0 = nth p src 0.
Proof.
  intros Hp Hl. unfold memcpy. rewrite app_nth1 by (rewrite length_take; lia).
  rewrite !nth_lookup, lookup_take. by rewrite decide_True.
Qed.

(** A buffer that holds a symbol, up to the aligned size. *)
Definition buffer_ok (symbol_size : nat) (b : list Z) : Prop :=
  Forall is_u8 b /\ (aligned_size symbol_size <= length b)%nat.

Lemma memcpy_ok symbol_size b ct :
  buffer_ok symbol_size b -> Forall is_u8 ct -> (symbol_size <= length ct)%nat -> buffer_ok symbol_size (memcpy b ct symbol_size).
Proof.
  intros [Hb Hl] Hc Hcl. pose proof (aligned_size_ge symbol_size). unfold memcpy. split.
  - apply Forall_app; split; [by apply Forall_take|by apply Forall_drop].
  - rewrite length_app, length_take, length_drop. lia.
Qed.

(** ** Equations and what preserves them *)
Section Sound.
Context (mul : list (list Z)) (inv : list Z) `{!GFTables mul inv}.
Context (n symbol_size : nat).
(** The symbols that were sent, one per unknown. *)
Context (sent : list (list Z)).
Context (Hsent_len : length sent = n) (Hsent_u8 : Forall (Forall is_u8) sent).

Notation "a '⊗' b" := (gf256_mul mul a b) (at level 40, left associativity).
#[local] Abbreviation dot := (Rlc.dot mul).
#[local] Abbreviation asize := (aligned_size symbol_size).
#[local] Hint Resolve u8_0 : cint.
#[local] Hint Extern 1 (is_u8 (gf256_mul mul _ _)) => apply (mul_u8' mul inv) : cint.
#[local] Hint Extern 1 (is_u8 (gf256_inv inv _)) => apply (inv_u8' mul inv) : cint.
#[local] Hint Extern 1 (is_u8 (Rlc.dot mul _ _)) => apply (dot_u8 mul inv) : cint.

Lemma asize_ge : (symbol_size <= asize)%nat.
Proof using Type. apply aligned_size_ge. Qed.

Lemma sent_u8 j p : is_u8 (nth p (nth j sent []) 0).
Proof.
  apply Forall_nth_u8. destruct (Nat.lt_ge_cases j (length sent)); [by apply Forall_nth_lt|].
  by rewrite nth_overflow.
Qed.
#[local] Hint Resolve sent_u8 : cint.

(** Byte [p] of every symbol that was sent. *)
Definition column (p : nat) : list Z := (fun s => nth p s 0) <$> sent.

Lemma column_u8 p : Forall is_u8 (column p).
Proof. apply Forall_fmap. eapply Forall_impl; [|done]. intros s Hs. by apply Forall_nth_u8. Qed.

#[local] Hint Resolve column_u8 : cint.

Lemma length_column p : length (column p) = n.
Proof. unfold column. by rewrite length_fmap. Qed.

Lemma nth_column p j : (j < n)%nat -> nth j (column p) 0 = nth p (nth j sent []) 0.
Proof.
  intros Hj. apply nth_lookup_Some. unfold column. rewrite list_lookup_fmap.
  rewrite (nth_lookup_lt _ j []) by lia. done.
Qed.

(** [row] and [c] are the coefficients and the constant term of an equation that
    the symbols sent satisfy. *)
Record eqn_ok (row c : list Z) : Prop := EqnOk {
  eqn_len : length row = n;
  eqn_row : Forall is_u8 row;
  eqn_c : Forall is_u8 c;
  eqn_size : (asize <= length c)%nat;
  eqn_holds p : (p < symbol_size)%nat -> dot row (column p) = nth p c 0
}.

Lemma eqn_add_scaled r1 c1 r2 c2 t :
  eqn_ok r1 c1 -> eqn_ok r2 c2 -> is_u8 t ->
  eqn_ok (symbol_add_scaled mul r1 t r2 n) (symbol_add_scaled mul c1 t c2 asize).
Proof.
  intros [L1 R1 C1 S1 E1] [L2 R2 C2 S2 E2] Ht. pose proof asize_ge. split.
  - by rewrite length_add_scaled.
  - by apply (add_scaled_u8 mul inv).
  - by apply (add_scaled_u8 mul inv).
  - by rewrite length_add_scaled.
  - intros p Hp. rewrite nth_add_scaled by lia. rewrite <- E1, <- E2 by done.
    rewrite <- (length_column p) at 1. apply (dot_add_scaled mul inv); rewrite ?length_column; auto with cint.
Qed.

(** A system: every row and constant term an equation. *)
Definition system_ok (s : list (list Z) * list (list Z)) : Prop := Forall2 eqn_ok s.1 s.2.

Lemma system_row s i d d' : system_ok s -> (i < length s.1)%nat -> eqn_ok (nth i s.1 d) (nth i s.2 d').
Proof. apply Forall2_nth_lt. Qed.

Lemma system_insert s i row c : system_ok s -> eqn_ok row c -> system_ok (<[i:=row]> s.1, <[i:=c]> s.2).
Proof. intros Hs He. by apply Forall2_insert. Qed.

Lemma system_swap s i j : system_ok s -> system_ok (swap s.1 i j, swap s.2 i j).
Proof.
  intros Hs. unfold system_ok, swap. simpl. pose proof (Forall2_length Hs) as Hl.
  destruct (s.1 !! i) as [x|] eqn:Hi.
  - destruct (Forall2_lookup_l _ _ _ _ _ Hs Hi) as (x' & -> & Hx).
    destruct (s.1 !! j) as [y|] eqn:Hj.
    + destruct (Forall2_lookup_l _ _ _ _ _ Hs Hj) as (y' & -> & Hy). by repeat apply Forall2_insert.
    + apply lookup_ge_None in Hj. rewrite (lookup_ge_None_2 s.2) by lia. done.
  - apply lookup_ge_None in Hi. rewrite (lookup_ge_None_2 s.2) by lia. done.
Qed.

Lemma length_swap {A} (l : list A) i j : length (swap l i j) = length l.
Proof. unfold swap. destruct (l !! i), (l !! j); rewrite ?length_insert; done. Qed.

(** The systems of [m] equations. *)
Definition system_of (m : nat) (s : list (list Z) * list (list Z)) : Prop := system_ok s /\ length s.1 = m.

Lemma sort_system_ok m a ct n_eq : system_of m (a, ct) -> system_of m (sort_system a ct n_eq n).
Proof.
  intros Hs. unfold sort_system. apply foldl_inv; [done|].
  intros s i [Hok Hl] _. split; [by apply system_swap|simpl; by rewrite length_swap].
Qed.

Lemma eliminate_row_ok m i k s :
  system_of m s -> (i < m)%nat -> (k < m)%nat -> system_of m (eliminate_row mul inv n symbol_size i s k).
Proof.
  intros [Hs Hl] Hi Hk. destruct s as [a ct]. simpl in Hl. unfold eliminate_row. split.
  - pose proof (system_row _ i [] [] Hs ltac:(simpl; lia)) as Hei.
    pose proof (system_row _ k [] [] Hs ltac:(simpl; lia)) as Hek. simpl in Hei, Hek.
    apply (system_insert (a, ct)); [done|]. apply eqn_add_scaled; try done.
    destruct Hei, Hek. auto with cint.
  - simpl. by rewrite length_insert.
Qed.

Lemma forward_elimination_ok m s :
  system_of m s -> system_of m (forward_elimination mul inv m n symbol_size s).
Proof.
  intros Hs. unfold forward_elimination. apply foldl_inv; [done|]. intros s' i Hs' Hi%elem_of_seq.
  apply foldl_inv; [done|]. intros s'' k Hs'' Hk%elem_of_seq. apply eliminate_row_ok; [done|lia|lia].
Qed.

Lemma first_non_zero_loop_spec k i a j :
  first_non_zero_loop k i a = Some j ->
  (i <= j < i + k)%nat /\ nth j a 0 <> 0 /\ forall l, (i <= l < j)%nat -> nth l a 0 = 0.
Proof.
  revert i. induction k as [|k IH]; intros i; cbn [first_non_zero_loop]; [done|].
  destruct (Z.eqb_spec (nth i a 0) 0) as [H0|H0]; cbn [negb].
  - intros (H1 & H2 & H3)%IH. split_and!; [lia|lia|done|]. intros l Hl.
    destruct (decide (l = i)) as [->|]; [done|]. apply H3. lia.
  - intros [= <-]. split_and!; [lia|lia|done|lia].
Qed.

(** Subtracting from column [j] on is subtracting everywhere a row that is zero before [j]. *)
Lemma add_scaled_from j r1 t r2 :
  (forall l, (l < j)%nat -> nth l r2 0 = 0) -> is_u8 t -> length r1 = n -> length r2 = n -> (j <= n)%nat ->
  take j r1 ++ symbol_add_scaled mul (drop j r1) t (drop j r2) (n - j) = symbol_add_scaled mul r1 t r2 n.
Proof.
  intros Hz Ht. generalize n as m. revert r1 r2 Hz.
  induction j as [|j IH]; intros r1 r2 Hz m L1 L2 Hj; [by rewrite Nat.sub_0_r|].
  destruct m as [|m]; [lia|]. destruct r1 as [|x r1], r2 as [|y r2]; try done.
  cbn [take drop app symbol_add_scaled length] in *. rewrite Nat.sub_succ.
  rewrite (Hz 0%nat ltac:(lia) : y = 0), (mul_0_r mul inv), Z.lxor_0_r by done. f_equal.
  apply IH; [|lia|lia|lia]. intros l Hl. apply (Hz (S l)). lia.
Qed.

Lemma cancel_with_ok m i j k s :
  system_of m s -> (i < m)%nat -> (k < m)%nat ->
  first_non_zero_idx (nth k s.1 []) n = Some j -> system_of m (cancel_with mul inv n symbol_size i j k s).
Proof.
  intros [Hs Hl] Hi Hk (Hj & Hnz & Hz)%first_non_zero_loop_spec. destruct s as [a ct]. simpl in *.
  pose proof (system_row _ i [] [] Hs ltac:(simpl; lia)) as Hei.
  pose proof (system_row _ k [] [] Hs ltac:(simpl; lia)) as Hek. simpl in Hei, Hek.
  assert (is_u8 (nth j (nth i a []) 0 ⊗ gf256_inv inv (nth j (nth k a []) 0)))
    by (destruct Hei, Hek; auto with cint).
  unfold cancel_with. split; [|simpl; by rewrite length_insert].
  apply (system_insert (a, ct)); [done|].
  rewrite add_scaled_from by (try done; try apply eqn_len with (1 := Hei); try apply eqn_len with (1 := Hek);
    try lia; intros; apply Hz; lia).
  by apply eqn_add_scaled.
Qed.

Lemma cancel_below_ok m ks i j s :
  system_of m s -> (i < m)%nat -> Forall (fun k => (k < m)%nat) ks ->
  system_of m (cancel_below mul inv n symbol_size ks i j s).
Proof.
  intros Hs Hi Hks. induction Hks as [|k ks Hk Hks IH]; cbn [cancel_below]; [done|].
  destruct (first_non_zero_idx (nth k s.1 []) n) as [b|] eqn:E; [|done].
  destruct (b <? j)%nat; [done|]. destruct (Nat.eqb_spec b j) as [->|]; [|done]. by apply cancel_with_ok.
Qed.

Lemma seq_lt i m : Forall (fun k => (k < m)%nat) (seq (i + 1) (m - (i + 1))).
Proof. apply Forall_seq. intros. lia. Qed.

Lemma cancel_columns_ok m fuel i j s :
  system_of m s -> (i < m)%nat -> system_of m (cancel_columns mul inv m n symbol_size fuel i j s).
Proof.
  intros Hs Hi. revert j s Hs. induction fuel as [|fuel IH]; intros j s Hs; cbn [cancel_columns]; [done|].
  destruct (negb _); [|done]. apply IH, cancel_below_ok; auto using seq_lt.
Qed.

Lemma canonical_form_ok m rows s :
  system_of m s -> Forall (fun i => (i < m)%nat) rows -> system_of m (canonical_form mul inv m n symbol_size rows s).
Proof.
  intros Hs Hr. revert s Hs. induction Hr as [|i rows Hi Hr IH]; intros s Hs; cbn [canonical_form]; [done|].
  destruct (first_non_zero_idx _ _); [|done]. apply IH. by apply cancel_columns_ok.
Qed.

(** ** Back-substitution *)

#[local] Abbreviation buffer_ok := (Rlc.buffer_ok symbol_size).
Definition buffers_ok (x : list (list Z)) : Prop := length x = n /\ Forall buffer_ok x.

(** Unknown [j] has its value. *)
Definition solved (x : list (list Z)) (j : nat) : Prop :=
  forall p, (p < symbol_size)%nat -> nth p (nth j x []) 0 = nth p (nth j sent []) 0.

(** From index [c1] on, the unknowns not marked undetermined have their values. *)
Definition known_from (c1 : nat) (x : list (list Z)) (und : list bool) : Prop :=
  forall j, (c1 <= j < n)%nat -> nth j und false = false -> solved x j.

Lemma buffers_nth x j : buffers_ok x -> (j < n)%nat -> buffer_ok (nth j x []).
Proof. intros [Hl Hx] Hj. apply Forall_nth_lt; [done|lia]. Qed.

Lemma buffers_insert x j b : buffers_ok x -> buffer_ok b -> buffers_ok (<[j:=b]> x).
Proof. intros [Hl Hx] Hb. split; [by rewrite length_insert|by apply Forall_insert]. Qed.

Lemma solved_insert_ne x j c b : j <> c -> solved (<[c:=b]> x) j <-> solved x j.
Proof. intros Hne. unfold solved. by rewrite nth_insert_ne. Qed.

Lemma skip_zeroes_spec row c1 und c1' und' oob :
  skip_zeroes row c1 und = (c1', und', oob) -> (c1 <= length und)%nat ->
  (c1' <= c1)%nat /\ length und' = length und /\
  (forall j, (c1 <= j)%nat -> nth j und' false = nth j und false) /\
  (forall j, (c1' <= j < c1)%nat -> nth j und' false = true) /\
  (forall c, c1' = S c -> nth c row 0 <> 0).
Proof.
  revert und. induction c1 as [|c IH]; intros und; cbn [skip_zeroes].
  - intros [= <- <- <-] _. split_and!; try done; lia.
  - destruct (Z.eqb_spec (nth c row 0) 0) as [H0|H0].
    + intros Heq Hl. destruct (IH _ Heq) as (H1 & H2 & H3 & H4 & H5); [rewrite length_insert; lia|].
      rewrite length_insert in H2. split_and!; [lia|done| | |done].
      * intros j Hj. rewrite H3 by lia. apply nth_insert_ne. lia.
      * intros j Hj. destruct (decide (j = c)) as [->|]; [|apply H4; lia].
        rewrite H3 by lia. apply nth_insert_eq. lia.
    + intros [= <- <- <-] _. split_and!; try done; try lia. intros c' [= ->]. done.
Qed.

Lemma dot_drop_S m row xs :
  (m < length row)%nat -> (m < length xs)%nat ->
  dot (drop m row) (drop m xs) = Z.lxor (nth m row 0 ⊗ nth m xs 0) (dot (drop (S m) row) (drop (S m) xs)).
Proof.
  intros H1 H2. rewrite (drop_S row _ _ (nth_lookup_lt row m 0 H1)), (drop_S xs _ _ (nth_lookup_lt xs m 0 H2)). done.
Qed.

Lemma dot_zero_row row xs : Forall is_u8 xs -> Forall (fun a => a = 0) row -> dot row xs = 0.
Proof.
  unfold Rlc.dot. intros Hx Hr. revert xs Hx. induction Hr as [|a row -> Hr IH]; intros xs Hx; [done|].
  destruct Hx as [|x xs Hx Hxs]; [done|]. cbn [zip_with foldr]. by rewrite IH, gf_mul_0_l.
Qed.

(** What the substitution loop leaves at [c] when it does not mark it. *)
Definition substituted (c m : nat) (x x' : list (list Z)) (row : list Z) : Prop :=
  forall p, (p < symbol_size)%nat ->
  nth p (nth c x' []) 0 = Z.lxor (nth p (nth c x []) 0) (dot (drop m row) (drop m (column p))).

Lemma substitute_ok c k m x und row x' und' row' :
  (m + k = n)%nat -> (c < m)%nat -> buffers_ok x -> length und = n -> length row = n -> Forall is_u8 row ->
  known_from (S c) x und ->
  foldl (substitute_known mul symbol_size c) (x, und, row) (seq m k) = (x', und', row') ->
  buffers_ok x' /\ length und' = n /\ nth c row' 0 = nth c row 0 /\
  (forall j, j <> c -> nth j x' [] = nth j x [] /\ nth j und' false = nth j und false) /\
  (nth c und' false = false -> nth c und false = false /\ substituted c m x x' row).
Proof.
  revert m x und row. induction k as [|k IH]; intros m x und row Hm Hc Hx Hu Hlr Hr Hk; cbn [seq foldl].
  - intros [= <- <- <-]. split_and!; try done. intros ?. split; [done|]. intros p Hp.
    rewrite (drop_ge row) by lia. cbn. by rewrite Z.lxor_0_r.
  - cbn [substitute_known]. pose proof asize_ge as Has. destruct (buffers_nth x c Hx ltac:(lia)) as [Hc8 Hcl].
    destruct (buffers_nth x m Hx ltac:(lia)) as [Hm8 Hml].
    assert (Hdot : forall p, dot (drop m row) (drop m (column p)) =
      Z.lxor (nth m row 0 ⊗ nth p (nth m sent []) 0) (dot (drop (S m) row) (drop (S m) (column p)))).
    { intros p. rewrite dot_drop_S by (rewrite ?length_column; lia). by rewrite nth_column by lia. }
    destruct (Z.eqb_spec (nth m row 0) 0) as [H0|H0]; cbn [negb].
    + intros Heq. destruct (IH (S m) x und row ltac:(lia) ltac:(lia) Hx Hu Hlr Hr Hk Heq) as (I1 & I2 & I3 & I4 & I5).
      split; [exact I1|]. split_and!; try done. intros Hf. destruct (I5 Hf) as [? I6]. split; [done|].
      intros p Hp. rewrite I6, Hdot, H0, gf_mul_0_l by auto with cint. by rewrite Z.lxor_0_l.
    + destruct (nth m und false) eqn:Hum.
      * intros Heq. destruct (IH (S m) x (<[c:=true]> und) row) as (I1 & I2 & I3 & I4 & I5); try done; try lia.
        { by rewrite length_insert. }
        { intros j Hj. rewrite nth_insert_ne by lia. apply Hk. lia. }
        split; [exact I1|]. split_and!; try done.
        -- intros j Hj. destruct (I4 j Hj) as [? Hje]. by rewrite nth_insert_ne in Hje.
        -- intros Hf. destruct (I5 Hf) as [Hbad _]. by rewrite nth_insert_eq in Hbad by lia.
      * set (b := symbol_sub_scaled mul (nth c x []) (nth m row 0) (nth m x []) asize). intros Heq.
        destruct (IH (S m) (<[c:=b]> x) und (<[m:=0]> row)) as (I1 & I2 & I3 & I4 & I5); try done; try lia.
        { apply buffers_insert; [done|]. split; [apply (add_scaled_u8 mul inv); auto with cint|].
          subst b. unfold symbol_sub_scaled. by rewrite length_add_scaled. }
        { by rewrite length_insert. }
        { apply Forall_insert; [done|apply u8_0]. }
        { intros j Hj Hju. apply solved_insert_ne; [lia|]. by apply Hk. }
        split; [exact I1|]. split_and!; try done.
        -- rewrite I3. apply nth_insert_ne. lia.
        -- intros j Hj. destruct (I4 j Hj) as [Hje ?]. by rewrite nth_insert_ne in Hje.
        -- intros Hf. destruct (I5 Hf) as [? I6]. split; [done|]. intros p Hp.
           rewrite I6, Hdot, nth_insert_eq, drop_insert_lt by (done || lia || (destruct Hx; lia)).
           subst b. unfold symbol_sub_scaled. rewrite nth_add_scaled by lia.
           rewrite (Hk m ltac:(lia) Hum p Hp). by rewrite Z.lxor_assoc.
Qed.

Definition back_ok (s : back_state) : Prop :=
  buffers_ok (b_x s) /\ length (b_undetermined s) = n /\ (b_candidate1 s <= n)%nat /\
  known_from (b_candidate1 s) (b_x s) (b_undetermined s).

Lemma symbol_mul_u8 d t k : Forall is_u8 d -> is_u8 t -> Forall is_u8 (symbol_mul mul d t k).
Proof.
  intros Hd Ht. revert k. induction Hd as [|x d Hx Hd IH]; intros [|k]; cbn [symbol_mul]; auto with cint.
Qed.

Lemma length_symbol_mul d t k : length (symbol_mul mul d t k) = length d.
Proof. revert d. induction k as [|k IH]; intros [|x d]; cbn [symbol_mul length]; auto. Qed.

Lemma nth_symbol_mul d t k p :
  (p < k)%nat -> (k <= length d)%nat -> nth p (symbol_mul mul d t k) 0 = t ⊗ nth p d 0.
Proof.
  revert d p. induction k as [|k IH]; intros [|x d] p Hp Hl; cbn [length] in *; try lia.
  destruct p; cbn [symbol_mul nth]; [done|]. apply IH; lia.
Qed.

(** Dividing by the coefficient of the candidate. *)
Lemma divide_solved x c r :
  buffer_ok (nth c x []) -> (c < length x)%nat -> (c < n)%nat -> is_u8 r -> r <> 0 ->
  (forall p, (p < symbol_size)%nat -> nth p (nth c x []) 0 = r ⊗ nth p (nth c sent []) 0) ->
  solved (<[c := symbol_mul mul (nth c x []) (gf256_inv inv r) symbol_size]> x) c.
Proof.
  intros [Hb Hl] Hcx Hc Hr Hr0 Hv p Hp. pose proof asize_ge.
  rewrite nth_insert_eq, nth_symbol_mul, Hv by (done || lia).
  rewrite <- gf_mul_assoc by auto with cint. rewrite (gf_mul_comm (gf256_inv inv r)) by auto with cint.
  rewrite gf_mul_inv by done. apply gf_mul_1_l. auto with cint.
Qed.

(** The equation of a row whose first [c] coefficients are zero. *)
Lemma eqn_from row ct c p :
  eqn_ok row ct -> (c < n)%nat -> (p < symbol_size)%nat -> Forall (fun a => a = 0) (take c row) ->
  nth p ct 0 = Z.lxor (nth c row 0 ⊗ nth p (nth c sent []) 0) (dot (drop (S c) row) (drop (S c) (column p))).
Proof.
  intros He Hc Hp Hz. rewrite <- (eqn_holds _ _ He p Hp). pose proof (eqn_len _ _ He) as Hl.
  rewrite <- nth_column by done. rewrite <- dot_drop_S by (rewrite ?length_column; lia).
  pose proof (length_column p) as Hlc. pose proof (column_u8 p) as Hcu.
  revert Hz Hl Hlc Hcu Hc. generalize (column p) as xs. generalize n as k. clear -GFTables0. unfold Rlc.dot.
  revert row. induction c as [|c IH]; intros row k xs Hz Hl Hlc Hcu Hc; [done|].
  destruct row as [|a row], xs as [|x xs]; cbn [length] in *; try lia. cbn [take drop zip_with foldr] in *.
  apply Forall_cons_1 in Hz as [-> Hz]. apply Forall_cons_1 in Hcu as [Hx Hcu]. cbn [length] in *.
  rewrite (IH row (k - 1)%nat) by (done || lia). by rewrite gf_mul_0_l, Z.lxor_0_l.
Qed.

Lemma known_transfer c x und x' und' :
  known_from (S c) x und ->
  (forall j, j <> c -> nth j x' [] = nth j x [] /\ nth j und' false = nth j und false) ->
  known_from (S c) x' und'.
Proof.
  intros Hk Ho j Hj Hf p Hp. destruct (Ho j ltac:(lia)) as [-> Hu]. apply Hk; [done|congruence|done].
Qed.

Lemma known_extend c x und : known_from (S c) x und -> (nth c und false = false -> solved x c) -> known_from c x und.
Proof.
  intros Hk Hc j Hj Hf. destruct (decide (j = c)) as [->|]; [by apply Hc|]. apply Hk; [lia|done].
Qed.

(** The right-hand side left for an unknown that no step marked. *)
Lemma substituted_value row ct c x x1 (und : list bool) :
  eqn_ok row ct -> buffers_ok x -> (c < n)%nat -> length und = n ->
  let und0 := if existsb (fun j => negb (nth j row 0 =? 0)) (seq 0 c) then <[c := true]> und else und in
  nth c und0 false = false ->
  substituted c (c + 1) (<[c := memcpy (nth c x []) ct symbol_size]> x) x1 row ->
  forall p, (p < symbol_size)%nat -> nth p (nth c x1 []) 0 = nth c row 0 ⊗ nth p (nth c sent []) 0.
Proof.
  intros He Hx Hc Hu und0 Hf Hs p Hp. subst und0. destruct (existsb _ _) eqn:Hex.
  { by rewrite nth_insert_eq in Hf by lia. }
  rewrite (Hs p Hp), nth_insert_eq by (destruct Hx; lia).
  pose proof (eqn_size _ _ He). pose proof asize_ge. rewrite nth_memcpy by lia.
  rewrite (eqn_from row ct c p He Hc Hp) by (by apply existsb_false_zero).
  by rewrite Nat.add_1_r, Z.lxor_assoc, Z.lxor_nilpotent, Z.lxor_0_r.
Qed.

(** The invariant of the loop over the rows. *)
Lemma back_row_ok ct s i :
  back_ok s -> eqn_ok (nth i (b_a s) []) (nth i ct []) -> back_ok (back_row mul inv n symbol_size ct s i).
Proof.
  intros (Hx & Hu & Hc1 & Hk) He. unfold back_row. set (row := nth i (b_a s) []) in *.
  destruct (negb _); [done|].
  destruct (skip_zeroes row (b_candidate1 s) (b_undetermined s)) as [[c1 und] oob] eqn:Hskip.
  destruct (skip_zeroes_spec _ _ _ _ _ _ Hskip ltac:(lia)) as (Hle & Hlu & Hsame & Hmarked & Hnz).
  assert (Hk1 : known_from c1 (b_x s) und).
  { intros j Hj Hf. destruct (Nat.lt_ge_cases j (b_candidate1 s)).
    - by rewrite Hmarked in Hf by lia.
    - apply Hk; [lia|]. by rewrite <- Hsame. }
  destruct c1 as [|c]; [split; [exact Hx|]; split_and!; simpl; try lia; done|].
  specialize (Hnz c eq_refl).
  set (x0 := <[c := memcpy _ _ _]> (b_x s)). set (und0 := if existsb _ (seq 0 c) then _ else _).
  assert (Hu0 : length und0 = n) by (subst und0; destruct (existsb _ _); rewrite ?length_insert; lia).
  assert (Hx0 : buffers_ok x0)
    by (destruct He; pose proof asize_ge; apply buffers_insert, memcpy_ok; try done; [by apply buffers_nth; [|lia]|lia]).
  assert (Hk0 : known_from (S c) x0 und0).
  { apply (known_transfer c _ _ _ _ Hk1). intros j Hj. unfold x0, und0. rewrite nth_insert_ne by done.
    split; [done|]. destruct (existsb _ _); [by apply nth_insert_ne|done]. }
  destruct (foldl _ _ _) as [[x1 und1] row1] eqn:Hfold.
  destruct (substitute_ok c (n - (c + 1)) (c + 1) x0 und0 row x1 und1 row1)
    as (Hx1 & Hu1 & Hr1 & Hother & Hsub); try done; try lia; try by destruct He.
  pose proof (known_transfer c _ _ _ _ Hk0 Hother) as Hkn.
  destruct (orb _ _) eqn:Hz; [|destruct (nth c und1 false) eqn:Hm; cbn [negb]].
  - split; [exact Hx1|]. cbn. split_and!; [by rewrite length_insert|lia|]. apply known_extend.
    + apply (known_transfer c _ _ _ _ Hkn). intros j Hj. by rewrite nth_insert_ne.
    + by rewrite nth_insert_eq by lia.
  - split; [exact Hx1|]. cbn. split_and!; [done|lia|]. apply known_extend; [done|congruence || (intros ?; congruence)].
  - destruct (Hsub eq_refl) as [Hf0 Hs]. rewrite Hr1.
    assert (Hr8 : is_u8 (nth c row 0)) by (destruct He; by apply Forall_nth_u8).
    destruct (buffers_nth x1 c Hx1 ltac:(lia)) as [Hb8 Hbl].
    split; [|cbn; split_and!; [done|lia|]].
    + apply buffers_insert; [done|]. split; [apply symbol_mul_u8; auto with cint|by rewrite length_symbol_mul].
    + apply known_extend.
      * apply (known_transfer c _ _ _ _ Hkn). intros j Hj. by rewrite nth_insert_ne.
      * intros _. apply divide_solved; try done; try lia; [by destruct Hx1; lia|].
        by apply (substituted_value row (nth i ct []) c (b_x s) x1 und); try done; lia.
Qed.

(** A row of the matrix is changed only by its own iteration. *)
Lemma back_row_other ct s i j :
  j <> i -> nth j (b_a (back_row mul inv n symbol_size ct s i)) [] = nth j (b_a s) [].
Proof.
  intros Hne. unfold back_row. destruct (negb _); [done|].
  destruct (skip_zeroes _ _ _) as [[[|c] und] oob]; [done|].
  destruct (foldl _ _ _) as [[x1 und1] row1]. destruct (orb _ _); [by cbn; rewrite nth_insert_ne|].
  destruct (negb _); cbn; by rewrite nth_insert_ne.
Qed.

Lemma back_substitution_ok ct rows s :
  NoDup rows -> back_ok s -> Forall (fun i => eqn_ok (nth i (b_a s) []) (nth i ct [])) rows ->
  back_ok (back_substitution mul inv n symbol_size ct rows s).
Proof.
  revert s. induction rows as [|i rows IH]; intros s Hnd Hs Hr; cbn [back_substitution]; [done|].
  inversion Hnd as [|? ? Hni Hnd']; subst. apply Forall_cons_1 in Hr as [Hi Hr].
  pose proof (back_row_ok ct s i Hs Hi) as Hs'. destruct (b_stop _); [done|].
  apply IH; [done|done|]. apply Forall_lookup_2. intros k j Hj.
  rewrite back_row_other; [by apply (Forall_lookup_1 _ _ k _ Hr)|].
  intros ->. by apply Hni, (list_elem_of_lookup_2 _ k).
Qed.

Lemma gauss_prepared m a ct :
  system_of m (a, ct) ->
  let s1 := sort_system a ct m n in
  let s2 := forward_elimination mul inv m n symbol_size s1 in
  let s3 := sort_system s2.1 s2.2 m n in
  system_of m (canonical_form mul inv m n symbol_size (seq 0 (m - 1)) s3).
Proof.
  intros Hs s1 s2 s3. apply canonical_form_ok; [|apply Forall_seq; lia].
  subst s3. apply sort_system_ok. rewrite <- surjective_pairing. by apply forward_elimination_ok, sort_system_ok.
Qed.

Lemma gauss_known m a ct x und x' und' oob :
  system_of m (a, ct) -> buffers_ok x -> length und = n ->
  gaussElimination mul inv m n symbol_size a ct x und = (x', und', oob) ->
  length und' = n /\ buffers_ok x' /\ forall j, (j < n)%nat -> nth j und' false = false -> solved x' j.
Proof.
  intros Hs Hx Hu. pose proof (gauss_prepared m a ct Hs) as Hp. unfold gaussElimination. cbv zeta in Hp |- *.
  set (s4 := canonical_form _ _ _ _ _ _ _) in *. set (s5 := back_substitution _ _ _ _ _ _ _).
  assert (back_ok s5) as (Hx5 & Hu5 & Hc5 & Hk5).
  { destruct Hp as [Hok Hl]. apply back_substitution_ok.
    - apply NoDup_ListNoDup, List.NoDup_rev, List.seq_NoDup.
    - split; [exact Hx|]. split_and!; [done|done|]. intros j Hj. cbn in Hj. lia.
    - apply Forall_rev, Forall_seq. intros i Hi. apply (system_row s4); [done|lia]. }
  intros [= <- <- _]. destruct (Nat.ltb_spec 0 (b_candidate1 s5)) as [Hlt|Hlt].
  - split; [rewrite length_app, length_replicate, length_drop; lia|]. split; [exact Hx5|].
    intros j Hj. destruct (Nat.lt_ge_cases j (b_candidate1 s5)).
    + rewrite app_nth1 by (rewrite length_replicate; lia). rewrite nth_lookup, lookup_replicate_2 by lia. done.
    + rewrite app_nth2; rewrite length_replicate; [|lia]. intros Hf. apply Hk5; [lia|].
      rewrite nth_lookup, lookup_drop in Hf. rewrite nth_lookup. by replace j with (b_candidate1 s5 + (j - b_candidate1 s5))%nat by lia.
  - split; [done|]. split; [exact Hx5|]. intros j Hj. apply Hk5. lia.
Qed.

(** Whatever system of equations over the sent symbols the receiver
    collects (square or not, singular or not), [gaussElimination] returns an
    array of [n] flags, and every unknown it leaves determined has byte for byte
    the value of the symbol that was sent: the decoder never delivers a wrong
    symbol. *)
Theorem gauss_sound n_eq a constant_terms x undetermined :
  Forall2 eqn_ok a constant_terms -> length a = n_eq -> buffers_ok x -> length undetermined = n ->
  let '(x', undetermined', _) := gaussElimination mul inv n_eq n symbol_size a constant_terms x undetermined in
  length undetermined' = n /\
  forall j p, (j < n)%nat -> (p < symbol_size)%nat -> nth j undetermined' false = false ->
  nth p (nth j x' []) 0 = nth p (nth j sent []) 0.
Proof.
  intros Hs Hl Hx Hu. destruct (gaussElimination _ _ _ _ _ _ _ _ _) as [[x' und'] oob] eqn:Hg.
  destruct (gauss_known n_eq a constant_terms x undetermined x' und' oob) as (H1 & _ & H3); try done.
  split; [done|]. intros j p Hj Hp Hf. by apply (H3 j).
Qed.
End Sound.

(** ** A concrete system *)

Lemma dot_ones mul inv `{!GFTables mul inv} x y : is_u8 x -> is_u8 y -> dot mul [1; 1] [x; y] = Z.lxor x y.
Proof. intros Hx Hy. unfold dot. cbn [zip_with foldr]. by rewrite !gf_mul_1_l, Z.lxor_0_r. Qed.

Lemma dot_first mul inv `{!GFTables mul inv} x y : is_u8 x -> is_u8 y -> dot mul [1; 0] [x; y] = x.
Proof. intros Hx Hy. unfold dot. cbn [zip_with foldr]. by rewrite gf_mul_1_l, gf_mul_0_l, !Z.lxor_0_r. Qed.

(** A one-byte symbol in a buffer of the aligned size. *)
Definition one_byte (b : Z) : list Z := b :: replicate 31 0.

Lemma one_byte_u8 b : is_u8 b -> Forall is_u8 (one_byte b).
Proof. intros Hb. apply Forall_cons; [done|]. apply Forall_replicate, u8_0. Qed.

(** Two symbols of one byte, 7 and 9, and the equations x0 + x1 = 14 and x0 = 7. *)
Lemma gauss_sound_witness :
  let '(x', undetermined', _) := gaussElimination assign_mul assign_inv 2 2 1
    [[1; 1]; [1; 0]] [one_byte 14; one_byte 7] [one_byte 0; one_byte 0] [false; false] in
  length undetermined' = 2%nat /\
  forall j p, (j < 2)%nat -> (p < 1)%nat -> nth j undetermined' false = false ->
  nth p (nth j x' []) 0 = nth p (nth j [one_byte 7; one_byte 9] []) 0.
Proof.
  assert (H7 : is_u8 7) by (unfold is_u8; lia). assert (H9 : is_u8 9) by (unfold is_u8; lia).
  assert (H0 : is_u8 0) by (unfold is_u8; lia). assert (H1 : is_u8 1) by (unfold is_u8; lia).
  assert (H14 : is_u8 14) by (unfold is_u8; lia).
  apply (gauss_sound assign_mul assign_inv 2 1 [one_byte 7; one_byte 9]); try done.
  - by repeat first [apply one_byte_u8 | apply Forall_cons | apply Forall_nil].
  - apply Forall2_cons; [|apply Forall2_cons; [|by constructor]].
    + split; [done|by repeat constructor|by apply one_byte_u8|done|].
      intros p Hp. replace p with 0%nat by lia. by apply (dot_ones _ assign_inv).
    + split; [done|by repeat constructor|by apply one_byte_u8|done|].
      intros p Hp. replace p with 0%nat by lia. by apply (dot_first _ assign_inv).
  - assert (Hb : buffer_ok 1 (one_byte 0)) by (split; [by apply one_byte_u8|by apply Nat.leb_le]).
    split; [done|]. by repeat first [apply Forall_cons | apply Forall_nil].
Defined.

(** ** The read before the start of a row *)

Lemma skip_zeroes_oob row c und :
  (c <= length row)%nat -> (skip_zeroes row c und).2 = true <-> Forall (fun v => v = 0) (take c row).
Proof.
  revert und. induction c as [|c IH]; intros und Hl; cbn [skip_zeroes]; [by split|].
  rewrite (take_S_r row c _ (nth_lookup_lt row c 0 ltac:(lia))), Forall_app, Forall_singleton.
  destruct (Z.eqb_spec (nth c row 0) 0) as [H0|H0]; [rewrite IH by lia; tauto|]. split; [done|]. tauto.
Qed.

(** The loop that looks for the candidate of a row tests the coefficient
    before it tests the index: it reads [a[i][-1]] exactly when the row is not
    null and has no coefficient at or below the current candidate.  Such rows
    occur: three equations x0 + x1 + x2, x0 + x1 and x0 + x1 leave two rows that
    start at column 2, and the second one is read before its start. *)
Theorem back_row_reads_before ct mul inv n symbol_size s i :
  b_oob s = false -> length (nth i (b_a s) []) = n -> (b_candidate1 s <= n)%nat ->
  (b_oob (back_row mul inv n symbol_size ct s i) = true <->
   Exists (fun v => v <> 0) (nth i (b_a s) []) /\ Forall (fun v => v = 0) (take (b_candidate1 s) (nth i (b_a s) [])))
  /\ (gaussElimination assign_mul assign_inv 3 3 1 [[1; 1; 1]; [1; 1; 0]; [1; 1; 0]]
        [one_byte 14; one_byte 7; one_byte 7] [one_byte 0; one_byte 0; one_byte 0] [false; false; false]).2 = true.
Proof.
  intros Ho Hl Hc. split; [|by lazy]. unfold back_row. set (row := nth i (b_a s) []) in *.
  pose proof (skip_zeroes_oob row (b_candidate1 s) (b_undetermined s) ltac:(lia)) as Hoob.
  destruct (existsb _ (seq 0 n)) eqn:Hex; cbn [negb].
  - assert (Exists (fun v => v <> 0) row).
    { apply existsb_exists in Hex as (j & Hj%in_seq & Hne%negb_true_iff%Z.eqb_neq).
      apply Exists_exists. exists (nth j row 0). split; [|done]. apply nth_In. lia. }
    destruct (skip_zeroes row _ _) as [[[|c] und] oob]; cbn in Hoob |- *; [rewrite Ho; cbn; tauto|].
    destruct (foldl _ _ _) as [[x1 und1] row1]. destruct (orb _ _); [cbn; rewrite Ho; cbn; tauto|].
    destruct (negb _); cbn; rewrite Ho; cbn; tauto.
  - rewrite Ho. split; [done|]. intros [Hne _]. exfalso.
    pose proof (existsb_false_zero row n Hex) as Hz. rewrite take_ge in Hz by lia.
    apply Exists_exists in Hne as (v & Hv & Hne). apply Hne. by apply (proj1 (Forall_forall _ _) Hz).
Qed.

Lemma back_row_reads_before_witness :
  b_oob (back_row assign_mul assign_inv 2 1 [] (Back [[0; 1]] [] [false; false] 1 false false) 0) = true.
Proof.
  refine (proj2 (proj1 (back_row_reads_before [] assign_mul assign_inv 2 1
    (Back [[0; 1]] [] [false; false] 1 false false) 0 eq_refl eq_refl ltac:(cbn; lia))) _).
  split; [apply Exists_cons_tl; by apply Exists_cons_hd|by repeat constructor].
Defined.

End Rlc.
