(* ===== verification/RlcCodec.v ===== *)
(** * The RLC encoder and the recovery of lost symbols

    plugins/simple_fec/window_framework/fec_schemes/rlc_gf256/protoops/
      rlc_fec_scheme_generate_gf256.c   get_coefs, get_one_coded_symbol
      rlc_fec_scheme_gf256_causal.c     shuffle_repair_symbols, fec_recover

    A source symbol that the receiver lacks is [None] in the array of source
    symbols.  [my_malloc] rounds the size of a block up (picoquic/memory.c), so a
    block of [symbol_size] bytes is followed by the bytes [slack]; allocations
    are taken to succeed.  Array indices computed by [id - smallest_protected]
    are [pos id].

    The main property puts the encoder, the generator of coefficients, the
    construction of the system and the elimination together: from genuine
    repair symbols [fec_recover] only ever fills a hole with the symbol that was
    sent. *)
From stdpp Require Import base tactics list numbers.
From Stdlib Require Import ZArith Lia.
From S2P Require Import Prelude GF256 Tinymt32 Rlc.
Import GF256 Tinymt32 Rlc.
#[local] Open Scope Z_scope.

Module RlcCodec.

(** ** Data *)

(** [window_repair_symbol_t]: the payload and the metadata. *)
Record window_repair_symbol_t := RepairSymbol {
  repair_payload : list Z;
  payload_length : Z;
  fss_val : list Z;
  first_id : Z;
  n_protected_symbols : Z
}.

(** [window_source_symbol_t]: the identifier and [_whole_data]. *)
Record window_source_symbol_t := SourceSymbol { ss_id : Z; whole_data : list Z }.

(** [rlc_gf256_fec_scheme_t] *)
Record rlc_gf256_fec_scheme_t := Scheme {
  table_mul : list (list Z); table_inv : list Z; current_repair_symbol : Z
}.

Definition encode_u32 (v : Z) : list Z := be_digits 4 v.
Definition decode_u32 (bs : list Z) : Z := u32 (be_decode 0 (take 4 bs)).

(** ** Encoder *)

Fixpoint coefs_loop (n : nat) (prng : tinymt32_t) : list Z :=
  match n with
  | O => []
  | S n' =>
    let '(v, prng') := tinymt32_generate_uint32 prng in
    let c := u8 v in
    (if c =? 0 then 1 else c) :: coefs_loop n' prng'
  end.

Definition get_coefs (prng : tinymt32_t) (seed : Z) (n : nat) : list Z := coefs_loop n (tinymt32_init prng seed).

(** The loop on [j]: adds every known symbol, scaled, to the payload. *)
Definition add_knowns (mul : list (list Z)) (coefs : list Z) (knowns : list (list Z)) (symbol_size : nat)
    (payload : list Z) : list Z :=
  foldl (fun p j => symbol_add_scaled mul p (nth j coefs 0) (nth j knowns []) symbol_size)
        payload (seq 0 (length knowns)).

(** One iteration of the loop on [i]. *)
Definition code_symbol (mul : list (list Z)) (slack : list Z) (seed : Z) (knowns : list (list Z))
    (symbol_size : nat) (first_protected_id : Z) : window_repair_symbol_t :=
  let coefs := get_coefs fec_prng seed (length knowns) in
  RepairSymbol (add_knowns mul coefs knowns symbol_size (replicate symbol_size 0 ++ slack))
    (Z.of_nat symbol_size) (encode_u32 seed) first_protected_id (Z.of_nat (length knowns)).

Fixpoint generate_loop (n : nat) (slack : list Z) (fs : rlc_gf256_fec_scheme_t) (knowns : list (list Z))
    (symbol_size : nat) (first_protected_id : Z) : list window_repair_symbol_t * rlc_gf256_fec_scheme_t :=
  match n with
  | O => ([], fs)
  | S n' =>
    let seed := current_repair_symbol fs in
    let fs1 := Scheme (table_mul fs) (table_inv fs) (u32 (seed + 1)) in
    let rs := code_symbol (table_mul fs) slack seed knowns symbol_size first_protected_id in
    let '(rss, fs2) := generate_loop n' slack fs1 knowns symbol_size first_protected_id in
    (rs :: rss, fs2)
  end.

(** [inl] an error code; [inr] the repair symbols, the scheme's next state and
    the fec-scheme-specific bytes of the first symbol. *)
Definition get_one_coded_symbol (fs : rlc_gf256_fec_scheme_t) (slack : list Z)
    (source_symbols : list window_source_symbol_t) (n_symbols_to_generate symbol_size : nat)
    (first_protected_id : Z) : Z + (list window_repair_symbol_t * rlc_gf256_fec_scheme_t * list Z) :=
  if (length source_symbols <? 1)%nat then inl 1
  else
    let knowns := (fun ss => take symbol_size (whole_data ss)) <$> source_symbols in
    let first_seed := current_repair_symbol fs in
    let '(rss, fs') := generate_loop n_symbols_to_generate slack fs knowns symbol_size first_protected_id in
    inr (rss, fs', encode_u32 first_seed).

(** ** Recovery *)

Fixpoint shuffle_loop (n i : nat) {A} (rss : list A) (size : Z) (prng : tinymt32_t) : list A :=
  match n with
  | O => rss
  | S n' =>
    let '(v, prng') := tinymt32_generate_uint32 prng in
    shuffle_loop n' (S i) (swap rss i (Z.to_nat (v mod size))) size prng'
  end.

Definition shuffle_repair_symbols {A} (rss : list A) (prng : tinymt32_t) : list A :=
  shuffle_loop (length rss - 1) 0 rss (Z.of_nat (length rss)) prng.

Section Recover.
Context (fs : rlc_gf256_fec_scheme_t) (slack : list Z).
Context (smallest_protected : Z) (symbol_size : nat).

(** [id - smallest_protected], an index into the window. *)
Definition pos (id : Z) : nat := Z.to_nat (u32 (id - smallest_protected)).

(** The positions a repair symbol protects: from [first_id - smallest_protected]
    to [first_id + n_protected_symbols - smallest_protected], excluded. *)
Definition protected_range (rs : window_repair_symbol_t) : list nat :=
  seq (pos (first_id rs)) (pos (first_id rs + n_protected_symbols rs) - pos (first_id rs)).

Definition set_missing_indexes (missing_source_symbols : list Z) (missing_indexes : list Z) : list Z :=
  foldl (fun mi j => <[pos (nth j missing_source_symbols 0) := Z.of_nat j]> mi)
        missing_indexes (seq 0 (length missing_source_symbols)).

(** No other missing symbol is concerned: the previous one is below [bound] and
    the next one after the last identifier the repair symbol protects. *)
Definition trivial_test (missing_source_symbols : list Z) (rs : window_repair_symbol_t) (bound index_in_missing : Z) : bool :=
  ((index_in_missing =? 0) || (nth (Z.to_nat (index_in_missing - 1)) missing_source_symbols 0 <? bound)) &&
  ((index_in_missing =? Z.of_nat (length missing_source_symbols) - 1) ||
   (u32 (first_id rs + n_protected_symbols rs - 1) <? nth (Z.to_nat (index_in_missing + 1)) missing_source_symbols 0)).

Definition is_missing (source_symbols : list (option window_source_symbol_t)) (k : nat) : bool :=
  match nth k source_symbols None with None => true | Some _ => false end.

(** The state of the search for trivial repair symbols. *)
Record search_state := Search {
  s_protected : list bool; s_new_missing : list Z; s_repairs : list (option window_repair_symbol_t)
}.

(** The loop on [k] of the search; the [bool] is the variable [trivial]. *)
Definition search_symbol (source_symbols : list (option window_source_symbol_t)) (missing_source_symbols : list Z)
    (missing_indexes : list Z) (rs : window_repair_symbol_t)
    (s : list bool * list Z * bool) (k : nat) : list bool * list Z * bool :=
  let '(protected_symbols, new_missing, trivial) := s in
  if is_missing source_symbols k && negb (nth k protected_symbols false) then
    if trivial_test missing_source_symbols rs (first_id rs) (nth k missing_indexes (-1))
    then (<[k := true]> protected_symbols, new_missing ++ [u32 (Z.of_nat k + smallest_protected)], true)
    else (protected_symbols, new_missing, false)
  else s.

Definition search_repair (source_symbols : list (option window_source_symbol_t)) (missing_source_symbols : list Z)
    (missing_indexes : list Z) (s : search_state) (rs : option window_repair_symbol_t) : search_state :=
  match rs with
  | None => s
  | Some r =>
    if n_protected_symbols r <? 10 then
      let '(prot, new_missing, trivial) :=
        foldl (search_symbol source_symbols missing_source_symbols missing_indexes r)
              (s_protected s, s_new_missing s, false) (protected_range r) in
      Search prot new_missing (if trivial then s_repairs s ++ [Some r] else s_repairs s)
    else s
  end.

(** The loop that decides whether a repair symbol brings something new.  The
    result: the protected symbols, [trivial], [protects_at_least_one_new]. *)
Fixpoint protects_new (source_symbols : list (option window_source_symbol_t)) (missing_source_symbols : list Z)
    (missing_indexes : list Z) (rs : window_repair_symbol_t) (ks : list nat) (protected_symbols : list bool)
    (trivial : bool) : list bool * bool * bool :=
  match ks with
  | [] => (protected_symbols, trivial, false)
  | k :: ks' =>
    if is_missing source_symbols k then
      let trivial := trivial_test missing_source_symbols rs smallest_protected (nth k missing_indexes (-1)) in
      if trivial then (protected_symbols, true, false)
      else if negb (nth k protected_symbols false) then (<[k := true]> protected_symbols, trivial, true)
      else protects_new source_symbols missing_source_symbols missing_indexes rs ks' protected_symbols trivial
    else protects_new source_symbols missing_source_symbols missing_indexes rs ks' protected_symbols trivial
  end.

(** The loop on [j] that fills a row; state: row, constant term, [current_unknown]. *)
Definition fill_row (source_symbols : list (option window_source_symbol_t)) (missing_indexes coefs : list Z)
    (n_missing : nat) (s : list Z * list Z * nat) (j : nat) : list Z * list Z * nat :=
  let '(row, ct, current_unknown) := s in
  match nth j source_symbols None with
  | Some ss => (row, symbol_sub_scaled (table_mul fs) ct (nth j coefs 0) (whole_data ss) (aligned_size symbol_size),
                current_unknown)
  | None =>
    if (current_unknown <? n_missing)%nat then
      if negb (nth j missing_indexes (-1) =? -1)
      then (<[Z.to_nat (nth j missing_indexes (-1)) := nth j coefs 0]> row, ct, S current_unknown)
      else s
    else s
  end.

(** [get_coefs(..., &coefs[d])]: writes the coefficients from index [d] on. *)
Definition store_coefs (coefs : list Z) (d : nat) (cs : list Z) : list Z :=
  take d coefs ++ cs ++ drop (d + length cs) coefs.

Record build_state := Build {
  bs_protected : list bool; bs_coefs : list Z;
  bs_rows : list (list Z); bs_cts : list (list Z); bs_trivial : bool
}.

(** One repair symbol of the loop that builds the system. *)
Definition build_equation (source_symbols : list (option window_source_symbol_t)) (missing_source_symbols : list Z)
    (missing_indexes : list Z) (n_eq : nat) (s : build_state) (rs : option window_repair_symbol_t) : build_state :=
  match rs with
  | None => s
  | Some r =>
    if (length (bs_rows s) <? n_eq)%nat then
      let n_missing := length missing_source_symbols in
      let '(prot, trivial, protects) :=
        protects_new source_symbols missing_source_symbols missing_indexes r (protected_range r) (bs_protected s) false in
      if trivial || protects then
        let ct := memcpy (replicate symbol_size 0 ++ slack) (repair_payload r) symbol_size in
        let coefs := store_coefs (bs_coefs s) (pos (first_id r))
          (get_coefs fec_prng (decode_u32 (fss_val r)) (Z.to_nat (n_protected_symbols r))) in
        let '(row, ct', _) :=
          foldl (fill_row source_symbols missing_indexes coefs n_missing) (replicate n_missing 0, ct, 0%nat)
                (protected_range r) in
        Build prot coefs (bs_rows s ++ [row]) (bs_cts s ++ [ct']) (bs_trivial s || trivial)
      else Build prot (bs_coefs s) (bs_rows s) (bs_cts s) (bs_trivial s)
    else s
  end.

(** The last loop: stores the unknown number [current_unknown] at its place. *)
Definition store_recovered (can_recover : bool) (undetermined : list bool) (unknowns : list (list Z))
    (s : list (option window_source_symbol_t) * nat) (id : Z) : list (option window_source_symbol_t) * nat :=
  let '(source_symbols, current_unknown) := s in
  let idx := pos id in
  if is_missing source_symbols idx then
    if can_recover && negb (nth current_unknown undetermined false) &&
       negb (symbol_is_zero (nth current_unknown unknowns []) symbol_size)
    then (<[idx := Some (SourceSymbol (u32 (smallest_protected + Z.of_nat idx))
            (memcpy (replicate symbol_size 0 ++ slack) (nth current_unknown unknowns []) symbol_size))]> source_symbols,
          S current_unknown)
    else (source_symbols, S current_unknown)
  else s.

(** Building and solving the system for the chosen unknowns and repair symbols. *)
Definition solve_window (source_symbols : list (option window_source_symbol_t)) (missing_source_symbols : list Z)
    (missing_indexes : list Z) (repair_symbols : list (option window_repair_symbol_t)) (current_time : Z) :
    list (option window_source_symbol_t) * bool :=
  let n_missing := length missing_source_symbols in
  let n_eq := Nat.min n_missing (length repair_symbols) in
  let shuffled := shuffle_repair_symbols repair_symbols (tinymt32_init fec_prng (u32 current_time)) in
  let s := foldl (build_equation source_symbols missing_source_symbols missing_indexes n_eq)
             (Build (replicate (length source_symbols) false) (replicate (length source_symbols) 0) [] [] false)
             shuffled in
  let n_effective_equations := length (bs_rows s) in
  let can_recover := bs_trivial s || (n_missing <=? n_effective_equations)%nat in
  let unknowns := replicate n_missing (replicate symbol_size 0 ++ slack) in
  let undetermined := replicate n_missing false in
  let '(unknowns', undetermined') :=
    if can_recover
    then (gaussElimination (table_mul fs) (table_inv fs) n_effective_equations n_missing symbol_size
            (bs_rows s) (bs_cts s) unknowns undetermined).1
    else (unknowns, undetermined) in
  ((foldl (store_recovered can_recover undetermined' unknowns') (source_symbols, 0%nat) missing_source_symbols).1,
   can_recover).

(** The result: the array of source symbols and the output [can_recover] when
    it is set. *)
Definition fec_recover (source_symbols : list (option window_source_symbol_t))
    (repair_symbols : list (option window_repair_symbol_t)) (missing_source_symbols : list Z) (current_time : Z) :
    list (option window_source_symbol_t) * option bool :=
  if (length repair_symbols =? 0)%nat || (length missing_source_symbols =? 0)%nat then (source_symbols, None)
  else
    let missing_indexes := set_missing_indexes missing_source_symbols (replicate (length source_symbols) (-1)) in
    if (length repair_symbols <? length missing_source_symbols)%nat then
      let s := foldl (search_repair source_symbols missing_source_symbols missing_indexes)
                 (Search (replicate (length source_symbols) false) [] []) repair_symbols in
      if (0 <? length (s_repairs s))%nat then
        let '(ss, r) := solve_window source_symbols (s_new_missing s)
                          (set_missing_indexes (s_new_missing s) missing_indexes) (s_repairs s) current_time in
        (ss, Some r)
      else (source_symbols, None)
    else
      let '(ss, r) := solve_window source_symbols missing_source_symbols missing_indexes repair_symbols current_time in
      (ss, Some r).

End Recover.

(** ** Coefficients *)

Lemma coefs_loop_spec n prng : length (coefs_loop n prng) = n /\ Forall (fun c => 1 <= c < 2 ^ 8) (coefs_loop n prng).
Proof.
  revert prng. induction n as [|n IH]; intros prng; cbn [coefs_loop]; [by split|].
  destruct (tinymt32_generate_uint32 prng) as [v prng']. destruct (IH prng') as [Hl Hf].
  split; [cbn [length]; lia|]. apply Forall_cons; [|done].
  pose proof (u8_range v) as Hv. unfold is_u8 in Hv. destruct (Z.eqb_spec (u8 v) 0); lia.
Qed.

Lemma length_get_coefs prng seed n : length (get_coefs prng seed n) = n.
Proof. apply coefs_loop_spec. Qed.

Lemma get_coefs_u8 prng seed n : Forall is_u8 (get_coefs prng seed n).
Proof.
  refine (Forall_impl _ _ (proj2 (coefs_loop_spec n (tinymt32_init prng seed)))). unfold is_u8. lia.
Qed.

Lemma get_coefs_nonzero prng seed n i : (i < n)%nat -> nth i (get_coefs prng seed n) 0 <> 0.
Proof.
  intros Hi. unfold get_coefs. destruct (coefs_loop_spec n (tinymt32_init prng seed)) as [Hl Hf].
  pose proof (Forall_nth_lt _ _ i 0 Hf ltac:(lia)) as H. cbv beta in H. lia.
Qed.

Lemma decode_encode_u32 v : is_u32 v -> decode_u32 (encode_u32 v) = v.
Proof.
  intros Hv. unfold decode_u32, encode_u32. rewrite take_ge by (by rewrite length_be_digits).
  rewrite be_decode_digits. unfold is_u32 in Hv. rewrite Z.mod_small by (cbn; lia).
  rewrite Z.mul_0_l, Z.add_0_l. by apply u32_small.
Qed.

Lemma length_store_coefs coefs d cs :
  (d + length cs <= length coefs)%nat -> length (store_coefs coefs d cs) = length coefs.
Proof. intros H. unfold store_coefs. rewrite !length_app, length_take, length_drop. lia. Qed.

Lemma nth_store_coefs coefs d cs i :
  (d + length cs <= length coefs)%nat -> (i < length cs)%nat -> nth (d + i) (store_coefs coefs d cs) 0 = nth i cs 0.
Proof.
  intros H Hi. unfold store_coefs. rewrite app_nth2; rewrite length_take; [|lia].
  rewrite app_nth1 by lia. f_equal. lia.
Qed.

Lemma store_coefs_u8 coefs d cs : Forall is_u8 coefs -> Forall is_u8 cs -> Forall is_u8 (store_coefs coefs d cs).
Proof. intros H1 H2. unfold store_coefs. rewrite !Forall_app. split_and!; auto using Forall_take, Forall_drop. Qed.

Lemma swap_Forall {A} (P : A -> Prop) (l : list A) i j : Forall P l -> Forall P (swap l i j).
Proof.
  intros Hl. unfold swap. destruct (l !! i) eqn:Hi; [|done]. destruct (l !! j) eqn:Hj; [|done].
  repeat apply Forall_insert; [done|by apply (Forall_lookup_1 _ l j)|by apply (Forall_lookup_1 _ l i)].
Qed.

(** The shuffle permutes: it only exchanges entries. *)
Lemma shuffle_Forall {A} (P : A -> Prop) (l : list A) prng : Forall P l -> Forall P (shuffle_repair_symbols l prng).
Proof.
  unfold shuffle_repair_symbols. generalize (Z.of_nat (length l)) as size. generalize (length l - 1)%nat as n.
  intros n size. generalize 0%nat as i. revert l prng. induction n as [|n IH]; intros l prng i Hl; cbn [shuffle_loop]; [done|].
  destruct (tinymt32_generate_uint32 prng). by apply IH, swap_Forall.
Qed.

(** ** Linear combinations of the window *)
Section Correct.
Context (fs : rlc_gf256_fec_scheme_t) (slack : list Z).
Context (smallest_protected : Z) (symbol_size : nat).
Context `{HGF : !GFTables (table_mul fs) (table_inv fs)}.
Context (Hslack : Forall is_u8 slack) (Hroom : (aligned_size symbol_size <= symbol_size + length slack)%nat).
(** The symbols of the window, as they were sent. *)
Context (orig : list (list Z)).
Context (Horig_u8 : Forall (Forall is_u8) orig) (Horig_len : Forall (fun o => length o = symbol_size) orig).
Context (Hwin : 0 <= smallest_protected /\ smallest_protected + Z.of_nat (length orig) < 2 ^ 32).

#[local] Abbreviation mul := (table_mul fs).
#[local] Abbreviation asize := (aligned_size symbol_size).
#[local] Abbreviation N := (length orig).
#[local] Abbreviation pos := (RlcCodec.pos smallest_protected).
Notation "a '⊗' b" := (gf256_mul mul a b) (at level 40, left associativity).
#[local] Hint Resolve u8_0 : cint.
#[local] Hint Extern 1 (is_u8 (gf256_mul _ _ _)) => apply (mul_u8' mul (table_inv fs)) : cint.

Definition sym_id (k : nat) : Z := smallest_protected + Z.of_nat k.

Lemma pos_id k : (k <= N)%nat -> pos (sym_id k) = k.
Proof.
  intros Hk. unfold RlcCodec.pos, sym_id. rewrite u32_small by lia. lia.
Qed.

Lemma orig_byte_u8 k p : is_u8 (nth p (nth k orig []) 0).
Proof.
  apply Forall_nth_u8. destruct (Nat.lt_ge_cases k N); [by apply Forall_nth_lt|]. by rewrite nth_overflow.
Qed.
#[local] Hint Resolve orig_byte_u8 : cint.

(** The sum over the positions [js] of coefficient times byte [p]. *)
Definition wsum (coef : nat -> Z) (p : nat) (js : list nat) : Z :=
  foldr (fun j acc => Z.lxor (coef j ⊗ nth p (nth j orig []) 0) acc) 0 js.

Lemma wsum_ext c1 c2 p js : (forall j, j ∈ js -> c1 j = c2 j) -> wsum c1 p js = wsum c2 p js.
Proof.
  induction js as [|j js IH]; intros Heq; [done|]. unfold wsum in *. cbn [foldr].
  rewrite (Heq j) by left. rewrite IH; [done|]. intros. apply Heq. by right.
Qed.

Lemma wsum_shift c d p js : wsum c p ((Nat.add d) <$> js) =
  foldr (fun i acc => Z.lxor (c (d + i)%nat ⊗ nth p (nth (d + i) orig []) 0) acc) 0 js.
Proof. unfold wsum. induction js as [|j js IH]; [done|]. cbn. by rewrite IH. Qed.

(** What the encoder computes: byte [p] of the payload. *)
Lemma nth_add_knowns coefs knowns payload p js :
  (symbol_size <= length payload)%nat -> (p < symbol_size)%nat ->
  (forall j, j ∈ js -> length (nth j knowns []) = symbol_size) ->
  nth p (foldl (fun q j => symbol_add_scaled mul q (nth j coefs 0) (nth j knowns []) symbol_size) payload js) 0 =
  Z.lxor (nth p payload 0) (foldr (fun j acc => Z.lxor (nth j coefs 0 ⊗ nth p (nth j knowns []) 0) acc) 0 js).
Proof.
  intros Hl Hp. revert payload Hl. induction js as [|j js IH]; intros payload Hl Hk; cbn [foldl foldr].
  - by rewrite Z.lxor_0_r.
  - rewrite IH; [|by rewrite length_add_scaled|intros; apply Hk; by right].
    rewrite nth_add_scaled; [by rewrite Z.lxor_assoc|done|done|]. rewrite Hk; [done|left].
Qed.

Lemma payload_shape coefs knowns payload js :
  Forall is_u8 payload -> Forall is_u8 coefs -> Forall (Forall is_u8) knowns ->
  let r := foldl (fun q j => symbol_add_scaled mul q (nth j coefs 0) (nth j knowns []) symbol_size) payload js in
  Forall is_u8 r /\ length r = length payload.
Proof.
  intros Hp Hc Hk. cbn zeta. revert payload Hp. induction js as [|j js IH]; intros payload Hp; cbn [foldl]; [done|].
  destruct (IH (symbol_add_scaled mul payload (nth j coefs 0) (nth j knowns []) symbol_size)) as [H1 H2].
  - apply (add_scaled_u8 mul (table_inv fs)); auto with cint.
    destruct (Nat.lt_ge_cases j (length knowns)); [by apply Forall_nth_lt|]. by rewrite nth_overflow.
  - split; [done|]. by rewrite H2, length_add_scaled.
Qed.

(** The symbols at positions [d .. d + n). *)
Definition slice (d n : nat) : list (list Z) := take n (drop d orig).

(** A repair symbol as the encoder makes it from [n] symbols of the window. *)
Definition genuine (d n : nat) (r : window_repair_symbol_t) : Prop :=
  (d + n <= N)%nat /\ (1 <= n)%nat /\
  exists seed slack', is_u32 seed /\ Forall is_u8 slack' /\
    r = code_symbol mul slack' seed (slice d n) symbol_size (sym_id d).

Lemma length_slice d n : (d + n <= N)%nat -> length (slice d n) = n.
Proof. intros H. unfold slice. rewrite length_take, length_drop. lia. Qed.

Lemma nth_slice d n i : (i < n)%nat -> nth i (slice d n) [] = nth (d + i) orig [].
Proof.
  intros Hi. unfold slice. rewrite !nth_lookup, lookup_take, lookup_drop. by rewrite decide_True.
Qed.

(** What the receiver uses of a genuine repair symbol. *)
Lemma genuine_spec d n r : genuine d n r ->
  protected_range smallest_protected r = seq d n /\ pos (first_id r) = d /\ Z.to_nat (n_protected_symbols r) = n /\
  Forall is_u8 (repair_payload r) /\ (symbol_size <= length (repair_payload r))%nat /\
  forall coefs p, length coefs = N -> (p < symbol_size)%nat ->
    let coefs' := store_coefs coefs d (get_coefs fec_prng (decode_u32 (fss_val r)) n) in
    nth p (repair_payload r) 0 = wsum (fun j => nth j coefs' 0) p (seq d n).
Proof.
  intros (Hd & Hn & seed & slack' & Hseed & Hslack' & ->). unfold code_symbol, protected_range.
  cbn [repair_payload fss_val first_id n_protected_symbols].
  rewrite length_slice by done.
  assert (Hp1 : pos (sym_id d) = d) by (apply pos_id; lia).
  assert (Hp2 : pos (sym_id d + Z.of_nat n) = (d + n)%nat).
  { replace (sym_id d + Z.of_nat n) with (sym_id (d + n)) by (unfold sym_id; lia). by apply pos_id. }
  rewrite Hp1, Hp2. rewrite decode_encode_u32 by done.
  set (cs := get_coefs fec_prng seed n). unfold add_knowns. rewrite length_slice by done.
  assert (Hsl : Forall (Forall is_u8) (slice d n)) by (by apply Forall_take, Forall_drop).
  assert (Hzero : Forall is_u8 (replicate symbol_size 0 ++ slack'))
    by (apply Forall_app; split; [apply Forall_replicate, u8_0|done]).
  destruct (payload_shape cs (slice d n) _ (seq 0 n) Hzero (get_coefs_u8 _ _ _) Hsl) as [Hu Hl].
  split; [f_equal; lia|]. split; [done|]. split; [lia|]. split; [exact Hu|].
  split; [rewrite Hl, length_app, length_replicate; lia|].
  intros coefs p Hc Hp. rewrite nth_add_knowns; [|rewrite length_app, length_replicate; lia|done|].
  - rewrite app_nth1 by (by rewrite length_replicate). rewrite nth_replicate, Z.lxor_0_l.
    replace (seq d n) with (Nat.add d <$> seq 0 n) by (by rewrite fmap_add_seq, Nat.add_0_r). rewrite wsum_shift.
    assert (Hin : forall i, i ∈ seq 0 n -> (i < n)%nat) by (intros i Hi%elem_of_seq; lia).
    revert Hin. generalize (seq 0 n) as js. induction js as [|i js IH]; intros Hin; [done|]. cbn [foldr].
    rewrite IH by (intros; apply Hin; by right). specialize (Hin i ltac:(left)).
    rewrite nth_slice by done. subst cs.
    by rewrite nth_store_coefs by (rewrite length_get_coefs; lia).
  - intros i Hi%elem_of_seq. rewrite nth_slice by lia. apply (Forall_nth_lt _ _ _ _ Horig_len). lia.
Qed.
(** ** The equations *)
Context (source_symbols : list (option window_source_symbol_t)) (Hsrc_len : length source_symbols = N).

(** What is known of a symbol is what was sent. *)
Definition holds (k : nat) (data : list Z) : Prop :=
  Forall is_u8 data /\ (asize <= length data)%nat /\
  forall p, (p < symbol_size)%nat -> nth p data 0 = nth p (nth k orig []) 0.

Context (Hsrc : forall k ss, nth k source_symbols None = Some ss -> holds k (whole_data ss)).

#[local] Abbreviation hole := (is_missing source_symbols).

Lemma dot_insert row xs u c :
  Forall is_u8 xs -> length row = length xs -> (u < length row)%nat -> nth u row 0 = 0 ->
  dot mul (<[u := c]> row) xs = Z.lxor (dot mul row xs) (c ⊗ nth u xs 0).
Proof.
  unfold dot. revert u xs. induction row as [|a row IH]; intros [|u] xs Hx Hl Hu H0; cbn [length nth] in *; try lia.
  all: destruct Hx as [|x xs Hx Hxs]; cbn [length] in *; [lia|].
  - subst a. cbn. rewrite gf_mul_0_l by done. by rewrite Z.lxor_0_l, Z.lxor_comm.
  - cbn [list_insert insert zip_with foldr]. change (list_insert u c row) with (<[u := c]> row).
    rewrite IH by (done || lia). by rewrite Z.lxor_assoc.
Qed.

(** A freshly allocated block. *)
Lemma block_ok : buffer_ok symbol_size (replicate symbol_size 0 ++ slack).
Proof.
  split; [apply Forall_app; split; [apply Forall_replicate, u8_0|done]|]. rewrite length_app, length_replicate. lia.
Qed.

Section Unknowns.
(** The positions of the unknowns and the array that gives their numbers. *)
Context (M : list nat) (mi : list Z).
Context (HM : NoDup M) (Hholes : forall j, j ∈ M -> (j < N)%nat /\ hole j = true).

Definition sent_symbols : list (list Z) := (fun k => nth k orig []) <$> M.
Definition indexed (j : nat) : Prop := exists u, M !! u = Some j /\ nth j mi (-1) = Z.of_nat u.

Lemma sent_symbols_u8 : Forall (Forall is_u8) sent_symbols.
Proof.
  apply Forall_fmap, Forall_lookup_2. intros u k Hk. apply (Forall_nth_lt _ _ _ _ Horig_u8).
  by apply Hholes, (list_elem_of_lookup_2 _ u).
Qed.

Lemma sent_column u j p : M !! u = Some j -> nth u (column sent_symbols p) 0 = nth p (nth j orig []) 0.
Proof.
  intros Hu. apply nth_lookup_Some. unfold column, sent_symbols. by rewrite !list_lookup_fmap, Hu.
Qed.

Lemma length_sent : length sent_symbols = length M.
Proof. apply length_fmap. Qed.

#[local] Abbreviation equation := (eqn_ok mul (length M) symbol_size sent_symbols).

(** The equation a partly filled row and constant term stand for: the positions
    [js] are still to be processed. *)
Record filling (coefs : list Z) (js : list nat) (row ct : list Z) (cu : nat) : Prop := Filling {
  fi_row : length row = length M /\ Forall is_u8 row;
  fi_ct : Forall is_u8 ct /\ (asize <= length ct)%nat;
  fi_cu : (cu + length (filter (fun j => hole j = true) js) <= length M)%nat;
  fi_zero j u : j ∈ js -> M !! u = Some j -> nth u row 0 = 0;
  fi_sum p : (p < symbol_size)%nat ->
    nth p ct 0 = Z.lxor (dot mul row (column sent_symbols p)) (wsum (fun j => nth j coefs 0) p js)
}.

Lemma fill_known coefs j js row ct cu ss :
  nth j source_symbols None = Some ss -> Forall is_u8 coefs -> filling coefs (j :: js) row ct cu ->
  filling coefs js row (symbol_sub_scaled mul ct (nth j coefs 0) (whole_data ss) asize) cu.
Proof.
  intros Hj Hc [H1 [H2 H2'] H3 H4 H5]. destruct (Hsrc _ _ Hj) as (Hd & Hdl & Hdv). unfold symbol_sub_scaled.
  assert (hole j = false) as Hh by (unfold is_missing; by rewrite Hj).
  pose proof (asize_ge symbol_size). split; [done| | |by intros i u Hi; apply H4; right|].
  - split; [apply (add_scaled_u8 mul (table_inv fs)); auto with cint|by rewrite length_add_scaled].
  - rewrite filter_cons_False in H3; [done|]. by rewrite Hh.
  - intros p Hp. rewrite nth_add_scaled by lia. rewrite H5, Hdv by done. cbn [wsum foldr].
    rewrite Z.lxor_assoc. f_equal. unfold wsum. cbn [foldr].
    by rewrite Z.lxor_comm, <- Z.lxor_assoc, Z.lxor_nilpotent, Z.lxor_0_l.
Qed.

Lemma fill_unknown coefs j js row ct cu u :
  NoDup (j :: js) -> hole j = true -> M !! u = Some j -> Forall is_u8 coefs -> filling coefs (j :: js) row ct cu ->
  (cu < length M)%nat /\ filling coefs js (<[u := nth j coefs 0]> row) ct (S cu).
Proof.
  intros Hnd Hh Hu Hc [[H1 H1'] H2 H3 H4 H5]. rewrite filter_cons_True in H3 by done. cbn [length] in H3.
  assert (Hul : (u < length M)%nat) by (by apply lookup_lt_Some in Hu).
  split; [lia|]. split; [|done|lia| |].
  - rewrite length_insert. split; [done|]. apply Forall_insert; auto with cint.
  - intros i v Hi Hv. rewrite nth_insert_ne; [by apply (H4 i v); [right|]|].
    intros ->. rewrite Hu in Hv. injection Hv as ->. by inversion Hnd.
  - intros p Hp. rewrite H5 by done. rewrite dot_insert.
    + rewrite (sent_column _ _ _ Hu), Z.lxor_assoc. done.
    + apply column_u8, sent_symbols_u8.
    + unfold column. by rewrite length_fmap, length_sent.
    + lia.
    + apply (H4 j u); [left|done].
Qed.

Lemma fill_all coefs js row ct cu :
  NoDup js -> (forall j, j ∈ js -> hole j = true -> indexed j) -> Forall is_u8 coefs -> filling coefs js row ct cu ->
  let '(row', ct', _) := foldl (fill_row fs symbol_size source_symbols mi coefs (length M)) (row, ct, cu) js in
  equation row' ct'.
Proof.
  intros Hnd Hidx Hc. revert row ct cu. induction js as [|j js IH]; intros row ct cu Hf; cbn [foldl].
  - destruct Hf as [[H1 H1'] [H2 H2'] _ _ H5]. split; try done. intros p Hp. rewrite H5 by done.
    cbn [wsum foldr]. by rewrite Z.lxor_0_r.
  - assert (Hnd' : NoDup js) by (by inversion Hnd).
    assert (Hidx' : forall j, j ∈ js -> hole j = true -> indexed j) by (intros; apply Hidx; [by right|done]).
    cbn [fill_row]. destruct (nth j source_symbols None) as [ss|] eqn:Hj.
    + apply (IH Hnd' Hidx'). by apply fill_known.
    + assert (Hh : hole j = true) by (unfold is_missing; by rewrite Hj).
      destruct (Hidx j ltac:(left) Hh) as (u & Hu & Hmi).
      destruct (fill_unknown coefs j js row ct cu u Hnd Hh Hu Hc Hf) as [Hcu Hf'].
      apply Nat.ltb_lt in Hcu as ->. rewrite Hmi.
      destruct (Z.eqb_spec (Z.of_nat u) (-1)); [lia|]. cbn [negb]. rewrite Nat2Z.id. by apply (IH Hnd' Hidx').
Qed.

Lemma filter_holes_length d n :
  (forall j, j ∈ seq d n -> hole j = true -> indexed j) ->
  (length (filter (fun j => hole j = true) (seq d n)) <= length M)%nat.
Proof.
  intros Hidx. apply submseteq_length, NoDup_submseteq; [apply list.NoDup_filter, NoDup_seq|].
  intros j [Hh Hj]%list_elem_of_filter. destruct (Hidx j Hj Hh) as (u & Hu & _). by apply list_elem_of_lookup_2 in Hu.
Qed.

(** The repair symbols the system may use. *)
Definition usable (rs : option window_repair_symbol_t) : Prop :=
  match rs with
  | None => True
  | Some r => exists d n, genuine d n r /\ forall j, j ∈ seq d n -> hole j = true -> indexed j
  end.

Record build_ok (s : build_state) : Prop := BuildOk {
  bo_coefs : length (bs_coefs s) = N /\ Forall is_u8 (bs_coefs s);
  bo_system : Forall2 equation (bs_rows s) (bs_cts s)
}.

Lemma genuine_filling d n r coefs :
  genuine d n r -> length coefs = N -> (forall j, j ∈ seq d n -> hole j = true -> indexed j) ->
  let coefs' := store_coefs coefs d (get_coefs fec_prng (decode_u32 (fss_val r)) n) in
  filling coefs' (seq d n) (replicate (length M) 0)
    (memcpy (replicate symbol_size 0 ++ slack) (repair_payload r) symbol_size) 0.
Proof.
  intros Hg Hc Hidx coefs'. destruct (genuine_spec _ _ _ Hg) as (_ & _ & _ & Hu & Hl & Hsum). split.
  - split; [by rewrite length_replicate|apply Forall_replicate, u8_0].
  - apply memcpy_ok; [apply block_ok|done|done].
  - by apply filter_holes_length.
  - intros. apply nth_replicate.
  - intros p Hp. rewrite nth_memcpy by done. rewrite (Hsum coefs p Hc Hp).
    rewrite (dot_zero_row mul (table_inv fs)), Z.lxor_0_l; [done| |by apply Forall_replicate].
    apply column_u8, sent_symbols_u8.
Qed.

Lemma build_equation_ok n_eq missing s rs :
  length missing = length M -> usable rs -> build_ok s ->
  build_ok (build_equation fs slack smallest_protected symbol_size source_symbols missing mi n_eq s rs).
Proof.
  intros Hmis Hr [[Hc Hc'] Hsys]. unfold build_equation. destruct rs as [r|]; [|done].
  destruct Hr as (d & n & Hg & Hidx). destruct (genuine_spec _ _ _ Hg) as (-> & -> & -> & _).
  destruct (length (bs_rows s) <? n_eq)%nat; [|done].
  destruct (protects_new _ _ _ _ _ _ _ _) as [[prot trivial] protects]. destruct (orb _ _); [|done].
  pose proof (genuine_filling _ _ _ _ Hg Hc Hidx) as Hf. cbn zeta in Hf.
  set (coefs' := store_coefs _ _ _) in *. rewrite Hmis.
  assert (Hc8 : Forall is_u8 coefs') by (apply store_coefs_u8; [done|apply get_coefs_u8]).
  pose proof (fill_all coefs' (seq d n) _ _ _ (NoDup_seq d n) Hidx Hc8 Hf) as Hall.
  destruct (foldl _ _ _) as [[row ct] cu]. destruct Hg as (Hd & _). split; cbn.
  - split; [|done]. subst coefs'. rewrite length_store_coefs; [done|]. rewrite length_get_coefs. lia.
  - by apply Forall2_app; [|apply Forall2_cons; [|apply Forall2_nil]].
Qed.

(** The last loop: the unknowns from number [u] on are still to be stored. *)
Definition stored (ss : list (option window_source_symbol_t)) : Prop :=
  length ss = N /\ forall k, nth k ss None = nth k source_symbols None \/
  (hole k = true /\ exists s, nth k ss None = Some s /\ ss_id s = sym_id k /\ take symbol_size (whole_data s) = nth k orig []).

Lemma store_step can und unk ss u k :
  (can = true -> nth u und false = false -> forall p, (p < symbol_size)%nat ->
    nth p (nth u unk []) 0 = nth p (nth k orig []) 0) -> (can = true -> (symbol_size <= length (nth u unk []))%nat) ->
  (k < N)%nat -> hole k = true -> stored ss -> is_missing ss k = true ->
  let '(ss', u') := store_recovered slack smallest_protected symbol_size can und unk (ss, u) (sym_id k) in
  stored ss' /\ u' = S u /\ forall k', k' <> k -> is_missing ss' k' = is_missing ss k'.
Proof.
  intros Hval Hlen Hk Hh [Hl Hs] Hm. unfold store_recovered. rewrite pos_id by lia. rewrite Hm.
  destruct can; [|done]. cbn [andb]. destruct (nth u und false) eqn:Hu; [done|]. cbn [negb andb].
  destruct (symbol_is_zero _ _); [done|]. cbn [negb]. split; [|split; [done|]].
  - split; [by rewrite length_insert|]. intros k'. destruct (decide (k' = k)) as [->|Hne].
    + rewrite nth_insert_eq by lia. right. split; [done|]. eexists. split; [reflexivity|]. cbn [ss_id whole_data]. split.
      * unfold sym_id. apply u32_small. lia.
      * specialize (Hlen eq_refl). specialize (Hval eq_refl eq_refl).
        pose proof (Forall_nth_lt _ _ k [] Horig_len Hk) as Hok. cbn in Hok. unfold memcpy.
        rewrite take_app_le, take_take, Nat.min_id by (rewrite length_take; lia).
        apply nth_ext with (d := 0) (d' := 0); [rewrite length_take; lia|].
        intros p Hp. rewrite length_take in Hp. rewrite <- Hval by lia.
        rewrite !nth_lookup, lookup_take. by rewrite decide_True by lia.
    + rewrite nth_insert_ne by done. apply Hs.
  - intros k' Hne. unfold is_missing. by rewrite nth_insert_ne.
Qed.

Lemma store_all can und unk :
  (can = true -> forall u k, M !! u = Some k -> nth u und false = false -> forall p, (p < symbol_size)%nat ->
    nth p (nth u unk []) 0 = nth p (nth k orig []) 0) ->
  (can = true -> forall u, (u < length M)%nat -> (symbol_size <= length (nth u unk []))%nat) ->
  stored (foldl (store_recovered slack smallest_protected symbol_size can und unk) (source_symbols, 0%nat)
            (sym_id <$> M)).1.
Proof.
  intros Hval Hlen.
  assert (H : forall M1 M2 ss, M = M1 ++ M2 -> stored ss -> (forall k, k ∈ M2 -> is_missing ss k = true) ->
    stored (foldl (store_recovered slack smallest_protected symbol_size can und unk) (ss, length M1) (sym_id <$> M2)).1).
  { intros M1 M2. revert M1. induction M2 as [|k M2 IH]; intros M1 ss HMe Hs Hm; [done|]. cbn [fmap list_fmap foldl].
    assert (Hu : M !! length M1 = Some k) by (by rewrite HMe, list_lookup_middle).
    destruct (Hholes k) as [HkN Hkh]; [rewrite HMe; apply elem_of_app; right; left|].
    pose proof (store_step can und unk ss (length M1) k) as Hst.
    destruct (store_recovered _ _ _ _ _ _ _ _) as [ss' u'].
    destruct Hst as (Hs' & -> & Hm'); try done.
    - intros Hc. by apply Hval.
    - intros Hc. apply Hlen; [done|]. by apply lookup_lt_Some in Hu.
    - apply Hm. left.
    - replace (S (length M1)) with (length (M1 ++ [k])) by (rewrite length_app; cbn; lia).
      apply IH; [by rewrite <- app_assoc|done|]. intros k' Hk'. rewrite Hm'; [apply Hm; by right|].
      intros ->. rewrite HMe in HM. apply list.NoDup_app in HM as (_ & _ & Hnd). by inversion Hnd. }
  apply (H [] M source_symbols eq_refl).
  - split; [done|]. auto.
  - intros k Hk. by apply Hholes.
Qed.

Lemma solve_window_ok repair_symbols now :
  Forall usable repair_symbols ->
  stored (solve_window fs slack smallest_protected symbol_size source_symbols (sym_id <$> M) mi repair_symbols now).1.
Proof.
  intros Hr. unfold solve_window. rewrite length_fmap.
  set (s := foldl _ _ (shuffle_repair_symbols _ _)).
  assert (Hb : build_ok s).
  { apply foldl_inv.
    - split; [|apply Forall2_nil]. cbn. rewrite length_replicate. split; [done|apply Forall_replicate, u8_0].
    - intros s' rs Hs' Hrs. apply build_equation_ok; [by rewrite length_fmap| |done].
      apply (proj1 (list.Forall_forall _ _) (shuffle_Forall usable _ _ Hr) _ Hrs). }
  destruct Hb as [_ Hsys]. destruct (orb (bs_trivial s) _); cbn [fst].
  - pose proof (gauss_known mul (table_inv fs) (length M) symbol_size sent_symbols length_sent sent_symbols_u8
      (length (bs_rows s)) (bs_rows s) (bs_cts s) (replicate (length M) (replicate symbol_size 0 ++ slack))
      (replicate (length M) false)) as Hg.
    destruct (gaussElimination _ _ _ _ _ _ _ _ _) as [[unk und] oob]. cbn [fst].
    destruct (Hg unk und oob) as (_ & [Hul Hub] & Hsol); try done.
    + split; [by rewrite length_replicate|]. apply Forall_replicate, block_ok.
    + by rewrite length_replicate.
    + apply store_all.
      * intros _ u k Hu Hf p Hp. assert (u < length M)%nat by (by apply lookup_lt_Some in Hu).
        rewrite (Hsol u ltac:(lia) Hf p Hp). unfold sent_symbols.
        by rewrite (nth_lookup_Some _ u [] (nth k orig [])) by (by rewrite list_lookup_fmap, Hu).
      * intros _ u Hu. pose proof (Forall_nth_lt _ _ u [] Hub ltac:(lia)) as [_ Hl].
        pose proof (aligned_size_ge symbol_size). lia.
  - by apply store_all.
Qed.
End Unknowns.
(** ** The numbers of the unknowns *)

Lemma set_indexes_prefix M mi k :
  NoDup M -> (forall j, j ∈ M -> (j < N)%nat) -> length mi = N -> (k <= length M)%nat ->
  let mi' := foldl (fun mi u => <[pos (nth u (sym_id <$> M) 0) := Z.of_nat u]> mi) mi (seq 0 k) in
  length mi' = N /\ forall u j, M !! u = Some j -> (u < k)%nat -> nth j mi' (-1) = Z.of_nat u.
Proof.
  intros Hnd Hlt Hl. induction k as [|k IH]; intros Hk; [split; [done|lia]|].
  rewrite seq_S, foldl_app. cbn [foldl Nat.add]. destruct IH as [IHl IH]; [lia|].
  destruct (lookup_lt_is_Some_2 M k ltac:(lia)) as [j Hj].
  assert (Hjn : (j < N)%nat) by (by apply Hlt, (list_elem_of_lookup_2 _ k)).
  rewrite (nth_lookup_Some _ k 0 (sym_id j)) by (by rewrite list_lookup_fmap, Hj). rewrite pos_id by lia.
  split; [by rewrite length_insert|]. intros u i Hu Huk. destruct (decide (u = k)) as [->|Hne].
  - rewrite Hj in Hu. injection Hu as ->. apply nth_insert_eq. lia.
  - rewrite nth_insert_ne; [apply IH; [done|lia]|]. intros ->. by pose proof (NoDup_lookup _ _ _ _ Hnd Hu Hj).
Qed.

Lemma set_indexes M mi u j :
  NoDup M -> (forall j, j ∈ M -> (j < N)%nat) -> length mi = N -> M !! u = Some j ->
  nth j (set_missing_indexes smallest_protected (sym_id <$> M) mi) (-1) = Z.of_nat u.
Proof.
  intros Hnd Hlt Hl Hu. unfold set_missing_indexes. rewrite length_fmap.
  apply (set_indexes_prefix M mi (length M)); auto. by apply lookup_lt_Some in Hu.
Qed.

Lemma length_set_indexes M mi : length (set_missing_indexes smallest_protected M mi) = length mi.
Proof.
  unfold set_missing_indexes. apply (foldl_keeps (fun m => length m = length mi)); [done|].
  intros m u Hm. by rewrite length_insert.
Qed.

(** ** The holes, in order *)

Definition holes : list nat := filter (fun k => hole k = true) (seq 0 N).

Lemma holes_spec k : k ∈ holes <-> (k < N)%nat /\ hole k = true.
Proof. unfold holes. rewrite list_elem_of_filter, elem_of_seq. split; intros []; split; try done; lia. Qed.

Lemma holes_NoDup : NoDup holes.
Proof. apply list.NoDup_filter, NoDup_seq. Qed.

Lemma filter_seq_sorted (P : nat -> Prop) `{!forall k, Decision (P k)} d n u v j k :
  filter P (seq d n) !! u = Some j -> filter P (seq d n) !! v = Some k -> (u < v)%nat -> (d <= j < k)%nat.
Proof.
  revert d u v. induction n as [|n IH]; intros d u v; cbn [seq]; [done|].
  assert (Hge : forall v k, filter P (seq (S d) n) !! v = Some k -> (S d <= k)%nat).
  { intros v' k' Hk%list_elem_of_lookup_2. apply list_elem_of_filter in Hk as [_ Hk%elem_of_seq]. lia. }
  rewrite filter_cons. destruct (decide (P d)).
  - destruct u as [|u], v as [|v]; cbn [lookup list_lookup]; intros Hu Hv Huv; try lia.
    + injection Hu as <-. apply Hge in Hv. lia.
    + pose proof (IH (S d) u v Hu Hv ltac:(lia)). lia.
  - intros Hu Hv Huv. pose proof (IH (S d) u v Hu Hv Huv). lia.
Qed.

Lemma holes_sorted u v j k : holes !! u = Some j -> holes !! v = Some k -> (u < v)%nat -> (j < k)%nat.
Proof. intros Hu Hv Huv. pose proof (filter_seq_sorted _ _ _ _ _ _ _ Hu Hv Huv). lia. Qed.

Lemma nth_missing u k : holes !! u = Some k -> nth u (sym_id <$> holes) 0 = sym_id k.
Proof. intros Hu. apply nth_lookup_Some. by rewrite list_lookup_fmap, Hu. Qed.

(** The test finds the repair symbols that concern a single hole. *)
Lemma trivial_unique d n r k u j :
  genuine d n r -> holes !! u = Some k -> k ∈ seq d n ->
  trivial_test (sym_id <$> holes) r (first_id r) (Z.of_nat u) = true -> j ∈ seq d n -> hole j = true -> j = k.
Proof.
  intros (Hd & Hn & seed & slack' & _ & _ & ->) Hu Hk%elem_of_seq Ht Hj%elem_of_seq Hh.
  unfold trivial_test in Ht. cbn [code_symbol first_id n_protected_symbols] in Ht.
  rewrite length_slice, length_fmap in Ht by done. apply andb_true_iff in Ht as [Hlo Hhi].
  assert (j ∈ holes) as Hjh by (apply holes_spec; lia || (split; [lia|done])).
  apply list_elem_of_lookup in Hjh as [v Hv].
  pose proof (lookup_lt_Some _ _ _ Hu). pose proof (lookup_lt_Some _ _ _ Hv).
  destruct (lt_eq_lt_dec v u) as [[Hlt| ->]|Hgt]; [exfalso|congruence|exfalso].
  - destruct (lookup_lt_is_Some_2 holes (u - 1) ltac:(lia)) as [k0 Hk0].
    replace (Z.to_nat (Z.of_nat u - 1)) with (u - 1)%nat in Hlo by lia. rewrite (nth_missing _ _ Hk0) in Hlo.
    assert (j <= k0)%nat.
    { destruct (decide (v = u - 1)%nat) as [->|]; [assert (j = k0) by congruence; lia|].
      pose proof (holes_sorted v (u - 1) j k0 Hv Hk0 ltac:(lia)). lia. }
    unfold sym_id in Hlo. destruct (Z.eqb_spec (Z.of_nat u) 0); [lia|]. cbn [orb] in Hlo. reflect_cmp. lia.
  - destruct (lookup_lt_is_Some_2 holes (u + 1) ltac:(lia)) as [k1 Hk1].
    replace (Z.to_nat (Z.of_nat u + 1)) with (u + 1)%nat in Hhi by lia. rewrite (nth_missing _ _ Hk1) in Hhi.
    assert (k1 <= j)%nat.
    { destruct (decide (v = u + 1)%nat) as [->|]; [assert (j = k1) by congruence; lia|].
      pose proof (holes_sorted (u + 1) v k1 j Hk1 Hv ltac:(lia)). lia. }
    unfold sym_id in Hhi. destruct (Z.eqb_spec (Z.of_nat u) (Z.of_nat (length holes) - 1)); [lia|]. cbn [orb] in Hhi.
    rewrite u32_small in Hhi by lia. reflect_cmp. lia.
Qed.

(** ** The search for trivial repair symbols *)

#[local] Abbreviation mi0 :=
  (set_missing_indexes smallest_protected (sym_id <$> holes) (replicate N (-1))).

(** The unknowns [M] chosen so far are marked protected. *)
Definition chosen (M : list nat) (prot : list bool) (new_missing : list Z) : Prop :=
  new_missing = sym_id <$> M /\ NoDup M /\ length prot = N /\
  forall k, k ∈ M -> (k < N)%nat /\ hole k = true /\ nth k prot false = true.

(** Every hole a repair symbol concerns is among the unknowns [M]. *)
Definition covered (M : list nat) (rs : option window_repair_symbol_t) : Prop :=
  match rs with
  | None => True
  | Some r => exists d n, genuine d n r /\ forall j, j ∈ seq d n -> hole j = true -> j ∈ M
  end.

Lemma search_symbol_ok d n r M prot newm triv k :
  genuine d n r -> k ∈ seq d n -> chosen M prot newm -> (triv = true -> covered M (Some r)) ->
  let '(prot', newm', triv') := search_symbol smallest_protected source_symbols (sym_id <$> holes) mi0 r (prot, newm, triv) k in
  exists M2, chosen (M ++ M2) prot' newm' /\ (triv' = true -> covered (M ++ M2) (Some r)).
Proof.
  intros Hg Hk (-> & Hnd & Hl & Hch) Ht. unfold search_symbol.
  assert (Hkn : (k < N)%nat) by (destruct Hg; apply elem_of_seq in Hk; lia).
  destruct (hole k) eqn:Hh; cbn [andb]; [|exists []; by rewrite app_nil_r].
  destruct (nth k prot false) eqn:Hp; cbn [negb]; [exists []; by rewrite app_nil_r|].
  assert (Hkh : k ∈ holes) by (by apply holes_spec). apply list_elem_of_lookup in Hkh as [u Hu].
  rewrite (set_indexes holes (replicate N (-1)) u k) by
    (done || apply holes_NoDup || (intros j Hj%holes_spec; lia) || by rewrite length_replicate).
  destruct (trivial_test _ _ _ _) eqn:Htest; [|exists []; rewrite app_nil_r; split; done].
  exists [k]. split.
  - split; [rewrite fmap_app; cbn [fmap list_fmap]; repeat f_equal; unfold sym_id; rewrite u32_small; lia|].
    split; [|split; [by rewrite length_insert|]].
    + apply list.NoDup_app. split; [done|]. split; [|apply NoDup_singleton].
      intros x Hx ->%list_elem_of_singleton. destruct (Hch _ Hx) as (_ & _ & Hpx). congruence.
    + intros x [Hx| ->%list_elem_of_singleton]%elem_of_app.
      * destruct (Hch x Hx) as (? & ? & Hpx). split_and!; try done.
        rewrite nth_insert_ne; [done|]. congruence.
      * split_and!; try done. apply nth_insert_eq. lia.
  - intros _. exists d, n. split; [done|]. intros j Hj Hjh. apply elem_of_app. right.
    apply list_elem_of_singleton. by apply (trivial_unique d n r k u).
Qed.

Lemma search_range_ok d n r ks M prot newm triv :
  genuine d n r -> (forall k, k ∈ ks -> k ∈ seq d n) -> chosen M prot newm -> (triv = true -> covered M (Some r)) ->
  let '(prot', newm', triv') :=
    foldl (search_symbol smallest_protected source_symbols (sym_id <$> holes) mi0 r) (prot, newm, triv) ks in
  exists M2, chosen (M ++ M2) prot' newm' /\ (triv' = true -> covered (M ++ M2) (Some r)).
Proof.
  intros Hg. revert M prot newm triv. induction ks as [|k ks IH]; intros M prot newm triv Hks Hch Ht; cbn [foldl].
  - exists []. by rewrite app_nil_r.
  - pose proof (search_symbol_ok d n r M prot newm triv k Hg (Hks k ltac:(left)) Hch Ht) as Hstep.
    destruct (search_symbol _ _ _ _ _ _ _) as [[prot' newm'] triv']. destruct Hstep as (M2 & Hch2 & Ht2).
    specialize (IH (M ++ M2) prot' newm' triv' ltac:(intros; apply Hks; by right) Hch2 Ht2).
    destruct (foldl _ _ _) as [[prot'' newm''] triv'']. destruct IH as (M3 & H3). exists (M2 ++ M3). by rewrite app_assoc.
Qed.

Lemma covered_mono M M2 rs : covered M rs -> covered (M ++ M2) rs.
Proof.
  destruct rs as [r|]; [|done]. intros (d & n & Hg & H). exists d, n. split; [done|].
  intros. apply elem_of_app. left. by apply H.
Qed.

Definition is_genuine (rs : option window_repair_symbol_t) : Prop :=
  match rs with None => True | Some r => exists d n, genuine d n r end.

Definition search_ok (s : search_state) : Prop :=
  exists M, chosen M (s_protected s) (s_new_missing s) /\ Forall (covered M) (s_repairs s).

Lemma search_repair_ok s rs :
  is_genuine rs -> search_ok s ->
  search_ok (search_repair smallest_protected source_symbols (sym_id <$> holes) mi0 s rs).
Proof.
  intros Hg Hs. unfold search_repair. destruct rs as [r|]; [|done]. destruct (_ <? 10); [|done].
  destruct Hg as (d & n & Hg). destruct (genuine_spec _ _ _ Hg) as (-> & _). destruct Hs as (M & Hch & Hcov).
  pose proof (search_range_ok d n r (seq d n) M _ _ false Hg ltac:(done) Hch ltac:(done)) as H.
  destruct (foldl _ _ _) as [[prot newm] triv]. destruct H as (M2 & Hch2 & Ht). exists (M ++ M2). split; [done|].
  assert (Forall (covered (M ++ M2)) (s_repairs s)).
  { refine (Forall_impl _ _ Hcov). intros. by apply covered_mono. }
  cbn. destruct triv; [|done]. apply Forall_app. split; [done|]. apply Forall_singleton. by apply Ht.
Qed.

Lemma covered_usable M mi repairs :
  (forall u j, M !! u = Some j -> nth j mi (-1) = Z.of_nat u) -> Forall (covered M) repairs -> Forall (usable M mi) repairs.
Proof.
  intros Hmi H. refine (Forall_impl _ _ H). intros [r|]; [|done]. intros (d & n & Hg & Hin). exists d, n. split; [done|].
  intros j Hj Hh. specialize (Hin j Hj Hh) as [u Hu]%list_elem_of_lookup. exists u. split; [done|]. by apply Hmi.
Qed.

(** ** A single loss *)

Lemma gf_no_zero_divisor a b : is_u8 a -> is_u8 b -> a <> 0 -> a ⊗ b = 0 -> b = 0.
Proof using HGF.
  intros Ha Hb Hne H0. assert (is_u8 (gf256_inv (table_inv fs) a)) by (by apply gf_inv_u8).
  rewrite <- (gf_mul_1_l b), <- (gf_mul_inv a) by done.
  rewrite (gf_mul_comm a), gf_mul_assoc, H0 by done.
  rewrite gf_mul_comm by auto with cint. by apply gf_mul_0_l.
Qed.

(** The elimination on one equation with one unknown. *)
Lemma gauss_single inv c ct x :
  c <> 0 -> symbol_is_zero (memcpy x ct symbol_size) symbol_size = false ->
  (gaussElimination mul inv 1 1 symbol_size [[c]] [ct] [x] [false]).1.2 = [false].
Proof using Type.
  intros Hc Hz. unfold gaussElimination, sort_system, forward_elimination. cbn.
  unfold back_row. cbn. apply Z.eqb_neq in Hc as Hc'. rewrite Hc'. cbn. by rewrite Hz, Hc'.
Qed.

Lemma fill_keeps_row coefs mi m js row ct cu :
  (forall j, j ∈ js -> hole j = false) ->
  (foldl (fill_row fs symbol_size source_symbols mi coefs m) (row, ct, cu) js).1.1 = row.
Proof using Type.
  revert ct. induction js as [|j js IH]; intros ct Hj; [done|]. cbn [foldl fill_row].
  pose proof (Hj j ltac:(left)) as Hh. unfold is_missing in Hh. destruct (nth j source_symbols None); [|done].
  apply IH. intros. apply Hj. by right.
Qed.

Lemma fill_single coefs mi k js ct :
  NoDup js -> k ∈ js -> (forall j, j ∈ js -> hole j = true <-> j = k) -> nth k mi (-1) = 0 ->
  (foldl (fill_row fs symbol_size source_symbols mi coefs 1) ([0], ct, 0%nat) js).1.1 = [nth k coefs 0].
Proof using Type.
  intros Hnd Hk Hh Hmi. revert ct. induction js as [|j js IH]; intros ct; [by apply not_elem_of_nil in Hk|].
  cbn [foldl fill_row]. assert (Hj := Hh j ltac:(left)). unfold is_missing in Hj at 1.
  assert (Hh' : forall i, i ∈ js -> hole i = true <-> i = k) by (intros; apply Hh; by right).
  inversion Hnd as [|? ? Hni Hnd']; subst. destruct (nth j source_symbols None).
  - apply IH; try done. apply elem_of_cons in Hk as [->|]; [|done]. by assert (false = true) by by apply Hj.
  - assert (j = k) as -> by (by apply Hj). rewrite Hmi. cbn. apply fill_keeps_row.
    intros i Hi. destruct (hole i) eqn:E; [|done]. apply Hh' in E; [|done]. by subst.
Qed.

Lemma protects_single missing mi r k ks prot :
  k ∈ ks -> (forall j, j ∈ ks -> hole j = true <-> j = k) -> length missing = 1%nat -> nth k mi (-1) = 0 ->
  (protects_new smallest_protected source_symbols missing mi r ks prot false) = (prot, true, false).
Proof using Type.
  intros Hk Hh Hl Hmi. induction ks as [|j ks IH]; [by apply not_elem_of_nil in Hk|]. cbn [protects_new].
  destruct (hole j) eqn:E.
  - apply Hh in E as ->; [|left]. unfold trivial_test. rewrite Hmi, Hl. done.
  - apply IH; [|intros; apply Hh; by right]. apply elem_of_cons in Hk as [->|]; [|done].
    by assert (hole j = true) by (apply Hh; [left|done]); congruence.
Qed.

(** The state after the only repair symbol. *)
Lemma build_single d n r k mi :
  genuine d n r -> k ∈ seq d n -> holes = [k] -> nth k mi (-1) = 0 ->
  exists c ct, c <> 0 /\ eqn_ok mul 1 symbol_size (sent_symbols [k]) [c] ct /\
  let s := build_equation fs slack smallest_protected symbol_size source_symbols (sym_id <$> [k]) mi 1
             (Build (replicate N false) (replicate N 0) [] [] false) (Some r) in
  bs_rows s = [[c]] /\ bs_cts s = [ct] /\ bs_trivial s = true.
Proof.
  intros Hg Hk Hhs Hmi. destruct (genuine_spec _ _ _ Hg) as (Hrange & Hpos & Hn & _).
  assert (Hh : forall j, j ∈ seq d n -> hole j = true <-> j = k).
  { intros j Hj. assert (j < N)%nat by (destruct Hg; apply elem_of_seq in Hj; lia).
    rewrite <- (list_elem_of_singleton j k), <- Hhs, holes_spec. tauto. }
  assert (Hks : NoDup [k]) by apply NoDup_singleton.
  assert (Hkin : forall j, j ∈ [k] -> (j < N)%nat /\ hole j = true) by (rewrite <- Hhs; intros; by apply holes_spec).
  pose proof (build_equation_ok [k] mi Hkin 1 (sym_id <$> [k])
    (Build (replicate N false) (replicate N 0) [] [] false) (Some r) eq_refl) as Hb.
  unfold build_equation in Hb |- *. cbn [bs_rows length Nat.ltb Nat.leb bs_protected bs_coefs bs_cts bs_trivial] in Hb |- *.
  rewrite Hrange, Hpos, Hn in Hb |- *. rewrite (protects_single (sym_id <$> [k]) mi r k) in Hb |- * by done. cbn [orb] in Hb |- *.
  set (coefs := store_coefs _ _ _) in *. change (length (sym_id <$> [k])) with 1%nat in *.
  pose proof (fill_single coefs mi k (seq d n) (memcpy (replicate symbol_size 0 ++ slack) (repair_payload r) symbol_size)
    (NoDup_seq _ _) Hk Hh Hmi) as Hrow. change (replicate 1 0) with [0] in Hb |- *.
  destruct (foldl _ _ _) as [[row ct] cu]. cbn in Hrow, Hb |- *. subst row. exists (nth k coefs 0), ct. split.
  - apply elem_of_seq in Hk. replace k with (d + (k - d))%nat by lia. destruct Hg as (Hdn & _). subst coefs.
    rewrite nth_store_coefs by (rewrite length_get_coefs, ?length_replicate; lia).
    pose proof (get_coefs_nonzero fec_prng (decode_u32 (fss_val r)) n (k - d)). lia.
  - split; [|done]. destruct Hb as [_ Hsys].
    + exists d, n. split; [done|]. intros j Hj Hjh. apply Hh in Hjh as ->; [|done]. by exists 0%nat.
    + split; [|apply Forall2_nil]. cbn. rewrite length_replicate. split; [done|apply Forall_replicate, u8_0].
    + cbn in Hsys. by inversion Hsys.
Qed.

Lemma not_zero_symbol b p :
  Forall is_u8 b -> (p < symbol_size)%nat -> nth p b 0 <> 0 -> symbol_is_zero b symbol_size = false.
Proof.
  intros Hb Hp Hne. destruct (symbol_is_zero b symbol_size) eqn:E; [|done]. exfalso. apply Hne.
  apply symbol_is_zero_spec in E; [|done]. destruct (Nat.lt_ge_cases p (length b)); [|by apply nth_overflow].
  pose proof (Forall_nth_lt _ _ p 0 E) as H0. cbn in H0. rewrite nth_lookup, lookup_take, decide_True in H0 by done.
  rewrite nth_lookup. apply H0. rewrite length_take. lia.
Qed.

(** The system of one genuine repair symbol and one hole is solved. *)
Lemma gauss_single_solved k c ct p :
  (k < N)%nat -> c <> 0 -> eqn_ok mul 1 symbol_size (sent_symbols [k]) [c] ct -> (p < symbol_size)%nat ->
  nth p (nth k orig []) 0 <> 0 ->
  let g := gaussElimination mul (table_inv fs) 1 1 symbol_size [[c]] [ct] [replicate symbol_size 0 ++ slack] [false] in
  g.1.2 = [false] /\ symbol_is_zero (nth 0 g.1.1 []) symbol_size = false.
Proof.
  intros Hk Hc He Hp Hne. cbn zeta. assert (Hkh : forall j, j ∈ [k] -> (j < N)%nat) by (by intros j ->%list_elem_of_singleton).
  assert (Hcb : is_u8 c) by (apply eqn_row in He; by inversion He).
  assert (Hct : nth p ct 0 <> 0).
  { rewrite <- (eqn_holds _ _ _ _ _ _ He p Hp). unfold dot, column, sent_symbols. cbn. rewrite Z.lxor_0_r.
    intros H0. apply Hne. by apply (gf_no_zero_divisor c); auto with cint. }
  destruct He as [E1 E2 E3 E4 E5]. pose proof (aligned_size_ge symbol_size).
  assert (Hz : symbol_is_zero (memcpy (replicate symbol_size 0 ++ slack) ct symbol_size) symbol_size = false).
  { apply (not_zero_symbol _ p); [|done|by rewrite nth_memcpy by lia].
    apply (memcpy_ok symbol_size); [apply block_ok|done|lia]. }
  pose proof (gauss_single (table_inv fs) c ct (replicate symbol_size 0 ++ slack) Hc Hz) as Hund. split; [done|].
  assert (Hs8 : Forall (Forall is_u8) (sent_symbols [k])) by (apply Forall_cons; [by apply Forall_nth_lt|apply Forall_nil]).
  pose proof (gauss_known mul (table_inv fs) 1 symbol_size (sent_symbols [k]) eq_refl Hs8 1 [[c]] [ct]
    [replicate symbol_size 0 ++ slack] [false]) as Hg.
  destruct (gaussElimination _ _ _ _ _ _ _ _ _) as [[x und] oob]. cbn in Hund. subst und.
  destruct (Hg x [false] oob) as (_ & [Hxl Hx] & Hsol); try done.
  { split; [|done]. apply Forall2_cons; [done|apply Forall2_nil]. }
  { split; [done|]. apply Forall_cons; [apply block_ok|apply Forall_nil]. }
  apply (not_zero_symbol _ p); [|done|].
  - pose proof (Forall_nth_lt _ _ 0 [] Hx) as [H8 _]; [lia|done].
  - cbn [fst]. rewrite (Hsol 0%nat ltac:(lia) eq_refl p Hp). done.
Qed.

(** What [fec_recover] returns is what the receiver had, with holes that were filled. *)
Lemma recover_stored repair_symbols current_time :
  Forall is_genuine repair_symbols ->
  stored (fec_recover fs slack smallest_protected symbol_size source_symbols repair_symbols (sym_id <$> holes) current_time).1.
Proof.
  intros Hg.
  assert (Hid : stored source_symbols) by (split; [done|]; by left).
  unfold fec_recover. rewrite Hsrc_len. destruct (orb _ _); [exact Hid|].
  assert (Hh : forall j, j ∈ holes -> (j < N)%nat /\ hole j = true) by (intros; by apply holes_spec).
  destruct (_ <? _)%nat.
  - set (s := foldl _ _ repair_symbols).
    assert (search_ok s) as (M & (HMe & HM & _ & HMh) & Hcov).
    { apply foldl_inv.
      - exists []. split; [|apply Forall_nil]. split; [done|]. split; [apply NoDup_nil_2|].
        split; [by cbn; rewrite length_replicate|]. intros k Hk. by apply not_elem_of_nil in Hk.
      - intros s' rs Hs' Hrs. apply search_repair_ok; [|done]. by apply (proj1 (list.Forall_forall _ _) Hg). }
    destruct (0 <? _)%nat; [|exact Hid]. rewrite HMe.
    pose proof (solve_window_ok M (set_missing_indexes smallest_protected (sym_id <$> M) mi0) HM) as Hsolve.
    destruct (solve_window _ _ _ _ _ _ _ _ _) as [ss r] eqn:He. change (stored (ss, r).1). rewrite <- He.
    apply Hsolve; [intros j Hj; split; by apply HMh|]. apply covered_usable; [|done].
    intros u j Hu. apply set_indexes; try done; [intros; by apply HMh|].
    by rewrite length_set_indexes, length_replicate.
  - pose proof (solve_window_ok holes mi0 holes_NoDup Hh repair_symbols current_time) as Hsolve.
    destruct (solve_window _ _ _ _ _ _ _ _ _) as [ss r]. apply Hsolve. apply (covered_usable holes).
    + intros u j Hu. apply set_indexes; try done; [apply holes_NoDup|intros; by apply Hh|by rewrite length_replicate].
    + refine (Forall_impl _ _ Hg). intros [rs|]; [|done]. intros (d & n & Hgr). exists d, n. split; [done|].
      intros j Hj Hjh. apply holes_spec. split; [|done]. destruct Hgr. apply elem_of_seq in Hj. lia.
Qed.

(** One loss, one repair symbol: if a single symbol of the window is missing
    and it is not all zeroes, one repair symbol whose range contains it is always
    enough for [fec_recover] to restore it. *)
Theorem fec_recover_single_loss d n r k p current_time :
  genuine d n r -> k ∈ seq d n -> holes = [k] -> (p < symbol_size)%nat -> nth p (nth k orig []) 0 <> 0 ->
  exists ss, nth k (fec_recover fs slack smallest_protected symbol_size source_symbols [Some r] [sym_id k] current_time).1 None
             = Some ss /\ ss_id ss = sym_id k /\ take symbol_size (whole_data ss) = nth k orig [].
Proof.
  intros Hg Hk Hhs Hp Hne. assert (Hkh : k ∈ holes) by (rewrite Hhs; left). apply holes_spec in Hkh as [HkN Hkh].
  assert (Hkin : forall j, j ∈ [k] -> (j < N)%nat /\ hole j = true) by (by intros j ->%list_elem_of_singleton).
  unfold fec_recover. cbn [length Nat.eqb orb Nat.ltb Nat.leb]. rewrite Hsrc_len.
  set (mi := set_missing_indexes _ _ _).
  assert (Hmi : nth k mi (-1) = 0).
  { apply (set_indexes [k] _ 0 k); [apply NoDup_singleton|intros; by apply Hkin|by rewrite length_replicate|done]. }
  assert (Huse : Forall (usable [k] mi) [Some r]).
  { apply Forall_singleton. exists d, n. split; [done|]. intros j Hj Hjh. exists 0%nat.
    assert (j ∈ holes) as Hjk by (apply holes_spec; split; [destruct Hg; apply elem_of_seq in Hj; lia|done]).
    rewrite Hhs in Hjk. by apply list_elem_of_singleton in Hjk as ->. }
  pose proof (solve_window_ok [k] mi (NoDup_singleton _) Hkin [Some r] current_time Huse) as Hst.
  change (sym_id <$> [k]) with [sym_id k] in Hst.
  destruct (build_single d n r k mi Hg Hk Hhs Hmi) as (c & ct & Hc & He & Hb). cbn zeta in Hb.
  destruct (gauss_single_solved k c ct p HkN Hc He Hp Hne) as [Hund Hnz].
  assert (is_Some (nth k (solve_window fs slack smallest_protected symbol_size source_symbols [sym_id k] mi [Some r] current_time).1 None))
    as [ss Hss].
  { unfold solve_window. cbn [length Nat.min shuffle_repair_symbols Nat.sub shuffle_loop foldl]. rewrite Hsrc_len.
    change (sym_id <$> [k]) with [sym_id k] in Hb. destruct Hb as (-> & -> & ->). cbn [orb length replicate].
    destruct (gaussElimination _ _ _ _ _ _ _ _ _) as [[x und] oob]. cbn in Hund, Hnz. subst und. cbn [fst store_recovered].
    rewrite pos_id by lia. rewrite Hkh, Hnz. cbn. rewrite nth_insert_eq by lia. done. }
  destruct (solve_window _ _ _ _ _ _ _ _ _) as [ss' can]. cbn [fst] in *. exists ss. split; [done|].
  destruct Hst as [_ Hst]. destruct (Hst k) as [Hbad|(_ & s & Hs & Hid & Hd)]; [|by simplify_eq].
  unfold is_missing in Hkh. by rewrite <- Hbad, Hss in Hkh.
Qed.

(** C1. End to end: take a window of source symbols, some lost at the receiver,
    the list of the lost ones in increasing order, and any repair symbols made by
    the encoder from ranges of that window (in any number and any order, some
    possibly absent).  [fec_recover] keeps every symbol the receiver had; a hole
    stays a hole or is filled with the identifier and exactly the bytes of the symbol
    that was sent; and when one symbol that is not all zeroes is missing, a single
    repair symbol whose range contains it is enough to fill the hole. *)
Theorem fec_recover_correct repair_symbols current_time :
  Forall is_genuine repair_symbols ->
  let '(source_symbols', _) := fec_recover fs slack smallest_protected symbol_size source_symbols repair_symbols
                                 (sym_id <$> holes) current_time in
  length source_symbols' = N /\
  (forall k ss, nth k source_symbols None = Some ss -> nth k source_symbols' None = Some ss) /\
  (forall k, nth k source_symbols None = None ->
     nth k source_symbols' None = None \/
     exists ss, nth k source_symbols' None = Some ss /\ ss_id ss = sym_id k /\ take symbol_size (whole_data ss) = nth k orig []) /\
  (forall d n r k p, repair_symbols = [Some r] -> genuine d n r -> k ∈ seq d n -> holes = [k] -> (p < symbol_size)%nat ->
     nth p (nth k orig []) 0 <> 0 -> is_Some (nth k source_symbols' None)).
Proof.
  intros Hg. pose proof (recover_stored repair_symbols current_time Hg) as [Hl Hs].
  pose proof (fun d n r k p => fec_recover_single_loss d n r k p current_time) as Hone.
  destruct (fec_recover _ _ _ _ _ _ _ _) as [ss' can] eqn:E. cbn [fst] in Hl, Hs. split_and!; [done|..].
  - intros k ss Hk. destruct (Hs k) as [->|(Hh & _)]; [done|]. unfold is_missing in Hh. by rewrite Hk in Hh.
  - intros k Hk. destruct (Hs k) as [->|(_ & ss & H)]; [by left|right; by exists ss].
  - intros d n r k p -> Hgr Hk Hh Hp Hne. rewrite Hh in E. destruct (Hone d n r k p Hgr Hk Hh Hp Hne) as (ss & Hss & _).
    change (sym_id <$> [k]) with [sym_id k] in E. rewrite E in Hss. cbn in Hss. by rewrite Hss.
Qed.

End Correct.

(** ** The encoder *)

Lemma u32_succ a n : u32 (u32 (a + 1) + n) = u32 (a + (1 + n)).
Proof. unfold u32. rewrite Zplus_mod_idemp_l. f_equal. lia. Qed.

Lemma generate_loop_spec n slack fs knowns symbol_size first rss fs' :
  generate_loop n slack fs knowns symbol_size first = (rss, fs') -> is_u32 (current_repair_symbol fs) ->
  fs' = Scheme (table_mul fs) (table_inv fs) (u32 (current_repair_symbol fs + Z.of_nat n)) /\
  rss = (fun i => code_symbol (table_mul fs) slack (u32 (current_repair_symbol fs + Z.of_nat i)) knowns symbol_size first)
        <$> seq 0 n.
Proof.
  revert fs rss fs'. induction n as [|n IH]; intros fs rss fs'; cbn [generate_loop].
  - intros [= <- <-] Hc. destruct fs as [m v c]. cbn in *. rewrite Z.add_0_r, u32_small by apply Hc. done.
  - set (fs1 := Scheme _ _ _). destruct (generate_loop n slack fs1 _ _ _) as [rss1 fs1'] eqn:E.
    intros [= <- <-] Hc. destruct (IH _ _ _ E (u32_range _)) as [-> ->]. cbn.
    rewrite Z.add_0_r, (u32_small (current_repair_symbol fs)) by apply Hc. split.
    + f_equal. rewrite u32_succ. f_equal. lia.
    + f_equal. rewrite <- fmap_S_seq, <- list_fmap_compose. apply list_fmap_ext. intros i x _. cbn.
      f_equal. rewrite u32_succ. f_equal. lia.
Qed.

(** The encoder: without source symbols it returns the error 1; otherwise it
    makes [n] repair symbols whose seeds are the next [n] values of the scheme's
    counter (modulo 2^32), carried in the fec-scheme-specific field, advances the
    counter by [n], and byte [p] of each payload is the combination of byte [p] of
    the source symbols with the coefficients of its seed. *)
Theorem get_one_coded_symbol_correct fs slack source_symbols n symbol_size first :
  is_u32 (current_repair_symbol fs) -> Forall (fun ss => symbol_size <= length (whole_data ss))%nat source_symbols ->
  match get_one_coded_symbol fs slack source_symbols n symbol_size first with
  | inl e => e = 1 /\ source_symbols = []
  | inr (rss, fs', fss) =>
    source_symbols <> [] /\ length rss = n /\ decode_u32 fss = current_repair_symbol fs /\
    fs' = Scheme (table_mul fs) (table_inv fs) (u32 (current_repair_symbol fs + Z.of_nat n)) /\
    forall i rs, rss !! i = Some rs ->
      let seed := u32 (current_repair_symbol fs + Z.of_nat i) in
      first_id rs = first /\ n_protected_symbols rs = Z.of_nat (length source_symbols) /\
      decode_u32 (fss_val rs) = seed /\
      forall p, (p < symbol_size)%nat -> nth p (repair_payload rs) 0 =
        foldr (fun j acc => Z.lxor (gf256_mul (table_mul fs) (nth j (get_coefs fec_prng seed (length source_symbols)) 0)
                                     (nth p (nth j (whole_data <$> source_symbols) []) 0)) acc)
              0 (seq 0 (length source_symbols))
  end.
Proof.
  intros Hc Hlen. unfold get_one_coded_symbol. destruct (length source_symbols <? 1)%nat eqn:E.
  { apply Nat.ltb_lt in E. split; [done|]. destruct source_symbols; [done|]. cbn in E. lia. }
  apply Nat.ltb_ge in E. set (knowns := _ <$> source_symbols).
  destruct (generate_loop _ _ _ _ _ _) as [rss fs'] eqn:Hgen. destruct (generate_loop_spec _ _ _ _ _ _ _ _ Hgen Hc) as [-> ->].
  split; [by intros ->; cbn in E; lia|]. split; [by rewrite length_fmap, length_seq|]. split; [by apply decode_encode_u32|].
  split; [done|]. intros i rs. rewrite list_lookup_fmap. destruct (seq 0 n !! i) eqn:Hi; [|done]. cbn [fmap option_fmap option_map].
  apply lookup_seq in Hi as [-> _]. intros [= <-]. unfold code_symbol. cbn [first_id n_protected_symbols fss_val repair_payload].
  assert (Hkl : length knowns = length source_symbols) by (by subst knowns; rewrite length_fmap).
  split; [done|]. split; [by rewrite Hkl|]. split; [apply decode_encode_u32, u32_range|]. intros p Hp.
  assert (Hk : forall j, (j < length source_symbols)%nat ->
    nth j knowns [] = take symbol_size (nth j (whole_data <$> source_symbols) []) /\
    (symbol_size <= length (nth j (whole_data <$> source_symbols) []))%nat).
  { intros j Hj. destruct (lookup_lt_is_Some_2 source_symbols j Hj) as [ss Hss].
    pose proof (Forall_lookup_1 _ _ _ _ Hlen Hss). subst knowns.
    rewrite (nth_lookup_Some _ j [] (take symbol_size (whole_data ss))) by (by rewrite list_lookup_fmap, Hss).
    by rewrite (nth_lookup_Some _ j [] (whole_data ss)) by (by rewrite list_lookup_fmap, Hss). }
  unfold add_knowns. rewrite Hkl. rewrite nth_add_knowns; [|rewrite length_app, length_replicate; lia|done|].
  - rewrite app_nth1 by (by rewrite length_replicate). rewrite nth_replicate, Z.lxor_0_l.
    assert (Hin : forall j, j ∈ seq 0 (length source_symbols) -> (j < length source_symbols)%nat) by (intros j ?%elem_of_seq; lia).
    revert Hin. generalize (seq 0 (length source_symbols)) as js. induction js as [|j js IH]; intros Hin; [done|]. cbn [foldr].
    rewrite IH by (intros; apply Hin; by right). rewrite (proj1 (Hk j (Hin j ltac:(left)))).
    f_equal. f_equal. rewrite !nth_lookup, lookup_take. by rewrite decide_True.
  - intros j Hj%elem_of_seq. destruct (Hk j ltac:(lia)) as [-> Hjl]. rewrite length_take. lia.
Qed.

(** ** A concrete window: the symbols 7 and 9 of one byte, the second one lost. *)
Definition demo_fs : rlc_gf256_fec_scheme_t := Scheme assign_mul assign_inv 5.
Definition demo_slack : list Z := replicate 31 0.
Definition demo_orig : list (list Z) := [[7]; [9]].
Definition demo_source : list (option window_source_symbol_t) := [Some (SourceSymbol 1 (one_byte 7)); None].
Definition demo_repair : window_repair_symbol_t := code_symbol assign_mul [] 5 demo_orig 1 1.

Lemma demo_small b : 0 <= b < 256 -> is_u8 b.
Proof. done. Qed.

Lemma demo_slack_u8 : Forall is_u8 demo_slack.
Proof. apply Forall_replicate, u8_0. Qed.

Lemma demo_orig_u8 : Forall (Forall is_u8) demo_orig.
Proof. repeat apply Forall_cons; try apply Forall_nil; apply demo_small; lia. Qed.

Lemma demo_genuine : genuine demo_fs 1 1 demo_orig 0 2 demo_repair.
Proof.
  split; [cbn; lia|]. split; [lia|]. exists 5, []. split; [unfold is_u32; lia|]. by split; [apply Forall_nil|].
Qed.

Lemma demo_holds k ss : nth k demo_source None = Some ss -> holds 1 demo_orig k (whole_data ss).
Proof.
  destruct k as [|[|[|k]]]; cbn; try done. intros [= <-]. split; [apply one_byte_u8, demo_small; lia|].
  split; [by apply Nat.leb_le|]. intros p Hp. by replace p with 0%nat by lia.
Qed.

Lemma fec_recover_correct_witness :
  let '(ss', _) := fec_recover demo_fs demo_slack 1 1 demo_source [Some demo_repair] [2] 77 in
  length ss' = 2%nat /\
  (forall k ss, nth k demo_source None = Some ss -> nth k ss' None = Some ss) /\
  is_Some (nth 1 ss' None).
Proof.
  assert (H : Forall (is_genuine demo_fs 1 1 demo_orig) [Some demo_repair]) by (apply Forall_singleton; exists 0%nat, 2%nat; apply demo_genuine).
  pose proof (fec_recover_correct demo_fs demo_slack 1 1 (HGF := source_tables) demo_slack_u8 ltac:(by apply Nat.leb_le) demo_orig demo_orig_u8
    ltac:(by repeat constructor) ltac:(cbn; lia) demo_source eq_refl demo_holds [Some demo_repair] 77 H) as Hc.
  change (_ <$> _) with [2] in Hc. destruct (fec_recover _ _ _ _ _ _ _ _) as [ss' can]. destruct Hc as (Hl & Hk & _ & H1).
  split; [exact Hl|]. split; [exact Hk|].
  apply (H1 0%nat 2%nat demo_repair 1%nat 0%nat eq_refl demo_genuine); [apply elem_of_seq; lia|reflexivity|lia|done].
Defined.

Lemma fec_recover_single_loss_witness :
  exists ss, nth 1 (fec_recover demo_fs demo_slack 1 1 demo_source [Some demo_repair] [2] 77).1 None = Some ss /\
             ss_id ss = 2 /\ take 1 (whole_data ss) = [9].
Proof.
  refine (fec_recover_single_loss demo_fs demo_slack 1 1 (HGF := source_tables) demo_slack_u8 _ demo_orig demo_orig_u8 _ _
    demo_source eq_refl demo_holds 0 2 demo_repair 1 0 77 demo_genuine _ eq_refl _ _).
  - by apply Nat.leb_le.
  - by repeat constructor.
  - cbn. lia.
  - apply elem_of_seq. lia.
  - lia.
  - done.
Defined.

Lemma get_one_coded_symbol_correct_witness :
  match get_one_coded_symbol demo_fs [] [SourceSymbol 1 [7]] 2 1 1 with
  | inl e => e = 1 /\ [SourceSymbol 1 [7]] = []
  | inr (rss, fs', fss) => length rss = 2%nat /\ current_repair_symbol fs' = 7
  end.
Proof.
  pose proof (get_one_coded_symbol_correct demo_fs [] [SourceSymbol 1 [7]] 2 1 1 ltac:(split; cbn; lia)
    ltac:(by repeat constructor)) as H.
  destruct (get_one_coded_symbol _ _ _ _ _ _) as [e|[[rss fs'] fss]]; [exact H|].
  destruct H as (_ & H1 & _ & -> & _). split; [exact H1|reflexivity].
Defined.

End RlcCodec.
