(* ===== verification/Frames.v ===== *)
(** * QUIC frames: parsing, skipping, dispatching and writing

    picoquic/frames.c

    A pointer [bytes] into a packet that ends at [bytes_max] is the list of the
    bytes from one to the other.  A parser returns how far it moved the pointer
    ([pr_consumed], [None] for a null pointer), the frame ([None] for a null
    pointer), the two flags it saves as outputs and the call it made to
    [picoquic_connection_error].  Allocations are taken to succeed.

    The properties: which parsers make progress inside the packet, what the loop
    over the frames of a packet does with the one that does not, and that the
    parsers read back what the writers wrote. *)
From stdpp Require Import base tactics list numbers option.
From Stdlib Require Import ZArith Lia Bool.
From S2P Require Import Prelude IntFormat.
Import IntFormat.
#[local] Open Scope Z_scope.

Module Frames.

(** ** Constants *)
Definition picoquic_frame_type_padding : Z := 0x00.
Definition picoquic_frame_type_ping : Z := 0x01.
Definition picoquic_frame_type_ack : Z := 0x02.
Definition picoquic_frame_type_ack_ecn : Z := 0x03.
Definition picoquic_frame_type_reset_stream : Z := 0x04.
Definition picoquic_frame_type_stop_sending : Z := 0x05.
Definition picoquic_frame_type_crypto_hs : Z := 0x06.
Definition picoquic_frame_type_new_token : Z := 0x07.
Definition picoquic_frame_type_stream_range_min : Z := 0x08.
Definition picoquic_frame_type_stream_range_max : Z := 0x0f.
Definition picoquic_frame_type_max_data : Z := 0x10.
Definition picoquic_frame_type_max_stream_data : Z := 0x11.
Definition picoquic_frame_type_max_streams_bidi : Z := 0x12.
Definition picoquic_frame_type_max_streams_uni : Z := 0x13.
Definition picoquic_frame_type_data_blocked : Z := 0x14.
Definition picoquic_frame_type_stream_data_blocked : Z := 0x15.
Definition picoquic_frame_type_bidi_streams_blocked : Z := 0x16.
Definition picoquic_frame_type_uni_streams_blocked : Z := 0x17.
Definition picoquic_frame_type_new_connection_id : Z := 0x18.
Definition picoquic_frame_type_retire_connection_id : Z := 0x19.
Definition picoquic_frame_type_path_challenge : Z := 0x1a.
Definition picoquic_frame_type_path_response : Z := 0x1b.
Definition picoquic_frame_type_connection_close : Z := 0x1c.
Definition picoquic_frame_type_application_close : Z := 0x1d.
Definition picoquic_frame_type_handshake_done : Z := 0x1e.
Definition picoquic_frame_type_plugin_validate : Z := 0x30.
Definition picoquic_frame_type_plugin : Z := 0x31.

Definition PICOQUIC_TRANSPORT_FRAME_FORMAT_ERROR : Z := 0x7.
Definition PICOQUIC_TRANSPORT_PROTOCOL_VIOLATION : Z := 0xA.
Definition PICOQUIC_ERROR_FRAME_BUFFER_TOO_SMALL : Z := 0x400 + 16.
Definition PICOQUIC_ERROR_DETECTED : Z := 0x400 + 21.
Definition MAX_ACK_BLOCKS : Z := 512.
Definition REASONPHRASELENGTH_MAX : Z := 200.
Definition PICOQUIC_CONNECTION_ID_MAX_SIZE : Z := 20.
Definition PICOQUIC_CHALLENGE_LENGTH : Z := 8.

(** ** Frames *)
Inductive frame :=
| padding_or_ping_frame (is_ping num_block : Z)
| reset_stream_frame (stream_id app_error_code final_offset : Z)
| connection_close_frame (error_code frame_type reason_phrase_length : Z) (reason_phrase : list Z)
| application_close_frame (error_code reason_phrase_length : Z) (reason_phrase : list Z)
| max_data_frame (maximum_data : Z)
| max_stream_data_frame (stream_id maximum_stream_data : Z)
| max_streams_frame (uni : bool) (maximum_streams : Z)
| blocked_frame (offset : Z)
| stream_blocked_frame (stream_id offset : Z)
| streams_blocked_frame (uni : bool) (stream_limit : Z)
| new_connection_id_frame (sequence retire_prior_to : Z) (connection_id stateless_reset_token : list Z)
| retire_connection_id_frame (sequence : Z)
| stop_sending_frame (stream_id application_error_code : Z)
| ack_frame (is_ack_ecn : bool) (largest_acknowledged ack_delay first_ack_block : Z)
            (ack_blocks : list (Z * Z)) (ecnx3 : list Z)
| path_challenge_frame (data : list Z)
| path_response_frame (data : Z)
| stream_frame (stream_id offset : Z) (fin : bool) (data_length : Z) (data : list Z)
| crypto_frame (offset length : Z) (crypto_data : list Z)
| new_token_frame (token_length : Z) (token : list Z)
| handshake_done_frame
| plugin_validate_frame (pid_id pid_len : Z) (pid : list Z)
| plugin_frame (fin pid_id offset length : Z) (data : list Z).

Record parse_result := Parsed {
  pr_consumed : option Z;
  pr_frame : option frame;
  pr_ack_needed : Z;
  pr_is_retransmittable : Z;
  pr_error : option (Z * Z)
}.

(** A frame was read; [rest] is where the pointer is now. *)
Definition parsed (bytes rest : list Z) (f : frame) (ack_needed is_retransmittable : Z) : parse_result :=
  Parsed (Some (Z.of_nat (length bytes - length rest))) (Some f) ack_needed is_retransmittable None.

(** [picoquic_connection_error] was called and both pointers are null. *)
Definition parse_failed (error frame_type ack_needed is_retransmittable : Z) : parse_result :=
  Parsed None None ack_needed is_retransmittable (Some (error, frame_type)).

(** The common ending of the parsers: the result of the chain of decoders. *)
Definition finish (bytes : list Z) (r : option (frame * list Z)) (frame_type : Z) : parse_result :=
  match r with
  | Some (f, rest) => parsed bytes rest f 1 1
  | None => parse_failed PICOQUIC_TRANSPORT_FRAME_FORMAT_ERROR frame_type 1 1
  end.

(** ** Decoding helpers *)

Definition picoquic_frames_fixed_skip (bytes : list Z) (size : Z) : option (list Z) :=
  if size <=? Z.of_nat (length bytes) then Some (drop (Z.to_nat size) bytes) else None.

Definition picoquic_frames_varint_skip (bytes : list Z) : option (list Z) :=
  match bytes with
  | [] => None
  | b0 :: _ => picoquic_frames_fixed_skip bytes (varint_prefix_length b0)
  end.

Definition picoquic_frames_varint_decode (bytes : list Z) : option (Z * list Z) :=
  match bytes with
  | [] => None
  | b0 :: bytes' =>
    let length' := varint_prefix_length b0 in
    if length' <=? Z.of_nat (length bytes) then
      v ← varint_decode_loop (Z.to_nat (length' - 1)) bytes' (Z.land b0 0x3F);
      Some (v, drop (Z.to_nat length') bytes)
    else None
  end.

Definition picoquic_frames_uint8_decode (bytes : list Z) : option (Z * list Z) :=
  match bytes with
  | [] => None
  | n :: bytes' => Some (n, bytes')
  end.

Definition picoquic_frames_uint64_decode (bytes : list Z) : option (Z * list Z) :=
  n ← PICOPARSE_64 bytes; Some (n, drop 8 bytes).

Definition picoquic_frames_length_data_skip (bytes : list Z) : option (list Z) :=
  '(length, bytes) ← picoquic_frames_varint_decode bytes; picoquic_frames_fixed_skip bytes length.

(** [bytes + picoquic_varint_skip(bytes)]: past the frame type. *)
Definition after_type (bytes : list Z) : list Z :=
  match picoquic_varint_skip bytes with
  | Some n => drop (Z.to_nat n) bytes
  | None => []
  end.

(** ** Parsers *)

Definition parse_reset_stream_frame (bytes : list Z) : parse_result :=
  finish bytes
    ('(stream_id, b) ← picoquic_frames_varint_decode (after_type bytes);
     '(app_error_code, b) ← picoquic_frames_varint_decode b;
     '(final_offset, b) ← picoquic_frames_varint_decode b;
     Some (reset_stream_frame stream_id app_error_code final_offset, b))
    picoquic_frame_type_reset_stream.

Definition parse_new_connection_id_frame (bytes : list Z) : parse_result :=
  finish bytes
    ('(sequence, b) ← picoquic_frames_varint_decode (after_type bytes);
     '(retire_prior_to, b) ← picoquic_frames_varint_decode b;
     '(id_len, b) ← picoquic_frames_uint8_decode b;
     if PICOQUIC_CONNECTION_ID_MAX_SIZE <? id_len then None
     else if id_len + 16 <=? Z.of_nat (length b) then
       let id := take (Z.to_nat id_len) b in
       let b := drop (Z.to_nat id_len) b in
       Some (new_connection_id_frame sequence retire_prior_to id (take 16 b), drop 16 b)
     else None)
    picoquic_frame_type_new_connection_id.

Definition parse_retire_connection_id_frame (bytes : list Z) : parse_result :=
  finish bytes
    ('(sequence, b) ← picoquic_frames_varint_decode (after_type bytes);
     Some (retire_connection_id_frame sequence, b))
    picoquic_frame_type_retire_connection_id.

Definition picoquic_skip_new_token_frame (bytes : list Z) : option (list Z) :=
  picoquic_frames_length_data_skip (after_type bytes).

Definition parse_new_token_frame (bytes : list Z) : parse_result :=
  finish bytes
    ('(token_length, b) ← picoquic_frames_varint_decode (after_type bytes);
     if Z.of_nat (length b) <? token_length then None
     else Some (new_token_frame token_length (take (Z.to_nat token_length) b), drop (Z.to_nat token_length) b))
    picoquic_frame_type_new_token.

Definition parse_stop_sending_frame (bytes : list Z) : parse_result :=
  finish bytes
    ('(stream_id, b) ← picoquic_frames_varint_decode (after_type bytes);
     '(application_error_code, b) ← picoquic_frames_varint_decode b;
     Some (stop_sending_frame stream_id application_error_code, b))
    picoquic_frame_type_new_connection_id.

(** [PICOQUIC_BITS_CLEAR_IN_RANGE(bytes[0], 0x08, 0x0f, 0x02)] *)
Definition picoquic_is_stream_frame_unlimited (bytes : list Z) : bool :=
  Z.land (nth 0 bytes 0)
    (Z.lnot (Z.lxor (Z.lxor picoquic_frame_type_stream_range_min picoquic_frame_type_stream_range_max) 0x02))
  =? picoquic_frame_type_stream_range_min.

(** [picoquic_varint_decode(bytes + byte_index, bytes_max - byte_index, ...)]
    when [byte_index < bytes_max]: length and value; nothing is read otherwise. *)
Definition varint_at (bytes : list Z) (byte_index : Z) : Z * Z :=
  if byte_index <? Z.of_nat (length bytes) then
    default (0, 0) (picoquic_varint_decode (drop (Z.to_nat byte_index) bytes) (Z.of_nat (length bytes) - byte_index))
  else (0, 0).

Record stream_header := StreamHeader {
  sh_ret : Z; sh_stream_id : Z; sh_offset : Z; sh_data_length : Z; sh_fin : bool; sh_consumed : Z
}.

Definition picoquic_parse_stream_header (bytes : list Z) : stream_header :=
  let bytes_max := Z.of_nat (length bytes) in
  let b0 := nth 0 bytes 0 in
  let len := Z.land b0 2 in
  let off := Z.land b0 4 in
  let fin := negb (Z.land b0 1 =? 0) in
  let '(l_stream, stream_id) := varint_at bytes 1 in
  let byte_index := 1 + l_stream in
  let '(l_off, offset) := if off =? 0 then (0, 0) else varint_at bytes byte_index in
  let byte_index := byte_index + l_off in
  if (bytes_max <? byte_index) || (l_stream =? 0) || (negb (off =? 0) && (l_off =? 0)) then
    StreamHeader (-1) stream_id offset 0 fin bytes_max
  else if len =? 0 then
    StreamHeader 0 stream_id offset (bytes_max - byte_index) fin byte_index
  else
    let '(l_len, length') := varint_at bytes byte_index in
    let byte_index := byte_index + l_len in
    if (l_len =? 0) || (bytes_max <? byte_index) then
      StreamHeader (-1) stream_id offset length' fin bytes_max
    else if bytes_max <? byte_index + length' then
      StreamHeader (-1) stream_id offset length' fin byte_index
    else StreamHeader 0 stream_id offset length' fin byte_index.

(** On an error the frame is freed but [bytes] is returned as it was given. *)
Definition parse_stream_frame (bytes : list Z) : parse_result :=
  let h := picoquic_parse_stream_header bytes in
  if negb (sh_ret h =? 0) then
    Parsed (Some 0) None 1 1 (Some (PICOQUIC_TRANSPORT_FRAME_FORMAT_ERROR, nth 0 bytes 0))
  else
    let data := take (Z.to_nat (sh_data_length h)) (drop (Z.to_nat (sh_consumed h)) bytes) in
    Parsed (Some (sh_consumed h + sh_data_length h))
      (Some (stream_frame (sh_stream_id h) (sh_offset h) (sh_fin h) (sh_data_length h) data)) 1 1 None.

Definition parse_crypto_hs_frame (bytes : list Z) : parse_result :=
  finish bytes
    ('(offset, b) ← picoquic_frames_varint_decode (after_type bytes);
     '(length', b) ← picoquic_frames_varint_decode b;
     if Z.of_nat (length b) <? length' then None
     else Some (crypto_frame offset length' (take (Z.to_nat length') b), drop (Z.to_nat length') b))
    picoquic_frame_type_crypto_hs.

(** The pointer moves past the type, without a check against [bytes_max]. *)
Definition parse_handshake_done_frame (bytes : list Z) : parse_result :=
  Parsed (Some (default 0 (picoquic_varint_skip bytes))) (Some handshake_done_frame) 1 1 None.

Definition parse_connection_close_frame (bytes : list Z) : parse_result :=
  finish bytes
    ('(error_code, b) ← picoquic_frames_varint_decode (after_type bytes);
     '(frame_type, b) ← picoquic_frames_varint_decode b;
     '(reason_phrase_length, b) ← picoquic_frames_varint_decode b;
     if reason_phrase_length <=? Z.of_nat (length b) then
       let copied := if reason_phrase_length <=? REASONPHRASELENGTH_MAX then reason_phrase_length
                     else REASONPHRASELENGTH_MAX in
       Some (connection_close_frame error_code frame_type reason_phrase_length (take (Z.to_nat copied) b),
             drop (Z.to_nat reason_phrase_length) b)
     else None)
    picoquic_frame_type_connection_close.

Definition parse_application_close_frame (bytes : list Z) : parse_result :=
  finish bytes
    ('(error_code, b) ← picoquic_frames_varint_decode (after_type bytes);
     '(reason_phrase_length, b) ← picoquic_frames_varint_decode b;
     if reason_phrase_length <=? Z.of_nat (length b) then
       let copied := if reason_phrase_length <=? REASONPHRASELENGTH_MAX then reason_phrase_length
                     else REASONPHRASELENGTH_MAX in
       Some (application_close_frame error_code reason_phrase_length (take (Z.to_nat copied) b),
             drop (Z.to_nat reason_phrase_length) b)
     else None)
    picoquic_frame_type_application_close.

Definition parse_max_data_frame (bytes : list Z) : parse_result :=
  finish bytes
    ('(maximum_data, b) ← picoquic_frames_varint_decode (after_type bytes); Some (max_data_frame maximum_data, b))
    picoquic_frame_type_max_data.

Definition parse_max_stream_data_frame (bytes : list Z) : parse_result :=
  finish bytes
    ('(stream_id, b) ← picoquic_frames_varint_decode (after_type bytes);
     '(maximum_stream_data, b) ← picoquic_frames_varint_decode b;
     Some (max_stream_data_frame stream_id maximum_stream_data, b))
    picoquic_frame_type_max_stream_data.

(** A type that does not fit in the packet is dispatched as padding, so the first
    decoding of the parsers that read the type again does not fail. *)
Definition parse_max_streams_frame (bytes : list Z) : parse_result :=
  match picoquic_frames_varint_decode bytes with
  | None => parse_failed PICOQUIC_TRANSPORT_FRAME_FORMAT_ERROR 0 1 1
  | Some (frame_type, b) =>
    finish bytes
      ('(maximum_streams, b) ← picoquic_frames_varint_decode b;
       Some (max_streams_frame (frame_type =? picoquic_frame_type_max_streams_uni) maximum_streams, b))
      frame_type
  end.

Definition parse_path_challenge_frame (bytes : list Z) : parse_result :=
  if Z.of_nat (length bytes) <=? PICOQUIC_CHALLENGE_LENGTH then
    parse_failed PICOQUIC_TRANSPORT_FRAME_FORMAT_ERROR picoquic_frame_type_path_challenge 0 0
  else
    Parsed (Some (PICOQUIC_CHALLENGE_LENGTH + 1))
      (Some (path_challenge_frame (take (Z.to_nat PICOQUIC_CHALLENGE_LENGTH) (after_type bytes)))) 0 0 None.

Definition parse_path_response_frame (bytes : list Z) : parse_result :=
  match picoquic_frames_uint64_decode (after_type bytes) with
  | None => parse_failed PICOQUIC_TRANSPORT_FRAME_FORMAT_ERROR picoquic_frame_type_path_response 0 0
  | Some (data, b) => parsed bytes b (path_response_frame data) 0 0
  end.

Definition parse_blocked_frame (bytes : list Z) : parse_result :=
  finish bytes
    ('(offset, b) ← picoquic_frames_varint_decode (after_type bytes); Some (blocked_frame offset, b))
    picoquic_frame_type_data_blocked.

Definition parse_stream_blocked_frame (bytes : list Z) : parse_result :=
  finish bytes
    ('(stream_id, b) ← picoquic_frames_varint_decode (after_type bytes);
     '(offset, b) ← picoquic_frames_varint_decode b;
     Some (stream_blocked_frame stream_id offset, b))
    picoquic_frame_type_stream_data_blocked.

Definition parse_streams_blocked_frame (bytes : list Z) : parse_result :=
  match picoquic_frames_varint_decode bytes with
  | None => parse_failed PICOQUIC_TRANSPORT_FRAME_FORMAT_ERROR 0 1 1
  | Some (frame_type, b) =>
    finish bytes
      ('(stream_limit, b) ← picoquic_frames_varint_decode b;
       Some (streams_blocked_frame (frame_type =? picoquic_frame_type_uni_streams_blocked) stream_limit, b))
      frame_type
  end.

(** The identifier of at most 250 bytes is copied and skipped without a check
    against [bytes_max]. *)
Definition parse_plugin_validate_frame (bytes : list Z) : parse_result :=
  let failed := parse_failed PICOQUIC_TRANSPORT_FRAME_FORMAT_ERROR picoquic_frame_type_max_data 1 1 in
  match picoquic_frames_varint_decode (after_type bytes) with
  | None => failed
  | Some (pid_id, b) =>
    match picoquic_frames_varint_decode b with
    | None => failed
    | Some (pid_len, b) =>
      if 250 <? pid_len then failed
      else Parsed (Some (Z.of_nat (length bytes - length b) + pid_len))
             (Some (plugin_validate_frame pid_id pid_len (take (Z.to_nat pid_len) b))) 1 1 None
    end
  end.

Definition parse_plugin_frame (bytes : list Z) : parse_result :=
  finish bytes
    ('(pid_id, b) ← picoquic_frames_varint_decode (drop 2 bytes);
     '(offset, b) ← picoquic_frames_varint_decode b;
     '(length', b) ← picoquic_frames_varint_decode b;
     if Z.of_nat (length b) <? length' then None
     else Some (plugin_frame (nth 1 bytes 0) pid_id offset length' (take (Z.to_nat length') b), drop (Z.to_nat length') b))
    picoquic_frame_type_max_data.

(** The loop over the additional blocks. *)
Fixpoint parse_ack_blocks (n : nat) (b : list Z) : option (list (Z * Z) * list Z) :=
  match n with
  | O => Some ([], b)
  | S n' =>
    '(gap, b) ← picoquic_frames_varint_decode b;
    '(additional_ack_block, b) ← picoquic_frames_varint_decode b;
    '(blocks, b) ← parse_ack_blocks n' b;
    Some ((gap, additional_ack_block) :: blocks, b)
  end.

Fixpoint parse_varints (n : nat) (b : list Z) : option (list Z * list Z) :=
  match n with
  | O => Some ([], b)
  | S n' => '(v, b) ← picoquic_frames_varint_decode b; '(vs, b) ← parse_varints n' b; Some (v :: vs, b)
  end.

Definition parse_ack_frame_maybe_ecn (bytes : list Z) : parse_result :=
  let '(frame_type, b0) := match picoquic_frames_varint_decode bytes with Some r => r | None => (0, []) end in
  let is_ack_ecn := frame_type =? picoquic_frame_type_ack_ecn in
  let first_byte := if is_ack_ecn then picoquic_frame_type_ack_ecn else picoquic_frame_type_ack in
  match
    '(largest_acknowledged, b) ← picoquic_frames_varint_decode b0;
    '(ack_delay, b) ← picoquic_frames_varint_decode b;
    '(ack_block_count, b) ← picoquic_frames_varint_decode b;
    if MAX_ACK_BLOCKS <? ack_block_count then None
    else
      '(first_ack_block, b) ← picoquic_frames_varint_decode b;
      '(blocks, b) ← parse_ack_blocks (Z.to_nat ack_block_count) b;
      '(ecnx3, b) ← (if is_ack_ecn then parse_varints 3 b else Some ([], b));
      Some (ack_frame is_ack_ecn largest_acknowledged ack_delay first_ack_block blocks ecnx3, b)
  with
  | Some (f, b) => parsed bytes b f 0 0
  | None => parse_failed PICOQUIC_TRANSPORT_FRAME_FORMAT_ERROR first_byte 0 0
  end.

(** The number of leading bytes equal to the first one. *)
Fixpoint run_length (first_byte : Z) (bytes : list Z) : Z :=
  match bytes with
  | b :: bytes' => if b =? first_byte then 1 + run_length first_byte bytes' else 0
  | [] => 0
  end.

Definition parse_padding_or_ping_frame (bytes : list Z) : parse_result :=
  let first_byte := nth 0 bytes 0 in
  let is_ping := if negb (first_byte =? 0) then 1 else 0 in
  let num_block := 1 + run_length first_byte (drop 1 bytes) in
  Parsed (Some num_block) (Some (padding_or_ping_frame is_ping num_block)) is_ping is_ping None.

Definition parse_unknown_frame (bytes : list Z) : parse_result := Parsed None None 0 0 None.

(** The parser registered for a frame type; the parameter is a 16-bit integer. *)
Definition parse_frame (frame_type : Z) : list Z -> parse_result :=
  let p := u16 frame_type in
  if p =? picoquic_frame_type_padding then parse_padding_or_ping_frame
  else if p =? picoquic_frame_type_reset_stream then parse_reset_stream_frame
  else if p =? picoquic_frame_type_connection_close then parse_connection_close_frame
  else if p =? picoquic_frame_type_application_close then parse_application_close_frame
  else if p =? picoquic_frame_type_max_data then parse_max_data_frame
  else if p =? picoquic_frame_type_max_stream_data then parse_max_stream_data_frame
  else if p =? picoquic_frame_type_max_streams_bidi then parse_max_streams_frame
  else if p =? picoquic_frame_type_max_streams_uni then parse_max_streams_frame
  else if p =? picoquic_frame_type_ping then parse_padding_or_ping_frame
  else if p =? picoquic_frame_type_data_blocked then parse_blocked_frame
  else if p =? picoquic_frame_type_stream_data_blocked then parse_stream_blocked_frame
  else if p =? picoquic_frame_type_bidi_streams_blocked then parse_streams_blocked_frame
  else if p =? picoquic_frame_type_uni_streams_blocked then parse_streams_blocked_frame
  else if p =? picoquic_frame_type_new_connection_id then parse_new_connection_id_frame
  else if p =? picoquic_frame_type_retire_connection_id then parse_retire_connection_id_frame
  else if p =? picoquic_frame_type_stop_sending then parse_stop_sending_frame
  else if p =? picoquic_frame_type_ack then parse_ack_frame_maybe_ecn
  else if p =? picoquic_frame_type_path_challenge then parse_path_challenge_frame
  else if p =? picoquic_frame_type_path_response then parse_path_response_frame
  else if (picoquic_frame_type_stream_range_min <=? p) && (p <=? picoquic_frame_type_stream_range_max)
       then parse_stream_frame
  else if p =? picoquic_frame_type_crypto_hs then parse_crypto_hs_frame
  else if p =? picoquic_frame_type_new_token then parse_new_token_frame
  else if p =? picoquic_frame_type_ack_ecn then parse_ack_frame_maybe_ecn
  else if p =? picoquic_frame_type_handshake_done then parse_handshake_done_frame
  else if p =? picoquic_frame_type_plugin_validate then parse_plugin_validate_frame
  else if p =? picoquic_frame_type_plugin then parse_plugin_frame
  else parse_unknown_frame.

(** ** The frames of a packet *)

(** [picoquic_varint_decode(bytes, bytes_max - bytes, &frame_type)] *)
Definition peek_frame_type (bytes : list Z) : Z := (varint_at bytes 0).2.

(** The frames that may appear in an Initial or Handshake packet. *)
Definition allowed_in_epoch (epoch frame_type : Z) : bool :=
  (epoch =? 1) || (epoch =? 3) ||
  (frame_type =? picoquic_frame_type_padding) || (frame_type =? picoquic_frame_type_path_challenge) ||
  (frame_type =? picoquic_frame_type_path_response) || (frame_type =? picoquic_frame_type_connection_close) ||
  (frame_type =? picoquic_frame_type_crypto_hs) || (frame_type =? picoquic_frame_type_ack) ||
  (frame_type =? picoquic_frame_type_ack_ecn).

(** State of the first loop of [picoquic_decode_frames]: the pointer, [ack_needed],
    the queue of frames and the errors signalled so far. *)
Record decode_state := DecodeState {
  d_bytes : option (list Z); d_ack_needed : bool; d_queue : list (Z * frame); d_errors : list (Z * Z)
}.

Definition signalled (e : option (Z * Z)) : list (Z * Z) := match e with Some x => [x] | None => [] end.

(** One iteration. *)
Definition decode_step (epoch : Z) (bytes : list Z) (s : decode_state) : decode_state :=
  let frame_type := peek_frame_type bytes in
  if negb (allowed_in_epoch epoch frame_type) then
    DecodeState None (d_ack_needed s) (d_queue s)
      (d_errors s ++ [(PICOQUIC_TRANSPORT_PROTOCOL_VIOLATION, frame_type)])
  else
    let r := parse_frame frame_type bytes in
    let ack_needed := d_ack_needed s || negb (pr_ack_needed r =? 0) in
    let errors := d_errors s ++ signalled (pr_error r) in
    match pr_consumed r with
    | None => DecodeState None ack_needed (d_queue s) errors
    | Some n =>
      let queue := match pr_frame r with
                   | Some f => d_queue s ++ [(frame_type, f)]
                   | None => d_queue s
                   end in
      DecodeState (Some (drop (Z.to_nat n) bytes)) ack_needed queue errors
    end.

(** [while (bytes != NULL && bytes < bytes_max)]; [None] when the fuel runs out. *)
Fixpoint decode_loop (fuel : nat) (epoch : Z) (s : decode_state) : option decode_state :=
  match d_bytes s with
  | None | Some [] => Some s
  | Some bytes =>
    match fuel with
    | O => None
    | S fuel' => decode_loop fuel' epoch (decode_step epoch bytes s)
    end
  end.

Section Processing.
(** The connection, the handlers registered for PROTOOP_PARAM_PROCESS_FRAME and
    [picoquic_received_segment]. *)
Context {cnx : Type} (process_frame : Z -> frame -> cnx -> Z * cnx) (received_segment : cnx -> cnx).
(** [latest_progress_time = current_time; ack_needed = 1] *)
Context (note_ack_needed : cnx -> cnx).

(** The second loop: stops at the first handler that fails. *)
Fixpoint process_queue (queue : list (Z * frame)) (c : cnx) : bool * cnx :=
  match queue with
  | [] => (true, c)
  | (frame_type, f) :: queue' =>
    let '(err, c') := process_frame frame_type f c in
    if negb (err =? 0) then (false, c') else process_queue queue' c'
  end.

Definition picoquic_decode_frames (fuel : nat) (epoch : Z) (bytes : list Z) (c : cnx) : option (Z * cnx) :=
  s ← decode_loop fuel epoch (DecodeState (Some bytes) false [] []);
  let c1 := received_segment c in
  match d_bytes s with
  | None => Some (PICOQUIC_ERROR_DETECTED, c1)
  | Some _ =>
    let '(ok, c2) := process_queue (d_queue s) c1 in
    if ok then Some (0, if d_ack_needed s then note_ack_needed c2 else c2)
    else Some (PICOQUIC_ERROR_DETECTED, c2)
  end.
End Processing.

(** The result of [skip_frame]: return code, [consumed], [pure_ack]. *)
Definition skip_frame (bytes : list Z) : Z * Z * Z :=
  let r := parse_frame (peek_frame_type bytes) bytes in
  let consumed := match pr_consumed r with Some n => n | None => Z.of_nat (length bytes) end in
  let pure_ack := if negb (pr_is_retransmittable r =? 0) then 0 else 1 in
  (match pr_consumed r with Some _ => 0 | None => 1 end, consumed, pure_ack).

Fixpoint picoquic_decode_closing_frames (fuel : nat) (bytes : list Z) : option (Z * Z) :=
  match bytes with
  | [] => Some (0, 0)
  | _ =>
    match fuel with
    | O => None
    | S fuel' =>
      let frame_type := peek_frame_type bytes in
      if (frame_type =? picoquic_frame_type_connection_close) || (frame_type =? picoquic_frame_type_application_close)
      then Some (0, 1)
      else
        let '(ret, consumed, _) := skip_frame bytes in
        if negb (ret =? 0) then Some (ret, 0)
        else picoquic_decode_closing_frames fuel' (drop (Z.to_nat consumed) bytes)
    end
  end.

Definition picoquic_skip_stream_frame (bytes : list Z) : option (list Z) :=
  let len := Z.land (nth 0 bytes 0) 2 in
  let off := Z.land (nth 0 bytes 0) 4 in
  b ← picoquic_frames_varint_skip (after_type bytes);
  b ← (if off =? 0 then Some b else picoquic_frames_varint_skip b);
  if len =? 0 then Some [] else picoquic_frames_length_data_skip b.

(** ** Writers

    A writer returns its return code, [*consumed] and the bytes it stored from
    [bytes] on; [bytes_max] is the room it is given. *)

Definition picoquic_prepare_connection_close_frame (local_error offending_frame_type bytes_max : Z) : Z * Z * list Z :=
  if 4 <? bytes_max then
    let e1 := picoquic_varint_encode (bytes_max - 1) local_error in
    let l1 := Z.of_nat (length e1) in
    let e2 := picoquic_varint_encode (bytes_max - (1 + l1)) offending_frame_type in
    let l2 := Z.of_nat (length e2) in
    let e3 := picoquic_varint_encode (bytes_max - (1 + l1 + l2)) 0 in
    let l3 := Z.of_nat (length e3) in
    if (l1 =? 0) || (l2 =? 0) || (l3 =? 0) then (PICOQUIC_ERROR_FRAME_BUFFER_TOO_SMALL, 0, [])
    else (0, 1 + l1 + l2 + l3, picoquic_frame_type_connection_close :: e1 ++ e2 ++ e3)
  else (PICOQUIC_ERROR_FRAME_BUFFER_TOO_SMALL, 0, []).

Definition picoquic_prepare_application_close_frame (application_error bytes_max : Z) : Z * Z * list Z :=
  if 2 <? bytes_max then
    let e1 := picoquic_varint_encode (bytes_max - 1) application_error in
    let l1 := Z.of_nat (length e1) in
    let e2 := picoquic_varint_encode (bytes_max - (1 + l1)) 0 in
    let l2 := Z.of_nat (length e2) in
    if (l1 =? 0) || (l2 =? 0) then (PICOQUIC_ERROR_FRAME_BUFFER_TOO_SMALL, 0, [])
    else (0, 1 + l1 + l2, picoquic_frame_type_application_close :: e1 ++ e2)
  else (PICOQUIC_ERROR_FRAME_BUFFER_TOO_SMALL, 0, []).

(** Also returns the new [maxdata_local]; on an error [*consumed] is 1. *)
Definition prepare_max_data_frame (maxdata_local maxdata_increase bytes_max : Z) : Z * Z * list Z * Z :=
  if bytes_max <? 1 then (PICOQUIC_ERROR_FRAME_BUFFER_TOO_SMALL, 0, [], maxdata_local)
  else
    let e1 := picoquic_varint_encode (bytes_max - 1) (u64 (maxdata_local + maxdata_increase)) in
    let l1 := Z.of_nat (length e1) in
    if l1 =? 0 then (PICOQUIC_ERROR_FRAME_BUFFER_TOO_SMALL, 1, [picoquic_frame_type_max_data], maxdata_local)
    else (0, 1 + l1, picoquic_frame_type_max_data :: e1, u64 (maxdata_local + maxdata_increase)).

(** Also returns the stream's new [maxdata_local]; [bytes_max - 1] is a [size_t]. *)
Definition picoquic_prepare_max_stream_data_frame (stream_id maxdata_local new_max_data bytes_max : Z) :
    Z * Z * list Z * Z :=
  let e1 := picoquic_varint_encode (u64 (bytes_max - 1)) stream_id in
  let l1 := Z.of_nat (length e1) in
  let e2 := picoquic_varint_encode (u64 (bytes_max - 1 - l1)) new_max_data in
  let l2 := Z.of_nat (length e2) in
  if (l1 =? 0) || (l2 =? 0) then (PICOQUIC_ERROR_FRAME_BUFFER_TOO_SMALL, 0, [], maxdata_local)
  else (0, 1 + l1 + l2, picoquic_frame_type_max_stream_data :: e1 ++ e2, new_max_data).

Definition prepare_path_challenge_frame (challenge bytes_max : Z) : Z * Z * list Z :=
  if bytes_max <? 1 + 8 then (PICOQUIC_ERROR_FRAME_BUFFER_TOO_SMALL, 0, [])
  else (0, 1 + 8, picoquic_frame_type_path_challenge :: picoformat_64 challenge).

Definition write_plugin_validate_frame (pid_id pid_len : Z) (pid : list Z) (bytes_max : Z) : Z * Z * list Z :=
  let e1 := picoquic_varint_encode (u64 (bytes_max - 1)) pid_id in
  let l1 := Z.of_nat (length e1) in
  let e2 := picoquic_varint_encode (u64 (bytes_max - 1 - l1)) pid_len in
  let l2 := Z.of_nat (length e2) in
  if (l1 =? 0) || (l2 =? 0) || (bytes_max <? 1 + l1 + l2 + pid_len)
  then (PICOQUIC_ERROR_FRAME_BUFFER_TOO_SMALL, 0, [])
  else (0, 1 + l1 + l2 + pid_len, picoquic_frame_type_plugin_validate :: e1 ++ e2 ++ take (Z.to_nat pid_len) pid).

(** The flags of the stream that [picoquic_prepare_stop_sending_frame] tests; also
    returns the new [stop_sending_sent].  The error code is written on two bytes. *)
Definition picoquic_prepare_stop_sending_frame (stream_id local_stop_error : Z)
    (stop_sending_requested stop_sending_sent fin_received reset_received : bool) (bytes_max : Z) :
    Z * Z * list Z * bool :=
  if bytes_max <? 1 + 4 + 2 then (PICOQUIC_ERROR_FRAME_BUFFER_TOO_SMALL, 0, [], stop_sending_sent)
  else if negb stop_sending_requested || stop_sending_sent || fin_received || reset_received
  then (0, 0, [], stop_sending_sent)
  else
    let e1 := picoquic_varint_encode (bytes_max - 1) stream_id in
    let l1 := Z.of_nat (length e1) in
    (0, 1 + l1 + 2, picoquic_frame_type_stop_sending :: e1 ++ picoformat_16 (u16 local_stop_error), true).

(** ** Variable-length integers in frames *)

Lemma prefix_length_pos b0 : is_u8 b0 -> 1 <= varint_prefix_length b0 <= 8.
Proof.
  intros Hb. pose (f := fun b => (1 <=? varint_prefix_length b) && (varint_prefix_length b <=? 8)).
  assert (f b0 = true) as Hf by (apply forall_bytes; [vm_compute; reflexivity|done]).
  unfold f in Hf. reflect_cmp. lia.
Qed.

(** What a successful decoding consumes. *)
Lemma varint_decode_progress bytes v rest :
  Forall is_u8 bytes -> picoquic_frames_varint_decode bytes = Some (v, rest) ->
  exists n, rest = drop n bytes /\ (1 <= n <= length bytes)%nat /\ Forall is_u8 rest.
Proof.
  intros Hb. destruct Hb as [|b0 bs Hb0 Hbs]; [done|]. unfold picoquic_frames_varint_decode.
  pose proof (prefix_length_pos b0 Hb0). destruct (Z.leb_spec (varint_prefix_length b0) (Z.of_nat (length (b0 :: bs)))); [|done].
  destruct (varint_decode_loop _ _ _); [|done]. cbn [mbind option_bind]. intros [= <- <-].
  exists (Z.to_nat (varint_prefix_length b0)). split; [done|]. split; [lia|]. apply Forall_drop. by apply Forall_cons.
Qed.

(** Decoding what was encoded. *)
Lemma varint_decode_encode m n rest :
  0 <= n < 2 ^ 62 -> picoquic_varint_encode m n <> [] ->
  picoquic_frames_varint_decode (picoquic_varint_encode m n ++ rest) = Some (n, rest).
Proof.
  intros Hn Hne. destruct (encode_shape m n ltac:(lia)) as [|(k & Hk & Hm & Heq & Hlen)]; [done|].
  destruct (Hlen ltac:(lia)) as [_ Hbound]. rewrite Heq. set (len := Z.to_nat (2 ^ k - 1)) in *.
  assert (1 <= 2 ^ k <= 8).
  { split; [apply Z.pow_le_mono_r with (b := 0); lia|]. change 8 with (2 ^ 3). apply Z.pow_le_mono_r; lia. }
  assert (Hd : 0 <= (n / 2 ^ (8 * Z.of_nat len)) mod 64 < 64) by (apply Z.mod_pos_bound; lia).
  destruct (prefix_byte k _ Hk Hd) as (_ & Hpl & Hland).
  pose proof (decode_shape k n rest (2 ^ k) len Hk eq_refl ltac:(lia)) as Hdec.
  unfold picoquic_varint_decode in Hdec. unfold picoquic_frames_varint_decode.
  rewrite <- app_comm_cons. rewrite Hpl in Hdec |- *.
  destruct (Z.ltb_spec (2 ^ k) (2 ^ k)); [lia|].
  destruct (Z.leb_spec (2 ^ k) (Z.of_nat (length ((64 * k + (n / 2 ^ (8 * Z.of_nat len)) mod 64) :: be_digits len n ++ rest)))) as [|Hl].
  2: { cbn [length] in Hl. rewrite length_app, length_be_digits in Hl. lia. }
  destruct (varint_decode_loop _ _ _) as [w|]; [|done]. cbn [mbind option_bind] in *. injection Hdec as ->.
  rewrite Z.mod_small by lia. f_equal. f_equal.
  replace (Z.to_nat (2 ^ k)) with (S len) by lia. cbn [drop]. by rewrite drop_app_length' by (by rewrite length_be_digits).
Qed.

Lemma after_type_byte t rest : 0 <= t < 64 -> after_type (t :: rest) = rest.
Proof.
  intros Ht. unfold after_type, picoquic_varint_skip. cbn [head mbind option_bind].
  destruct (prefix_byte 0 t ltac:(lia) ltac:(lia)) as (_ & Hp & _). rewrite Z.mul_0_r, Z.add_0_l in Hp. by rewrite Hp.
Qed.

Lemma peek_byte t rest : 0 <= t < 64 -> peek_frame_type (t :: rest) = t.
Proof.
  intros Ht. unfold peek_frame_type, varint_at. change (Z.to_nat 0) with 0%nat. cbn [length drop].
  destruct (Z.ltb_spec 0 (Z.of_nat (S (length rest)))); [|lia]. unfold picoquic_varint_decode. cbv zeta iota.
  destruct (prefix_byte 0 t ltac:(lia) ltac:(lia)) as (_ & Hp & Hl). rewrite Z.mul_0_r, Z.add_0_l in Hp, Hl.
  rewrite Hp. destruct (Z.ltb_spec (Z.of_nat (S (length rest)) - 0) (2 ^ 0)); [lia|]. cbn. by rewrite Hl.
Qed.

(** ** Progress of the parsers *)

Lemma varint_decode_shorter bytes v rest :
  Forall is_u8 bytes -> picoquic_frames_varint_decode bytes = Some (v, rest) ->
  Forall is_u8 rest /\ (length rest < length bytes)%nat.
Proof.
  intros Hb Hd. destruct (varint_decode_progress _ _ _ Hb Hd) as (n & -> & Hn & Hr).
  split; [done|]. rewrite length_drop. lia.
Qed.

Lemma after_type_shorter bytes :
  Forall is_u8 bytes -> Forall is_u8 (after_type bytes) /\ (length (after_type bytes) <= length bytes)%nat.
Proof.
  intros Hb. unfold after_type. destruct (picoquic_varint_skip bytes) as [n|].
  - split; [by apply Forall_drop|]. rewrite length_drop. lia.
  - split; [apply Forall_nil|cbn; lia].
Qed.

(** A parser result that read a frame inside the packet and moved on. *)
Definition progressed (bytes : list Z) (r : parse_result) : Prop :=
  forall n, pr_consumed r = Some n -> is_Some (pr_frame r) /\ 0 < n <= Z.of_nat (length bytes).

Lemma parsed_progressed bytes rest f a i : (length rest < length bytes)%nat -> progressed bytes (parsed bytes rest f a i).
Proof. intros Hl n [= <-]. split; [done|]. lia. Qed.

Lemma finish_progressed bytes r t :
  (forall f rest, r = Some (f, rest) -> (length rest < length bytes)%nat) -> progressed bytes (finish bytes r t).
Proof. intros H. destruct r as [[f rest]|]; [|done]. by apply parsed_progressed, (H f). Qed.

Lemma parse_ack_blocks_shorter n b blocks rest :
  Forall is_u8 b -> parse_ack_blocks n b = Some (blocks, rest) -> Forall is_u8 rest /\ (length rest <= length b)%nat.
Proof.
  revert b blocks rest. induction n as [|n IH]; intros b blocks rest Hb; cbn [parse_ack_blocks]; [by intros [= <- <-]|].
  destruct (picoquic_frames_varint_decode b) as [[gap b1]|] eqn:E1; [|done]. cbn [mbind option_bind].
  destruct (varint_decode_shorter _ _ _ Hb E1) as [H1 L1].
  destruct (picoquic_frames_varint_decode b1) as [[add b2]|] eqn:E2; [|done]. cbn [mbind option_bind].
  destruct (varint_decode_shorter _ _ _ H1 E2) as [H2 L2].
  destruct (parse_ack_blocks n b2) as [[bl b3]|] eqn:E3; [|done]. cbn [mbind option_bind]. intros [= <- <-].
  destruct (IH _ _ _ H2 E3) as [H3 L3]. split; [done|lia].
Qed.

Lemma parse_varints_shorter n b vs rest :
  Forall is_u8 b -> parse_varints n b = Some (vs, rest) -> Forall is_u8 rest /\ (length rest <= length b)%nat.
Proof.
  revert b vs rest. induction n as [|n IH]; intros b vs rest Hb; cbn [parse_varints]; [by intros [= <- <-]|].
  destruct (picoquic_frames_varint_decode b) as [[v b1]|] eqn:E1; [|done]. cbn [mbind option_bind].
  destruct (varint_decode_shorter _ _ _ Hb E1) as [H1 L1].
  destruct (parse_varints n b1) as [[vs' b2]|] eqn:E2; [|done]. cbn [mbind option_bind]. intros [= <- <-].
  destruct (IH _ _ _ H1 E2). split; [done|lia].
Qed.

(** Runs a chain of decoders and collects how each one shortens the input. *)
#[local] Ltac run_decoders :=
  repeat match goal with
    | H : Forall is_u8 ?b |- context [picoquic_frames_varint_decode ?b] =>
      let E := fresh "E" in
      destruct (picoquic_frames_varint_decode b) as [[? ?]|] eqn:E; [|done];
      destruct (varint_decode_shorter _ _ _ H E); cbn [mbind option_bind]; clear E
    | H : Forall is_u8 ?b |- context [parse_ack_blocks ?n ?b] =>
      let E := fresh "E" in
      destruct (parse_ack_blocks n b) as [[? ?]|] eqn:E; [|done];
      destruct (parse_ack_blocks_shorter _ _ _ _ H E); cbn [mbind option_bind]; clear E
    | H : Forall is_u8 ?b |- context [parse_varints ?n ?b] =>
      let E := fresh "E" in
      destruct (parse_varints n b) as [[? ?]|] eqn:E; [|done];
      destruct (parse_varints_shorter _ _ _ _ H E); cbn [mbind option_bind]; clear E
    | |- context [if ?c then _ else _] => destruct c; try done
    | |- context [picoquic_frames_uint8_decode ?b] => destruct b; [done|]; cbn [picoquic_frames_uint8_decode mbind option_bind length] in *
    end.

#[local] Ltac finish_frame :=
  intros ? ? [= <- <-]; cbn [length] in *; rewrite ?length_drop; lia.

Lemma fixed_parsers_progress bytes :
  Forall is_u8 bytes ->
  Forall (fun p => progressed bytes (p bytes))
    [parse_reset_stream_frame; parse_new_connection_id_frame; parse_retire_connection_id_frame; parse_new_token_frame;
     parse_stop_sending_frame; parse_crypto_hs_frame; parse_connection_close_frame; parse_application_close_frame;
     parse_max_data_frame; parse_max_stream_data_frame; parse_blocked_frame; parse_stream_blocked_frame].
Proof.
  intros Hb. destruct (after_type_shorter bytes Hb) as [Ha La].
  repeat apply Forall_cons; try apply Forall_nil; apply finish_progressed; run_decoders; finish_frame.
Qed.

Lemma typed_parsers_progress bytes :
  Forall is_u8 bytes ->
  Forall (fun p => progressed bytes (p bytes)) [parse_max_streams_frame; parse_streams_blocked_frame; parse_ack_frame_maybe_ecn].
Proof.
  intros Hb. repeat apply Forall_cons; try apply Forall_nil.
  - unfold parse_max_streams_frame. run_decoders. apply finish_progressed. run_decoders. finish_frame.
  - unfold parse_streams_blocked_frame. run_decoders. apply finish_progressed. run_decoders. finish_frame.
  - unfold parse_ack_frame_maybe_ecn. destruct (picoquic_frames_varint_decode bytes) as [[t b]|] eqn:E; [|done].
    destruct (varint_decode_shorter _ _ _ Hb E) as [H1 L1]. run_decoders; cbn [mbind option_bind];
      run_decoders; apply parsed_progressed; lia.
Qed.

Lemma parse_plugin_progress bytes : Forall is_u8 bytes -> progressed bytes (parse_plugin_frame bytes).
Proof.
  intros Hb. assert (H2 : Forall is_u8 (drop 2 bytes)) by (by apply Forall_drop).
  assert (L2 : (length (drop 2 bytes) <= length bytes)%nat) by (rewrite length_drop; lia).
  apply finish_progressed. run_decoders. finish_frame.
Qed.

Lemma decode_loop_nonneg n bytes v w : 0 <= v -> varint_decode_loop n bytes v = Some w -> 0 <= w.
Proof.
  revert bytes v. induction n as [|n IH]; intros bytes v Hv; cbn [varint_decode_loop]; [by intros [= <-]|].
  destruct bytes as [|b bytes]; [done|]. apply IH. apply (u64_range _).
Qed.

Lemma varint_at_spec bytes i l v :
  Forall is_u8 bytes -> 0 <= i -> varint_at bytes i = (l, v) ->
  (l = 0 /\ v = 0) \/ (1 <= l /\ i + l <= Z.of_nat (length bytes) /\ 0 <= v).
Proof.
  intros Hb Hi. unfold varint_at. destruct (Z.ltb_spec i (Z.of_nat (length bytes))) as [Hlt|]; [|intros [= <- <-]; by left].
  assert (Hd : Forall is_u8 (drop (Z.to_nat i) bytes)) by (by apply Forall_drop).
  unfold picoquic_varint_decode. destruct Hd as [|b0 bs Hb0 Hbs]; [intros [= <- <-]; by left|].
  pose proof (prefix_length_pos b0 Hb0). destruct (Z.ltb_spec (Z.of_nat (length bytes) - i) (varint_prefix_length b0));
    [intros [= <- <-]; by left|].
  destruct (varint_decode_loop _ _ _) as [w|] eqn:E; cbn; intros [= <- <-]; [right|by left].
  split_and!; [lia|lia|]. apply decode_loop_nonneg in E; [done|]. apply Z.land_nonneg. right. lia.
Qed.

Lemma stream_header_bounds bytes :
  Forall is_u8 bytes -> let h := picoquic_parse_stream_header bytes in
  sh_ret h = 0 -> 1 <= sh_consumed h /\ 0 <= sh_data_length h /\ sh_consumed h + sh_data_length h <= Z.of_nat (length bytes).
Proof.
  intros Hb. cbv zeta. unfold picoquic_parse_stream_header.
  destruct (varint_at bytes 1) as [l1 id] eqn:E1. destruct (varint_at_spec bytes 1 l1 id Hb ltac:(lia) E1) as [[-> ->]|(H1 & H1' & _)].
  { destruct (if Z.land (nth 0 bytes 0) 4 =? 0 then _ else _) as [l2 off].
    by destruct (Z.of_nat (length bytes) <? 1 + 0 + l2). }
  destruct (if Z.land (nth 0 bytes 0) 4 =? 0 then _ else _) as [l2 off] eqn:E2.
  assert (0 <= l2).
  { destruct (Z.land (nth 0 bytes 0) 4 =? 0); [injection E2 as <- <-; lia|].
    destruct (varint_at_spec bytes (1 + l1) l2 off Hb ltac:(lia) E2) as [[-> _]|]; lia. }
  destruct (orb _ _) eqn:Hor; [done|]. reflect_cmp. destruct (Z.land (nth 0 bytes 0) 2 =? 0); cbn; [lia|].
  destruct (varint_at bytes (1 + l1 + l2)) as [l3 len] eqn:E3.
  destruct (varint_at_spec bytes (1 + l1 + l2) l3 len Hb ltac:(lia) E3) as [[-> ->]|(G1 & G2 & G3)]; [done|].
  destruct (orb _ _) eqn:Hor2; [done|]. destruct (Z.ltb_spec (Z.of_nat (length bytes)) (1 + l1 + l2 + l3 + len)); cbn; [done|]. lia.
Qed.

Lemma run_length_bound b bytes : 0 <= run_length b bytes <= Z.of_nat (length bytes).
Proof. induction bytes as [|x bytes IH]; cbn [run_length length]; [lia|]. destruct (x =? b); lia. Qed.

Lemma peek_nonzero bytes :
  Forall is_u8 bytes -> peek_frame_type bytes <> 0 ->
  exists n, picoquic_varint_skip bytes = Some n /\ 1 <= n <= Z.of_nat (length bytes).
Proof.
  intros Hb Hp. unfold peek_frame_type, varint_at in Hp.
  destruct (Z.ltb_spec 0 (Z.of_nat (length bytes))) as [Hlt|]; [|done]. change (drop (Z.to_nat 0) bytes) with bytes in Hp.
  destruct Hb as [|b0 bs Hb0 Hbs]; [done|]. exists (varint_prefix_length b0). split; [done|].
  pose proof (prefix_length_pos b0 Hb0). unfold picoquic_varint_decode in Hp.
  destruct (Z.ltb_spec (Z.of_nat (length (b0 :: bs)) - 0) (varint_prefix_length b0)); [done|lia].
Qed.

Lemma parse64_length b n : PICOPARSE_64 b = Some n -> (8 <= length b)%nat.
Proof. do 8 (destruct b as [|? b]; [done|]). cbn [length]. lia. Qed.

(** The other parsers, under the type that selects them. *)
Lemma other_parsers_progress bytes :
  Forall is_u8 bytes -> bytes <> [] ->
  progressed bytes (parse_padding_or_ping_frame bytes) /\ progressed bytes (parse_path_challenge_frame bytes) /\
  progressed bytes (parse_path_response_frame bytes) /\
  (peek_frame_type bytes <> 0 -> progressed bytes (parse_handshake_done_frame bytes)).
Proof.
  intros Hb Hne. split_and!.
  - intros n [= <-]. split; [done|]. destruct bytes as [|b0 bs]; [done|]. cbn [drop length].
    pose proof (run_length_bound b0 bs). cbn [nth]. change (drop 0 bs) with bs. lia.
  - unfold parse_path_challenge_frame. destruct (Z.leb_spec (Z.of_nat (length bytes)) PICOQUIC_CHALLENGE_LENGTH) as [|Hl]; [done|].
    intros n [= <-]. split; [done|]. unfold PICOQUIC_CHALLENGE_LENGTH in *. lia.
  - destruct (after_type_shorter bytes Hb) as [_ La]. unfold parse_path_response_frame, picoquic_frames_uint64_decode.
    destruct (PICOPARSE_64 (after_type bytes)) as [d|] eqn:E; [|done]. cbn [mbind option_bind].
    apply parse64_length in E. apply parsed_progressed. rewrite length_drop. lia.
  - intros Hp. destruct (peek_nonzero bytes Hb Hp) as (n & Hn & Hl). intros m [= <-]. rewrite Hn. split; [done|simpl; lia].
Qed.

Lemma parse_stream_progress bytes :
  Forall is_u8 bytes -> sh_ret (picoquic_parse_stream_header bytes) = 0 -> progressed bytes (parse_stream_frame bytes).
Proof.
  intros Hb Hr. pose proof (stream_header_bounds bytes Hb Hr). unfold parse_stream_frame. rewrite Hr. cbn [Z.eqb negb].
  intros n [= <-]. split; [done|]. lia.
Qed.

(** The types the STREAM parser is registered for, and a header it rejects. *)
Definition is_stream_type (frame_type : Z) : bool :=
  (picoquic_frame_type_stream_range_min <=? u16 frame_type) && (u16 frame_type <=? picoquic_frame_type_stream_range_max).

Definition malformed_stream (bytes : list Z) : bool :=
  is_stream_type (peek_frame_type bytes) && negb (sh_ret (picoquic_parse_stream_header bytes) =? 0).

(** Every registered parser is one of these. *)
Lemma parse_frame_cases (P : (list Z -> parse_result) -> Prop) t :
  Forall P [parse_reset_stream_frame; parse_new_connection_id_frame; parse_retire_connection_id_frame; parse_new_token_frame;
     parse_stop_sending_frame; parse_crypto_hs_frame; parse_connection_close_frame; parse_application_close_frame;
     parse_max_data_frame; parse_max_stream_data_frame; parse_blocked_frame; parse_stream_blocked_frame] ->
  Forall P [parse_max_streams_frame; parse_streams_blocked_frame; parse_ack_frame_maybe_ecn] ->
  P parse_plugin_frame -> P parse_padding_or_ping_frame -> P parse_path_challenge_frame -> P parse_path_response_frame ->
  P parse_unknown_frame -> (u16 t = picoquic_frame_type_handshake_done -> P parse_handshake_done_frame) ->
  (is_stream_type t = true -> P parse_stream_frame) ->
  (u16 t = picoquic_frame_type_plugin_validate -> P parse_plugin_validate_frame) -> P (parse_frame t).
Proof.
  intros H1 H2. rewrite !list.Forall_cons in H1. rewrite !list.Forall_cons in H2.
  destruct H1 as (? & ? & ? & ? & ? & ? & ? & ? & ? & ? & ? & ? & _), H2 as (? & ? & ? & _).
  intros Hpl Hpad Hch Hre Hun Hhd Hst Hva. unfold parse_frame, is_stream_type in *.
  repeat match goal with |- context [u16 t =? ?c] =>
    first [destruct (Z.eqb_spec (u16 t) c); [solve [auto]|]] end.
  destruct (andb _ _); [by apply Hst|].
  repeat match goal with |- context [u16 t =? ?c] =>
    first [destruct (Z.eqb_spec (u16 t) c); [solve [auto]|]] end. done.
Qed.

Lemma parse_frame_stream t : is_stream_type t = true -> parse_frame t = parse_stream_frame.
Proof.
  unfold is_stream_type, parse_frame. generalize (u16 t) as p. intros p Hs. pose proof Hs as Hs'.
  apply andb_true_iff in Hs' as [H1%Z.leb_le H2%Z.leb_le]. cbv in H1, H2.
  repeat match goal with |- context [p =? ?c] =>
    first [destruct (Z.eqb_spec p c) as [Heq|]; [exfalso; subst p; cbv in H1, H2; congruence|]] end.
  by rewrite Hs.
Qed.

Lemma parse_plugin_validate_bound bytes n :
  Forall is_u8 bytes -> pr_consumed (parse_plugin_validate_frame bytes) = Some n ->
  is_Some (pr_frame (parse_plugin_validate_frame bytes)) /\ 0 < n <= Z.of_nat (length bytes) + 250.
Proof.
  intros Hb. destruct (after_type_shorter bytes Hb) as [Ha La]. unfold parse_plugin_validate_frame.
  destruct (picoquic_frames_varint_decode (after_type bytes)) as [[id b]|] eqn:E1; [|done].
  destruct (varint_decode_shorter _ _ _ Ha E1) as [H1 L1].
  destruct (picoquic_frames_varint_decode b) as [[len b']|] eqn:E2; [|done].
  destruct (varint_decode_shorter _ _ _ H1 E2) as [H2 L2].
  assert (0 <= len).
  { unfold picoquic_frames_varint_decode in E2. destruct b as [|b0 bs]; [done|]. destruct (_ <=? _); [|done].
    destruct (varint_decode_loop _ _ _) eqn:El; [|done]. injection E2 as -> _.
    apply decode_loop_nonneg in El; [done|]. apply Z.land_nonneg. right. lia. }
  destruct (Z.ltb_spec 250 len); [done|]. cbn. intros [= <-]. split; [done|lia].
Qed.

Lemma parse_frame_moves bytes n :
  Forall is_u8 bytes -> bytes <> [] ->
  let r := parse_frame (peek_frame_type bytes) bytes in
  pr_consumed r = Some n ->
  (malformed_stream bytes = true -> n = 0 /\ pr_frame r = None) /\
  (malformed_stream bytes = false -> is_Some (pr_frame r) /\ 0 < n) /\
  (n <= Z.of_nat (length bytes) \/
   (u16 (peek_frame_type bytes) = picoquic_frame_type_plugin_validate /\ n <= Z.of_nat (length bytes) + 250)).
Proof.
  intros Hb Hne. cbv zeta. set (t := peek_frame_type bytes). revert n.
  destruct (malformed_stream bytes) eqn:Hm; unfold malformed_stream in Hm; fold t in Hm.
  - apply andb_true_iff in Hm as [Hs Hr]. rewrite (parse_frame_stream t Hs).
    unfold parse_stream_frame. rewrite Hr. intros n [= <-]. split; [done|]. split; [done|]. left. lia.
  - assert (Hprog : forall p, progressed bytes (p bytes) -> forall n, pr_consumed (p bytes) = Some n ->
      (is_Some (pr_frame (p bytes)) /\ 0 < n) /\ (n <= Z.of_nat (length bytes) \/
      (u16 t = picoquic_frame_type_plugin_validate /\ n <= Z.of_nat (length bytes) + 250))).
    { intros p Hp n Hn. destruct (Hp n Hn). split; [split; [done|lia]|left; lia]. }
    destruct (other_parsers_progress bytes Hb Hne) as (Hpad & Hch & Hre & Hhd).
    cut (forall n, pr_consumed (parse_frame t bytes) = Some n ->
      (is_Some (pr_frame (parse_frame t bytes)) /\ 0 < n) /\ (n <= Z.of_nat (length bytes) \/
      (u16 t = picoquic_frame_type_plugin_validate /\ n <= Z.of_nat (length bytes) + 250)));
      [intros H n Hn; destruct (H n Hn); by split_and!|].
    apply (parse_frame_cases (fun p => forall n, pr_consumed (p bytes) = Some n ->
      (is_Some (pr_frame (p bytes)) /\ 0 < n) /\ (n <= Z.of_nat (length bytes) \/
      (u16 t = picoquic_frame_type_plugin_validate /\ n <= Z.of_nat (length bytes) + 250)))); auto using parse_plugin_progress.
    + refine (Forall_impl _ _ (fixed_parsers_progress bytes Hb)). auto.
    + refine (Forall_impl _ _ (typed_parsers_progress bytes Hb)). auto.
    + done.
    + intros Ht. apply Hprog, Hhd. fold t. intros H0. by rewrite H0 in Ht.
    + intros Hs. apply Hprog, parse_stream_progress; [done|]. rewrite Hs in Hm. cbn [andb] in Hm.
      by apply negb_false_iff, Z.eqb_eq in Hm.
    + intros Ht n Hn. destruct (parse_plugin_validate_bound bytes n Hb Hn) as [? ?].
      split; [split; [done|lia]|]. right. split; [done|lia].
Qed.

Lemma parse_progress_pos bytes n :
  Forall is_u8 bytes -> bytes <> [] -> malformed_stream bytes = false ->
  pr_consumed (parse_frame (peek_frame_type bytes) bytes) = Some n -> 0 < n.
Proof. intros Hb Hne Hm Hn. destruct (parse_frame_moves bytes n Hb Hne Hn) as (_ & H & _). by apply H. Qed.

(** Every parser that is selected by the type of the frame at [bytes] and
    accepts it moves the pointer forward and leaves it inside the packet, except:
    a STREAM frame whose header is malformed is rejected without moving the
    pointer (it is not set to null), and a PLUGIN_VALIDATE frame may move it up to
    250 bytes past the end of the packet. *)
Theorem parse_frame_progress bytes n :
  Forall is_u8 bytes -> bytes <> [] ->
  let r := parse_frame (peek_frame_type bytes) bytes in
  pr_consumed r = Some n ->
  (malformed_stream bytes = true -> n = 0 /\ pr_frame r = None) /\
  (malformed_stream bytes = false -> is_Some (pr_frame r) /\ 0 < n) /\
  (n <= Z.of_nat (length bytes) \/
   (u16 (peek_frame_type bytes) = picoquic_frame_type_plugin_validate /\ n <= Z.of_nat (length bytes) + 250)).
Proof. apply parse_frame_moves. Qed.

Lemma parse_frame_progress_witness :
  let r := parse_frame (peek_frame_type [0x0a]) [0x0a] in pr_consumed r = Some 0 /\ pr_frame r = None.
Proof.
  pose proof (parse_frame_progress [0x0a] 0 ltac:(by repeat constructor) ltac:(done) eq_refl) as (H & _ & _).
  split; [reflexivity|]. by apply H.
Defined.

(** ** The loop over the frames of a packet *)

(** One iteration either ends the loop or shortens what is left. *)
Lemma decode_step_shortens epoch bytes s rest :
  Forall is_u8 bytes -> bytes <> [] -> malformed_stream bytes = false ->
  d_bytes (decode_step epoch bytes s) = Some rest ->
  exists k, rest = drop k bytes /\ (length rest < length bytes)%nat.
Proof.
  intros Hb Hne Hm. unfold decode_step. destruct (negb _); [done|].
  destruct (pr_consumed (parse_frame (peek_frame_type bytes) bytes)) as [n|] eqn:Hn; cbn; [|done]. intros [= <-].
  exists (Z.to_nat n). split; [done|]. rewrite length_drop.
  assert (0 < n) by (by apply (parse_progress_pos bytes n)).
  assert (length bytes <> 0)%nat by (by destruct bytes). lia.
Qed.

Lemma decode_loop_total fuel epoch s bytes :
  d_bytes s = Some bytes -> Forall is_u8 bytes -> (length bytes <= fuel)%nat ->
  (forall k, malformed_stream (drop k bytes) = false) -> is_Some (decode_loop fuel epoch s).
Proof.
  revert s bytes. induction fuel as [|fuel IH]; intros s bytes Hs Hb Hf Hm.
  - destruct bytes; [|cbn in Hf; lia]. cbn [decode_loop]. by rewrite Hs.
  - cbn [decode_loop]. rewrite Hs. destruct bytes as [|b0 bs]; [done|]. set (bytes := b0 :: bs) in *.
    destruct (d_bytes (decode_step epoch bytes s)) as [rest|] eqn:Hr.
    + destruct (decode_step_shortens epoch bytes s rest Hb ltac:(done) (Hm 0%nat) Hr) as (k & -> & Hl).
      apply (IH _ (drop k bytes)); [done|by apply Forall_drop|lia|]. intros k'. rewrite drop_drop. apply Hm.
    + exists (decode_step epoch bytes s). destruct fuel; cbn [decode_loop]; by rewrite Hr.
Qed.

(** Decoding the frames of a packet terminates: if no suffix of the packet
    starts with a malformed STREAM header, as many iterations as there are bytes
    are enough, whatever the handlers do, and the result is success or
    PICOQUIC_ERROR_DETECTED. *)
Theorem decode_frames_terminates {cnx : Type} process_frame received_segment note_ack_needed epoch bytes (c : cnx) :
  Forall is_u8 bytes -> (forall k, malformed_stream (drop k bytes) = false) ->
  exists ret c', (ret = 0 \/ ret = PICOQUIC_ERROR_DETECTED) /\
    picoquic_decode_frames process_frame received_segment note_ack_needed (length bytes) epoch bytes c = Some (ret, c').
Proof.
  intros Hb Hm.
  destruct (decode_loop_total (length bytes) epoch (DecodeState (Some bytes) false [] []) bytes) as [s Hs]; try done.
  unfold picoquic_decode_frames. rewrite Hs. cbn [mbind option_bind].
  destruct (d_bytes s); [|by eexists _, _; split; [by right|]].
  destruct (process_queue _ _ _) as [[|] c2]; eexists _, _; (split; [|done]); auto.
Qed.

Lemma decode_frames_terminates_witness :
  exists ret c', (ret = 0 \/ ret = PICOQUIC_ERROR_DETECTED) /\
    picoquic_decode_frames (fun _ _ c => (0, c)) id S (length [0x01; 0x10; 0x05]) 3 [0x01; 0x10; 0x05] 0%nat = Some (ret, c').
Proof.
  apply (decode_frames_terminates (fun _ _ c => (0, c)) id S 3 [0x01; 0x10; 0x05] 0%nat); [by repeat constructor|].
  intros [|[|[|k]]]; [reflexivity..|]. cbn. by destruct k.
Defined.

(** A packet with a malformed STREAM frame makes the loop run for ever: the
    parser rejects the frame and leaves the pointer where it is, so no number of
    iterations is enough, whatever the handlers.  A packet of the single byte
    0x0a is such a packet. *)
Theorem decode_frames_diverges {cnx : Type} process_frame received_segment note_ack_needed fuel epoch bytes (c : cnx) :
  bytes <> [] -> allowed_in_epoch epoch (peek_frame_type bytes) = true -> malformed_stream bytes = true ->
  picoquic_decode_frames process_frame received_segment note_ack_needed fuel epoch bytes c = None.
Proof.
  intros Hne Ha Hm. unfold picoquic_decode_frames.
  assert (H : forall s, d_bytes s = Some bytes -> decode_loop fuel epoch s = None); [|by rewrite H].
  induction fuel as [|fuel IH]; intros s Hs; cbn [decode_loop]; rewrite Hs; destruct bytes as [|b0 bs]; try done.
  apply IH. unfold decode_step. rewrite Ha. cbn [negb]. apply andb_true_iff in Hm as [Hst Hr].
  rewrite (parse_frame_stream _ Hst). unfold parse_stream_frame. rewrite Hr. done.
Qed.

Lemma decode_frames_diverges_witness :
  picoquic_decode_frames (fun _ _ c => (0, c)) id S 100 3 [0x0a] 0%nat = None.
Proof. apply (decode_frames_diverges _ _ _ 100 3 [0x0a] 0%nat); [done|reflexivity|reflexivity]. Defined.

(** ** What is written is read back *)

(** A writer succeeded: the number of bytes it reported, the bytes, and the frame
    they stand for. *)
Inductive written : Z -> list Z -> frame -> Prop :=
| written_connection_close local_error offending_frame_type bytes_max n bs :
    0 <= local_error < 2 ^ 62 -> 0 <= offending_frame_type < 2 ^ 62 ->
    picoquic_prepare_connection_close_frame local_error offending_frame_type bytes_max = (0, n, bs) ->
    written n bs (connection_close_frame local_error offending_frame_type 0 [])
| written_application_close application_error bytes_max n bs :
    0 <= application_error < 2 ^ 62 ->
    picoquic_prepare_application_close_frame application_error bytes_max = (0, n, bs) ->
    written n bs (application_close_frame application_error 0 [])
| written_max_data maxdata_local increase bytes_max n bs maxdata_local' :
    0 <= maxdata_local + increase < 2 ^ 62 ->
    prepare_max_data_frame maxdata_local increase bytes_max = (0, n, bs, maxdata_local') ->
    written n bs (max_data_frame maxdata_local')
| written_max_stream_data stream_id maxdata_local new_max_data bytes_max n bs maxdata_local' :
    0 <= stream_id < 2 ^ 62 -> 0 <= new_max_data < 2 ^ 62 ->
    picoquic_prepare_max_stream_data_frame stream_id maxdata_local new_max_data bytes_max = (0, n, bs, maxdata_local') ->
    written n bs (max_stream_data_frame stream_id maxdata_local')
| written_path_challenge challenge bytes_max n bs :
    is_u64 challenge -> prepare_path_challenge_frame challenge bytes_max = (0, n, bs) ->
    written n bs (path_challenge_frame (picoformat_64 challenge))
| written_plugin_validate pid_id pid bytes_max n bs :
    0 <= pid_id < 2 ^ 62 -> Z.of_nat (length pid) <= 250 ->
    write_plugin_validate_frame pid_id (Z.of_nat (length pid)) pid bytes_max = (0, n, bs) ->
    written n bs (plugin_validate_frame pid_id (Z.of_nat (length pid)) pid).

Lemma length_nonzero {A} (l : list A) : Z.of_nat (length l) <> 0 -> l <> [].
Proof. intros H ->. done. Qed.

(** Rewrites a chain of decoders applied to the concatenation of encodings. *)
#[local] Ltac decode_written :=
  repeat (rewrite varint_decode_encode by (lia || by apply length_nonzero); cbn [mbind option_bind]).

Lemma peek_written t l : 0 <= t < 64 -> parse_frame (peek_frame_type (t :: l)) = parse_frame t.
Proof. intros Ht. by rewrite peek_byte. Qed.

(** The result of a parser that ends at [rest]. *)
Definition reads (r : parse_result) (n : Z) (f : frame) : Prop :=
  pr_consumed r = Some n /\ pr_frame r = Some f /\ pr_error r = None.

Lemma parsed_reads bytes rest f a i n :
  n = Z.of_nat (length bytes) - Z.of_nat (length rest) -> (length rest <= length bytes)%nat -> reads (parsed bytes rest f a i) n f.
Proof. intros -> Hl. unfold reads, parsed. cbn. split; [f_equal; lia|done]. Qed.

(** Solves the lengths left by [parsed_reads]. *)
#[local] Ltac written_length := cbn [length]; rewrite ?length_app, ?length_drop; cbn [length]; lia.

Lemma connection_close_roundtrip le oft m n bs rest :
  0 <= le < 2 ^ 62 -> 0 <= oft < 2 ^ 62 -> picoquic_prepare_connection_close_frame le oft m = (0, n, bs) ->
  reads (parse_frame (peek_frame_type (bs ++ rest)) (bs ++ rest)) n (connection_close_frame le oft 0 []).
Proof.
  intros H1 H2. unfold picoquic_prepare_connection_close_frame. destruct (4 <? m); [|done].
  destruct (orb _ _) eqn:Hor; [done|]. reflect_cmp. intros [= <- <-]. rewrite <- app_comm_cons, peek_written by done.
  change (parse_frame picoquic_frame_type_connection_close) with parse_connection_close_frame.
  unfold parse_connection_close_frame. rewrite after_type_byte, <- !app_assoc by done. decode_written.
  destruct (Z.leb_spec 0 (Z.of_nat (length rest))); [|lia]. apply parsed_reads; written_length.
Qed.

Lemma application_close_roundtrip ae m n bs rest :
  0 <= ae < 2 ^ 62 -> picoquic_prepare_application_close_frame ae m = (0, n, bs) ->
  reads (parse_frame (peek_frame_type (bs ++ rest)) (bs ++ rest)) n (application_close_frame ae 0 []).
Proof.
  intros H1. unfold picoquic_prepare_application_close_frame. destruct (2 <? m); [|done].
  destruct (orb _ _) eqn:Hor; [done|]. reflect_cmp. intros [= <- <-]. rewrite <- app_comm_cons, peek_written by done.
  change (parse_frame picoquic_frame_type_application_close) with parse_application_close_frame.
  unfold parse_application_close_frame. rewrite after_type_byte, <- !app_assoc by done. decode_written.
  destruct (Z.leb_spec 0 (Z.of_nat (length rest))); [|lia]. apply parsed_reads; written_length.
Qed.

Lemma max_data_roundtrip ml inc m n bs ml' rest :
  0 <= ml + inc < 2 ^ 62 -> prepare_max_data_frame ml inc m = (0, n, bs, ml') ->
  reads (parse_frame (peek_frame_type (bs ++ rest)) (bs ++ rest)) n (max_data_frame ml').
Proof.
  intros H1. unfold prepare_max_data_frame. destruct (m <? 1); [done|]. rewrite u64_small by lia.
  destruct (Z.eqb_spec (Z.of_nat (length (picoquic_varint_encode (m - 1) (ml + inc)))) 0); [done|].
  intros [= <- <- <-]. rewrite <- app_comm_cons, peek_written by done.
  change (parse_frame picoquic_frame_type_max_data) with parse_max_data_frame.
  unfold parse_max_data_frame. rewrite after_type_byte by done. decode_written. apply parsed_reads; written_length.
Qed.

Lemma max_stream_data_roundtrip sid ml nm m n bs ml' rest :
  0 <= sid < 2 ^ 62 -> 0 <= nm < 2 ^ 62 -> picoquic_prepare_max_stream_data_frame sid ml nm m = (0, n, bs, ml') ->
  reads (parse_frame (peek_frame_type (bs ++ rest)) (bs ++ rest)) n (max_stream_data_frame sid ml').
Proof.
  intros H1 H2. unfold picoquic_prepare_max_stream_data_frame. destruct (orb _ _) eqn:Hor; [done|]. reflect_cmp.
  intros [= <- <- <-]. rewrite <- app_comm_cons, peek_written by done.
  change (parse_frame picoquic_frame_type_max_stream_data) with parse_max_stream_data_frame.
  unfold parse_max_stream_data_frame. rewrite after_type_byte, <- !app_assoc by done. decode_written.
  apply parsed_reads; written_length.
Qed.

Lemma path_challenge_roundtrip ch m n bs rest :
  prepare_path_challenge_frame ch m = (0, n, bs) ->
  reads (parse_frame (peek_frame_type (bs ++ rest)) (bs ++ rest)) n (path_challenge_frame (picoformat_64 ch)).
Proof.
  unfold prepare_path_challenge_frame. destruct (m <? 1 + 8); [done|]. intros [= <- <-].
  rewrite <- app_comm_cons, peek_written by done.
  change (parse_frame picoquic_frame_type_path_challenge) with parse_path_challenge_frame.
  unfold parse_path_challenge_frame. rewrite after_type_byte by done.
  destruct (Z.leb_spec (Z.of_nat (length (picoquic_frame_type_path_challenge :: picoformat_64 ch ++ rest)))
    PICOQUIC_CHALLENGE_LENGTH) as [Hl|]; [|done].
  unfold PICOQUIC_CHALLENGE_LENGTH in Hl. cbn [length] in Hl. rewrite length_app in Hl.
  change (length (picoformat_64 ch)) with 8%nat in Hl. lia.
Qed.

Lemma plugin_validate_roundtrip pid_id pid m n bs rest :
  0 <= pid_id < 2 ^ 62 -> Z.of_nat (length pid) <= 250 ->
  write_plugin_validate_frame pid_id (Z.of_nat (length pid)) pid m = (0, n, bs) ->
  reads (parse_frame (peek_frame_type (bs ++ rest)) (bs ++ rest)) n (plugin_validate_frame pid_id (Z.of_nat (length pid)) pid).
Proof.
  intros H1 H2. unfold write_plugin_validate_frame. destruct (orb _ _) eqn:Hor; [done|]. reflect_cmp.
  intros [= <- <-]. rewrite <- app_comm_cons, peek_written by done.
  change (parse_frame picoquic_frame_type_plugin_validate) with parse_plugin_validate_frame.
  unfold parse_plugin_validate_frame. rewrite after_type_byte, <- !app_assoc by done. decode_written.
  destruct (Z.ltb_spec 250 (Z.of_nat (length pid))); [lia|]. rewrite Nat2Z.id, take_ge by done. rewrite take_app_length.
  split; [|done]. cbn [pr_consumed]. f_equal. written_length.
Qed.

(** The parsers invert the writers: for CONNECTION_CLOSE, APPLICATION_CLOSE,
    MAX_DATA, MAX_STREAM_DATA, PATH_CHALLENGE and PLUGIN_VALIDATE frames, when the
    writer succeeds, the dispatcher applied to the bytes it wrote, whatever follows
    them, gives the frame back and consumes exactly the length the writer reported. *)
Theorem writers_roundtrip n bs f rest :
  written n bs f -> reads (parse_frame (peek_frame_type (bs ++ rest)) (bs ++ rest)) n f.
Proof.
  intros []; eauto using connection_close_roundtrip, application_close_roundtrip, max_data_roundtrip,
    max_stream_data_roundtrip, path_challenge_roundtrip, plugin_validate_roundtrip.
Qed.

Lemma writers_roundtrip_witness :
  let '(_, n, bs, _) := prepare_max_data_frame 1000 5000 20 in
  reads (parse_frame (peek_frame_type (bs ++ [0x01])) (bs ++ [0x01])) n (max_data_frame 6000).
Proof.
  apply (writers_roundtrip 3 [0x10; 0x57; 0x70] (max_data_frame 6000) [0x01]).
  apply (written_max_data 1000 5000 20 3 _ 6000); [lia|reflexivity].
Defined.

(** STOP_SENDING does not survive the wire: the writer stores the error code as
    a 16-bit integer, the parser reads a variable-length one.  For every error code
    below 2^14 the receiver sees the code's upper byte and takes the lower byte as
    the start of the next frame. *)
Theorem stop_sending_misread stream_id local_stop_error bytes_max rest :
  0 <= stream_id < 2 ^ 62 -> 0 <= local_stop_error < 2 ^ 14 -> 11 <= bytes_max ->
  let '(ret, n, bs, _) := picoquic_prepare_stop_sending_frame stream_id local_stop_error true false false false bytes_max in
  ret = 0 /\ n = Z.of_nat (length bs) /\
  reads (parse_frame (peek_frame_type (bs ++ rest)) (bs ++ rest)) (n - 1)
    (stop_sending_frame stream_id (local_stop_error / 256)) /\
  drop (Z.to_nat (n - 1)) (bs ++ rest) = local_stop_error mod 256 :: rest.
Proof.
  intros H1 H2 Hm. unfold picoquic_prepare_stop_sending_frame. destruct (Z.ltb_spec bytes_max (1 + 4 + 2)); [lia|].
  cbn [negb orb]. rewrite (u16_small local_stop_error) by lia. set (e1 := picoquic_varint_encode _ _).
  assert (He : e1 <> []) by (apply encode_nonempty; [unfold picoquic_varint_len; case_cmp; lia|left; lia]).
  assert (Hhi : u8 (Z.shiftr local_stop_error 8) = local_stop_error / 256).
  { rewrite Z.shiftr_div_pow2 by lia. apply u8_small. split; [apply Z.div_pos; lia|]. apply Z.div_lt_upper_bound; lia. }
  split; [done|]. split; [cbn [length]; rewrite length_app; cbn [length picoformat_16]; lia|]. split.
  - rewrite <- app_comm_cons, peek_written by done.
    change (parse_frame picoquic_frame_type_stop_sending) with parse_stop_sending_frame.
    unfold parse_stop_sending_frame. rewrite after_type_byte, <- !app_assoc by done. unfold e1 at 2.
    rewrite varint_decode_encode by done. cbn [mbind option_bind picoformat_16 app]. rewrite Hhi.
    assert (Hv : 0 <= local_stop_error / 256 < 64) by (split; [apply Z.div_pos; lia|apply Z.div_lt_upper_bound; lia]).
    destruct (prefix_byte 0 _ ltac:(lia) Hv) as (_ & Hp & Hl). rewrite Z.mul_0_r, Z.add_0_l in Hp, Hl.
    unfold picoquic_frames_varint_decode. rewrite Hp, Hl.
    destruct (Z.leb_spec (2 ^ 0) (Z.of_nat (length (local_stop_error / 256 :: u8 local_stop_error :: rest)))) as [|Hbad];
      [|cbn [length] in Hbad; lia].
    cbn [mbind option_bind varint_decode_loop]. apply parsed_reads; cbn; written_length.
  - replace (Z.to_nat (1 + Z.of_nat (length e1) + 2 - 1)) with (S (length e1 + 1)) by lia. rewrite <- app_comm_cons.
    cbn [drop picoformat_16]. rewrite <- app_assoc, drop_app_add. done.
Qed.

Lemma stop_sending_misread_witness :
  let '(_, n, bs, _) := picoquic_prepare_stop_sending_frame 4 5 true false false false 100 in
  reads (parse_frame (peek_frame_type (bs ++ [0])) (bs ++ [0])) (n - 1) (stop_sending_frame 4 0).
Proof. apply (stop_sending_misread 4 5 100 [0]); lia. Defined.

End Frames.
