(* ===== verification/AckFrame.v ===== *)
(** * ACK frames: from the received set to the wire and back

    picoquic/frames.c: picoquic_prepare_ack_frame_maybe_ecn, the walk over the
    ranges of process_ack_frame_maybe_ecn, picoquic_parse_ack_header,
    picoquic_process_ack_of_ack_frame.

    The output buffer is a list that is written in place ([write_at]).  The
    parser is [Frames.parse_ack_frame_maybe_ecn], the set of received numbers
    [Sacks.sack_chain]. *)
From stdpp Require Import base tactics list numbers option.
From Stdlib Require Import ZArith Lia Bool.
From S2P Require Import Prelude IntFormat Sacks Frames.
Import IntFormat Sacks Frames.
#[local] Open Scope Z_scope.

Module AckFrame.

(** [memcpy(buf + i, bs, |bs|)] *)
Definition write_at (buf : list Z) (i : Z) (bs : list Z) : list Z :=
  take (Z.to_nat i) buf ++ bs ++ drop (Z.to_nat i + length bs) buf.

(** The part of [picoquic_packet_context_t] that concerns acknowledgements. *)
Record ack_context := AckContext {
  a_sacks : sack_chain; a_time_stamp_largest_received : Z;
  a_highest_ack_sent : Z; a_highest_ack_time : Z; a_ack_needed : bool
}.

(** [picoquic_varint_encode(bytes + byte_index, bytes_max - byte_index, v)]: the
    buffer and the length written; [bytes_max - byte_index] is a [size_t]. *)
Definition put_varint (bytes : list Z) (byte_index v : Z) : list Z * Z :=
  let e := picoquic_varint_encode (u64 (Z.of_nat (length bytes) - byte_index)) v in
  (write_at bytes byte_index e, Z.of_nat (length e)).

(** The same under [if (byte_index < bytes_max)]. *)
Definition put_varint_if_room (bytes : list Z) (byte_index v : Z) : list Z * Z :=
  if byte_index <? Z.of_nat (length bytes) then put_varint bytes byte_index v else (bytes, 0).

(** The loop that encodes the ack blocks: buffer, [byte_index], [num_block]. *)
Fixpoint encode_blocks (next : list sack_item) (bytes : list Z) (byte_index num_block lowest_acknowledged : Z) :
    list Z * Z * Z :=
  match next with
  | [] => (bytes, byte_index, num_block)
  | next_sack :: next' =>
    if num_block <? MAX_ACK_BLOCKS then
      let ack_gap := u64 (lowest_acknowledged - end_of_sack_range next_sack - 2) in
      let '(bytes, l_gap) := put_varint_if_room bytes byte_index ack_gap in
      let ack_range := u64 (end_of_sack_range next_sack - start_of_sack_range next_sack) in
      let '(bytes, l_range) := put_varint_if_room bytes (byte_index + l_gap) ack_range in
      if (l_gap =? 0) || (l_range =? 0) then (bytes, byte_index, num_block)
      else encode_blocks next' bytes (byte_index + (l_gap + l_range)) (num_block + 1) (start_of_sack_range next_sack)
    else (bytes, byte_index, num_block)
  end.

(** The three ECN counters; the second length added is that of the first counter. *)
Definition encode_ecn (bytes : list Z) (byte_index ect0 ect1 ce : Z) : list Z * Z * bool :=
  let '(bytes, l_ect0) := put_varint bytes byte_index ect0 in
  let byte_index := byte_index + l_ect0 in
  let '(bytes, l_ect1) := put_varint bytes byte_index ect1 in
  let byte_index := byte_index + l_ect0 in
  let '(bytes, l_ce) := put_varint bytes byte_index ce in
  let byte_index := byte_index + l_ce in
  (bytes, byte_index, (l_ect0 =? 0) || (l_ect1 =? 0) || (l_ce =? 0)).

(** The delay since the largest number arrived, in the units of the exponent. *)
Definition ack_delay_of (c : ack_context) (current_time ack_delay_exponent : Z) : Z :=
  if a_time_stamp_largest_received c <? current_time
  then Z.shiftr (current_time - a_time_stamp_largest_received c) ack_delay_exponent else 0.

(** Returns [ret], [*consumed], the buffer and the context. *)
Definition picoquic_prepare_ack_frame_maybe_ecn (c : ack_context) (current_time ack_delay_exponent : Z)
    (is_ecn : bool) (ect0 ect1 ce : Z) (bytes : list Z) : Z * Z * list Z * ack_context :=
  let bytes_max := Z.of_nat (length bytes) in
  let first := first_sack_item (a_sacks c) in
  let acked := AckContext (a_sacks c) (a_time_stamp_largest_received c) (a_highest_ack_sent c) (a_highest_ack_time c) false in
  if start_of_sack_range first =? UINT64_MAX then (0, 0, bytes, acked)
  else if bytes_max <? 14 then (PICOQUIC_ERROR_FRAME_BUFFER_TOO_SMALL, 0, bytes, c)
  else
    let bytes := write_at bytes 0 [if is_ecn then picoquic_frame_type_ack_ecn else picoquic_frame_type_ack] in
    let byte_index := 1 in
    let '(bytes, l_largest) := put_varint_if_room bytes byte_index (end_of_sack_range first) in
    let byte_index := byte_index + l_largest in
    let '(bytes, l_delay) := put_varint_if_room bytes byte_index (ack_delay_of c current_time ack_delay_exponent) in
    let byte_index := byte_index + l_delay in
    let num_block_index := byte_index in
    let byte_index := byte_index + 2 in
    let '(bytes, l_first_range) :=
      put_varint_if_room bytes byte_index (u64 (end_of_sack_range first - start_of_sack_range first)) in
    let byte_index := byte_index + l_first_range in
    if (l_delay =? 0) || (l_largest =? 0) || (l_first_range =? 0) || (bytes_max <? byte_index)
    then (PICOQUIC_ERROR_FRAME_BUFFER_TOO_SMALL, 0, bytes, c)
    else
      let '(bytes, byte_index, num_block) :=
        encode_blocks (next_sacks (a_sacks c)) bytes byte_index 0 (start_of_sack_range first) in
      let '(bytes, byte_index, ecn_failed) :=
        if is_ecn then encode_ecn bytes byte_index ect0 ect1 ce else (bytes, byte_index, false) in
      let bytes := write_at bytes num_block_index [u8 (Z.lor 0x40 (Z.shiftr num_block 8)); u8 num_block] in
      let ret := if ecn_failed then PICOQUIC_ERROR_FRAME_BUFFER_TOO_SMALL else 0 in
      (ret, byte_index, bytes,
       AckContext (a_sacks c) (a_time_stamp_largest_received c) (end_of_sack_range first) current_time
         (if ret =? 0 then false else a_ack_needed c)).

(** ** The ranges a frame stands for *)

(** The walk of [process_ack_frame_maybe_ecn] over the ranges: [None] when a range or
    a gap reaches below zero, else the ranges handed to [picoquic_process_ack_range],
    as (highest, number of packets).  All sums are of 64-bit integers. *)
Fixpoint walk_blocks (blocks : list (Z * Z)) (largest range : Z) : option (list (Z * Z)) :=
  match blocks with
  | [] => Some []
  | (gap, additional_ack_block) :: blocks' =>
    let block_to_block := u64 (u64 (gap + 1) + range) in
    if largest <? block_to_block then None
    else
      let largest := largest - block_to_block in
      let range := u64 (additional_ack_block + 1) in
      if u64 (largest + 1) <? range then None
      else rs ← walk_blocks blocks' largest range; Some ((largest, range) :: rs)
  end.

Definition walk_ranges (largest_acknowledged first_ack_block : Z) (blocks : list (Z * Z)) : option (list (Z * Z)) :=
  let range := u64 (first_ack_block + 1) in
  if u64 (largest_acknowledged + 1) <? range then None
  else rs ← walk_blocks blocks largest_acknowledged range; Some ((largest_acknowledged, range) :: rs).

(** ** Acknowledgement of an ACK frame *)

Record ack_header := AckHeader { h_ret : Z; h_num_block : Z; h_largest : Z; h_ack_delay : Z; h_consumed : Z }.

(** The counters of an ACK_ECN frame are read before the number of blocks.  The source
    has no guard here: with no byte left the decoder answers length 0, as [varint_at]. *)
Definition skip_ecn (bytes : list Z) (byte_index : Z) : Z :=
  let one i := let '(l_ecnx, _) := varint_at bytes i in if l_ecnx =? 0 then Z.of_nat (length bytes) else i + l_ecnx in
  one (one (one byte_index)).

Definition picoquic_parse_ack_header (bytes : list Z) (is_ecn : bool) (ack_delay_exponent : Z) : ack_header :=
  let bytes_max := Z.of_nat (length bytes) in
  let '(l_largest, largest) := varint_at bytes 1 in
  let byte_index := 1 + l_largest in
  let '(l_delay, ack_delay) := varint_at bytes byte_index in
  let ack_delay := u64 (Z.shiftl ack_delay ack_delay_exponent) in
  let byte_index := byte_index + l_delay in
  let byte_index := if is_ecn then skip_ecn bytes byte_index else byte_index in
  let '(l_blocks, num_block) := varint_at bytes byte_index in
  let byte_index := byte_index + l_blocks in
  if (l_largest =? 0) || (l_delay =? 0) || (l_blocks =? 0) || (bytes_max <? byte_index)
  then AckHeader (-1) num_block largest ack_delay bytes_max
  else AckHeader 0 num_block largest ack_delay byte_index.

(** The loop over the ranges, [num_block] more after this one. *)
Fixpoint ack_of_ack_ranges (num_block : nat) (bytes : list Z) (byte_index largest : Z) (c : sack_chain) :
    Z * Z * sack_chain :=
  let bytes_max := Z.of_nat (length bytes) in
  if bytes_max <=? byte_index then (-1, byte_index, c)
  else
    let '(l_range, range) := varint_at bytes byte_index in
    if l_range =? 0 then (-1, bytes_max, c)
    else
      let byte_index := byte_index + l_range in
      let range := u64 (range + 1) in
      if u64 (largest + 1) <? range then (-1, byte_index, c)
      else
        let c := if 0 <? range then process_ack_of_ack_range c (u64 (largest + 1 - range)) largest else c in
        match num_block with
        | O => (0, byte_index, c)
        | S num_block' =>
          if bytes_max <=? byte_index then (-1, byte_index, c)
          else
            let '(l_gap, gap) := varint_at bytes byte_index in
            if l_gap =? 0 then (-1, bytes_max, c)
            else
              let byte_index := byte_index + l_gap in
              let block_to_block := u64 (u64 (gap + 1) + range) in
              if largest <? block_to_block then (-1, byte_index, c)
              else ack_of_ack_ranges num_block' bytes byte_index (largest - block_to_block) c
        end.

(** Returns [ret], [*consumed] and the chain. *)
Definition picoquic_process_ack_of_ack_frame (c : sack_chain) (bytes : list Z) (is_ecn : bool) : Z * Z * sack_chain :=
  let h := picoquic_parse_ack_header bytes is_ecn 0 in
  if h_ret h =? 0 then ack_of_ack_ranges (Z.to_nat (h_num_block h)) bytes (h_consumed h) (h_largest h) c
  else (h_ret h, h_consumed h, c).

(** ** What the blocks of a chain are on the wire *)

(** The gaps and lengths of the ranges [next] below [lowest_acknowledged]. *)
Fixpoint ack_blocks (lowest_acknowledged : Z) (next : list sack_item) : list (Z * Z) :=
  match next with
  | [] => []
  | s :: next' =>
    (lowest_acknowledged - end_of_sack_range s - 2, end_of_sack_range s - start_of_sack_range s)
      :: ack_blocks (start_of_sack_range s) next'
  end.

(** A range as [picoquic_process_ack_range] receives it. *)
Definition range_of (s : sack_item) : Z * Z :=
  (end_of_sack_range s, end_of_sack_range s - start_of_sack_range s + 1).

Definition prune (c : sack_chain) (s : sack_item) : sack_chain :=
  process_ack_of_ack_range c (start_of_sack_range s) (end_of_sack_range s).

(** [bs] is read as the value [v], whatever follows it. *)
Definition encodes (v : Z) (bs : list Z) : Prop :=
  forall rest, picoquic_frames_varint_decode (bs ++ rest) = Some (v, rest).

Inductive wire_blocks : list (Z * Z) -> list Z -> Prop :=
| wire_nil : wire_blocks [] []
| wire_cons gap add bs e_gap e_add blocks :
    encodes gap e_gap -> encodes add e_add -> wire_blocks blocks bs ->
    wire_blocks ((gap, add) :: blocks) (e_gap ++ e_add ++ bs).

Lemma encode_encodes m v : 0 <= v < 2 ^ 62 -> picoquic_varint_encode m v <> [] -> encodes v (picoquic_varint_encode m v).
Proof. intros Hv Hne rest. by apply varint_decode_encode. Qed.

Lemma encodes_nonempty v bs : encodes v bs -> (0 < length bs)%nat.
Proof. intros H. specialize (H []). destruct bs; [done|cbn; lia]. Qed.

Lemma parse_wire_blocks blocks bs rest :
  wire_blocks blocks bs -> parse_ack_blocks (length blocks) (bs ++ rest) = Some (blocks, rest).
Proof.
  intros H. revert rest. induction H as [|gap add bs e1 e2 blocks H1 H2 _ IH]; intros rest; [done|].
  cbn [parse_ack_blocks length]. rewrite <- !app_assoc, H1. cbn [mbind option_bind].
  rewrite H2. cbn [mbind option_bind]. by rewrite IH.
Qed.

(** The two decoders of the source agree. *)
Lemma decoders_agree b v rest :
  picoquic_frames_varint_decode b = Some (v, rest) ->
  picoquic_varint_decode b (Z.of_nat (length b)) = Some (Z.of_nat (length b) - Z.of_nat (length rest), v).
Proof.
  unfold picoquic_frames_varint_decode, picoquic_varint_decode. destruct b as [|b0 bs]; [done|].
  destruct (Z.leb_spec (varint_prefix_length b0) (Z.of_nat (length (b0 :: bs)))); [|done].
  destruct (Z.ltb_spec (Z.of_nat (length (b0 :: bs))) (varint_prefix_length b0)); [lia|].
  destruct (varint_decode_loop _ _ _); [|done]. cbn [mbind option_bind]. intros [= <- <-].
  assert (0 <= varint_prefix_length b0).
  { apply Z.shiftl_nonneg. lia. }
  rewrite length_drop. do 2 f_equal. lia.
Qed.

Lemma varint_at_encodes v pre bs rest i :
  encodes v bs -> i = Z.of_nat (length pre) -> varint_at (pre ++ bs ++ rest) i = (Z.of_nat (length bs), v).
Proof.
  intros He ->. pose proof (encodes_nonempty _ _ He). unfold varint_at.
  rewrite Nat2Z.id, drop_app_length, !length_app.
  destruct (Z.ltb_spec (Z.of_nat (length pre)) (Z.of_nat (length pre + (length bs + length rest)))); [|lia].
  replace (Z.of_nat (length pre + (length bs + length rest)) - Z.of_nat (length pre))
    with (Z.of_nat (length (bs ++ rest))) by (rewrite length_app; lia).
  rewrite (decoders_agree _ v rest) by apply He. cbn. f_equal. rewrite length_app. lia.
Qed.

(** ** The walk over the ranges of an encoded chain *)

Lemma walk_ack_blocks next largest range low :
  largest < 2 ^ 62 -> 0 < range -> low = largest - range + 1 -> 0 <= low -> descending low next ->
  walk_blocks (ack_blocks low next) largest range = Some (range_of <$> next).
Proof.
  revert largest range low. induction next as [|s next IH]; intros largest range low Hl Hr Hlow Hlow0 Hd; [done|].
  destruct Hd as ([[H0 H1] H2] & H3 & Hd). cbn [ack_blocks walk_blocks fmap list_fmap].
  rewrite (u64_small (_ + 1)), u64_small by lia.
  replace (low - end_of_sack_range s - 2 + 1 + range) with (largest - end_of_sack_range s) by lia.
  destruct (Z.ltb_spec largest (largest - end_of_sack_range s)); [lia|].
  replace (largest - (largest - end_of_sack_range s)) with (end_of_sack_range s) by lia.
  rewrite (u64_small (_ - _ + 1)), u64_small by lia.
  destruct (Z.ltb_spec (end_of_sack_range s + 1) (end_of_sack_range s - start_of_sack_range s + 1)); [lia|].
  rewrite (IH _ _ (start_of_sack_range s)) by (done || lia). done.
Qed.

Lemma walk_items s next :
  item_ok s -> end_of_sack_range s < 2 ^ 62 -> descending (start_of_sack_range s) next ->
  walk_ranges (end_of_sack_range s) (end_of_sack_range s - start_of_sack_range s)
    (ack_blocks (start_of_sack_range s) next) = Some (range_of <$> s :: next).
Proof.
  intros [[H0 H1] H2] H3 Hd. unfold walk_ranges. rewrite (u64_small (_ - _ + 1)), u64_small by lia.
  destruct (Z.ltb_spec (end_of_sack_range s + 1) (end_of_sack_range s - start_of_sack_range s + 1)); [lia|].
  by rewrite (walk_ack_blocks _ _ _ (start_of_sack_range s)) by (done || lia).
Qed.

(** ** Acknowledgement of the encoded ranges *)

Lemma ack_of_ack_items next s pre e bs rest c i :
  i = Z.of_nat (length pre) ->
  item_ok s -> end_of_sack_range s < 2 ^ 62 -> descending (start_of_sack_range s) next ->
  encodes (end_of_sack_range s - start_of_sack_range s) e ->
  wire_blocks (ack_blocks (start_of_sack_range s) next) bs ->
  ack_of_ack_ranges (length next) (pre ++ e ++ bs ++ rest) i (end_of_sack_range s) c =
  (0, i + Z.of_nat (length (e ++ bs)), foldl prune c (s :: next)).
Proof.
  revert s pre e bs c i. induction next as [|s' next IH]; intros s pre e bs c i Hi Hs H62 Hd He Hw;
    pose proof Hs as [[H0 H1] H2]; pose proof (encodes_nonempty _ _ He);
    cbn [ack_of_ack_ranges length]; rewrite (varint_at_encodes _ _ _ _ _ He Hi);
    (destruct (Z.leb_spec (Z.of_nat (length (pre ++ e ++ bs ++ rest))) i) as [Hbad|];
      [rewrite !length_app in Hbad; lia|]);
    (destruct (Z.eqb_spec (Z.of_nat (length e)) 0); [lia|]);
    rewrite !u64_small by lia;
    (destruct (Z.ltb_spec (end_of_sack_range s + 1) (end_of_sack_range s - start_of_sack_range s + 1)); [lia|]);
    (destruct (Z.ltb_spec 0 (end_of_sack_range s - start_of_sack_range s + 1)); [|lia]);
    replace (end_of_sack_range s + 1 - (end_of_sack_range s - start_of_sack_range s + 1))
      with (start_of_sack_range s) by lia.
  - inversion Hw; subst bs. rewrite app_nil_r. done.
  - inversion Hw as [|gap add bs' e1 e2 blocks Hg Ha Hw']; subst gap add blocks bs.
    destruct Hd as (Hs' & Hgap & Hd). pose proof Hs' as [[? ?] ?]. pose proof (encodes_nonempty _ _ Hg).
    assert (Heq : pre ++ e ++ (e1 ++ e2 ++ bs') ++ rest = ((pre ++ e) ++ e1) ++ e2 ++ bs' ++ rest) by (by rewrite <- !app_assoc).
    assert (Heq' : pre ++ e ++ (e1 ++ e2 ++ bs') ++ rest = (pre ++ e) ++ e1 ++ e2 ++ bs' ++ rest) by (by rewrite <- !app_assoc).
    destruct (Z.leb_spec (Z.of_nat (length (pre ++ e ++ (e1 ++ e2 ++ bs') ++ rest))) (i + Z.of_nat (length e))) as [Hbad|].
    { rewrite !length_app in Hbad. lia. }
    rewrite Heq' at 1. rewrite (varint_at_encodes _ _ _ _ _ Hg) by (rewrite length_app; lia).
    destruct (Z.eqb_spec (Z.of_nat (length e1)) 0); [lia|].
    rewrite (u64_small (_ + 1)), u64_small by lia.
    replace (start_of_sack_range s - end_of_sack_range s' - 2 + 1 + (end_of_sack_range s - start_of_sack_range s + 1))
      with (end_of_sack_range s - end_of_sack_range s') by lia.
    destruct (Z.ltb_spec (end_of_sack_range s) (end_of_sack_range s - end_of_sack_range s')); [lia|].
    replace (end_of_sack_range s - (end_of_sack_range s - end_of_sack_range s')) with (end_of_sack_range s') by lia.
    rewrite Heq, (IH s') by (done || rewrite ?length_app; lia).
    f_equal. f_equal. rewrite !length_app. lia.
Qed.

(** ** The writer *)

Lemma write_at_app pre tail bs i :
  i = Z.of_nat (length pre) -> (length bs <= length tail)%nat ->
  write_at (pre ++ tail) i bs = (pre ++ bs) ++ drop (length bs) tail.
Proof.
  intros -> Hl. unfold write_at. rewrite Nat2Z.id, take_app_length, drop_app_add. by rewrite <- app_assoc.
Qed.

Lemma encode_length m v : 0 <= m -> (length (picoquic_varint_encode m v) <= Z.to_nat (Z.min 8 m))%nat.
Proof. intros Hm. unfold picoquic_varint_encode. case_cmp; cbn [length]; lia. Qed.

(** One step of the writer: it appends an encoding, or nothing when there is no room. *)
Lemma put_varint_app pre tail v i :
  i = Z.of_nat (length pre) -> Z.of_nat (length (pre ++ tail)) < 2 ^ 64 -> 0 <= v < 2 ^ 62 ->
  exists e tail', put_varint_if_room (pre ++ tail) i v = ((pre ++ e) ++ tail', Z.of_nat (length e)) /\
    length tail = (length e + length tail')%nat /\ (length e <= 8)%nat /\
    ((e = [] /\ tail' = tail /\ Z.of_nat (length tail) < 8) \/ encodes v e).
Proof.
  intros -> Hl Hv. unfold put_varint_if_room, put_varint. rewrite length_app in *.
  destruct (Z.ltb_spec (Z.of_nat (length pre)) (Z.of_nat (length pre + length tail))) as [Hlt|Hge].
  2: { exists [], tail. rewrite app_nil_r. split_and!; [done|done|cbn; lia|]. left. split_and!; [done|done|lia]. }
  rewrite u64_small by lia. replace (Z.of_nat (length pre + length tail) - _) with (Z.of_nat (length tail)) by lia.
  set (e := picoquic_varint_encode _ _). exists e, (drop (length e) tail).
  pose proof (encode_length (Z.of_nat (length tail)) v ltac:(lia)) as He. fold e in He.
  rewrite write_at_app by (done || lia). split_and!; [done|rewrite length_drop; lia|lia|].
  destruct (decide (e = [])) as [Hnil|]; [left|right; by apply encode_encodes].
  split_and!; [done|by rewrite Hnil|]. destruct (Z.lt_ge_cases (Z.of_nat (length tail)) 8); [done|].
  exfalso. revert Hnil. apply encode_nonempty; [|lia]. unfold picoquic_varint_len. case_cmp; lia.
Qed.

(** The encoding loop writes a prefix of the ranges; it stops early only at
    MAX_ACK_BLOCKS or with fewer than 16 bytes left. *)
Lemma encode_blocks_wire next pre tail i num low :
  i = Z.of_nat (length pre) -> Z.of_nat (length (pre ++ tail)) < 2 ^ 64 -> low < 2 ^ 62 -> descending low next ->
  0 <= num ->
  exists k bs tail', encode_blocks next (pre ++ tail) i num low =
      ((pre ++ bs) ++ tail', i + Z.of_nat (length bs), num + Z.of_nat k) /\
    (k <= length next)%nat /\ num + Z.of_nat k <= Z.max num MAX_ACK_BLOCKS /\
    wire_blocks (ack_blocks low (take k next)) bs /\ length tail = (length bs + length tail')%nat /\
    (k = length next \/ MAX_ACK_BLOCKS <= num + Z.of_nat k \/ (length tail' < 16)%nat).
Proof.
  revert pre tail i num low. induction next as [|s next IH]; intros pre tail i num low Hi Hl Hlow Hd Hnum.
  { exists 0%nat, [], tail. rewrite app_nil_r. cbn. rewrite !Z.add_0_r.
    split_and!; [done|lia|lia|apply wire_nil|lia|by left]. }
  destruct Hd as ([[H0 H1] H2] & H3 & Hd). cbn [encode_blocks].
  destruct (Z.ltb_spec num MAX_ACK_BLOCKS) as [Hn|Hn].
  2: { exists 0%nat, [], tail. rewrite app_nil_r. cbn. rewrite !Z.add_0_r.
    split_and!; [done|lia|lia|apply wire_nil|lia|by right; left]. }
  rewrite !u64_small by lia.
  destruct (put_varint_app pre tail (low - end_of_sack_range s - 2) i Hi Hl ltac:(lia)) as (e1 & t1 & -> & Ht1 & Hs1 & He1).
  destruct (put_varint_app (pre ++ e1) t1 (end_of_sack_range s - start_of_sack_range s) (i + Z.of_nat (length e1)))
    as (e2 & t2 & -> & Ht2 & Hs2 & He2); [rewrite length_app; lia|rewrite !length_app in *; lia|lia|].
  destruct (orb _ _) eqn:Hor.
  - exists 0%nat, [], ((e1 ++ e2) ++ t2). rewrite app_nil_r. cbn. rewrite !length_app, <- !app_assoc, !Z.add_0_r.
    split_and!; [done|lia|lia|apply wire_nil|lia|].
    right. right. apply orb_true_iff in Hor as [Hz|Hz]; reflect_cmp.
    + destruct He1 as [(-> & -> & ?)|He]; [cbn; lia|apply encodes_nonempty in He; lia].
    + destruct He2 as [(-> & -> & ?)|He]; [cbn; lia|apply encodes_nonempty in He; lia].
  - reflect_cmp. destruct He1 as [(-> & _)|He1]; [done|]. destruct He2 as [(-> & _)|He2]; [done|].
    destruct (IH ((pre ++ e1) ++ e2) t2 (i + (Z.of_nat (length e1) + Z.of_nat (length e2))) (num + 1) (start_of_sack_range s))
      as (k & bs & t3 & -> & Hk & Hmax & Hw & Ht3 & Hend); [rewrite !length_app in *; lia..|done|lia|].
    exists (S k), (e1 ++ e2 ++ bs), t3. cbn [length take ack_blocks]. rewrite <- !app_assoc, !length_app.
    split_and!; [f_equal; [f_equal|]; lia|lia|lia|by constructor|lia|].
    destruct Hend as [->|[|]]; [by left|right; left; lia|auto].
Qed.

Lemma descending_take k hi l : descending hi l -> descending hi (take k l).
Proof.
  revert k hi. induction l as [|s l IH]; intros [|k] hi; cbn; try done. intros (? & ? & ?). split_and!; auto.
Qed.

(** The number of blocks is written over the two bytes kept for it. *)
Lemma num_block_encodes n :
  0 <= n <= MAX_ACK_BLOCKS -> encodes n [u8 (Z.lor 0x40 (Z.shiftr n 8)); u8 n].
Proof.
  unfold MAX_ACK_BLOCKS. intros Hn rest. cbn [app]. rewrite Z.lor_comm, Z.shiftr_div_pow2 by lia.
  assert (0 <= n / 2 ^ 8 < 64) by (split; [apply Z.div_pos; lia|apply Z.div_lt_upper_bound; lia]).
  destruct (prefix_byte 1 (n / 2 ^ 8) ltac:(lia) ltac:(lia)) as (Hb & Hp & Hl). change (64 * 1) with 64 in *.
  rewrite Hb. unfold picoquic_frames_varint_decode. rewrite Hp, Hl. change (2 ^ 1) with 2.
  destruct (Z.leb_spec 2 (Z.of_nat (length (64 + n / 2 ^ 8 :: u8 n :: rest)))) as [|Hbad]; [|cbn [length] in Hbad; lia].
  change (Z.to_nat (2 - 1)) with 1%nat. cbn [varint_decode_loop mbind option_bind].
  change (Z.to_nat 2) with 2%nat. cbn [drop]. do 2 f_equal. rewrite Z.shiftl_mul_pow2 by lia. unfold u8.
  pose proof (Z.mod_pos_bound n (2 ^ 8) ltac:(lia)). pose proof (Z.div_mod n (2 ^ 8) ltac:(lia)).
  rewrite (u64_small (n / _ * _)), u64_small by lia. lia.
Qed.

(** The layout of a written ACK frame. *)
Definition ack_layout (s : sack_item) (next : list sack_item) (delay : Z) (wire : list Z) : Prop :=
  exists e1 e2 nb e3 bs, wire = picoquic_frame_type_ack :: e1 ++ e2 ++ nb ++ e3 ++ bs /\
    encodes (end_of_sack_range s) e1 /\ encodes delay e2 /\ encodes (Z.of_nat (length next)) nb /\
    encodes (end_of_sack_range s - start_of_sack_range s) e3 /\
    wire_blocks (ack_blocks (start_of_sack_range s) next) bs.

Lemma put_varint_no_room bytes i v :
  Z.of_nat (length bytes) <= i -> put_varint_if_room bytes i v = (bytes, 0).
Proof. intros H. unfold put_varint_if_room. by destruct (Z.ltb_spec i (Z.of_nat (length bytes))); [lia|]. Qed.

Lemma prepare_ack_layout c t ex ect0 ect1 ce bytes n out c' s next :
  items (a_sacks c) = s :: next -> chain_ok (a_sacks c) -> is_empty (a_sacks c) = false ->
  end_of_sack_range s < 2 ^ 62 -> 0 <= ack_delay_of c t ex < 2 ^ 62 -> Z.of_nat (length bytes) < 2 ^ 64 ->
  picoquic_prepare_ack_frame_maybe_ecn c t ex false ect0 ect1 ce bytes = (0, n, out, c') ->
  exists k wire tail, out = wire ++ tail /\ n = Z.of_nat (length wire) /\ (k <= length next)%nat /\
    Z.of_nat k <= MAX_ACK_BLOCKS /\
    (k = length next \/ Z.of_nat k = MAX_ACK_BLOCKS \/ (length tail < 16)%nat) /\
    length out = length bytes /\ ack_layout s (take k next) (ack_delay_of c t ex) wire.
Proof.
  intros Hit Hok Hne H62 Hdl Hlen. injection Hit as <- <-. unfold chain_ok in Hok. rewrite Hne in Hok.
  destruct Hok as ([[H0 H1] H2] & _ & Hd). unfold picoquic_prepare_ack_frame_maybe_ecn.
  unfold is_empty in Hne. rewrite Hne. set (s := first_sack_item (a_sacks c)) in *.
  destruct (Z.ltb_spec (Z.of_nat (length bytes)) 14) as [|H14]; [done|].
  destruct bytes as [|b0 bytes]; [done|]. rewrite (write_at_app [] (b0 :: bytes)) by (cbn in *; done || lia).
  cbn [app length drop]. change (drop 0 bytes) with bytes. cbn [length] in Hlen.
  destruct (put_varint_app [picoquic_frame_type_ack] bytes (end_of_sack_range s) 1)
    as (e1 & t1 & Hp1 & Ht1 & Hs1 & He1); [done|cbn [app length]; lia|lia|]. cbn [app] in Hp1. rewrite Hp1. clear Hp1.
  destruct (put_varint_app (picoquic_frame_type_ack :: e1) t1 (ack_delay_of c t ex) (1 + Z.of_nat (length e1)))
    as (e2 & t2 & Hp2 & Ht2 & Hs2 & He2); [cbn [length]; lia|rewrite length_app; cbn [length]; lia|done|].
  cbn [app] in Hp2. rewrite Hp2. clear Hp2. set (h := e1 ++ e2).
  assert (Hh : length h = (length e1 + length e2)%nat) by (unfold h; by rewrite length_app).
  rewrite u64_small by lia. destruct (decide (2 <= length t2)%nat) as [H2t|].
  2: { rewrite put_varint_no_room by (cbn [length]; rewrite !length_app; lia). by rewrite Z.eqb_refl, orb_true_r. }
  destruct t2 as [|x0 [|x1 t2]]; [cbn in H2t; lia..|]. cbn [length] in Ht2, H2t.
  replace (picoquic_frame_type_ack :: h ++ x0 :: x1 :: t2) with (((picoquic_frame_type_ack :: h) ++ [x0; x1]) ++ t2)
    by (by rewrite <- app_assoc).
  destruct (put_varint_app ((picoquic_frame_type_ack :: h) ++ [x0; x1]) t2 (end_of_sack_range s - start_of_sack_range s)
    (1 + Z.of_nat (length e1) + Z.of_nat (length e2) + 2)) as (e3 & t3 & -> & Ht3 & Hs3 & He3);
    [rewrite !length_app; cbn [length]; lia|rewrite !length_app; cbn [length]; lia|lia|].
  destruct (orb _ _) eqn:Hor; [done|]. reflect_cmp.
  destruct He1 as [(-> & _)|He1]; [done|]. destruct He2 as [(-> & _)|He2]; [done|]. destruct He3 as [(-> & _)|He3]; [done|].
  destruct (encode_blocks_wire (next_sacks (a_sacks c)) (((picoquic_frame_type_ack :: h) ++ [x0; x1]) ++ e3) t3
    (1 + Z.of_nat (length e1) + Z.of_nat (length e2) + 2 + Z.of_nat (length e3)) 0 (start_of_sack_range s))
    as (k & bs & t4 & -> & Hk & Hmax & Hw & Ht4 & Hend);
    [rewrite !length_app; cbn [length]; lia|rewrite !length_app; cbn [length]; lia|lia|done|lia|].
  rewrite Z.add_0_l. unfold MAX_ACK_BLOCKS in *. set (nb := [u8 (Z.lor _ _); u8 _]).
  replace (((((picoquic_frame_type_ack :: h) ++ [x0; x1]) ++ e3) ++ bs) ++ t4)
    with ((picoquic_frame_type_ack :: h) ++ x0 :: x1 :: e3 ++ bs ++ t4) by (by rewrite <- !app_assoc).
  rewrite write_at_app by (unfold nb; cbn [length]; lia). change (length nb) with 2%nat. cbn [drop]. intros [= <- <- _].
  exists k, (picoquic_frame_type_ack :: e1 ++ e2 ++ nb ++ e3 ++ bs), t4.
  assert (Hnb : length nb = 2%nat) by done.
  split_and!; [|cbn [length]; rewrite !length_app; lia|done|lia| | |].
  - cbn [app]. f_equal. unfold h. by rewrite <- !app_assoc.
  - destruct Hend as [->|[|]]; [by left|right; left; lia|auto].
  - rewrite drop_0. cbn [app length]. rewrite !length_app. lia.
  - exists e1, e2, nb, e3, bs. rewrite length_take_le by done. split_and!; try done. apply num_block_encodes.
    unfold MAX_ACK_BLOCKS. lia.
Qed.

(** What the readers make of a frame with this layout. *)
Lemma layout_read s next delay wire rest :
  item_ok s -> end_of_sack_range s < 2 ^ 62 -> descending (start_of_sack_range s) next ->
  Z.of_nat (length next) <= MAX_ACK_BLOCKS -> ack_layout s next delay wire ->
  reads (parse_frame (peek_frame_type (wire ++ rest)) (wire ++ rest)) (Z.of_nat (length wire))
    (ack_frame false (end_of_sack_range s) delay (end_of_sack_range s - start_of_sack_range s)
      (ack_blocks (start_of_sack_range s) next) []).
Proof.
  intros Hs H62 Hd Hmax (e1 & e2 & nb & e3 & bs & -> & He1 & He2 & Hnb & He3 & Hw).
  rewrite <- app_comm_cons, peek_written by done.
  change (parse_frame picoquic_frame_type_ack) with parse_ack_frame_maybe_ecn. unfold parse_ack_frame_maybe_ecn.
  pose proof (encode_encodes 1 2 ltac:(lia) ltac:(done) ((e1 ++ e2 ++ nb ++ e3 ++ bs) ++ rest)) as Hty.
  change (picoquic_varint_encode 1 2) with [picoquic_frame_type_ack] in Hty. cbn [app] in Hty. rewrite Hty.
  cbv iota. rewrite <- !app_assoc. rewrite He1. cbn [mbind option_bind]. rewrite He2. cbn [mbind option_bind].
  rewrite Hnb. cbn [mbind option_bind]. destruct (Z.ltb_spec MAX_ACK_BLOCKS (Z.of_nat (length next))); [lia|].
  rewrite He3. cbn [mbind option_bind]. rewrite Nat2Z.id.
  replace (length next) with (length (ack_blocks (start_of_sack_range s) next)).
  - rewrite (parse_wire_blocks _ _ rest Hw). cbn [mbind option_bind].
    apply parsed_reads; cbn [length]; rewrite !length_app; lia.
  - clear. generalize (start_of_sack_range s). induction next as [|s' next IH]; intros low; cbn; [done|by rewrite IH].
Qed.

Lemma layout_ack_of_ack s next delay wire rest c2 :
  item_ok s -> end_of_sack_range s < 2 ^ 62 -> descending (start_of_sack_range s) next ->
  ack_layout s next delay wire ->
  picoquic_process_ack_of_ack_frame c2 (wire ++ rest) false =
  (0, Z.of_nat (length wire), foldl prune c2 (s :: next)).
Proof.
  intros Hs H62 Hd (e1 & e2 & nb & e3 & bs & -> & He1 & He2 & Hnb & He3 & Hw).
  pose proof (encodes_nonempty _ _ He1). pose proof (encodes_nonempty _ _ He2). pose proof (encodes_nonempty _ _ Hnb).
  unfold picoquic_process_ack_of_ack_frame, picoquic_parse_ack_header. rewrite <- app_comm_cons, <- !app_assoc.
  set (B := picoquic_frame_type_ack :: _).
  assert (Hv1 : varint_at B 1 = (Z.of_nat (length e1), end_of_sack_range s)).
  { apply (varint_at_encodes _ [picoquic_frame_type_ack] e1); done. }
  assert (Hv2 : varint_at B (1 + Z.of_nat (length e1)) = (Z.of_nat (length e2), delay)).
  { apply (varint_at_encodes _ (picoquic_frame_type_ack :: e1) e2); [done|cbn [length]; lia]. }
  assert (HB : B = ((picoquic_frame_type_ack :: e1) ++ e2) ++ nb ++ e3 ++ bs ++ rest) by (unfold B; by rewrite <- app_assoc).
  assert (Hv3 : varint_at B (1 + Z.of_nat (length e1) + Z.of_nat (length e2)) = (Z.of_nat (length nb), Z.of_nat (length next))).
  { rewrite HB. apply varint_at_encodes; [done|rewrite length_app; cbn [length]; lia]. }
  rewrite Hv1, Hv2, Hv3.
  destruct (orb _ _) eqn:Hor.
  { rewrite HB in Hor. rewrite !orb_true_iff, !Z.eqb_eq, Z.ltb_lt, !length_app in Hor. cbn [length] in Hor. lia. }
  cbn [h_ret h_num_block h_consumed h_largest]. rewrite Z.eqb_refl, Nat2Z.id.
  rewrite HB, (app_assoc _ nb).
  rewrite (ack_of_ack_items next s _ e3 bs rest c2) by (try done; rewrite !length_app; cbn [length]; lia).
  f_equal. f_equal. cbn [length]. rewrite !length_app. lia.
Qed.

(** C12. An ACK frame written from the received set says exactly what was received.
    When [picoquic_prepare_ack_frame] succeeds on a non-empty chain of ranges, with
    packet numbers and delay below 2^62, the peer's parser consumes exactly the
    bytes reported, whatever follows them, and its walk over the ranges visits the
    chain's ranges from the highest down: all of them, unless 512 blocks were
    written or fewer than 16 bytes were left.  When the frame is acknowledged in
    turn, [picoquic_process_ack_of_ack_frame] prunes exactly those ranges. *)
Theorem ack_frame_roundtrip c t ex ect0 ect1 ce bytes n out c' s next rest c2 :
  items (a_sacks c) = s :: next -> chain_ok (a_sacks c) -> is_empty (a_sacks c) = false ->
  end_of_sack_range s < 2 ^ 62 -> 0 <= ack_delay_of c t ex < 2 ^ 62 -> Z.of_nat (length bytes) < 2 ^ 64 ->
  picoquic_prepare_ack_frame_maybe_ecn c t ex false ect0 ect1 ce bytes = (0, n, out, c') ->
  exists k blocks,
    let sent := s :: take k next in
    let wire := take (Z.to_nat n) out in
    let first_block := end_of_sack_range s - start_of_sack_range s in
    reads (parse_frame (peek_frame_type (wire ++ rest)) (wire ++ rest)) n
      (ack_frame false (end_of_sack_range s) (ack_delay_of c t ex) first_block blocks []) /\
    walk_ranges (end_of_sack_range s) first_block blocks = Some (range_of <$> sent) /\
    picoquic_process_ack_of_ack_frame c2 (wire ++ rest) false = (0, n, foldl prune c2 sent) /\
    (sent = s :: next \/ Z.of_nat k = MAX_ACK_BLOCKS \/ Z.of_nat (length bytes) < n + 16).
Proof.
  intros Hit Hok Hne H62 Hdl Hlen Hp.
  destruct (prepare_ack_layout _ _ _ _ _ _ _ _ _ _ _ _ Hit Hok Hne H62 Hdl Hlen Hp)
    as (k & wire & tail & -> & -> & Hk & Hmax & Hend & Hl & Hw).
  assert (Hs : item_ok s /\ descending (start_of_sack_range s) next).
  { unfold chain_ok in Hok. rewrite Hne, Hit in Hok. by destruct Hok as (? & _ & ?). }
  destruct Hs as [Hs Hd]. apply (descending_take k) in Hd.
  exists k, (ack_blocks (start_of_sack_range s) (take k next)). cbv zeta.
  rewrite Nat2Z.id, take_app_length. split_and!.
  - apply layout_read; try done. rewrite length_take. lia.
  - by apply walk_items.
  - by apply (layout_ack_of_ack s (take k next) (ack_delay_of c t ex)).
  - rewrite length_app in Hl. destruct Hend as [->|[|]]; [left; by rewrite take_ge|auto|right; right; lia].
Qed.

Definition example_chain : sack_chain := Chain (Sack 10 12) [Sack 5 7; Sack 0 1].

Lemma ack_frame_roundtrip_witness :
  let wire := [2; 12; 64; 100; 64; 2; 2; 1; 2; 2; 1] in
  exists k blocks,
    let sent := Sack 10 12 :: take k [Sack 5 7; Sack 0 1] in
    reads (parse_frame (peek_frame_type (wire ++ [1])) (wire ++ [1])) 11 (ack_frame false 12 100 2 blocks []) /\
    walk_ranges 12 2 blocks = Some (range_of <$> sent) /\
    picoquic_process_ack_of_ack_frame example_chain (wire ++ [1]) false = (0, 11, foldl prune example_chain sent) /\
    (sent = [Sack 10 12; Sack 5 7; Sack 0 1] \/ Z.of_nat k = MAX_ACK_BLOCKS \/ 40 < 11 + 16).
Proof.
  pose proof (ack_frame_roundtrip (AckContext example_chain 1000 0 0 true) 1800 3 0 0 0 (replicate 40 0xff) 11
    ([2; 12; 64; 100; 64; 2; 2; 1; 2; 2; 1] ++ replicate 29 0xff) (AckContext example_chain 1000 12 1800 false)
    (Sack 10 12) [Sack 5 7; Sack 0 1] [1] example_chain) as H.
  apply H; [reflexivity| |reflexivity|reflexivity|split; [done|reflexivity]|reflexivity|reflexivity].
  lazy. repeat split; discriminate.
Defined.

(** ** The ECN counters *)

Lemma put_varint_room pre tail v i :
  i = Z.of_nat (length pre) -> Z.of_nat (length (pre ++ tail)) < 2 ^ 64 -> 0 <= v < 2 ^ 62 -> (8 <= length tail)%nat ->
  exists e, put_varint (pre ++ tail) i v = ((pre ++ e) ++ drop (length e) tail, Z.of_nat (length e)) /\
    encodes v e /\ (length e <= 8)%nat /\ Z.of_nat (length e) = picoquic_varint_len v.
Proof.
  intros -> Hl Hv H8. unfold put_varint. rewrite length_app in *. rewrite u64_small by lia.
  replace (Z.of_nat (length pre + length tail) - _) with (Z.of_nat (length tail)) by lia.
  set (e := picoquic_varint_encode _ _). exists e.
  pose proof (encode_length (Z.of_nat (length tail)) v ltac:(lia)) as He. fold e in He.
  assert (Hlen : picoquic_varint_len v <= Z.of_nat (length tail)) by (unfold picoquic_varint_len; case_cmp; lia).
  rewrite write_at_app by (done || lia). split_and!; [done| |lia|].
  - apply encode_encodes; [done|]. apply encode_nonempty; [done|lia].
  - unfold e, picoquic_varint_encode, picoquic_varint_len in *. case_cmp; cbn [length]; lia.
Qed.

(** The ECN counters of an ACK_ECN frame, with room for them: they are read back
    when the first two have encodings of the same length.  The position after the
    second counter is advanced by the length of the first one: when the second
    encoding is shorter, the peer reads the third counter from bytes the writer left
    as they were in the packet buffer. *)
Theorem ack_ecn_counters pre tail ect0 ect1 ce rest :
  0 <= ect0 < 2 ^ 62 -> 0 <= ect1 < 2 ^ 62 -> 0 <= ce < 2 ^ 62 ->
  (24 <= length tail)%nat -> Z.of_nat (length (pre ++ tail)) < 2 ^ 64 ->
  let '(out, i, failed) := encode_ecn (pre ++ tail) (Z.of_nat (length pre)) ect0 ect1 ce in
  let counters := drop (length pre) (take (Z.to_nat i) out) ++ rest in
  failed = false /\
  (picoquic_varint_len ect0 = picoquic_varint_len ect1 -> parse_varints 3 counters = Some ([ect0; ect1; ce], rest)) /\
  (picoquic_varint_len ect1 < picoquic_varint_len ect0 ->
   exists stale e_ce, parse_varints 2 counters = Some ([ect0; ect1], stale ++ e_ce ++ rest) /\
     encodes ce e_ce /\ Z.of_nat (length stale) = picoquic_varint_len ect0 - picoquic_varint_len ect1 /\
     stale = take (length stale) (drop (Z.to_nat (picoquic_varint_len ect0 + picoquic_varint_len ect1)) tail)).
Proof.
  intros H0 H1 Hc Ht Hl. unfold encode_ecn.
  destruct (put_varint_room pre tail ect0 _ eq_refl Hl H0 ltac:(lia)) as (e0 & -> & He0 & Hs0 & Hn0).
  destruct (put_varint_room (pre ++ e0) (drop (length e0) tail) ect1 (Z.of_nat (length pre) + Z.of_nat (length e0)))
    as (e1 & -> & He1 & Hs1 & Hn1);
    [rewrite length_app; lia|rewrite !length_app, length_drop in *; lia|done|rewrite length_drop; lia|].
  rewrite drop_drop. set (t2 := drop (length e0 + length e1) tail).
  assert (Ht2 : length t2 = (length tail - (length e0 + length e1))%nat) by (unfold t2; by rewrite length_drop).
  pose proof (encodes_nonempty _ _ He0). pose proof (encodes_nonempty _ _ He1).
  destruct (Nat.le_gt_cases (length e1) (length e0)) as [Hle|Hgt].
  - set (gap := (length e0 - length e1)%nat). set (stale := take gap t2).
    assert (Hstale : length stale = gap) by (unfold stale, gap; rewrite length_take; lia).
    replace (((pre ++ e0) ++ e1) ++ t2) with ((((pre ++ e0) ++ e1) ++ stale) ++ drop gap t2)
      by (rewrite <- (app_assoc _ stale); unfold stale; by rewrite take_drop).
    destruct (put_varint_room (((pre ++ e0) ++ e1) ++ stale) (drop gap t2) ce
      (Z.of_nat (length pre) + Z.of_nat (length e0) + Z.of_nat (length e0)))
      as (e2 & -> & He2 & Hs2 & Hn2);
      [rewrite !length_app, Hstale; unfold gap; lia
      |rewrite !length_app, ?length_drop, Hstale in *; unfold gap in *; lia|done|rewrite length_drop; unfold gap; lia|].
    pose proof (encodes_nonempty _ _ He2).
    replace (Z.to_nat (Z.of_nat (length pre) + Z.of_nat (length e0) + Z.of_nat (length e0) + Z.of_nat (length e2)))
      with (length ((((pre ++ e0) ++ e1) ++ stale) ++ e2)) by (rewrite !length_app, Hstale; unfold gap; lia).
    rewrite take_app_length, <- !app_assoc, drop_app_length, <- !app_assoc.
    split_and!; [rewrite !orb_false_iff, !Z.eqb_neq; lia| |].
    + intros Heq. assert (stale = []) as -> by (apply length_zero_iff_nil; unfold gap in Hstale; lia).
      cbn [app parse_varints]. rewrite He0. cbn [mbind option_bind]. rewrite He1. cbn [mbind option_bind].
      rewrite He2. done.
    + intros _. exists stale, e2. cbn [parse_varints]. rewrite He0. cbn [mbind option_bind]. rewrite He1.
      split_and!; [done|done|rewrite Hstale; unfold gap; lia|]. rewrite Hstale. unfold stale, t2. do 2 f_equal. lia.
  - destruct (put_varint _ _ ce) as [out l_ce] eqn:Hp.
    assert (l_ce <> 0).
    { unfold put_varint in Hp. injection Hp as _ <-.
      assert (Hne : picoquic_varint_encode (u64 (Z.of_nat (length (((pre ++ e0) ++ e1) ++ t2)) -
        (Z.of_nat (length pre) + Z.of_nat (length e0) + Z.of_nat (length e0)))) ce <> []).
      { rewrite u64_small by (rewrite !length_app, Ht2 in *; lia).
        apply encode_nonempty; [|left; lia]. rewrite !length_app, Ht2. unfold picoquic_varint_len. case_cmp; lia. }
      intros Hz. apply Hne, length_zero_iff_nil. lia. }
    split_and!; [rewrite !orb_false_iff, !Z.eqb_neq; lia|lia|lia].
Qed.

Lemma ack_ecn_counters_witness :
  exists stale e_ce, parse_varints 2 [64; 100; 7; 0xff; 5] = Some ([100; 7], stale ++ e_ce ++ []) /\
    encodes 5 e_ce /\ Z.of_nat (length stale) = 1 /\ stale = take (length stale) [0xff].
Proof.
  assert (H := ack_ecn_counters [] (replicate 24 0xff) 100 7 5 [] ltac:(lia) ltac:(lia) ltac:(lia) ltac:(cbn; lia) ltac:(cbn; lia)).
  destruct H as (_ & _ & H). destruct (H eq_refl) as (stale & e & Hp & He & Hl & Hs). exists stale, e.
  split; [exact Hp|]. split; [exact He|]. split; [exact Hl|]. rewrite Hs at 1.
  assert (length stale = 1%nat) as -> by (change (picoquic_varint_len 100 - picoquic_varint_len 7) with 1 in Hl; lia). reflexivity.
Defined.

(** Acknowledging an ACK_ECN frame: the header reader looks for the counters
    before the number of blocks, where the writer does not put them.  On an ACK_ECN
    frame for three ranges, which the peer's parser reads in full, only one packet
    number is taken out of the chain instead of the three ranges. *)
Theorem ack_ecn_of_ack_misread :
  let c := AckContext example_chain 1000 0 0 true in
  let '(ret, n, out, _) := picoquic_prepare_ack_frame_maybe_ecn c 1800 3 true 1 1 1 (replicate 24 0) in
  ret = 0 /\
  reads (parse_frame (peek_frame_type out) out) n (ack_frame true 12 100 2 [(1, 2); (2, 1)] [1; 1; 1]) /\
  walk_ranges 12 2 [(1, 2); (2, 1)] = Some (range_of <$> items example_chain) /\
  (picoquic_process_ack_of_ack_frame example_chain out true).2 <> foldl prune example_chain (items example_chain) /\
  next_sacks (picoquic_process_ack_of_ack_frame example_chain out true).2 = next_sacks example_chain /\
  next_sacks (foldl prune example_chain (items example_chain)) = [].
Proof. lazy. split_and!; try reflexivity. discriminate. Qed.

End AckFrame.
