(* ===== verification/Reassembly.v ===== *)
(** * Stream reassembly: picoquic/frames.c

    [picoquic_queue_network_input] stores the bytes of a STREAM, CRYPTO or PLUGIN
    frame that are new in the queue of out-of-order blocks of the stream, sorted by
    offset; [picoquic_stream_data_callback] hands the bytes that have become
    contiguous to the application.

    The queue is a list of blocks.  The walk of the source keeps a pointer to the link
    to rewrite ([pprevious]); its model keeps the blocks already passed, nearest first. *)
From stdpp Require Import base tactics list numbers.
From Stdlib Require Import ZArith Lia Bool.
From S2P Require Import Prelude.
#[local] Open Scope Z_scope.

Module Reassembly.

(** [picoquic_stream_data]: the length is that of [sd_bytes]. *)
Record stream_data := StreamData { sd_offset : Z; sd_bytes : list Z }.

Definition sd_length (d : stream_data) : Z := Z.of_nat (length (sd_bytes d)).
Definition sd_end (d : stream_data) : Z := sd_offset d + sd_length d.

(** The loop that advances [start] over what the queue already holds. *)
Fixpoint queue_loop (passed next : list stream_data) (offset length start : Z) :
    list stream_data * list stream_data * Z :=
  match next with
  | [] => (passed, [], start)
  | d :: next' =>
    if (start <? length) && (sd_offset d <=? u64 (offset + start)) then
      let start :=
        if u64 (offset + length) <=? u64 (sd_offset d + sd_length d) then length
        else if offset <? u64 (sd_offset d + sd_length d) then u64 (u64 (sd_offset d + sd_length d) - offset)
        else start in
      queue_loop (d :: passed) next' offset length start
    else (passed, next, start)
  end.

(** Returns whether an allocation failed (then the connection error is raised by the
    caller), the queue and [*new_data_available]. *)
Definition picoquic_queue_network_input (malloc_ok : bool) (consumed_offset : Z) (queue : list stream_data)
    (offset : Z) (bytes : list Z) : bool * list stream_data * bool :=
  let length := Z.of_nat (length bytes) in
  let start :=
    if offset <=? consumed_offset then
      if u64 (offset + length) <=? consumed_offset then length else consumed_offset - offset
    else 0 in
  let '(passed, next, start) := queue_loop [] queue offset length start in
  if start <? length then
    let data_length :=
      match next with
      | d :: _ =>
        if sd_offset d <? u64 (offset + length)
        then u64 (length - start - u64 (u64 (offset + length) - sd_offset d)) else length - start
      | [] => length - start
      end in
    if 0 <? data_length then
      if malloc_ok then
        let data := StreamData (u64 (offset + start)) (take (Z.to_nat data_length) (drop (Z.to_nat start) bytes)) in
        (false, rev_append passed (data :: next), true)
      else (true, queue, false)
    else (false, queue, false)
  else (false, queue, false).

(** The receiving side of [picoquic_stream_head]. *)
Record recv_state := RecvState {
  consumed_offset : Z; fin_offset : Z; fin_received : bool; fin_signalled : bool; stream_queue : list stream_data
}.

Inductive callback_event := picoquic_callback_no_event | picoquic_callback_stream_fin.

(** [stream->consumed_offset >= stream->fin_offset && stream->fin_received && !stream->fin_signalled] *)
Definition fin_now (r : recv_state) : bool :=
  (fin_offset r <=? consumed_offset r) && fin_received r && negb (fin_signalled r).

(** The [while] of [picoquic_stream_data_callback]: the calls to the application, in
    order, and the state. *)
Fixpoint callback_loop (queue : list stream_data) (r : recv_state) : list (list Z * callback_event) * recv_state :=
  match queue with
  | [] => ([], RecvState (consumed_offset r) (fin_offset r) (fin_received r) (fin_signalled r) [])
  | data :: queue' =>
    if sd_offset data <=? consumed_offset r then
      let start := consumed_offset r - sd_offset data in
      let data_length := u64 (sd_length data - start) in
      let r1 := RecvState (u64 (consumed_offset r + data_length)) (fin_offset r) (fin_received r) (fin_signalled r) queue' in
      let fin := fin_now r1 in
      let r2 := RecvState (consumed_offset r1) (fin_offset r) (fin_received r) (fin || fin_signalled r) queue' in
      let '(events, r') := callback_loop queue' r2 in
      ((take (Z.to_nat data_length) (drop (Z.to_nat start) (sd_bytes data)),
        if fin then picoquic_callback_stream_fin else picoquic_callback_no_event) :: events, r')
    else ([], RecvState (consumed_offset r) (fin_offset r) (fin_received r) (fin_signalled r) queue)
  end.

Definition picoquic_stream_data_callback (r : recv_state) : list (list Z * callback_event) * recv_state :=
  let '(events, r) := callback_loop (stream_queue r) r in
  if fin_now r
  then (events ++ [([], picoquic_callback_stream_fin)],
        RecvState (consumed_offset r) (fin_offset r) (fin_received r) true (stream_queue r))
  else (events, r).

(** ** Invariant and meaning of the queue *)

(** Sorted, disjoint, non-empty blocks from [lo] on, inside the 64-bit offsets. *)
Fixpoint queue_from (lo : Z) (q : list stream_data) : Prop :=
  match q with
  | [] => True
  | d :: q' => lo <= sd_offset d /\ 0 < sd_length d /\ sd_end d < 2 ^ 64 /\ queue_from (sd_end d) q'
  end.

(** The bytes of the stream from [off] on, given what the peer sends at each offset. *)
Definition slice (content : Z -> Z) (off len : Z) : list Z := (fun i => content (off + i)) <$> seqZ 0 len.

Definition block_of (content : Z -> Z) (d : stream_data) : Prop := sd_bytes d = slice content (sd_offset d) (sd_length d).

Definition in_block (n : Z) (d : stream_data) : Prop := sd_offset d <= n < sd_end d.
Definition stored (q : list stream_data) (n : Z) : Prop := Exists (in_block n) q.

(** What the receiver has: delivered or queued. *)
Definition have (consumed : Z) (q : list stream_data) (n : Z) : Prop := 0 <= n < consumed \/ stored q n.

(** The end of the last block, [lo] when there is none. *)
Fixpoint last_end (lo : Z) (q : list stream_data) : Z :=
  match q with [] => lo | d :: q' => last_end (sd_end d) q' end.

(** ** Lemmas on slices *)

Lemma slice_length content off len : length (slice content off len) = Z.to_nat len.
Proof. unfold slice. by rewrite length_fmap, length_seqZ. Qed.

Lemma slice_app content off l1 l2 :
  0 <= l1 -> 0 <= l2 -> slice content off (l1 + l2) = slice content off l1 ++ slice content (off + l1) l2.
Proof.
  intros H1 H2. unfold slice. rewrite seqZ_app by done. rewrite fmap_app. f_equal. rewrite Z.add_0_l.
  rewrite <- (Z.add_0_r l1) at 1. rewrite <- fmap_add_seqZ, <- list_fmap_compose.
  apply list_fmap_ext. intros i x _. unfold compose. f_equal. lia.
Qed.

Lemma slice_app' content off l1 off2 l2 :
  off2 = off + l1 -> 0 <= l1 -> 0 <= l2 -> slice content off l1 ++ slice content off2 l2 = slice content off (l1 + l2).
Proof. intros ->. symmetry. by apply slice_app. Qed.

Lemma slice_part content off len a b :
  0 <= a -> 0 <= b -> a + b <= len -> take (Z.to_nat b) (drop (Z.to_nat a) (slice content off len)) = slice content (off + a) b.
Proof.
  intros Ha Hb Hl. replace len with (a + (b + (len - a - b))) by lia. rewrite slice_app by lia.
  rewrite drop_app_length' by (by rewrite slice_length). rewrite slice_app by lia.
  by rewrite take_app_length' by (by rewrite slice_length).
Qed.

(** ** Lemmas on queues *)

Lemma stored_cons d q n : stored (d :: q) n <-> in_block n d \/ stored q n.
Proof. apply Exists_cons. Qed.
Lemma stored_nil n : stored [] n <-> False.
Proof. apply Exists_nil. Qed.
Lemma stored_app q1 q2 n : stored (q1 ++ q2) n <-> stored q1 n \/ stored q2 n.
Proof. apply Exists_app. Qed.

Lemma queue_from_app lo q1 q2 : queue_from lo (q1 ++ q2) <-> queue_from lo q1 /\ queue_from (last_end lo q1) q2.
Proof. revert lo. induction q1 as [|d q1 IH]; intros lo; cbn; [tauto|]. rewrite IH. tauto. Qed.

Lemma last_end_snoc lo q d : last_end lo (q ++ [d]) = sd_end d.
Proof. revert lo. induction q as [|d' q IH]; intros lo; cbn; auto. Qed.

Lemma queue_from_mono lo lo' q : lo' <= lo -> queue_from lo q -> queue_from lo' q.
Proof. destruct q; cbn; [done|]. intros ? (? & ? & ? & ?). split_and!; (done || lia). Qed.

Lemma stored_above lo q n : queue_from lo q -> stored q n -> lo <= n.
Proof.
  revert lo. induction q as [|d q IH]; intros lo; cbn; rewrite ?stored_nil, ?stored_cons; [done|].
  intros (? & ? & ? & Hq) [[? ?]|Hs]; [lia|]. specialize (IH _ Hq Hs). unfold sd_end in IH. lia.
Qed.

Lemma stored_below lo q n : queue_from lo q -> stored q n -> n < last_end lo q.
Proof.
  revert lo. induction q as [|d q IH]; intros lo; cbn; rewrite ?stored_nil, ?stored_cons; [done|].
  intros (? & ? & ? & Hq) [[? Hlt]|Hs]; [|by eapply IH].
  clear IH. revert Hq Hlt. generalize (sd_end d). induction q as [|d' q IH]; intros e; cbn; [done|].
  intros (? & ? & ? & Hq) Hlt. eapply IH; [apply Hq|]. unfold sd_end. lia.
Qed.

Lemma last_end_ge lo q : queue_from lo q -> lo <= last_end lo q.
Proof.
  revert lo. induction q as [|d q IH]; intros lo; cbn; [lia|]. intros (? & ? & ? & Hq). specialize (IH _ Hq).
  unfold sd_end in IH at 1. lia.
Qed.

(** ** The walk over the queue *)

(** Where the walk stands: the frame is already there up to [start], and the first
    byte missing, if any, is at [offset + start], not before [lo]. *)
Definition walk_inv (consumed : Z) (before : list stream_data) (lo offset length start : Z) : Prop :=
  (forall n, offset <= n < offset + start -> have consumed before n) /\
  0 <= start <= length /\ (start < length -> offset + start = Z.max offset lo).

Lemma queue_loop_spec consumed passed next offset length start :
  0 <= consumed -> 0 <= offset -> offset + length < 2 ^ 64 -> queue_from consumed (rev passed ++ next) ->
  walk_inv consumed (rev passed) (last_end consumed (rev passed)) offset length start ->
  exists passed' next' start',
    queue_loop passed next offset length start = (passed', next', start') /\
    rev passed ++ next = rev passed' ++ next' /\
    walk_inv consumed (rev passed') (last_end consumed (rev passed')) offset length start' /\
    (start' < length -> match next' with d :: _ => offset + start' < sd_offset d | [] => True end).
Proof.
  intros Hc Ho Hlen. revert passed start. induction next as [|d next IH]; intros passed start Hq Hinv; cbn [queue_loop].
  { exists passed, [], start. split_and!; done. }
  pose proof Hinv as (Hhave & Hs & Hfirst).
  assert (Hd : queue_from (last_end consumed (rev passed)) (d :: next)) by (by apply queue_from_app in Hq as [_ ?]).
  destruct Hd as (Hlo & Hpos & H64 & Hnext). unfold sd_end in *.
  destruct (Z.ltb_spec start length) as [Hlt|Hge]; cbn [andb].
  2: { exists passed, (d :: next), start. split_and!; try done. lia. }
  specialize (Hfirst Hlt). rewrite (u64_small (offset + start)) by lia.
  destruct (Z.leb_spec (sd_offset d) (offset + start)) as [Hle|Hgt].
  2: { exists passed, (d :: next), start. split_and!; done. }
  assert (0 <= sd_offset d).
  { assert (consumed <= last_end consumed (rev passed)) by (apply last_end_ge; by apply queue_from_app in Hq as [? _]). lia. }
  rewrite !(u64_small (offset + length)), !(u64_small (sd_offset d + sd_length d)) by lia.
  assert (Heq : rev passed ++ d :: next = rev (d :: passed) ++ next) by (cbn [rev]; by rewrite <- app_assoc).
  rewrite Heq in Hq |- *. apply IH; [done|]. cbn [rev]. rewrite last_end_snoc. unfold walk_inv, sd_end.
  assert (Hstep : forall n, have consumed (rev passed ++ [d]) n <-> have consumed (rev passed) n \/ in_block n d).
  { intros n. unfold have. rewrite stored_app, stored_cons, stored_nil. tauto. }
  destruct (Z.leb_spec (offset + length) (sd_offset d + sd_length d)).
  - split_and!; [|lia|lia|lia]. intros n Hn. rewrite Hstep. destruct (Z.lt_ge_cases n (offset + start)); [left; apply Hhave; lia|].
    right. unfold in_block, sd_end. lia.
  - destruct (Z.ltb_spec offset (sd_offset d + sd_length d)).
    + rewrite u64_small by lia. split_and!; [|lia|lia|lia]. intros n Hn. rewrite Hstep.
      destruct (Z.lt_ge_cases n (offset + start)); [left; apply Hhave; lia|]. right. unfold in_block, sd_end. lia.
    + split_and!; [|lia|lia|lia]. intros n Hn. rewrite Hstep. left. by apply Hhave.
Qed.

(** What the insertion does: nothing when the frame is already there, else it stores
    one block, from the first missing byte to the next block or the end of the frame. *)
Lemma queue_input_shape malloc_ok consumed q offset bytes :
  0 <= consumed -> 0 <= offset -> offset + Z.of_nat (length bytes) < 2 ^ 64 -> queue_from consumed q ->
  let len := Z.of_nat (length bytes) in
  let res := picoquic_queue_network_input malloc_ok consumed q offset bytes in
  (res = (false, q, false) /\ forall n, offset <= n < offset + len -> have consumed q n) \/
  exists before next start stop, q = before ++ next /\ 0 <= start < len /\ offset + start < stop <= offset + len /\
    last_end consumed before <= offset + start /\
    (forall n, offset <= n < offset + start -> have consumed before n) /\
    match next with d :: _ => stop = Z.min (offset + len) (sd_offset d) | [] => stop = offset + len end /\
    res = if malloc_ok then
      (false, before ++ StreamData (offset + start) (take (Z.to_nat (stop - offset - start)) (drop (Z.to_nat start) bytes)) :: next, true)
      else (true, q, false).
Proof.
  intros Hc Ho Hlen Hq len. unfold picoquic_queue_network_input. fold len.
  set (start0 := if offset <=? consumed then _ else _).
  assert (Hinv : walk_inv consumed [] consumed offset len start0).
  { unfold start0, walk_inv, have. rewrite u64_small by lia. case_cmp; split_and!; try lia; intros n Hn; left; lia. }
  destruct (queue_loop_spec consumed [] q offset len start0 Hc Ho Hlen Hq Hinv)
    as (passed & next & start & -> & Heq & (Hhave & Hs & Hfirst) & Hnext). cbn [rev app] in Heq. clear Hinv start0.
  rewrite Heq in Hq. apply queue_from_app in Hq as [Hqp Hqn].
  destruct (Z.ltb_spec start len) as [Hlt|]; [right|left].
  2: { split; [done|]. intros n Hn. destruct (Hhave n ltac:(lia)) as [|Hst]; [by left|right]. rewrite Heq, stored_app. by left. }
  specialize (Hnext Hlt). specialize (Hfirst Hlt).
  set (stop := match next with d :: _ => Z.min (offset + len) (sd_offset d) | [] => offset + len end).
  assert (Hstop : offset + start < stop <= offset + len) by (unfold stop; destruct next; lia).
  set (dl := match next with [] => len - start | d :: _ => _ end).
  assert (Hdl : dl = stop - offset - start).
  { unfold dl, stop. destruct next as [|d next]; [lia|]. destruct Hqn as (? & ? & ? & _). unfold sd_end in *.
    rewrite !(u64_small (offset + len)) by lia. destruct (Z.ltb_spec (sd_offset d) (offset + len)); [|lia].
    rewrite (u64_small (offset + len - _)), u64_small by lia. lia. }
  clearbody dl. subst dl. destruct (Z.ltb_spec 0 (stop - offset - start)); [|lia].
  exists (rev passed), next, start, stop. rewrite u64_small, rev_append_rev by lia.
  split_and!; try done; try lia. unfold stop. by destruct next.
Qed.

(** The queue with one more block in a gap. *)
Lemma queue_from_insert consumed before next d :
  queue_from consumed (before ++ next) -> last_end consumed before <= sd_offset d -> 0 < sd_length d ->
  sd_end d < 2 ^ 64 -> match next with d' :: _ => sd_end d <= sd_offset d' | [] => True end ->
  queue_from consumed (before ++ d :: next).
Proof.
  rewrite !queue_from_app. intros [Hb Hn] Hlo Hpos H64 Hnext. split; [done|]. cbn. split_and!; try done.
  destruct next as [|d' next]; [done|]. destruct Hn as (? & ? & ? & ?). by split_and!.
Qed.

(** [n] belongs to the first run of bytes missing from [offset] on: no byte before it
    and after a missing one is there. *)
Definition first_run (consumed : Z) (q : list stream_data) (offset n : Z) : Prop :=
  forall j k, offset <= j < k -> k < n -> ~ have consumed q j -> ~ have consumed q k.

Lemma queue_input_correct content consumed q offset len :
  0 <= consumed -> 0 <= offset -> 0 <= len -> offset + len < 2 ^ 64 -> queue_from consumed q -> Forall (block_of content) q ->
  let '(failed, q', new_data) := picoquic_queue_network_input true consumed q offset (slice content offset len) in
  failed = false /\ queue_from consumed q' /\ Forall (block_of content) q' /\
  (forall n, have consumed q' n <->
     have consumed q n \/ (offset <= n < offset + len /\ ~ have consumed q n /\ first_run consumed q offset n)) /\
  (new_data = true <-> exists n, offset <= n < offset + len /\ ~ have consumed q n) /\
  (new_data = false -> q' = q).
Proof.
  intros Hc Ho Hl H64 Hq Hb.
  assert (Hlen : Z.of_nat (length (slice content offset len)) = len) by (rewrite slice_length; lia).
  pose proof (queue_input_shape true consumed q offset (slice content offset len) Hc Ho ltac:(lia) Hq) as Hsh.
  cbv zeta in Hsh. rewrite Hlen in Hsh.
  destruct Hsh as [[-> Hall]|(before & next & start & stop & -> & Hs & Hst & Hlo & Hhave & Hnext & ->)].
  { split_and!; try done.
    - intros n. split; [by left|]. intros [|(Hn & Hno & _)]; [done|]. by destruct Hno; apply Hall.
    - split; [done|]. intros (n & Hn & Hno). by destruct Hno; apply Hall. }
  rewrite slice_part by lia. set (d := StreamData _ _).
  assert (Hdl : sd_length d = stop - offset - start) by (unfold d, sd_length; cbn; rewrite slice_length; lia).
  assert (Hde : sd_end d = stop) by (unfold sd_end; rewrite Hdl; cbn; lia).
  assert (Hgap : forall n, offset + start <= n < stop -> ~ have consumed (before ++ next) n).
  { apply queue_from_app in Hq as [Hq1 Hq2]. pose proof (last_end_ge _ _ Hq1). unfold have.
    intros n Hn. rewrite stored_app. intros [|[Hs1|Hs2]]; [lia|apply (stored_below consumed) in Hs1; [lia|done]|].
    destruct next as [|d' next]; [by rewrite stored_nil in Hs2|].
    assert (sd_offset d' <= n); [|lia]. apply (stored_above (sd_offset d') (d' :: next)); [|done].
    destruct Hq2 as (? & ? & ? & ?). cbn. split_and!; (done || lia). }
  assert (Hiff : forall n, have consumed (before ++ d :: next) n <-> have consumed (before ++ next) n \/ offset + start <= n < stop).
  { intros n. unfold have. rewrite !stored_app, stored_cons. unfold in_block. rewrite Hde. cbn [sd_offset d]. tauto. }
  assert (Hbefore : forall n, offset <= n < offset + start -> have consumed (before ++ next) n).
  { intros n Hn. destruct (Hhave n Hn) as [|Hst']; [by left|right]. rewrite stored_app. by left. }
  split_and!; try done.
  - apply queue_from_insert; try done; [lia|lia|]. destruct next; [done|lia].
  - apply Forall_app in Hb as [Hb1 Hb2]. apply Forall_app. split; [done|]. constructor; [|done].
    unfold block_of. rewrite Hdl. done.
  - intros n. rewrite Hiff. split; (intros [Hh|Hn]; [by left|]); right.
    + split; [lia|]. split; [by apply Hgap|]. intros j k Hj Hk Hnj. apply Hgap.
      destruct (Z.lt_ge_cases j (offset + start)); [destruct Hnj; apply Hbefore; lia|lia].
    + destruct Hn as (Hn & Hno & Hrun). destruct (Z.lt_ge_cases n (offset + start)); [destruct Hno; apply Hbefore; lia|].
      split; [lia|]. destruct (Z.lt_ge_cases n stop) as [|Hge]; [done|exfalso].
      destruct next as [|d' next]; [lia|].
      apply queue_from_app in Hq as [_ (? & ? & ? & _)].
      assert (Hin : have consumed (before ++ d' :: next) (sd_offset d')).
      { right. rewrite stored_app, stored_cons. right. left. unfold in_block, sd_end. lia. }
      destruct (Z.eq_dec n (sd_offset d')) as [->|]; [done|].
      apply (Hrun (offset + start) (sd_offset d')); [lia|lia|apply Hgap; lia|done].
  - split; [|done]. intros _. exists (offset + start). split; [lia|]. apply Hgap. lia.
Qed.

(** ** Delivery *)

Definition recv_ok (content : Z -> Z) (r : recv_state) : Prop :=
  0 <= consumed_offset r < 2 ^ 64 /\ queue_from (consumed_offset r) (stream_queue r) /\
  Forall (block_of content) (stream_queue r).

Definition has (r : recv_state) : Z -> Prop := have (consumed_offset r) (stream_queue r).

Definition is_fin (e : list Z * callback_event) : bool :=
  match e.2 with picoquic_callback_stream_fin => true | _ => false end.
Definition fin_count (events : list (list Z * callback_event)) : nat := length (List.filter is_fin events).

(** What a run of the callback hands over, from [r] to [r']. *)
Definition delivers (content : Z -> Z) (r : recv_state) (events : list (list Z * callback_event)) (r' : recv_state) : Prop :=
  recv_ok content r' /\ consumed_offset r <= consumed_offset r' /\
  mjoin events.*1 = slice content (consumed_offset r) (consumed_offset r' - consumed_offset r) /\
  ~ has r' (consumed_offset r') /\ (forall n, 0 <= n -> has r' n <-> has r n) /\
  fin_offset r' = fin_offset r /\ fin_received r' = fin_received r /\
  (fin_count events + Nat.b2n (fin_signalled r) = Nat.b2n (fin_signalled r'))%nat /\
  (fin_signalled r' = true -> fin_signalled r = true \/ (fin_received r = true /\ fin_offset r <= consumed_offset r')).

Lemma have_step consumed d q n :
  0 <= n -> 0 <= consumed -> sd_offset d = consumed -> have consumed (d :: q) n <-> have (sd_end d) q n.
Proof. intros H0 Hc Ho. unfold have. rewrite stored_cons. unfold in_block, sd_end, sd_length. split; intuition lia. Qed.

Lemma callback_loop_spec content q r :
  recv_ok content (RecvState (consumed_offset r) (fin_offset r) (fin_received r) (fin_signalled r) q) ->
  let '(events, r') := callback_loop q r in
  delivers content (RecvState (consumed_offset r) (fin_offset r) (fin_received r) (fin_signalled r) q) events r'.
Proof.
  revert r. induction q as [|d q IH]; intros r (Hc & Hq & Hb); cbn [callback_loop].
  { unfold delivers. cbn in *. rewrite Z.sub_diag. split_and!; try done; try lia.
    - unfold has, have. cbn. rewrite stored_nil. lia.
    - by left. }
  cbn [consumed_offset stream_queue] in *. destruct Hq as (Hlo & Hpos & H64 & Hq). apply list.Forall_cons in Hb as [Hbd Hb].
  destruct (Z.leb_spec (sd_offset d) (consumed_offset r)) as [Hle|Hgt].
  2: { unfold delivers. cbn. rewrite Z.sub_diag. split_and!; try done; try lia.
    - split_and!; try done; cbn; try lia. by apply Forall_cons.
    - unfold has, have. cbn. intros [|Hs]; [lia|].
      apply (stored_above (sd_offset d)) in Hs; [lia|]. cbn. split_and!; (done || lia).
    - by left. }
  assert (Heq : sd_offset d = consumed_offset r) by lia.
  replace (consumed_offset r - sd_offset d) with 0 by lia. rewrite Z.sub_0_r. change (Z.to_nat 0) with 0%nat. rewrite drop_0.
  unfold sd_end in *. rewrite (u64_small (sd_length d)), (u64_small (consumed_offset r + _)) by lia.
  assert (Hall : take (Z.to_nat (sd_length d)) (sd_bytes d) = sd_bytes d) by (apply take_ge; unfold sd_length; lia).
  rewrite Hall. cbn [consumed_offset]. set (fin := fin_now _).
  specialize (IH (RecvState (consumed_offset r + sd_length d) (fin_offset r) (fin_received r) (fin || fin_signalled r) q)).
  destruct (callback_loop q _) as [events r'] eqn:E. cbn [consumed_offset fin_offset fin_received fin_signalled] in IH.
  destruct IH as (Hok & Hmono & Hbytes & Hmiss & Hhas & Hfo & Hfr & Hfs & Hsig).
  { split_and!; cbn; try lia; [by rewrite <- Heq|done]. }
  cbn [consumed_offset fin_offset fin_received fin_signalled stream_queue] in *. unfold delivers.
  cbn [consumed_offset fin_offset fin_received fin_signalled stream_queue]. split_and!; try done; try lia.
  - change (sd_bytes d ++ mjoin events.*1 = slice content (consumed_offset r) (consumed_offset r' - consumed_offset r)).
    rewrite Hbytes, Hbd, Heq. rewrite <- slice_app by lia. f_equal. lia.
  - intros n Hn. rewrite Hhas by done. unfold has. cbn. rewrite (have_step (consumed_offset r) d q n) by (done || lia).
    unfold sd_end. by rewrite Heq.
  - unfold fin_count in *. cbn [List.filter]. destruct fin eqn:Hfin; cbn [is_fin snd List.filter length] in *; [|done].
    unfold fin, fin_now in Hfin. cbn in Hfin. reflect_cmp. destruct (fin_signalled r); [done|]. cbn in *. lia.
  - intros Hs. destruct (Hsig Hs) as [Hor|]; [|by right]. apply orb_true_iff in Hor as [Hfin|]; [right|by left].
    unfold fin, fin_now in Hfin. cbn in Hfin. reflect_cmp. split; [done|lia].
Qed.

Lemma data_callback_correct content r :
  recv_ok content r ->
  let '(events, r') := picoquic_stream_data_callback r in
  delivers content r events r' /\
  (fin_signalled r' = true <-> fin_signalled r = true \/ (fin_received r = true /\ fin_offset r <= consumed_offset r')).
Proof.
  intros Hok. unfold picoquic_stream_data_callback. pose proof (callback_loop_spec content (stream_queue r) r) as H.
  assert (Hr : RecvState (consumed_offset r) (fin_offset r) (fin_received r) (fin_signalled r) (stream_queue r) = r) by (by destruct r).
  rewrite Hr in H. specialize (H Hok).
  destruct (callback_loop (stream_queue r) r) as [events r'].
  destruct H as (Hok' & Hmono & Hbytes & Hmiss & Hhas & Hfo & Hfr & Hfs & Hsig).
  destruct (fin_now r') eqn:Hnow.
  - unfold fin_now in Hnow. rewrite Hfo, Hfr in Hnow. reflect_cmp. split.
    + unfold delivers. cbn. split_and!; try done.
      * rewrite fmap_app, <- Hbytes. cbn. unfold mjoin. rewrite join_app. cbn. by rewrite app_nil_r.
      * unfold fin_count in *. rewrite List.filter_app, length_app. cbn. rewrite H0 in Hfs. cbn in Hfs. lia.
      * by right.
    + cbn. split; [by right|done].
  - split; [done|]. split; [done|]. unfold fin_now in Hnow. rewrite Hfo, Hfr in Hnow. intros [Hs|[Hrec Hle]].
    + rewrite Hs in Hfs. destruct (fin_signalled r'); [done|]. cbn in Hfs. lia.
    + rewrite Hrec in Hnow. destruct (Z.leb_spec (fin_offset r) (consumed_offset r')); [|lia]. cbn in Hnow.
      by apply negb_false_iff in Hnow.
Qed.

(** ** Any history of frames *)

(** The end of [picoquic_stream_network_input] and of [process_plugin_frame]: queue the
    bytes, then notify the application when there is something new. *)
Definition queue_and_notify (malloc_ok has_callback should_notify : bool) (r : recv_state) (offset : Z) (bytes : list Z) :
    bool * list (list Z * callback_event) * recv_state :=
  let '(failed, q, new_data_available) :=
    picoquic_queue_network_input malloc_ok (consumed_offset r) (stream_queue r) offset bytes in
  let r := RecvState (consumed_offset r) (fin_offset r) (fin_received r) (fin_signalled r) q in
  if negb failed && (should_notify || new_data_available) && has_callback
  then let '(events, r) := picoquic_stream_data_callback r in (failed, events, r)
  else (failed, [], r).

Definition in_frame (n : Z) (f : Z * Z) : Prop := f.1 <= n < f.1 + f.2.
Definition frame_ok (f : Z * Z) : Prop := 0 <= f.1 /\ 0 <= f.2 /\ f.1 + f.2 < 2 ^ 64.

(** The arrival of the frames (offset, length) of a stream, oldest first. *)
Fixpoint run_frames (content : Z -> Z) (r : recv_state) (frames : list (Z * Z)) : list (list Z * callback_event) * recv_state :=
  match frames with
  | [] => ([], r)
  | (offset, len) :: frames' =>
    let '(_, events, r) := queue_and_notify true true false r offset (slice content offset len) in
    let '(events', r) := run_frames content r frames' in (events ++ events', r)
  end.

Definition init_recv : recv_state := RecvState 0 0 false false [].

(** A state between frames: nothing that could be delivered is waiting. *)
Definition settled (content : Z -> Z) (r : recv_state) : Prop :=
  recv_ok content r /\ ~ has r (consumed_offset r).

Lemma frame_step content r offset len :
  settled content r -> frame_ok (offset, len) ->
  let '(failed, events, r') := queue_and_notify true true false r offset (slice content offset len) in
  failed = false /\ settled content r' /\ consumed_offset r <= consumed_offset r' /\
  mjoin events.*1 = slice content (consumed_offset r) (consumed_offset r' - consumed_offset r) /\
  (forall n, 0 <= n -> has r' n <-> has r n \/
     (in_frame n (offset, len) /\ ~ has r n /\ first_run (consumed_offset r) (stream_queue r) offset n)).
Proof.
  intros [(Hc & Hq & Hb) Hmiss] (Ho & Hl & H64). cbn [fst snd] in *. unfold queue_and_notify.
  pose proof (queue_input_correct content (consumed_offset r) (stream_queue r) offset len ltac:(lia) Ho Hl H64 Hq Hb) as H.
  destruct (picoquic_queue_network_input _ _ _ _ _) as [[failed q'] new]. destruct H as (-> & Hq' & Hb' & Hhave & Hnew & Hsame).
  set (r1 := RecvState _ _ _ _ q'). cbn [negb orb andb]. rewrite andb_true_r.
  assert (Hhas1 : forall n, has r1 n <-> has r n \/
     (in_frame n (offset, len) /\ ~ has r n /\ first_run (consumed_offset r) (stream_queue r) offset n)) by (intros n; apply Hhave).
  destruct new.
  - assert (Hok1 : recv_ok content r1) by (split; [done|split; done]).
    pose proof (data_callback_correct content r1 Hok1) as Hcb. destruct (picoquic_stream_data_callback r1) as [events r'].
    destruct Hcb as [(Hok' & Hmono & Hbytes & Hmiss' & Hhas & _) _].
    split_and!; try done. intros n Hn. by rewrite Hhas, Hhas1.
  - pose proof (Hsame eq_refl) as ->. assert (Hr : r1 = r) by (unfold r1; by destruct r). rewrite Hr in *.
    cbn. rewrite Z.sub_diag. split_and!; try done; try lia; auto.
Qed.

(** Two frames that are the same or have no byte in common. *)
Definition aligned (f g : Z * Z) : Prop := f = g \/ (f.1 + f.2 <= g.1 \/ g.1 + g.2 <= f.1).

Lemma run_frames_spec content frames r arrived :
  settled content r -> Forall frame_ok frames ->
  (forall n, 0 <= n -> has r n -> Exists (in_frame n) arrived) ->
  let '(events, r') := run_frames content r frames in
  settled content r' /\ consumed_offset r <= consumed_offset r' /\
  mjoin events.*1 = slice content (consumed_offset r) (consumed_offset r' - consumed_offset r) /\
  (forall n, 0 <= n -> has r' n -> Exists (in_frame n) (arrived ++ frames)) /\
  ((forall n, 0 <= n -> Exists (in_frame n) arrived -> has r n) ->
   (forall f g, f ∈ arrived ++ frames -> g ∈ arrived ++ frames -> aligned f g) ->
   forall n, 0 <= n -> Exists (in_frame n) (arrived ++ frames) -> has r' n).
Proof.
  revert r arrived. induction frames as [|[offset len] frames IH]; intros r arrived Hset Hfr Harr; cbn [run_frames].
  { rewrite app_nil_r, Z.sub_diag. split_and!; (done || lia || auto). }
  apply list.Forall_cons in Hfr as [Hf Hfr]. pose proof (frame_step content r offset len Hset Hf) as Hstep.
  destruct (queue_and_notify _ _ _ _ _ _) as [[failed ev1] r1]. destruct Hstep as (_ & Hset1 & Hmono1 & Hbytes1 & Hhas1).
  assert (Harr1 : forall n, 0 <= n -> has r1 n -> Exists (in_frame n) (arrived ++ [(offset, len)])).
  { intros n Hn. rewrite Hhas1, Exists_app, Exists_cons by done. intros [Hh|(Hin & _)]; [left; by apply Harr|auto]. }
  specialize (IH r1 (arrived ++ [(offset, len)]) Hset1 Hfr Harr1).
  destruct (run_frames content r1 frames) as [ev2 r2]. destruct IH as (Hset2 & Hmono2 & Hbytes2 & Harr2 & Hall2).
  rewrite <- app_assoc in Harr2, Hall2. cbn [app] in Harr2, Hall2. split_and!; try done; try lia.
  - rewrite fmap_app, join_app. unfold mjoin in *. rewrite Hbytes1, Hbytes2. rewrite slice_app' by lia. f_equal. lia.
  - intros Hall Hal. apply Hall2; [|done]. intros n Hn. rewrite Exists_app, Exists_cons, Exists_nil, Hhas1 by done.
    intros [Hin|[Hin|[]]]; [left; by apply Hall|]. destruct (decide (Exists (in_frame n) arrived)) as [|Hno]; [left; by apply Hall|].
    right. split; [done|]. split; [by intros ?%Harr|].
    intros j k Hj Hk Hnj Hhk. apply Hno. apply Harr in Hhk; [|destruct Hf; cbn in *; lia].
    apply list.Exists_exists in Hhk as (g & Hg & Hkg). apply list.Exists_exists. exists g. split; [done|].
    destruct (Hal g (offset, len)) as [->|Hdis]; [apply elem_of_app; by left|apply elem_of_app; right; left|done|].
    unfold in_frame in *. cbn [fst snd] in *. lia.
Qed.

(** ** Properties *)

(** One frame and the reassembly queue: the queue stays sorted, disjoint and true
    to the stream; what the receiver has grows by exactly the frame's first run of
    missing bytes, never by anything else, and [new_data_available] is set exactly
    when some byte of the frame was missing. *)
Theorem queue_network_input_correct content consumed q offset len :
  0 <= consumed -> 0 <= offset -> 0 <= len -> offset + len < 2 ^ 64 -> queue_from consumed q -> Forall (block_of content) q ->
  let '(failed, q', new_data) := picoquic_queue_network_input true consumed q offset (slice content offset len) in
  failed = false /\ queue_from consumed q' /\ Forall (block_of content) q' /\
  (forall n, have consumed q' n <->
     have consumed q n \/ (offset <= n < offset + len /\ ~ have consumed q n /\ first_run consumed q offset n)) /\
  (new_data = true <-> exists n, offset <= n < offset + len /\ ~ have consumed q n) /\
  (new_data = false -> q' = q).
Proof. apply queue_input_correct. Qed.

Lemma queue_network_input_correct_witness :
  let q := [StreamData 6 [6; 7]] in let q' := [StreamData 2 [2; 3; 4; 5]; StreamData 6 [6; 7]] in
  picoquic_queue_network_input true 2 q 0 (slice id 0 10) = (false, q', true) /\
  forall n, have 2 q' n <-> have 2 q n \/ (0 <= n < 0 + 10 /\ ~ have 2 q n /\ first_run 2 q 0 n).
Proof.
  split; [reflexivity|].
  pose proof (queue_network_input_correct id 2 [StreamData 6 [6; 7]] 0 10 ltac:(lia) ltac:(lia) ltac:(lia) ltac:(lia)) as H.
  destruct H as (_ & _ & _ & H & _); [cbn; unfold sd_end, sd_length; cbn; lia|repeat constructor|]. exact H.
Defined.

(** The frames of a stream in any order, from an empty receiver. *)
Lemma frames_in_order content frames :
  Forall frame_ok frames ->
  let '(events, r) := run_frames content init_recv frames in
  0 <= consumed_offset r /\ mjoin events.*1 = slice content 0 (consumed_offset r) /\ ~ has r (consumed_offset r) /\
  (forall n, 0 <= n < consumed_offset r -> Exists (in_frame n) frames) /\
  ((forall f g, f ∈ frames -> g ∈ frames -> aligned f g) -> ~ Exists (in_frame (consumed_offset r)) frames).
Proof.
  intros Hf. pose proof (run_frames_spec content frames init_recv []) as H.
  assert (Hno : forall n, ~ has init_recv n).
  { intros n. unfold has, have. cbn. rewrite stored_nil. lia. }
  specialize (H ltac:(split; [by split|apply Hno]) Hf ltac:(by intros n _ ?%Hno)).
  destruct (run_frames content init_recv frames) as [events r]. cbn [app] in H.
  destruct H as ([Hok Hmiss] & Hmono & Hbytes & Harr & Hall). cbn in Hmono. rewrite Z.sub_0_r in Hbytes.
  split_and!; [done|done|done| |].
  - intros n Hn. apply Harr; [lia|]. by left.
  - intros Hal Hex. apply Hmiss, Hall; try done. by intros n _ ?%Exists_nil.
Qed.

(** C2. In-order delivery without loss, repetition or invention: whatever the order,
    overlap and repetition of the STREAM frames, the bytes handed to the application
    are the stream's, from the start up to [consumed_offset], the first byte the
    receiver does not have; and if the frames that overlap are equal (the peer
    retransmits frames as they were), that is the first byte that has not arrived. *)
Theorem reassembly_in_order content frames :
  Forall frame_ok frames ->
  let '(events, r) := run_frames content init_recv frames in
  mjoin events.*1 = slice content 0 (consumed_offset r) /\ ~ has r (consumed_offset r) /\
  (forall n, 0 <= n < consumed_offset r -> Exists (in_frame n) frames) /\
  ((forall f g, f ∈ frames -> g ∈ frames -> aligned f g) -> ~ Exists (in_frame (consumed_offset r)) frames).
Proof.
  intros Hf. pose proof (frames_in_order content frames Hf) as H.
  destruct (run_frames content init_recv frames) as [events r]. apply H.
Qed.

Lemma reassembly_in_order_witness :
  let frames := [(5, 5); (5, 5); (0, 5)] in
  run_frames id init_recv frames =
    ([([0; 1; 2; 3; 4], picoquic_callback_no_event); ([5; 6; 7; 8; 9], picoquic_callback_no_event)], RecvState 10 0 false false []) /\
  ~ Exists (in_frame 10) frames.
Proof.
  cbv zeta. assert (Hrun : run_frames id init_recv [(5, 5); (5, 5); (0, 5)] =
    ([([0; 1; 2; 3; 4], picoquic_callback_no_event); ([5; 6; 7; 8; 9], picoquic_callback_no_event)], RecvState 10 0 false false []))
    by reflexivity.
  split; [exact Hrun|]. pose proof (reassembly_in_order id [(5, 5); (5, 5); (0, 5)]) as H. rewrite Hrun in H.
  destruct H as (_ & _ & _ & Hm); [repeat (apply Forall_cons_2; [unfold frame_ok; cbn [fst snd]; lia|]); apply Forall_nil_2|].
  apply Hm. clear Hrun Hm. intros f g Hf Hg. rewrite !elem_of_cons in Hf, Hg. unfold aligned.
  destruct Hf as [->|[->|[->|Hf]]]; [| | |by apply not_elem_of_nil in Hf];
    (destruct Hg as [->|[->|[->|Hg]]]; [| | |by apply not_elem_of_nil in Hg]); cbn [fst snd];
    (by left) || (right; lia).
Defined.

(** A frame that reaches over a queued block loses its tail: when a byte [j] of
    the frame is missing, a later byte [k] is queued and a still later byte [n] is
    missing, [n] is not stored although the frame carries it; the packet is
    acknowledged, so the peer does not send it again. *)
Theorem straddling_frame_loses content r offset len j k n :
  settled content r -> frame_ok (offset, len) ->
  offset <= j < k -> k < n < offset + len -> ~ has r j -> has r k -> ~ has r n ->
  let '(failed, _, r') := queue_and_notify true true false r offset (slice content offset len) in
  failed = false /\ ~ has r' n.
Proof.
  intros Hset Hf Hj Hn Hmj Hk Hmn. pose proof (frame_step content r offset len Hset Hf) as H.
  destruct (queue_and_notify _ _ _ _ _ _) as [[failed events] r']. destruct H as (-> & _ & _ & _ & Hhas).
  split; [done|]. rewrite Hhas by (destruct Hf; cbn in *; lia). intros [|(_ & _ & Hrun)]; [done|].
  by apply (Hrun j k Hj ltac:(lia) Hmj).
Qed.

Lemma straddling_frame_loses_witness :
  let r := RecvState 0 0 false false [StreamData 4 [4]] in
  let '(failed, events, r') := queue_and_notify true true false r 0 (slice id 0 10) in
  (failed = false /\ ~ has r' 7) /\ consumed_offset r' = 5.
Proof.
  split; [|reflexivity]. apply (straddling_frame_loses id (RecvState 0 0 false false [StreamData 4 [4]]) 0 10 0 4 7); try lia.
  - split; [split; [cbn; lia|]; split; [cbn; unfold sd_end, sd_length; cbn; lia|by repeat constructor]|].
    intros [|H]; [cbn in *; lia|]. cbn in H. apply stored_cons in H as [H|H]; [|by apply stored_nil in H].
    unfold in_block, sd_end, sd_length in H. cbn in H. lia.
  - by unfold frame_ok; cbn; lia.
  - intros [|H]; [cbn in *; lia|]. cbn in H. apply stored_cons in H as [H|H]; [|by apply stored_nil in H].
    unfold in_block, sd_end, sd_length in H. cbn in H. lia.
  - right. cbn. apply stored_cons. left. unfold in_block, sd_end, sd_length. cbn. lia.
  - intros [|H]; [cbn in *; lia|]. cbn in H. apply stored_cons in H as [H|H]; [|by apply stored_nil in H].
    unfold in_block, sd_end, sd_length in H. cbn in H. lia.
Defined.

End Reassembly.
