(* ===== verification/Streams.v ===== *)
(** * Streams, flow control and their frames: picoquic/frames.c

    The streams of a connection and the handlers of the frames that act on them:
    opening of streams and stream limits, flow control in both directions, RESET_STREAM,
    STOP_SENDING, STREAM, MAX_DATA, MAX_STREAM_DATA, MAX_STREAMS, the choice of the next
    stream to send on, and the errors they raise on the connection.

    A pointer to a stream is its stream id: the list of streams is sorted and has no
    duplicates, which is part of the invariant.  The application callback is a parameter
    ([callback_fails]: whether a call returns non-zero); its calls are recorded in the
    connection.  A callback that calls back into the connection is not modelled, and
    allocations succeed.  Hooks that plugins may replace have their built-in behaviour. *)
From stdpp Require Import base tactics list numbers sorting.
From Stdlib Require Import ZArith Lia Bool.
From S2P Require Import Prelude IntFormat Frames Reassembly.
Import IntFormat Frames Reassembly.
#[local] Open Scope Z_scope.

Module Streams.

Definition PICOQUIC_TRANSPORT_INTERNAL_ERROR : Z := 0x1.
Definition PICOQUIC_TRANSPORT_FLOW_CONTROL_ERROR : Z := 0x3.
Definition PICOQUIC_TRANSPORT_STREAM_LIMIT_ERROR : Z := 0x4.
Definition PICOQUIC_TRANSPORT_FINAL_SIZE_ERROR : Z := 0x6.

(** The positions of the states in [picoquic_state_enum]. *)
Definition picoquic_state_handshake_failure : Z := 9.
Definition picoquic_state_client_ready : Z := 12.
Definition picoquic_state_server_ready : Z := 13.
Definition picoquic_state_disconnecting : Z := 14.

(** [picoquic_stream_head]; the receiving side is a [recv_state], and in the send queue the
    offset of a block is the number of its bytes already sent. *)
Record stream_head := StreamHead {
  stream_id : Z;
  recv : recv_state;
  maxdata_local : Z;
  maxdata_remote : Z;
  local_error : Z;
  remote_error : Z;
  local_stop_error : Z;
  remote_stop_error : Z;
  sent_offset : Z;
  send_queue : list stream_data;
  is_active : bool;
  fin_requested : bool;
  fin_sent : bool;
  reset_requested : bool;
  reset_sent : bool;
  reset_received : bool;
  reset_signalled : bool;
  stop_sending_requested : bool;
  stop_sending_sent : bool;
  stop_sending_received : bool;
  stop_sending_signalled : bool;
  max_stream_updated : bool
}.

Definition set_recv (v : recv_state) (x : stream_head) : stream_head :=
  StreamHead (stream_id x) v (maxdata_local x) (maxdata_remote x) (local_error x) (remote_error x) (local_stop_error x) (remote_stop_error x) (sent_offset x) (send_queue x) (is_active x) (fin_requested x) (fin_sent x) (reset_requested x) (reset_sent x) (reset_received x) (reset_signalled x) (stop_sending_requested x) (stop_sending_sent x) (stop_sending_received x) (stop_sending_signalled x) (max_stream_updated x).
Definition set_maxdata_local (v : Z) (x : stream_head) : stream_head :=
  StreamHead (stream_id x) (recv x) v (maxdata_remote x) (local_error x) (remote_error x) (local_stop_error x) (remote_stop_error x) (sent_offset x) (send_queue x) (is_active x) (fin_requested x) (fin_sent x) (reset_requested x) (reset_sent x) (reset_received x) (reset_signalled x) (stop_sending_requested x) (stop_sending_sent x) (stop_sending_received x) (stop_sending_signalled x) (max_stream_updated x).
Definition set_maxdata_remote (v : Z) (x : stream_head) : stream_head :=
  StreamHead (stream_id x) (recv x) (maxdata_local x) v (local_error x) (remote_error x) (local_stop_error x) (remote_stop_error x) (sent_offset x) (send_queue x) (is_active x) (fin_requested x) (fin_sent x) (reset_requested x) (reset_sent x) (reset_received x) (reset_signalled x) (stop_sending_requested x) (stop_sending_sent x) (stop_sending_received x) (stop_sending_signalled x) (max_stream_updated x).
Definition set_remote_error (v : Z) (x : stream_head) : stream_head :=
  StreamHead (stream_id x) (recv x) (maxdata_local x) (maxdata_remote x) (local_error x) v (local_stop_error x) (remote_stop_error x) (sent_offset x) (send_queue x) (is_active x) (fin_requested x) (fin_sent x) (reset_requested x) (reset_sent x) (reset_received x) (reset_signalled x) (stop_sending_requested x) (stop_sending_sent x) (stop_sending_received x) (stop_sending_signalled x) (max_stream_updated x).
Definition set_remote_stop_error (v : Z) (x : stream_head) : stream_head :=
  StreamHead (stream_id x) (recv x) (maxdata_local x) (maxdata_remote x) (local_error x) (remote_error x) (local_stop_error x) v (sent_offset x) (send_queue x) (is_active x) (fin_requested x) (fin_sent x) (reset_requested x) (reset_sent x) (reset_received x) (reset_signalled x) (stop_sending_requested x) (stop_sending_sent x) (stop_sending_received x) (stop_sending_signalled x) (max_stream_updated x).
Definition set_send_queue (v : list stream_data) (x : stream_head) : stream_head :=
  StreamHead (stream_id x) (recv x) (maxdata_local x) (maxdata_remote x) (local_error x) (remote_error x) (local_stop_error x) (remote_stop_error x) (sent_offset x) v (is_active x) (fin_requested x) (fin_sent x) (reset_requested x) (reset_sent x) (reset_received x) (reset_signalled x) (stop_sending_requested x) (stop_sending_sent x) (stop_sending_received x) (stop_sending_signalled x) (max_stream_updated x).
Definition set_fin_requested (v : bool) (x : stream_head) : stream_head :=
  StreamHead (stream_id x) (recv x) (maxdata_local x) (maxdata_remote x) (local_error x) (remote_error x) (local_stop_error x) (remote_stop_error x) (sent_offset x) (send_queue x) (is_active x) v (fin_sent x) (reset_requested x) (reset_sent x) (reset_received x) (reset_signalled x) (stop_sending_requested x) (stop_sending_sent x) (stop_sending_received x) (stop_sending_signalled x) (max_stream_updated x).
Definition set_fin_sent (v : bool) (x : stream_head) : stream_head :=
  StreamHead (stream_id x) (recv x) (maxdata_local x) (maxdata_remote x) (local_error x) (remote_error x) (local_stop_error x) (remote_stop_error x) (sent_offset x) (send_queue x) (is_active x) (fin_requested x) v (reset_requested x) (reset_sent x) (reset_received x) (reset_signalled x) (stop_sending_requested x) (stop_sending_sent x) (stop_sending_received x) (stop_sending_signalled x) (max_stream_updated x).
Definition set_reset_sent (v : bool) (x : stream_head) : stream_head :=
  StreamHead (stream_id x) (recv x) (maxdata_local x) (maxdata_remote x) (local_error x) (remote_error x) (local_stop_error x) (remote_stop_error x) (sent_offset x) (send_queue x) (is_active x) (fin_requested x) (fin_sent x) (reset_requested x) v (reset_received x) (reset_signalled x) (stop_sending_requested x) (stop_sending_sent x) (stop_sending_received x) (stop_sending_signalled x) (max_stream_updated x).
Definition set_reset_received (v : bool) (x : stream_head) : stream_head :=
  StreamHead (stream_id x) (recv x) (maxdata_local x) (maxdata_remote x) (local_error x) (remote_error x) (local_stop_error x) (remote_stop_error x) (sent_offset x) (send_queue x) (is_active x) (fin_requested x) (fin_sent x) (reset_requested x) (reset_sent x) v (reset_signalled x) (stop_sending_requested x) (stop_sending_sent x) (stop_sending_received x) (stop_sending_signalled x) (max_stream_updated x).
Definition set_reset_signalled (v : bool) (x : stream_head) : stream_head :=
  StreamHead (stream_id x) (recv x) (maxdata_local x) (maxdata_remote x) (local_error x) (remote_error x) (local_stop_error x) (remote_stop_error x) (sent_offset x) (send_queue x) (is_active x) (fin_requested x) (fin_sent x) (reset_requested x) (reset_sent x) (reset_received x) v (stop_sending_requested x) (stop_sending_sent x) (stop_sending_received x) (stop_sending_signalled x) (max_stream_updated x).
Definition set_stop_sending_received (v : bool) (x : stream_head) : stream_head :=
  StreamHead (stream_id x) (recv x) (maxdata_local x) (maxdata_remote x) (local_error x) (remote_error x) (local_stop_error x) (remote_stop_error x) (sent_offset x) (send_queue x) (is_active x) (fin_requested x) (fin_sent x) (reset_requested x) (reset_sent x) (reset_received x) (reset_signalled x) (stop_sending_requested x) (stop_sending_sent x) v (stop_sending_signalled x) (max_stream_updated x).
Definition set_stop_sending_signalled (v : bool) (x : stream_head) : stream_head :=
  StreamHead (stream_id x) (recv x) (maxdata_local x) (maxdata_remote x) (local_error x) (remote_error x) (local_stop_error x) (remote_stop_error x) (sent_offset x) (send_queue x) (is_active x) (fin_requested x) (fin_sent x) (reset_requested x) (reset_sent x) (reset_received x) (reset_signalled x) (stop_sending_requested x) (stop_sending_sent x) (stop_sending_received x) v (max_stream_updated x).
Definition set_max_stream_updated (v : bool) (x : stream_head) : stream_head :=
  StreamHead (stream_id x) (recv x) (maxdata_local x) (maxdata_remote x) (local_error x) (remote_error x) (local_stop_error x) (remote_stop_error x) (sent_offset x) (send_queue x) (is_active x) (fin_requested x) (fin_sent x) (reset_requested x) (reset_sent x) (reset_received x) (reset_signalled x) (stop_sending_requested x) (stop_sending_sent x) (stop_sending_received x) (stop_sending_signalled x) v.

(** The initial limits of [picoquic_tp_t] that concern streams. *)
Record stream_parameters := StreamParameters {
  initial_max_stream_data_bidi_local : Z; initial_max_stream_data_bidi_remote : Z; initial_max_stream_data_uni : Z
}.

(** A call to the application. *)
Inductive app_event := app_data (fin : bool) | app_stream_reset | app_stop_sending.
Record callback := Callback { cb_stream_id : Z; cb_bytes : list Z; cb_event : app_event }.

(** The part of [picoquic_cnx_t] that concerns streams; the newest callback is first. *)
Record cnx := Cnx {
  client_mode : bool;
  streams : list stream_head;
  local_parameters : stream_parameters;
  remote_parameters : stream_parameters;
  cnx_maxdata_local : Z;
  cnx_maxdata_remote : Z;
  data_received : Z;
  data_sent : Z;
  max_stream_id_bidir_local : Z;
  max_stream_id_unidir_local : Z;
  max_stream_id_bidir_local_computed : Z;
  max_stream_id_unidir_local_computed : Z;
  max_stream_id_bidir_remote : Z;
  max_stream_id_unidir_remote : Z;
  max_stream_receive_window_size : Z;
  last_visited_stream_id : Z;
  cnx_state : Z;
  cnx_local_error : Z;
  offending_frame_type : Z;
  latest_progress_time : Z;
  callbacks : list callback
}.

Definition set_streams (v : list stream_head) (x : cnx) : cnx :=
  Cnx (client_mode x) v (local_parameters x) (remote_parameters x) (cnx_maxdata_local x) (cnx_maxdata_remote x) (data_received x) (data_sent x) (max_stream_id_bidir_local x) (max_stream_id_unidir_local x) (max_stream_id_bidir_local_computed x) (max_stream_id_unidir_local_computed x) (max_stream_id_bidir_remote x) (max_stream_id_unidir_remote x) (max_stream_receive_window_size x) (last_visited_stream_id x) (cnx_state x) (cnx_local_error x) (offending_frame_type x) (latest_progress_time x) (callbacks x).
Definition set_cnx_maxdata_local (v : Z) (x : cnx) : cnx :=
  Cnx (client_mode x) (streams x) (local_parameters x) (remote_parameters x) v (cnx_maxdata_remote x) (data_received x) (data_sent x) (max_stream_id_bidir_local x) (max_stream_id_unidir_local x) (max_stream_id_bidir_local_computed x) (max_stream_id_unidir_local_computed x) (max_stream_id_bidir_remote x) (max_stream_id_unidir_remote x) (max_stream_receive_window_size x) (last_visited_stream_id x) (cnx_state x) (cnx_local_error x) (offending_frame_type x) (latest_progress_time x) (callbacks x).
Definition set_cnx_maxdata_remote (v : Z) (x : cnx) : cnx :=
  Cnx (client_mode x) (streams x) (local_parameters x) (remote_parameters x) (cnx_maxdata_local x) v (data_received x) (data_sent x) (max_stream_id_bidir_local x) (max_stream_id_unidir_local x) (max_stream_id_bidir_local_computed x) (max_stream_id_unidir_local_computed x) (max_stream_id_bidir_remote x) (max_stream_id_unidir_remote x) (max_stream_receive_window_size x) (last_visited_stream_id x) (cnx_state x) (cnx_local_error x) (offending_frame_type x) (latest_progress_time x) (callbacks x).
Definition set_data_received (v : Z) (x : cnx) : cnx :=
  Cnx (client_mode x) (streams x) (local_parameters x) (remote_parameters x) (cnx_maxdata_local x) (cnx_maxdata_remote x) v (data_sent x) (max_stream_id_bidir_local x) (max_stream_id_unidir_local x) (max_stream_id_bidir_local_computed x) (max_stream_id_unidir_local_computed x) (max_stream_id_bidir_remote x) (max_stream_id_unidir_remote x) (max_stream_receive_window_size x) (last_visited_stream_id x) (cnx_state x) (cnx_local_error x) (offending_frame_type x) (latest_progress_time x) (callbacks x).
Definition set_max_stream_id_bidir_local_computed (v : Z) (x : cnx) : cnx :=
  Cnx (client_mode x) (streams x) (local_parameters x) (remote_parameters x) (cnx_maxdata_local x) (cnx_maxdata_remote x) (data_received x) (data_sent x) (max_stream_id_bidir_local x) (max_stream_id_unidir_local x) v (max_stream_id_unidir_local_computed x) (max_stream_id_bidir_remote x) (max_stream_id_unidir_remote x) (max_stream_receive_window_size x) (last_visited_stream_id x) (cnx_state x) (cnx_local_error x) (offending_frame_type x) (latest_progress_time x) (callbacks x).
Definition set_max_stream_id_unidir_local_computed (v : Z) (x : cnx) : cnx :=
  Cnx (client_mode x) (streams x) (local_parameters x) (remote_parameters x) (cnx_maxdata_local x) (cnx_maxdata_remote x) (data_received x) (data_sent x) (max_stream_id_bidir_local x) (max_stream_id_unidir_local x) (max_stream_id_bidir_local_computed x) v (max_stream_id_bidir_remote x) (max_stream_id_unidir_remote x) (max_stream_receive_window_size x) (last_visited_stream_id x) (cnx_state x) (cnx_local_error x) (offending_frame_type x) (latest_progress_time x) (callbacks x).
Definition set_max_stream_id_bidir_remote (v : Z) (x : cnx) : cnx :=
  Cnx (client_mode x) (streams x) (local_parameters x) (remote_parameters x) (cnx_maxdata_local x) (cnx_maxdata_remote x) (data_received x) (data_sent x) (max_stream_id_bidir_local x) (max_stream_id_unidir_local x) (max_stream_id_bidir_local_computed x) (max_stream_id_unidir_local_computed x) v (max_stream_id_unidir_remote x) (max_stream_receive_window_size x) (last_visited_stream_id x) (cnx_state x) (cnx_local_error x) (offending_frame_type x) (latest_progress_time x) (callbacks x).
Definition set_max_stream_id_unidir_remote (v : Z) (x : cnx) : cnx :=
  Cnx (client_mode x) (streams x) (local_parameters x) (remote_parameters x) (cnx_maxdata_local x) (cnx_maxdata_remote x) (data_received x) (data_sent x) (max_stream_id_bidir_local x) (max_stream_id_unidir_local x) (max_stream_id_bidir_local_computed x) (max_stream_id_unidir_local_computed x) (max_stream_id_bidir_remote x) v (max_stream_receive_window_size x) (last_visited_stream_id x) (cnx_state x) (cnx_local_error x) (offending_frame_type x) (latest_progress_time x) (callbacks x).
Definition set_cnx_state (v : Z) (x : cnx) : cnx :=
  Cnx (client_mode x) (streams x) (local_parameters x) (remote_parameters x) (cnx_maxdata_local x) (cnx_maxdata_remote x) (data_received x) (data_sent x) (max_stream_id_bidir_local x) (max_stream_id_unidir_local x) (max_stream_id_bidir_local_computed x) (max_stream_id_unidir_local_computed x) (max_stream_id_bidir_remote x) (max_stream_id_unidir_remote x) (max_stream_receive_window_size x) (last_visited_stream_id x) v (cnx_local_error x) (offending_frame_type x) (latest_progress_time x) (callbacks x).
Definition set_cnx_local_error (v : Z) (x : cnx) : cnx :=
  Cnx (client_mode x) (streams x) (local_parameters x) (remote_parameters x) (cnx_maxdata_local x) (cnx_maxdata_remote x) (data_received x) (data_sent x) (max_stream_id_bidir_local x) (max_stream_id_unidir_local x) (max_stream_id_bidir_local_computed x) (max_stream_id_unidir_local_computed x) (max_stream_id_bidir_remote x) (max_stream_id_unidir_remote x) (max_stream_receive_window_size x) (last_visited_stream_id x) (cnx_state x) v (offending_frame_type x) (latest_progress_time x) (callbacks x).
Definition set_offending_frame_type (v : Z) (x : cnx) : cnx :=
  Cnx (client_mode x) (streams x) (local_parameters x) (remote_parameters x) (cnx_maxdata_local x) (cnx_maxdata_remote x) (data_received x) (data_sent x) (max_stream_id_bidir_local x) (max_stream_id_unidir_local x) (max_stream_id_bidir_local_computed x) (max_stream_id_unidir_local_computed x) (max_stream_id_bidir_remote x) (max_stream_id_unidir_remote x) (max_stream_receive_window_size x) (last_visited_stream_id x) (cnx_state x) (cnx_local_error x) v (latest_progress_time x) (callbacks x).
Definition set_latest_progress_time (v : Z) (x : cnx) : cnx :=
  Cnx (client_mode x) (streams x) (local_parameters x) (remote_parameters x) (cnx_maxdata_local x) (cnx_maxdata_remote x) (data_received x) (data_sent x) (max_stream_id_bidir_local x) (max_stream_id_unidir_local x) (max_stream_id_bidir_local_computed x) (max_stream_id_unidir_local_computed x) (max_stream_id_bidir_remote x) (max_stream_id_unidir_remote x) (max_stream_receive_window_size x) (last_visited_stream_id x) (cnx_state x) (cnx_local_error x) (offending_frame_type x) v (callbacks x).
Definition set_callbacks (v : list callback) (x : cnx) : cnx :=
  Cnx (client_mode x) (streams x) (local_parameters x) (remote_parameters x) (cnx_maxdata_local x) (cnx_maxdata_remote x) (data_received x) (data_sent x) (max_stream_id_bidir_local x) (max_stream_id_unidir_local x) (max_stream_id_bidir_local_computed x) (max_stream_id_unidir_local_computed x) (max_stream_id_bidir_remote x) (max_stream_id_unidir_remote x) (max_stream_receive_window_size x) (last_visited_stream_id x) (cnx_state x) (cnx_local_error x) (offending_frame_type x) (latest_progress_time x) v.

Definition b2z (b : bool) : Z := if b then 1 else 0.

(** The macros on stream ids; [client_mode] is 0 or 1. *)
Definition IS_CLIENT_STREAM_ID (id : Z) : bool := Z.land id 1 =? 0.
Definition IS_BIDIR_STREAM_ID (id : Z) : bool := Z.land id 2 =? 0.
Definition IS_LOCAL_STREAM_ID (id : Z) (client_mode : bool) : bool := negb (Z.land (Z.lxor id (b2z client_mode)) 1 =? 0).
Definition STREAM_ID_FROM_RANK (rank : Z) (is_server_stream is_unidir : bool) : Z :=
  Z.lor (Z.lor (u64 (Z.shiftl (u64 (rank - 1)) 2)) (Z.shiftl (b2z is_unidir) 1)) (b2z is_server_stream).

(** ** Errors *)

Definition connection_error (err frame_type : Z) (c : cnx) : cnx :=
  let c :=
    if (cnx_state c =? picoquic_state_client_ready) || (cnx_state c =? picoquic_state_server_ready)
    then set_cnx_state picoquic_state_disconnecting (set_cnx_local_error err c)
    else if cnx_state c <? picoquic_state_client_ready
    then set_cnx_state picoquic_state_handshake_failure (set_cnx_local_error err c)
    else c in
  set_offending_frame_type frame_type c.

(** ** The list of streams *)

Fixpoint find_in (id : Z) (l : list stream_head) : option stream_head :=
  match l with
  | [] => None
  | s :: l' => if stream_id s =? id then Some s else find_in id l'
  end.

(** Writing through a pointer to the stream [id]. *)
Definition update_in (id : Z) (f : stream_head -> stream_head) (l : list stream_head) : list stream_head :=
  (fun s => if stream_id s =? id then f s else s) <$> l.

Definition update_stream (id : Z) (f : stream_head -> stream_head) (c : cnx) : cnx :=
  set_streams (update_in id f (streams c)) c.

(** The insertion that keeps the list in order. *)
Fixpoint insert_stream (s : stream_head) (l : list stream_head) : list stream_head :=
  match l with
  | [] => [s]
  | next :: l' => if stream_id next <? stream_id s then next :: insert_stream s l' else s :: l
  end.

Definition new_stream (c : cnx) (id : Z) : stream_head :=
  let lp := local_parameters c in
  let rp := remote_parameters c in
  let '(local, remote) :=
    if IS_LOCAL_STREAM_ID id (client_mode c) then
      if IS_BIDIR_STREAM_ID id then (initial_max_stream_data_bidi_local lp, initial_max_stream_data_bidi_remote rp)
      else (0, initial_max_stream_data_uni rp)
    else
      if IS_BIDIR_STREAM_ID id then (initial_max_stream_data_bidi_remote lp, initial_max_stream_data_bidi_local rp)
      else (initial_max_stream_data_uni lp, 0) in
  StreamHead id init_recv local remote 0 0 0 0 0 [] false false false false false false false false false false false false.

Definition picoquic_create_stream (id : Z) (c : cnx) : cnx :=
  set_streams (insert_stream (new_stream c id) (streams c)) c.

Definition picoquic_update_stream_initial_remote (c : cnx) : cnx :=
  let rp := remote_parameters c in
  set_streams
    ((fun s =>
       if IS_LOCAL_STREAM_ID (stream_id s) (client_mode c) then
         let limit := if IS_BIDIR_STREAM_ID (stream_id s) then initial_max_stream_data_bidi_remote rp
                      else initial_max_stream_data_uni rp in
         if maxdata_remote s <? limit then set_maxdata_remote limit s else s
       else s) <$> streams c) c.

Definition picoquic_find_stream (id : Z) (create : bool) (c : cnx) : option stream_head * cnx :=
  match find_in id (streams c) with
  | Some s => (Some s, c)
  | None => if create then (Some (new_stream c id), picoquic_create_stream id c) else (None, c)
  end.

Definition picoquic_find_or_create_stream (id : Z) (is_remote : bool) (c : cnx) : option stream_head * cnx :=
  match find_in id (streams c) with
  | Some s => (Some s, c)
  | None =>
    let expect_client_stream := xorb (client_mode c) is_remote in
    let max_stream := if IS_BIDIR_STREAM_ID id then max_stream_id_bidir_local c else max_stream_id_unidir_local c in
    if negb (Bool.eqb (IS_CLIENT_STREAM_ID id) expect_client_stream) || (max_stream <? id)
    then (None, connection_error PICOQUIC_TRANSPORT_STREAM_LIMIT_ERROR 0 c)
    else
      let c := picoquic_create_stream id c in
      let c := if IS_BIDIR_STREAM_ID id then c
               else update_stream id (fun s => set_fin_sent true (set_fin_requested true s)) c in
      (find_in id (streams c), c)
  end.

(** ** Receiving *)

Definition set_recv_fin_offset (v : Z) (s : stream_head) : stream_head :=
  let r := recv s in set_recv (RecvState (consumed_offset r) v (fin_received r) (fin_signalled r) (stream_queue r)) s.
Definition set_recv_fin_received (s : stream_head) : stream_head :=
  let r := recv s in set_recv (RecvState (consumed_offset r) (fin_offset r) true (fin_signalled r) (stream_queue r)) s.

(** Returns [ret] and the connection. *)
Definition picoquic_flow_control_check_stream_offset (s : stream_head) (new_fin_offset : Z) (c : cnx) : Z * cnx :=
  if maxdata_local s <? new_fin_offset
  then (PICOQUIC_ERROR_DETECTED, connection_error PICOQUIC_TRANSPORT_FLOW_CONTROL_ERROR 0 c)
  else if fin_offset (recv s) <? new_fin_offset then
    let new_bytes := new_fin_offset - fin_offset (recv s) in
    if (cnx_maxdata_local c <? new_bytes) || (cnx_maxdata_local c - new_bytes <? data_received c)
    then (PICOQUIC_ERROR_DETECTED, connection_error PICOQUIC_TRANSPORT_FLOW_CONTROL_ERROR 0 c)
    else (0, update_stream (stream_id s) (set_recv_fin_offset new_fin_offset) (set_data_received (u64 (data_received c + new_bytes)) c))
  else (0, c).

(** The fields [max_stream_id_*_local_computed] advance when a stream of the peer is
    done in both directions. *)
Definition picoquic_update_max_stream_ID_local (id : Z) (c : cnx) : cnx :=
  match find_in id (streams c) with
  | None => c
  | Some s =>
    if negb (Bool.eqb (client_mode c) (IS_CLIENT_STREAM_ID id)) && negb (max_stream_updated s) then
      if (fin_offset (recv s) <=? consumed_offset (recv s)) && (fin_received (recv s) || reset_received s) then
        if IS_BIDIR_STREAM_ID id then
          if fin_sent s || reset_sent s
          then set_max_stream_id_bidir_local_computed (u64 (max_stream_id_bidir_local_computed c + 4))
                 (update_stream id (set_max_stream_updated true) c)
          else c
        else set_max_stream_id_unidir_local_computed (u64 (max_stream_id_unidir_local_computed c + 4))
               (update_stream id (set_max_stream_updated true) c)
      else c
    else c
  end.

Section Handlers.
(** The application: whether there is a callback, and whether a call fails. *)
Variable has_callback : bool.
Variable callback_fails : callback -> bool.

Definition run_callback (frame_type : Z) (b : callback) (c : cnx) : cnx :=
  let c := set_callbacks (b :: callbacks c) c in
  if callback_fails b then connection_error PICOQUIC_TRANSPORT_INTERNAL_ERROR frame_type c else c.

Definition process_stream_reset_frame (id app_error_code final_offset : Z) (c : cnx) : Z * cnx :=
  match picoquic_find_or_create_stream id true c with
  | (None, c) => (1, c)
  | (Some s, c) =>
    if (fin_received (recv s) || reset_received s) && negb (final_offset =? fin_offset (recv s))
    then (1, connection_error PICOQUIC_TRANSPORT_FINAL_SIZE_ERROR picoquic_frame_type_reset_stream c)
    else
      let '(ret, c) := picoquic_flow_control_check_stream_offset s final_offset c in
      if negb (ret =? 0) then (1, c)
      else if reset_received s then (0, c)
      else
        let c := update_stream id (fun s => set_remote_error app_error_code (set_reset_received true s)) c in
        let c := picoquic_update_max_stream_ID_local id c in
        if has_callback && negb (reset_signalled s) then
          let c := run_callback picoquic_frame_type_reset_stream (Callback id [] app_stream_reset) c in
          (0, update_stream id (set_reset_signalled true) c)
        else (0, c)
  end.

Definition process_stop_sending_frame (id application_error_code : Z) (c : cnx) : Z * cnx :=
  match picoquic_find_or_create_stream id true c with
  | (None, c) => (1, c)
  | (Some s, c) =>
    if negb (stop_sending_received s) && negb (reset_requested s) then
      let c := update_stream id (fun s => set_remote_stop_error application_error_code (set_stop_sending_received true s)) c in
      if has_callback && negb (stop_sending_signalled s) then
        let c := run_callback picoquic_frame_type_stop_sending (Callback id [] app_stop_sending) c in
        (0, update_stream id (set_stop_sending_signalled true) c)
      else (0, c)
    else (0, c)
  end.

Definition app_call (id : Z) (e : list Z * callback_event) : callback :=
  Callback id e.1 (app_data (is_fin e)).

(** The first half of [picoquic_stream_network_input], on an open stream: the final size
    and flow control checks.  Returns [ret], [should_notify] and the connection. *)
Definition check_final_size (s : stream_head) (fin : bool) (new_fin_offset current_time : Z) (c : cnx) : Z * bool * cnx :=
  if fin_received (recv s) then
    if (if fin then negb (fin_offset (recv s) =? new_fin_offset) else fin_offset (recv s) <? new_fin_offset)
    then (PICOQUIC_ERROR_DETECTED, false, connection_error PICOQUIC_TRANSPORT_FINAL_SIZE_ERROR 0 c)
    else (0, false, c)
  else
    let c :=
      if fin then
        let c := set_latest_progress_time current_time (update_stream (stream_id s) set_recv_fin_received c) in
        picoquic_update_max_stream_ID_local (stream_id s) c
      else c in
    if fin_offset (recv s) <? new_fin_offset then
      let '(ret, c) := picoquic_flow_control_check_stream_offset s new_fin_offset c in (ret, fin, c)
    else (0, fin, c).

Definition picoquic_stream_network_input (id offset : Z) (fin : bool) (bytes : list Z) (current_time : Z) (c : cnx) : Z * cnx :=
  let new_fin_offset := u64 (offset + Z.of_nat (length bytes)) in
  match picoquic_find_or_create_stream id true c with
  | (None, c) => (1, c)
  | (Some s, c) =>
    let '(ret, should_notify, c) := check_final_size s fin new_fin_offset current_time c in
    if negb (ret =? 0) then (ret, c)
    else
      match find_in id (streams c) with
      | None => (ret, c)
      | Some s =>
        let new_data := (picoquic_queue_network_input true (consumed_offset (recv s)) (stream_queue (recv s)) offset bytes).2 in
        let '(_, events, r) := queue_and_notify true has_callback should_notify (recv s) offset bytes in
        let c := if new_data then set_latest_progress_time current_time c else c in
        let c := update_stream id (set_recv r) c in
        (0, foldl (fun c e => run_callback 0 (app_call id e) c) c events)
      end
  end.

Definition process_stream_frame (id offset : Z) (fin : bool) (bytes : list Z) (current_time : Z) (c : cnx) : Z * cnx :=
  let '(ret, c) := picoquic_stream_network_input id offset fin bytes current_time c in
  (if negb (ret =? 0) then 1 else 0, c).

(** ** Sending limits *)

Definition process_max_data_frame (maximum_data : Z) (c : cnx) : Z * cnx :=
  (0, if cnx_maxdata_remote c <? maximum_data then set_cnx_maxdata_remote maximum_data c else c).

Definition process_max_stream_data_frame (id maximum_stream_data : Z) (c : cnx) : Z * cnx :=
  match picoquic_find_stream id true c with
  | (None, c) => (1, c)
  | (Some s, c) =>
    (0, if maxdata_remote s <? maximum_stream_data then update_stream id (set_maxdata_remote maximum_stream_data) c else c)
  end.

Definition process_max_stream_id_frame (uni : bool) (maximum_streams : Z) (c : cnx) : Z * cnx :=
  let max_stream_id := STREAM_ID_FROM_RANK maximum_streams (negb (client_mode c)) uni in
  let max_id := if uni then max_stream_id_unidir_remote c else max_stream_id_bidir_remote c in
  (0, if max_id <? max_stream_id
      then (if uni then set_max_stream_id_unidir_remote else set_max_stream_id_bidir_remote) max_stream_id c
      else c).

(** The handler of a frame type for which none is registered. *)
Definition process_unknown_frame (c : cnx) : Z * cnx := (1, c).

(** A frame of the peer that acts on streams, and the handler registered for its type:
    there is none for MAX_STREAMS of unidirectional streams. *)
Inductive peer_frame :=
| PF_stream (id offset : Z) (fin : bool) (bytes : list Z)
| PF_reset_stream (id app_error_code final_offset : Z)
| PF_stop_sending (id application_error_code : Z)
| PF_max_data (maximum_data : Z)
| PF_max_stream_data (id maximum_stream_data : Z)
| PF_max_streams (uni : bool) (maximum_streams : Z).

Definition process_frame (current_time : Z) (f : peer_frame) (c : cnx) : Z * cnx :=
  match f with
  | PF_stream id offset fin bytes => process_stream_frame id offset fin bytes current_time c
  | PF_reset_stream id app_error_code final_offset => process_stream_reset_frame id app_error_code final_offset c
  | PF_stop_sending id application_error_code => process_stop_sending_frame id application_error_code c
  | PF_max_data maximum_data => process_max_data_frame maximum_data c
  | PF_max_stream_data id maximum_stream_data => process_max_stream_data_frame id maximum_stream_data c
  | PF_max_streams uni maximum_streams =>
    if uni then process_unknown_frame c else process_max_stream_id_frame uni maximum_streams c
  end.

End Handlers.

(** ** Granting more credit *)

(** [0.5 * max_stream_receive_window_size] is a product of doubles: the comparison is
    exact for values below 2^53. *)
Definition is_max_stream_data_frame_required (c : cnx) (s : stream_head) : bool * Z :=
  let consumed := consumed_offset (recv s) in
  let window := max_stream_receive_window_size c in
  let desired_offset := u64 (maxdata_local s + 2 * consumed) in
  let largest_possible_offset := u64 (consumed + Z.min window (UINT64_MAX - consumed)) in
  let should_update :=
    ((desired_offset <? largest_possible_offset) && (maxdata_local s <? u64 (2 * consumed))) ||
    ((largest_possible_offset <=? desired_offset) && (2 * u64 (maxdata_local s - consumed) <? window)) in
  (negb (fin_received (recv s)) && negb (reset_received s) && should_update, Z.min desired_offset largest_possible_offset).

(** The loop over the streams: [ret], [byte_index], the bytes and the streams. *)
Fixpoint required_loop (c : cnx) (l : list stream_head) (byte_index bytes_max : Z) : Z * Z * list Z * list stream_head :=
  match l with
  | [] => (0, byte_index, [], [])
  | s :: l' =>
    if byte_index <? bytes_max then
      let '(update_needed, new_offset) := is_max_stream_data_frame_required c s in
      if update_needed then
        let '(ret, n, bs, maxdata) :=
          picoquic_prepare_max_stream_data_frame (stream_id s) (maxdata_local s) new_offset (bytes_max - byte_index) in
        if ret =? 0 then
          let '(ret', i, bs', l'') := required_loop c l' (byte_index + n) bytes_max in
          (ret', i, bs ++ bs', set_maxdata_local maxdata s :: l'')
        else (ret, byte_index, [], l)
      else let '(ret', i, bs', l'') := required_loop c l' byte_index bytes_max in (ret', i, bs', s :: l'')
    else (0, byte_index, [], l)
  end.

Definition prepare_required_max_stream_data_frames (c : cnx) (bytes_max : Z) : Z * Z * list Z * cnx :=
  let '(ret, byte_index, bs, l) := required_loop c (streams c) 0 bytes_max in
  let ret := if ret =? PICOQUIC_ERROR_FRAME_BUFFER_TOO_SMALL then 0 else ret in
  (ret, if ret =? 0 then byte_index else 0, bs, set_streams l c).

(** ** Sending *)

(** The bytes are written at the target; [*consumed] is their number on success. *)
Definition picoquic_prepare_stream_reset_frame (s : stream_head) (bytes_max : Z) (c : cnx) : Z * Z * list Z * cnx :=
  if negb (reset_requested s) || reset_sent s then (0, 0, [], c)
  else
    let '(bs, l1, l2, l3) :=
      if 2 <? bytes_max then
        let e1 := picoquic_varint_encode (bytes_max - 1) (stream_id s) in
        let l1 := Z.of_nat (length e1) in
        let e2 := picoquic_varint_encode (bytes_max - 1 - l1) (local_error s) in
        let l2 := Z.of_nat (length e2) in
        let e3 := picoquic_varint_encode (bytes_max - 1 - l1 - l2) (sent_offset s) in
        (picoquic_frame_type_reset_stream :: e1 ++ e2 ++ e3, l1, l2, Z.of_nat (length e3))
      else ([], 0, 0, 0) in
    if (l1 =? 0) || (l2 =? 0) || (l3 =? 0) then (PICOQUIC_ERROR_FRAME_BUFFER_TOO_SMALL, 0, bs, c)
    else
      let id := stream_id s in
      let c := update_stream id (fun s => set_fin_sent true (set_reset_sent true s)) c in
      let c := picoquic_update_max_stream_ID_local id (picoquic_update_max_stream_ID_local id c) in
      (0, 1 + l1 + l2 + l3, bs, update_stream id (set_send_queue []) c).

(** The condition under which a stream may send. *)
Definition stream_ready (c : cnx) (s : stream_head) : bool :=
  (((data_sent c <? cnx_maxdata_remote c) && (sent_offset s <? maxdata_remote s) &&
    (is_active s ||
     match send_queue s with d :: _ => sd_offset d <? sd_length d | [] => false end ||
     (fin_requested s && negb (fin_sent s)))) ||
   (reset_requested s && negb (reset_sent s)) ||
   (stop_sending_requested s && negb (stop_sending_sent s))) &&
  (if Bool.eqb (IS_CLIENT_STREAM_ID (stream_id s)) (client_mode c)
   then stream_id s <=? max_stream_id_bidir_remote c else true).

(** One pass over the list; the second pass stops at the stream visited last. *)
Fixpoint ready_pass (nb_pass : nat) (c : cnx) (l : list stream_head) : option stream_head :=
  match l with
  | [] => None
  | s :: l' =>
    if stream_ready c s then Some s
    else match l' with
      | next :: _ =>
        if (0 <? nb_pass)%nat && (last_visited_stream_id c <? stream_id next) then None else ready_pass nb_pass c l'
      | [] => None
      end
  end.

Fixpoint skip_visited (last : Z) (l : list stream_head) : list stream_head :=
  match l with
  | s :: l' => if stream_id s <=? last then skip_visited last l' else l
  | [] => []
  end.

Definition find_ready_stream_round_robin (c : cnx) : option stream_head :=
  match ready_pass 0 c (skip_visited (last_visited_stream_id c) (streams c)) with
  | Some s => Some s
  | None => ready_pass 1 c (streams c)
  end.

(** ** Invariant *)

Definition total_fin (l : list stream_head) : Z := foldr (fun s acc => fin_offset (recv s) + acc) 0 l.

(** Bytes held in the reassembly queues. *)
Definition queued (q : list stream_data) : Z := foldr (fun d acc => sd_length d + acc) 0 q.
Definition total_queued (l : list stream_head) : Z := foldr (fun s acc => queued (stream_queue (recv s)) + acc) 0 l.

(** Nothing beyond the highest offset announced is delivered or queued. *)
Definition recv_bounds (r : recv_state) : Prop :=
  0 <= consumed_offset r /\ queue_from (consumed_offset r) (stream_queue r) /\
  last_end (consumed_offset r) (stream_queue r) <= fin_offset r /\ fin_offset r < 2 ^ 64.

Definition stream_ok (s : stream_head) : Prop := recv_bounds (recv s) /\ fin_offset (recv s) <= maxdata_local s.

Definition params_ok (p : stream_parameters) : Prop :=
  0 <= initial_max_stream_data_bidi_local p /\ 0 <= initial_max_stream_data_bidi_remote p /\ 0 <= initial_max_stream_data_uni p.

Definition sorted_ids (l : list stream_head) : Prop := StronglySorted Z.lt (stream_id <$> l).

(** The streams are in order, the flow control counter is the sum over the streams, and
    every limit holds. *)
Definition cnx_ok (c : cnx) : Prop :=
  sorted_ids (streams c) /\ Forall stream_ok (streams c) /\ params_ok (local_parameters c) /\
  data_received c = total_fin (streams c) /\ data_received c <= cnx_maxdata_local c < 2 ^ 64.

(** ** Lemmas on the list of streams *)

Lemma find_in_split id l s : find_in id l = Some s -> exists l1 l2, l = l1 ++ s :: l2 /\ stream_id s = id.
Proof.
  induction l as [|t l IH]; cbn; [done|]. destruct (Z.eqb_spec (stream_id t) id) as [He|].
  - intros [= <-]. by exists [], l.
  - intros Hf. destruct (IH Hf) as (l1 & l2 & -> & Hid). by exists (t :: l1), l2.
Qed.

Lemma find_in_none id l : find_in id l = None <-> Forall (fun s => stream_id s <> id) l.
Proof.
  induction l as [|t l IH]; cbn; [done|]. rewrite list.Forall_cons, <- IH.
  destruct (Z.eqb_spec (stream_id t) id); split; try done; tauto.
Qed.

(** Writing through a pointer touches one stream. *)
Lemma update_in_split id f l s :
  sorted_ids l -> find_in id l = Some s ->
  exists l1 l2, l = l1 ++ s :: l2 /\ update_in id f l = l1 ++ f s :: l2 /\ stream_id s = id.
Proof.
  unfold sorted_ids. intros Hs Hf. destruct (find_in_split _ _ _ Hf) as (l1 & l2 & -> & Hid). exists l1, l2.
  split; [done|]. split; [|done]. unfold update_in. rewrite fmap_app, fmap_cons. rewrite Hid, Z.eqb_refl.
  rewrite fmap_app, fmap_cons in Hs. assert (Hne : forall t, t ∈ l1 \/ t ∈ l2 -> stream_id t <> id).
  { intros t Ht. apply StronglySorted_app in Hs as (Hlt & _ & Hs2). apply StronglySorted_inv in Hs2 as [_ Hs2].
    destruct Ht as [Ht|Ht].
    - assert (stream_id t < id); [|lia]. rewrite <- Hid. apply Hlt; [by apply list_elem_of_fmap_2|left].
    - assert (id < stream_id t); [|lia]. rewrite <- Hid. eapply list.Forall_forall; [done|]. by apply list_elem_of_fmap_2. }
  f_equal; [|f_equal]; (rewrite <- (list_fmap_id l1) at 2 || rewrite <- (list_fmap_id l2) at 2);
    apply list_fmap_ext; intros i t Ht; apply list_elem_of_lookup_2 in Ht;
    (destruct (Z.eqb_spec (stream_id t) id); [exfalso; apply (Hne t); auto|done]).
Qed.

Lemma update_in_none id f l : find_in id l = None -> update_in id f l = l.
Proof.
  intros Hf%find_in_none. unfold update_in. induction Hf as [|t l Ht _ IH]; [done|]. rewrite fmap_cons, IH.
  by destruct (Z.eqb_spec (stream_id t) id).
Qed.

Lemma find_in_update id f l s :
  (forall t, stream_id (f t) = stream_id t) -> find_in id l = Some s -> find_in id (update_in id f l) = Some (f s).
Proof.
  intros Hid. induction l as [|t l IH]; cbn; [done|]. destruct (Z.eqb_spec (stream_id t) id) as [He|Hne].
  - intros [= <-]. rewrite Hid, He, Z.eqb_refl. done.
  - destruct (Z.eqb_spec (stream_id t) id); [done|]. apply IH.
Qed.

Lemma insert_stream_split s l :
  exists l1 l2, l = l1 ++ l2 /\ insert_stream s l = l1 ++ s :: l2 /\ Forall (fun t => stream_id t < stream_id s) l1 /\
    match l2 with t :: _ => stream_id s <= stream_id t | [] => True end.
Proof.
  induction l as [|t l (l1 & l2 & -> & IH & Hlt & Hge)]; cbn; [by exists [], []|].
  destruct (Z.ltb_spec (stream_id t) (stream_id s)).
  - exists (t :: l1), l2. rewrite IH. split_and!; try done. by apply Forall_cons.
  - by exists [], (t :: l1 ++ l2).
Qed.

Lemma insert_stream_sorted s l :
  sorted_ids l -> find_in (stream_id s) l = None -> sorted_ids (insert_stream s l).
Proof.
  intros Hs Hf. destruct (insert_stream_split s l) as (l1 & l2 & -> & -> & Hlt & Hge). unfold sorted_ids in *.
  rewrite fmap_app in *. rewrite fmap_cons. apply StronglySorted_app in Hs as (Hx & H1 & H2).
  apply find_in_none, Forall_app in Hf as [_ Hf].
  assert (Hall : Forall (Z.lt (stream_id s)) (stream_id <$> l2)).
  { destruct l2 as [|t l2]; [constructor|]. rewrite fmap_cons in *. apply list.Forall_cons in Hf as [Hne _].
    apply StronglySorted_inv in H2 as [_ H2]. constructor; [lia|]. eapply list.Forall_impl; [exact H2|]. cbn. lia. }
  apply StronglySorted_app. split_and!; [|done|by constructor].
  intros x y Hx1 Hy%elem_of_cons. destruct Hy as [->|Hy]; [|by apply Hx].
  apply list_elem_of_fmap_1 in Hx1 as (t & -> & Ht). eapply list.Forall_forall in Hlt; done.
Qed.

Lemma find_in_insert s l : find_in (stream_id s) l = None -> find_in (stream_id s) (insert_stream s l) = Some s.
Proof.
  induction l as [|t l IH]; cbn; [by rewrite Z.eqb_refl|]. destruct (Z.eqb_spec (stream_id t) (stream_id s)) as [|Hne]; [done|].
  intros Hf. destruct (Z.ltb_spec (stream_id t) (stream_id s)); cbn; [|by rewrite Z.eqb_refl].
  destruct (Z.eqb_spec (stream_id t) (stream_id s)); [done|by apply IH].
Qed.

Lemma total_fin_app l1 l2 : total_fin (l1 ++ l2) = total_fin l1 + total_fin l2.
Proof. unfold total_fin. induction l1 as [|s l1 IH]; cbn; [done|]. rewrite IH. lia. Qed.

Lemma total_fin_nonneg l : Forall stream_ok l -> 0 <= total_fin l.
Proof.
  unfold total_fin. induction 1 as [|s l [(Hc & Hq & Hl & _) _] _ IH]; cbn; [lia|]. pose proof (last_end_ge _ _ Hq). lia.
Qed.

(** ** Lemmas on the receiving side *)

Lemma last_end_app lo q1 q2 : last_end lo (q1 ++ q2) = last_end (last_end lo q1) q2.
Proof. revert lo. induction q1 as [|d q1 IH]; intros lo; cbn; auto. Qed.

Lemma queue_input_bounds r offset bytes :
  recv_bounds r -> 0 <= offset -> offset + Z.of_nat (length bytes) <= fin_offset r ->
  let '(failed, q, _) := picoquic_queue_network_input true (consumed_offset r) (stream_queue r) offset bytes in
  failed = false /\ recv_bounds (RecvState (consumed_offset r) (fin_offset r) (fin_received r) (fin_signalled r) q).
Proof.
  intros (Hc & Hq & Hl & H64) Ho Hend.
  pose proof (queue_input_shape true (consumed_offset r) (stream_queue r) offset bytes Hc Ho ltac:(lia) Hq) as H.
  cbv zeta in H. destruct H as [[-> _]|(before & next & start & stop & Heq & Hs & Hst & Hlo & _ & Hnext & ->)]; [by split|].
  split; [done|]. set (d := StreamData _ _). rewrite Heq in Hq, Hl.
  assert (Hdl : sd_length d = stop - offset - start).
  { unfold d, sd_length. cbn [sd_bytes]. rewrite length_take, length_drop. lia. }
  assert (Hde : sd_end d = stop) by (unfold sd_end; rewrite Hdl; cbn; lia).
  unfold recv_bounds. cbn [consumed_offset stream_queue fin_offset]. split_and!; try done.
  - apply queue_from_insert; try done; [lia|lia|]. destruct next; [done|lia].
  - rewrite last_end_app in *. cbn [last_end]. rewrite Hde. destruct next; [cbn; lia|cbn in *; lia].
Qed.

(** A run of the callback keeps the bounds. *)
Lemma callback_loop_bounds q r :
  recv_bounds (RecvState (consumed_offset r) (fin_offset r) (fin_received r) (fin_signalled r) q) ->
  let '(_, r') := callback_loop q r in recv_bounds r' /\ fin_offset r' = fin_offset r.
Proof.
  revert r. induction q as [|d q IH]; intros r Hb; cbn [callback_loop]; [done|].
  destruct (Z.leb_spec (sd_offset d) (consumed_offset r)) as [Hle|]; [|done].
  destruct Hb as (Hc & (Hlo & Hpos & H64 & Hq) & Hl & Hf). cbn [consumed_offset stream_queue fin_offset last_end] in *.
  unfold sd_end in *. replace (consumed_offset r - sd_offset d) with 0 by lia. rewrite Z.sub_0_r.
  rewrite (u64_small (sd_length d)), (u64_small (consumed_offset r + _)) by lia. set (r2 := RecvState _ _ _ (_ || _) q).
  specialize (IH r2). destruct (callback_loop q r2) as [events r']. apply IH. assert (Heq : consumed_offset r = sd_offset d) by lia.
  unfold r2. cbn [consumed_offset fin_offset fin_received fin_signalled]. rewrite Heq. split_and!; cbn [consumed_offset fin_offset stream_queue]; (done || lia).
Qed.

Lemma data_callback_bounds r :
  recv_bounds r -> let '(_, r') := picoquic_stream_data_callback r in recv_bounds r' /\ fin_offset r' = fin_offset r.
Proof.
  intros Hb. unfold picoquic_stream_data_callback. pose proof (callback_loop_bounds (stream_queue r) r) as H.
  destruct (callback_loop (stream_queue r) r) as [events r']. destruct H as [H1 H2]; [by destruct r|].
  destruct (fin_now r'); [|done]. by split.
Qed.

Lemma queue_and_notify_bounds has_callback notify r offset bytes :
  recv_bounds r -> 0 <= offset -> offset + Z.of_nat (length bytes) <= fin_offset r ->
  let '(_, _, r') := queue_and_notify true has_callback notify r offset bytes in
  recv_bounds r' /\ fin_offset r' = fin_offset r.
Proof.
  intros Hb Ho Hend. unfold queue_and_notify. pose proof (queue_input_bounds r offset bytes Hb Ho Hend) as H.
  destruct (picoquic_queue_network_input _ _ _ _ _) as [[failed q] new]. destruct H as [-> H]. set (r1 := RecvState _ _ _ _ q) in *.
  destruct (negb false && (notify || new) && has_callback); [|by split].
  pose proof (data_callback_bounds r1 H) as Hcb. by destruct (picoquic_stream_data_callback r1).
Qed.

(** ** Preservation of the invariant *)

(** The parts of the connection the invariant speaks of. *)
Definition same_view (c c' : cnx) : Prop :=
  streams c' = streams c /\ data_received c' = data_received c /\ cnx_maxdata_local c' = cnx_maxdata_local c /\
  local_parameters c' = local_parameters c.

Lemma same_view_ok c c' : same_view c c' -> cnx_ok c -> cnx_ok c'.
Proof. unfold cnx_ok. intros (-> & -> & -> & ->). done. Qed.

Lemma connection_error_view e t c : same_view c (connection_error e t c).
Proof. unfold connection_error. destruct (_ || _); [by repeat split|]. destruct (_ <? _); by repeat split. Qed.

Lemma run_callback_view fails t b c : same_view c (run_callback fails t b c).
Proof.
  unfold run_callback. destruct (fails b); [|by repeat split].
  exact (connection_error_view PICOQUIC_TRANSPORT_INTERNAL_ERROR t (set_callbacks (b :: callbacks c) c)).
Qed.

(** An update that leaves the receiving side and the limits of the stream alone. *)
Definition neutral (f : stream_head -> stream_head) : Prop :=
  forall s, stream_id (f s) = stream_id s /\ recv (f s) = recv s /\ maxdata_local (f s) = maxdata_local s.

Lemma neutral_update id f c : neutral f -> cnx_ok c -> cnx_ok (update_stream id f c).
Proof.
  intros Hn (Hs & Hok & Hp & Hd & Hm). destruct (find_in id (streams c)) as [s|] eqn:Hf.
  - destruct (update_in_split id f _ _ Hs Hf) as (l1 & l2 & Heq & Hup & Hid). destruct (Hn s) as (Hi & Hr & Hml).
    unfold cnx_ok. cbn [update_stream set_streams streams data_received cnx_maxdata_local local_parameters]. rewrite Hup.
    rewrite Heq in Hs, Hok, Hd. unfold sorted_ids in *. rewrite fmap_app, fmap_cons in *. rewrite Hi.
    rewrite Forall_app, list.Forall_cons in *. rewrite total_fin_app in *. cbn [total_fin foldr] in *. rewrite Hr.
    unfold stream_ok in *. rewrite Hr, Hml. done.
  - unfold update_stream. rewrite update_in_none by done. by destruct c.
Qed.

Lemma new_stream_fields c id :
  stream_id (new_stream c id) = id /\ recv (new_stream c id) = init_recv /\
  (params_ok (local_parameters c) -> 0 <= maxdata_local (new_stream c id)).
Proof.
  unfold new_stream, params_ok. destruct (IS_LOCAL_STREAM_ID _ _), (IS_BIDIR_STREAM_ID _); cbn; split_and!; try done; lia.
Qed.

Lemma create_ok id c : cnx_ok c -> find_in id (streams c) = None -> cnx_ok (picoquic_create_stream id c).
Proof.
  intros (Hs & Hok & Hp & Hd & Hm) Hf. unfold picoquic_create_stream, cnx_ok.
  cbn [set_streams streams data_received cnx_maxdata_local local_parameters].
  destruct (new_stream_fields c id) as (Hid & Hr & Hml). set (s := new_stream c id) in *. specialize (Hml Hp).
  split; [apply insert_stream_sorted; [done|by rewrite Hid]|].
  assert (Hnew : stream_ok s) by (unfold stream_ok, recv_bounds; rewrite Hr; cbn; split_and!; (done || lia)).
  destruct (insert_stream_split s (streams c)) as (l1 & l2 & Heq & -> & _). rewrite Heq in Hok, Hd.
  rewrite Forall_app, list.Forall_cons in *. rewrite total_fin_app in *. cbn [total_fin foldr]. rewrite Hr.
  split_and!; try tauto; cbn; lia.
Qed.

(** Replacing the receiving side of a stream, with what that adds to the counter. *)
Lemma recv_update id s f c n :
  cnx_ok c -> find_in id (streams c) = Some s ->
  stream_id (f s) = id -> stream_ok (f s) -> fin_offset (recv (f s)) = fin_offset (recv s) + n ->
  data_received c + n <= cnx_maxdata_local c ->
  cnx_ok (update_stream id f (set_data_received (data_received c + n) c)).
Proof.
  intros (Hs & Hok & Hp & Hd & Hm) Hf Hid Hnew Hfin Hmax.
  destruct (update_in_split id f _ _ Hs Hf) as (l1 & l2 & Heq & Hup & Hids).
  unfold cnx_ok. cbn [update_stream set_streams set_data_received streams data_received cnx_maxdata_local local_parameters].
  rewrite Hup. rewrite Heq in Hs, Hok, Hd. unfold sorted_ids in *. rewrite fmap_app, fmap_cons in *. rewrite Hid, <- Hids.
  rewrite Forall_app, list.Forall_cons in *. rewrite total_fin_app in *. cbn [total_fin foldr] in *. rewrite Hfin.
  split_and!; try tauto; try done; lia.
Qed.

(** The same when the announced size does not change. *)
Lemma recv_update_same id s f c :
  cnx_ok c -> find_in id (streams c) = Some s ->
  stream_id (f s) = id -> stream_ok (f s) -> fin_offset (recv (f s)) = fin_offset (recv s) ->
  cnx_ok (update_stream id f c).
Proof.
  intros Hok Hf Hid Hnew Hfin. assert (Hd : data_received c + 0 <= cnx_maxdata_local c) by (destruct Hok as (_ & _ & _ & _ & ?); lia).
  pose proof (recv_update id s f c 0 Hok Hf Hid Hnew ltac:(lia) Hd) as H.
  rewrite Z.add_0_r in H. by destruct c.
Qed.

Lemma stream_in c id s : cnx_ok c -> find_in id (streams c) = Some s -> stream_ok s /\ stream_id s = id.
Proof.
  intros (_ & Hok & _) Hf. destruct (find_in_split _ _ _ Hf) as (l1 & l2 & Heq & Hid). rewrite Heq in Hok.
  apply Forall_app in Hok as [_ Hok]. by apply list.Forall_cons in Hok as [? _].
Qed.

Lemma find_or_create_ok id is_remote c s c' :
  cnx_ok c -> picoquic_find_or_create_stream id is_remote c = (s, c') ->
  cnx_ok c' /\ (forall t, s = Some t -> find_in id (streams c') = Some t).
Proof.
  intros Hok. unfold picoquic_find_or_create_stream. destruct (find_in id (streams c)) as [t|] eqn:Hf.
  { intros [= <- <-]. split; [done|]. by intros ? [= <-]. }
  destruct (negb _ || _).
  { intros [= <- <-]. split; [|done]. eapply same_view_ok; [apply connection_error_view|done]. }
  set (c1 := picoquic_create_stream id c). assert (Hok1 : cnx_ok c1) by (by apply create_ok).
  intros [= <- <-]. split; [|done]. destruct (IS_BIDIR_STREAM_ID id); [done|]. by apply neutral_update.
Qed.

Lemma update_max_stream_ok id c : cnx_ok c -> cnx_ok (picoquic_update_max_stream_ID_local id c).
Proof.
  intros Hok. unfold picoquic_update_max_stream_ID_local. destruct (find_in id (streams c)) as [s|]; [|done].
  assert (H : cnx_ok (update_stream id (set_max_stream_updated true) c)) by (by apply neutral_update).
  repeat (destruct (_ && _); [|done]). destruct (IS_BIDIR_STREAM_ID id); [destruct (_ || _); [|done]|];
    (eapply same_view_ok; [|exact H]); by repeat split.
Qed.

(** Whether flow control admits the offset [new] on the stream [s]. *)
Definition admits (c : cnx) (s : stream_head) (new : Z) : Prop :=
  new <= maxdata_local s /\ (new <= fin_offset (recv s) \/ data_received c + (new - fin_offset (recv s)) <= cnx_maxdata_local c).

Lemma flow_control_ok s s' new c ret c' :
  cnx_ok c -> find_in (stream_id s) (streams c) = Some s' -> 0 <= new < 2 ^ 64 ->
  fin_offset (recv s) = fin_offset (recv s') -> maxdata_local s = maxdata_local s' ->
  picoquic_flow_control_check_stream_offset s new c = (ret, c') ->
  cnx_ok c' /\
  ((ret = 0 /\ admits c s' new /\ exists t, find_in (stream_id s) (streams c') = Some t /\
      recv t = RecvState (consumed_offset (recv s')) (Z.max new (fin_offset (recv s'))) (fin_received (recv s'))
        (fin_signalled (recv s')) (stream_queue (recv s'))) \/
   (ret = PICOQUIC_ERROR_DETECTED /\ ~ admits c s' new /\ same_view c c')).
Proof.
  intros Hok Hf Hnew Hfin Hmax. unfold picoquic_flow_control_check_stream_offset, admits. rewrite Hfin, Hmax.
  destruct (stream_in _ _ _ Hok Hf) as [[(Hc & Hq & Hl & H64) Hml] Hid]. pose proof (last_end_ge _ _ Hq).
  pose proof Hok as (_ & Hall & _ & Hd & Hm).
  pose proof (total_fin_nonneg _ Hall).
  destruct (Z.ltb_spec (maxdata_local s') new).
  { intros [= <- <-]. split; [eapply same_view_ok; [apply connection_error_view|done]|]. right.
    split; [done|]. split; [lia|apply connection_error_view]. }
  destruct (Z.ltb_spec (fin_offset (recv s')) new).
  2: { intros [= <- <-]. split; [done|]. left. split; [done|]. split; [lia|]. exists s'. split; [done|].
    rewrite Z.max_r by lia. by destruct (recv s'). }
  destruct (_ || _) eqn:Hor.
  { apply orb_true_iff in Hor. intros [= <- <-]. split; [eapply same_view_ok; [apply connection_error_view|done]|]. right.
    split; [done|]. split; [|apply connection_error_view]. rewrite !Z.ltb_lt in Hor. lia. }
  reflect_cmp. rewrite u64_small by lia. intros [= <- <-]. split.
  - eapply recv_update; [done|done|exact Hid| |cbn; lia|lia]. unfold stream_ok, recv_bounds. cbn. split_and!; (done || lia).
  - left. split; [done|]. split; [lia|]. exists (set_recv_fin_offset new s'). split.
    + cbn [update_stream set_streams set_data_received streams]. by apply find_in_update.
    + cbn. by rewrite Z.max_l by lia.
Qed.

Lemma set_fin_received_ok id s c :
  cnx_ok c -> find_in id (streams c) = Some s -> cnx_ok (update_stream id set_recv_fin_received c).
Proof.
  intros Hok Hf. destruct (stream_in _ _ _ Hok Hf) as [Hs Hid]. by eapply recv_update_same.
Qed.

Lemma update_max_stream_find id c s :
  find_in id (streams c) = Some s ->
  exists t, find_in id (streams (picoquic_update_max_stream_ID_local id c)) = Some t /\ recv t = recv s /\
    maxdata_local t = maxdata_local s /\ stream_id t = stream_id s.
Proof.
  intros Hf. unfold picoquic_update_max_stream_ID_local. rewrite Hf.
  assert (H : find_in id (streams (update_stream id (set_max_stream_updated true) c)) = Some (set_max_stream_updated true s))
    by (by apply find_in_update).
  repeat (destruct (_ && _); [|by exists s]). destruct (IS_BIDIR_STREAM_ID id); [destruct (_ || _); [|by exists s]|];
    by eexists.
Qed.

Lemma update_max_stream_counters id c :
  data_received (picoquic_update_max_stream_ID_local id c) = data_received c /\
  cnx_maxdata_local (picoquic_update_max_stream_ID_local id c) = cnx_maxdata_local c.
Proof.
  unfold picoquic_update_max_stream_ID_local. destruct (find_in id (streams c)); [|done].
  repeat (destruct (_ && _); [|done]). by destruct (IS_BIDIR_STREAM_ID id); [destruct (_ || _)|].
Qed.

(** Whether a STREAM frame up to [new] is acceptable on an open stream. *)
Definition size_ok (c : cnx) (s : stream_head) (fin : bool) (new : Z) : Prop :=
  if fin_received (recv s) then (if fin then fin_offset (recv s) = new else new <= fin_offset (recv s))
  else new <= fin_offset (recv s) \/ admits c s new.

Lemma check_final_size_ok s fin new t c ret notify c' :
  cnx_ok c -> find_in (stream_id s) (streams c) = Some s -> 0 <= new < 2 ^ 64 ->
  check_final_size s fin new t c = (ret, notify, c') ->
  cnx_ok c' /\
  ((ret = 0 /\ size_ok c s fin new /\ exists s', find_in (stream_id s) (streams c') = Some s' /\
      recv s' = RecvState (consumed_offset (recv s)) (Z.max new (fin_offset (recv s))) (fin_received (recv s) || fin)
        (fin_signalled (recv s)) (stream_queue (recv s))) \/
   (ret <> 0 /\ ~ size_ok c s fin new /\ data_received c' = data_received c)).
Proof.
  intros Hok Hf Hnew. unfold check_final_size, size_ok. destruct (fin_received (recv s)) eqn:Hfr.
  - assert (Hsame : new <= fin_offset (recv s) -> exists s', find_in (stream_id s) (streams c) = Some s' /\
      recv s' = RecvState (consumed_offset (recv s)) (Z.max new (fin_offset (recv s))) (true || fin) (fin_signalled (recv s)) (stream_queue (recv s))).
    { intros Hle. exists s. split; [done|]. rewrite Z.max_r by lia. cbn. rewrite <- Hfr. by destruct (recv s). }
    assert (Herr : forall P, ~ P -> cnx_ok (connection_error PICOQUIC_TRANSPORT_FINAL_SIZE_ERROR 0 c) /\
      ((PICOQUIC_ERROR_DETECTED = 0 /\ P /\ exists s', find_in (stream_id s) (streams (connection_error PICOQUIC_TRANSPORT_FINAL_SIZE_ERROR 0 c)) = Some s' /\
        recv s' = RecvState (consumed_offset (recv s)) (Z.max new (fin_offset (recv s))) (true || fin) (fin_signalled (recv s)) (stream_queue (recv s))) \/
       (PICOQUIC_ERROR_DETECTED <> 0 /\ ~ P /\ data_received (connection_error PICOQUIC_TRANSPORT_FINAL_SIZE_ERROR 0 c) = data_received c))).
    { intros P HP. pose proof (connection_error_view PICOQUIC_TRANSPORT_FINAL_SIZE_ERROR 0 c) as Hv.
      split; [by eapply same_view_ok|]. right. split; [done|]. split; [done|]. by destruct Hv as (_ & ? & _). }
    destruct fin; case_cmp; cbn [negb]; intros [= <- _ <-]; try (apply Herr; lia); (split; [done|]); left; split_and!; try done; try lia; apply Hsame; lia.
  - set (c1 := if fin then _ else c). assert (Hc1 : cnx_ok c1 /\ data_received c1 = data_received c /\
        cnx_maxdata_local c1 = cnx_maxdata_local c /\ exists s1, find_in (stream_id s) (streams c1) = Some s1 /\
        recv s1 = RecvState (consumed_offset (recv s)) (fin_offset (recv s)) fin (fin_signalled (recv s)) (stream_queue (recv s)) /\
        maxdata_local s1 = maxdata_local s).
    { unfold c1. destruct fin; [|split_and!; try done; exists s; rewrite <- Hfr; by destruct (recv s)].
      set (c0 := set_latest_progress_time t _). assert (Hok0 : cnx_ok c0).
      { eapply same_view_ok; [|by apply (set_fin_received_ok (stream_id s) s c)]. by repeat split. }
      destruct (update_max_stream_find (stream_id s) c0 (set_recv_fin_received s)) as (s1 & Hf1 & Hr1 & Hm1 & _).
      { cbn [c0 set_latest_progress_time update_stream set_streams streams]. by apply find_in_update. }
      destruct (update_max_stream_counters (stream_id s) c0) as [-> ->]. split_and!; try done; [by apply update_max_stream_ok|].
      exists s1. rewrite Hr1. done. }
    clearbody c1. destruct Hc1 as (Hok1 & Hd1 & Hm1 & s1 & Hf1 & Hr1 & Hml1). cbn [orb].
    destruct (Z.ltb_spec (fin_offset (recv s)) new) as [Hgt|Hle].
    2: { intros [= <- _ <-]. split; [done|]. left. split; [done|]. split; [by left|]. exists s1. split; [done|].
      by rewrite Z.max_r by lia. }
    destruct (picoquic_flow_control_check_stream_offset s new c1) as [ret1 c2] eqn:Hfc. intros [= <- _ <-].
    destruct (flow_control_ok s s1 new c1 ret1 c2 Hok1 Hf1 Hnew) as [Hok2 Hcase]; [by rewrite Hr1|done|done|].
    assert (Hadm : admits c1 s1 new <-> admits c s new) by (unfold admits; rewrite Hr1, Hml1, Hd1, Hm1; done).
    split; [done|]. destruct Hcase as [(-> & Ha & s2 & Hf2 & Hr2)|(-> & Hna & (_ & Hd2 & _))].
    + left. split; [done|]. split; [right; by apply Hadm|]. exists s2. split; [done|]. rewrite Hr2, Hr1. done.
    + right. split; [done|]. split; [|congruence]. intros [|Ha]; [lia|]. by apply Hna, Hadm.
Qed.

(** A stream the peer may open: of its own parity and within the limit it was given. *)
Definition may_open (c : cnx) (id : Z) : bool :=
  Bool.eqb (IS_CLIENT_STREAM_ID id) (negb (client_mode c)) &&
  (id <=? (if IS_BIDIR_STREAM_ID id then max_stream_id_bidir_local c else max_stream_id_unidir_local c)).

Lemma find_or_create_cases id c :
  let '(o, c1) := picoquic_find_or_create_stream id true c in
  match find_in id (streams c) with
  | Some s => o = Some s /\ c1 = c
  | None =>
    if may_open c id then
      exists s, o = Some s /\ recv s = init_recv /\ maxdata_local s = maxdata_local (new_stream c id) /\
        data_received c1 = data_received c /\ cnx_maxdata_local c1 = cnx_maxdata_local c
    else o = None /\ same_view c c1
  end.
Proof.
  unfold picoquic_find_or_create_stream, may_open. destruct (find_in id (streams c)) as [s|] eqn:Hf; [done|].
  rewrite xorb_true_r. destruct (Bool.eqb _ _); cbn [negb orb andb]; [|split; [done|apply connection_error_view]].
  set (limit := if IS_BIDIR_STREAM_ID id then max_stream_id_bidir_local c else max_stream_id_unidir_local c).
  destruct (Z.ltb_spec limit id), (Z.leb_spec id limit); try lia.
  { split; [done|apply connection_error_view]. }
  destruct (new_stream_fields c id) as (Hid & Hr & _).
  assert (Hins : find_in id (insert_stream (new_stream c id) (streams c)) = Some (new_stream c id)).
  { rewrite <- Hid at 1. apply find_in_insert. by rewrite Hid. }
  destruct (IS_BIDIR_STREAM_ID id).
  - exists (new_stream c id). done.
  - eexists. split; [cbn [update_stream set_streams picoquic_create_stream streams]; by apply find_in_update|].
    cbn. done.
Qed.

(** When a STREAM frame is acceptable. *)
Definition acceptable (c : cnx) (id : Z) (fin : bool) (new : Z) : Prop :=
  match find_in id (streams c) with
  | Some s => size_ok c s fin new
  | None => may_open c id = true /\ size_ok c (new_stream c id) fin new
  end.

Lemma foldl_run_callback_view fails id events c :
  same_view c (foldl (fun c e => run_callback fails 0 (app_call id e) c) c events).
Proof.
  apply (foldl_keeps (same_view c)); [by repeat split|]. intros c' e (H1 & H2 & H3 & H4).
  destruct (run_callback_view fails 0 (app_call id e) c') as (E1 & E2 & E3 & E4). unfold same_view. by rewrite E1, E2, E3, E4.
Qed.

Lemma stream_input_ok has_callback fails id offset fin bytes t c :
  cnx_ok c -> 0 <= offset -> offset + Z.of_nat (length bytes) < 2 ^ 64 ->
  let '(ret, c') := picoquic_stream_network_input has_callback fails id offset fin bytes t c in
  cnx_ok c' /\ (ret = 0 <-> acceptable c id fin (offset + Z.of_nat (length bytes))) /\
  (ret <> 0 -> data_received c' = data_received c).
Proof.
  intros Hok Ho H64. unfold picoquic_stream_network_input. rewrite u64_small by lia.
  set (new := offset + Z.of_nat (length bytes)) in *. pose proof (find_or_create_cases id c) as Hcases.
  destruct (picoquic_find_or_create_stream id true c) as [o c1] eqn:Hfc.
  destruct (find_or_create_ok _ _ _ _ _ Hok Hfc) as [Hok1 Hin]. unfold acceptable.
  assert (Hopen : match o with
    | Some s => find_in id (streams c1) = Some s /\ data_received c1 = data_received c /\
        (size_ok c1 s fin new <-> match find_in id (streams c) with Some s => size_ok c s fin new | None =>
          may_open c id = true /\ size_ok c (new_stream c id) fin new end)
    | None => data_received c1 = data_received c /\ find_in id (streams c) = None /\ may_open c id = false end).
  { destruct (find_in id (streams c)) as [s|]; [destruct Hcases as [-> ->]; split; [by apply Hin|done]|].
    destruct (may_open c id).
    - destruct Hcases as (s & -> & Hr & Hml & Hd & Hm). split; [by apply Hin|]. split; [done|].
      destruct (new_stream_fields c id) as (_ & Hr' & _).
      assert (size_ok c1 s fin new <-> size_ok c (new_stream c id) fin new) as ->; [|by intuition].
      unfold size_ok, admits. by rewrite Hr, Hr', Hml, Hd, Hm.
    - destruct Hcases as [-> (_ & ? & _)]. done. }
  destruct o as [s|].
  2: { destruct Hopen as (Hd & -> & ->). split; [done|]. split; [|done]. split; [done|]. by intros []. }
  destruct Hopen as (Hf1 & Hd1 & Hiff). clear Hcases Hin Hfc.
  destruct (stream_in _ _ _ Hok1 Hf1) as [_ Hid]. rewrite <- Hid in Hf1.
  destruct (check_final_size s fin new t c1) as [[ret notify] c2] eqn:Hcf.
  destruct (check_final_size_ok s fin new t c1 ret notify c2 Hok1 Hf1 ltac:(lia) Hcf)
    as [Hok2 [(-> & Hsz & s2 & Hf2 & Hr2)|(Hne & Hsz & Hd2)]].
  2: { destruct (Z.eqb_spec ret 0); [done|]. cbn [negb]. split; [done|]. split; [rewrite <- Hiff; tauto|congruence]. }
  cbn [Z.eqb negb]. rewrite Hid in Hf2. rewrite Hf2.
  destruct (stream_in _ _ _ Hok2 Hf2) as [[Hb2 Hml2] Hid2].
  pose proof (queue_and_notify_bounds has_callback notify (recv s2) offset bytes Hb2 Ho) as Hqn.
  rewrite Hr2 in Hqn at 1. cbn [fin_offset] in Hqn. specialize (Hqn ltac:(lia)).
  destruct (queue_and_notify true has_callback notify (recv s2) offset bytes) as [[failed events] r].
  destruct Hqn as [Hr Hrf]. set (c3 := if (picoquic_queue_network_input _ _ _ _ _).2 then _ else c2).
  assert (Hv : same_view c2 c3) by (unfold c3; destruct (_ .2); by repeat split).
  assert (Hf3 : find_in id (streams c3) = Some s2) by (by destruct Hv as (-> & _)).
  apply (same_view_ok _ _ Hv) in Hok2 as Hok3.
  assert (Hok4 : cnx_ok (update_stream id (set_recv r) c3)).
  { apply (recv_update_same id s2); [done|done|exact Hid2| |exact Hrf].
    split; [exact Hr|]. change (fin_offset r <= maxdata_local s2). by rewrite Hrf. }
  split; [|rewrite <- Hiff; tauto]. eapply same_view_ok; [apply foldl_run_callback_view|done].
Qed.

Lemma reset_ok has_callback fails id err final c :
  cnx_ok c -> 0 <= final < 2 ^ 64 -> cnx_ok (process_stream_reset_frame has_callback fails id err final c).2.
Proof.
  intros Hok Hfin. unfold process_stream_reset_frame. destruct (picoquic_find_or_create_stream id true c) as [o c1] eqn:Hfc.
  destruct (find_or_create_ok _ _ _ _ _ Hok Hfc) as [Hok1 Hin]. destruct o as [s|]; [|done]. specialize (Hin s eq_refl).
  destruct (_ && _); [eapply same_view_ok; [apply connection_error_view|done]|].
  destruct (stream_in _ _ _ Hok1 Hin) as [_ Hid]. rewrite <- Hid in Hin.
  destruct (picoquic_flow_control_check_stream_offset s final c1) as [ret c2] eqn:Hfl.
  destruct (flow_control_ok s s final c1 ret c2 Hok1 Hin Hfin eq_refl eq_refl Hfl) as [Hok2 _].
  destruct (negb (ret =? 0)); [done|]. destruct (reset_received s); [done|].
  set (c3 := picoquic_update_max_stream_ID_local id _).
  assert (Hok3 : cnx_ok c3) by (by apply update_max_stream_ok, neutral_update).
  destruct (has_callback && _); [|done]. apply neutral_update; [done|].
  eapply same_view_ok; [apply run_callback_view|done].
Qed.

Lemma stop_sending_ok has_callback fails id err c :
  cnx_ok c -> cnx_ok (process_stop_sending_frame has_callback fails id err c).2.
Proof.
  intros Hok. unfold process_stop_sending_frame. destruct (picoquic_find_or_create_stream id true c) as [o c1] eqn:Hfc.
  destruct (find_or_create_ok _ _ _ _ _ Hok Hfc) as [Hok1 Hin]. destruct o as [s|]; [|done].
  destruct (_ && _); [|done]. assert (Hok2 : cnx_ok (update_stream id (fun s => set_remote_stop_error err (set_stop_sending_received true s)) c1))
    by (by apply neutral_update).
  destruct (has_callback && _); [|done]. apply neutral_update; [done|].
  eapply same_view_ok; [apply run_callback_view|done].
Qed.

Lemma max_stream_data_ok id v c : cnx_ok c -> cnx_ok (process_max_stream_data_frame id v c).2.
Proof.
  intros Hok. unfold process_max_stream_data_frame, picoquic_find_stream.
  destruct (find_in id (streams c)) as [s|] eqn:Hf; cbn [snd].
  - destruct (_ <? _); [by apply neutral_update|done].
  - assert (Hok1 : cnx_ok (picoquic_create_stream id c)) by (by apply create_ok).
    destruct (_ <? _); [by apply neutral_update|done].
Qed.

(** The values a parser can produce. *)
Definition frame_in_range (f : peer_frame) : Prop :=
  match f with
  | PF_stream _ offset _ bytes => 0 <= offset /\ offset + Z.of_nat (length bytes) < 2 ^ 64
  | PF_reset_stream _ _ final_offset => 0 <= final_offset < 2 ^ 64
  | _ => True
  end.

Lemma process_frame_ok has_callback fails t f c :
  cnx_ok c -> frame_in_range f -> cnx_ok (process_frame has_callback fails t f c).2.
Proof.
  intros Hok Hr. destruct f as [id offset fin bytes|id err final|id err|v|id v|uni n]; cbn [process_frame].
  - destruct Hr as [Ho H64]. pose proof (stream_input_ok has_callback fails id offset fin bytes t c Hok Ho H64) as H.
    unfold process_stream_frame. by destruct (picoquic_stream_network_input _ _ _ _ _ _ _ _); destruct H.
  - by apply reset_ok.
  - by apply stop_sending_ok.
  - unfold process_max_data_frame. cbn [snd]. destruct (_ <? _); [eapply same_view_ok; [|done]; by repeat split|done].
  - by apply max_stream_data_ok.
  - destruct uni; [done|]. unfold process_max_stream_id_frame. cbn [snd]. destruct (_ <? _); [|done].
    (eapply same_view_ok; [|done]); by repeat split.
Qed.

Lemma queued_bound lo q : queue_from lo q -> queued q <= last_end lo q - lo.
Proof.
  revert lo. unfold queued. induction q as [|d q IH]; intros lo; cbn; [lia|]. intros (? & ? & ? & Hq). specialize (IH _ Hq).
  unfold sd_end in *. lia.
Qed.

Lemma total_queued_bound l : Forall stream_ok l -> total_queued l <= total_fin l.
Proof.
  unfold total_queued, total_fin. induction 1 as [|s l [(Hc & Hq & Hl & _) _] _ IH]; cbn; [lia|].
  pose proof (queued_bound _ _ Hq). lia.
Qed.

(** The limit given to the peer does not change while its frames are processed. *)
Definition run_peer (has_callback : bool) (fails : callback -> bool) (fs : list (Z * peer_frame)) (c : cnx) : cnx :=
  foldl (fun c f => (process_frame has_callback fails f.1 f.2 c).2) c fs.

Definition keeps_limit (c c' : cnx) : Prop := cnx_maxdata_local c' = cnx_maxdata_local c.

Lemma connection_error_limit e t c : keeps_limit c (connection_error e t c).
Proof. by destruct (connection_error_view e t c) as (_ & _ & ? & _). Qed.

Lemma find_or_create_limit id is_remote c : keeps_limit c (picoquic_find_or_create_stream id is_remote c).2.
Proof.
  unfold picoquic_find_or_create_stream. destruct (find_in id (streams c)); [done|].
  destruct (_ || _); [apply connection_error_limit|]. by destruct (IS_BIDIR_STREAM_ID id).
Qed.

Lemma flow_control_limit s new c : keeps_limit c (picoquic_flow_control_check_stream_offset s new c).2.
Proof.
  unfold picoquic_flow_control_check_stream_offset. destruct (_ <? _); [apply connection_error_limit|].
  destruct (_ <? _); [|done]. destruct (_ || _); [apply connection_error_limit|done].
Qed.

Lemma update_max_stream_limit id c : keeps_limit c (picoquic_update_max_stream_ID_local id c).
Proof. apply update_max_stream_counters. Qed.

Lemma run_callback_limit fails t b c : keeps_limit c (run_callback fails t b c).
Proof. by destruct (run_callback_view fails t b c) as (_ & _ & ? & _). Qed.

Lemma foldl_run_callback_limit fails id events c :
  keeps_limit c (foldl (fun c e => run_callback fails 0 (app_call id e) c) c events).
Proof. by destruct (foldl_run_callback_view fails id events c) as (_ & _ & ? & _). Qed.

Lemma check_final_size_limit s fin new t c : keeps_limit c (check_final_size s fin new t c).2.
Proof.
  unfold check_final_size. destruct (fin_received _); [destruct (if fin then _ else _); [apply connection_error_limit|done]|].
  set (c1 := if fin then _ else c). assert (Hc1 : keeps_limit c c1).
  { unfold c1. destruct fin; [|done]. unfold keeps_limit. by rewrite update_max_stream_limit. }
  destruct (_ <? _); [|done]. pose proof (flow_control_limit s new c1) as H.
  destruct (picoquic_flow_control_check_stream_offset s new c1). unfold keeps_limit in *. cbn in *. congruence.
Qed.

Lemma stream_input_limit has_callback fails id offset fin bytes t c :
  keeps_limit c (picoquic_stream_network_input has_callback fails id offset fin bytes t c).2.
Proof.
  unfold picoquic_stream_network_input. pose proof (find_or_create_limit id true c) as H1.
  destruct (picoquic_find_or_create_stream id true c) as [[s|] c1]; [|done]. cbn [snd] in H1.
  pose proof (check_final_size_limit s fin (u64 (offset + Z.of_nat (length bytes))) t c1) as H2.
  destruct (check_final_size _ _ _ _ _) as [[ret notify] c2]. cbn [snd] in H2. unfold keeps_limit in *.
  destruct (negb _); [cbn; congruence|]. destruct (find_in id (streams c2)) as [s2|]; [|cbn; congruence].
  destruct (queue_and_notify _ _ _ _ _ _) as [[failed events] r]. cbn [snd]. rewrite foldl_run_callback_limit.
  cbn [update_stream set_streams cnx_maxdata_local].
  transitivity (cnx_maxdata_local c2); [case_match; done|congruence].
Qed.

Lemma process_frame_limit has_callback fails t f c : keeps_limit c (process_frame has_callback fails t f c).2.
Proof.
  destruct f as [id offset fin bytes|id err final|id err|v|id v|uni n]; cbn [process_frame].
  - unfold process_stream_frame. pose proof (stream_input_limit has_callback fails id offset fin bytes t c) as H.
    by destruct (picoquic_stream_network_input _ _ _ _ _ _ _ _).
  - unfold process_stream_reset_frame. pose proof (find_or_create_limit id true c) as H1.
    destruct (picoquic_find_or_create_stream id true c) as [[s|] c1]; [|done]. cbn [snd] in H1. unfold keeps_limit in *.
    destruct (_ && _); [cbn [snd]; by rewrite connection_error_limit|]. pose proof (flow_control_limit s final c1) as H2.
    destruct (picoquic_flow_control_check_stream_offset s final c1) as [ret c2]. cbn [snd] in H2. unfold keeps_limit in *.
    destruct (negb _); [cbn; congruence|]. destruct (reset_received s); [cbn; congruence|].
    destruct (_ && _); cbn [snd update_stream set_streams cnx_maxdata_local];
      rewrite ?run_callback_limit, update_max_stream_limit; cbn [update_stream set_streams cnx_maxdata_local]; congruence.
  - unfold process_stop_sending_frame. pose proof (find_or_create_limit id true c) as H1.
    destruct (picoquic_find_or_create_stream id true c) as [[s|] c1]; [|done]. cbn [snd] in H1. unfold keeps_limit in *.
    destruct (_ && _); [|done]. destruct (_ && _); cbn [snd update_stream set_streams cnx_maxdata_local]; [|done].
    by rewrite run_callback_limit.
  - unfold process_max_data_frame. cbn [snd]. by destruct (_ <? _).
  - unfold process_max_stream_data_frame, picoquic_find_stream.
    destruct (find_in id (streams c)); cbn [snd]; by destruct (_ <? _).
  - destruct uni; [done|]. unfold process_max_stream_id_frame. cbn [snd]. by destruct (_ <? _).
Qed.

(** ** Properties *)

(** C3. Flow control holds against any peer: from a consistent connection, whatever
    STREAM, RESET_STREAM, STOP_SENDING, MAX_DATA, MAX_STREAM_DATA and MAX_STREAMS frames
    arrive and whatever the application answers, the streams stay sorted and without
    duplicates, no stream holds or delivered a byte beyond the offset announced for it,
    that offset is within the stream's limit, and the bytes waiting for reassembly in all
    streams together are at most [data_received], the sum of those offsets, which is at
    most the connection's limit. *)
Theorem flow_control_safe has_callback fails fs c :
  cnx_ok c -> Forall (fun f => frame_in_range f.2) fs ->
  let c' := run_peer has_callback fails fs c in
  cnx_ok c' /\ total_queued (streams c') <= data_received c' <= cnx_maxdata_local c.
Proof.
  intros Hok Hfs. cbv zeta. assert (H : cnx_ok (run_peer has_callback fails fs c) /\ keeps_limit c (run_peer has_callback fails fs c)).
  { unfold run_peer. apply foldl_inv; [by split|]. intros c' f [Hc Hl] Hin.
    split; [apply process_frame_ok; [done|]; by apply (proj1 (list.Forall_forall _ _) Hfs)|].
    unfold keeps_limit in *. by rewrite process_frame_limit. }
  destruct H as [Hc Hl]. split; [done|]. destruct Hc as (_ & Hall & _ & Hd & Hm). unfold keeps_limit in Hl.
  pose proof (total_queued_bound _ Hall). lia.
Qed.

Definition example_cnx : cnx :=
  Cnx true [] (StreamParameters 1000 1000 1000) (StreamParameters 1000 1000 1000) 5000 5000 0 0 101 103 101 103 100 102
    4000 0 picoquic_state_client_ready 0 0 0 [].

Lemma example_cnx_ok : cnx_ok example_cnx.
Proof. unfold cnx_ok, example_cnx, sorted_ids, params_ok. cbn. split_and!; try lia; constructor. Qed.

Lemma flow_control_safe_witness :
  let fs := [(1, PF_stream 1 10 false [7; 8; 9]); (2, PF_stream 1 0 false [1; 2]); (3, PF_reset_stream 5 0 2000)] in
  let c' := run_peer true (fun _ => false) fs example_cnx in
  (cnx_ok c' /\ total_queued (streams c') <= data_received c' <= 5000) /\
  total_queued (streams c') = 3 /\ data_received c' = 13 /\ cnx_local_error c' = PICOQUIC_TRANSPORT_FLOW_CONTROL_ERROR.
Proof.
  split; [|split_and!; reflexivity].
  apply (flow_control_safe true (fun _ => false) _ example_cnx example_cnx_ok). repeat (apply Forall_cons_2; [cbn; lia|]). apply Forall_nil_2.
Defined.



(** The streams in the order of the round robin: after the one visited last, then from the
    start up to it. *)
Definition rotation (c : cnx) : list stream_head :=
  skip_visited (last_visited_stream_id c) (streams c) ++
  filter (fun s => stream_id s <= last_visited_stream_id c) (streams c).

Lemma ready_pass_first c l : ready_pass 0 c l = List.find (stream_ready c) l.
Proof.
  induction l as [|s l IH]; [done|]. cbn [ready_pass List.find]. destruct (stream_ready c s); [done|].
  destruct l as [|s' l]; [done|]. cbn [Nat.ltb Nat.leb andb]. apply IH.
Qed.

Lemma find_app {A} (p : A -> bool) l1 l2 :
  List.find p (l1 ++ l2) = match List.find p l1 with Some x => Some x | None => List.find p l2 end.
Proof. induction l1 as [|x l1 IH]; [done|]. cbn. by destruct (p x). Qed.

Lemma skip_visited_split last l :
  sorted_ids l -> l = filter (fun s => stream_id s <= last) l ++ skip_visited last l.
Proof.
  unfold sorted_ids. induction l as [|s l IH]; [done|]. intros Hs. rewrite fmap_cons in Hs.
  apply StronglySorted_inv in Hs as [Hs Hall]. cbn [skip_visited]. rewrite filter_cons.
  destruct (Z.leb_spec (stream_id s) last) as [Hle|Hgt]; case_decide as Hd; try lia.
  - cbn [app]. f_equal. by apply IH.
  - replace (filter (fun s => stream_id s <= last) l) with (@nil stream_head); [done|].
    symmetry. clear IH Hs Hd. induction l as [|t l IH]; [done|]. rewrite fmap_cons in Hall. apply list.Forall_cons in Hall as [Ht Hall].
    rewrite filter_cons. case_decide; [lia|]. by apply IH.
Qed.

Lemma ready_pass_second c l rest :
  sorted_ids (l ++ rest) -> Forall (fun s => stream_id s <= last_visited_stream_id c) l ->
  Forall (fun s => last_visited_stream_id c < stream_id s) rest -> List.find (stream_ready c) rest = None ->
  ready_pass 1 c (l ++ rest) = List.find (stream_ready c) l.
Proof.
  intros _ Hl Hr Hnone. induction Hl as [|s l Hs Hl IH].
  - destruct rest as [|t rest]; [done|]. cbn [app ready_pass List.find] in *. destruct (stream_ready c t); [done|].
    destruct rest as [|t' rest]; [done|]. apply list.Forall_cons in Hr as [_ Hr]. apply list.Forall_cons in Hr as [Ht' _].
    destruct (Z.ltb_spec (last_visited_stream_id c) (stream_id t')); [done|lia].
  - cbn [app ready_pass List.find]. destruct (stream_ready c s); [done|]. destruct Hl as [|s' l Hs' Hl].
    + cbn [app List.find]. destruct rest as [|t rest]; [done|]. apply list.Forall_cons in Hr as [Ht _].
      destruct (Z.ltb_spec (last_visited_stream_id c) (stream_id t)); [done|lia].
    + cbn [app]. destruct (Z.ltb_spec (last_visited_stream_id c) (stream_id s')); [lia|]. exact IH.
Qed.

(** The round robin is fair: it picks the first stream that may send, in the cyclic
    order that starts after the stream visited last, and finds one whenever there is one. *)
Theorem round_robin_fair c :
  sorted_ids (streams c) -> find_ready_stream_round_robin c = List.find (stream_ready c) (rotation c).
Proof.
  intros Hs. unfold find_ready_stream_round_robin, rotation. rewrite find_app, ready_pass_first.
  set (last := last_visited_stream_id c). destruct (List.find _ (skip_visited _ _)) as [s|] eqn:Hf; [done|].
  pose proof (skip_visited_split last _ Hs) as Heq. rewrite Heq at 1. apply ready_pass_second.
  - by rewrite <- Heq.
  - clear. induction (streams c) as [|s l IH]; [constructor|]. rewrite filter_cons. case_decide; [by constructor|done].
  - clear - Hs. induction (streams c) as [|s l IH]; [constructor|]. cbn [skip_visited]. unfold sorted_ids in *. rewrite fmap_cons in Hs.
    apply StronglySorted_inv in Hs as [Hs Hall]. destruct (Z.leb_spec (stream_id s) last) as [|Hgt]; [by apply IH|].
    constructor; [done|]. rewrite list.Forall_fmap in Hall. eapply list.Forall_impl; [exact Hall|]. unfold compose. cbn. lia.
  - done.
Qed.

Lemma round_robin_fair_witness :
  let ready id := StreamHead id init_recv 0 100 0 0 0 0 0 [] true false false false false false false false false false false false in
  let c := Cnx true [ready 1; ready 4; ready 8] (StreamParameters 0 0 0) (StreamParameters 0 0 0) 0 100 0 0 0 0 0 0 100 0 0 4
             picoquic_state_client_ready 0 0 0 [] in
  find_ready_stream_round_robin c = List.find (stream_ready c) (rotation c) /\
  stream_id <$> find_ready_stream_round_robin c = Some 8.
Proof.
  cbv zeta. split; [|reflexivity]. apply round_robin_fair. unfold sorted_ids. cbn.
  repeat (constructor; [|repeat (constructor; try lia)]). constructor.
Defined.

Lemma max_streams_limit c (uni : bool) n :
  0 <= n < 2 ^ 60 -> 0 <= max_stream_id_bidir_remote c -> 0 <= max_stream_id_unidir_remote c ->
  let limit (x : cnx) := if uni then max_stream_id_unidir_remote x else max_stream_id_bidir_remote x in
  let c2 := (process_max_stream_id_frame uni n c).2 in
  (n = 0 -> 2 ^ 63 <= limit c2) /\
  (0 < n -> limit c2 = Z.max (limit c) (4 * (n - 1) + 2 * b2z uni + b2z (negb (client_mode c)))).
Proof.
  intros Hn Hb Hu. cbv zeta. unfold process_max_stream_id_frame. cbn [snd].
  assert (Hid : forall m s, 0 <= m -> 4 * m + 3 < 2 ^ 64 ->
    Z.lor (Z.lor (u64 (Z.shiftl m 2)) (Z.shiftl (b2z uni) 1)) (b2z s) = 4 * m + 2 * b2z uni + b2z s).
  { intros m s Hm Hlt. rewrite u64_small by (rewrite Z.shiftl_mul_pow2 by lia; lia). rewrite !Z.shiftl_mul_pow2 by lia.
    rewrite <- Z.lor_assoc. assert (Z.lor (b2z uni * 2 ^ 1) (b2z s) = 2 * b2z uni + b2z s) as -> by (by destruct uni, s).
    rewrite lor_add_disjoint by (destruct uni, s; cbn; lia). lia. }
  unfold STREAM_ID_FROM_RANK. split.
  - intros ->. change (u64 (0 - 1)) with (2 ^ 64 - 1).
    assert (Hbig : 2 ^ 63 <= Z.lor (Z.lor (u64 (Z.shiftl (2 ^ 64 - 1) 2)) (Z.shiftl (b2z uni) 1)) (b2z (negb (client_mode c)))).
    { destruct uni, (client_mode c); vm_compute; discriminate. }
    destruct (Z.ltb_spec (if uni then max_stream_id_unidir_remote c else max_stream_id_bidir_remote c)
      (Z.lor (Z.lor (u64 (Z.shiftl (2 ^ 64 - 1) 2)) (Z.shiftl (b2z uni) 1)) (b2z (negb (client_mode c)))));
      destruct uni; cbn; cbn in *; lia.
  - intros Hpos. rewrite (u64_small (n - 1)), Hid by lia.
    destruct (Z.ltb_spec (if uni then max_stream_id_unidir_remote c else max_stream_id_bidir_remote c)
      (4 * (n - 1) + 2 * b2z uni + b2z (negb (client_mode c)))); destruct uni; cbn in *; lia.
Qed.

(** How the peer can go around the stream limits.  A MAX_STREAM_DATA frame opens the
    stream it names whatever its id, without looking at the limits, after which STREAM
    frames on it are accepted as on any open stream.  The handler of MAX_STREAMS raises
    our own limit to more than 2^63 on the value 0; values up to 2^60 set it to the id of
    that rank unless it was already higher.  It is only registered for bidirectional
    streams: the frame for unidirectional streams is refused and the limit kept. *)
Theorem stream_limits_bypassed has_callback fails t c id v (uni : bool) n :
  find_in id (streams c) = None -> 0 <= n < 2 ^ 60 -> 0 <= max_stream_id_bidir_remote c -> 0 <= max_stream_id_unidir_remote c ->
  let limit (x : cnx) := if uni then max_stream_id_unidir_remote x else max_stream_id_bidir_remote x in
  let c1 := (process_frame has_callback fails t (PF_max_stream_data id v) c).2 in
  let c2 := (process_max_stream_id_frame uni n c).2 in
  is_Some (find_in id (streams c1)) /\
  (n = 0 -> 2 ^ 63 <= limit c2) /\
  (0 < n -> limit c2 = Z.max (limit c) (4 * (n - 1) + 2 * b2z uni + b2z (negb (client_mode c)))) /\
  process_frame has_callback fails t (PF_max_streams uni n) c = if uni then (1, c) else (0, c2).
Proof.
  intros Hf Hn Hb Hu. cbv zeta. split.
  - cbn [process_frame]. unfold process_max_stream_data_frame, picoquic_find_stream. rewrite Hf.
    destruct (new_stream_fields c id) as (Hid & _).
    assert (Hins : find_in id (streams (picoquic_create_stream id c)) = Some (new_stream c id)).
    { cbn. rewrite <- Hid at 1. apply find_in_insert. by rewrite Hid. }
    cbn [snd]. destruct (_ <? _); [|by rewrite Hins]. unfold update_stream. cbn [set_streams streams].
    erewrite find_in_update; [done|done|exact Hins].
  - destruct (max_streams_limit c uni n Hn Hb Hu) as [H0 H1]. split; [exact H0|]. split; [exact H1|]. by destruct uni.
Qed.

Lemma stream_limits_bypassed_witness :
  let c1 := (process_frame true (fun _ => false) 0 (PF_max_stream_data 4000001 7) example_cnx).2 in
  let c2 := (process_frame true (fun _ => false) 0 (PF_max_streams false 0) example_cnx).2 in
  may_open example_cnx 4000001 = false /\ is_Some (find_in 4000001 (streams c1)) /\ 2 ^ 63 <= max_stream_id_bidir_remote c2.
Proof.
  split; [reflexivity|].
  destruct (stream_limits_bypassed true (fun _ => false) 0 example_cnx 4000001 7 false 0 eq_refl ltac:(lia) ltac:(cbn; lia) ltac:(cbn; lia))
    as (H1 & H2 & _).
  split; [exact H1|exact (H2 eq_refl)].
Defined.

(** A stream of the peer does not always give its credit back.  The limit of streams
    is only computed when the FIN arrives, on the offsets known before it: when data is
    missing in front of data that was received, the stream is later delivered to its end
    and the end is signalled, but the limit is not raised; when the FIN arrives first, it
    is raised before any data was delivered.  In order it is raised at the end. *)
Theorem stream_credit_leak :
  let d0 := (0, PF_stream 3 0 false [1; 2]) in let d1 := (0, PF_stream 3 2 false [3]) in
  let fins := (0, PF_stream 3 3 true [4]) in
  let run fs := run_peer true (fun _ => false) fs example_cnx in
  let credit c := max_stream_id_unidir_local_computed c - max_stream_id_unidir_local_computed example_cnx in
  callbacks (run [d1; fins; d0]) = [Callback 3 [4] (app_data true); Callback 3 [3] (app_data false); Callback 3 [1; 2] (app_data false)] /\
  callbacks (run [d0; d1; fins]) = callbacks (run [d1; fins; d0]) /\
  credit (run [d1; fins; d0]) = 0 /\ credit (run [d0; d1; fins]) = 4 /\
  callbacks (run [fins]) = [] /\ credit (run [fins]) = 4.
Proof. split_and!; reflexivity. Qed.

(** Credit granted to the peer never shrinks: when a MAX_STREAM_DATA frame is due for a
    stream, the offset it announces is above the current limit of the stream (offsets and
    window below 2^61), and at most one window beyond what the application consumed. *)
Theorem max_stream_data_grows c s :
  0 <= consumed_offset (recv s) <= maxdata_local s -> maxdata_local s < 2 ^ 61 -> 0 <= max_stream_receive_window_size c < 2 ^ 61 ->
  let '(required, new_offset) := is_max_stream_data_frame_required c s in
  required = true ->
  maxdata_local s < new_offset <= consumed_offset (recv s) + max_stream_receive_window_size c.
Proof.
  intros Hc Hm Hw. unfold is_max_stream_data_frame_required. set (k := consumed_offset (recv s)) in *.
  unfold UINT64_MAX. rewrite !u64_small by lia. intros Hreq. reflect_cmp.
  apply orb_true_iff in H0 as [H0|H0]; reflect_cmp; lia.
Qed.

Lemma max_stream_data_grows_witness :
  let s := StreamHead 1 (RecvState 600 600 false false []) 1000 0 0 0 0 0 0 [] false false false false false false false false false false false false in
  is_max_stream_data_frame_required example_cnx s = (true, 2200) /\ 1000 < 2200 <= 600 + 4000.
Proof.
  split; [reflexivity|].
  apply (max_stream_data_grows example_cnx
    (StreamHead 1 (RecvState 600 600 false false []) 1000 0 0 0 0 0 0 [] false false false false false false false false false false false false));
    cbn; (lia || reflexivity).
Defined.

End Streams.
