(* ===== verification/MemoryPool.v ===== *)
(** * The plugin heap: picoquic/memory.c

    Plugins allocate from a pool of blocks of equal size inside their own memory.  The
    free blocks form a list threaded through their first eight bytes; blocks are put on
    the list lazily, one per allocation.  The first eight bytes of an allocated block
    hold a magic number and the plugin gets the address behind it.

    [words] is the memory the pool reads and writes: the 64-bit words at the start of the
    blocks, by address.  What a plugin writes in its blocks is elsewhere.  The second
    manager of the source, for blocks of any size, is the michelfralloc submodule, which
    is not part of the repository. *)
From stdpp Require Import base tactics list numbers functions.
From Stdlib Require Import ZArith Lia Bool.
From S2P Require Import Prelude.
#[local] Open Scope Z_scope.

Module MemoryPool.

Definition MAGIC_NUMBER : Z := 0xa110ca7ab1e.
Definition PLUGIN_MEMORY : Z := 16 * 1024 * 1024.

(** [memory_pool_t] and the memory it manages; [next] is [None] for NULL. *)
Record memory_pool := MemoryPool {
  mem_start : Z; size_of_each_block : Z; num_of_blocks : Z; num_initialized : Z; num_free_blocks : Z;
  next : option Z; words : Z -> Z
}.

Definition addr_from_index (mp : memory_pool) (i : Z) : Z := mem_start mp + u64 (i * size_of_each_block mp).
Definition index_from_addr (mp : memory_pool) (p : Z) : Z := u64 (p - mem_start mp) / size_of_each_block mp.

(** [*(uint64_t* ) a = v] *)
Definition store (a v : Z) (m : Z -> Z) : Z -> Z := <[a := v]> m.

Definition my_malloc_block (mp : memory_pool) (size : Z) : option Z * memory_pool :=
  if size_of_each_block mp - 8 <? size then (None, mp)
  else
    let mp :=
      if num_initialized mp <? num_of_blocks mp
      then MemoryPool (mem_start mp) (size_of_each_block mp) (num_of_blocks mp) (num_initialized mp + 1) (num_free_blocks mp)
             (next mp) (store (addr_from_index mp (num_initialized mp)) (num_initialized mp + 1) (words mp))
      else mp in
    if 0 <? num_free_blocks mp then
      let num_free := num_free_blocks mp - 1 in
      let next' := if 0 <? num_free then (fun n => addr_from_index mp (words mp n)) <$> next mp else None in
      match next mp with
      | Some ret =>
        (Some (ret + 8), MemoryPool (mem_start mp) (size_of_each_block mp) (num_of_blocks mp) (num_initialized mp) num_free
                           next' (store ret MAGIC_NUMBER (words mp)))
      | None => (None, MemoryPool (mem_start mp) (size_of_each_block mp) (num_of_blocks mp) (num_initialized mp) num_free next' (words mp))
      end
    else (None, mp).

(** The two checks of the source print a message and go on; [bad_metadata] and
    [not_belonging] are their conditions. *)
Definition bad_metadata (mp : memory_pool) (ptr : Z) : bool := negb (words mp (ptr - 8) =? MAGIC_NUMBER).
Definition not_belonging (mp : memory_pool) (ptr : Z) : bool :=
  negb ((mem_start mp <=? ptr - 8) && (ptr - 8 <? mem_start mp + u64 (num_of_blocks mp * size_of_each_block mp))).

Definition my_free_block (mp : memory_pool) (ptr : Z) : memory_pool :=
  let p := ptr - 8 in
  let link := match next mp with Some n => index_from_addr mp n | None => num_of_blocks mp end in
  MemoryPool (mem_start mp) (size_of_each_block mp) (num_of_blocks mp) (num_initialized mp) (num_free_blocks mp + 1)
    (Some p) (store p link (words mp)).

Definition my_realloc_block (mp : memory_pool) (ptr size : Z) : option Z * memory_pool :=
  if size_of_each_block mp - 8 <? size then (None, my_free_block mp ptr) else (Some ptr, mp).

(** [my_calloc]: the product is passed to [my_malloc] as an [unsigned int]; the number of
    bytes cleared by the [memset] is the third result. *)
Definition my_calloc (mp : memory_pool) (nmemb size : Z) : option Z * memory_pool * Z :=
  let '(ret, mp) := my_malloc_block mp (u32 (u64 (nmemb * size))) in
  (ret, mp, match ret with Some _ => u64 (nmemb * size) | None => 0 end).

(** The pool over a plugin's memory at address [memory]. *)
Definition init_block_memory_management (memory : Z) : memory_pool :=
  MemoryPool memory 2100 (PLUGIN_MEMORY / 2100) 0 (PLUGIN_MEMORY / 2100) (Some memory) (fun _ => 0).

(** ** What a client does *)

Inductive op := Malloc (size : Z) | Free (ptr : Z) | Realloc (ptr size : Z).

Definition step (mp : memory_pool) (o : op) : option Z * memory_pool :=
  match o with
  | Malloc size => my_malloc_block mp size
  | Free ptr => (None, my_free_block mp ptr)
  | Realloc ptr size => my_realloc_block mp ptr size
  end.

(** ** Specification: a set of blocks *)

(** The blocks in use, as the addresses the client holds. *)
Abbreviation held := (list Z).

(** The address the client gets for block [i]. *)
Definition payload (mp : memory_pool) (i : Z) : Z := mem_start mp + i * size_of_each_block mp + 8.

(** A client only frees and reallocates what it holds. *)
Definition allowed (h : held) (o : op) : Prop :=
  match o with Malloc _ => True | Free ptr | Realloc ptr _ => ptr ∈ h end.

(** What the client holds after an operation and its answer. *)
Definition holds_after (h : held) (o : op) (ret : option Z) : held :=
  match o, ret with
  | Malloc _, Some p => p :: h
  | Malloc _, None => h
  | Free ptr, _ => filter (fun q => q <> ptr) h
  | Realloc ptr _, None => filter (fun q => q <> ptr) h
  | Realloc _ _, Some _ => h
  end.

(** ** Invariant *)

(** [words] links the blocks of [fl] from [i] to [stop]. *)
Fixpoint chain (mp : memory_pool) (fl : list Z) (stop : Z) : Prop :=
  match fl with
  | [] => True
  | i :: fl' => words mp (payload mp i - 8) = match fl' with j :: _ => j | [] => stop end /\ chain mp fl' stop
  end.

Record pool_inv (mp : memory_pool) (fl used : list Z) : Prop := PoolInv {
  inv_size : 8 < size_of_each_block mp;
  inv_fits : num_of_blocks mp * size_of_each_block mp < 2 ^ 64;
  inv_init : 0 <= num_initialized mp <= num_of_blocks mp;
  inv_free : num_free_blocks mp = Z.of_nat (length fl) + (num_of_blocks mp - num_initialized mp);
  inv_next : next mp = match fl with
    | i :: _ => Some (payload mp i - 8)
    | [] => if num_initialized mp <? num_of_blocks mp then Some (payload mp (num_initialized mp) - 8) else None end;
  inv_chain : chain mp fl (num_initialized mp);
  inv_part : fl ++ used ≡ₚ seqZ 0 (num_initialized mp);
  inv_magic : Forall (fun i => words mp (payload mp i - 8) = MAGIC_NUMBER) used
}.

(** ** Lemmas on addresses *)

Section Addresses.
Context (mp : memory_pool) (Hsize : 8 < size_of_each_block mp) (Hfits : num_of_blocks mp * size_of_each_block mp < 2 ^ 64).

Lemma addr_payload i : 0 <= i <= num_of_blocks mp -> addr_from_index mp i = payload mp i - 8.
Proof. intros Hi. unfold addr_from_index, payload. rewrite u64_small by nia. lia. Qed.

Lemma index_payload i : 0 <= i <= num_of_blocks mp -> index_from_addr mp (payload mp i - 8) = i.
Proof.
  intros Hi. unfold index_from_addr, payload.
  replace (mem_start mp + i * size_of_each_block mp + 8 - 8 - mem_start mp) with (i * size_of_each_block mp) by lia.
  rewrite u64_small by nia. apply Z.div_mul. lia.
Qed.

Lemma payload_inj i j : payload mp i = payload mp j -> i = j.
Proof. unfold payload. nia. Qed.
End Addresses.

Lemma store_eq a v m : store a v m a = v.
Proof. apply fn_lookup_insert. Qed.
Lemma store_ne a v m b : a <> b -> store a v m b = m b.
Proof. intros. by apply fn_lookup_insert_ne. Qed.

(** The same pool with other counters and words. *)
Definition with_state (mp : memory_pool) (init free : Z) (n : option Z) (w : Z -> Z) : memory_pool :=
  MemoryPool (mem_start mp) (size_of_each_block mp) (num_of_blocks mp) init free n w.

Lemma chain_frame mp init free n w fl stop :
  (forall i, i ∈ fl -> w (payload mp i - 8) = words mp (payload mp i - 8)) -> chain mp fl stop ->
  chain (with_state mp init free n w) fl stop.
Proof.
  induction fl as [|i fl IH]; cbn [chain]; [done|]. intros Hw [Hl Hc]. split.
  - cbn. change (payload (with_state mp init free n w) i) with (payload mp i). rewrite Hw; [done|left].
  - apply IH; [|done]. intros j Hj. apply Hw. by right.
Qed.

Lemma chain_snoc mp fl j stop :
  chain mp fl j -> words mp (payload mp j - 8) = stop -> chain mp (fl ++ [j]) stop.
Proof.
  induction fl as [|i fl IH]; cbn [chain app]; [done|]. intros [Hl Hc] Hj. split; [|by apply IH].
  by destruct fl.
Qed.

(** ** The operations keep the invariant *)

(** The block that every allocation puts on the free list. *)
Lemma lazy_init_ok mp fl used :
  pool_inv mp fl used -> num_initialized mp < num_of_blocks mp ->
  pool_inv (with_state mp (num_initialized mp + 1) (num_free_blocks mp) (next mp)
    (store (addr_from_index mp (num_initialized mp)) (num_initialized mp + 1) (words mp)))
    (fl ++ [num_initialized mp]) used.
Proof.
  intros [Hs Hf Hi Hfree Hnext Hc Hp Hm] Hlt. rewrite addr_payload by (done || lia). set (k := num_initialized mp) in *.
  set (w := store _ _ _).
  assert (Hnew : forall i, i ∈ fl ++ used -> i <> k).
  { intros i Hin ->. rewrite Hp, elem_of_seqZ in Hin. lia. }
  assert (Hw : forall i, i ∈ fl ++ used -> w (payload mp i - 8) = words mp (payload mp i - 8)).
  { intros i Hin. apply store_ne. intros Heq. apply (Hnew i Hin). symmetry. apply (payload_inj mp Hs). lia. }
  split; cbn [with_state size_of_each_block num_of_blocks num_initialized num_free_blocks next words]; try done; try lia.
  - rewrite length_app. cbn. lia.
  - rewrite Hnext. destruct fl as [|i fl]; cbn [app]; [|done]. destruct (Z.ltb_spec k (num_of_blocks mp)); [done|lia].
  - apply chain_snoc; [|apply store_eq]. apply chain_frame; [|done]. intros i Hin. apply Hw, elem_of_app. by left.
  - rewrite seqZ_app by lia. rewrite Z.add_0_l, (app_Permutation_comm fl), <- app_assoc, <- Hp.
    rewrite (app_Permutation_comm [k]). done.
  - apply list.Forall_forall. intros i Hin. change (payload (with_state _ _ _ _ _) i) with (payload mp i).
    rewrite Hw by (apply elem_of_app; by right). by apply (proj1 (list.Forall_forall _ _) Hm).
Qed.

(** Taking the first block of the list. *)
Lemma pop_ok mp i fl used :
  pool_inv mp (i :: fl) used ->
  pool_inv (with_state mp (num_initialized mp) (num_free_blocks mp - 1)
    (if 0 <? num_free_blocks mp - 1 then (fun n => addr_from_index mp (words mp n)) <$> next mp else None)
    (store (payload mp i - 8) MAGIC_NUMBER (words mp))) fl (i :: used).
Proof.
  intros [Hs Hf Hi Hfree Hnext Hc Hp Hm]. destruct Hc as [Hl Hc].
  assert (Hnd : NoDup (i :: fl ++ used)) by (change (NoDup ((i :: fl) ++ used)); rewrite Hp; apply NoDup_seqZ).
  apply list.NoDup_cons in Hnd as [Hni _].
  assert (Hw : forall j, j ∈ fl ++ used -> store (payload mp i - 8) MAGIC_NUMBER (words mp) (payload mp j - 8) = words mp (payload mp j - 8)).
  { intros j Hj. apply store_ne. intros Heq. apply Hni. replace i with j; [done|]. apply (payload_inj mp Hs). lia. }
  assert (Hrange : forall j, j ∈ (i :: fl) ++ used -> 0 <= j < num_of_blocks mp).
  { intros j Hj. rewrite Hp, elem_of_seqZ in Hj. lia. }
  split; cbn [with_state size_of_each_block num_of_blocks num_initialized num_free_blocks next words]; try done.
  - rewrite Hfree. cbn [length]. lia.
  - rewrite Hnext. cbn [fmap option_fmap option_map]. rewrite Hl. destruct fl as [|j fl]; cbn [length] in Hfree.
    + destruct (Z.ltb_spec 0 (num_free_blocks mp - 1)), (Z.ltb_spec (num_initialized mp) (num_of_blocks mp)); try lia; [|done].
      by rewrite addr_payload by (done || lia).
    + destruct (Z.ltb_spec 0 (num_free_blocks mp - 1)); [|lia].
      assert (0 <= j < num_of_blocks mp) by (apply Hrange; right; left). by rewrite addr_payload by (done || lia).
  - apply chain_frame; [|done]. intros j Hj. apply Hw, elem_of_app. by left.
  - rewrite <- Hp. cbn [app]. by rewrite <- Permutation_middle.
  - constructor; [apply store_eq|]. apply list.Forall_forall. intros j Hj.
    change (payload (with_state _ _ _ _ _) j) with (payload mp j). rewrite Hw by (apply elem_of_app; by right).
    by apply (proj1 (list.Forall_forall _ _) Hm).
Qed.

(** Giving a block back. *)
Lemma free_ok mp fl used1 i used2 :
  pool_inv mp fl (used1 ++ i :: used2) -> pool_inv (my_free_block mp (payload mp i)) (i :: fl) (used1 ++ used2).
Proof.
  intros [Hs Hf Hi Hfree Hnext Hc Hp Hm].
  assert (Hperm : i :: (fl ++ used1 ++ used2) ≡ₚ seqZ 0 (num_initialized mp)).
  { rewrite <- Hp. rewrite (app_assoc fl used1 used2), Permutation_middle. by rewrite <- app_assoc. }
  assert (Hnd : NoDup (i :: (fl ++ used1 ++ used2))) by (rewrite Hperm; apply NoDup_seqZ).
  apply list.NoDup_cons in Hnd as [Hni _].
  assert (Hrange : forall j, j ∈ i :: (fl ++ used1 ++ used2) -> 0 <= j < num_initialized mp).
  { intros j Hj. rewrite Hperm, elem_of_seqZ in Hj. lia. }
  assert (Hw : forall j v, j ∈ fl ++ used1 ++ used2 -> store (payload mp i - 8) v (words mp) (payload mp j - 8) = words mp (payload mp j - 8)).
  { intros j v Hj. apply store_ne. intros Heq. apply Hni. replace i with j; [done|]. apply (payload_inj mp Hs). lia. }
  unfold my_free_block. set (link := match next mp with Some n => _ | None => _ end).
  assert (Hlink : link = match fl with j :: _ => j | [] => num_initialized mp end).
  { unfold link. rewrite Hnext. destruct fl as [|j fl].
    - destruct (Z.ltb_spec (num_initialized mp) (num_of_blocks mp)); [apply index_payload; (done || lia)|lia].
    - apply index_payload; [done..|]. assert (0 <= j < num_initialized mp); [apply Hrange; right; left|lia]. }
  change (MemoryPool _ _ _ _ _ _ _) with (with_state mp (num_initialized mp) (num_free_blocks mp + 1) (Some (payload mp i - 8))
    (store (payload mp i - 8) link (words mp))).
  split; cbn [with_state size_of_each_block num_of_blocks num_initialized num_free_blocks next words]; try done.
  - cbn [length]. lia.
  - cbn [chain]. split; [cbn; change (payload (with_state _ _ _ _ _) i) with (payload mp i); rewrite store_eq; exact Hlink|].
    apply chain_frame; [|done]. intros j Hj. apply Hw, elem_of_app. by left.
  - apply Forall_app in Hm as [Hm1 Hm2]. apply list.Forall_cons in Hm2 as [_ Hm2].
    apply list.Forall_forall. intros j Hj. change (payload (with_state _ _ _ _ _) j) with (payload mp j).
    rewrite Hw by (apply elem_of_app; by right). apply elem_of_app in Hj as [Hj|Hj];
      [by apply (proj1 (list.Forall_forall _ _) Hm1)|by apply (proj1 (list.Forall_forall _ _) Hm2)].
Qed.

Lemma malloc_ok mp fl used size :
  pool_inv mp fl used ->
  (exists i fl' mp', my_malloc_block mp size = (Some (payload mp i), mp') /\ pool_inv mp' fl' (i :: used) /\
     size <= size_of_each_block mp - 8 /\ (Z.of_nat (length used) < num_of_blocks mp)) \/
  (my_malloc_block mp size = (None, mp) /\
   (size_of_each_block mp - 8 < size \/ Z.of_nat (length used) = num_of_blocks mp)).
Proof.
  intros Hinv. unfold my_malloc_block. destruct (Z.ltb_spec (size_of_each_block mp - 8) size) as [|Hfit]; [right; auto|].
  set (mp1 := if num_initialized mp <? num_of_blocks mp then _ else mp).
  assert (H1 : exists fl1, pool_inv mp1 fl1 used /\ num_of_blocks mp1 = num_of_blocks mp /\
    (forall i, payload mp1 i = payload mp i) /\ (fl1 = [] -> mp1 = mp /\ num_initialized mp = num_of_blocks mp) /\
    size_of_each_block mp1 = size_of_each_block mp).
  { unfold mp1. destruct (Z.ltb_spec (num_initialized mp) (num_of_blocks mp)).
    - exists (fl ++ [num_initialized mp]). split; [by apply lazy_init_ok|]. split_and!; try done; by destruct fl.
    - exists fl. split_and!; try done. intros _. split; [done|]. pose proof (inv_init _ _ _ Hinv). lia. }
  clearbody mp1. destruct H1 as (fl1 & Hinv1 & Hn & Hpay & Hsame & Hsz).
  pose proof (Permutation_length (inv_part _ _ _ Hinv1)) as Hlen. rewrite length_app, length_seqZ in Hlen.
  pose proof (inv_free _ _ _ Hinv1) as Hfree. pose proof (inv_init _ _ _ Hinv1) as Hinit.
  destruct fl1 as [|i fl1].
  - right. destruct (Hsame eq_refl) as [-> Hall]. cbn [length] in *.
    destruct (Z.ltb_spec 0 (num_free_blocks mp)); [lia|]. split; [done|]. right. lia.
  - left. cbn [length] in *. destruct (Z.ltb_spec 0 (num_free_blocks mp1)); [|lia]. rewrite (inv_next _ _ _ Hinv1).
    exists i, fl1. eexists. split; [by replace (payload mp1 i - 8 + 8) with (payload mp i) by (rewrite Hpay; lia)|].
    split; [|split; lia]. pose proof (pop_ok mp1 i fl1 used Hinv1) as Hpop. rewrite (inv_next _ _ _ Hinv1) in Hpop. exact Hpop.
Qed.

(** ** Any client *)

(** The states a client that respects the interface can reach. *)
Inductive runs (mp0 : memory_pool) : memory_pool -> held -> Prop :=
| runs_init : runs mp0 mp0 []
| runs_step mp h o : runs mp0 mp h -> allowed h o -> runs mp0 (step mp o).2 (holds_after h o (step mp o).1).

Definition same_pool (mp0 mp : memory_pool) : Prop :=
  mem_start mp = mem_start mp0 /\ size_of_each_block mp = size_of_each_block mp0 /\ num_of_blocks mp = num_of_blocks mp0.

(** The client holds exactly the blocks in use. *)
Definition refines (mp0 mp : memory_pool) (h : held) : Prop :=
  same_pool mp0 mp /\ exists fl used, pool_inv mp fl used /\ h ≡ₚ payload mp <$> used.

Lemma malloc_same mp size : same_pool mp (my_malloc_block mp size).2.
Proof.
  unfold my_malloc_block. destruct (_ <? size); [done|]. destruct (num_initialized mp <? num_of_blocks mp);
    cbn; (destruct (0 <? num_free_blocks mp); [|done]); by destruct (next mp).
Qed.

Lemma filter_ne_all (l : list Z) x : x ∉ l -> filter (fun q => q <> x) l = l.
Proof.
  intros Hx. induction l as [|y l IH]; [done|]. rewrite not_elem_of_cons in Hx. rewrite filter_cons, IH by tauto.
  case_decide; [done|]. naive_solver.
Qed.

Lemma used_nodup mp fl used : pool_inv mp fl used -> NoDup used.
Proof. intros H. apply (list.NoDup_app fl used). rewrite (inv_part _ _ _ H). apply NoDup_seqZ. Qed.

Lemma payloads_nodup mp fl used : pool_inv mp fl used -> NoDup (payload mp <$> used).
Proof.
  intros H. apply NoDup_fmap_2_strong; [|by eapply used_nodup].
  intros i j _ _. apply payload_inj, (inv_size _ _ _ H).
Qed.

Lemma release_ok mp0 mp h ptr :
  refines mp0 mp h -> ptr ∈ h -> refines mp0 (my_free_block mp ptr) (filter (fun q => q <> ptr) h).
Proof.
  intros (Hsame & fl & used & Hinv & Hh) Hp. rewrite Hh, list_elem_of_fmap in Hp. destruct Hp as (i & -> & Hi).
  apply list_elem_of_split in Hi as (u1 & u2 & ->). split; [done|]. exists (i :: fl), (u1 ++ u2). split; [by apply free_ok|].
  pose proof (payloads_nodup _ _ _ Hinv) as Hnd. rewrite fmap_app, fmap_cons in Hnd.
  rewrite Hh. change (payload (my_free_block mp (payload mp i))) with (payload mp).
  rewrite !fmap_app, fmap_cons, list.filter_app, filter_cons. case_decide; [done|].
  apply list.NoDup_app in Hnd as (_ & Hd & Hnd2). apply list.NoDup_cons in Hnd2 as [Hni _].
  rewrite !filter_ne_all; [done|done|]. intros Hin. apply (Hd _ Hin). left.
Qed.

Lemma runs_refines mp0 mp h :
  refines mp0 mp0 [] -> runs mp0 mp h -> refines mp0 mp h.
Proof.
  intros H0. induction 1 as [|mp h o _ IH Hal]; [done|]. destruct o as [size|ptr|ptr size]; cbn [step holds_after fst snd allowed] in *.
  - destruct IH as (Hsame & fl & used & Hinv & Hh). pose proof (malloc_same mp size) as Hms.
    destruct (malloc_ok mp fl used size Hinv) as [(i & fl' & mp' & Heq & Hinv' & _)|[Heq _]]; rewrite Heq in *; cbn in *.
    + split; [unfold same_pool in *; intuition congruence|]. exists fl', (i :: used). split; [done|]. rewrite fmap_cons, Hh.
      destruct Hms as (Hm1 & Hm2 & _). unfold payload. by rewrite Hm1, Hm2.
    + split; [done|]. by exists fl, used.
  - by apply release_ok.
  - unfold my_realloc_block. destruct (_ <? size); cbn; [by apply release_ok|done].
Qed.

Lemma init_refines memory : let mp := init_block_memory_management memory in refines mp mp [].
Proof.
  split; [done|]. exists [], []. split; [|done]. split; try done.
  change (Some memory = Some (memory + 0 * 2100 + 8 - 8)). f_equal. lia.
Qed.

(** C30. The plugin heap never hands out the same memory twice.  For every client that frees
    and reallocates only what it holds, in any order: the addresses it holds are distinct
    payloads of blocks of the plugin's memory; an allocation succeeds exactly when the
    size fits a block and fewer than all the blocks are held, and returns a block that is
    not held; a block given back has its magic number and belongs to the plugin, so that
    neither of the corruption messages is printed. *)
Theorem pool_refines_set memory mp h :
  runs (init_block_memory_management memory) mp h ->
  let n := PLUGIN_MEMORY / 2100 in
  NoDup h /\ Forall (fun p => exists i, 0 <= i < n /\ p = memory + i * 2100 + 8 /\ p + 2092 <= memory + PLUGIN_MEMORY) h /\
  (forall size, let ret := (my_malloc_block mp size).1 in
     (is_Some ret <-> size <= 2092 /\ Z.of_nat (length h) < n) /\ (forall p, ret = Some p -> p ∉ h)) /\
  (forall ptr, ptr ∈ h -> bad_metadata mp ptr = false /\ not_belonging mp ptr = false).
Proof.
  intros Hr n. destruct (runs_refines _ _ _ (init_refines memory) Hr) as ((Hst & Hsz & Hnb) & fl & used & Hinv & Hh).
  cbn in Hst, Hsz, Hnb. fold n in Hnb. assert (Hn : n = 7989) by reflexivity.
  assert (Hrange : forall i, i ∈ used -> 0 <= i < n).
  { intros i Hi. assert (i ∈ fl ++ used) as Hi' by (apply elem_of_app; by right).
    rewrite (inv_part _ _ _ Hinv), elem_of_seqZ in Hi'. pose proof (inv_init _ _ _ Hinv). lia. }
  assert (Hpay : forall i, payload mp i = memory + i * 2100 + 8) by (intros i; unfold payload; by rewrite Hst, Hsz).
  split_and!.
  - rewrite Hh. by eapply payloads_nodup.
  - rewrite Hh. apply list.Forall_forall. intros p Hp. apply list_elem_of_fmap in Hp as (i & -> & Hi). specialize (Hrange i Hi).
    exists i. rewrite Hpay. split; [done|]. split; [done|]. unfold PLUGIN_MEMORY. lia.
  - intros size. cbv zeta. rewrite Hh, length_fmap, <- Hnb. replace 2092 with (size_of_each_block mp - 8) by lia.
    destruct (malloc_ok mp fl used size Hinv) as [(i & fl' & mp' & -> & Hinv' & Hs & Hl)|[-> Hno]]; cbn [fst].
    + split; [done|]. intros p [= <-]. rewrite Hh. pose proof (used_nodup _ _ _ Hinv') as Hnd. apply list.NoDup_cons in Hnd as [Hni _].
      rewrite list_elem_of_fmap. intros (j & Heq & Hj). apply payload_inj in Heq; [by subst|apply (inv_size _ _ _ Hinv)].
    + split; [|done]. split; [intros [? ?]; done|lia].
  - intros ptr Hp. rewrite Hh, list_elem_of_fmap in Hp. destruct Hp as (i & -> & Hi). unfold bad_metadata, not_belonging.
    pose proof (proj1 (list.Forall_forall _ _) (inv_magic _ _ _ Hinv) i Hi) as Hm. cbn beta in Hm. rewrite Hm.
    specialize (Hrange i Hi). rewrite Hpay, Hst, Hsz, Hnb, u64_small by lia. split; [done|].
    apply negb_false_iff, andb_true_iff. rewrite Z.leb_le, Z.ltb_lt. lia.
Qed.

Lemma pool_refines_set_witness :
  let mp0 := init_block_memory_management 1000 in
  let mp3 := (step (step (step mp0 (Malloc 100)).2 (Malloc 2092)).2 (Free 1008)).2 in
  (my_malloc_block mp3 50).1 = Some 1008 /\ NoDup [3108].
Proof.
  split; [reflexivity|].
  set (mp0 := init_block_memory_management 1000).
  pose proof (runs_step mp0 _ _ (Malloc 100) (runs_init mp0) I) as H1.
  pose proof (runs_step mp0 _ _ (Malloc 2092) H1 I) as H2.
  assert (Hin : 1008 ∈ [3108; 1008]) by (right; left).
  pose proof (runs_step mp0 _ _ (Free 1008) H2 Hin) as H3.
  exact (proj1 (pool_refines_set 1000 _ _ H3)).
Defined.

(** [my_calloc] clears more than it allocates when the product of its arguments does not
    fit an [unsigned int]: on a fresh pool every product of the form [2^32 + r] with [r] at
    most 2092 is granted one block, of 2092 bytes, and the product itself is cleared. *)
Theorem calloc_truncates memory nmemb size r :
  0 <= r <= 2092 -> nmemb * size = 2 ^ 32 + r ->
  let '(ret, _, cleared) := my_calloc (init_block_memory_management memory) nmemb size in
  ret = Some (memory + 8) /\ cleared = 2 ^ 32 + r.
Proof.
  intros Hr Hprod. unfold my_calloc. rewrite Hprod, (u64_small (2 ^ 32 + r)) by lia.
  assert (u32 (2 ^ 32 + r) = r) as ->.
  { unfold u32. rewrite <- (Z.mul_1_l (2 ^ 32)) at 1. rewrite Z.add_comm, Z.mod_add by lia. apply Z.mod_small. lia. }
  unfold my_malloc_block. cbn [init_block_memory_management size_of_each_block num_initialized num_of_blocks num_free_blocks next].
  destruct (Z.ltb_spec (2100 - 8) r); [lia|]. change (0 <? PLUGIN_MEMORY / 2100) with true. cbv iota.
  cbn [num_free_blocks next]. change (0 <? PLUGIN_MEMORY / 2100) with true. cbv iota. done.
Qed.

Lemma calloc_truncates_witness :
  let '(ret, _, cleared) := my_calloc (init_block_memory_management 0) 65536 65536 in ret = Some (0 + 8) /\ cleared = 2 ^ 32 + 0.
Proof. apply (calloc_truncates 0 65536 65536 0); lia. Defined.

End MemoryPool.
