(* ===== verification/Congestion.v ===== *)
(** * Congestion control: picoquic/newreno.c and picoquic/cc_common.c

    The New Reno controller of a path and the round-trip filter shared by the
    controllers.  Writing outside the array of recent round-trip times gives [None].
    The functions of cc_common.c that compute with doubles (the smoothed loss rate and
    the window increase on long paths) and the pacing data, which is derived from the
    window, are not modelled. *)
From stdpp Require Import base tactics list numbers option.
From Stdlib Require Import ZArith Lia Bool.
From S2P Require Import Prelude.
#[local] Open Scope Z_scope.

Module Congestion.

Definition PICOQUIC_MAX_PACKET_SIZE : Z := 1350.
Definition PICOQUIC_CWIN_INITIAL : Z := 10 * PICOQUIC_MAX_PACKET_SIZE.
Definition PICOQUIC_CWIN_MINIMUM : Z := 2 * PICOQUIC_MAX_PACKET_SIZE.
Definition PICOQUIC_TARGET_RENO_RTT : Z := 100000.
Definition NB_RTT_RENO : nat := 4.
Definition PICOQUIC_MIN_MAX_RTT_SCOPE : nat := 7.

(** The fields of [picoquic_path_t] the controllers use. *)
Record path := Path {
  cwin : Z; send_mtu : Z; smoothed_rtt : Z; send_sequence : Z; highest_acknowledged : Z
}.

Definition set_cwin (v : Z) (p : path) : path :=
  Path v (send_mtu p) (smoothed_rtt p) (send_sequence p) (highest_acknowledged p).

(** ** cc_common.c *)

Definition picoquic_cc_get_sequence_number (p : path) : Z := send_sequence p.
Definition picoquic_cc_get_ack_number (p : path) : Z := highest_acknowledged p.

Definition picoquic_cc_was_cwin_blocked (p : path) (last_sequence_blocked : Z) : bool :=
  (last_sequence_blocked =? 0) || (picoquic_cc_get_ack_number p <=? last_sequence_blocked).

(** [picoquic_min_max_rtt_t], without the fields of the loss test. *)
Record min_max_rtt := MinMaxRtt {
  last_rtt_sample_time : Z; rtt_filtered_min : Z; nb_rtt_excess : nat; sample_current : nat; is_init : bool;
  past_threshold : bool; threshold_count : nat; sample_min : Z; sample_max : Z; samples : list Z
}.

(** One step of the loop: [if (s < min) min = s; else if (s > max) max = s;] *)
Definition min_max_step (m : Z * Z) (s : Z) : Z * Z :=
  if s <? m.1 then (s, m.2) else if m.2 <? s then (m.1, s) else m.

Definition picoquic_filter_rtt_min_max (t : min_max_rtt) (rtt : Z) : min_max_rtt :=
  let x := sample_current t in
  let samples := <[x := rtt]> (samples t) in
  let wrap := (PICOQUIC_MIN_MAX_RTT_SCOPE <=? x + 1)%nat in
  let is_init := wrap || is_init t in
  let x_max := if is_init then PICOQUIC_MIN_MAX_RTT_SCOPE else (x + 1)%nat in
  let s0 := nth 0 samples 0 in
  let '(mn, mx) := foldl min_max_step (s0, s0) (drop 1 (take x_max samples)) in
  MinMaxRtt (last_rtt_sample_time t) (rtt_filtered_min t) (nb_rtt_excess t) (if wrap then 0%nat else (x + 1)%nat) is_init
    (past_threshold t) (threshold_count t) mn mx samples.

(** Returns whether slow start should end, and the tracker. *)
Definition picoquic_hystart_test (t : min_max_rtt) (rtt_measurement current_time : Z) (is_one_way_delay_enabled : bool) :
    bool * min_max_rtt :=
  if u64 (last_rtt_sample_time t + 1000) <? current_time then
    let t := picoquic_filter_rtt_min_max t rtt_measurement in
    let fmin :=
      if is_init t && ((rtt_filtered_min t =? 0) || (sample_max t <? rtt_filtered_min t)) then sample_max t else rtt_filtered_min t in
    let upd excess past count :=
      MinMaxRtt current_time fmin excess (sample_current t) (is_init t) past count (sample_min t) (sample_max t) (samples t) in
    if is_init t then
      let delta_max := fmin / 4 in
      let delta_max :=
        if is_one_way_delay_enabled && (PICOQUIC_TARGET_RENO_RTT / 2 <? delta_max) then PICOQUIC_TARGET_RENO_RTT / 2 else delta_max in
      if fmin <? sample_min t then
        if u64 (fmin + delta_max) <? sample_min t then
          let excess := S (nb_rtt_excess t) in
          ((PICOQUIC_MIN_MAX_RTT_SCOPE <=? excess)%nat, upd excess true (threshold_count t))
        else
          let count := S (threshold_count t) in
          (false, upd (nb_rtt_excess t) ((PICOQUIC_MIN_MAX_RTT_SCOPE <=? count)%nat || past_threshold t) count)
      else (false, upd 0%nat (past_threshold t) 0%nat)
    else (false, upd (nb_rtt_excess t) (past_threshold t) (threshold_count t))
  else (false, t).

(** ** newreno.c *)

Inductive alg_state := picoquic_newreno_alg_slow_start | picoquic_newreno_alg_congestion_avoidance.
#[export] Instance alg_state_eq : EqDecision alg_state.
Proof. solve_decision. Defined.

(** [picoquic_newreno_state_t] *)
Record newreno_state := NewReno {
  alg : alg_state; residual_ack : Z; ssthresh : Z; recovery_start : Z; min_rtt : Z;
  last_rtt : list Z; nb_rtt : nat; last_sequence_blocked : Z
}.

Definition picoquic_newreno_init (p : path) : newreno_state * path :=
  (NewReno picoquic_newreno_alg_slow_start 0 UINT64_MAX 0 0 (replicate NB_RTT_RENO 0) 0 0, set_cwin PICOQUIC_CWIN_INITIAL p).

Definition picoquic_newreno_enter_recovery (timeout : bool) (current_time : Z) (s : newreno_state) (p : path) : newreno_state * path :=
  let ssthresh := if cwin p / 2 <? PICOQUIC_CWIN_MINIMUM then PICOQUIC_CWIN_MINIMUM else cwin p / 2 in
  let '(w, a) := if timeout then (PICOQUIC_CWIN_MINIMUM, picoquic_newreno_alg_slow_start)
                 else (ssthresh, picoquic_newreno_alg_congestion_avoidance) in
  (NewReno a 0 ssthresh current_time (min_rtt s) (last_rtt s) (nb_rtt s) (last_sequence_blocked s), set_cwin w p).

Inductive notification :=
| notification_acknowledgement (nb_bytes_acknowledged : Z)
| notification_repeat
| notification_timeout
| notification_spurious_repeat
| notification_rtt_measurement (rtt_measurement : Z)
| notification_cwin_blocked
| notification_bw_measurement.

(** The loop over the recent round-trip times; it stops at the first empty entry. *)
Fixpoint rolling_min_loop (l : list Z) (rolling_min : Z) : Z :=
  match l with
  | [] => rolling_min
  | r :: l' => if r =? 0 then rolling_min else rolling_min_loop l' (if r <? rolling_min then r else rolling_min)
  end.

Definition set_alg (a : alg_state) (s : newreno_state) : newreno_state :=
  NewReno a (residual_ack s) (ssthresh s) (recovery_start s) (min_rtt s) (last_rtt s) (nb_rtt s) (last_sequence_blocked s).

Definition rtt_measured (rtt_measurement : Z) (s : newreno_state) : option newreno_state :=
  if decide (alg s = picoquic_newreno_alg_slow_start) then
    if ssthresh s =? UINT64_MAX then
      let min_rtt := if (rtt_measurement <? min_rtt s) || (min_rtt s =? 0) then rtt_measurement else min_rtt s in
      let nb := if (NB_RTT_RENO <? nb_rtt s)%nat then 0%nat else nb_rtt s in
      if (nb <? NB_RTT_RENO)%nat then
        let last_rtt := <[nb := rtt_measurement]> (last_rtt s) in
        let rolling_min := rolling_min_loop (drop 1 last_rtt) (nth 0 last_rtt 0) in
        let delta_rtt := u64 (rolling_min - min_rtt) in
        let a := if min_rtt <? u64 (delta_rtt * 4) then picoquic_newreno_alg_congestion_avoidance else alg s in
        Some (NewReno a (residual_ack s) (ssthresh s) (recovery_start s) min_rtt last_rtt (S nb) (last_sequence_blocked s))
      else None
    else Some s
  else Some s.

Definition picoquic_newreno_notify (n : notification) (current_time : Z) (s : newreno_state) (p : path) :
    option (newreno_state * path) :=
  match n with
  | notification_acknowledgement nb =>
    match alg s with
    | picoquic_newreno_alg_slow_start =>
      if picoquic_cc_was_cwin_blocked p (last_sequence_blocked s) then
        let w := u64 (cwin p + nb) in
        Some (if ssthresh s <=? w then set_alg picoquic_newreno_alg_congestion_avoidance s else s, set_cwin w p)
      else Some (s, p)
    | picoquic_newreno_alg_congestion_avoidance =>
      let complete_delta := u64 (nb * send_mtu p + residual_ack s) in
      Some (NewReno (alg s) (complete_delta mod cwin p) (ssthresh s) (recovery_start s) (min_rtt s) (last_rtt s) (nb_rtt s)
              (last_sequence_blocked s), set_cwin (u64 (cwin p + complete_delta / cwin p)) p)
    end
  | notification_repeat | notification_timeout =>
    let timeout := match n with notification_timeout => true | _ => false end in
    Some (if smoothed_rtt p <? u64 (current_time - recovery_start s)
          then picoquic_newreno_enter_recovery timeout current_time s p else (s, p))
  | notification_spurious_repeat =>
    Some (if (u64 (current_time - recovery_start s) <? smoothed_rtt p) && (cwin p <? u64 (2 * ssthresh s))
          then (set_alg picoquic_newreno_alg_congestion_avoidance s, set_cwin (u64 (2 * ssthresh s)) p) else (s, p))
  | notification_rtt_measurement rtt => s ← rtt_measured rtt s; Some (s, p)
  | notification_cwin_blocked =>
    Some (NewReno (alg s) (residual_ack s) (ssthresh s) (recovery_start s) (min_rtt s) (last_rtt s) (nb_rtt s)
            (picoquic_cc_get_sequence_number p), p)
  | notification_bw_measurement => Some (s, p)
  end.

(** ** Reachable states *)

(** Additions that stay below 2^64. *)
Definition no_overflow (n : notification) (s : newreno_state) (p : path) : Prop :=
  match n with
  | notification_acknowledgement nb => 0 <= nb /\ 0 <= send_mtu p /\ cwin p + nb < 2 ^ 63 /\ cwin p + nb * send_mtu p + residual_ack s < 2 ^ 63
  | notification_spurious_repeat => 2 * ssthresh s < 2 ^ 64
  | _ => True
  end.

(** Between two notifications everything but the window may change on the path. *)
Inductive reachable : newreno_state -> path -> Prop :=
| reach_init p : reachable (picoquic_newreno_init p).1 (picoquic_newreno_init p).2
| reach_path s p p' : reachable s p -> cwin p' = cwin p -> reachable s p'
| reach_notify s p n t s' p' :
    reachable s p -> no_overflow n s p -> picoquic_newreno_notify n t s p = Some (s', p') -> reachable s' p'.

Definition newreno_inv (s : newreno_state) (p : path) : Prop :=
  PICOQUIC_CWIN_MINIMUM <= cwin p /\ PICOQUIC_CWIN_MINIMUM <= ssthresh s /\ 0 <= residual_ack s.

Lemma enter_recovery_inv timeout t s p :
  newreno_inv s p -> let '(s', p') := picoquic_newreno_enter_recovery timeout t s p in newreno_inv s' p'.
Proof.
  unfold newreno_inv, picoquic_newreno_enter_recovery. intros (? & ? & ?). destruct timeout; case_cmp; cbn; lia.
Qed.

Lemma notify_inv n t s p s' p' :
  newreno_inv s p -> no_overflow n s p -> picoquic_newreno_notify n t s p = Some (s', p') -> newreno_inv s' p'.
Proof.
  intros Hinv Hno. pose proof Hinv as (Hc & Ht & Hr). assert (0 < PICOQUIC_CWIN_MINIMUM) by done.
  destruct n as [nb| | | |rtt| |]; cbn [picoquic_newreno_notify no_overflow] in *.
  - destruct Hno as (Hnb & Hmtu & Hw & Hd). destruct (alg s).
    + destruct (picoquic_cc_was_cwin_blocked p _); [|by intros [= <- <-]].
      rewrite u64_small by lia. intros [= <- <-]. unfold newreno_inv. destruct (_ <=? _); cbn; lia.
    + rewrite (u64_small (nb * send_mtu p + residual_ack s)) by nia.
      assert (0 <= (nb * send_mtu p + residual_ack s) / cwin p <= nb * send_mtu p + residual_ack s).
      { split; [apply Z.div_pos; nia|]. apply Z.div_le_upper_bound; nia. }
      rewrite u64_small by lia. intros [= <- <-]. unfold newreno_inv. cbn.
      pose proof (Z.mod_pos_bound (nb * send_mtu p + residual_ack s) (cwin p) ltac:(lia)). lia.
  - intros [= He]. destruct (_ <? _); [|by injection He as <- <-].
    pose proof (enter_recovery_inv false t s p Hinv) as Hi. by rewrite He in Hi.
  - intros [= He]. destruct (_ <? _); [|by injection He as <- <-].
    pose proof (enter_recovery_inv true t s p Hinv) as Hi. by rewrite He in Hi.
  - rewrite (u64_small (2 * ssthresh s)) by lia. intros [= He]. destruct (_ && _); injection He as <- <-; [|done].
    unfold newreno_inv. cbn. lia.
  - unfold rtt_measured. destruct (decide _); [|by intros [= <- <-]]. destruct (_ =? _); [|by intros [= <- <-]].
    destruct (_ <? NB_RTT_RENO)%nat; [|done]. cbn. intros [= <- <-]. by unfold newreno_inv.
  - intros [= <- <-]. by unfold newreno_inv.
  - by intros [= <- <-].
Qed.

Lemma reachable_inv s p : reachable s p -> newreno_inv s p.
Proof.
  induction 1 as [p|s p p' _ IH Hc|s p n t s' p' _ IH Hno Hn].
  - unfold newreno_inv. cbn. done.
  - unfold newreno_inv in *. by rewrite Hc.
  - by eapply notify_inv.
Qed.

(** What can happen from one state to another while every notification comes at most a round trip (as it is measured
    then) after [t]. *)
Inductive within (t : Z) : newreno_state -> path -> newreno_state -> path -> Prop :=
| within_refl s p : within t s p s p
| within_path s p s1 p1 p2 : within t s p s1 p1 -> cwin p2 = cwin p1 -> within t s p s1 p2
| within_notify s p s1 p1 n t' s2 p2 :
    within t s p s1 p1 -> u64 (t' - t) <= smoothed_rtt p1 -> no_overflow n s1 p1 ->
    picoquic_newreno_notify n t' s1 p1 = Some (s2, p2) -> within t s p s2 p2.

(** A notification in the round trip that follows a reduction at [t]. *)
Lemma notify_no_reduction t n t' s p s' p' :
  newreno_inv s p -> recovery_start s = t -> u64 (t' - t) <= smoothed_rtt p -> no_overflow n s p ->
  picoquic_newreno_notify n t' s p = Some (s', p') -> recovery_start s' = t /\ cwin p <= cwin p'.
Proof.
  intros (Hc & Ht & Hr) <- Hin Hno. assert (0 < PICOQUIC_CWIN_MINIMUM) by done.
  assert ((smoothed_rtt p <? u64 (t' - recovery_start s)) = false) as Hge by (by apply Z.ltb_ge).
  destruct n as [nb| | | |rtt| |]; cbn [picoquic_newreno_notify no_overflow] in *; rewrite ?Hge; try (by intros [= <- <-]).
  - destruct Hno as (Hnb & Hmtu & Hw & Hd). destruct (alg s).
    + destruct (picoquic_cc_was_cwin_blocked p _); [|by intros [= <- <-]].
      rewrite u64_small by lia. intros [= <- <-]. destruct (_ <=? _); cbn; lia.
    + rewrite (u64_small (nb * send_mtu p + residual_ack s)) by nia.
      assert (0 <= (nb * send_mtu p + residual_ack s) / cwin p <= nb * send_mtu p + residual_ack s)
        by (split; [apply Z.div_pos; nia|apply Z.div_le_upper_bound; nia]).
      rewrite u64_small by lia. intros [= <- <-]. cbn. lia.
  - rewrite (u64_small (2 * ssthresh s)) by lia. destruct (_ && (cwin p <? 2 * ssthresh s)) eqn:E; intros [= <- <-]; [|done].
    apply andb_true_iff in E as [_ E]. apply Z.ltb_lt in E. cbn. lia.
  - unfold rtt_measured. destruct (decide _); [|by intros [= <- <-]]. destruct (_ =? _); [|by intros [= <- <-]].
    destruct (_ <? NB_RTT_RENO)%nat; [|done]. cbn. by intros [= <- <-].
Qed.

Lemma within_no_reduction t s p s' p' :
  within t s p s' p' -> newreno_inv s p -> recovery_start s = t -> newreno_inv s' p' /\ recovery_start s' = t /\ cwin p <= cwin p'.
Proof.
  induction 1 as [s p|s p s1 p1 p2 _ IH Hc|s p s1 p1 n t' s2 p2 _ IH Hin Hno Hn]; intros Hi Hs; [done|..]; destruct (IH Hi Hs) as (Hi1 & Hs1 & Hc1).
  - unfold newreno_inv in *. by rewrite Hc.
  - destruct (notify_no_reduction _ _ _ _ _ _ _ Hi1 Hs1 Hin Hno Hn). split_and!; [by eapply notify_inv|done|lia].
Qed.

(** ** Properties *)

(** C39. The New Reno window.  In every reachable state the window is at least two packets.
    A loss more than one round trip after the last reduction halves it (down to that
    minimum) and moves to congestion avoidance, a timeout sets it to the minimum and
    restarts slow start.  The window is not reduced again during the round trip that
    follows, whatever is notified in it, acknowledgements and losses in any order.
    In congestion avoidance an acknowledgement grows the window by [send_mtu] per window
    acknowledged, without losing a fraction: what is left over is kept in [residual_ack]. *)
Theorem newreno_window s p t :
  reachable s p -> smoothed_rtt p < u64 (t - recovery_start s) ->
  PICOQUIC_CWIN_MINIMUM <= cwin p /\
  (forall n s' p', n = notification_repeat \/ n = notification_timeout ->
     picoquic_newreno_notify n t s p = Some (s', p') ->
     ssthresh s' = Z.max (cwin p / 2) PICOQUIC_CWIN_MINIMUM /\
     (n = notification_repeat -> cwin p' = ssthresh s' /\ alg s' = picoquic_newreno_alg_congestion_avoidance) /\
     (n = notification_timeout -> cwin p' = PICOQUIC_CWIN_MINIMUM /\ alg s' = picoquic_newreno_alg_slow_start) /\
     (forall s1 p1 s2 p2, within t s' p' s1 p1 -> within t s1 p1 s2 p2 -> cwin p1 <= cwin p2)) /\
  (forall nb s' p', alg s = picoquic_newreno_alg_congestion_avoidance -> no_overflow (notification_acknowledgement nb) s p ->
     picoquic_newreno_notify (notification_acknowledgement nb) t s p = Some (s', p') ->
     cwin p <= cwin p' /\ cwin p * (cwin p' - cwin p) + residual_ack s' = nb * send_mtu p + residual_ack s /\
     0 <= residual_ack s' < cwin p).
Proof.
  intros Hr Hrtt. pose proof (reachable_inv _ _ Hr) as (Hc & Ht & Hres). assert (0 < PICOQUIC_CWIN_MINIMUM) by done.
  split; [done|]. split.
  - intros n s' p' Hn. assert (Hle : (smoothed_rtt p <? u64 (t - recovery_start s)) = true) by (by apply Z.ltb_lt).
    assert (Hstay : forall s' p', recovery_start s' = t -> newreno_inv s' p' ->
      forall s1 p1 s2 p2, within t s' p' s1 p1 -> within t s1 p1 s2 p2 -> cwin p1 <= cwin p2).
    { intros s0 p0 Hs0 Hi0 s1 p1 s2 p2 H1 H2. destruct (within_no_reduction _ _ _ _ _ H1 Hi0 Hs0) as (Hi1 & Hs1 & _).
      by destruct (within_no_reduction _ _ _ _ _ H2 Hi1 Hs1) as (_ & _ & ?). }
    intros Hnot. assert (newreno_inv s' p') as Hinv' by (eapply (notify_inv n t s p); [done|by destruct Hn as [->| ->]|done]).
    assert (recovery_start s' = t) as Hs' by (destruct Hn as [->| ->]; cbn in Hnot; rewrite Hle in Hnot; by injection Hnot as <- _).
    specialize (Hstay s' p' Hs' Hinv'). revert Hnot.
    destruct Hn as [->| ->]; cbn [picoquic_newreno_notify]; rewrite Hle; unfold picoquic_newreno_enter_recovery;
      intros [= <- <-]; cbn [ssthresh cwin set_cwin alg]; split_and!; try done;
      destruct (Z.ltb_spec (cwin p / 2) PICOQUIC_CWIN_MINIMUM); lia.
  - intros nb s' p' Ha (Hnb & Hmtu & Hw & Hd). cbn [picoquic_newreno_notify]. rewrite Ha.
    rewrite (u64_small (nb * send_mtu p + residual_ack s)) by nia. set (d := nb * send_mtu p + residual_ack s) in *.
    assert (0 <= d) by (unfold d; nia).
    assert (0 <= d / cwin p <= d) by (split; [apply Z.div_pos; lia|apply Z.div_le_upper_bound; nia]).
    rewrite u64_small by lia. intros [= <- <-]. cbn.
    pose proof (Z.mod_pos_bound d (cwin p) ltac:(lia)). pose proof (Z.div_mod d (cwin p) ltac:(lia)). split_and!; lia.
Qed.

(** An acknowledgement and a second loss 20 milliseconds after the first one. *)
Lemma newreno_window_witness :
  let p := Path 0 1350 50000 100 90 in
  let s := (picoquic_newreno_init p).1 in
  exists s' p' s1 p1 s2 p2, picoquic_newreno_notify notification_repeat 1000000 s (set_cwin PICOQUIC_CWIN_INITIAL p) = Some (s', p') /\
    cwin p' = ssthresh s' /\ ssthresh s' = Z.max (PICOQUIC_CWIN_INITIAL / 2) PICOQUIC_CWIN_MINIMUM /\
    picoquic_newreno_notify (notification_acknowledgement 1350) 1010000 s' p' = Some (s1, p1) /\
    picoquic_newreno_notify notification_repeat 1020000 s1 p1 = Some (s2, p2) /\ cwin p1 <= cwin p2.
Proof.
  set (p := Path 0 1350 50000 100 90).
  destruct (newreno_window (picoquic_newreno_init p).1 (picoquic_newreno_init p).2 1000000 (reach_init p) eq_refl) as (_ & H & _).
  eexists _, _, _, _, _, _. split; [reflexivity|].
  destruct (H notification_repeat _ _ (or_introl eq_refl) eq_refl) as (H1 & H2 & _ & H3). split; [exact (proj1 (H2 eq_refl))|]. split; [exact H1|].
  split; [reflexivity|]. split; [reflexivity|]. eapply H3.
  - eapply (within_notify _ _ _ _ _ (notification_acknowledgement 1350) 1010000); [apply within_refl|vm_compute; congruence|vm_compute; split_and!; congruence|reflexivity].
  - eapply (within_notify _ _ _ _ _ notification_repeat 1020000); [apply within_refl|vm_compute; congruence|exact I|reflexivity].
Defined.

(** [n] equal measurements. *)
Fixpoint measure_rtts (n : nat) (r : Z) (p : path) (s : newreno_state) : option newreno_state :=
  match n with
  | O => Some s
  | S n' => '(s, p) ← picoquic_newreno_notify (notification_rtt_measurement r) 0 s p; measure_rtts n' r p s
  end.

(** The fifth round-trip time of the initial slow start is written behind the array of
    the four most recent ones: the index is only reset when it is above the number of
    entries.  Four equal measurements [r] are recorded and keep the controller in slow
    start; whatever comes next is out of bounds. *)
Theorem newreno_rtt_overflow p r r' :
  0 < r < 2 ^ 62 ->
  exists s, measure_rtts 4 r p (picoquic_newreno_init p).1 = Some s /\
    alg s = picoquic_newreno_alg_slow_start /\ last_rtt s = [r; r; r; r] /\ nb_rtt s = NB_RTT_RENO /\
    picoquic_newreno_notify (notification_rtt_measurement r') 0 s p = None.
Proof.
  intros Hr.
  assert (H0 : (r =? 0) = false) by (apply Z.eqb_neq; lia). assert (Hlt : (r <? r) = false) by (apply Z.ltb_ge; lia).
  assert (Hd : (r <? u64 (u64 (r - r) * 4)) = false).
  { rewrite Z.sub_diag. change (u64 (u64 0 * 4)) with 0. apply Z.ltb_ge. lia. }
  assert (Hstep : forall k, (k < 4)%nat ->
    rtt_measured r (NewReno picoquic_newreno_alg_slow_start 0 UINT64_MAX 0 (if (k =? 0)%nat then 0 else r)
      (replicate k r ++ replicate (4 - k) 0) k 0) =
    Some (NewReno picoquic_newreno_alg_slow_start 0 UINT64_MAX 0 r (replicate (S k) r ++ replicate (3 - k) 0) (S k) 0)).
  { intros k Hk. assert (k = 0 \/ k = 1 \/ k = 2 \/ k = 3)%nat as [->|[->|[->| ->]]] by lia;
      unfold rtt_measured; cbn; rewrite ?H0, ?Hlt, ?orb_true_r; cbn; rewrite ?H0, ?Hlt, Hd; done. }
  cbn [measure_rtts picoquic_newreno_init fst picoquic_newreno_notify].
  change (replicate NB_RTT_RENO 0) with [0; 0; 0; 0].
  pose proof (Hstep 0%nat ltac:(lia)) as S0. pose proof (Hstep 1%nat ltac:(lia)) as S1.
  pose proof (Hstep 2%nat ltac:(lia)) as S2. pose proof (Hstep 3%nat ltac:(lia)) as S3.
  cbn [Nat.eqb replicate app Nat.sub] in S0, S1, S2, S3.
  rewrite S0. cbn [mbind option_bind]. rewrite S1. cbn [mbind option_bind]. rewrite S2. cbn [mbind option_bind].
  rewrite S3. cbn [mbind option_bind].
  eexists. split; [done|]. split_and!; done.
Qed.

Lemma newreno_rtt_overflow_witness :
  exists s, last_rtt s = [20000; 20000; 20000; 20000] /\
    picoquic_newreno_notify (notification_rtt_measurement 21000) 0 s (Path 13500 1350 20000 0 0) = None.
Proof.
  destruct (newreno_rtt_overflow (Path 13500 1350 20000 0 0) 20000 21000 ltac:(lia)) as (s & _ & _ & Hl & _ & Hn).
  exists s. split; assumption.
Defined.

(** ** The round-trip filter *)

Lemma min_max_fold l m :
  m.1 <= m.2 -> let r := foldl min_max_step m l in
  (r.1 ∈ m.1 :: l) /\ (r.2 ∈ m.2 :: l) /\ r.1 <= m.1 /\ m.2 <= r.2 /\ Forall (fun x => r.1 <= x <= r.2) l.
Proof.
  revert m. induction l as [|x l IH]; intros m Hm; cbn [foldl]; [split_and!; try (left; done); try lia; constructor|].
  cbv zeta. set (m' := min_max_step m x).
  assert (Hm' : m'.1 <= m'.2 /\ m'.1 <= m.1 /\ m.2 <= m'.2 /\ m'.1 <= x <= m'.2 /\ (m'.1 = m.1 \/ m'.1 = x) /\ (m'.2 = m.2 \/ m'.2 = x)).
  { unfold m', min_max_step. case_cmp; cbn; split_and!; try lia; auto. }
  destruct Hm' as (H1 & H2 & H3 & H4 & H5 & H6). destruct (IH m' H1) as (I1 & I2 & I3 & I4 & I5). clearbody m'.
  rewrite !elem_of_cons in *. split_and!; try lia.
  - destruct I1 as [->|]; [|auto]. destruct H5 as [->| ->]; auto.
  - destruct I2 as [->|]; [|auto]. destruct H6 as [->| ->]; auto.
  - constructor; [lia|done].
Qed.

(** The filter keeps a window of the last seven samples and their extremes: after every
    sample, [sample_min] and [sample_max] are two of the valid samples and bound them all. *)
Lemma filter_rtt_extremes t rtt :
  length (samples t) = PICOQUIC_MIN_MAX_RTT_SCOPE -> (sample_current t < PICOQUIC_MIN_MAX_RTT_SCOPE)%nat ->
  let t' := picoquic_filter_rtt_min_max t rtt in
  let valid := if is_init t' then samples t' else take (S (sample_current t)) (samples t') in
  length (samples t') = PICOQUIC_MIN_MAX_RTT_SCOPE /\ (sample_current t' < PICOQUIC_MIN_MAX_RTT_SCOPE)%nat /\
  rtt ∈ valid /\ sample_min t' ∈ valid /\ sample_max t' ∈ valid /\ Forall (fun x => sample_min t' <= x <= sample_max t') valid.
Proof.
  intros Hl Hx. unfold picoquic_filter_rtt_min_max. set (l := <[sample_current t := rtt]> (samples t)).
  assert (Hll : length l = PICOQUIC_MIN_MAX_RTT_SCOPE) by (unfold l; by rewrite length_insert).
  assert (Hin : l !! sample_current t = Some rtt) by (apply list_lookup_insert_eq; lia).
  set (wrap := (PICOQUIC_MIN_MAX_RTT_SCOPE <=? sample_current t + 1)%nat). set (init := wrap || is_init t).
  set (x_max := if init then _ else _). cbv zeta.
  assert (Hv : (if init then l else take (S (sample_current t)) l) = take x_max l).
  { unfold x_max. destruct init; [rewrite take_ge by lia; done|]. by rewrite Nat.add_1_r. }
  assert (Hmax : (sample_current t < x_max)%nat) by (unfold x_max; destruct init; lia).
  destruct l as [|s0 l'] eqn:El; [done|]. destruct x_max as [|x_max]; [lia|]. cbn [take drop nth].
  rewrite drop_0. pose proof (min_max_fold (take x_max l') (s0, s0) ltac:(cbn; lia)) as H. cbv zeta in H.
  destruct (foldl min_max_step (s0, s0) (take x_max l')) as [mn mx]. cbn [fst snd] in H. destruct H as (H1 & H2 & H3 & H4 & H5).
  cbn [samples is_init sample_current sample_min sample_max]. rewrite Hv. cbn [take]. split_and!; try done.
  - unfold wrap. destruct (Nat.leb_spec PICOQUIC_MIN_MAX_RTT_SCOPE (sample_current t + 1)); unfold PICOQUIC_MIN_MAX_RTT_SCOPE in *; lia.
  - apply list_elem_of_lookup. exists (sample_current t). change (s0 :: take x_max l') with (take (S x_max) (s0 :: l')).
    rewrite lookup_take_lt by lia. done.
  - constructor; [lia|done].
Qed.

End Congestion.
