(* ===== verification/Ubpf.v ===== *)
(** * The virtual machine of the plugins: ubpf/vm/ubpf_vm.c

    Plugins are eBPF programs.  [ubpf_load] validates a program, adds memory
    checks to it (file UbpfRewrite) and [ubpf_exec_with_arg] interprets it.
    This file has the instruction set of ebpf.h, the interpreter as a step
    function and the validator.

    A register is a [Z] in [0, 2^64), memory a function from addresses to
    bytes, little endian as on the hosts the program runs on.  What C leaves
    undefined (reading past the instructions, a shift by more than the width, a
    division by zero) is the outcome [Undefined].  External functions are a
    parameter; so is what happens before a memory access ([fault]), which the
    interpreter, the machine code generator and the memory checks do in
    different ways. *)
From stdpp Require Import base tactics list numbers.
From Stdlib Require Import ZArith Lia Bool.
From S2P Require Import Prelude.
#[local] Open Scope Z_scope.

Module Ubpf.

(** ** The instruction set *)

Inductive alu_op := ADD | SUB | MUL | DIV | OR | AND | LSH | RSH | MOD | XOR | MOV | ARSH.
Inductive operand := IMM | REG.
Inductive mem_size := W | H | B | DW.
Inductive jump_op := JEQ | JGT | JGE | JSET | JNE | JSGT | JSGE | JLT | JLE | JSLT | JSLE.

(** The [EBPF_OP_...] of ebpf.h: [OpAlu false ADD IMM] is [EBPF_OP_ADD_IMM],
    [OpAlu true ADD REG] is [EBPF_OP_ADD64_REG]. *)
Inductive operation :=
  | OpAlu (wide : bool) (op : alu_op) (s : operand)
  | OpNeg (wide : bool)
  | OpLe
  | OpBe
  | OpLdx (sz : mem_size)
  | OpSt (sz : mem_size)
  | OpStx (sz : mem_size)
  | OpLddw
  | OpJa
  | OpJmp (op : jump_op) (s : operand)
  | OpCall
  | OpExit.

#[export] Instance alu_op_eq_dec : EqDecision alu_op.
Proof. solve_decision. Defined.
#[export] Instance operand_eq_dec : EqDecision operand.
Proof. solve_decision. Defined.
#[export] Instance mem_size_eq_dec : EqDecision mem_size.
Proof. solve_decision. Defined.
#[export] Instance jump_op_eq_dec : EqDecision jump_op.
Proof. solve_decision. Defined.
#[export] Instance operation_eq_dec : EqDecision operation.
Proof. solve_decision. Defined.

Definition EBPF_CLS_LD := 0x00.
Definition EBPF_CLS_LDX := 0x01.
Definition EBPF_CLS_ST := 0x02.
Definition EBPF_CLS_STX := 0x03.
Definition EBPF_CLS_ALU := 0x04.
Definition EBPF_CLS_JMP := 0x05.
Definition EBPF_CLS_ALU64 := 0x07.
Definition EBPF_MODE_MEM := 0x60.

Definition src_bit (s : operand) : Z := match s with IMM => 0x00 | REG => 0x08 end.
Definition size_bits (sz : mem_size) : Z := match sz with W => 0x00 | H => 0x08 | B => 0x10 | DW => 0x18 end.

Definition alu_bits (op : alu_op) : Z :=
  match op with
  | ADD => 0x00 | SUB => 0x10 | MUL => 0x20 | DIV => 0x30 | OR => 0x40 | AND => 0x50
  | LSH => 0x60 | RSH => 0x70 | MOD => 0x90 | XOR => 0xa0 | MOV => 0xb0 | ARSH => 0xc0
  end.

Definition jump_bits (op : jump_op) : Z :=
  match op with
  | JEQ => 0x10 | JGT => 0x20 | JGE => 0x30 | JSET => 0x40 | JNE => 0x50 | JSGT => 0x60
  | JSGE => 0x70 | JLT => 0xa0 | JLE => 0xb0 | JSLT => 0xc0 | JSLE => 0xd0
  end.

(** The opcode byte of an operation, as ebpf.h composes it. *)
Definition opcode_of (o : operation) : Z :=
  match o with
  | OpAlu wide op s => Z.lor (Z.lor (if wide then EBPF_CLS_ALU64 else EBPF_CLS_ALU) (src_bit s)) (alu_bits op)
  | OpNeg wide => Z.lor (if wide then EBPF_CLS_ALU64 else EBPF_CLS_ALU) 0x80
  | OpLe => Z.lor (Z.lor EBPF_CLS_ALU (src_bit IMM)) 0xd0
  | OpBe => Z.lor (Z.lor EBPF_CLS_ALU (src_bit REG)) 0xd0
  | OpLdx sz => Z.lor (Z.lor EBPF_CLS_LDX EBPF_MODE_MEM) (size_bits sz)
  | OpSt sz => Z.lor (Z.lor EBPF_CLS_ST EBPF_MODE_MEM) (size_bits sz)
  | OpStx sz => Z.lor (Z.lor EBPF_CLS_STX EBPF_MODE_MEM) (size_bits sz)
  | OpLddw => Z.lor EBPF_CLS_LD (size_bits DW)
  | OpJa => EBPF_CLS_JMP
  | OpJmp op s => Z.lor (Z.lor EBPF_CLS_JMP (src_bit s)) (jump_bits op)
  | OpCall => Z.lor EBPF_CLS_JMP 0x80
  | OpExit => Z.lor EBPF_CLS_JMP 0x90
  end.

Definition all_alu : list alu_op := [ADD; SUB; MUL; DIV; OR; AND; LSH; RSH; MOD; XOR; MOV; ARSH].
Definition all_jump : list jump_op := [JEQ; JGT; JGE; JSET; JNE; JSGT; JSGE; JLT; JLE; JSLT; JSLE].
Definition all_sizes : list mem_size := [W; H; B; DW].

(** The cases of the switches. *)
Definition all_operations : list operation :=
  (w ← [false; true]; op ← all_alu; s ← [IMM; REG]; [OpAlu w op s]) ++
  [OpNeg false; OpNeg true; OpLe; OpBe] ++
  (OpLdx <$> all_sizes) ++ (OpSt <$> all_sizes) ++ (OpStx <$> all_sizes) ++
  [OpLddw; OpJa] ++ (op ← all_jump; s ← [IMM; REG]; [OpJmp op s]) ++ [OpCall; OpExit].

(** The case of a [switch (inst.opcode)] that an opcode byte selects; [None] is
    its default. *)
Definition decode (opcode : Z) : option operation :=
  find (fun o => opcode_of o =? opcode) all_operations.

(** [struct ebpf_inst]; [dst] and [src] are fields of 4 bits, [offset] an
    [int16_t] and [imm] an [int32_t]. *)
Record ebpf_inst := Inst {
  opcode : Z;
  dst : nat;
  src : nat;
  offset : Z;
  imm : Z
}.

(** The bytes an access of this size moves. *)
Definition size_of (sz : mem_size) : Z := match sz with W => 4 | H => 2 | B => 1 | DW => 8 end.

Definition STACK_SIZE : Z := 2048.
Definition MAX_INSTS : Z := 65536.
Definition MAX_EXT_FUNCS : Z := 128.
Definition MAX_LOAD_STORE : Z := 2 * 2048.
Definition OOB_CALL : Z := 0x7f.

(** ** Memory *)

Abbreviation memory := (Z -> Z).

(** A load of [n] bytes, little endian. *)
Fixpoint load (m : memory) (addr : Z) (n : nat) : Z :=
  match n with
  | O => 0
  | S n' => u8 (m addr) + 2 ^ 8 * load m (u64 (addr + 1)) n'
  end.

Fixpoint store (m : memory) (addr : Z) (n : nat) (v : Z) : memory :=
  match n with
  | O => m
  | S n' =>
    let m' := fun a => if a =? addr then u8 v else m a in
    store m' (u64 (addr + 1)) n' (Z.shiftr v 8)
  end.

(** ** The interpreter *)

Record state := St { pc : Z; reg : list Z; mem : memory }.

Inductive outcome :=
  | Next (s : state)
  | Return (v : Z) (m : memory)
  | Undefined.

(** Register reads; the array has 16 entries. *)
Definition rd (r : list Z) (i : nat) : Z := nth i r 0.

(** A shift of a value of [width] bits; more than the width is undefined. *)
Definition shift_ok (width n : Z) : bool := n <? width.

(** The 64-bit operations; [b] is the register or the sign-extended immediate. *)
Definition alu64 (op : alu_op) (a b : Z) : option Z :=
  match op with
  | ADD => Some (u64 (a + b))
  | SUB => Some (u64 (a - b))
  | MUL => Some (u64 (a * b))
  | DIV => if b =? 0 then None else Some (a / b)
  | OR => Some (Z.lor a b)
  | AND => Some (Z.land a b)
  | LSH => if shift_ok 64 b then Some (u64 (Z.shiftl a b)) else None
  | RSH => if shift_ok 64 b then Some (Z.shiftr a b) else None
  | MOD => if b =? 0 then None else Some (a mod b)
  | XOR => Some (Z.lxor a b)
  | MOV => Some b
  | ARSH => if shift_ok 64 b then Some (u64 (Z.shiftr (s64 a) b)) else None
  end.

(** The 32-bit operations, which mask their result. *)
Definition alu32 (op : alu_op) (a b : Z) : option Z :=
  match op with
  | ADD => Some (u32 (u64 (a + b)))
  | SUB => Some (u32 (u64 (a - b)))
  | MUL => Some (u32 (u64 (a * b)))
  | DIV => if u32 b =? 0 then None else Some (u32 (u32 a / u32 b))
  | OR => Some (u32 (Z.lor a b))
  | AND => Some (u32 (Z.land a b))
  | LSH => if shift_ok 64 b then Some (u32 (u64 (Z.shiftl a b))) else None
  | RSH => if shift_ok 32 b then Some (u32 (Z.shiftr (u32 a) b)) else None
  | MOD => if u32 b =? 0 then None else Some (u32 a mod u32 b)
  | XOR => Some (u32 (Z.lxor a b))
  | MOV => Some (u32 b)
  | ARSH => if shift_ok 32 (u32 b) then Some (u32 (u64 (Z.shiftr (s32 a) (u32 b)))) else None
  end.

Definition alu (wide : bool) := if wide then alu64 else alu32.

(** The second operand: a register, or the immediate converted to 64 bits. *)
Definition operand_value (s : operand) (r : list Z) (i : ebpf_inst) : Z :=
  match s with IMM => u64 (imm i) | REG => rd r (src i) end.

(** [DIV] and [MOD] by a register test it for zero first. *)
Definition divides (op : alu_op) (s : operand) : bool :=
  match op, s with
  | DIV, REG | MOD, REG => true
  | _, _ => false
  end.

(** [htole..] and [htobe..] on a little-endian host. *)
Definition bytes_of (n : nat) (a : Z) : list Z := (fun k => u8 (Z.shiftr a (8 * Z.of_nat k))) <$> seq 0 n.
Definition swap_bytes (n : nat) (a : Z) : Z := be_decode 0 (bytes_of n a).

Definition to_le (n a : Z) : Z :=
  if n =? 16 then u16 a else if n =? 32 then u32 a else if n =? 64 then u64 a else a.
Definition to_be (n a : Z) : Z :=
  if n =? 16 then swap_bytes 2 a else if n =? 32 then swap_bytes 4 a else if n =? 64 then swap_bytes 8 a else a.

(** The second operand of a comparison: unsigned ones take the immediate as
    32 bits without sign. *)
Definition jump_operand (op : jump_op) (s : operand) (r : list Z) (i : ebpf_inst) : Z :=
  match s with
  | REG => rd r (src i)
  | IMM => match op with JGT | JGE | JLT | JLE => u32 (imm i) | _ => u64 (imm i) end
  end.

Definition jump_taken (op : jump_op) (a b : Z) : bool :=
  match op with
  | JEQ => a =? b
  | JGT => b <? a
  | JGE => b <=? a
  | JSET => negb (Z.land a b =? 0)
  | JNE => negb (a =? b)
  | JSGT => s64 b <? s64 a
  | JSGE => s64 b <=? s64 a
  | JLT => a <? b
  | JLE => a <=? b
  | JSLT => s64 a <? s64 b
  | JSLE => s64 a <=? s64 b
  end.

(** [vm->ext_funcs]: a null entry is [None]. *)
Abbreviation ext_func := (memory -> Z -> Z -> Z -> Z -> Z -> Z * memory).

Section Machine.
Variable insts : list ebpf_inst.
Variable ext_funcs : Z -> option ext_func.
(** What a machine does before an access of [size] bytes at [base + offset]:
    [Some (v, m)] ends the program with [v]. *)
Variable fault : nat -> Z -> Z -> list Z -> memory -> option (Z * memory).

Definition set_reg (s : state) (d : nat) (v : Z) : outcome := Next (St (pc s) (<[d := v]> (reg s)) (mem s)).
Definition jump (s : state) (off : Z) : outcome := Next (St (u16 (pc s + off)) (reg s) (mem s)).

(** The body of the switch; [pc s] is already behind the instruction. *)
Definition exec_op (o : operation) (i : ebpf_inst) (s : state) : outcome :=
  let r := reg s in
  match o with
  | OpAlu wide op sr =>
    let b := operand_value sr r i in
    if divides op sr && (b =? 0) then Return UINT64_MAX (mem s)
    else match alu wide op (rd r (dst i)) b with
         | Some v => set_reg s (dst i) v
         | None => Undefined
         end
  | OpNeg wide => set_reg s (dst i) ((if wide then id else u32) (u64 (- rd r (dst i))))
  | OpLe => set_reg s (dst i) (to_le (imm i) (rd r (dst i)))
  | OpBe => set_reg s (dst i) (to_be (imm i) (rd r (dst i)))
  | OpLdx sz =>
    match fault (src i) (offset i) (size_of sz) r (mem s) with
    | Some (v, m) => Return v m
    | None => set_reg s (dst i) (load (mem s) (u64 (rd r (src i) + offset i)) (Z.to_nat (size_of sz)))
    end
  | OpSt sz =>
    match fault (dst i) (offset i) (size_of sz) r (mem s) with
    | Some (v, m) => Return v m
    | None => Next (St (pc s) r (store (mem s) (u64 (rd r (dst i) + offset i)) (Z.to_nat (size_of sz)) (u64 (imm i))))
    end
  | OpStx sz =>
    match fault (dst i) (offset i) (size_of sz) r (mem s) with
    | Some (v, m) => Return v m
    | None => Next (St (pc s) r (store (mem s) (u64 (rd r (dst i) + offset i)) (Z.to_nat (size_of sz)) (rd r (src i))))
    end
  | OpLddw =>
    match insts !! Z.to_nat (pc s) with
    | Some i2 =>
      Next (St (u16 (pc s + 1)) (<[dst i := Z.lor (u32 (imm i)) (u64 (Z.shiftl (u64 (imm i2)) 32))]> r) (mem s))
    | None => Undefined
    end
  | OpJa => jump s (offset i)
  | OpJmp op sr => if jump_taken op (rd r (dst i)) (jump_operand op sr r i) then jump s (offset i) else Next s
  | OpCall =>
    match ext_funcs (imm i) with
    | Some f =>
      let '(v, m) := f (mem s) (rd r 1) (rd r 2) (rd r 3) (rd r 4) (rd r 5) in
      Next (St (pc s) (<[0%nat := v]> r) m)
    | None => Undefined
    end
  | OpExit => Return (rd r 0) (mem s)
  end.

(** One turn of the [while (1)]; an opcode without a case does nothing. *)
Definition step (s : state) : outcome :=
  match insts !! Z.to_nat (pc s) with
  | None => Undefined
  | Some i =>
    let s1 := St (u16 (pc s + 1)) (reg s) (mem s) in
    match decode (opcode i) with
    | Some o => exec_op o i s1
    | None => Next s1
    end
  end.

(** The loop, for at most [fuel] turns; [None] when it is not over. *)
Fixpoint run (fuel : nat) (s : state) : option outcome :=
  match fuel with
  | O => None
  | S fuel' =>
    match step s with
    | Next s' => run fuel' s'
    | r => Some r
    end
  end.
End Machine.

(** The run-time check of the interpreter. *)
Definition bounds_check (addr size mem_ptr mem_len stack : Z) : bool :=
  if negb (mem_ptr =? 0) && ((mem_ptr <=? addr) && (u64 (addr + size) <=? u64 (mem_ptr + mem_len))) then true
  else (stack <=? addr) && (u64 (addr + size) <=? u64 (stack + STACK_SIZE)).

Definition interpreter_fault (mem_ptr mem_len stack : Z) (base : nat) (off size : Z) (r : list Z) (m : memory)
    : option (Z * memory) :=
  if bounds_check (u64 (rd r base + off)) size mem_ptr mem_len stack then None else Some (UINT64_MAX, m).

(** [ubpf_exec_with_arg]: [garbage] are the registers as they are on the
    stack of the interpreter, which does not initialise them. *)
Definition initial_state (garbage : list Z) (arg stack : Z) (m : memory) : state :=
  St 0 (<[10%nat := u64 (stack + STACK_SIZE)]> (<[1%nat := arg]> garbage)) m.

Definition ubpf_exec_with_arg (fuel : nat) (insts : list ebpf_inst) (ext_funcs : Z -> option ext_func)
    (garbage : list Z) (stack arg mem_ptr mem_len : Z) (m : memory) : option outcome :=
  run insts ext_funcs (interpreter_fault mem_ptr mem_len stack) fuel (initial_state garbage arg stack m).

(** ** The validator *)

Inductive validate_error :=
  | TooManyInstructions
  | NoExit
  | InvalidEndian
  | TooManyLoadStore
  | LoadCrushesStack
  | StoreCrushesStack
  | IncompleteLddw
  | InfiniteLoop
  | JumpOutOfBounds
  | JumpToMiddleOfLddw
  | InvalidCall
  | NonexistentFunction
  | DivisionByZero
  | UnknownOpcode
  | InvalidSource
  | InvalidDestination.

Section Validate.
Variable ext_funcs : Z -> option ext_func.
Variable insts : list ebpf_inst.

Definition num_insts : Z := Z.of_nat (length insts).

(** A load or store through [base]: recorded for the rewriting, or, when it is
    relative to the frame pointer, compared with the size of the stack. *)
Definition check_access (base : nat) (off i : Z) (e : validate_error) (pcs : list Z) : validate_error + list Z :=
  if negb (base =? 10)%nat then
    if MAX_LOAD_STORE <=? Z.of_nat (length pcs) then inl TooManyLoadStore else inr (pcs ++ [i])
  else if (0 <? off) || (off <? - STACK_SIZE) then inl e else inr pcs.

Definition check_jump (i off : Z) (pcs : list Z) : validate_error + list Z :=
  if off =? -1 then inl InfiniteLoop
  else
    let new_pc := i + 1 + off in
    if (new_pc <? 0) || (num_insts <=? new_pc) then inl JumpOutOfBounds
    else match insts !! Z.to_nat new_pc with
         | Some t => if opcode t =? 0 then inl JumpToMiddleOfLddw else inr pcs
         | None => inl JumpOutOfBounds
         end.

Definition is_store (o : operation) : bool :=
  match o with OpSt _ | OpStx _ => true | _ => false end.

(** The switch for the instruction at [i]; [rest] are those behind it. *)
Definition check_op (o : operation) (inst : ebpf_inst) (i : Z) (rest : list ebpf_inst) (pcs : list Z)
    : validate_error + list Z :=
  match o with
  | OpLe | OpBe =>
    if negb (imm inst =? 16) && negb (imm inst =? 32) && negb (imm inst =? 64) then inl InvalidEndian else inr pcs
  | OpLdx _ => check_access (src inst) (offset inst) i LoadCrushesStack pcs
  | OpSt _ | OpStx _ => check_access (dst inst) (offset inst) i StoreCrushesStack pcs
  | OpLddw =>
    match rest with
    | i2 :: _ => if opcode i2 =? 0 then inr pcs else inl IncompleteLddw
    | [] => inl IncompleteLddw
    end
  | OpJa | OpJmp _ _ => check_jump i (offset inst) pcs
  | OpCall =>
    if (imm inst <? 0) || (MAX_EXT_FUNCS <=? imm inst) then inl InvalidCall
    else match ext_funcs (imm inst) with Some _ => inr pcs | None => inl NonexistentFunction end
  | OpExit => inr pcs
  | OpAlu _ DIV IMM | OpAlu _ MOD IMM => if imm inst =? 0 then inl DivisionByZero else inr pcs
  | OpAlu _ _ _ | OpNeg _ => inr pcs
  end.

Definition check_registers (o : operation) (inst : ebpf_inst) (pcs : list Z) : validate_error + list Z :=
  if (10 <? src inst)%nat then inl InvalidSource
  else if (9 <? dst inst)%nat && negb (is_store o && (dst inst =? 10)%nat) then inl InvalidDestination
  else inr pcs.

Definition check_inst (inst : ebpf_inst) (i : Z) (rest : list ebpf_inst) (pcs : list Z)
    : validate_error + (operation * list Z) :=
  match decode (opcode inst) with
  | None => inl UnknownOpcode
  | Some o =>
    match check_op o inst i rest pcs with
    | inl e => inl e
    | inr pcs1 => match check_registers o inst pcs1 with inl e => inl e | inr pcs2 => inr (o, pcs2) end
    end
  end.

(** The loop over the instructions; behind a [LDDW] one is skipped. *)
Fixpoint validate_loop (rest : list ebpf_inst) (i : Z) (pcs : list Z) : validate_error + list Z :=
  match rest with
  | [] => inr pcs
  | inst :: rest' =>
    match check_inst inst i rest' pcs with
    | inl e => inl e
    | inr (OpLddw, pcs') =>
      match rest' with
      | _ :: rest'' => validate_loop rest'' (i + 2) pcs'
      | [] => inr pcs'
      end
    | inr (_, pcs') => validate_loop rest' (i + 1) pcs'
    end
  end.

(** [validate]: an error, or the positions of the accesses to rewrite. *)
Definition validate : validate_error + list Z :=
  if MAX_INSTS <=? num_insts then inl TooManyInstructions
  else if negb (existsb (fun i => opcode i =? opcode_of OpExit) insts) then inl NoExit
  else validate_loop insts 0 [].
End Validate.

(** ** Well-typed programs and states *)

Definition inst_ok (i : ebpf_inst) : Prop :=
  is_u8 (opcode i) /\ (dst i < 16)%nat /\ (src i < 16)%nat /\
  - 2 ^ 15 <= offset i < 2 ^ 15 /\ - 2 ^ 31 <= imm i < 2 ^ 31.

#[export] Instance inst_ok_dec i : Decision (inst_ok i).
Proof. unfold inst_ok. apply _. Defined.

(** [starts_from insts i j]: decoding from position [i], an instruction starts at [j]. *)
Inductive starts_from (insts : list ebpf_inst) : nat -> nat -> Prop :=
  | starts_here i : starts_from insts i i
  | starts_after i j inst :
    insts !! i = Some inst -> decode (opcode inst) <> Some OpLddw ->
    starts_from insts (S i) j -> starts_from insts i j
  | starts_after_lddw i j inst :
    insts !! i = Some inst -> decode (opcode inst) = Some OpLddw ->
    starts_from insts (S (S i)) j -> starts_from insts i j.

(** What the validator has established of the instruction at [i]. *)
Definition op_valid (ext_funcs : Z -> option ext_func) (insts : list ebpf_inst)
    (o : operation) (inst : ebpf_inst) (i : nat) : Prop :=
  match o with
  | OpLe | OpBe => imm inst = 16 \/ imm inst = 32 \/ imm inst = 64
  | OpLdx _ => src inst = 10%nat -> - STACK_SIZE <= offset inst <= 0
  | OpSt _ | OpStx _ => dst inst = 10%nat -> - STACK_SIZE <= offset inst <= 0
  | OpLddw => exists i2, insts !! S i = Some i2 /\ opcode i2 = 0
  | OpJa | OpJmp _ _ =>
    exists t i2, Z.of_nat t = Z.of_nat i + 1 + offset inst /\ insts !! t = Some i2 /\ opcode i2 <> 0
  | OpCall => exists f, ext_funcs (imm inst) = Some f
  | OpAlu _ DIV IMM | OpAlu _ MOD IMM => imm inst <> 0
  | _ => True
  end.

Definition regs_valid (o : operation) (inst : ebpf_inst) : Prop :=
  (src inst <= 10)%nat /\ ((dst inst <= 9)%nat \/ is_store o = true /\ dst inst = 10%nat).

(** The accesses that are rewritten: those not relative to the frame pointer. *)
Definition access_base (o : operation) (inst : ebpf_inst) : option nat :=
  match o with
  | OpLdx _ => Some (src inst)
  | OpSt _ | OpStx _ => Some (dst inst)
  | _ => None
  end.

Definition needs_check (inst : ebpf_inst) : bool :=
  match decode (opcode inst) with
  | Some o => match access_base o inst with Some base => negb (base =? 10)%nat | None => false end
  | None => false
  end.

Fixpoint access_positions (l : list ebpf_inst) (i : Z) : list Z :=
  match l with
  | [] => []
  | inst :: l' => (if needs_check inst then [i] else []) ++ access_positions l' (i + 1)
  end.

(** ** Lemmas *)

Lemma decode_opcode_of o : decode (opcode_of o) = Some o.
Proof. destruct o as [[] [] []|[]| | |[]|[]|[]| | |[] []| |]; vm_compute; reflexivity. Qed.

Lemma decode_inv b o : decode b = Some o -> opcode_of o = b.
Proof. intros H. apply find_some in H as [_ H]. by apply Z.eqb_eq in H. Qed.

Lemma decode_zero : decode 0 = None.
Proof. vm_compute. reflexivity. Qed.

Lemma needs_check_zero i : opcode i = 0 -> needs_check i = false.
Proof. intros Hi. unfold needs_check. by rewrite Hi, decode_zero. Qed.

Lemma starts_trans insts i j k : starts_from insts i j -> starts_from insts j k -> starts_from insts i k.
Proof. induction 1; eauto using starts_from. Qed.

#[local] Ltac chk := unfold check_access, check_jump, op_valid in *;
  repeat (case_match || simplify_eq); reflect_cmp; try done.

(** What a passed check of one instruction means. *)
Lemma check_inst_inv ext_funcs insts inst i rest pcs o pcs' :
  insts !! i = Some inst -> rest = drop (S i) insts ->
  check_inst ext_funcs insts inst (Z.of_nat i) rest pcs = inr (o, pcs') ->
  decode (opcode inst) = Some o /\ op_valid ext_funcs insts o inst i /\ regs_valid o inst /\
  pcs' = pcs ++ (if needs_check inst then [Z.of_nat i] else []).
Proof.
  intros Hi -> Hc. unfold check_inst in Hc. unfold needs_check.
  destruct (decode (opcode inst)) as [o'|]; [|done].
  destruct (check_op _ _ o' _ _ _ _) as [|pcs1] eqn:Hop; [done|].
  destruct (check_registers o' inst pcs1) as [|pcs2] eqn:Hr; [done|]. simplify_eq.
  unfold check_registers in Hr.
  destruct (10 <? src inst)%nat eqn:Hs; [done|].
  destruct ((9 <? dst inst)%nat && _) eqn:Hd; [done|]. simplify_eq.
  assert (Hregs : regs_valid o inst).
  { apply Nat.ltb_ge in Hs. apply andb_false_iff in Hd. split; [done|]. destruct Hd as [Hd|Hd].
    - apply Nat.ltb_ge in Hd. by left.
    - apply negb_false_iff, andb_true_iff in Hd as [? Hd]. apply Nat.eqb_eq in Hd. by right. }
  split; [done|]. split; [|split; [exact Hregs|]]; clear Hs Hd Hregs.
  - destruct o as [w op sr|w| | |sz|sz|sz| | |op sr| |]; simpl in *; try done.
    + destruct op, sr; chk.
    + chk; lia.
    + chk; lia.
    + chk; intros He; rewrite He in *; simpl in *; try done; lia.
    + chk; intros He; rewrite He in *; simpl in *; try done; lia.
    + chk; intros He; rewrite He in *; simpl in *; try done; lia.
    + destruct (drop (S i) insts) as [|i2 l] eqn:Hdr; [done|].
      exists i2. split; [|by chk]. rewrite <- (Nat.add_0_r (S i)), <- lookup_drop, Hdr. done.
    + chk.
      eexists _, _. split; [|split; [eassumption|done]]. lia.
    + chk.
      eexists _, _. split; [|split; [eassumption|done]]. lia.
    + chk; eauto.
  - destruct o as [w op sr|w| | |sz|sz|sz| | |op sr| |]; simpl in *;
      try (chk; by rewrite app_nil_r).
Qed.

(** An instruction from which the validator has nothing against. *)
Definition checked (ext_funcs : Z -> option ext_func) (insts : list ebpf_inst) (j : nat) : Prop :=
  exists inst o, insts !! j = Some inst /\ decode (opcode inst) = Some o /\
    op_valid ext_funcs insts o inst j /\ regs_valid o inst.

Lemma drop_cons_lookup {A} (l : list A) i x rest : drop i l = x :: rest -> l !! i = Some x /\ drop (S i) l = rest.
Proof.
  intros H. split.
  - rewrite <- (Nat.add_0_r i), <- lookup_drop, H. done.
  - change (S i) with (1 + i)%nat. rewrite Nat.add_comm, <- drop_drop, H. done.
Qed.

(** The loop of the validator from position [i] on: the instructions that start
    there are checked, every other position is the second half of a [LDDW], and
    the positions returned are those of the accesses to rewrite. *)
Lemma validate_loop_spec ext_funcs insts n i pcs pcs' :
  (length insts - i < n)%nat ->
  validate_loop ext_funcs insts (drop i insts) (Z.of_nat i) pcs = inr pcs' ->
  pcs' = pcs ++ access_positions (drop i insts) (Z.of_nat i) /\
  (forall j, starts_from insts i j -> (j < length insts)%nat -> checked ext_funcs insts j) /\
  (forall j, (i <= j < length insts)%nat ->
     starts_from insts i j \/ exists inst, insts !! j = Some inst /\ opcode inst = 0).
Proof.
  revert i pcs. induction n as [|n IH]; intros i pcs Hn Hv; [lia|].
  destruct (drop i insts) as [|inst rest] eqn:Hd.
  { simpl in Hv. simplify_eq. pose proof (length_drop insts i) as Hl. rewrite Hd in Hl. cbn [length] in Hl.
    split; [by rewrite app_nil_r|]. split; [|intros; lia]. intros j Hj Hjn. exfalso.
    destruct Hj as [|i j inst Hi|i j inst Hi]; [lia| |]; apply lookup_lt_Some in Hi; lia. }
  destruct (drop_cons_lookup _ _ _ _ Hd) as [Hi Hd']. pose proof (lookup_lt_Some _ _ _ Hi) as Hlt.
  simpl in Hv. destruct (check_inst ext_funcs insts inst (Z.of_nat i) rest pcs) as [|[o pcs1]] eqn:Hc; [done|].
  destruct (check_inst_inv _ _ _ _ _ _ _ _ Hi (eq_sym Hd') Hc) as (Hdec & Hop & Hrg & ->).
  assert (Hchk : checked ext_funcs insts i) by (exists inst, o; done).
  destruct (decide (o = OpLddw)) as [->|Hne].
  - destruct Hop as (i2 & Hi2 & H0). destruct rest as [|i2' rest'].
    { exfalso. rewrite <- (Nat.add_0_r (S i)), <- lookup_drop, Hd' in Hi2. done. }
    destruct (drop_cons_lookup _ _ _ _ Hd') as [Hi2' Hd'']. assert (i2' = i2) as -> by congruence.
    replace (Z.of_nat i + 2) with (Z.of_nat (S (S i))) in Hv by lia. rewrite <- Hd'' in Hv.
    destruct (IH (S (S i)) _ ltac:(lia) Hv) as (Hpcs & Hst & Hcov). split_and!.
    + rewrite Hpcs, <- app_assoc. f_equal. cbn [access_positions]. rewrite (needs_check_zero i2 H0), Hd''.
      cbn [app]. do 2 f_equal. lia.
    + intros j Hj Hjn. destruct Hj as [|i j k Hk Hkd Hj|i j k Hk Hkd Hj]; [done| |by apply Hst].
      rewrite Hi in Hk. simplify_eq.
    + intros j Hj. destruct (decide (j = i)) as [->|]; [left; constructor|].
      destruct (decide (j = S i)) as [->|]; [right; eauto|].
      destruct (Hcov j ltac:(lia)) as [|]; [left; eapply starts_after_lddw; eauto|by right].
  - assert (Hv' : validate_loop ext_funcs insts rest (Z.of_nat i + 1)
                    (pcs ++ if needs_check inst then [Z.of_nat i] else []) = inr pcs') by (destruct o; done).
    replace (Z.of_nat i + 1) with (Z.of_nat (S i)) in Hv' by lia. rewrite <- Hd' in Hv'.
    destruct (IH (S i) _ ltac:(lia) Hv') as (Hpcs & Hst & Hcov). split_and!.
    + rewrite Hpcs, <- app_assoc. f_equal. cbn [access_positions]. rewrite Hd'.
      do 2 f_equal. lia.
    + intros j Hj Hjn. destruct Hj as [|i j k Hk Hkd Hj|i j k Hk Hkd Hj]; [done|by apply Hst|].
      rewrite Hi in Hk. simplify_eq.
    + intros j Hj. destruct (decide (j = i)) as [->|]; [left; constructor|].
      destruct (Hcov j ltac:(lia)) as [|]; [left|by right].
      eapply starts_after; [done| |done]. congruence.
Qed.

Lemma validate_spec ext_funcs insts pcs :
  validate ext_funcs insts = inr pcs ->
  Z.of_nat (length insts) < MAX_INSTS /\ pcs = access_positions insts 0 /\
  (forall j, starts_from insts 0 j -> (j < length insts)%nat -> checked ext_funcs insts j) /\
  (forall j inst, insts !! j = Some inst -> opcode inst <> 0 -> starts_from insts 0 j) /\
  exists k i, insts !! k = Some i /\ opcode i = opcode_of OpExit.
Proof.
  unfold validate, num_insts. destruct (Z.leb_spec MAX_INSTS (Z.of_nat (length insts))); [done|].
  destruct (existsb _ _) eqn:He; [|done]. cbn [negb]. intros Hv.
  destruct (validate_loop_spec ext_funcs insts (S (length insts)) 0 [] pcs ltac:(lia) Hv) as (-> & Hst & Hcov).
  split_and!; [done|done|done| |].
  - intros j inst Hj Hop. pose proof (lookup_lt_Some _ _ _ Hj).
    destruct (Hcov j ltac:(lia)) as [|(i' & Hi' & ?)]; [done|]. congruence.
  - apply existsb_exists in He as (i & Hin & Hop). apply Z.eqb_eq in Hop.
    apply list_elem_of_In, list_elem_of_lookup in Hin as [k Hk]. eauto.
Qed.

(** ** Type safety *)

Section Safety.
Context (ext_funcs : Z -> option ext_func) (insts : list ebpf_inst).
Variable fault : nat -> Z -> Z -> list Z -> memory -> option (Z * memory).

(** External functions return 64-bit values. *)
Definition ext_ok : Prop :=
  forall k f m a b c d e, ext_funcs k = Some f -> is_u64 (f m a b c d e).1.

(** The last instruction does not let execution run past the end. *)
Definition ends_ok : Prop :=
  exists i, list.last insts = Some i /\
    (decode (opcode i) = Some OpExit \/ decode (opcode i) = Some OpJa).

Definition state_ok (s : state) : Prop :=
  0 <= pc s < Z.of_nat (length insts) /\ starts_from insts 0 (Z.to_nat (pc s)) /\
  length (reg s) = 16%nat /\ Forall is_u64 (reg s).

(** The arithmetic that C leaves undefined and the validator lets pass: a shift
    by the width or more, a 32-bit division by a register whose low half is 0. *)
Definition arith_undefined (s : state) : Prop :=
  exists inst wide op sr, insts !! Z.to_nat (pc s) = Some inst /\
    decode (opcode inst) = Some (OpAlu wide op sr) /\
    let b := operand_value sr (reg s) inst in
    match op with
    | LSH => 64 <= b
    | RSH => (if wide then 64 else 32) <= b
    | ARSH => if wide then 64 <= b else 32 <= u32 b
    | DIV | MOD => wide = false /\ sr = REG /\ b <> 0 /\ u32 b = 0
    | _ => False
    end.

Lemma rd_u64 r i : Forall is_u64 r -> is_u64 (rd r i).
Proof.
  intros Hr. unfold rd. destruct (Nat.lt_ge_cases i (length r)); [by apply Forall_nth_lt|].
  rewrite nth_overflow by done. unfold is_u64. lia.
Qed.

Lemma u32_u64 x : is_u64 (u32 x).
Proof. pose proof (u32_range x) as [? ?]. unfold is_u64. lia. Qed.

Lemma lor_u64 a b : is_u64 a -> is_u64 b -> is_u64 (Z.lor a b).
Proof.
  unfold is_u64. intros Ha Hb. rewrite <- (Z.mod_small a (2 ^ 64)), <- (Z.mod_small b (2 ^ 64)) by lia.
  rewrite <- !Z.land_ones, <- Z.land_lor_distr_l, Z.land_ones by lia. apply Z.mod_pos_bound. lia.
Qed.

Lemma land_u64 a b : is_u64 a -> is_u64 b -> is_u64 (Z.land a b).
Proof.
  unfold is_u64. intros Ha Hb. rewrite <- (Z.mod_small a (2 ^ 64)) by lia.
  rewrite <- Z.land_ones, <- Z.land_assoc, (Z.land_comm _ b), Z.land_assoc, Z.land_ones by lia.
  apply Z.mod_pos_bound. lia.
Qed.

Lemma operand_u64 sr r i : Forall is_u64 r -> is_u64 (operand_value sr r i).
Proof. intros. destruct sr; simpl; auto using rd_u64 with cint. Qed.

Lemma alu64_u64 op a b v : is_u64 a -> is_u64 b -> alu64 op a b = Some v -> is_u64 v.
Proof.
  intros Ha Hb Hv. destruct op; simpl in Hv; repeat case_match; simplify_eq; auto with cint; reflect_cmp.
  - unfold is_u64 in *. split; [apply Z.div_pos; lia|]. apply Z.div_lt_upper_bound; nia.
  - by apply lor_u64.
  - by apply land_u64.
  - unfold is_u64 in *. rewrite Z.shiftr_div_pow2 by lia.
    assert (0 < 2 ^ b) by (apply Z.pow_pos_nonneg; lia).
    split; [apply Z.div_pos; lia|]. apply Z.div_lt_upper_bound; nia.
  - unfold is_u64 in *. pose proof (Z.mod_pos_bound a b). lia.
  - unfold is_u64 in *. apply lxor_lt_pow2; lia.
Qed.

Lemma alu32_u64 op a b v : alu32 op a b = Some v -> is_u64 v.
Proof.
  intros Hv. destruct op; simpl in Hv; repeat case_match; simplify_eq; auto using u32_u64; reflect_cmp.
  pose proof (u32_range b) as [? ?]. pose proof (Z.mod_pos_bound (u32 a) (u32 b)). unfold is_u64. lia.
Qed.

Lemma alu_u64 wide op a b v : is_u64 a -> is_u64 b -> alu wide op a b = Some v -> is_u64 v.
Proof. destruct wide; [apply alu64_u64|intros _ _; apply alu32_u64]. Qed.

Lemma load_u64 m addr n : (n <= 8)%nat -> is_u64 (load m addr n).
Proof.
  intros Hn. assert (0 <= load m addr n < 2 ^ (8 * Z.of_nat n)) as [? Hlt].
  { clear Hn. revert addr. induction n as [|n IH]; intros addr; cbn [load]; [done|].
    specialize (IH (u64 (addr + 1))). pose proof (u8_range (m addr)) as Hm. unfold is_u8 in Hm.
    replace (8 * Z.of_nat (S n)) with (8 + 8 * Z.of_nat n) by lia. rewrite Z.pow_add_r by lia. nia. }
  split; [done|]. eapply Z.lt_le_trans; [apply Hlt|]. apply Z.pow_le_mono_r; lia.
Qed.

Lemma be_decode_u64 bs : (length bs <= 8)%nat -> Forall is_u8 bs -> is_u64 (be_decode 0 bs).
Proof.
  intros Hl Hb. pose proof (be_decode_bound bs Hb) as [? Hlt]. split; [done|].
  eapply Z.lt_le_trans; [apply Hlt|]. apply Z.pow_le_mono_r; lia.
Qed.

Lemma swap_bytes_u64 n a : (n <= 8)%nat -> is_u64 (swap_bytes n a).
Proof.
  intros Hn. apply be_decode_u64; [unfold bytes_of; by rewrite length_fmap, length_seq|].
  apply list.Forall_forall. intros x Hx. apply list_elem_of_fmap in Hx as (k & -> & _). auto with cint.
Qed.

Lemma to_le_u64 n a : is_u64 a -> is_u64 (to_le n a).
Proof.
  intros. unfold to_le. repeat case_match; auto using u32_u64 with cint.
  pose proof (u16_range a). unfold is_u64. lia.
Qed.

Lemma to_be_u64 n a : is_u64 a -> is_u64 (to_be n a).
Proof. intros. unfold to_be. repeat case_match; auto; apply swap_bytes_u64; lia. Qed.

(** What [arith_undefined] says of the operation that has no result. *)
Lemma alu_none wide op sr r i :
  is_u64 (operand_value sr r i) ->
  divides op sr && (operand_value sr r i =? 0) = false ->
  (forall op', op = op' -> op' = DIV \/ op' = MOD -> sr = IMM -> imm i <> 0) ->
  (- 2 ^ 31 <= imm i < 2 ^ 31) ->
  alu wide op (rd r (dst i)) (operand_value sr r i) = None ->
  match op with
  | LSH => 64 <= operand_value sr r i
  | RSH => (if wide then 64 else 32) <= operand_value sr r i
  | ARSH => if wide then 64 <= operand_value sr r i else 32 <= u32 (operand_value sr r i)
  | DIV | MOD => wide = false /\ sr = REG /\ operand_value sr r i <> 0 /\ u32 (operand_value sr r i) = 0
  | _ => False
  end.
Proof.
  intros Hb Hd Himm Hi Hn. unfold shift_ok in *.
  assert (Hz : sr = IMM -> op = DIV \/ op = MOD -> operand_value sr r i <> 0 /\ u32 (operand_value sr r i) <> 0).
  { intros -> Hop. specialize (Himm op eq_refl Hop eq_refl). simpl.
    assert (u32 (u64 (imm i)) <> 0).
    { unfold u32, u64. rewrite Z.mod_mod_divide by (by exists (2 ^ 32)).
      intros H0. apply Z.mod_divide in H0 as [k Hk]; lia. }
    split; [|done]. intros E. rewrite E in *. done. }
  destruct wide, op; simpl in Hn; unfold shift_ok in Hn; repeat case_match; simplify_eq; reflect_cmp; try done; try lia;
    (destruct sr; [destruct Hz; [done|first [by left | by right]|congruence]|]); try done; split_and!; try done;
    intros E; simpl in *; rewrite E in *; done.
Qed.

Hypothesis Hexts : ext_ok.
Hypothesis Hinsts : Forall inst_ok insts.
Variable pcs : list Z.
Hypothesis Hvalid : validate ext_funcs insts = inr pcs.
Hypothesis Hends : ends_ok.

(** The state behind an instruction that goes on: the next one starts there. *)
Lemma next_start i inst o :
  starts_from insts 0 i -> insts !! i = Some inst -> decode (opcode inst) = Some o ->
  o <> OpExit -> o <> OpJa ->
  let n := if decide (o = OpLddw) then S (S i) else S i in
  starts_from insts 0 n /\ (n < length insts)%nat.
Proof.
  intros Hst Hi Hdec Hx Hj n. pose proof (lookup_lt_Some _ _ _ Hi) as Hlt.
  destruct (validate_spec _ _ _ Hvalid) as (_ & _ & Hchk & _).
  destruct Hends as (il & Hlast & Hil). rewrite last_lookup in Hlast.
  split.
  - eapply starts_trans; [done|]. unfold n. case_decide as Hd.
    + eapply starts_after_lddw; [done|congruence|constructor].
    + eapply starts_after; [done|congruence|constructor].
  - unfold n. case_decide as Hd.
    + subst o. destruct (Hchk i Hst Hlt) as (inst' & o' & Hi' & Hdec' & Hop & _). simplify_eq.
      destruct Hop as (i2 & Hi2 & H0). pose proof (lookup_lt_Some _ _ _ Hi2).
      destruct (decide (S (S i) = length insts)) as [E|]; [|lia]. exfalso.
      rewrite <- E in Hlast. simpl in Hlast. simplify_eq. rewrite H0, decode_zero in Hil. naive_solver.
    + destruct (decide (S i = length insts)) as [E|]; [|lia]. exfalso.
      rewrite <- E in Hlast. simpl in Hlast. simplify_eq. naive_solver.
Qed.

Lemma jump_start i inst o t :
  starts_from insts 0 i -> insts !! i = Some inst -> decode (opcode inst) = Some o ->
  o = OpJa \/ (exists op sr, o = OpJmp op sr) ->
  t = Z.of_nat i + 1 + offset inst ->
  0 <= t < Z.of_nat (length insts) /\ starts_from insts 0 (Z.to_nat t).
Proof.
  intros Hst Hi Hdec Ho ->. pose proof (lookup_lt_Some _ _ _ Hi) as Hlt.
  destruct (validate_spec _ _ _ Hvalid) as (_ & _ & Hchk & Hst' & _).
  destruct (Hchk i Hst Hlt) as (inst' & o' & Hi' & Hdec' & Hop & _). simplify_eq.
  assert (exists t i2, Z.of_nat t = Z.of_nat i + 1 + offset inst /\ insts !! t = Some i2 /\ opcode i2 <> 0)
    as (t & i2 & Ht & Hi2 & H0) by (destruct Ho as [->|(? & ? & ->)]; exact Hop).
  pose proof (lookup_lt_Some _ _ _ Hi2). rewrite <- Ht. split; [lia|].
  rewrite Nat2Z.id. eauto.
Qed.

Lemma set_regs_ok r d v : length r = 16%nat -> Forall is_u64 r -> is_u64 v ->
  length (<[d:=v]> r) = 16%nat /\ Forall is_u64 (<[d:=v]> r).
Proof. intros. split; [by rewrite length_insert|]. by apply Forall_insert. Qed.

(** One step: it stays among the instructions, on a boundary, with 64-bit
    registers; or it returns; or it does arithmetic that C leaves undefined. *)
Lemma step_safe s :
  state_ok s ->
  match step insts ext_funcs fault s with
  | Next s' => state_ok s'
  | Return _ _ => True
  | Undefined => arith_undefined s
  end.
Proof.
  intros (Hpc & Hst & Hlen & Hr). destruct s as [p r m]. cbn [pc reg mem] in *.
  destruct (validate_spec _ _ _ Hvalid) as (Hmax & _ & Hchk & _). unfold MAX_INSTS in Hmax.
  destruct (Hchk (Z.to_nat p) Hst ltac:(lia)) as (inst & o & Hi & Hdec & Hop & Hrg).
  assert (Hio : inst_ok inst) by (eapply Forall_lookup_1; eauto). destruct Hio as (_ & _ & _ & Hoff & Himm).
  unfold step. cbn [pc reg mem]. rewrite Hi, Hdec.
  pose proof (next_start _ _ _ Hst Hi Hdec) as Hnext. cbn zeta in Hnext.
  pose proof (fun t => jump_start _ _ _ t Hst Hi Hdec) as Hjump.
  assert (Hp1 : o <> OpExit -> o <> OpJa -> o <> OpLddw ->
            forall r' m', length r' = 16%nat -> Forall is_u64 r' -> state_ok (St (u16 (p + 1)) r' m')).
  { intros H1 H2 H3 r' m' ? ?. specialize (Hnext H1 H2). rewrite decide_False in Hnext by done.
    destruct Hnext as [Hs Hl]. unfold state_ok. cbn [pc reg]. rewrite u16_small by lia.
    replace (Z.to_nat (p + 1)) with (S (Z.to_nat p)) by lia. split_and!; [lia|lia|done|done|done]. }
  assert (Hpj : o = OpJa \/ (exists op sr, o = OpJmp op sr) ->
            forall m', state_ok (St (u16 (u16 (p + 1) + offset inst)) r m')).
  { intros Ho m'. destruct (Hjump _ Ho eq_refl) as [Ht Hts]. unfold state_ok. cbn [pc reg].
    assert (u16 (u16 (p + 1) + offset inst) = Z.of_nat (Z.to_nat p) + 1 + offset inst) as ->; [|done].
    rewrite (u16_small (p + 1)) by lia. rewrite u16_small; lia. }
  destruct o as [w op sr|w| | |sz|sz|sz| | |op sr| |]; simpl; unfold set_reg, jump; cbn [pc reg mem].
  - destruct (divides op sr && _) eqn:Hdz; [done|].
    destruct (alu w op _ _) as [v|] eqn:Hv.
    + destruct (set_regs_ok r (dst inst) v) as [? ?]; auto.
      eapply alu_u64; [|apply operand_u64; done|apply Hv]. by apply rd_u64.
    + exists inst, w, op, sr. split_and!; [done|done|]. cbn [pc reg].
      eapply alu_none; [by apply operand_u64|done| |done|done].
      intros op' -> [->| ->] ->; destruct w; exact Hop.
  - destruct (set_regs_ok r (dst inst) ((if w then id else u32) (u64 (- rd r (dst inst))))) as [? ?]; auto.
    destruct w; auto using u32_u64 with cint. apply u64_range.
  - destruct (set_regs_ok r (dst inst) (to_le (imm inst) (rd r (dst inst)))) as [? ?]; auto using to_le_u64, rd_u64.
  - destruct (set_regs_ok r (dst inst) (to_be (imm inst) (rd r (dst inst)))) as [? ?]; auto using to_be_u64, rd_u64.
  - destruct (fault _ _ _ _ _) as [[? ?]|]; [done|].
    destruct (set_regs_ok r (dst inst) (load m (u64 (rd r (src inst) + offset inst)) (Z.to_nat (size_of sz))))
      as [? ?]; auto. apply load_u64. destruct sz; simpl; lia.
  - destruct (fault _ _ _ _ _) as [[? ?]|]; auto.
  - destruct (fault _ _ _ _ _) as [[? ?]|]; auto.
  - destruct Hop as (i2 & Hi2 & _). specialize (Hnext ltac:(done) ltac:(done)). rewrite decide_True in Hnext by done.
    destruct Hnext as [Hs Hl]. rewrite (u16_small (p + 1)) by lia.
    replace (Z.to_nat (p + 1)) with (S (Z.to_nat p)) by lia. rewrite Hi2.
    unfold state_ok. cbn [pc reg]. rewrite u16_small by lia.
    replace (Z.to_nat (p + 1 + 1)) with (S (S (Z.to_nat p))) by lia.
    destruct (set_regs_ok r (dst inst) (Z.lor (u32 (imm inst)) (u64 (Z.shiftl (u64 (imm i2)) 32)))) as [? ?];
      auto using lor_u64, u32_u64, u64_range. split_and!; [lia|lia|done|done|done].
  - apply Hpj. auto.
  - destruct (jump_taken _ _ _); [apply Hpj; eauto|by apply Hp1].
  - destruct Hop as [f Hf]. rewrite Hf. specialize (Hexts _ f m (rd r 1) (rd r 2) (rd r 3) (rd r 4) (rd r 5) Hf).
    destruct (f _ _ _ _ _ _) as [v m']. destruct (set_regs_ok r 0 v) as [? ?]; auto.
  - done.
Qed.
End Safety.

(** ** Properties *)

(** The states that execution reaches. *)
Inductive reachable (insts : list ebpf_inst) (ext_funcs : Z -> option ext_func)
    (fault : nat -> Z -> Z -> list Z -> memory -> option (Z * memory)) (s0 : state) : state -> Prop :=
  | reach_refl : reachable insts ext_funcs fault s0 s0
  | reach_step s s' :
    reachable insts ext_funcs fault s0 s -> step insts ext_funcs fault s = Next s' ->
    reachable insts ext_funcs fault s0 s'.

Lemma initial_state_ok ext_funcs insts pcs garbage arg stack m :
  validate ext_funcs insts = inr pcs -> length garbage = 16%nat -> Forall is_u64 garbage -> is_u64 arg ->
  state_ok insts (initial_state garbage arg stack m).
Proof.
  intros Hv Hl Hg Ha. destruct (validate_spec _ _ _ Hv) as (_ & _ & _ & _ & k & i & Hk & _).
  apply lookup_lt_Some in Hk. unfold state_ok, initial_state. cbn [pc reg]. split_and!; [lia|lia|constructor| |].
  - by rewrite !length_insert.
  - auto using Forall_insert, u64_range.
Qed.

(** C24. A program that the validator accepts and that ends in an exit or an unconditional jump
    is safe to interpret, whatever its memory accesses do: in every state it reaches the
    program counter is inside the program and at the start of an instruction (never in the
    second half of a LDDW), the registers hold 64-bit values, and the interpreter can go on or
    return, except for the arithmetic that C leaves undefined and the validator lets pass (a
    shift by the width or more, a 32-bit division by a register whose low half is zero). *)
Theorem validated_program_safe ext_funcs insts fault pcs garbage arg stack m s :
  ext_ok ext_funcs -> Forall inst_ok insts -> validate ext_funcs insts = inr pcs -> ends_ok insts ->
  length garbage = 16%nat -> Forall is_u64 garbage -> is_u64 arg ->
  reachable insts ext_funcs fault (initial_state garbage arg stack m) s ->
  state_ok insts s /\ (step insts ext_funcs fault s = Undefined -> arith_undefined insts s).
Proof.
  intros Hx Hi Hv He Hl Hg Ha Hs.
  assert (Hok : state_ok insts s).
  { induction Hs as [|s s' Hs IH Hstep]; [by eapply initial_state_ok|].
    pose proof (step_safe ext_funcs insts fault Hx Hi pcs Hv He s IH) as H. by rewrite Hstep in H. }
  split; [done|]. intros Hu. pose proof (step_safe ext_funcs insts fault Hx Hi pcs Hv He s Hok) as H.
  by rewrite Hu in H.
Qed.

(** A program with a call, a load, a loop and an exit, and the external function it calls. *)
Definition example_exts (k : Z) : option ext_func :=
  if k =? 3 then Some (fun m a _ _ _ _ => (u64 (a + 1), m)) else None.

Definition example_program : list ebpf_inst :=
  [ Inst (opcode_of OpLddw) 2 0 0 5; Inst 0 0 0 0 1;
    Inst (opcode_of (OpLdx W)) 3 1 4 0;
    Inst (opcode_of OpCall) 0 0 0 3;
    Inst (opcode_of (OpJmp JGT REG)) 0 2 1 0;
    Inst (opcode_of OpJa) 0 0 (-3) 0;
    Inst (opcode_of OpExit) 0 0 0 0 ].

Lemma example_exts_ok : ext_ok example_exts.
Proof. intros k f m a b c d e. unfold example_exts. case_match; [|done]. intros [= <-]. apply u64_range. Qed.

Lemma validated_program_safe_witness :
  validate example_exts example_program = inr [2] /\
  (let s := St 3 (<[3%nat := 0]> (<[2%nat := 2 ^ 32 + 5]>
              (<[10%nat := 5000 + 2048]> (<[1%nat := 1000]> (replicate 16 7))))) (fun _ => 0) in
   state_ok example_program s /\
   (step example_program example_exts (interpreter_fault 1000 64 5000) s = Undefined ->
    arith_undefined example_program s)).
Proof.
  split; [vm_compute; reflexivity|].
  apply (validated_program_safe example_exts example_program (interpreter_fault 1000 64 5000) [2]
           (replicate 16 7) 1000 5000 (fun _ => 0)).
  - exact example_exts_ok.
  - apply (bool_decide_unpack _). vm_compute. exact I.
  - vm_compute. reflexivity.
  - eexists. split; [vm_compute; reflexivity|left; vm_compute; reflexivity].
  - reflexivity.
  - apply (bool_decide_unpack _). vm_compute. exact I.
  - vm_compute. intuition discriminate.
  - eapply reach_step; [eapply reach_step; [apply reach_refl|]|]; reflexivity.
Defined.

(** A program whose last instruction lets execution run past the end, and one that divides by 2^32. *)
Definition overrun_program : list ebpf_inst :=
  [ Inst (opcode_of (OpJmp JEQ IMM)) 1 0 1 0;
    Inst (opcode_of OpExit) 0 0 0 0;
    Inst (opcode_of (OpAlu true MOV IMM)) 0 0 0 0 ].
Definition div32_program : list ebpf_inst :=
  [ Inst (opcode_of OpLddw) 2 0 0 0; Inst 0 0 0 0 1;
    Inst (opcode_of (OpAlu false DIV REG)) 0 2 0 0;
    Inst (opcode_of OpExit) 0 0 0 0 ].

(** What validation does not exclude: a valid program with an exit somewhere runs past its
    last instruction, where the interpreter reads whatever follows the program; and a 32-bit
    division tests the whole register for zero before it divides by its low half, so that a
    division by 2^32 is a division by zero. *)
Theorem validator_gaps (m : memory) :
  let s0 := initial_state (replicate 16 0) 0 5000 m in
  (exists pcs, validate example_exts overrun_program = inr pcs) /\
  (exists s, reachable overrun_program example_exts (interpreter_fault 0 0 5000) s0 s /\
             pc s = Z.of_nat (length overrun_program) /\
             step overrun_program example_exts (interpreter_fault 0 0 5000) s = Undefined) /\
  (exists pcs, validate example_exts div32_program = inr pcs) /\
  (exists s, reachable div32_program example_exts (interpreter_fault 0 0 5000) s0 s /\
             rd (reg s) 2 <> 0 /\
             step div32_program example_exts (interpreter_fault 0 0 5000) s = Undefined).
Proof.
  set (r0 := <[10%nat := 5000 + 2048]> (replicate 16 0)).
  split_and!; [eexists; vm_compute; reflexivity| |eexists; vm_compute; reflexivity|].
  - exists (St 3 (<[0%nat := 0]> r0) m). split_and!; [|reflexivity|vm_compute; reflexivity].
    apply (reach_step _ _ _ _ (St 2 r0 m)); [apply (reach_step _ _ _ _ (St 0 r0 m)); [apply reach_refl|]|];
      vm_compute; reflexivity.
  - exists (St 2 (<[2%nat := 2 ^ 32]> r0) m). split_and!; [|vm_compute; discriminate|vm_compute; reflexivity].
    apply (reach_step _ _ _ _ (St 0 r0 m)); [apply reach_refl|]. vm_compute. reflexivity.
Qed.

End Ubpf.
