(* ===== verification/UbpfRewrite.v ===== *)
(** * Memory checks added to plugins: [rewrite_with_memchecks] of ubpf/vm/ubpf_vm.c

    When a plugin is loaded, every load and store that is not relative to the
    frame pointer gets twenty instructions in front of it, which let the access
    through when its address is in the memory of the plugin or in its stack and
    report an error otherwise; jumps are stretched over the added instructions.
    The compiled program does no other check.

    The theorem of this file is a simulation: running the rewritten program
    without checks is the same as running the original one on a machine that
    checks every access ([memcheck_fault]). *)
From stdpp Require Import base tactics list numbers relations.
From Stdlib Require Import ZArith Lia Bool.
From S2P Require Import Prelude Ubpf.
#[local] Open Scope Z_scope.

Module UbpfRewrite.
Import Ubpf.

Definition ADDED_LOAD_STORE_INSTS : Z := 20.

(** The loops over [rewrite_pcs] for a jump: [delta] for each position in
    [[lo, hi)], in an [int16_t]. *)
Fixpoint stretch (pcs : list Z) (lo hi delta new_offset : Z) : Z :=
  match pcs with
  | [] => new_offset
  | p :: pcs' =>
    if p <? hi then stretch pcs' lo hi delta (if lo <=? p then s16 (new_offset + delta) else new_offset)
    else new_offset
  end.

Definition new_offset (pcs : list Z) (i off : Z) : Z :=
  if 0 <? off then stretch pcs (i + 1) (i + 1 + off) ADDED_LOAD_STORE_INSTS off
  else if off <? 0 then stretch pcs (i + 1 + off) (i + 1) (- ADDED_LOAD_STORE_INSTS) off
  else off.

Section Rewrite.
Variables memory_ptr memory_size : Z.

Definition memory_ptr_top : Z := u64 (memory_ptr + memory_size).

(** The instructions in front of an access at [base + off]. *)
Definition memcheck (base : nat) (off : Z) : list ebpf_inst :=
  [ (* the accessed pointer is below the top of the memory *)
    Inst (opcode_of OpLddw) 11 0 0 (s32 (Z.land memory_ptr_top (2 ^ 32 - 1)));
    Inst 0 0 0 0 (s32 (Z.shiftr memory_ptr_top 32));
    Inst (opcode_of (OpAlu true SUB REG)) 11 base 0 0;
    Inst (opcode_of (OpAlu true SUB IMM)) 11 0 0 off;
    Inst (opcode_of (OpJmp JSGE IMM)) 11 0 1 0;
    Inst (opcode_of OpJa) 0 0 1 0;
    (* and not below its start *)
    Inst (opcode_of (OpJmp JLE IMM)) 11 0 13 (s32 memory_size);
    (* or it is at or below the frame pointer *)
    Inst (opcode_of (OpAlu true MOV REG)) 11 base 0 0;
    Inst (opcode_of (OpAlu true ADD IMM)) 11 0 0 off;
    Inst (opcode_of (OpJmp JLE REG)) 11 10 1 0;
    Inst (opcode_of OpJa) 0 0 2 0;
    (* and at most the size of the stack below it *)
    Inst (opcode_of (OpAlu true ADD IMM)) 11 0 0 STACK_SIZE;
    Inst (opcode_of (OpJmp JGE REG)) 11 10 7 0;
    (* report the error and exit *)
    Inst (opcode_of (OpAlu true MOV REG)) 1 base 0 0;
    Inst (opcode_of (OpAlu true ADD IMM)) 1 0 0 off;
    Inst (opcode_of OpLddw) 2 0 0 (s32 (Z.land memory_ptr (2 ^ 32 - 1)));
    Inst 0 0 0 0 (s32 (Z.shiftr memory_ptr 32));
    Inst (opcode_of (OpAlu true MOV REG)) 3 10 0 0;
    Inst (opcode_of OpCall) 0 0 0 OOB_CALL;
    Inst (opcode_of OpExit) 0 0 0 0 ].

(** The switch of [rewrite_with_memchecks] for the instruction at [i]. *)
Definition rewrite_inst (pcs : list Z) (i : Z) (inst : ebpf_inst) : list ebpf_inst :=
  match decode (opcode inst) with
  | Some (OpLdx _) => (if negb (src inst =? 10)%nat then memcheck (src inst) (offset inst) else []) ++ [inst]
  | Some (OpSt _) | Some (OpStx _) =>
    (if negb (dst inst =? 10)%nat then memcheck (dst inst) (offset inst) else []) ++ [inst]
  | Some OpJa | Some (OpJmp _ _) =>
    [Inst (opcode inst) (dst inst) (src inst) (new_offset pcs i (offset inst)) (imm inst)]
  | _ => [inst]
  end.

Fixpoint rewrite_loop (pcs : list Z) (i : Z) (l : list ebpf_inst) : list ebpf_inst :=
  match l with
  | [] => []
  | inst :: l' => rewrite_inst pcs i inst ++ rewrite_loop pcs (i + 1) l'
  end.

Definition rewrite_with_memchecks (insts : list ebpf_inst) (pcs : list Z) : list ebpf_inst :=
  rewrite_loop pcs 0 insts.
End Rewrite.

(** [struct ubpf_vm], what loading changes of it. *)
Record ubpf_vm := Vm { vm_insts : option (list ebpf_inst); vm_num_insts : Z }.

Inductive load_error :=
  | AlreadyLoaded
  | BadLength
  | Invalid (e : validate_error)
  | OutOfMemory.

(** [ubpf_load]; [code] are the instructions of the [code_len] bytes. *)
Definition ubpf_load (ext_funcs : Z -> option ext_func) (malloc_ok : bool) (vm : ubpf_vm) (code : list ebpf_inst)
    (code_len memory_ptr memory_size : Z) : load_error + ubpf_vm :=
  match vm_insts vm with
  | Some _ => inl AlreadyLoaded
  | None =>
    if negb (code_len mod 8 =? 0) then inl BadLength
    else
      match validate ext_funcs code with
      | inl e => inl (Invalid e)
      | inr pcs =>
        if negb malloc_ok then inl OutOfMemory
        else if negb (memory_ptr =? 0) && negb (memory_size =? 0) then
          inr (Vm (Some (rewrite_with_memchecks memory_ptr memory_size code pcs))
                  (u16 (code_len / 8 + ADDED_LOAD_STORE_INSTS * Z.of_nat (length pcs))))
        else inr (Vm (Some code) (u16 (code_len / 8)))
      end
  end.

(** ** The machine that the rewritten program implements *)

(** The test of the added instructions, on the address [base + off]. *)
Definition memcheck_ok (memory_ptr memory_size : Z) (r : list Z) (base : nat) (off : Z) : bool :=
  let addr := u64 (rd r base + off) in
  let below := u64 (memory_ptr_top memory_ptr memory_size - addr) in
  ((0 <=? s64 below) && (below <=? memory_size)) ||
  ((addr <=? rd r 10) && (rd r 10 <=? u64 (addr + STACK_SIZE))).

(** Every access through another register than the frame pointer is tested; one
    that fails is reported to the function [oob] and ends the program. *)
Definition memcheck_fault (oob : ext_func) (memory_ptr memory_size : Z) (base : nat) (off size : Z)
    (r : list Z) (m : memory) : option (Z * memory) :=
  if (base =? 10)%nat then None
  else if memcheck_ok memory_ptr memory_size r base off then None
  else Some (oob m (u64 (rd r base + off)) memory_ptr (rd r 10) (rd r 4) (rd r 5)).

(** Machine code does no check of its own. *)
Definition no_fault (base : nat) (off size : Z) (r : list Z) (m : memory) : option (Z * memory) := None.

(** ** Runs *)

Section Runs.
Context (insts : list ebpf_inst) (ext_funcs : Z -> option ext_func)
        (fault : nat -> Z -> Z -> list Z -> memory -> option (Z * memory)).

Definition steps (a b : state) : Prop := step insts ext_funcs fault a = Next b.

Lemma run_nsteps n s s' f :
  nsteps steps n s s' -> run insts ext_funcs fault (n + f) s = run insts ext_funcs fault f s'.
Proof. induction 1 as [|n s s1 s' Hs _ IH]; [done|]. simpl. unfold steps in Hs. by rewrite Hs. Qed.

Lemma run_more f f' s o : run insts ext_funcs fault f s = Some o -> (f <= f')%nat ->
  run insts ext_funcs fault f' s = Some o.
Proof.
  revert f' s. induction f as [|f IH]; intros f' s; [done|]. destruct f' as [|f']; [lia|].
  simpl. destruct (step _ _ _ s) as [s'|v m|]; [|done|done]. intros H Hf. apply IH; [done|lia].
Qed.

Lemma run_functional f f' s o o' :
  run insts ext_funcs fault f s = Some o -> run insts ext_funcs fault f' s = Some o' -> o = o'.
Proof.
  intros H H'. apply (run_more _ (f + f')) in H; [|lia]. apply (run_more _ (f + f')) in H'; [|lia]. congruence.
Qed.
End Runs.

(** ** Positions *)

(** The number of accesses to rewrite before position [k]. *)
Definition accesses_before (insts : list ebpf_inst) (k : nat) : nat := length (access_positions (take k insts) 0).

(** Where the instruction at [k] goes: its check, when it has one. *)
Definition pos (insts : list ebpf_inst) (k : nat) : nat := (k + 20 * accesses_before insts k)%nat.

Lemma access_positions_app l1 l2 i :
  access_positions (l1 ++ l2) i = access_positions l1 i ++ access_positions l2 (i + Z.of_nat (length l1)).
Proof.
  revert i. induction l1 as [|x l1 IH]; intros i; cbn [app access_positions length].
  - f_equal. lia.
  - rewrite IH, <- app_assoc. do 3 f_equal. lia.
Qed.

Lemma access_positions_range l i p : p ∈ access_positions l i -> i <= p < i + Z.of_nat (length l).
Proof.
  revert i. induction l as [|x l IH]; intros i; cbn [access_positions length]; [by rewrite elem_of_nil|].
  rewrite elem_of_app. intros [Hp|Hp].
  - destruct (needs_check x); [|by rewrite elem_of_nil in Hp]. apply list_elem_of_singleton in Hp. lia.
  - apply IH in Hp. lia.
Qed.

Lemma length_access_positions l i j : length (access_positions l i) = length (access_positions l j).
Proof.
  revert i j. induction l as [|x l IH]; intros i j; cbn [access_positions]; [done|].
  rewrite !length_app, (IH (i + 1) (j + 1)). by destruct (needs_check x).
Qed.

Lemma length_rewrite_inst mp ms pcs i inst :
  length (rewrite_inst mp ms pcs i inst) = (1 + if needs_check inst then 20 else 0)%nat.
Proof.
  unfold rewrite_inst, needs_check. destruct (decode (opcode inst)) as [[]|]; simpl; try done;
    by destruct (_ =? _)%nat.
Qed.

Lemma length_rewrite_loop mp ms pcs i l :
  length (rewrite_loop mp ms pcs i l) = (length l + 20 * length (access_positions l 0))%nat.
Proof.
  revert i. induction l as [|x l IH]; intros i; cbn [rewrite_loop access_positions length]; [done|].
  rewrite !length_app, length_rewrite_inst, IH, (length_access_positions l (0 + 1) 0).
  destruct (needs_check x); simpl; lia.
Qed.

Lemma rewrite_loop_app mp ms pcs i l1 l2 :
  rewrite_loop mp ms pcs i (l1 ++ l2) =
  rewrite_loop mp ms pcs i l1 ++ rewrite_loop mp ms pcs (i + Z.of_nat (length l1)) l2.
Proof.
  revert i. induction l1 as [|x l1 IH]; intros i; cbn [app rewrite_loop length].
  - f_equal. lia.
  - rewrite IH, <- app_assoc. do 3 f_equal. lia.
Qed.

(** The instructions that stand for the one at [k] are at [pos k] of the rewritten program. *)
Lemma rewritten_at mp ms pcs insts k inst j x :
  insts !! k = Some inst -> rewrite_inst mp ms pcs (Z.of_nat k) inst !! j = Some x ->
  rewrite_with_memchecks mp ms insts pcs !! (pos insts k + j)%nat = Some x.
Proof.
  intros Hk Hj. unfold rewrite_with_memchecks, pos, accesses_before.
  replace (rewrite_loop mp ms pcs 0 insts) with (rewrite_loop mp ms pcs 0 (take k insts ++ inst :: drop (S k) insts))
    by (by rewrite take_drop_middle).
  rewrite rewrite_loop_app. cbn [rewrite_loop].
  pose proof (lookup_lt_Some _ _ _ Hk). rewrite lookup_app_r; rewrite length_rewrite_loop, length_take; [|lia].
  replace (k `min` length insts)%nat with k by lia.
  rewrite lookup_app_l; [|apply lookup_lt_Some in Hj; rewrite Z.add_0_l in *;
    match goal with |- (?a < length ?b)%nat => replace a with j by lia end; done].
  rewrite Z.add_0_l. by match goal with |- _ !! ?a = _ => replace a with j by lia end.
Qed.

Lemma pos_S insts k inst : insts !! k = Some inst ->
  pos insts (S k) = (pos insts k + 1 + if needs_check inst then 20 else 0)%nat.
Proof.
  intros Hk. unfold pos, accesses_before. rewrite (take_S_r _ _ _ Hk), access_positions_app, length_app.
  cbn [access_positions]. rewrite app_nil_r. destruct (needs_check inst); simpl; lia.
Qed.

Lemma pos_le insts k : (k <= length insts)%nat ->
  (pos insts k <= length insts + 20 * length (access_positions insts 0))%nat.
Proof.
  intros Hk. unfold pos, accesses_before. replace (access_positions insts 0) with (access_positions (take k insts ++ drop k insts) 0)
    by (by rewrite take_drop).
  rewrite access_positions_app, length_app. lia.
Qed.

Lemma pos_end mp ms pcs insts :
  pos insts (length insts) = length (rewrite_with_memchecks mp ms insts pcs).
Proof.
  unfold pos, accesses_before, rewrite_with_memchecks. rewrite length_rewrite_loop, take_ge by lia. lia.
Qed.

(** ** Jumps *)

Lemma stretch_below l l' lo hi delta off :
  lo <= hi -> Forall (fun p => p < lo) l -> stretch (l ++ l') lo hi delta off = stretch l' lo hi delta off.
Proof.
  intros Hh. induction 1 as [|p l Hp _ IH]; [done|]. cbn [app stretch].
  destruct (Z.ltb_spec p hi); [|lia]. destruct (Z.leb_spec lo p); [lia|done].
Qed.

Lemma stretch_in l l' lo hi delta off :
  Forall (fun p => lo <= p < hi) l ->
  (forall c, 0 <= c <= Z.of_nat (length l) -> - 2 ^ 15 <= off + delta * c < 2 ^ 15) ->
  stretch (l ++ l') lo hi delta off = stretch l' lo hi delta (off + delta * Z.of_nat (length l)).
Proof.
  intros Hl. revert off. induction Hl as [|p l Hp _ IH]; intros off Hr; cbn [app stretch length].
  - f_equal. lia.
  - destruct (Z.ltb_spec p hi); [|lia]. destruct (Z.leb_spec lo p); [|lia].
    rewrite s16_small; [|specialize (Hr 1); cbn [length] in Hr; lia]. rewrite IH; [f_equal; lia|].
    intros c Hc. specialize (Hr (c + 1)). cbn [length] in Hr. lia.
Qed.

Lemma stretch_above l lo hi delta off : Forall (fun p => hi <= p) l -> stretch l lo hi delta off = off.
Proof. destruct 1; [done|]. cbn [stretch]. by destruct (Z.ltb_spec x hi); [lia|]. Qed.

(** The stretched offset over a range of positions. *)
Lemma stretch_spec insts a b delta off :
  (a <= b <= length insts)%nat ->
  (forall c, 0 <= c <= Z.of_nat (length (access_positions insts 0)) -> - 2 ^ 15 <= off + delta * c < 2 ^ 15) ->
  stretch (access_positions insts 0) (Z.of_nat a) (Z.of_nat b) delta off =
  off + delta * (Z.of_nat (accesses_before insts b) - Z.of_nat (accesses_before insts a)).
Proof.
  intros Hab Hr. unfold accesses_before.
  assert (Hb : access_positions (take b insts) 0 =
               access_positions (take a insts) 0 ++ access_positions (drop a (take b insts)) (Z.of_nat a)).
  { rewrite <- (take_drop a (take b insts)) at 1. rewrite access_positions_app, take_take, length_take.
    by replace (a `min` b)%nat with a by lia; replace (Z.of_nat (a `min` length insts)) with (Z.of_nat a) by lia. }
  assert (Hall : access_positions insts 0 =
                 access_positions (take b insts) 0 ++ access_positions (drop b insts) (Z.of_nat b)).
  { rewrite <- (take_drop b insts) at 1. rewrite access_positions_app, length_take.
    by replace (b `min` length insts)%nat with b by lia. }
  rewrite Hall, Hb, length_app in *. rewrite length_app in Hr. rewrite <- app_assoc.
  rewrite stretch_below; [|lia|].
  - rewrite stretch_in; [rewrite stretch_above; [lia|]| |].
    + apply list.Forall_forall. intros p Hp. apply access_positions_range in Hp. lia.
    + apply list.Forall_forall. intros p Hp. apply access_positions_range in Hp.
      rewrite length_drop, length_take in Hp. lia.
    + intros c Hc. apply Hr. lia.
  - apply list.Forall_forall. intros p Hp. apply access_positions_range in Hp. rewrite length_take in Hp. lia.
Qed.

(** A jump from [i] to [t] becomes a jump from [pos i] to [pos t]. *)
Lemma new_offset_spec insts i inst t :
  insts !! i = Some inst -> needs_check inst = false ->
  (t <= length insts)%nat ->
  Z.of_nat (length insts) + 20 * Z.of_nat (length (access_positions insts 0)) <= 2 ^ 15 ->
  new_offset (access_positions insts 0) (Z.of_nat i) (Z.of_nat t - Z.of_nat i - 1) =
  Z.of_nat (pos insts t) - Z.of_nat (pos insts i) - 1.
Proof.
  intros Hi Hn Ht Hfit. pose proof (lookup_lt_Some _ _ _ Hi). pose proof (pos_S _ _ _ Hi) as HS. rewrite Hn in HS.
  unfold new_offset, ADDED_LOAD_STORE_INSTS. replace (Z.of_nat i + 1) with (Z.of_nat (S i)) by lia.
  replace (Z.of_nat (S i) + (Z.of_nat t - Z.of_nat i - 1)) with (Z.of_nat t) by lia.
  unfold pos in *. destruct (Z.ltb_spec 0 (Z.of_nat t - Z.of_nat i - 1)).
  - rewrite stretch_spec by lia. lia.
  - destruct (Z.ltb_spec (Z.of_nat t - Z.of_nat i - 1) 0).
    + rewrite stretch_spec by lia. lia.
    + assert (t = S i) as -> by lia. lia.
Qed.

(** ** The added instructions *)

Lemma u32_s32 x : u32 (s32 x) = u32 x.
Proof. unfold u32, s32. rewrite Zminus_mod_idemp_l. f_equal. lia. Qed.

Lemma lddw_value x : is_u64 x ->
  Z.lor (u32 (s32 (Z.land x (2 ^ 32 - 1)))) (u64 (Z.shiftl (u64 (s32 (Z.shiftr x 32))) 32)) = x.
Proof.
  intros Hx. unfold is_u64 in Hx. rewrite u32_s32, land_ones_mod, Z.shiftr_div_pow2, Z.shiftl_mul_pow2 by lia.
  assert (u64 (u64 (s32 (x / 2 ^ 32)) * 2 ^ 32) = x / 2 ^ 32 * 2 ^ 32) as ->.
  { unfold u64. rewrite Z.mul_mod_idemp_l by lia. change (2 ^ 64) with (2 ^ 32 * 2 ^ 32).
    rewrite Z.mul_mod_distr_r by lia. f_equal.
    change (u32 (s32 (x / 2 ^ 32)) = x / 2 ^ 32). rewrite u32_s32. apply u32_small.
    split; [apply Z.div_pos; lia|]. apply Z.div_lt_upper_bound; lia. }
  unfold u32. rewrite Z.mod_mod by lia. rewrite Z.lor_comm, lor_add_disjoint by (try apply Z.mod_pos_bound; lia).
  pose proof (Z.div_mod x (2 ^ 32)). lia.
Qed.

Lemma sub_address t a off : u64 (u64 (t - a) - u64 off) = u64 (t - u64 (a + off)).
Proof. unfold u64. rewrite Zminus_mod_idemp_l, !Zminus_mod_idemp_r. f_equal. lia. Qed.

Lemma add_address a off : u64 (a + u64 off) = u64 (a + off).
Proof. unfold u64. by rewrite Z.add_mod_idemp_r. Qed.

Lemma rd_insert_eq r d v : (d < length r)%nat -> rd (<[d:=v]> r) d = v.
Proof. apply nth_insert_eq. Qed.
Lemma rd_insert_ne r d k v : k <> d -> rd (<[d:=v]> r) k = rd r k.
Proof. apply nth_insert_ne. Qed.

(** One step at a known instruction. *)
Lemma step_at insts exts fault p r m i o :
  0 <= p < 2 ^ 16 - 1 -> insts !! Z.to_nat p = Some i -> decode (opcode i) = Some o ->
  step insts exts fault (St p r m) = exec_op insts exts fault o i (St (p + 1) r m).
Proof. intros Hp Hi Ho. unfold step. cbn [pc reg mem]. by rewrite Hi, Ho, u16_small by lia. Qed.

Section Prologue.
Context (insts : list ebpf_inst) (exts : Z -> option ext_func) (oob : ext_func).
Variables (memory_ptr memory_size q off : Z) (base : nat) (r : list Z) (m : memory).
Hypothesis Hoob : exts OOB_CALL = Some oob.
Hypothesis Hptr : is_u64 memory_ptr.
Hypothesis Hsize : is_u32 memory_size.
Hypothesis Hat : forall j x, memcheck memory_ptr memory_size base off !! j = Some x ->
  insts !! Z.to_nat (q + Z.of_nat j) = Some x.
Hypothesis Hq : 0 <= q <= 2 ^ 15.
Hypothesis Hlen : length r = 16%nat.
Hypothesis Hbase : (base <= 10)%nat.

Abbreviation top := (memory_ptr_top memory_ptr memory_size).
Abbreviation addr := (u64 (rd r base + off)).
Abbreviation next := (steps insts exts no_fault).

(** The state at the [j]-th added instruction. *)
Definition added (j : nat) (r' : list Z) : state := St (q + Z.of_nat j) r' m.

Lemma fetch j x o r' :
  memcheck memory_ptr memory_size base off !! j = Some x -> decode (opcode x) = Some o ->
  step insts exts no_fault (added j r') = exec_op insts exts no_fault o x (added (S j) r').
Proof.
  intros Hj Ho. assert (j < 20)%nat by (apply lookup_lt_Some in Hj; exact Hj).
  unfold added. rewrite (step_at _ _ _ _ _ _ x o) by (try apply Hat; try done; lia).
  do 2 f_equal. lia.
Qed.

Lemma jump_at j d t r' : Z.of_nat j + d = Z.of_nat t -> (t <= 20)%nat -> jump (added j r') d = Next (added t r').
Proof. intros Hd Ht. unfold jump, added. cbn [pc reg mem]. rewrite u16_small by lia. do 2 f_equal. lia. Qed.

(** A computation on [r11] or another register, a conditional jump, a jump. *)
Lemma fetch_alu j op sr d sr' i v r' n s' :
  memcheck memory_ptr memory_size base off !! j = Some (Inst (opcode_of (OpAlu true op sr)) d sr' 0 i) ->
  divides op sr = false ->
  alu64 op (rd r' d) (operand_value sr r' (Inst (opcode_of (OpAlu true op sr)) d sr' 0 i)) = Some v ->
  nsteps next n (added (S j) (<[d := v]> r')) s' -> nsteps next (S n) (added j r') s'.
Proof.
  intros Hj Hd Hv Hn. eapply nsteps_l; [|exact Hn]. unfold steps.
  rewrite (fetch _ _ _ _ Hj (decode_opcode_of _)). unfold exec_op, added. cbn [pc reg mem dst alu].
  by rewrite Hd, Hv.
Qed.

Lemma fetch_jump j op sr sr' o i t r' n s' :
  memcheck memory_ptr memory_size base off !! j = Some (Inst (opcode_of (OpJmp op sr)) 11 sr' o i) ->
  (t <= 20)%nat ->
  (if jump_taken op (rd r' 11) (jump_operand op sr r' (Inst (opcode_of (OpJmp op sr)) 11 sr' o i))
   then Z.of_nat (S j) + o = Z.of_nat t else t = S j) ->
  nsteps next n (added t r') s' -> nsteps next (S n) (added j r') s'.
Proof.
  intros Hj Ht Ho Hn. eapply nsteps_l; [|exact Hn]. unfold steps.
  rewrite (fetch _ _ _ _ Hj (decode_opcode_of _)). unfold exec_op, added at 1 2 3. cbn [pc reg mem dst offset].
  destruct (jump_taken _ _ _); [by apply jump_at|by subst t].
Qed.

Lemma fetch_ja j o t r' n s' :
  memcheck memory_ptr memory_size base off !! j = Some (Inst (opcode_of OpJa) 0 0 o 0) ->
  (t <= 20)%nat -> Z.of_nat (S j) + o = Z.of_nat t ->
  nsteps next n (added t r') s' -> nsteps next (S n) (added j r') s'.
Proof.
  intros Hj Ht Ho Hn. eapply nsteps_l; [|exact Hn]. unfold steps.
  rewrite (fetch _ _ _ _ Hj (decode_opcode_of _)). by apply jump_at.
Qed.

Lemma fetch_lddw j d x r' n s' :
  memcheck memory_ptr memory_size base off !! j = Some (Inst (opcode_of OpLddw) d 0 0 (s32 (Z.land x (2 ^ 32 - 1)))) ->
  memcheck memory_ptr memory_size base off !! S j = Some (Inst 0 0 0 0 (s32 (Z.shiftr x 32))) ->
  is_u64 x ->
  nsteps next n (added (S (S j)) (<[d := x]> r')) s' -> nsteps next (S n) (added j r') s'.
Proof.
  intros Hj Hj' Hx Hn. assert (S j < 20)%nat by (apply lookup_lt_Some in Hj'; exact Hj').
  eapply nsteps_l; [|exact Hn]. unfold steps.
  rewrite (fetch _ _ _ _ Hj (decode_opcode_of _)). unfold exec_op, added at 1. cbn [pc]. rewrite (Hat _ _ Hj'). unfold added.
  cbn [imm dst pc reg mem]. rewrite lddw_value by done. rewrite u16_small by lia. do 2 f_equal. lia.
Qed.

#[local] Ltac regs := cbn [operand_value jump_operand imm src];
  repeat first [rewrite rd_insert_eq by (rewrite ?length_insert; lia) | rewrite rd_insert_ne by lia].

(** [r11] after the first four instructions. *)
Lemma prologue_memory n s' :
  nsteps next n (added 4 (<[11%nat := u64 (top - addr)]> r)) s' -> nsteps next (3 + n) (added 0 r) s'.
Proof.
  intros Hn. eapply fetch_lddw; [reflexivity|reflexivity|apply u64_range|].
  eapply fetch_alu; [reflexivity|reflexivity|regs; reflexivity|].
  eapply fetch_alu; [reflexivity|reflexivity|regs; reflexivity|].
  rewrite !list_insert_insert_eq, sub_address. exact Hn.
Qed.

(** The error report: the call of [OOB_CALL] and the exit. *)
Definition report : outcome :=
  let '(v, m') := oob m addr memory_ptr (rd r 10) (rd r 4) (rd r 5) in Return v m'.

Lemma prologue_report v :
  exists n s', nsteps next n (added 13 (<[11%nat := v]> r)) s' /\ step insts exts no_fault s' = report.
Proof.
  destruct (oob m addr memory_ptr (rd r 10) (rd r 4) (rd r 5)) as [w m'] eqn:Hw.
  eexists 5%nat, (St (q + Z.of_nat 19) _ m'). split.
  - eapply fetch_alu; [reflexivity|reflexivity|regs; reflexivity|].
    eapply fetch_alu; [reflexivity|reflexivity|regs; reflexivity|].
    eapply fetch_lddw; [reflexivity|reflexivity|exact Hptr|].
    eapply fetch_alu; [reflexivity|reflexivity|regs; reflexivity|].
    eapply nsteps_l; [|apply nsteps_O]. unfold steps.
    rewrite (fetch 18 _ OpCall) by (first [apply decode_opcode_of | reflexivity]).
    unfold exec_op. cbn [imm]. rewrite Hoob. unfold added. cbn [pc reg mem]. regs.
    rewrite add_address. rewrite Hw. reflexivity.
  - rewrite (step_at _ _ _ _ _ _ (Inst (opcode_of OpExit) 0 0 0 0) OpExit);
      [|lia|apply (Hat 19); reflexivity|apply decode_opcode_of].
    unfold exec_op, report. cbn [reg mem]. rewrite Hw. regs. reflexivity.
Qed.

(** The second half: the test against the stack. *)
Lemma prologue_stack v :
  if (addr <=? rd r 10) && (rd r 10 <=? u64 (addr + STACK_SIZE))
  then exists n x, nsteps next n (added 7 (<[11%nat := v]> r)) (added 20 (<[11%nat := x]> r))
  else exists n s', nsteps next n (added 7 (<[11%nat := v]> r)) s' /\ step insts exts no_fault s' = report.
Proof.
  assert (Hpre : forall n s', nsteps next n (added 9 (<[11%nat := addr]> r)) s' ->
                   nsteps next (2 + n) (added 7 (<[11%nat := v]> r)) s').
  { intros n s' Hn. eapply fetch_alu; [reflexivity|reflexivity|regs; reflexivity|].
    eapply fetch_alu; [reflexivity|reflexivity|regs; reflexivity|].
    rewrite !list_insert_insert_eq, add_address. exact Hn. }
  assert (Hpre2 : addr <= rd r 10 -> forall n s', nsteps next n (added 12 (<[11%nat := u64 (addr + STACK_SIZE)]> r)) s' ->
                   nsteps next (4 + n) (added 7 (<[11%nat := v]> r)) s').
  { intros Ha n s' Hn. apply Hpre. eapply (fetch_jump 9 _ _ _ _ _ 11); [reflexivity|lia| |].
    - regs. cbn [jump_taken]. by destruct (Z.leb_spec addr (rd r 10)); [|lia].
    - eapply fetch_alu; [reflexivity|reflexivity|regs; reflexivity|].
      rewrite list_insert_insert_eq, add_address. exact Hn. }
  destruct (Z.leb_spec addr (rd r 10)) as [Ha|Ha]; cbn [andb].
  - destruct (Z.leb_spec (rd r 10) (u64 (addr + STACK_SIZE))) as [Hb|Hb].
    + eexists _, _. apply Hpre2; [done|]. eapply (fetch_jump 12 _ _ _ _ _ 20); [reflexivity|lia| |apply nsteps_O].
      regs. cbn [jump_taken]. by destruct (Z.leb_spec (rd r 10) (u64 (addr + STACK_SIZE))); [|lia].
    + destruct (prologue_report (u64 (addr + STACK_SIZE))) as (n & s' & Hn & Hs'). eexists _, s'. split; [|exact Hs'].
      apply Hpre2; [done|]. eapply (fetch_jump 12 _ _ _ _ _ 13); [reflexivity|lia| |exact Hn].
      regs. cbn [jump_taken]. by destruct (Z.leb_spec (rd r 10) (u64 (addr + STACK_SIZE))); [lia|].
  - destruct (prologue_report addr) as (n & s' & Hn & Hs'). eexists _, s'. split; [|exact Hs'].
    apply Hpre. eapply (fetch_jump 9 _ _ _ _ _ 10); [reflexivity|lia| |].
    + regs. cbn [jump_taken]. by destruct (Z.leb_spec addr (rd r 10)); [lia|].
    + eapply (fetch_ja 10 _ 13); [reflexivity|lia|lia|exact Hn].
Qed.

Lemma s64_0 : s64 0 = 0.
Proof. reflexivity. Qed.

(** The added instructions let an access through exactly when [memcheck_ok] does,
    with [r11] the only register they change. *)
Lemma prologue_spec :
  if memcheck_ok memory_ptr memory_size r base off
  then exists n x, nsteps next n (added 0 r) (added 20 (<[11%nat := x]> r))
  else exists n s', nsteps next n (added 0 r) s' /\ step insts exts no_fault s' = report.
Proof.
  unfold memcheck_ok. cbn zeta. set (d := u64 (top - addr)).
  pose proof (prologue_stack d) as Hst.
  destruct (Z.leb_spec 0 (s64 d)) as [Hs|Hs]; cbn [andb].
  - assert (Hpre : forall n s', nsteps next n (added 6 (<[11%nat := d]> r)) s' -> nsteps next (4 + n) (added 0 r) s').
    { intros n s' Hn. apply (prologue_memory (S n)). eapply (fetch_jump 4 _ _ _ _ _ 6); [reflexivity|lia| |exact Hn].
      regs. cbn [jump_taken]. change (u64 0) with 0. rewrite s64_0. fold d. by destruct (Z.leb_spec 0 (s64 d)); [|lia]. }
    destruct (Z.leb_spec d memory_size) as [Hd|Hd]; cbn [orb].
    + eexists _, _. apply Hpre. eapply (fetch_jump 6 _ _ _ _ _ 20); [reflexivity|lia| |apply nsteps_O].
      regs. cbn [jump_taken]. rewrite u32_s32, u32_small by (unfold is_u32 in Hsize; lia).
      by destruct (Z.leb_spec d memory_size); [|lia].
    + assert (Hpre7 : forall n s', nsteps next n (added 7 (<[11%nat := d]> r)) s' -> nsteps next (5 + n) (added 0 r) s').
      { intros n s' Hn. apply (Hpre (S n)). eapply (fetch_jump 6 _ _ _ _ _ 7); [reflexivity|lia| |exact Hn].
        regs. cbn [jump_taken]. rewrite u32_s32, u32_small by (unfold is_u32 in Hsize; lia).
        by destruct (Z.leb_spec d memory_size); [lia|]. }
      destruct (_ && _); destruct Hst as (n & x & Hn); [|destruct Hn as [Hn ?]]; eauto.
  - assert (Hpre7 : forall n s', nsteps next n (added 7 (<[11%nat := d]> r)) s' -> nsteps next (5 + n) (added 0 r) s').
    { intros n s' Hn. apply (prologue_memory (S (S n))). eapply (fetch_jump 4 _ _ _ _ _ 5); [reflexivity|lia| |].
      - regs. cbn [jump_taken]. change (u64 0) with 0. rewrite s64_0. fold d. by destruct (Z.leb_spec 0 (s64 d)); [lia|].
      - eapply (fetch_ja 5 _ 7); [reflexivity|lia|lia|exact Hn]. }
    cbn [orb]. destruct (_ && _); destruct Hst as (n & x & Hn); [|destruct Hn as [Hn ?]]; eauto.
Qed.
End Prologue.

(** ** Simulation *)

(** The registers of both machines agree but for those that the added
    instructions use and no validated program does. *)
Definition agree (r r' : list Z) : Prop :=
  length r = 16%nat /\ length r' = 16%nat /\ forall k, (k <= 10)%nat -> rd r k = rd r' k.

Lemma agree_refl r : length r = 16%nat -> agree r r.
Proof. done. Qed.

Lemma agree_insert r r' d v : agree r r' -> agree (<[d := v]> r) (<[d := v]> r').
Proof.
  intros (Hl & Hl' & H). split_and!; [by rewrite length_insert|by rewrite length_insert|].
  intros k Hk. destruct (decide (k = d)) as [->|]; [by rewrite !rd_insert_eq by lia|].
  rewrite !rd_insert_ne by done. auto.
Qed.

Lemma agree_scratch r r' v : agree r r' -> agree r (<[11%nat := v]> r').
Proof.
  intros (Hl & Hl' & H). split_and!; [done|by rewrite length_insert|].
  intros k Hk. rewrite rd_insert_ne by lia. auto.
Qed.

(** Outcomes at given positions that agree. *)
Definition out_rel (p p' : Z) (o o' : outcome) : Prop :=
  match o, o' with
  | Next s, Next s' => pc s = p /\ pc s' = p' /\ agree (reg s) (reg s') /\ mem s' = mem s
  | Return v m, Return v' m' => v' = v /\ m' = m
  | Undefined, Undefined => True
  | _, _ => False
  end.

Definition straight (o : operation) : bool :=
  match o with OpLddw | OpJa | OpJmp _ _ => false | _ => true end.

(** An operation that is neither a jump nor a [LDDW] does the same in both machines. *)
Lemma exec_straight insts insts' exts fault o inst p p' r r' m :
  straight o = true -> regs_valid o inst -> agree r r' ->
  (forall base, access_base o inst = Some base -> forall sz, fault base (offset inst) sz r m = None) ->
  out_rel p p' (exec_op insts exts fault o inst (St p r m)) (exec_op insts' exts no_fault o inst (St p' r' m)).
Proof.
  intros Hs [Hsrc Hdst] Hag Hf. pose proof Hag as (Hl & Hl' & Hr).
  assert (Hds : rd r' (dst inst) = rd r (dst inst)) by (symmetry; apply Hr; lia).
  assert (Hsr : rd r' (src inst) = rd r (src inst)) by (symmetry; apply Hr; lia).
  destruct o as [w op sr|w| | |sz|sz|sz| | |op sr| |]; try done; unfold exec_op, set_reg, no_fault; cbn [pc reg mem].
  - assert (operand_value sr r' inst = operand_value sr r inst) as -> by (by destruct sr). rewrite Hds.
    destruct (divides op sr && _); [done|]. destruct (alu _ _ _ _); [|done]. split_and!; try done. by apply agree_insert.
  - rewrite Hds. split_and!; try done. by apply agree_insert.
  - rewrite Hds. split_and!; try done. by apply agree_insert.
  - rewrite Hds. split_and!; try done. by apply agree_insert.
  - rewrite (Hf _ eq_refl), Hsr. split_and!; try done. by apply agree_insert.
  - rewrite (Hf _ eq_refl), Hds. done.
  - rewrite (Hf _ eq_refl), Hds, Hsr. done.
  - destruct (exts (imm inst)) as [f|]; [|done].
    rewrite <- !Hr by lia. destruct (f _ _ _ _ _ _) as [v m']. split_and!; try done. by apply agree_insert.
  - rewrite <- Hr by lia. done.
Qed.

Section Simulation.
Context (insts : list ebpf_inst) (exts : Z -> option ext_func) (oob : ext_func) (pcs : list Z).
Variables memory_ptr memory_size : Z.
Hypothesis Hvalid : validate exts insts = inr pcs.
Hypothesis Hinsts : Forall inst_ok insts.
Hypothesis Hoob : exts OOB_CALL = Some oob.
Hypothesis Hptr : is_u64 memory_ptr.
Hypothesis Hsize : is_u32 memory_size.

Abbreviation insts' := (rewrite_with_memchecks memory_ptr memory_size insts pcs).
Hypothesis Hfit : Z.of_nat (length insts') <= 2 ^ 15.

Abbreviation policy := (memcheck_fault oob memory_ptr memory_size).
Abbreviation next := (steps insts' exts no_fault).

Definition sim (s t : state) : Prop :=
  0 <= pc s <= Z.of_nat (length insts) /\ starts_from insts 0 (Z.to_nat (pc s)) /\
  pc t = Z.of_nat (pos insts (Z.to_nat (pc s))) /\ agree (reg s) (reg t) /\ mem t = mem s.

Lemma fit_positions : Z.of_nat (length insts) + 20 * Z.of_nat (length (access_positions insts 0)) <= 2 ^ 15.
Proof. unfold rewrite_with_memchecks in Hfit. rewrite length_rewrite_loop in Hfit. lia. Qed.

Lemma pos_fit k : (k <= length insts)%nat -> Z.of_nat (pos insts k) <= 2 ^ 15.
Proof. intros Hk. pose proof (pos_le insts k Hk). pose proof fit_positions. lia. Qed.

(** What the steps of the rewritten program have to show for one outcome of the
    original one at [k]. *)
Definition simulated (t : state) (o : outcome) : Prop :=
  match o with
  | Next s' => exists n t', nsteps next (S n) t t' /\ sim s' t'
  | _ => exists n t', nsteps next n t t' /\ step insts' exts no_fault t' = o
  end.

(** A step of the rewritten program that agrees with the outcome of the original. *)
Lemma simulated_straight k t n t1 o :
  nsteps next n t t1 -> starts_from insts 0 (S k) -> (S k <= length insts)%nat ->
  out_rel (Z.of_nat (S k)) (Z.of_nat (pos insts (S k))) o (step insts' exts no_fault t1) ->
  simulated t o.
Proof.
  intros Hn Hst Hk Hout. unfold simulated, out_rel in *.
  destruct o as [s'|v m|]; destruct (step insts' exts no_fault t1) as [t2|v' m'|] eqn:Ht; try done.
  - destruct Hout as (Hp & Hp' & Ha & Hm). exists n, t2. split; [eapply nsteps_r; [exact Hn|exact Ht]|].
    unfold sim. rewrite Hp, Hp', Nat2Z.id. split_and!; try done; lia.
  - destruct Hout as [-> ->]. eauto.
  - eauto.
Qed.

Lemma rewrite_inst_plain i inst o : decode (opcode inst) = Some o -> needs_check inst = false ->
  straight o = true -> rewrite_inst memory_ptr memory_size pcs i inst = [inst].
Proof.
  intros Ho Hn Hs. unfold needs_check in Hn. rewrite Ho in Hn. unfold rewrite_inst. rewrite Ho.
  destruct o; simpl in *; try done; by rewrite Hn.
Qed.

(** The cases of one step of the original program: *)
Section OneStep.
Variables (k : nat) (r r' : list Z) (m : memory) (inst : ebpf_inst) (o : operation).
Hypothesis Hst : starts_from insts 0 k.
Hypothesis Hk : insts !! k = Some inst.
Hypothesis Ho : decode (opcode inst) = Some o.
Hypothesis Hop : op_valid exts insts o inst k.
Hypothesis Hrg : regs_valid o inst.
Hypothesis Hag : agree r r'.

Abbreviation t := (St (Z.of_nat (pos insts k)) r' m).
Abbreviation o1 := (exec_op insts exts policy o inst (St (Z.of_nat (S k)) r m)).

Lemma k_lt : (k < length insts)%nat.
Proof. by eapply lookup_lt_Some. Qed.

Lemma pcs_eq : pcs = access_positions insts 0.
Proof. by destruct (validate_spec _ _ _ Hvalid) as (_ & -> & _). Qed.

Lemma starts_S : o <> OpLddw -> starts_from insts 0 (S k).
Proof. intros Hne. eapply starts_trans; [done|]. eapply starts_after; [done|congruence|constructor]. Qed.

(** - an instruction that is copied, *)
Lemma sim_plain : needs_check inst = false -> straight o = true -> simulated t o1.
Proof.
  intros Hn Hs. pose proof k_lt. pose proof (pos_fit k ltac:(lia)).
  eapply (simulated_straight k _ 0 _ _ (nsteps_O _ _)); [apply starts_S; by intros ->|lia|].
  rewrite (step_at _ _ _ _ _ _ inst o); [|lia| |done].
  - rewrite (pos_S _ _ _ Hk), Hn. replace (Z.of_nat (pos insts k + 1 + 0)) with (Z.of_nat (pos insts k) + 1) by lia.
    apply exec_straight; try done. intros base Hb sz. unfold needs_check in Hn. rewrite Ho, Hb in Hn.
    apply negb_false_iff in Hn. unfold memcheck_fault. by rewrite Hn.
  - rewrite Nat2Z.id, <- (Nat.add_0_r (pos insts k)). eapply rewritten_at; [done|].
    by rewrite (rewrite_inst_plain _ _ _ Ho Hn Hs).
Qed.

(** - one that loads 64 bits, *)
Lemma sim_lddw : o = OpLddw -> simulated t o1.
Proof.
  intros ->. destruct Hop as (i2 & Hi2 & H0). pose proof (lookup_lt_Some _ _ _ Hi2).
  assert (Hn : needs_check inst = false) by (unfold needs_check; by rewrite Ho).
  pose proof (pos_S _ _ _ Hk) as HS. rewrite Hn in HS.
  pose proof (pos_S _ _ _ Hi2) as HSS. rewrite (needs_check_zero i2 H0) in HSS.
  pose proof (pos_fit (S (S k)) ltac:(lia)). destruct (validate_spec _ _ _ Hvalid) as (Hmax & _).
  unfold MAX_INSTS in Hmax.
  assert (Hi2' : insts' !! Z.to_nat (Z.of_nat (pos insts k) + 1) = Some i2).
  { replace (Z.to_nat (Z.of_nat (pos insts k) + 1)) with (pos insts (S k) + 0)%nat by lia.
    eapply rewritten_at; [done|]. unfold rewrite_inst. by rewrite H0, decode_zero. }
  unfold exec_op. cbn [pc reg mem]. rewrite Nat2Z.id, Hi2.
  eexists 0%nat, (St (Z.of_nat (pos insts k) + 1 + 1) _ m). split.
  - eapply nsteps_l; [|apply nsteps_O]. unfold steps. rewrite (step_at _ _ _ _ _ _ inst OpLddw); [|lia| |done].
    + unfold exec_op. cbn [pc reg mem]. rewrite Hi2', u16_small by lia. reflexivity.
    + rewrite Nat2Z.id, <- (Nat.add_0_r (pos insts k)). eapply rewritten_at; [done|]. unfold rewrite_inst. by rewrite Ho.
  - unfold sim. cbn [pc reg mem]. rewrite u16_small by lia.
    replace (Z.to_nat (Z.of_nat (S k) + 1)) with (S (S k)) by lia. split_and!; try lia.
    + eapply starts_trans; [done|]. eapply starts_after_lddw; [done|done|constructor].
    + by apply agree_insert.
    + done.
Qed.

(** - a jump, *)
Lemma sim_jump : o = OpJa \/ (exists op sr, o = OpJmp op sr) -> simulated t o1.
Proof.
  intros Hj. pose proof k_lt. destruct (validate_spec _ _ _ Hvalid) as (Hmax & _ & _ & Hstart & _).
  unfold MAX_INSTS in Hmax.
  assert (exists t i2, Z.of_nat t = Z.of_nat k + 1 + offset inst /\ insts !! t = Some i2 /\ opcode i2 <> 0)
    as (t & i2 & Ht & Hi2 & Hnz) by (destruct Hj as [->|(? & ? & ->)]; exact Hop).
  pose proof (lookup_lt_Some _ _ _ Hi2) as Hlt.
  assert (Hn : needs_check inst = false) by (unfold needs_check; rewrite Ho; by destruct Hj as [->|(? & ? & ->)]).
  pose proof (pos_S _ _ _ Hk) as HS. rewrite Hn in HS.
  pose proof (pos_fit (S k) ltac:(lia)). pose proof (pos_fit t ltac:(lia)).
  assert (Hoff : new_offset pcs (Z.of_nat k) (offset inst) = Z.of_nat (pos insts t) - Z.of_nat (pos insts k) - 1).
  { rewrite pcs_eq. replace (offset inst) with (Z.of_nat t - Z.of_nat k - 1) by lia.
    eapply new_offset_spec; [done|done|lia|apply fit_positions]. }
  set (i' := Inst (opcode inst) (dst inst) (src inst) (Z.of_nat (pos insts t) - Z.of_nat (pos insts k) - 1) (imm inst)).
  assert (Hstep : step insts' exts no_fault (St (Z.of_nat (pos insts k)) r' m) =
                  exec_op insts' exts no_fault o i' (St (Z.of_nat (pos insts k) + 1) r' m)).
  { apply step_at; [lia| |done]. rewrite Nat2Z.id, <- (Nat.add_0_r (pos insts k)). eapply rewritten_at; [done|].
    unfold rewrite_inst. rewrite Ho. destruct Hj as [->|(? & ? & ->)]; by rewrite Hoff. }
  assert (Hjump : jump (St (Z.of_nat (S k)) r m) (offset inst) = Next (St (Z.of_nat t) r m)).
  { unfold jump. cbn [pc reg mem]. rewrite u16_small by lia. do 2 f_equal. lia. }
  assert (Hjump' : jump (St (Z.of_nat (pos insts k) + 1) r' m) (offset i') = Next (St (Z.of_nat (pos insts t)) r' m)).
  { unfold jump, i'. cbn [pc reg mem offset]. rewrite u16_small by lia. do 2 f_equal. lia. }
  assert (Hgo : forall a, starts_from insts 0 a -> (a <= length insts)%nat ->
            step insts' exts no_fault (St (Z.of_nat (pos insts k)) r' m) = Next (St (Z.of_nat (pos insts a)) r' m) ->
            simulated (St (Z.of_nat (pos insts k)) r' m) (Next (St (Z.of_nat a) r m))).
  { intros a Ha Hal Hs. exists 0%nat, (St (Z.of_nat (pos insts a)) r' m). split; [eapply nsteps_l; [exact Hs|apply nsteps_O]|].
    unfold sim. cbn [pc reg mem]. rewrite Nat2Z.id. split_and!; try done; lia. }
  assert (Hsk : Z.of_nat (pos insts (S k)) = Z.of_nat (pos insts k) + 1) by lia. pose proof starts_S as HstS.
  destruct Hj as [->|(op & sr & ->)]; unfold exec_op in Hstep |- *; cbn [pc reg mem] in *.
  - rewrite Hjump. apply Hgo; [eauto|lia|]. by rewrite Hstep.
  - destruct Hag as (_ & _ & Hr). destruct Hrg as [Hsrc [Hdst|[? _]]]; [|done].
    assert (rd r' (dst i') = rd r (dst inst)) as Hd by (change (dst i') with (dst inst); symmetry; apply Hr; lia).
    assert (jump_operand op sr r' i' = jump_operand op sr r inst) as Hjo.
    { destruct sr; [by destruct op|]. simpl. symmetry. apply Hr. lia. }
    rewrite Hd, Hjo in Hstep. destruct (jump_taken op _ _).
    + rewrite Hjump. apply Hgo; [eauto|lia|]. by rewrite Hstep.
    + apply Hgo; [by apply HstS|lia|]. by rewrite Hstep, Hsk.
Qed.

(** - a checked access. *)
Lemma sim_access : needs_check inst = true -> simulated t o1.
Proof.
  intros Hn. pose proof k_lt. pose proof Hn as Hn'. unfold needs_check in Hn'. rewrite Ho in Hn'.
  destruct (access_base o inst) as [base|] eqn:Hb; [|done].
  pose proof (pos_S _ _ _ Hk) as HS. rewrite Hn in HS. pose proof (pos_fit (S k) ltac:(lia)).
  pose proof Hag as (Hl & Hl' & Hr).
  assert (Hbase : (base <= 10)%nat).
  { destruct Hrg as [? [?|[? ?]]]; destruct o; simpl in Hb; simplify_eq; lia. }
  assert (Hre : rewrite_inst memory_ptr memory_size pcs (Z.of_nat k) inst =
                memcheck memory_ptr memory_size base (offset inst) ++ [inst]).
  { unfold rewrite_inst. rewrite Ho. destruct o; simpl in Hb; simplify_eq; by rewrite Hn'. }
  pose proof (prologue_spec insts' exts oob memory_ptr memory_size (Z.of_nat (pos insts k)) (offset inst) base r' m
    Hoob Hptr Hsize) as Hpro.
  assert (Hok : memcheck_ok memory_ptr memory_size r' base (offset inst) = memcheck_ok memory_ptr memory_size r base (offset inst)).
  { unfold memcheck_ok. by rewrite <- !Hr by lia. }
  rewrite Hok in Hpro. unfold added in Hpro. rewrite Z.add_0_r in Hpro.
  specialize (Hpro ltac:(intros j x Hj; replace (Z.to_nat _) with (pos insts k + j)%nat by lia;
     eapply rewritten_at; [done|]; rewrite Hre; by apply lookup_app_l_Some) ltac:(lia) Hl' Hbase).
  assert (Hst' : starts_from insts 0 (S k)) by (apply starts_S; intros ->; done).
  destruct (memcheck_ok memory_ptr memory_size r base (offset inst)) eqn:Hchk.
  - destruct Hpro as (n & x & Hsteps). eapply simulated_straight; [exact Hsteps|exact Hst'|lia|].
    rewrite (step_at _ _ _ _ _ _ inst o); [|lia| |done].
    + replace (Z.of_nat (pos insts (S k))) with (Z.of_nat (pos insts k) + Z.of_nat 20 + 1) by lia.
      apply exec_straight; [by destruct o|done|by apply agree_scratch|].
      intros b Hb' sz. simplify_eq. unfold memcheck_fault. rewrite Hchk. by destruct (_ =? _)%nat.
    + replace (Z.to_nat _) with (pos insts k + 20)%nat by lia. eapply rewritten_at; [done|]. by rewrite Hre.
  - assert (Hf : forall sz, policy base (offset inst) sz r m =
             Some (oob m (u64 (rd r base + offset inst)) memory_ptr (rd r 10) (rd r 4) (rd r 5))).
    { intros sz. unfold memcheck_fault. apply negb_true_iff in Hn'. by rewrite Hn', Hchk. }
    destruct Hpro as (n & s' & Hsteps & Hrep). unfold report in Hrep. rewrite <- !Hr in Hrep by lia.
    destruct o; simpl in Hb; simplify_eq; simpl; rewrite Hf;
      destruct (oob _ _ _ _ _ _) as [v m']; by exists n, s'.
Qed.
End OneStep.

Lemma step_simulated s t : sim s t -> simulated t (step insts exts policy s).
Proof.
  intros (Hpc & Hst & Hpt & Hag & Hm). destruct s as [p r m], t as [p' r' m']. cbn [pc reg mem] in *. subst p' m'.
  destruct (validate_spec _ _ _ Hvalid) as (Hmax & _ & Hchk & _). unfold MAX_INSTS in Hmax.
  remember (Z.to_nat p) as k eqn:Hk. assert (p = Z.of_nat k) as -> by lia. clear Hk.
  destruct (decide (k = length insts)) as [->|Hne].
  - unfold step at 1. cbn [pc]. rewrite Nat2Z.id, lookup_ge_None_2 by lia.
    eexists 0%nat, _. split; [apply nsteps_O|]. unfold step. cbn [pc].
    rewrite Nat2Z.id, (pos_end memory_ptr memory_size pcs), lookup_ge_None_2 by lia. done.
  - destruct (Hchk k Hst ltac:(lia)) as (inst & o & Hi & Ho & Hop & Hrg).
    rewrite (step_at _ _ _ _ _ _ inst o); [|lia|by rewrite Nat2Z.id|done].
    replace (Z.of_nat k + 1) with (Z.of_nat (S k)) by lia.
    destruct (needs_check inst) eqn:Hn; [by eapply sim_access|].
    destruct (straight o) eqn:Hs; [by eapply sim_plain|].
    destruct o; try done; [by eapply sim_lddw|eapply sim_jump; eauto|eapply sim_jump; eauto].
Qed.

(** Every run of the original program under the policy is a run of the rewritten one. *)
Lemma run_forward f s t o : sim s t -> run insts exts policy f s = Some o ->
  exists f', run insts' exts no_fault f' t = Some o.
Proof.
  revert s t. induction f as [|f IH]; intros s t Hs Hrun; [done|]. cbn [run] in Hrun.
  pose proof (step_simulated s t Hs) as Hsim. unfold simulated in Hsim.
  destruct (step insts exts policy s) as [s'|v m|].
  - destruct Hsim as (n & t' & Hn & Hs'). destruct (IH _ _ Hs' Hrun) as [f' Hf'].
    exists (S n + f')%nat. by rewrite (run_nsteps _ _ _ _ _ _ _ Hn).
  - destruct Hsim as (n & t' & Hn & Ht). exists (n + 1)%nat. rewrite (run_nsteps _ _ _ _ _ _ _ Hn).
    cbn [run]. by rewrite Ht.
  - destruct Hsim as (n & t' & Hn & Ht). exists (n + 1)%nat. rewrite (run_nsteps _ _ _ _ _ _ _ Hn).
    cbn [run]. by rewrite Ht.
Qed.

(** And the converse: the rewritten program takes at least one step for each of the original. *)
Lemma run_backward f s t o : sim s t -> run insts' exts no_fault f t = Some o ->
  exists f', run insts exts policy f' s = Some o.
Proof.
  revert s t. induction (lt_wf f) as [f _ IH]; intros s t Hs Hrun.
  pose proof (step_simulated s t Hs) as Hsim. unfold simulated in Hsim.
  destruct (step insts exts policy s) as [s'|v m|] eqn:Hstep.
  - destruct Hsim as (n & t' & Hn & Hs').
    destruct (Nat.le_gt_cases f (S n)) as [Hle|Hgt].
    + apply (run_more _ _ _ _ (S n + 0)) in Hrun; [|lia]. rewrite (run_nsteps _ _ _ _ _ _ _ Hn) in Hrun. done.
    + replace f with (S n + (f - S n))%nat in Hrun by lia. rewrite (run_nsteps _ _ _ _ _ _ _ Hn) in Hrun.
      destruct (IH (f - S n)%nat ltac:(lia) _ _ Hs' Hrun) as [f' Hf']. exists (S f'). cbn [run]. by rewrite Hstep.
  - destruct Hsim as (n & t' & Hn & Ht). exists 1%nat. cbn [run]. rewrite Hstep.
    eapply f_equal, run_functional; [|exact Hrun]. rewrite (run_nsteps _ _ _ n _ _ 1 Hn). cbn [run]. by rewrite Ht.
  - destruct Hsim as (n & t' & Hn & Ht). exists 1%nat. cbn [run]. rewrite Hstep.
    eapply f_equal, run_functional; [|exact Hrun]. rewrite (run_nsteps _ _ _ n _ _ 1 Hn). cbn [run]. by rewrite Ht.
Qed.
End Simulation.

(** ** Properties *)

Lemma sim_initial insts garbage arg stack m :
  length garbage = 16%nat -> sim insts (initial_state garbage arg stack m) (initial_state garbage arg stack m).
Proof.
  intros Hl. unfold sim, initial_state. cbn [pc reg mem]. split_and!; [lia|lia|constructor|done| |done].
  apply agree_refl. by rewrite !length_insert.
Qed.

(** C8. Loading a plugin that the validator accepts gives a program which, run without any
    check, behaves exactly as the original program run on a machine that tests every access
    (except those relative to the frame pointer) with [memcheck_ok] and reports a failed one to
    the error function: from the same initial state the one ends with an outcome (value
    returned and memory, or undefined) if and only if the other does.  This holds as long as
    the rewritten program has at most 2^15 instructions, so that the stretched jumps fit their
    16 bits; its recorded length is then exact. *)
Theorem memchecks_implement_policy exts oob code memory_ptr memory_size n0 vm :
  Forall inst_ok code -> exts OOB_CALL = Some oob -> is_u64 memory_ptr -> is_u32 memory_size ->
  memory_ptr <> 0 -> memory_size <> 0 ->
  ubpf_load exts true (Vm None n0) code (8 * Z.of_nat (length code)) memory_ptr memory_size = inr vm ->
  exists insts', vm_insts vm = Some insts' /\
    (Z.of_nat (length insts') <= 2 ^ 15 ->
     vm_num_insts vm = Z.of_nat (length insts') /\
     forall garbage arg stack m o, length garbage = 16%nat ->
       (exists f, run code exts (memcheck_fault oob memory_ptr memory_size) f (initial_state garbage arg stack m) = Some o)
       <-> (exists f, run insts' exts no_fault f (initial_state garbage arg stack m) = Some o)).
Proof.
  intros Hi Hoob Hp Hs Hp0 Hs0 Hload. unfold ubpf_load in Hload. cbn [vm_insts] in Hload.
  rewrite Z.mul_comm, Z.mod_mul, Z.div_mul in Hload by lia. cbn [negb Z.eqb] in Hload.
  destruct (validate exts code) as [|pcs] eqn:Hv; [done|]. cbn [negb] in Hload.
  rewrite (proj2 (Z.eqb_neq _ _) Hp0), (proj2 (Z.eqb_neq _ _) Hs0) in Hload. cbn [negb andb] in Hload.
  simplify_eq. eexists. split; [reflexivity|]. intros Hfit. split.
  - cbn [vm_num_insts]. destruct (validate_spec _ _ _ Hv) as (_ & -> & _).
    unfold rewrite_with_memchecks in *. rewrite length_rewrite_loop in *.
    unfold ADDED_LOAD_STORE_INSTS. rewrite u16_small; lia.
  - intros garbage arg stack m o Hl. pose proof (sim_initial code garbage arg stack m Hl) as Hsim. split; intros [f Hf].
    + eapply run_forward; eauto.
    + eapply run_backward; eauto.
Qed.

(** A plugin that stores through [r1] and reads its stack, and the error function. *)
Definition example_oob : ext_func := fun m a _ _ _ _ => (0, m).
Definition example_table (k : Z) : option ext_func := if k =? OOB_CALL then Some example_oob else None.

Definition example_plugin : list ebpf_inst :=
  [ Inst (opcode_of (OpSt W)) 1 0 4 99;
    Inst (opcode_of (OpJmp JEQ IMM)) 1 0 1 7;
    Inst (opcode_of (OpLdx W)) 0 1 4 0;
    Inst (opcode_of OpExit) 0 0 0 0 ].

Lemma memchecks_implement_policy_witness :
  exists vm, ubpf_load example_table true (Vm None 0) example_plugin 32 65536 4096 = inr vm /\
  exists insts', vm_insts vm = Some insts' /\
    (Z.of_nat (length insts') <= 2 ^ 15 ->
     vm_num_insts vm = Z.of_nat (length insts') /\
     forall garbage arg stack m o, length garbage = 16%nat ->
       (exists f, run example_plugin example_table (memcheck_fault example_oob 65536 4096) f
                    (initial_state garbage arg stack m) = Some o)
       <-> (exists f, run insts' example_table no_fault f (initial_state garbage arg stack m) = Some o)).
Proof.
  eexists. split; [reflexivity|].
  apply (memchecks_implement_policy example_table example_oob example_plugin 65536 4096 0).
  - apply (bool_decide_unpack _). vm_compute. exact I.
  - reflexivity.
  - vm_compute. intuition discriminate.
  - vm_compute. intuition discriminate.
  - discriminate.
  - discriminate.
  - reflexivity.
Defined.

(** The test of the added instructions, for a memory below 2^63 and a stack that does not
    wrap around: an access passes exactly when its first byte is in the memory of the plugin or
    just behind it, or in the stack or just behind it. *)
Theorem memcheck_exact memory_ptr memory_size r base off :
  is_u64 memory_ptr -> is_u32 memory_size -> memory_ptr + memory_size < 2 ^ 63 ->
  STACK_SIZE <= rd r 10 < 2 ^ 64 - STACK_SIZE ->
  let addr := u64 (rd r base + off) in
  memcheck_ok memory_ptr memory_size r base off = true <->
  memory_ptr <= addr <= memory_ptr + memory_size \/ rd r 10 - STACK_SIZE <= addr <= rd r 10.
Proof.
  unfold is_u64, is_u32, memcheck_ok, memory_ptr_top, STACK_SIZE. cbn zeta. intros Hp Hs Hb Hst.
  pose proof (u64_range (rd r base + off)) as Ha. unfold is_u64 in Ha. set (a := u64 (rd r base + off)) in *.
  rewrite (u64_small (memory_ptr + memory_size)) by lia.
  rewrite orb_true_iff, !andb_true_iff, !Z.leb_le.
  assert (Hmem : 0 <= s64 (u64 (memory_ptr + memory_size - a)) /\ u64 (memory_ptr + memory_size - a) <= memory_size
                 <-> memory_ptr <= a <= memory_ptr + memory_size).
  { destruct (Z.le_gt_cases a (memory_ptr + memory_size)).
    - rewrite u64_small by lia. unfold s64. rewrite Z.mod_small by lia. lia.
    - assert (u64 (memory_ptr + memory_size - a) = memory_ptr + memory_size - a + 2 ^ 64) as ->.
      { unfold u64. symmetry. apply (Z.mod_unique _ _ (-1)); lia. }
      unfold s64. split; [|lia]. intros [H1 H2]. exfalso. rewrite Z.mod_small in H1 by lia. lia. }
  rewrite Hmem.
  assert (Hstk : a <= rd r 10 /\ rd r 10 <= u64 (a + 2048) <-> rd r 10 - 2048 <= a <= rd r 10).
  { split; intros [H1 H2].
    - split; [|lia]. rewrite u64_small in H2 by lia. lia.
    - rewrite u64_small by lia. lia. }
  tauto.
Qed.

Lemma memcheck_exact_witness :
  let r := <[10%nat := 2 ^ 20]> (<[1%nat := 65536]> (replicate 16 0)) in
  memcheck_ok 65536 4096 r 1 4096 = true <->
  65536 <= u64 (rd r 1 + 4096) <= 65536 + 4096 \/ rd r 10 - STACK_SIZE <= u64 (rd r 1 + 4096) <= rd r 10.
Proof.
  apply (memcheck_exact 65536 4096 (<[10%nat := 2 ^ 20]> (<[1%nat := 65536]> (replicate 16 0))) 1 4096);
    vm_compute; intuition discriminate.
Defined.

(** A store of eight bytes at the end of the memory, and one at the frame pointer. *)
Definition store_at_end : list ebpf_inst :=
  [ Inst (opcode_of (OpSt DW)) 1 0 0 (-1); Inst (opcode_of OpExit) 0 0 0 0 ].
Definition store_at_frame : list ebpf_inst :=
  [ Inst (opcode_of (OpSt DW)) 10 0 0 (-1); Inst (opcode_of OpExit) 0 0 0 0 ].

Definition final_memory (o : option outcome) : option memory :=
  match o with Some (Return _ m) => Some m | _ => None end.

(** The checks leave out the size of the access.  With the memory of the plugin at
    [65536, 65536 + 4096) a loaded plugin overwrites the eight bytes behind its memory, and the
    validator accepts a store at the frame pointer itself, which overwrites the eight bytes
    above its stack. *)
Theorem memchecks_ignore_size (m : memory) :
  (exists vm insts' m', ubpf_load example_table true (Vm None 0) store_at_end 16 65536 4096 = inr vm /\
     vm_insts vm = Some insts' /\
     final_memory (run insts' example_table no_fault 10 (initial_state (replicate 16 0) (65536 + 4096) (2 ^ 20) m)) = Some m' /\
     forall k, 0 <= k < 8 -> m' (65536 + 4096 + k) = 255) /\
  (exists vm insts' m', ubpf_load example_table true (Vm None 0) store_at_frame 16 65536 4096 = inr vm /\
     vm_insts vm = Some insts' /\
     final_memory (run insts' example_table no_fault 10 (initial_state (replicate 16 0) 65536 (2 ^ 20) m)) = Some m' /\
     forall k, 0 <= k < 8 -> m' (2 ^ 20 + STACK_SIZE + k) = 255).
Proof.
  assert (H8 : forall (P : Z -> Prop), P 0 -> P 1 -> P 2 -> P 3 -> P 4 -> P 5 -> P 6 -> P 7 ->
                 forall k, 0 <= k < 8 -> P k).
  { intros P ? ? ? ? ? ? ? ? k Hk.
    assert (k = 0 \/ k = 1 \/ k = 2 \/ k = 3 \/ k = 4 \/ k = 5 \/ k = 6 \/ k = 7) as Hcases by lia. naive_solver. }
  split; do 3 eexists; (split; [vm_compute; reflexivity|]); (split; [reflexivity|]);
    (split; [vm_compute; reflexivity|]); apply H8; vm_compute; reflexivity.
Qed.

End UbpfRewrite.
