(* ===== verification/Packet.v ===== *)
(** * Packet headers and packet numbers: picoquic/packet.c, sender.c, util.c

    The header of a packet as the sender writes it
    ([picoquic_create_packet_header], [picoquic_update_payload_length]) and as
    the receiver reads it ([picoquic_parse_packet_header]), and the
    reconstruction of 64-bit packet numbers.

    A connection id is the list of its [id_len] bytes.  [bytes] of the parser
    are the bytes from the start of the packet to the end of the buffer that
    holds it; a read behind them gives [None], and [length] is the length of the
    packet as the caller states it.  Connections are found in the tables of the
    context by id or by address ([quic]); the parser only looks at a few fields
    of them. *)
From stdpp Require Import base tactics list numbers.
From Stdlib Require Import ZArith Lia Bool.
From S2P Require Import Prelude IntFormat.
#[local] Open Scope Z_scope.

Module Packet.
Import IntFormat.

Inductive packet_type :=
  | packet_error
  | version_negotiation
  | initial
  | retry
  | handshake
  | zero_rtt_protected
  | one_rtt_protected_phi0
  | one_rtt_protected_phi1.

Inductive packet_context_id := context_application | context_handshake | context_initial.

#[export] Instance packet_type_eq_dec : EqDecision packet_type.
Proof. solve_decision. Defined.
#[export] Instance packet_context_id_eq_dec : EqDecision packet_context_id.
Proof. solve_decision. Defined.

Inductive cnx_state :=
  | client_init | client_init_sent | client_renegotiate | client_retry_received | client_init_resent
  | server_init | server_handshake | client_handshake_start | client_handshake_progress | handshake_failure
  | client_almost_ready | server_almost_ready | client_ready | server_ready
  | disconnecting | closing_received | closing | draining | disconnected.

#[export] Instance cnx_state_eq_dec : EqDecision cnx_state.
Proof. solve_decision. Defined.

Abbreviation connection_id := (list Z).
Abbreviation address := Z.

Definition PICOQUIC_CONNECTION_ID_MAX_SIZE : Z := 20.
Definition PICOQUIC_MAX_PACKET_SIZE : Z := 1350.

(** ** Connection ids: util.c *)

Definition id_len (cnx_id : connection_id) : Z := Z.of_nat (length cnx_id).

(** Returns the bytes written. *)
Definition picoquic_format_connection_id (bytes_max : Z) (cnx_id : connection_id) : list Z :=
  if (bytes_max <? id_len cnx_id) || (id_len cnx_id =? 0) then [] else cnx_id.

(** Returns the number of bytes read and the id; an id that is too long is taken as empty. *)
Definition picoquic_parse_connection_id (bytes : list Z) (len : Z) : option (Z * connection_id) :=
  if len <=? PICOQUIC_CONNECTION_ID_MAX_SIZE then
    if Z.of_nat (length bytes) <? len then None else Some (len, take (Z.to_nat len) bytes)
  else Some (0, []).

Definition picoquic_is_connection_id_null (cnx_id : connection_id) : bool := id_len cnx_id =? 0.

Definition picoquic_compare_connection_id (id1 id2 : connection_id) : bool := bool_decide (id1 = id2).

Definition picoquic_create_packet_header_cnxid_lengths (dest_len srce_len : Z) : Z :=
  let ret := if dest_len <? 4 then 0 else dest_len - 3 in
  Z.lor (u8 (Z.shiftl ret 4)) (if srce_len <? 4 then 0 else srce_len - 3).

Definition picoquic_parse_packet_header_cnxid_lengths (l_byte : Z) : Z * Z :=
  let h1 := Z.shiftr l_byte 4 in
  let h2 := Z.land l_byte 0x0F in
  (if h1 =? 0 then 0 else h1 + 3, if h2 =? 0 then 0 else h2 + 3).

(** [picoquic_val64_connection_id]: the first eight bytes, padded with zeroes. *)
Definition picoquic_val64_connection_id (cnx_id : connection_id) : Z :=
  if id_len cnx_id <? 8 then
    Nat.iter (8 - length cnx_id) (fun v => u64 (Z.shiftl v 8))
      (foldl (fun v b => Z.lor (u64 (Z.shiftl v 8)) b) 0 cnx_id)
  else foldl (fun v b => Z.lor (u64 (Z.shiftl v 8)) b) 0 (take 8 cnx_id).

(** ** Versions: quicctx.c *)

(** The versions of [picoquic_supported_versions]; all have the same encoding. *)
Definition picoquic_supported_versions : list Z := [0x50435130; 0xff00001b].

Fixpoint version_index_loop (l : list Z) (i proposed_version : Z) : Z :=
  match l with
  | [] => -1
  | v :: l' => if v =? proposed_version then i else version_index_loop l' (i + 1) proposed_version
  end.

Definition picoquic_get_version_index (proposed_version : Z) : Z :=
  version_index_loop picoquic_supported_versions 0 proposed_version.

(** ** Connections, as far as headers depend on them *)

Record cnx := Cnx {
  cnx_key : Z;                    (* which connection it is *)
  state_of : cnx_state;
  client_mode : bool;
  cnx_version_index : Z;
  proposed_version : Z;
  initial_cnxid : connection_id;
  local_cnxid : connection_id;    (* of path 0 *)
  remote_cnxid : connection_id;   (* of path 0 *)
  retry_token : list Z;
  current_spin : bool
}.

Record quic := Quic {
  local_ctx_length : Z;
  cnx_by_id : connection_id -> option cnx;
  cnx_by_net : address -> option cnx
}.

(** [picoquic_packet_header] *)
Record packet_header := PH {
  dest_cnx_id : connection_id;
  srce_cnx_id : connection_id;
  pn : Z;
  vn : Z;
  offset : Z;
  pn_offset : Z;
  ptype : packet_type;
  pnmask : Z;
  pn64 : Z;
  payload_length : Z;
  version_index : Z;
  epoch : Z;
  pc : packet_context_id;
  spin : Z;
  has_spin_bit : bool;
  token_length : Z;
  token_offset : Z
}.

(** The structure after [memset] and [version_index = -1], with the fields
    that the parser may have filled when it returns. *)
Definition ph_init : packet_header :=
  PH [] [] 0 0 0 0 packet_error 0 0 0 (-1) 0 context_application 0 false 0 0.

(** ** Parsing a long header *)

(** The bytes 1 to the end of the connection ids: version, ids and the offset
    behind them; [inl] is a packet that is too short. *)
Definition parse_long_ids (bytes : list Z) (len : Z) : option (Z + (Z * connection_id * connection_id * Z)) :=
  vn ← PICOPARSE_32 (drop 1 bytes);
  l_dest_id ← bytes !! 5%nat;
  if len <? 6 + l_dest_id + 1 then Some (inl vn)
  else
    '(n1, dest) ← picoquic_parse_connection_id (drop 6 bytes) l_dest_id;
    let offset := 6 + n1 in
    l_srce_id ← bytes !! Z.to_nat offset;
    let offset := offset + 1 in
    '(n2, srce) ← picoquic_parse_connection_id (drop (Z.to_nat offset) bytes) l_srce_id;
    Some (inr (vn, dest, srce, offset + n2)).

(** The [switch (type)]: type of the packet, context, epoch, and for an initial
    packet its token (length and offset); with the offset behind it. *)
Record long_type := LongType {
  lt_ptype : packet_type;
  lt_pc : packet_context_id;
  lt_epoch : Z;
  lt_offset : Z;
  lt_token_length : Z;
  lt_token_offset : Z
}.

Definition parse_long_type (bytes : list Z) (len type offset : Z) : option long_type :=
  if type =? 0 then
    '(l_tok_len, tok_len) ← picoquic_varint_decode (drop (Z.to_nat offset) bytes) (u32 (len - offset));
    if l_tok_len =? 0 then Some (LongType packet_error context_application 0 len 0 0)
    else Some (LongType initial context_initial 0 (u32 (offset + u32 (u64 (l_tok_len + tok_len))))
                 (u32 tok_len) (u32 (offset + l_tok_len)))
  else if type =? 1 then Some (LongType zero_rtt_protected context_application 1 offset 0 0)
  else if type =? 2 then Some (LongType handshake context_handshake 2 offset 0 0)
  else Some (LongType retry context_initial 0 offset 0 0).

(** The segment length: the number of its bytes, its value and the type, which
    becomes an error when the packet is not complete; [payload_length] is the
    field of the header in that case. *)
Definition parse_long_length (bytes : list Z) (len offset version_index : Z) (t : packet_type)
    : option (Z * Z * packet_type * Z) :=
  if bool_decide (t = retry) then
    if offset <? len then Some (0, u32 (u16 len - offset), retry, 0)
    else Some (0, 0, packet_error, 0)
  else
    '(var_length, payload) ←
      (if offset <? len then picoquic_varint_decode (drop (Z.to_nat offset) bytes) (u32 (len - offset))
       else Some (0, 0));
    if (var_length <=? 0) || (len <? u64 (u32 (offset + var_length) + payload)) || (version_index <? 0)
    then Some (var_length, payload, packet_error, u16 (if offset <? len then len - offset else 0))
    else Some (var_length, payload, t, 0).

(** The lookup of the connection of a long header. *)
Definition find_long_cnx (q : option quic) (addr_from : address) (t : packet_type) (dest : connection_id)
    (pcnx : option cnx) : option cnx :=
  match pcnx, q with
  | None, Some q =>
    match cnx_by_id q dest with
    | Some c => Some c
    | None =>
      match cnx_by_net q addr_from with
      | Some c =>
        match t with
        | initial | zero_rtt_protected => if picoquic_compare_connection_id (initial_cnxid c) dest then Some c else None
        | _ => None
        end
      | None => None
      end
    end
  | _, _ => pcnx
  end.

Definition find_vn_cnx (q : option quic) (addr_from : address) (dest : connection_id) (pcnx : option cnx) : option cnx :=
  match pcnx, q with
  | None, Some q =>
    if 0 <? id_len dest then cnx_by_id q dest
    else match cnx_by_net q addr_from with
         | Some c => if id_len (local_cnxid c) =? 0 then Some c else None
         | None => None
         end
  | _, _ => pcnx
  end.

Definition parse_long_header (q : option quic) (bytes : list Z) (len : Z) (addr_from : address)
    (b0 : Z) (pcnx : option cnx) : option (Z * packet_header * option cnx) :=
  if len <? 7 then Some (-1, ph_init, pcnx)
  else
    ids ← parse_long_ids bytes len;
    match ids with
    | inl vn => Some (-1, PH [] [] 0 vn 0 0 packet_error 0 0 0 (-1) 0 context_application 0 false 0 0, pcnx)
    | inr (vn, dest, srce, offset) =>
      if vn =? 0 then
        let payload := u16 (if offset <? len then len - offset else 0) in
        Some (0, PH dest srce 0 0 offset 0 version_negotiation 0 0 payload (-1) 0 context_initial 0 false 0 0,
              find_vn_cnx q addr_from dest pcnx)
      else
        let vi := picoquic_get_version_index vn in
        lt ← (if 0 <=? vi then parse_long_type bytes len (Z.land (Z.shiftr b0 4) 3) offset
              else Some (LongType packet_error context_application 0 offset 0 0));
        '(var_length, payload, t, err_payload) ← parse_long_length bytes len (lt_offset lt) vi (lt_ptype lt);
        if bool_decide (t = packet_error) then
          Some (0, PH dest srce 0 vn (lt_offset lt) 0 packet_error 0 0 err_payload vi (lt_epoch lt) (lt_pc lt) 0 false
                   (lt_token_length lt) (lt_token_offset lt), pcnx)
        else
          let off := u32 (lt_offset lt + var_length) in
          Some (0, PH dest srce 0 vn off off t 0 0 (u16 payload) vi (lt_epoch lt) (lt_pc lt) 0 false
                   (lt_token_length lt) (lt_token_offset lt),
                find_long_cnx q addr_from t dest pcnx)
    end.

(** ** Parsing a short header *)

Definition find_short_cnx (q : option quic) (addr_from : address) (dest : connection_id) (pcnx : option cnx) : option cnx :=
  match pcnx, q with
  | None, Some q => if 0 <? local_ctx_length q then cnx_by_id q dest else cnx_by_net q addr_from
  | _, _ => pcnx
  end.

Definition parse_short_header (q : option quic) (bytes : list Z) (len : Z) (addr_from : address)
    (b0 : Z) (pcnx : option cnx) (receiving : bool) : option (Z * packet_header * option cnx) :=
  let lcl := match q with Some q => local_ctx_length q | None => 0 end in
  let cnxid_length := match receiving, pcnx with false, Some c => id_len (remote_cnxid c) | _, _ => lcl end in
  if len <? 1 + cnxid_length then
    Some (0, PH [] [] 0 0 len 0 packet_error 0 0 0 (-1) 0 context_application 0 false 0 0, pcnx)
  else
    '(n, dest) ← picoquic_parse_connection_id (drop 1 bytes) cnxid_length;
    let off := u32 (1 + n) in
    match find_short_cnx q addr_from dest pcnx with
    | Some c =>
      let '(ret, payload) := if len <? off then (-1, 0) else (0, u16 (len - off)) in
      Some (ret, PH dest [] 0 0 off off one_rtt_protected_phi0 0 0 payload (cnx_version_index c) 3 context_application
                    (Z.land (Z.shiftr b0 5) 1) true 0 0, Some c)
    | None =>
      Some (0, PH dest [] 0 0 off 0 packet_error 0 0 (u16 (if off <? len then len - off else 0)) (-1) 0
                  context_application 0 false 0 0, None)
    end.

(** Returns the code, the header and the connection. *)
Definition picoquic_parse_packet_header (q : option quic) (bytes : list Z) (len : Z) (addr_from : address)
    (pcnx : option cnx) (receiving : bool) : option (Z * packet_header * option cnx) :=
  b0 ← bytes !! 0%nat;
  if negb (Z.land b0 0x40 =? 0x40) then
    Some (0, PH [] [] 0 0 len 0 packet_error 0 0 0 (-1) 0 context_application 0 false 0 0, pcnx)
  else if Z.land b0 0x80 =? 0x80 then parse_long_header q bytes len addr_from b0 pcnx
  else parse_short_header q bytes len addr_from b0 pcnx receiving.

(** ** Packet numbers *)

Definition picoquic_get_packet_number64 (highest mask pn : Z) : Z :=
  let expected := u64 (highest + 1) in
  let not_mask_plus_one := u64 (Z.lxor mask (2 ^ 64 - 1) + 1) in
  let pn64 := Z.lor (Z.land expected mask) pn in
  if pn64 <? expected then
    let delta1 := u64 (expected - pn64) in
    let delta2 := u64 (not_mask_plus_one - delta1) in
    if delta2 <? delta1 then u64 (pn64 + not_mask_plus_one) else pn64
  else
    let delta1 := u64 (pn64 - expected) in
    let delta2 := u64 (not_mask_plus_one - delta1) in
    if (delta2 <=? delta1) && (0 <? Z.land pn64 mask) then u64 (pn64 - not_mask_plus_one) else pn64.

(** ** Writing a header: sender.c *)

Definition get_destination_connection_id (c : cnx) (t : packet_type) : connection_id :=
  match t with
  | initial | zero_rtt_protected =>
    if picoquic_is_connection_id_null (remote_cnxid c) then initial_cnxid c else remote_cnxid c
  | _ => remote_cnxid c
  end.

Definition long_packet_type (t : packet_type) : Z :=
  match t with
  | retry => 3
  | handshake => 2
  | zero_rtt_protected => 1
  | _ => 0
  end.

Definition is_short (t : packet_type) : bool :=
  match t with one_rtt_protected_phi0 | one_rtt_protected_phi1 => true | _ => false end.

Definition header_version (c : cnx) (t : packet_type) : Z :=
  if (bool_decide (state_of c = client_init) || bool_decide (state_of c = client_init_sent)) && bool_decide (t = initial)
  then proposed_version c
  else nth (Z.to_nat (cnx_version_index c)) picoquic_supported_versions 0.

(** The first byte of a short and of a long header. *)
Definition short_first_byte (c : cnx) (t : packet_type) : Z :=
  let K := if bool_decide (t = one_rtt_protected_phi0) then 0 else 0x4 in
  let spin_bit := if current_spin c then 0x20 else 0 in
  Z.lor (Z.lor (Z.lor 0x40 spin_bit) K) 0x3.

Definition long_first_byte (t : packet_type) : Z :=
  Z.lor (Z.lor 0xC0 (Z.shiftl (Z.land (long_packet_type t) 3) 4)) 0x3.

(** The long header up to the segment length. *)
Definition long_header_prefix (c : cnx) (t : packet_type) (local : connection_id) : list Z :=
  let dest := get_destination_connection_id c t in
  let l0 := [long_first_byte t] ++ picoformat_32 (header_version c t) in
  let l1 := l0 ++ [u8 (id_len dest)] in
  let l2 := l1 ++ picoquic_format_connection_id (PICOQUIC_MAX_PACKET_SIZE - Z.of_nat (length l1)) dest in
  let l3 := l2 ++ [u8 (id_len local)] in
  let l4 := l3 ++ picoquic_format_connection_id (PICOQUIC_MAX_PACKET_SIZE - Z.of_nat (length l3)) local in
  if bool_decide (t = initial) then
    l4 ++ picoquic_varint_encode (PICOQUIC_MAX_PACKET_SIZE - Z.of_nat (length l4)) (Z.of_nat (length (retry_token c)))
       ++ retry_token c
  else l4.

(** Returns the bytes written, [pn_offset] and [pn_length]; [local] is the local
    id of the path. *)
Definition picoquic_create_packet_header (c : cnx) (t : packet_type) (local : connection_id) (sequence_number : Z)
    : list Z * Z * Z :=
  if is_short t then
    let dest := get_destination_connection_id c t in
    let l := [short_first_byte c t] ++ picoquic_format_connection_id (PICOQUIC_MAX_PACKET_SIZE - 1) dest in
    (l ++ picoformat_32 sequence_number, Z.of_nat (length l), 4)
  else
    let l := long_header_prefix c t local in
    if bool_decide (t = retry) then (l, 0, 0)
    else (l ++ [0; 0] ++ picoformat_32 sequence_number, Z.of_nat (length l) + 2, 4).

(** Overwrites the two bytes before the packet number. *)
Definition picoquic_update_payload_length (bytes : list Z) (pnum_index header_length packet_length : Z) : list Z :=
  if negb (Z.land (nth 0 bytes 0) 0x80 =? 0) && (7 <? header_length) && (header_length <? packet_length) &&
     (packet_length <? 0x4000)
  then list_inserts (Z.to_nat (pnum_index - 2)) (picoquic_varint_encode_16 (u16 (packet_length - header_length))) bytes
  else bytes.

Definition predict_packet_header_length (c : cnx) (t : packet_type) : Z :=
  if is_short t then 1 + id_len (remote_cnxid c) + 4
  else
    let dest :=
      match t with
      | initial | zero_rtt_protected =>
        if picoquic_is_connection_id_null (remote_cnxid c) then initial_cnxid c else remote_cnxid c
      | _ => remote_cnxid c
      end in
    1 + 4 + 2 + id_len dest + id_len (local_cnxid c) + 2 + 4 +
    (if bool_decide (t = initial)
     then Z.of_nat (length (picoquic_varint_encode 16 (Z.of_nat (length (retry_token c))))) + Z.of_nat (length (retry_token c))
     else 0).

(** ** Packet numbers *)

(** The mask of a packet number of [n] bits, as the receiver shifts it together. *)
Definition pn_mask (n : Z) : Z := u64 (Z.shiftl (2 ^ 64 - 1) n).

Lemma pn_mask_shape n : 0 <= n <= 64 -> pn_mask n = Z.shiftl (Z.ones (64 - n)) n.
Proof.
  intros Hn. unfold pn_mask, u64. rewrite !Z.shiftl_mul_pow2, Z.ones_equiv by lia. unfold Z.pred.
  assert (E : 2 ^ 64 = 2 ^ n * 2 ^ (64 - n)) by (rewrite <- Z.pow_add_r by lia; f_equal; lia).
  assert (0 < 2 ^ n) by (apply Z.pow_pos_nonneg; lia). assert (0 < 2 ^ (64 - n)) by (apply Z.pow_pos_nonneg; lia).
  symmetry. apply (Z.mod_unique _ _ (2 ^ n - 1)); rewrite E; [left|]; nia.
Qed.

Lemma land_pn_mask e n : 0 <= n <= 64 -> 0 <= e < 2 ^ 64 -> Z.land e (pn_mask n) = e / 2 ^ n * 2 ^ n.
Proof.
  intros Hn He. rewrite pn_mask_shape, <- Z.shiftl_mul_pow2, <- Z.shiftr_div_pow2 by lia.
  bits_ext i Hi. rewrite Z.land_spec, !Z.shiftl_spec by lia.
  destruct (Z.lt_ge_cases i n).
  - rewrite !(Z.testbit_neg_r _ (i - n)) by lia. apply andb_false_r.
  - rewrite Z.shiftr_spec, Z.testbit_ones_nonneg by lia. replace (i - n + n) with i by lia.
    destruct (Z.ltb_spec (i - n) (64 - n)); [apply andb_true_r|].
    rewrite andb_false_r. symmetry. apply Z.testbit_false; [lia|].
    rewrite Z.div_small; [done|]. split; [lia|]. eapply Z.lt_le_trans; [apply He|]. apply Z.pow_le_mono_r; lia.
Qed.

Lemma not_pn_mask n : 0 <= n < 64 -> u64 (Z.lxor (pn_mask n) (2 ^ 64 - 1) + 1) = 2 ^ n.
Proof.
  intros Hn. assert (Z.lxor (pn_mask n) (2 ^ 64 - 1) = Z.ones n) as ->.
  { rewrite pn_mask_shape by lia. replace (2 ^ 64 - 1) with (Z.ones 64) by done.
    bits_ext i Hi. rewrite Z.lxor_spec, Z.shiftl_spec by lia. rewrite (Z.testbit_ones_nonneg 64), (Z.testbit_ones_nonneg n) by lia.
    destruct (Z.lt_ge_cases i n).
    - rewrite (Z.testbit_neg_r _ (i - n)) by lia. case_cmp; simpl; (reflexivity || lia).
    - rewrite (Z.testbit_ones_nonneg (64 - n)) by lia. case_cmp; simpl; (reflexivity || lia). }
  rewrite Z.ones_equiv. assert (0 < 2 ^ n < 2 ^ 64) by (split; [apply Z.pow_pos_nonneg|apply Z.pow_lt_mono_r]; lia).
  rewrite u64_small; lia.
Qed.

(** The candidate: the expected number with its low bits replaced. *)
Lemma pn_candidate e n t : 0 <= n < 64 -> 0 <= e < 2 ^ 64 -> 0 <= t < 2 ^ n ->
  Z.lor (Z.land e (pn_mask n)) t = e / 2 ^ n * 2 ^ n + t.
Proof. intros Hn He Ht. rewrite land_pn_mask by lia. apply lor_add_disjoint; lia. Qed.

Lemma get_packet_number64_spec highest n number :
  1 <= n <= 32 -> 0 <= highest < 2 ^ 62 -> 0 <= number < 2 ^ 62 ->
  highest + 1 - 2 ^ (n - 1) <= number < highest + 1 + 2 ^ (n - 1) ->
  picoquic_get_packet_number64 highest (pn_mask n) (number mod 2 ^ n) = number.
Proof.
  intros Hn Hh Hnum Hwin. unfold picoquic_get_packet_number64. cbn zeta.
  rewrite not_pn_mask, (u64_small (highest + 1)) by lia. set (e := highest + 1) in *.
  assert (H2 : 2 ^ n = 2 * 2 ^ (n - 1)) by (rewrite <- Z.pow_succ_r by lia; f_equal; lia).
  assert (0 < 2 ^ (n - 1) <= 2 ^ 31) by (split; [apply Z.pow_pos_nonneg|apply Z.pow_le_mono_r]; lia).
  pose proof (Z.mod_pos_bound number (2 ^ n) ltac:(lia)) as Ht. rewrite pn_candidate by lia.
  pose proof (Z.div_mod number (2 ^ n) ltac:(lia)) as Dn. pose proof (Z.div_mod e (2 ^ n) ltac:(lia)) as De.
  pose proof (Z.mod_pos_bound e (2 ^ n) ltac:(lia)) as Hem.
  assert (0 <= e / 2 ^ n) by (apply Z.div_pos; lia). assert (0 <= number / 2 ^ n) by (apply Z.div_pos; lia).
  assert (Hland : Z.land (e / 2 ^ n * 2 ^ n + number mod 2 ^ n) (pn_mask n) = e / 2 ^ n * 2 ^ n).
  { rewrite land_pn_mask by nia.
    rewrite Z.div_add_l, (Z.div_small (number mod 2 ^ n)) by lia. lia. }
  rewrite Hland. clear Hland.
  set (M := 2 ^ n) in *. set (h := 2 ^ (n - 1)) in *. set (a := e / M) in *. set (b := number / M) in *.
  set (t := number mod M) in *. set (r := e mod M) in *.
  assert (Hb : b = a \/ b = a + 1 \/ b = a - 1) by nia.
  assert (HA : number = a * M + t \/ number = a * M + M + t \/ number = a * M - M + t)
    by (destruct Hb as [->|[->| ->]]; [left|right; left|right; right]; rewrite Dn; ring).
  assert (HA0 : a * M = 0 \/ M <= a * M) by (destruct (Z.eq_dec a 0) as [->|]; [left; ring|right; nia]).
  replace (M * a) with (a * M) in De by ring. set (A := a * M) in *. clearbody A.
  clear Dn Hb. clearbody t r M h a b.
  destruct (Z.ltb_spec (A + t) e) as [Hc|Hc].
  - rewrite (u64_small (e - _)) by lia. rewrite u64_small by lia.
    destruct (Z.ltb_spec (M - (e - (A + t))) (e - (A + t))); [rewrite u64_small by lia|]; lia.
  - rewrite (u64_small (A + t - e)) by lia. rewrite u64_small by lia.
    destruct (Z.leb_spec (M - (A + t - e)) (A + t - e)); cbn [andb]; [|lia].
    destruct (Z.ltb_spec 0 A); [rewrite u64_small by lia|]; lia.
Qed.

(** ** Headers that were written *)

Lemma picoformat_32_digits n : picoformat_32 n = be_digits 4 n.
Proof. cbn [be_digits]. change (8 * Z.of_nat 0) with 0. rewrite !Z.shiftr_0_r. done. Qed.

Lemma parse_picoformat_32 n rest : 0 <= n < 2 ^ 32 -> PICOPARSE_32 (picoformat_32 n ++ rest) = Some n.
Proof.
  intros Hn. rewrite picoformat_32_digits, PICOPARSE_32_be by (apply be_digits_u8 || apply length_be_digits).
  rewrite be_decode_digits. f_equal. change (8 * Z.of_nat 4) with 32. rewrite Z.mod_small by lia. lia.
Qed.

Lemma decode_varint_16 n rest max_bytes :
  0 <= n < 2 ^ 14 -> 2 <= max_bytes ->
  picoquic_varint_decode (picoquic_varint_encode_16 n ++ rest) max_bytes = Some (2, n).
Proof.
  intros Hn Hm. unfold picoquic_varint_encode_16. rewrite Z.shiftr_div_pow2 by lia.
  assert (0 <= n / 2 ^ 8 < 64) by (split; [apply Z.div_pos; lia|apply Z.div_lt_upper_bound; lia]).
  destruct (prefix_byte 1 (n / 2 ^ 8)) as (Hb & _ & _); [lia|lia|].
  assert (u8 (Z.land (Z.lor (n / 2 ^ 8) 64) 127) = 64 * 1 + (n / 2 ^ 8) mod 64) as ->.
  { rewrite Z.mod_small by lia. rewrite <- Hb. change (64 * 1) with 64. unfold u8.
    assert (Hl : 0 <= Z.lor (n / 2 ^ 8) 64 < 2 ^ 7).
    { split; [apply Z.lor_nonneg; lia|]. rewrite Z.lor_comm. change 64 with (1 * 2 ^ 6). rewrite lor_add_disjoint by lia. lia. }
    change 127 with (2 ^ 7 - 1). rewrite land_ones_mod by lia. rewrite (Z.mod_small _ (2 ^ 7)) by lia. done. }
  pose proof (decode_shape 1 n rest max_bytes 1 ltac:(lia) eq_refl ltac:(lia)) as Hd.
  change (8 * Z.of_nat 1) with 8 in Hd. cbn [be_digits app] in Hd. change (8 * Z.of_nat 0) with 0 in Hd.
  rewrite Z.shiftr_0_r in Hd. cbn [app]. rewrite Hd. change (8 * 2 ^ 1 - 2) with 14. rewrite Z.mod_small by lia. done.
Qed.

(** The connection ids and other fields of a connection are as the structures hold them. *)
Definition id_ok (i : connection_id) : Prop := id_len i <= PICOQUIC_CONNECTION_ID_MAX_SIZE /\ Forall is_u8 i.

Definition cnx_ok (c : cnx) : Prop :=
  id_ok (initial_cnxid c) /\ id_ok (local_cnxid c) /\ id_ok (remote_cnxid c) /\
  0 <= cnx_version_index c < Z.of_nat (length picoquic_supported_versions) /\
  0 < proposed_version c < 2 ^ 32 /\
  Forall is_u8 (retry_token c) /\ (length (retry_token c) <= 1000)%nat.

Lemma format_id n i : id_ok i -> 20 <= n -> picoquic_format_connection_id n i = i.
Proof.
  intros [Hl _] Hn. unfold picoquic_format_connection_id, id_len, PICOQUIC_CONNECTION_ID_MAX_SIZE in *.
  destruct (Z.ltb_spec n (Z.of_nat (length i))); [lia|]. destruct (Z.eqb_spec (Z.of_nat (length i)) 0); [|done].
  by destruct i.
Qed.

Lemma parse_id i rest : id_ok i -> picoquic_parse_connection_id (i ++ rest) (id_len i) = Some (id_len i, i).
Proof.
  intros [Hl _]. unfold picoquic_parse_connection_id, id_len in *.
  destruct (Z.leb_spec (Z.of_nat (length i)) PICOQUIC_CONNECTION_ID_MAX_SIZE); [|lia].
  rewrite length_app. destruct (Z.ltb_spec (Z.of_nat (length i + length rest)) (Z.of_nat (length i))); [lia|].
  by rewrite Nat2Z.id, take_app_length.
Qed.

Lemma destination_ok c t : cnx_ok c -> id_ok (get_destination_connection_id c t).
Proof. intros (? & ? & ? & _). destruct t; simpl; try done; by destruct (picoquic_is_connection_id_null _). Qed.

Lemma header_version_range c t : cnx_ok c -> 0 < header_version c t < 2 ^ 32.
Proof.
  intros (_ & _ & _ & Hv & Hp & _). unfold header_version. destruct (_ && _); [done|].
  unfold picoquic_supported_versions in *. cbn [length] in Hv.
  assert (cnx_version_index c = 0 \/ cnx_version_index c = 1) as [-> | ->] by lia; vm_compute; done.
Qed.

(** The part of a long header before the token and the segment length. *)
Definition long_ids (b0 : Z) (c : cnx) (t : packet_type) (local : connection_id) : list Z :=
  let dest := get_destination_connection_id c t in
  [b0] ++ picoformat_32 (header_version c t) ++ [id_len dest] ++ dest ++ [id_len local] ++ local.

Definition token_bytes (c : cnx) (t : packet_type) : list Z :=
  if bool_decide (t = initial)
  then picoquic_varint_encode 1300 (Z.of_nat (length (retry_token c))) ++ retry_token c else [].

Lemma varint_encode_room m m' n : 8 <= m -> 8 <= m' -> picoquic_varint_encode m n = picoquic_varint_encode m' n.
Proof. intros. unfold picoquic_varint_encode. case_cmp; done || lia. Qed.

Lemma long_header_prefix_shape c t local :
  cnx_ok c -> id_ok local -> long_header_prefix c t local = long_ids (long_first_byte t) c t local ++ token_bytes c t.
Proof.
  intros Hc Hl. pose proof (destination_ok c t Hc) as Hd. unfold long_header_prefix, long_ids, token_bytes.
  set (dest := get_destination_connection_id c t) in *.
  assert (Hdl : u8 (id_len dest) = id_len dest).
  { apply u8_small. destruct Hd as [Hd _]. unfold PICOQUIC_CONNECTION_ID_MAX_SIZE, id_len in *. lia. }
  assert (Hll : u8 (id_len local) = id_len local).
  { apply u8_small. destruct Hl as [Hl' _]. unfold PICOQUIC_CONNECTION_ID_MAX_SIZE, id_len in *. lia. }
  rewrite Hdl, Hll. rewrite (format_id _ dest); [|done|simpl; unfold PICOQUIC_MAX_PACKET_SIZE; lia].
  destruct Hd as [Hd _], Hl as [Hl' Hlb]. unfold PICOQUIC_CONNECTION_ID_MAX_SIZE, id_len in Hd, Hl'.
  rewrite (format_id _ local); [|by split|simpl; rewrite !length_app; simpl; unfold PICOQUIC_MAX_PACKET_SIZE; lia].
  destruct (bool_decide (t = initial)).
  - rewrite (varint_encode_room _ 1300); [by rewrite <- !app_assoc| |lia].
    simpl. rewrite !length_app. simpl. unfold PICOQUIC_MAX_PACKET_SIZE. lia.
  - by rewrite <- !app_assoc, app_nil_r.
Qed.

Lemma parse_long_ids_written b0 c t local rest len :
  cnx_ok c -> id_ok local -> 7 + id_len (get_destination_connection_id c t) <= len ->
  parse_long_ids (long_ids b0 c t local ++ rest) len =
  Some (inr (header_version c t, get_destination_connection_id c t, local, Z.of_nat (length (long_ids b0 c t local)))).
Proof.
  intros Hc Hl Hlen. pose proof (destination_ok c t Hc) as Hd. pose proof (header_version_range c t Hc) as Hv.
  unfold long_ids in *. set (dest := get_destination_connection_id c t) in *. set (v := header_version c t) in *.
  unfold parse_long_ids. rewrite <- !app_assoc. cbn [app drop]. rewrite drop_0.
  rewrite parse_picoformat_32 by lia. cbn [mbind option_bind].
  change (picoformat_32 v ++ id_len dest :: dest ++ id_len local :: local ++ rest) with
    ([u8 (Z.shiftr v 24); u8 (Z.shiftr v 16); u8 (Z.shiftr v 8); u8 v] ++ id_len dest :: dest ++ id_len local :: local ++ rest).
  cbn [app]. change (_ !! 5%nat) with (Some (id_len dest)). cbn [mbind option_bind].
  destruct (Z.ltb_spec len (6 + id_len dest + 1)); [lia|].
  cbn [drop]. rewrite drop_0, parse_id by done. cbn [mbind option_bind].
  replace (Z.to_nat (6 + id_len dest)) with (6 + length dest)%nat by (unfold id_len; lia).
  cbn [Nat.add]. do 6 (rewrite lookup_cons_ne_0 by done; cbn [Nat.pred]).
  rewrite list_lookup_middle by done. cbn [mbind option_bind].
  assert (Hdrop : forall x y, drop (Z.to_nat (6 + id_len dest + 1))
            (b0 :: u8 (Z.shiftr v 24) :: u8 (Z.shiftr v 16) :: u8 (Z.shiftr v 8) :: u8 v ::
             id_len dest :: dest ++ x :: y) = y).
  { intros x y. replace (Z.to_nat (6 + id_len dest + 1)) with (S (S (S (S (S (S (length dest + 1))))))) by (unfold id_len; lia).
    cbn [drop]. by rewrite <- drop_drop, drop_app_length. }
  rewrite Hdrop, parse_id by done. cbn [mbind option_bind]. do 3 f_equal.
  cbn [length]. repeat (rewrite length_app; cbn [length]). unfold id_len. cbn [picoformat_32 length]. lia.
Qed.

(** The header of a packet that is [packet_length] bytes long once protected. *)
Definition finished_header (c : cnx) (t : packet_type) (local : connection_id) (sequence_number packet_length : Z) : list Z :=
  let '(h, pn_off, pn_len) := picoquic_create_packet_header c t local sequence_number in
  picoquic_update_payload_length h pn_off (Z.of_nat (length h) - pn_len) packet_length.

Definition is_long_protected (t : packet_type) : bool :=
  match t with initial | zero_rtt_protected | handshake => true | _ => false end.

Definition prefix_length (c : cnx) (t : packet_type) (local : connection_id) : Z :=
  Z.of_nat (length (long_ids 0 c t local ++ token_bytes c t)).

Lemma header_prefix_length_pos c t local : 7 <= prefix_length c t local.
Proof.
  unfold prefix_length, long_ids. rewrite !length_app. cbn [length picoformat_32]. lia.
Qed.

Lemma length_prefix b0 c t local :
  Z.of_nat (length (long_ids b0 c t local)) + Z.of_nat (length (token_bytes c t)) = prefix_length c t local.
Proof. unfold prefix_length. rewrite length_app. unfold long_ids. cbn [app length]. lia. Qed.

Lemma finished_long_header c t local sequence_number packet_length :
  cnx_ok c -> id_ok local -> is_long_protected t = true ->
  prefix_length c t local + 2 < packet_length < 0x4000 ->
  finished_header c t local sequence_number packet_length =
  long_ids (long_first_byte t) c t local ++ token_bytes c t ++
  picoquic_varint_encode_16 (packet_length - (prefix_length c t local + 2)) ++ picoformat_32 sequence_number.
Proof.
  intros Hc Hl Ht Hp. pose proof (header_prefix_length_pos c t local) as Hpos.
  unfold finished_header, picoquic_create_packet_header.
  rewrite long_header_prefix_shape by done. pose proof (length_prefix (long_first_byte t) c t local) as Hlp.
  rewrite <- Nat2Z.inj_add, <- length_app in Hlp.
  assert (is_short t = false) as -> by (by destruct t). rewrite bool_decide_false by (by destruct t).
  set (pre := long_ids (long_first_byte t) c t local ++ token_bytes c t) in *.
  unfold picoquic_update_payload_length.
  assert (nth 0 (pre ++ [0; 0] ++ picoformat_32 sequence_number) 0 = long_first_byte t) as -> by reflexivity.
  assert ((Z.land (long_first_byte t) 0x80 =? 0) = false) as -> by (by destruct t).
  assert (Z.of_nat (length (pre ++ [0; 0] ++ picoformat_32 sequence_number)) - 4 = prefix_length c t local + 2) as ->
    by (rewrite (length_app pre); cbn [app length picoformat_32]; lia).
  destruct (Z.ltb_spec 7 (prefix_length c t local + 2)); [|lia].
  destruct (Z.ltb_spec (prefix_length c t local + 2) packet_length); [|lia].
  destruct (Z.ltb_spec packet_length 0x4000); [|lia]. cbn [negb andb].
  replace (Z.to_nat (Z.of_nat (length pre) + 2 - 2)) with (length pre) by lia.
  rewrite (u16_small (packet_length - _)) by lia. unfold picoquic_varint_encode_16.
  cbn [list_inserts]. rewrite insert_app_r_alt by lia.
  rewrite insert_app_r_alt by lia. replace (S (length _) - length _)%nat with 1%nat by lia. rewrite Nat.sub_diag.
  unfold pre. cbn [app]. by rewrite <- app_assoc.
Qed.

Definition context_of (t : packet_type) : packet_context_id :=
  match t with
  | initial | retry | version_negotiation => context_initial
  | handshake => context_handshake
  | _ => context_application
  end.

Definition epoch_of (t : packet_type) : Z :=
  match t with
  | zero_rtt_protected => 1
  | handshake => 2
  | one_rtt_protected_phi0 | one_rtt_protected_phi1 => 3
  | _ => 0
  end.

(** The bits of the first byte that the parser reads before header protection is removed. *)
Lemma long_first_bits b0 t : is_u8 b0 -> is_long_protected t = true ->
  Z.shiftr b0 4 = Z.shiftr (long_first_byte t) 4 ->
  Z.land b0 0x40 = 0x40 /\ Z.land b0 0x80 = 0x80 /\ Z.land (Z.shiftr b0 4) 3 = long_packet_type t.
Proof.
  intros Hb Ht Hs.
  assert (H : (if Z.shiftr b0 4 =? Z.shiftr (long_first_byte t) 4
               then (Z.land b0 0x40 =? 0x40) && (Z.land b0 0x80 =? 0x80) && (Z.land (Z.shiftr b0 4) 3 =? long_packet_type t)
               else true) = true).
  { destruct t; try done;
      match goal with |- context [long_first_byte ?x] =>
        apply (forall_bytes (fun b0 => if Z.shiftr b0 4 =? Z.shiftr (long_first_byte x) 4
          then (Z.land b0 0x40 =? 0x40) && (Z.land b0 0x80 =? 0x80) && (Z.land (Z.shiftr b0 4) 3 =? long_packet_type x)
          else true)) end; [vm_compute; reflexivity|done|vm_compute; reflexivity|done|vm_compute; reflexivity|done]. }
  rewrite Hs, Z.eqb_refl in H. reflect_cmp. rewrite Hs. done.
Qed.

(** The type and the token of a long header that was written. *)
Lemma parse_long_type_written b0 c t local rest len :
  cnx_ok c -> is_long_protected t = true -> prefix_length c t local + 2 < len < 2 ^ 32 ->
  parse_long_type (long_ids b0 c t local ++ token_bytes c t ++ rest) len (long_packet_type t)
    (Z.of_nat (length (long_ids b0 c t local))) =
  let tl := Z.of_nat (length (retry_token c)) in
  Some (LongType t (context_of t) (epoch_of t) (prefix_length c t local)
          (if bool_decide (t = initial) then tl else 0)
          (if bool_decide (t = initial) then prefix_length c t local - tl else 0)).
Proof.
  intros Hc Ht Hlen. pose proof (header_prefix_length_pos c t local). pose proof (length_prefix b0 c t local) as Hids.
  set (tl := Z.of_nat (length (retry_token c))). set (n0 := Z.of_nat (length (long_ids b0 c t local))) in *.
  unfold token_bytes in *. destruct t; try done; unfold parse_long_type.
  - change (long_packet_type initial =? 0) with true. cbn [mbind option_bind].
    rewrite ?bool_decide_true in * by done.
    assert (Z.to_nat n0 = length (long_ids b0 c initial local)) as -> by (unfold n0; lia).
    rewrite drop_app_length, <- app_assoc. destruct Hc as (_ & _ & _ & _ & _ & _ & Htok). rewrite length_app in Hids.
    destruct (varint_encode_decode tl 1300 (u32 (len - n0)) (retry_token c ++ rest)) as (Hel & _ & Hdec & _).
    { unfold tl. lia. } { unfold picoquic_varint_len, tl. case_cmp; lia. }
    { rewrite u32_small by lia. unfold picoquic_varint_len, tl. case_cmp; lia. }
    fold tl. fold tl in Hids. rewrite Hdec. cbn [mbind option_bind].
    assert (Hvl : 1 <= picoquic_varint_len tl <= 8) by (unfold picoquic_varint_len, tl; case_cmp; lia).
    destruct (Z.eqb_spec (picoquic_varint_len tl) 0); [lia|].
    rewrite (u64_small (_ + tl)), (u32_small (_ + tl)), !u32_small by lia. do 2 f_equal; lia.
  - simpl in Hids. simpl. do 2 f_equal. lia.
  - simpl in Hids. simpl. do 2 f_equal. lia.
Qed.

(** A long header is read back as it was written, with anything behind it and
    whatever header protection does to the low bits of its first byte. *)
Lemma parse_long_written b0 c t local plen rest q len addr_from pcnx receiving :
  cnx_ok c -> id_ok local -> is_long_protected t = true ->
  is_u8 b0 -> Z.shiftr b0 4 = Z.shiftr (long_first_byte t) 4 ->
  0 <= picoquic_get_version_index (header_version c t) ->
  0 < plen < 2 ^ 14 -> prefix_length c t local + 2 + plen <= len < 2 ^ 32 ->
  exists ph, picoquic_parse_packet_header q
      (long_ids b0 c t local ++ token_bytes c t ++ picoquic_varint_encode_16 plen ++ rest) len addr_from pcnx receiving
    = Some (0, ph, find_long_cnx q addr_from t (get_destination_connection_id c t) pcnx) /\
    dest_cnx_id ph = get_destination_connection_id c t /\ srce_cnx_id ph = local /\
    vn ph = header_version c t /\ ptype ph = t /\ pc ph = context_of t /\ epoch ph = epoch_of t /\
    offset ph = prefix_length c t local + 2 /\ pn_offset ph = offset ph /\ payload_length ph = plen /\
    (t = initial -> token_length ph = Z.of_nat (length (retry_token c)) /\
       token_offset ph + token_length ph = prefix_length c t local).
Proof.
  intros Hc Hl Ht Hb Hb4 Hvi Hp Hlen. pose proof (header_prefix_length_pos c t local) as Hpos.
  set (rest1 := picoquic_varint_encode_16 _ ++ rest). pose proof (header_version_range c t Hc) as Hv.
  pose proof (length_prefix b0 c t local) as Hids. destruct (long_first_bits b0 t Hb Ht Hb4) as (H40 & H80 & Htype).
  unfold picoquic_parse_packet_header.
  assert ((long_ids b0 c t local ++ token_bytes c t ++ rest1) !! 0%nat = Some b0) as -> by reflexivity.
  cbn [mbind option_bind]. rewrite H40, H80. cbn [Z.eqb Pos.eqb negb].
  unfold parse_long_header. destruct (Z.ltb_spec len 7); [lia|].
  rewrite parse_long_ids_written; [|done|done|].
  2:{ unfold long_ids in Hids. rewrite !length_app in Hids. cbn [length picoformat_32] in Hids. unfold id_len. lia. }
  cbn [mbind option_bind]. destruct (Z.eqb_spec (header_version c t) 0); [lia|].
  destruct (Z.leb_spec 0 (picoquic_get_version_index (header_version c t))); [|lia].
  rewrite Htype, parse_long_type_written by (done || lia).
  cbn [mbind option_bind lt_offset lt_ptype lt_pc lt_epoch lt_token_length lt_token_offset].
  unfold parse_long_length. rewrite (bool_decide_false (t = retry)) by (by destruct t).
  destruct (Z.ltb_spec (prefix_length c t local) len); [|lia].
  assert (drop (Z.to_nat (prefix_length c t local)) (long_ids b0 c t local ++ token_bytes c t ++ rest1) = rest1) as ->.
  { rewrite <- Hids, app_assoc. replace (Z.to_nat _) with (length (long_ids b0 c t local ++ token_bytes c t))
      by (rewrite length_app; lia). apply drop_app_length. }
  unfold rest1 at 1. rewrite decode_varint_16 by (try rewrite u32_small; lia). cbn [mbind option_bind].
  change (2 <=? 0) with false. rewrite (u32_small (_ + 2)) by lia. rewrite u64_small by lia.
  destruct (Z.ltb_spec len (prefix_length c t local + 2 + plen)); [lia|].
  destruct (Z.ltb_spec (picoquic_get_version_index (header_version c t)) 0); [lia|]. cbn [orb mbind option_bind].
  rewrite (bool_decide_false (t = packet_error)) by (by destruct t). eexists. split; [reflexivity|]. cbn.
  rewrite u32_small, u16_small by lia. split_and!; try done.
  intros ->. cbn. rewrite ?bool_decide_true by done. lia.
Qed.

(** The same for a short header: the connection id has the length that this side gives to its ids. *)
Lemma finished_short_header c t local sequence_number packet_length :
  cnx_ok c -> is_short t = true ->
  finished_header c t local sequence_number packet_length =
  short_first_byte c t :: remote_cnxid c ++ picoformat_32 sequence_number.
Proof.
  intros Hc Ht. pose proof Hc as (_ & _ & Hr & _). unfold finished_header, picoquic_create_packet_header. rewrite Ht.
  assert (get_destination_connection_id c t = remote_cnxid c) as -> by (by destruct t).
  rewrite (format_id _ (remote_cnxid c)) by (done || (unfold PICOQUIC_MAX_PACKET_SIZE; lia)).
  unfold picoquic_update_payload_length.
  change (nth 0 ((_ ++ _) ++ _) 0) with (short_first_byte c t).
  assert ((Z.land (short_first_byte c t) 0x80 =? 0) = true) as ->
    by (unfold short_first_byte; destruct t; try done; by destruct (current_spin c)).
  done.
Qed.

Lemma short_first_bits b0 c t : is_u8 b0 -> is_short t = true ->
  Z.shiftr b0 5 = Z.shiftr (short_first_byte c t) 5 ->
  Z.land b0 0x40 = 0x40 /\ Z.land b0 0x80 = 0 /\
  Z.land (Z.shiftr b0 5) 1 = if current_spin c then 1 else 0.
Proof.
  intros Hb Ht Hs.
  assert (Hsb : Z.shiftr (short_first_byte c t) 5 = if current_spin c then 3 else 2)
    by (unfold short_first_byte; destruct t; try done; by destruct (current_spin c)).
  rewrite Hsb in Hs.
  assert (H : (if (Z.shiftr b0 5 =? 3) || (Z.shiftr b0 5 =? 2)
               then (Z.land b0 0x40 =? 0x40) && (Z.land b0 0x80 =? 0) && (Z.land (Z.shiftr b0 5) 1 =? Z.shiftr b0 5 - 2)
               else true) = true).
  { apply (forall_bytes (fun b0 => if (Z.shiftr b0 5 =? 3) || (Z.shiftr b0 5 =? 2)
      then (Z.land b0 0x40 =? 0x40) && (Z.land b0 0x80 =? 0) && (Z.land (Z.shiftr b0 5) 1 =? Z.shiftr b0 5 - 2)
      else true)); [vm_compute; reflexivity|done]. }
  rewrite Hs in *. destruct (current_spin c); cbn in H; reflect_cmp; done.
Qed.

Lemma parse_short_written b0 c t rest q len addr_from c' :
  cnx_ok c -> is_short t = true -> is_u8 b0 -> Z.shiftr b0 5 = Z.shiftr (short_first_byte c t) 5 ->
  local_ctx_length q = id_len (remote_cnxid c) ->
  find_short_cnx (Some q) addr_from (remote_cnxid c) None = Some c' ->
  1 + id_len (remote_cnxid c) <= len < 2 ^ 16 ->
  exists ph, picoquic_parse_packet_header (Some q) (b0 :: remote_cnxid c ++ rest) len addr_from None true
    = Some (0, ph, Some c') /\
    dest_cnx_id ph = remote_cnxid c /\ ptype ph = one_rtt_protected_phi0 /\ pc ph = context_application /\ epoch ph = 3 /\
    offset ph = 1 + id_len (remote_cnxid c) /\ pn_offset ph = offset ph /\
    payload_length ph = len - offset ph /\ spin ph = (if current_spin c then 1 else 0).
Proof.
  intros Hc Ht Hb Hb5 Hq Hf Hlen. destruct (short_first_bits b0 c t Hb Ht Hb5) as (H40 & H80 & Hspin).
  pose proof Hc as (_ & _ & Hr & _). pose proof Hr as [Hr' _]. unfold PICOQUIC_CONNECTION_ID_MAX_SIZE in Hr'.
  assert (0 <= id_len (remote_cnxid c)) by (unfold id_len; lia).
  unfold picoquic_parse_packet_header. cbn [lookup list_lookup mbind option_bind]. rewrite H40, H80. cbn [Z.eqb Pos.eqb negb].
  unfold parse_short_header. rewrite Hq. destruct (Z.ltb_spec len (1 + id_len (remote_cnxid c))); [lia|].
  cbn [drop]. rewrite drop_0, parse_id by done. cbn [mbind option_bind]. rewrite Hf, (u32_small (1 + _)) by lia.
  destruct (Z.ltb_spec len (1 + id_len (remote_cnxid c))); [lia|]. eexists. split; [reflexivity|]. cbn.
  rewrite u16_small by lia. done.
Qed.

(** ** What headers guarantee *)

(** The length of a header before the packet number, both for long and for short headers. *)
Definition header_size (c : cnx) (t : packet_type) (local : connection_id) : Z :=
  if is_short t then 1 + id_len (remote_cnxid c) else prefix_length c t local + 2.

Lemma header_size_pos c t local : 1 <= header_size c t local.
Proof. unfold header_size, id_len. pose proof (header_prefix_length_pos c t local). destruct (is_short t); lia. Qed.

Definition is_protected (t : packet_type) : bool := is_short t || is_long_protected t.

(** Packet numbers: the receiver, who sees the [k] low bytes of the number
    of a packet and has received numbers up to [highest], computes the number
    that was sent, for every number in the window of [2 ^ (8 k)] numbers around
    the next expected one. *)
Theorem packet_number_recovered highest k number :
  1 <= k <= 4 -> 0 <= highest < 2 ^ 62 -> 0 <= number < 2 ^ 62 ->
  highest + 1 - 2 ^ (8 * k - 1) <= number < highest + 1 + 2 ^ (8 * k - 1) ->
  picoquic_get_packet_number64 highest (pn_mask (8 * k)) (number mod 2 ^ (8 * k)) = number.
Proof. intros. apply get_packet_number64_spec; lia. Qed.

Lemma packet_number_recovered_witness :
  picoquic_get_packet_number64 0xa82f30ea (pn_mask (8 * 2)) (0xa82f9b32 mod 2 ^ (8 * 2)) = 0xa82f9b32.
Proof. apply packet_number_recovered; lia. Defined.

(** The reader of a long header stays inside the packet. *)
Lemma parse_long_length_bound bytes len off vi t n p t' e :
  parse_long_length bytes len off vi t = Some (n, p, t', e) -> Forall is_u8 bytes -> t' <> packet_error ->
  0 <= off < 2 ^ 32 -> 0 <= len < 2 ^ 16 ->
  t' = t /\ 0 <= n <= 8 /\ 0 <= p /\ off + n + p <= len /\ (0 < n \/ t = retry).
Proof.
  unfold parse_long_length. intros H Hb Ht Hoff Hlen. case_bool_decide as Hr.
  - destruct (Z.ltb_spec off len); injection H as <- <- <- <-; [|done].
    rewrite (u16_small len), u32_small by lia. split_and!; (lia || auto).
  - destruct (Z.ltb_spec off len) as [Hl|Hl].
    + destruct (picoquic_varint_decode _ _) as [[n' p']|] eqn:Hd; [|done]. cbn [mbind option_bind] in H.
      destruct (_ || _ || _) eqn:Hc in H; injection H as <- <- <- <-; [done|].
      apply orb_false_elim in Hc as [Hc _]. apply orb_false_elim in Hc as [Hn Hc]. reflect_cmp.
      apply decode_range in Hd; [|by apply Forall_drop].
      rewrite (u32_small (off + n')) in Hc by lia. rewrite u64_small in Hc by lia. split_and!; (lia || done).
    + cbn [mbind option_bind] in H. change (0 <=? 0) with true in H. cbn [orb] in H. injection H as <- <- <- <-. done.
Qed.

Lemma parse_id_length bytes n m i :
  picoquic_parse_connection_id bytes n = Some (m, i) -> 0 <= n -> 0 <= m <= 20.
Proof.
  unfold picoquic_parse_connection_id, PICOQUIC_CONNECTION_ID_MAX_SIZE.
  destruct (Z.leb_spec n 20); [destruct (Z.ltb_spec (Z.of_nat (length bytes)) n)|]; intros [=]; lia.
Qed.

Lemma parse_long_ids_range bytes len v dest srce off :
  parse_long_ids bytes len = Some (inr (v, dest, srce, off)) -> Forall is_u8 bytes -> 7 <= off <= 47.
Proof.
  intros H Hb. unfold parse_long_ids in H.
  destruct (PICOPARSE_32 _); [|done]. cbn [mbind option_bind] in H.
  destruct (bytes !! 5%nat) as [l1|] eqn:H5; [|done]. cbn [mbind option_bind] in H.
  destruct (len <? _); [done|].
  destruct (picoquic_parse_connection_id _ l1) as [[n1 d]|] eqn:E1; [|done]. cbn [mbind option_bind] in H.
  destruct (bytes !! Z.to_nat (6 + n1)) as [l2|] eqn:H6; [|done]. cbn [mbind option_bind] in H.
  destruct (picoquic_parse_connection_id _ l2) as [[n2 s]|] eqn:E2; [|done]. cbn [mbind option_bind] in H.
  injection H as _ _ _ <-. rewrite list.Forall_forall in Hb.
  pose proof (Hb _ (list_elem_of_lookup_2 _ _ _ H5)) as Hb5. pose proof (Hb _ (list_elem_of_lookup_2 _ _ _ H6)) as Hb6.
  unfold is_u8 in *. apply parse_id_length in E1; [|lia]. apply parse_id_length in E2; [|lia]. lia.
Qed.

Lemma parse_long_type_range bytes len type off lt :
  parse_long_type bytes len type off = Some lt -> 0 <= off <= 47 -> 0 <= len < 2 ^ 16 ->
  0 <= lt_offset lt < 2 ^ 32 /\ (lt_ptype lt = retry -> lt_offset lt = off).
Proof.
  intros H Ho Hl. unfold parse_long_type in H.
  destruct (type =? 0); [|destruct (type =? 1); [|destruct (type =? 2)]];
    try (injection H as <-; cbn; split; [lia|done]).
  destruct (picoquic_varint_decode _ _) as [[n v]|]; [|done]. cbn [mbind option_bind] in H.
  destruct (n =? 0); injection H as <-; cbn; (split; [|done]); [lia|]. apply u32_range.
Qed.

(** The code of the parser, and the type of a packet for which it finds no connection. *)
Lemma parse_header_ret q bytes len addr_from pcnx receiving ret ph found :
  picoquic_parse_packet_header q bytes len addr_from pcnx receiving = Some (ret, ph, found) -> ret = 0 \/ ret = -1.
Proof.
  unfold picoquic_parse_packet_header, parse_long_header, parse_short_header. intros H.
  destruct (bytes !! 0%nat); [|done]. cbn [mbind option_bind] in H. destruct (negb _); [injection H as <- <- <-; auto|].
  destruct (_ =? 0x80).
  - destruct (len <? 7); [injection H as <- <- <-; auto|].
    destruct (parse_long_ids bytes len) as [[v|[[[v dest] srce] off]]|]; cbn [mbind option_bind] in H; [injection H as <- <- <-; auto| |done].
    destruct (v =? 0); [injection H as <- <- <-; auto|].
    destruct (if 0 <=? _ then _ else _); [|done]. cbn [mbind option_bind] in H.
    destruct (parse_long_length _ _ _ _ _) as [[[[n p] t'] e]|]; [|done]. cbn [mbind option_bind] in H.
    case_bool_decide; injection H as <- <- <-; auto.
  - destruct (len <? 1 + _); [injection H as <- <- <-; auto|].
    destruct (picoquic_parse_connection_id _ _) as [[n dest]|]; [|done]. cbn [mbind option_bind] in H.
    destruct (find_short_cnx _ _ _ _); [|injection H as <- <- <-; auto].
    destruct (if len <? _ then _ else _) as [ret' p'] eqn:E. injection H as <- <- <-.
    destruct (len <? _); injection E as <- <-; auto.
Qed.

Lemma parse_header_no_cnx q bytes len addr_from receiving ret ph :
  picoquic_parse_packet_header q bytes len addr_from None receiving = Some (ret, ph, None) -> is_short (ptype ph) = false.
Proof.
  unfold picoquic_parse_packet_header, parse_long_header, parse_short_header. intros H.
  destruct (bytes !! 0%nat); [|done]. cbn [mbind option_bind] in H. destruct (negb _); [by injection H as <- <-|].
  destruct (_ =? 0x80).
  - destruct (len <? 7); [by injection H as <- <-|].
    destruct (parse_long_ids bytes len) as [[v|[[[v dest] srce] off]]|]; cbn [mbind option_bind] in H; [by injection H as <- <-| |done].
    destruct (v =? 0); [injection H as <- <- _; done|].
    destruct (if 0 <=? _ then _ else _) as [lt|] eqn:Hlt; [|done]. cbn [mbind option_bind] in H.
    destruct (parse_long_length _ _ _ _ _) as [[[[n p] t'] e]|] eqn:Hl; [|done]. cbn [mbind option_bind] in H.
    case_bool_decide; [by injection H as <- <-|]. injection H as <- <- _. cbn [ptype].
    assert (Ht : is_short (lt_ptype lt) = false).
    { destruct (0 <=? _); [|by injection Hlt as <-]. unfold parse_long_type in Hlt.
      destruct (_ =? 0); [|destruct (_ =? 1); [|destruct (_ =? 2)]]; try (by injection Hlt as <-).
      destruct (picoquic_varint_decode _ _) as [[n' v']|]; [|done]. cbn [mbind option_bind] in Hlt.
      destruct (n' =? 0); by injection Hlt as <-. }
    unfold parse_long_length in Hl. case_bool_decide.
    + destruct (lt_offset lt <? len); by injection Hl as <- <- <- <-.
    + destruct (if _ <? len then picoquic_varint_decode _ _ else _) as [[n' p']|]; [|done]. cbn [mbind option_bind] in Hl.
      destruct (_ || _ || _); by injection Hl as <- <- <- <-.
  - destruct (len <? 1 + _); [by injection H as <- <-|].
    destruct (picoquic_parse_connection_id _ _) as [[n dest]|]; [|done]. cbn [mbind option_bind] in H.
    destruct (find_short_cnx _ _ _ _); [|by injection H as <- <-].
    destruct (if len <? _ then _ else _) as [ret' p'] eqn:E. by injection H as <- <-.
Qed.

Lemma header_inside q bytes len addr_from pcnx receiving ph found :
  picoquic_parse_packet_header q bytes len addr_from pcnx receiving = Some (0, ph, found) ->
  Forall is_u8 bytes -> 0 <= len < 2 ^ 16 -> (forall q', q = Some q' -> is_u8 (local_ctx_length q')) ->
  ptype ph <> packet_error -> ptype ph <> version_negotiation ->
  0 < offset ph /\ 0 <= payload_length ph /\ offset ph + payload_length ph <= len.
Proof.
  intros H Hb Hlen Hq Hpe Hpv. unfold picoquic_parse_packet_header in H.
  destruct (bytes !! 0%nat) as [b0|]; [|done]. cbn [mbind option_bind] in H.
  destruct (negb _); [injection H as <- <-; done|]. destruct (_ =? 0x80).
  - unfold parse_long_header in H. destruct (len <? 7); [done|].
    destruct (parse_long_ids bytes len) as [[v|[[[v dest] srce] off]]|] eqn:Hids; [done| |done].
    cbn [mbind option_bind] in H. destruct (v =? 0); [injection H as <- <-; done|].
    apply parse_long_ids_range in Hids; [|done].
    set (vi := picoquic_get_version_index v) in *.
    destruct (if 0 <=? vi then _ else _) as [lt|] eqn:Hlt; [|done]. cbn [mbind option_bind] in H.
    destruct (parse_long_length _ _ _ _ _) as [[[[n p] t'] e]|] eqn:Hpl; [|done]. cbn [mbind option_bind] in H.
    case_bool_decide; injection H as <- <-; [done|]. cbn [offset payload_length ptype] in *.
    assert (Hr : 0 <= lt_offset lt < 2 ^ 32 /\ (lt_ptype lt = retry -> lt_offset lt = off)).
    { destruct (0 <=? vi); [eapply parse_long_type_range; [done|lia|lia]|]. injection Hlt as <-. cbn. split; [lia|done]. }
    apply parse_long_length_bound in Hpl as (-> & Hn & Hp & Hle & Hpos); [|done|done|lia|lia].
    rewrite u32_small, u16_small by lia.
    destruct Hpos as [?|Hretry]; [|apply Hr in Hretry]; lia.
  - unfold parse_short_header in H. set (l := match receiving with true => _ | false => _ end) in H.
    assert (Hl : 0 <= l).
    { assert (0 <= match q with Some q => local_ctx_length q | None => 0 end)
        by (destruct q as [q|]; [specialize (Hq q eq_refl); unfold is_u8 in Hq; lia|lia]).
      unfold l. destruct receiving, pcnx; try done. unfold id_len. lia. }
    destruct (len <? 1 + l); [injection H as <- <-; done|].
    destruct (picoquic_parse_connection_id _ l) as [[n dest]|] eqn:Hid; [|done]. cbn [mbind option_bind] in H.
    apply parse_id_length in Hid; [|done]. rewrite (u32_small (1 + n)) in H by lia.
    destruct (find_short_cnx _ _ _ _); [|injection H as <- <-; done].
    destruct (Z.ltb_spec len (1 + n)); [done|]. injection H as <- <-. cbn in *. rewrite u16_small by lia. lia.
Qed.

Lemma parse_long_type_kind bytes len type off lt :
  parse_long_type bytes len type off = Some lt -> lt_ptype lt <> version_negotiation /\ is_short (lt_ptype lt) = false.
Proof.
  unfold parse_long_type. intros H. destruct (_ =? 0); [|destruct (_ =? 1); [|destruct (_ =? 2)]]; try (by injection H as <-).
  destruct (picoquic_varint_decode _ _) as [[n' v']|]; [|done]. cbn [mbind option_bind] in H.
  destruct (n' =? 0); by injection H as <-.
Qed.

Lemma parse_pn_offset q bytes len addr_from pcnx receiving ret ph found :
  picoquic_parse_packet_header q bytes len addr_from pcnx receiving = Some (ret, ph, found) ->
  is_protected (ptype ph) = true -> pn_offset ph = offset ph.
Proof.
  unfold picoquic_parse_packet_header, parse_long_header, parse_short_header. intros H Hp.
  destruct (bytes !! 0%nat); [|done]. cbn [mbind option_bind] in H. destruct (negb _); [by injection H as <- <- <-|].
  destruct (_ =? 0x80).
  - destruct (len <? 7); [by injection H as <- <- <-|].
    destruct (parse_long_ids bytes len) as [[v|[[[v dest] srce] off]]|]; cbn [mbind option_bind] in H; [by injection H as <- <- <-| |done].
    destruct (v =? 0); [by injection H as <- <- <-|].
    destruct (if 0 <=? _ then _ else _); [|done]. cbn [mbind option_bind] in H.
    destruct (parse_long_length _ _ _ _ _) as [[[[n p] t'] e]|]; [|done]. cbn [mbind option_bind] in H.
    case_bool_decide; by injection H as <- <- <-.
  - destruct (len <? 1 + _); [by injection H as <- <- <-|].
    destruct (picoquic_parse_connection_id _ _) as [[n dest]|]; [|done]. cbn [mbind option_bind] in H.
    destruct (find_short_cnx _ _ _ _); [|by injection H as <- <- <-].
    destruct (if len <? _ then _ else _) as [ret' p'] eqn:E. by injection H as <- <- <-.
Qed.

(** Every packet that is not dropped moves the reader of a datagram forward. *)
Lemma parse_header_progress q bytes len addr_from receiving ph found :
  picoquic_parse_packet_header q bytes len addr_from None receiving = Some (0, ph, found) ->
  Forall is_u8 bytes -> 0 <= len < 2 ^ 16 -> (forall q', q = Some q' -> is_u8 (local_ctx_length q')) ->
  ptype ph <> packet_error \/ (version_index ph < 0 /\ vn ph <> 0) ->
  0 < offset ph + payload_length ph <= Z.max len 47 /\ 0 <= payload_length ph < 2 ^ 16 /\ 0 < offset ph /\
  (is_long_protected (ptype ph) = true -> pn_offset ph = offset ph).
Proof.
  intros H Hb Hlen Hq Hok.
  destruct (decide (ptype ph <> packet_error /\ ptype ph <> version_negotiation)) as [[Hne Hnv]|Hno].
  { destruct (header_inside _ _ _ _ _ _ _ _ H Hb Hlen Hq Hne Hnv) as (Ho & Hp & Hle). split_and!; try lia.
    intros Hl. eapply parse_pn_offset; [done|]. unfold is_protected. by rewrite Hl, orb_true_r. }
  unfold picoquic_parse_packet_header in H.
  destruct (bytes !! 0%nat) as [b0|]; [|done]. cbn [mbind option_bind] in H.
  destruct (negb _); [injection H as <- <-; cbn in Hok; by destruct Hok as [?|[_ ?]]|]. destruct (_ =? 0x80).
  - unfold parse_long_header in H. destruct (len <? 7); [done|].
    destruct (parse_long_ids bytes len) as [[v|[[[v dest] srce] off]]|] eqn:Hids; [done| |done].
    cbn [mbind option_bind] in H. apply parse_long_ids_range in Hids; [|done].
    assert (Hpay : 0 <= u16 (if off <? len then len - off else 0) < 2 ^ 16 /\
                   off + u16 (if off <? len then len - off else 0) <= Z.max len 47).
    { destruct (Z.ltb_spec off len); rewrite u16_small; lia. }
    destruct (v =? 0); [injection H as <- _; cbn [offset payload_length ptype is_long_protected]; split_and!; lia || done|].
    set (vi := picoquic_get_version_index v) in *.
    destruct (Z.leb_spec 0 vi) as [Hvi|Hvi].
    + destruct (parse_long_type _ _ _ _) as [lt|] eqn:Hlt; [|done]. cbn [mbind option_bind] in H.
      destruct (parse_long_length _ _ _ _ _) as [[[[n p] t'] e]|] eqn:Hpl; [|done]. cbn [mbind option_bind] in H.
      case_bool_decide as Ht'.
      * injection H as <- _. cbn [ptype version_index vn] in Hok. destruct Hok as [?|[? _]]; [done|lia].
      * injection H as <- _. cbn [ptype] in Hno. exfalso. apply Hno. split; [done|].
        assert (Hr : 0 <= lt_offset lt < 2 ^ 32) by (eapply parse_long_type_range; [done|lia|lia]).
        apply parse_long_length_bound in Hpl as (-> & _); [|done|done|lia|lia].
        intros Hv. by apply (parse_long_type_kind _ _ _ _ _ Hlt).
    + cbn [mbind option_bind lt_offset lt_ptype] in H.
      destruct (parse_long_length _ _ _ _ _) as [[[[n p] t'] e]|] eqn:Hpl; [|done]. cbn [mbind option_bind] in H.
      unfold parse_long_length in Hpl. rewrite bool_decide_false in Hpl by done.
      destruct (if off <? len then picoquic_varint_decode _ _ else _) as [[n' p']|]; [|done]. cbn [mbind option_bind] in Hpl.
      assert ((vi <? 0) = true) as Hlt by (by apply Z.ltb_lt). rewrite Hlt, orb_true_r in Hpl.
      injection Hpl as <- <- <- <-. cbn [bool_decide] in H. rewrite bool_decide_true in H by done. injection H as <- _.
      cbn [offset payload_length ptype is_long_protected lt_offset]. split_and!; lia || done.
  - unfold parse_short_header in H. destruct (len <? 1 + _); [injection H as <- <-; cbn in Hok; by destruct Hok as [?|[_ ?]]|].
    destruct (picoquic_parse_connection_id _ _) as [[n dest]|]; [|done]. cbn [mbind option_bind] in H.
    destruct (find_short_cnx _ _ _ _).
    + destruct (if len <? _ then _ else _) as [r p]. injection H as _ <- _. exfalso. apply Hno. done.
    + injection H as <- _. cbn in Hok. by destruct Hok as [?|[_ ?]].
Qed.

(** A packet whose header is accepted lies inside the bytes that were
    received: the header and the payload it announces are not empty and end at
    the length of the packet at the latest, for every packet of less than 64 KB
    that is not a version negotiation.  (The payload of the next packet of the
    datagram starts there.) *)
Theorem parsed_header_inside q bytes len addr_from pcnx receiving ph found :
  picoquic_parse_packet_header q bytes len addr_from pcnx receiving = Some (0, ph, found) ->
  Forall is_u8 bytes -> 0 <= len < 2 ^ 16 -> (forall q', q = Some q' -> is_u8 (local_ctx_length q')) ->
  ptype ph <> packet_error -> ptype ph <> version_negotiation ->
  0 < offset ph /\ 0 <= payload_length ph /\ offset ph + payload_length ph <= len.
Proof. apply header_inside. Qed.

Lemma parsed_header_inside_witness :
  exists ph found, picoquic_parse_packet_header None [0xC3; 0x50; 0x43; 0x51; 0x30; 0; 0; 0; 0x40; 5; 1; 2; 3; 4; 5; 6; 7] 17 0 None true
    = Some (0, ph, found) /\ 0 < offset ph /\ 0 <= payload_length ph /\ offset ph + payload_length ph <= 17.
Proof.
  eexists _, _. split; [vm_compute; reflexivity|].
  eapply (parsed_header_inside None [0xC3; 0x50; 0x43; 0x51; 0x30; 0; 0; 0; 0x40; 5; 1; 2; 3; 4; 5; 6; 7] 17 0 None true);
    [vm_compute; reflexivity|repeat constructor; done|lia|done|done|done].
Defined.

Lemma length_finished_header c t local sequence_number packet_length :
  cnx_ok c -> id_ok local -> is_protected t = true -> header_size c t local < packet_length < 0x4000 ->
  Z.of_nat (length (finished_header c t local sequence_number packet_length)) = header_size c t local + 4.
Proof.
  intros Hc Hl Ht Hp. unfold header_size, is_protected in *. destruct (is_short t) eqn:Hs; cbn [orb] in Ht.
  - rewrite finished_short_header by done. cbn [length]. rewrite length_app. cbn [length picoformat_32]. unfold id_len. lia.
  - rewrite finished_long_header by (done || lia).
    pose proof (length_prefix (long_first_byte t) c t local). rewrite !length_app. cbn [length picoformat_32 picoquic_varint_encode_16]. lia.
Qed.

(** The two ends of a connection: [q] is the receiver's context and [c] the
    sender's connection.  Ids have the length the receiver gives to its own. *)
Definition reaches (c : cnx) (t : packet_type) (q : quic) (addr_from : address) (found : cnx) : Prop :=
  local_ctx_length q = id_len (remote_cnxid c) /\
  if is_short t then find_short_cnx (Some q) addr_from (remote_cnxid c) None = Some found
  else find_long_cnx (Some q) addr_from t (get_destination_connection_id c t) None = Some found.

(** What the receiver reads from the header that the sender finished, whatever
    header protection puts into the bits of the first byte that it covers. *)
Lemma parse_finished_header b0 c t local sequence_number packet_length rest q addr_from found len :
  cnx_ok c -> id_ok local -> is_protected t = true ->
  0 <= picoquic_get_version_index (header_version c t) ->
  header_size c t local + 4 <= packet_length < 0x4000 ->
  (if is_short t then packet_length = len else packet_length <= len < 2 ^ 32) ->
  reaches c t q addr_from found ->
  is_u8 b0 ->
  (if is_short t then Z.shiftr b0 5 = Z.shiftr (short_first_byte c t) 5
   else Z.shiftr b0 4 = Z.shiftr (long_first_byte t) 4) ->
  let h := finished_header c t local sequence_number packet_length in
  exists ph, picoquic_parse_packet_header (Some q) ((b0 :: take (Z.to_nat (header_size c t local) - 1) (tail h)) ++ rest)
      len addr_from None true = Some (0, ph, Some found) /\
    dest_cnx_id ph = get_destination_connection_id c t /\
    ptype ph = (if is_short t then one_rtt_protected_phi0 else t) /\ pc ph = context_of t /\ epoch ph = epoch_of t /\
    offset ph = header_size c t local /\ pn_offset ph = offset ph /\ offset ph + payload_length ph = packet_length /\
    (is_short t = false -> srce_cnx_id ph = local /\ vn ph = header_version c t).
Proof.
  intros Hc Hl Ht Hvi Hp Hlen [Hq Hf] Hb Hb4 h. unfold header_size, is_protected in *.
  destruct (is_short t) eqn:Hs; cbn [orb] in Ht.
  - unfold h. rewrite finished_short_header by done. cbn [tail].
    replace (Z.to_nat _ - 1)%nat with (length (remote_cnxid c)) by (unfold id_len; lia). rewrite take_app_length.
    cbn [app]. subst len.
    destruct (parse_short_written b0 c t rest q packet_length addr_from found) as (ph & H & Hd & Ht' & Hpc & He & Ho & Hpo & Hpl & _);
      try done; [lia|]. exists ph. rewrite Hpc, He, Hd, Ht'. split; [done|]. destruct t; try done; split_and!; (done || lia).
  - unfold h. rewrite finished_long_header by (done || lia). pose proof (header_prefix_length_pos c t local) as Hpos.
    set (plen := packet_length - (prefix_length c t local + 2)).
    assert (b0 :: take (Z.to_nat (prefix_length c t local + 2) - 1)
              (tail (long_ids (long_first_byte t) c t local ++ token_bytes c t ++ picoquic_varint_encode_16 plen ++ picoformat_32 sequence_number))
            = long_ids b0 c t local ++ token_bytes c t ++ picoquic_varint_encode_16 plen) as ->.
    { pose proof (length_prefix b0 c t local) as Hlp. unfold long_ids in *. cbn [app tail]. f_equal.
      rewrite !(app_assoc _ (picoquic_varint_encode_16 plen)), !app_assoc. cbn [app length] in Hlp.
      rewrite take_app_le; [apply take_ge|]; rewrite !length_app; cbn [length picoquic_varint_encode_16];
        rewrite ?length_app in *; cbn [length] in *; rewrite ?length_app in *; cbn [length] in *; lia. }
    rewrite <- !app_assoc.
    destruct (parse_long_written b0 c t local plen rest (Some q) len addr_from None true)
      as (ph & H & Hd & Hsr & Hv & Ht' & Hpc & He & Ho & Hpo & Hpl & _); try done; try (unfold plen; lia).
    exists ph. rewrite H, Hf. split; [done|]. rewrite Ht', Hpc, He, Ho in *. split_and!; try done. lia.
Qed.

(** A finished header: the first byte, the rest and the packet number. *)
Lemma finished_header_split c t local sequence_number packet_length :
  cnx_ok c -> id_ok local -> is_protected t = true -> header_size c t local < packet_length < 0x4000 ->
  exists b0 h, finished_header c t local sequence_number packet_length = (b0 :: h) ++ picoformat_32 sequence_number /\
    Z.of_nat (length h) + 1 = header_size c t local /\ is_u8 b0 /\
    b0 = (if is_short t then short_first_byte c t else long_first_byte t).
Proof.
  intros Hc Hl Ht Hp. pose proof (length_finished_header c t local sequence_number packet_length Hc Hl Ht Hp) as Hlen.
  unfold header_size, is_protected in *. destruct (is_short t) eqn:Hs; cbn [orb] in Ht.
  - rewrite finished_short_header in * by done. exists (short_first_byte c t), (remote_cnxid c). split_and!; try done.
    + cbn [length] in Hlen. rewrite length_app in Hlen. cbn [length picoformat_32] in Hlen. lia.
    + unfold short_first_byte, is_u8. destruct t, (current_spin c); done.
  - rewrite finished_long_header in * by (done || lia). rewrite !app_assoc in Hlen |- *.
    rewrite length_app in Hlen. cbn [length picoformat_32] in Hlen.
    unfold long_ids in *. cbn [app] in *. eexists _, _. split; [reflexivity|].
    cbn [length] in Hlen. split_and!; try done; [lia|]. destruct t; done.
Qed.

(** Headers round-trip: the header that the sender writes for a protected
    packet, followed by anything, is read by the receiver as a header of the
    same kind, for the same ids, version, context and epoch, whose packet number
    starts right behind it and whose payload ends where the sender said the
    packet ends; the four bytes there are the packet number. *)
Theorem header_roundtrip c t local sequence_number packet_length rest q addr_from found len :
  cnx_ok c -> id_ok local -> is_protected t = true ->
  0 <= picoquic_get_version_index (header_version c t) ->
  header_size c t local + 4 <= packet_length < 0x4000 ->
  (if is_short t then packet_length = len else packet_length <= len < 2 ^ 32) ->
  reaches c t q addr_from found ->
  let bytes := finished_header c t local sequence_number packet_length ++ rest in
  exists ph, picoquic_parse_packet_header (Some q) bytes len addr_from None true = Some (0, ph, Some found) /\
    dest_cnx_id ph = get_destination_connection_id c t /\
    ptype ph = (if is_short t then one_rtt_protected_phi0 else t) /\ pc ph = context_of t /\ epoch ph = epoch_of t /\
    pn_offset ph = offset ph /\ offset ph + payload_length ph = packet_length /\
    (is_short t = false -> srce_cnx_id ph = local /\ vn ph = header_version c t) /\
    take 4 (drop (Z.to_nat (pn_offset ph)) bytes) = picoformat_32 sequence_number.
Proof.
  intros Hc Hl Ht Hvi Hp Hlen Hr bytes.
  destruct (finished_header_split c t local sequence_number packet_length Hc Hl Ht ltac:(lia)) as (b0 & h & Hh & Hhl & Hb & Hbits).
  assert (Hbits' : if is_short t then Z.shiftr b0 5 = Z.shiftr (short_first_byte c t) 5
                   else Z.shiftr b0 4 = Z.shiftr (long_first_byte t) 4) by (rewrite Hbits; by destruct (is_short t)).
  destruct (parse_finished_header b0 c t local sequence_number packet_length (picoformat_32 sequence_number ++ rest)
              q addr_from found len) as (ph & H & Hd & Hpt & Hpc & He & Ho & Hpo & Hpl & Hlong); try done.
  exists ph. rewrite Hh in H. cbn [tail app] in H.
  replace (Z.to_nat (header_size c t local) - 1)%nat with (length h) in H by lia.
  rewrite take_app_length in H. unfold bytes. rewrite Hh.
  rewrite <- app_assoc. split_and!; try done.
  rewrite Hpo, Ho. replace (Z.to_nat (header_size c t local)) with (length (b0 :: h)) by (cbn [length]; lia).
  by rewrite drop_app_length.
Qed.

Definition sample_cnx : cnx := Cnx 1 client_ready true 1 0xff00001b [1;2;3;4;5;6;7;8] [9;9;9;9] [5;6;7;8;9] [] false.
Definition sample_quic : quic := Quic 5 (fun i => if bool_decide (i = [5;6;7;8;9]) then Some sample_cnx else None) (fun _ => None).

Lemma sample_cnx_ok : cnx_ok sample_cnx.
Proof. unfold cnx_ok, id_ok, is_u8. cbn. unfold id_len, PICOQUIC_CONNECTION_ID_MAX_SIZE. cbn. split_and!; repeat constructor; lia || done. Qed.

Lemma sample_id_ok : id_ok [9;9;9;9].
Proof. split; [done|]. repeat constructor; done. Qed.

Lemma header_roundtrip_witness :
  exists ph, picoquic_parse_packet_header (Some sample_quic)
      (finished_header sample_cnx handshake [9;9;9;9] 77 60 ++ repeat 0 42) 60 0 None true = Some (0, ph, Some sample_cnx) /\
    ptype ph = handshake /\ offset ph + payload_length ph = 60.
Proof.
  destruct (header_roundtrip sample_cnx handshake [9;9;9;9] 77 60 (repeat 0 42) sample_quic 0 sample_cnx 60
    sample_cnx_ok sample_id_ok eq_refl) as (ph & H & _ & Ht & _ & _ & _ & Hl & _);
    [done|vm_compute; split; congruence|simpl; lia|split; reflexivity|].
  exists ph. done.
Defined.

(** The length that is reserved for a header before its content is known is
    the length of the header that is written later, for every protected type of
    packet on the first path. *)
Theorem predicted_header_length c t sequence_number packet_length :
  cnx_ok c -> is_protected t = true -> header_size c t (local_cnxid c) < packet_length < 0x4000 ->
  predict_packet_header_length c t =
  Z.of_nat (length (finished_header c t (local_cnxid c) sequence_number packet_length)).
Proof.
  intros Hc Ht Hp. assert (Hl : id_ok (local_cnxid c)) by apply Hc.
  rewrite length_finished_header by done. unfold predict_packet_header_length, header_size, is_protected in *.
  destruct (is_short t) eqn:Hs; cbn [orb] in Ht; [lia|].
  unfold prefix_length, long_ids, token_bytes. rewrite !length_app. cbn [length picoformat_32].
  assert (get_destination_connection_id c t =
    match t with initial | zero_rtt_protected =>
      if picoquic_is_connection_id_null (remote_cnxid c) then initial_cnxid c else remote_cnxid c
    | _ => remote_cnxid c end) as -> by (by destruct t).
  rewrite (varint_encode_room 16 1300) by lia. unfold id_len. case_bool_decide; rewrite ?length_app; cbn [length]; lia.
Qed.

Lemma predicted_header_length_witness :
  predict_packet_header_length sample_cnx initial =
  Z.of_nat (length (finished_header sample_cnx initial [9;9;9;9] 3 1200)).
Proof. apply (predicted_header_length sample_cnx initial 3 1200 sample_cnx_ok eq_refl). vm_compute. split; congruence. Defined.

(** The length byte of the source id is never compared with the length of
    the packet: a seven byte datagram that announces a source id makes the
    parser read behind it, and a version negotiation with a cut off source id is
    accepted with an offset behind its end, so that the length that is handed on,
    [length - ph->offset], wraps around.  The token of an initial packet has no
    such check either: its length wraps, and the header is accepted although the
    token it names ends behind the packet. *)
Theorem unchecked_id_and_token_lengths :
  (forall l version q addr_from, 0 < l <= 20 -> 0 <= version < 2 ^ 32 ->
     picoquic_parse_packet_header q ([0xC0] ++ picoformat_32 version ++ [0; l]) 7 addr_from None true = None) /\
  (forall l rest addr_from, 0 < l <= 20 -> l <= Z.of_nat (length rest) ->
     exists ph, picoquic_parse_packet_header None ([0xC0] ++ picoformat_32 0 ++ [0; l] ++ rest) 7 addr_from None true
       = Some (0, ph, None) /\ ptype ph = version_negotiation /\ 7 < offset ph /\ u32 (7 - offset ph) = 2 ^ 32 - l) /\
  (exists bytes ph found, length bytes = 1200%nat /\ Forall is_u8 bytes /\
     picoquic_parse_packet_header None bytes 1200 0 None true = Some (0, ph, found) /\ ptype ph = initial /\
     1200 < token_offset ph + token_length ph).
Proof.
  assert (Hids : forall l version rest len, 7 <= len -> 0 <= version < 2 ^ 32 ->
    parse_long_ids ([0xC0] ++ picoformat_32 version ++ [0; l] ++ rest) len =
    '(n, srce) ← picoquic_parse_connection_id rest l; Some (inr (version, [], srce, 7 + n))).
  { intros l version rest len Hlen Hv. unfold parse_long_ids. cbn [app drop]. rewrite drop_0, parse_picoformat_32 by done.
    cbn [mbind option_bind]. unfold picoformat_32. cbn [app].
    change (_ !! 5%nat) with (Some 0). cbn [mbind option_bind]. destruct (Z.ltb_spec len (6 + 0 + 1)); [lia|].
    unfold picoquic_parse_connection_id at 1. change (0 <=? _) with true. cbn [Z.to_nat take].
    destruct (Z.ltb_spec (Z.of_nat (length (drop 6 (0xC0 :: u8 (Z.shiftr version 24) :: u8 (Z.shiftr version 16) ::
      u8 (Z.shiftr version 8) :: u8 version :: 0 :: l :: rest)))) 0); [lia|]. reflexivity. }
  split_and!.
  - intros l version q addr_from Hl Hv. unfold picoquic_parse_packet_header. cbn [app lookup list_lookup mbind option_bind].
    change (negb (Z.land 0xC0 0x40 =? 0x40)) with false. change (Z.land 0xC0 0x80 =? 0x80) with true. cbn iota.
    unfold parse_long_header. change (7 <? 7) with false. cbn iota.
    specialize (Hids l version [] 7 ltac:(lia) Hv). cbn [app] in Hids. rewrite Hids.
    unfold picoquic_parse_connection_id, PICOQUIC_CONNECTION_ID_MAX_SIZE. destruct (Z.leb_spec l 20); [|lia].
    cbn [length]. destruct (Z.ltb_spec (Z.of_nat 0) l); [done|lia].
  - intros l rest addr_from Hl Hrest. unfold picoquic_parse_packet_header. cbn [app lookup list_lookup mbind option_bind].
    change (negb (Z.land 0xC0 0x40 =? 0x40)) with false. change (Z.land 0xC0 0x80 =? 0x80) with true. cbn iota.
    unfold parse_long_header. change (7 <? 7) with false. cbn iota.
    specialize (Hids l 0 rest 7 ltac:(lia) ltac:(lia)). cbn [app] in Hids. rewrite Hids.
    unfold picoquic_parse_connection_id, PICOQUIC_CONNECTION_ID_MAX_SIZE. destruct (Z.leb_spec l 20); [|lia].
    destruct (Z.ltb_spec (Z.of_nat (length rest)) l); [lia|]. cbn [mbind option_bind]. eexists. split; [reflexivity|].
    cbn. split; [done|]. split; [lia|]. unfold u32. replace (7 - (7 + l)) with (- l) by lia.
    rewrite Z.mod_opp_l_nz; rewrite ?Z.mod_small; lia.
  - eexists ([0xC0] ++ picoformat_32 0xff00001b ++ [0; 0] ++ [0xC0; 0; 0; 0; 0xff; 0xff; 0xff; 0xf9] ++ repeat 0 1185), _, _.
    split; [reflexivity|]. split; [repeat (apply Forall_app; split); apply (bool_decide_unpack _); vm_compute; done|].
    split; [vm_compute; reflexivity|]. split; reflexivity.
Qed.

End Packet.
