(* ===== verification/PacketProtect.v ===== *)
(** * Packet protection: picoquic/sender.c, packet.c

    [picoquic_protect_packet] writes the header of a packet, encrypts its
    content and masks the first byte and the packet number;
    [picoquic_decrypt_packet] undoes this on the bytes that were received, and
    [picoquic_parse_header_and_decrypt] finds the connection and the keys and
    sorts out what is wrong with a packet.  [picoquic_incoming_packet] takes a
    datagram apart into the packets that were coalesced in it.

    The ciphers belong to picotls, a library that is not part of the sources:
    they are the operations of the class [Crypto], and what the code relies on
    are the laws [CryptoLaws].  A buffer that is only partly written keeps its
    old bytes behind what was written. *)
From stdpp Require Import base tactics list numbers sets.
From Stdlib Require Import ZArith Lia Bool.
From S2P Require Import Prelude IntFormat Sacks Packet.
#[local] Open Scope Z_scope.

Module PacketProtect.
Import IntFormat Sacks Packet.

(** ** The ciphers *)

(** [aead_encrypt] and [aead_decrypt] are [ptls_aead_encrypt] and
    [ptls_aead_decrypt] with the sequence number, the authenticated data and the
    input; decryption that fails (the code returns [SIZE_MAX]) is [None].
    [hp_mask] are the five bytes that [ptls_cipher_encrypt] makes of zeroes after
    [ptls_cipher_init] with the sample as initialisation vector. *)
Class Crypto (aead_key hp_key : Type) := {
  aead_tag_size : aead_key -> Z;
  aead_encrypt : aead_key -> Z -> list Z -> list Z -> list Z;
  aead_decrypt : aead_key -> Z -> list Z -> list Z -> option (list Z);
  hp_iv_size : hp_key -> Z;
  hp_mask : hp_key -> list Z -> list Z
}.

(** The two keys of a direction fit together. *)
Class CryptoLaws {aead_key hp_key : Type} `{Crypto aead_key hp_key} (ek dk : aead_key) (hk : hp_key) : Prop := {
  tag_size_range : 0 <= aead_tag_size ek < 256;
  length_encrypt seq aad input :
    Z.of_nat (length (aead_encrypt ek seq aad input)) = Z.of_nat (length input) + aead_tag_size ek;
  decrypt_encrypt seq aad input : aead_decrypt dk seq aad (aead_encrypt ek seq aad input) = Some input;
  iv_size_range : 0 <= hp_iv_size hk;
  hp_mask_bytes sample : length (hp_mask hk sample) = 5%nat /\ Forall is_u8 (hp_mask hk sample)
}.

Section Protect.
Context {aead_key hp_key : Type} {crypto : Crypto aead_key hp_key}.

(** ** Sending *)

(** [bytes[i] ^= m] for the bytes from [i] on. *)
Fixpoint xor_from (i : nat) (mask : list Z) (bytes : list Z) : list Z :=
  match mask with
  | [] => bytes
  | m :: mask' => xor_from (S i) mask' (alter (fun b => Z.lxor b m) i bytes)
  end.

Definition bytes_at (offset len : Z) (bytes : list Z) : option (list Z) :=
  if Z.of_nat (length bytes) <? offset + len then None
  else Some (take (Z.to_nat len) (drop (Z.to_nat offset) bytes)).

(** [memcpy (buffer, data, ...)] *)
Definition overwrite (buffer data : list Z) : list Z := data ++ drop (length data) buffer.

(** [fuzz] is [quic->fuzz_fn], called with the bytes, the room, the length and
    the header length, returning the bytes and the length.  The result is the
    length to send and the send buffer. *)
Definition picoquic_protect_packet (q : quic) (c : cnx) (fuzz : option (list Z -> Z -> Z -> Z -> list Z * Z))
    (t : packet_type) (bytes : list Z) (local : connection_id) (local_addr : address) (sequence_number len header_length : Z)
    (send_buffer : list Z) (aead_context : aead_key) (pn_enc : hp_key) : option (Z * list Z) :=
  let aead_checksum_length := aead_tag_size aead_context in
  let '(h, pn_offset, pn_length) := picoquic_create_packet_header c t local sequence_number in
  let h_length := Z.of_nat (length h) in
  let h := picoquic_update_payload_length h pn_offset (h_length - pn_length) (len + aead_checksum_length) in
  '(_, ph, _) ← picoquic_parse_packet_header (Some q) (overwrite send_buffer h) (len + aead_checksum_length) local_addr
                  (Some c) false;
  let '(bytes, len, h) :=
    match fuzz with
    | None => (bytes, len, h)
    | Some f =>
      let bytes := if h_length =? header_length then overwrite bytes h else bytes in
      let '(bytes, len) := f bytes (Z.of_nat (length send_buffer) - aead_checksum_length) len header_length in
      (bytes, len, if h_length =? header_length then take (Z.to_nat header_length) bytes else h)
    end in
  input ← bytes_at header_length (u32 (len - header_length)) bytes;
  let cipher := aead_encrypt aead_context sequence_number h input in
  let send_length := u32 (Z.of_nat (length cipher) + h_length) in
  let buffer := overwrite send_buffer (h ++ cipher) in
  let sample_offset := pn_offset + 4 in
  sample ← bytes_at sample_offset (hp_iv_size pn_enc) buffer;
  let first_mask := if is_short (ptype ph) then 0x1F else 0x0F in
  let mask := hp_mask pn_enc sample in
  mask0 ← mask !! 0%nat;
  b0 ← buffer !! 0%nat;
  let pn_l := Z.land b0 3 + 1 in
  let buffer := alter (fun b => Z.lxor b (Z.land mask0 first_mask)) 0%nat buffer in
  Some (send_length, xor_from (Z.to_nat pn_offset) (take (Z.to_nat pn_l) (tail mask)) buffer).

(** ** Receiving *)

(** The loop over the bytes of the packet number: the bytes, [ph->offset],
    [pn_val] and [ph->pnmask]. *)
Fixpoint decode_pn (mask : list Z) (bytes : list Z) (off pn_val pn_mask : Z) : option (list Z * Z * Z * Z) :=
  match mask with
  | [] => Some (bytes, off, pn_val, pn_mask)
  | m :: mask' =>
    b ← bytes !! Z.to_nat off;
    let b := Z.lxor b m in
    decode_pn mask' (<[Z.to_nat off := b]> bytes) (u32 (off + 1)) (u32 (u32 (Z.shiftl pn_val 8) + b)) (u64 (Z.shiftl pn_mask 8))
  end.

Definition with_pn (ph : packet_header) (pn pnmask offset payload_length : Z) (t : packet_type) : packet_header :=
  PH (dest_cnx_id ph) (srce_cnx_id ph) pn (vn ph) offset (pn_offset ph) t pnmask (pn64 ph) payload_length
     (version_index ph) (epoch ph) (pc ph) (spin ph) (has_spin_bit ph) (token_length ph) (token_offset ph).

Definition with_pn64 (ph : packet_header) (n : Z) : packet_header :=
  PH (dest_cnx_id ph) (srce_cnx_id ph) (pn ph) (vn ph) (offset ph) (pn_offset ph) (ptype ph) (pnmask ph) n (payload_length ph)
     (version_index ph) (epoch ph) (pc ph) (spin ph) (has_spin_bit ph) (token_length ph) (token_offset ph).

Definition with_payload_length (ph : packet_header) (n : Z) : packet_header :=
  PH (dest_cnx_id ph) (srce_cnx_id ph) (pn ph) (vn ph) (offset ph) (pn_offset ph) (ptype ph) (pnmask ph) (pn64 ph) n
     (version_index ph) (epoch ph) (pc ph) (spin ph) (has_spin_bit ph) (token_length ph) (token_offset ph).

(** The header without a packet number that the code makes up when it cannot be decrypted. *)
Definition no_pn (ph : packet_header) : packet_header :=
  with_pn ph 0xFFFFFFFF 0xFFFFFFFF00000000 (pn_offset ph) (payload_length ph) (ptype ph).

(** Removes header protection; gives the bytes and the header. *)
Definition remove_hp (bytes : list Z) (ph : packet_header) (hp_enc : option hp_key) : option (list Z * packet_header) :=
  let len := offset ph + payload_length ph in
  match hp_enc with
  | None => Some (bytes, no_pn ph)
  | Some hp =>
    let sample_offset := pn_offset ph + 4 in
    if len <? sample_offset + hp_iv_size hp then Some (bytes, no_pn ph)
    else
      first_byte ← bytes !! 0%nat;
      sample ← bytes_at sample_offset (hp_iv_size hp) bytes;
      let first_mask := if Z.land first_byte 0x80 =? 0x80 then 0x0F else 0x1F in
      let mask := hp_mask hp sample in
      mask0 ← mask !! 0%nat;
      let first_byte := Z.lxor first_byte (Z.land mask0 first_mask) in
      let pn_l := Z.land first_byte 3 + 1 in
      '(bytes, off, pn_val, pn_mask) ←
        decode_pn (take (Z.to_nat pn_l) (tail mask)) (<[0%nat := first_byte]> bytes) (offset ph) 0 (2 ^ 64 - 1);
      let t := if bool_decide (ptype ph = one_rtt_protected_phi0)
               then if Z.land (Z.shiftr first_byte 2) 1 =? 1 then one_rtt_protected_phi1 else one_rtt_protected_phi0
               else ptype ph in
      Some (bytes, with_pn ph pn_val pn_mask off (u16 (payload_length ph - pn_l)) t)
  end.

(** The packet contexts of the path, as far as they matter here. *)
Record path_ctx := PathCtx { ctx_sacks : packet_context_id -> sack_chain; send_sequence : packet_context_id -> Z }.

Record decrypted := Decrypted {
  d_bytes : list Z;              (* without header protection *)
  d_ph : packet_header;
  d_already : bool;
  d_plain : option (list Z)      (* [None] for [SIZE_MAX] *)
}.

(** [receiving]: [already_received] is not [NULL]. *)
Definition picoquic_decrypt_packet (bytes : list Z) (ph : packet_header) (hp_enc : option hp_key)
    (aead_context : option aead_key) (receiving : bool) (path_from : path_ctx) : option decrypted :=
  '(bytes, ph) ← remove_hp bytes ph hp_enc;
  let highest := if receiving then end_of_sack_range (first_sack_item (ctx_sacks path_from (pc ph)))
                 else send_sequence path_from (pc ph) in
  let ph := with_pn64 ph (picoquic_get_packet_number64 highest (pnmask ph) (pn ph)) in
  let already := receiving && picoquic_is_pn_already_received (ctx_sacks path_from (pc ph)) (pn64 ph) in
  match aead_context with
  | None => Some (Decrypted bytes ph already None)
  | Some k =>
    aad ← bytes_at 0 (offset ph) bytes;
    input ← bytes_at (offset ph) (payload_length ph) bytes;
    Some (Decrypted bytes ph already (aead_decrypt k (pn64 ph) aad input))
  end.

(** ** Protection is undone *)

Lemma alter_middle (f : Z -> Z) (l r : list Z) b : alter f (length l) (l ++ b :: r) = l ++ f b :: r.
Proof. induction l as [|x l IH]; [done|]. cbn [length app alter list_alter]. f_equal. apply IH. Qed.

Lemma xor_from_app mask pn l r : length mask = length pn ->
  xor_from (length l) mask (l ++ pn ++ r) = l ++ zip_with Z.lxor pn mask ++ r.
Proof.
  revert pn l. induction mask as [|m mask IH]; intros [|b pn] l Hl; try done.
  cbn [xor_from app zip_with]. rewrite alter_middle.
  change (l ++ Z.lxor b m :: pn ++ r) with (l ++ [Z.lxor b m] ++ (pn ++ r)). rewrite app_assoc.
  replace (S (length l)) with (length (l ++ [Z.lxor b m])) by (rewrite length_app; simpl; lia).
  rewrite IH by (cbn [length] in Hl; lia). by rewrite <- app_assoc.
Qed.

(** The value of a packet number and its mask, as the receiver shifts them together. *)
Definition pn_value (v : Z) (pn : list Z) : Z := foldl (fun v b => u32 (u32 (Z.shiftl v 8) + b)) v pn.
Definition shift_mask (m : Z) (n : nat) : Z := Nat.iter n (fun m => u64 (Z.shiftl m 8)) m.

Lemma decode_pn_app mask pn l r v m : length mask = length pn ->
  Z.of_nat (length l + length pn) < 2 ^ 32 ->
  decode_pn mask (l ++ zip_with Z.lxor pn mask ++ r) (Z.of_nat (length l)) v m =
  Some (l ++ pn ++ r, Z.of_nat (length l + length pn), pn_value v pn, shift_mask m (length pn)).
Proof.
  revert pn l v m. induction mask as [|k mask IH]; intros [|b pn] l v m Hl Hr; try done.
  - cbn [decode_pn zip_with length]. by rewrite Nat.add_0_r.
  - cbn [decode_pn app zip_with length]. rewrite Nat2Z.id, list_lookup_middle by done. cbn [mbind option_bind].
    rewrite Z.lxor_assoc, Z.lxor_nilpotent, Z.lxor_0_r.
    rewrite insert_app_r_alt, Nat.sub_diag by lia. cbn [insert list_insert].
    cbn [length] in Hl, Hr.
    change (l ++ b :: zip_with Z.lxor pn mask ++ r) with (l ++ [b] ++ (zip_with Z.lxor pn mask ++ r)). rewrite app_assoc.
    rewrite u32_small by lia.
    replace (Z.of_nat (length l) + 1) with (Z.of_nat (length (l ++ [b]))) by (rewrite length_app; cbn [length]; lia).
    rewrite IH by (rewrite ?length_app; cbn [length]; lia). rewrite <- app_assoc, length_app. cbn [app length].
    unfold shift_mask, pn_value. cbn [foldl]. rewrite Nat.iter_succ_r. do 3 f_equal; f_equal; f_equal; lia.
Qed.

Lemma pn_value_be bs v : pn_value (v mod 2 ^ 32) bs = be_decode v bs mod 2 ^ 32.
Proof.
  revert v. induction bs as [|b bs IH]; intros v; [done|]. unfold pn_value in *. cbn [foldl be_decode]. rewrite <- IH.
  f_equal. unfold u32. rewrite Z.shiftl_mul_pow2, Zplus_mod_idemp_l, <- Zplus_mod_idemp_l, Zmult_mod_idemp_l, Zplus_mod_idemp_l by lia.
  done.
Qed.

Lemma pn_value_format n : pn_value 0 (picoformat_32 n) = n mod 2 ^ 32.
Proof.
  rewrite picoformat_32_digits. change 0 with (0 mod 2 ^ 32) at 1. rewrite pn_value_be, be_decode_digits.
  change (8 * Z.of_nat 4) with 32. cbn [Z.mul Z.add]. apply Zmod_mod.
Qed.

Lemma shift_mask_4 : shift_mask (2 ^ 64 - 1) 4 = pn_mask 32.
Proof. reflexivity. Qed.

(** What header protection does to the first byte. *)
Lemma masked_byte (short : bool) b0 m0 : is_u8 b0 -> is_u8 m0 ->
  let b := Z.lxor b0 (Z.land m0 (if short then 0x1F else 0x0F)) in
  let k := if short then 5 else 4 in
  is_u8 b /\ Z.land b 0x80 = Z.land b0 0x80 /\ Z.shiftr b k = Z.shiftr b0 k.
Proof.
  intros H0 Hm b k. subst b k. set (fm := if short then 31 else 15). set (k := if short then 5 else 4).
  pose (f := fun b0 m0 => let b := Z.lxor b0 (Z.land m0 fm) in
    (0 <=? b) && (b <? 256) && (Z.land b 0x80 =? Z.land b0 0x80) && (Z.shiftr b k =? Z.shiftr b0 k)).
  assert (H : f b0 m0 = true) by (apply forall_bytes2; [destruct short; vm_compute; reflexivity|done|done]).
  unfold f in H. cbn zeta in H. reflect_cmp. unfold is_u8. split_and!; (done || lia).
Qed.

Lemma first_byte_masked c t b0 m0 :
  is_protected t = true -> is_u8 m0 -> is_u8 b0 -> b0 = (if is_short t then short_first_byte c t else long_first_byte t) ->
  let fm := if is_short t then 0x1F else 0x0F in
  let b := Z.lxor b0 (Z.land m0 fm) in
  is_u8 b /\ (Z.land b 0x80 =? 0x80) = negb (is_short t) /\ Z.lxor b (Z.land m0 fm) = b0 /\ Z.land b0 3 = 3 /\
  (if is_short t then Z.shiftr b 5 = Z.shiftr (short_first_byte c t) 5
   else Z.shiftr b 4 = Z.shiftr (long_first_byte t) 4).
Proof.
  intros Ht Hm H0 Hb0 fm b. destruct (masked_byte (is_short t) b0 m0 H0 Hm) as (Hu & H80 & Hk).
  fold fm b in Hu, H80, Hk. split_and!; [done| | | |].
  - rewrite H80, Hb0. unfold short_first_byte. destruct t; try done; by destruct (current_spin c).
  - unfold b. by rewrite Z.lxor_assoc, Z.lxor_nilpotent, Z.lxor_0_r.
  - rewrite Hb0. unfold short_first_byte. destruct t; try done; by destruct (current_spin c).
  - rewrite Hb0 in Hk. by destruct (is_short t).
Qed.

Lemma create_header_shape c t local sequence_number packet_length :
  cnx_ok c -> id_ok local -> is_protected t = true -> header_size c t local < packet_length < 0x4000 ->
  exists h0, picoquic_create_packet_header c t local sequence_number = (h0, header_size c t local, 4) /\
    Z.of_nat (length h0) = header_size c t local + 4 /\
    picoquic_update_payload_length h0 (header_size c t local) (Z.of_nat (length h0) - 4) packet_length =
    finished_header c t local sequence_number packet_length.
Proof.
  intros Hc Hl Ht Hp. unfold finished_header.
  destruct (picoquic_create_packet_header c t local sequence_number) as [[h0 off] n] eqn:Hh.
  cut (off = header_size c t local /\ n = 4 /\ Z.of_nat (length h0) = header_size c t local + 4);
    [intros (-> & -> & ?); by exists h0|].
  unfold picoquic_create_packet_header, header_size, is_protected in *.
  destruct (is_short t) eqn:Hs; cbn [orb] in Ht.
  - injection Hh as <- <- <-. pose proof Hc as (_ & _ & Hr & _).
    assert (get_destination_connection_id c t = remote_cnxid c) as -> by (by destruct t).
    rewrite format_id by (done || (unfold PICOQUIC_MAX_PACKET_SIZE; lia)).
    cbn [app length]. rewrite ?length_app. cbn [length picoformat_32]. unfold id_len. lia.
  - rewrite bool_decide_false in Hh by (by destruct t). injection Hh as <- <- <-.
    rewrite long_header_prefix_shape by done. pose proof (length_prefix (long_first_byte t) c t local) as Hlp.
    rewrite !length_app. cbn [length picoformat_32]. lia.
Qed.

(** The sender's own look at its header. *)
Lemma parse_own_header q c t local sequence_number packet_length rest addr :
  cnx_ok c -> id_ok local -> is_protected t = true -> 0 <= picoquic_get_version_index (header_version c t) ->
  header_size c t local + 4 <= packet_length < 0x4000 ->
  exists r ph found, picoquic_parse_packet_header (Some q) (finished_header c t local sequence_number packet_length ++ rest)
      packet_length addr (Some c) false = Some (r, ph, found) /\ is_short (ptype ph) = is_short t.
Proof.
  intros Hc Hl Ht Hvi Hp. unfold header_size, is_protected in *. destruct (is_short t) eqn:Hs; cbn [orb] in Ht.
  - rewrite finished_short_header by done. pose proof Hc as (_ & _ & Hr & _). pose proof Hr as [Hr' _].
    unfold PICOQUIC_CONNECTION_ID_MAX_SIZE in Hr'. assert (0 <= id_len (remote_cnxid c)) by (unfold id_len; lia).
    destruct (short_first_bits (short_first_byte c t) c t) as (H40 & H80 & _);
      [unfold short_first_byte, is_u8; destruct t, (current_spin c); done|done|done|].
    unfold picoquic_parse_packet_header. cbn [app lookup list_lookup mbind option_bind]. rewrite H40, H80.
    cbn [Z.eqb Pos.eqb negb]. unfold parse_short_header. destruct (Z.ltb_spec packet_length (1 + id_len (remote_cnxid c))); [lia|].
    cbn [drop app]. rewrite drop_0, <- app_assoc, parse_id by done. cbn [mbind option_bind find_short_cnx].
    destruct (if packet_length <? _ then _ else _) as [r p]. by eexists _, _, _.
  - rewrite finished_long_header by (done || lia). rewrite <- !app_assoc. pose proof (header_prefix_length_pos c t local) as Hpos.
    destruct (parse_long_written (long_first_byte t) c t local (packet_length - (prefix_length c t local + 2))
      (picoformat_32 sequence_number ++ rest) (Some q) packet_length addr (Some c) false)
      as (ph & H & _ & _ & _ & Hpt & _); try done; try lia; [unfold is_u8; destruct t; done|].
    eexists _, ph, _. split; [exact H|]. rewrite Hpt. done.
Qed.

Context (ek dk : aead_key) (hk : hp_key) {laws : CryptoLaws ek dk hk}.

Lemma bytes_at_app l m r n k : Z.of_nat (length l) = n -> Z.of_nat (length m) = k -> bytes_at n k (l ++ m ++ r) = Some m.
Proof.
  intros Hn Hk. unfold bytes_at. rewrite !length_app.
  destruct (Z.ltb_spec (Z.of_nat (length l + (length m + length r))) (n + k)); [lia|].
  replace (Z.to_nat n) with (length l) by lia. replace (Z.to_nat k) with (length m) by lia.
  by rewrite drop_app_length, take_app_length.
Qed.

Lemma bytes_at_prefix l m r n k : Z.of_nat (length l) = n -> 0 <= k <= Z.of_nat (length m) ->
  bytes_at n k (l ++ m ++ r) = Some (take (Z.to_nat k) m).
Proof.
  intros Hn Hk. rewrite <- (take_drop (Z.to_nat k) m) at 1. rewrite <- app_assoc.
  apply bytes_at_app; [done|]. rewrite length_take. lia.
Qed.

(** What is sent: the masked first byte, the rest of the header, the masked
    packet number and the encrypted content. *)
Lemma protect_shape q c t bytes local local_addr sequence_number len send_buffer :
  let hl := header_size c t local + 4 in
  cnx_ok c -> id_ok local -> is_protected t = true -> 0 <= picoquic_get_version_index (header_version c t) ->
  hl <= len <= Z.of_nat (length bytes) -> len + aead_tag_size ek < 0x4000 -> hl + hp_iv_size hk <= len + aead_tag_size ek ->
  exists b0 h mask rest,
    let pn := picoformat_32 sequence_number in
    let fin := (b0 :: h) ++ pn in
    let input := take (Z.to_nat (len - hl)) (drop (Z.to_nat hl) bytes) in
    let cipher := aead_encrypt ek sequence_number fin input in
    let fm := if is_short t then 0x1F else 0x0F in
    finished_header c t local sequence_number (len + aead_tag_size ek) = fin /\
    Z.of_nat (length fin) = hl /\ is_u8 b0 /\ b0 = (if is_short t then short_first_byte c t else long_first_byte t) /\
    mask = hp_mask hk (take (Z.to_nat (hp_iv_size hk)) cipher) /\
    picoquic_protect_packet q c None t bytes local local_addr sequence_number len hl send_buffer ek hk =
    Some (len + aead_tag_size ek,
          ((Z.lxor b0 (Z.land (nth 0 mask 0) fm) :: h) ++ zip_with Z.lxor pn (tail mask) ++ cipher) ++ rest).
Proof.
  intros hl Hc Hl Ht Hvi Hlen Hmax Hiv. pose proof (tag_size_range (CryptoLaws := laws)) as Htag.
  pose proof (iv_size_range (CryptoLaws := laws)) as Hiv0.
  set (plen := len + aead_tag_size ek) in *.
  destruct (finished_header_split c t local sequence_number plen Hc Hl Ht ltac:(lia)) as (b0 & h & Hfin & Hh & Hb0 & Hb0t).
  destruct (create_header_shape c t local sequence_number plen Hc Hl Ht ltac:(lia)) as (h0 & Hcr & Hh0 & Hup).
  set (pn := picoformat_32 sequence_number) in *. set (fin := (b0 :: h) ++ pn) in *.
  set (input := take (Z.to_nat (len - hl)) (drop (Z.to_nat hl) bytes)).
  set (cipher := aead_encrypt ek sequence_number fin input).
  assert (Hpn : length pn = 4%nat) by done.
  assert (Hfl : Z.of_nat (length fin) = hl) by (unfold fin; rewrite length_app, Hpn; cbn [length]; lia).
  assert (Hin : Z.of_nat (length input) = len - hl) by (unfold input; rewrite length_take, length_drop; lia).
  assert (Hci : Z.of_nat (length cipher) = plen - hl) by (unfold cipher; rewrite (length_encrypt (CryptoLaws := laws)), Hin; lia).
  set (mask := hp_mask hk (take (Z.to_nat (hp_iv_size hk)) cipher)).
  exists b0, h, mask, (drop (length (fin ++ cipher)) send_buffer).
  split_and!; try done.
  unfold picoquic_protect_packet. rewrite Hcr. cbv beta iota zeta. fold plen. rewrite Hup, Hfin.
  destruct (parse_own_header q c t local sequence_number plen (drop (length fin) send_buffer) local_addr Hc Hl Ht Hvi ltac:(lia))
    as (r & ph & found & Hparse & Hshort).
  rewrite Hfin in Hparse. change (overwrite send_buffer fin) with (fin ++ drop (length fin) send_buffer). rewrite Hparse. cbn [mbind option_bind].
  rewrite (u32_small (len - hl)) by lia.
  assert (bytes_at hl (len - hl) bytes = Some input) as ->
    by (unfold bytes_at; destruct (Z.ltb_spec (Z.of_nat (length bytes)) (hl + (len - hl))); [lia|done]).
  cbn [mbind option_bind]. fold cipher. unfold overwrite. rewrite <- app_assoc.
  rewrite bytes_at_prefix by lia. cbn [mbind option_bind]. fold mask.
  destruct (hp_mask_bytes (CryptoLaws := laws) (take (Z.to_nat (hp_iv_size hk)) cipher)) as [Hml Hmu]. fold mask in Hml, Hmu.
  destruct mask as [|m0 mask']; [done|]. cbn [lookup list_lookup mbind option_bind nth tail].
  set (stale := drop (length (fin ++ cipher)) send_buffer).
  change ((fin ++ cipher ++ stale) !! 0%nat) with (Some b0). cbn [mbind option_bind].
  assert (Hb3 : Z.land b0 3 = 3).
  { apply list.Forall_cons in Hmu as [Hm0 _]. by apply (first_byte_masked c t b0 m0). }
  rewrite Hb3, Hshort. change (Z.to_nat (3 + 1)) with 4%nat.
  rewrite take_ge by (cbn [length] in Hml; lia).
  unfold fin. cbn [app alter list_alter]. f_equal. f_equal; [rewrite u32_small; lia|].
  rewrite <- app_assoc.
  change (Z.lxor b0 ?x :: h ++ ?y) with ((Z.lxor b0 x :: h) ++ y).
  replace (Z.to_nat (header_size c t local)) with (length (Z.lxor b0 (Z.land m0 (if is_short t then 31 else 15)) :: h))
    by (cbn [length]; lia).
  rewrite xor_from_app by (cbn [length] in Hml; lia). cbn [app]. by rewrite <- !app_assoc.
Qed.

(** Header protection is removed from what was sent. *)
Lemma remove_hp_protected ph c t b0 h pn cipher more :
  let fin := (b0 :: h) ++ pn in
  let fm := if is_short t then 0x1F else 0x0F in
  let mask := hp_mask hk (take (Z.to_nat (hp_iv_size hk)) cipher) in
  let packet := (Z.lxor b0 (Z.land (nth 0 mask 0) fm) :: h) ++ zip_with Z.lxor pn (tail mask) ++ cipher ++ more in
  is_protected t = true -> is_u8 b0 -> b0 = (if is_short t then short_first_byte c t else long_first_byte t) ->
  length pn = 4%nat -> Z.of_nat (length fin + length cipher) < 2 ^ 16 ->
  hp_iv_size hk <= Z.of_nat (length cipher) ->
  ptype ph = (if is_short t then one_rtt_protected_phi0 else t) ->
  offset ph = Z.of_nat (length (b0 :: h)) -> pn_offset ph = offset ph ->
  offset ph + payload_length ph = Z.of_nat (length fin + length cipher) ->
  remove_hp packet ph (Some hk) =
  Some (fin ++ cipher ++ more,
        with_pn ph (pn_value 0 pn) (pn_mask 32) (Z.of_nat (length fin)) (Z.of_nat (length cipher)) t).
Proof.
  intros fin fm mask packet Ht Hb0 Hb0t Hpn Hsz Hiv Hpt Ho Hpo Hpl. pose proof (iv_size_range (CryptoLaws := laws)) as Hiv0.
  destruct (hp_mask_bytes (CryptoLaws := laws) (take (Z.to_nat (hp_iv_size hk)) cipher)) as [Hml Hmu].
  fold mask in Hml, Hmu. unfold packet. destruct mask as [|m0 mask'] eqn:Hmask; [done|]. cbn [nth tail length] in *.
  apply list.Forall_cons in Hmu as [Hm0 _].
  destruct (first_byte_masked c t b0 m0 Ht Hm0 Hb0 Hb0t) as (Hbu & H80 & Hback & Hb3 & _). fold fm in Hbu, H80, Hback.
  set (b := Z.lxor b0 (Z.land m0 fm)) in *. assert (Hfin : length fin = S (length h + 4))
    by (unfold fin; rewrite length_app, Hpn; cbn [length]; lia).
  unfold remove_hp. rewrite Hpo, Ho. cbn [length].
  destruct (Z.ltb_spec (Z.of_nat (S (length h)) + payload_length ph) (Z.of_nat (S (length h)) + 4 + hp_iv_size hk)); [cbn [length] in *; lia|].
  assert (bytes_at (Z.of_nat (S (length h)) + 4) (hp_iv_size hk) ((b :: h) ++ zip_with Z.lxor pn mask' ++ cipher ++ more) =
          Some (take (Z.to_nat (hp_iv_size hk)) cipher)) as Hs.
  { rewrite (app_assoc (b :: h)). apply bytes_at_prefix; [|lia]. rewrite length_app, length_zip_with. cbn [length]. lia. }
  change (((b :: h) ++ ?x) !! 0%nat) with (Some b). cbn [mbind option_bind]. rewrite Hs. cbn [mbind option_bind].
  fold mask. rewrite Hmask. cbn [lookup list_lookup mbind option_bind tail]. rewrite H80.
  assert ((if negb (is_short t) then 15 else 31) = fm) as -> by (unfold fm; by destruct (is_short t)).
  rewrite Hback, Hb3. change (Z.to_nat (3 + 1)) with 4%nat. rewrite take_ge by lia.
  cbn [app insert list_insert].
  change (b0 :: h ++ ?x) with ((b0 :: h) ++ x). change (Z.of_nat (S (length h))) with (Z.of_nat (length (b0 :: h))).
  rewrite decode_pn_app by (cbn [length]; lia). cbn [mbind option_bind].
  unfold fin. rewrite <- app_assoc. f_equal. f_equal. rewrite Hpn, shift_mask_4. f_equal.
  - cbn [length]. rewrite length_app. cbn [length]. lia.
  - cbn [length] in *. rewrite u16_small; lia.
  - rewrite Hpt, Hb0t. unfold short_first_byte. destruct t; try done; by destruct (current_spin c).
Qed.

(** The whole way of a packet. *)
Lemma protect_decrypt q c t bytes local local_addr sequence_number len send_buffer more q' addr_from found path :
  let hl := header_size c t local + 4 in
  cnx_ok c -> id_ok local -> is_protected t = true -> 0 <= picoquic_get_version_index (header_version c t) ->
  hl <= len <= Z.of_nat (length bytes) -> len + aead_tag_size ek < 0x4000 -> hl + hp_iv_size hk <= len + aead_tag_size ek ->
  0 <= sequence_number < 2 ^ 62 -> reaches c t q' addr_from found -> (is_short t = true -> more = []) ->
  Z.of_nat (length more) < 2 ^ 31 ->
  let highest := end_of_sack_range (first_sack_item (ctx_sacks path (context_of t))) in
  0 <= highest < 2 ^ 62 -> highest + 1 - 2 ^ 31 <= sequence_number < highest + 1 + 2 ^ 31 ->
  exists n buffer ph d,
    picoquic_protect_packet q c None t bytes local local_addr sequence_number len hl send_buffer ek hk = Some (n, buffer) /\
    n = len + aead_tag_size ek /\ n <= Z.of_nat (length buffer) /\
    let datagram := take (Z.to_nat n) buffer ++ more in
    picoquic_parse_packet_header (Some q') datagram (Z.of_nat (length datagram)) addr_from None true = Some (0, ph, Some found) /\
    offset ph + payload_length ph = n /\ epoch ph = epoch_of t /\ pc ph = context_of t /\
    ptype ph = (if is_short t then one_rtt_protected_phi0 else t) /\
    picoquic_decrypt_packet datagram ph (Some hk) (Some dk) true path = Some d /\
    d_plain d = Some (take (Z.to_nat (len - hl)) (drop (Z.to_nat hl) bytes)) /\
    pn64 (d_ph d) = sequence_number /\ ptype (d_ph d) = t /\ offset (d_ph d) = hl /\
    payload_length (d_ph d) = n - hl /\
    d_already d = picoquic_is_pn_already_received (ctx_sacks path (context_of t)) sequence_number.
Proof.
  intros hl Hc Hl Ht Hvi Hlen Hmax Hiv Hseq Hr Hmore Hml highest Hhi Hwin.
  pose proof (tag_size_range (CryptoLaws := laws)) as Htag.
  destruct (protect_shape q c t bytes local local_addr sequence_number len send_buffer Hc Hl Ht Hvi Hlen Hmax Hiv)
    as (b0 & h & mask & stale & Hfin & Hfl & Hb0 & Hb0t & Hmask & Hprot).
  fold hl in Hfl, Hprot, Hmask. set (pn := picoformat_32 sequence_number) in *. set (fin := (b0 :: h) ++ pn) in *.
  set (input := take (Z.to_nat (len - hl)) (drop (Z.to_nat hl) bytes)) in *.
  set (cipher := aead_encrypt ek sequence_number fin input) in *.
  set (fm := if is_short t then 31 else 15) in *. set (n := len + aead_tag_size ek) in *.
  assert (Hin : Z.of_nat (length input) = len - hl) by (unfold input; rewrite length_take, length_drop; lia).
  assert (Hci : Z.of_nat (length cipher) = n - hl) by (unfold cipher; rewrite (length_encrypt (CryptoLaws := laws)), Hin; lia).
  destruct (hp_mask_bytes (CryptoLaws := laws) (take (Z.to_nat (hp_iv_size hk)) cipher)) as [Hmlen Hmu]. rewrite <- Hmask in Hmlen, Hmu.
  assert (Hm0 : is_u8 (nth 0 mask 0)) by (destruct mask; [done|]; by apply list.Forall_cons in Hmu as [? _]).
  destruct (first_byte_masked c t b0 (nth 0 mask 0) Ht Hm0 Hb0 Hb0t) as (Hbu & _ & _ & _ & Hbits).
  fold fm in Hbu, Hbits. set (b := Z.lxor b0 (Z.land (nth 0 mask 0) fm)) in *.
  set (mpn := zip_with Z.lxor pn (tail mask)) in *.
  assert (Hmpn : length mpn = 4%nat) by (unfold mpn; rewrite length_zip_with; change (length pn) with 4%nat; destruct mask as [|m0 mask']; [done|]; cbn [length tail] in Hmlen |- *; lia).
  assert (Hhlen : (length h + 5)%nat = Z.to_nat hl)
    by (unfold fin in Hfl; rewrite length_app in Hfl; cbn [length] in Hfl; change (length pn) with 4%nat in Hfl; lia).
  assert (Htake : take (Z.to_nat n) (((b :: h) ++ mpn ++ cipher) ++ stale) = (b :: h) ++ mpn ++ cipher).
  { replace (Z.to_nat n) with (length ((b :: h) ++ mpn ++ cipher)) by (rewrite !length_app; cbn [length]; lia). apply take_app_length. }
  assert (Hdl : Z.of_nat (length (((b :: h) ++ mpn ++ cipher) ++ more)) = n + Z.of_nat (length more))
    by (rewrite !length_app; cbn [length]; lia).
  destruct (parse_finished_header b c t local sequence_number n (mpn ++ cipher ++ more) q' addr_from found (n + Z.of_nat (length more)))
    as (ph & Hparse & _ & Hpt & Hpc & He & Ho & Hpo & Hpl & _); try done; [lia| |].
  { destruct (is_short t); [rewrite Hmore by done; cbn [length]; lia|lia]. }
  exists n, (((b :: h) ++ mpn ++ cipher) ++ stale), ph. rewrite Htake.
  rewrite Hfin in Hparse. unfold fin in Hparse. cbn [app tail] in Hparse.
  replace (Z.to_nat (header_size c t local) - 1)%nat with (length h) in Hparse by lia. rewrite take_app_length in Hparse.
  pose proof (remove_hp_protected ph c t b0 h pn cipher more Ht Hb0 Hb0t eq_refl) as Hrem.
  fold fin fm in Hrem. rewrite <- Hmask in Hrem. fold b mpn in Hrem.
  cbv zeta. rewrite Hdl. rewrite <- !app_assoc in Hprot. rewrite <- !app_assoc.
  eexists. split_and!; [exact Hprot|done|rewrite !length_app; cbn [length]; lia|exact Hparse|done|done|done|done| | | | | | |].
  { unfold picoquic_decrypt_packet. rewrite Hrem; [|lia|lia|done|rewrite Ho; cbn [length]; lia|done|lia].
    cbn [mbind option_bind pnmask Packet.pn with_pn pc with_pn64 offset payload_length pn64]. rewrite Hpc. fold highest.
    assert (picoquic_get_packet_number64 highest (pn_mask 32) (pn_value 0 pn) = sequence_number) as ->
      by (unfold pn; rewrite pn_value_format; apply get_packet_number64_spec; lia).
    rewrite (bytes_at_app [] fin (cipher ++ more) 0 _ eq_refl eq_refl : bytes_at 0 _ (fin ++ _) = _). cbn [mbind option_bind].
    rewrite (bytes_at_app fin cipher more _ _ eq_refl eq_refl). cbn [mbind option_bind andb].
    assert (aead_decrypt dk sequence_number fin cipher = Some input) as -> by apply (decrypt_encrypt (CryptoLaws := laws)).
    reflexivity. }
  all: cbn [d_plain d_ph d_already pn64 with_pn64 with_pn ptype offset payload_length]; done || lia.
Qed.

End Protect.

(** ** Finding the connection and its keys *)

Definition PICOQUIC_ERROR_DUPLICATE : Z := 0x400 + 1.
Definition PICOQUIC_ERROR_AEAD_CHECK : Z := 0x400 + 3.
Definition PICOQUIC_ERROR_INITIAL_TOO_SHORT : Z := 0x400 + 8.
Definition PICOQUIC_ERROR_DETECTED : Z := 0x400 + 21.
Definition PICOQUIC_ERROR_STATELESS_RESET : Z := 0x400 + 30.
Definition PICOQUIC_ENFORCED_INITIAL_MTU : Z := 1200.
Definition PICOQUIC_RESET_PACKET_MIN_SIZE : Z := 1 + 20 + 16.
Definition PICOQUIC_RESET_SECRET_SIZE : Z := 16.

Section Receive.
Context {aead_key hp_key : Type} {crypto : Crypto aead_key hp_key}.

(** The context of the receiver: its tables, and for every connection the keys
    to decrypt an epoch, the packet contexts of its first path, and the secret
    of a stateless reset; [create_cnx] is [picoquic_create_cnx]. *)
Record receiver := Receiver {
  rq : quic;
  keys : cnx -> Z -> option hp_key * option aead_key;
  path0 : cnx -> path_ctx;
  reset_secret : cnx -> list Z;
  create_cnx : connection_id -> connection_id -> address -> Z -> option cnx
}.

(** What [picoquic_parse_header_and_decrypt] leaves: the code, the header, the
    connection, [consumed], [new_context_created] and the decrypted content. *)
Record received_packet := Received {
  r_ret : Z;
  r_ph : packet_header;
  r_cnx : option cnx;
  r_consumed : Z;
  r_created : bool;
  r_plain : option (list Z)
}.

(** The [switch]: code, header, decoded length ([None] is [SIZE_MAX]), duplicate
    or not, and the content. *)
Definition decrypt_by_type (r : receiver) (c : cnx) (bytes : list Z) (ph : packet_header) (ret : Z)
    : option (Z * packet_header * option Z * bool * option (list Z)) :=
  let decrypt e :=
    d ← picoquic_decrypt_packet bytes ph (keys r c e).1 (keys r c e).2 true (path0 r c);
    Some (ret, d_ph d, (fun l => Z.of_nat (length l)) <$> d_plain d, d_already d, d_plain d) in
  match ptype ph return option (Z * packet_header * option Z * bool * option (list Z)) with
  | version_negotiation => Some (ret, ph, Some 0, false, None)
  | initial => decrypt 0
  | retry => Some (ret, with_pn64 (with_pn ph 0 0 (offset ph) (payload_length ph) (ptype ph)) 0,
                   Some (payload_length ph), false, None)
  | handshake => decrypt 2
  | zero_rtt_protected => decrypt 1
  | one_rtt_protected_phi0 | one_rtt_protected_phi1 => decrypt 3
  | packet_error => Some (PICOQUIC_ERROR_DETECTED, ph, Some 0, false, None)
  end.

Definition picoquic_parse_header_and_decrypt (r : receiver) (bytes : list Z) (len packet_length : Z) (addr_from : address)
    : option received_packet :=
  '(ret, ph, pcnx) ← picoquic_parse_packet_header (Some (rq r)) bytes len addr_from None true;
  if negb (ret =? 0) then Some (Received ret ph pcnx 0 false None)
  else
    let len := u32 (offset ph + payload_length ph) in
    let is_initial := bool_decide (ptype ph = initial) in
    let ret :=
      if is_initial && match pcnx with Some c => negb (client_mode c) | None => true end &&
         (packet_length <? PICOQUIC_ENFORCED_INITIAL_MTU)
      then PICOQUIC_ERROR_INITIAL_TOO_SHORT else 0 in
    let create := is_initial && (ret =? 0) && match pcnx with None => true | Some _ => false end in
    let pcnx := if create then create_cnx r (dest_cnx_id ph) (srce_cnx_id ph) addr_from (vn ph) else pcnx in
    let created := create && match pcnx with None => false | Some _ => true end in
    match pcnx with
    | Some c =>
      '(ret, ph, decoded, already, plain) ← decrypt_by_type r c bytes ph ret;
      let len := if is_initial then u32 (offset ph + payload_length ph) else len in
      let too_long := match decoded with None => true | Some n => u32 (len - offset ph) <? n end in
      if too_long then
        Some (Received PICOQUIC_ERROR_AEAD_CHECK ph (if created then None else Some c) len false None)
      else if (already : bool) then Some (Received PICOQUIC_ERROR_DUPLICATE ph (Some c) len created plain)
      else Some (Received ret (with_payload_length ph (u16 (default 0 decoded))) (Some c) len created plain)
    | None =>
      match ptype ph with
      | one_rtt_protected_phi0 | one_rtt_protected_phi1 =>
        match cnx_by_net (rq r) addr_from with
        | Some c =>
          if PICOQUIC_RESET_PACKET_MIN_SIZE <=? len then
            tail16 ← bytes_at (len - PICOQUIC_RESET_SECRET_SIZE) PICOQUIC_RESET_SECRET_SIZE bytes;
            if bool_decide (tail16 = reset_secret r c)
            then Some (Received PICOQUIC_ERROR_STATELESS_RESET ph (Some c) len false None)
            else Some (Received ret ph None len false None)
          else Some (Received ret ph None len false None)
        | None => Some (Received ret ph None len false None)
        end
      | _ => Some (Received ret ph None len false None)
      end
    end.

(** *** How far a packet reaches *)

Lemma decode_pn_offset (mask bytes : list Z) off v m bytes' off' v' m' :
  decode_pn mask bytes off v m = Some (bytes', off', v', m') -> 0 <= off -> off + Z.of_nat (length mask) < 2 ^ 32 ->
  off' = off + Z.of_nat (length mask).
Proof.
  revert bytes off v m. induction mask as [|k mask IH]; intros bytes off v m Hd Ho Hm; cbn [decode_pn length] in *.
  - injection Hd as _ <- _ _. lia.
  - destruct (bytes !! Z.to_nat off); [|done]. cbn [mbind option_bind] in Hd.
    rewrite u32_small in Hd by lia. apply IH in Hd; lia.
Qed.

(** The sizes of header protection: a sample that is not negative, and five bytes of mask. *)
Definition hp_sizes : Prop := forall (k : hp_key) sample, 0 <= hp_iv_size k /\ length (hp_mask k sample) = 5%nat.

Lemma remove_hp_end bytes ph hp bytes' ph' :
  hp_sizes -> remove_hp bytes ph hp = Some (bytes', ph') -> pn_offset ph = offset ph -> 0 <= offset ph < 2 ^ 31 ->
  0 <= payload_length ph < 2 ^ 16 -> offset ph' + payload_length ph' = offset ph + payload_length ph.
Proof.
  intros Hhp H Hpo Ho Hp. unfold remove_hp in H. destruct hp as [hp|]; [|injection H as _ <-; cbn; lia].
  rewrite Hpo in H. destruct (Z.ltb_spec (offset ph + payload_length ph) (offset ph + 4 + hp_iv_size hp)); [injection H as _ <-; cbn; lia|].
  destruct (bytes !! 0%nat) as [b|]; [|done]. cbn [mbind option_bind] in H. destruct (bytes_at _ _ _) as [sample|]; [|done].
  cbn [mbind option_bind] in H. destruct (Hhp hp sample) as [Hiv Hml].
  destruct (hp_mask hp sample !! 0%nat) as [m0|]; [|done]. cbn [mbind option_bind] in H.
  set (b' := Z.lxor _ _) in H.
  assert (Hpn : 0 <= Z.land b' 3 <= 3)
    by (change 3 with (2 ^ 2 - 1); rewrite land_ones_mod by lia; pose proof (Z.mod_pos_bound b' (2 ^ 2)); lia).
  destruct (decode_pn _ _ _ _ _) as [[[[bs o] v] m]|] eqn:Hd; [|done]. cbn [mbind option_bind] in H. injection H as _ <-.
  cbn [offset payload_length with_pn].
  assert (Hlt : Z.of_nat (length (take (Z.to_nat (Z.land b' 3 + 1)) (tail (hp_mask hp sample)))) = Z.land b' 3 + 1).
  { rewrite length_take. destruct (hp_mask hp sample); [done|]. cbn [length tail] in *. lia. }
  apply decode_pn_offset in Hd; [|lia|lia]. rewrite u16_small by lia. lia.
Qed.

Lemma decrypt_packet_end bytes ph hp k receiving path d :
  hp_sizes -> picoquic_decrypt_packet bytes ph hp k receiving path = Some d -> pn_offset ph = offset ph -> 0 <= offset ph < 2 ^ 31 ->
  0 <= payload_length ph < 2 ^ 16 -> offset (d_ph d) + payload_length (d_ph d) = offset ph + payload_length ph.
Proof.
  intros Hhp H Hpo Ho Hp. unfold picoquic_decrypt_packet in H.
  destruct (remove_hp bytes ph hp) as [[bytes' ph']|] eqn:Hr; [|done]. cbn [mbind option_bind] in H.
  apply remove_hp_end in Hr; try done. rewrite <- Hr.
  destruct k as [k|]; [|by injection H as <-].
  destruct (bytes_at 0 _ _); [|done]. cbn [mbind option_bind] in H. destruct (bytes_at _ _ _); [|done]. by injection H as <-.
Qed.

(** A packet that comes through with code 0 was not empty; the codes of the others. *)
Lemma received_progress r bytes len packet_length addr_from rp :
  hp_sizes -> picoquic_parse_header_and_decrypt r bytes len packet_length addr_from = Some rp ->
  Forall is_u8 bytes -> 0 <= len < 2 ^ 16 -> is_u8 (local_ctx_length (rq r)) ->
  r_ret rp ∈ [-1; 0; PICOQUIC_ERROR_DUPLICATE; PICOQUIC_ERROR_AEAD_CHECK; PICOQUIC_ERROR_INITIAL_TOO_SHORT;
              PICOQUIC_ERROR_DETECTED; PICOQUIC_ERROR_STATELESS_RESET] /\
  (r_ret rp = 0 -> (r_cnx rp = None -> version_index (r_ph rp) < 0 /\ vn (r_ph rp) <> 0) ->
   0 < r_consumed rp <= Z.max len 47).
Proof.
  intros Hhp H Hb Hlen Hq. unfold picoquic_parse_header_and_decrypt in H.
  destruct (picoquic_parse_packet_header _ _ _ _ _ _) as [[[ret ph] pcnx]|] eqn:Hparse; [|done]. cbn [mbind option_bind] in H.
  destruct (Z.eqb_spec ret 0) as [->|Hne]; cbn [negb] in H.
  2:{ injection H as <-. cbn [r_ret]. destruct (parse_header_ret _ _ _ _ _ _ _ _ _ Hparse) as [->| ->]; [done|]. split; [set_solver|done]. }
  set (ret1 := if _ && _ && _ then PICOQUIC_ERROR_INITIAL_TOO_SHORT else 0) in H.
  assert (Hret1 : ret1 ∈ [0; PICOQUIC_ERROR_INITIAL_TOO_SHORT]) by (unfold ret1; destruct (_ && _ && _); set_solver).
  set (create := _ && _ && _) in H. set (pcnx1 := if create then _ else _) in H.
  pose proof (fun Hok => parse_header_progress _ _ _ _ _ _ _ Hparse Hb Hlen (fun q' Hq' => eq_rect _ (fun q => is_u8 (local_ctx_length q)) Hq _ (Some_inj _ _ Hq')) Hok) as Hprog.
  destruct pcnx1 as [c|].
  - destruct (decrypt_by_type r c bytes ph ret1) as [[[[[ret2 ph2] decoded] already] plain]|] eqn:Hd; [|done].
    cbn [mbind option_bind] in H. destruct (match decoded with None => true | Some n => _ end); [injection H as <-; split; [set_solver|done]|].
    assert (Hret2 : ret2 = ret1 \/ ptype ph = packet_error /\ ret2 = PICOQUIC_ERROR_DETECTED).
    { unfold decrypt_by_type in Hd. destruct (ptype ph);
        try (destruct (picoquic_decrypt_packet _ _ _ _ _ _); [|done]; cbn [mbind option_bind] in Hd); injection Hd; auto. }
    destruct already; injection H as <-; cbn [r_ret r_consumed r_cnx]; [split; [set_solver|done]|].
    split; [destruct Hret2 as [->|[_ ->]]; set_solver|]. intros H0 _.
    destruct Hret2 as [Hret2|[_ ->]]; [|done].
    destruct (decide (ptype ph = packet_error)) as [He|Hne].
    { unfold decrypt_by_type in Hd. rewrite He in Hd. injection Hd as <- _. done. }
    destruct (Hprog (or_introl Hne)) as (Hsum & Hpl & Ho & Hpo). case_bool_decide as Hi.
    + rewrite Hi in *. unfold decrypt_by_type in Hd. rewrite Hi in Hd.
      destruct (picoquic_decrypt_packet _ _ _ _ _ _) as [d|] eqn:Hdp; [|done]. cbn [mbind option_bind] in Hd.
      injection Hd as _ <- _ _ _. apply decrypt_packet_end in Hdp; [|done|by apply Hpo|lia|done].
      rewrite Hdp, u32_small; lia.
    + rewrite u32_small; lia.
  - assert (r_ret rp = PICOQUIC_ERROR_STATELESS_RESET \/ rp = Received ret1 ph None (u32 (offset ph + payload_length ph)) false None) as [Hs| ->].
    { destruct (ptype ph); try (injection H as <-; by right);
      (destruct (cnx_by_net _ _); [|injection H as <-; by right]; destruct (_ <=? _); [|injection H as <-; by right];
       destruct (bytes_at _ _ _); [|done]; cbn [mbind option_bind] in H; case_bool_decide; injection H as <-; auto). }
    + rewrite Hs. split; [set_solver|done].
    + cbn [r_ret r_consumed r_cnx r_ph]. split; [set_solver|]. intros _ Hv.
      destruct (Hprog (or_intror (Hv eq_refl))) as (Hsum & Hpl & Ho & _). rewrite u32_small; lia.
Qed.

(** *** What is accepted *)

Lemma remove_hp_fields bytes ph hp bytes' ph' :
  remove_hp bytes ph hp = Some (bytes', ph') ->
  pc ph' = pc ph /\ (is_short (ptype ph') = is_short (ptype ph)) /\ (is_short (ptype ph) = false -> ptype ph' = ptype ph).
Proof.
  unfold remove_hp. destruct hp as [hp|]; [|intros [= <- <-]; done].
  destruct (_ <? _); [intros [= <- <-]; done|].
  destruct (bytes !! 0%nat); [|done]. cbn [mbind option_bind]. destruct (bytes_at _ _ _); [|done]. cbn [mbind option_bind].
  destruct (hp_mask hp _ !! 0%nat); [|done]. cbn [mbind option_bind].
  destruct (decode_pn _ _ _ _ _) as [[[[b o] v] m]|]; [|done]. intros [= <- <-]. cbn [pc with_pn ptype].
  case_bool_decide as Ht; [|done]. rewrite Ht. split; [done|]. split; [by destruct (_ =? _)|done].
Qed.

(** What the packet is without its header protection, and the length of its number: the mask is made from a sample of
    the bytes from the fifth byte after the place of the number on, it covers the low bits of the first byte and the
    bytes of the number.  Without a key, or when the packet is too short for a sample, nothing is removed. *)
Definition unprotected (hp : option hp_key) (ph : packet_header) (bytes : list Z) : list Z * Z :=
  match hp with
  | None => (bytes, 0)
  | Some hp =>
    if offset ph + payload_length ph <? pn_offset ph + 4 + hp_iv_size hp then (bytes, 0)
    else
      let mask := hp_mask hp (take (Z.to_nat (hp_iv_size hp)) (drop (Z.to_nat (pn_offset ph + 4)) bytes)) in
      let b0 := Z.lxor (nth 0 bytes 0) (Z.land (nth 0 mask 0) (if Z.testbit (nth 0 bytes 0) 7 then 0x0F else 0x1F)) in
      let pn_l := Z.land b0 3 + 1 in
      (xor_from (Z.to_nat (pn_offset ph)) (take (Z.to_nat pn_l) (tail mask)) (<[0%nat := b0]> bytes), pn_l)
  end.

Lemma xor_from_below mask : forall i (bytes : list Z) j, (j < i)%nat -> xor_from i mask bytes !! j = bytes !! j.
Proof.
  induction mask as [|m mask IH]; intros i bytes j Hj; [done|]. cbn [xor_from]. rewrite IH by lia. by rewrite list_lookup_alter_ne by lia.
Qed.

Lemma xor_from_above mask : forall i (bytes : list Z), drop (i + length mask) (xor_from i mask bytes) = drop (i + length mask) bytes.
Proof.
  induction mask as [|m mask IH]; intros i bytes; [done|]. cbn [xor_from length].
  replace (i + S (length mask))%nat with (S i + length mask)%nat by lia. rewrite IH. apply list_eq. intros k.
  rewrite !lookup_drop, list_lookup_alter_ne by lia. done.
Qed.

Lemma decode_pn_xor mask : forall (bytes : list Z) off v m bytes' off' v' m',
  decode_pn mask bytes off v m = Some (bytes', off', v', m') -> 0 <= off -> off + Z.of_nat (length mask) < 2 ^ 32 ->
  bytes' = xor_from (Z.to_nat off) mask bytes /\ off' = off + Z.of_nat (length mask) /\
  v' = pn_value v (take (length mask) (drop (Z.to_nat off) bytes')) /\ m' = shift_mask m (length mask).
Proof.
  induction mask as [|k mask IH]; intros bytes off v m bytes' off' v' m' Hd Ho Hm; cbn [decode_pn length xor_from] in *.
  - injection Hd as <- <- <- <-. split_and!; [done|lia|done|done].
  - destruct (bytes !! Z.to_nat off) as [b|] eqn:Hb; [|done]. cbn [mbind option_bind] in Hd. rewrite u32_small in Hd by lia.
    apply IH in Hd as (Hb' & -> & -> & ->); [|lia|lia]. replace (Z.to_nat (off + 1)) with (S (Z.to_nat off)) in * by lia.
    assert (<[Z.to_nat off := Z.lxor b k]> bytes = alter (fun b => Z.lxor b k) (Z.to_nat off) bytes) as Ha.
    { apply list_eq. intros j. destruct (decide (j = Z.to_nat off)) as [->|Hne].
      - rewrite list_lookup_alter, decide_True, Hb by done. cbn. apply list_lookup_insert_eq. by apply lookup_lt_Some in Hb.
      - by rewrite list_lookup_insert_ne, list_lookup_alter_ne by done. }
    split_and!; [by rewrite <- Ha|lia| |unfold shift_mask; by rewrite Nat.iter_succ_r].
    assert (bytes' !! Z.to_nat off = Some (Z.lxor b k)) as Hat.
    { rewrite Hb', xor_from_below by lia. apply list_lookup_insert_eq. by apply lookup_lt_Some in Hb. }
    rewrite (drop_S _ _ _ Hat). done.
Qed.

Lemma remove_hp_unprotected bytes ph hp bytes' ph' :
  hp_sizes -> Forall is_u8 bytes -> pn_offset ph = offset ph -> 0 <= offset ph < 2 ^ 31 -> 0 <= payload_length ph < 2 ^ 16 ->
  remove_hp bytes ph hp = Some (bytes', ph') ->
  let '(clear, pn_l) := unprotected hp ph bytes in
  bytes' = clear /\ offset ph' = pn_offset ph + pn_l /\ drop (Z.to_nat (offset ph')) bytes' = drop (Z.to_nat (offset ph')) bytes /\
  (0 < pn_l -> pnmask ph' = pn_mask (8 * pn_l) /\ pn ph' = be_decode 0 (take (Z.to_nat pn_l) (drop (Z.to_nat (pn_offset ph)) clear)) mod 2 ^ 32).
Proof.
  intros Hhp Hb8 Hpo Ho Hp H. unfold remove_hp in H. unfold unprotected.
  destruct hp as [hp|]; [|injection H as <- <-; cbn [offset no_pn with_pn]; rewrite Z.add_0_r; split_and!; [done|done|done|intros ?; lia]].
  destruct (Z.ltb_spec (offset ph + payload_length ph) (pn_offset ph + 4 + hp_iv_size hp)); [injection H as <- <-; cbn; split_and!; try done; lia|].
  destruct (bytes !! 0%nat) as [b|] eqn:Hb; [|done]. cbn [mbind option_bind] in H. destruct (bytes_at _ _ _) as [sample|] eqn:Hsm; [|done].
  cbn [mbind option_bind] in H. unfold bytes_at in Hsm. destruct (Z.of_nat (length bytes) <? _); [done|]. injection Hsm as Hsm. rewrite Hsm.
  destruct (Hhp hp sample) as [_ Hml]. destruct (hp_mask hp sample) as [|m0 ms] eqn:Hmask; [done|]. cbn [lookup list_lookup mbind option_bind nth tail] in H |- *.
  assert (nth 0 bytes 0 = b) as -> by (rewrite nth_lookup, Hb; done). assert (is_u8 b) as Hu by (by eapply Forall_lookup_1).
  assert (Z.testbit b 7 = (Z.land b 0x80 =? 0x80)) as -> by (apply eqb_prop; clear -Hu; revert b Hu; apply forall_bytes; vm_compute; reflexivity).
  set (b' := Z.lxor b _) in H |- *.
  assert (Hpn : 0 <= Z.land b' 3 <= 3)
    by (change 3 with (2 ^ 2 - 1); rewrite land_ones_mod by lia; pose proof (Z.mod_pos_bound b' (2 ^ 2)); lia).
  destruct (decode_pn _ _ _ _ _) as [[[[bs o] v] m]|] eqn:Hd; [|done]. cbn [mbind option_bind] in H. injection H as <- <-.
  cbn [offset payload_length with_pn pnmask pn].
  assert (Hlt : Z.of_nat (length (take (Z.to_nat (Z.land b' 3 + 1)) ms)) = Z.land b' 3 + 1) by (rewrite length_take; cbn [length] in Hml; lia).
  apply decode_pn_xor in Hd as (Hbs & -> & -> & ->); [|lia|lia]. rewrite Hlt, Hpo. split_and!; [done|done| |].
  - replace (Z.to_nat (offset ph + (Z.land b' 3 + 1))) with (Z.to_nat (offset ph) + length (take (Z.to_nat (Z.land b' 3 + 1)) ms))%nat by lia.
    rewrite Hbs, xor_from_above. apply list_eq. intros i. rewrite !lookup_drop, list_lookup_insert_ne by lia. done.
  - intros _. replace (length (take (Z.to_nat (Z.land b' 3 + 1)) ms)) with (Z.to_nat (Z.land b' 3 + 1)) by lia. split.
    + assert (Z.land b' 3 = 0 \/ Z.land b' 3 = 1 \/ Z.land b' 3 = 2 \/ Z.land b' 3 = 3) as [-> | [-> | [-> | ->]]] by lia; reflexivity.
    + rewrite Hbs. change 0 with (0 mod 2 ^ 32) at 1. by rewrite pn_value_be.
Qed.

(** The keys, the number and the bytes that [picoquic_decrypt_packet] used when it succeeded. *)
Lemma decrypt_packet_inv bytes ph hp k path d plain :
  hp_sizes -> Forall is_u8 bytes -> pn_offset ph = offset ph -> 0 <= offset ph < 2 ^ 31 -> 0 <= payload_length ph < 2 ^ 16 ->
  picoquic_decrypt_packet bytes ph hp k true path = Some d -> d_plain d = Some plain ->
  exists dk, k = Some dk /\
    (let '(clear, pn_l) := unprotected hp ph bytes in
     let off := pn_offset ph + pn_l in
     offset (d_ph d) = off /\
     aead_decrypt dk (pn64 (d_ph d)) (take (Z.to_nat off) clear)
       (take (Z.to_nat (offset ph + payload_length ph - off)) (drop (Z.to_nat off) bytes)) = Some plain /\
     (0 < pn_l -> pn64 (d_ph d) = picoquic_get_packet_number64 (end_of_sack_range (first_sack_item (ctx_sacks path (pc ph)))) (pn_mask (8 * pn_l))
                                    (be_decode 0 (take (Z.to_nat pn_l) (drop (Z.to_nat (pn_offset ph)) clear)) mod 2 ^ 32))) /\
    d_already d = picoquic_is_pn_already_received (ctx_sacks path (pc ph)) (pn64 (d_ph d)) /\
    is_short (ptype (d_ph d)) = is_short (ptype ph) /\ (is_short (ptype ph) = false -> ptype (d_ph d) = ptype ph) /\
    pc (d_ph d) = pc ph.
Proof.
  intros Hhp Hb8 Hpo Ho Hpl Hd Hp. pose proof (decrypt_packet_end _ _ _ _ _ _ _ Hhp Hd Hpo Ho Hpl) as Hend. unfold picoquic_decrypt_packet in Hd.
  destruct (remove_hp bytes ph hp) as [[bytes' ph']|] eqn:Hr; [|done]. pose proof (remove_hp_unprotected _ _ _ _ _ Hhp Hb8 Hpo Ho Hpl Hr) as Hu.
  apply remove_hp_fields in Hr as (Hpc & Hs & Ht). cbn [mbind option_bind] in Hd. destruct k as [dk|]; [|by injection Hd as <-].
  destruct (bytes_at 0 _ _) as [aad|] eqn:Haad; [|done]. cbn [mbind option_bind] in Hd.
  destruct (bytes_at (offset _) _ _) as [input|] eqn:Hin; [|done]. cbn [mbind option_bind] in Hd. injection Hd as <-.
  cbn [d_plain d_ph d_already ptype pn64 with_pn64 pc andb offset payload_length] in *. rewrite <- Hpc. exists dk. split; [done|].
  destruct (unprotected hp ph bytes) as [clear pn_l]. destruct Hu as (-> & Hoff & Hrest & Hnum).
  split; [|done]. unfold bytes_at in Haad, Hin. do 2 (case_match; [done|]). simplify_eq. split_and!; [done| |].
  - rewrite <- Hoff, <- Hp, <- Hrest, Hoff in *. rewrite drop_0. by replace (payload_length ph') with (offset ph + payload_length ph - (pn_offset ph + pn_l)) by lia.
  - intros Hl. destruct (Hnum Hl) as [-> ->]. done.
Qed.

Lemma decrypt_by_type_inv r c bytes ph ret ret' ph' decoded already plain :
  decrypt_by_type r c bytes ph ret = Some (ret', ph', decoded, already, plain) -> is_protected (ptype ph') = true ->
  ret' = ret /\ is_protected (ptype ph) = true /\ decoded = (fun l => Z.of_nat (length l)) <$> plain /\
  exists d, picoquic_decrypt_packet bytes ph (keys r c (epoch_of (ptype ph))).1 (keys r c (epoch_of (ptype ph))).2
              true (path0 r c) = Some d /\ ph' = d_ph d /\ already = d_already d /\ plain = d_plain d.
Proof.
  unfold decrypt_by_type. intros H Hp. destruct (ptype ph) eqn:Ht; cbn [epoch_of];
    try (destruct (picoquic_decrypt_packet _ _ _ _ _ _) as [d|]; [|done]; cbn [mbind option_bind] in H; injection H as <- <- <- <- <-;
         split_and!; try done; by exists d).
  all: injection H as <- <- <- <- <-; cbn in Hp; rewrite ?Ht in Hp; done.
Qed.


(** A stateless reset is never recognised: the parser leaves the type of a
    short header for which it finds no connection at [packet_error], so that the
    comparison with the reset secret is never reached. *)
Theorem stateless_reset_unreachable r bytes len packet_length addr_from :
  r_ret <$> picoquic_parse_header_and_decrypt r bytes len packet_length addr_from <> Some PICOQUIC_ERROR_STATELESS_RESET.
Proof.
  unfold picoquic_parse_header_and_decrypt.
  destruct (picoquic_parse_packet_header _ _ _ _ _ _) as [[[ret ph] pcnx]|] eqn:Hparse; [|done]. cbn [mbind option_bind].
  destruct (Z.eqb_spec ret 0) as [->|Hne]; cbn [negb].
  2:{ apply parse_header_ret in Hparse as [->| ->]; [done|]. cbn. intros [=]. }
  set (ret1 := if _ && _ && _ then PICOQUIC_ERROR_INITIAL_TOO_SHORT else 0).
  assert (Hret1 : ret1 <> PICOQUIC_ERROR_STATELESS_RESET) by (unfold ret1; destruct (_ && _ && _); done).
  set (create := _ && _ && _). destruct (if create then _ else _) as [c'|] eqn:Hpc1.
  - destruct (decrypt_by_type r c' bytes ph ret1) as [[[[[ret2 ph2] decoded] already] plain]|] eqn:Hd; [|done].
    cbn [mbind option_bind]. destruct (match decoded with None => true | Some n => _ end); [done|].
    destruct already; [done|]. cbn. intros [= Hr]. apply Hret1. rewrite <- Hr. clear -Hd Hr.
    unfold decrypt_by_type in Hd. destruct (ptype ph);
      try (destruct (picoquic_decrypt_packet _ _ _ _ _ _); [|done]; cbn [mbind option_bind] in Hd);
      injection Hd; intros; subst ret2; done.
  - assert (pcnx = None /\ is_short (ptype ph) = false \/ is_short (ptype ph) = false) as Hs.
    { destruct pcnx as [c|]; [|left; split; [done|]; by eapply parse_header_no_cnx].
      unfold create in Hpc1. rewrite andb_false_r in Hpc1. done. }
    assert (is_short (ptype ph) = false) as Hs' by (by destruct Hs as [[_ ?]|?]).
    destruct (ptype ph); cbn; try done; intros [= Hr]; by apply Hret1.
Qed.

(** C6. The way of a packet: what [picoquic_protect_packet] makes of a content,
    followed by other packets of the same datagram unless its header is short,
    is taken apart by the receiver with the content, the type and the full packet
    number that the sender used, for every number within 2^31 of the next one the
    receiver expects.  The code is 0, or says that it is a duplicate when the
    number was received before; the receiver goes on right behind the packet. *)
Theorem protected_packet_received (ek dk : aead_key) (hk : hp_key) `{!CryptoLaws ek dk hk}
    q c t bytes local local_addr sequence_number len send_buffer more r addr_from found :
  let hl := header_size c t local + 4 in
  cnx_ok c -> id_ok local -> is_protected t = true -> 0 <= picoquic_get_version_index (header_version c t) ->
  hl <= len <= Z.of_nat (length bytes) -> len + aead_tag_size ek < 0x4000 -> hl + hp_iv_size hk <= len + aead_tag_size ek ->
  0 <= sequence_number < 2 ^ 62 -> reaches c t (rq r) addr_from found -> (is_short t = true -> more = []) ->
  Z.of_nat (length more) < 2 ^ 31 -> keys r found (epoch_of t) = (Some hk, Some dk) ->
  (t = initial -> client_mode found = true \/ PICOQUIC_ENFORCED_INITIAL_MTU <= len + aead_tag_size ek + Z.of_nat (length more)) ->
  let sacks := ctx_sacks (path0 r found) (context_of t) in
  let highest := end_of_sack_range (first_sack_item sacks) in
  0 <= highest < 2 ^ 62 -> highest + 1 - 2 ^ 31 <= sequence_number < highest + 1 + 2 ^ 31 ->
  exists n buffer rp,
    picoquic_protect_packet q c None t bytes local local_addr sequence_number len hl send_buffer ek hk = Some (n, buffer) /\
    let datagram := take (Z.to_nat n) buffer ++ more in
    let total := Z.of_nat (length datagram) in
    picoquic_parse_header_and_decrypt r datagram total total addr_from = Some rp /\
    r_ret rp = (if picoquic_is_pn_already_received sacks sequence_number then PICOQUIC_ERROR_DUPLICATE else 0) /\
    r_cnx rp = Some found /\ r_consumed rp = n /\
    r_plain rp = Some (take (Z.to_nat (len - hl)) (drop (Z.to_nat hl) bytes)) /\
    ptype (r_ph rp) = t /\ pn64 (r_ph rp) = sequence_number.
Proof.
  intros hl Hc Hl Ht Hvi Hlen Hmax Hiv Hseq Hr Hmore Hml Hk Hinit sacks highest Hhi Hwin.
  destruct (protect_decrypt ek dk hk q c t bytes local local_addr sequence_number len send_buffer more (rq r) addr_from found
              (path0 r found) Hc Hl Ht Hvi Hlen Hmax Hiv Hseq Hr Hmore Hml Hhi Hwin)
    as (n & buffer & ph & d & Hprot & Hn & Hbl & Hparse & Hpl & He & Hpc & Hpt & Hdec & Hplain & Hpn & Hdt & Hdo & Hdl & Hal).
  pose proof (tag_size_range (CryptoLaws := CryptoLaws0)) as Htag.
  pose proof (header_size_pos c t local) as Hhs.
  set (input := take (Z.to_nat (len - hl)) (drop (Z.to_nat hl) bytes)) in *.
  assert (Hin : Z.of_nat (length input) = len - hl) by (unfold input; rewrite length_take, length_drop; lia).
  exists n, buffer. set (datagram := take (Z.to_nat n) buffer ++ more) in *.
  assert (Hd : decrypt_by_type r found datagram ph 0 = Some (0, d_ph d, Some (len - hl), d_already d, d_plain d)).
  { rewrite <- Hin. unfold decrypt_by_type. rewrite Hpt.
    destruct t; try done; cbn [is_short]; cbn [epoch_of] in Hk; rewrite Hk; cbn [fst snd]; rewrite Hdec; cbn [mbind option_bind]; by rewrite Hplain. }
  assert (Hmtu : bool_decide (ptype ph = initial) && negb (client_mode found) &&
            (Z.of_nat (length datagram) <? PICOQUIC_ENFORCED_INITIAL_MTU) = false).
  { case_bool_decide as Hpi; [|done]. assert (t = initial) as Hti by (rewrite Hpt in Hpi; by destruct (is_short t)).
    destruct (Hinit Hti) as [->|Hmtu]; [done|]. rewrite andb_true_l. apply andb_false_intro2, Z.ltb_ge.
    etrans; [exact Hmtu|]. unfold datagram. rewrite length_app, length_take. lia. }
  fold sacks in Hal. eexists. split; [done|]. split.
  { unfold picoquic_parse_header_and_decrypt. rewrite Hparse. cbn [mbind option_bind Z.eqb negb].
    rewrite andb_false_r, Hmtu. cbv iota.
    rewrite Hd. cbn [mbind option_bind]. rewrite Hdo, Hdl, Hpl. fold hl. rewrite (u32_small n), (u32_small (hl + (n - hl))) by lia.
    assert ((if bool_decide (ptype ph = initial) then hl + (n - hl) else n) = n) as -> by (case_bool_decide; lia).
    rewrite u32_small by lia. destruct (Z.ltb_spec (n - hl) (len - hl)); [lia|]. rewrite Hal. cbn [andb].
    match goal with |- (if ?x then Some ?a else Some ?b) = _ => transitivity (Some (if x then a else b)); [by destruct x|] end.
    reflexivity. }
  destruct (picoquic_is_pn_already_received sacks sequence_number); cbn [r_ret r_cnx r_consumed r_plain r_ph]; done.
Qed.

End Receive.

(** ** Examples *)

(** A cipher that satisfies the laws: the content is xored with the key, and the
    tag is made of the key, the number and the length of the authenticated data. *)
Definition toy_tag (k seq : Z) (aad : list Z) : list Z := repeat (u8 (k + seq + Z.of_nat (length aad))) 16.

#[export] Instance toy_crypto : Crypto Z Z := {
  aead_tag_size _ := 16;
  aead_encrypt k seq aad input := map (fun b => Z.lxor b k) input ++ toy_tag k seq aad;
  aead_decrypt k seq aad input :=
    if bool_decide (drop (length input - 16) input = toy_tag k seq aad)
    then Some (map (fun b => Z.lxor b k) (take (length input - 16) input)) else None;
  hp_iv_size _ := 16;
  hp_mask k sample := map (fun b => u8 (b + k)) (take 5 (sample ++ repeat 0 5))
}.

#[export] Instance toy_laws k hk : CryptoLaws (H := toy_crypto) k k hk.
Proof.
  split.
  - simpl. lia.
  - intros. simpl. rewrite length_app, length_map. unfold toy_tag. rewrite repeat_length. lia.
  - intros seq aad input. cbn [aead_encrypt aead_decrypt toy_crypto]. rewrite length_app, length_map.
    assert (length (toy_tag k seq aad) = 16%nat) as -> by apply repeat_length.
    replace (length input + 16 - 16)%nat with (length (map (fun b => Z.lxor b k) input)) by (rewrite length_map; lia).
    rewrite drop_app_length, bool_decide_true, take_app_length by done. f_equal. rewrite map_map. rewrite <- (map_id input) at 2.
    apply map_ext. intros b. by rewrite Z.lxor_assoc, Z.lxor_nilpotent, Z.lxor_0_r.
  - simpl. lia.
  - intros sample. cbn [hp_mask toy_crypto]. split.
    + rewrite length_map, length_take, length_app, repeat_length. lia.
    + apply list.Forall_forall. intros x Hx. apply list_elem_of_fmap in Hx as (b & -> & _). apply u8_range.
Qed.

Definition toy_receiver : receiver (aead_key := Z) (hp_key := Z) :=
  Receiver sample_quic (fun _ e => (Some (7 + e), Some (11 + e)))
    (fun _ => PathCtx (fun _ => Chain (Sack 0 1000) []) (fun _ => 0)) (fun _ => repeat 0 16) (fun _ _ _ _ => None).

Lemma protected_packet_received_witness :
  exists n buffer rp,
    picoquic_protect_packet sample_quic sample_cnx None one_rtt_protected_phi0 (repeat 1 60) [9;9;9;9] 0 1001 60 10
      (repeat 0 100) 14 10 = Some (n, buffer) /\
    let datagram := take (Z.to_nat n) buffer in
    picoquic_parse_header_and_decrypt toy_receiver datagram 76 76 0 = Some rp /\
    r_ret rp = 0 /\ r_plain rp = Some (repeat 1 50) /\ pn64 (r_ph rp) = 1001.
Proof.
  destruct (protected_packet_received 14 14 10 sample_quic sample_cnx one_rtt_protected_phi0 (repeat 1 60) [9;9;9;9] 0 1001 60
              (repeat 0 100) [] toy_receiver 0 sample_cnx sample_cnx_ok sample_id_ok eq_refl
              ltac:(vm_compute; congruence) ltac:(vm_compute; split; congruence) ltac:(vm_compute; reflexivity)
              ltac:(vm_compute; congruence) ltac:(lia) (conj eq_refl eq_refl) (fun _ => eq_refl)
              ltac:(vm_compute; reflexivity) eq_refl ltac:(discriminate)
              ltac:(vm_compute; split; [congruence|reflexivity]) ltac:(vm_compute; split; [congruence|reflexivity]))
    as (n & buffer & rp & Hp & Hr & Hret & _ & Hn & Hplain & _ & Hpn).
  exists n, buffer, rp. split; [exact Hp|].
  assert (Hn76 : n = 76 /\ length buffer = 100%nat) by (clear -Hp; vm_compute in Hp; injection Hp as <- <-; split; reflexivity).
    destruct Hn76 as [-> Hb]. rewrite app_nil_r, length_take, Hb in Hr. split; [exact Hr|]. split; [exact Hret|].
    split; [exact Hplain|exact Hpn].
Defined.

Definition sample_datagram : list Z :=
  [90; 5; 6; 7; 8; 9; 25; 25; 26; 240] ++ repeat 15 50 ++ repeat 1 16.

Lemma toy_mask_sizes : hp_sizes (hp_key := Z) (crypto := toy_crypto).
Proof. intros k sample. cbn [hp_iv_size hp_mask toy_crypto]. rewrite length_map, length_take, length_app, repeat_length. lia. Qed.

Lemma sample_datagram_bytes : Forall is_u8 sample_datagram.
Proof. apply (bool_decide_unpack _). vm_compute. exact I. Qed.


End PacketProtect.
