(* ===== verification/PacketIn.v ===== *)
(** * Incoming packets: picoquic/packet.c, quicctx.c

    What a connection does with the packets that were parsed and decrypted: the
    handlers of [picoquic_incoming_segment] for version negotiation, retry,
    handshake, 0-RTT and 1-RTT packets, the packets that are sent without a
    connection (version negotiation, retry, stateless reset), and the loop of
    [picoquic_incoming_packet] over the packets of a datagram.

    A connection is the record [conn]: the fields that the handlers read and
    write, and the rest of it, which belongs to the layers above.  Those layers
    (frames, TLS, application) are the operations of the class [Upper]. *)
From stdpp Require Import base tactics list numbers sets.
From Stdlib Require Import ZArith Lia Bool.
From S2P Require Import Prelude IntFormat Sacks Packet PacketProtect.
#[local] Open Scope Z_scope.

Module PacketIn.
Import IntFormat Sacks Packet PacketProtect.

Definition PICOQUIC_ERROR_UNEXPECTED_PACKET : Z := 0x400 + 4.
Definition PICOQUIC_ERROR_SPURIOUS_REPEAT : Z := 0x400 + 6.
Definition PICOQUIC_ERROR_CNXID_CHECK : Z := 0x400 + 7.
Definition PICOQUIC_ERROR_RETRY : Z := 0x400 + 19.
Definition PICOQUIC_ERROR_CONNECTION_DELETED : Z := 0x400 + 31.
Definition PICOQUIC_TRANSPORT_PROTOCOL_VIOLATION : Z := 0xA.

(** The value of a state in the enumeration, which the code compares. *)
Definition state_value (s : cnx_state) : Z :=
  match s with
  | client_init => 0 | client_init_sent => 1 | client_renegotiate => 2 | client_retry_received => 3
  | client_init_resent => 4 | server_init => 5 | server_handshake => 6 | client_handshake_start => 7
  | client_handshake_progress => 8 | handshake_failure => 9 | client_almost_ready => 10
  | server_almost_ready => 11 | client_ready => 12 | server_ready => 13 | disconnecting => 14
  | closing_received => 15 | closing => 16 | draining => 17 | disconnected => 18
  end.

Definition is_state (s s' : cnx_state) : bool := bool_decide (s = s').

(** ** Addresses: util.c *)

Inductive sockaddr :=
  | sockaddr_in (s_addr : list Z) (port : Z)     (* four bytes *)
  | sockaddr_in6 (s6_addr : list Z) (port : Z).  (* sixteen bytes *)

#[export] Instance sockaddr_eq_dec : EqDecision sockaddr.
Proof. solve_decision. Defined.

Definition same_family (a b : sockaddr) : bool :=
  match a, b with sockaddr_in _ _, sockaddr_in _ _ | sockaddr_in6 _ _, sockaddr_in6 _ _ => true | _, _ => false end.

(** Whether the addresses agree (the code returns 0). *)
Definition picoquic_compare_addr (expected actual : sockaddr) : bool :=
  match expected, actual with
  | sockaddr_in a p, sockaddr_in b p' => (p =? p') && bool_decide (a = b)
  | sockaddr_in6 a p, sockaddr_in6 b p' => (p =? p') && bool_decide (a = b)
  | _, _ => false
  end.

Definition picoquic_is_v4_mapped_to_v6_address (a : sockaddr) : option sockaddr :=
  match a with
  | sockaddr_in6 b p =>
    if forallb (fun x => x =? 0) (take 10 b) && forallb (fun x => x =? 0xFF) (take 2 (drop 10 b))
    then Some (sockaddr_in (drop 12 b) p) else None
  | sockaddr_in _ _ => None
  end.

(** ** The connection *)

Record spin_state := Spin { prev_spin : bool; spin_edge : bool; spin_vec : Z }.

Record challenge_state := Challenge { challenge_verified : bool; challenge_time : Z; challenge_repeat_count : Z }.

(** The bytes received on the path and the estimates of the receive rate. *)
Record rate_state := Rate {
  received : Z;
  received_prior : Z;
  receive_rate_epoch : Z;
  receive_rate_estimate : Z;
  receive_rate_max : Z
}.

#[local] Set Implicit Arguments.

Record conn (X : Type) := Conn {
  base : cnx;
  handshake_done : bool;
  spins : spin_state;
  ack_needed : packet_context_id -> bool;
  largest_received : packet_context_id -> Z;
  peer_addr : sockaddr;
  local_addr : sockaddr;
  challenge : challenge_state;
  retransmit_timer : Z;
  smoothed_rtt : Z;
  rate : rate_state;
  local_error : Z;
  rest : X (* [largest_received]: [first_sack_item.end_of_sack_range] *)
}.

#[local] Unset Implicit Arguments.

(** Field updates of the underlying [cnx]. *)
Definition cnx_with_state (c : cnx) (s : cnx_state) : cnx :=
  Cnx (cnx_key c) s (client_mode c) (cnx_version_index c) (proposed_version c) (initial_cnxid c) (local_cnxid c)
      (remote_cnxid c) (retry_token c) (current_spin c).
Definition cnx_with_version (c : cnx) (i : Z) : cnx :=
  Cnx (cnx_key c) (state_of c) (client_mode c) i (proposed_version c) (initial_cnxid c) (local_cnxid c)
      (remote_cnxid c) (retry_token c) (current_spin c).
Definition cnx_with_remote (c : cnx) (i : connection_id) : cnx :=
  Cnx (cnx_key c) (state_of c) (client_mode c) (cnx_version_index c) (proposed_version c) (initial_cnxid c)
      (local_cnxid c) i (retry_token c) (current_spin c).
Definition cnx_with_retry (c : cnx) (i : connection_id) (token : list Z) : cnx :=
  Cnx (cnx_key c) (state_of c) (client_mode c) (cnx_version_index c) (proposed_version c) i
      (local_cnxid c) (remote_cnxid c) token (current_spin c).
Definition cnx_with_spin (c : cnx) (s : bool) : cnx :=
  Cnx (cnx_key c) (state_of c) (client_mode c) (cnx_version_index c) (proposed_version c) (initial_cnxid c)
      (local_cnxid c) (remote_cnxid c) (retry_token c) s.

Section Handlers.
Context {X : Type}.

Definition with_base (c : conn X) (b : cnx) : conn X :=
  Conn b (handshake_done c) (spins c) (ack_needed c) (largest_received c) (peer_addr c) (local_addr c) (challenge c) (retransmit_timer c) (smoothed_rtt c) (rate c) (local_error c) (rest c).
Definition with_handshake_done (c : conn X) : conn X :=
  Conn (base c) true (spins c) (ack_needed c) (largest_received c) (peer_addr c) (local_addr c) (challenge c) (retransmit_timer c) (smoothed_rtt c) (rate c) (local_error c) (rest c).
Definition with_spins (c : conn X) (x : spin_state) : conn X :=
  Conn (base c) (handshake_done c) x (ack_needed c) (largest_received c) (peer_addr c) (local_addr c) (challenge c) (retransmit_timer c) (smoothed_rtt c) (rate c) (local_error c) (rest c).
Definition with_ack_needed (c : conn X) (p : packet_context_id) : conn X :=
  Conn (base c) (handshake_done c) (spins c) (fun p' => if bool_decide (p' = p) then true else ack_needed c p') (largest_received c) (peer_addr c) (local_addr c) (challenge c) (retransmit_timer c) (smoothed_rtt c) (rate c) (local_error c) (rest c).
Definition with_peer (c : conn X) (a : sockaddr) : conn X :=
  Conn (base c) (handshake_done c) (spins c) (ack_needed c) (largest_received c) a (local_addr c) (challenge c) (retransmit_timer c) (smoothed_rtt c) (rate c) (local_error c) (rest c).
Definition with_local_addr (c : conn X) (a : sockaddr) : conn X :=
  Conn (base c) (handshake_done c) (spins c) (ack_needed c) (largest_received c) (peer_addr c) a (challenge c) (retransmit_timer c) (smoothed_rtt c) (rate c) (local_error c) (rest c).
Definition with_challenge (c : conn X) (x : challenge_state) : conn X :=
  Conn (base c) (handshake_done c) (spins c) (ack_needed c) (largest_received c) (peer_addr c) (local_addr c) x (retransmit_timer c) (smoothed_rtt c) (rate c) (local_error c) (rest c).
Definition with_rate (c : conn X) (x : rate_state) : conn X :=
  Conn (base c) (handshake_done c) (spins c) (ack_needed c) (largest_received c) (peer_addr c) (local_addr c) (challenge c) (retransmit_timer c) (smoothed_rtt c) x (local_error c) (rest c).
Definition with_error (c : conn X) (e : Z) : conn X :=
  Conn (base c) (handshake_done c) (spins c) (ack_needed c) (largest_received c) (peer_addr c) (local_addr c) (challenge c) (retransmit_timer c) (smoothed_rtt c) (rate c) e (rest c).

Definition cnx_state_of (c : conn X) : cnx_state := state_of (base c).
Definition picoquic_set_cnx_state (c : conn X) (s : cnx_state) : conn X := with_base c (cnx_with_state (base c) s).

End Handlers.

(** The layers above.  Every operation may change the whole connection. *)
Class Upper (X : Type) := {
  decode_frames : conn X -> list Z -> Z -> Z -> Z * conn X;
  decode_closing_frames : conn X -> list Z -> Z * bool;
  tls_stream_process : conn X -> Z * conn X;
  tls_handshake_complete : conn X -> bool;
  has_handshake_keys : conn X -> bool;           (* both of [crypto_context[2]] *)
  implicit_handshake_ack : conn X -> packet_context_id -> conn X;
  reset_cnx : conn X -> Z -> Z * conn X;
  callback_ready : conn X -> Z * conn X;
  callback_stateless_reset : conn X -> conn X;
  checksum_length : conn X -> Z
}.

(** ** Packets that are sent without a connection *)

(** [random] is the byte that [picoquic_public_random] gives. *)
Definition picoquic_prepare_version_negotiation (random : Z) (ph : packet_header) : list Z :=
  let l := [Z.lor random 0x80] ++ picoformat_32 0 ++
    [picoquic_create_packet_header_cnxid_lengths (id_len (srce_cnx_id ph)) (id_len (dest_cnx_id ph))] in
  let l := l ++ picoquic_format_connection_id (PICOQUIC_MAX_PACKET_SIZE - Z.of_nat (length l)) (srce_cnx_id ph) in
  let l := l ++ picoquic_format_connection_id (PICOQUIC_MAX_PACKET_SIZE - Z.of_nat (length l)) (dest_cnx_id ph) in
  l ++ concat (map picoformat_32 picoquic_supported_versions).

(** [uniform n] is a random number below [n], [random n] are [n] random bytes and
    [secret] is the reset secret of the connection id. *)
Definition picoquic_process_unexpected_cnxid (len : Z) (ph : packet_header) (uniform : Z -> Z) (random : Z -> list Z)
    (secret : connection_id -> list Z) : option (list Z) :=
  if (PICOQUIC_RESET_PACKET_MIN_SIZE <? len) && is_short (ptype ph) then
    let pad_size := u32 (len - 17) in
    let pad_size := if 20 <? pad_size then uniform (pad_size - 20) + 20 else 20 in
    Some ([if bool_decide (ptype ph = one_rtt_protected_phi0) then 0x30 else 0x70] ++ random pad_size ++ secret (dest_cnx_id ph))
  else None.

(** [odcil_random] is the random byte, of which the high bits are kept. *)
Definition retry_packet (c : cnx) (odcil_random checksum_len : Z) (token : list Z) : list Z :=
  let '(h, _, _) := picoquic_create_packet_header c retry (local_cnxid c) 0 in
  let l := h ++ [Z.lor (Z.land odcil_random 0xF0) (picoquic_create_packet_header_cnxid_lengths 0 (id_len (initial_cnxid c)))] in
  l ++ picoquic_format_connection_id (PICOQUIC_MAX_PACKET_SIZE - Z.of_nat (length l) - checksum_len) (initial_cnxid c) ++ token.

(** ** Handlers *)

Section Incoming.
Context {X : Type} {upper : Upper X}.

Definition version_of (c : conn X) : Z := nth (Z.to_nat (cnx_version_index (base c))) picoquic_supported_versions 0.

(** [connection_error]; the offending frame type is not kept. *)
Definition picoquic_connection_error (c : conn X) (err : Z) : Z * conn X :=
  (PICOQUIC_ERROR_DETECTED,
   if is_state (cnx_state_of c) client_ready || is_state (cnx_state_of c) server_ready then
     picoquic_set_cnx_state (with_error c err) disconnecting
   else if state_value (cnx_state_of c) <? state_value client_ready then
     picoquic_set_cnx_state (with_error c err) handshake_failure
   else c).

(** The loop over the proposed versions, [n] of which fit: the index of the
    first one that is supported.  Reading behind the buffer gives [None]. *)
Fixpoint find_version (n : nat) (bytes : list Z) : option (option Z) :=
  match n with
  | O => Some None
  | S n' =>
    v ← PICOPARSE_32 bytes;
    if 0 <=? picoquic_get_version_index v then Some (Some (picoquic_get_version_index v))
    else find_version n' (drop 4 bytes)
  end.

Definition picoquic_reset_cnx_version (c : conn X) (bytes : list Z) (len current_time : Z) : option (Z * conn X) :=
  if is_state (cnx_state_of c) client_init || is_state (cnx_state_of c) client_init_sent then
    r ← find_version (Z.to_nat (len / 4)) bytes;
    match r with
    | None => Some (PICOQUIC_ERROR_UNEXPECTED_PACKET, c)
    | Some i =>
      let c := picoquic_set_cnx_state (with_base c (cnx_with_version (base c) i)) client_renegotiate in
      Some (reset_cnx c current_time)
    end
  else Some (PICOQUIC_ERROR_UNEXPECTED_PACKET, c).

Definition picoquic_incoming_version_negotiation (c : conn X) (bytes : list Z) (len : Z) (ph : packet_header) (current_time : Z)
    : option (Z * conn X) :=
  if negb (picoquic_compare_connection_id (dest_cnx_id ph) (local_cnxid (base c))) || negb (vn ph =? 0) then Some (0, c)
  else picoquic_reset_cnx_version c (drop (Z.to_nat (offset ph)) bytes) (u32 (len - offset ph)) current_time.

Definition picoquic_incoming_retry (malloc_ok : bool) (c : conn X) (bytes : list Z) (ph : packet_header) (current_time : Z)
    : option (Z * conn X) :=
  if negb (is_state (cnx_state_of c) client_init_sent) && negb (is_state (cnx_state_of c) client_init_resent)
  then Some (PICOQUIC_ERROR_UNEXPECTED_PACKET, c)
  else if negb (vn ph =? version_of c) || negb (pn64 ph =? 0) then Some (PICOQUIC_ERROR_UNEXPECTED_PACKET, c)
  else
    b ← bytes !! Z.to_nat (offset ph);
    let odcil := (picoquic_parse_packet_header_cnxid_lengths b).2 in
    if negb (odcil =? id_len (initial_cnxid (base c))) || (payload_length ph <? odcil + 1) then
      Some (PICOQUIC_ERROR_UNEXPECTED_PACKET, c)
    else
      id ← bytes_at (offset ph + 1) odcil bytes;
      if negb (picoquic_compare_connection_id (initial_cnxid (base c)) id) then Some (PICOQUIC_ERROR_UNEXPECTED_PACKET, c)
      else
        let token_length := payload_length ph - 1 - odcil in
        token ← bytes_at (offset ph + 1 + odcil) token_length bytes;
        if (0 <? token_length) && negb malloc_ok then Some (0x400 + 5, c)
        else
          let c := with_base c (cnx_with_retry (base c) (srce_cnx_id ph) token) in
          Some (PICOQUIC_ERROR_RETRY, (reset_cnx c current_time).2).

(** The handshake packets that a client receives; [content] is what was decrypted. *)
Definition picoquic_incoming_server_cleartext (c : conn X) (content : list Z) (addr_to : sockaddr) (ph : packet_header)
    (current_time : Z) : Z * conn X :=
  let c := if is_state (cnx_state_of c) client_init_sent || is_state (cnx_state_of c) client_init_resent
           then picoquic_set_cnx_state c client_handshake_start else c in
  let restricted := negb (is_state (cnx_state_of c) client_handshake_start) &&
                    negb (is_state (cnx_state_of c) client_handshake_progress) in
  let '(ret, c) :=
    if picoquic_is_connection_id_null (remote_cnxid (base c)) && negb restricted then
      (0, with_local_addr (with_base c (cnx_with_remote (base c) (srce_cnx_id ph))) addr_to)
    else if negb (picoquic_compare_connection_id (remote_cnxid (base c)) (srce_cnx_id ph)) then (PICOQUIC_ERROR_CNXID_CHECK, c)
    else (0, c) in
  let '(ret, c) := if ret =? 0 then decode_frames c content (epoch ph) current_time else (ret, c) in
  if (ret =? 0) && negb restricted then
    let '(ret, c) := tls_stream_process c in
    if (ret =? 0) && has_handshake_keys c then (ret, implicit_handshake_ack c context_initial) else (ret, c)
  else (ret, c).

(** The handshake packets that a server receives.  (The first path only.) *)
Definition picoquic_incoming_client_cleartext (c : conn X) (content : list Z) (ph : packet_header) (current_time : Z)
    : Z * conn X :=
  let s := cnx_state_of c in
  if is_state s server_init || is_state s server_handshake || is_state s server_almost_ready || is_state s server_ready then
    if negb (picoquic_compare_connection_id (srce_cnx_id ph) (remote_cnxid (base c))) then (PICOQUIC_ERROR_CNXID_CHECK, c)
    else
      let '(ret, c) := decode_frames c content (epoch ph) current_time in
      let '(ret, c) := if ret =? 0 then tls_stream_process c else (ret, c) in
      if (ret =? 0) && negb (client_mode (base c)) && negb (handshake_done c) &&
         is_state (cnx_state_of c) server_ready && tls_handshake_complete c
      then
        let c := with_handshake_done c in
        let c := implicit_handshake_ack (implicit_handshake_ack c context_initial) context_handshake in
        let '(r, c) := callback_ready c in
        (ret, if negb (r =? 0) then (picoquic_connection_error c 1).2 else c)
      else (ret, c)
  else (PICOQUIC_ERROR_UNEXPECTED_PACKET, c).

Definition picoquic_incoming_stateless_reset (c : conn X) : Z * conn X :=
  (PICOQUIC_ERROR_AEAD_CHECK, callback_stateless_reset (picoquic_set_cnx_state c disconnected)).

Definition picoquic_incoming_0rtt (c : conn X) (content : list Z) (ph : packet_header) (current_time : Z) : Z * conn X :=
  let b := base c in
  if negb (picoquic_compare_connection_id (dest_cnx_id ph) (initial_cnxid b) ||
           picoquic_compare_connection_id (dest_cnx_id ph) (local_cnxid b)) ||
     negb (picoquic_compare_connection_id (srce_cnx_id ph) (remote_cnxid b))
  then (PICOQUIC_ERROR_CNXID_CHECK, c)
  else if is_state (cnx_state_of c) server_almost_ready || is_state (cnx_state_of c) server_ready then
    if negb (vn ph =? version_of c) then picoquic_connection_error c PICOQUIC_TRANSPORT_PROTOCOL_VIOLATION
    else
      let '(ret, c) := decode_frames c content (epoch ph) current_time in
      if ret =? 0 then tls_stream_process c else (ret, c)
  else (PICOQUIC_ERROR_UNEXPECTED_PACKET, c).

(** *** 1-RTT packets *)

Definition PICOQUIC_BANDWIDTH_TIME_INTERVAL_MIN : Z := 1000.

(** The spin bit: the client inverts it, the server echoes it.  The counter of
    the header is never filled, so that an edge counts 1. *)
Definition update_spin (c : conn X) (ph : packet_header) : conn X :=
  let current := xorb (negb (spin ph =? 0)) (client_mode (base c)) in
  let c := with_base c (cnx_with_spin (base c) current) in
  if has_spin_bit ph && negb (eqb current (prev_spin (spins c))) then with_spins c (Spin current true 1) else c.

(** The peer's address follows the packets; a new address has to be validated
    again.  An address that is only written in the other family (an IPv4 address
    mapped to IPv6) is no new address. *)
Definition update_peer_addr (c : conn X) (addr_from : sockaddr) (current_time : Z) : conn X :=
  let c :=
    if negb (same_family addr_from (peer_addr c)) &&
       (match picoquic_is_v4_mapped_to_v6_address addr_from with
        | Some a => picoquic_compare_addr (peer_addr c) a
        | None => false
        end ||
        match picoquic_is_v4_mapped_to_v6_address (peer_addr c) with
        | Some a => picoquic_compare_addr addr_from a
        | None => false
        end)
    then with_peer c addr_from else c in
  let zero := match addr_from with sockaddr_in a _ => bool_decide (a = [0; 0; 0; 0]) | _ => false end in
  if negb (picoquic_compare_addr (peer_addr c) addr_from) && negb zero then
    with_challenge (with_peer c addr_from) (Challenge false (u64 (current_time + retransmit_timer c)) 0)
  else c.

(** The estimate of the receive rate, at most once per round trip. *)
Definition update_receive_rate (c : conn X) (ph : packet_header) (current_time : Z) : conn X :=
  let r := rate c in
  let rcv := u64 (received r + u32 (u32 (offset ph + payload_length ph) + checksum_length c)) in
  if receive_rate_epoch r =? 0 then
    with_rate c (Rate rcv rcv current_time (receive_rate_estimate r) (receive_rate_max r))
  else
    let delta := u64 (current_time - receive_rate_epoch r) in
    if (smoothed_rtt c <? delta) && (PICOQUIC_BANDWIDTH_TIME_INTERVAL_MIN <? delta) then
      let estimate := u64 (u64 (rcv - received_prior r) * 1000000) / delta in
      with_rate c (Rate rcv rcv current_time estimate (Z.max (receive_rate_max r) estimate))
    else with_rate c (Rate rcv (received_prior r) (receive_rate_epoch r) (receive_rate_estimate r) (receive_rate_max r)).

(** [get_incoming_path] finds the first path or none. *)
Definition get_incoming_path (c : conn X) (ph : packet_header) : bool :=
  picoquic_compare_connection_id (dest_cnx_id ph) (initial_cnxid (base c)) ||
  picoquic_compare_connection_id (dest_cnx_id ph) (local_cnxid (base c)).

Definition incoming_encrypted (c : conn X) (content : list Z) (ph : packet_header) (addr_from : sockaddr) (current_time : Z)
    : Z * conn X :=
  if negb (get_incoming_path c ph) then (PICOQUIC_ERROR_CNXID_CHECK, c)
  else if state_value (cnx_state_of c) <? state_value client_almost_ready then (PICOQUIC_ERROR_UNEXPECTED_PACKET, c)
  else if is_state (cnx_state_of c) disconnected then (PICOQUIC_ERROR_UNEXPECTED_PACKET, c)
  else
    let c := if largest_received c (pc ph) <? pn64 ph then update_spin c ph else c in
    let '(ret, c) :=
      if state_value closing_received <=? state_value (cnx_state_of c) then
        if is_state (cnx_state_of c) closing then
          let '(ret, received) := decode_closing_frames c content in
          (ret,
           if ret =? 0 then
             if received then picoquic_set_cnx_state c (if client_mode (base c) then disconnected else draining)
             else with_ack_needed c (pc ph)
           else c)
        else (PICOQUIC_ERROR_UNEXPECTED_PACKET, c)
      else
        decode_frames (update_receive_rate (update_peer_addr c addr_from current_time) ph current_time) content (epoch ph)
          current_time in
    if ret =? 0 then tls_stream_process c else (ret, c).

(** *** The server and initial packets *)

(** The test of the token of an initial packet: [expected] is the token of
    [picoquic_get_retry_token] for the sender's address ([None]: it failed). *)
Definition check_retry_token (check_token : bool) (expected : option (list Z)) (bytes : list Z) (ph : packet_header) : option Z :=
  if check_token then
    match expected with
    | None => Some (0x400 + 5)
    | Some token =>
      if negb (token_length ph =? 16) then Some PICOQUIC_ERROR_RETRY
      else t ← bytes_at (token_offset ph) 16 bytes; Some (if bool_decide (token = t) then 0 else PICOQUIC_ERROR_RETRY)
    end
  else Some 0.

(** [None] for the connection: it was deleted.  The list holds the retry packet
    that [picoquic_queue_stateless_retry] queues. *)
Definition picoquic_incoming_initial (c : conn X) (bytes content : list Z) (addr_to : sockaddr) (ph : packet_header)
    (current_time : Z) (new_context_created check_token : bool) (expected : option (list Z)) (odcil_random : Z)
    : option (Z * option (conn X) * list (list Z)) :=
  ret ← check_retry_token check_token expected bytes ph;
  let c := if ret =? PICOQUIC_ERROR_RETRY then with_base c (cnx_with_remote (base c) (srce_cnx_id ph)) else c in
  let sent := if ret =? PICOQUIC_ERROR_RETRY
              then [retry_packet (base c) odcil_random (checksum_length c) (default [] expected)] else [] in
  let '(ret, c) := if ret =? 0 then decode_frames c content (epoch ph) current_time else (ret, c) in
  let '(ret, c) := if ret =? 0 then tls_stream_process c else (ret, c) in
  if negb (ret =? 0) || is_state (cnx_state_of c) disconnected then
    if new_context_created then Some (PICOQUIC_ERROR_CONNECTION_DELETED, None, sent) else Some (ret, Some c, sent)
  else Some (ret, Some (with_local_addr c addr_to), sent).

(** The [switch] of [picoquic_incoming_segment] on the type of the packet. *)
Definition dispatch (malloc_ok : bool) (c : conn X) (bytes : list Z) (len : Z) (content : list Z) (ph : packet_header)
    (addr_from addr_to : sockaddr) (current_time : Z) (new_context_created check_token : bool) (expected : option (list Z))
    (odcil_random : Z) : option (Z * option (conn X) * list (list Z)) :=
  let keep (r : Z * conn X) := (r.1, Some r.2, []) in
  match ptype ph with
  | version_negotiation =>
    if is_state (cnx_state_of c) client_init_sent
    then keep <$> picoquic_incoming_version_negotiation c bytes len ph current_time
    else Some (PICOQUIC_ERROR_DETECTED, Some c, [])
  | initial =>
    if get_incoming_path c ph then
      let null := picoquic_is_connection_id_null (remote_cnxid (base c)) in
      if negb null && negb (picoquic_compare_connection_id (remote_cnxid (base c)) (srce_cnx_id ph))
      then Some (PICOQUIC_ERROR_UNEXPECTED_PACKET, Some c, [])
      else
        let c := if null then with_base c (cnx_with_remote (base c) (srce_cnx_id ph)) else c in
        if client_mode (base c) then Some (keep (picoquic_incoming_server_cleartext c content addr_to ph current_time))
        else picoquic_incoming_initial c bytes content addr_to ph current_time new_context_created check_token expected odcil_random
    else Some (PICOQUIC_ERROR_DETECTED, Some c, [])
  | retry => keep <$> picoquic_incoming_retry malloc_ok c bytes ph current_time
  | handshake =>
    Some (keep (if client_mode (base c) then picoquic_incoming_server_cleartext c content addr_to ph current_time
                else picoquic_incoming_client_cleartext c content ph current_time))
  | zero_rtt_protected => Some (keep (picoquic_incoming_0rtt c content ph current_time))
  | one_rtt_protected_phi0 | one_rtt_protected_phi1 =>
    Some (keep (incoming_encrypted c content ph addr_from current_time))
  | packet_error => Some (PICOQUIC_ERROR_DETECTED, Some c, [])
  end.

End Incoming.

(** ** Datagrams *)

(** The context that holds the connections: [view] is what the parser sees of it. *)
Class Host (H X aead_key hp_key : Type) := {
  view : H -> receiver (aead_key := aead_key) (hp_key := hp_key);
  conn_at : H -> cnx -> conn X;
  put : H -> conn X -> H;
  forget : H -> cnx -> H;                              (* [picoquic_delete_cnx] *)
  register : H -> cnx -> H;                            (* the effect of [picoquic_create_cnx] *)
  queue_stateless : H -> list (list Z) -> H;
  random_byte : H -> Z;
  uniform : H -> Z -> Z;
  random_bytes : H -> Z -> list Z;
  cnxid_secret : H -> connection_id -> list Z;
  check_token_flag : H -> bool;
  expected_token : H -> address -> option (list Z);
  record_pn_received : H -> cnx -> packet_context_id -> Z -> Z -> Z * H;
  set_next_wake_time : H -> cnx -> Z -> H;
  plugin_negotiation : H -> cnx -> H
}.

Section Datagram.
Context {H X aead_key hp_key : Type} {crypto : Crypto aead_key hp_key} {upper : Upper X} {host : Host H X aead_key hp_key}.

(** The part of [picoquic_incoming_segment] behind the parser: code, connection and context. *)
Definition process_segment (h : H) (rp : received_packet) (bytes : list Z) (len : Z) (addr_key : address)
    (addr_from addr_to : sockaddr) (current_time : Z) : option (Z * option cnx * H) :=
  let ph := r_ph rp in
  if r_ret rp =? 0 then
    match r_cnx rp with
    | None =>
      if (version_index ph <? 0) && negb (vn ph =? 0) then
        Some (0, None, queue_stateless h [picoquic_prepare_version_negotiation (random_byte h) ph])
      else
        Some (PICOQUIC_ERROR_DETECTED, None,
              if picoquic_is_connection_id_null (dest_cnx_id ph) then h
              else match picoquic_process_unexpected_cnxid len ph (uniform h) (random_bytes h) (cnxid_secret h) with
                   | Some p => queue_stateless h [p]
                   | None => h
                   end)
    | Some c =>
      let h := if r_created rp then register h c else h in
      '(ret, oc, sent) ← dispatch true (conn_at h c) bytes len (default [] (r_plain rp)) ph addr_from addr_to current_time
                           (r_created rp) (check_token_flag h) (expected_token h addr_key) (random_byte h);
      let h := queue_stateless h sent in
      match oc with
      | Some c' => Some (ret, Some (base c'), put h c')
      | None => Some (ret, None, forget h c)
      end
    end
  else if r_ret rp =? PICOQUIC_ERROR_STATELESS_RESET then
    match r_cnx rp with
    | Some c => let '(ret, c') := picoquic_incoming_stateless_reset (conn_at h c) in Some (ret, Some (base c'), put h c')
    | None => None
    end
  else Some (r_ret rp, r_cnx rp, if r_created rp then match r_cnx rp with Some c => register h c | None => h end else h).

(** Returns the code, [consumed] and the context.  A duplicate for which no path
    is found makes the code follow a null pointer. *)
Definition picoquic_incoming_segment (h : H) (bytes : list Z) (len packet_length : Z) (addr_key : address)
    (addr_from addr_to : sockaddr) (current_time : Z) : option (Z * Z * H) :=
  rp ← picoquic_parse_header_and_decrypt (view h) bytes len packet_length addr_key;
  '(ret, oc, h) ← process_segment h rp bytes len addr_key addr_from addr_to current_time;
  let ph := r_ph rp in
  '(ret, h) ←
    (if (ret =? 0) || (ret =? PICOQUIC_ERROR_SPURIOUS_REPEAT) then
       match oc with
       | Some c =>
         let '(ret, h) :=
           if negb (is_state (state_of c) disconnected) && negb (bool_decide (ptype ph = version_negotiation))
           then record_pn_received h c (pc ph) (pn64 ph) current_time else (ret, h) in
         Some (ret, set_next_wake_time h c current_time)
       | None => Some (ret, h)
       end
     else if ret =? PICOQUIC_ERROR_DUPLICATE then
       match oc with
       | Some c => if get_incoming_path (conn_at h c) ph
                   then Some (-1, put h (with_ack_needed (conn_at h c) (pc ph))) else None
       | None => Some (-1, h)
       end
     else Some (-1, h));
  Some (ret, r_consumed rp, match oc with Some c => plugin_negotiation h c | None => h end).

(** The outcome of the loop: it ran to the end, read outside the datagram, or is
    not done after [fuel] packets. *)
Inductive loop_result := Done (h : H) (packets : Z) | Faulted | OutOfFuel.

Fixpoint picoquic_incoming_packet (fuel : nat) (h : H) (bytes : list Z) (consumed_index len : Z) (addr_key : address)
    (addr_from addr_to : sockaddr) (current_time packets : Z) : loop_result :=
  if consumed_index <? len then
    match fuel with
    | O => OutOfFuel
    | S fuel =>
      match picoquic_incoming_segment h (drop (Z.to_nat consumed_index) bytes) (len - consumed_index) len addr_key addr_from addr_to
              current_time with
      | None => Faulted
      | Some (ret, consumed, h) =>
        if ret =? 0 then
          picoquic_incoming_packet fuel h bytes (u32 (consumed_index + consumed)) len addr_key addr_from addr_to current_time
            (packets + 1)
        else Done h packets
      end
    end
  else Done h packets.

(** *** The loop ends *)

Lemma segment_progress h bytes len packet_length addr_key addr_from addr_to current_time consumed h' :
  hp_sizes (hp_key := hp_key) -> is_u8 (local_ctx_length (rq (view h))) ->
  picoquic_incoming_segment h bytes len packet_length addr_key addr_from addr_to current_time = Some (0, consumed, h') ->
  Forall is_u8 bytes -> 0 <= len < 2 ^ 16 -> 0 < consumed <= Z.max len 47.
Proof.
  intros Hhp Hq Hs Hb Hlen. unfold picoquic_incoming_segment in Hs.
  destruct (picoquic_parse_header_and_decrypt _ _ _ _ _) as [rp|] eqn:Hrp; [|done]. cbn [mbind option_bind] in Hs.
  destruct (received_progress _ _ _ _ _ _ Hhp Hrp Hb Hlen Hq) as [Hret Hprog].
  destruct (process_segment _ _ _ _ _ _ _ _) as [[[ret oc] h1]|] eqn:Hp; [|done]. cbn [mbind option_bind] in Hs.
  destruct (if (ret =? 0) || _ then _ else _) as [[ret2 h2]|] eqn:Hf; [|done]. cbn [mbind option_bind] in Hs.
  injection Hs as -> <- _.
  assert (Hr : ret = 0 \/ ret = PICOQUIC_ERROR_SPURIOUS_REPEAT).
  { destruct (Z.eqb_spec ret 0); [by left|]. destruct (Z.eqb_spec ret PICOQUIC_ERROR_SPURIOUS_REPEAT); [by right|].
    cbn [orb] in Hf. exfalso. destruct (ret =? PICOQUIC_ERROR_DUPLICATE); [|done].
    destruct oc; [|done]. by destruct (get_incoming_path _ _). }
  unfold process_segment in Hp. destruct (Z.eqb_spec (r_ret rp) 0) as [H0|Hn0].
  - apply Hprog; [done|]. intros Hc. rewrite Hc in Hp.
    destruct (Z.ltb_spec (version_index (r_ph rp)) 0); [|cbn [andb] in Hp; injection Hp as <- _; by destruct Hr].
    destruct (Z.eqb_spec (vn (r_ph rp)) 0); [cbn [andb negb] in Hp; injection Hp as <- _; by destruct Hr|done].
  - exfalso. destruct (Z.eqb_spec (r_ret rp) PICOQUIC_ERROR_STATELESS_RESET).
    + destruct (r_cnx rp); [|done]. injection Hp as <- _ _. by destruct Hr.
    + injection Hp as <- _ _. rewrite !elem_of_cons in Hret. unfold PICOQUIC_ERROR_SPURIOUS_REPEAT, PICOQUIC_ERROR_DUPLICATE,
        PICOQUIC_ERROR_AEAD_CHECK, PICOQUIC_ERROR_INITIAL_TOO_SHORT, PICOQUIC_ERROR_DETECTED, PICOQUIC_ERROR_STATELESS_RESET in *.
      pose proof (not_elem_of_nil (r_ret rp)). naive_solver lia.
Qed.

Lemma incoming_packet_progress fuel h bytes consumed_index len addr_key addr_from addr_to current_time packets :
  hp_sizes (hp_key := hp_key) -> (forall h : H, is_u8 (local_ctx_length (rq (view h)))) ->
  Forall is_u8 bytes -> 0 <= len < 2 ^ 16 -> 0 <= consumed_index -> len - consumed_index <= Z.of_nat fuel ->
  match picoquic_incoming_packet fuel h bytes consumed_index len addr_key addr_from addr_to current_time packets with
  | OutOfFuel => False
  | Done _ n => packets <= n <= packets + Z.max 0 (len - consumed_index)
  | Faulted => True
  end.
Proof.
  intros Hhp Hq Hb Hlen. revert h consumed_index packets.
  induction fuel as [|fuel IH]; intros h i packets Hi Hf; cbn [picoquic_incoming_packet];
    (destruct (Z.ltb_spec i len); [|lia]); [lia|].
  destruct (picoquic_incoming_segment _ _ _ _ _ _ _ _) as [[[ret consumed] h']|] eqn:Hs; [|done].
  destruct (Z.eqb_spec ret 0) as [->|]; [|lia].
  apply segment_progress in Hs; [|done|done|by apply Forall_drop|lia].
  rewrite u32_small by lia. specialize (IH h' (i + consumed) (packets + 1) ltac:(lia) ltac:(lia)).
  destruct (picoquic_incoming_packet _ _ _ _ _ _ _ _ _ _); (lia || done).
Qed.

(** C37. A datagram is processed in finitely many steps: whatever the bytes are
    and whatever the handlers do, every packet that is accepted moves the reader
    by at least one byte, so that the loop ends after at most as many packets as
    the datagram has bytes. *)
Theorem incoming_packet_terminates h bytes len addr_key addr_from addr_to current_time :
  hp_sizes (hp_key := hp_key) -> (forall h : H, is_u8 (local_ctx_length (rq (view h)))) ->
  Forall is_u8 bytes -> 0 <= len < 2 ^ 16 ->
  match picoquic_incoming_packet (Z.to_nat len) h bytes 0 len addr_key addr_from addr_to current_time 0 with
  | OutOfFuel => False
  | Done _ n => 0 <= n <= len
  | Faulted => True
  end.
Proof.
  intros Hhp Hq Hb Hlen.
  pose proof (incoming_packet_progress (Z.to_nat len) h bytes 0 len addr_key addr_from addr_to current_time 0
                Hhp Hq Hb Hlen ltac:(lia) ltac:(lia)) as Hp.
  destruct (picoquic_incoming_packet _ _ _ _ _ _ _ _ _ _); (lia || done).
Qed.

End Datagram.

(** ** Retry *)

(** The lengths of connection ids that fit into four bits. *)
Definition short_length_ok (n : Z) : Prop := n = 0 \/ 4 <= n <= 18.

Lemma retry_length_code rnd n : is_u8 rnd -> 0 <= n <= 20 ->
  let b := Z.lor (Z.land rnd 0xF0) (picoquic_create_packet_header_cnxid_lengths 0 n) in
  is_u8 b /\ ((picoquic_parse_packet_header_cnxid_lengths b).2 = n <-> short_length_ok n).
Proof.
  intros Hr Hn.
  pose (f := fun rnd n => let b := Z.lor (Z.land rnd 0xF0) (picoquic_create_packet_header_cnxid_lengths 0 n) in
    if n <=? 20 then (0 <=? b) && (b <? 256) &&
      eqb ((picoquic_parse_packet_header_cnxid_lengths b).2 =? n) ((n =? 0) || ((4 <=? n) && (n <=? 18))) else true).
  assert (Hf : f rnd n = true) by (apply forall_bytes2; [vm_compute; reflexivity|done|unfold is_u8; lia]).
  unfold f in Hf. destruct (Z.leb_spec n 20); [|lia]. cbn zeta in *.
  apply andb_prop in Hf as [Hb He]. apply andb_prop in Hb as [Hb1 Hb2]. apply eqb_prop in He.
  unfold is_u8, short_length_ok. split; [lia|].
  destruct (Z.eqb_spec (picoquic_parse_packet_header_cnxid_lengths
     (Z.lor (Z.land rnd 240) (picoquic_create_packet_header_cnxid_lengths 0 n))).2 n); lia.
Qed.

Lemma retry_packet_shape c rnd ck token :
  cnx_ok c -> 0 <= ck <= 255 ->
  retry_packet c rnd ck token =
  long_ids (long_first_byte retry) c retry (local_cnxid c) ++
  [Z.lor (Z.land rnd 0xF0) (picoquic_create_packet_header_cnxid_lengths 0 (id_len (initial_cnxid c)))] ++ initial_cnxid c ++ token.
Proof.
  intros Hc Hck. unfold retry_packet, picoquic_create_packet_header. cbn [is_short bool_decide decide].
  rewrite bool_decide_true by done. rewrite long_header_prefix_shape; [|done|apply Hc]. unfold token_bytes.
  rewrite bool_decide_false, app_nil_r by done. pose proof Hc as (Hi & [Hl _] & [Hr _] & _).
  unfold PICOQUIC_CONNECTION_ID_MAX_SIZE, id_len in Hl, Hr.
  rewrite format_id; [by rewrite <- !app_assoc|done|].
  unfold long_ids. rewrite !length_app. cbn [length picoformat_32 get_destination_connection_id].
  unfold PICOQUIC_MAX_PACKET_SIZE. lia.
Qed.

Lemma parse_retry c rnd ck token q addr_from len :
  cnx_ok c -> 0 <= ck <= 255 -> 0 <= picoquic_get_version_index (header_version c retry) ->
  let packet := retry_packet c rnd ck token in
  len = Z.of_nat (length packet) -> len < 2 ^ 16 ->
  exists ph, picoquic_parse_packet_header (Some q) packet len addr_from None true =
    Some (0, ph, find_long_cnx (Some q) addr_from retry (remote_cnxid c) None) /\
    ptype ph = retry /\ vn ph = header_version c retry /\ srce_cnx_id ph = local_cnxid c /\ dest_cnx_id ph = remote_cnxid c /\
    offset ph = Z.of_nat (length (long_ids (long_first_byte retry) c retry (local_cnxid c))) /\
    payload_length ph = len - offset ph.
Proof.
  intros Hc Hck Hvi packet Hlen Hmax. unfold packet in *. rewrite retry_packet_shape in * by done.
  set (ids := long_ids _ _ _ _) in *. set (tl := [_] ++ _) in *.
  assert (Hl : id_ok (local_cnxid c)) by apply Hc. pose proof (header_version_range c retry Hc) as Hv.
  rewrite length_app in Hlen. assert (Htl : (1 <= length tl)%nat) by (unfold tl; simpl; lia).
  assert (Hidl : 7 + id_len (remote_cnxid c) <= Z.of_nat (length ids))
    by (unfold ids, long_ids; rewrite !length_app; cbn [length picoformat_32 get_destination_connection_id]; unfold id_len; lia).
  assert (0 <= id_len (remote_cnxid c)) by (unfold id_len; lia).
  unfold picoquic_parse_packet_header. change ((ids ++ tl) !! 0%nat) with (Some (long_first_byte retry)). cbn [mbind option_bind].
  change (negb (Z.land (long_first_byte retry) 64 =? 64)) with false.
  change (Z.land (long_first_byte retry) 128 =? 128) with true. cbv iota.
  unfold parse_long_header. destruct (Z.ltb_spec len 7); [lia|].
  pose proof (parse_long_ids_written (long_first_byte retry) c retry (local_cnxid c) tl len Hc Hl
                ltac:(cbn [get_destination_connection_id]; lia)) as Hids. fold ids in Hids. rewrite Hids. cbn [mbind option_bind].
  destruct (Z.eqb_spec (header_version c retry) 0); [lia|].
  destruct (Z.leb_spec 0 (picoquic_get_version_index (header_version c retry))); [|lia].
  change (Z.land (Z.shiftr (long_first_byte retry) 4) 3) with 3. unfold parse_long_type. cbn [Z.eqb Pos.eqb mbind option_bind].
  unfold parse_long_length. cbn [lt_offset lt_ptype]. rewrite bool_decide_true by done. fold ids.
  destruct (Z.ltb_spec (Z.of_nat (length ids)) len); [|lia]. cbn [mbind option_bind]. rewrite bool_decide_false by done.
  eexists. split; [reflexivity|]. cbn [ptype vn srce_cnx_id dest_cnx_id offset payload_length].
  rewrite Z.add_0_r, (u16_small len), (u32_small (Z.of_nat _)), (u32_small (len - _)), u16_small by lia. done.
Qed.

Section Retry.
Context {X : Type} {upper : Upper X}.

(** The retry packet of a server carries its token to the client: a client
    that still waits for an answer to its first packet, with the server's version
    and the original connection id, takes over the token and the server's id and
    starts again, when the length of the original connection id is 0 or 4 to 18;
    with any other length the packet is ignored, because the length is sent in
    four bits. *)
Theorem retry_roundtrip (server : cnx) (client : conn X) rnd ck token q addr_from current_time :
  cnx_ok server -> 0 <= ck <= 255 -> is_u8 rnd -> 0 <= picoquic_get_version_index (header_version server retry) ->
  let packet := retry_packet server rnd ck token in
  let len := Z.of_nat (length packet) in
  len < 2 ^ 16 ->
  cnx_state_of client = client_init_sent -> version_of client = header_version server retry ->
  initial_cnxid (base client) = initial_cnxid server ->
  exists ph found, picoquic_parse_packet_header (Some q) packet len addr_from None true = Some (0, ph, found) /\
    ptype ph = retry /\
    let c' := with_base client (cnx_with_retry (base client) (local_cnxid server) token) in
    (short_length_ok (id_len (initial_cnxid server)) ->
     picoquic_incoming_retry true client packet (with_pn64 ph 0) current_time =
     Some (PICOQUIC_ERROR_RETRY, (reset_cnx c' current_time).2)) /\
    (~ short_length_ok (id_len (initial_cnxid server)) ->
     picoquic_incoming_retry true client packet (with_pn64 ph 0) current_time = Some (PICOQUIC_ERROR_UNEXPECTED_PACKET, client)).
Proof.
  intros Hc Hck Hrnd Hvi packet len Hmax Hst Hver Hini.
  destruct (parse_retry server rnd ck token q addr_from len Hc Hck Hvi eq_refl Hmax) as (ph & Hp & Ht & Hv & Hs & _ & Ho & Hpl).
  exists ph. eexists. split; [exact Hp|]. split; [done|].
  pose proof Hc as ([Hil _] & _). unfold PICOQUIC_CONNECTION_ID_MAX_SIZE in Hil.
  assert (0 <= id_len (initial_cnxid server)) by (unfold id_len; lia).
  destruct (retry_length_code rnd (id_len (initial_cnxid server)) Hrnd ltac:(lia)) as [_ Hcode].
  unfold len, packet in *. rewrite retry_packet_shape in * by done.
  set (ids := long_ids _ _ _ _) in *. set (b := Z.lor _ _) in *. set (i := initial_cnxid server) in *.
  assert (Hpayload : payload_length ph = 1 + id_len i + Z.of_nat (length token))
    by (rewrite Hpl, Ho; rewrite !length_app; cbn [length]; unfold id_len; lia).
  unfold picoquic_incoming_retry. cbn [vn pn64 offset payload_length with_pn64 srce_cnx_id]. rewrite Hst, Hv, Hver, Z.eqb_refl, Ho.
  change (is_state client_init_sent client_init_sent) with true. cbn [negb andb orb Z.eqb].
  rewrite Nat2Z.id. change ([b] ++ i ++ token) with (b :: i ++ token). rewrite list_lookup_middle by done. cbn [mbind option_bind].
  rewrite Hini. fold i.
  destruct (Z.eqb_spec (picoquic_parse_packet_header_cnxid_lengths b).2 (id_len i)) as [He|He].
  - assert (Hok : short_length_ok (id_len i)) by (by apply Hcode). split; [|done]. intros _. cbn [negb orb]. rewrite He, Hpayload.
    destruct (Z.ltb_spec (1 + id_len i + Z.of_nat (length token)) (id_len i + 1)); [lia|].
    change (b :: i ++ token) with ([b] ++ i ++ token). rewrite (app_assoc ids [b]).
    rewrite (bytes_at_app (ids ++ [b]) i token (Z.of_nat (length ids) + 1) (id_len i))
      by (rewrite ?length_app; cbn [length]; unfold id_len; lia). cbn [mbind option_bind].
    unfold picoquic_compare_connection_id. rewrite bool_decide_true by done. cbn [negb].
    assert ((ids ++ [b]) ++ i ++ token = ((ids ++ [b]) ++ i) ++ token ++ []) as -> by (by rewrite app_nil_r, <- !app_assoc).
    rewrite (bytes_at_app _ token) by (rewrite ?length_app; cbn [length]; unfold id_len; lia). cbn [mbind option_bind].
    rewrite andb_false_r, Hs. reflexivity.
  - cbn [negb orb]. split; [|done]. intros Hok. exfalso. apply He, Hcode, Hok.
Qed.

End Retry.

(** ** Version negotiation *)

Lemma vn_length_code ls ld : 4 <= ls <= 18 -> 0 <= ld <= 20 ->
  picoquic_create_packet_header_cnxid_lengths ls ld <> ls.
Proof.
  intros Hs Hd.
  pose (f := fun ls ld => if (4 <=? ls) && (ls <=? 18) && (ld <=? 20)
                          then negb (picoquic_create_packet_header_cnxid_lengths ls ld =? ls) else true).
  assert (Hf : f ls ld = true) by (apply forall_bytes2; [vm_compute; reflexivity|unfold is_u8; lia|unfold is_u8; lia]).
  unfold f in Hf. destruct (Z.leb_spec 4 ls), (Z.leb_spec ls 18), (Z.leb_spec ld 20); try lia. cbn [andb] in Hf.
  apply negb_true_iff, Z.eqb_neq in Hf. done.
Qed.

(** A version negotiation packet is not understood by its receiver: the
    writer puts the lengths of both ids into one byte, as earlier versions of the
    protocol did, and the parser reads one length before each id.  Whatever the
    random byte is, the packet that answers an id of 4 to 18 bytes is never read
    as a version negotiation for that id, so that a client ignores it. *)
Theorem version_negotiation_not_echoed random ph q addr_from :
  is_u8 random -> id_ok (srce_cnx_id ph) -> id_ok (dest_cnx_id ph) -> 4 <= id_len (srce_cnx_id ph) <= 18 ->
  let packet := picoquic_prepare_version_negotiation random ph in
  match picoquic_parse_packet_header (Some q) packet (Z.of_nat (length packet)) addr_from None true with
  | Some (ret, ph', _) => ret <> 0 \/ ptype ph' <> version_negotiation \/ dest_cnx_id ph' <> srce_cnx_id ph
  | None => True
  end.
Proof.
  intros Hr Hs Hd Hls packet. pose proof Hd as [Hdl _]. unfold PICOQUIC_CONNECTION_ID_MAX_SIZE in Hdl.
  set (srce := srce_cnx_id ph) in *. set (dest := dest_cnx_id ph) in *.
  assert (0 <= id_len dest) by (unfold id_len; lia).
  pose proof (vn_length_code (id_len srce) (id_len dest) Hls ltac:(lia)) as Hcode.
  set (L := picoquic_create_packet_header_cnxid_lengths _ _) in *.
  assert (exists tl, packet = Z.lor random 0x80 :: 0 :: 0 :: 0 :: 0 :: L :: tl) as [tl ->].
  { unfold packet, picoquic_prepare_version_negotiation. fold srce dest L. cbn [app]. by eexists. }
  set (bytes := _ :: _) at 1. set (len := Z.of_nat _).
  unfold picoquic_parse_packet_header. change (bytes !! 0%nat) with (Some (Z.lor random 0x80)). cbn [mbind option_bind].
  destruct (negb _); [right; left; done|]. destruct (_ =? 0x80).
  2:{ destruct (parse_short_header _ _ _ _ _ _ _) as [[[r p] f]|] eqn:Hp; [|done]. right. left.
      unfold parse_short_header in Hp. destruct (len <? 1 + _); [by injection Hp as <- <- <-|].
      destruct (picoquic_parse_connection_id _ _) as [[n i]|]; [|done]. cbn [mbind option_bind] in Hp.
      destruct (find_short_cnx _ _ _ _); [destruct (if len <? _ then _ else _)|]; by injection Hp as <- <- <-. }
  unfold parse_long_header. destruct (len <? 7); [left; done|].
  unfold parse_long_ids. change (PICOPARSE_32 (drop 1 bytes)) with (Some 0). cbn [mbind option_bind].
  change (bytes !! 5%nat) with (Some L). cbn [mbind option_bind]. destruct (len <? 6 + L + 1); [left; done|].
  destruct (picoquic_parse_connection_id (drop 6 bytes) L) as [[n1 d]|] eqn:Hid; [|done]. cbn [mbind option_bind].
  assert (Hne : d <> srce).
  { intros ->. unfold picoquic_parse_connection_id in Hid. destruct (L <=? _).
    - destruct (Z.ltb_spec (Z.of_nat (length (drop 6 bytes))) L); [done|]. injection Hid as <- Hsr. apply Hcode.
      change (drop 6 bytes) with (drop 0 tl) in *. unfold id_len. rewrite <- Hsr, length_take. destruct (Z.le_gt_cases 0 L); [lia|].
      apply (f_equal length) in Hsr. rewrite length_take in Hsr. unfold id_len in Hls. lia.
    - injection Hid as _ Hsr. unfold id_len in Hls. rewrite <- Hsr in Hls. simpl in Hls. lia. }
  destruct (bytes !! Z.to_nat (6 + n1)) as [l2|]; [|done]. cbn [mbind option_bind].
  destruct (picoquic_parse_connection_id _ l2) as [[n2 s2]|]; [|done]. cbn [mbind option_bind Z.eqb]. right. right. done.
Qed.

(** Version negotiation on the client: the version that is chosen is the first
    one of the list that is supported, and the connection starts again with it;
    without such a version, or in a state in which no answer is expected, the
    connection stays as it was. *)
Theorem version_choice {X} {upper : Upper X} (c : conn X) (versions : list Z) (trail : list Z) len current_time :
  Forall (fun v => 0 <= v < 2 ^ 32) versions ->
  4 * Z.of_nat (length versions) <= len < 4 * Z.of_nat (length versions) + 4 ->
  let bytes := concat (map picoformat_32 versions) ++ trail in
  let supported := filter (fun v => v ∈ picoquic_supported_versions) versions in
  picoquic_reset_cnx_version c bytes len current_time =
  match (is_state (cnx_state_of c) client_init || is_state (cnx_state_of c) client_init_sent), supported with
  | true, v :: _ =>
    let c' := picoquic_set_cnx_state (with_base c (cnx_with_version (base c) (picoquic_get_version_index v))) client_renegotiate in
    Some (reset_cnx c' current_time)
  | _, _ => Some (PICOQUIC_ERROR_UNEXPECTED_PACKET, c)
  end.
Proof.
  intros Hv Hlen bytes supported. unfold picoquic_reset_cnx_version. destruct (_ || _); [|done].
  replace (Z.to_nat (len / 4)) with (length versions).
  2:{ assert (len / 4 = Z.of_nat (length versions)) as ->; [|lia]. symmetry. apply (Z.div_unique len 4 _ (len - 4 * Z.of_nat (length versions))); lia. }
  assert (Hf : find_version (length versions) bytes = Some (picoquic_get_version_index <$> head supported)).
  { subst bytes supported. clear Hlen. induction versions as [|v vs IH]; [done|]. apply list.Forall_cons in Hv as [Hv Hvs].
    cbn [length find_version map concat]. rewrite <- app_assoc, parse_picoformat_32 by done. cbn [mbind option_bind].
    assert (Hsup : (0 <=? picoquic_get_version_index v) = bool_decide (v ∈ picoquic_supported_versions)).
    { unfold picoquic_get_version_index, picoquic_supported_versions. cbn [version_index_loop].
      destruct (Z.eqb_spec 0x50435130 v) as [<-|H1]; [rewrite bool_decide_true by set_solver; done|].
      destruct (Z.eqb_spec 0xff00001b v) as [<-|H2]; [rewrite bool_decide_true by set_solver; done|].
      rewrite bool_decide_false by set_solver. done. }
    rewrite filter_cons, Hsup. case_decide as Hin.
    - rewrite bool_decide_true by done. done.
    - rewrite bool_decide_false by done. change (drop 4 (picoformat_32 v ++ ?r)) with (drop 0 r). rewrite drop_0. by apply IH. }
  rewrite Hf. cbn [mbind option_bind]. by destruct supported.
Qed.

(** ** The peer's address *)

Definition addr_ok (a : sockaddr) : Prop :=
  match a with sockaddr_in b _ => length b = 4%nat | sockaddr_in6 b _ => length b = 16%nat end.

(** The endpoint that an address denotes: mapped addresses are IPv4 addresses. *)
Definition endpoint (a : sockaddr) : sockaddr := default a (picoquic_is_v4_mapped_to_v6_address a).

Definition is_zero_addr (a : sockaddr) : bool :=
  match a with sockaddr_in b _ => bool_decide (b = [0; 0; 0; 0]) | _ => false end.

Lemma compare_addr_spec a b : picoquic_compare_addr a b = true <-> a = b.
Proof.
  destruct a as [a p|a p], b as [b p'|b p']; cbn [picoquic_compare_addr]; try (split; [done|intros [=]]).
  all: rewrite andb_true_iff, Z.eqb_eq, bool_decide_eq_true; split; [intros [-> ->]; done|intros [= -> ->]; done].
Qed.

Lemma forallb_repeat x n (l : list Z) : (n <= length l)%nat -> forallb (fun y => y =? x) (take n l) = true -> take n l = repeat x n.
Proof.
  revert n. induction l as [|y l IH]; intros [|n] Hn Hf; try done; [cbn in Hn; lia|]. cbn [take forallb repeat length] in *.
  apply andb_prop in Hf as [Hy Hf]. apply Z.eqb_eq in Hy as ->. f_equal. apply IH; [lia|done].
Qed.

Lemma mapped_spec b p a : length b = 16%nat ->
  picoquic_is_v4_mapped_to_v6_address (sockaddr_in6 b p) = Some a ->
  b = repeat 0 10 ++ repeat 0xFF 2 ++ drop 12 b /\ a = sockaddr_in (drop 12 b) p.
Proof.
  intros Hl H. cbn [picoquic_is_v4_mapped_to_v6_address] in H. destruct (_ && _) eqn:Hc; [|done]. injection H as <-.
  split; [|done]. apply andb_prop in Hc as [H1 H2].
  apply forallb_repeat in H1; [|lia]. apply forallb_repeat in H2; [|rewrite length_drop; lia].
  rewrite <- H1, <- H2. rewrite <- (take_drop 10 b) at 1. f_equal. rewrite <- (take_drop 2 (drop 10 b)) at 1. by rewrite drop_drop.
Qed.

(** The address of the peer follows its packets: after a packet from an
    address other than 0.0.0.0 the path uses that address, and the path is to be
    validated again exactly when the packet came from another endpoint than before;
    the same endpoint written in the other address family is not another one. *)
Theorem peer_addr_follows {X} (c : conn X) (a : sockaddr) (current_time : Z) :
  addr_ok (peer_addr c) -> addr_ok a ->
  let c' := update_peer_addr c a current_time in
  (is_zero_addr a = false -> peer_addr c' = a) /\
  (endpoint (peer_addr c) = endpoint a -> challenge c' = challenge c) /\
  (endpoint (peer_addr c) <> endpoint a -> is_zero_addr a = false ->
   challenge c' = Challenge false (u64 (current_time + retransmit_timer c)) 0).
Proof.
  intros Hp Ha c'. unfold c', update_peer_addr.
  set (mapped := _ && (_ || _)).
  assert (Hm : mapped = true <-> peer_addr c <> a /\ endpoint (peer_addr c) = endpoint a).
  { subst mapped. unfold endpoint. destruct (peer_addr c) as [pb pp|pb pp] eqn:Hpe, a as [ab ap|ab ap]; cbn [same_family negb andb].
    - cbn [picoquic_is_v4_mapped_to_v6_address default]. naive_solver.
    - cbn [picoquic_is_v4_mapped_to_v6_address default orb].
      change (if _ && _ then Some _ else None) with (picoquic_is_v4_mapped_to_v6_address (sockaddr_in6 ab ap)).
      destruct (picoquic_is_v4_mapped_to_v6_address (sockaddr_in6 ab ap)) as [x|]; cbn [default orb]; [|naive_solver].
      rewrite orb_false_r, compare_addr_spec. split; [intros <-; done|by intros [_ ?]].
    - cbn [picoquic_is_v4_mapped_to_v6_address default orb].
      change (if _ && _ then Some _ else None) with (picoquic_is_v4_mapped_to_v6_address (sockaddr_in6 pb pp)).
      destruct (picoquic_is_v4_mapped_to_v6_address (sockaddr_in6 pb pp)) as [x|]; cbn [default orb]; [|naive_solver].
      rewrite compare_addr_spec. split; [intros <-; done|by intros [_ ?]].
    - split; [done|]. intros [Hne He]. exfalso. cbn [addr_ok] in *.
      destruct (picoquic_is_v4_mapped_to_v6_address (sockaddr_in6 pb pp)) as [x|] eqn:E1,
               (picoquic_is_v4_mapped_to_v6_address (sockaddr_in6 ab ap)) as [y|] eqn:E2; cbn [default] in He.
      + apply mapped_spec in E1 as [H1 ->]; [|done]. apply mapped_spec in E2 as [H2 ->]; [|done].
        injection He as Hd ->. apply Hne. rewrite H1, H2, Hd. done.
      + apply mapped_spec in E1 as [_ ->]; [done|done].
      + apply mapped_spec in E2 as [_ ->]; [done|done].
      + done. }
  destruct mapped.
  - destruct (proj1 Hm eq_refl) as [_ He].
    assert (picoquic_compare_addr (peer_addr (with_peer c a)) a = true) as -> by (by apply compare_addr_spec).
    cbn [negb andb]. split_and!; done.
  - assert (Hn : peer_addr c = a \/ endpoint (peer_addr c) <> endpoint a).
    { destruct (decide (peer_addr c = a)); [by left|]. right. intros He. discriminate (proj2 Hm (conj n He)). }
    fold (is_zero_addr a). destruct (picoquic_compare_addr (peer_addr c) a) eqn:Hc.
    + apply compare_addr_spec in Hc. cbn [negb andb]. split_and!; [by intros _|done|]. intros Hne. by destruct Hne; rewrite Hc.
    + assert (peer_addr c <> a) by (intros E; apply compare_addr_spec in E; congruence).
      destruct Hn as [?|Hn]; [done|]. cbn [negb andb].
      destruct (is_zero_addr a); cbn [negb]; split_and!; done.
Qed.

(** ** Examples *)

(** Layers above that accept everything. *)
#[export] Instance toy_upper : Upper unit := {
  decode_frames c _ _ _ := (0, c);
  decode_closing_frames _ _ := (0, false);
  tls_stream_process c := (0, c);
  tls_handshake_complete _ := true;
  has_handshake_keys _ := false;
  implicit_handshake_ack c _ := c;
  reset_cnx c _ := (0, c);
  callback_ready c := (0, c);
  callback_stateless_reset c := c;
  checksum_length _ := 16
}.

Definition toy_conn (b : cnx) : conn unit :=
  Conn b true (Spin false false 0) (fun _ => false) (fun _ => 1000) (sockaddr_in [10; 0; 0; 1] 4443) (sockaddr_in [10; 0; 0; 2] 4443)
    (Challenge true 0 0) 50000 20000 (Rate 0 0 0 0 0) 0 tt.

(** A context whose state is the list of the packets that were recorded. *)
#[export] Instance toy_host : Host (list Z) unit Z Z := {
  view _ := toy_receiver;
  conn_at _ _ := toy_conn (Cnx 1 client_ready true 1 0xff00001b [1;2;3;4;5;6;7;8] [5;6;7;8;9] [9;9;9;9] [] false);
  put h _ := h;
  forget h _ := h;
  register h _ := h;
  queue_stateless h _ := h;
  random_byte _ := 0;
  uniform _ _ := 0;
  random_bytes _ n := repeat 0 (Z.to_nat n);
  cnxid_secret _ _ := repeat 0 16;
  check_token_flag _ := false;
  expected_token _ _ := None;
  record_pn_received h _ _ pn _ := (0, pn :: h);
  set_next_wake_time h _ _ := h;
  plugin_negotiation h _ := h
}.

Lemma incoming_packet_terminates_witness :
  match picoquic_incoming_packet (H := list Z) (Z.to_nat 76) [] sample_datagram 0 76 0 (sockaddr_in [10; 0; 0; 1] 4443)
          (sockaddr_in [10; 0; 0; 2] 4443) 0 0 with
  | OutOfFuel => False
  | Done _ n => 0 <= n <= 76
  | Faulted => True
  end.
Proof.
  apply (incoming_packet_terminates (H := list Z) [] sample_datagram 76);
    [apply toy_mask_sizes|intros h; vm_compute; split; congruence|repeat constructor; done|lia].
Defined.

(** The packet of the example is accepted and its number recorded. *)
Example sample_datagram_processed :
  picoquic_incoming_packet (H := list Z) (Z.to_nat 76) [] sample_datagram 0 76 0 (sockaddr_in [10; 0; 0; 1] 4443)
    (sockaddr_in [10; 0; 0; 2] 4443) 0 0 = Done [1001] 1.
Proof. vm_compute. reflexivity. Qed.

Definition waiting_client : conn unit :=
  toy_conn (Cnx 1 client_init_sent true 1 0xff00001b [1;2;3;4;5;6;7;8] [5;6;7;8;9] [] [] false).

Lemma retry_roundtrip_witness :
  exists ph found, picoquic_parse_packet_header (Some sample_quic) (retry_packet sample_cnx 0x5A 16 [7; 7; 7]) 28 0 None true
      = Some (0, ph, found) /\
    picoquic_incoming_retry true waiting_client (retry_packet sample_cnx 0x5A 16 [7; 7; 7]) (with_pn64 ph 0) 0 =
    Some (PICOQUIC_ERROR_RETRY, with_base waiting_client (cnx_with_retry (base waiting_client) [9;9;9;9] [7; 7; 7])).
Proof.
  destruct (retry_roundtrip sample_cnx waiting_client 0x5A 16 [7; 7; 7] sample_quic 0 0 sample_cnx_ok ltac:(lia) ltac:(split; done)
    ltac:(vm_compute; congruence) ltac:(vm_compute; reflexivity) eq_refl eq_refl eq_refl) as (ph & found & Hp & _ & Hok & _).
  exists ph, found. split; [exact Hp|]. apply Hok. right. vm_compute. split; congruence.
Defined.

Lemma version_negotiation_not_echoed_witness :
  let ph := PH [1;2;3;4] [5;6;7;8] 0 0x12345678 0 0 packet_error 0 0 0 (-1) 0 context_application 0 false 0 0 in
  let packet := picoquic_prepare_version_negotiation 0x7F ph in
  match picoquic_parse_packet_header (Some sample_quic) packet (Z.of_nat (length packet)) 0 None true with
  | Some (ret, ph', _) => ret <> 0 \/ ptype ph' <> version_negotiation \/ dest_cnx_id ph' <> srce_cnx_id ph
  | None => True
  end.
Proof.
  intros ph. apply (version_negotiation_not_echoed 0x7F ph sample_quic 0);
    [split; done|split; [done|repeat constructor; done]|split; [done|repeat constructor; done]|vm_compute; split; congruence].
Defined.

Lemma version_choice_witness :
  picoquic_reset_cnx_version waiting_client (concat (map picoformat_32 [0x1a2a3a4a; 0x50435130]) ++ []) 8 0 =
  Some (0, picoquic_set_cnx_state (with_base waiting_client (cnx_with_version (base waiting_client) 0)) client_renegotiate).
Proof.
  etransitivity; [apply (version_choice waiting_client [0x1a2a3a4a; 0x50435130] [] 8 0); [repeat constructor; lia|simpl; lia]|].
  vm_compute. reflexivity.
Defined.

Lemma peer_addr_follows_witness :
  let c' := update_peer_addr waiting_client (sockaddr_in [10; 0; 0; 9] 4443) 1000 in
  peer_addr c' = sockaddr_in [10; 0; 0; 9] 4443 /\ challenge c' = Challenge false (u64 (1000 + 50000)) 0.
Proof.
  destruct (peer_addr_follows waiting_client (sockaddr_in [10; 0; 0; 9] 4443) 1000 eq_refl eq_refl) as (Hp & _ & Hc).
  split; [apply Hp; reflexivity|apply Hc; [vm_compute; congruence|reflexivity]].
Defined.

End PacketIn.
