(* ===== verification/Retransmit.v ===== *)
(** * Packets in flight: picoquic/sender.c

    The queue of the packets that were sent and not yet acknowledged, of one path
    and one packet context, and the list of those that were repeated: two doubly
    linked lists through the packets themselves.  [picoquic_queue_for_retransmit],
    [dequeue_retransmit_packet], [dequeue_retransmitted_packet] and
    [picoquic_implicit_handshake_ack] change them and account for the bytes in
    transit; [retransmit_needed_by_packet] decides when a packet counts as lost,
    and the leaky bucket of the path paces new ones.

    Packets live in a store ([heap]) and are named by their address, so that the
    pointers are modelled as they are; the representation predicate [queues]
    relates the store to the lists that the code means. *)
From stdpp Require Import base tactics list numbers gmap sets.
From Stdlib Require Import ZArith Lia Bool.
From S2P Require Import Prelude Packet.
#[local] Open Scope Z_scope.

Module Retransmit.
Import Packet.

(** ** State *)

Abbreviation pointer := nat.

(** [plugin_frames] are the frames that plugins wrote: which plugin, how many bytes. *)
Record packet := Pkt {
  previous_packet : option pointer;
  next_packet : option pointer;
  sequence_number : Z;
  pkt_ptype : packet_type;
  pkt_length : Z;
  send_length : Z;
  send_time : Z;
  is_congestion_controlled : bool;
  plugin_frames : list (nat * Z)
}.

Definition set_previous (p : packet) (x : option pointer) : packet :=
  Pkt x (next_packet p) (sequence_number p) (pkt_ptype p) (pkt_length p) (send_length p) (send_time p)
      (is_congestion_controlled p) (plugin_frames p).
Definition set_next (p : packet) (x : option pointer) : packet :=
  Pkt (previous_packet p) x (sequence_number p) (pkt_ptype p) (pkt_length p) (send_length p) (send_time p)
      (is_congestion_controlled p) (plugin_frames p).
Definition set_send_length (p : packet) (n : Z) : packet :=
  Pkt (previous_packet p) (next_packet p) (sequence_number p) (pkt_ptype p) (pkt_length p) n (send_time p)
      (is_congestion_controlled p) (plugin_frames p).
Definition clear_plugin_frames (p : packet) : packet :=
  Pkt (previous_packet p) (next_packet p) (sequence_number p) (pkt_ptype p) (pkt_length p) (send_length p) (send_time p)
      (is_congestion_controlled p) [].

(** The leaky bucket of a path. *)
Record pacing := Pacing {
  pacing_evaluation_time : Z;
  pacing_bucket_nanosec : Z;
  pacing_bucket_max : Z;
  pacing_packet_time_nanosec : Z;
  pacing_packet_time_microsec : Z
}.

Record state := St {
  heap : gmap pointer packet;
  retransmit_newest : option pointer;
  retransmit_oldest : option pointer;
  retransmitted_newest : option pointer;
  retransmitted_oldest : option pointer;
  bytes_in_transit : Z;
  bytes_in_flight : nat -> Z;      (* of the plugins *)
  bucket : pacing;
  send_mtu : Z
}.

Definition with_heap (s : state) (h : gmap pointer packet) : state :=
  St h (retransmit_newest s) (retransmit_oldest s) (retransmitted_newest s) (retransmitted_oldest s) (bytes_in_transit s)
     (bytes_in_flight s) (bucket s) (send_mtu s).
Definition with_queue (s : state) (newest oldest : option pointer) : state :=
  St (heap s) newest oldest (retransmitted_newest s) (retransmitted_oldest s) (bytes_in_transit s)
     (bytes_in_flight s) (bucket s) (send_mtu s).
Definition with_repeated (s : state) (newest oldest : option pointer) : state :=
  St (heap s) (retransmit_newest s) (retransmit_oldest s) newest oldest (bytes_in_transit s)
     (bytes_in_flight s) (bucket s) (send_mtu s).
Definition with_transit (s : state) (n : Z) : state :=
  St (heap s) (retransmit_newest s) (retransmit_oldest s) (retransmitted_newest s) (retransmitted_oldest s) n
     (bytes_in_flight s) (bucket s) (send_mtu s).
Definition with_flight (s : state) (f : nat -> Z) : state :=
  St (heap s) (retransmit_newest s) (retransmit_oldest s) (retransmitted_newest s) (retransmitted_oldest s) (bytes_in_transit s)
     f (bucket s) (send_mtu s).
Definition with_bucket (s : state) (b : pacing) : state :=
  St (heap s) (retransmit_newest s) (retransmit_oldest s) (retransmitted_newest s) (retransmitted_oldest s) (bytes_in_transit s)
     (bytes_in_flight s) b (send_mtu s).

(** ** Pacing *)

Definition picoquic_update_pacing_bucket (b : pacing) (current_time : Z) : pacing :=
  if pacing_evaluation_time b <? current_time then
    let n := u64 (pacing_bucket_nanosec b + u64 (Z.shiftl (current_time - pacing_evaluation_time b) 10)) in
    Pacing current_time (if pacing_bucket_max b <? n then pacing_bucket_max b else n) (pacing_bucket_max b)
      (pacing_packet_time_nanosec b) (pacing_packet_time_microsec b)
  else b.

(** Whether a packet may be sent, the bucket and [*next_time]. *)
Definition picoquic_is_sending_authorized_by_pacing (b : pacing) (current_time next_time : Z) : bool * pacing * Z :=
  let b := picoquic_update_pacing_bucket b current_time in
  if pacing_bucket_nanosec b <=? 0 then
    let next_pacing_time := u64 (current_time + pacing_packet_time_microsec b) in
    (false, b, if next_pacing_time <? next_time then next_pacing_time else next_time)
  else (true, b, next_time).

Definition picoquic_update_pacing_after_send (b : pacing) (send_mtu current_time sent_packet_size : Z) : pacing :=
  let b := picoquic_update_pacing_bucket b current_time in
  let t := u64 (pacing_packet_time_nanosec b * sent_packet_size) / send_mtu in
  Pacing (pacing_evaluation_time b) (if pacing_bucket_nanosec b <? t then 0 else pacing_bucket_nanosec b - t)
    (pacing_bucket_max b) (pacing_packet_time_nanosec b) (pacing_packet_time_microsec b).

(** The branch of [picoquic_update_pacing_data] for small windows; the other one
    computes in floating point. *)
Definition update_pacing_small_window (b : pacing) (smoothed_rtt : Z) : pacing :=
  let rtt_nanosec := u64 (smoothed_rtt * 1000) in
  Pacing (pacing_evaluation_time b)
    (if rtt_nanosec <? pacing_bucket_nanosec b then rtt_nanosec else pacing_bucket_nanosec b) rtt_nanosec 1 1.

(** ** The queues.  Following a null or dangling pointer gives [None]. *)

Definition update_packet (h : gmap pointer packet) (p : pointer) (f : packet -> packet) : option (gmap pointer packet) :=
  x ← h !! p; Some (<[p := f x]> h).

(** [p] is a packet that is not in a queue; [length] its size on the wire. *)
Definition picoquic_queue_for_retransmit (s : state) (p : pointer) (length current_time : Z) : option state :=
  x ← heap s !! p;
  let x := if is_congestion_controlled x then set_send_length x (u32 length) else x in
  let s := if is_congestion_controlled x then with_transit s (u64 (bytes_in_transit s + send_length x)) else s in
  s ← match retransmit_newest s with
      | None => Some (with_queue (with_heap s (<[p := set_next (set_previous x None) None]> (heap s))) (Some p) (Some p))
      | Some q =>
        h ← update_packet (<[p := set_next (set_previous x None) (Some q)]> (heap s)) q (fun y => set_previous y (Some p));
        Some (with_queue (with_heap s h) (Some p) (retransmit_oldest s))
      end;
  Some (with_bucket s (picoquic_update_pacing_after_send (bucket s) (send_mtu s) current_time (send_length x))).

Definition remove_registered_plugin_frames (s : state) (frames : list (nat * Z)) : state :=
  with_flight s (foldl (fun f '(plugin, n) => fun q => if decide (q = plugin) then u64 (f q - n) else f q) (bytes_in_flight s) frames).

(** Takes [p] out of a list whose ends are [newest] and [oldest]: the store and the ends. *)
Definition unlink (h : gmap pointer packet) (newest oldest : option pointer) (p : pointer)
    : option (gmap pointer packet * option pointer * option pointer) :=
  x ← h !! p;
  '(h, newest) ← match previous_packet x with
                 | None => Some (h, next_packet x)
                 | Some q => h ← update_packet h q (fun y => set_next y (next_packet x)); Some (h, newest)
                 end;
  x ← h !! p;
  '(h, oldest) ← match next_packet x with
                 | None => Some (h, previous_packet x)
                 | Some q => h ← update_packet h q (fun y => set_previous y (previous_packet x)); Some (h, oldest)
                 end;
  Some (h, newest, oldest).

Definition dequeue_retransmit_packet (s : state) (p : pointer) (should_free : bool) : option state :=
  x ← heap s !! p;
  let dequeued_length := send_length x in
  '(h, newest, oldest) ← unlink (heap s) (retransmit_newest s) (retransmit_oldest s) p;
  let s := with_queue (with_heap s h) newest oldest in
  let s := if is_congestion_controlled x
           then with_transit s (if dequeued_length <? bytes_in_transit s then bytes_in_transit s - dequeued_length else 0) else s in
  let s := remove_registered_plugin_frames s (plugin_frames x) in
  h ← update_packet (heap s) p clear_plugin_frames;
  let s := with_heap s h in
  if should_free then Some (with_heap s (delete p (heap s)))
  else
    match retransmitted_oldest s with
    | None =>
      h ← update_packet (heap s) p (fun y => set_previous (set_next y None) None);
      Some (with_repeated (with_heap s h) (Some p) (Some p))
    | Some q =>
      h ← update_packet (heap s) p (fun y => set_next y None);
      h ← update_packet h q (fun y => set_next y (Some p));
      h ← update_packet h p (fun y => set_previous y (Some q));
      Some (with_repeated (with_heap s h) (retransmitted_newest s) (Some p))
    end.

Definition dequeue_retransmitted_packet (s : state) (p : pointer) : option state :=
  '(h, newest, oldest) ← unlink (heap s) (retransmitted_newest s) (retransmitted_oldest s) p;
  Some (with_heap (with_repeated s newest oldest) (delete p h)).

(** The loop over the queue, from the oldest packet along [next_packet]: the queue and the lengths that the congestion
    controller is told, those of the packets that count for it. *)
Fixpoint implicit_ack_loop (fuel : nat) (s : state) (p : option pointer) : option (state * list Z) :=
  match p with
  | None => Some (s, [])
  | Some p =>
    match fuel with
    | O => None
    | S fuel =>
      x ← heap s !! p;
      s ← dequeue_retransmit_packet s p true;
      '(s, told) ← implicit_ack_loop fuel s (next_packet x);
      Some (s, if is_congestion_controlled x then pkt_length x :: told else told)
    end
  end.

Definition picoquic_implicit_handshake_ack (fuel : nat) (s : state) : option (state * list Z) :=
  implicit_ack_loop fuel s (retransmit_oldest s).

(** ** When a packet counts as lost *)

Definition PICOQUIC_RACK_DELAY : Z := 10000.

(** What the decision reads of the path, its packet context and the connection. *)
Record loss_ctx := LossCtx {
  highest_acknowledged : Z;
  latest_time_acknowledged : Z;
  nb_retransmit : Z;
  smoothed_rtt : Z;
  retransmit_timer : Z;
  last_1rtt_acknowledged_at : Z;
  cnx_is_ready : bool;             (* almost ready or ready *)
  zero_rtt_data_accepted : bool
}.

(** Whether the packet is to be repeated, [timer_based] and the time when it is. *)
Definition retransmit_needed_by_packet (c : loss_ctx) (p : packet) (current_time : Z) : bool * bool * Z :=
  let delta_seq := s64 (highest_acknowledged c - sequence_number p) in
  let '(retransmit_time, is_timer_based) :=
    if 0 <? delta_seq then
      let t := u64 (send_time p + smoothed_rtt c + Z.shiftr (smoothed_rtt c) 3) in
      (if delta_seq <? 3 then
         let rack_timer_min := u64 (latest_time_acknowledged c + PICOQUIC_RACK_DELAY) in
         if t <? rack_timer_min then rack_timer_min else t
       else t, false)
    else
      let alt_pto := u64 (last_1rtt_acknowledged_at c + Z.shiftr (smoothed_rtt c) 2) in
      let rto := if nb_retransmit c =? 0 then retransmit_timer c else u64 (Z.shiftl 1000000 (nb_retransmit c - 1)) in
      let t := u64 (send_time p + rto) in
      (if t <? alt_pto then alt_pto else t, true) in
  let retransmit_time :=
    if bool_decide (pkt_ptype p = zero_rtt_protected) then
      if negb (cnx_is_ready c) then u64 (current_time + smoothed_rtt c + PICOQUIC_RACK_DELAY)
      else if negb (zero_rtt_data_accepted c) then current_time
      else retransmit_time
    else retransmit_time in
  if retransmit_time <=? current_time then (true, is_timer_based, retransmit_time) else (false, false, retransmit_time).

(** ** Doubly linked lists in the store *)

Definition next_of (l : list pointer) (nx : option pointer) : option pointer :=
  match l with [] => nx | y :: _ => Some y end.

Definition prev_of (pv : option pointer) (l : list pointer) : option pointer :=
  match list.last l with None => pv | Some x => Some x end.

(** The nodes of [l] are linked in this order, between [pv] and [nx]. *)
Fixpoint dll (h : gmap pointer packet) (pv : option pointer) (l : list pointer) (nx : option pointer) : Prop :=
  match l with
  | [] => True
  | x :: l' => exists n, h !! x = Some n /\ previous_packet n = pv /\ next_packet n = next_of l' nx /\ dll h (Some x) l' nx
  end.

(** A packet without its links. *)
Definition data (x : packet) : packet := set_next (set_previous x None) None.
Definition same_data (h h' : gmap pointer packet) : Prop := forall y, data <$> h' !! y = data <$> h !! y.

Lemma same_data_refl h : same_data h h.
Proof. done. Qed.
Lemma same_data_trans h1 h2 h3 : same_data h1 h2 -> same_data h2 h3 -> same_data h1 h3.
Proof. intros H1 H2 y. by rewrite (H2 y), (H1 y). Qed.

Lemma same_data_update h p x x' : h !! p = Some x -> data x' = data x -> same_data h (<[p := x']> h).
Proof.
  intros Hx Hf y. destruct (decide (y = p)) as [->|]; [by rewrite lookup_insert_eq, Hx; simpl; rewrite Hf|].
  by rewrite lookup_insert_ne by done.
Qed.

Lemma prev_of_cons pv x l : prev_of pv (x :: l) = prev_of (Some x) l.
Proof. unfold prev_of. rewrite last_cons. by destruct (list.last l). Qed.

Lemma prev_of_snoc pv l x : prev_of pv (l ++ [x]) = Some x.
Proof. unfold prev_of. by rewrite last_snoc. Qed.

Lemma dll_app h pv l1 l2 nx :
  dll h pv (l1 ++ l2) nx <-> dll h pv l1 (next_of l2 nx) /\ dll h (prev_of pv l1) l2 nx.
Proof.
  revert pv. induction l1 as [|x l1 IH]; intros pv; [simpl; tauto|].
  rewrite prev_of_cons. cbn [app dll]. setoid_rewrite IH.
  assert (next_of (l1 ++ l2) nx = next_of l1 (next_of l2 nx)) as -> by (by destruct l1). naive_solver.
Qed.

Lemma dll_frame h h' pv l nx : (forall y, y ∈ l -> h' !! y = h !! y) -> dll h pv l nx -> dll h' pv l nx.
Proof.
  revert pv. induction l as [|x l IH]; intros pv Hf Hd; [done|]. destruct Hd as (n & Hn & Hp & Hnx & Hd).
  exists n. split; [rewrite Hf by set_solver; done|]. split_and!; try done. apply IH; [set_solver|done].
Qed.

Lemma dll_lookup h pv l nx x : dll h pv l nx -> x ∈ l -> exists n, h !! x = Some n.
Proof.
  revert pv. induction l as [|y l IH]; intros pv Hd Hx; [set_solver|]. destruct Hd as (n & Hn & _ & _ & Hd).
  apply elem_of_cons in Hx as [->|Hx]; [by exists n|by eapply IH].
Qed.

Lemma dll_set_previous h pv pv' x l nx n : h !! x = Some n -> x ∉ l -> dll h pv (x :: l) nx ->
  dll (<[x := set_previous n pv']> h) pv' (x :: l) nx.
Proof.
  intros Hn Hx (n' & Hn' & Hp & Hnx & Hd). simplify_eq. eexists. split; [apply lookup_insert_eq|]. split_and!; try done.
  eapply dll_frame; [|done]. intros y Hy. apply lookup_insert_ne. set_solver.
Qed.

Lemma dll_set_next h pv l x nx nx' n : h !! x = Some n -> x ∉ l -> dll h pv (l ++ [x]) nx ->
  dll (<[x := set_next n nx']> h) pv (l ++ [x]) nx'.
Proof.
  intros Hn Hx Hd. apply dll_app in Hd as [Hl (n' & Hn' & Hp & Hnx & _)]. simplify_eq. apply dll_app. split.
  - cbn [next_of] in *. eapply dll_frame; [|done]. intros y Hy. apply lookup_insert_ne. set_solver.
  - eexists. split; [apply lookup_insert_eq|]. done.
Qed.

(** The ends of a list. *)
Definition ends (l : list pointer) (newest oldest : option pointer) : Prop := newest = head l /\ oldest = list.last l.

(** Taking a node out of the middle. *)
Lemma unlink_spec h l1 p l2 newest oldest :
  dll h None (l1 ++ p :: l2) None -> NoDup (l1 ++ p :: l2) -> ends (l1 ++ p :: l2) newest oldest ->
  exists h' newest' oldest', unlink h newest oldest p = Some (h', newest', oldest') /\
    dll h' None (l1 ++ l2) None /\ ends (l1 ++ l2) newest' oldest' /\ same_data h h' /\
    (forall y, y ∉ l1 ++ l2 -> h' !! y = h !! y).
Proof.
  intros Hd Hnd [Hnew Hold]. pose proof Hd as Hd0. apply dll_app in Hd as [Hd1 (x & Hx & Hp & Hnx & Hd2)].
  cbn [next_of] in Hd1. apply NoDup_app in Hnd as (Hnd1 & Hdis & Hnd2). apply NoDup_cons in Hnd2 as [Hp2 Hnd2].
  unfold unlink. rewrite Hx. cbn [mbind option_bind]. rewrite Hp.
  (* the node before [p] *)
  assert (exists h1, (match prev_of None l1 with
            | None => Some (h, next_packet x)
            | Some q => h ← update_packet h q (fun y => set_next y (next_packet x)); Some (h, newest)
            end) = Some (h1, head (l1 ++ l2)) /\ dll h1 None l1 (next_of l2 None) /\ dll h1 (Some p) l2 None /\
          h1 !! p = Some x /\ same_data h h1 /\ (forall y, y ∉ l1 ++ l2 -> h1 !! y = h !! y)) as (h1 & E1 & Hd1' & Hd2' & Hx1 & Hs1 & Hf1).
  { destruct l1 as [|a l1' _] using rev_ind.
    - exists h. cbn [prev_of list.last app]. rewrite Hnx. split; [by destruct l2|]. split_and!; try done.
    - rewrite prev_of_snoc. assert (Ha : a ∈ (l1' ++ [a]) ++ p :: l2) by set_solver.
      destruct (dll_lookup _ _ _ _ a Hd0 Ha) as [na Hna]. unfold update_packet. rewrite Hna. cbn [mbind option_bind].
      apply NoDup_app in Hnd1 as (Hnd1 & Hdis1 & _). assert (a ∉ l1') by (intros ?; by apply (Hdis1 a); [|set_solver]).
      assert (a <> p) by (intros ->; apply (Hdis p); set_solver). assert (a ∉ l2) by (intros ?; apply (Hdis a); set_solver).
      exists (<[a := set_next na (next_packet x)]> h). split.
      { do 2 f_equal. rewrite Hnew. by destruct l1'. }
      split; [rewrite Hnx; by eapply dll_set_next|]. split; [eapply dll_frame; [|done]; intros y Hy; apply lookup_insert_ne; set_solver|].
      split; [by rewrite lookup_insert_ne|]. split; [by eapply same_data_update|].
      intros y Hy. apply lookup_insert_ne. set_solver. }
  rewrite E1. cbn [mbind option_bind]. rewrite Hx1. cbn [mbind option_bind]. rewrite Hnx, Hp.
  (* the node behind [p] *)
  destruct l2 as [|b l2].
  - cbn [next_of]. eexists _, _, _. split; [reflexivity|]. rewrite app_nil_r in *. split_and!; try done. split; [done|]. unfold prev_of. by destruct (list.last l1).
  - cbn [next_of]. destruct (dll_lookup _ _ _ _ b Hd2' ltac:(set_solver)) as [nb Hnb]. unfold update_packet. rewrite Hnb. cbn [mbind option_bind].
    apply NoDup_cons in Hnd2 as [Hb2 Hnd2]. assert (b ∉ l1) by (intros ?; apply (Hdis b); set_solver).
    eexists _, _, _. split; [reflexivity|]. split_and!.
    + apply dll_app. split; [|by eapply dll_set_previous].
      eapply dll_frame; [|exact Hd1']. intros y Hy. apply lookup_insert_ne. set_solver.
    + split; [done|]. rewrite Hold, !last_app_cons. by rewrite (last_cons_cons p b).
    + eapply same_data_trans; [done|]. by eapply same_data_update.
    + intros y Hy. rewrite lookup_insert_ne by set_solver. by apply Hf1.
Qed.

(** ** What the queues mean *)

(** The packets in flight, newest first, with the bytes they count for, and the
    repeated packets in the order in which they were declared lost. *)
Record abstract := Abs { in_flight : list (pointer * Z); repeated : list pointer }.

Definition transit (a : abstract) : Z := foldr (fun x n => x.2 + n) 0 (in_flight a).

Definition counted (x : packet) : Z := if is_congestion_controlled x then send_length x else 0.

(** [other] are the bytes of the other packet contexts of the path. *)
Record represents (other : Z) (s : state) (a : abstract) : Prop := Rep {
  rep_flight : dll (heap s) None (in_flight a).*1 None;
  rep_repeated : dll (heap s) None (repeated a) None;
  rep_nodup : NoDup ((in_flight a).*1 ++ repeated a);
  rep_ends : ends (in_flight a).*1 (retransmit_newest s) (retransmit_oldest s);
  rep_repeated_ends : ends (repeated a) (retransmitted_newest s) (retransmitted_oldest s);
  rep_counted : Forall (fun x => counted <$> heap s !! x.1 = Some x.2 /\ 0 <= x.2) (in_flight a);
  rep_transit : bytes_in_transit s = other + transit a
}.

(** What happens to the queues: a packet is sent, acknowledged, declared lost, or
    an old packet is forgotten. *)
Inductive op :=
  | Sent (p : pointer) (x : packet) (length current_time : Z)
  | Acked (p : pointer)
  | Lost (p : pointer)
  | Forgotten (p : pointer).

Definition run_op (s : state) (o : op) : option state :=
  match o with
  | Sent p x length current_time =>
    picoquic_queue_for_retransmit (with_heap s (<[p := x]> (heap s))) p length current_time
  | Acked p => dequeue_retransmit_packet s p true
  | Lost p => dequeue_retransmit_packet s p false
  | Forgotten p => dequeue_retransmitted_packet s p
  end.

Definition run_ops (s : state) (l : list op) : option state := foldl (fun s o => s ← s; run_op s o) (Some s) l.

Definition without (p : pointer) (l : list (pointer * Z)) : list (pointer * Z) := filter (fun x => x.1 <> p) l.

Definition spec_op (a : abstract) (o : op) : abstract :=
  match o with
  | Sent p x length _ => Abs ((p, if is_congestion_controlled x then length else 0) :: in_flight a) (repeated a)
  | Acked p => Abs (without p (in_flight a)) (repeated a)
  | Lost p => Abs (without p (in_flight a)) (repeated a ++ [p])
  | Forgotten p => Abs (in_flight a) (filter (fun x => x <> p) (repeated a))
  end.

(** A packet is sent once; only packets in flight are acknowledged or lost. *)
Definition allowed (other : Z) (a : abstract) (o : op) : Prop :=
  match o with
  | Sent p _ length _ => (p ∉ (in_flight a).*1 ++ repeated a) /\ 0 <= length < 2 ^ 32 /\ other + transit a + length < 2 ^ 64
  | Acked p | Lost p => p ∈ (in_flight a).*1
  | Forgotten p => p ∈ repeated a
  end.

Lemma without_split (p : pointer) (l : list (pointer * Z)) : p ∈ l.*1 -> NoDup l.*1 ->
  exists l1 n l2, l = l1 ++ (p, n) :: l2 /\ without p l = l1 ++ l2.
Proof.
  intros Hp Hnd. apply list_elem_of_fmap in Hp as ([p' n] & Hpn & Hin). cbn in Hpn. subst p'.
  apply list_elem_of_split in Hin as (l1 & l2 & ->). exists l1, n, l2. split; [done|].
  rewrite fmap_app, fmap_cons in Hnd. cbn [fst] in Hnd. apply NoDup_app in Hnd as (_ & Hd & Hnd). apply NoDup_cons in Hnd as [Hn _].
  unfold without. rewrite filter_app, filter_cons, decide_False by naive_solver.
  rewrite !filter_all; [done| |].
  - intros [y m] Hy Heq. cbn in Heq. subst y. apply Hn. apply list_elem_of_fmap. by exists (p, m).
  - intros [y m] Hy Heq. cbn in Heq. subst y. apply (Hd p); [|set_solver]. apply list_elem_of_fmap. by exists (p, m).
Qed.

Lemma transit_split l1 (p : pointer) n l2 r : transit (Abs (l1 ++ (p, n) :: l2) r) = n + transit (Abs (l1 ++ l2) r).
Proof. unfold transit. cbn [in_flight]. induction l1 as [|[y m] l1 IH]; [done|]. cbn [app foldr snd]. rewrite IH. cbn [snd]. lia. Qed.

Lemma transit_nonneg (P : pointer * Z -> Prop) l r : Forall (fun x => P x /\ 0 <= x.2) l -> 0 <= transit (Abs l r).
Proof. unfold transit. cbn [in_flight]. induction 1 as [|x l [_ Hx] _ IH]; cbn [foldr]; lia. Qed.

Lemma counted_same (h h' : gmap pointer packet) y : data <$> h' !! y = data <$> h !! y -> counted <$> h' !! y = counted <$> h !! y.
Proof.
  destruct (h' !! y) as [x'|], (h !! y) as [x|]; try done. simpl. intros [= H]. f_equal.
  unfold counted. by destruct x, x'; simplify_eq/=.
Qed.

(** *** Every operation does what is meant *)

Lemma counted_frame (h h' : gmap pointer packet) (l : list (pointer * Z)) :
  (forall y, y ∈ l.*1 -> data <$> h' !! y = data <$> h !! y) ->
  Forall (fun x => counted <$> h !! x.1 = Some x.2 /\ 0 <= x.2) l ->
  Forall (fun x => counted <$> h' !! x.1 = Some x.2 /\ 0 <= x.2) l.
Proof.
  intros Hf. rewrite !list.Forall_forall. intros H x Hx. specialize (H x Hx). destruct H as [Hc Hn]. split; [|done].
  rewrite <- Hc. apply counted_same, Hf. apply list_elem_of_fmap. by exists x.
Qed.

Lemma sent_refines other s a p x length current_time :
  represents other s a -> 0 <= other -> allowed other a (Sent p x length current_time) ->
  exists s', run_op s (Sent p x length current_time) = Some s' /\ represents other s' (spec_op a (Sent p x length current_time)).
Proof.
  intros [Hq Hr Hnd [Hen Heo] Her Hc Ht] Hother (Hfresh & Hlen & Hmax). cbn [run_op spec_op].
  set (q := in_flight a) in *. set (r := repeated a) in *. apply not_elem_of_app in Hfresh as [Hpq Hpr].
  unfold picoquic_queue_for_retransmit. cbn [heap with_heap]. rewrite lookup_insert_eq. cbn [mbind option_bind]. rewrite (u32_small length) by lia.
  set (x1 := if is_congestion_controlled x then set_send_length x length else x).
  set (n := if is_congestion_controlled x then length else 0).
  assert (Hcc : is_congestion_controlled x1 = is_congestion_controlled x) by (unfold x1; destruct (is_congestion_controlled x) eqn:E; done).
  assert (Hcx : forall a b, counted (set_next (set_previous x1 a) b) = n)
    by (intros; unfold counted, n; cbn; rewrite Hcc; unfold x1; by destruct (is_congestion_controlled x)).
  pose proof (transit_nonneg _ _ r Hc) as Htn. fold q in Ht.
  assert (Htr : transit (Abs ((p, n) :: q) r) = n + transit a) by reflexivity.
  assert (Hn : 0 <= n <= length) by (unfold n; destruct (is_congestion_controlled x); lia).
  set (s1 := if is_congestion_controlled x1 then _ else _).
  assert (Hs1 : heap s1 = <[p:=x]> (heap s) /\ retransmit_newest s1 = retransmit_newest s /\
                retransmit_oldest s1 = retransmit_oldest s /\ retransmitted_newest s1 = retransmitted_newest s /\
                retransmitted_oldest s1 = retransmitted_oldest s /\ bytes_in_transit s1 = other + (n + transit a)).
  { unfold s1. rewrite Hcc. destruct (is_congestion_controlled x) eqn:E; cbn; split_and!; try done.
    unfold x1, n. cbn. change (transit a) with (transit (Abs q r)). fold r in Htn.
    rewrite u64_small; rewrite Ht; change (transit a) with (transit (Abs q r)) in *; lia. }
  destruct Hs1 as (Hh & Hn1 & Ho1 & Hrn1 & Hro1 & Hb1). clearbody s1.
  change (transit a) with (transit (Abs q r)) in Hb1. clear Ht Htr Hmax.
  rewrite Hn1, Hen. destruct q as [|[y m] q']; cbn [fmap list_fmap head fst].
  - rewrite Hh, insert_insert_eq. eexists. split; [reflexivity|]. split; cbn.
    + eexists. split; [apply lookup_insert_eq|done].
    + eapply dll_frame; [|exact Hr]. intros z Hz. apply lookup_insert_ne. set_solver.
    + constructor; [set_solver|by apply NoDup_app in Hnd as (_ & _ & ?)].
    + done.
    + destruct Her. split; congruence.
    + constructor; [|constructor]. cbn. rewrite lookup_insert_eq. cbn. rewrite Hcx. split; [done|lia].
    + rewrite Hb1. unfold transit. cbn. lia.
  - rewrite Hh, insert_insert_eq. unfold update_packet.
    assert (Hyp : y <> p) by (intros ->; apply Hpq; cbn; set_solver).
    cbn [fmap list_fmap fst] in Hq. destruct Hq as (ny & Hny & Hpv & Hnx & Hq). rewrite lookup_insert_ne, Hny by done.
    cbn [mbind option_bind]. eexists. split; [reflexivity|].
    assert (Hyq : y ∉ q'.*1) by (apply NoDup_app in Hnd as (Hnd & _ & _); by apply NoDup_cons in Hnd as [? _]).
    assert (Hyr : y ∉ r) by (apply NoDup_app in Hnd as (_ & Hd & _); apply Hd; cbn; set_solver).
    split; cbn.
    + eexists. split; [rewrite lookup_insert_ne by done; apply lookup_insert_eq|]. split_and!; try done.
      apply (dll_set_previous _ None); [by rewrite lookup_insert_ne|done|].
      eapply dll_frame; [|exists ny; done]. intros z Hz. apply lookup_insert_ne. cbn in Hpq. set_solver.
    + eapply dll_frame; [|exact Hr]. intros z Hz. rewrite !lookup_insert_ne; [done|set_solver|set_solver].
    + constructor; [|done]. cbn in Hpq. set_solver.
    + split; [done|]. rewrite Ho1, Heo. cbn [fmap list_fmap fst]. by rewrite (last_cons_cons p y).
    + destruct Her. split; congruence.
    + constructor; [cbn; rewrite lookup_insert_ne by done; rewrite lookup_insert_eq; cbn; rewrite Hcx; split; [done|lia]|].
      eapply counted_frame; [|exact Hc]. intros z Hz. destruct (decide (z = y)) as [->|Hzy].
      * by rewrite lookup_insert_eq, Hny.
      * rewrite !lookup_insert_ne; [done|cbn in Hpq; set_solver|done].
    + rewrite Hb1. unfold transit. cbn. lia.
Qed.

(** The part of [dequeue_retransmit_packet] that both kinds of removal share. *)
Lemma dequeue_common other s a p :
  represents other s a -> 0 <= other -> p ∈ (in_flight a).*1 ->
  let q' := without p (in_flight a) in
  exists x h newest oldest,
    heap s !! p = Some x /\
    unlink (heap s) (retransmit_newest s) (retransmit_oldest s) p = Some (h, newest, oldest) /\
    h !! p = Some x /\ dll h None q'.*1 None /\ dll h None (repeated a) None /\ NoDup (q'.*1 ++ repeated a) /\
    ends q'.*1 newest oldest /\ (p ∉ q'.*1 ++ repeated a) /\
    Forall (fun y => counted <$> h !! y.1 = Some y.2 /\ 0 <= y.2) q' /\
    (if is_congestion_controlled x
     then (if send_length x <? bytes_in_transit s then bytes_in_transit s - send_length x else 0)
     else bytes_in_transit s) = other + transit (Abs q' (repeated a)).
Proof.
  intros [Hq Hr Hnd He Her Hc Ht] Hother Hp q'.
  assert (Hndq : NoDup (in_flight a).*1) by (by apply NoDup_app in Hnd as (? & _)).
  destruct (without_split p (in_flight a) Hp Hndq) as (l1 & n & l2 & Hl & Hq').
  subst q'. rewrite Hq'. rewrite Hl in Hq, Hnd, He, Hc, Hndq. rewrite fmap_app, fmap_cons in Hq, Hnd, He, Hndq.
  cbn [fst] in Hq, Hnd, He, Hndq.
  destruct (unlink_spec _ _ _ _ _ _ Hq Hndq He) as (h & newest & oldest & Hu & Hd & He' & Hsd & Hf).
  apply Forall_app in Hc as [Hc1 Hc2]. apply list.Forall_cons in Hc2 as [[Hcp Hn] Hc2]. cbn [fst snd] in *.
  destruct (heap s !! p) as [x|] eqn:Hx; [|done]. injection Hcp as Hcp.
  rewrite <- app_assoc in Hnd. pose proof Hnd as Hnd0. apply NoDup_app in Hnd as (Hnd1 & Hd1 & Hnd2).
  cbn [app] in Hnd2, Hd1, Hnd0. apply NoDup_cons in Hnd2 as [Hp2 Hnd2].
  assert (Hp1 : p ∉ l1.*1) by (intros ?; apply (Hd1 p); set_solver).
  assert (Hpl : p ∉ l1.*1 ++ l2.*1) by set_solver.
  assert (Hrl : forall y, y ∈ repeated a -> y ∉ l1.*1 ++ l2.*1).
  { intros y Hy. apply NoDup_app in Hnd2 as (_ & Hd2 & _). intros Hy2. apply elem_of_app in Hy2 as [?|?];
      [apply (Hd1 y); set_solver|by apply (Hd2 y)]. }
  exists x, h, newest, oldest. rewrite fmap_app. split_and!; try done.
  - by rewrite Hf.
  - eapply dll_frame; [|exact Hr]. intros y Hy. by apply Hf, Hrl.
  - rewrite <- app_assoc. apply NoDup_app. split; [done|]. split; [|done]. intros y Hy Hy2. apply (Hd1 y); set_solver.
  - set_solver.
  - eapply counted_frame; [intros y _; apply Hsd|]. by apply Forall_app.
  - pose proof (transit_nonneg _ _ (repeated a) (proj2 (Forall_app _ _ _) (conj Hc1 Hc2))) as Htn.
    assert (Hb : bytes_in_transit s = other + (n + transit (Abs (l1 ++ l2) (repeated a)))).
    { rewrite Ht. rewrite <- transit_split with (p := p). unfold transit. by rewrite Hl. }
    unfold counted in Hcp. rewrite Hb. destruct (is_congestion_controlled x); [rewrite Hcp|lia].
    destruct (Z.ltb_spec n (other + (n + transit (Abs (l1 ++ l2) (repeated a))))); lia.
Qed.

(** Packets outside the queues do not matter. *)
Lemma dll_outside h p y pv l nx : p ∉ l -> dll h pv l nx -> dll (<[p := y]> h) pv l nx.
Proof. intros Hp. apply dll_frame. intros z Hz. apply lookup_insert_ne. set_solver. Qed.

Lemma counted_outside (h : gmap pointer packet) p y l : p ∉ l.*1 ->
  Forall (fun x => counted <$> h !! x.1 = Some x.2 /\ 0 <= x.2) l ->
  Forall (fun x => counted <$> <[p := y]> h !! x.1 = Some x.2 /\ 0 <= x.2) l.
Proof. intros Hp. apply counted_frame. intros z Hz. by rewrite lookup_insert_ne by set_solver. Qed.

Lemma acked_refines other s a p :
  represents other s a -> 0 <= other -> p ∈ (in_flight a).*1 ->
  exists s', run_op s (Acked p) = Some s' /\ represents other s' (spec_op a (Acked p)).
Proof.
  intros Hrep Hother Hp. destruct (dequeue_common other s a p Hrep Hother Hp)
    as (x & h & newest & oldest & Hx & Hu & Hxh & Hq & Hr & Hnd & He & Hout & Hc & Ht).
  set (q' := without p (in_flight a)) in *. apply not_elem_of_app in Hout as [Hpq Hpr].
  cbn [run_op spec_op]. unfold dequeue_retransmit_packet. rewrite Hx. cbn [mbind option_bind]. rewrite Hu. cbn [mbind option_bind].
  set (s1 := remove_registered_plugin_frames _ _).
  assert (Hs1 : heap s1 = h /\ retransmit_newest s1 = newest /\ retransmit_oldest s1 = oldest /\
    retransmitted_newest s1 = retransmitted_newest s /\ retransmitted_oldest s1 = retransmitted_oldest s /\
    bytes_in_transit s1 = other + transit (Abs q' (repeated a)))
    by (rewrite <- Ht; unfold s1; by destruct (is_congestion_controlled x)).
  destruct Hs1 as (Hh & Hn & Ho & Hrn & Hro & Hb). clearbody s1. rewrite Hh. unfold update_packet. rewrite Hxh. cbn [mbind option_bind].
  eexists. split; [reflexivity|]. destruct (rep_repeated_ends _ _ _ Hrep) as [Hrn' Hro']. cbn. rewrite delete_insert_eq.
  split; cbn [in_flight repeated heap with_heap retransmit_newest retransmit_oldest retransmitted_newest retransmitted_oldest bytes_in_transit];
    rewrite ?Hn, ?Ho, ?Hrn, ?Hro, ?Hb; try done.
  - eapply dll_frame; [|exact Hq]. intros y Hy. apply lookup_delete_ne. set_solver.
  - eapply dll_frame; [|exact Hr]. intros y Hy. apply lookup_delete_ne. set_solver.
  - eapply counted_frame; [|exact Hc]. intros y Hy. by rewrite lookup_delete_ne by set_solver.
Qed.

Lemma lost_refines other s a p :
  represents other s a -> 0 <= other -> p ∈ (in_flight a).*1 ->
  exists s', run_op s (Lost p) = Some s' /\ represents other s' (spec_op a (Lost p)).
Proof.
  intros Hrep Hother Hp. destruct (dequeue_common other s a p Hrep Hother Hp)
    as (x & h & newest & oldest & Hx & Hu & Hxh & Hq & Hr & Hnd & He & Hout & Hc & Ht).
  set (q' := without p (in_flight a)) in *. apply not_elem_of_app in Hout as [Hpq Hpr].
  cbn [run_op spec_op]. unfold dequeue_retransmit_packet. rewrite Hx. cbn [mbind option_bind]. rewrite Hu. cbn [mbind option_bind].
  set (s1 := remove_registered_plugin_frames _ _).
  assert (Hs1 : heap s1 = h /\ retransmit_newest s1 = newest /\ retransmit_oldest s1 = oldest /\
    retransmitted_newest s1 = retransmitted_newest s /\ retransmitted_oldest s1 = retransmitted_oldest s /\
    bytes_in_transit s1 = other + transit (Abs q' (repeated a)))
    by (rewrite <- Ht; unfold s1; by destruct (is_congestion_controlled x)).
  destruct Hs1 as (Hh & Hn & Ho & Hrn & Hro & Hb). clearbody s1. rewrite Hh. unfold update_packet. rewrite Hxh. cbn [mbind option_bind].
  destruct (rep_repeated_ends _ _ _ Hrep) as [Hrn' Hro'].
  assert (HndL : NoDup (q'.*1 ++ repeated a ++ [p])).
  { rewrite app_assoc. apply NoDup_app. split; [done|]. split; [|apply NoDup_singleton]. set_solver. }
  cbn [heap with_heap retransmitted_oldest retransmitted_newest]. rewrite Hro, Hro', lookup_insert_eq.
  destruct (repeated a) as [|z r' _] using rev_ind.
  - cbn [list.last mbind option_bind]. eexists. split; [reflexivity|].
    split; cbn; rewrite ?Hn, ?Ho, ?Hb, ?insert_insert_eq; try done.
    + by apply dll_outside.
    + eexists. split; [apply lookup_insert_eq|done].
    + by apply counted_outside.
  - rewrite last_snoc. cbn [mbind option_bind]. rewrite insert_insert_eq.
    apply not_elem_of_app in Hpr as [Hpr Hpz]. assert (Hzp : z <> p) by set_solver.
    destruct (dll_lookup _ _ _ _ z Hr ltac:(set_solver)) as [nz Hnz].
    rewrite lookup_insert_ne, Hnz by done. cbn [mbind option_bind]. rewrite lookup_insert_ne, lookup_insert_eq by done. cbn [mbind option_bind].
    rewrite (insert_insert_ne _ p z) by done. rewrite insert_insert_eq.
    eexists. split; [reflexivity|].
    apply NoDup_app in Hnd as (Hndq & Hdis & Hndr). apply NoDup_app in Hndr as (Hndr & Hdr & _).
    assert (Hzq : z ∉ q'.*1) by (intros ?; apply (Hdis z); set_solver). assert (Hzr : z ∉ r') by (intros ?; apply (Hdr z); set_solver).
    split; cbn; rewrite ?Hn, ?Ho, ?Hb; try done.
    + by apply dll_outside, dll_outside.
    + apply dll_app. split.
      * cbn [next_of]. eapply dll_set_next; [by rewrite lookup_insert_ne|done|].
        apply dll_outside; [by apply not_elem_of_app|exact Hr].
      * rewrite prev_of_snoc. eexists. split; [rewrite lookup_insert_ne by done; apply lookup_insert_eq|done].
    + split; [|by rewrite last_snoc]. rewrite Hrn, Hrn'. by destruct r'.
    + by apply counted_outside, counted_outside.
Qed.

Lemma forgotten_refines other s a p :
  represents other s a -> p ∈ repeated a ->
  exists s', run_op s (Forgotten p) = Some s' /\ represents other s' (spec_op a (Forgotten p)).
Proof.
  intros [Hq Hr Hnd He Her Hc Ht] Hp. cbn [run_op spec_op]. unfold dequeue_retransmitted_packet.
  pose proof Hnd as Hnd0. apply NoDup_app in Hnd as (Hndq & Hdis & Hndr).
  apply list_elem_of_split in Hp as (l1 & l2 & Hl). rewrite Hl in *.
  destruct (unlink_spec _ _ _ _ _ _ Hr Hndr Her) as (h & newest & oldest & Hu & Hd & He' & Hsd & Hf).
  rewrite Hu. cbn [mbind option_bind]. eexists. split; [reflexivity|].
  apply NoDup_app in Hndr as (Hnd1 & Hd1 & Hnd2). apply NoDup_cons in Hnd2 as [Hp2 Hnd2].
  assert (Hp1 : p ∉ l1) by (intros ?; apply (Hd1 p); set_solver).
  assert (filter (fun x => x <> p) (l1 ++ p :: l2) = l1 ++ l2) as ->.
  { rewrite filter_app, filter_cons, decide_False by naive_solver. rewrite !filter_all; [done| |]; intros y Hy ->; done. }
  assert (Hql : forall y, y ∈ (in_flight a).*1 -> delete p h !! y = heap s !! y).
  { intros y Hy. specialize (Hdis y Hy). rewrite lookup_delete_ne by set_solver. apply Hf. set_solver. }
  split; cbn; try done.
  - by eapply dll_frame.
  - eapply dll_frame; [|exact Hd]. intros y Hy. apply lookup_delete_ne. set_solver.
  - apply NoDup_app. split; [done|]. split; [intros y Hy; specialize (Hdis y Hy); set_solver|].
    apply NoDup_app. split; [done|]. split; [|done]. intros y Hy. specialize (Hd1 y Hy). set_solver.
  - eapply counted_frame; [|exact Hc]. intros y Hy. by rewrite Hql.
Qed.

Lemma run_op_refines other s a o :
  represents other s a -> 0 <= other -> allowed other a o ->
  exists s', run_op s o = Some s' /\ represents other s' (spec_op a o).
Proof.
  intros Hr Ho Ha. destruct o as [p x n t|p|p|p]; [by apply sent_refines|by apply acked_refines|by apply lost_refines|by apply forgotten_refines].
Qed.

(** *** Sequences of operations *)

Fixpoint all_allowed (other : Z) (a : abstract) (l : list op) : Prop :=
  match l with
  | [] => True
  | o :: l' => allowed other a o /\ all_allowed other (spec_op a o) l'
  end.

Definition initial_queues (s : state) : Prop :=
  retransmit_newest s = None /\ retransmit_oldest s = None /\ retransmitted_newest s = None /\ retransmitted_oldest s = None.

Lemma run_ops_refines other s a l :
  represents other s a -> 0 <= other -> all_allowed other a l ->
  exists s', run_ops s l = Some s' /\ represents other s' (foldl spec_op a l).
Proof.
  unfold run_ops. revert s a. induction l as [|o l IH]; intros s a Hr Ho Ha; [by exists s|]. destruct Ha as [Ha1 Ha2].
  destruct (run_op_refines other s a o Hr Ho Ha1) as (s' & Hs' & Hr'). cbn [foldl mbind option_bind]. rewrite Hs'. by apply IH.
Qed.

(** C9. The retransmission queue: for every sequence of sending, acknowledging,
    losing and forgetting packets (of fewer than 2^32 bytes, each acknowledged or lost
    while it is in flight) that starts with empty queues, the pointer
    operations never follow a null or dangling pointer, and the two linked lists
    hold exactly the packets in flight, newest first, and the repeated packets in
    the order of their loss; [bytes_in_transit] is the sum of the lengths of the
    packets in flight that are congestion controlled, beside what other contexts
    have in transit. *)
Theorem retransmit_queue_refines other s ops :
  0 <= other -> initial_queues s -> bytes_in_transit s = other -> all_allowed other (Abs [] []) ops ->
  exists s', run_ops s ops = Some s' /\ represents other s' (foldl spec_op (Abs [] []) ops).
Proof.
  intros Ho (H1 & H2 & H3 & H4) Hb Ha. apply run_ops_refines; [|done|done].
  split; cbn; try done; [apply NoDup_nil_2|unfold transit; cbn; lia].
Qed.

(** The handshake queue is not emptied: [picoquic_implicit_handshake_ack]
    starts at the oldest packet and goes on to its [next_packet], which is null
    there, so that it removes the oldest packet and leaves all newer ones in
    flight, with their bytes in transit. *)
Theorem implicit_ack_removes_oldest_only other s a q p n fuel :
  represents other s a -> 0 <= other -> in_flight a = q ++ [(p, n)] ->
  exists x s', heap s !! p = Some x /\
    picoquic_implicit_handshake_ack (S fuel) s = Some (s', if is_congestion_controlled x then [pkt_length x] else []) /\
    represents other s' (Abs q (repeated a)).
Proof.
  intros Hrep Hother Hq. pose proof Hrep as [Hd _ Hnd [_ Ho] _ _ _]. rewrite Hq, fmap_app in Hd, Ho, Hnd. cbn [fmap list_fmap fst] in *.
  rewrite last_snoc in Ho. unfold picoquic_implicit_handshake_ack. rewrite Ho. cbn [implicit_ack_loop].
  apply dll_app in Hd as [_ (x & Hx & _ & Hnx & _)]. cbn [next_of] in Hnx. rewrite Hx. cbn [mbind option_bind].
  destruct (acked_refines other s a p Hrep Hother) as (s' & Hs' & Hr'); [rewrite Hq, fmap_app; set_solver|].
  cbn [run_op] in Hs'. rewrite Hs'. cbn [mbind option_bind]. rewrite Hnx.
  assert (implicit_ack_loop fuel s' None = Some (s', [])) as -> by (by destruct fuel). cbn [mbind option_bind]. exists x, s'. split; [done|]. split; [done|].
  cbn [spec_op] in Hr'. assert (without p (in_flight a) = q) as Hw; [|by rewrite Hw in Hr'].
  rewrite Hq. unfold without. rewrite filter_app, filter_cons, decide_False, app_nil_r by naive_solver.
  apply filter_all. intros [y m] Hy Hyp. cbn in Hyp. subst y. apply NoDup_app in Hnd as (Hnd & _ & _).
  apply NoDup_app in Hnd as (_ & Hdis & _). apply (Hdis p); [|set_solver]. apply list_elem_of_fmap. by exists (p, m).
Qed.

(** ** Loss detection *)

(** The values of the path and the packet are times and counts far from overflow. *)
Definition loss_ok (c : loss_ctx) (p : packet) : Prop :=
  0 <= highest_acknowledged c < 2 ^ 62 /\ 0 <= sequence_number p < 2 ^ 62 /\ 0 <= latest_time_acknowledged c < 2 ^ 62 /\
  0 <= nb_retransmit c <= 6 /\ 0 <= smoothed_rtt c < 2 ^ 62 /\ 0 <= retransmit_timer c < 2 ^ 62 /\
  0 <= last_1rtt_acknowledged_at c < 2 ^ 62 /\ 0 <= send_time p < 2 ^ 62.

(** Loss detection: outside of 0-RTT, a packet is declared lost at a time that
    does not depend on when the question is asked, and stays lost afterwards.
    When a later packet was acknowledged this is 9/8 of the smoothed round trip
    after it was sent, and with fewer than three later packets at least 10 ms
    after the last acknowledgement; otherwise it is the retransmission timeout,
    doubled for every repetition from one second on, and not before a quarter of
    a round trip after the last acknowledgement.  Only the second case counts as
    a timeout. *)
Theorem loss_time c p current_time :
  loss_ok c p -> pkt_ptype p <> zero_rtt_protected ->
  let gap := highest_acknowledged c - sequence_number p in
  let rack := send_time p + smoothed_rtt c + smoothed_rtt c / 8 in
  let timeout := send_time p + (if decide (nb_retransmit c = 0) then retransmit_timer c else 1000000 * 2 ^ (nb_retransmit c - 1)) in
  let lost_at :=
    if decide (0 < gap) then
      if decide (gap < 3) then Z.max rack (latest_time_acknowledged c + PICOQUIC_RACK_DELAY) else rack
    else Z.max timeout (last_1rtt_acknowledged_at c + smoothed_rtt c / 4) in
  retransmit_needed_by_packet c p current_time =
  (bool_decide (lost_at <= current_time), bool_decide (lost_at <= current_time /\ gap <= 0), lost_at).
Proof.
  intros (Hh & Hs & Hl & Hn & Hr & Ht & Ha & Hst) Hp gap rack timeout lost_at.
  unfold retransmit_needed_by_packet. rewrite bool_decide_false by done. rewrite s64_small by lia. fold gap.
  rewrite !Z.shiftr_div_pow2 by lia. change (2 ^ 3) with 8. change (2 ^ 2) with 4.
  assert (0 <= smoothed_rtt c / 8 < 2 ^ 62) by (split; [apply Z.div_pos|apply Z.div_lt_upper_bound]; lia).
  assert (0 <= smoothed_rtt c / 4 < 2 ^ 62) by (split; [apply Z.div_pos|apply Z.div_lt_upper_bound]; lia).
  unfold PICOQUIC_RACK_DELAY in *.
  assert (Hto : (if nb_retransmit c =? 0 then retransmit_timer c else u64 (Z.shiftl 1000000 (nb_retransmit c - 1))) = timeout - send_time p /\
                0 <= timeout < 2 ^ 63).
  { unfold timeout. destruct (Z.eqb_spec (nb_retransmit c) 0) as [->|Hnz]; [rewrite decide_True by done; lia|].
    rewrite decide_False by done. rewrite Z.shiftl_mul_pow2 by lia.
    assert (1 <= 2 ^ (nb_retransmit c - 1) <= 2 ^ 5) by (split; [apply (Z.pow_le_mono_r 2 0)|apply Z.pow_le_mono_r]; lia).
    rewrite u64_small; lia. }
  destruct Hto as [-> Hto]. unfold lost_at. destruct (Z.ltb_spec 0 gap); [rewrite decide_True by done|rewrite decide_False by lia].
  - rewrite (u64_small (send_time p + _ + _)), (u64_small (latest_time_acknowledged c + _)) by lia. fold rack.
    assert (Hmax : (if gap <? 3 then if rack <? latest_time_acknowledged c + 10000 then latest_time_acknowledged c + 10000 else rack else rack)
      = if decide (gap < 3) then Z.max rack (latest_time_acknowledged c + 10000) else rack).
    { destruct (Z.ltb_spec gap 3); [rewrite decide_True by done|rewrite decide_False by lia; done].
      destruct (Z.ltb_spec rack (latest_time_acknowledged c + 10000)); lia. }
    cbv zeta. rewrite Hmax. set (t := if decide (gap < 3) then _ else _). cbv beta iota.
    destruct (Z.leb_spec t current_time);
      [rewrite bool_decide_true by done|rewrite bool_decide_false by lia]; (rewrite bool_decide_false by lia); done.
  - replace (send_time p + (timeout - send_time p)) with timeout by lia.
    rewrite (u64_small timeout), (u64_small (last_1rtt_acknowledged_at c + _)) by lia.
    assert (Hmax : (if timeout <? last_1rtt_acknowledged_at c + smoothed_rtt c / 4 then last_1rtt_acknowledged_at c + smoothed_rtt c / 4 else timeout)
      = Z.max timeout (last_1rtt_acknowledged_at c + smoothed_rtt c / 4))
      by (destruct (Z.ltb_spec timeout (last_1rtt_acknowledged_at c + smoothed_rtt c / 4)); lia).
    cbv zeta. rewrite Hmax. cbv beta iota.
    destruct (Z.leb_spec (Z.max timeout (last_1rtt_acknowledged_at c + smoothed_rtt c / 4)) current_time);
      [rewrite !bool_decide_true by lia|rewrite !bool_decide_false by lia]; done.
Qed.

(** ** Pacing *)

Definition pacing_ok (b : pacing) : Prop :=
  0 <= pacing_bucket_nanosec b <= pacing_bucket_max b /\ pacing_bucket_max b < 2 ^ 62 /\
  0 <= pacing_packet_time_nanosec b <= 1000000000 /\ 0 <= pacing_evaluation_time b < 2 ^ 50.

(** The pacing time of a packet. *)
Definition packet_cost (b : pacing) (send_mtu size : Z) : Z := pacing_packet_time_nanosec b * size / send_mtu.

(** Packets sent at the given times: the bucket and the time that was taken from it. *)
Fixpoint send_all (send_mtu : Z) (b : pacing) (l : list (Z * Z)) : pacing * Z :=
  match l with
  | [] => (b, 0)
  | (t, size) :: l' =>
    let before := pacing_bucket_nanosec (picoquic_update_pacing_bucket b t) in
    let b := picoquic_update_pacing_after_send b send_mtu t size in
    let '(b', taken) := send_all send_mtu b l' in
    (b', taken + (before - pacing_bucket_nanosec b))
  end.

(** Times go on, and sizes are those of packets. *)
Fixpoint schedule_ok (t0 : Z) (l : list (Z * Z)) : Prop :=
  match l with
  | [] => True
  | (t, size) :: l' => t0 <= t < 2 ^ 50 /\ 0 <= size < 2 ^ 16 /\ schedule_ok t l'
  end.

Definition end_time (t0 : Z) (l : list (Z * Z)) : Z := foldl (fun _ x => x.1) t0 l.

Lemma update_bucket_spec b t : pacing_ok b -> pacing_evaluation_time b <= t < 2 ^ 50 ->
  let b' := picoquic_update_pacing_bucket b t in
  pacing_ok b' /\ pacing_evaluation_time b' = t /\ pacing_bucket_max b' = pacing_bucket_max b /\
  pacing_packet_time_nanosec b' = pacing_packet_time_nanosec b /\
  pacing_bucket_nanosec b' = Z.min (pacing_bucket_max b) (pacing_bucket_nanosec b + 1024 * (t - pacing_evaluation_time b)).
Proof.
  intros (Hb & Hm & Hp & He) Ht. unfold picoquic_update_pacing_bucket. rewrite Z.shiftl_mul_pow2 by lia. change (2 ^ 10) with 1024.
  destruct (Z.ltb_spec (pacing_evaluation_time b) t).
  - rewrite (u64_small ((t - _) * 1024)), u64_small by lia.
    assert (Hmin : (if pacing_bucket_max b <? pacing_bucket_nanosec b + (t - pacing_evaluation_time b) * 1024 then pacing_bucket_max b
            else pacing_bucket_nanosec b + (t - pacing_evaluation_time b) * 1024)
      = Z.min (pacing_bucket_max b) (pacing_bucket_nanosec b + 1024 * (t - pacing_evaluation_time b)))
      by (destruct (Z.ltb_spec (pacing_bucket_max b) (pacing_bucket_nanosec b + (t - pacing_evaluation_time b) * 1024)); lia).
    rewrite Hmin. unfold pacing_ok. cbn. split_and!; (done || lia).
  - unfold pacing_ok. split_and!; (done || lia).
Qed.

Lemma after_send_spec b send_mtu t size : pacing_ok b -> 0 < send_mtu -> pacing_evaluation_time b <= t < 2 ^ 50 -> 0 <= size < 2 ^ 16 ->
  let b' := picoquic_update_pacing_after_send b send_mtu t size in
  let before := pacing_bucket_nanosec (picoquic_update_pacing_bucket b t) in
  pacing_ok b' /\ pacing_evaluation_time b' = t /\ pacing_bucket_max b' = pacing_bucket_max b /\
  pacing_packet_time_nanosec b' = pacing_packet_time_nanosec b /\
  pacing_bucket_nanosec b' = Z.max 0 (before - packet_cost b send_mtu size).
Proof.
  intros Hb Hm Ht Hs. destruct (update_bucket_spec b t Hb Ht) as (Hok & He & Hmax & Hp & _).
  unfold picoquic_update_pacing_after_send. set (b1 := picoquic_update_pacing_bucket b t) in *. cbv zeta.
  destruct Hok as (Hb1 & Hm1 & Hp1 & He1). rewrite u64_small by nia. unfold packet_cost. rewrite <- Hp.
  assert (0 <= pacing_packet_time_nanosec b1 * size / send_mtu) by (apply Z.div_pos; [nia|lia]).
  set (cost := _ / _) in *.
  assert (Hc : (if pacing_bucket_nanosec b1 <? cost then 0 else pacing_bucket_nanosec b1 - cost) = Z.max 0 (pacing_bucket_nanosec b1 - cost))
    by (destruct (Z.ltb_spec (pacing_bucket_nanosec b1) cost); lia).
  rewrite Hc. unfold pacing_ok. cbn. split_and!; (done || lia).
Qed.

(** The leaky bucket never holds more than its capacity, never less than
    nothing, and what packets take from it never exceeds what was in it at first
    plus 1024 nanoseconds for every microsecond that passed. *)
Theorem pacing_budget send_mtu b l :
  pacing_ok b -> 0 < send_mtu -> schedule_ok (pacing_evaluation_time b) l ->
  let '(b', taken) := send_all send_mtu b l in
  0 <= pacing_bucket_nanosec b' <= pacing_bucket_max b /\ 0 <= taken /\
  pacing_bucket_nanosec b' + taken <=
  pacing_bucket_nanosec b + 1024 * (end_time (pacing_evaluation_time b) l - pacing_evaluation_time b).
Proof.
  intros Hb Hm. revert b Hb. induction l as [|[t size] l IH]; intros b Hb Hl.
  - cbn. destruct Hb as (Hb & _). lia.
  - destruct Hl as (Ht & Hs & Hl). cbn [send_all].
    destruct (after_send_spec b send_mtu t size Hb Hm Ht Hs) as (Hok & He & Hmax & _ & Hbk).
    destruct (update_bucket_spec b t Hb Ht) as (Hok1 & _ & _ & _ & Hup). destruct Hok1 as (Hb1 & _).
    set (b1 := picoquic_update_pacing_after_send b send_mtu t size) in *.
    specialize (IH b1 Hok). rewrite He in IH. specialize (IH Hl).
    destruct (send_all send_mtu b1 l) as [b' taken]. destruct IH as (H1 & H2 & H3). rewrite Hmax in H1.
    assert (0 <= packet_cost b send_mtu size) by (unfold packet_cost; apply Z.div_pos; destruct Hb as (_ & _ & ? & _); nia).
    unfold end_time in *. cbn [foldl fst]. split; [lia|]. split; lia.
Qed.

(** A sender that asks every microsecond, and sends a full packet when it is allowed to. *)
Fixpoint send_each_microsecond (send_mtu : Z) (b : pacing) (n : nat) (next_time : Z) : list bool :=
  match n with
  | O => []
  | S n =>
    let t := pacing_evaluation_time b + 1 in
    let '(ok, _, _) := picoquic_is_sending_authorized_by_pacing b t next_time in
    ok :: send_each_microsecond send_mtu (if ok then picoquic_update_pacing_after_send b send_mtu t send_mtu
                                          else picoquic_update_pacing_bucket b t) n next_time
  end.

(** The bucket forgets debts: a packet may be sent as soon as the bucket holds
    anything, and one that costs more than it holds only empties it.  So a sender
    that asks every microsecond is always allowed to send a full packet, whatever
    time the pacing rate gives to a packet. *)
Theorem pacing_forgets_debt send_mtu b n next_time :
  0 < send_mtu < 2 ^ 16 -> pacing_ok b -> 1024 <= pacing_packet_time_nanosec b -> 0 < pacing_bucket_max b ->
  pacing_bucket_nanosec b = 0 -> pacing_evaluation_time b + Z.of_nat n < 2 ^ 50 ->
  send_each_microsecond send_mtu b n next_time = repeat true n.
Proof.
  intros Hm. revert b. induction n as [|n IH]; intros b Hb Hc Hmax H0 Hn; [done|]. cbn [send_each_microsecond repeat].
  set (t := pacing_evaluation_time b + 1). assert (Hte : pacing_evaluation_time b <= t < 2 ^ 50) by (unfold t; lia).
  destruct (update_bucket_spec b t Hb Hte) as (Hok1 & He1 & Hm1 & _ & Hup).
  destruct (after_send_spec b send_mtu t send_mtu Hb ltac:(lia) Hte ltac:(lia)) as (Hok & He & Hm2 & Hp & Hbk).
  unfold picoquic_is_sending_authorized_by_pacing.
  destruct (Z.leb_spec (pacing_bucket_nanosec (picoquic_update_pacing_bucket b t)) 0); [unfold t in *; lia|].
  f_equal. apply IH; try (done || lia).
  rewrite Hbk. unfold packet_cost. rewrite Z.div_mul by lia. unfold t in *. lia.
Qed.

Definition sample_pacing : pacing := Pacing 0 0 16000000 1000000000 1000001.

Lemma pacing_forgets_debt_witness : send_each_microsecond 1350 sample_pacing 5 0 = [true; true; true; true; true].
Proof. apply (pacing_forgets_debt 1350 sample_pacing 5 0); unfold pacing_ok; cbn; lia. Defined.

Lemma pacing_budget_witness :
  let '(b', taken) := send_all 1350 sample_pacing [(100, 1350); (200, 700)] in
  0 <= pacing_bucket_nanosec b' <= 16000000 /\ 0 <= taken /\ pacing_bucket_nanosec b' + taken <= 0 + 1024 * (200 - 0).
Proof. apply (pacing_budget 1350 sample_pacing [(100, 1350); (200, 700)]); unfold pacing_ok; cbn; lia. Defined.

Definition sample_packet (cc : bool) : packet := Pkt None None 7 one_rtt_protected_phi0 1000 0 0 cc [].

Definition sample_state : state :=
  St ∅ None None None None 0 (fun _ => 0) sample_pacing 1350.

Lemma retransmit_queue_refines_witness :
  exists s', run_ops sample_state
      [Sent 1%nat (sample_packet true) 1016 10; Sent 2%nat (sample_packet true) 500 20; Sent 3%nat (sample_packet false) 40 30; Lost 1%nat; Acked 3%nat]
    = Some s' /\ represents 0 s' (Abs [(2%nat, 500)] [1%nat]).
Proof.
  apply (retransmit_queue_refines 0 sample_state
    [Sent 1%nat (sample_packet true) 1016 10; Sent 2%nat (sample_packet true) 500 20; Sent 3%nat (sample_packet false) 40 30; Lost 1%nat; Acked 3%nat]);
    [lia|done|done|].
  cbn. split_and!; try done; try lia; set_solver.
Defined.

Lemma implicit_ack_removes_oldest_only_witness :
  exists s s', run_ops sample_state [Sent 1%nat (sample_packet true) 1016 10; Sent 2%nat (sample_packet true) 500 20] = Some s /\
    picoquic_implicit_handshake_ack 9 s = Some (s', [1000]) /\ represents 0 s' (Abs [(2%nat, 500)] []).
Proof.
  destruct (run_ops_refines 0 sample_state (Abs [] []) [Sent 1%nat (sample_packet true) 1016 10; Sent 2%nat (sample_packet true) 500 20])
    as (s & Hs & Hr); [split; cbn; done || apply NoDup_nil_2|lia|cbn; split_and!; try done; try lia; set_solver|].
  destruct (implicit_ack_removes_oldest_only 0 s (Abs [(2%nat, 500); (1%nat, 1016)] []) [(2%nat, 500)] 1%nat 1016 8 Hr ltac:(lia) eq_refl)
    as (x & s' & Hx & Hs' & Hr').
  exists s, s'. split; [exact Hs|]. split; [|exact Hr']. rewrite Hs'. vm_compute in Hs. injection Hs as <-. vm_compute in Hx. by injection Hx as <-.
Defined.

Lemma loss_time_witness :
  retransmit_needed_by_packet (LossCtx 10 5000 0 40000 250000 5000 true true) (sample_packet true) 45000 = (true, false, 45000).
Proof.
  etransitivity; [apply (loss_time (LossCtx 10 5000 0 40000 250000 5000 true true) (sample_packet true) 45000);
    [unfold loss_ok; cbn; lia|done]|]. vm_compute. reflexivity.
Defined.

End Retransmit.
