(* ===== verification/RedBlackTree.v ===== *)
(** * The ordered map of the plugins: picoquic/red_black_tree.c

    A left-leaning red-black tree from 64-bit keys to pointers, with insertion, deletion of a
    key and of the smallest key, and the ordered queries.  The FEC plugin keeps its recovered
    packets, lost packets and deadlines in it.

    A tree owns its nodes, so that a pointer to a node is the subtree it is the root of and
    [NULL] is [Leaf]; an operation that replaces the fields of a node gives the new subtree.
    Following a null pointer is [None].  The nodes come from [my_malloc], hence the tests of
    [IS_IN_PLUGIN_MEMORY], which a null pointer passes too, never fail and are left out; the
    failure of [my_malloc] is an argument.  Sizes are C integers, and the heap of a plugin is
    far too small for 2^31 nodes.  Recursion that is not on a child of the node as it was
    runs on fuel, the number of nodes. *)
From stdpp Require Import base list gmap numbers.
From Stdlib Require Import ZArith Lia Bool Sorting.Sorted.
From S2P Require Import Prelude.
#[local] Open Scope Z_scope.

Module RedBlackTree.

Definition RED : bool := true.
Definition BLACK : bool := false.
Definition RBT_MAX_DEPTH : Z := 70.

Inductive tree (V : Type) :=
  | Leaf
  | Node (left : tree V) (key : Z) (val : V) (right : tree V) (color : bool) (size : Z).
Arguments Leaf {V}.
Arguments Node {V}.

Definition key_compare (a b : Z) : Z := if a <? b then -1 else if b <? a then 1 else 0.

Section Tree.
Context {V : Type}.
Implicit Types (t h l r : tree V) (k key : Z) (v val : V).

Definition rbt_init : tree V := Leaf.

Definition is_red t : bool := match t with Leaf => false | Node _ _ _ _ c _ => c end.
Definition rbt_node_size t : Z := match t with Leaf => 0 | Node _ _ _ _ _ s => s end.

(** The fields of a node behind a pointer. *)
Definition left_of t : option (tree V) := match t with Leaf => None | Node l _ _ _ _ _ => Some l end.
Definition right_of t : option (tree V) := match t with Leaf => None | Node _ _ _ r _ _ => Some r end.
Definition key_of t : option Z := match t with Leaf => None | Node _ k _ _ _ _ => Some k end.
Definition set_left t l' : option (tree V) := match t with Leaf => None | Node _ k v r c s => Some (Node l' k v r c s) end.
Definition set_right t r' : option (tree V) := match t with Leaf => None | Node l k v _ c s => Some (Node l k v r' c s) end.
Definition set_color t (c' : bool) : option (tree V) :=
  match t with Leaf => None | Node l k v r _ s => Some (Node l k v r c' s) end.
Definition set_entry t (k' : Z) (v' : V) : option (tree V) :=
  match t with Leaf => None | Node l _ _ r c s => Some (Node l k' v' r c s) end.

Definition rbt_size (t : tree V) : Z := rbt_node_size t.
Definition rbt_is_empty (t : tree V) : bool := match t with Leaf => true | _ => false end.

(** ** Search *)

(** [*out], when the key is present. *)
Fixpoint rbt_get (t : tree V) (key : Z) : option V :=
  match t with
  | Leaf => None
  | Node l k v r _ _ =>
    let cmp := key_compare key k in
    if cmp <? 0 then rbt_get l key else if 0 <? cmp then rbt_get r key else Some v
  end.

Definition rbt_contains (t : tree V) (key : Z) : bool :=
  if rbt_size t =? 0 then false else match rbt_get t key with Some _ => true | None => false end.

(** ** Rotations *)

Definition rbt_rotate_right h : option (tree V) :=
  match h with
  | Node (Node xl xk xv xr _ _) k v r c s =>
    Some (Node xl xk xv (Node xr k v r RED (rbt_node_size xr + rbt_node_size r + 1)) c s)
  | _ => None
  end.

Definition rbt_rotate_left h : option (tree V) :=
  match h with
  | Node l k v (Node xl xk xv xr _ _) c s =>
    Some (Node (Node l k v xl RED (rbt_node_size l + rbt_node_size xl + 1)) xk xv xr c s)
  | _ => None
  end.

Definition rbt_flip_colors h : option (tree V) :=
  match h with
  | Node (Node ll lk lv lr lc ls) k v (Node rl rk rv rr rc rs) c s =>
    Some (Node (Node ll lk lv lr (negb lc) ls) k v (Node rl rk rv rr (negb rc) rs) (negb c) s)
  | _ => None
  end.

Definition rbt_move_red_left h : option (tree V) :=
  h ← rbt_flip_colors h;
  r ← right_of h; rl ← left_of r;
  if is_red rl then
    r ← rbt_rotate_right r;
    h ← set_right h r;
    h ← rbt_rotate_left h;
    rbt_flip_colors h
  else Some h.

Definition rbt_move_red_right h : option (tree V) :=
  h ← rbt_flip_colors h;
  l ← left_of h; ll ← left_of l;
  if is_red ll then h ← rbt_rotate_right h; rbt_flip_colors h else Some h.

(** [h->left] and [h->left] twice red; the second field is only read when the first is red. *)
Definition two_reds_left h : option bool :=
  l ← left_of h; if is_red l then ll ← left_of l; Some (is_red ll) else Some false.
Definition both_red h : option bool :=
  l ← left_of h; r ← right_of h; Some (is_red l && is_red r).

(** The end of [rbt_balance] and of [rbt_node_put]. *)
Definition lean_left h : option (tree V) :=
  b ← two_reds_left h; h ← (if b : bool then rbt_rotate_right h else Some h);
  b ← both_red h; h ← (if b : bool then rbt_flip_colors h else Some h);
  match h with
  | Leaf => None
  | Node l k v r c _ => Some (Node l k v r c (rbt_node_size l + rbt_node_size r + 1))
  end.

Definition rbt_balance h : option (tree V) :=
  r ← right_of h;
  h ← (if is_red r then rbt_rotate_left h else Some h);
  lean_left h.

(** ** Insertion *)

(** "fix-up any right-leaning links" *)
Definition fix_up node : option (tree V) :=
  l ← left_of node; r ← right_of node;
  node ← (if is_red r && negb (is_red l) then rbt_rotate_left node else Some node);
  lean_left node.

Fixpoint rbt_node_put (malloc_ok : bool) (node : tree V) (key : Z) (val : V) : option (tree V) :=
  match node with
  | Leaf => Some (if malloc_ok then Node Leaf key val Leaf RED 1 else Leaf)
  | Node l k v r c s =>
    let cmp := key_compare key k in
    node ← (if cmp <? 0 then l' ← rbt_node_put malloc_ok l key val; Some (Node l' k v r c s)
            else if 0 <? cmp then r' ← rbt_node_put malloc_ok r key val; Some (Node l k v r' c s)
            else Some (Node l k val r c s));
    fix_up node
  end.

Definition rbt_put (malloc_ok : bool) (t : tree V) (key : Z) (val : V) : option (tree V) :=
  t' ← rbt_node_put malloc_ok t key val;
  set_color t' BLACK.

(** ** Ordered queries *)

Fixpoint rbt_node_min (node : tree V) : option (Z * V) :=
  match node with
  | Leaf => None
  | Node l k v _ _ _ => match l with Leaf => Some (k, v) | _ => rbt_node_min l end
  end.

(** [rbt_min]: [None] is the result [false]. *)
Definition rbt_min (t : tree V) : option (Z * V) := if rbt_is_empty t then None else rbt_node_min t.
(** Reads the node without a test: [None] is a null pointer. *)
Definition rbt_min_key (t : tree V) : option Z := fst <$> rbt_node_min t.
Definition rbt_min_val (t : tree V) : option V := snd <$> rbt_node_min t.

Fixpoint rbt_node_max (node : tree V) : option (Z * V) :=
  match node with
  | Leaf => None
  | Node _ k v r _ _ => match r with Leaf => Some (k, v) | _ => rbt_node_max r end
  end.

Definition rbt_max_key (t : tree V) : option Z := fst <$> rbt_node_max t.
Definition rbt_max_val (t : tree V) : option V := snd <$> rbt_node_max t.

(** The loop of [rbt_node_ceiling]; [ceil] is the node found so far, which is also what
    was stored in [*out_key] and [*out_val]. *)
Fixpoint ceiling_loop (node : tree V) (key : Z) (ceil : option (Z * V)) : option (Z * V) :=
  match node with
  | Leaf => ceil
  | Node l k v r _ _ =>
    let cmp := key_compare key k in
    if cmp =? 0 then Some (k, v)
    else if 0 <? cmp then ceiling_loop r key ceil else ceiling_loop l key (Some (k, v))
  end.

Definition rbt_ceiling (t : tree V) (key : Z) : option (Z * V) :=
  if rbt_is_empty t then None else ceiling_loop t key None.

(** ** Deletion *)

Fixpoint count (t : tree V) : nat := match t with Leaf => O | Node l _ _ r _ _ => S (count l + count r) end.

(** "if (!is_red(node->left) && !is_red(node->left->left)) node = rbt_move_red_left(node)", and
    the same on the right: the second field is read even when the first pointer is null. *)
Definition borrow_left node : option (tree V) :=
  l ← left_of node;
  if is_red l then Some node
  else ll ← left_of l; if is_red ll then Some node else rbt_move_red_left node.
Definition borrow_right node : option (tree V) :=
  r ← right_of node;
  if is_red r then Some node
  else rl ← left_of r; if is_red rl then Some node else rbt_move_red_right node.
Definition lean_right node : option (tree V) :=
  l ← left_of node; if is_red l then rbt_rotate_right node else Some node.

(** The new subtree and what is stored in [*res] and [*val]. *)
Fixpoint rbt_node_delete_and_get_min (fuel : nat) (node : tree V) : option (tree V * option (Z * V)) :=
  match fuel with
  | O => None
  | S fuel =>
    match node with
    | Leaf => Some (Leaf, None)
    | Node Leaf k v _ _ _ => Some (Leaf, Some (k, v))
    | _ =>
      node ← borrow_left node;
      l ← left_of node;
      '(l', out) ← rbt_node_delete_and_get_min fuel l;
      node ← set_left node l';
      node ← rbt_balance node;
      Some (node, out)
    end
  end.

(** Makes the root red when it has no red child, before a deletion. *)
Definition redden_root t : option (tree V) :=
  l ← left_of t; r ← right_of t;
  if negb (is_red l) && negb (is_red r) then set_color t RED else Some t.
Definition blacken_root t : option (tree V) := if rbt_is_empty t then Some t else set_color t BLACK.

Definition rbt_delete_and_get_min (t : tree V) : option (bool * tree V * option (Z * V)) :=
  if rbt_is_empty t then Some (false, t, None)
  else
    t ← redden_root t;
    '(t, out) ← rbt_node_delete_and_get_min (S (count t)) t;
    t ← blacken_root t;
    Some (true, t, out).

Definition rbt_node_delete_and_get_max (node : tree V) : option (tree V * option (Z * V)) :=
  match node with
  | Leaf => Some (Leaf, None)
  | _ =>
    node ← lean_right node;
    match node with
    | Node _ k v Leaf _ _ => Some (Leaf, Some (k, v))
    | _ =>
      node ← borrow_right node;
      node ← rbt_balance node;
      Some (node, None)
    end
  end.

Definition rbt_delete_and_get_max (t : tree V) : option (bool * tree V * option (Z * V)) :=
  if rbt_is_empty t then Some (false, t, None)
  else
    t ← redden_root t;
    '(t, out) ← rbt_node_delete_and_get_max t;
    t ← blacken_root t;
    Some (true, t, out).

(** The removed node gives [Leaf], which is returned as it is. *)
Fixpoint rbt_node_delete (fuel : nat) (node : tree V) (key : Z) : option (tree V) :=
  match fuel with
  | O => None
  | S fuel =>
    match node with
    | Leaf => Some Leaf
    | Node _ k _ _ _ _ =>
      if key_compare key k <? 0 then
        node ← borrow_left node;
        l ← left_of node;
        l' ← rbt_node_delete fuel l key;
        node ← set_left node l';
        rbt_balance node
      else
        node ← lean_right node;
        k ← key_of node; r ← right_of node;
        if (key_compare key k =? 0) && rbt_is_empty r then Some Leaf
        else
          node ← borrow_right node;
          k ← key_of node; r ← right_of node;
          node ← (if key_compare key k =? 0 then
                    '(k', v') ← rbt_node_min r;
                    node ← set_entry node k' v';
                    '(r', _) ← rbt_node_delete_and_get_min fuel r;
                    set_right node r'
                  else
                    r' ← rbt_node_delete fuel r key;
                    set_right node r');
          rbt_balance node
    end
  end.

Definition rbt_delete (t : tree V) (key : Z) : option (tree V) :=
  if negb (rbt_contains t key) then Some t
  else
    t ← redden_root t;
    t ← rbt_node_delete (S (count t)) t key;
    blacken_root t.

(** ** The abstract map: an association list in the order of the keys *)

Abbreviation entries := (list (Z * V)).

Definition sorted (e : entries) : Prop := StronglySorted (fun x y => x.1 < y.1) e.

Fixpoint linsert (k : Z) (v : V) (e : entries) : entries :=
  match e with
  | [] => [(k, v)]
  | (k', v') :: e' =>
    if k <? k' then (k, v) :: e else if k' <? k then (k', v') :: linsert k v e' else (k, v) :: e'
  end.

(** What remains of an insertion without memory: only a key that is there gets its value. *)
Definition lupdate (k : Z) (v : V) (e : entries) : entries := (fun x => if x.1 =? k then (k, v) else x) <$> e.
Definition ldelete (k : Z) (e : entries) : entries := filter (fun x => x.1 <> k) e.
Definition llookup (k : Z) (e : entries) : option V := snd <$> List.find (fun x => x.1 =? k) e.

Fixpoint elements (t : tree V) : entries :=
  match t with Leaf => [] | Node l k v r _ _ => elements l ++ (k, v) :: elements r end.

(** ** The invariant: red links lean left, never two in a row, and every path has [n] black
    nodes; sizes are exact *)

Definition size_above (l r : tree V) : Z := rbt_node_size l + rbt_node_size r + 1.

Inductive llrb : bool -> nat -> tree V -> Prop :=
  | llrb_leaf : llrb BLACK 0 Leaf
  | llrb_black c n l k v r s :
      llrb c n l -> llrb BLACK n r -> s = size_above l r -> llrb BLACK (S n) (Node l k v r BLACK s)
  | llrb_red n l k v r s :
      llrb BLACK n l -> llrb BLACK n r -> s = size_above l r -> llrb RED n (Node l k v r RED s).

Definition rbt_ok (t : tree V) : Prop := sorted (elements t) /\ exists n, llrb BLACK n t.

(** *** Lists *)

Lemma sorted_app e1 e2 :
  sorted (e1 ++ e2) <->
  sorted e1 /\ sorted e2 /\ Forall (fun x => Forall (fun y => x.1 < y.1) e2) e1.
Proof.
  unfold sorted. induction e1 as [|x e1 IH]; cbn [app].
  - split; [intros H; repeat split; [constructor|done|constructor]|tauto].
  - split.
    + intros H. inversion_clear H as [|? ? H1 H2]. apply IH in H1 as (? & ? & ?).
      apply list.Forall_app in H2 as [??]. repeat split; [by constructor|done|by constructor].
    + intros (H1 & H2 & H3). inversion_clear H1. inversion_clear H3.
      constructor; [by apply IH|]. by apply list.Forall_app.
Qed.

Lemma sorted_middle e1 k v e2 :
  sorted (e1 ++ (k, v) :: e2) <->
  sorted e1 /\ sorted e2 /\ Forall (fun x => x.1 < k) e1 /\ Forall (fun x => k < x.1) e2.
Proof.
  rewrite sorted_app. split.
  - intros (H1 & H2 & H3). inversion_clear H2. repeat split; [done..| |done].
    eapply list.Forall_impl; [exact H3|]. intros x Hx. by inversion_clear Hx.
  - intros (H1 & H2 & H3 & H4). repeat split; [done|by constructor|].
    eapply list.Forall_impl; [exact H3|]. intros x Hx; cbn in *. constructor; [done|].
    eapply list.Forall_impl; [exact H4|]. cbn; intros; lia.
Qed.

Lemma linsert_left k v e1 k' v' e2 :
  k < k' -> linsert k v (e1 ++ (k', v') :: e2) = linsert k v e1 ++ (k', v') :: e2.
Proof.
  intros H. induction e1 as [|[k1 v1] e1 IH]; cbn [app linsert].
  - by rewrite (proj2 (Z.ltb_lt k k')).
  - case_cmp; cbn [app]; [done|by rewrite IH|done].
Qed.

Lemma linsert_right k v e1 k' v' e2 :
  Forall (fun x => x.1 < k) e1 -> k' < k -> linsert k v (e1 ++ (k', v') :: e2) = e1 ++ (k', v') :: linsert k v e2.
Proof.
  intros H Hk. induction H as [|[k1 v1] e1 H1 H IH]; cbn [app linsert].
  - case_cmp; [lia|done|lia].
  - cbn in H1. case_cmp; [lia|by rewrite IH|lia].
Qed.

Lemma linsert_here k v e1 v' e2 :
  Forall (fun x => x.1 < k) e1 -> linsert k v (e1 ++ (k, v') :: e2) = e1 ++ (k, v) :: e2.
Proof.
  intros H. induction H as [|[k1 v1] e1 H1 H IH]; cbn [app linsert].
  - by rewrite Z.ltb_irrefl.
  - cbn in H1. case_cmp; [lia|by rewrite IH|lia].
Qed.

Lemma linsert_not_nil k v e : [] <> linsert k v e.
Proof. destruct e as [|[]]; cbn; repeat case_match; done. Qed.

Lemma lupdate_other k v e : Forall (fun x => x.1 <> k) e -> lupdate k v e = e.
Proof.
  intros H. unfold lupdate. induction H as [|x e Hx H IH]; [done|]. cbn.
  destruct (Z.eqb_spec x.1 k); [done|]. by rewrite IH.
Qed.

Lemma below_ne k (e : entries) : Forall (fun x => x.1 < k) e -> Forall (fun x => x.1 <> k) e.
Proof. intros H. eapply list.Forall_impl; [exact H|]. intros x Hx; cbn in *; lia. Qed.
Lemma above_ne k (e : entries) : Forall (fun x => k < x.1) e -> Forall (fun x => x.1 <> k) e.
Proof. intros H. eapply list.Forall_impl; [exact H|]. intros x Hx; cbn in *; lia. Qed.
Lemma below_trans k k' (e : entries) : Forall (fun x => x.1 < k) e -> k <= k' -> Forall (fun x => x.1 < k') e.
Proof. intros H ?. eapply list.Forall_impl; [exact H|]. intros x Hx; cbn in *; lia. Qed.
Lemma above_trans k k' (e : entries) : Forall (fun x => k < x.1) e -> k' <= k -> Forall (fun x => k' < x.1) e.
Proof. intros H ?. eapply list.Forall_impl; [exact H|]. intros x Hx; cbn in *; lia. Qed.

Lemma ldelete_other k e : Forall (fun x => x.1 <> k) e -> ldelete k e = e.
Proof. intros H. apply filter_all. by apply list.Forall_forall. Qed.

Lemma ldelete_app k e1 e2 : ldelete k (e1 ++ e2) = ldelete k e1 ++ ldelete k e2.
Proof. apply list.filter_app. Qed.

(** What an insertion does, with or without memory. *)
Definition linsert_if (malloc_ok : bool) := if malloc_ok then linsert else lupdate.

Lemma linsert_if_left b k v e1 k' v' e2 :
  Forall (fun x => k' < x.1) e2 -> k < k' ->
  linsert_if b k v (e1 ++ (k', v') :: e2) = linsert_if b k v e1 ++ (k', v') :: e2.
Proof.
  intros H Hk. destruct b; [by apply linsert_left|]. cbn. unfold lupdate. rewrite fmap_app. cbn.
  destruct (Z.eqb_spec k' k); [lia|]. do 2 f_equal. apply lupdate_other, above_ne. eapply above_trans; [done|lia].
Qed.

Lemma linsert_if_right b k v e1 k' v' e2 :
  Forall (fun x => x.1 < k') e1 -> k' < k ->
  linsert_if b k v (e1 ++ (k', v') :: e2) = e1 ++ (k', v') :: linsert_if b k v e2.
Proof.
  intros H Hk. assert (H' : Forall (fun x => x.1 < k) e1) by (eapply below_trans; [done|lia]).
  destruct b; [by apply linsert_right|]. cbn. unfold lupdate. rewrite fmap_app. cbn.
  destruct (Z.eqb_spec k' k); [lia|]. f_equal. by apply lupdate_other, below_ne.
Qed.

Lemma linsert_if_here b k v e1 v' e2 :
  Forall (fun x => x.1 < k) e1 -> Forall (fun x => k < x.1) e2 ->
  linsert_if b k v (e1 ++ (k, v') :: e2) = e1 ++ (k, v) :: e2.
Proof.
  intros H H'. destruct b; [by apply linsert_here|]. cbn. unfold lupdate. rewrite fmap_app. cbn.
  rewrite Z.eqb_refl. f_equal; [by apply lupdate_other, below_ne|]. f_equal. by apply lupdate_other, above_ne.
Qed.

Lemma key_compare_cases key k :
  (key_compare key k <? 0) = (key <? k) /\ (0 <? key_compare key k) = (k <? key) /\
  (key_compare key k =? 0) = (key =? k).
Proof. unfold key_compare. case_cmp; repeat split; lia. Qed.

(** *** Shapes *)

Lemma llrb_red_inv n t : llrb RED n t ->
  exists l k v r, t = Node l k v r RED (size_above l r) /\ llrb BLACK n l /\ llrb BLACK n r.
Proof. inversion 1; subst. eauto 10. Qed.

Lemma llrb_black_inv n t : llrb BLACK (S n) t ->
  exists c l k v r, t = Node l k v r BLACK (size_above l r) /\ llrb c n l /\ llrb BLACK n r.
Proof. inversion 1; subst. eauto 10. Qed.

Lemma llrb_zero_inv t : llrb BLACK 0 t -> t = Leaf.
Proof. by inversion 1. Qed.

Lemma llrb_color c n t : llrb c n t -> is_red t = c.
Proof. by destruct 1. Qed.

(** A red node and its red left child, which only the parent may have to repair. *)
Definition red_red (n : nat) (t : tree V) : Prop :=
  exists l k v r s, t = Node l k v r RED s /\ llrb RED n l /\ llrb BLACK n r.

(** After an insertion: a red node may have a red left child. *)
Definition put_shape (c : bool) (n : nat) (t : tree V) : Prop :=
  if c then llrb RED n t \/ red_red n t else exists c', llrb c' n t.

Ltac shape :=
  repeat match goal with
    | H : llrb true _ _ |- _ => apply llrb_red_inv in H as (? & ? & ? & ? & -> & ? & ?)
    | H : llrb RED _ _ |- _ => apply llrb_red_inv in H as (? & ? & ? & ? & -> & ? & ?)
    end.

(** Evaluates the code on nodes whose colours are known. *)
Ltac run_code :=
  unfold lean_left, two_reds_left, both_red, BLACK, RED in *; cbn;
  repeat (match goal with H : llrb _ _ ?t |- context [is_red ?t] => rewrite (llrb_color _ _ _ H) end; cbn).

Ltac flat := cbn; rewrite <- ?app_assoc; cbn; rewrite <- ?app_assoc; done.

Ltac done_shape := eexists; split_and!; [done|flat|repeat econstructor; eauto].

(** Nodes that are to be repaired: what [rbt_balance] and the end of [rbt_node_put]
    make of them.  The stored size of the node itself is not used. *)
Lemma lean_left_black c n l k v r s :
  llrb c n l -> llrb BLACK n r ->
  exists t, lean_left (Node l k v r BLACK s) = Some t /\ elements t = elements l ++ (k, v) :: elements r /\
    llrb BLACK (S n) t.
Proof. intros Hl Hr. destruct c; shape; run_code; done_shape. Qed.

Lemma lean_left_red n l k v r s :
  llrb BLACK n l -> llrb BLACK n r ->
  exists t, lean_left (Node l k v r RED s) = Some t /\ elements t = elements l ++ (k, v) :: elements r /\
    llrb RED n t.
Proof. intros Hl Hr. run_code; done_shape. Qed.

Lemma lean_left_red_red n l k v r s :
  llrb RED n l -> llrb BLACK n r ->
  exists t, lean_left (Node l k v r RED s) = Some t /\ elements t = elements l ++ (k, v) :: elements r /\ red_red n t.
Proof.
  intros Hl Hr. shape. run_code. eexists; split_and!; [done|done|].
  unfold red_red. eexists _, _, _, _, _. split_and!; [done| |done]. by repeat econstructor.
Qed.

(** Two red nodes on the left of a black one are split. *)
Lemma lean_left_split n l k v r s :
  red_red n l -> llrb BLACK n r ->
  exists t, lean_left (Node l k v r BLACK s) = Some t /\ elements t = elements l ++ (k, v) :: elements r /\
    llrb RED (S n) t.
Proof. intros (ll & lk & lv & lr & ls & -> & Hll & Hlr) Hr. shape. run_code. done_shape. Qed.

(** A black node with two red children gives its colour away. *)
Lemma lean_left_flip n l k v r s :
  llrb RED n l -> llrb RED n r ->
  exists t, lean_left (Node l k v r BLACK s) = Some t /\ elements t = elements l ++ (k, v) :: elements r /\
    llrb RED (S n) t.
Proof. intros Hl Hr. shape. run_code. done_shape. Qed.

(** The step of an insertion, from the shapes of the children. *)
Lemma fix_up_black_l c n l k v r s :
  put_shape c n l -> llrb BLACK n r ->
  exists t, fix_up (Node l k v r BLACK s) = Some t /\ elements t = elements l ++ (k, v) :: elements r /\
    put_shape BLACK (S n) t.
Proof.
  intros Hl Hr. unfold fix_up. cbn [left_of right_of mbind option_bind]. rewrite (llrb_color _ _ _ Hr). cbn [andb BLACK].
  assert (Hc : (exists c', llrb c' n l) \/ red_red n l) by (destruct c; cbn in Hl; naive_solver). clear Hl.
  destruct Hc as [[c' Hl]|Hl]; [destruct (lean_left_black _ _ _ k v _ s Hl Hr) as (t & ? & ? & ?)
                              |destruct (lean_left_split _ _ k v _ s Hl Hr) as (t & ? & ? & ?)]; exists t; cbn; eauto.
Qed.

Lemma fix_up_black_r c n l k v r s :
  llrb c n l -> put_shape BLACK n r ->
  exists t, fix_up (Node l k v r BLACK s) = Some t /\ elements t = elements l ++ (k, v) :: elements r /\
    put_shape BLACK (S n) t.
Proof.
  intros Hl [c' Hr]. unfold fix_up. cbn [left_of right_of mbind option_bind].
  rewrite (llrb_color _ _ _ Hr), (llrb_color _ _ _ Hl). destruct c'; cbn [andb].
  - destruct c; cbn [negb].
    + destruct (lean_left_flip _ _ k v _ s Hl Hr) as (t & ? & ? & ?). exists t; cbn; eauto.
    + shape. cbn [mbind option_bind rbt_rotate_left]. edestruct (lean_left_black RED n) as (t & E1 & E2 & ?); [|exact H0|].
      { constructor; [exact Hl|exact H|done]. }
      exists t. split_and!; [exact E1|rewrite E2; flat|cbn; eauto].
  - destruct (lean_left_black _ _ _ k v _ s Hl Hr) as (t & ? & ? & ?). exists t; cbn; eauto.
Qed.

Lemma fix_up_red_l n l k v r s :
  put_shape BLACK n l -> llrb BLACK n r ->
  exists t, fix_up (Node l k v r RED s) = Some t /\ elements t = elements l ++ (k, v) :: elements r /\ put_shape RED n t.
Proof.
  intros [c Hl] Hr. unfold fix_up. cbn [left_of right_of mbind option_bind]. rewrite (llrb_color _ _ _ Hr). cbn [andb BLACK].
  destruct c; [destruct (lean_left_red_red _ _ k v _ s Hl Hr) as (t & ? & ? & ?)
              |destruct (lean_left_red _ _ k v _ s Hl Hr) as (t & ? & ? & ?)]; exists t; cbn; eauto.
Qed.

Lemma fix_up_red_r n l k v r s :
  llrb BLACK n l -> put_shape BLACK n r ->
  exists t, fix_up (Node l k v r RED s) = Some t /\ elements t = elements l ++ (k, v) :: elements r /\ put_shape RED n t.
Proof.
  intros Hl [c Hr]. unfold fix_up. cbn [left_of right_of mbind option_bind].
  rewrite (llrb_color _ _ _ Hr), (llrb_color _ _ _ Hl). destruct c; cbn [andb negb BLACK].
  - shape. cbn [mbind option_bind rbt_rotate_left]. edestruct (lean_left_red_red n) as (t & E1 & E2 & ?); [|exact H0|].
    { constructor; [exact Hl|exact H|done]. }
    exists t. split_and!; [exact E1|rewrite E2; flat|cbn; eauto].
  - destruct (lean_left_red _ _ k v _ s Hl Hr) as (t & ? & ? & ?). exists t; cbn; eauto.
Qed.

Lemma node_put_ok malloc_ok key val c n t :
  llrb c n t -> sorted (elements t) ->
  exists t', rbt_node_put malloc_ok t key val = Some t' /\
    elements t' = linsert_if malloc_ok key val (elements t) /\ put_shape c n t'.
Proof.
  intros H. induction H as [|c n l k v r s Hl IHl Hr IHr ->|n l k v r s Hl IHl Hr IHr ->]; intros Hs.
  { cbn. eexists; split_and!; [done|by destruct malloc_ok|]. destruct malloc_ok; [exists RED|exists BLACK]; by repeat econstructor. }
  all: cbn [elements] in *; apply sorted_middle in Hs as (Hsl & Hsr & Hbl & Hbr).
  all: destruct (IHl Hsl) as (l' & El & Hel & Hl'); destruct (IHr Hsr) as (r' & Er & Her & Hr').
  all: cbn [rbt_node_put]; destruct (key_compare_cases key k) as (-> & -> & _); rewrite El, Er; cbn [mbind option_bind].
  all: destruct (Z.ltb_spec key k); [|destruct (Z.ltb_spec k key)].
  - rewrite linsert_if_left, <- Hel by done. by apply (fix_up_black_l c).
  - rewrite linsert_if_right, <- Her by done. by apply (fix_up_black_r c).
  - assert (key = k) as -> by lia. rewrite linsert_if_here by done.
    apply (fix_up_black_r c); [done|by exists BLACK].
  - rewrite linsert_if_left, <- Hel by done. by apply fix_up_red_l.
  - rewrite linsert_if_right, <- Her by done. by apply fix_up_red_r.
  - assert (key = k) as -> by lia. rewrite linsert_if_here by done.
    apply fix_up_red_r; [done|by exists BLACK].
Qed.

(** The root of a well-formed tree may be painted black. *)
Lemma blacken_ok c n t : llrb c n t -> exists n', match t with Leaf => n' = n | Node l k v r _ s => llrb BLACK n' (Node l k v r BLACK s) end.
Proof. destruct 1; [by exists O|exists (S n)|exists (S n)]; by econstructor. Qed.

Lemma put_ok malloc_ok t key val :
  rbt_ok t -> (t <> Leaf \/ malloc_ok = true) ->
  exists t', rbt_put malloc_ok t key val = Some t' /\ elements t' = linsert_if malloc_ok key val (elements t) /\
    exists n, llrb BLACK n t'.
Proof.
  intros [Hs [n Hn]] Hne. destruct (node_put_ok malloc_ok key val _ _ _ Hn Hs) as (t' & E & He & [c Hc]).
  unfold rbt_put. rewrite E. cbn [mbind option_bind]. destruct (blacken_ok _ _ _ Hc) as [n' Hb].
  destruct t' as [|l k v r c' s].
  - exfalso. cbn in He. destruct malloc_ok; [by apply (linsert_not_nil key val (elements t))|].
    symmetry in He. apply fmap_nil_inv in He. destruct t; [by destruct Hne|]. by destruct (app_cons_not_nil _ _ _ (eq_sym He)).
  - eexists; split_and!; [done|done|]. eauto.
Qed.

(** *** Deletion *)

Lemma length_elements t : length (elements t) = count t.
Proof. induction t; cbn; [done|]. rewrite length_app. cbn. lia. Qed.

Lemma balance_ok c c' n l k v r s :
  llrb c n l -> llrb c' n r ->
  exists t, rbt_balance (Node l k v r BLACK s) = Some t /\ elements t = elements l ++ (k, v) :: elements r /\
    (exists c'', llrb c'' (S n) t) /\ (c && c' = false -> llrb BLACK (S n) t).
Proof.
  intros Hl Hr. unfold rbt_balance. cbn [right_of mbind option_bind]. rewrite (llrb_color _ _ _ Hr). destruct c'.
  - shape. cbn [mbind option_bind rbt_rotate_left]. destruct c.
    + edestruct (lean_left_split n) as (t & E1 & E2 & ?); [|exact H0|].
      { unfold red_red. eexists _, _, _, _, _. split_and!; [reflexivity|exact Hl|exact H]. }
      exists t. split_and!; [exact E1|rewrite E2; flat|eauto|done].
    + edestruct (lean_left_black RED n) as (t & E1 & E2 & ?); [|exact H0|].
      { constructor; [exact Hl|exact H|done]. }
      exists t. split_and!; [exact E1|rewrite E2; flat|eauto|done].
  - destruct (lean_left_black _ _ _ k v _ s Hl Hr) as (t & ? & ? & ?). exists t. eauto 10.
Qed.

Lemma balance_red_ok n l k v r s :
  llrb BLACK n l -> llrb BLACK n r ->
  exists t, rbt_balance (Node l k v r RED s) = Some t /\ elements t = elements l ++ (k, v) :: elements r /\ llrb RED n t.
Proof.
  intros Hl Hr. unfold rbt_balance. cbn [right_of mbind option_bind]. rewrite (llrb_color _ _ _ Hr).
  by apply lean_left_red.
Qed.

(** A node from which something can be taken: a red node, or a black one whose left child
    is red; and the node left behind. *)
Inductive rich : bool -> nat -> tree V -> Prop :=
  | rich_red n t : llrb RED n t -> rich RED n t
  | rich_three n l k v r s : llrb RED n l -> llrb BLACK n r -> rich BLACK (S n) (Node l k v r BLACK s).

Definition poorer (c : bool) (n : nat) (t : tree V) : Prop := if c then exists c', llrb c' n t else llrb BLACK n t.

Lemma borrow_left_ok c n l k v r c0 s :
  rich c n (Node l k v r c0 s) -> l <> Leaf ->
  exists l' k' v' r' c' s' cl nl,
    borrow_left (Node l k v r c0 s) = Some (Node l' k' v' r' c' s') /\
    elements l' ++ (k', v') :: elements r' = elements l ++ (k, v) :: elements r /\
    (k' = k \/ exists e, elements l' = elements l ++ (k, v) :: e) /\
    rich cl nl l' /\
    forall l'', poorer cl nl l'' ->
      exists t, rbt_balance (Node l'' k' v' r' c' s') = Some t /\
        elements t = elements l'' ++ (k', v') :: elements r' /\ poorer c n t.
Proof.
  inversion 1 as [? ? Hn|? ? ? ? ? ? Hl Hr]; subst; clear H; intros Hne.
  - apply llrb_red_inv in Hn as (? & ? & ? & ? & [= -> -> -> -> -> ->] & HL & HR). unfold borrow_left. cbn [left_of mbind option_bind].
    rewrite (llrb_color _ _ _ HL). destruct n as [|n]; [by apply llrb_zero_inv in HL|].
    apply llrb_black_inv in HL as (cl & ll & lk & lv & lr & -> & Hll & Hlr). cbn [left_of mbind option_bind BLACK].
    rewrite (llrb_color _ _ _ Hll). destruct cl.
    + eexists _, _, _, _, _, _, BLACK, (S n). split_and!; [done|done|by left| |].
      { by constructor. }
      intros l'' Hp. edestruct balance_red_ok as (t & ? & ? & ?); [exact Hp|exact HR|]. exists t. split_and!; eauto. by exists RED.
    + apply llrb_black_inv in HR as (cr & rl & rk & rv & rr & -> & Hrl & Hrr).
      unfold rbt_move_red_left. cbn [rbt_flip_colors mbind option_bind right_of left_of negb RED BLACK].
      rewrite (llrb_color _ _ _ Hrl). destruct cr.
      * apply llrb_red_inv in Hrl as (a & ak & av & b & -> & Ha & Hb).
        cbn [rbt_rotate_right mbind option_bind set_right rbt_rotate_left rbt_flip_colors negb RED BLACK].
        eexists _, _, _, _, _, _, BLACK, (S n). split_and!; [done|flat|right; eexists; done| |].
        { constructor; [|exact Ha]. constructor; [exact Hll|exact Hlr|done]. }
        intros l'' Hp. edestruct balance_red_ok as (t & ? & ? & ?); [exact Hp| |].
        { econstructor; [exact Hb|exact Hrr|done]. }
        exists t. split_and!; eauto. by exists RED.
      * eexists _, _, _, _, _, _, RED, n. split_and!; [done|flat|by left| |].
        { constructor. by constructor. }
        intros l'' [c' Hp]. edestruct (balance_ok c' RED) as (t & ? & ? & ? & ?);
          [exact Hp|exact (llrb_red n rl rk rv rr _ Hrl Hrr eq_refl)|].
        exists t. split_and!; eauto.
  - unfold borrow_left. cbn [left_of mbind option_bind]. rewrite (llrb_color _ _ _ Hl).
    eexists _, _, _, _, _, _, RED, n0. split_and!; [done|done|by left|by constructor|].
    intros l'' [c' Hp]. edestruct (balance_ok c' BLACK) as (t & ? & ? & ? & Hb); [exact Hp|exact Hr|].
    exists t. split_and!; eauto. apply Hb. by destruct c'.
Qed.

Lemma rich_leaf_left c n k v r c0 s : rich c n (Node Leaf k v r c0 s) -> r = Leaf /\ c = RED /\ n = O.
Proof.
  inversion 1 as [? ? Hn|? ? ? ? ? ? Hl]; subst.
  - apply llrb_red_inv in Hn as (? & ? & ? & ? & [= <- <- <- <- -> ->] & HL & HR).
    inversion HL; subst. by apply llrb_zero_inv in HR.
  - inversion Hl.
Qed.

Lemma delete_min_ok fuel : forall c n t, rich c n t -> (count t < fuel)%nat ->
  exists t' x, rbt_node_delete_and_get_min fuel t = Some (t', Some x) /\ elements t = x :: elements t' /\ poorer c n t'.
Proof.
  induction fuel as [|fuel IH]; intros c n t Ht Hf; [lia|].
  destruct t as [|l k v r c0 s]; [by inversion Ht as [? ? H|]; inversion H|].
  destruct l as [|ll lk lv lr lc ls].
  - apply rich_leaf_left in Ht as (-> & -> & ->). eexists _, _. split_and!; [done|done|]. exists BLACK. constructor.
  - destruct (borrow_left_ok _ _ _ _ _ _ _ _ Ht) as (l' & k' & v' & r' & c' & s' & cl & nl & E & He & _ & Hl' & Hk); [done|].
    pose proof (f_equal length He) as Hlen. rewrite !length_app, !length_elements in Hlen. cbn [length] in Hlen.
    rewrite !length_elements in Hlen. cbn [count] in Hf, Hlen.
    destruct (IH _ _ _ Hl') as (l'' & x & E' & He' & Hp); [lia|].
    destruct (Hk _ Hp) as (t & Eb & Het & Hpt).
    cbn [rbt_node_delete_and_get_min]. rewrite E. cbn [mbind option_bind left_of]. rewrite E'. cbn [mbind option_bind set_left].
    rewrite Eb. cbn [mbind option_bind]. eexists _, _. split_and!; [done| |done].
    cbn [elements]. cbn [elements] in He. rewrite <- He, He', Het. done.
Qed.

(** The right side: the node after it was made to lean right and has borrowed. *)
Inductive leans : nat -> tree V -> Prop :=
  | leans_right n l k v r s : llrb BLACK n l -> llrb RED n r -> leans (S n) (Node l k v r BLACK s).

Definition del_pre (key : Z) (c : bool) (n : nat) (t : tree V) : Prop :=
  rich c n t \/ c = BLACK /\ leans n t /\ exists k, key_of t = Some k /\ k <= key.

Lemma lean_right_ok key c n l k v r c0 s :
  del_pre key c n (Node l k v r c0 s) -> k <= key ->
  sorted (elements l ++ (k, v) :: elements r) ->
  exists l' k' v' r' c' s', lean_right (Node l k v r c0 s) = Some (Node l' k' v' r' c' s') /\
    elements l' ++ (k', v') :: elements r' = elements l ++ (k, v) :: elements r /\ k' <= key /\
    (c = RED /\ llrb RED n (Node l' k' v' r' c' s') \/ c = BLACK /\ leans n (Node l' k' v' r' c' s')).
Proof.
  intros Hpre Hk Hs. unfold lean_right. cbn [left_of mbind option_bind].
  destruct Hpre as [Hr|(-> & Hl & _)].
  - inversion Hr as [? ? Hn|? ? ? ? ? ? HL HR]; subst; clear Hr.
    + pose proof Hn as Hn'. apply llrb_red_inv in Hn' as (? & ? & ? & ? & [= <- <- <- <- -> ->] & HL & HR).
      rewrite (llrb_color _ _ _ HL). eexists _, _, _, _, _, _. split_and!; [done|done|done|by left].
    + apply llrb_red_inv in HL as (a & ak & av & b & -> & Ha & Hb). cbn [is_red RED rbt_rotate_right].
      eexists _, _, _, _, _, _. split_and!; [done|flat| |].
      * apply sorted_middle in Hs as (_ & _ & Hs & _). cbn in Hs.
        apply list.Forall_app in Hs as [_ Hs]. inversion_clear Hs. cbn in *. lia.
      * right. split; [done|]. constructor; [done|]. by constructor.
  - inversion Hl as [? ? ? ? ? ? HL HR]; subst. rewrite (llrb_color _ _ _ HL). eexists _, _, _, _, _, _. split_and!; [done|done|done|by right].
Qed.

Lemma borrow_right_ok key c n l k v r c0 s :
  (c = RED /\ llrb RED n (Node l k v r c0 s) \/ c = BLACK /\ leans n (Node l k v r c0 s)) ->
  r <> Leaf -> k <= key -> sorted (elements l ++ (k, v) :: elements r) ->
  exists l' k' v' r' c' s' cr nr,
    borrow_right (Node l k v r c0 s) = Some (Node l' k' v' r' c' s') /\
    elements l' ++ (k', v') :: elements r' = elements l ++ (k, v) :: elements r /\ k' <= key /\
    del_pre key cr nr r' /\ (key = k' -> rich cr nr r') /\
    forall k'' v'' r'', poorer cr nr r'' ->
      exists t, rbt_balance (Node l' k'' v'' r'' c' s') = Some t /\
        elements t = elements l' ++ (k'', v'') :: elements r'' /\ poorer c n t.
Proof.
  intros [[-> Hn]|[-> Hn]] Hne Hk Hs; unfold borrow_right; cbn [right_of mbind option_bind].
  - apply llrb_red_inv in Hn as (? & ? & ? & ? & [= <- <- <- <- -> ->] & HL & HR).
    rewrite (llrb_color _ _ _ HR). destruct n as [|n]; [by apply llrb_zero_inv in HR|].
    apply llrb_black_inv in HR as (cr & rl & rk & rv & rr & -> & Hrl & Hrr). cbn [left_of mbind option_bind BLACK].
    rewrite (llrb_color _ _ _ Hrl). destruct cr.
    + eexists _, _, _, _, _, _, BLACK, (S n). split_and!; [done|done|done|left; by constructor|intros; by constructor|].
      intros k'' v'' r'' Hp. edestruct balance_red_ok as (t & ? & ? & ?); [exact HL|exact Hp|].
      exists t. split_and!; eauto. by exists RED.
    + apply llrb_black_inv in HL as (cl & ll & lk & lv & lr & -> & Hll & Hlr).
      unfold rbt_move_red_right. cbn [rbt_flip_colors mbind option_bind right_of left_of negb RED BLACK].
      rewrite (llrb_color _ _ _ Hll). destruct cl.
      * apply llrb_red_inv in Hll as (a & ak & av & b & -> & Ha & Hb).
        cbn [rbt_rotate_right mbind option_bind rbt_flip_colors negb RED BLACK].
        assert (Hlk : lk < k).
        { apply sorted_middle in Hs as (_ & _ & Hs & _). cbn in Hs.
          apply list.Forall_app in Hs as [_ Hs]. inversion_clear Hs. cbn in *. lia. }
        eexists _, _, _, _, _, _, BLACK, (S n). split_and!; [done|flat|lia| |lia|].
        { right. split_and!; [done| |by exists k]. constructor; [done|]. by constructor. }
        intros k'' v'' r'' Hp. edestruct balance_red_ok as (t & ? & ? & ?);
          [exact (llrb_black _ n a ak av b _ Ha Hb eq_refl)|exact Hp|].
        exists t. split_and!; eauto. by exists RED.
      * assert (Hr' : rich RED n (Node rl rk rv rr true (size_above rl rr))) by by repeat constructor.
        eexists _, _, _, _, _, _, RED, n. split_and!; [done|flat|done|by left|done|].
        intros k'' v'' r'' [c' Hp]. edestruct (balance_ok RED c') as (t & ? & ? & ? & ?);
          [exact (llrb_red n ll lk lv lr _ Hll Hlr eq_refl)|exact Hp|].
        exists t. split_and!; eauto.
  - inversion Hn as [? ? ? ? ? ? HL HR]; subst. rewrite (llrb_color _ _ _ HR).
    assert (Hr' : rich RED n0 r) by by constructor.
    eexists _, _, _, _, _, _, RED, n0. split_and!; [done|done|done|by left|done|].
    intros k'' v'' r'' [c' Hp]. edestruct (balance_ok BLACK c') as (t & ? & ? & ? & Hb); [exact HL|exact Hp|].
    exists t. split_and!; eauto. by apply Hb.
Qed.

Lemma ldelete_left k e1 k' v' e2 :
  sorted (e1 ++ (k', v') :: e2) -> k < k' -> ldelete k (e1 ++ (k', v') :: e2) = ldelete k e1 ++ (k', v') :: e2.
Proof.
  intros (_ & _ & _ & H)%sorted_middle Hk. rewrite ldelete_app. f_equal. apply ldelete_other.
  constructor; [cbn; lia|]. apply above_ne. eapply above_trans; [exact H|lia].
Qed.

Lemma ldelete_right k e1 k' v' e2 :
  sorted (e1 ++ (k', v') :: e2) -> k' < k -> ldelete k (e1 ++ (k', v') :: e2) = e1 ++ (k', v') :: ldelete k e2.
Proof.
  intros (_ & _ & H & _)%sorted_middle Hk. rewrite ldelete_app. f_equal.
  - apply ldelete_other, below_ne. eapply below_trans; [exact H|lia].
  - unfold ldelete. rewrite filter_cons_True; [done|]. cbn. lia.
Qed.

Lemma ldelete_here k e1 v' e2 :
  sorted (e1 ++ (k, v') :: e2) -> ldelete k (e1 ++ (k, v') :: e2) = e1 ++ e2.
Proof.
  intros (_ & _ & H1 & H2)%sorted_middle. rewrite ldelete_app. f_equal; [by apply ldelete_other, below_ne|].
  unfold ldelete. rewrite filter_cons_False by (cbn; lia). by apply ldelete_other, above_ne.
Qed.

Definition has_key (k : Z) (e : entries) : Prop := Exists (fun x => x.1 = k) e.

Lemma has_key_left k e1 k' v' e2 : sorted (e1 ++ (k', v') :: e2) -> has_key k (e1 ++ (k', v') :: e2) -> k < k' -> has_key k e1.
Proof.
  intros (_ & _ & _ & H)%sorted_middle Hk ?. unfold has_key in *. rewrite Exists_app, Exists_cons in Hk.
  destruct Hk as [?|[Hk|Hk]]; [done|cbn in Hk; lia|]. exfalso. apply list.Exists_exists in Hk as (x & Hx & <-).
  rewrite list.Forall_forall in H. specialize (H x Hx). lia.
Qed.

Lemma has_key_right k e1 k' v' e2 : sorted (e1 ++ (k', v') :: e2) -> has_key k (e1 ++ (k', v') :: e2) -> k' < k -> has_key k e2.
Proof.
  intros (_ & _ & H & _)%sorted_middle Hk ?. unfold has_key in *. rewrite Exists_app, Exists_cons in Hk.
  destruct Hk as [Hk|[Hk|?]]; [|cbn in Hk; lia|done]. exfalso. apply list.Exists_exists in Hk as (x & Hx & <-).
  rewrite list.Forall_forall in H. specialize (H x Hx). lia.
Qed.

Lemma node_min_ok t x e : elements t = x :: e -> rbt_node_min t = Some x.
Proof.
  revert e. induction t as [|l IHl k v r _ c s]; intros e He; [done|]. cbn [rbt_node_min].
  destruct l as [|a b c1 d f g]; [cbn in He; by injection He as -> _|].
  destruct (elements (Node a b c1 d f g)) as [|y e'] eqn:E.
  { cbn in E. by destruct (app_cons_not_nil _ _ _ (eq_sym E)). }
  cbn [elements] in He, E. rewrite E in He. injection He as -> _. by eapply IHl.
Qed.

Lemma node_delete_ok key fuel : forall c n t,
  del_pre key c n t -> sorted (elements t) -> has_key key (elements t) -> (count t < fuel)%nat ->
  exists t', rbt_node_delete fuel t key = Some t' /\ elements t' = ldelete key (elements t) /\ poorer c n t'.
Proof.
  induction fuel as [|fuel IH]; intros c n t Ht Hs Hin Hf; [lia|].
  destruct t as [|l k v r c0 s]; [by inversion Hin|]. cbn [elements] in *. cbn [rbt_node_delete].
  destruct (key_compare_cases key k) as (-> & _ & _). destruct (Z.ltb_spec key k) as [Hk|Hk].
  - destruct Ht as [Ht|(_ & _ & k1 & [= <-] & ?)]; [|lia].
    assert (Hne : l <> Leaf). { intros ->. apply has_key_left in Hin; [|done..]. inversion Hin. }
    destruct (borrow_left_ok _ _ _ _ _ _ _ _ Ht Hne) as (l' & k' & v' & r' & c' & s' & cl & nl & E & He & Hkk & Hl' & Hb).
    rewrite <- He in *. assert (Hk' : key < k').
    { destruct Hkk as [->|[e Hkk]]; [done|]. apply sorted_middle in Hs as (_ & _ & Hs & _). rewrite Hkk in Hs.
      apply list.Forall_app in Hs as [_ Hs]. inversion_clear Hs. cbn in *. lia. }
    pose proof (f_equal length He) as Hlen. rewrite !length_app in Hlen. cbn [length] in Hlen.
    rewrite !length_elements in Hlen. cbn [count] in Hf.
    destruct (IH cl nl l') as (l'' & E' & He' & Hp);
      [by left|by apply sorted_middle in Hs as []|by eapply has_key_left|lia|].
    destruct (Hb _ Hp) as (t & Eb & Het & Hpt). rewrite E. cbn [mbind option_bind left_of]. rewrite E'. cbn [mbind option_bind set_left].
    exists t. split_and!; [done| |done]. by rewrite Het, He', ldelete_left.
  - destruct (lean_right_ok _ _ _ _ _ _ _ _ _ Ht Hk Hs) as (l1 & k1 & v1 & r1 & c1 & s1 & E1 & He1 & Hk1 & Hsh).
    rewrite E1. cbn [mbind option_bind key_of right_of]. destruct (key_compare_cases key k1) as (_ & _ & ->).
    assert (Hlen : (count l1 + count r1 = count l + count r)%nat).
    { pose proof (f_equal length He1) as H. rewrite !length_app in H. cbn [length] in H. rewrite !length_elements in H. lia. }
    cbn [count] in Hf. rewrite <- He1 in *. clear He1 E1 Ht Hk.
    destruct r1 as [|rl rk rv rr rc rs].
    { destruct Hsh as [[-> Hn]|[-> Hn]]; [|by inversion Hn as [? ? ? ? ? ? _ HR]; inversion HR].
      apply llrb_red_inv in Hn as (? & ? & ? & ? & [= <- <- <- <- -> ->] & HL & HR). inversion HR; subst.
      apply llrb_zero_inv in HL as ->. cbn [elements app] in *. inversion Hin as [? ? Hx|? ? Hx]; subst; [|inversion Hx]. cbn [fst].
      rewrite Z.eqb_refl. cbn [andb]. eexists. split_and!; [done| |exists BLACK; constructor].
      unfold ldelete. by rewrite filter_cons_False by (cbn; lia). }
    cbn [rbt_is_empty]. rewrite andb_false_r.
    destruct (borrow_right_ok key _ _ _ _ _ _ _ _ Hsh) as (l2 & k2 & v2 & r2 & c2 & s2 & cr & nr & E & He & Hk2 & Hpre & Hrich & Hb); [done..|].
    rewrite E. cbn [mbind option_bind key_of right_of]. destruct (key_compare_cases key k2) as (_ & _ & ->).
    pose proof (f_equal length He) as Hlen2. rewrite !length_app in Hlen2. cbn [length] in Hlen2. rewrite !length_elements in Hlen2.
    rewrite <- He in *. destruct (Z.eqb_spec key k2) as [->|Hne2].
    + destruct (delete_min_ok fuel _ _ _ (Hrich eq_refl)) as (r' & [k' v'] & Em & Hem & Hp); [lia|].
      rewrite (node_min_ok _ _ _ Hem). cbn [mbind option_bind set_entry]. rewrite Em. cbn [mbind option_bind set_right].
      destruct (Hb k' v' _ Hp) as (t & Eb & Het & Hpt). exists t. split_and!; [done| |done].
      by rewrite Het, ldelete_here, Hem.
    + destruct (IH cr nr r2) as (r' & E' & He' & Hp);
        [done|by apply sorted_middle in Hs as (_ & ? & _)|eapply has_key_right; [done|done|lia]|lia|].
      rewrite E'. cbn [mbind option_bind set_right].
      destruct (Hb k2 v2 _ Hp) as (t & Eb & Het & Hpt). exists t. split_and!; [done| |done].
      rewrite Het, He', ldelete_right; [done|done|lia].
Qed.

(** *** The operations on a tree *)

Lemma redden_ok n t : llrb BLACK n t -> t <> Leaf ->
  exists c n' t', redden_root t = Some t' /\ elements t' = elements t /\ count t' = count t /\ rich c n' t'.
Proof.
  intros Hn Hne. destruct n as [|n]; [by apply llrb_zero_inv in Hn|].
  apply llrb_black_inv in Hn as (c & l & k & v & r & -> & Hl & Hr). unfold redden_root.
  cbn [left_of right_of mbind option_bind]. rewrite (llrb_color _ _ _ Hl), (llrb_color _ _ _ Hr). destruct c; cbn [negb andb BLACK set_color].
  - eexists BLACK, (S n), _. split_and!; [done..|]. by constructor.
  - eexists RED, n, _. split_and!; [done..|]. by repeat constructor.
Qed.

Lemma poorer_root c n t : poorer c n t -> exists t', blacken_root t = Some t' /\ elements t' = elements t /\ exists n', llrb BLACK n' t'.
Proof.
  intros H. assert (Hc : exists c', llrb c' n t) by (destruct c; [done|by exists BLACK]). destruct Hc as [c' Hc].
  destruct (blacken_ok _ _ _ Hc) as [n' Hb]. destruct t; [by exists Leaf; split_and!; [..|exists O; constructor]|].
  eexists. split_and!; [done|done|]. eauto.
Qed.

Lemma delete_and_get_min_ok t : rbt_ok t -> t <> Leaf ->
  exists t' x, rbt_delete_and_get_min t = Some (true, t', Some x) /\ elements t = x :: elements t' /\ exists n, llrb BLACK n t'.
Proof.
  intros [Hs [n Hn]] Hne. destruct (redden_ok _ _ Hn Hne) as (c & n' & t1 & E1 & He1 & Hc1 & Hr).
  destruct (delete_min_ok (S (count t1)) _ _ _ Hr) as (t2 & x & E2 & He2 & Hp); [lia|].
  destruct (poorer_root _ _ _ Hp) as (t3 & E3 & He3 & Hn3). exists t3, x. unfold rbt_delete_and_get_min.
  replace (rbt_is_empty t) with false by by destruct t. rewrite E1. cbn [mbind option_bind]. rewrite E2.
  cbn [mbind option_bind]. rewrite E3. split_and!; [done|congruence|done].
Qed.

Lemma find_append (f : Z * V -> bool) e1 e2 :
  List.find f (e1 ++ e2) = match List.find f e1 with Some x => Some x | None => List.find f e2 end.
Proof. induction e1 as [|x e1 IH]; cbn; [done|]. by destruct (f x). Qed.

Lemma find_none (f : Z * V -> bool) e : Forall (fun x => f x = false) e -> List.find f e = None.
Proof. induction 1 as [|x e Hx _ IH]; cbn; [done|]. by rewrite Hx. Qed.

Lemma tree_get_ok t key : sorted (elements t) -> rbt_get t key = llookup key (elements t).
Proof.
  unfold llookup. induction t as [|l IHl k v r IHr c s]; intros Hs; [done|]. cbn [rbt_get elements] in *.
  apply sorted_middle in Hs as (Hsl & Hsr & Hl & Hr). rewrite find_append. cbn [List.find fst].
  destruct (key_compare_cases key k) as (-> & -> & _).
  assert (Hno : forall e : entries, Forall (fun x => x.1 <> key) e -> List.find (fun x => x.1 =? key) e = None).
  { intros e He. apply find_none. eapply list.Forall_impl; [exact He|]. intros x Hx. by apply Z.eqb_neq. }
  destruct (Z.ltb_spec key k); [|destruct (Z.ltb_spec k key)].
  - rewrite IHl by done. destruct (List.find _ (elements l)); [done|]. destruct (Z.eqb_spec k key); [lia|].
    rewrite Hno; [done|]. apply above_ne. eapply above_trans; [exact Hr|lia].
  - rewrite (Hno (elements l)). 2:{ apply below_ne. eapply below_trans; [exact Hl|lia]. }
    destruct (Z.eqb_spec k key); [lia|]. by apply IHr.
  - assert (k = key) as -> by lia. rewrite (Hno (elements l)) by by apply below_ne. by rewrite Z.eqb_refl.
Qed.

Lemma llookup_has_key k e : llookup k e <> None <-> has_key k e.
Proof.
  unfold llookup, has_key. induction e as [|x e IH]; cbn.
  - split; [done|inversion 1].
  - rewrite Exists_cons, <- IH. destruct (Z.eqb_spec x.1 k); [split; [by left|done]|]. split; [by right|by intros [?|?]].
Qed.

Lemma size_ok c n t : llrb c n t -> rbt_node_size t = Z.of_nat (length (elements t)).
Proof. induction 1; subst; cbn; [done|..]; unfold size_above; rewrite length_app; cbn; lia. Qed.

Lemma contains_ok t key : rbt_ok t -> rbt_contains t key = true <-> has_key key (elements t).
Proof.
  intros [Hs [n Hn]]. unfold rbt_contains, rbt_size. rewrite (size_ok _ _ _ Hn), tree_get_ok by done. rewrite <- llookup_has_key.
  destruct (Z.eqb_spec (Z.of_nat (length (elements t))) 0) as [E|E].
  - destruct (elements t); [by split|cbn in E; lia].
  - by destruct (llookup key (elements t)).
Qed.

Lemma delete_ok t key : rbt_ok t ->
  exists t', rbt_delete t key = Some t' /\ elements t' = ldelete key (elements t) /\ exists n, llrb BLACK n t'.
Proof.
  intros Ht. pose proof (contains_ok t key Ht) as Hc. destruct Ht as [Hs [n Hn]]. unfold rbt_delete.
  destruct (rbt_contains t key); cbn [negb].
  - assert (Hin : has_key key (elements t)) by by apply Hc.
    assert (Hne : t <> Leaf) by (intros ->; inversion Hin).
    destruct (redden_ok _ _ Hn Hne) as (c & n' & t1 & E1 & He1 & Hc1 & Hr).
    destruct (node_delete_ok key (S (count t1)) c n' t1) as (t2 & E2 & He2 & Hp); [by left|by rewrite He1..|lia|].
    destruct (poorer_root _ _ _ Hp) as (t3 & E3 & He3 & Hn3). exists t3. rewrite E1. cbn [mbind option_bind]. rewrite E2.
    cbn [mbind option_bind]. split_and!; [done|congruence|done].
  - exists t. split_and!; [done| |by exists n]. symmetry. apply ldelete_other, list.Forall_forall.
    intros x Hx E. assert (false = true) as [=]. apply Hc. apply list.Exists_exists. eauto.
Qed.

Lemma sorted_ldelete k e : sorted e -> sorted (ldelete k e).
Proof.
  unfold sorted, ldelete. induction 1 as [|x e H IH Hx]; [constructor|]. rewrite filter_cons. case_decide; [|done].
  constructor; [done|]. apply list.Forall_forall. intros y [_ Hy]%list_elem_of_filter. rewrite list.Forall_forall in Hx. by apply Hx.
Qed.

Lemma sorted_linsert k v e : sorted e -> sorted (linsert k v e).
Proof.
  unfold sorted. induction 1 as [|[k' v'] e H IH Hx]; cbn [linsert]; [by repeat constructor|].
  destruct (Z.ltb_spec k k'); [|destruct (Z.ltb_spec k' k)].
  - constructor; [by constructor|]. constructor; [done|]. eapply list.Forall_impl; [exact Hx|]. cbn; intros; lia.
  - constructor; [done|]. cbn in *. clear IH H. induction e as [|[k1 v1] e IHe]; cbn [linsert]; [by repeat constructor|].
    inversion_clear Hx. case_cmp; repeat constructor; cbn in *; auto; lia.
  - assert (k' = k) as -> by lia. constructor; [done|]. eapply list.Forall_impl; [exact Hx|]. cbn; intros; lia.
Qed.

Lemma sorted_lupdate k v e : sorted e -> sorted (lupdate k v e).
Proof.
  unfold sorted, lupdate. induction 1 as [|x e H IH Hx]; cbn; [constructor|]. constructor; [done|].
  apply list.Forall_fmap. eapply list.Forall_impl; [exact Hx|]. intros y Hy. cbn. destruct (Z.eqb_spec x.1 k), (Z.eqb_spec y.1 k); cbn in *; lia.
Qed.

Lemma node_max_ok t x e : elements t = e ++ [x] -> rbt_node_max t = Some x.
Proof.
  revert e. induction t as [|l _ k v r IHr c s]; intros e He; [by destruct e|]. cbn [rbt_node_max].
  destruct r as [|a b c1 d f g]; [cbn in He; by apply app_inj_tail in He as [_ ->]|].
  destruct (elements (Node a b c1 d f g)) as [|y e'] eqn:E using rev_ind.
  { cbn in E. by destruct (app_cons_not_nil _ _ _ (eq_sym E)). }
  cbn [elements] in He, E. rewrite E, app_comm_cons, app_assoc in He. apply app_inj_tail in He as [_ ->]. by eapply IHr.
Qed.

Lemma ceiling_loop_ok t key ceil : sorted (elements t) ->
  ceiling_loop t key ceil = match List.find (fun x => key <=? x.1) (elements t) with Some x => Some x | None => ceil end.
Proof.
  revert ceil. induction t as [|l IHl k v r IHr c s]; intros ceil Hs; [done|]. cbn [ceiling_loop elements] in *.
  apply sorted_middle in Hs as (Hsl & Hsr & Hl & Hr). rewrite find_append. cbn [List.find fst].
  destruct (key_compare_cases key k) as (_ & -> & ->).
  assert (Hno : k <= key -> List.find (fun x => key <=? x.1) (elements l) = None).
  { intros Hk. apply find_none. eapply list.Forall_impl; [exact Hl|]. intros x Hx. cbn in *. apply Z.leb_gt. lia. }
  destruct (Z.eqb_spec key k) as [->|]; [|destruct (Z.ltb_spec k key)].
  - rewrite Hno by lia. by rewrite Z.leb_refl.
  - rewrite Hno by lia. destruct (Z.leb_spec key k); [lia|]. by apply IHr.
  - rewrite IHl by done. destruct (List.find _ (elements l)); [done|]. destruct (Z.leb_spec key k); [done|lia].
Qed.

(** ** The map that a tree stands for *)

Definition to_map (e : entries) : gmap Z V := list_to_map e.

Lemma to_map_lookup k e : to_map e !! k = llookup k e.
Proof.
  unfold to_map, llookup. induction e as [|[k' v'] e IH]; [done|]. cbn. destruct (Z.eqb_spec k' k) as [->|].
  - by rewrite lookup_insert_eq.
  - by rewrite lookup_insert_ne.
Qed.

Lemma to_map_linsert k v e : to_map (linsert k v e) = <[k := v]> (to_map e).
Proof.
  unfold to_map. induction e as [|[k' v'] e IH]; [done|]. cbn [linsert].
  destruct (Z.ltb_spec k k'); [done|]. destruct (Z.ltb_spec k' k); cbn.
  - rewrite IH. apply insert_insert_ne. lia.
  - assert (k' = k) as -> by lia. by rewrite insert_insert_eq.
Qed.

Lemma to_map_ldelete k e : to_map (ldelete k e) = delete k (to_map e).
Proof.
  unfold to_map, ldelete. induction e as [|[k' v'] e IH]; [symmetry; apply delete_empty|]. rewrite filter_cons. cbn.
  case_decide as H; cbn in *; rewrite IH.
  - by rewrite delete_insert_ne.
  - assert (k' = k) as -> by lia. by rewrite delete_insert_eq.
Qed.

Lemma sorted_nodup e : sorted e -> NoDup (e.*1).
Proof.
  unfold sorted. induction 1 as [|x e H IH Hx]; cbn; constructor; [|done].
  intros (y & E & Hy)%list_elem_of_fmap. rewrite list.Forall_forall in Hx. specialize (Hx y Hy). lia.
Qed.

Lemma to_map_size e : sorted e -> size (to_map e) = length e.
Proof.
  intros Hs. unfold to_map. pose proof (sorted_nodup e Hs) as Hn.
  rewrite <- (length_map_to_list (list_to_map e : gmap Z V)). by apply Permutation_length, map_to_list_to_map.
Qed.

Lemma to_map_elem e k v : sorted e -> to_map e !! k = Some v <-> (k, v) ∈ e.
Proof. intros Hs. unfold to_map. symmetry. by apply elem_of_list_to_map, sorted_nodup. Qed.

(** [(k, v)] is the entry with the smallest key of at least [lo] in [m]. *)
Definition is_least_from (m : gmap Z V) (lo k : Z) (v : V) : Prop :=
  m !! k = Some v /\ lo <= k /\ forall k', is_Some (m !! k') -> lo <= k' -> k <= k'.
Definition is_least (m : gmap Z V) (k : Z) (v : V) : Prop :=
  m !! k = Some v /\ forall k', is_Some (m !! k') -> k <= k'.
Definition is_greatest (m : gmap Z V) (k : Z) (v : V) : Prop :=
  m !! k = Some v /\ forall k', is_Some (m !! k') -> k' <= k.

(** The answers of all queries on [t] are those of the map [m]. *)
Record answers (t : tree V) (m : gmap Z V) : Prop := Answers {
  ans_get : forall k, rbt_get t k = m !! k;
  ans_contains : forall k, rbt_contains t k = true <-> is_Some (m !! k);
  ans_size : rbt_size t = Z.of_nat (size m);
  ans_empty : rbt_is_empty t = true <-> m = ∅;
  ans_min : match rbt_min t with Some (k, v) => is_least m k v | None => m = ∅ end;
  ans_min_key : rbt_min_key t = fst <$> rbt_min t /\ rbt_min_val t = snd <$> rbt_min t;
  ans_max : match rbt_max_key t, rbt_max_val t with
            | Some k, Some v => is_greatest m k v | None, None => m = ∅ | _, _ => False end;
  ans_ceiling : forall lo, match rbt_ceiling t lo with
                           | Some (k, v) => is_least_from m lo k v
                           | None => forall k, is_Some (m !! k) -> k < lo
                           end
}.

Lemma elements_nil t : elements t = [] <-> t = Leaf.
Proof. split; [|by intros ->]. destruct t; [done|]. cbn. intros E. by destruct (app_cons_not_nil _ _ _ (eq_sym E)). Qed.

Lemma to_map_nil e : to_map e = ∅ <-> e = [].
Proof.
  split; [|by intros ->]. destruct e as [|[k v] e]; [done|]. unfold to_map. cbn. intros E.
  by destruct (insert_non_empty (list_to_map e : gmap Z V) k v).
Qed.

Lemma find_least e lo : sorted e ->
  match List.find (fun x => lo <=? x.1) e with
  | Some (k, v) => is_least_from (to_map e) lo k v
  | None => forall k, is_Some (to_map e !! k) -> k < lo
  end.
Proof.
  intros Hs. assert (H : match List.find (fun x => lo <=? x.1) e with
    | Some x => x ∈ e /\ lo <= x.1 /\ forall y, y ∈ e -> lo <= y.1 -> x.1 <= y.1
    | None => forall y, y ∈ e -> y.1 < lo end).
  { unfold sorted in Hs. induction Hs as [|x e _ IH Hx]; cbn; [by intros y Hy%elem_of_nil|].
    destruct (Z.leb_spec lo x.1).
    - split_and!; [by left|done|]. intros y [->|Hy]%elem_of_cons Hlo; [lia|]. rewrite list.Forall_forall in Hx. specialize (Hx y Hy). lia.
    - destruct (List.find _ e) as [x'|].
      + destruct IH as (? & ? & Hm). split_and!; [by right|done|]. intros y [->|Hy]%elem_of_cons ?; [lia|auto].
      + intros y [->|Hy]%elem_of_cons; [lia|auto]. }
  destruct (List.find _ e) as [[k v]|].
  - destruct H as (H1 & H2 & H3). split_and!; [by apply to_map_elem|done|]. intros k' [v' Hv] Hlo.
    apply to_map_elem in Hv; [|done]. apply (H3 _ Hv). done.
  - intros k [v Hv]. apply to_map_elem in Hv; [|done]. by apply (H _ Hv).
Qed.

Lemma max_answer t : sorted (elements t) ->
  match rbt_node_max t with Some (k, v) => is_greatest (to_map (elements t)) k v | None => to_map (elements t) = ∅ end.
Proof.
  intros Hs. destruct (elements t) as [|x e _] eqn:E using rev_ind.
  { apply elements_nil in E as ->. done. }
  rewrite (node_max_ok _ _ _ E). destruct x as [k v]. rewrite <- E in *. split; [apply to_map_elem; [done|]; rewrite E; set_solver|].
  intros k' [v' Hv]. apply to_map_elem in Hv; [|done]. rewrite E in Hv, Hs. apply sorted_middle in Hs as (_ & _ & Hs & _).
  apply elem_of_app in Hv as [Hv|Hv]; [|apply list_elem_of_singleton in Hv; by simplify_eq].
  rewrite list.Forall_forall in Hs. specialize (Hs _ Hv). cbn in Hs. lia.
Qed.

Lemma min_answer t : sorted (elements t) ->
  match rbt_node_min t with Some (k, v) => is_least (to_map (elements t)) k v | None => to_map (elements t) = ∅ end.
Proof.
  intros Hs. destruct (elements t) as [|[k v] e] eqn:E.
  { apply elements_nil in E as ->. done. }
  rewrite (node_min_ok _ _ _ E). rewrite <- E in *. split; [apply to_map_elem; [done|]; rewrite E; by left|].
  intros k' [v' Hv]. apply to_map_elem in Hv; [|done]. rewrite E in Hv, Hs. inversion_clear Hs as [|? ? _ Hx].
  apply elem_of_cons in Hv as [|Hv]; [by simplify_eq|]. rewrite list.Forall_forall in Hx. specialize (Hx _ Hv). cbn in Hx. lia.
Qed.

Lemma answers_ok t : rbt_ok t -> answers t (to_map (elements t)).
Proof.
  intros Hok. pose proof Hok as [Hs [n Hn]].
  assert (Hmin : rbt_min t = rbt_node_min t) by (unfold rbt_min; by destruct t).
  split.
  - intros k. by rewrite tree_get_ok, to_map_lookup.
  - intros k. rewrite contains_ok, <- llookup_has_key, to_map_lookup by done. apply not_eq_None_Some.
  - unfold rbt_size. by rewrite (size_ok _ _ _ Hn), to_map_size.
  - rewrite to_map_nil, elements_nil. by destruct t.
  - rewrite Hmin. by apply min_answer.
  - by rewrite Hmin.
  - unfold rbt_max_key, rbt_max_val. pose proof (max_answer t Hs) as H. by destruct (rbt_node_max t) as [[]|].
  - intros lo. pose proof (find_least _ lo Hs) as H. unfold rbt_ceiling.
    assert (E : (if rbt_is_empty t then None else ceiling_loop t lo None) = List.find (fun x => lo <=? x.1) (elements t)).
    { destruct t; [done|]. cbn [rbt_is_empty]. rewrite ceiling_loop_ok by done. by case_match. }
    by rewrite E.
Qed.

(** ** Sequences of operations *)

Inductive op := Put (k : Z) (v : V) | Delete (k : Z) | DeleteMin.

Definition run_op (t : tree V) (o : op) : option (tree V) :=
  match o with
  | Put k v => rbt_put true t k v
  | Delete k => rbt_delete t k
  | DeleteMin => '(_, t', _) ← rbt_delete_and_get_min t; Some t'
  end.

Definition run_ops (t : tree V) (ops : list op) : option (tree V) := foldl (fun (x : option (tree V)) o => t ← x; run_op t o) (Some t) ops.

(** The same on a finite map. *)
Inductive spec_op : gmap Z V -> op -> gmap Z V -> Prop :=
  | spec_put m k v : spec_op m (Put k v) (<[k := v]> m)
  | spec_delete m k : spec_op m (Delete k) (delete k m)
  | spec_delete_min m k v : is_least m k v -> spec_op m DeleteMin (delete k m)
  | spec_delete_min_empty : spec_op ∅ DeleteMin ∅.

Inductive spec_ops : gmap Z V -> list op -> gmap Z V -> Prop :=
  | spec_nil m : spec_ops m [] m
  | spec_cons m o m' ops m'' : spec_op m o m' -> spec_ops m' ops m'' -> spec_ops m (o :: ops) m''.

Lemma run_op_ok t o : rbt_ok t ->
  exists t', run_op t o = Some t' /\ rbt_ok t' /\ spec_op (to_map (elements t)) o (to_map (elements t')).
Proof.
  intros Hok. pose proof Hok as [Hs _]. destruct o as [k v|k|]; cbn [run_op].
  - destruct (put_ok true t k v Hok) as (t' & E & He & Hn); [by right|]. exists t'. cbn in He. split_and!; [done| |].
    + split; [|done]. rewrite He. by apply sorted_linsert.
    + rewrite He, to_map_linsert. constructor.
  - destruct (delete_ok t k Hok) as (t' & E & He & Hn). exists t'. split_and!; [done| |].
    + split; [|done]. rewrite He. by apply sorted_ldelete.
    + rewrite He, to_map_ldelete. constructor.
  - destruct (decide (elements t = [])) as [E|E].
    { pose proof E as ->%elements_nil. exists Leaf. split_and!; [done|done|]. constructor. }
    destruct (delete_and_get_min_ok t Hok) as (t' & [k v] & E' & He & Hn); [by intros ->|].
    rewrite E'. exists t'. pose proof Hs as Hs'. rewrite He in Hs'. inversion_clear Hs' as [|? ? Hs1 Hx].
    split_and!; [done|by split|]. rewrite <- (ldelete_other k (elements t')).
    2:{ eapply list.Forall_impl; [exact Hx|]. cbn; intros; lia. }
    replace (ldelete k (elements t')) with (ldelete k (elements t)).
    + rewrite to_map_ldelete. apply (spec_delete_min _ k v). pose proof (min_answer t Hs) as Hm. by rewrite (node_min_ok _ _ _ He) in Hm.
    + rewrite He. unfold ldelete. by rewrite filter_cons_False by (cbn; lia).
Qed.

Lemma run_ops_ok ops : forall t, rbt_ok t ->
  exists t', run_ops t ops = Some t' /\ rbt_ok t' /\ spec_ops (to_map (elements t)) ops (to_map (elements t')).
Proof.
  unfold run_ops. induction ops as [|o ops IH]; intros t Hok.
  - exists t. split_and!; [done|done|constructor].
  - destruct (run_op_ok t o Hok) as (t1 & E1 & Hok1 & Hsp). cbn [foldl mbind option_bind]. rewrite E1.
    destruct (IH t1 Hok1) as (t' & E & Hok' & Hsp'). exists t'. split_and!; [done|done|by econstructor].
Qed.

Lemma tree_init_ok : rbt_ok rbt_init.
Proof. split; [constructor|exists O; constructor]. Qed.

(** ** Depth *)

Fixpoint depth (t : tree V) : nat := match t with Leaf => O | Node l _ _ r _ _ => S (Nat.max (depth l) (depth r)) end.

Lemma llrb_depth c n t : llrb c n t -> (depth t <= 2 * n + Nat.b2n c)%nat /\ (2 ^ Z.of_nat n <= Z.of_nat (count t) + 1).
Proof.
  induction 1 as [|c n l k v r s Hl [IHl1 IHl2] Hr [IHr1 IHr2] _|n l k v r s Hl [IHl1 IHl2] Hr [IHr1 IHr2] _]; cbn [depth count].
  - cbn. lia.
  - rewrite Nat2Z.inj_succ, Z.pow_succ_r by lia. destruct c; cbn [Nat.b2n BLACK] in *; lia.
  - cbn [Nat.b2n BLACK RED] in *. lia.
Qed.

(** *** What does not depend on the shape *)

Lemma balance_total l k v r c s :
  exists t, rbt_balance (Node l k v r c s) = Some t /\ elements t = elements l ++ (k, v) :: elements r.
Proof.
  unfold rbt_balance. cbn [right_of mbind option_bind].
  assert (H : forall l k v r c s, exists t, lean_left (Node l k v r c s) = Some t /\ elements t = elements l ++ (k, v) :: elements r).
  { clear. intros l k v r c s. unfold lean_left, two_reds_left, both_red.
    destruct l as [|[|? ? ? ? [] ?] ? ? ? [] ?], r as [|? ? ? ? [] ?]; cbn; eexists; (split; [done|flat]). }
  destruct (is_red r) eqn:E; [|apply H]. destruct r as [|rl rk rv rr rc rs]; [done|].
  destruct (H (Node l k v rl RED (rbt_node_size l + rbt_node_size rl + 1)) rk rv rr c s) as (t & E1 & E2).
  exists t. split; [exact E1|]. rewrite E2. flat.
Qed.

Lemma delete_max_keeps t : rbt_ok t -> 2 <= rbt_size t ->
  exists t', rbt_delete_and_get_max t = Some (true, t', None) /\ elements t' = elements t.
Proof.
  intros [Hs [n Hn]] H2. unfold rbt_size in H2. rewrite (size_ok _ _ _ Hn) in H2.
  assert (Hne : t <> Leaf) by (intros ->; cbn in H2; lia).
  destruct (redden_ok _ _ Hn Hne) as (c & n' & t1 & E1 & He1 & Hc1 & Hr). unfold rbt_delete_and_get_max.
  replace (rbt_is_empty t) with false by by destruct t. rewrite E1. cbn [mbind option_bind].
  rewrite <- He1 in *. clear E1 Hn Hne Hc1 He1. destruct t1 as [|l k v r c0 s]; [cbn in H2; lia|].
  cbn [elements] in *. unfold rbt_node_delete_and_get_max.
  destruct (lean_right_ok k c n' l k v r c0 s) as (l1 & k1 & v1 & r1 & c1 & s1 & E1 & Hel1 & Hk1 & Hsh); [by left|lia|done|].
  rewrite E1. cbn [mbind option_bind]. rewrite <- Hel1 in *. destruct r1 as [|rl rk rv rr rc rs].
  { exfalso. destruct Hsh as [[-> Hn]|[-> Hn]]; [|by inversion Hn as [? ? ? ? ? ? _ HR]; inversion HR].
    apply llrb_red_inv in Hn as (? & ? & ? & ? & [= <- <- <- <- -> ->] & HL & HR). inversion HR; subst.
    apply llrb_zero_inv in HL as ->. cbn in H2. lia. }
  destruct (borrow_right_ok k _ _ _ _ _ _ _ _ Hsh) as (l2 & k2 & v2 & r2 & c2 & s2 & cr & nr & E & He & _); [done|lia|done|].
  rewrite E. cbn [mbind option_bind]. destruct (balance_total l2 k2 v2 r2 c2 s2) as (t2 & Eb & Het). rewrite Eb.
  cbn [mbind option_bind]. destruct t2 as [|tl tk tv tr tc ts].
  { cbn in Het. by destruct (app_cons_not_nil _ _ _ Het). }
  cbn [blacken_root rbt_is_empty set_color mbind option_bind]. eexists. split; [done|].
  cbn [elements] in *. congruence.
Qed.

End Tree.

(** ** Theorems *)

(** C26. The red-black tree is an ordered map: whatever operations are run on it, none of them
    follows a null pointer, the tree stays balanced, and all queries (search, size, smallest
    and largest entry, smallest entry from a key on) answer as the finite map that the same
    operations build. *)
Theorem rbt_refines_map {V} (ops : list (op (V := V))) :
  exists t m, run_ops rbt_init ops = Some t /\ spec_ops ∅ ops m /\ rbt_ok t /\ answers t m.
Proof.
  destruct (run_ops_ok ops rbt_init tree_init_ok) as (t & E & Hok & Hsp).
  exists t, (to_map (elements t)). split_and!; [done|done|done|by apply answers_ok].
Qed.

(** The depth of a tree is at most twice the logarithm of its size, so that no tree whose
    size is a C integer is deeper than the limit set for the recursion. *)
Theorem rbt_depth_bound {V} (t : tree V) :
  rbt_ok t -> rbt_size t < 2 ^ 31 ->
  Z.of_nat (depth t) <= 2 * Z.log2 (rbt_size t + 1) /\ Z.of_nat (depth t) < RBT_MAX_DEPTH.
Proof.
  intros [_ [n Hn]] Hsz. unfold rbt_size in *. rewrite (size_ok _ _ _ Hn), length_elements in *.
  destruct (llrb_depth _ _ _ Hn) as [Hd Hp]. cbn [Nat.b2n BLACK] in Hd.
  assert (Hlog : Z.of_nat n <= Z.log2 (Z.of_nat (count t) + 1)) by (apply Z.log2_le_pow2; lia).
  assert (Z.log2 (Z.of_nat (count t) + 1) <= 31).
  { transitivity (Z.log2 (2 ^ 31)); [apply Z.log2_le_mono; lia|rewrite Z.log2_pow2; lia]. }
  unfold RBT_MAX_DEPTH. lia.
Qed.

(** Without memory for a node an insertion into a tree that is not empty changes nothing
    but the value of a key that is there, and keeps the tree balanced; into the empty tree it
    follows a null pointer. *)
Theorem rbt_put_no_memory {V} (t : tree V) (key : Z) (val : V) :
  rbt_ok t ->
  match rbt_put false t key val with
  | Some t' => t <> Leaf /\ rbt_ok t' /\
      elements t' = (fun x => if x.1 =? key then (key, val) else x) <$> elements t
  | None => t = Leaf
  end.
Proof.
  intros Hok. destruct (decide (elements t = [])) as [E|E].
  - apply elements_nil in E as ->. done.
  - assert (Hne : t <> Leaf) by by intros ->. destruct (put_ok false t key val Hok) as (t' & -> & He & Hn); [by left|].
    split_and!; [done| |exact He]. split; [|done]. rewrite He. apply sorted_lupdate. by destruct Hok.
Qed.

Definition four_entries : list (op (V := Z)) := [Put 0 0; Put 3 3; Put 2 2; Put 1 1].

(** Deleting the largest entry does not delete it: the recursive call is missing, so that
    for every tree of two entries or more the function returns true, stores no entry and keeps
    all of them; the tree that it leaves need not be balanced any more. *)
Theorem delete_max_deletes_nothing {V} (t : tree V) :
  rbt_ok t -> 2 <= rbt_size t ->
  (exists t', rbt_delete_and_get_max t = Some (true, t', None) /\ elements t' = elements t) /\
  (exists t4 t4', run_ops rbt_init four_entries = Some t4 /\
     rbt_delete_and_get_max t4 = Some (true, t4', None) /\ forall c n, ~ llrb c n t4').
Proof.
  intros Hok Hsz. split; [by apply delete_max_keeps|].
  eexists _, _. split_and!; [vm_compute; reflexivity|vm_compute; reflexivity|].
  intros c n H. inversion H as [|? ? ? ? ? ? ? _ Hr|? ? ? ? ? ? _ Hr]; inversion Hr as [|? ? ? ? ? ? ? _ Hr'|]; inversion Hr'.
Qed.

Definition sample_tree : tree Z := default Leaf (run_ops rbt_init four_entries).

Lemma sample_tree_ok : rbt_ok sample_tree.
Proof.
  destruct (run_ops_ok four_entries rbt_init tree_init_ok) as (t & E & Hok & _). unfold sample_tree. by rewrite E.
Qed.

Lemma rbt_depth_bound_witness : Z.of_nat (depth sample_tree) <= 2 * Z.log2 (rbt_size sample_tree + 1) /\ Z.of_nat (depth sample_tree) < RBT_MAX_DEPTH.
Proof. apply (rbt_depth_bound sample_tree); [exact sample_tree_ok|reflexivity]. Defined.

Lemma rbt_put_no_memory_witness :
  match rbt_put false sample_tree 2 7 with
  | Some t' => sample_tree <> Leaf /\ rbt_ok t' /\
      elements t' = (fun x => if x.1 =? 2 then (2, 7) else x) <$> elements sample_tree
  | None => sample_tree = Leaf
  end.
Proof. apply (rbt_put_no_memory sample_tree 2 7). exact sample_tree_ok. Defined.

Lemma delete_max_deletes_nothing_witness :
  (exists t', rbt_delete_and_get_max sample_tree = Some (true, t', None) /\ elements t' = elements sample_tree) /\
  (exists t4 t4', run_ops rbt_init four_entries = Some t4 /\
     rbt_delete_and_get_max t4 = Some (true, t4', None) /\ forall c n, ~ llrb c n t4').
Proof. apply (delete_max_deletes_nothing sample_tree); [exact sample_tree_ok|vm_compute; discriminate]. Defined.

End RedBlackTree.
