(* ===== verification/WindowBuffers.v ===== *)
(** * What the FEC receiver remembers of the source symbols

    plugins/simple_fec/window_framework/
      window_receive_buffers.h   the ring of the last [max_size] source symbols
      search_structures.h        the tracker of received symbol ids

    The ring is an array of pointers, [None] a null one, with the 32-bit counters of the
    source; reading outside of the array is [None].  Adding a symbol also gives the symbols
    that are freed.  The tracker is the linked list of its intervals, in order. *)
From stdpp Require Import base list gmap numbers.
From Stdlib Require Import ZArith Lia Bool.
From S2P Require Import Prelude.
#[local] Open Scope Z_scope.

Module WindowBuffers.

Definition WINDOW_INITIAL_SYMBOL_ID : Z := 1.

(** ** The ring *)

Section Ring.
Context {A : Type} (id_of : A -> Z).

Record ring := Ring {
  max_size : Z;
  current_size : Z;
  first_index : Z;
  first_id : Z;
  array : list (option A)
}.

Definition with_array (b : ring) (a : list (option A)) : ring :=
  Ring (max_size b) (current_size b) (first_index b) (first_id b) a.

(** [garbage] is the content of the array after [my_malloc], [None] when that fails. *)
Definition new_ring (size : Z) (malloc_ok : bool) (garbage : option (list (option A))) : option ring :=
  if size =? 0 then None
  else if malloc_ok then a ← garbage; Some (Ring (u32 size) 0 0 0 a) else None.

Definition last_id (b : ring) : Z := u32 (first_id b + u32 (current_size b - 1)).

(** [array[(id - first_id + first_index) % max_size]] *)
Definition slot (b : ring) (id : Z) : nat := Z.to_nat (u32 (id - first_id b + first_index b) mod max_size b).

Definition ring_get (b : ring) (id : Z) : option (option A) :=
  if (id <? first_id b) || (last_id b <? id) then Some None else array b !! slot b id.

Definition ring_contains (b : ring) (id : Z) : option bool :=
  if (id <? first_id b) || (last_id b <? id) then Some false
  else ss ← array b !! slot b id;
       Some (match ss with Some ss => id_of ss =? id | None => false end).

Definition opt_list (x : option A) : list A := match x with Some a => [a] | None => [] end.

(** [_ring_based_source_symbols_buffer_remove_and_free]: the ring and what is freed. *)
Definition free_slot (b : ring) (i : nat) : option (ring * list A) :=
  ss ← array b !! i; Some (with_array b (<[i := None]> (array b)), opt_list ss).

Fixpoint free_slots (b : ring) (l : list nat) : option (ring * list A) :=
  match l with
  | [] => Some (b, [])
  | i :: l =>
    '(b, f) ← free_slot b i;
    '(b, fs) ← free_slots b l;
    Some (b, f ++ fs)
  end.

Definition remove_and_free_first (b : ring) : option (ring * list A) :=
  '(b, f) ← (if 0 <? current_size b then
               '(b, f) ← free_slot b (Z.to_nat (first_index b));
               Some (Ring (max_size b) (current_size b - 1) (u32 (first_index b + 1) mod max_size b) (u32 (first_id b + 1)) (array b), f)
             else Some (b, []));
  Some (if current_size b =? 0 then Ring (max_size b) 0 0 0 (array b) else b, f).

(** [while (current_size + added_symbols > max_size)]: every round removes a symbol, so [fuel] is the number of them. *)
Fixpoint make_room (fuel : nat) (b : ring) (added : Z) : option (ring * list A) :=
  if max_size b <? u32 (current_size b + added) then
    match fuel with
    | O => None
    | S fuel =>
      '(b, f) ← remove_and_free_first b;
      '(b, fs) ← make_room fuel b added;
      Some (b, f ++ fs)
    end
  else Some (b, []).

(** The ids from [lo] up to [hi], excluded. *)
Definition ids_between (lo hi : Z) : list Z := (fun k => lo + Z.of_nat k) <$> seq 0 (Z.to_nat (hi - lo)).

Definition set_slot (b : ring) (i : nat) (ss : A) : option ring :=
  _ ← array b !! i; Some (with_array b (<[i := Some ss]> (array b))).

Definition ring_add (b : ring) (ss : A) : option (ring * list A) :=
  let id := id_of ss in
  if (0 <? current_size b) && (last_id b <? id) then
    let added := u32 (id - last_id b) in
    if max_size b <? added then
      '(b, f) ← free_slots b (seq 0 (Z.to_nat (max_size b)));
      Some (Ring (max_size b) (current_size b) 0 (u32 (id - (max_size b - 1))) (array b), f)
    else
      '(b, f) ← make_room (Z.to_nat (current_size b)) b added;
      '(b, fs) ← free_slots b (slot b <$> ids_between (u32 (1 + last_id b)) id);
      b ← set_slot b (slot b id) ss;
      Some (Ring (max_size b) (u32 (current_size b + u32 (id - last_id b))) (first_index b) (first_id b) (array b), f ++ fs)
  else if current_size b =? 0 then
    let first := if max_size b <=? id then Z.max WINDOW_INITIAL_SYMBOL_ID (u32 (id - (max_size b - 1)))
                 else WINDOW_INITIAL_SYMBOL_ID in
    let size := Z.min (max_size b) (u32 (id + 1 - first)) in
    b ← set_slot (Ring (max_size b) size 0 first (replicate (Z.to_nat (max_size b)) None)) (Z.to_nat (u32 (size - 1))) ss;
    Some (b, [])
  else if id <? first_id b then Some (b, [])
  else b ← set_slot b (slot b id) ss; Some (b, []).

(** ** The abstract window: the symbols with ids from [w_first] to [w_last] *)

Record window := Window { w_size : Z; w_first : Z; w_last : Z; w_map : gmap Z A }.

Definition window_add (w : window) (ss : A) : window :=
  let id := id_of ss in
  if w_last w <? w_first w then
    let first := Z.max WINDOW_INITIAL_SYMBOL_ID (id - w_size w + 1) in Window (w_size w) first id {[id := ss]}
  else if w_last w <? id then
    let first := Z.max (w_first w) (id - w_size w + 1) in
    Window (w_size w) first id (<[id := ss]> (filter (fun x => first <= x.1) (w_map w)))
  else if id <? w_first w then w
  else Window (w_size w) (w_first w) (w_last w) (<[id := ss]> (w_map w)).

(** *** The ring stands for a window *)

(** The slot [j] places behind the first one. *)
Definition nth_slot (b : ring) (j : Z) : nat := Z.to_nat ((first_index b + j) mod max_size b).

Record stands_for (b : ring) (w : window) : Prop := StandsFor {
  sf_size : max_size b = w_size w;
  sf_max : 0 < w_size w < 2 ^ 31;
  sf_array : length (array b) = Z.to_nat (w_size w);
  sf_first : first_id b = w_first w;
  sf_current : current_size b = w_last w - w_first w + 1;
  sf_bounds : WINDOW_INITIAL_SYMBOL_ID <= w_first w <= w_last w /\ w_last w < w_first w + w_size w /\ w_last w < 2 ^ 31;
  sf_index : 0 <= first_index b < w_size w;
  sf_slots : forall j, 0 <= j < w_size w -> array b !! nth_slot b j = Some (w_map w !! (w_first w + j));
  sf_dom : forall id ss, w_map w !! id = Some ss -> w_first w <= id <= w_last w /\ id_of ss = id
}.

Lemma stands_last b w : stands_for b w -> last_id b = w_last w.
Proof.
  intros [? ? ? Hf Hc Hb]. unfold last_id. rewrite Hf, Hc. unfold WINDOW_INITIAL_SYMBOL_ID in *.
  rewrite (u32_small (_ - 1)) by lia. rewrite u32_small; lia.
Qed.

Lemma slot_nth b w id : stands_for b w -> w_first w <= id < w_first w + w_size w -> slot b id = nth_slot b (id - w_first w).
Proof.
  intros [Hs Hm _ Hf _ Hb Hi] Hid. unfold slot, nth_slot. rewrite Hf, u32_small by lia. do 2 f_equal. lia.
Qed.

Lemma nth_slot_lt b w j : stands_for b w -> (nth_slot b j < length (array b))%nat.
Proof.
  intros [Hs Hm Ha]. unfold nth_slot. rewrite Ha, Hs. apply Z2Nat.inj_lt; [apply Z.mod_pos_bound; lia|lia|].
  apply Z.mod_pos_bound. lia.
Qed.

Lemma mod_inj a j k n : 0 < n -> 0 <= j < n -> 0 <= k < n -> (a + j) mod n = (a + k) mod n -> j = k.
Proof.
  intros Hn Hj Hk E. assert (H : (j - k) mod n = 0).
  { replace (j - k) with ((a + j) - (a + k)) by lia. rewrite Zminus_mod, E, Z.sub_diag. apply Z.mod_0_l. lia. }
  apply Z.mod_divide in H; [|lia]. destruct H as [q H]. assert (q = 0) by nia. lia.
Qed.

Lemma nth_slot_inj b w j k : stands_for b w -> 0 <= j < w_size w -> 0 <= k < w_size w -> nth_slot b j = nth_slot b k -> j = k.
Proof.
  intros [Hs Hm] Hj Hk E. unfold nth_slot in E. rewrite Hs in E.
  apply Z2Nat.inj in E; [|apply Z.mod_pos_bound; lia..]. eapply mod_inj; [|exact Hj|exact Hk|exact E]. lia.
Qed.

Lemma ring_get_ok b w id : stands_for b w -> ring_get b id = Some (w_map w !! id).
Proof.
  intros H. pose proof H as [Hs Hm _ Hf _ Hb _ Hsl Hd]. unfold ring_get. rewrite (stands_last b w H), Hf.
  destruct (Z.ltb_spec id (w_first w)), (Z.ltb_spec (w_last w) id); cbn [orb].
  1-3: destruct (w_map w !! id) eqn:E; [apply Hd in E; lia|done].
  rewrite (slot_nth b w) by (done || lia). rewrite Hsl by lia. do 2 f_equal. lia.
Qed.

Lemma ring_contains_ok b w id : stands_for b w -> ring_contains b id = Some (bool_decide (is_Some (w_map w !! id))).
Proof.
  intros H. pose proof (ring_get_ok b w id H) as Hg. pose proof H as [_ _ _ _ _ _ _ _ Hd]. unfold ring_contains, ring_get in *.
  destruct (_ || _) eqn:E.
  - injection Hg as <-. reflexivity.
  - rewrite Hg. cbn. f_equal. destruct (w_map w !! id) as [ss|] eqn:Em.
    + apply Hd in Em as [_ ->]. rewrite Z.eqb_refl. symmetry. by apply bool_decide_eq_true.
    + symmetry. by apply bool_decide_eq_false, is_Some_None.
Qed.

(** *** Making room *)

Lemma remove_first_ok b w : stands_for b w -> w_first w < w_last w ->
  exists b', remove_and_free_first b = Some (b', opt_list (w_map w !! w_first w)) /\
    stands_for b' (Window (w_size w) (w_first w + 1) (w_last w) (delete (w_first w) (w_map w))).
Proof.
  intros H Hlt. pose proof H as [Hs Hm Ha Hf Hc Hb Hi Hsl Hd]. unfold WINDOW_INITIAL_SYMBOL_ID in *.
  unfold remove_and_free_first. rewrite Hc. destruct (Z.ltb_spec 0 (w_last w - w_first w + 1)); [|lia].
  unfold free_slot. assert (E0 : array b !! Z.to_nat (first_index b) = Some (w_map w !! w_first w)).
  { specialize (Hsl 0). unfold nth_slot in Hsl. rewrite Z.add_0_r, Hs, Z.mod_small, Z.add_0_r in Hsl by lia. apply Hsl. lia. }
  rewrite E0. cbn [mbind option_bind with_array max_size current_size first_index first_id array].
  rewrite Hc, Hs, Hf. cbn [current_size]. destruct (Z.eqb_spec (w_last w - w_first w + 1 - 1) 0); [lia|].
  eexists. split; [done|]. rewrite (u32_small (first_index b + 1)), (u32_small (w_first w + 1)) by lia.
  split; cbn [max_size current_size first_index first_id array w_size w_first w_last w_map]; unfold WINDOW_INITIAL_SYMBOL_ID; try (done || lia).
  - by rewrite length_insert.
  - apply Z.mod_pos_bound. lia.
  - intros j Hj. unfold nth_slot. cbn [first_index max_size]. rewrite Z.add_mod_idemp_l by lia.
    assert (Es : forall k, 0 <= k -> Z.to_nat ((first_index b + k) mod w_size w) = nth_slot b k) by (intros; unfold nth_slot; by rewrite Hs).
    replace (first_index b + 1 + j) with (first_index b + (j + 1)) by lia. rewrite Es by lia.
    replace (Z.to_nat (first_index b)) with (nth_slot b 0) by (unfold nth_slot; rewrite Z.add_0_r, Hs, Z.mod_small; lia).
    destruct (Z.eq_dec j (w_size w - 1)) as [->|Hne].
    + replace (nth_slot b (w_size w - 1 + 1)) with (nth_slot b 0).
      2:{ unfold nth_slot. rewrite Hs. f_equal. rewrite Z.sub_add, Z.add_0_r, <- Z.add_mod_idemp_r, Z.mod_same, Z.add_0_r by lia. done. }
      rewrite list_lookup_insert_eq by by eapply nth_slot_lt. f_equal. symmetry. apply lookup_delete_None. right.
      apply eq_None_not_Some. intros [ss E]. apply Hd in E. lia.
    + rewrite list_lookup_insert_ne.
      2:{ intros E. eapply nth_slot_inj in E; [|done|lia|lia]. lia. }
      rewrite Hsl, lookup_delete_ne by lia. do 2 f_equal. lia.
  - intros id ss [Hne Hl]%lookup_delete_Some. apply Hd in Hl as []. split; [lia|done].
Qed.

Lemma filter_le_self (m : gmap Z A) lo : (forall id ss, m !! id = Some ss -> lo <= id) -> filter (fun x => lo <= x.1) m = m.
Proof. intros H. apply map_filter_id. intros i x Hi. cbn. by eapply H. Qed.

Lemma filter_delete_first (m : gmap Z A) lo lo' : lo < lo' -> filter (fun x => lo' <= x.1) (delete lo m) = filter (fun x => lo' <= x.1) m.
Proof.
  intros H. apply map_eq. intros i. apply option_eq. intros x. rewrite !map_lookup_filter_Some, lookup_delete_Some. cbn. split; [tauto|].
  intros [? ?]. split_and!; [lia|done|done].
Qed.

Lemma make_room_ok added fuel : forall b w, stands_for b w -> 0 < added < w_size w ->
  w_last w + added - w_size w + 1 - w_first w <= Z.of_nat fuel ->
  let first := Z.max (w_first w) (w_last w + added - w_size w + 1) in
  exists b' f, make_room fuel b added = Some (b', f) /\
    stands_for b' (Window (w_size w) first (w_last w) (filter (fun x => first <= x.1) (w_map w))) /\
    forall ss, ss ∈ f <-> exists id, w_map w !! id = Some ss /\ id < first.
Proof.
  induction fuel as [|fuel IH]; intros b w H Ha Hf first.
  all: pose proof H as [Hs Hm _ _ Hc Hb _ _ Hd]; unfold WINDOW_INITIAL_SYMBOL_ID in *; cbn [make_room].
  all: rewrite Hs, Hc, u32_small by lia.
  - destruct (Z.ltb_spec (w_size w) (w_last w - w_first w + 1 + added)); [lia|].
    exists b, []. split_and!; [done| |]; unfold first; rewrite Z.max_l by lia.
    + rewrite filter_le_self by (intros id ss E; apply Hd in E; lia). by destruct w.
    + intros ss. split; [by intros ?%elem_of_nil|]. intros (id & E & ?). apply Hd in E. lia.
  - destruct (Z.ltb_spec (w_size w) (w_last w - w_first w + 1 + added)).
    + destruct (remove_first_ok b w H) as (b1 & E1 & H1); [lia|]. rewrite E1. cbn [mbind option_bind].
      destruct (IH b1 _ H1) as (b2 & f & E2 & H2 & Hfr); cbn [w_size w_first w_last w_map] in *; [lia|lia|].
      rewrite E2. cbn [mbind option_bind]. eexists _, _. split; [done|].
      assert (Ef : Z.max (w_first w + 1) (w_last w + added - w_size w + 1) = first) by (unfold first; lia). rewrite Ef in *.
      split.
      * rewrite <- (filter_delete_first _ (w_first w)) by (unfold first; lia). done.
      * intros ss. rewrite elem_of_app, Hfr. split.
        { intros [Hin|(id & [_ E]%lookup_delete_Some & ?)]; [|eauto].
          destruct (w_map w !! w_first w) eqn:E; [|by apply elem_of_nil in Hin].
          apply list_elem_of_singleton in Hin as ->. exists (w_first w). split; [done|]. unfold first; lia. }
        intros (id & E & Hid). destruct (Z.eq_dec id (w_first w)) as [->|Hne].
        { left. rewrite E. by apply list_elem_of_singleton. }
        right. exists id. split; [|done]. by rewrite lookup_delete_ne.
    + exists b, []. split_and!; [done| |]; unfold first; rewrite Z.max_l by lia.
      * rewrite filter_le_self by (intros id ss E; apply Hd in E; lia). by destruct w.
      * intros ss. split; [by intros ?%elem_of_nil|]. intros (id & E & ?). apply Hd in E. lia.
Qed.

Lemma free_empty_slots b l : Forall (fun i => array b !! i = Some None) l -> free_slots b l = Some (b, []).
Proof.
  induction 1 as [|i l Hi _ IH]; [done|]. cbn [free_slots]. unfold free_slot. rewrite Hi. cbn [mbind option_bind opt_list].
  assert (Eb : with_array b (<[i := None]> (array b)) = b) by (rewrite list_insert_id by done; by destruct b).
  rewrite Eb, IH. done.
Qed.

Lemma set_slot_ok b w ss : stands_for b w -> w_first w <= id_of ss <= w_last w ->
  exists b', set_slot b (slot b (id_of ss)) ss = Some b' /\
    stands_for b' (Window (w_size w) (w_first w) (w_last w) (<[id_of ss := ss]> (w_map w))) /\
    max_size b' = max_size b /\ current_size b' = current_size b /\ first_index b' = first_index b /\ first_id b' = first_id b.
Proof.
  intros H Hid. pose proof H as [Hs Hm Ha Hf Hc Hb Hi Hsl Hd]. unfold set_slot. rewrite (slot_nth b w) by (done || lia).
  rewrite Hsl by lia. cbn [mbind option_bind]. eexists. split_and!; [done| |done..].
  split; cbn [with_array max_size current_size first_index first_id array w_size w_first w_last w_map]; try done.
  - by rewrite length_insert.
  - intros j Hj. change (nth_slot _ j) with (nth_slot b j).
    destruct (Z.eq_dec j (id_of ss - w_first w)) as [->|Hne].
    + rewrite list_lookup_insert_eq by by eapply nth_slot_lt.
      replace (w_first w + (id_of ss - w_first w)) with (id_of ss) by lia. by rewrite lookup_insert_eq.
    + rewrite list_lookup_insert_ne by (intros E; eapply nth_slot_inj in E; [|done|lia|lia]; lia).
      rewrite lookup_insert_ne by lia. by apply Hsl.
  - intros id x Hx. destruct (Z.eq_dec id (id_of ss)) as [->|Hne].
    + rewrite lookup_insert_eq in Hx. injection Hx as <-. lia.
    + rewrite lookup_insert_ne in Hx by done. by apply Hd.
Qed.

(** A window that is extended over ids that are not there yet. *)
Lemma extend_ok b w last' :
  stands_for b w -> w_last w <= last' < w_first w + w_size w -> last' < 2 ^ 31 ->
  stands_for (Ring (max_size b) (last' - w_first w + 1) (first_index b) (first_id b) (array b))
    (Window (w_size w) (w_first w) last' (w_map w)).
Proof.
  intros [Hs Hm Ha Hf Hc Hb Hi Hsl Hd] Hl Hlt.
  split; cbn [max_size current_size first_index first_id array w_size w_first w_last w_map]; try (done || lia).
  intros id x Hx. apply Hd in Hx as []. split; [lia|done].
Qed.

Lemma slots_between_empty b w lo hi :
  stands_for b w -> w_last w < lo -> hi <= w_first w + w_size w ->
  Forall (fun i => array b !! i = Some None) (slot b <$> ids_between lo hi).
Proof.
  intros H Hlo Hhi. pose proof H as [Hs Hm Ha Hf Hc Hb Hi Hsl Hd]. apply list.Forall_fmap, list.Forall_forall.
  intros id (k & -> & Hk)%list_elem_of_fmap. apply elem_of_seq in Hk. cbn.
  rewrite (slot_nth b w) by (done || lia). rewrite Hsl by lia. f_equal. apply eq_None_not_Some. intros [ss E]. apply Hd in E. lia.
Qed.

(** The ring, possibly without symbols. *)
Definition ring_ok (b : ring) (w : window) : Prop :=
  stands_for b w \/
  (max_size b = w_size w /\ 0 < w_size w < 2 ^ 31 /\ current_size b = 0 /\ w_last w < w_first w /\ w_map w = ∅).

Lemma empty_add_ok b w ss : max_size b = w_size w -> 0 < w_size w < 2 ^ 31 -> current_size b = 0 -> w_last w < w_first w ->
  1 <= id_of ss < 2 ^ 31 ->
  exists b', ring_add b ss = Some (b', []) /\ stands_for b' (window_add w ss).
Proof.
  intros Hs Hm Hc Hl Hid. unfold ring_add, window_add. rewrite Hc. cbn [Z.ltb Z.compare andb Z.eqb].
  destruct (Z.ltb_spec (w_last w) (w_first w)); [|lia]. rewrite Hs. unfold WINDOW_INITIAL_SYMBOL_ID.
  assert (Ef : (if w_size w <=? id_of ss then Z.max 1 (u32 (id_of ss - (w_size w - 1))) else 1) = Z.max 1 (id_of ss - w_size w + 1)).
  { destruct (Z.leb_spec (w_size w) (id_of ss)); [rewrite u32_small by lia; lia|lia]. }
  rewrite Ef. set (first := Z.max 1 (id_of ss - w_size w + 1)).
  assert (Hfirst : 1 <= first <= id_of ss /\ id_of ss < first + w_size w) by (unfold first; lia).
  rewrite (u32_small (id_of ss + 1 - first)) by lia. rewrite Z.min_r by lia. rewrite u32_small by lia.
  unfold set_slot. cbn [array]. rewrite lookup_replicate_2 by lia. cbn [mbind option_bind]. eexists. split; [done|].
  split; cbn [with_array max_size current_size first_index first_id array w_size w_first w_last w_map];
    unfold WINDOW_INITIAL_SYMBOL_ID; try (done || lia).
  - rewrite length_insert, length_replicate. done.
  - intros j Hj. unfold nth_slot. cbn [first_index max_size with_array]. rewrite Z.add_0_l, Z.mod_small by lia.
    destruct (Z.eq_dec j (id_of ss + 1 - first - 1)) as [->|Hne].
    + rewrite list_lookup_insert_eq by (rewrite length_replicate; lia). f_equal.
      replace (first + (id_of ss + 1 - first - 1)) with (id_of ss) by lia. by rewrite lookup_singleton_eq.
    + rewrite list_lookup_insert_ne by lia. rewrite lookup_replicate_2 by lia. by rewrite lookup_singleton_ne by lia.
  - intros id x [<- <-]%lookup_singleton_Some. lia.
Qed.

Lemma ring_add_ok b w ss : ring_ok b w -> 1 <= id_of ss < 2 ^ 31 -> (w_first w <= w_last w -> id_of ss < w_last w + w_size w) ->
  exists b' f, ring_add b ss = Some (b', f) /\ stands_for b' (window_add w ss) /\
    forall x, x ∈ f <-> exists id, w_map w !! id = Some x /\ id < w_first (window_add w ss).
Proof.
  intros [H|(Hs & Hm & Hc & Hl & Hmap)] Hid Hgap.
  2:{ destruct (empty_add_ok b w ss) as (b' & E & Hb'); [done..|]. exists b', []. split_and!; [done|done|].
      intros x. rewrite Hmap. split; [by intros ?%elem_of_nil|]. intros (id & Hx & _). by rewrite lookup_empty in Hx. }
  pose proof H as [Hs Hm Ha Hf Hc Hb Hi Hsl Hd]. unfold WINDOW_INITIAL_SYMBOL_ID in Hb. specialize (Hgap ltac:(lia)).
  unfold ring_add, window_add. rewrite (stands_last b w H), Hf.
  destruct (Z.ltb_spec 0 (current_size b)); [|lia]. destruct (Z.eqb_spec (current_size b) 0); [lia|]. cbn [andb].
  destruct (Z.ltb_spec (w_last w) (w_first w)); [lia|]. destruct (Z.ltb_spec (w_last w) (id_of ss)) as [Hlt|Hge].
  - rewrite u32_small, Hs by lia. destruct (Z.ltb_spec (w_size w) (id_of ss - w_last w)); [lia|].
    destruct (make_room_ok (id_of ss - w_last w) (Z.to_nat (current_size b)) b w H) as (b1 & f & E1 & Hr1 & Hfr); [lia|lia|].
    replace (w_last w + (id_of ss - w_last w) - w_size w + 1) with (id_of ss - w_size w + 1) in * by lia.
    rewrite E1. cbn [mbind option_bind]. cbv zeta in Hr1, Hfr.
    set (first := Z.max (w_first w) (id_of ss - w_size w + 1)) in *.
    rewrite (stands_last _ _ Hr1). cbn [w_last]. rewrite u32_small by lia.
    rewrite free_empty_slots by (eapply slots_between_empty; [exact Hr1|cbn [w_last]; lia|cbn [w_first w_size]; unfold first; lia]).
    cbn [mbind option_bind]. pose proof (extend_ok b1 _ (id_of ss) Hr1) as Hx. cbn [w_size w_first w_last w_map] in Hx.
    specialize (Hx ltac:(unfold first; lia) ltac:(lia)).
    destruct (set_slot_ok _ _ ss Hx) as (b2 & E2 & Hr2 & M & C & I & F); [cbn [w_first w_last]; unfold first; lia|].
    unfold set_slot in *. cbn [array] in E2.
    change (slot (Ring _ _ _ _ _) (id_of ss)) with (slot b1 (id_of ss)) in E2.
    destruct (array b1 !! slot b1 (id_of ss)) eqn:El; [|done]. cbn [mbind option_bind] in E2 |- *. injection E2 as <-.
    eexists _, _. split_and!; [done| |].
    + cbn [with_array max_size current_size first_index first_id array w_size w_first w_last w_map] in *.
      replace (u32 _) with (id_of ss - first + 1); [exact Hr2|].
      change (last_id (with_array b1 _)) with (last_id b1). rewrite (stands_last _ _ Hr1). cbn [w_last].
      pose proof (sf_current _ _ Hr1) as Hc1. cbn [w_last w_first] in Hc1. rewrite Hc1.
      rewrite (u32_small (_ - w_last w)) by lia. rewrite u32_small; unfold first; lia.
    + rewrite app_nil_r. exact Hfr.
  - destruct (Z.ltb_spec (id_of ss) (w_first w)).
    + eexists _, _. split_and!; [done|done|]. intros x. split; [by intros ?%elem_of_nil|]. intros (id & Hx & ?). apply Hd in Hx. lia.
    + destruct (set_slot_ok b w ss H) as (b' & E & Hb' & _); [lia|]. rewrite E. cbn [mbind option_bind].
      eexists _, _. split_and!; [done|done|]. cbn [w_first]. intros x. split; [by intros ?%elem_of_nil|].
      intros (id & Hx & ?). apply Hd in Hx. lia.
Qed.

(** *** Sequences of symbols *)

Fixpoint add_all (b : ring) (l : list A) : option ring :=
  match l with
  | [] => Some b
  | ss :: l => '(b, _) ← ring_add b ss; add_all b l
  end.

Definition empty_window (size : Z) : window := Window size 1 0 ∅.

(** No symbol is a whole buffer or more ahead of the newest one before it. *)
Fixpoint small_gaps (w : window) (l : list A) : Prop :=
  match l with
  | [] => True
  | ss :: l => 1 <= id_of ss < 2 ^ 31 /\ (w_first w <= w_last w -> id_of ss < w_last w + w_size w) /\ small_gaps (window_add w ss) l
  end.

Lemma add_all_ok l : forall b w, ring_ok b w -> small_gaps w l -> exists b', add_all b l = Some b' /\ ring_ok b' (foldl window_add w l).
Proof.
  induction l as [|ss l IH]; intros b w Hb Hl; cbn [add_all foldl small_gaps] in *; [eauto|].
  destruct Hl as (Hid & Hg & Hl). destruct (ring_add_ok b w ss Hb Hid Hg) as (b1 & f & E & Hb1 & _).
  rewrite E. cbn [mbind option_bind]. apply IH; [by left|done].
Qed.

Lemma add_all_stands l b w : ring_ok b w -> small_gaps w l -> l <> [] ->
  exists b', add_all b l = Some b' /\ stands_for b' (foldl window_add w l).
Proof.
  destruct l as [|ss l]; [done|]. intros Hb Hl _. cbn [add_all foldl small_gaps] in *.
  destruct Hl as (Hid & Hg & Hl). destruct (ring_add_ok b w ss Hb Hid Hg) as (b1 & f & E & Hb1 & _). rewrite E. cbn [mbind option_bind].
  clear E Hb Hid Hg. revert b1 Hb1. generalize (window_add w ss), Hl. clear. induction l as [|ss l IH]; intros w Hl b Hb; cbn [add_all foldl small_gaps] in *; [eauto|].
  destruct Hl as (Hid & Hg & Hl). destruct (ring_add_ok b w ss (or_introl Hb) Hid Hg) as (b1 & f & E & Hb1 & _).
  rewrite E. cbn [mbind option_bind]. by apply IH.
Qed.

Lemma add_all_app l1 l2 b : add_all b (l1 ++ l2) = (b ← add_all b l1; add_all b l2).
Proof.
  revert b. induction l1 as [|ss l1 IH]; intros b; cbn [app add_all]; [done|].
  destruct (ring_add b ss) as [[b1 f]|]; [|done]. cbn [mbind option_bind]. apply IH.
Qed.

Lemma foldl_window_size l : forall w, w_size (foldl window_add w l) = w_size w.
Proof.
  induction l as [|ss l IH]; intros w; cbn [foldl]; [done|]. rewrite IH. unfold window_add. by repeat case_match.
Qed.

(** *** A jump ahead *)

Lemma free_slots_all (b : ring) l : Forall (fun i => (i < length (array b))%nat) l ->
  exists a f, free_slots b l = Some (with_array b a, f) /\ length a = length (array b) /\
    forall i, (i < length (array b))%nat -> i ∈ l \/ array b !! i = Some None -> a !! i = Some None.
Proof.
  revert b. induction l as [|i l IH]; intros b Hl; cbn [free_slots].
  - exists (array b), []. split_and!; [by destruct b|done|]. intros i _ [H|H]; [by apply elem_of_nil in H|done].
  - inversion_clear Hl as [|? ? Hi Hl']. unfold free_slot. destruct (lookup_lt_is_Some_2 _ _ Hi) as [x Ex]. rewrite Ex. cbn [mbind option_bind].
    destruct (IH (with_array b (<[i:=None]> (array b)))) as (a & f & E & Hlen & Ha).
    { eapply list.Forall_impl; [exact Hl'|]. intros j Hj. cbn. by rewrite length_insert. }
    rewrite E. cbn [mbind option_bind with_array array] in *. rewrite length_insert in *. exists a. eexists. split_and!; [done|done|].
    intros j Hj Hin. apply Ha; [done|]. destruct (decide (i = j)) as [->|Hne].
    + right. by rewrite list_lookup_insert_eq.
    + rewrite list_lookup_insert_ne by done. destruct Hin as [[->|?]%elem_of_cons|?]; [done|by left|by right].
Qed.

Lemma far_jump b w ss : stands_for b w -> w_last w + w_size w < id_of ss < 2 ^ 31 ->
  exists b' f, ring_add b ss = Some (b', f) /\ forall id, ring_contains b' id = Some false.
Proof.
  intros H Hid. pose proof H as [Hs Hm Ha Hf Hc Hb Hi Hsl Hd]. unfold WINDOW_INITIAL_SYMBOL_ID in Hb.
  unfold ring_add. rewrite (stands_last b w H). destruct (Z.ltb_spec 0 (current_size b)); [|lia].
  destruct (Z.ltb_spec (w_last w) (id_of ss)); [|lia]. cbn [andb]. rewrite u32_small, Hs by lia.
  destruct (Z.ltb_spec (w_size w) (id_of ss - w_last w)); [|lia].
  destruct (free_slots_all b (seq 0 (Z.to_nat (w_size w)))) as (a & f & E & Hlen & Hnone).
  { apply list.Forall_forall. intros i Hin%elem_of_seq. lia. }
  rewrite E. cbn [mbind option_bind]. eexists _, _. split; [done|]. intros id. unfold ring_contains. destruct (_ || _); [done|].
  cbn [array with_array]. assert (Hsl' : forall b' : ring, max_size b' = w_size w -> (slot b' id < length (array b))%nat).
  { intros b' Hb'. unfold slot. rewrite Hb', Ha. apply Z2Nat.inj_lt; [apply Z.mod_pos_bound; lia|lia|apply Z.mod_pos_bound; lia]. }
  rewrite Hnone; [done|by apply Hsl'|]. left. apply elem_of_seq. rewrite Ha in Hsl'. split; [lia|]. cbn. by apply Hsl'.
Qed.

End Ring.
Arguments ring : clear implicits.
Arguments window : clear implicits.

(** ** The tracker *)

Abbreviation intervals := (list (Z * Z)).

(** The loop over the intervals: those already passed, in order, and the rest. *)
Fixpoint tracker_loop (malloc_ok : bool) (passed : intervals) (l : intervals) (received : Z) : option (bool * intervals) :=
  match l with
  | [] => match passed with
          | [] => None      (* previous->next of a null pointer *)
          | _ => if malloc_ok then Some (true, passed ++ [(received, u32 (received + 1))]) else Some (false, passed)
          end
  | (s, e) :: l' =>
    if received =? u32 (s - 1) then
      let s' := u32 (s - 1) in
      match list.last passed with
      | Some (ps, pe) =>
        if pe =? s' then Some (true, removelast passed ++ (ps, e) :: l') else Some (true, passed ++ (s', e) :: l')
      | None => Some (true, passed ++ (s', e) :: l')
      end
    else if received =? e then
      let e' := u32 (e + 1) in
      match l' with
      | (ns, ne) :: l'' => if ns =? e' then Some (true, passed ++ (s, ne) :: l'') else Some (true, passed ++ (s, e') :: l')
      | [] => Some (true, passed ++ [(s, e')])
      end
    else if received <? s then
      match passed with
      | [] => None
      | _ => if malloc_ok then Some (true, passed ++ (received, u32 (received + 1)) :: l) else Some (false, passed ++ l)
      end
    else if received <? e then Some (true, passed ++ l)
    else tracker_loop malloc_ok (passed ++ [(s, e)]) l' received
  end.

(** [tracker_receive_source_symbol]: the code is 0 or PICOQUIC_ERROR_MEMORY. *)
Definition tracker_receive_source_symbol (malloc_ok : bool) (t : intervals) (received : Z) : option (bool * intervals) :=
  match t with
  | [] => if malloc_ok then Some (true, [(received, u32 (received + 1))]) else Some (false, [])
  | _ => tracker_loop malloc_ok [] t received
  end.

Definition create_received_symbols_tracker (malloc_ok malloc_node_ok : bool) (initial : Z) : option intervals :=
  if malloc_ok && malloc_node_ok then Some [(0, initial)] else None.

(** The difference is unsigned, the result an [int]. *)
Definition get_highest_contiguous_received_source_symbol (t : intervals) : option Z :=
  match t with [] => None | (_, e) :: _ => Some (s32 (u32 (e - 1))) end.

(** *** The tracker stands for a set *)

Definition member (x : Z) (l : intervals) : Prop := Exists (fun i => i.1 <= x < i.2) l.

Fixpoint chain (lo : Z) (l : intervals) : Prop :=
  match l with [] => True | (s, e) :: l' => lo < s /\ s < e /\ e < 2 ^ 32 /\ chain e l' end.

Definition last_end (lo : Z) (l : intervals) : Z := foldl (fun _ i => i.2) lo l.

Lemma chain_app lo l1 l2 : chain lo (l1 ++ l2) <-> chain lo l1 /\ chain (last_end lo l1) l2.
Proof. revert lo. induction l1 as [|[s e] l1 IH]; intros lo; cbn; [tauto|]. rewrite IH. tauto. Qed.

Lemma interval_end_snoc lo l i : last_end lo (l ++ [i]) = i.2.
Proof. unfold last_end. by rewrite foldl_app. Qed.

Lemma interval_end_last lo l : last_end lo l = match list.last l with Some i => i.2 | None => lo end.
Proof. destruct l as [|i l _] using rev_ind; [done|]. rewrite interval_end_snoc. by rewrite last_snoc. Qed.

Lemma member_app x l1 l2 : member x (l1 ++ l2) <-> member x l1 \/ member x l2.
Proof. apply Exists_app. Qed.
Lemma member_cons x s e l : member x ((s, e) :: l) <-> s <= x < e \/ member x l.
Proof. unfold member. rewrite Exists_cons. done. Qed.
Lemma member_nil x : member x [] <-> False.
Proof. unfold member. by rewrite Exists_nil. Qed.

Lemma chain_above lo l x : chain lo l -> member x l -> lo < x.
Proof.
  revert lo. induction l as [|[s e] l IH]; intros lo Hc Hm; [by apply member_nil in Hm|]. cbn in Hc. destruct Hc as (? & ? & ? & Hc).
  apply member_cons in Hm as [?|Hm]; [lia|]. specialize (IH _ Hc Hm). lia.
Qed.

Lemma chain_last_end lo l : chain lo l -> lo <= last_end lo l.
Proof.
  revert lo. induction l as [|[s e] l IH]; intros lo Hc; cbn in *; [lia|]. destruct Hc as (? & ? & ? & Hc). apply IH in Hc. unfold last_end in *. lia.
Qed.

(** What a call may do: record the id, or, without memory, leave everything. *)
Definition recorded (malloc_ok : bool) (old : intervals) (received : Z) (r : option (bool * intervals)) : Prop :=
  match r with
  | None => False
  | Some (true, t) => chain (-1) t /\ (exists e l, t = (0, e) :: l) /\ forall x, member x t <-> member x old \/ x = received
  | Some (false, t) => malloc_ok = false /\ t = old
  end.

Lemma starts_app (passed l l' : intervals) :
  (exists e l0, passed ++ l' = (0, e) :: l0) -> passed <> [] -> exists e l0, passed ++ l = (0, e) :: l0.
Proof. intros (e1 & l1 & E) Hne. destruct passed as [|i p]; [done|]. injection E as -> _. by eexists _, _. Qed.

(** Replacing the part [l] of the list behind [passed] by [l']. *)
Lemma recorded_by malloc_ok (passed l l' : intervals) received :
  chain (-1) passed -> chain (last_end (-1) passed) l' -> (exists e l0, passed ++ l' = (0, e) :: l0) ->
  (forall x, member x l' <-> member x l \/ x = received) ->
  recorded malloc_ok (passed ++ l) received (Some (true, passed ++ l')).
Proof.
  intros Hp Hl' H0 Hm. split_and!; [by apply chain_app|done|]. intros x. rewrite !member_app, Hm. tauto.
Qed.

Lemma tracker_loop_ok malloc_ok received : 0 <= received < 2 ^ 32 - 1 -> forall l passed,
  chain (-1) (passed ++ l) -> (exists e l', passed ++ l = (0, e) :: l') -> (passed = [] \/ last_end (-1) passed < received) ->
  recorded malloc_ok (passed ++ l) received (tracker_loop malloc_ok passed l received).
Proof.
  intros Hr l. induction l as [|[s e] l IH]; intros passed Hc H0 Hp; cbn [tracker_loop].
  all: pose proof Hc as Hc'; apply chain_app in Hc' as [Hcp Hcl].
  - assert (Hne : passed <> []) by (intros ->; destruct H0 as (? & ? & ?); done).
    destruct Hp as [|Hp]; [done|]. destruct passed as [|i p]; [done|]. destruct malloc_ok; [|by rewrite app_nil_r].
    rewrite u32_small by lia. apply recorded_by; [done|cbn [chain]; lia|by eapply starts_app|].
    intros x. rewrite member_cons, member_nil. lia.
  - cbn [chain] in Hcl. destruct Hcl as (Hs & Hse & He & Hcl).
    assert (Hs0 : passed <> [] \/ s = 0). { destruct passed; [|by left]. destruct H0 as (? & ? & E). injection E as -> _ _. by right. }
    pose proof (chain_last_end _ _ Hcp) as Hpos.
    destruct (Z.eqb_spec received (u32 (s - 1))) as [Er|Er].
    { assert (s <> 0) by (intros ->; unfold u32 in Er; vm_compute in Er; lia). destruct Hs0 as [Hne|]; [|done]. destruct Hp as [|Hp]; [done|].
      assert (Eu : u32 (s - 1) = s - 1) by (apply u32_small; lia). rewrite Eu in *.
      assert (Hr1 : recorded malloc_ok (passed ++ (s, e) :: l) received (Some (true, passed ++ (s - 1, e) :: l))).
      { apply recorded_by; [done|cbn [chain]; split_and!; (done || lia)|by eapply starts_app|].
        intros x. rewrite !member_cons. assert (x = received \/ x <> received) by lia. intuition lia. }
      rewrite interval_end_last in Hp. destruct (list.last passed) as [[ps pe]|]; [|done]. cbn [snd] in Hp.
      destruct (Z.eqb_spec pe (s - 1)); [lia|done]. }
    assert (Hns : received <> s - 1). { intros ->. apply Er. rewrite u32_small; lia. }
    destruct (Z.eqb_spec received e) as [->|Hne].
    { rewrite u32_small by lia.
      assert (H0' : forall l1 e1, exists e' l0, passed ++ (s, e1) :: l1 = (0, e') :: l0).
      { intros l1 e1. destruct passed; [|by eapply starts_app]. destruct Hs0 as [?| ->]; [done|]. by eexists _, _. }
      destruct l as [|[ns ne] l].
      - apply recorded_by; [done|cbn [chain]; lia|apply H0'|]. intros x. rewrite !member_cons. intuition lia.
      - cbn [chain] in Hcl. destruct Hcl as (? & ? & ? & Hcl). destruct (Z.eqb_spec ns (e + 1)) as [->|].
        + apply recorded_by; [done|cbn [chain]; split_and!; (done || lia)|apply H0'|]. intros x. rewrite !member_cons. intuition lia.
        + apply recorded_by; [done|cbn [chain]; split_and!; (done || lia)|apply H0'|]. intros x. rewrite !member_cons. intuition lia. }
    destruct (Z.ltb_spec received s).
    { destruct Hs0 as [Hnp|]; [|lia]. destruct Hp as [|Hp]; [done|]. destruct passed as [|i p]; [done|]. destruct malloc_ok; [|done].
      rewrite u32_small by lia. apply recorded_by; [done|cbn [chain]; split_and!; (done || lia)|by eapply starts_app|].
      intros x. rewrite !member_cons. intuition lia. }
    destruct (Z.ltb_spec received e).
    { split_and!; [done|done|]. intros x. rewrite !member_app, !member_cons. intuition lia. }
    specialize (IH (passed ++ [(s, e)])). rewrite <- app_assoc in IH. apply IH; [done|done|]. right. rewrite interval_end_snoc. cbn. lia.
Qed.

(** The calls of a receiver, all of which find memory. *)
Fixpoint track_all (t : intervals) (l : list Z) : option intervals :=
  match l with
  | [] => Some t
  | x :: l => '(_, t) ← tracker_receive_source_symbol true t x; track_all t l
  end.

Lemma track_all_ok l : forall t, Forall (fun x => 0 <= x < 2 ^ 32 - 1) l ->
  chain (-1) t -> (exists e l0, t = (0, e) :: l0) ->
  exists t', track_all t l = Some t' /\ chain (-1) t' /\ (exists e l0, t' = (0, e) :: l0) /\ forall x, member x t' <-> member x t \/ x ∈ l.
Proof.
  induction l as [|y l IH]; intros t Hl Hc H0; cbn [track_all].
  - exists t. split_and!; [done..|]. intros x. pose proof (not_elem_of_nil x). tauto.
  - inversion_clear Hl as [|? ? Hy Hl']. pose proof (tracker_loop_ok true y Hy t [] Hc H0 (or_introl eq_refl)) as Ht.
    destruct H0 as (e & l0 & ->). cbn [tracker_receive_source_symbol]. cbn [app] in Ht.
    destruct (tracker_loop true [] _ y) as [[[ | ] t1]|]; [|by destruct Ht|done]. destruct Ht as (Hc1 & H1 & Hm1).
    cbn [mbind option_bind]. destruct (IH t1 Hl' Hc1 H1) as (t' & E & Hc' & H' & Hm'). exists t'. split_and!; [done..|].
    intros x. rewrite Hm', Hm1, elem_of_cons. tauto.
Qed.

(** The end of the first interval is the first id that is missing. *)
Lemma first_gap e l : chain (-1) ((0, e) :: l) -> ~ member e ((0, e) :: l) /\ forall x, 0 <= x < e -> member x ((0, e) :: l).
Proof.
  cbn [chain]. intros (_ & ? & _ & Hc). split.
  - rewrite member_cons. intros [?|Hm]; [lia|]. apply (chain_above _ _ _ Hc) in Hm. lia.
  - intros x Hx. apply member_cons. by left.
Qed.

(** After any sequence of symbols none of which is a whole buffer ahead of the newest one before it, whatever the array
    held when it was allocated, the ring answers [get] and [contains] for every id as the window of
    the last [size] ids does: the last symbol stored for the id, nothing for an id that has left the window. *)
Theorem ring_refines_window {A} (id_of : A -> Z) (size : Z) (garbage : list (option A)) (l : list A) b :
  0 < size < 2 ^ 31 -> new_ring size true (Some garbage) = Some b -> l <> [] -> small_gaps id_of (empty_window size) l ->
  exists b', add_all id_of b l = Some b' /\
    let w := foldl (window_add id_of) (empty_window size) l in
    forall id, ring_get b' id = Some (w_map w !! id) /\ ring_contains id_of b' id = Some (bool_decide (is_Some (w_map w !! id))).
Proof.
  unfold new_ring. intros Hs E Hne Hl. destruct (Z.eqb_spec size 0); [done|]. cbn [mbind option_bind] in E. injection E as <-. rewrite u32_small by lia.
  destruct (add_all_stands id_of l (Ring size 0 0 0 garbage) (empty_window size)) as (b' & E & Hb'); [|done..|].
  - right. cbn [max_size current_size empty_window w_size w_first w_last w_map]. split_and!; (done || lia).
  - exists b'. split; [done|]. intros id. split; [by eapply ring_get_ok|by apply ring_contains_ok].
Qed.

Lemma ring_refines_window_witness :
  exists b', add_all id (Ring 2 0 0 0 [Some 7; Some 7]) [1; 2; 3] = Some b' /\ ring_get b' 1 = Some None /\ ring_get b' 3 = Some (Some 3).
Proof.
  destruct (ring_refines_window id 2 [Some 7; Some 7] [1; 2; 3] (Ring 2 0 0 0 [Some 7; Some 7])) as (b' & E & Hb');
    [lia|reflexivity|done|vm_compute; intuition discriminate|].
  exists b'. split; [exact E|]. split; [exact (proj1 (Hb' 1))|exact (proj1 (Hb' 3))].
Defined.

(** A symbol more than a whole buffer ahead empties the ring and is not stored itself. *)
Theorem ring_jump_loses {A} (id_of : A -> Z) (size : Z) (garbage : list (option A)) (l : list A) ss b :
  0 < size < 2 ^ 31 -> new_ring size true (Some garbage) = Some b -> l <> [] -> small_gaps id_of (empty_window size) l ->
  w_last (foldl (window_add id_of) (empty_window size) l) + size < id_of ss < 2 ^ 31 ->
  exists b', add_all id_of b (l ++ [ss]) = Some b' /\ forall id, ring_contains id_of b' id = Some false.
Proof.
  unfold new_ring. intros Hs E Hne Hl Hj. destruct (Z.eqb_spec size 0); [done|]. cbn [mbind option_bind] in E. injection E as <-. rewrite u32_small by lia.
  destruct (add_all_stands id_of l (Ring size 0 0 0 garbage) (empty_window size)) as (b' & E & Hb'); [|done..|].
  - right. cbn [max_size current_size empty_window w_size w_first w_last w_map]. split_and!; (done || lia).
  - destruct (far_jump id_of b' _ ss Hb') as (b2 & f & E2 & Hc); [by rewrite foldl_window_size|].
    exists b2. split; [|done]. rewrite add_all_app, E. cbn [mbind option_bind add_all]. by rewrite E2.
Qed.

Lemma ring_jump_loses_witness :
  exists b', add_all id (Ring 2 0 0 0 [Some 7; Some 7]) ([1; 2] ++ [5]) = Some b' /\ ring_contains id b' 5 = Some false.
Proof.
  destruct (ring_jump_loses id 2 [Some 7; Some 7] [1; 2] 5 (Ring 2 0 0 0 [Some 7; Some 7])) as (b' & E & Hb');
    [lia|reflexivity|done|vm_compute; intuition discriminate|vm_compute; done|].
  exists b'. split; [exact E|exact (Hb' 5)].
Defined.

(** A symbol exactly a whole buffer ahead leaves a ring that claims more symbols than it has room for: the
    ids restart at 0, the slot of the new symbol also answers for the id 2, and the next
    symbol frees it. *)
Example ring_exact_jump :
  let b := Ring 2 5 0 0 [Some 4; None] in
  ring_add id (Ring 2 2 0 1 [Some 1; Some 2]) 4 = Some (b, [1; 2]) /\ ring_get b 2 = Some (Some 4) /\
  ring_add id b 5 = Some (Ring 2 2 0 4 [None; Some 5], [4]) /\ ring_contains id (Ring 2 2 0 4 [None; Some 5]) 4 = Some false.
Proof. split_and!; vm_compute; reflexivity. Qed.

(** Whatever the order of the symbols, and with duplicates, the tracker keeps disjoint, separated intervals, in order, whose
    union is the ids received with the id 0, and
    [get_highest_contiguous_received_source_symbol] is the id before the first one that is missing. *)
Theorem tracker_refines_set (l : list Z) :
  Forall (fun x => 1 <= x < 2 ^ 31) l ->
  exists t, (t0 ← create_received_symbols_tracker true true WINDOW_INITIAL_SYMBOL_ID; track_all t0 l) = Some t /\
    chain (-1) t /\ (forall x, member x t <-> x = 0 \/ x ∈ l) /\
    exists h, get_highest_contiguous_received_source_symbol t = Some h /\ (h + 1 ∉ l) /\ forall x, 1 <= x <= h -> x ∈ l.
Proof.
  intros Hl. destruct (track_all_ok l [(0, 1)]) as (t & E & Hc & (e & l0 & ->) & Hm).
  { eapply list.Forall_impl; [exact Hl|]. cbn. lia. }
  { cbn. lia. }
  { by eexists _, _. }
  assert (Hm' : forall x, member x ((0, e) :: l0) <-> x = 0 \/ x ∈ l).
  { intros x. rewrite Hm, member_cons, member_nil. intuition lia. }
  destruct (first_gap e l0 Hc) as [Hgap Hall]. rewrite Hm' in Hgap.
  assert (He : 0 < e <= 2 ^ 31).
  { cbn [chain] in Hc. split; [lia|]. destruct (Z.eq_dec (e - 1) 0); [lia|]. specialize (Hall (e - 1) ltac:(lia)).
    apply Hm' in Hall as [?|Hin]; [lia|]. rewrite list.Forall_forall in Hl. specialize (Hl _ Hin). lia. }
  exists ((0, e) :: l0). split_and!; [done..|]. exists (e - 1). cbn [get_highest_contiguous_received_source_symbol].
  rewrite u32_small, s32_small by lia. split_and!; [done| |].
  - replace (e - 1 + 1) with e by lia. tauto.
  - intros x Hx. specialize (Hall x ltac:(lia)). apply Hm' in Hall as [?|?]; [lia|done].
Qed.

Lemma tracker_refines_set_witness :
  exists t, track_all [(0, 1)] [3; 1; 5; 2] = Some t /\ member 5 t.
Proof.
  destruct (tracker_refines_set [3; 1; 5; 2]) as (t & E & _ & Hm & _); [repeat (constructor; [lia|]); constructor|].
  exists t. split; [exact E|]. apply Hm. right. apply list_elem_of_In. cbn. tauto.
Defined.

End WindowBuffers.
