(* ===== verification/FecFrames.v ===== *)
(** * The frames of the FEC window framework

    plugins/simple_fec/window_framework/
      types.h                repair, window and recovered frames, written and parsed
      framework_receiver.h   filling a recovered frame within a number of bytes
    plugins/simple_fec/utils.h   integers of a fixed number of bytes

    A writer gives the bytes it writes; a parser takes the bytes up to [bytes_max].  [None] is a
    read or a write outside of the object, or the use of a block that [my_malloc] did not give;
    [inl] is the error code that the C function returns. *)
From stdpp Require Import base list gmap numbers.
From Stdlib Require Import ZArith Lia Bool.
From S2P Require Import Prelude IntFormat RedBlackTree.
#[local] Open Scope Z_scope.

Module FecFrames.
Import IntFormat.

Definition PICOQUIC_ERROR_MEMORY : Z := 0x400 + 5.
Definition PICOQUIC_ERROR_FRAME_BUFFER_TOO_SMALL : Z := 0x400 + 16.
Definition MAX_WINDOW_SOURCE_SYMBOL_ID : Z := 2 ^ 32 - 1.

(** ** Integers *)

Definition decode_un (bytes : list Z) (n : nat) : option Z :=
  if (length bytes <? n)%nat then None
  else Some (foldl (fun retval b => u64 (u64 (Z.shiftl retval 8) + b)) 0 (take n bytes)).

Definition encode_un (to_encode : Z) (n : nat) : list Z :=
  (fun i => u8 (Z.shiftr to_encode (8 * (Z.of_nat n - Z.of_nat i - 1)))) <$> seq 0 n.

Definition decode_u32 (bytes : list Z) : option Z := v ← decode_un bytes 4; Some (u32 v).
Definition decode_u64 (bytes : list Z) : option Z := decode_un bytes 8.
Definition encode_u32 (v : Z) : list Z := encode_un v 4.
Definition encode_u64 (v : Z) : list Z := encode_un v 8.

(** ** Repair frames *)

Record repair_symbols_metadata := Metadata { fss : list Z; first_id : Z; n_protected_symbols : Z }.
Record repair_symbol := RepairSymbol { metadata : repair_symbols_metadata; repair_payload : list Z }.

Record repair_frame := RepairFrame {
  f_fss : list Z;
  first_protected_symbol : Z;
  f_n_protected_symbols : Z;
  n_repair_symbols : Z;
  symbols : list repair_symbol
}.

Definition REPAIR_FRAME_HEADER_SIZE : Z := 4 + 4 + 2 + 2.

Definition serialize_window_source_symbol_id (buffer_length id : Z) : Z + list Z :=
  if buffer_length <? 4 then inl PICOQUIC_ERROR_FRAME_BUFFER_TOO_SMALL
  else inr (encode_un (Z.lor (Z.land id 0x3FFFFFFF) 0x80000000) 4).

Definition decode_window_source_symbol_id (buffer : list Z) : option (Z + Z) :=
  if (length buffer <? 4)%nat then Some (inl PICOQUIC_ERROR_MEMORY)
  else id ← decode_u32 buffer; Some (inr (Z.land id 0x3FFFFFFF)).

(** The symbols behind the header; [payload_length] of a symbol is the length of its payload. *)
Fixpoint serialize_symbols (symbol_size : Z) (l : list repair_symbol) : Z + list Z :=
  match l with
  | [] => inr []
  | s :: l =>
    if Z.of_nat (length (repair_payload s)) =? symbol_size then
      match serialize_symbols symbol_size l with inl e => inl e | inr out => inr (repair_payload s ++ out) end
    else inl (-1)
  end.

Definition serialize_window_repair_frame (buffer_length : Z) (rf : repair_frame) (symbol_size : Z) : Z + list Z :=
  if buffer_length <? u64 (REPAIR_FRAME_HEADER_SIZE + s32 (n_repair_symbols rf * symbol_size)) then inl PICOQUIC_ERROR_FRAME_BUFFER_TOO_SMALL
  else match serialize_window_source_symbol_id buffer_length (first_protected_symbol rf) with
       | inl e => inl e
       | inr id =>
         match serialize_symbols symbol_size (symbols rf) with
         | inl e => inl e
         | inr payload =>
           inr (f_fss rf ++ id ++ encode_un (f_n_protected_symbols rf) 2 ++ encode_un (n_repair_symbols rf) 2 ++ payload)
         end
       end.

(** The loop over the symbols: [k] is the index of the next one. *)
Fixpoint parse_symbols (n : nat) (k : Z) (base_fss first n_protected symbol_size : Z) (bytes : list Z) : option (list repair_symbol) :=
  match n with
  | O => Some []
  | S n =>
    let size := Z.to_nat symbol_size in
    if (length bytes <? size)%nat then None
    else
      rest ← parse_symbols n (k + 1) base_fss first n_protected symbol_size (drop size bytes);
      Some (RepairSymbol (Metadata (encode_u32 (u32 (base_fss + k))) first n_protected) (take size bytes) :: rest)
  end.

(** [malloc_ok] tells of the frame, of the array and of the symbols; a symbol without memory ends in a
    frame that is freed twice. The frame and what is consumed; [Some None] is NULL. *)
Definition parse_window_repair_frame (malloc_frame malloc_array malloc_symbols skip : bool) (symbol_size : Z) (bytes : list Z) :
  option (option (repair_frame * Z)) :=
  if negb malloc_frame then Some None
  else if (length bytes <? 4)%nat then None
  else
    id ← decode_window_source_symbol_id (drop 4 bytes);
    match id with
    | inl _ => Some None
    | inr first =>
      n_protected ← decode_un (drop 8 bytes) 2;
      n_repair ← decode_un (drop 10 bytes) 2;
      let body := drop 12 bytes in
      if Z.of_nat (length body) <? u64 (s32 (n_repair * symbol_size)) then Some None
      else
        let rf := RepairFrame (take 4 bytes) first (u16 n_protected) (u16 n_repair) in
        if skip then Some (Some (rf [], 12 + n_repair * symbol_size))
        else if negb malloc_array then Some None
        else if negb malloc_symbols && (0 <? n_repair) then None
        else
          base ← decode_u32 bytes;
          l ← parse_symbols (Z.to_nat n_repair) 0 base first (u16 n_protected) symbol_size body;
          Some (Some (rf l, 12 + n_repair * symbol_size))
    end.

(** ** Window frames *)

Record rwin_frame := Rwin { smallest_id : Z; window_size : Z }.

Definition varint_len (val : Z) : Z := picoquic_varint_len val.

Definition serialize_window_rwin_frame (buffer_length : Z) (f : rwin_frame) : Z + list Z :=
  if buffer_length <? varint_len (smallest_id f) then inl PICOQUIC_ERROR_MEMORY
  else
    let b1 := picoquic_varint_encode buffer_length (smallest_id f) in
    let room := buffer_length - Z.of_nat (length b1) in
    if room <? varint_len (u64 (window_size f)) then inl PICOQUIC_ERROR_MEMORY
    else inr (b1 ++ picoquic_varint_encode room (u64 (window_size f))).

Definition parse_window_rwin_frame (buffer : list Z) : option (Z + rwin_frame * Z) :=
  if (length buffer =? 0)%nat then Some (inl PICOQUIC_ERROR_MEMORY)
  else
    '(c1, decoded) ← picoquic_varint_decode buffer (Z.of_nat (length buffer));
    if MAX_WINDOW_SOURCE_SYMBOL_ID <? decoded then Some (inl (-1))
    else
      let rest := drop (Z.to_nat c1) buffer in
      if (length rest =? 0)%nat then Some (inl PICOQUIC_ERROR_MEMORY)
      else
        '(c2, size) ← picoquic_varint_decode rest (Z.of_nat (length rest));
        if s64 size <? 0 then Some (inl (-2)) else Some (inr (Rwin (u32 decoded) (s64 size), c1 + c2)).

(** ** Recovered frames *)

(** *** Writing *)

(** The loop over the numbers behind the first one: [out] is written so far, [room] is [buffer_length - *consumed]. *)
Fixpoint ranges_writer (room prev range_length : Z) (l : list Z) (out : list Z) : Z + list Z :=
  match l with
  | [] =>
    if 0 <? range_length then
      if room <? 2 then inl (-1) else inr (out ++ picoquic_varint_encode room range_length)
    else inr out
  | pn :: l =>
    if pn <=? prev then inl (-1)
    else if (pn =? u64 (prev + 1)) || (pn =? prev) then ranges_writer room pn (range_length + 1) l out
    else if room <? 2 then inl (-1)
    else
      let b1 := picoquic_varint_encode room range_length in
      let room := room - Z.of_nat (length b1) in
      let b2 := picoquic_varint_encode room (u64 (pn - prev) - 1) in
      ranges_writer (room - Z.of_nat (length b2)) pn 0 l (out ++ b1 ++ b2)
  end.

(** The array has at least one entry, the first 8 bytes behind the count are written without a test. *)
Definition serialize_packet_ranges (buffer_length : Z) (packet_numbers : list Z) (n_packets : Z) : option (Z + list Z) :=
  let b1 := picoquic_varint_encode buffer_length n_packets in
  let room := buffer_length - Z.of_nat (length b1) in
  first ← head packet_numbers;
  if room <? 8 then None
  else
    let l := take (Z.to_nat (n_packets - 1)) (tail packet_numbers) in
    Some (ranges_writer (room - 8) first 0 l (b1 ++ encode_u64 (Z.lor first 0xC000000000000000))).

Definition serialize_window_recovered_frame (malloc_ok : bool) (buffer_length : Z) (packet_numbers ids : list Z) (n_packets : Z) :
  option (Z + list Z) :=
  r ← serialize_packet_ranges buffer_length packet_numbers n_packets;
  match r with
  | inl e => Some (inl e)
  | inr b1 =>
    if negb malloc_ok then Some (inl PICOQUIC_ERROR_MEMORY)
    else
      r2 ← serialize_packet_ranges (buffer_length - Z.of_nat (length b1)) ids n_packets;
      Some (match r2 with inl e => inl e | inr b2 => inr (b1 ++ b2) end)
  end.

(** *** Parsing *)

Record recovered_range := Range { pn : Z; id : Z; n_symbols : Z }.

Definition set_range (a : list recovered_range) (i : nat) (r : recovered_range) : option (list recovered_range) :=
  _ ← a !! i; Some (<[i := r]> a).

(** The variables of the loop of [parse_packets_range]. *)
Record ranges_state := RangesState {
  ranges : list recovered_range;
  n_ranges : nat;
  next_packet_to_check : Z;
  currently_parsed : Z;
  range_is_gap : bool;
  bytes : list Z
}.

(** One round: [Some None] is the error that returns NULL. *)
Definition ranges_step (number_of_packets : Z) (s : ranges_state) : option (option ranges_state) :=
  '(size, range_size) ← picoquic_varint_decode (bytes s) (Z.of_nat (length (bytes s)));
  let rest := drop (Z.to_nat size) (bytes s) in
  if negb (range_is_gap s) then
    if number_of_packets <? u64 (currently_parsed s + range_size) then Some None
    else
      r ← ranges s !! n_ranges s;
      let r := if n_symbols r =? 0 then Range (next_packet_to_check s) (id r) range_size
               else Range (pn r) (id r) (u64 (n_symbols r + range_size)) in
      a ← set_range (ranges s) (n_ranges s) r;
      Some (Some (RangesState a (S (n_ranges s)) (u64 (next_packet_to_check s + range_size))
                    (s32 (currently_parsed s + range_size)) true rest))
  else
    r ← ranges s !! n_ranges s;
    let next := u64 (next_packet_to_check s + range_size) in
    a ← set_range (ranges s) (n_ranges s) (Range next (id r) 1);
    Some (Some (RangesState a (n_ranges s) (u64 (next + 1)) (s32 (currently_parsed s + 1)) false rest)).

Fixpoint ranges_loop (fuel : nat) (number_of_packets : Z) (s : ranges_state) : option (option ranges_state) :=
  if (u64 (currently_parsed s) <? number_of_packets) && (0 <? length (bytes s))%nat then
    match fuel with
    | O => None
    | S fuel =>
      r ← ranges_step number_of_packets s;
      match r with None => Some None | Some s => ranges_loop fuel number_of_packets s end
    end
  else Some (Some s).

(** The part of [parse_packets_range] from the allocation of the array on.
    Two rounds count at least one packet, which bounds their number. *)
Definition parse_ranges (malloc_ok : Z -> bool) (number_of_packets first total : Z) (rest : list Z) :
  option (option (list recovered_range * nat * Z)) :=
  if negb (malloc_ok (u64 (8 + number_of_packets * 24))) then None
  else
    a ← set_range (replicate (Z.to_nat number_of_packets) (Range 0 0 0)) 0 (Range first 0 1);
    r ← ranges_loop (2 * Z.to_nat number_of_packets) number_of_packets (RangesState a 0 (first + 1) 1 false rest);
    match r with
    | None => Some None
    | Some s =>
      let n := if range_is_gap s then n_ranges s else S (n_ranges s) in
      if u64 (currently_parsed s) =? number_of_packets then Some (Some (ranges s, n, total - Z.of_nat (length (bytes s))))
      else Some None
    end.

(** The array of [number_of_packets] ranges, the number of those in use and what is consumed. *)
Definition parse_packets_range (malloc_ok : Z -> bool) (bs : list Z) : option (option (list recovered_range * nat * Z)) :=
  '(size, number_of_packets) ← picoquic_varint_decode bs (Z.of_nat (length bs));
  let rest := drop (Z.to_nat size) bs in
  first ← decode_u64 rest;
  if size =? 0 then Some None
  else parse_ranges malloc_ok number_of_packets (Z.land first 0x3FFFFFFFFFFFFFFF) (Z.of_nat (length bs)) (drop 8 rest).

(** The loop of [parse_ids_range] over the packet ranges from index [i] on; [l] are the ranges of ids from the current one on. *)
Fixpoint assign_ids (fuel : nat) (i : nat) (next_start remaining : Z) (l : list recovered_range) (a : list recovered_range) :
  option (list recovered_range) :=
  match l with
  | [] => Some a
  | cur :: l' =>
    match fuel with
    | O => None
    | S fuel =>
      r ← a !! i;
      a ← set_range a i (Range (pn r) (u32 next_start) (n_symbols r));
      let next := pn cur + n_symbols r in
      let remaining := s32 (remaining - n_symbols r) in
      if remaining =? 0 then
        match l' with
        | [] => assign_ids fuel (S i) next remaining l' a
        | cur' :: _ => assign_ids fuel (S i) (pn cur') (s32 (n_symbols cur')) l' a
        end
      else assign_ids fuel (S i) next remaining l a
    end
  end.

(** Every round goes to the next entry of the array, behind whose end there is nothing to read. *)
Definition parse_ids_range (malloc_ok : Z -> bool) (bs : list Z) (a : list recovered_range) (n_max : nat) :
  option (Z + list recovered_range * Z) :=
  r ← parse_packets_range malloc_ok bs;
  match r with
  | None => Some (inl PICOQUIC_ERROR_MEMORY)
  | Some (ids, n, consumed) =>
    if (n_max <? n)%nat then Some (inl PICOQUIC_ERROR_MEMORY)
    else
      let l := take n ids in
      match l with
      | [] => Some (inr (a, consumed))
      | r0 :: _ => a ← assign_ids (S (length a)) 0 (pn r0) (s32 (n_symbols r0)) l a; Some (inr (a, consumed))
      end
  end.

Definition parse_window_recovered_frame (malloc_ok : Z -> bool) (bs : list Z) : option (option (list recovered_range * Z)) :=
  r ← parse_packets_range malloc_ok bs;
  match r with
  | None => Some None
  | Some (a, n, c1) =>
    r2 ← parse_ids_range malloc_ok (drop (Z.to_nat c1) bs) a n;
    match r2 with
    | inl _ => Some None
    | inr (a, c2) => Some (Some (take n a, c1 + c2))
    end
  end.

(** *** Filling *)

Record range_handler := Handler { current_size : Z; current_range : Z; current_range_size : Z; last_val : Z }.

Definition range_handler_init : range_handler := Handler (8 + 8) 0 1 (-1).

Definition range_add (h : range_handler) (val : Z) : option range_handler :=
  if val <? last_val h then None
  else if last_val h =? -1 then Some (Handler (current_size h + 8) (current_range h) (current_range_size h) val)
  else if (val =? last_val h + 1) || (val =? last_val h) then
    let new_size := varint_len (current_range h + 1) in
    Some (Handler (current_size h + new_size - current_range_size h) (current_range h + 1) new_size val)
  else
    Some (Handler (current_size h + varint_len (current_range h) + varint_len (u64 (val - last_val h - 1))) 0 1 val).

(** The loop of [fill_recovered_frame]: [room] is [max_packets - n_packets], [out] the packets of the frame. *)
Fixpoint fill_loop (room : nat) (tree : RedBlackTree.tree Z) (max_bytes current_pn : Z) (hp hi : range_handler) (out : list (Z * Z)) :
  Z + list (Z * Z) :=
  match room with
  | O => inr out
  | S room =>
    if negb (RedBlackTree.rbt_is_empty tree) && (current_size hp + current_size hi + 1 <? max_bytes) then
      match RedBlackTree.rbt_ceiling tree current_pn with
      | None => inr out
      | Some (pn, id) =>
        match range_add hp (s64 pn), range_add hi (s64 id) with
        | Some hp, Some hi =>
          if max_bytes <? current_size hp + current_size hi + 1 then inr out
          else fill_loop room tree max_bytes (u64 (pn + 1)) hp hi (out ++ [(pn, u32 id)])
        | _, _ => inl (-1)
        end
      end
    else inr out
  end.

Definition max_packets : nat := 1000.

Definition fill_recovered_frame (tree : RedBlackTree.tree Z) (max_bytes : Z) : Z + list (Z * Z) :=
  if max_bytes <? current_size range_handler_init + current_size range_handler_init then inl (-1)
  else fill_loop max_packets tree max_bytes 0 range_handler_init range_handler_init [].

(** ** Lemmas: integers *)

Lemma encode_un_digits v n : encode_un v n = be_digits n v.
Proof.
  unfold encode_un. induction n as [|n IH] in |- *; [done|]. cbn [seq fmap list_fmap be_digits]. f_equal.
  - do 2 f_equal. lia.
  - rewrite <- IH, <- fmap_S_seq, <- list_fmap_compose. apply list_fmap_ext. intros i x _. cbn. do 2 f_equal. lia.
Qed.

Lemma length_encode_un v n : length (encode_un v n) = n.
Proof. by rewrite encode_un_digits, length_be_digits. Qed.

Lemma foldl_be_decode l acc : Forall is_u8 l -> 0 <= acc -> be_decode acc l < 2 ^ 64 ->
  foldl (fun retval b => u64 (u64 (Z.shiftl retval 8) + b)) acc l = be_decode acc l.
Proof.
  revert acc. induction l as [|b l IH]; intros acc Hl Ha Hb; [done|]. inversion_clear Hl as [|? ? Hb8 Hl']. unfold is_u8 in Hb8.
  cbn [foldl be_decode] in *. rewrite Z.shiftl_mul_pow2 by lia. pose proof Hb as Hb'. rewrite be_decode_acc in Hb'.
  pose proof (be_decode_bound l Hl'). assert (0 < 2 ^ (8 * Z.of_nat (length l))) by (apply Z.pow_pos_nonneg; lia).
  assert (acc * 2 ^ 8 + b < 2 ^ 64) by nia. rewrite (u64_small (acc * 2 ^ 8)), u64_small by lia. apply IH; [done|lia|done].
Qed.

Lemma decode_encode_un v n rest : (n <= 8)%nat -> 0 <= v < 2 ^ (8 * Z.of_nat n) -> decode_un (encode_un v n ++ rest) n = Some v.
Proof.
  intros Hn Hv. unfold decode_un. rewrite length_app, length_encode_un. destruct (Nat.ltb_spec (n + length rest) n); [lia|].
  rewrite take_app_length' by (symmetry; apply length_encode_un). f_equal. rewrite encode_un_digits.
  assert (2 ^ (8 * Z.of_nat n) <= 2 ^ 64) by (apply Z.pow_le_mono_r; lia).
  rewrite foldl_be_decode, be_decode_digits, Z.mod_small; [lia|lia|apply be_digits_u8|lia|].
  rewrite be_decode_digits, Z.mod_small by lia. lia.
Qed.

Lemma drop_encode_un v n rest : drop n (encode_un v n ++ rest) = rest.
Proof. apply drop_app_length'. symmetry. apply length_encode_un. Qed.

(** Setting and clearing the two bits of the length prefix. *)
Lemma prefix_bits v n top : 0 <= n -> 0 <= v < 2 ^ n -> Z.land (Z.lor v (top * 2 ^ n)) (2 ^ n - 1) = v.
Proof.
  intros Hn Hv. rewrite Z.lor_comm, lor_add_disjoint, land_ones_mod by lia.
  rewrite Z.add_comm, Z.mod_add, Z.mod_small; lia.
Qed.

Lemma varint_len_range v : 0 <= v < 2 ^ 62 -> 1 <= varint_len v <= 8.
Proof. intros Hv. unfold varint_len, picoquic_varint_len. repeat case_match; lia. Qed.

Lemma varint_len_mono a b : 0 <= a <= b -> b < 2 ^ 62 -> varint_len a <= varint_len b.
Proof. intros. unfold varint_len, picoquic_varint_len. repeat (case_match; rewrite ?Z.leb_le, ?Z.leb_gt in *); lia. Qed.

Lemma varint_written v room : 0 <= v < 2 ^ 62 -> varint_len v <= room ->
  Z.of_nat (length (picoquic_varint_encode room v)) = varint_len v /\
  forall rest, picoquic_varint_decode (picoquic_varint_encode room v ++ rest)
                 (Z.of_nat (length (picoquic_varint_encode room v ++ rest))) = Some (varint_len v, v) /\
               drop (Z.to_nat (varint_len v)) (picoquic_varint_encode room v ++ rest) = rest.
Proof.
  intros Hv Hr. assert (Hlen : Z.of_nat (length (picoquic_varint_encode room v)) = varint_len v).
  { destruct (varint_encode_decode v room room []) as [H _]; [done|done|done|]. exact H. }
  split; [done|]. intros rest. split.
  - apply varint_encode_decode; [done|done|]. rewrite length_app. unfold varint_len in *. lia.
  - apply drop_app_length'. lia.
Qed.

(** ** Lemmas: ranges *)

(** The runs of consecutive numbers: the last one so far ends at [prev] and has [k] numbers behind its first. *)
Fixpoint runs (prev k : Z) (l : list Z) : list (Z * Z) :=
  match l with
  | [] => [(prev - k, k + 1)]
  | x :: l => if x =? prev + 1 then runs x (k + 1) l else (prev - k, k + 1) :: runs x 0 l
  end.

Definition expand (r : Z * Z) : list Z := seqZ r.1 r.2.
Definition span (r : recovered_range) : Z * Z := (pn r, n_symbols r).

Lemma seqZ_snoc m k : 0 <= k -> seqZ m (k + 1) = seqZ m k ++ [m + k].
Proof. intros Hk. rewrite seqZ_app by lia. done. Qed.

Lemma expand_runs l : forall prev k, 0 <= k -> concat (expand <$> runs prev k l) = seqZ (prev - k) (k + 1) ++ l.
Proof.
  induction l as [|x l IH]; intros prev k Hk; cbn [runs fmap list_fmap concat]; [done|].
  destruct (Z.eqb_spec x (prev + 1)) as [->|Hx].
  - rewrite IH, (seqZ_snoc _ (k + 1)), <- app_assoc by lia. replace (prev + 1 - (k + 1)) with (prev - k) by lia. cbn [app]. do 2 f_equal. lia.
  - cbn [fmap list_fmap concat]. rewrite IH by lia. unfold expand. cbn [fst snd]. rewrite Z.sub_0_r. done.
Qed.

(** The bytes that the ranges take. *)
Fixpoint wsize (prev k : Z) (l : list Z) : Z :=
  match l with
  | [] => if 0 <? k then varint_len k else 0
  | x :: l => if x =? prev + 1 then wsize x (k + 1) l else varint_len k + varint_len (x - prev - 1) + wsize x 0 l
  end.

(** Numbers in order, below 2^62. *)
Fixpoint increasing (prev : Z) (l : list Z) : Prop :=
  match l with [] => True | x :: l => prev < x < 2 ^ 62 /\ increasing x l end.

Lemma wsize_nonneg l : forall prev k, 0 <= k -> k + Z.of_nat (length l) < 2 ^ 31 -> 0 <= prev -> increasing prev l -> 0 <= wsize prev k l.
Proof.
  induction l as [|x l IH]; intros prev k Hk Hl Hp Hi; cbn [wsize increasing length] in *.
  - destruct (Z.ltb_spec 0 k); [|lia]. pose proof (varint_len_range k). lia.
  - destruct Hi as [Hx Hi]. destruct (Z.eqb_spec x (prev + 1)); [apply IH; (done || lia)|].
    pose proof (varint_len_range k ltac:(lia)). pose proof (varint_len_range (x - prev - 1) ltac:(lia)).
    specialize (IH x 0 ltac:(lia) ltac:(lia) ltac:(lia) Hi). lia.
Qed.

(** What the loop of the parser has to find at a point of the list. *)
Record parser_at (number prev k : Z) (l : list Z) (s : ranges_state) : Prop := ParserAt {
  pa_gap : range_is_gap s = false;
  pa_array : Z.of_nat (length (ranges s)) = number;
  pa_range : exists i, ranges s !! n_ranges s = Some (Range (prev - k) i 1);
  pa_next : next_packet_to_check s = prev - k + 1;
  pa_index : Z.of_nat (n_ranges s) < currently_parsed s;
  pa_parsed : currently_parsed s + k + Z.of_nat (length l) = number
}.

(** The array when the loop ends. *)
Definition parser_done (number prev k : Z) (l : list Z) (s s' : ranges_state) : Prop :=
  currently_parsed s' = number /\ length (ranges s') = length (ranges s) /\
  let n := if range_is_gap s' then n_ranges s' else S (n_ranges s') in
  span <$> take n (ranges s') = (span <$> take (n_ranges s) (ranges s)) ++ runs prev k l /\ (n <= length (ranges s'))%nat.

Lemma set_range_ok a i r : (i < length a)%nat -> set_range a i r = Some (<[i := r]> a).
Proof. intros Hi. unfold set_range. by destruct (lookup_lt_is_Some_2 a i Hi) as [x ->]. Qed.

(** Reading the length of a run. *)
Lemma streak_step number prev k l s room rest :
  parser_at number prev k l s -> 0 <= k -> 0 <= prev - k -> prev < 2 ^ 62 -> number < 2 ^ 31 -> 
  bytes s = picoquic_varint_encode room k ++ rest -> varint_len k <= room ->
  exists i, ranges_step number s =
    Some (Some (RangesState (<[n_ranges s := Range (prev - k) i (k + 1)]> (ranges s)) (S (n_ranges s)) (prev + 1)
                  (currently_parsed s + k) true rest)).
Proof.
  intros [Hg Ha [i Hr] Hn Hi Hp] Hk Hpk Hpr Hnum Hb Hroom. exists i. unfold ranges_step.
  destruct (varint_written k room) as [_ Hv]; [lia|done|]. destruct (Hv rest) as [Hdec Hdrop].
  rewrite Hb, Hdec. cbn [mbind option_bind]. rewrite Hg, Hdrop. cbn [negb].
  rewrite u64_small by lia. destruct (Z.ltb_spec number (currently_parsed s + k)); [lia|]. rewrite Hr. cbn [mbind option_bind n_symbols Z.eqb pn id].
  rewrite set_range_ok by (apply lookup_lt_is_Some_1; eauto). cbn [mbind option_bind].
  rewrite Hn, !u64_small, s32_small by lia. do 3 f_equal; (do 2 f_equal; lia) || lia.
Qed.

(** Reading the gap behind a run. *)
Lemma gap_step number s prev x room rest : range_is_gap s = true -> next_packet_to_check s = prev + 1 ->
  0 <= prev < x -> x < 2 ^ 62 -> 0 <= currently_parsed s < 2 ^ 31 - 1 -> (n_ranges s < length (ranges s))%nat ->
  bytes s = picoquic_varint_encode room (x - prev - 1) ++ rest -> varint_len (x - prev - 1) <= room ->
  exists i, ranges_step number s =
    Some (Some (RangesState (<[n_ranges s := Range x i 1]> (ranges s)) (n_ranges s) (x + 1) (currently_parsed s + 1) false rest)).
Proof.
  intros Hg Hn Hx Hx2 Hp Hi Hb Hroom. unfold ranges_step.
  destruct (varint_written (x - prev - 1) room) as [_ Hv]; [lia|done|]. destruct (Hv rest) as [Hdec Hdrop].
  rewrite Hb, Hdec. cbn [mbind option_bind]. rewrite Hg, Hdrop. cbn [negb].
  destruct (lookup_lt_is_Some_2 _ _ Hi) as [r Hr]. rewrite Hr. cbn [mbind option_bind]. exists (id r).
  rewrite set_range_ok by done. cbn [mbind option_bind]. rewrite Hn.
  replace (prev + 1 + (x - prev - 1)) with x by lia. rewrite !u64_small, s32_small by lia. done.
Qed.

Lemma loop_round fuel number s s1 : 0 <= currently_parsed s < number -> number < 2 ^ 31 -> bytes s <> [] ->
  ranges_step number s = Some (Some s1) -> ranges_loop (S fuel) number s = ranges_loop fuel number s1.
Proof.
  intros Hp Hn Hb E. cbn [ranges_loop]. rewrite u64_small by lia. destruct (Z.ltb_spec (currently_parsed s) number); [|lia].
  destruct (bytes s) eqn:Eb; [done|]. cbn [length Nat.ltb Nat.leb andb]. by rewrite E.
Qed.

Lemma loop_stop fuel number s : currently_parsed s = number -> 0 <= number < 2 ^ 31 -> ranges_loop fuel number s = Some (Some s).
Proof. intros E Hn. destruct fuel; cbn [ranges_loop]; rewrite u64_small, E, Z.ltb_irrefl by lia; done. Qed.

Lemma written_nonempty room v rest : 0 <= v < 2 ^ 62 -> varint_len v <= room -> picoquic_varint_encode room v ++ rest <> [].
Proof.
  intros Hv Hr E. destruct (varint_written v room Hv Hr) as [Hl _]. apply app_eq_nil in E as [E _]. rewrite E in Hl.
  pose proof (varint_len_range v Hv). cbn in Hl. lia.
Qed.

Lemma span_take_insert a n r : (n < length a)%nat -> span <$> take (S n) (<[n := r]> a) = (span <$> take n a) ++ [span r].
Proof.
  intros Hn. erewrite take_S_r by (by apply list_lookup_insert_eq). by rewrite fmap_app, take_insert_ge by lia.
Qed.

(** What the writer puts behind the first number makes the parser find the runs. *)
Lemma writer_parser number l : forall prev k room out,
  0 <= k -> 0 <= prev - k -> prev < 2 ^ 62 -> increasing prev l -> k + Z.of_nat (length l) < number < 2 ^ 31 -> wsize prev k l + 1 <= room ->
  exists w, ranges_writer room prev k l out = inr (out ++ w) /\ Z.of_nat (length w) = wsize prev k l /\
    forall s rest fuel, parser_at number prev k l s -> bytes s = w ++ rest -> (2 * (Z.to_nat k + length l) <= fuel)%nat ->
      exists s', ranges_loop fuel number s = Some (Some s') /\ bytes s' = rest /\ parser_done number prev k l s s'.
Proof.
  induction l as [|x l IH]; intros prev k room out Hk Hpk Hp Hi Hl Hroom; cbn [ranges_writer wsize increasing length] in *.
  - destruct (Z.ltb_spec 0 k) as [Hk0|Hk0].
    + pose proof (varint_len_range k ltac:(lia)) as Hvl. destruct (Z.ltb_spec room 2); [lia|].
      destruct (varint_written k room) as [Hlen _]; [lia|lia|]. eexists. split_and!; [done|done|].
      intros s rest fuel Hs Hb Hfuel. destruct fuel as [|fuel]; [lia|]. pose proof Hs as [Hg Ha [i Hr] Hn Hx Hpa]. cbn [length] in Hpa.
      destruct (streak_step _ _ _ _ _ room rest Hs) as [j Es]; [lia|lia|lia|lia|done|lia|].
      assert (Hlt : (n_ranges s < length (ranges s))%nat) by (apply lookup_lt_is_Some_1; eauto).
      erewrite loop_round; [|lia|lia|rewrite Hb; apply written_nonempty; lia|exact Es].
      rewrite loop_stop by (cbn [currently_parsed]; lia). eexists. split_and!; [done|done|].
      unfold parser_done. cbn [currently_parsed ranges range_is_gap n_ranges runs]. rewrite length_insert, span_take_insert by done.
      split_and!; [lia|done|done|lia].
    + assert (k = 0) as -> by lia. exists []. rewrite app_nil_r. split_and!; [done|done|]. intros s rest fuel Hs Hb _.
      pose proof Hs as [Hg Ha [i Hr] Hn Hx Hpa]. cbn [length] in Hpa. rewrite loop_stop by lia. exists s. split_and!; [done|done|].
      assert (Hlt : (n_ranges s < length (ranges s))%nat) by (apply lookup_lt_is_Some_1; eauto).
      unfold parser_done. rewrite Hg. split_and!; [lia|done| |lia]. erewrite take_S_r by done. rewrite fmap_app. done.
  - destruct Hi as [Hx Hi]. destruct (Z.leb_spec x prev); [lia|]. rewrite u64_small by lia.
    destruct (Z.eqb_spec x (prev + 1)) as [->|Hne]; cbn [orb].
    + destruct (IH (prev + 1) (k + 1) room out) as (w & Ew & Hw & Hpar); [lia|lia|lia|done|lia|lia|].
      exists w. split_and!; [done|done|]. intros s rest fuel [Hg Ha Hr Hn Hix Hpa] Hb Hfuel. cbn [length] in Hpa.
      destruct (Hpar s rest fuel) as (s' & E & Hb' & Hd); [|done|lia|].
      { replace (prev - k) with (prev + 1 - (k + 1)) in Hr, Hn by lia. split; (done || lia). }
      exists s'. split_and!; [done|done|]. unfold parser_done in *. cbn [runs]. by rewrite Z.eqb_refl.
    + destruct (Z.eqb_spec x prev); [lia|]. cbn [orb].
      pose proof (varint_len_range k ltac:(lia)) as Hv1. pose proof (varint_len_range (x - prev - 1) ltac:(lia)) as Hv2.
      pose proof (wsize_nonneg l x 0 ltac:(lia) ltac:(lia) ltac:(lia) Hi) as Hw0.
      destruct (Z.ltb_spec room 2); [lia|]. rewrite u64_small by lia.
      destruct (varint_written k room) as [Hl1 _]; [lia|lia|]. rewrite Hl1.
      destruct (varint_written (x - prev - 1) (room - varint_len k)) as [Hl2 _]; [lia|lia|]. rewrite Hl2.
      set (b1 := picoquic_varint_encode room k) in *. set (b2 := picoquic_varint_encode (room - varint_len k) (x - prev - 1)) in *.
      destruct (IH x 0 (room - varint_len k - varint_len (x - prev - 1)) (out ++ b1 ++ b2)) as (w & Ew & Hw & Hpar);
        [lia|lia|lia|done|lia|lia|].
      exists (b1 ++ b2 ++ w). split_and!; [rewrite Ew; by rewrite <- !app_assoc|rewrite !length_app; lia|].
      intros s rest fuel Hs Hb Hfuel. rewrite <- !app_assoc in Hb. pose proof Hs as [Hg Ha [i Hr] Hn Hix Hpa]. cbn [length] in Hpa.
      assert (Hlt : (n_ranges s < length (ranges s))%nat) by (apply lookup_lt_is_Some_1; eauto).
      destruct fuel as [|[|fuel]]; [lia|lia|].
      destruct (streak_step _ _ _ _ _ room (b2 ++ w ++ rest) Hs) as [j Es]; [lia|lia|lia|lia|done|lia|].
      erewrite loop_round; [|lia|lia|rewrite Hb; apply written_nonempty; lia|exact Es].
      match type of Es with _ = Some (Some ?s1) => destruct (gap_step number s1 prev x (room - varint_len k) (w ++ rest)) as [j2 Es2] end;
        cbn [range_is_gap next_packet_to_check currently_parsed n_ranges ranges bytes]; rewrite ?length_insert; [done|done|lia|lia|lia|lia|done|lia|].
      cbn [n_ranges ranges currently_parsed] in Es2.
      erewrite loop_round; [|cbn [currently_parsed]; lia|lia|cbn [bytes]; apply written_nonempty; lia|exact Es2].
      match type of Es2 with _ = Some (Some ?s2) => destruct (Hpar s2 rest fuel) as (s' & E & Hb' & Hd) end; [|done|lia|].
      { split; cbn [range_is_gap next_packet_to_check currently_parsed n_ranges ranges]; rewrite ?length_insert; try (done || lia).
        exists j2. rewrite list_lookup_insert_eq by (rewrite length_insert; lia). by rewrite Z.sub_0_r. }
      exists s'. split_and!; [done|done|]. unfold parser_done in *. cbn [ranges n_ranges currently_parsed] in Hd. rewrite !length_insert in Hd.
      destruct Hd as (D1 & D2 & D3 & D4). split_and!; [done|done| |done]. cbn [runs]. destruct (Z.eqb_spec x (prev + 1)); [done|].
      rewrite D3, take_insert_ge by lia. rewrite span_take_insert by done. rewrite <- app_assoc. done.
Qed.

Lemma tagged_first v : 0 <= v < 2 ^ 62 -> Z.land (Z.lor v 0xC000000000000000) 0x3FFFFFFFFFFFFFFF = v /\ 0 <= Z.lor v 0xC000000000000000 < 2 ^ 64.
Proof.
  intros Hv. split; [exact (prefix_bits v 62 3 ltac:(lia) Hv)|].
  change 0xC000000000000000 with (3 * 2 ^ 62). rewrite Z.lor_comm, lor_add_disjoint by lia. lia.
Qed.

Lemma packet_ranges_ok B first tl more malloc_ok :
  let n := 1 + Z.of_nat (length tl) in
  0 <= first < 2 ^ 62 -> increasing first tl -> n < 2 ^ 31 -> malloc_ok (8 + n * 24) = true ->
  varint_len n + 8 + wsize first 0 tl + 1 <= B ->
  exists w, serialize_packet_ranges B (first :: tl ++ more) n = Some (inr w) /\ Z.of_nat (length w) = varint_len n + 8 + wsize first 0 tl /\
    forall rest, exists a k, parse_packets_range malloc_ok (w ++ rest) = Some (Some (a, k, Z.of_nat (length w))) /\
      Z.of_nat (length a) = n /\ (k <= length a)%nat /\ span <$> take k a = runs first 0 tl.
Proof.
  intros n Hf Hi Hn Hm HB. pose proof (varint_len_range n ltac:(lia)) as Hvn.
  pose proof (wsize_nonneg tl first 0 ltac:(lia) ltac:(lia) ltac:(lia) Hi) as Hw0.
  destruct (varint_written n B) as [Hl1 Hd1]; [lia|lia|]. destruct (tagged_first first Hf) as [Ht Htb].
  unfold serialize_packet_ranges. cbn [head mbind option_bind tail]. rewrite Hl1. destruct (Z.ltb_spec (B - varint_len n) 8); [lia|].
  replace (Z.to_nat (n - 1)) with (length tl) by lia. rewrite take_app_length.
  set (out := picoquic_varint_encode B n ++ encode_u64 _).
  destruct (writer_parser n tl first 0 (B - varint_len n - 8) out) as (w & Ew & Hw & Hpar); [lia|lia|lia|done|lia|lia|].
  rewrite Ew. exists (out ++ w). split_and!; [done|unfold out; rewrite !length_app; unfold encode_u64; rewrite length_encode_un; lia|].
  intros rest. unfold parse_packets_range, out. rewrite <- !app_assoc. destruct (Hd1 (encode_u64 (Z.lor first 0xC000000000000000) ++ w ++ rest)) as [Hd2 Hd3].
  rewrite Hd2. cbn [mbind option_bind]. rewrite Hd3. unfold decode_u64, encode_u64. rewrite decode_encode_un by (change (8 * Z.of_nat 8) with 64; lia).
  cbn [mbind option_bind]. rewrite Ht, drop_encode_un. destruct (Z.eqb_spec (varint_len n) 0); [lia|]. unfold parse_ranges.
  rewrite u64_small by lia. rewrite (Z.mul_comm n 24), Z.mul_comm, Hm. cbn [negb].
  rewrite set_range_ok by (rewrite length_replicate; lia). cbn [mbind option_bind].
  set (a0 := <[0%nat := _]> _). assert (Ha0 : length a0 = Z.to_nat n) by (unfold a0; by rewrite length_insert, length_replicate).
  destruct (Hpar (RangesState a0 0 (first + 1) 1 false (w ++ rest)) rest (2 * Z.to_nat n)%nat) as (s' & E & Hb' & Hd).
  - split; cbn [range_is_gap ranges n_ranges next_packet_to_check currently_parsed]; try (done || lia).
    exists 0. unfold a0. rewrite list_lookup_insert_eq by (rewrite length_replicate; lia). by rewrite Z.sub_0_r.
  - done.
  - lia.
  - rewrite E. cbn [mbind option_bind]. destruct Hd as (D1 & D2 & D3 & D4). cbn [ranges n_ranges] in *.
    rewrite u64_small by lia. rewrite D1, Z.eqb_refl. eexists (ranges s'), _. split_and!; [|lia|exact D4|exact D3].
    do 3 f_equal. rewrite Hb', !length_app. lia.
Qed.

(** ** Lemmas: ids *)

Definition with_id (r c : recovered_range) : recovered_range := Range (pn r) (u32 (pn c)) (n_symbols r).

Lemma assign_ids_ok rs : forall l p q fuel,
  Forall2 (fun r c => n_symbols r = n_symbols c) rs l -> Forall (fun c => 0 < n_symbols c < 2 ^ 31) l -> (length l <= fuel)%nat ->
  forall start remaining, (forall c l', l = c :: l' -> start = pn c /\ remaining = n_symbols c) ->
  assign_ids fuel (length p) start remaining l (p ++ rs ++ q) = Some (p ++ zip_with with_id rs l ++ q).
Proof.
  induction rs as [|r rs IH]; intros l p q fuel H2 Hl Hf start remaining Hs.
  - apply Forall2_nil_inv_l in H2 as ->. by destruct fuel.
  - apply Forall2_cons_inv_l in H2 as (c & l' & Hrc & H2' & ->). inversion_clear Hl as [|? ? Hc Hl']. destruct (Hs c l' eq_refl) as [-> ->].
    destruct fuel as [|fuel]; [cbn in Hf; lia|]. cbn [assign_ids zip_with app]. cbn [length] in Hf.
    rewrite list_lookup_middle by done. cbn [mbind option_bind]. rewrite set_range_ok by (rewrite length_app; cbn; lia).
    cbn [mbind option_bind]. rewrite insert_app_r_alt, Nat.sub_diag by done. cbn [insert list_insert]. rewrite Hrc, Z.sub_diag. change (s32 0 =? 0) with true. cbv iota.
    assert (Ew : Range (pn r) (u32 (pn c)) (n_symbols c) = with_id r c) by (unfold with_id; by rewrite Hrc). rewrite Ew.
    specialize (IH l' (p ++ [with_id r c]) q fuel H2' Hl' ltac:(lia)). rewrite length_app in IH. cbn [length] in IH.
    rewrite Nat.add_1_r, <- !app_assoc in IH. cbn [app] in IH.
    destruct l' as [|c' l']; [apply IH; done|]. inversion_clear Hl' as [|? ? Hc' _]. rewrite s32_small by lia.
    apply IH. intros ? ? [= <- <-]. done.
Qed.

(** Numbers and ids jump at the same places. *)
Fixpoint aligned (p i : Z) (l : list (Z * Z)) : Prop :=
  match l with [] => True | (p', i') :: l => (p' = p + 1 <-> i' = i + 1) /\ aligned p' i' l end.

Definition expand_pairs (r c : Z * Z) : list (Z * Z) := zip (expand r) (expand c).

Lemma aligned_runs l : forall p i k, aligned p i l -> 0 <= k ->
  (runs p k l.*1).*2 = (runs i k l.*2).*2 /\
  concat (zip_with expand_pairs (runs p k l.*1) (runs i k l.*2)) = zip (seqZ (p - k) (k + 1)) (seqZ (i - k) (k + 1)) ++ l.
Proof.
  induction l as [|[p' i'] l IH]; intros p i k Ha Hk; cbn [aligned fmap list_fmap fst snd runs zip_with concat] in *; [done|].
  destruct Ha as [Hpi Ha]. destruct (Z.eqb_spec p' (p + 1)) as [->|Hp], (Z.eqb_spec i' (i + 1)) as [->|Hi]; try (exfalso; tauto).
  - destruct (IH _ _ (k + 1) Ha ltac:(lia)) as [E1 E2]. split; [done|]. rewrite E2.
    replace (p + 1 - (k + 1)) with (p - k) by lia. replace (i + 1 - (k + 1)) with (i - k) by lia.
    rewrite !(seqZ_snoc _ (k + 1)) by lia. rewrite zip_with_app by (rewrite !length_seqZ; done). rewrite <- app_assoc. f_equal.
    replace (p - k + (k + 1)) with (p + 1) by lia. replace (i - k + (k + 1)) with (i + 1) by lia. done.
  - destruct (IH _ _ 0 Ha ltac:(lia)) as [E1 E2]. cbn [fmap list_fmap snd zip_with concat]. rewrite E1, E2. split; [done|].
    rewrite !Z.sub_0_r. done.
Qed.

Lemma runs_sizes l : forall prev k, 0 <= k -> Forall (fun r => 0 < r.2 <= k + 1 + Z.of_nat (length l)) (runs prev k l).
Proof.
  induction l as [|x l IH]; intros prev k Hk; cbn [runs length]; [repeat constructor; cbn; lia|].
  destruct (Z.eqb_spec x (prev + 1)); [|constructor; [cbn; lia|]]; (eapply list.Forall_impl; [apply IH; lia|]); cbn; lia.
Qed.

Lemma runs_starts hi l : forall prev k, 0 <= prev - k -> 0 <= k -> prev < hi -> Forall (fun x => 0 <= x < hi) l ->
  Forall (fun r => 0 <= r.1 < hi) (runs prev k l).
Proof.
  induction l as [|x l IH]; intros prev k H0 Hk Hp Hl; cbn [runs]; [repeat constructor; cbn; lia|]. inversion_clear Hl as [|? ? Hx Hl'].
  destruct (Z.eqb_spec x (prev + 1)); [apply IH; (done || lia)|constructor; [cbn; lia|apply IH; (done || lia)]].
Qed.

Lemma runs_nonempty prev k l : runs prev k l <> [].
Proof. revert prev k. induction l; intros; cbn [runs]; [done|]. by destruct (_ =? _). Qed.

(** The packets of a range, with their ids. *)
Definition packets_of (r : recovered_range) : list (Z * Z) := zip (seqZ (pn r) (n_symbols r)) (seqZ (id r) (n_symbols r)).

Lemma packets_with_id rs cs :
  (span <$> rs).*2 = (span <$> cs).*2 -> Forall (fun c => 0 <= c.1 < 2 ^ 32) (span <$> cs) ->
  Forall2 (fun r c => n_symbols r = n_symbols c) rs cs /\
  packets_of <$> zip_with with_id rs cs = zip_with expand_pairs (span <$> rs) (span <$> cs).
Proof.
  revert cs. induction rs as [|r rs IH]; intros [|c cs] E H; [by split; [constructor|]|done|done|].
  cbn in E. injection E as Erc E. inversion_clear H as [|? ? Hc H']. cbn in Hc.
  destruct (IH cs E H') as [H2 HE]. split; [by constructor|]. cbn [zip_with fmap list_fmap]. f_equal; [|exact HE].
  unfold packets_of, with_id, expand_pairs, expand, span. cbn [pn id n_symbols fst snd]. by rewrite u32_small, Erc by lia.
Qed.

Lemma recovered_frame_ok B p0 i0 l more_p more_i malloc_ok :
  let n := 1 + Z.of_nat (length l) in
  0 <= p0 < 2 ^ 62 -> increasing p0 l.*1 -> 0 <= i0 < 2 ^ 32 -> increasing i0 l.*2 -> Forall (fun i => 0 <= i < 2 ^ 32) l.*2 ->
  n < 2 ^ 31 -> (forall size, malloc_ok size = true) ->
  2 * (varint_len n + 8) + wsize p0 0 l.*1 + wsize i0 0 l.*2 + 1 <= B ->
  exists w, serialize_window_recovered_frame true B (p0 :: l.*1 ++ more_p) (i0 :: l.*2 ++ more_i) n = Some (inr w) /\
    Z.of_nat (length w) = 2 * (varint_len n + 8) + wsize p0 0 l.*1 + wsize i0 0 l.*2 /\
    (aligned p0 i0 l -> forall rest, exists rs, parse_window_recovered_frame malloc_ok (w ++ rest) = Some (Some (rs, Z.of_nat (length w))) /\
      concat (packets_of <$> rs) = (p0, i0) :: l).
Proof.
  intros n; subst n; intros Hp0 Hp Hi0 Hi Hi32 Hn Hm HB.
  pose proof (wsize_nonneg l.*1 p0 0 ltac:(lia) ltac:(rewrite length_fmap; lia) ltac:(lia) Hp) as Hw1.
  pose proof (wsize_nonneg l.*2 i0 0 ltac:(lia) ltac:(rewrite length_fmap; lia) ltac:(lia) Hi) as Hw2.
  pose proof (varint_len_range (1 + Z.of_nat (length l)) ltac:(lia)) as Hvn.
  destruct (packet_ranges_ok B p0 l.*1 more_p malloc_ok) as (w1 & E1 & Hl1 & Hd1); rewrite ?length_fmap; [lia|done|lia|done|lia|].
  destruct (packet_ranges_ok (B - Z.of_nat (length w1)) i0 l.*2 more_i malloc_ok) as (w2 & E2 & Hl2 & Hd2);
    rewrite ?length_fmap in *; [lia|done|lia|done|lia|].
  exists (w1 ++ w2). unfold serialize_window_recovered_frame. rewrite E1. cbn [mbind option_bind negb]. rewrite E2. cbn [mbind option_bind].
  split_and!; [done|rewrite length_app; lia|]. intros Hal rest. rewrite <- app_assoc.
  unfold parse_window_recovered_frame. destruct (Hd1 (w2 ++ rest)) as (a & k & Ea & Hla & Hka & Hsa). rewrite Ea. cbn [mbind option_bind].
  rewrite drop_app_length' by lia. unfold parse_ids_range. destruct (Hd2 rest) as (c & k2 & Ec & Hlc & Hkc & Hsc). rewrite Ec. cbn [mbind option_bind].
  destruct (aligned_runs l p0 i0 0 Hal ltac:(lia)) as [Hlen Hcat]. rewrite <- Hsa, <- Hsc in Hlen, Hcat.
  assert (Hk : k = k2). { apply (f_equal length) in Hlen. rewrite !length_fmap, !length_take in Hlen. lia. } subst k2.
  rewrite Nat.ltb_irrefl.
  assert (Hst : Forall (fun r => 0 <= r.1 < 2 ^ 32) (span <$> take k c)) by (rewrite Hsc; apply runs_starts; (done || lia)).
  assert (Hsz : Forall (fun r => 0 < r.2 < 2 ^ 31) (span <$> take k c)).
  { rewrite Hsc. eapply list.Forall_impl; [apply runs_sizes; lia|]. intros r. cbn. rewrite length_fmap. lia. }
  destruct (packets_with_id _ _ Hlen Hst) as [H2 Hpk]. apply list.Forall_fmap in Hsz.
  assert (Hk : length (take k c) = k) by (rewrite length_take; lia). set (cs := take k c) in *. clearbody cs.
  pose proof (assign_ids_ok (take k a) cs [] (drop k a) (S (length a)) H2 Hsz ltac:(lia)) as Ha. rewrite take_drop in Ha. cbn [length app] in Ha.
  destruct cs as [|r0 l0]; [by destruct (runs_nonempty i0 0 l.*2)|].
  rewrite s32_small by (inversion_clear Hsz as [|? ? Hr0 _]; cbn in Hr0; lia).
  rewrite Ha by (intros ? ? [= <- <-]; done). cbn [mbind option_bind].
  eexists. split; [do 3 f_equal; rewrite length_app; lia|].
  rewrite take_app_length' by (rewrite length_zip_with, length_take; lia). rewrite Hpk, Hcat. rewrite !Z.sub_0_r. done.
Qed.

(** ** Lemmas: filling *)

(** The handler stands behind [prev], the last of [k + 1] consecutive numbers. *)
Definition handler_at (h : range_handler) (prev k : Z) : Prop :=
  last_val h = prev /\ current_range h = k /\ current_range_size h = varint_len k.

(** It counts at least the bytes that are written. *)
Lemma range_add_ok h prev k x : handler_at h prev k -> 0 <= k < 2 ^ 31 -> 0 <= prev < x -> x < 2 ^ 62 ->
  exists h' k', range_add h x = Some h' /\ handler_at h' x k' /\ 0 <= k' <= k + 1 /\
    forall l, current_size h + wsize prev k (x :: l) <= current_size h' + wsize x k' l.
Proof.
  intros (Hl & Hr & Hs) Hk Hx Hx2. unfold range_add. rewrite Hl, Hr, Hs. destruct (Z.ltb_spec x prev); [lia|].
  destruct (Z.eqb_spec prev (-1)); [lia|]. destruct (Z.eqb_spec x (prev + 1)) as [->|Hne]; cbn [orb].
  - eexists _, (k + 1). split_and!; [done|done|lia|lia|]. intros l. cbn [wsize current_size]. rewrite Z.eqb_refl.
    pose proof (varint_len_mono k (k + 1) ltac:(lia) ltac:(lia)). lia.
  - destruct (Z.eqb_spec x prev); [lia|]. eexists _, 0. split_and!; [done|done|lia|lia|]. intros l. cbn [wsize current_size].
    destruct (Z.eqb_spec x (prev + 1)); [done|]. rewrite u64_small by lia. lia.
Qed.

(** Numbers and ids in their ranges, and in the same order. *)
Definition recovered_map (m : gmap Z Z) : Prop :=
  (forall p i, m !! p = Some i -> 0 <= p < 2 ^ 62 /\ 0 <= i < 2 ^ 32) /\
  (forall p p' i i', m !! p = Some i -> m !! p' = Some i' -> p < p' -> i < i').

(** The entries of [m] behind [p], without a gap. *)
Definition next_entries (m : gmap Z Z) (p i : Z) (l : list (Z * Z)) : Prop :=
  increasing p l.*1 /\ increasing i l.*2 /\ Forall (fun x => m !! x.1 = Some x.2) l /\
  forall q, is_Some (m !! q) -> p < q -> Exists (fun x => q <= x.1) l -> q ∈ l.*1.

Lemma next_entries_cons m p i p' i' l : recovered_map m -> m !! p = Some i ->
  RedBlackTree.is_least_from m (p + 1) p' i' -> next_entries m p' i' l -> next_entries m p i ((p', i') :: l).
Proof.
  intros [Hb Ho] Hp (Hp' & Hlt & Hleast) (H1 & H2 & H3 & H4). specialize (Hb _ _ Hp') as Hb'. split_and!; cbn [fmap list_fmap fst snd increasing].
  - split; [lia|done].
  - specialize (Ho p p' i i' Hp Hp' ltac:(lia)). split; [lia|done].
  - by constructor.
  - intros q Hq Hpq Hex. specialize (Hleast q Hq ltac:(lia)). destruct (Z.eq_dec q p') as [->|Hne]; [by left|]. right.
    apply H4; [done|lia|]. apply Exists_cons in Hex as [Hle|Hex]; [cbn in Hle; lia|done].
Qed.

Lemma next_entries_nil m p i : next_entries m p i [].
Proof. split_and!; [done|done|constructor|]. intros q _ _ Hex. by apply Exists_nil in Hex. Qed.

Lemma wsize_end prev k : 0 <= k < 2 ^ 31 -> wsize prev k [] <= 8.
Proof. intros Hk. cbn. destruct (Z.ltb_spec 0 k); [|lia]. pose proof (varint_len_range k). lia. Qed.

Lemma fill_loop_ok t m max_bytes room : RedBlackTree.answers t m -> recovered_map m -> forall p i kp ki hp hi out,
  handler_at hp p kp -> handler_at hi i ki -> m !! p = Some i -> 0 <= kp -> 0 <= ki ->
  kp + Z.of_nat room < 2 ^ 31 -> ki + Z.of_nat room < 2 ^ 31 -> current_size hp + current_size hi + 1 <= max_bytes ->
  exists l, fill_loop room t max_bytes (p + 1) hp hi out = inr (out ++ l) /\ (length l <= room)%nat /\ next_entries m p i l /\
    current_size hp + wsize p kp l.*1 + (current_size hi + wsize i ki l.*2) + 1 <= max_bytes + 16.
Proof.
  intros Ht Hm. induction room as [|room IH]; intros p i kp ki hp hi out Hhp Hhi Hp Hkp Hki Hrp Hri Hmax.
  all: pose proof (wsize_end p kp ltac:(lia)) as W1; pose proof (wsize_end i ki ltac:(lia)) as W2.
  all: assert (Hstop : forall n, exists l, @inr Z _ out = inr (out ++ l) /\ (length l <= n)%nat /\ next_entries m p i l /\
    current_size hp + wsize p kp l.*1 + (current_size hi + wsize i ki l.*2) + 1 <= max_bytes + 16)
    by (exists []; rewrite app_nil_r; split_and!; [done|cbn; lia|apply next_entries_nil|cbn [fmap list_fmap]; lia]).
  - apply Hstop.
  - specialize (Hstop (S room)).
    cbn [fill_loop]. destruct (_ && _); [|done].
    pose proof (RedBlackTree.ans_ceiling t m Ht (p + 1)) as Hc. destruct (RedBlackTree.rbt_ceiling t (p + 1)) as [[p' i']|]; [|done].
    pose proof Hc as (Hp' & Hlt & _). pose proof Hm as [Hb Ho]. specialize (Hb _ _ Hp') as [Hbp Hbi]. specialize (Ho p p' i i' Hp Hp' ltac:(lia)).
    pose proof (proj1 Hm _ _ Hp) as [Hbp0 Hbi0]. rewrite !s64_small by lia.
    destruct (range_add_ok hp p kp p' Hhp) as (hp' & kp' & Ep & Hhp' & Hkp' & Hsp); [lia|lia|lia|].
    destruct (range_add_ok hi i ki i' Hhi) as (hi' & ki' & Ei & Hhi' & Hki' & Hsi); [lia|lia|lia|].
    rewrite Ep, Ei. destruct (Z.ltb_spec max_bytes (current_size hp' + current_size hi' + 1)); [done|].
    rewrite u64_small, u32_small by lia.
    destruct (IH p' i' kp' ki' hp' hi' (out ++ [(p', i')])) as (l & El & Hl & Hn & Hsz); [done|done|done|lia|lia|lia|lia|lia|].
    exists ((p', i') :: l). split_and!; [rewrite El; by rewrite <- app_assoc|cbn; lia|by apply next_entries_cons|].
    cbn [fmap list_fmap fst snd]. specialize (Hsp l.*1). specialize (Hsi l.*2). lia.
Qed.

(** The entries of [m] from the first on, without a gap. *)
Definition first_entries (m : gmap Z Z) (l : list (Z * Z)) : Prop :=
  Forall (fun x => m !! x.1 = Some x.2) l /\ forall q, is_Some (m !! q) -> Exists (fun x => q <= x.1) l -> q ∈ l.*1.

Lemma fill_ok t m max_bytes p i l : RedBlackTree.answers t m -> recovered_map m -> fill_recovered_frame t max_bytes = inr ((p, i) :: l) ->
  (length l <= 999)%nat /\ first_entries m ((p, i) :: l) /\ m !! p = Some i /\ next_entries m p i l /\
  wsize p 0 l.*1 + wsize i 0 l.*2 + 33 <= max_bytes.
Proof.
  intros Ht Hm. unfold fill_recovered_frame. destruct (_ <? _); [done|]. assert (Hmp : max_packets = S 999) by done. rewrite Hmp. remember 999%nat as room eqn:Hroom. clear Hmp. cbn [fill_loop].
  destruct (_ && _); [|done]. pose proof (RedBlackTree.ans_ceiling t m Ht 0) as Hc.
  destruct (RedBlackTree.rbt_ceiling t 0) as [[p' i']|]; [|done]. destruct Hc as (Hp' & _ & Hleast).
  pose proof (proj1 Hm _ _ Hp') as [Hbp Hbi]. rewrite !s64_small by lia. unfold range_add. cbn [last_val range_handler_init].
  destruct (Z.ltb_spec p' (-1)), (Z.ltb_spec i' (-1)); try lia.
  rewrite !Z.eqb_refl. cbn [current_size current_range current_range_size range_handler_init]. set (hp := Handler _ _ _ p'). set (hi := Handler _ _ _ i').
  destruct (_ <? _) eqn:Emax; [done|]. apply Z.ltb_ge in Emax. rewrite u64_small, u32_small by lia.
  destruct (fill_loop_ok t m max_bytes room Ht Hm p' i' 0 0 hp hi ([] ++ [(p', i')])) as (l' & -> & Hl & Hn & Hsz); [done|done|done|lia|lia|lia|lia|cbn [current_size hp hi]; lia|].
  cbn [app]. intros [= <- <- <-]. cbn [current_size hp hi] in Hsz. split_and!; [lia| |done|done|lia].
  destruct Hn as (_ & _ & Hn3 & Hn4). split; [by constructor|]. intros q Hq Hex. pose proof Hq as [x Hx]. specialize (proj1 Hm _ _ Hx) as [? _].
  specialize (Hleast q Hq ltac:(lia)). cbn [fmap list_fmap fst]. destruct (Z.eq_dec q p') as [->|]; [by left|]. right.
  apply Hn4; [done|lia|]. apply Exists_cons in Hex as [Hle|Hex]; [cbn in Hle; lia|done].
Qed.

(** ** Lemmas: repair frames *)

(** The [k]-th symbol of a frame as the parser builds it. *)
Definition numbered (base first n_protected k : Z) (s : repair_symbol) : repair_symbol :=
  RepairSymbol (Metadata (encode_u32 (u32 (base + k))) first n_protected) (repair_payload s).

Fixpoint number_from (base first n_protected k : Z) (l : list repair_symbol) : list repair_symbol :=
  match l with [] => [] | s :: l => numbered base first n_protected k s :: number_from base first n_protected (k + 1) l end.

Lemma symbols_roundtrip size base first np l : Forall (fun s => Z.of_nat (length (repair_payload s)) = size) l -> forall k,
  exists out, serialize_symbols size l = inr out /\ Z.of_nat (length out) = Z.of_nat (length l) * size /\
    forall rest, parse_symbols (length l) k base first np size (out ++ rest) = Some (number_from base first np k l).
Proof.
  induction 1 as [|s l Hs _ IH]; intros k; cbn [serialize_symbols length parse_symbols number_from].
  - exists []. split_and!; [done|cbn; lia|done].
  - destruct (IH (k + 1)) as (out & E & Hl & Hp). rewrite Hs, Z.eqb_refl, E. eexists. split_and!; [done|rewrite length_app; lia|].
    intros rest. rewrite <- app_assoc, length_app. destruct (Nat.ltb_spec (length (repair_payload s) + length (out ++ rest)) (Z.to_nat size)); [lia|].
    rewrite drop_app_length', take_app_length' by lia. rewrite Hp. done.
Qed.

(** A frame whose symbols carry consecutive scheme-specific values, as the encoder makes them. *)
Record sendable (symbol_size : Z) (rf : repair_frame) : Prop := Sendable {
  sd_fss : exists base, is_u32 base /\ f_fss rf = encode_u32 base /\
             symbols rf = number_from base (first_protected_symbol rf) (f_n_protected_symbols rf) 0 (symbols rf);
  sd_first : 0 <= first_protected_symbol rf < 2 ^ 30;
  sd_protected : 0 <= f_n_protected_symbols rf < 2 ^ 16;
  sd_count : n_repair_symbols rf = Z.of_nat (length (symbols rf)) /\ n_repair_symbols rf < 2 ^ 16;
  sd_size : 0 <= symbol_size /\ n_repair_symbols rf * symbol_size < 2 ^ 31 - 16;
  sd_payloads : Forall (fun s => Z.of_nat (length (repair_payload s)) = symbol_size) (symbols rf)
}.

Lemma tagged_id v : 0 <= v < 2 ^ 30 -> Z.land v 0x3FFFFFFF = v /\ Z.land (Z.lor v 0x80000000) 0x3FFFFFFF = v /\ 0 <= Z.lor v 0x80000000 < 2 ^ 32.
Proof.
  intros Hv. split_and!; [|exact (prefix_bits v 30 2 ltac:(lia) Hv)|..].
  - change 0x3FFFFFFF with (2 ^ 30 - 1). rewrite land_ones_mod by lia. by rewrite Z.mod_small.
  - change 0x80000000 with (2 * 2 ^ 30). rewrite Z.lor_comm, lor_add_disjoint by lia. lia.
  - change 0x80000000 with (2 * 2 ^ 30). rewrite Z.lor_comm, lor_add_disjoint by lia. lia.
Qed.

Lemma drop_encoded v n k rest : (n <= k)%nat -> drop k (encode_un v n ++ rest) = drop (k - n) rest.
Proof. intros Hk. rewrite drop_app_ge by (rewrite length_encode_un; lia). by rewrite length_encode_un. Qed.

Lemma encoded_long_enough v n rest : (length (encode_un v n ++ rest) <? n)%nat = false.
Proof. apply Nat.ltb_ge. rewrite length_app, length_encode_un. lia. Qed.

Lemma decode_u32_app v rest : is_u32 v -> decode_u32 (encode_un v 4 ++ rest) = Some v.
Proof. intros Hv. unfold decode_u32. rewrite decode_encode_un by (cbn; unfold is_u32 in Hv; lia). cbn [mbind option_bind]. by rewrite u32_small. Qed.

Lemma decode_u16_app v rest : 0 <= v < 2 ^ 16 -> decode_un (encode_un v 2 ++ rest) 2 = Some v.
Proof. intros Hv. apply decode_encode_un; [lia|done]. Qed.

(** The bytes of a repair frame, read back. *)
Lemma parse_repair_bytes skip base first np n size out rest l :
  is_u32 base -> 0 <= first < 2 ^ 30 -> 0 <= np < 2 ^ 16 -> 0 <= n < 2 ^ 16 -> 0 <= n * size < 2 ^ 31 -> Z.of_nat (length out) = n * size ->
  parse_symbols (Z.to_nat n) 0 base first np size (out ++ rest) = Some l ->
  parse_window_repair_frame true true true skip size
    (encode_un base 4 ++ encode_un (Z.lor first 0x80000000) 4 ++ encode_un np 2 ++ encode_un n 2 ++ out ++ rest) =
  Some (Some (RepairFrame (encode_un base 4) first np n (if skip then [] else l), 12 + n * size)).
Proof.
  intros Hbase Hfirst Hnp Hn Hns Hout Hpo. destruct (tagged_id _ Hfirst) as (_ & Hid2 & Hid3).
  unfold parse_window_repair_frame, decode_window_source_symbol_id. cbn [negb].
  rewrite (drop_encoded base 4 4), (drop_encoded base 4 8), (drop_encoded base 4 10), (drop_encoded base 4 12) by lia. cbn [Nat.sub]. rewrite drop_0.
  rewrite (drop_encoded _ 4 4), (drop_encoded _ 4 6), (drop_encoded _ 4 8) by lia. cbn [Nat.sub]. rewrite drop_0.
  rewrite (drop_encoded _ 2 2), (drop_encoded _ 2 4) by lia. cbn [Nat.sub]. rewrite drop_0, drop_encode_un.
  rewrite !encoded_long_enough.
  rewrite (decode_u32_app (Z.lor first 0x80000000)) by done. cbn [mbind option_bind]. rewrite Hid2, !decode_u16_app by done. cbn [mbind option_bind].
  rewrite s32_small, u64_small, length_app by lia.
  destruct (Z.ltb_spec (Z.of_nat (length out + length rest)) (n * size)); [lia|].
  rewrite take_app_length' by (symmetry; apply length_encode_un). rewrite !u16_small by lia. destruct skip; [done|]. cbn [negb andb].
  rewrite decode_u32_app by done. cbn [mbind option_bind]. by rewrite Hpo.
Qed.

(** ** Theorems *)

(** A repair frame whose symbols have consecutive scheme-specific values is read back exactly, whatever
    follows it in the packet, with the bytes that were predicted for it; skipping it moves over the same bytes. *)
Theorem repair_frame_roundtrip (B symbol_size : Z) (rf : repair_frame) (rest : list Z) :
  sendable symbol_size rf -> REPAIR_FRAME_HEADER_SIZE + n_repair_symbols rf * symbol_size <= B ->
  exists w, serialize_window_repair_frame B rf symbol_size = inr w /\
    Z.of_nat (length w) = REPAIR_FRAME_HEADER_SIZE + n_repair_symbols rf * symbol_size /\
    parse_window_repair_frame true true true false symbol_size (w ++ rest) = Some (Some (rf, Z.of_nat (length w))) /\
    exists rf', parse_window_repair_frame true true true true symbol_size (w ++ rest) = Some (Some (rf', Z.of_nat (length w))).
Proof.
  intros [(base & Hbase & Hfss & Hsym) Hfirst Hnp [Hcount Hc16] [Hs0 Hs] Hpay] HB. unfold REPAIR_FRAME_HEADER_SIZE in *.
  destruct (tagged_id _ Hfirst) as (Hid1 & Hid2 & Hid3).
  destruct (symbols_roundtrip symbol_size base (first_protected_symbol rf) (f_n_protected_symbols rf) _ Hpay 0) as (out & Eo & Hlo & Hpo).
  unfold serialize_window_repair_frame, serialize_window_source_symbol_id, REPAIR_FRAME_HEADER_SIZE.
  rewrite s32_small, u64_small by nia. destruct (Z.ltb_spec B (4 + 4 + 2 + 2 + n_repair_symbols rf * symbol_size)); [lia|].
  destruct (Z.ltb_spec B 4); [nia|]. rewrite Hid1, Eo, Hfss. unfold encode_u32. eexists.
  assert (Hlen : Z.of_nat (length (encode_un base 4 ++ encode_un (Z.lor (first_protected_symbol rf) 0x80000000) 4 ++
    encode_un (f_n_protected_symbols rf) 2 ++ encode_un (n_repair_symbols rf) 2 ++ out)) = 12 + n_repair_symbols rf * symbol_size).
  { rewrite !length_app, !length_encode_un. lia. }
  split; [done|]. split; [lia|]. rewrite Hlen, <- !app_assoc.
  pose proof (fun skip => parse_repair_bytes skip base _ _ (n_repair_symbols rf) symbol_size out rest (symbols rf) Hbase Hfirst Hnp ltac:(lia) ltac:(nia) ltac:(lia)) as Hskip.
  rewrite Hcount, Nat2Z.id, Hpo, <- Hsym in Hskip. rewrite Hcount.
  split; [|eexists; by apply Hskip]. rewrite Hskip by done. destruct rf. cbn in *. by rewrite Hfss, Hcount.
Qed.

Lemma repair_frame_roundtrip_witness :
  let rf := RepairFrame [0; 0; 1; 255] 7 3 2
              [RepairSymbol (Metadata [0; 0; 1; 255] 7 3) [5; 6]; RepairSymbol (Metadata [0; 0; 2; 0] 7 3) [8; 9]] in
  exists w, serialize_window_repair_frame 16 rf 2 = inr w /\
    parse_window_repair_frame true true true false 2 (w ++ [77]) = Some (Some (rf, Z.of_nat (length w))).
Proof.
  destruct (repair_frame_roundtrip 16 2 (RepairFrame [0; 0; 1; 255] 7 3 2
    [RepairSymbol (Metadata [0; 0; 1; 255] 7 3) [5; 6]; RepairSymbol (Metadata [0; 0; 2; 0] 7 3) [8; 9]]) [77]) as (w & E & _ & P & _).
  - split; cbn; [exists 511; split_and!; [unfold is_u32; lia|reflexivity|reflexivity]|lia|lia|lia|lia|repeat constructor].
  - vm_compute. discriminate.
  - exists w. split; [exact E|exact P].
Defined.

(** A window frame is read back with the id and the size that the receiver advertised. *)
Theorem rwin_frame_roundtrip (B : Z) (f : rwin_frame) (rest : list Z) :
  is_u32 (smallest_id f) -> 0 <= window_size f < 2 ^ 62 -> varint_len (smallest_id f) + varint_len (window_size f) <= B ->
  exists w, serialize_window_rwin_frame B f = inr w /\ Z.of_nat (length w) = varint_len (smallest_id f) + varint_len (window_size f) /\
    parse_window_rwin_frame (w ++ rest) = Some (inr (f, Z.of_nat (length w))).
Proof.
  unfold is_u32. intros Hi Hw HB. unfold serialize_window_rwin_frame, parse_window_rwin_frame. rewrite u64_small by lia.
  pose proof (varint_len_range (smallest_id f) ltac:(lia)) as V1. pose proof (varint_len_range (window_size f) ltac:(lia)) as V2.
  destruct (Z.ltb_spec B (varint_len (smallest_id f))); [lia|]. destruct (varint_written (smallest_id f) B) as [L1 D1]; [lia|lia|]. rewrite L1.
  destruct (Z.ltb_spec (B - varint_len (smallest_id f)) (varint_len (window_size f))); [lia|].
  destruct (varint_written (window_size f) (B - varint_len (smallest_id f))) as [L2 D2]; [lia|lia|].
  eexists. split_and!; [done|rewrite length_app; lia|]. rewrite <- app_assoc. destruct (D1 (picoquic_varint_encode (B - varint_len (smallest_id f)) (window_size f) ++ rest)) as [E1 X1].
  rewrite E1. cbn [mbind option_bind]. rewrite X1. destruct (D2 rest) as [E2 X2]. rewrite E2. cbn [mbind option_bind].
  rewrite !length_app. destruct (Nat.eqb_spec (length (picoquic_varint_encode B (smallest_id f)) +
    (length (picoquic_varint_encode (B - varint_len (smallest_id f)) (window_size f)) + length rest)) 0); [lia|].
  unfold MAX_WINDOW_SOURCE_SYMBOL_ID. destruct (Z.ltb_spec (2 ^ 32 - 1) (smallest_id f)); [lia|].
  destruct (Nat.eqb_spec (length (picoquic_varint_encode (B - varint_len (smallest_id f)) (window_size f)) + length rest) 0); [lia|].
  rewrite s64_small, u32_small by lia. destruct (Z.ltb_spec (window_size f) 0); [lia|]. destruct f. cbn [smallest_id window_size] in *. do 3 f_equal. lia.
Qed.

Lemma rwin_frame_roundtrip_witness :
  exists w, serialize_window_rwin_frame 17 (Rwin 70000 1000) = inr w /\ parse_window_rwin_frame (w ++ []) = Some (inr (Rwin 70000 1000, Z.of_nat (length w))).
Proof.
  destruct (rwin_frame_roundtrip 17 (Rwin 70000 1000) []) as (w & E & _ & P); [unfold is_u32; cbn; lia|cbn; lia|vm_compute; discriminate|].
  exists w. split; [exact E|exact P].
Defined.

Definition coincide (l : list (Z * Z)) : Prop := match l with [] => True | (p, i) :: l => aligned p i l end.

(** The recovered packets that a receiver announces: the frame is filled from the tree of recovered
    packets with its first entries, without a gap; it is written in less than [max_bytes] bytes, and, when numbers and ids
    jump at the same places, the sender reads back exactly these packets with their ids. *)
Theorem recovered_frame_roundtrip (t : RedBlackTree.tree Z) (max_bytes B : Z) (out : list (Z * Z)) (more_p more_i : list Z) malloc_ok :
  RedBlackTree.rbt_ok t -> recovered_map (RedBlackTree.to_map (RedBlackTree.elements t)) ->
  fill_recovered_frame t max_bytes = inr out -> out <> [] -> max_bytes - 1 <= B -> (forall size, malloc_ok size = true) ->
  first_entries (RedBlackTree.to_map (RedBlackTree.elements t)) out /\
  exists w, serialize_window_recovered_frame true B (out.*1 ++ more_p) (out.*2 ++ more_i) (Z.of_nat (length out)) = Some (inr w) /\
    Z.of_nat (length w) < max_bytes /\
    (coincide out -> forall rest, exists rs, parse_window_recovered_frame malloc_ok (w ++ rest) = Some (Some (rs, Z.of_nat (length w))) /\
      concat (packets_of <$> rs) = out).
Proof.
  intros Ht Hm Hf Hne HB Hmal. destruct out as [|[p i] l]; [done|]. apply RedBlackTree.answers_ok in Ht.
  destruct (fill_ok t _ max_bytes p i l Ht Hm Hf) as (Hl & Hfe & Hp & (N1 & N2 & N3 & _) & Hsz). split; [done|].
  destruct (proj1 Hm _ _ Hp) as [Hbp Hbi]. assert (Hv : varint_len (1 + Z.of_nat (length l)) <= 2).
  { pose proof (varint_len_mono (1 + Z.of_nat (length l)) 1000 ltac:(lia) ltac:(lia)) as Hmono. change (varint_len 1000) with 2 in Hmono. lia. }
  assert (Hi32 : Forall (fun i => 0 <= i < 2 ^ 32) l.*2).
  { apply list.Forall_fmap. eapply list.Forall_impl; [exact N3|]. intros [p' i'] Hpi. cbn in *. by destruct (proj1 Hm _ _ Hpi). }
  destruct (recovered_frame_ok B p i l more_p more_i malloc_ok) as (w & Ew & Hw & Hp2); [lia|done|lia|done|done|lia|done|lia|].
  exists w. cbn [fmap list_fmap fst snd length app]. replace (Z.of_nat (S (length l))) with (1 + Z.of_nat (length l)) by lia.
  split_and!; [done|lia|]. cbn [coincide]. exact Hp2.
Qed.

Definition sample_recovered : RedBlackTree.tree Z :=
  default RedBlackTree.rbt_init (RedBlackTree.run_ops RedBlackTree.rbt_init
    [RedBlackTree.Put 9 20; RedBlackTree.Put 5 10; RedBlackTree.Put 6 11]).

Lemma sample_recovered_ok : RedBlackTree.rbt_ok sample_recovered.
Proof.
  destruct (RedBlackTree.run_ops_ok [RedBlackTree.Put 9 20; RedBlackTree.Put 5 10; RedBlackTree.Put 6 11] RedBlackTree.rbt_init
    RedBlackTree.tree_init_ok) as (t & E & Hok & _).
  unfold sample_recovered. by rewrite E.
Qed.

Lemma sample_recovered_map : recovered_map (RedBlackTree.to_map (RedBlackTree.elements sample_recovered)).
Proof.
  assert (E : RedBlackTree.elements sample_recovered = [(5, 10); (6, 11); (9, 20)]) by reflexivity. rewrite E.
  assert (Hl : forall p i, RedBlackTree.to_map [(5, 10); (6, 11); (9, 20)] !! p = Some i -> (p = 5 /\ i = 10) \/ (p = 6 /\ i = 11) \/ (p = 9 /\ i = 20)).
  { intros p i. unfold RedBlackTree.to_map. cbn [list_to_map foldr curry fst snd]. rewrite !lookup_insert_Some, lookup_empty. intuition congruence. }
  split; [intros p i Hp|intros p p' i i' Hp Hp']; apply Hl in Hp; [|apply Hl in Hp']; lia.
Qed.

Lemma recovered_frame_roundtrip_witness :
  exists w, serialize_window_recovered_frame true 999 [5; 6; 9; 0] [10; 11; 20; 0] 3 = Some (inr w) /\
    exists rs, parse_window_recovered_frame (fun _ => true) (w ++ [1; 2]) = Some (Some (rs, Z.of_nat (length w))) /\
      concat (packets_of <$> rs) = [(5, 10); (6, 11); (9, 20)].
Proof.
  destruct (recovered_frame_roundtrip sample_recovered 1000 999 [(5, 10); (6, 11); (9, 20)] [0] [0] (fun _ => true)) as (_ & w & E & _ & P);
    [apply sample_recovered_ok|apply sample_recovered_map|vm_compute; reflexivity|discriminate|lia|reflexivity|].
  exists w. split; [exact E|]. apply P. cbn. lia.
Defined.

(** Packets whose numbers jump while their ids do not: of three such packets in a row the sender takes
    the last one for the second, so that it never learns that the third symbol arrived. *)
Theorem third_range_wrong_id (p i B : Z) (rest : list Z) :
  0 <= p < 2 ^ 61 -> 0 <= i < 2 ^ 31 -> 100 <= B ->
  exists w rs, serialize_window_recovered_frame true B [p; p + 2; p + 4] [i; i + 1; i + 2] 3 = Some (inr w) /\
    parse_window_recovered_frame (fun _ => true) (w ++ rest) = Some (Some (rs, Z.of_nat (length w))) /\
    concat (packets_of <$> rs) = [(p, i); (p + 2, i + 1); (p + 4, i + 1)].
Proof.
  intros Hp Hi HB.
  assert (W1 : wsize p 0 [p + 2; p + 4] = 4).
  { cbn [wsize]. destruct (Z.eqb_spec (p + 2) (p + 1)), (Z.eqb_spec (p + 4) (p + 2 + 1)); try lia.
    replace (p + 2 - p - 1) with 1 by lia. replace (p + 4 - (p + 2) - 1) with 1 by lia. reflexivity. }
  assert (W2 : wsize i 0 [i + 1; i + 2] = 1).
  { cbn [wsize]. destruct (Z.eqb_spec (i + 1) (i + 1)), (Z.eqb_spec (i + 2) (i + 1 + 1)); try lia. reflexivity. }
  destruct (packet_ranges_ok B p [p + 2; p + 4] [] (fun _ => true)) as (w1 & E1 & L1 & D1); cbn [length increasing]; [lia|lia|lia|done|rewrite W1; change (varint_len _) with 1; lia|].
  rewrite W1 in L1. change (varint_len _) with 1 in L1. cbn [length] in E1.
  destruct (packet_ranges_ok (B - Z.of_nat (length w1)) i [i + 1; i + 2] [] (fun _ => true)) as (w2 & E2 & L2 & D2);
    cbn [length increasing]; [lia|lia|lia|done|rewrite W2; change (varint_len _) with 1; lia|].
  destruct (D1 (w2 ++ rest)) as (a & k & Ea & La & Ka & Sa). destruct (D2 rest) as (c & k2 & Ec & Lc & Kc & Sc).
  cbn [app length] in *. change (1 + Z.of_nat 2) with 3 in *.
  cbn [runs] in Sa, Sc. rewrite Z.eqb_refl in Sc.
  destruct (Z.eqb_spec (p + 2) (p + 1)) as [|_], (Z.eqb_spec (p + 4) (p + 2 + 1)) as [|_], (Z.eqb_spec (i + 2) (i + 1 + 1)) as [_|]; try lia.
  destruct a as [|[p0 i0 n0] [|[p1 i1 n1] [|[p2 i2 n2] [|? ?]]]]; try (cbn in La; lia).
  destruct c as [|[q0 j0 m0] [|[q1 j1 m1] [|[q2 j2 m2] [|? ?]]]]; try (cbn in Lc; lia).
  destruct k as [|[|[|[|k]]]]; try discriminate; [|cbn in Ka; lia]. destruct k2 as [|[|k2]]; [discriminate| |discriminate].
  cbn in Sa, Sc. injection Sa as -> -> -> -> -> ->. injection Sc as -> ->.
  eexists (w1 ++ w2), _. unfold serialize_window_recovered_frame. rewrite E1. cbn [mbind option_bind negb]. rewrite E2. cbn [mbind option_bind].
  split; [done|]. rewrite <- app_assoc. unfold parse_window_recovered_frame. rewrite Ea. cbn [mbind option_bind].
  rewrite drop_app_length' by lia. unfold parse_ids_range. rewrite Ec. cbn [mbind option_bind Nat.ltb Nat.leb take length pn n_symbols].
  change (0 + 1 + 1 + 1) with 3. change (0 + 1) with 1. rewrite !Z.sub_0_r. replace (i + 2 - (1 + 1)) with i by lia.
  cbn [assign_ids lookup list_lookup mbind option_bind set_range insert list_insert pn n_symbols]. change (s32 3) with 3.
  change (s32 (3 - 1)) with 2. change (s32 (2 - 1)) with 1. change (s32 (1 - 1)) with 0.
  cbn [Z.eqb Pos.eqb mbind option_bind take firstn]. rewrite !u32_small by lia. split; [do 3 f_equal; rewrite length_app; lia|]. reflexivity.
Qed.

Lemma third_range_wrong_id_witness :
  exists w rs, serialize_window_recovered_frame true 100 [7; 9; 11] [1; 2; 3] 3 = Some (inr w) /\
    parse_window_recovered_frame (fun _ => true) (w ++ []) = Some (Some (rs, Z.of_nat (length w))) /\
    concat (packets_of <$> rs) = [(7, 1); (9, 2); (11, 2)].
Proof. apply (third_range_wrong_id 7 1 100 []); lia. Defined.

Lemma fill_empty max_bytes : 32 <= max_bytes -> fill_recovered_frame RedBlackTree.rbt_init max_bytes = inr [].
Proof.
  intros Hm. unfold fill_recovered_frame. rewrite (proj2 (Z.ltb_ge _ _)) by done. by destruct max_packets.
Qed.

Lemma serialize_no_packets B p more : 9 <= B -> serialize_packet_ranges B (p :: more) 0 = Some (inr ([0] ++ encode_u64 (Z.lor p 0xC000000000000000))).
Proof.
  intros HB. unfold serialize_packet_ranges. assert (Ev : picoquic_varint_encode B 0 = [0]).
  { unfold picoquic_varint_encode. cbn. destruct (Z.ltb_spec 0 B); [done|lia]. }
  rewrite Ev. cbn [head mbind option_bind length tail]. rewrite (proj2 (Z.ltb_ge _ _)) by lia. done.
Qed.

Lemma decode_un_zero l : picoquic_varint_decode ([0] ++ l) (Z.of_nat (length ([0] ++ l))) = Some (1, 0).
Proof.
  unfold picoquic_varint_decode. cbn [app]. change (varint_prefix_length 0) with 1. rewrite (proj2 (Z.ltb_ge _ _)) by (cbn [length]; lia). done.
Qed.

Lemma decode_u64_some e rest : length e = 8%nat -> exists w, decode_u64 (e ++ rest) = Some w.
Proof. intros He. unfold decode_u64, decode_un. rewrite length_app, He. cbn [Nat.ltb Nat.leb Nat.add]. eauto. Qed.

Lemma parse_no_packets malloc_ok e rest : (forall size, malloc_ok size = true) -> length e = 8%nat ->
  parse_packets_range malloc_ok ([0] ++ e ++ rest) = None.
Proof.
  intros Hm He. destruct (decode_u64_some e rest He) as [w Ef].
  assert (En : forall first total l, parse_ranges malloc_ok 0 first total l = None) by (intros; unfold parse_ranges; by rewrite Hm).
  unfold parse_packets_range. rewrite decode_un_zero. cbn [mbind option_bind].
  assert (Edrop : drop (Z.to_nat 1) ([0] ++ e ++ rest) = e ++ rest) by done.
  rewrite Edrop, Ef. cbn [mbind option_bind]. by rewrite En.
Qed.

(** A receiver whose recovered packets have all been acknowledged when it writes a frame announces none; the
    frame that it writes makes the parser of the peer write outside of the array that it allocated. *)
Theorem empty_recovered_frame_overruns (max_bytes B p i : Z) (more_p more_i rest : list Z) malloc_ok :
  32 <= max_bytes -> 18 <= B -> (forall size, malloc_ok size = true) ->
  fill_recovered_frame RedBlackTree.rbt_init max_bytes = inr [] /\
  exists w, serialize_window_recovered_frame true B (p :: more_p) (i :: more_i) 0 = Some (inr w) /\
    parse_window_recovered_frame malloc_ok (w ++ rest) = None.
Proof.
  intros Hm HB Hmal. split; [by apply fill_empty|]. eexists. split.
  - unfold serialize_window_recovered_frame. rewrite serialize_no_packets by lia. cbn [mbind option_bind negb]. rewrite serialize_no_packets; [done|].
    rewrite length_app. unfold encode_u64. rewrite length_encode_un. cbn [length]. lia.
  - unfold parse_window_recovered_frame. rewrite <- !app_assoc. rewrite parse_no_packets; [done|done|]. unfold encode_u64. apply length_encode_un.
Qed.

Lemma empty_recovered_frame_overruns_witness :
  exists w, serialize_window_recovered_frame true 1000 [0] [0] 0 = Some (inr w) /\ parse_window_recovered_frame (fun _ => true) (w ++ []) = None.
Proof. apply (empty_recovered_frame_overruns 1000 1000 0 0 [] [] [] (fun _ => true)); [lia|lia|reflexivity]. Defined.

(** A frame that is cut inside of an integer is accepted: the rest of the announced packets is made up. *)
Example truncated_ranges_accepted :
  match parse_packets_range (fun _ => true) ([4] ++ encode_u64 (Z.lor 5 0xC000000000000000) ++ [0x40]) with
  | Some (Some (a, n, _)) => span <$> take n a
  | _ => []
  end = [(5, 1); (6, 1); (7, 1); (8, 1)].
Proof. vm_compute. reflexivity. Qed.

End FecFrames.
