(* ===== verification/FecSender.v ===== *)
(** * The sender of the FEC window framework

    plugins/simple_fec/window_framework/framework_sender.h
      the queue of repair symbols that wait for a packet
      the window of source symbols in flight, with their deadlines

    Arrays are lists, a null pointer is [None]; [None] as a result is an access outside of an
    array or of a tree.  That a symbol is freed is not modelled. *)
From stdpp Require Import base list gmap numbers.
From Stdlib Require Import ZArith Lia Bool.
From S2P Require Import Prelude RedBlackTree.
#[local] Open Scope Z_scope.

Module FecSender.

(** ** The queue of repair symbols *)

Definition MAX_QUEUED_REPAIR_SYMBOLS : Z := 6.
Definition REPAIR_FRAME_HEADER_SIZE : Z := 4 + 4 + 2 + 2.

Section Queue.
Context {R : Type}.

(** What is queued with a repair symbol. *)
Record item := Item { repair_symbol : option R; first_protected_symbol : Z; fss : Z; n_protected_symbols : Z }.

Record queue := Queue { repair_symbols_queue : list item; queue_head : Z; queue_length : Z }.

Definition empty_queue : queue := Queue (replicate (Z.to_nat MAX_QUEUED_REPAIR_SYMBOLS) (Item None 0 0 0)) 0 0.

Definition with_items (q : queue) (l : list item) : queue := Queue l (queue_head q) (queue_length q).

Definition has_repair_symbol_at_index (q : queue) (idx : Z) : option bool :=
  it ← repair_symbols_queue q !! Z.to_nat idx;
  Some ((0 <? queue_length q) && match repair_symbol it with Some _ => true | None => false end).

Definition remove_item_at_index (q : queue) (idx : Z) : option queue :=
  it ← repair_symbols_queue q !! Z.to_nat idx;
  Some (with_items q (<[Z.to_nat idx := Item None (first_protected_symbol it) (fss it) 0]> (repair_symbols_queue q))).

Definition put_item_at_index (q : queue) (idx : Z) (it : item) : option queue :=
  _ ← repair_symbols_queue q !! Z.to_nat idx;
  Some (with_items q (<[Z.to_nat idx := it]> (repair_symbols_queue q))).

Definition queue_repair_symbol (q : queue) (rs : R) (n_protected first_protected fss : Z) : option queue :=
  let idx := u32 (queue_head q + queue_length q) mod MAX_QUEUED_REPAIR_SYMBOLS in
  b ← has_repair_symbol_at_index q idx;
  q ← (if (b : bool) then
         q ← remove_item_at_index q idx;
         let head := if (1 <? queue_length q) && (queue_head q =? idx) then u32 (queue_head q + 1) mod MAX_QUEUED_REPAIR_SYMBOLS else queue_head q in
         Some (Queue (repair_symbols_queue q) head (queue_length q - 1))
       else Some q);
  q ← put_item_at_index q idx (Item (Some rs) first_protected fss n_protected);
  let head := if queue_length q =? 0 then idx else queue_head q in
  Some (Queue (repair_symbols_queue q) head (queue_length q + 1)).

Definition peek_repair_symbol (q : queue) : option (option (R * item)) :=
  b ← has_repair_symbol_at_index q (queue_head q);
  it ← repair_symbols_queue q !! Z.to_nat (queue_head q);
  Some (if (b : bool) then match repair_symbol it with Some r => Some (r, it) | None => None end else None).

Definition dequeue_repair_symbol (q : queue) : option (option (R * item) * queue) :=
  p ← peek_repair_symbol q;
  match p with
  | None => Some (None, q)
  | Some x =>
    q ← remove_item_at_index q (queue_head q);
    let head := if 1 <? queue_length q then u32 (queue_head q + 1) mod MAX_QUEUED_REPAIR_SYMBOLS else queue_head q in
    Some (Some x, Queue (repair_symbols_queue q) head (queue_length q - 1))
  end.

(** The loop of [get_repair_symbols_from_queue]; [cur] is the range of the symbols taken so far, [budget] is
    [symbols_max - added_symbols].  Every round removes a symbol from the queue. *)
Fixpoint batch_loop (budget : nat) (q : queue) (symbol_size bytes_max consumed : Z) (cur : option (Z * Z)) : option (list (R * item) * queue) :=
  if (0 <? queue_length q) && (consumed + symbol_size <=? bytes_max) then
    match budget with
    | O => Some ([], q)
    | S budget =>
      p ← peek_repair_symbol q;
      '(r, it) ← p;      (* rs->is_fb_fec of a null pointer *)
      let range := (n_protected_symbols it, first_protected_symbol it) in
      if match cur with Some c => bool_decide (c <> range) | None => false end then Some ([], q)
      else
        '(_, q) ← dequeue_repair_symbol q;
        '(l, q) ← batch_loop budget q symbol_size bytes_max (consumed + symbol_size) (Some range);
        Some ((r, it) :: l, q)
    end
  else Some ([], q).

Definition get_repair_symbols_from_queue (q : queue) (symbol_size bytes_max : Z) (symbols_max : nat) : option (list (R * item) * queue) :=
  if queue_length q =? 0 then Some ([], q) else batch_loop symbols_max q symbol_size bytes_max REPAIR_FRAME_HEADER_SIZE None.

(** *** The queue stands for a list of at most six items *)

Definition slot_of (q : queue) (j : Z) : nat := Z.to_nat ((queue_head q + j) mod MAX_QUEUED_REPAIR_SYMBOLS).

Record queue_of (q : queue) (l : list item) : Prop := QueueOf {
  qo_array : length (repair_symbols_queue q) = Z.to_nat MAX_QUEUED_REPAIR_SYMBOLS;
  qo_head : 0 <= queue_head q < MAX_QUEUED_REPAIR_SYMBOLS;
  qo_length : queue_length q = Z.of_nat (length l);
  qo_room : Z.of_nat (length l) <= MAX_QUEUED_REPAIR_SYMBOLS;
  qo_items : forall j it, l !! j = Some it -> repair_symbols_queue q !! slot_of q (Z.of_nat j) = Some it;
  qo_full : Forall (fun it => is_Some (repair_symbol it)) l;
  qo_free : forall j, Z.of_nat (length l) <= j < MAX_QUEUED_REPAIR_SYMBOLS ->
    exists it, repair_symbols_queue q !! slot_of q j = Some it /\ repair_symbol it = None
}.

(** The bounded first-in first-out queue: a full one forgets its oldest item. *)
Definition fifo_push (l : list item) (it : item) : list item :=
  if Z.of_nat (length l) <? MAX_QUEUED_REPAIR_SYMBOLS then l ++ [it] else drop 1 l ++ [it].

Lemma empty_queue_ok : queue_of empty_queue [].
Proof.
  split; unfold empty_queue, MAX_QUEUED_REPAIR_SYMBOLS, slot_of; cbn [repair_symbols_queue queue_head queue_length length]; try (done || lia).
  intros j Hj. exists (Item None 0 0 0). split; [|done]. apply lookup_replicate_2. unfold MAX_QUEUED_REPAIR_SYMBOLS. rewrite Z.mod_small; lia.
Qed.

Lemma slot_of_lt q l j : queue_of q l -> (slot_of q j < length (repair_symbols_queue q))%nat.
Proof.
  intros H. rewrite (qo_array _ _ H). unfold slot_of, MAX_QUEUED_REPAIR_SYMBOLS. pose proof (Z.mod_pos_bound (queue_head q + j) 6). lia.
Qed.

Lemma mod6_inj a j k : 0 <= j < 6 -> 0 <= k < 6 -> (a + j) mod 6 = (a + k) mod 6 -> j = k.
Proof.
  intros Hj Hk E. pose proof (Z.div_mod (a + j) 6). pose proof (Z.div_mod (a + k) 6). lia.
Qed.

Lemma slot_of_inj q l j k : queue_of q l -> 0 <= j < 6 -> 0 <= k < 6 -> slot_of q j = slot_of q k -> j = k.
Proof.
  intros H Hj Hk E. unfold slot_of, MAX_QUEUED_REPAIR_SYMBOLS in E.
  apply (mod6_inj (queue_head q)); [done|done|]. pose proof (Z.mod_pos_bound (queue_head q + j) 6). pose proof (Z.mod_pos_bound (queue_head q + k) 6). lia.
Qed.

Lemma head_slot q l : queue_of q l -> slot_of q 0 = Z.to_nat (queue_head q).
Proof. intros H. pose proof (qo_head _ _ H). unfold slot_of. rewrite Z.add_0_r, Z.mod_small; done. Qed.

Lemma head_item q it l : queue_of q (it :: l) -> repair_symbols_queue q !! Z.to_nat (queue_head q) = Some it.
Proof. intros H. rewrite <- (head_slot q _ H). exact (qo_items _ _ H 0%nat it eq_refl). Qed.

Lemma queue_put_ok q l it : queue_of q l -> Z.of_nat (length l) < MAX_QUEUED_REPAIR_SYMBOLS -> is_Some (repair_symbol it) ->
  queue_of (Queue (<[slot_of q (Z.of_nat (length l)) := it]> (repair_symbols_queue q)) (queue_head q) (queue_length q + 1)) (l ++ [it]).
Proof.
  intros H Hl Hit. pose proof H as [Ha Hh Hq Hr Hi Hf Hfr]. unfold MAX_QUEUED_REPAIR_SYMBOLS in *.
  split; cbn [repair_symbols_queue queue_head queue_length]; unfold MAX_QUEUED_REPAIR_SYMBOLS; rewrite ?length_insert, ?length_app; cbn [length]; try (done || lia).
  - intros j x Hj. change (slot_of _ (Z.of_nat j)) with (slot_of q (Z.of_nat j)). destruct (decide (j = length l)) as [->|Hne].
    + rewrite list_lookup_middle in Hj by done. injection Hj as <-. rewrite list_lookup_insert_eq; [done|]. by eapply slot_of_lt.
    + pose proof (lookup_lt_Some _ _ _ Hj) as Hlt. rewrite length_app in Hlt. cbn [length] in Hlt.
      rewrite lookup_app_l in Hj by lia. rewrite list_lookup_insert_ne; [by apply Hi|]. intros E. eapply slot_of_inj in E; [|done|lia|lia]. lia.
  - apply list.Forall_app. split; [done|by repeat constructor].
  - intros j Hj. change (slot_of _ j) with (slot_of q j). rewrite list_lookup_insert_ne; [apply Hfr; lia|].
    intros E. eapply slot_of_inj in E; [|done|lia|lia]. lia.
Qed.

Lemma remove_head_ok q it l it' : queue_of q (it :: l) -> repair_symbol it' = None ->
  let head := if 1 <? queue_length q then u32 (queue_head q + 1) mod MAX_QUEUED_REPAIR_SYMBOLS else queue_head q in
  queue_of (Queue (<[slot_of q 0 := it']> (repair_symbols_queue q)) head (queue_length q - 1)) l.
Proof.
  intros H Hit'. pose proof H as [Ha Hh Hq Hr Hi Hf Hfr]. unfold MAX_QUEUED_REPAIR_SYMBOLS in *. cbn [length] in *.
  set (q' := Queue _ _ _). cbv zeta. fold q'.
  assert (Hsl : forall j, 0 <= j < 6 -> exists k, 0 <= k < 6 /\ slot_of q' j = slot_of q k /\ (k = j + 1 \/ k = 0 /\ (j = 5 \/ l = []) \/ l = [])).
  { intros j Hj. unfold q', slot_of, MAX_QUEUED_REPAIR_SYMBOLS. cbn [queue_head]. destruct (Z.ltb_spec 1 (queue_length q)) as [Hlt|Hle].
    - rewrite u32_small, Z.add_mod_idemp_l by lia. destruct (Z.eq_dec j 5) as [->|].
      + exists 0. split; [lia|]. split; [|lia]. f_equal. replace (queue_head q + 1 + 5) with (queue_head q + 0 + 1 * 6) by lia. by rewrite Z.mod_add.
      + exists (j + 1). split; [lia|]. split; [|lia]. do 2 f_equal. lia.
    - exists j. split; [done|]. split; [done|]. destruct l; [by right; right|]. cbn [length] in Hq. lia. }
  split; unfold q'; cbn [repair_symbols_queue queue_head queue_length]; rewrite ?length_insert; try (done || lia).
  - destruct (Z.ltb_spec 1 (queue_length q)); [|done]. apply Z.mod_pos_bound. unfold MAX_QUEUED_REPAIR_SYMBOLS. lia.
  - unfold MAX_QUEUED_REPAIR_SYMBOLS. lia.
  - intros j x Hj. pose proof (lookup_lt_Some _ _ _ Hj) as Hlt. fold q'. destruct (Hsl (Z.of_nat j)) as (k & Hk & -> & Hc); [lia|].
    assert (k = Z.of_nat j + 1) as ->. { destruct Hc as [|[[? [?| ->]]| ->]]; [done|lia|done|done]. }
    rewrite list_lookup_insert_ne by (intros E; eapply slot_of_inj in E; [|done|lia|lia]; lia).
    replace (Z.of_nat j + 1) with (Z.of_nat (S j)) by lia. by apply Hi.
  - by inversion_clear Hf.
  - unfold MAX_QUEUED_REPAIR_SYMBOLS. intros j Hj. fold q'. destruct (Hsl j) as (k & Hk & -> & Hc); [lia|].
    destruct (Z.eq_dec k 0) as [->|Hk0].
    + exists it'. split; [|done]. apply list_lookup_insert_eq. by eapply slot_of_lt.
    + rewrite list_lookup_insert_ne by (intros E; eapply slot_of_inj in E; [|done|lia|lia]; lia). apply Hfr.
      destruct Hc as [|[[? _]| ->]]; [lia|lia|cbn [length] in *; lia].
Qed.

Lemma queue_peek_ok q it l : queue_of q (it :: l) -> exists r, repair_symbol it = Some r /\ peek_repair_symbol q = Some (Some (r, it)).
Proof.
  intros H. pose proof H as [Ha Hh Hq Hr Hi Hf Hfr]. inversion_clear Hf as [|? ? [r Er] _]. exists r. split; [done|].
  unfold peek_repair_symbol, has_repair_symbol_at_index. rewrite (head_item q it l H). cbn [mbind option_bind].
  rewrite Er. destruct (Z.ltb_spec 0 (queue_length q)); [done|]. cbn [length] in Hq. lia.
Qed.

Lemma queue_pop_ok q it l : queue_of q (it :: l) -> exists r q', repair_symbol it = Some r /\
  dequeue_repair_symbol q = Some (Some (r, it), q') /\ queue_of q' l.
Proof.
  intros H. destruct (queue_peek_ok q it l H) as (r & Er & Ep). unfold dequeue_repair_symbol. rewrite Ep. cbn [mbind option_bind].
  unfold remove_item_at_index. rewrite (head_item q it l H). cbn [mbind option_bind].
  eexists _, _. split_and!; [done|done|]. cbn [with_items repair_symbols_queue queue_head queue_length]. rewrite <- (head_slot q _ H). by eapply remove_head_ok.
Qed.

Lemma dequeue_empty_ok q : queue_of q [] -> dequeue_repair_symbol q = Some (None, q) /\ queue_length q = 0.
Proof.
  intros H. pose proof (qo_length _ _ H) as Hq. cbn in Hq. split; [|done]. unfold dequeue_repair_symbol, peek_repair_symbol, has_repair_symbol_at_index.
  rewrite <- (head_slot q _ H). destruct (lookup_lt_is_Some_2 _ _ (slot_of_lt q _ 0 H)) as [it ->]. cbn [mbind option_bind]. rewrite Hq. done.
Qed.

Lemma queue_ok q l rs n f s : queue_of q l ->
  exists q', queue_repair_symbol q rs n f s = Some q' /\ queue_of q' (fifo_push l (Item (Some rs) f s n)).
Proof.
  intros H. pose proof H as [Ha Hh Hq Hr Hi Hf Hfr]. unfold queue_repair_symbol, fifo_push. unfold MAX_QUEUED_REPAIR_SYMBOLS in Hh, Hr, Hfr.
  rewrite u32_small by lia. set (it := Item _ _ _ _).
  assert (Hidx : u32 (queue_head q + queue_length q) mod MAX_QUEUED_REPAIR_SYMBOLS = Z.of_nat (slot_of q (Z.of_nat (length l)))).
  { unfold slot_of. rewrite u32_small, Hq by lia. pose proof (Z.mod_pos_bound (queue_head q + Z.of_nat (length l)) MAX_QUEUED_REPAIR_SYMBOLS).
    unfold MAX_QUEUED_REPAIR_SYMBOLS in *. lia. }
  rewrite u32_small in Hidx by lia. rewrite Hidx. unfold has_repair_symbol_at_index. rewrite Nat2Z.id.
  destruct (Z.ltb_spec (Z.of_nat (length l)) MAX_QUEUED_REPAIR_SYMBOLS) as [Hlt|Hge]; unfold MAX_QUEUED_REPAIR_SYMBOLS in Hlt || unfold MAX_QUEUED_REPAIR_SYMBOLS in Hge.
  - destruct (Hfr (Z.of_nat (length l))) as (it0 & E0 & Hn); [lia|]. rewrite E0. cbn [mbind option_bind]. rewrite Hn, andb_false_r. cbn [mbind option_bind].
    unfold put_item_at_index. rewrite Nat2Z.id, E0. cbn [mbind option_bind with_items repair_symbols_queue queue_head queue_length].
    eexists. split; [done|]. destruct (Z.eqb_spec (queue_length q) 0) as [E|].
    + assert (Hz : length l = 0%nat) by lia. rewrite Hz. change (Z.of_nat 0) with 0. rewrite (head_slot q l H), Z2Nat.id by lia.
      pose proof (queue_put_ok q l it H ltac:(unfold MAX_QUEUED_REPAIR_SYMBOLS; lia) ltac:(by eexists)) as Hput. rewrite Hz in Hput. change (Z.of_nat 0) with 0 in Hput.
      by rewrite (head_slot q l H) in Hput.
    + apply queue_put_ok; [done|unfold MAX_QUEUED_REPAIR_SYMBOLS; lia|by eexists].
  - destruct l as [|it0 l]; [cbn in *; lia|]. assert (Hl6 : Z.of_nat (length (it0 :: l)) = 6) by lia.
    assert (Hs0 : slot_of q (Z.of_nat (length (it0 :: l))) = slot_of q 0).
    { unfold slot_of, MAX_QUEUED_REPAIR_SYMBOLS. rewrite Hl6, Z.add_0_r. f_equal. replace (queue_head q + 6) with (queue_head q + 1 * 6) by lia. by rewrite Z.mod_add. }
    rewrite Hs0, (head_slot q _ H), (head_item q it0 l H). cbn [mbind option_bind]. inversion_clear Hf as [|? ? [r0 Er0] _]. rewrite Er0.
    destruct (Z.ltb_spec 0 (queue_length q)); [|lia]. cbn [andb]. unfold remove_item_at_index. rewrite Nat2Z.id, (head_item q it0 l H). cbn [mbind option_bind].
    cbn [with_items repair_symbols_queue queue_head queue_length]. rewrite Z2Nat.id, Z.eqb_refl, andb_true_r by lia.
    pose proof (remove_head_ok q it0 l (Item None (first_protected_symbol it0) (fss it0) 0) H eq_refl) as Hrm. cbv zeta in Hrm. rewrite (head_slot q _ H) in Hrm.
    destruct (Z.ltb_spec 1 (queue_length q)) as [_|]; [|lia]. set (q1 := Queue _ _ _) in *. cbn [length] in Hl6.
    assert (Hs5 : slot_of q1 (Z.of_nat (length l)) = Z.to_nat (queue_head q)).
    { unfold slot_of, q1, MAX_QUEUED_REPAIR_SYMBOLS. cbn [queue_head]. rewrite u32_small, Z.add_mod_idemp_l by lia. f_equal.
      replace (queue_head q + 1 + Z.of_nat (length l)) with (queue_head q + 1 * 6) by lia. rewrite Z.mod_add, Z.mod_small; lia. }
    unfold put_item_at_index. pose proof (slot_of_lt q1 l (Z.of_nat (length l)) Hrm) as Hlt. rewrite Hs5 in Hlt.
    destruct (lookup_lt_is_Some_2 _ _ Hlt) as [x Ex]. rewrite Ex. cbn [mbind option_bind]. eexists. split; [done|].
    cbn [with_items repair_symbols_queue queue_head queue_length].
    destruct (Z.eqb_spec (queue_length q1) 0) as [Ez|_]; [cbn in Ez; lia|]. change (drop 1 (it0 :: l)) with l.
    pose proof (queue_put_ok q1 l it Hrm ltac:(unfold MAX_QUEUED_REPAIR_SYMBOLS; lia) ltac:(by eexists)) as Hput. by rewrite Hs5 in Hput.
Qed.

(** *** Taking symbols for a frame *)

Definition range_of (it : item) : Z * Z := (n_protected_symbols it, first_protected_symbol it).

(** The symbols for a frame with [room] bytes, and those that stay. *)
Fixpoint take_batch (budget : nat) (room symbol_size : Z) (cur : option (Z * Z)) (l : list item) : list item * list item :=
  match budget, l with
  | S budget, it :: l' =>
    if (symbol_size <=? room) && match cur with Some c => bool_decide (c = range_of it) | None => true end then
      let '(taken, rest) := take_batch budget (room - symbol_size) symbol_size (Some (range_of it)) l' in (it :: taken, rest)
    else ([], l)
  | _, _ => ([], l)
  end.

Lemma batch_ok budget : forall q l symbol_size bytes_max consumed cur, queue_of q l ->
  exists taken q', batch_loop budget q symbol_size bytes_max consumed cur = Some (taken, q') /\
    taken.*2 = (take_batch budget (bytes_max - consumed) symbol_size cur l).1 /\
    queue_of q' (take_batch budget (bytes_max - consumed) symbol_size cur l).2 /\ Forall (fun x => repair_symbol x.2 = Some x.1) taken.
Proof.
  induction budget as [|budget IH]; intros q l symbol_size bytes_max consumed cur H; cbn [batch_loop take_batch].
  { exists [], q. destruct (_ && _); split_and!; done. }
  pose proof (qo_length _ _ H) as Hl. destruct l as [|it l].
  { cbn [length] in Hl. rewrite Hl. exists [], q. by split_and!. }
  cbn [length] in Hl. destruct (Z.ltb_spec 0 (queue_length q)); [|lia]. cbn [andb].
  replace (consumed + symbol_size <=? bytes_max) with (symbol_size <=? bytes_max - consumed)
    by (destruct (Z.leb_spec symbol_size (bytes_max - consumed)), (Z.leb_spec (consumed + symbol_size) bytes_max); (done || lia)).
  destruct (symbol_size <=? bytes_max - consumed); cbn [andb]; [|by exists [], q].
  destruct (queue_peek_ok q it l H) as (r & Er & ->). cbn [mbind option_bind]. fold (range_of it).
  assert (Hc : (match cur with Some c => bool_decide (c <> range_of it) | None => false end) =
               negb (match cur with Some c => bool_decide (c = range_of it) | None => true end)).
  { destruct cur as [c|]; [|done]. by rewrite bool_decide_not. }
  rewrite Hc. destruct (match cur with Some c => bool_decide (c = range_of it) | None => true end); cbn [negb]; [|by exists [], q].
  destruct (queue_pop_ok q it l H) as (r' & q' & Er' & -> & H'). cbn [mbind option_bind].
  destruct (IH q' l symbol_size bytes_max (consumed + symbol_size) (Some (range_of it)) H') as (taken & q2 & E & Et & Hq2 & Hf).
  rewrite E. cbn [mbind option_bind]. replace (bytes_max - (consumed + symbol_size)) with (bytes_max - consumed - symbol_size) in * by lia.
  destruct (take_batch _ _ _ _ l) as [t rest] eqn:Etb. cbn [fst snd] in *.
  exists ((r, it) :: taken), q2. split_and!; [done|cbn; by rewrite Et|done|by constructor].
Qed.

(** What a frame gets: a prefix of the queue, for one range, that fits. *)
Lemma take_batch_ok budget symbol_size : 0 <= symbol_size -> forall room cur l taken rest, take_batch budget room symbol_size cur l = (taken, rest) ->
  l = taken ++ rest /\ (length taken <= budget)%nat /\ (taken = [] \/ Z.of_nat (length taken) * symbol_size <= room) /\
  forall c, (cur = Some c \/ exists it l', cur = None /\ l = it :: l' /\ c = range_of it) -> Forall (fun it => range_of it = c) taken.
Proof.
  intros Hs. induction budget as [|budget IH]; intros room cur l taken rest E; cbn [take_batch] in E.
  { injection E as <- <-. split_and!; [done|done|by left|constructor]. }
  destruct l as [|it l]; [injection E as <- <-; split_and!; [done|cbn; lia|by left|constructor]|].
  destruct (_ && _) eqn:Ec; [|injection E as <- <-; split_and!; [done|cbn; lia|by left|constructor]].
  apply andb_true_iff in Ec as [Er Ec]. apply Z.leb_le in Er.
  destruct (take_batch budget _ _ _ l) as [t r] eqn:Et. injection E as <- <-. destruct (IH _ _ _ _ _ Et) as (-> & Hlen & Hfit & Hrange).
  split_and!; [done|cbn; lia| |].
  - right. cbn [length]. destruct Hfit as [->|Hfit]; [cbn; lia|lia].
  - intros c Hc. assert (c = range_of it) as ->.
    { destruct Hc as [->|(it' & l' & -> & [= <- <-] & ->)]; [by apply bool_decide_eq_true in Ec|done]. }
    constructor; [done|]. apply Hrange. by left.
Qed.

(** *** Sequences of operations *)

Inductive queue_op := QueueSymbol (rs : R) (n_protected first_protected fss : Z) | Dequeue | TakeBatch (symbol_size bytes_max : Z).

(** [symbols_max] of [get_repair_frame_to_send] *)
Definition symbols_max : nat := 100.

Definition run_queue_op (q : queue) (o : queue_op) : option (queue * list (R * item)) :=
  match o with
  | QueueSymbol rs n f s => q ← queue_repair_symbol q rs n f s; Some (q, [])
  | Dequeue => '(x, q) ← dequeue_repair_symbol q; Some (q, match x with Some x => [x] | None => [] end)
  | TakeBatch size bytes_max => '(l, q) ← get_repair_symbols_from_queue q size bytes_max symbols_max; Some (q, l)
  end.

Fixpoint run_queue_ops (q : queue) (ops : list queue_op) : option (queue * list (R * item)) :=
  match ops with
  | [] => Some (q, [])
  | o :: ops => '(q, out) ← run_queue_op q o; '(q, outs) ← run_queue_ops q ops; Some (q, out ++ outs)
  end.

(** The same on a list. *)
Definition fifo_op (l : list item) (o : queue_op) : list item * list item :=
  match o with
  | QueueSymbol rs n f s => (fifo_push l (Item (Some rs) f s n), [])
  | Dequeue => (tail l, take 1 l)
  | TakeBatch size bytes_max => let '(taken, rest) := take_batch symbols_max (bytes_max - REPAIR_FRAME_HEADER_SIZE) size None l in (rest, taken)
  end.

Fixpoint fifo_ops (l : list item) (ops : list queue_op) : list item * list item :=
  match ops with
  | [] => (l, [])
  | o :: ops => let '(l, out) := fifo_op l o in let '(l, outs) := fifo_ops l ops in (l, out ++ outs)
  end.

Lemma queue_op_ok q l o : queue_of q l -> exists q' out, run_queue_op q o = Some (q', out) /\ queue_of q' (fifo_op l o).1 /\ out.*2 = (fifo_op l o).2 /\
  Forall (fun x => repair_symbol x.2 = Some x.1) out.
Proof.
  intros H. destruct o as [rs n f s| |size bytes_max]; cbn [run_queue_op fifo_op].
  - destruct (queue_ok q l rs n f s H) as (q' & -> & H'). exists q', []. by split_and!.
  - destruct l as [|it l].
    + destruct (dequeue_empty_ok q H) as [-> _]. exists q, []. by split_and!.
    + destruct (queue_pop_ok q it l H) as (r & q' & Er & -> & H'). exists q', [(r, it)]. cbn. split_and!; [done|done|done|by repeat constructor].
  - unfold get_repair_symbols_from_queue. destruct (Z.eqb_spec (queue_length q) 0) as [E|E].
    + assert (l = []) as -> by (apply length_zero_iff_nil; rewrite (qo_length _ _ H) in E; lia). exists q, []. by split_and!.
    + destruct (batch_ok symbols_max q l size bytes_max REPAIR_FRAME_HEADER_SIZE None H) as (taken & q' & -> & Et & H' & Hf).
      cbn [mbind option_bind]. exists q', taken. destruct (take_batch _ _ _ _ l) as [t r]. by split_and!.
Qed.

Lemma queue_ops_ok ops : forall q l, queue_of q l -> exists q' outs, run_queue_ops q ops = Some (q', outs) /\
  queue_of q' (fifo_ops l ops).1 /\ outs.*2 = (fifo_ops l ops).2 /\ Forall (fun x => repair_symbol x.2 = Some x.1) outs.
Proof.
  induction ops as [|o ops IH]; intros q l H; cbn [run_queue_ops fifo_ops]; [exists q, []; by split_and!|].
  destruct (queue_op_ok q l o H) as (q1 & out & -> & H1 & E1 & F1). cbn [mbind option_bind]. destruct (fifo_op l o) as [l1 out1]. cbn [fst snd] in *.
  destruct (IH q1 l1 H1) as (q2 & outs & -> & H2 & E2 & F2). cbn [mbind option_bind]. destruct (fifo_ops l1 ops) as [l2 outs2]. cbn [fst snd] in *.
  exists q2, (out ++ outs). split_and!; [done|done|by rewrite fmap_app, E1, E2|by apply list.Forall_app].
Qed.

End Queue.
Arguments item : clear implicits.
Arguments queue : clear implicits.
Arguments queue_op : clear implicits.

(** ** The window of source symbols *)

Definition MAX_SENDING_WINDOW_SIZE : Z := 8000.
Definition WINDOW_INITIAL_SYMBOL_ID : Z := 1.
Definition UNDEFINED_SYMBOL_DEADLINE : Z := 0.

Section Window.
Context {A : Type}.

Record slot := Slot { symbol : option A; s_id : Z; received : bool }.

(** The fields of [window_fec_framework_t] that the window uses. *)
Record sender := Sender {
  fec_window : list slot;
  max_id : Z;
  min_id : Z;
  smallest_in_transit : Z;
  highest_in_transit : Z;
  window_length : Z;
  lowest_considered_id_by_peer : Z;
  largest_authorized_id_by_peer : Z;
  symbols_from_deadlines : RedBlackTree.tree Z;
  deadlines_from_symbols : RedBlackTree.tree Z
}.

Definition empty_slot : slot := Slot None 0 false.

(** [create_framework_sender], after its allocations. *)
Definition create_framework_sender : sender :=
  Sender (replicate (Z.to_nat MAX_SENDING_WINDOW_SIZE) empty_slot) 0 0 (WINDOW_INITIAL_SYMBOL_ID - 1) (WINDOW_INITIAL_SYMBOL_ID - 1) 0 0 0
    RedBlackTree.rbt_init RedBlackTree.rbt_init.

Definition set_window (w : sender) (l : list slot) (len : Z) : sender :=
  Sender l (max_id w) (min_id w) (smallest_in_transit w) (highest_in_transit w) len
    (lowest_considered_id_by_peer w) (largest_authorized_id_by_peer w) (symbols_from_deadlines w) (deadlines_from_symbols w).

Definition set_bounds (w : sender) (smallest highest : Z) : sender :=
  Sender (fec_window w) (max_id w) (min_id w) smallest highest (window_length w)
    (lowest_considered_id_by_peer w) (largest_authorized_id_by_peer w) (symbols_from_deadlines w) (deadlines_from_symbols w).

Definition set_ids (w : sender) (max min : Z) : sender :=
  Sender (fec_window w) max min (smallest_in_transit w) (highest_in_transit w) (window_length w)
    (lowest_considered_id_by_peer w) (largest_authorized_id_by_peer w) (symbols_from_deadlines w) (deadlines_from_symbols w).

Definition set_control (w : sender) (lowest largest : Z) : sender :=
  Sender (fec_window w) (max_id w) (min_id w) (smallest_in_transit w) (highest_in_transit w) (window_length w) lowest largest
    (symbols_from_deadlines w) (deadlines_from_symbols w).

Definition set_deadlines (w : sender) (s d : RedBlackTree.tree Z) : sender :=
  Sender (fec_window w) (max_id w) (min_id w) (smallest_in_transit w) (highest_in_transit w) (window_length w)
    (lowest_considered_id_by_peer w) (largest_authorized_id_by_peer w) s d.

Definition window_index (id : Z) : nat := Z.to_nat (id mod MAX_SENDING_WINDOW_SIZE).

Definition can_send_new_source_symbol (w : sender) : bool :=
  ((max_id w =? WINDOW_INITIAL_SYMBOL_ID - 1) && (WINDOW_INITIAL_SYMBOL_ID <=? largest_authorized_id_by_peer w)) ||
  (max_id w <? largest_authorized_id_by_peer w).

Definition is_fec_window_empty (w : sender) : bool := window_length w =? 0.

(** [__remove_source_symbol_from_window] *)
Definition remove_at_index (w : sender) (id : Z) (idx : nat) : option (bool * sender) :=
  sl ← fec_window w !! idx;
  match symbol sl with
  | Some _ =>
    if s_id sl =? id then
      let w := if s_id sl =? min_id w then set_ids w (max_id w) (u32 (min_id w + 1)) else w in
      Some (true, set_window w (<[idx := empty_slot]> (fec_window w)) (window_length w - 1))
    else Some (false, w)
  | None => Some (false, w)
  end.

(** The loop that removes the received symbols behind the first one; each round makes the window shorter. *)
Fixpoint remove_received (fuel : nat) (w : sender) : option (bool * sender) :=
  sl ← fec_window w !! window_index (smallest_in_transit w);
  if negb (is_fec_window_empty w) && received sl then
    match fuel with
    | O => None
    | S fuel =>
      '(ok, w) ← remove_at_index w (smallest_in_transit w) (window_index (smallest_in_transit w));
      if (ok : bool) then remove_received fuel (set_bounds w (u32 (smallest_in_transit w + 1)) (highest_in_transit w)) else Some (false, w)
    end
  else Some (true, w).

(** [_remove_source_symbol_from_window], for a symbol that is there. *)
Definition remove_source_symbol_from_window (w : sender) (id : Z) : option (bool * sender) :=
  if negb (id =? smallest_in_transit w) || is_fec_window_empty w then Some (false, w)
  else
    '(ok, w) ← remove_at_index w id (window_index (smallest_in_transit w));
    if negb ok then Some (false, w)
    else
      let w := set_bounds w (u32 (smallest_in_transit w + 1)) (highest_in_transit w) in
      '(ok, w) ← remove_received (Z.to_nat (window_length w)) w;
      if negb ok then Some (false, w)
      else Some (true, if is_fec_window_empty w then set_bounds w (WINDOW_INITIAL_SYMBOL_ID - 1) (WINDOW_INITIAL_SYMBOL_ID - 1) else w).

(** The symbol is taken out of the trees of deadlines. *)
Definition forget_deadline (w : sender) (id : Z) : option sender :=
  match RedBlackTree.rbt_get (deadlines_from_symbols w) id with
  | Some deadline =>
    d ← RedBlackTree.rbt_delete (deadlines_from_symbols w) id;
    s ← RedBlackTree.rbt_delete (symbols_from_deadlines w) deadline;
    Some (set_deadlines w s d)
  | None => Some w
  end.

(** The code is 0 or -1. *)
Definition remove_source_symbol_id_from_window (w : sender) (id : Z) : option (Z * sender) :=
  sl ← fec_window w !! window_index id;
  match symbol sl with
  | Some _ =>
    if s_id sl =? id then
      w ← forget_deadline w id;
      if negb (is_fec_window_empty w) && (id =? smallest_in_transit w) then
        '(ok, w) ← remove_source_symbol_from_window w id;
        Some (if (ok : bool) then 0 else -1, w)
      else Some (0, w)
    else Some (0, w)
  | None => Some (0, w)
  end.

Definition add_source_symbol_to_window (w : sender) (ss : A) (id : Z) : option (bool * sender) :=
  let idx := window_index id in
  sl ← fec_window w !! idx;
  if (match symbol sl with Some _ => true | None => false end) || (id <=? highest_in_transit w) then Some (false, w)
  else
    let w' := set_window w (<[idx := Slot (Some ss) id false]> (fec_window w)) (window_length w) in
    let w' := if window_length w' =? 0 then set_bounds (set_ids w' id id) id id else w' in
    let w' := set_window w' (fec_window w') (window_length w' + 1) in
    Some (true, set_bounds w' (smallest_in_transit w') id).

Definition window_get_next_source_symbol_id (w : sender) : Z := u32 (max_id w + 1).

(** The id given to the symbol, or -1. *)
Definition protect_source_symbol (w : sender) (ss : A) : option ((Z + Z) * sender) :=
  let id := u32 (max_id w + 1) in
  let w := set_ids w id (min_id w) in
  '(ok, w) ← add_source_symbol_to_window w ss id;
  Some (if (ok : bool) then (inr id, set_bounds w (smallest_in_transit w) id) else (inl (-1), w)).

(** The ids from [id] on that [update_window_bounds] visits. *)
Fixpoint drop_ids (n : nat) (id : Z) (w : sender) : option (Z * sender) :=
  match n with
  | O => Some (0, w)
  | S n =>
    '(err, w) ← remove_source_symbol_id_from_window w id;
    if err =? 0 then drop_ids n (id + 1) w else Some (-1, w)
  end.

Definition update_window_bounds (w : sender) (smallest_id largest_id : Z) : option (Z * sender) :=
  let w := set_control w (Z.max (lowest_considered_id_by_peer w) smallest_id) (Z.max (largest_authorized_id_by_peer w) largest_id) in
  '(err, w) ← drop_ids (Z.to_nat (lowest_considered_id_by_peer w - smallest_in_transit w)) (smallest_in_transit w) w;
  if negb (err =? 0) then Some (-1, w)
  else
    let w := set_bounds w (Z.max (smallest_in_transit w) (lowest_considered_id_by_peer w)) (highest_in_transit w) in
    Some (0, set_ids w (max_id w) (lowest_considered_id_by_peer w)).

Definition sfpid_has_landed (w : sender) (id : Z) (landed : bool) : option (Z * sender) :=
  if landed then
    '(err, w) ← remove_source_symbol_id_from_window w id;
    if err =? 0 then
      sl ← fec_window w !! window_index id;
      Some (err, set_window w (<[window_index id := Slot (symbol sl) (s_id sl) true]> (fec_window w)) (window_length w))
    else Some (err, w)
  else Some (-1, w).

(** The loop of [select_all_inflight_source_symbols] over [n] ids from [id] on. *)
Fixpoint select_ids (n : nat) (id : Z) (w : sender) : option (Z + list A) :=
  match n with
  | O => Some (inr [])
  | S n =>
    sl ← fec_window w !! window_index id;
    match symbol sl with
    | Some ss =>
      if s_id sl =? id then
        r ← select_ids n (id + 1) w;
        Some (match r with inl e => inl e | inr l => inr (ss :: l) end)
      else Some (inl (-1))
    | None => Some (inl (-1))
    end
  end.

Definition select_all_inflight_source_symbols (w : sender) : option (Z + list A) :=
  let start := Z.max (smallest_in_transit w) (highest_in_transit w - Z.min MAX_SENDING_WINDOW_SIZE (highest_in_transit w)) in
  select_ids (Z.to_nat (highest_in_transit w + 1 - start)) start w.

Definition get_current_window_bounds (w : sender) : Z * Z :=
  if is_fec_window_empty w then (0, 0) else (smallest_in_transit w, u32 (highest_in_transit w + 1)).

(** The deadline part of the loop of [window_protect_packet_payload]. *)
Definition record_deadline (w : sender) (id deadline : Z) : option sender :=
  if deadline =? UNDEFINED_SYMBOL_DEADLINE then Some w
  else
    '(id, w) ← (match RedBlackTree.rbt_get (symbols_from_deadlines w) deadline with
                | Some old =>
                  s ← RedBlackTree.rbt_delete (symbols_from_deadlines w) deadline;
                  d ← RedBlackTree.rbt_delete (deadlines_from_symbols w) old;
                  Some (Z.max id old, set_deadlines w s d)
                | None => Some (id, w)
                end);
    s ← RedBlackTree.rbt_put true (symbols_from_deadlines w) deadline id;
    d ← RedBlackTree.rbt_put true (deadlines_from_symbols w) id deadline;
    Some (set_deadlines w s d).

(** The loop over the symbols of a packet: the id of the first one, or the error. *)
Fixpoint protect_symbols (w : sender) (l : list A) (deadline : Z) : option ((Z + list Z) * sender) :=
  match l with
  | [] => Some (inr [], w)
  | ss :: l =>
    '(r, w) ← protect_source_symbol w ss;
    match r with
    | inl e => Some (inl e, w)
    | inr id =>
      w ← record_deadline w id deadline;
      '(r, w) ← protect_symbols w l deadline;
      Some (match r with inl e => inl e | inr ids => inr (id :: ids) end, w)
    end
  end.

(** *** The trees of deadlines *)

Definition deadline_map (t : RedBlackTree.tree Z) : gmap Z Z := RedBlackTree.to_map (RedBlackTree.elements t).

Lemma tree_get t k : RedBlackTree.rbt_ok t -> RedBlackTree.rbt_get t k = deadline_map t !! k.
Proof. intros H. exact (RedBlackTree.ans_get _ _ (RedBlackTree.answers_ok t H) k). Qed.

Lemma tree_put t k v : RedBlackTree.rbt_ok t ->
  exists t', RedBlackTree.rbt_put true t k v = Some t' /\ RedBlackTree.rbt_ok t' /\ deadline_map t' = <[k := v]> (deadline_map t).
Proof.
  intros H. destruct (RedBlackTree.run_op_ok t (RedBlackTree.Put k v) H) as (t' & E & H' & Hs). exists t'. split_and!; [done|done|].
  by inversion Hs.
Qed.

Lemma tree_delete t k : RedBlackTree.rbt_ok t ->
  exists t', RedBlackTree.rbt_delete t k = Some t' /\ RedBlackTree.rbt_ok t' /\ deadline_map t' = delete k (deadline_map t).
Proof.
  intros H. destruct (RedBlackTree.run_op_ok t (RedBlackTree.Delete k) H) as (t' & E & H' & Hs). exists t'. split_and!; [done|done|].
  by inversion Hs.
Qed.

(** The trees are inverse to each other and know only symbols that satisfy [live]. *)
Record deadlines_ok (w : sender) (live : Z -> Prop) : Prop := DeadlinesOk {
  do_symbols : RedBlackTree.rbt_ok (symbols_from_deadlines w);
  do_deadlines : RedBlackTree.rbt_ok (deadlines_from_symbols w);
  do_inverse : forall d i, deadline_map (symbols_from_deadlines w) !! d = Some i <-> deadline_map (deadlines_from_symbols w) !! i = Some d;
  do_live : forall i d, deadline_map (deadlines_from_symbols w) !! i = Some d -> live i
}.

Lemma deadlines_weaken w w' (P Q : Z -> Prop) : symbols_from_deadlines w' = symbols_from_deadlines w -> deadlines_from_symbols w' = deadlines_from_symbols w ->
  (forall i, P i -> Q i) -> deadlines_ok w P -> deadlines_ok w' Q.
Proof. intros E1 E2 HPQ [H1 H2 H3 H4]. split; rewrite ?E1, ?E2; eauto. Qed.

Lemma forget_ok w id live : deadlines_ok w live ->
  exists s d, forget_deadline w id = Some (set_deadlines w s d) /\ deadlines_ok (set_deadlines w s d) (fun i => live i /\ i <> id).
Proof.
  intros [H1 H2 H3 H4]. unfold forget_deadline. rewrite tree_get by done. destruct (_ !! id) as [deadline|] eqn:E.
  - destruct (tree_delete _ id H2) as (d & -> & Hd & Md). destruct (tree_delete _ deadline H1) as (s & Es & Hs & Ms). cbn [mbind option_bind].
    rewrite Es. cbn [mbind option_bind]. exists s, d. split; [done|].
    split; cbn [set_deadlines symbols_from_deadlines deadlines_from_symbols]; [done|done| |]; rewrite ?Md, ?Ms.
    + intros d' i. rewrite !lookup_delete_Some. apply H3 in E as E'. split.
      * intros [Hne Hi]. split; [|by apply H3]. intros <-. apply H3 in Hi. congruence.
      * intros [Hne Hi]. split; [|by apply H3]. intros <-. apply H3 in Hi. congruence.
    + intros i d' [Hne Hi]%lookup_delete_Some. split; [by eapply H4|done].
  - exists (symbols_from_deadlines w), (deadlines_from_symbols w). split; [by destruct w|].
    split; cbn [set_deadlines symbols_from_deadlines deadlines_from_symbols]; [done|done|done|]. intros i d Hi. split; [by eapply H4|congruence].
Qed.

Lemma record_deadline_ok w id deadline (live : Z -> Prop) : deadlines_ok w live -> live id -> (forall i, live i -> i <= id) ->
  deadline_map (deadlines_from_symbols w) !! id = None ->
  exists s d, record_deadline w id deadline = Some (set_deadlines w s d) /\ deadlines_ok (set_deadlines w s d) live.
Proof.
  intros H Hid Hmax Hnew. pose proof H as [H1 H2 H3 H4]. unfold record_deadline. destruct (_ =? _).
  { exists (symbols_from_deadlines w), (deadlines_from_symbols w). split; [by destruct w|]. by destruct w. }
  assert (Hput : forall w, deadlines_ok w live -> deadline_map (deadlines_from_symbols w) !! id = None ->
    deadline_map (symbols_from_deadlines w) !! deadline = None ->
    exists s d, RedBlackTree.rbt_put true (symbols_from_deadlines w) deadline id = Some s /\
      RedBlackTree.rbt_put true (deadlines_from_symbols w) id deadline = Some d /\ deadlines_ok (set_deadlines w s d) live).
  { intros w0 [G1 G2 G3 G4] Hn1 Hn2. destruct (tree_put _ deadline id G1) as (s & Es & Hs & Ms). destruct (tree_put _ id deadline G2) as (d & Ed & Hd & Md).
    exists s, d. split_and!; [done|done|]. split; cbn [set_deadlines symbols_from_deadlines deadlines_from_symbols]; [done|done| |]; rewrite ?Ms, ?Md.
    - intros d' i. rewrite !lookup_insert_Some, G3. split.
      + intros [[-> ->]|[Hne Hi]]; [by left|right]. split; [|done]. intros <-. congruence.
      + intros [[-> ->]|[Hne Hi]]; [by left|right]. split; [|done]. intros <-. apply G3 in Hi. congruence.
    - intros i d' [[-> ->]|[Hne Hi]]%lookup_insert_Some; [done|by eapply G4]. }
  rewrite tree_get by done. destruct (_ !! deadline) as [old|] eqn:E.
  - apply H3 in E as E'. destruct (tree_delete _ deadline H1) as (s & Es & Hs & Ms). destruct (tree_delete _ old H2) as (d & Ed & Hd & Md).
    rewrite Es. cbn [mbind option_bind]. rewrite Ed. cbn [mbind option_bind]. rewrite Z.max_l by (eapply Hmax, H4; done).
    destruct (Hput (set_deadlines w s d)) as (s' & d' & E1 & E2 & Hok).
    + split; cbn [set_deadlines symbols_from_deadlines deadlines_from_symbols]; [done|done| |]; rewrite ?Md, ?Ms.
      * intros d' i. rewrite !lookup_delete_Some. split; (intros [Hne Hi]; split; [|by apply H3]; intros <-; apply H3 in Hi; congruence).
      * intros i d' [_ Hi]%lookup_delete_Some. by eapply H4.
    + cbn [set_deadlines deadlines_from_symbols]. rewrite Md. by apply lookup_delete_None; right.
    + cbn [set_deadlines symbols_from_deadlines]. rewrite Ms. by apply lookup_delete_None; left.
    + cbn [set_deadlines symbols_from_deadlines deadlines_from_symbols] in *. rewrite E1. cbn [mbind option_bind]. rewrite E2. cbn [mbind option_bind].
      by exists s', d'.
  - cbn [mbind option_bind]. destruct (Hput w H Hnew E) as (s' & d' & E1 & E2 & Hok). rewrite E1. cbn [mbind option_bind]. rewrite E2. cbn [mbind option_bind].
    by exists s', d'.
Qed.

(** *** The window stands for the symbols from the first one that is not acknowledged on *)

Record window_of (w : sender) (sent : list A) (acked : gset Z) (first : Z) : Prop := WindowOf {
  wo_array : length (fec_window w) = Z.to_nat MAX_SENDING_WINDOW_SIZE;
  wo_count : Z.of_nat (length sent) < 2 ^ 31;
  wo_max : max_id w = Z.of_nat (length sent);
  wo_first : 1 <= first <= Z.of_nat (length sent) + 1;
  wo_below : forall k, 1 <= k < first -> k ∈ acked;
  wo_acked : forall k, k ∈ acked -> 1 <= k <= Z.of_nat (length sent);
  wo_length : window_length w = Z.of_nat (length sent) + 1 - first;
  wo_room : Z.of_nat (length sent) + 1 - first <= MAX_SENDING_WINDOW_SIZE;
  wo_slots : forall id, first <= id <= Z.of_nat (length sent) -> exists ss, sent !! Z.to_nat (id - 1) = Some ss /\
    fec_window w !! window_index id = Some (Slot (Some ss) id (bool_decide (id ∈ acked)));
  wo_free : forall idx sl, fec_window w !! idx = Some sl -> is_Some (symbol sl) -> first <= s_id sl <= Z.of_nat (length sent) /\ idx = window_index (s_id sl);
  wo_deadlines : deadlines_ok w (fun i => first <= i <= Z.of_nat (length sent) /\ i ∉ acked)
}.

(** ... and its counters are up to date. *)
Record sender_of (w : sender) (sent : list A) (acked : gset Z) (first : Z) : Prop := SenderOf {
  so_window : window_of w sent acked first;
  so_start : first <= Z.of_nat (length sent) -> first ∉ acked;
  so_bounds : first <= Z.of_nat (length sent) -> smallest_in_transit w = first /\ highest_in_transit w = Z.of_nat (length sent);
  so_highest : highest_in_transit w <= Z.of_nat (length sent)
}.

Lemma window_index_inj a b : a mod MAX_SENDING_WINDOW_SIZE = b mod MAX_SENDING_WINDOW_SIZE -> - MAX_SENDING_WINDOW_SIZE < a - b < MAX_SENDING_WINDOW_SIZE -> a = b.
Proof.
  unfold MAX_SENDING_WINDOW_SIZE. intros E H. pose proof (Z.div_mod a 8000). pose proof (Z.div_mod b 8000). lia.
Qed.

Lemma window_index_eq a b : window_index a = window_index b -> - MAX_SENDING_WINDOW_SIZE < a - b < MAX_SENDING_WINDOW_SIZE -> a = b.
Proof.
  intros E H. apply window_index_inj; [|done]. unfold window_index in E.
  pose proof (Z.mod_pos_bound a MAX_SENDING_WINDOW_SIZE). pose proof (Z.mod_pos_bound b MAX_SENDING_WINDOW_SIZE).
  unfold MAX_SENDING_WINDOW_SIZE in *. lia.
Qed.

Lemma window_index_lt w id : length (fec_window w) = Z.to_nat MAX_SENDING_WINDOW_SIZE -> (window_index id < length (fec_window w))%nat.
Proof.
  intros ->. unfold window_index. pose proof (Z.mod_pos_bound id MAX_SENDING_WINDOW_SIZE). unfold MAX_SENDING_WINDOW_SIZE in *. lia.
Qed.

(** What the peer allows; the operations on the symbols leave it alone. *)
Definition control (w : sender) : Z * Z := (lowest_considered_id_by_peer w, largest_authorized_id_by_peer w).

Lemma window_of_fields w w' sent acked first : window_of w sent acked first -> fec_window w' = fec_window w -> max_id w' = max_id w ->
  window_length w' = window_length w -> symbols_from_deadlines w' = symbols_from_deadlines w -> deadlines_from_symbols w' = deadlines_from_symbols w ->
  window_of w' sent acked first.
Proof.
  intros [Ha Hc Hm Hfi Hb Hac Hl Hr Hs Hfr Hd] E1 E2 E3 E4 E5. split; rewrite ?E1, ?E2, ?E3; try done.
  eapply deadlines_weaken; [exact E4|exact E5| |exact Hd]. done.
Qed.

Lemma remove_first w sent acked first : window_of w sent acked first -> first <= Z.of_nat (length sent) -> first ∈ acked ->
  exists w', remove_at_index w first (window_index first) = Some (true, w') /\ window_of w' sent acked (first + 1) /\
    smallest_in_transit w' = smallest_in_transit w /\ highest_in_transit w' = highest_in_transit w /\ control w' = control w.
Proof.
  intros H Hf Hin. pose proof H as [Ha Hc Hm Hfi Hb Hac Hl Hr Hs Hfr Hd]. unfold remove_at_index, control.
  destruct (Hs first ltac:(lia)) as (ss & Ess & Esl). rewrite Esl. cbn [mbind option_bind symbol s_id]. rewrite Z.eqb_refl.
  set (w0 := if _ =? min_id w then _ else w).
  assert (Hw0 : max_id w0 = max_id w /\ fec_window w0 = fec_window w /\ window_length w0 = window_length w /\
    symbols_from_deadlines w0 = symbols_from_deadlines w /\ deadlines_from_symbols w0 = deadlines_from_symbols w /\
    smallest_in_transit w0 = smallest_in_transit w /\ highest_in_transit w0 = highest_in_transit w /\ control w0 = control w)
    by (unfold w0; by destruct (_ =? min_id w)).
  clearbody w0. destruct Hw0 as (Emax & Ewin & Elen & Esd & Eds & Esm & Ehi & Eco). eexists. split; [done|]. split; [|done].
  assert (Hidx : forall id, first < id <= Z.of_nat (length sent) -> window_index first <> window_index id).
  { intros id Hid E. apply window_index_eq in E; lia. }
  split; cbn [set_window fec_window max_id window_length]; rewrite ?Ewin, ?length_insert; try (done || lia).
  - intros k Hk. destruct (Z.eq_dec k first) as [->|]; [done|apply Hb; lia].
  - intros id Hid. rewrite list_lookup_insert_ne by (apply Hidx; lia). apply Hs. lia.
  - intros idx sl Hsl Hss. destruct (decide (idx = window_index first)) as [->|Hne].
    + rewrite list_lookup_insert_eq in Hsl by (by apply window_index_lt). injection Hsl as <-. by destruct Hss.
    + rewrite list_lookup_insert_ne in Hsl by done. destruct (Hfr _ _ Hsl Hss) as [H1 ->]. split; [|done].
      destruct (Z.eq_dec (s_id sl) first) as [E|]; [by rewrite E in Hne|lia].
  - eapply deadlines_weaken; [| | |exact Hd]; [done|done|]. intros i [Hi Hna]. split; [|done].
    destruct (Z.eq_dec i first) as [->|]; [done|lia].
Qed.

Lemma remove_received_ok fuel : forall w sent acked first, window_of w sent acked first -> window_length w <= Z.of_nat fuel ->
  smallest_in_transit w = first -> highest_in_transit w = Z.of_nat (length sent) ->
  exists w' first', remove_received fuel w = Some (true, w') /\ first <= first' /\ window_of w' sent acked first' /\
    (first' <= Z.of_nat (length sent) -> first' ∉ acked) /\ smallest_in_transit w' = first' /\ highest_in_transit w' = Z.of_nat (length sent) /\
    control w' = control w.
Proof.
  induction fuel as [|fuel IH]; intros w sent acked first H Hfuel Hsm Hhi; cbn [remove_received]; rewrite Hsm.
  all: destruct (lookup_lt_is_Some_2 _ _ (window_index_lt w first (wo_array _ _ _ _ H))) as [sl Esl]; rewrite Esl; cbn [mbind option_bind].
  all: unfold is_fec_window_empty; pose proof (wo_first _ _ _ _ H) as Hfi; pose proof (wo_length _ _ _ _ H) as Hl.
  all: destruct (Z.eqb_spec (window_length w) 0) as [E0|E0]; cbn [negb andb].
  - exists w, first. split_and!; [done|lia|done|lia|done..].
  - lia.
  - exists w, first. split_and!; [done|lia|done|lia|done..].
  - destruct (wo_slots _ _ _ _ H first ltac:(lia)) as (ss & _ & E). rewrite Esl in E. injection E as ->. cbn [received].
    destruct (bool_decide_reflect (first ∈ acked)) as [Hin|Hni].
    + destruct (remove_first w sent acked first H ltac:(lia) Hin) as (w' & -> & H' & Hs' & Hh' & Hlo'). cbn [mbind option_bind].
      rewrite Hs', Hh', Hsm, Hhi, u32_small by (pose proof (wo_count _ _ _ _ H); lia).
      destruct (IH (set_bounds w' (first + 1) (Z.of_nat (length sent))) sent acked (first + 1)) as (w2 & f2 & E2 & Hf2 & H2 & Hn2 & Hs2 & Hh2 & Hlo2).
      * by apply (window_of_fields w').
      * cbn [set_bounds window_length]. rewrite (wo_length _ _ _ _ H'). lia.
      * done.
      * done.
      * exists w2, f2. split_and!; [done|lia|done|done|done|done|]. by rewrite Hlo2.
    + exists w, first. split_and!; [done|lia|done|done|done..].
Qed.

(** A symbol of the window is acknowledged, its deadline forgotten; the slot is marked in a second step. *)
Definition mark (l : list slot) (id : Z) : list slot := alter (fun sl => Slot (symbol sl) (s_id sl) true) (window_index id) l.

Lemma window_of_ack w s d sent acked first id : window_of w sent acked first -> first <= id <= Z.of_nat (length sent) ->
  deadlines_ok (set_deadlines w s d) (fun i => (first <= i <= Z.of_nat (length sent) /\ i ∉ acked) /\ i <> id) ->
  window_of (set_window (set_deadlines w s d) (mark (fec_window w) id) (window_length w)) sent (acked ∪ {[id]}) first.
Proof.
  intros H Hid Hdl. pose proof H as [Ha Hc Hm Hfi Hb Hac Hl Hr Hs Hfr Hd].
  split; cbn [set_window set_deadlines fec_window max_id window_length]; try (done || lia).
  - unfold mark. by rewrite length_alter.
  - intros k Hk. apply elem_of_union_l, Hb. lia.
  - intros k [Hk|Hk%elem_of_singleton]%elem_of_union; [by apply Hac|lia].
  - intros i Hi. destruct (Hs i Hi) as (ss & Ess & Esl). exists ss. split; [done|]. unfold mark. destruct (Z.eq_dec i id) as [->|Hne].
    + rewrite list_lookup_alter_eq, Esl. cbn. rewrite bool_decide_true by set_solver. done.
    + rewrite list_lookup_alter_ne by (intros E; apply window_index_eq in E; lia). rewrite Esl. do 2 f_equal. apply bool_decide_ext. set_solver.
  - intros idx sl Hsl Hss. unfold mark in Hsl. destruct (decide (idx = window_index id)) as [->|Hne].
    + rewrite list_lookup_alter_eq in Hsl. apply fmap_Some in Hsl as (sl0 & Hsl0 & ->). cbn in *. by apply Hfr.
    + rewrite list_lookup_alter_ne in Hsl by done. by apply Hfr.
  - eapply deadlines_weaken; [| | |exact Hdl]; [done|done|]. cbn. set_solver.
Qed.

Lemma remove_marked w id : fec_window w !! window_index id <> None ->
  remove_at_index (set_window w (mark (fec_window w) id) (window_length w)) id (window_index id) = remove_at_index w id (window_index id) \/
  exists sl, fec_window w !! window_index id = Some sl /\ ~ (is_Some (symbol sl) /\ s_id sl = id).
Proof.
  intros Hsome. unfold remove_at_index, mark. cbn [set_window fec_window]. rewrite list_lookup_alter_eq.
  destruct (fec_window w !! window_index id) as [[ss i r]|] eqn:E; [|done]. cbn.
  destruct ss as [ss|]; [|right; eexists; split; [done|]; by intros [[] _]]. destruct (Z.eqb_spec i id) as [->|Hne]; [|right; eexists; split; [done|]; by intros []].
  left. assert (El : forall f (x : slot), <[window_index id := x]> (alter f (window_index id) (fec_window w)) = <[window_index id := x]> (fec_window w)).
  { intros f x. apply list_eq. intros k. destruct (decide (k = window_index id)) as [->|Hk].
    - pose proof (lookup_lt_Some _ _ _ E). rewrite !list_lookup_insert_eq; [done|done|by rewrite length_alter].
    - by rewrite !list_lookup_insert_ne, list_lookup_alter_ne. }
  destruct (id =? min_id w); cbn [set_ids set_window fec_window max_id min_id smallest_in_transit highest_in_transit window_length
    lowest_considered_id_by_peer largest_authorized_id_by_peer symbols_from_deadlines deadlines_from_symbols]; by rewrite El.
Qed.

(** The first symbol of the window leaves it with the acknowledged ones behind it. *)
Lemma remove_id_first w sent acked first : sender_of w sent acked first -> first <= Z.of_nat (length sent) ->
  exists w' first', remove_source_symbol_id_from_window w first = Some (0, w') /\ sender_of w' sent (acked ∪ {[first]}) first' /\ first < first' /\
    control w' = control w.
Proof.
  intros [H Hst Hbd Hhi] Hf. pose proof (wo_slots _ _ _ _ H first ltac:(lia)) as (ss & Ess & Esl). destruct (Hbd Hf) as [Hsm Hhi'].
  pose proof (wo_first _ _ _ _ H) as Hfi. pose proof (wo_length _ _ _ _ H) as Hl. pose proof (wo_count _ _ _ _ H) as Hcnt.
  unfold remove_source_symbol_id_from_window. rewrite Esl. cbn [mbind option_bind symbol s_id]. rewrite Z.eqb_refl.
  destruct (forget_ok w first _ (wo_deadlines _ _ _ _ H)) as (s & d & -> & Hdl). cbn [mbind option_bind].
  pose proof (window_of_ack w s d sent acked first first H ltac:(lia) Hdl) as Hack. set (w1 := set_deadlines w s d) in *.
  assert (Ene : is_fec_window_empty w1 = false). { unfold is_fec_window_empty, w1. cbn. apply Z.eqb_neq. lia. }
  rewrite Ene. change (smallest_in_transit w1) with (smallest_in_transit w). rewrite Hsm, Z.eqb_refl. cbn [negb andb].
  unfold remove_source_symbol_from_window. rewrite Ene. change (smallest_in_transit w1) with (smallest_in_transit w). rewrite Hsm, Z.eqb_refl. cbn [negb orb].
  destruct (remove_marked w1 first) as [Erm|(sl & E & Hno)]; [cbn; by rewrite Esl| |exfalso; cbn in E; rewrite Esl in E; injection E as <-; apply Hno; cbn; eauto].
  destruct (remove_first _ sent _ first Hack Hf ltac:(set_solver)) as (w2 & E2 & H2 & Hs2 & Hh2 & Hc2). rewrite <- Erm.
  change (set_window w1 (mark (fec_window w1) first) (window_length w1)) with (set_window w1 (mark (fec_window w) first) (window_length w)). rewrite E2.
  cbn [mbind option_bind negb]. cbn in Hs2, Hh2. rewrite Hs2, Hh2, Hsm, Hhi', u32_small by lia.
  set (w3 := set_bounds w2 (first + 1) (Z.of_nat (length sent))).
  assert (H3 : window_of w3 sent (acked ∪ {[first]}) (first + 1)) by (by apply (window_of_fields w2)).
  destruct (remove_received_ok (Z.to_nat (window_length w3)) w3 sent _ (first + 1) H3) as (w4 & f4 & -> & Hf4 & H4 & Hn4 & Hs4 & Hh4 & Hc4); [|done|done|].
  { rewrite (wo_length _ _ _ _ H3). lia. }
  cbn [mbind option_bind negb]. eexists _, f4. split; [done|].
  assert (Hc : control w4 = control w) by (rewrite Hc4; exact Hc2).
  pose proof (wo_length _ _ _ _ H4) as Hl4. unfold is_fec_window_empty. destruct (Z.eqb_spec (window_length w4) 0) as [E0|E0]; (split; [|split; [lia|done]]).
  - split; [by apply (window_of_fields w4)|done|intros; lia|unfold WINDOW_INITIAL_SYMBOL_ID; cbn; lia].
  - split; [done|done|done|lia].
Qed.

(** An id that is not in the window. *)
Lemma remove_id_absent w sent acked first id : window_of w sent acked first ->
  id < first \/ Z.of_nat (length sent) < id -> remove_source_symbol_id_from_window w id = Some (0, w).
Proof.
  intros H Hid. unfold remove_source_symbol_id_from_window. destruct (lookup_lt_is_Some_2 _ _ (window_index_lt w id (wo_array _ _ _ _ H))) as [sl Esl].
  rewrite Esl. cbn [mbind option_bind]. destruct (symbol sl) as [ss|] eqn:Es; [|done]. destruct (Z.eqb_spec (s_id sl) id) as [E|]; [|done].
  destruct (wo_free _ _ _ _ H _ _ Esl) as [H1 _]; [by rewrite Es|lia].
Qed.

(** A later symbol stays; only its deadline goes. *)
Lemma remove_id_inside w sent acked first id : sender_of w sent acked first -> first < id <= Z.of_nat (length sent) ->
  exists s d, remove_source_symbol_id_from_window w id = Some (0, set_deadlines w s d) /\
    deadlines_ok (set_deadlines w s d) (fun i => (first <= i <= Z.of_nat (length sent) /\ i ∉ acked) /\ i <> id).
Proof.
  intros [H Hst Hbd Hhi] Hid. destruct (wo_slots _ _ _ _ H id ltac:(lia)) as (ss & Ess & Esl). destruct (Hbd ltac:(lia)) as [Hsm _].
  unfold remove_source_symbol_id_from_window. rewrite Esl. cbn [mbind option_bind symbol s_id]. rewrite Z.eqb_refl.
  destruct (forget_ok w id _ (wo_deadlines _ _ _ _ H)) as (s & d & -> & Hdl). cbn [mbind option_bind].
  exists s, d. split; [|done]. cbn [set_deadlines smallest_in_transit]. rewrite Hsm. destruct (Z.eqb_spec id first); [lia|]. by rewrite andb_false_r.
Qed.

(** Marking the slot of an id that has left the window changes nothing. *)
Lemma mark_absent w sent acked first id : sender_of w sent acked first -> Z.of_nat (length sent) - MAX_SENDING_WINDOW_SIZE < id < first ->
  sender_of (set_window w (mark (fec_window w) id) (window_length w)) sent acked first.
Proof.
  intros [H Hst Hbd Hhi] Hid. split; [|done..]. pose proof H as [Ha Hc Hm Hfi Hb Hac Hl Hr Hs Hfr Hd].
  split; cbn [set_window fec_window max_id window_length]; try (done || lia).
  - unfold mark. by rewrite length_alter.
  - intros i Hi. unfold mark. rewrite list_lookup_alter_ne by (intros E; apply window_index_eq in E; lia). by apply Hs.
  - intros idx sl Hsl Hss. unfold mark in Hsl. destruct (decide (idx = window_index id)) as [->|Hne].
    + rewrite list_lookup_alter_eq in Hsl. apply fmap_Some in Hsl as (sl0 & Hsl0 & ->). cbn in *. by apply Hfr.
    + rewrite list_lookup_alter_ne in Hsl by done. by apply Hfr.
  - by eapply deadlines_weaken; [..|exact Hd].
Qed.

Lemma mark_insert l id sl : l !! window_index id = Some sl -> <[window_index id := Slot (symbol sl) (s_id sl) true]> l = mark l id.
Proof. intros E. unfold mark. apply list_eq. intros k. destruct (decide (k = window_index id)) as [->|Hk].
  - rewrite list_lookup_alter_eq, E, list_lookup_insert_eq; [done|]. by apply lookup_lt_Some in E.
  - by rewrite list_lookup_insert_ne, list_lookup_alter_ne.
Qed.

Lemma landed_ok w sent acked first id : sender_of w sent acked first -> 1 <= id <= Z.of_nat (length sent) ->
  Z.of_nat (length sent) - MAX_SENDING_WINDOW_SIZE < id ->
  exists w' first', sfpid_has_landed w id true = Some (0, w') /\ sender_of w' sent (acked ∪ {[id]}) first' /\ control w' = control w.
Proof.
  intros H Hid Hnear. pose proof (so_window _ _ _ _ H) as Hw. unfold sfpid_has_landed.
  assert (Hmark : forall w : sender, length (fec_window w) = Z.to_nat MAX_SENDING_WINDOW_SIZE ->
    (sl ← fec_window w !! window_index id; Some (0, set_window w (<[window_index id := Slot (symbol sl) (s_id sl) true]> (fec_window w)) (window_length w))) =
    Some (0, set_window w (mark (fec_window w) id) (window_length w))).
  { intros w0 Hlen. destruct (lookup_lt_is_Some_2 _ _ (window_index_lt w0 id Hlen)) as [sl Esl]. rewrite Esl. cbn [mbind option_bind]. by rewrite mark_insert. }
  destruct (Z.lt_trichotomy id first) as [Hlt|[->|Hgt]].
  - rewrite (remove_id_absent _ _ _ _ _ Hw) by lia. cbn [mbind option_bind]. rewrite Hmark by apply Hw.
    eexists _, first. split; [done|]. split; [|done]. assert (id ∈ acked) by (apply (wo_below _ _ _ _ Hw); lia).
    replace (acked ∪ {[id]}) with acked by set_solver. apply mark_absent; [done|lia].
  - destruct (remove_id_first w sent acked first H ltac:(lia)) as (w' & f' & -> & H' & Hf' & Hc'). cbn [mbind option_bind].
    rewrite Hmark by apply H'. eexists _, f'. split; [done|]. split; [|done]. apply mark_absent; [done|lia].
  - destruct (remove_id_inside w sent acked first id H ltac:(lia)) as (s & d & -> & Hdl). cbn [mbind option_bind].
    rewrite (Hmark (set_deadlines w s d)) by apply (wo_array _ _ _ _ Hw). eexists _, first. split; [done|]. split; [|done]. destruct H as [_ Hst Hbd Hhi].
    split; [apply (window_of_ack w s d); [done|lia|done]|..]; [|done..]. intros Hf. specialize (Hst Hf). set_solver by lia.
Qed.

Lemma drop_ids_ok n : forall w sent acked first id, sender_of w sent acked first -> id <= first \/ first = Z.of_nat (length sent) + 1 ->
  exists w' acked' first', drop_ids n id w = Some (0, w') /\ sender_of w' sent acked' first' /\ control w' = control w /\
    (forall k, k ∈ acked' <-> k ∈ acked \/ 1 <= k <= Z.of_nat (length sent) /\ k < id + Z.of_nat n).
Proof.
  induction n as [|n IH]; intros w sent acked first id H Hid; cbn [drop_ids].
  { exists w, acked, first. split_and!; [done..|]. intros k. split; [by left|]. intros [|Hk]; [done|]. apply (wo_below _ _ _ _ (so_window _ _ _ _ H)). lia. }
  pose proof (wo_first _ _ _ _ (so_window _ _ _ _ H)) as Hfi.
  destruct (decide (id = first /\ first <= Z.of_nat (length sent))) as [[-> Hle]|Hno].
  - destruct (remove_id_first w sent acked first H Hle) as (w1 & f1 & -> & H1 & Hf1 & Hc1). cbn [mbind option_bind]. change (0 =? 0) with true. cbv iota.
    destruct (IH w1 sent _ f1 (first + 1) H1) as (w' & acked' & f' & -> & H' & Hc' & Hk'); [lia|].
    exists w', acked', f'. split_and!; [done|done|by rewrite Hc'|]. intros k. rewrite Hk'. pose proof (wo_below _ _ _ _ (so_window _ _ _ _ H) k). set_solver by lia.
  - rewrite (remove_id_absent w sent acked first id (so_window _ _ _ _ H)) by lia. cbn [mbind option_bind]. change (0 =? 0) with true. cbv iota.
    destruct (IH w sent acked first (id + 1) H) as (w' & acked' & f' & -> & H' & Hc' & Hk'); [lia|].
    exists w', acked', f'. split_and!; [done|done|done|]. intros k. rewrite Hk'. replace (id + 1 + Z.of_nat n) with (id + Z.of_nat (S n)) by lia. done.
Qed.

Lemma update_bounds_ok w sent acked first smallest largest : sender_of w sent acked first ->
  exists w' acked' first', update_window_bounds w smallest largest = Some (0, w') /\ sender_of w' sent acked' first' /\
    control w' = (Z.max (control w).1 smallest, Z.max (control w).2 largest) /\
    (forall k, k ∈ acked' <-> k ∈ acked \/ 1 <= k <= Z.of_nat (length sent) /\ k < (control w').1).
Proof.
  intros H. unfold update_window_bounds. set (lo := Z.max _ smallest). set (la := Z.max _ largest). set (w0 := set_control w lo la).
  assert (H0 : sender_of w0 sent acked first). { destruct H as [H ? ? ?]. split; [|done..]. by apply (window_of_fields w). }
  pose proof (wo_first _ _ _ _ (so_window _ _ _ _ H)) as Hfi. change (lowest_considered_id_by_peer w0) with lo.
  destruct (drop_ids_ok (Z.to_nat (lo - smallest_in_transit w0)) w0 sent acked first (smallest_in_transit w0) H0) as (w' & acked' & f' & -> & H' & Hc' & Hk').
  { destruct (Z_le_gt_dec first (Z.of_nat (length sent))) as [Hle|]; [left|right; lia]. apply (so_bounds _ _ _ _ H0) in Hle as [-> _]. lia. }
  cbn [mbind option_bind negb]. change (0 =? 0) with true. cbn [negb]. eexists _, acked', f'. split; [done|].
  injection Hc' as Elo Ela. cbn in Elo, Ela. destruct H' as [Hw' Hst' Hbd' Hhi'].
  assert (Hin : forall k, 1 <= k <= Z.of_nat (length sent) -> k < lo -> k ∈ acked').
  { intros k Hk Hlt. rewrite Hk'. destruct (Z_le_gt_dec first (Z.of_nat (length sent))) as [Hle|].
    - right. lia.
    - left. apply (wo_below _ _ _ _ (so_window _ _ _ _ H)). lia. }
  split; [|split].
  - split; [by apply (window_of_fields w')|done| |done]. intros Hle. destruct (Hbd' Hle) as [E1 E2]. cbn. rewrite E1, E2, Elo. split; [|done].
    apply Z.max_l. destruct (Z_le_gt_dec lo f'); [done|]. exfalso. apply (Hst' Hle), Hin; [|lia]. pose proof (wo_first _ _ _ _ Hw'). lia.
  - unfold control. cbn. by rewrite Elo, Ela.
  - intros k. unfold control. cbn. rewrite Elo. split.
    + intros [?|[Hk Hlt]]%Hk'; [by left|]. destruct (Z_le_gt_dec lo (smallest_in_transit w0)) as [Hle|]; [left|right; lia].
      apply (wo_below _ _ _ _ (so_window _ _ _ _ H)). destruct (Z_le_gt_dec first (Z.of_nat (length sent))) as [Hf|]; [|lia].
      apply (so_bounds _ _ _ _ H0) in Hf as [E _]. lia.
    + intros [?|[Hk Hlt]]; [apply Hk'; by left|by apply Hin].
Qed.

(** *** New symbols *)

Lemma protect_ok w sent acked first ss : sender_of w sent acked first -> Z.of_nat (length sent) + 1 < 2 ^ 31 ->
  Z.of_nat (length sent) + 1 - first < MAX_SENDING_WINDOW_SIZE ->
  exists w', protect_source_symbol w ss = Some (inr (Z.of_nat (length sent) + 1), w') /\ sender_of w' (sent ++ [ss]) acked first /\ control w' = control w /\
    deadlines_from_symbols w' = deadlines_from_symbols w.
Proof.
  intros [H Hst Hbd Hhi] Hcnt Hroom. pose proof H as [Ha Hc Hm Hfi Hb Hac Hl Hr Hs Hfr Hd]. set (n := Z.of_nat (length sent)) in *.
  assert (Hn : Z.of_nat (length (sent ++ [ss])) = n + 1) by (rewrite length_app; cbn; lia).
  unfold protect_source_symbol. rewrite Hm, u32_small by lia. unfold add_source_symbol_to_window. cbn [set_ids fec_window highest_in_transit window_length].
  destruct (lookup_lt_is_Some_2 _ _ (window_index_lt w (n + 1) Ha)) as [sl Esl]. rewrite Esl. cbn [mbind option_bind].
  assert (Efree : symbol sl = None).
  { destruct (symbol sl) eqn:E; [|done]. destruct (Hfr _ _ Esl) as [H1 H2]; [by rewrite E|]. apply window_index_eq in H2; lia. }
  rewrite Efree. cbn [orb]. destruct (Z.leb_spec (n + 1) (highest_in_transit w)); [lia|].
  cbn [set_window window_length mbind option_bind]. eexists. split; [done|].
  set (wf := set_bounds _ _ _).
  assert (Hfields : fec_window wf = <[window_index (n + 1) := Slot (Some ss) (n + 1) false]> (fec_window w) /\ max_id wf = n + 1 /\
    window_length wf = window_length w + 1 /\ symbols_from_deadlines wf = symbols_from_deadlines w /\ deadlines_from_symbols wf = deadlines_from_symbols w /\
    highest_in_transit wf = n + 1 /\ control wf = control w /\ smallest_in_transit wf = if window_length w =? 0 then n + 1 else smallest_in_transit w)
    by (unfold wf; destruct (window_length w =? 0); by split_and!).
  clearbody wf. destruct Hfields as (E1 & E2 & E3 & E4 & E5 & E6 & E7 & E8). split; [|done].
  split; [split|..]; rewrite ?Hn, ?E1, ?E2, ?E3, ?length_insert; try (done || lia).
  - intros k Hk%Hac. lia.
  - intros id Hid. destruct (Z.eq_dec id (n + 1)) as [->|Hne].
    + exists ss. rewrite list_lookup_insert_eq by (by apply window_index_lt). split; [apply list_lookup_middle; lia|].
      do 2 f_equal. symmetry. apply bool_decide_false. intros ?%Hac. lia.
    + destruct (Hs id ltac:(lia)) as (ss' & Ess & Eid). exists ss'. rewrite list_lookup_insert_ne by (intros E; apply window_index_eq in E; lia).
      split; [|done]. rewrite lookup_app_l; [done|]. apply lookup_lt_Some in Ess. lia.
  - intros idx x Hx Hss. destruct (decide (idx = window_index (n + 1))) as [->|Hne].
    + rewrite list_lookup_insert_eq in Hx by (by apply window_index_lt). injection Hx as <-. cbn. split; [lia|done].
    + rewrite list_lookup_insert_ne in Hx by done. destruct (Hfr _ _ Hx Hss). split; [lia|done].
  - eapply deadlines_weaken; [exact E4|exact E5| |exact Hd]. cbn. intros i [Hi ?]. split; [lia|done].
  - intros Hf. destruct (Z.eq_dec first (n + 1)) as [->|]; [|apply Hst; lia]. intros ?%Hac. lia.
  - intros Hf. rewrite E8, E6. split; [|done]. destruct (Z.eqb_spec (window_length w) 0); [lia|]. apply Hbd. lia.
Qed.

Lemma sender_of_deadlines w s d sent acked first : sender_of w sent acked first ->
  deadlines_ok (set_deadlines w s d) (fun i => first <= i <= Z.of_nat (length sent) /\ i ∉ acked) -> sender_of (set_deadlines w s d) sent acked first.
Proof. intros [[] ? ? ?] Hd. by split; [split|..]. Qed.

Lemma protect_symbols_ok deadline l : forall w sent acked first, sender_of w sent acked first -> Z.of_nat (length sent) + Z.of_nat (length l) < 2 ^ 31 ->
  Z.of_nat (length sent) + Z.of_nat (length l) + 1 - first <= MAX_SENDING_WINDOW_SIZE ->
  exists w', protect_symbols w l deadline = Some (inr (seqZ (Z.of_nat (length sent) + 1) (Z.of_nat (length l))), w') /\
    sender_of w' (sent ++ l) acked first /\ control w' = control w.
Proof.
  induction l as [|ss l IH]; intros w sent acked first H Hcnt Hroom; cbn [protect_symbols].
  { exists w. rewrite app_nil_r. by split_and!. }
  cbn [length] in Hcnt, Hroom. destruct (protect_ok w sent acked first ss H) as (w1 & -> & H1 & Hc1 & Ed1); [lia|lia|]. cbn [mbind option_bind].
  assert (Hn : Z.of_nat (length (sent ++ [ss])) = Z.of_nat (length sent) + 1) by (rewrite length_app; cbn; lia).
  pose proof (so_window _ _ _ _ H) as Hw. pose proof (wo_first _ _ _ _ Hw) as Hfi.
  destruct (record_deadline_ok w1 (Z.of_nat (length sent) + 1) deadline _ (wo_deadlines _ _ _ _ (so_window _ _ _ _ H1))) as (s & d & -> & Hdl).
  { split; [lia|]. intros ?%(wo_acked _ _ _ _ Hw). lia. }
  { lia. }
  { rewrite Ed1. destruct (_ !! _) as [x|] eqn:E; [|done]. apply (do_live _ _ (wo_deadlines _ _ _ _ Hw)) in E. lia. }
  cbn [mbind option_bind]. pose proof (sender_of_deadlines w1 s d _ _ _ H1 Hdl) as H2.
  destruct (IH _ _ _ _ H2) as (w' & -> & H' & Hc'); [lia|lia|]. cbn [mbind option_bind]. exists w'. split_and!.
  - rewrite Hn. do 3 f_equal. cbn [length]. rewrite (seqZ_cons _ (Z.of_nat (S (length l)))) by lia. f_equal. f_equal; lia.
  - by rewrite <- app_assoc in H'.
  - by rewrite Hc'.
Qed.

(** *** Reading the window *)

Lemma select_ok w sent acked first : sender_of w sent acked first -> first <= Z.of_nat (length sent) ->
  select_all_inflight_source_symbols w = Some (inr (drop (Z.to_nat (first - 1)) sent)).
Proof.
  intros [H Hst Hbd Hhi] Hf. destruct (Hbd Hf) as [Es Eh]. pose proof (wo_first _ _ _ _ H) as Hfi. pose proof (wo_room _ _ _ _ H) as Hr.
  assert (Hloop : forall k id, first <= id -> id + Z.of_nat k = Z.of_nat (length sent) + 1 -> select_ids k id w = Some (inr (drop (Z.to_nat (id - 1)) sent))).
  { induction k as [|k IH]; intros id Hid Hk; cbn [select_ids]; [by rewrite drop_ge by lia|].
    destruct (wo_slots _ _ _ _ H id ltac:(lia)) as (ss & Ess & ->). cbn [mbind option_bind symbol s_id]. rewrite Z.eqb_refl, IH by lia. cbn [mbind option_bind].
    do 2 f_equal. rewrite (drop_S _ ss _ Ess). do 2 f_equal. lia. }
  unfold select_all_inflight_source_symbols. rewrite Es, Eh. replace (Z.max _ _) with first; [apply Hloop; lia|].
  unfold MAX_SENDING_WINDOW_SIZE in *. lia.
Qed.

Lemma create_sender_ok : sender_of create_framework_sender [] ∅ 1.
Proof.
  assert (Ew : fec_window create_framework_sender = replicate (Z.to_nat MAX_SENDING_WINDOW_SIZE) empty_slot) by reflexivity.
  assert (Hd : deadlines_ok create_framework_sender (fun _ => False)).
  { split; [exact RedBlackTree.tree_init_ok|exact RedBlackTree.tree_init_ok|intros d i; by split|]. intros i d E. discriminate E. }
  split; [split|..]; rewrite ?Ew; cbn [length].
  - apply length_replicate.
  - lia.
  - reflexivity.
  - lia.
  - lia.
  - intros k Hk. by apply elem_of_empty in Hk.
  - reflexivity.
  - unfold MAX_SENDING_WINDOW_SIZE. lia.
  - lia.
  - intros idx sl [-> _]%lookup_replicate_1 [? E]. discriminate E.
  - eapply deadlines_weaken; [reflexivity|reflexivity| |exact Hd]. contradiction.
  - lia.
  - lia.
  - cbn [create_framework_sender highest_in_transit]. unfold WINDOW_INITIAL_SYMBOL_ID. lia.
Qed.

(** *** Sequences of operations, and what they mean *)

Inductive window_op := Protect (l : list A) (deadline : Z) | Landed (id : Z) | Bounds (smallest largest : Z).

(** The ids given to the symbols, or the error code. *)
Definition run_window_op (w : sender) (o : window_op) : option ((Z + list Z) * sender) :=
  match o with
  | Protect l deadline => protect_symbols w l deadline
  | Landed id => '(err, w) ← sfpid_has_landed w id true; Some (if err =? 0 then inr [] else inl err, w)
  | Bounds smallest largest => '(err, w) ← update_window_bounds w smallest largest; Some (if err =? 0 then inr [] else inl err, w)
  end.

Fixpoint run_window_ops (w : sender) (ops : list window_op) : option (list (Z + list Z) * sender) :=
  match ops with
  | [] => Some ([], w)
  | o :: ops => '(r, w) ← run_window_op w o; '(rs, w) ← run_window_ops w ops; Some (r :: rs, w)
  end.

(** All the symbols that were ever sent (the first has id 1), the ids that need no protection any more, and the bounds that
    the peer announced. *)
Record spec := Spec { sp_sent : list A; sp_acked : gset Z; sp_lowest : Z; sp_largest : Z }.

Definition sent_count (sp : spec) : Z := Z.of_nat (length (sp_sent sp)).

Definition init_spec : spec := Spec [] ∅ 0 0.

(** The window has room for the symbols; an acknowledged id is not older than the array is long. *)
Definition window_guard (sp : spec) (o : window_op) : bool :=
  match o with
  | Protect l _ => (sent_count sp + Z.of_nat (length l) <? 2 ^ 31) &&
      forallb (fun k => bool_decide (k ∈ sp_acked sp)) (seqZ 1 (sent_count sp + Z.of_nat (length l) - MAX_SENDING_WINDOW_SIZE))
  | Landed id => (1 <=? id) && (id <=? sent_count sp) && (sent_count sp - MAX_SENDING_WINDOW_SIZE <? id)
  | Bounds _ _ => true
  end.

Definition window_spec (sp : spec) (o : window_op) : list Z * spec :=
  match o with
  | Protect l _ => (seqZ (sent_count sp + 1) (Z.of_nat (length l)), Spec (sp_sent sp ++ l) (sp_acked sp) (sp_lowest sp) (sp_largest sp))
  | Landed id => ([], Spec (sp_sent sp) (sp_acked sp ∪ {[id]}) (sp_lowest sp) (sp_largest sp))
  | Bounds smallest largest =>
    let lowest := Z.max (sp_lowest sp) smallest in
    ([], Spec (sp_sent sp) (sp_acked sp ∪ list_to_set (seqZ 1 (Z.min (sent_count sp) (lowest - 1)))) lowest (Z.max (sp_largest sp) largest))
  end.

(** The outcome of a sequence of operations that respect the guard. *)
Fixpoint window_specs (sp : spec) (ops : list window_op) : option (list (list Z) * spec) :=
  match ops with
  | [] => Some ([], sp)
  | o :: ops =>
    if window_guard sp o then
      let '(ids, sp) := window_spec sp o in '(idss, sp) ← window_specs sp ops; Some (ids :: idss, sp)
    else None
  end.

Definition refines (w : sender) (sp : spec) : Prop :=
  control w = (sp_lowest sp, sp_largest sp) /\ exists first, sender_of w (sp_sent sp) (sp_acked sp) first.

Lemma window_op_ok w sp o : refines w sp -> window_guard sp o = true ->
  exists w', run_window_op w o = Some (inr (window_spec sp o).1, w') /\ refines w' (window_spec sp o).2.
Proof.
  intros (Hc & first & H) Hg. pose proof (so_window _ _ _ _ H) as Hw. pose proof (wo_first _ _ _ _ Hw) as Hfi. unfold sent_count in *.
  destruct o as [l deadline|id|smallest largest]; cbn [window_guard run_window_op window_spec fst snd] in *.
  - apply andb_true_iff in Hg as [Hcnt Hroom]. apply Z.ltb_lt in Hcnt. rewrite forallb_forall in Hroom.
    destruct (protect_symbols_ok deadline l w _ _ _ H Hcnt) as (w' & -> & H' & Hc').
    + destruct (Z_le_gt_dec (Z.of_nat (length (sp_sent sp)) + Z.of_nat (length l) + 1 - first) MAX_SENDING_WINDOW_SIZE) as [|Hgt]; [done|exfalso].
      assert (Hmem : first ∈ sp_acked sp).
      { eapply bool_decide_eq_true, Hroom, list_elem_of_In, elem_of_seqZ. unfold sent_count. lia. }
      destruct (Z_le_gt_dec first (Z.of_nat (length (sp_sent sp)))) as [Hle|]; [by apply (so_start _ _ _ _ H Hle)|].
      apply (wo_acked _ _ _ _ Hw) in Hmem. lia.
    + exists w'. split; [done|]. split; [by rewrite Hc', Hc|]. by exists first.
  - apply andb_true_iff in Hg as [[H1%Z.leb_le H2%Z.leb_le]%andb_true_iff H3%Z.ltb_lt]. unfold sent_count in *.
    destruct (landed_ok w _ _ _ id H) as (w' & f' & -> & H' & Hc'); [lia|lia|]. cbn [mbind option_bind]. exists w'. split; [done|].
    split; [by rewrite Hc', Hc|by exists f'].
  - destruct (update_bounds_ok w _ _ _ smallest largest H) as (w' & acked' & f' & -> & H' & Hc' & Hk'). cbn [mbind option_bind]. exists w'. split; [done|].
    rewrite Hc in Hc'. split; [done|]. exists f'. cbn [sp_sent sp_acked]. replace (_ ∪ _) with acked'; [done|].
    apply set_eq. intros k. rewrite Hk', Hc'. cbn [fst]. rewrite elem_of_union, elem_of_list_to_set, elem_of_seqZ. unfold sent_count.
    split; (intros [?|?]; [by left|right; lia]).
Qed.

Lemma window_ops_ok ops : forall w sp idss sp', refines w sp -> window_specs sp ops = Some (idss, sp') ->
  exists w', run_window_ops w ops = Some (inr <$> idss, w') /\ refines w' sp'.
Proof.
  induction ops as [|o ops IH]; intros w sp idss sp' H E; cbn [run_window_ops window_specs] in *; [injection E as <- <-; by exists w|].
  destruct (window_guard sp o) eqn:Hg; [|done]. destruct (window_op_ok w sp o H Hg) as (w1 & -> & H1). destruct (window_spec sp o) as [ids sp1].
  cbn [mbind option_bind fst snd] in *. destruct (window_specs sp1 ops) as [[idss1 sp2]|] eqn:E1; [|done]. injection E as <- <-.
  destruct (IH w1 sp1 idss1 sp2 H1 E1) as (w' & -> & H'). by exists w'.
Qed.

(** What can be read from a sender in terms of the specification. *)
Lemma refines_reads w sp : refines w sp -> exists first,
  (1 <= first <= sent_count sp + 1 /\ (forall k, 1 <= k < first -> k ∈ sp_acked sp) /\ (first <= sent_count sp -> first ∉ sp_acked sp)) /\
  window_get_next_source_symbol_id w = sent_count sp + 1 /\
  can_send_new_source_symbol w = (sent_count sp <? sp_largest sp) /\
  (first = sent_count sp + 1 -> get_current_window_bounds w = (0, 0)) /\
  (first <= sent_count sp -> get_current_window_bounds w = (first, sent_count sp + 1) /\
    select_all_inflight_source_symbols w = Some (inr (drop (Z.to_nat (first - 1)) (sp_sent sp)))) /\
  (forall id d, RedBlackTree.rbt_get (deadlines_from_symbols w) id = Some d ->
    (first <= id <= sent_count sp /\ id ∉ sp_acked sp) /\ RedBlackTree.rbt_get (symbols_from_deadlines w) d = Some id).
Proof.
  intros (Hc & first & H). exists first. pose proof (so_window _ _ _ _ H) as Hw. pose proof (wo_first _ _ _ _ Hw) as Hfi. pose proof (wo_count _ _ _ _ Hw) as Hcnt.
  pose proof (wo_max _ _ _ _ Hw) as Hm. pose proof (wo_length _ _ _ _ Hw) as Hl. unfold sent_count. injection Hc as Elo Ela. split; [split_and!; [lia|lia|apply Hw|apply H]|]. split; [|split; [|split; [|split]]].
  - unfold window_get_next_source_symbol_id. rewrite Hm. apply u32_small. lia.
  - unfold can_send_new_source_symbol, WINDOW_INITIAL_SYMBOL_ID. rewrite Hm, Ela. generalize (sp_largest sp). lia.
  - intros E. unfold get_current_window_bounds, is_fec_window_empty. destruct (Z.eqb_spec (window_length w) 0); [done|lia].
  - intros E. split; [|by eapply select_ok]. unfold get_current_window_bounds, is_fec_window_empty. destruct (Z.eqb_spec (window_length w) 0); [lia|].
    destruct (so_bounds _ _ _ _ H E) as [-> ->]. by rewrite u32_small by lia.
  - destruct (wo_deadlines _ _ _ _ Hw) as [D1 D2 D3 D4]. intros id d. rewrite !tree_get by done. intros E. split; [by eapply D4|by apply D3].
Qed.

End Window.
Arguments slot : clear implicits.
Arguments sender : clear implicits.
Arguments window_op : clear implicits.
Arguments spec : clear implicits.

(** ** The theorems *)

(** The ring of six slots in which repair symbols wait is a bounded first-in first-out queue: whatever is queued, dequeued or
    taken for a frame, no operation reads outside of the ring or meets an empty slot, the symbols come out as from a
    list that forgets its oldest element when a seventh one arrives, and each comes out with the data it was queued with. *)
Theorem repair_queue_refines_fifo {R : Type} (ops : list (queue_op R)) :
  exists q outs, run_queue_ops empty_queue ops = Some (q, outs) /\
    outs.*2 = (fifo_ops [] ops).2 /\ Forall (fun x => repair_symbol x.2 = Some x.1) outs /\
    queue_of q (fifo_ops [] ops).1.
Proof.
  destruct (queue_ops_ok ops empty_queue [] empty_queue_ok) as (q & outs & E & H & Eo & Hf). by exists q, outs.
Qed.

(** A frame of repair symbols gets a prefix of the queue, made of symbols for one and the same range of source symbols, that
    fits into the bytes it was given; what does not go into the frame stays queued in its order. *)
Theorem batch_is_one_range {R : Type} (q : queue R) (l : list (item R)) (symbol_size bytes_max : Z) :
  queue_of q l -> 0 <= symbol_size ->
  exists taken q' rest, get_repair_symbols_from_queue q symbol_size bytes_max symbols_max = Some (taken, q') /\
    l = taken.*2 ++ rest /\ queue_of q' rest /\
    (taken = [] \/ REPAIR_FRAME_HEADER_SIZE + Z.of_nat (length taken) * symbol_size <= bytes_max) /\
    (exists c, Forall (fun x => range_of x.2 = c) taken).
Proof.
  intros H Hs. destruct (queue_op_ok q l (TakeBatch symbol_size bytes_max) H) as (q' & out & E & H' & Eo & _).
  cbn [run_queue_op fifo_op] in *. destruct (get_repair_symbols_from_queue _ _ _ _) as [[taken q1]|]; [|done]. injection E as -> ->.
  destruct (take_batch _ _ _ _ l) as [t rest] eqn:Et. cbn [fst snd] in *. subst t. destruct (take_batch_ok _ _ Hs _ _ _ _ _ Et) as (-> & _ & Hfit & Hc).
  exists out, q', rest. split_and!; [done..| |].
  - rewrite length_fmap in Hfit. destruct Hfit as [Hn|Hfit]; [left|right; lia]. by apply fmap_nil_inv in Hn.
  - destruct out as [|x out]; [exists (0, 0); constructor|]. exists (range_of x.2). assert (Hall : Forall (fun it => range_of it = range_of x.2) (x :: out).*2).
    { apply Hc. right. eexists _, _. by split_and!. }
    by apply list.Forall_fmap in Hall.
Qed.

(** C29. The sender of source symbols, over any sequence of packets to protect, acknowledged symbols and bounds sent by the peer
    in which every packet finds room in the window (see [full_window_burns_id]), an acknowledged id is one of the last 8000 that
    were sent, which is the length of the array, and fewer than 2^31 symbols are sent: no operation fails or reads outside of the
    array, symbols get the ids 1, 2, 3, ..., and the window is what is left of them: it starts at the first id that is neither
    acknowledged nor below the peer's bound and ends with the last one sent, and [select_all_inflight_source_symbols] gives
    exactly these symbols in their order.  A new symbol is allowed as far as the peer said.  A deadline is only kept for a symbol
    that still waits, and the two trees of deadlines are inverse. *)
Theorem sender_window_refines {A : Type} (ops : list (window_op A)) (idss : list (list Z)) (sp : spec A) :
  window_specs init_spec ops = Some (idss, sp) ->
  exists w first, run_window_ops create_framework_sender ops = Some (inr <$> idss, w) /\
    (1 <= first <= sent_count sp + 1 /\ (forall k, 1 <= k < first -> k ∈ sp_acked sp) /\ (first <= sent_count sp -> first ∉ sp_acked sp)) /\
    window_get_next_source_symbol_id w = sent_count sp + 1 /\
    can_send_new_source_symbol w = (sent_count sp <? sp_largest sp) /\
    (first = sent_count sp + 1 -> get_current_window_bounds w = (0, 0)) /\
    (first <= sent_count sp -> get_current_window_bounds w = (first, sent_count sp + 1) /\
      select_all_inflight_source_symbols w = Some (inr (drop (Z.to_nat (first - 1)) (sp_sent sp)))) /\
    (forall id d, RedBlackTree.rbt_get (deadlines_from_symbols w) id = Some d ->
      (first <= id <= sent_count sp /\ id ∉ sp_acked sp) /\ RedBlackTree.rbt_get (symbols_from_deadlines w) d = Some id).
Proof.
  intros E. assert (H0 : refines create_framework_sender (@init_spec A)) by (split; [reflexivity|exists 1; exact create_sender_ok]).
  destruct (window_ops_ok ops _ _ _ _ H0 E) as (w & Er & H). destruct (refines_reads w sp H) as (first & Hrest). exists w, first. split; [exact Er|exact Hrest].
Qed.

(** Three packets, of two, one and two symbols; the second and the fourth symbol arrive, then the peer moves to the third. *)
Definition sample_ops : list (window_op Z) :=
  [Protect [10; 20] 500; Protect [30] 0; Landed 2; Protect [40; 50] 600; Landed 4; Bounds 3 100].


Lemma sender_window_refines_witness :
  exists w first, run_window_ops create_framework_sender sample_ops = Some (inr <$> [[1; 2]; [3]; []; [4; 5]; []; []], w) /\ 1 <= first.
Proof.
  destruct (sender_window_refines sample_ops [[1; 2]; [3]; []; [4; 5]; []; []] (default init_spec (snd <$> window_specs init_spec sample_ops)))
    as (w & first & H & Hf & _); [vm_compute; reflexivity|].
  exists w, first. split; [exact H|lia].
Defined.

Example sample_window : (fun r => (select_all_inflight_source_symbols r.2, get_current_window_bounds r.2)) <$> run_window_ops create_framework_sender sample_ops =
  Some (Some (inr [30; 40; 50]), (3, 6)).
Proof. vm_compute. reflexivity. Qed.

(** A full window: the new symbol is refused, but its id is used up, so that the ids of the window will have a hole. *)
Theorem full_window_burns_id {A : Type} (w : sender A) (sent : list A) (acked : gset Z) (first : Z) (ss : A) :
  sender_of w sent acked first -> Z.of_nat (length sent) + 2 < 2 ^ 31 -> Z.of_nat (length sent) + 1 - first = MAX_SENDING_WINDOW_SIZE ->
  exists w', protect_source_symbol w ss = Some (inl (-1), w') /\ fec_window w' = fec_window w /\
    window_get_next_source_symbol_id w = Z.of_nat (length sent) + 1 /\ window_get_next_source_symbol_id w' = Z.of_nat (length sent) + 2.
Proof.
  intros [H Hst Hbd Hhi] Hcnt Hfull. pose proof (wo_first _ _ _ _ H) as Hfi. unfold protect_source_symbol, add_source_symbol_to_window, window_get_next_source_symbol_id.
  rewrite (wo_max _ _ _ _ H), u32_small by lia. cbn [set_ids fec_window max_id].
  assert (E : window_index (Z.of_nat (length sent) + 1) = window_index first).
  { unfold window_index. f_equal. replace (Z.of_nat (length sent) + 1) with (first + 1 * MAX_SENDING_WINDOW_SIZE) by lia. apply Z.mod_add. done. }
  rewrite E. unfold MAX_SENDING_WINDOW_SIZE in Hfull. destruct (wo_slots _ _ _ _ H first ltac:(lia)) as (ss0 & _ & ->). cbn [mbind option_bind symbol orb].
  eexists. split_and!; [done|done|done|]. cbn [set_ids max_id]. rewrite u32_small; lia.
Qed.

(** Eight thousand symbols that nobody acknowledges. *)
Lemma full_window_burns_id_witness :
  exists (w w' : sender Z), protect_source_symbol w 7 = Some (inl (-1), w') /\ window_get_next_source_symbol_id w' = 8002.
Proof.
  destruct (protect_symbols_ok 0 (replicate (Z.to_nat 8000) (1 : Z)) create_framework_sender [] ∅ 1 create_sender_ok) as (w & _ & H & _).
  { rewrite length_replicate. cbn [length]. lia. }
  { rewrite length_replicate. cbn [length]. unfold MAX_SENDING_WINDOW_SIZE. lia. }
  exists w. destruct (full_window_burns_id w ([] ++ replicate (Z.to_nat 8000) 1) ∅ 1 7 H) as (w' & E & _ & _ & En).
  { rewrite length_app, length_replicate. cbn [length]. lia. }
  { rewrite length_app, length_replicate. cbn [length]. unfold MAX_SENDING_WINDOW_SIZE. lia. }
  exists w'. split; [exact E|]. rewrite En, length_app, length_replicate. cbn [length]. lia.
Defined.

(** Two symbols wait; the second one is for another range and does not go into the frame of the first. *)
Lemma batch_is_one_range_witness :
  exists (q q' : queue Z) taken rest, get_repair_symbols_from_queue q 100 1200 symbols_max = Some (taken, q') /\
    [Item (Some 1) 5 0 3; Item (Some 2) 6 0 3] = taken.*2 ++ rest /\ queue_of q' rest.
Proof.
  destruct (queue_ops_ok [QueueSymbol 1 3 5 0; QueueSymbol 2 3 6 0] empty_queue [] empty_queue_ok) as (q & _ & _ & H & _).
  change (queue_of q [Item (Some 1) 5 0 3; Item (Some 2) 6 0 3]) in H.
  destruct (batch_is_one_range q _ 100 1200 H ltac:(lia)) as (taken & q' & rest & E & El & H' & _). by exists q, q', taken, rest.
Defined.

End FecSender.
