(* ===== verification/Transport.v ===== *)
(** * Transport parameters

    picoquic/transport.c
      the writer and the parser of the transport parameters that the two sides exchange in the
      TLS handshake, with the flow control variables of the connection that they set
    picoquic/quicctx.c
      the default parameters

    The three initial limits of stream data are those of [Streams.stream_parameters]; the rest of
    [picoquic_tp_t] is [tp].  Bytes in memory are a list that starts at the pointer; the second
    argument says how many of them belong to the extension.  What the pluglets of
    write_transport_parameter return is an argument of the writer; the parameters that the parser
    hands to plugins are collected in [plugin_tps].  Results of the parser: the outer option is
    [None] when the fuel of the loop is used up, the inner one when the code accesses memory
    outside of an object. *)
From stdpp Require Import base list numbers.
From Stdlib Require Import ZArith Lia Bool.
From S2P Require Import Prelude IntFormat Streams Packet.
Import IntFormat.
#[local] Open Scope Z_scope.

Module Transport.

(** ** Constants *)

Definition PICOQUIC_ERROR_EXTENSION_BUFFER_TOO_SMALL : Z := 0x400 + 11.
Definition PICOQUIC_ERROR_DETECTED : Z := 0x400 + 21.
Definition PICOQUIC_TRANSPORT_PARAMETER_ERROR : Z := 0x8.
Definition PICOQUIC_RESET_SECRET_SIZE : Z := 16.
Definition PICOQUIC_STREAM_ID_BIDIR : Z := 0.
Definition PICOQUIC_STREAM_ID_UNIDIR : Z := 2.

Abbreviation connection_id := (list Z).

(** ** Data *)

(** The parameter types of [picoquic_tp_enum]. *)
Definition picoquic_tp_original_connection_id : Z := 0x00.
Definition picoquic_tp_max_idle_timeout : Z := 0x01.
Definition picoquic_tp_stateless_reset_secret : Z := 0x02.
Definition picoquic_tp_max_packet_size : Z := 0x03.
Definition picoquic_tp_initial_max_data : Z := 0x04.
Definition picoquic_tp_initial_max_stream_data_bidi_local : Z := 0x05.
Definition picoquic_tp_initial_max_stream_data_bidi_remote : Z := 0x06.
Definition picoquic_tp_initial_max_stream_data_uni : Z := 0x07.
Definition picoquic_tp_initial_max_streams_bidi : Z := 0x08.
Definition picoquic_tp_initial_max_streams_uni : Z := 0x09.
Definition picoquic_tp_ack_delay_exponent : Z := 0x0a.
Definition picoquic_tp_max_ack_delay : Z := 0x0b.
Definition picoquic_tp_disable_active_migration : Z := 0x0c.
Definition picoquic_tp_preferred_address : Z := 0x0d.
Definition picoquic_tp_active_connection_id_limit : Z := 0x0e.
Definition picoquic_tp_supported_plugins : Z := 0x79.
Definition picoquic_tp_plugins_to_inject : Z := 0x7a.

(** [pa_id] is what the array of the connection id holds up to its length; the length is kept apart, since a
    failing parser sets it alone. *)
Record preferred_address := PreferredAddress {
  ipv4_address : list Z; ipv4_port : Z; ipv6_address : list Z; ipv6_port : Z;
  pa_id_len : Z; pa_id : list Z; stateless_reset_token : list Z
}.

(** [picoquic_tp_t] without the limits of stream data. *)
Record tp := TP {
  original_connection_id : connection_id;
  max_idle_timeout : Z;
  max_packet_size : Z;
  initial_max_data : Z;
  initial_max_streams_bidi : Z;
  initial_max_streams_uni : Z;
  ack_delay_exponent : Z;
  max_ack_delay : Z;
  disable_active_migration : Z;
  tp_preferred_address : preferred_address;
  active_connection_id_limit : Z;
  supported_plugins : option (list Z);
  plugins_to_inject : option (list Z)
}.

Definition set_original_connection_id (v : connection_id) (x : tp) : tp :=
  TP v (max_idle_timeout x) (max_packet_size x) (initial_max_data x) (initial_max_streams_bidi x) (initial_max_streams_uni x) (ack_delay_exponent x) (max_ack_delay x) (disable_active_migration x) (tp_preferred_address x) (active_connection_id_limit x) (supported_plugins x) (plugins_to_inject x).
Definition set_max_idle_timeout (v : Z) (x : tp) : tp :=
  TP (original_connection_id x) v (max_packet_size x) (initial_max_data x) (initial_max_streams_bidi x) (initial_max_streams_uni x) (ack_delay_exponent x) (max_ack_delay x) (disable_active_migration x) (tp_preferred_address x) (active_connection_id_limit x) (supported_plugins x) (plugins_to_inject x).
Definition set_max_packet_size (v : Z) (x : tp) : tp :=
  TP (original_connection_id x) (max_idle_timeout x) v (initial_max_data x) (initial_max_streams_bidi x) (initial_max_streams_uni x) (ack_delay_exponent x) (max_ack_delay x) (disable_active_migration x) (tp_preferred_address x) (active_connection_id_limit x) (supported_plugins x) (plugins_to_inject x).
Definition set_initial_max_data (v : Z) (x : tp) : tp :=
  TP (original_connection_id x) (max_idle_timeout x) (max_packet_size x) v (initial_max_streams_bidi x) (initial_max_streams_uni x) (ack_delay_exponent x) (max_ack_delay x) (disable_active_migration x) (tp_preferred_address x) (active_connection_id_limit x) (supported_plugins x) (plugins_to_inject x).
Definition set_initial_max_streams_bidi (v : Z) (x : tp) : tp :=
  TP (original_connection_id x) (max_idle_timeout x) (max_packet_size x) (initial_max_data x) v (initial_max_streams_uni x) (ack_delay_exponent x) (max_ack_delay x) (disable_active_migration x) (tp_preferred_address x) (active_connection_id_limit x) (supported_plugins x) (plugins_to_inject x).
Definition set_initial_max_streams_uni (v : Z) (x : tp) : tp :=
  TP (original_connection_id x) (max_idle_timeout x) (max_packet_size x) (initial_max_data x) (initial_max_streams_bidi x) v (ack_delay_exponent x) (max_ack_delay x) (disable_active_migration x) (tp_preferred_address x) (active_connection_id_limit x) (supported_plugins x) (plugins_to_inject x).
Definition set_ack_delay_exponent (v : Z) (x : tp) : tp :=
  TP (original_connection_id x) (max_idle_timeout x) (max_packet_size x) (initial_max_data x) (initial_max_streams_bidi x) (initial_max_streams_uni x) v (max_ack_delay x) (disable_active_migration x) (tp_preferred_address x) (active_connection_id_limit x) (supported_plugins x) (plugins_to_inject x).
Definition set_max_ack_delay (v : Z) (x : tp) : tp :=
  TP (original_connection_id x) (max_idle_timeout x) (max_packet_size x) (initial_max_data x) (initial_max_streams_bidi x) (initial_max_streams_uni x) (ack_delay_exponent x) v (disable_active_migration x) (tp_preferred_address x) (active_connection_id_limit x) (supported_plugins x) (plugins_to_inject x).
Definition set_disable_active_migration (v : Z) (x : tp) : tp :=
  TP (original_connection_id x) (max_idle_timeout x) (max_packet_size x) (initial_max_data x) (initial_max_streams_bidi x) (initial_max_streams_uni x) (ack_delay_exponent x) (max_ack_delay x) v (tp_preferred_address x) (active_connection_id_limit x) (supported_plugins x) (plugins_to_inject x).
Definition set_tp_preferred_address (v : preferred_address) (x : tp) : tp :=
  TP (original_connection_id x) (max_idle_timeout x) (max_packet_size x) (initial_max_data x) (initial_max_streams_bidi x) (initial_max_streams_uni x) (ack_delay_exponent x) (max_ack_delay x) (disable_active_migration x) v (active_connection_id_limit x) (supported_plugins x) (plugins_to_inject x).
Definition set_active_connection_id_limit (v : Z) (x : tp) : tp :=
  TP (original_connection_id x) (max_idle_timeout x) (max_packet_size x) (initial_max_data x) (initial_max_streams_bidi x) (initial_max_streams_uni x) (ack_delay_exponent x) (max_ack_delay x) (disable_active_migration x) (tp_preferred_address x) v (supported_plugins x) (plugins_to_inject x).
Definition set_supported_plugins (v : option (list Z)) (x : tp) : tp :=
  TP (original_connection_id x) (max_idle_timeout x) (max_packet_size x) (initial_max_data x) (initial_max_streams_bidi x) (initial_max_streams_uni x) (ack_delay_exponent x) (max_ack_delay x) (disable_active_migration x) (tp_preferred_address x) (active_connection_id_limit x) v (plugins_to_inject x).
Definition set_plugins_to_inject (v : option (list Z)) (x : tp) : tp :=
  TP (original_connection_id x) (max_idle_timeout x) (max_packet_size x) (initial_max_data x) (initial_max_streams_bidi x) (initial_max_streams_uni x) (ack_delay_exponent x) (max_ack_delay x) (disable_active_migration x) (tp_preferred_address x) (active_connection_id_limit x) (supported_plugins x) v.

(** The part of [picoquic_cnx_t] that concerns transport parameters; [reset_secret] is that of path 0. *)
Record conn := Conn {
  base : Streams.cnx;
  local_tp : tp;
  remote_tp : tp;
  remote_parameters_received : bool;
  reset_secret : list Z;
  plugin_tps : list (Z * list Z)
}.

Definition set_base (v : Streams.cnx) (x : conn) : conn :=
  Conn v (local_tp x) (remote_tp x) (remote_parameters_received x) (reset_secret x) (plugin_tps x).
Definition set_local_tp (v : tp) (x : conn) : conn :=
  Conn (base x) v (remote_tp x) (remote_parameters_received x) (reset_secret x) (plugin_tps x).
Definition set_remote_tp (v : tp) (x : conn) : conn :=
  Conn (base x) (local_tp x) v (remote_parameters_received x) (reset_secret x) (plugin_tps x).
Definition set_remote_parameters_received (v : bool) (x : conn) : conn :=
  Conn (base x) (local_tp x) (remote_tp x) v (reset_secret x) (plugin_tps x).
Definition set_reset_secret (v : list Z) (x : conn) : conn :=
  Conn (base x) (local_tp x) (remote_tp x) (remote_parameters_received x) v (plugin_tps x).
Definition set_plugin_tps (v : list (Z * list Z)) (x : conn) : conn :=
  Conn (base x) (local_tp x) (remote_tp x) (remote_parameters_received x) (reset_secret x) v.

Definition set_remote_streams (v : Streams.stream_parameters) (x : Streams.cnx) : Streams.cnx :=
  Streams.Cnx (Streams.client_mode x) (Streams.streams x) (Streams.local_parameters x) v (Streams.cnx_maxdata_local x) (Streams.cnx_maxdata_remote x) (Streams.data_received x) (Streams.data_sent x) (Streams.max_stream_id_bidir_local x) (Streams.max_stream_id_unidir_local x) (Streams.max_stream_id_bidir_local_computed x) (Streams.max_stream_id_unidir_local_computed x) (Streams.max_stream_id_bidir_remote x) (Streams.max_stream_id_unidir_remote x) (Streams.max_stream_receive_window_size x) (Streams.last_visited_stream_id x) (Streams.cnx_state x) (Streams.cnx_local_error x) (Streams.offending_frame_type x) (Streams.latest_progress_time x) (Streams.callbacks x).

Definition update_base (f : Streams.cnx -> Streams.cnx) (c : conn) : conn := set_base (f (base c)) c.
Definition update_remote (f : tp -> tp) (c : conn) : conn := set_remote_tp (f (remote_tp c)) c.

(** The three limits of stream data in the parameters of the peer. *)
Definition set_bidi_local (v : Z) (p : Streams.stream_parameters) : Streams.stream_parameters :=
  Streams.StreamParameters v (Streams.initial_max_stream_data_bidi_remote p) (Streams.initial_max_stream_data_uni p).
Definition set_bidi_remote (v : Z) (p : Streams.stream_parameters) : Streams.stream_parameters :=
  Streams.StreamParameters (Streams.initial_max_stream_data_bidi_local p) v (Streams.initial_max_stream_data_uni p).
Definition set_uni (v : Z) (p : Streams.stream_parameters) : Streams.stream_parameters :=
  Streams.StreamParameters (Streams.initial_max_stream_data_bidi_local p) (Streams.initial_max_stream_data_bidi_remote p) v.
Definition update_limits (f : Streams.stream_parameters -> Streams.stream_parameters) (c : conn) : conn :=
  update_base (fun b => set_remote_streams (f (Streams.remote_parameters b)) b) c.

Definition null_address : preferred_address := PreferredAddress (replicate 4 0) 0 (replicate 16 0) 0 0 [] (replicate 16 0).

(** ** Stream ids and ranks *)

Definition picoquic_decode_transport_param_stream_id (rank extension_mode stream_type : Z) : Z :=
  let rank := u16 rank in
  if 0 <? rank then u32 (stream_type + Z.lxor extension_mode 1 + 4 * (rank - 1)) else 0xFFFFFFFF.

Definition picoquic_prepare_transport_param_stream_id (stream_id : Z) : Z :=
  if stream_id =? 0xFFFFFFFF then 0 else u16 (1 + u16 (stream_id / 4)).

(** ** The preferred address *)

Definition picoquic_length_transport_param_preferred_address (p : preferred_address) : Z := u16 (4 + 2 + 16 + 2 + 1 + pa_id_len p + 16).

(** The bytes written. *)
Definition picoquic_prepare_transport_param_preferred_address (bytes_max : Z) (p : preferred_address) : list Z :=
  if picoquic_length_transport_param_preferred_address p <=? bytes_max then
    let before := ipv4_address p ++ picoformat_16 (ipv4_port p) ++ ipv6_address p ++ picoformat_16 (ipv6_port p) ++ [u8 (pa_id_len p)] in
    before ++ Packet.picoquic_format_connection_id (bytes_max - Z.of_nat (length before)) (pa_id p) ++ stateless_reset_token p
  else [].

(** The code and the address; [None]: an access outside of the extension or of the array of the id. *)
Definition picoquic_decode_transport_param_preferred_address (bytes : list Z) (bytes_max : Z) (p : preferred_address) : option (Z * preferred_address) :=
  if bytes_max <? 4 + 2 + 16 + 2 + 1 + 16 then Some (1, p)
  else if Z.of_nat (length bytes) <? bytes_max then None
  else
    port4 ← PICOPARSE_16 (drop 4 bytes);
    port6 ← PICOPARSE_16 (drop 22 bytes);
    len ← bytes !! 24%nat;
    let with_id id token := PreferredAddress (take 4 bytes) port4 (take 16 (drop 6 bytes)) port6 len id token in
    let '(ret, byte_index, p) :=
      if bytes_max <? 25 + len + 16 then (-1, 25, with_id (pa_id p) (stateless_reset_token p))
      else (0, 25 + len + 16, with_id (take (Z.to_nat len) (drop 25 bytes)) (take 16 (drop (Z.to_nat (25 + len)) bytes))) in
    if (ret =? 0) && (Packet.PICOQUIC_CONNECTION_ID_MAX_SIZE <? len) then None
    else Some (if byte_index <? bytes_max then 1 else ret, p).

(** ** The writer *)

(** The names of plugins, separated by commas and ended by a zero byte. *)
Fixpoint plugin_names (l : list (list Z)) : list Z :=
  match l with
  | [] => []
  | [name] => name
  | name :: l => name ++ 44 :: plugin_names l
  end.

(** [None]: no parameter is written for the list. *)
Definition picoquic_get_list_transport_parameter (malloc_ok : bool) (l : list (list Z)) : option (list Z) :=
  match plugin_names l with
  | [] => None
  | names => if malloc_ok then Some (names ++ [0]) else None
  end.

(** The results -1 of the two encoders are [None]. *)
Definition tp_varint_encode (bytes_max extension_type extension_value : Z) : option (list Z) :=
  let val_len := picoquic_varint_len extension_value in
  if bytes_max <? picoquic_varint_len extension_type + picoquic_varint_len val_len + val_len then None
  else
    let b1 := picoquic_varint_encode bytes_max extension_type in
    let b2 := picoquic_varint_encode (bytes_max - Z.of_nat (length b1)) val_len in
    Some (b1 ++ b2 ++ picoquic_varint_encode (bytes_max - Z.of_nat (length b1) - Z.of_nat (length b2)) extension_value).

Definition tp_data_encode (bytes_max extension_type : Z) (extension_value : list Z) : option (list Z) :=
  let extension_len := Z.of_nat (length extension_value) in
  if bytes_max <? picoquic_varint_len extension_type + picoquic_varint_len extension_len + extension_len then None
  else
    let b1 := picoquic_varint_encode bytes_max extension_type in
    Some (b1 ++ picoquic_varint_encode (bytes_max - Z.of_nat (length b1)) extension_len ++ extension_value).

(** [byte_index += tp_..._encode(bytes + byte_index, bytes_max - byte_index, ...)]: the bytes in front of the index.  The result
    -1 takes the index back by one. *)
Definition emit (bytes_max : Z) (encode : Z -> option (list Z)) (out : list Z) : option (list Z) :=
  match encode (bytes_max - Z.of_nat (length out)) with
  | Some e => Some (out ++ e)
  | None => match out with [] => None | _ => Some (removelast out) end
  end.

Definition emit_int (bytes_max : Z) (present : bool) (extension_type extension_value : Z) (out : list Z) : option (list Z) :=
  if present then emit bytes_max (fun m => tp_varint_encode m extension_type extension_value) out else Some out.

Definition emit_data (bytes_max : Z) (present : bool) (extension_type : Z) (extension_value : list Z) (out : list Z) : option (list Z) :=
  if present then emit bytes_max (fun m => tp_data_encode m extension_type extension_value) out else Some out.

(** The loop over the pluglets: the type each is registered for, the status it returns and the 64 bytes of [value]. *)
Fixpoint prepare_plugin_transport_extensions (bytes_max : Z) (pluglets : list (Z * Z * list Z)) (out : list Z) : option (list Z) :=
  match pluglets with
  | [] => Some out
  | (param, status, value) :: l =>
    out ← emit_data bytes_max ((64 <? bytes_max - Z.of_nat (length out)) && (0 <? status) && (status <=? 64)) param (take (Z.to_nat status) value) out;
    prepare_plugin_transport_extensions bytes_max l out
  end.

(** The size that the writer asks for. *)
Definition param_size (c : conn) (extension_mode : Z) (supported to_inject : option (list Z)) : Z :=
  let p := local_tp c in
  let sp := Streams.local_parameters (base c) in
  let plugin_size o := match o with Some names => 1 + 2 + Z.of_nat (length names) | None => 0 end in
  u16 ((1 + 1 + 4) + (1 + 1 + 4) + (1 + 1 + 2) + (1 + 1 + 2) +
    (if initial_max_streams_bidi p =? 0 then 0 else 1 + 1 + picoquic_varint_len (initial_max_streams_bidi p)) +
    (if extension_mode =? 1 then 1 + 1 + PICOQUIC_RESET_SECRET_SIZE else 0) +
    (if ack_delay_exponent p =? 3 then 0 else 1 + 1 + 1) +
    (if initial_max_streams_uni p =? 0 then 0 else 1 + 1 + 2) +
    (if disable_active_migration p =? 0 then 0 else 1 + 1) +
    (if 0 <? Streams.initial_max_stream_data_bidi_remote sp then 1 + 1 + 4 else 0) +
    (if 0 <? Streams.initial_max_stream_data_uni sp then 1 + 1 + 4 else 0) +
    (if 1200 <=? max_packet_size p then 1 + 1 + 2 else 0) +
    plugin_size supported + plugin_size to_inject).

(** The code and the bytes; [None]: the index goes below zero. *)
Definition picoquic_prepare_transport_extensions (malloc_ok : bool) (supported_plugin_list to_inject_list : list (list Z))
    (pluglets : list (Z * Z * list Z)) (c : conn) (extension_mode bytes_max : Z) : option (Z * list Z) :=
  let p := local_tp c in
  let sp := Streams.local_parameters (base c) in
  let supported := picoquic_get_list_transport_parameter malloc_ok supported_plugin_list in
  let to_inject := picoquic_get_list_transport_parameter malloc_ok to_inject_list in
  let is_some {A} (o : option A) := match o with Some _ => true | None => false end in
  if bytes_max <? param_size c extension_mode supported to_inject then Some (PICOQUIC_ERROR_EXTENSION_BUFFER_TOO_SMALL, [])
  else
    out ← emit_int bytes_max true picoquic_tp_initial_max_stream_data_bidi_local (Streams.initial_max_stream_data_bidi_local sp) [];
    out ← emit_int bytes_max true picoquic_tp_initial_max_data (initial_max_data p) out;
    out ← emit_int bytes_max (0 <? initial_max_streams_bidi p) picoquic_tp_initial_max_streams_bidi (initial_max_streams_bidi p) out;
    out ← emit_int bytes_max true picoquic_tp_max_idle_timeout (max_idle_timeout p) out;
    out ← emit_int bytes_max (1200 <=? max_packet_size p) picoquic_tp_max_packet_size (max_packet_size p) out;
    out ← emit_data bytes_max (extension_mode =? 1) picoquic_tp_stateless_reset_secret (reset_secret c) out;
    out ← emit_int bytes_max (negb (ack_delay_exponent p =? 3)) picoquic_tp_ack_delay_exponent (ack_delay_exponent p) out;
    out ← emit_int bytes_max (0 <? initial_max_streams_uni p) picoquic_tp_initial_max_streams_uni (initial_max_streams_uni p) out;
    out ← emit_data bytes_max (negb (disable_active_migration p =? 0)) picoquic_tp_disable_active_migration [] out;
    out ← emit_int bytes_max (0 <? Streams.initial_max_stream_data_bidi_remote sp) picoquic_tp_initial_max_stream_data_bidi_remote
            (Streams.initial_max_stream_data_bidi_remote sp) out;
    out ← emit_int bytes_max (0 <? Streams.initial_max_stream_data_uni sp) picoquic_tp_initial_max_stream_data_uni
            (Streams.initial_max_stream_data_uni sp) out;
    out ← emit_data bytes_max (is_some supported) picoquic_tp_supported_plugins (default [] supported) out;
    out ← emit_data bytes_max (is_some to_inject) picoquic_tp_plugins_to_inject (default [] to_inject) out;
    out ← prepare_plugin_transport_extensions bytes_max pluglets out;
    Some (0, out).

(** ** The parser *)

Definition connection_error (c : conn) : Z * conn :=
  (PICOQUIC_ERROR_DETECTED, update_base (Streams.connection_error PICOQUIC_TRANSPORT_PARAMETER_ERROR 0) c).

(** The parameters whose announced length is tested. *)
Definition has_integer_length (extension_type : Z) : bool :=
  existsb (Z.eqb extension_type)
    [picoquic_tp_initial_max_stream_data_bidi_local; picoquic_tp_initial_max_stream_data_bidi_remote; picoquic_tp_initial_max_stream_data_uni;
     picoquic_tp_initial_max_data; picoquic_tp_initial_max_streams_bidi; picoquic_tp_initial_max_streams_uni; picoquic_tp_ack_delay_exponent;
     picoquic_tp_max_idle_timeout; picoquic_tp_max_ack_delay; picoquic_tp_active_connection_id_limit].

(** The first switch. *)
Definition check_length (extension_type extension_length : Z) (c : conn) : Z * conn :=
  if has_integer_length extension_type && negb (existsb (Z.eqb extension_length) [1; 2; 4; 8]) then connection_error c else (0, c).

(** [present_flag] *)
Definition check_duplicate (extension_type ret present_flag : Z) (c : conn) : Z * Z * conn :=
  if (ret =? 0) && (extension_type <? 64) then
    if Z.testbit present_flag extension_type then let '(ret, c) := connection_error c in (ret, present_flag, c)
    else (ret, Z.lor present_flag (Z.shiftl 1 extension_type), c)
  else (ret, present_flag, c).

(** A parameter whose value is a variable-length integer. *)
Definition receive_int (bytes : list Z) (room ret : Z) (set : Z -> conn -> conn) (ok : Z -> bool) (c : conn) : option (Z * Z * conn) :=
  '(n, v) ← picoquic_varint_decode bytes room;
  let c := set v c in
  Some (if ok v then (ret, n, c) else let '(ret, c) := connection_error c in (ret, n, c)).

Definition any_value (v : Z) : bool := true.

Definition set_max_data (v : Z) (c : conn) : conn :=
  update_base (fun b => Streams.set_max_stream_id_bidir_remote
                          (Streams.STREAM_ID_FROM_RANK (initial_max_streams_bidi (local_tp c)) (negb (Streams.client_mode b)) false)
                          (Streams.set_cnx_maxdata_remote v b))
    (update_remote (set_initial_max_data v) c).

Definition set_streams_bidi (extension_mode v : Z) (c : conn) : conn :=
  update_base (Streams.set_max_stream_id_bidir_remote (picoquic_decode_transport_param_stream_id v extension_mode PICOQUIC_STREAM_ID_BIDIR))
    (update_remote (set_initial_max_streams_bidi v) c).

Definition set_streams_uni (extension_mode v : Z) (c : conn) : conn :=
  update_base (Streams.set_max_stream_id_unidir_remote (picoquic_decode_transport_param_stream_id v extension_mode PICOQUIC_STREAM_ID_UNIDIR))
    (update_remote (set_initial_max_streams_uni v) c).

(** The list of plugin names is copied when there is memory; else the index stays. *)
Definition receive_names (malloc_ok : bool) (bytes : list Z) (extension_length ret : Z) (set : option (list Z) -> tp -> tp) (c : conn) : Z * Z * conn :=
  if 0 <? extension_length then
    if malloc_ok then (ret, extension_length, update_remote (set (Some (take (Z.to_nat extension_length) bytes))) c)
    else (ret, 0, update_remote (set None) c)
  else (ret, 0, c).

(** The second switch: the code, by how much the index advances, the connection. *)
Definition receive_value (malloc_ok : bool) (extension_mode extension_type extension_length : Z) (bytes : list Z) (room ret : Z) (c : conn) :
    option (Z * Z * conn) :=
  let is_type t := extension_type =? t in
  let error n c := let '(ret, c) := connection_error c in Some (ret, n, c) in
  if is_type picoquic_tp_initial_max_stream_data_bidi_local then receive_int bytes room ret (fun v => update_limits (set_bidi_local v)) any_value c
  else if is_type picoquic_tp_initial_max_stream_data_bidi_remote then receive_int bytes room ret (fun v => update_limits (set_bidi_remote v)) any_value c
  else if is_type picoquic_tp_initial_max_stream_data_uni then receive_int bytes room ret (fun v => update_limits (set_uni v)) any_value c
  else if is_type picoquic_tp_initial_max_data then receive_int bytes room ret set_max_data any_value c
  else if is_type picoquic_tp_initial_max_streams_bidi then receive_int bytes room ret (set_streams_bidi extension_mode) any_value c
  else if is_type picoquic_tp_max_idle_timeout then receive_int bytes room ret (fun v => update_remote (set_max_idle_timeout v)) any_value c
  else if is_type picoquic_tp_max_packet_size then receive_int bytes room ret (fun v => update_remote (set_max_packet_size v)) (fun v => 1200 <=? v) c
  else if is_type picoquic_tp_stateless_reset_secret then
    if negb (extension_length =? PICOQUIC_RESET_SECRET_SIZE) then error 0 c
    else Some (ret, extension_length, set_reset_secret (take (Z.to_nat PICOQUIC_RESET_SECRET_SIZE) bytes) c)
  else if is_type picoquic_tp_ack_delay_exponent then receive_int bytes room ret (fun v => update_remote (set_ack_delay_exponent v)) (fun v => v <=? 20) c
  else if is_type picoquic_tp_max_ack_delay then
    receive_int bytes room ret (fun v => update_remote (set_max_ack_delay v)) (fun v => v <=? Z.shiftl 2 14) c
  else if is_type picoquic_tp_initial_max_streams_uni then receive_int bytes room ret (set_streams_uni extension_mode) any_value c
  else if is_type picoquic_tp_preferred_address then
    '(r, p) ← picoquic_decode_transport_param_preferred_address bytes extension_length (tp_preferred_address (remote_tp c));
    let c := update_remote (set_tp_preferred_address p) c in
    if r =? 0 then Some (0, extension_length, c) else error extension_length c
  else if is_type picoquic_tp_original_connection_id then
    if Packet.PICOQUIC_CONNECTION_ID_MAX_SIZE <? extension_length then error 0 c
    else Some (ret, extension_length, update_remote (set_original_connection_id (take (Z.to_nat extension_length) bytes)) c)
  else if is_type picoquic_tp_disable_active_migration then
    if negb (extension_length =? 0) then error 0 c else Some (ret, 0, update_remote (set_disable_active_migration 1) c)
  else if is_type picoquic_tp_active_connection_id_limit then
    receive_int bytes room ret (fun v => update_remote (set_active_connection_id_limit v)) (fun v => 2 <=? v) c
  else if is_type picoquic_tp_supported_plugins then Some (receive_names malloc_ok bytes extension_length ret set_supported_plugins c)
  else if is_type picoquic_tp_plugins_to_inject then Some (receive_names malloc_ok bytes extension_length ret set_plugins_to_inject c)
  else Some (ret, extension_length, set_plugin_tps (plugin_tps c ++ [(extension_type, take (Z.to_nat extension_length) bytes)]) c).

(** The third switch. *)
Definition update_streams (extension_type : Z) (c : conn) : conn :=
  if existsb (Z.eqb extension_type)
       [picoquic_tp_initial_max_stream_data_bidi_local; picoquic_tp_initial_max_stream_data_bidi_remote; picoquic_tp_initial_max_stream_data_uni]
  then update_base Streams.picoquic_update_stream_initial_remote c else c.

(** The state of the loop. *)
Record receive_state := Receiving { rs_ret : Z; rs_index : Z; rs_present : Z; rs_cnx : conn }.

(** One round of the loop.  Reading the bytes of a parameter that is announced inside of the extension is reading inside of [bytes]. *)
Definition receive_param (malloc_ok : bool) (extension_mode : Z) (bytes : list Z) (bytes_max : Z) (s : receive_state) : option (receive_state) :=
  let byte_index := rs_index s in
  let c := rs_cnx s in
  if bytes_max <? byte_index + 2 then let '(ret, c) := connection_error c in Some (Receiving ret byte_index (rs_present s) c)
  else
    '(n1, extension_type) ← picoquic_varint_decode (drop (Z.to_nat byte_index) bytes) (bytes_max - byte_index);
    let byte_index := byte_index + n1 in
    '(n2, extension_length) ← picoquic_varint_decode (drop (Z.to_nat byte_index) bytes) (bytes_max - byte_index);
    let byte_index := byte_index + n2 in
    if bytes_max <? byte_index + extension_length then let '(ret, c) := connection_error c in Some (Receiving ret byte_index (rs_present s) c)
    else
      let extension_val_start := byte_index in
      let '(ret, c) := check_length extension_type extension_length c in
      let '(ret, present, c) := check_duplicate extension_type ret (rs_present s) c in
      '(ret, n3, c) ← receive_value malloc_ok extension_mode extension_type extension_length (drop (Z.to_nat byte_index) bytes)
                        (bytes_max - byte_index) ret c;
      let byte_index := byte_index + n3 in
      if (ret =? 0) && (byte_index <? extension_val_start + extension_length) then
        let '(ret, c) := connection_error c in Some (Receiving ret byte_index present c)
      else Some (Receiving ret byte_index present (update_streams extension_type c)).

Fixpoint receive_loop (fuel : nat) (malloc_ok : bool) (extension_mode : Z) (bytes : list Z) (bytes_max : Z) (s : receive_state) :
    option (option receive_state) :=
  if (rs_ret s =? 0) && (rs_index s <? bytes_max) then
    match fuel with
    | O => None
    | S fuel =>
      match receive_param malloc_ok extension_mode bytes bytes_max s with
      | Some s => receive_loop fuel malloc_ok extension_mode bytes bytes_max s
      | None => Some None
      end
    end
  else Some (Some s).

(** The defaults: [memset], then four fields. *)
Definition default_tp : tp := TP [] 0 65527 0 0 0 3 25 0 null_address 2 None None.

Definition with_defaults (c : conn) : conn := set_remote_tp default_tp (update_limits (fun _ => Streams.StreamParameters 0 0 0) c).

Definition TP_PRESENT (flags tp : Z) : bool := Z.testbit flags tp.

(** The code, [*consumed] and the connection.  Every round advances the index or sets a flag of [present_flag]. *)
Definition picoquic_receive_transport_extensions (malloc_ok : bool) (c : conn) (extension_mode : Z) (bytes : list Z) (bytes_max : Z) :
    option (option (Z * Z * conn)) :=
  let c := set_remote_parameters_received true c in
  r ← (if 2 <=? bytes_max then receive_loop (Z.to_nat bytes_max + 65) malloc_ok extension_mode bytes bytes_max (Receiving 0 0 0 (with_defaults c))
       else Some (Some (Receiving 0 0 0 c)));
  match r with
  | None => Some None
  | Some s =>
    if (rs_ret s =? 0) && (extension_mode =? 0) &&
       (TP_PRESENT (rs_present s) picoquic_tp_original_connection_id || TP_PRESENT (rs_present s) picoquic_tp_stateless_reset_secret ||
        TP_PRESENT (rs_present s) picoquic_tp_preferred_address)
    then let '(ret, c) := connection_error (rs_cnx s) in Some (Some (ret, rs_index s, c))
    else Some (Some (rs_ret s, rs_index s, rs_cnx s))
  end.

(** ** The default parameters: quicctx.c *)

Definition PICOQUIC_MICROSEC_HANDSHAKE_MAX : Z := 15000000.
Definition PICOQUIC_PRACTICAL_MAX_MTU : Z := 1300.

(** The fields that it sets; the others keep their values. *)
Definition picoquic_init_transport_parameters (p : tp) : Streams.stream_parameters * tp :=
  (Streams.StreamParameters 0x200000 65635 65535,
   TP (original_connection_id p) (PICOQUIC_MICROSEC_HANDSHAKE_MAX / 1000) PICOQUIC_PRACTICAL_MAX_MTU 0x100000 10000 10000 3
      (max_ack_delay p) (disable_active_migration p) (tp_preferred_address p) (active_connection_id_limit p) None None).

(** ** Type, length, value *)

Definition varint (n : Z) : list Z := picoquic_varint_encode 8 n.

Lemma varint_len_bounds n : 1 <= picoquic_varint_len n <= 8 \/ 2 ^ 62 <= n.
Proof. unfold picoquic_varint_len. case_cmp; lia. Qed.

Lemma varint_with_room m n : 0 <= n < 2 ^ 62 -> picoquic_varint_len n <= m -> picoquic_varint_encode m n = varint n.
Proof. unfold varint, picoquic_varint_encode, picoquic_varint_len. intros H Hm. case_cmp; (done || lia). Qed.

Lemma length_varint n : 0 <= n < 2 ^ 62 -> Z.of_nat (length (varint n)) = picoquic_varint_len n.
Proof. unfold varint, picoquic_varint_encode, picoquic_varint_len. intros H. case_cmp; (done || lia). Qed.

Lemma decode_varint n room rest : 0 <= n < 2 ^ 62 -> picoquic_varint_len n <= room ->
  picoquic_varint_decode (varint n ++ rest) room = Some (picoquic_varint_len n, n).
Proof.
  intros Hn Hr. destruct (varint_len_bounds n) as [Hl|]; [|lia]. destruct (varint_encode_decode n 8 room rest Hn ltac:(lia) Hr) as (_ & _ & E & _). exact E.
Qed.

Lemma integer_length n : 0 <= n < 2 ^ 62 -> existsb (Z.eqb (picoquic_varint_len n)) [1; 2; 4; 8] = true.
Proof. unfold picoquic_varint_len. intros H. case_cmp; (done || lia). Qed.

(** A parameter on the wire, and what it changes at the receiver. *)
Record tlv := Tlv { tlv_type : Z; tlv_value : list Z; tlv_effect : conn -> conn }.

Definition encode_tlv (x : tlv) : list Z := varint (tlv_type x) ++ varint (Z.of_nat (length (tlv_value x))) ++ tlv_value x.
Definition encode_tlvs (l : list tlv) : list Z := concat (encode_tlv <$> l).
Definition apply_tlvs (l : list tlv) (c : conn) : conn := foldl (fun c x => update_streams (tlv_type x) (tlv_effect x c)) c l.

Lemma encode_tlvs_app l1 l2 : encode_tlvs (l1 ++ l2) = encode_tlvs l1 ++ encode_tlvs l2.
Proof. unfold encode_tlvs. by rewrite fmap_app, concat_app. Qed.

Definition opt_tlv (b : bool) (t : Z) (v : list Z) (f : conn -> conn) : list tlv := if b then [Tlv t v f] else [].

(** The receiver takes the parameter, whatever follows. *)
Record tlv_ok (mode : Z) (x : tlv) : Prop := TlvOk {
  to_type : 0 <= tlv_type x < 2 ^ 62;
  to_length : Z.of_nat (length (tlv_value x)) < 2 ^ 62;
  to_integer : has_integer_length (tlv_type x) = true -> existsb (Z.eqb (Z.of_nat (length (tlv_value x)))) [1; 2; 4; 8] = true;
  to_value : forall rest room c, Z.of_nat (length (tlv_value x)) <= room ->
    receive_value true mode (tlv_type x) (Z.of_nat (length (tlv_value x))) (tlv_value x ++ rest) room 0 c =
    Some (0, Z.of_nat (length (tlv_value x)), tlv_effect x c)
}.

Lemma length_encode_tlv mode x : tlv_ok mode x ->
  Z.of_nat (length (encode_tlv x)) = picoquic_varint_len (tlv_type x) + picoquic_varint_len (Z.of_nat (length (tlv_value x))) + Z.of_nat (length (tlv_value x)).
Proof. intros []. unfold encode_tlv. rewrite !length_app, !Nat2Z.inj_add, !length_varint by lia. lia. Qed.

(** *** The parser on a parameter *)

Lemma receive_tlv mode x pre rest present c : tlv_ok mode x -> (tlv_type x < 64 -> Z.testbit present (tlv_type x) = false) ->
  receive_param true mode (pre ++ encode_tlv x ++ rest) (Z.of_nat (length (pre ++ encode_tlv x ++ rest))) (Receiving 0 (Z.of_nat (length pre)) present c) =
  Some (Receiving 0 (Z.of_nat (length (pre ++ encode_tlv x)))
    (if tlv_type x <? 64 then Z.lor present (Z.shiftl 1 (tlv_type x)) else present) (update_streams (tlv_type x) (tlv_effect x c))).
Proof.
  intros Hok Hnew. pose proof (length_encode_tlv mode x Hok) as Hlen. destruct Hok as [Ht Hl Hi Hv]. unfold receive_param. cbn [rs_index rs_cnx rs_present].
  destruct (varint_len_bounds (tlv_type x)) as [Ht8|]; [|lia]. destruct (varint_len_bounds (Z.of_nat (length (tlv_value x)))) as [Hl8|]; [|lia].
  set (L := Z.of_nat (length (pre ++ encode_tlv x ++ rest))). set (i := Z.of_nat (length pre)).
  assert (HL : L = i + Z.of_nat (length (encode_tlv x)) + Z.of_nat (length rest)) by (unfold L, i; rewrite !length_app; lia).
  destruct (Z.ltb_spec L (i + 2)); [lia|].
  assert (Ed : forall k (a b : list Z), Z.to_nat k = length a -> drop (Z.to_nat k) (a ++ b) = b) by (intros k a b ->; apply drop_app_length).
  rewrite Ed by (unfold i; lia). unfold encode_tlv. rewrite <- !app_assoc, decode_varint by lia. cbn [mbind option_bind].
  assert (E2 : forall r, drop (Z.to_nat (i + picoquic_varint_len (tlv_type x))) (pre ++ varint (tlv_type x) ++ r) = r).
  { intros r. rewrite app_assoc. apply Ed. rewrite length_app. pose proof (length_varint (tlv_type x) ltac:(lia)). unfold i. lia. }
  rewrite E2, decode_varint by lia. cbn [mbind option_bind]. set (len := Z.of_nat (length (tlv_value x))) in *.
  destruct (Z.ltb_spec L (i + picoquic_varint_len (tlv_type x) + picoquic_varint_len len + len)); [lia|].
  assert (Ec : check_length (tlv_type x) len c = (0, c)).
  { unfold check_length. destruct (has_integer_length (tlv_type x)); [|done]. by rewrite Hi. }
  rewrite Ec. unfold check_duplicate. cbn [andb Z.eqb]. replace (match tlv_type x with _ => 0 =? 0 end) with true by done.
  assert (Edup : (if tlv_type x <? 64 then if Z.testbit present (tlv_type x) then let '(ret, c) := connection_error c in (ret, present, c)
      else (0, Z.lor present (Z.shiftl 1 (tlv_type x)), c) else (0, present, c)) =
    (0, if tlv_type x <? 64 then Z.lor present (Z.shiftl 1 (tlv_type x)) else present, c)).
  { destruct (Z.ltb_spec (tlv_type x) 64); [|done]. by rewrite Hnew. }
  rewrite Edup.
  assert (E3 : forall r, drop (Z.to_nat (i + picoquic_varint_len (tlv_type x) + picoquic_varint_len len)) (pre ++ varint (tlv_type x) ++ varint len ++ r) = r).
  { intros r. rewrite (app_assoc (varint _)), (app_assoc pre). apply Ed. rewrite !length_app.
    pose proof (length_varint (tlv_type x) ltac:(lia)). pose proof (length_varint len ltac:(lia)). unfold i. lia. }
  rewrite E3, Hv by lia. cbn [mbind option_bind]. destruct (Z.ltb_spec (i + picoquic_varint_len (tlv_type x) + picoquic_varint_len len + len)
    (i + picoquic_varint_len (tlv_type x) + picoquic_varint_len len + len)); [lia|]. cbn [andb Z.eqb].
  do 2 f_equal. unfold i. rewrite !length_app, !Nat2Z.inj_add, !length_varint by lia. unfold len. lia.
Qed.

Lemma receive_tlvs mode l : forall fuel pre present c, Forall (tlv_ok mode) l -> NoDup (filter (fun t => t < 64) (tlv_type <$> l)) ->
  (forall x, x ∈ l -> tlv_type x < 64 -> Z.testbit present (tlv_type x) = false) -> (length l <= fuel)%nat -> 0 <= present ->
  exists present', receive_loop fuel true mode (pre ++ encode_tlvs l) (Z.of_nat (length (pre ++ encode_tlvs l))) (Receiving 0 (Z.of_nat (length pre)) present c) =
    Some (Some (Receiving 0 (Z.of_nat (length (pre ++ encode_tlvs l))) present' (apply_tlvs l c))) /\
  (forall k, 0 <= k -> Z.testbit present' k = true -> Z.testbit present k = true \/ exists x, x ∈ l /\ tlv_type x = k).
Proof.
  induction l as [|x l IH]; intros fuel pre present c Hok Hnd Hnew Hfuel Hp.
  - exists present. unfold encode_tlvs. cbn [fmap list_fmap concat]. rewrite app_nil_r. split; [|by left].
    destruct fuel; cbn [receive_loop rs_ret rs_index]; by rewrite Z.ltb_irrefl.
  - destruct fuel as [|fuel]; [cbn in Hfuel; lia|]. apply list.Forall_cons in Hok as [Hx Hok].
    change (encode_tlvs (x :: l)) with (encode_tlv x ++ encode_tlvs l). pose proof (length_encode_tlv mode x Hx) as Hlx.
    pose proof Hx as [Ht Hl Hi Hv]. pose proof (varint_len_bounds (tlv_type x)) as Hvl.
    cbn [receive_loop rs_ret rs_index].
    destruct (Z.ltb_spec (Z.of_nat (length pre)) (Z.of_nat (length (pre ++ encode_tlv x ++ encode_tlvs l)))) as [_|Hge];
      [|rewrite !length_app in Hge; pose proof (varint_len_bounds (Z.of_nat (length (tlv_value x)))); lia].
    cbn [andb Z.eqb]. rewrite (receive_tlv mode x); [|done|intros Hx64; apply Hnew; [by left|done]].
    rewrite app_assoc. set (p1 := if tlv_type x <? 64 then _ else present).
    destruct (IH fuel (pre ++ encode_tlv x) p1 (update_streams (tlv_type x) (tlv_effect x c))) as (present' & E & Hbits); [done|..].
    + cbn [fmap list_fmap] in Hnd. rewrite filter_cons in Hnd. case_decide; [by inversion Hnd|done].
    + intros y Hy Hty. unfold p1. destruct (Z.ltb_spec (tlv_type x) 64) as [Hx64|]; [|apply Hnew; [by right|done]].
      rewrite Z.lor_spec, (Hnew y) by (try done; by right). rewrite Z.shiftl_1_l, Z.pow2_bits_false; [done|].
      intros E. cbn [fmap list_fmap] in Hnd. rewrite filter_cons_True in Hnd by done. inversion_clear Hnd as [|? ? Hni _]. apply Hni.
      rewrite E. apply list_elem_of_filter. split; [done|]. apply list_elem_of_fmap. by exists y.
    + cbn in Hfuel. lia.
    + unfold p1. destruct (_ <? 64); [|done]. apply Z.lor_nonneg. split; [done|]. apply Z.shiftl_nonneg. lia.
    + exists present'. split; [done|]. intros k Hk Hb. destruct (Hbits k Hk Hb) as [Hb1|(y & Hy & <-)]; [|right; exists y; split; [by right|done]].
      unfold p1 in Hb1. destruct (Z.ltb_spec (tlv_type x) 64); [|by left]. rewrite Z.lor_spec in Hb1. apply orb_true_iff in Hb1 as [Hb1|Hb1]; [by left|].
      right. exists x. split; [left|]. rewrite Z.shiftl_1_l, Z.pow2_bits_eqb in Hb1 by lia. by apply Z.eqb_eq in Hb1.
Qed.

(** *** The writer as a list of parameters *)

(** The bytes of an optional parameter. *)
Definition opt_bytes (b : bool) (t : Z) (v : list Z) : list Z := if b then varint t ++ varint (Z.of_nat (length v)) ++ v else [].

Lemma encode_opt b t v f : encode_tlvs (opt_tlv b t v f) = opt_bytes b t v.
Proof. unfold encode_tlvs, opt_tlv, opt_bytes. destruct b; [|done]. cbn [fmap list_fmap concat]. by rewrite app_nil_r. Qed.

Lemma emit_int_ok bytes_max b t v out : 0 <= t < 2 ^ 62 -> 0 <= v < 2 ^ 62 ->
  Z.of_nat (length (out ++ opt_bytes b t (varint v))) <= bytes_max -> emit_int bytes_max b t v out = Some (out ++ opt_bytes b t (varint v)).
Proof.
  intros Ht Hv. unfold emit_int, opt_bytes. destruct b; [|by rewrite app_nil_r].
  pose proof (varint_len_bounds t). pose proof (varint_len_bounds v). pose proof (length_varint v Hv) as Lv. pose proof (length_varint t Ht) as Lt.
  rewrite Lv. pose proof (length_varint (picoquic_varint_len v) ltac:(lia)) as Lvl. pose proof (varint_len_bounds (picoquic_varint_len v)).
  rewrite !length_app, !Nat2Z.inj_add. intros Hroom. unfold emit, tp_varint_encode.
  destruct (Z.ltb_spec (bytes_max - Z.of_nat (length out)) (picoquic_varint_len t + picoquic_varint_len (picoquic_varint_len v) + picoquic_varint_len v)); [lia|].
  rewrite (varint_with_room _ t), (varint_with_room _ (picoquic_varint_len v)), (varint_with_room _ v) by lia. done.
Qed.

Lemma emit_data_ok bytes_max b t v out : 0 <= t < 2 ^ 62 -> Z.of_nat (length v) < 2 ^ 62 ->
  Z.of_nat (length (out ++ opt_bytes b t v)) <= bytes_max -> emit_data bytes_max b t v out = Some (out ++ opt_bytes b t v).
Proof.
  intros Ht Hv. unfold emit_data, opt_bytes. destruct b; [|by rewrite app_nil_r].
  pose proof (varint_len_bounds t). pose proof (length_varint t Ht) as Lt.
  pose proof (length_varint (Z.of_nat (length v)) ltac:(lia)) as Lvl. pose proof (varint_len_bounds (Z.of_nat (length v))).
  rewrite !length_app, !Nat2Z.inj_add. intros Hroom. unfold emit, tp_data_encode.
  destruct (Z.ltb_spec (bytes_max - Z.of_nat (length out)) (picoquic_varint_len t + picoquic_varint_len (Z.of_nat (length v)) + Z.of_nat (length v))); [lia|].
  rewrite (varint_with_room _ t), (varint_with_room _ (Z.of_nat (length v))) by lia. done.
Qed.

(** The parameters of pluglets that return a status between 1 and 64. *)
Definition log_tlv (t : Z) (v : list Z) (c : conn) : conn := set_plugin_tps (plugin_tps c ++ [(t, v)]) c.

Definition plugin_tlvs (pluglets : list (Z * Z * list Z)) : list tlv :=
  concat ((fun '(param, status, value) =>
    opt_tlv ((0 <? status) && (status <=? 64)) param (take (Z.to_nat status) value) (log_tlv param (take (Z.to_nat status) value))) <$> pluglets).

Definition pluglet_ok (x : Z * Z * list Z) : Prop := 0 <= x.1.1 < 2 ^ 16 /\ length x.2 = 64%nat.

Lemma plugin_extensions_ok bytes_max pluglets : forall out, Forall pluglet_ok pluglets ->
  Z.of_nat (length (out ++ encode_tlvs (plugin_tlvs pluglets))) + 64 < bytes_max ->
  prepare_plugin_transport_extensions bytes_max pluglets out = Some (out ++ encode_tlvs (plugin_tlvs pluglets)).
Proof.
  induction pluglets as [|[[param status] value] l IH]; intros out Hok Hroom; cbn [prepare_plugin_transport_extensions].
  { by rewrite app_nil_r. }
  apply list.Forall_cons in Hok as [[Hp Hv] Hok]. cbn [fst snd] in *. change (plugin_tlvs ((param, status, value) :: l)) with
    (opt_tlv ((0 <? status) && (status <=? 64)) param (take (Z.to_nat status) value) (log_tlv param (take (Z.to_nat status) value)) ++ plugin_tlvs l) in *.
  rewrite encode_tlvs_app, encode_opt, app_assoc in Hroom |- *. pose proof Hroom as Hroom'. rewrite length_app, (length_app out) in Hroom.
  destruct (Z.ltb_spec 64 (bytes_max - Z.of_nat (length out))); [|lia]. cbn [andb].
  rewrite emit_data_ok; [|lia| |].
  - cbn [mbind option_bind]. apply IH; [done|exact Hroom'].
  - pose proof (length_take_le value (Z.to_nat status)). rewrite length_take. lia.
  - rewrite length_app. lia.
Qed.

(** What the parameters change at the receiver. *)
Definition local_tlvs (c : conn) (mode : Z) (supported to_inject : option (list Z)) : list tlv :=
  let p := local_tp c in
  let sp := Streams.local_parameters (base c) in
  let int b t v f := opt_tlv b t (varint v) (f v) in
  let is_some {A} (o : option A) := match o with Some _ => true | None => false end in
  int true picoquic_tp_initial_max_stream_data_bidi_local (Streams.initial_max_stream_data_bidi_local sp) (fun v => update_limits (set_bidi_local v)) ++
  int true picoquic_tp_initial_max_data (initial_max_data p) set_max_data ++
  int (0 <? initial_max_streams_bidi p) picoquic_tp_initial_max_streams_bidi (initial_max_streams_bidi p) (set_streams_bidi mode) ++
  int true picoquic_tp_max_idle_timeout (max_idle_timeout p) (fun v => update_remote (set_max_idle_timeout v)) ++
  int (1200 <=? max_packet_size p) picoquic_tp_max_packet_size (max_packet_size p) (fun v => update_remote (set_max_packet_size v)) ++
  opt_tlv (mode =? 1) picoquic_tp_stateless_reset_secret (reset_secret c) (set_reset_secret (reset_secret c)) ++
  int (negb (ack_delay_exponent p =? 3)) picoquic_tp_ack_delay_exponent (ack_delay_exponent p) (fun v => update_remote (set_ack_delay_exponent v)) ++
  int (0 <? initial_max_streams_uni p) picoquic_tp_initial_max_streams_uni (initial_max_streams_uni p) (set_streams_uni mode) ++
  opt_tlv (negb (disable_active_migration p =? 0)) picoquic_tp_disable_active_migration [] (update_remote (set_disable_active_migration 1)) ++
  int (0 <? Streams.initial_max_stream_data_bidi_remote sp) picoquic_tp_initial_max_stream_data_bidi_remote (Streams.initial_max_stream_data_bidi_remote sp)
    (fun v => update_limits (set_bidi_remote v)) ++
  int (0 <? Streams.initial_max_stream_data_uni sp) picoquic_tp_initial_max_stream_data_uni (Streams.initial_max_stream_data_uni sp)
    (fun v => update_limits (set_uni v)) ++
  opt_tlv (is_some supported) picoquic_tp_supported_plugins (default [] supported) (update_remote (set_supported_plugins supported)) ++
  opt_tlv (is_some to_inject) picoquic_tp_plugins_to_inject (default [] to_inject) (update_remote (set_plugins_to_inject to_inject)).

(** Values that the variable-length integers carry and that the parser accepts. *)
Record local_ok (c : conn) : Prop := LocalOk {
  lo_bidi_local : 0 <= Streams.initial_max_stream_data_bidi_local (Streams.local_parameters (base c)) < 2 ^ 62;
  lo_bidi_remote : 0 <= Streams.initial_max_stream_data_bidi_remote (Streams.local_parameters (base c)) < 2 ^ 62;
  lo_uni : 0 <= Streams.initial_max_stream_data_uni (Streams.local_parameters (base c)) < 2 ^ 62;
  lo_data : 0 <= initial_max_data (local_tp c) < 2 ^ 62;
  lo_streams_bidi : 0 <= initial_max_streams_bidi (local_tp c) < 2 ^ 62;
  lo_streams_uni : 0 <= initial_max_streams_uni (local_tp c) < 2 ^ 62;
  lo_idle : 0 <= max_idle_timeout (local_tp c) < 2 ^ 62;
  lo_packet : 0 <= max_packet_size (local_tp c) < 2 ^ 62;
  lo_exponent : 0 <= ack_delay_exponent (local_tp c) <= 20;
  lo_secret : length (reset_secret c) = 16%nat
}.

#[local] Ltac next_int := rewrite emit_int_ok; [|unfold picoquic_tp_initial_max_stream_data_bidi_local, picoquic_tp_initial_max_data, picoquic_tp_initial_max_streams_bidi,
    picoquic_tp_max_idle_timeout, picoquic_tp_max_packet_size, picoquic_tp_ack_delay_exponent, picoquic_tp_initial_max_streams_uni,
    picoquic_tp_initial_max_stream_data_bidi_remote, picoquic_tp_initial_max_stream_data_uni; lia|lia|rewrite ?length_app, ?Nat2Z.inj_add; cbn [length]; lia];
    cbn [mbind option_bind].
#[local] Ltac next_data := rewrite emit_data_ok; [|unfold picoquic_tp_stateless_reset_secret, picoquic_tp_disable_active_migration, picoquic_tp_supported_plugins,
    picoquic_tp_plugins_to_inject; lia|cbn [length]; lia|rewrite ?length_app, ?Nat2Z.inj_add; cbn [length]; lia]; cbn [mbind option_bind].

Lemma prepare_ok supported_list to_inject_list pluglets c mode bytes_max :
  let supported := picoquic_get_list_transport_parameter true supported_list in
  let to_inject := picoquic_get_list_transport_parameter true to_inject_list in
  let tlvs := local_tlvs c mode supported to_inject ++ plugin_tlvs pluglets in
  local_ok c -> Forall pluglet_ok pluglets ->
  Z.of_nat (length (default [] supported)) < 2 ^ 16 -> Z.of_nat (length (default [] to_inject)) < 2 ^ 16 ->
  param_size c mode supported to_inject <= bytes_max -> Z.of_nat (length (encode_tlvs tlvs)) + 64 < bytes_max ->
  picoquic_prepare_transport_extensions true supported_list to_inject_list pluglets c mode bytes_max = Some (0, encode_tlvs tlvs).
Proof.
  intros supported to_inject tlvs Hc Hp Hs Hi Hsize Hroom. unfold picoquic_prepare_transport_extensions. fold supported to_inject.
  destruct (Z.ltb_spec bytes_max (param_size c mode supported to_inject)); [lia|]. subst tlvs. clearbody supported to_inject.
  destruct Hc. unfold local_tlvs in *. rewrite !encode_tlvs_app, !encode_opt in Hroom |- *. rewrite !length_app, !Nat2Z.inj_add in Hroom.
  do 5 next_int. next_data. do 2 next_int. next_data. do 2 next_int. do 2 next_data.
  rewrite plugin_extensions_ok; [|done|rewrite ?length_app, ?Nat2Z.inj_add; cbn [length]; lia]. cbn [mbind option_bind].
  rewrite <- !app_assoc. done.
Qed.

(** *** Every parameter is accepted *)

Lemma receive_int_ok v rest room set ok c : 0 <= v < 2 ^ 62 -> Z.of_nat (length (varint v)) <= room -> ok v = true ->
  receive_int (varint v ++ rest) room 0 set ok c = Some (0, Z.of_nat (length (varint v)), set v c).
Proof. intros Hv Hr Hok. rewrite length_varint in Hr |- * by done. unfold receive_int. rewrite decode_varint by lia. cbn [mbind option_bind]. by rewrite Hok. Qed.

(** An integer parameter of a type for which the switch calls [receive_int]. *)
Lemma int_tlv_ok mode t v f g (ok : Z -> bool) : 0 <= t < 64 -> 0 <= v < 2 ^ 62 ->
  (forall len bytes room c, receive_value true mode t len bytes room 0 c = receive_int bytes room 0 f ok c) -> f v = g -> ok v = true ->
  tlv_ok mode (Tlv t (varint v) g).
Proof.
  intros Ht Hv Hrec <- Hok. split; cbn [tlv_type tlv_value tlv_effect].
  - lia.
  - pose proof (length_varint v Hv). pose proof (varint_len_bounds v). lia.
  - intros _. rewrite length_varint by done. by apply integer_length.
  - intros rest room c Hroom. rewrite Hrec. by apply receive_int_ok.
Qed.

Lemma Forall_opt (P : tlv -> Prop) b t v f : (b = true -> P (Tlv t v f)) -> Forall P (opt_tlv b t v f).
Proof. intros H. unfold opt_tlv. destruct b; [|done]. constructor; [by apply H|done]. Qed.

Lemma take_app_all {A} (v rest : list A) : take (Z.to_nat (Z.of_nat (length v))) (v ++ rest) = v.
Proof. apply take_app_length'. lia. Qed.

Lemma names_tlv_ok mode o : Z.of_nat (length (default [] o)) < 2 ^ 16 -> (o = Some [] -> False) ->
  (match o with Some _ => true | None => false end) = true ->
  tlv_ok mode (Tlv picoquic_tp_supported_plugins (default [] o) (update_remote (set_supported_plugins o))) /\
  tlv_ok mode (Tlv picoquic_tp_plugins_to_inject (default [] o) (update_remote (set_plugins_to_inject o))).
Proof.
  intros Hl Hne Ho. destruct o as [names|]; [|done]. cbn [default] in *. destruct names as [|x names]; [by destruct Hne|].
  unfold picoquic_tp_supported_plugins, picoquic_tp_plugins_to_inject.
  assert (H : forall rest set c, receive_names true ((x :: names) ++ rest) (Z.of_nat (length (x :: names))) 0 set c =
    (0, Z.of_nat (length (x :: names)), update_remote (set (Some (x :: names))) c)).
  { intros rest set c. unfold receive_names. destruct (Z.ltb_spec 0 (Z.of_nat (length (x :: names)))) as [_|Hle]; [|cbn [length] in Hle; lia]. by rewrite take_app_all. }
  split; split; cbn [tlv_type tlv_value tlv_effect]; try (lia || done); intros rest room c _; unfold receive_value; (etransitivity; [|exact (f_equal Some (H rest _ c))]); reflexivity.
Qed.

Lemma list_parameter_nonempty l : picoquic_get_list_transport_parameter true l = Some [] -> False.
Proof. unfold picoquic_get_list_transport_parameter. destruct (plugin_names l); done. Qed.

(** The types that the switch of the parser knows. *)
Definition known_types : list Z := seqZ 0 15 ++ [picoquic_tp_supported_plugins; picoquic_tp_plugins_to_inject].

Lemma local_tlvs_ok c mode supported_list to_inject_list :
  let supported := picoquic_get_list_transport_parameter true supported_list in
  let to_inject := picoquic_get_list_transport_parameter true to_inject_list in
  local_ok c -> Z.of_nat (length (default [] supported)) < 2 ^ 16 -> Z.of_nat (length (default [] to_inject)) < 2 ^ 16 ->
  Forall (tlv_ok mode) (local_tlvs c mode supported to_inject).
Proof.
  intros supported to_inject Hc Hs Hi. destruct Hc. unfold local_tlvs.
  repeat apply Forall_app_2; apply Forall_opt; intros Hb;
    try (eapply int_tlv_ok; [split; [by vm_compute|by vm_compute]|lia|intros; reflexivity|reflexivity|first [reflexivity|cbv beta; lia]]).
  - split; cbn [tlv_type tlv_value tlv_effect]; unfold picoquic_tp_stateless_reset_secret; [lia|lia|done|].
    intros rest room c' _. transitivity (Some (0, Z.of_nat (length (reset_secret c)), set_reset_secret (take (Z.to_nat 16) (reset_secret c ++ rest)) c')).
    + rewrite lo_secret0. reflexivity.
    + do 3 f_equal. apply take_app_length'. by rewrite lo_secret0.
  - split; cbn [tlv_type tlv_value tlv_effect]; unfold picoquic_tp_disable_active_migration; [lia|cbn; lia|done|done].
  - apply names_tlv_ok; [done|apply list_parameter_nonempty|done].
  - apply names_tlv_ok; [done|apply list_parameter_nonempty|done].
Qed.

Lemma plugin_tlvs_ok mode pluglets : Forall pluglet_ok pluglets -> Forall (fun x => x.1.1 ∉ known_types) pluglets ->
  Forall (tlv_ok mode) (plugin_tlvs pluglets).
Proof.
  intros Hp Hk. unfold plugin_tlvs. apply Forall_concat, list.Forall_fmap, list.Forall_forall. intros [[t status] value] Hin. cbn.
  rewrite list.Forall_forall in Hp. rewrite list.Forall_forall in Hk. destruct (Hp _ Hin) as [Ht Hv]. specialize (Hk _ Hin). cbn [fst snd] in *.
  apply Forall_opt. intros Hb. assert (Hne : forall k, existsb (Z.eqb k) known_types = true -> (t =? k) = false).
  { intros k (k' & Hk' & ->%Z.eqb_eq)%existsb_exists. apply Z.eqb_neq. intros ->. by apply Hk, list_elem_of_In. }
  split; cbn [tlv_type tlv_value tlv_effect].
  - lia.
  - rewrite length_take. lia.
  - unfold has_integer_length. cbn [existsb]. rewrite !Hne by reflexivity. done.
  - intros rest room c _. unfold receive_value. rewrite !Hne by reflexivity. by rewrite take_app_all.
Qed.

(** *** No type is written twice *)

Lemma types_opt b t v f : tlv_type <$> opt_tlv b t v f `sublist_of` [t].
Proof. unfold opt_tlv. destruct b; [done|]. cbn. apply sublist_nil_l. Qed.

Definition local_types : list Z := [5; 4; 8; 1; 3; 2; 10; 9; 12; 6; 7; 0x79; 0x7a].

Lemma types_local c mode supported to_inject : tlv_type <$> local_tlvs c mode supported to_inject `sublist_of` local_types.
Proof.
  unfold local_tlvs, local_types. rewrite !fmap_app.
  change [5; 4; 8; 1; 3; 2; 10; 9; 12; 6; 7; 0x79; 0x7a] with ([5] ++ [4] ++ [8] ++ [1] ++ [3] ++ [2] ++ [10] ++ [9] ++ [12] ++ [6] ++ [7] ++ [0x79] ++ [0x7a]).
  repeat apply sublist_app; apply types_opt.
Qed.

Lemma types_plugin pluglets : tlv_type <$> plugin_tlvs pluglets `sublist_of` (fun x : Z * Z * list Z => x.1.1) <$> pluglets.
Proof.
  induction pluglets as [|[[t status] value] l IH]; [done|]. change (plugin_tlvs ((t, status, value) :: l)) with
    (opt_tlv ((0 <? status) && (status <=? 64)) t (take (Z.to_nat status) value) (log_tlv t (take (Z.to_nat status) value)) ++ plugin_tlvs l).
  rewrite fmap_app. apply (sublist_app _ [t] _ _ (types_opt _ _ _ _) IH).
Qed.

Lemma local_known t : t ∈ local_types -> t ∈ known_types.
Proof. intros Ht. apply (bool_decide_unpack _). revert t Ht. apply list.Forall_forall. by apply (bool_decide_unpack _). Qed.

(** *** The connection after all parameters *)

Definition opt_apply (b : bool) (f : conn -> conn) (c : conn) : conn := if b then f c else c.

Lemma apply_app l1 l2 c : apply_tlvs (l1 ++ l2) c = apply_tlvs l2 (apply_tlvs l1 c).
Proof. unfold apply_tlvs. by rewrite foldl_app. Qed.

Lemma apply_opt b t v f c : apply_tlvs (opt_tlv b t v f) c = opt_apply b (fun c => update_streams t (f c)) c.
Proof. unfold apply_tlvs, opt_tlv, opt_apply. by destruct b. Qed.

(** A field that the parameter does not touch, or changes by [g]. *)
Lemma opt_other {A} (proj : conn -> A) b f c : (forall c, proj (f c) = proj c) -> proj (opt_apply b f c) = proj c.
Proof. intros H. unfold opt_apply. destruct b; [apply H|done]. Qed.

Definition when {A} (b : bool) (g : A -> A) (x : A) : A := if b then g x else x.

Lemma opt_field {A} (proj : conn -> A) g b f c : (forall c, proj (f c) = g (proj c)) -> proj (opt_apply b f c) = when b g (proj c).
Proof. intros H. unfold opt_apply. destruct b; [apply H|done]. Qed.

Lemma plugin_tlvs_apply pluglets c : let c' := apply_tlvs (plugin_tlvs pluglets) c in
  Forall (fun x : Z * Z * list Z => x.1.1 ∉ known_types) pluglets ->
  base c' = base c /\ remote_tp c' = remote_tp c /\ reset_secret c' = reset_secret c /\ local_tp c' = local_tp c /\
  plugin_tps c' = plugin_tps c ++ ((fun x => (tlv_type x, tlv_value x)) <$> plugin_tlvs pluglets).
Proof.
  cbv zeta. revert c. induction pluglets as [|[[t status] value] l IH]; intros c Hk; [by rewrite app_nil_r|].
  apply list.Forall_cons in Hk as [Ht Hk]. cbn [fst] in Ht.
  change (plugin_tlvs ((t, status, value) :: l)) with
    (opt_tlv ((0 <? status) && (status <=? 64)) t (take (Z.to_nat status) value) (log_tlv t (take (Z.to_nat status) value)) ++ plugin_tlvs l).
  rewrite apply_app. destruct (IH (apply_tlvs (opt_tlv ((0 <? status) && (status <=? 64)) t (take (Z.to_nat status) value) (log_tlv t (take (Z.to_nat status) value))) c) Hk)
    as (-> & -> & -> & -> & ->). rewrite apply_opt, fmap_app.
  assert (Hu : forall c, update_streams t c = c).
  { intros c0. unfold update_streams. cbn [existsb].
    assert (Hne : forall k, k ∈ known_types -> (t =? k) = false) by (intros k Hk'; apply Z.eqb_neq; by intros ->).
    rewrite !Hne; [done|apply local_known; by apply (bool_decide_unpack _)..]. }
  unfold opt_apply, opt_tlv. destruct ((0 <? status) && (status <=? 64)); [|done]. rewrite Hu. cbn. by rewrite <- app_assoc.
Qed.

(** The parameters that the peer of [c] takes over. *)
Definition advertised_tp (c : conn) (supported to_inject : option (list Z)) : tp :=
  let p := local_tp c in
  TP [] (max_idle_timeout p) (if 1200 <=? max_packet_size p then max_packet_size p else 65527) (initial_max_data p) (initial_max_streams_bidi p)
     (initial_max_streams_uni p) (ack_delay_exponent p) 25 (if disable_active_migration p =? 0 then 0 else 1) null_address 2 supported to_inject.

Lemma positive_or_zero n : 0 <= n -> (if 0 <? n then n else 0) = n.
Proof. destruct (Z.ltb_spec 0 n); lia. Qed.

(** The changes of the parameters, in the order of the wire. *)
Lemma tp_chain sb su ex mp data idle dis supported to_inject : 0 <= sb -> 0 <= su ->
  when (match to_inject with Some _ => true | None => false end) (set_plugins_to_inject to_inject)
    (when (match supported with Some _ => true | None => false end) (set_supported_plugins supported)
      (when (negb (dis =? 0)) (set_disable_active_migration 1)
        (when (0 <? su) (set_initial_max_streams_uni su)
          (when (negb (ex =? 3)) (set_ack_delay_exponent ex)
            (when (1200 <=? mp) (set_max_packet_size mp)
              (when true (set_max_idle_timeout idle)
                (when (0 <? sb) (set_initial_max_streams_bidi sb)
                  (when true (set_initial_max_data data) default_tp)))))))) =
  TP [] idle (if 1200 <=? mp then mp else 65527) data sb su ex 25 (if dis =? 0 then 0 else 1) null_address 2 supported to_inject.
Proof.
  intros Hsb Hsu. unfold when.
  destruct (Z.ltb_spec 0 sb) as [_|Hb]; [|replace sb with 0 by lia]; (destruct (Z.ltb_spec 0 su) as [_|Hu]; [|replace su with 0 by lia]);
    (destruct (Z.eqb_spec ex 3) as [->|_]); destruct (1200 <=? mp), (dis =? 0), supported, to_inject; reflexivity.
Qed.

Lemma local_remote_tp c mode supported to_inject c2 : local_ok c ->
  remote_tp (apply_tlvs (local_tlvs c mode supported to_inject) (with_defaults c2)) = advertised_tp c supported to_inject.
Proof.
  intros Hc. unfold local_tlvs. rewrite !apply_app, !apply_opt.
  rewrite (opt_field remote_tp (set_plugins_to_inject to_inject)) by reflexivity. rewrite (opt_field remote_tp (set_supported_plugins supported)) by reflexivity.
  rewrite 2!(opt_other remote_tp) by reflexivity. rewrite (opt_field remote_tp (set_disable_active_migration 1)) by reflexivity.
  rewrite (opt_field remote_tp (set_initial_max_streams_uni (initial_max_streams_uni (local_tp c)))) by reflexivity.
  rewrite (opt_field remote_tp (set_ack_delay_exponent (ack_delay_exponent (local_tp c)))) by reflexivity. rewrite (opt_other remote_tp) by reflexivity.
  rewrite (opt_field remote_tp (set_max_packet_size (max_packet_size (local_tp c)))) by reflexivity.
  rewrite (opt_field remote_tp (set_max_idle_timeout (max_idle_timeout (local_tp c)))) by reflexivity.
  rewrite (opt_field remote_tp (set_initial_max_streams_bidi (initial_max_streams_bidi (local_tp c)))) by reflexivity.
  rewrite (opt_field remote_tp (set_initial_max_data (initial_max_data (local_tp c)))) by reflexivity. rewrite (opt_other remote_tp) by reflexivity.
  change (remote_tp (with_defaults c2)) with default_tp. unfold advertised_tp. destruct Hc.
  apply tp_chain; lia.
Qed.

(** Streams that were opened before the parameters arrived get the limits of the peer. *)
Definition limit_of (p : Streams.stream_parameters) (s : Streams.stream_head) : Z :=
  if Streams.IS_BIDIR_STREAM_ID (Streams.stream_id s) then Streams.initial_max_stream_data_bidi_remote p else Streams.initial_max_stream_data_uni p.

Definition raise_limit (client : bool) (p : Streams.stream_parameters) (s : Streams.stream_head) : Streams.stream_head :=
  if Streams.IS_LOCAL_STREAM_ID (Streams.stream_id s) client then
    if Streams.maxdata_remote s <? limit_of p s then Streams.set_maxdata_remote (limit_of p s) s else s
  else s.

Lemma raise_raise client p q s : Streams.initial_max_stream_data_bidi_remote p <= Streams.initial_max_stream_data_bidi_remote q ->
  Streams.initial_max_stream_data_uni p <= Streams.initial_max_stream_data_uni q -> raise_limit client q (raise_limit client p s) = raise_limit client q s.
Proof.
  intros H1 H2. assert (Hl : limit_of p s <= limit_of q s) by (unfold limit_of; destruct (Streams.IS_BIDIR_STREAM_ID (Streams.stream_id s)); lia).
  unfold raise_limit at 2. destruct (Streams.IS_LOCAL_STREAM_ID (Streams.stream_id s) client) eqn:El; [|done].
  destruct (Z.ltb_spec (Streams.maxdata_remote s) (limit_of p s)) as [Hlt|]; [|done].
  unfold raise_limit. change (Streams.stream_id (Streams.set_maxdata_remote (limit_of p s) s)) with (Streams.stream_id s). rewrite El.
  change (limit_of q (Streams.set_maxdata_remote (limit_of p s) s)) with (limit_of q s).
  change (Streams.maxdata_remote (Streams.set_maxdata_remote (limit_of p s) s)) with (limit_of p s).
  destruct (Z.ltb_spec (limit_of p s) (limit_of q s)), (Z.ltb_spec (Streams.maxdata_remote s) (limit_of q s)); try lia; [reflexivity|].
  by replace (limit_of q s) with (limit_of p s) by lia.
Qed.

(** The [k]-th stream of a kind that an endpoint opens, from the table of the protocol: the two low bits of an id are the side that opens
    the stream (0 for the client) and its kind (0 for bidirectional). *)
Definition own_stream (client bidir : bool) (k : Z) : Z := 4 * k + (if client then 0 else 1) + (if bidir then 0 else 2).

(** A limit on the ids allows an endpoint exactly [n] streams of a kind. *)
Definition allows_streams (client bidir : bool) (n limit : Z) : Prop := forall k, own_stream client bidir k <= limit <-> k < n.

(** What the parameters of [c] change in the connection [b] of the peer.  Nothing is said of the number of streams that it may open
    when the parameters give none, or 65536 and more. *)
Record takes_over (c : conn) (b b' : Streams.cnx) : Prop := TakesOver {
  tk_limits : Streams.remote_parameters b' = Streams.local_parameters (base c);
  tk_data : Streams.cnx_maxdata_remote b' = initial_max_data (local_tp c);
  tk_streams : Streams.streams b' = raise_limit (Streams.client_mode b) (Streams.local_parameters (base c)) <$> Streams.streams b;
  tk_bidir : 0 < initial_max_streams_bidi (local_tp c) < 2 ^ 16 ->
    allows_streams (Streams.client_mode b) true (initial_max_streams_bidi (local_tp c)) (Streams.max_stream_id_bidir_remote b');
  tk_unidir : 0 < initial_max_streams_uni (local_tp c) < 2 ^ 16 ->
    allows_streams (Streams.client_mode b) false (initial_max_streams_uni (local_tp c)) (Streams.max_stream_id_unidir_remote b');
  tk_state : Streams.cnx_state b' = Streams.cnx_state b;
  tk_error : Streams.cnx_local_error b' = Streams.cnx_local_error b
}.

Definition with_limits (p : Streams.stream_parameters) (b : Streams.cnx) : Streams.cnx :=
  Streams.picoquic_update_stream_initial_remote (set_remote_streams p b).

Lemma base_chain bl br u sb su data rank client unidir bidir (p2 : Z) (b : Streams.cnx) : 0 <= br -> 0 <= u ->
  client = Streams.client_mode b ->
  let b' :=
    when (0 <? u) (fun b => with_limits (set_uni u (Streams.remote_parameters b)) b)
      (when (0 <? br) (fun b => with_limits (set_bidi_remote br (Streams.remote_parameters b)) b)
        (when (0 <? su) (Streams.set_max_stream_id_unidir_remote unidir)
          (when (0 <? sb) (Streams.set_max_stream_id_bidir_remote bidir)
            (Streams.set_max_stream_id_bidir_remote rank (Streams.set_cnx_maxdata_remote data
              (with_limits (Streams.StreamParameters bl 0 0) (set_remote_streams (Streams.StreamParameters 0 0 0) b))))))) in
  Streams.remote_parameters b' = Streams.StreamParameters bl br u /\ Streams.cnx_maxdata_remote b' = data /\
  Streams.streams b' = raise_limit client (Streams.StreamParameters bl br u) <$> Streams.streams b /\
  Streams.max_stream_id_bidir_remote b' = (if 0 <? sb then bidir else rank) /\
  Streams.max_stream_id_unidir_remote b' = (if 0 <? su then unidir else Streams.max_stream_id_unidir_remote b) /\
  Streams.cnx_state b' = Streams.cnx_state b /\ Streams.cnx_local_error b' = Streams.cnx_local_error b.
Proof.
  intros Hbr Hu -> b'.
  assert (Hst : Streams.streams b' = raise_limit (Streams.client_mode b) (Streams.StreamParameters bl br u) <$> Streams.streams b).
  { subst b'. unfold when.
    set (R p l := raise_limit (Streams.client_mode b) p <$> l : list Streams.stream_head).
    assert (Hrr : forall p q l, Streams.initial_max_stream_data_bidi_remote p <= Streams.initial_max_stream_data_bidi_remote q ->
      Streams.initial_max_stream_data_uni p <= Streams.initial_max_stream_data_uni q -> R q (R p l) = R q l).
    { intros p q l H1 H2. unfold R. rewrite <- list_fmap_compose. apply list_fmap_ext. intros i s _. by apply raise_raise. }
    destruct (Z.ltb_spec 0 u) as [_|Hu0]; [|replace u with 0 by lia]; (destruct (Z.ltb_spec 0 br) as [_|Hb0]; [|replace br with 0 by lia]).
    - transitivity (R (Streams.StreamParameters bl br u) (R (Streams.StreamParameters bl br 0) (R (Streams.StreamParameters bl 0 0) (Streams.streams b)))).
      + destruct (0 <? su), (0 <? sb); reflexivity.
      + by rewrite 2!Hrr by (cbn; lia).
    - transitivity (R (Streams.StreamParameters bl 0 u) (R (Streams.StreamParameters bl 0 0) (Streams.streams b))).
      + destruct (0 <? su), (0 <? sb); reflexivity.
      + by rewrite Hrr by (cbn; lia).
    - transitivity (R (Streams.StreamParameters bl br 0) (R (Streams.StreamParameters bl 0 0) (Streams.streams b))).
      + destruct (0 <? su), (0 <? sb); reflexivity.
      + by rewrite Hrr by (cbn; lia).
    - destruct (0 <? su), (0 <? sb); reflexivity. }
  split; [|split; [|split; [exact Hst|]]]; clear Hst; subst b'; unfold when.
  - destruct (Z.ltb_spec 0 u) as [_|Hu0]; [|replace u with 0 by lia]; (destruct (Z.ltb_spec 0 br) as [_|Hb0]; [|replace br with 0 by lia]); destruct (0 <? su), (0 <? sb); reflexivity.
  - destruct (0 <? u), (0 <? br), (0 <? su), (0 <? sb); reflexivity.
  - destruct (0 <? u), (0 <? br), (0 <? su), (0 <? sb); split_and!; reflexivity.
Qed.

(** The decoder of a number of streams allows that many. *)
Lemma decode_allows (n mode stream_type : Z) (client bidir : bool) : mode = 0 \/ mode = 1 -> client = (mode =? 1) ->
  stream_type = (if bidir then PICOQUIC_STREAM_ID_BIDIR else PICOQUIC_STREAM_ID_UNIDIR) -> 0 < n < 2 ^ 16 ->
  allows_streams client bidir n (picoquic_decode_transport_param_stream_id n mode stream_type).
Proof.
  intros Hmode -> -> Hn k. unfold picoquic_decode_transport_param_stream_id, own_stream, u16, u32, PICOQUIC_STREAM_ID_BIDIR, PICOQUIC_STREAM_ID_UNIDIR.
  rewrite (Z.mod_small n) by lia. rewrite (proj2 (Z.ltb_lt 0 n)) by lia.
  destruct Hmode as [-> | ->]; [change (Z.lxor 0 1) with 1|change (Z.lxor 1 1) with 0]; cbn [Z.eqb Pos.eqb];
    destruct bidir; rewrite Z.mod_small; lia.
Qed.

Lemma local_base c mode supported to_inject c2 : local_ok c -> mode = 0 \/ mode = 1 -> Streams.client_mode (base c2) = (mode =? 1) ->
  takes_over c (base c2) (base (apply_tlvs (local_tlvs c mode supported to_inject) (with_defaults c2))).
Proof.
  intros Hc Hmode Hcl. unfold local_tlvs. rewrite !apply_app, !apply_opt. set (sp := Streams.local_parameters (base c)).
  rewrite 2!(opt_other base) by reflexivity.
  rewrite (opt_field base (fun b => with_limits (set_uni (Streams.initial_max_stream_data_uni sp) (Streams.remote_parameters b)) b)) by reflexivity.
  rewrite (opt_field base (fun b => with_limits (set_bidi_remote (Streams.initial_max_stream_data_bidi_remote sp) (Streams.remote_parameters b)) b)) by reflexivity.
  rewrite (opt_other base) by reflexivity.
  rewrite (opt_field base (Streams.set_max_stream_id_unidir_remote
    (picoquic_decode_transport_param_stream_id (initial_max_streams_uni (local_tp c)) mode PICOQUIC_STREAM_ID_UNIDIR))) by reflexivity.
  rewrite 4!(opt_other base) by reflexivity.
  rewrite (opt_field base (Streams.set_max_stream_id_bidir_remote
    (picoquic_decode_transport_param_stream_id (initial_max_streams_bidi (local_tp c)) mode PICOQUIC_STREAM_ID_BIDIR))) by reflexivity.
  destruct Hc.
  destruct (base_chain (Streams.initial_max_stream_data_bidi_local sp) (Streams.initial_max_stream_data_bidi_remote sp) (Streams.initial_max_stream_data_uni sp)
    (initial_max_streams_bidi (local_tp c)) (initial_max_streams_uni (local_tp c)) (initial_max_data (local_tp c))
    (Streams.STREAM_ID_FROM_RANK (initial_max_streams_bidi (local_tp c2)) (negb (Streams.client_mode (base c2))) false) (Streams.client_mode (base c2))
    (picoquic_decode_transport_param_stream_id (initial_max_streams_uni (local_tp c)) mode PICOQUIC_STREAM_ID_UNIDIR)
    (picoquic_decode_transport_param_stream_id (initial_max_streams_bidi (local_tp c)) mode PICOQUIC_STREAM_ID_BIDIR) 0 (base c2))
    as (H1 & H2 & H3 & H4 & H5 & H6 & H7); [unfold sp; lia|unfold sp; lia|done|].
  assert (Esp : Streams.StreamParameters (Streams.initial_max_stream_data_bidi_local sp) (Streams.initial_max_stream_data_bidi_remote sp)
    (Streams.initial_max_stream_data_uni sp) = sp) by (by destruct sp). rewrite Esp in H1, H3.
  split; [exact H1|exact H2|exact H3| | |exact H6|exact H7]; intros Hn;
    [refine (eq_ind_r (allows_streams _ _ _) _ H4)|refine (eq_ind_r (allows_streams _ _ _) _ H5)];
    rewrite (proj2 (Z.ltb_lt 0 _) (proj1 Hn)); by apply decode_allows.
Qed.

Lemma local_others c mode supported to_inject c2 :
  let c' := apply_tlvs (local_tlvs c mode supported to_inject) (with_defaults c2) in
  reset_secret c' = (if mode =? 1 then reset_secret c else reset_secret c2) /\ plugin_tps c' = plugin_tps c2.
Proof.
  cbv zeta. unfold local_tlvs. rewrite !apply_app, !apply_opt. split.
  - rewrite 7!(opt_other reset_secret) by reflexivity. rewrite (opt_field reset_secret (fun _ => reset_secret c)) by reflexivity.
    rewrite 5!(opt_other reset_secret) by reflexivity. unfold when. by destruct (mode =? 1).
  - by rewrite !(opt_other plugin_tps) by reflexivity.
Qed.

Lemma plugin_tlvs_values pluglets : (fun x => (tlv_type x, tlv_value x)) <$> plugin_tlvs pluglets =
  (fun '(param, status, value) => (param, take (Z.to_nat status) value)) <$> filter (fun x : Z * Z * list Z => 0 < x.1.2 <= 64) pluglets.
Proof.
  induction pluglets as [|[[t status] value] l IH]; [done|]. change (plugin_tlvs ((t, status, value) :: l)) with
    (opt_tlv ((0 <? status) && (status <=? 64)) t (take (Z.to_nat status) value) (log_tlv t (take (Z.to_nat status) value)) ++ plugin_tlvs l).
  rewrite fmap_app, IH, filter_cons. unfold opt_tlv. case_decide as H; cbn [fst snd] in H.
  - destruct (Z.ltb_spec 0 status), (Z.leb_spec status 64); (lia || done).
  - destruct (Z.ltb_spec 0 status), (Z.leb_spec status 64); (lia || done).
Qed.

(** Every parameter takes at least two bytes. *)
Lemma tlvs_length mode l : Forall (tlv_ok mode) l -> (2 * length l <= length (encode_tlvs l))%nat.
Proof.
  induction 1 as [|x l Hx _ IH]; [done|]. change (encode_tlvs (x :: l)) with (encode_tlv x ++ encode_tlvs l). rewrite length_app. cbn [length].
  pose proof (length_encode_tlv mode x Hx). destruct Hx. pose proof (varint_len_bounds (tlv_type x)). pose proof (varint_len_bounds (Z.of_nat (length (tlv_value x)))). lia.
Qed.

(** A client does not write the parameters that only a server may send. *)
Lemma client_types c supported to_inject pluglets x : Forall (fun x : Z * Z * list Z => x.1.1 ∉ known_types) pluglets ->
  x ∈ local_tlvs c 0 supported to_inject ++ plugin_tlvs pluglets -> tlv_type x <> 0 /\ tlv_type x <> 2 /\ tlv_type x <> 13.
Proof.
  intros Hk [Hx|Hx]%elem_of_app.
  - assert (HF : Forall (fun x => tlv_type x <> 0 /\ tlv_type x <> 2 /\ tlv_type x <> 13) (local_tlvs c 0 supported to_inject)).
    { unfold local_tlvs. repeat apply Forall_app_2; apply Forall_opt; intros Hb; (discriminate Hb || (cbn [tlv_type]; split_and!; discriminate)). }
    rewrite list.Forall_forall in HF. by apply HF.
  - assert (Hin : tlv_type x ∈ (fun x : Z * Z * list Z => x.1.1) <$> pluglets).
    { eapply elem_of_sublist; [|apply types_plugin]. apply list_elem_of_fmap. by exists x. }
    apply list_elem_of_fmap in Hin as (y & Ey & Hy). rewrite list.Forall_forall in Hk. specialize (Hk y Hy). rewrite <- Ey in Hk.
    split_and!; intros E; rewrite E in Hk; apply Hk; by apply (bool_decide_unpack _).
Qed.

(** C20. What one side writes the other side takes over.  When the buffer has the size that the writer asks for and also holds what is
    written and 64 bytes more (the first alone is not enough for limits of 2^30 and more, [large_limits_corrupt]), and the parameters
    of pluglets have types of their own, the peer parses the bytes without an
    error and to their end; it then knows the parameters that were set, and the defaults of the protocol for the others, has the limits
    on data in the connection and in the streams that it opened before, may open exactly as many streams of each kind as announced, and
    has the stateless reset token of a server; the parameters of the plugins reach the plugins in their order.  The number of streams
    is claimed when it is positive and less than 65536: zero and multiples of 65536 are misread ([stream_counts_misread]).  In both
    directions ([mode] is 1 for what the server sends). *)
Theorem transport_parameters_roundtrip (supported_list to_inject_list : list (list Z)) (pluglets : list (Z * Z * list Z)) (c c2 : conn) (mode bytes_max : Z) :
  let supported := picoquic_get_list_transport_parameter true supported_list in
  let to_inject := picoquic_get_list_transport_parameter true to_inject_list in
  local_ok c -> Forall pluglet_ok pluglets -> Forall (fun x => x.1.1 ∉ known_types) pluglets -> NoDup ((fun x => x.1.1) <$> pluglets) ->
  Z.of_nat (length (default [] supported)) < 2 ^ 16 -> Z.of_nat (length (default [] to_inject)) < 2 ^ 16 -> mode = 0 \/ mode = 1 ->
  Streams.client_mode (base c2) = (mode =? 1) -> param_size c mode supported to_inject <= bytes_max ->
  Z.of_nat (length (encode_tlvs (local_tlvs c mode supported to_inject ++ plugin_tlvs pluglets))) + 64 < bytes_max ->
  exists out c', picoquic_prepare_transport_extensions true supported_list to_inject_list pluglets c mode bytes_max = Some (0, out) /\
    picoquic_receive_transport_extensions true c2 mode out (Z.of_nat (length out)) = Some (Some (0, Z.of_nat (length out), c')) /\
    remote_tp c' = advertised_tp c supported to_inject /\ takes_over c (base c2) (base c') /\
    reset_secret c' = (if mode =? 1 then reset_secret c else reset_secret c2) /\
    plugin_tps c' = plugin_tps c2 ++ ((fun '(param, status, value) => (param, take (Z.to_nat status) value)) <$>
      filter (fun x : Z * Z * list Z => 0 < x.1.2 <= 64) pluglets).
Proof.
  intros supported to_inject Hc Hp Hk Hnd Hs Hi Hmode Hcl Hsize Hroom.
  set (tlvs := local_tlvs c mode supported to_inject ++ plugin_tlvs pluglets) in *.
  exists (encode_tlvs tlvs). rewrite (prepare_ok supported_list to_inject_list pluglets c mode bytes_max Hc Hp Hs Hi Hsize Hroom). fold supported to_inject tlvs.
  set (c0 := set_remote_parameters_received true c2).
  assert (Hok : Forall (tlv_ok mode) tlvs) by (apply list.Forall_app; split; [by apply local_tlvs_ok|by apply plugin_tlvs_ok]).
  assert (Hty : tlv_type <$> tlvs `sublist_of` local_types ++ ((fun x => x.1.1) <$> pluglets)).
  { unfold tlvs. rewrite fmap_app. apply sublist_app; [apply types_local|apply types_plugin]. }
  assert (Hlocal : forall x, x ∈ (fun x : Z * Z * list Z => x.1.1) <$> pluglets -> x ∉ local_types).
  { intros t (y & -> & Hy)%list_elem_of_fmap Ht%local_known. rewrite list.Forall_forall in Hk. by apply (Hk y). }
  assert (HND : NoDup (filter (fun t => t < 64) (tlv_type <$> tlvs))).
  { apply list.NoDup_filter. eapply sublist_NoDup; [|exact Hty]. apply list.NoDup_app. split_and!; [by apply (bool_decide_unpack _)| |done]. intros t Ht Ht2. by apply (Hlocal t). }
  pose proof (tlvs_length mode tlvs Hok) as Hlen.
  destruct (receive_tlvs mode tlvs (Z.to_nat (Z.of_nat (length (encode_tlvs tlvs))) + 65) [] 0 (with_defaults c0) Hok HND) as (present & E & Hbits);
    [intros; apply Z.bits_0|lia|lia|].
  cbn [app length] in E. change (Z.of_nat 0) with 0 in E.
  assert (H2 : (2 <=? Z.of_nat (length (encode_tlvs tlvs))) = true).
  { apply Z.leb_le. assert (0 < length tlvs)%nat by (unfold tlvs, local_tlvs; cbn; lia). lia. }
  eexists. split; [done|]. unfold picoquic_receive_transport_extensions. fold c0. rewrite H2, E. cbn [mbind option_bind rs_ret rs_present rs_index rs_cnx].
  assert (Hpres : (mode =? 0) && (TP_PRESENT present picoquic_tp_original_connection_id || TP_PRESENT present picoquic_tp_stateless_reset_secret ||
    TP_PRESENT present picoquic_tp_preferred_address) = false).
  { destruct Hmode as [-> | ->]; [|done].
    assert (Hnone : forall k, 0 <= k -> k = 0 \/ k = 2 \/ k = 13 -> Z.testbit present k = false).
    { intros k Hk0 Hk'. destruct (Z.testbit present k) eqn:Eb; [|done]. destruct (Hbits k Hk0 Eb) as [Hb|(x & Hx & Ex)]; [by rewrite Z.bits_0 in Hb|].
      destruct (client_types c supported to_inject pluglets x Hk Hx) as (? & ? & ?). lia. }
    unfold TP_PRESENT. rewrite !Hnone; [done|..]; unfold picoquic_tp_original_connection_id, picoquic_tp_stateless_reset_secret, picoquic_tp_preferred_address; lia. }
  change (0 =? 0) with true. cbn [andb]. rewrite Hpres. split; [reflexivity|]. unfold tlvs. rewrite apply_app.
  destruct (plugin_tlvs_apply pluglets (apply_tlvs (local_tlvs c mode supported to_inject) (with_defaults c0)) Hk) as (-> & -> & -> & _ & ->).
  destruct (local_others c mode supported to_inject c0) as [-> ->]. rewrite plugin_tlvs_values.
  split_and!; [by apply local_remote_tp|exact (local_base c mode supported to_inject c0 Hc Hmode Hcl)|done|done].
Qed.

(** ** The parser on any bytes *)

Lemma decode_total bytes room : Forall is_u8 bytes -> 0 <= room < Z.of_nat (length bytes) ->
  exists n v, picoquic_varint_decode bytes room = Some (n, v) /\ 0 <= n <= room /\ 0 <= v < 2 ^ 62 /\ (n = 0 -> v = 0).
Proof.
  intros Hb Hr. destruct (picoquic_varint_decode bytes room) as [[n v]|] eqn:E.
  - exists n, v. split; [done|]. pose proof (decode_range bytes room n v Hb E) as [Hn Hv]. destruct bytes as [|b0 bytes]; [cbn in Hr; lia|].
    unfold picoquic_varint_decode in E. destruct (Z.ltb_spec room (varint_prefix_length b0)); [injection E as <- <-; lia|].
    destruct (varint_decode_loop _ _ _); [|done]. injection E as <- <-. split_and!; try lia.
    intros E0. exfalso. unfold varint_prefix_length in E0. rewrite Z.shiftl_1_l in E0. pose proof (Z.pow_pos_nonneg 2 (Z.shiftr (Z.land b0 0xC0) 6)).
    assert (0 <= Z.shiftr (Z.land b0 0xC0) 6) by (apply Z.shiftr_nonneg, Z.land_nonneg; lia). lia.
  - exfalso. destruct bytes as [|b0 bytes]; [cbn in Hr; lia|]. unfold picoquic_varint_decode in E. destruct (Z.ltb_spec room (varint_prefix_length b0)); [done|].
    assert (Hloop : forall k l v, (k <= length l)%nat -> varint_decode_loop k l v <> None).
    { induction k as [|k IH]; intros l v Hk; [done|]. destruct l as [|x l]; cbn in Hk; [lia|]. cbn. apply IH. lia. }
    destruct (varint_decode_loop _ _ _) eqn:El; [done|]. apply Hloop in El; [done|]. cbn [length] in Hr. lia.
Qed.

(** The only access outside of an object: an id of more than 20 bytes in a preferred address. *)
Lemma preferred_address_fault bytes len p : Forall is_u8 bytes -> len <= Z.of_nat (length bytes) ->
  picoquic_decode_transport_param_preferred_address bytes len p = None -> exists id_len, bytes !! 24%nat = Some id_len /\ 20 < id_len.
Proof.
  intros Hb Hl. unfold picoquic_decode_transport_param_preferred_address. destruct (Z.ltb_spec len (4 + 2 + 16 + 2 + 1 + 16)); [done|].
  destruct (Z.ltb_spec (Z.of_nat (length bytes)) len); [lia|].
  assert (Hp : forall k, (k + 2 <= length bytes)%nat -> is_Some (PICOPARSE_16 (drop k bytes))).
  { intros k Hk. pose proof (length_drop bytes k). destruct (drop k bytes) as [|x [|y l]]; cbn in *; [lia|lia|by eexists]. }
  destruct (Hp 4%nat ltac:(lia)) as [p4 ->]. destruct (Hp 22%nat ltac:(lia)) as [p6 ->]. cbn [mbind option_bind].
  destruct (lookup_lt_is_Some_2 bytes 24 ltac:(lia)) as [id_len Ei]. rewrite Ei. cbn [mbind option_bind]. intros E. exists id_len. split; [done|].
  unfold Packet.PICOQUIC_CONNECTION_ID_MAX_SIZE in E. destruct (Z.ltb_spec 20 id_len); [done|].
  destruct (len <? 25 + id_len + 16); rewrite andb_false_r in E; discriminate E.
Qed.

Lemma receive_value_total malloc_ok mode t len bytes room ret c : Forall is_u8 bytes -> 0 <= len <= room -> room < Z.of_nat (length bytes) ->
  match receive_value malloc_ok mode t len bytes room ret c with
  | Some (ret', n, _) => 0 <= n <= room /\ (t <> picoquic_tp_preferred_address -> ret <> 0 -> ret' <> 0)
  | None => exists id_len, bytes !! 24%nat = Some id_len /\ 20 < id_len
  end.
Proof.
  intros Hb Hl Hr.
  assert (Hint : forall set ok, match receive_int bytes room ret set ok c with
    | Some (ret', n, _) => 0 <= n <= room /\ (t <> picoquic_tp_preferred_address -> ret <> 0 -> ret' <> 0) | None => exists id_len, bytes !! 24%nat = Some id_len /\ 20 < id_len end).
  { intros set ok. unfold receive_int. destruct (decode_total bytes room Hb ltac:(lia)) as (n & v & -> & Hn & _). cbn [mbind option_bind].
    destruct (ok v); cbn; (split; [lia|done]). }
  assert (Hnames : forall set, match Some (receive_names malloc_ok bytes len ret set c) with
    | Some (ret', n, _) => 0 <= n <= room /\ (t <> picoquic_tp_preferred_address -> ret <> 0 -> ret' <> 0) | None => exists id_len, bytes !! 24%nat = Some id_len /\ 20 < id_len end).
  { intros set. unfold receive_names. destruct (0 <? len), malloc_ok; (split; [lia|done]). }
  unfold receive_value. cbv zeta.
  repeat match goal with
    | |- context [if t =? ?k then _ else _] => destruct (Z.eqb_spec t k) as [->|]; [try apply Hint; try apply Hnames|]
    end.
  - destruct (negb _); cbn; (split; [lia|done]).
  - destruct (picoquic_decode_transport_param_preferred_address _ _ _) as [[r p]|] eqn:E.
    + cbn [mbind option_bind]. destruct (r =? 0); cbn; (split; [lia|done]).
    + cbn [mbind option_bind]. eapply preferred_address_fault; [done| |exact E]. lia.
  - destruct (_ <? len); cbn; (split; [lia|done]).
  - destruct (negb _); cbn; (split; [lia|done]).
  - split; [lia|done].
Qed.

(** A round goes forward, or meets the first truncated parameter. *)
Lemma receive_param_progress malloc_ok mode bytes bytes_max s : Forall is_u8 bytes -> bytes_max < Z.of_nat (length bytes) ->
  0 <= rs_index s < bytes_max ->
  match receive_param malloc_ok mode bytes bytes_max s with
  | Some s' => rs_index s <= rs_index s' <= bytes_max /\ (Z.testbit (rs_present s) 0 = true -> Z.testbit (rs_present s') 0 = true) /\
      (rs_ret s' = 0 -> rs_index s < rs_index s' \/ Z.testbit (rs_present s) 0 = false /\ Z.testbit (rs_present s') 0 = true)
  | None => exists i id_len, bytes !! (i + 24)%nat = Some id_len /\ 20 < id_len
  end.
Proof.
  intros Hb Hmax Hi. unfold receive_param. destruct (Z.ltb_spec bytes_max (rs_index s + 2)).
  { cbn. split; [lia|]. split; [done|]. done. }
  assert (Hd : forall i, 0 <= i <= bytes_max -> exists n v, picoquic_varint_decode (drop (Z.to_nat i) bytes) (bytes_max - i) = Some (n, v) /\
    0 <= n <= bytes_max - i /\ 0 <= v < 2 ^ 62 /\ (n = 0 -> v = 0)).
  { intros i Hi'. apply decode_total; [by apply Forall_drop|]. rewrite length_drop. lia. }
  destruct (Hd (rs_index s) ltac:(lia)) as (n1 & t & E1 & Hn1 & Ht & Hz1). rewrite E1. cbn [mbind option_bind].
  destruct (Hd (rs_index s + n1) ltac:(lia)) as (n2 & len & E2 & Hn2 & Hlen & Hz2). rewrite E2. cbn [mbind option_bind].
  destruct (Z.ltb_spec bytes_max (rs_index s + n1 + n2 + len)).
  { cbn. split; [lia|]. split; [done|]. done. }
  destruct (check_length t len (rs_cnx s)) as [ret0 c0] eqn:Ec. destruct (check_duplicate t ret0 (rs_present s) c0) as [[ret1 present] c1] eqn:Edup.
  pose proof (receive_value_total malloc_ok mode t len (drop (Z.to_nat (rs_index s + n1 + n2)) bytes) (bytes_max - (rs_index s + n1 + n2)) ret1 c1) as Hv.
  specialize (Hv ltac:(by apply Forall_drop) ltac:(lia) ltac:(rewrite length_drop; lia)).
  assert (Hbits : Z.testbit (rs_present s) 0 = true -> Z.testbit present 0 = true).
  { intros Hbit. unfold check_duplicate in Edup. destruct ((ret0 =? 0) && (t <? 64)); [|by injection Edup as <- <- <-].
    destruct (Z.testbit (rs_present s) t); injection Edup as <- <- <-; [done|]. by rewrite Z.lor_spec, Hbit. }
  assert (Hfirst : n1 = 0 -> t = 0 /\ (ret1 <> 0 \/ Z.testbit (rs_present s) 0 = false /\ Z.testbit present 0 = true)).
  { intros E0. pose proof (Hz1 E0) as ->. split; [done|]. subst n1. unfold check_length in Ec. cbn in Ec. injection Ec as <- <-.
    unfold check_duplicate in Edup. cbn [andb Z.eqb] in Edup. change (0 <? 64) with true in Edup. cbv iota in Edup.
    destruct (Z.testbit (rs_present s) 0) eqn:Eb; injection Edup as <- <- <-; [by left|right]. split; [done|]. by rewrite Z.lor_spec, orb_true_r. }
  destruct (receive_value _ _ _ _ _ _ _ _) as [[[ret n3] c2]|].
  - destruct Hv as [Hn3 Hret]. cbn [mbind option_bind]. destruct ((ret =? 0) && _); cbn [connection_error rs_index rs_present rs_ret].
    + split; [lia|]. split; [done|]. done.
    + split; [lia|]. split; [done|]. intros ->. destruct (Z.eq_dec n1 0) as [E0|]; [|left; lia]. destruct (Hfirst E0) as [-> [Hne|Hset]]; [|by right].
      exfalso. by apply Hret.
  - destruct Hv as (id_len & Hid & Hbig). rewrite lookup_drop in Hid. cbn [mbind option_bind]. by exists (Z.to_nat (rs_index s + n1 + n2)), id_len.
Qed.

Lemma receive_loop_total malloc_ok mode bytes bytes_max fuel : forall s, Forall is_u8 bytes -> bytes_max < Z.of_nat (length bytes) -> 0 <= rs_index s <= bytes_max ->
  bytes_max - rs_index s + (if Z.testbit (rs_present s) 0 then 0 else 1) <= Z.of_nat fuel ->
  exists r, receive_loop fuel malloc_ok mode bytes bytes_max s = Some r /\
    match r with Some s' => 0 <= rs_index s' <= bytes_max | None => exists i id_len, bytes !! (i + 24)%nat = Some id_len /\ 20 < id_len end.
Proof.
  induction fuel as [|fuel IH]; intros s Hb Hmax Hi Hf; cbn [receive_loop].
  all: destruct (rs_ret s =? 0) eqn:Er; cbn [andb]; [|by eexists].
  all: destruct (Z.ltb_spec (rs_index s) bytes_max) as [Hlt|]; [|by eexists].
  - destruct (Z.testbit (rs_present s) 0); lia.
  - pose proof (receive_param_progress malloc_ok mode bytes bytes_max s Hb Hmax ltac:(lia)) as Hp. destruct (receive_param _ _ _ _ s) as [s'|]; [|by eexists].
    destruct Hp as (Hidx & Hbit & Hprog). destruct (Z.eq_dec (rs_ret s') 0) as [Hr|Hr].
    + apply IH; [done|done|lia|]. specialize (Hprog Hr). destruct (Z.testbit (rs_present s) 0) eqn:Eb, (Z.testbit (rs_present s') 0) eqn:Eb'; lia.
    + exists (Some s'). split; [|lia]. destruct fuel; cbn [receive_loop]; apply Z.eqb_neq in Hr; by rewrite Hr.
Qed.

(** The parser of transport parameters on any bytes: the loop ends, although a truncated parameter does not move the index;
    the index never leaves the extension; and given one readable byte behind the extension the only access outside of an object is
    the copy of a connection id of more than 20 bytes out of a preferred address. *)
Theorem receive_parameters_total (malloc_ok : bool) (c : conn) (mode bytes_max : Z) (bytes : list Z) :
  Forall is_u8 bytes -> 0 <= bytes_max < Z.of_nat (length bytes) ->
  exists r, picoquic_receive_transport_extensions malloc_ok c mode bytes bytes_max = Some r /\
    match r with
    | Some (ret, consumed, _) => 0 <= consumed <= bytes_max
    | None => exists i id_len, bytes !! (i + 24)%nat = Some id_len /\ Packet.PICOQUIC_CONNECTION_ID_MAX_SIZE < id_len
    end.
Proof.
  intros Hb Hmax. unfold picoquic_receive_transport_extensions, Packet.PICOQUIC_CONNECTION_ID_MAX_SIZE. destruct (Z.leb_spec 2 bytes_max) as [H2|H2].
  - destruct (receive_loop_total malloc_ok mode bytes bytes_max (Z.to_nat bytes_max + 65)
      (Receiving 0 0 0 (with_defaults (set_remote_parameters_received true c))) Hb) as (r & -> & Hr); cbn [rs_index rs_present]; [lia|lia| |].
    { rewrite Z.bits_0. lia. }
    cbn [mbind option_bind]. destruct r as [s|]; [|by exists None]. destruct (_ && _ && _); by eexists.
  - cbn [mbind option_bind rs_ret rs_present]. destruct (_ && _ && _); (eexists; split; [reflexivity|cbn; lia]).
Qed.

(** A preferred address is read back as it was written. *)
Theorem preferred_address_roundtrip (p q : preferred_address) (bytes_max : Z) :
  length (ipv4_address p) = 4%nat -> length (ipv6_address p) = 16%nat -> length (stateless_reset_token p) = 16%nat ->
  0 <= ipv4_port p < 2 ^ 16 -> 0 <= ipv6_port p < 2 ^ 16 -> pa_id_len p = Z.of_nat (length (pa_id p)) ->
  pa_id_len p <= Packet.PICOQUIC_CONNECTION_ID_MAX_SIZE -> picoquic_length_transport_param_preferred_address p <= bytes_max ->
  let out := picoquic_prepare_transport_param_preferred_address bytes_max p in
  Z.of_nat (length out) = picoquic_length_transport_param_preferred_address p /\
  picoquic_decode_transport_param_preferred_address out (Z.of_nat (length out)) q = Some (0, p).
Proof.
  intros H4 H6 Htok Hp4 Hp6 Hid Hmax Hroom out. unfold Packet.PICOQUIC_CONNECTION_ID_MAX_SIZE in Hmax.
  assert (Hlen : picoquic_length_transport_param_preferred_address p = 41 + pa_id_len p)
    by (unfold picoquic_length_transport_param_preferred_address; rewrite u16_small; lia).
  assert (Eo : out = ipv4_address p ++ picoformat_16 (ipv4_port p) ++ ipv6_address p ++ picoformat_16 (ipv6_port p) ++ [pa_id_len p] ++ pa_id p ++ stateless_reset_token p).
  { unfold out, picoquic_prepare_transport_param_preferred_address. destruct (Z.leb_spec (picoquic_length_transport_param_preferred_address p) bytes_max); [|lia].
    rewrite !length_app, H4, H6. cbn [picoformat_16 length]. unfold Packet.picoquic_format_connection_id, Packet.id_len. rewrite <- Hid.
    rewrite u8_small by lia. rewrite <- !app_assoc. do 5 f_equal.
    destruct (Z.ltb_spec (bytes_max - Z.of_nat (4 + (2 + (16 + (2 + 1))))) (pa_id_len p)); [lia|]. cbn [orb].
    destruct (Z.eqb_spec (pa_id_len p) 0) as [E0|]; [|done]. destruct (pa_id p); [done|]. cbn [length] in Hid. lia. }
  clearbody out. subst out. set (id := pa_id p) in *. set (tok := stateless_reset_token p) in *.
  assert (Hl : Z.of_nat (length (ipv4_address p ++ picoformat_16 (ipv4_port p) ++ ipv6_address p ++ picoformat_16 (ipv6_port p) ++ [pa_id_len p] ++ id ++ tok)) = 41 + pa_id_len p).
  { rewrite !length_app, H4, H6, Htok. cbn [picoformat_16 length]. lia. }
  split; [lia|]. rewrite Hl. unfold picoquic_decode_transport_param_preferred_address. rewrite Hl.
  destruct (Z.ltb_spec (41 + pa_id_len p) (4 + 2 + 16 + 2 + 1 + 16)); [lia|]. rewrite Z.ltb_irrefl.
  assert (D4 : forall r, drop 4 (ipv4_address p ++ r) = r) by (intros r; by apply drop_app_length'). rewrite D4.
  destruct (picoformat_roundtrip (ipv4_port p) (ipv6_address p ++ picoformat_16 (ipv6_port p) ++ [pa_id_len p] ++ id ++ tok)) as [P4 _]. rewrite P4 by done. cbn [mbind option_bind].
  assert (D6 : forall r, drop 6 (ipv4_address p ++ picoformat_16 (ipv4_port p) ++ r) = r).
  { intros r. rewrite app_assoc. apply drop_app_length'. rewrite length_app, H4. done. }
  assert (D22 : forall r, drop 22 (ipv4_address p ++ picoformat_16 (ipv4_port p) ++ ipv6_address p ++ r) = r).
  { intros r. rewrite !app_assoc. apply drop_app_length'. rewrite !length_app, H4, H6. done. }
  assert (D25 : forall r, drop 25 (ipv4_address p ++ picoformat_16 (ipv4_port p) ++ ipv6_address p ++ picoformat_16 (ipv6_port p) ++ [pa_id_len p] ++ r) = r).
  { intros r. rewrite !app_assoc. apply drop_app_length'. rewrite !length_app, H4, H6. done. }
  rewrite D22. destruct (picoformat_roundtrip (ipv6_port p) ([pa_id_len p] ++ id ++ tok)) as [P6 _]. rewrite P6 by done. cbn [mbind option_bind].
  assert (L24 : (ipv4_address p ++ picoformat_16 (ipv4_port p) ++ ipv6_address p ++ picoformat_16 (ipv6_port p) ++ [pa_id_len p] ++ id ++ tok) !! 24%nat = Some (pa_id_len p)).
  { rewrite !app_assoc. rewrite <- app_assoc. rewrite <- app_assoc. apply list_lookup_middle. rewrite !length_app, H4, H6. done. }
  rewrite L24. cbn [mbind option_bind]. destruct (Z.ltb_spec (41 + pa_id_len p) (25 + pa_id_len p + 16)); [lia|].
  cbn [andb Z.eqb]. change (0 =? 0) with true. destruct (Z.ltb_spec Packet.PICOQUIC_CONNECTION_ID_MAX_SIZE (pa_id_len p));
    [unfold Packet.PICOQUIC_CONNECTION_ID_MAX_SIZE in *; lia|]. cbn [andb].
  destruct (Z.ltb_spec (25 + pa_id_len p + 16) (41 + pa_id_len p)); [lia|]. rewrite D6, D25.
  rewrite (take_app_length' (ipv4_address p)), (take_app_length' (ipv6_address p)), (take_app_length' id) by (done || lia).
  replace (Z.to_nat (25 + pa_id_len p)) with (25 + Z.to_nat (pa_id_len p))%nat by lia. rewrite <- drop_drop, D25, (drop_app_length' id) by lia.
  rewrite take_ge by lia. by destruct p.
Qed.

(** ** Examples *)

Definition sample_base (client : bool) (p : Streams.stream_parameters) : Streams.cnx :=
  Streams.Cnx client [] p (Streams.StreamParameters 0 0 0) 0 0 0 0 0 0 0 0 0 0 0 0 0 0 0 0 [].

Definition sample_conn (client : bool) (secret : list Z) (p : Streams.stream_parameters * tp) : conn :=
  Conn (sample_base client p.1) p.2 default_tp false secret [].

Definition sample_server : conn := sample_conn false (replicate 16 7) (picoquic_init_transport_parameters default_tp).
Definition sample_client : conn := sample_conn true (replicate 16 0) (picoquic_init_transport_parameters default_tp).

(** A server with two plugins and the parameter of a pluglet. *)
Lemma transport_parameters_roundtrip_witness :
  exists out c', picoquic_prepare_transport_extensions true [[97; 98]; [99]] [] [(0x40, 2, 5 :: 6 :: replicate 62 0)] sample_server 1 300 = Some (0, out) /\
    picoquic_receive_transport_extensions true sample_client 1 out (Z.of_nat (length out)) = Some (Some (0, Z.of_nat (length out), c')) /\
    remote_tp c' = advertised_tp sample_server (Some [97; 98; 44; 99; 0]) None /\ plugin_tps c' = [(0x40, [5; 6])].
Proof.
  destruct (transport_parameters_roundtrip [[97; 98]; [99]] [] [(0x40, 2, 5 :: 6 :: replicate 62 0)] sample_server sample_client 1 300)
    as (out & c' & E1 & E2 & E3 & _ & _ & E4).
  - split; by vm_compute.
  - apply Forall_singleton. split; [split; by vm_compute|by vm_compute].
  - apply Forall_singleton. by apply (bool_decide_unpack _).
  - apply NoDup_singleton.
  - by vm_compute.
  - by vm_compute.
  - by right.
  - done.
  - by vm_compute.
  - by vm_compute.
  - exists out, c'. split; [exact E1|]. split; [exact E2|]. split; [exact E3|exact E4].
Defined.

(** A type of two bytes that ends with the extension: the length is read from behind it. *)
Lemma receive_parameters_total_witness : exists r, picoquic_receive_transport_extensions true sample_client 1 [64; 64; 0] 2 = Some r.
Proof.
  destruct (receive_parameters_total true sample_client 1 2 [64; 64; 0]) as (r & E & _).
  - repeat constructor; by vm_compute.
  - by vm_compute.
  - exists r. exact E.
Defined.

Lemma preferred_address_roundtrip_witness :
  picoquic_decode_transport_param_preferred_address
    (picoquic_prepare_transport_param_preferred_address 60 (PreferredAddress [10; 0; 0; 1] 443 (replicate 16 1) 4433 4 [1; 2; 3; 4] (replicate 16 9))) 45 null_address =
  Some (0, PreferredAddress [10; 0; 0; 1] 443 (replicate 16 1) 4433 4 [1; 2; 3; 4] (replicate 16 9)).
Proof.
  apply (preferred_address_roundtrip (PreferredAddress [10; 0; 0; 1] 443 (replicate 16 1) 4433 4 [1; 2; 3; 4] (replicate 16 9)) null_address 60); by vm_compute.
Defined.

(** ** Where the code departs from what it means to do *)

(** The announced length of an integer parameter is not compared with the length of its value: a value that is announced as one
    byte may take up to eight, and the parser goes on behind it. *)
Theorem overlong_value_accepted (c : conn) (mode v : Z) : 0 <= v < 2 ^ 62 ->
  exists c', picoquic_receive_transport_extensions true c mode ([picoquic_tp_initial_max_data; 1] ++ varint v) (2 + picoquic_varint_len v) =
    Some (Some (0, 2 + picoquic_varint_len v, c')) /\ initial_max_data (remote_tp c') = v.
Proof.
  intros Hv. unfold picoquic_receive_transport_extensions. destruct (varint_len_bounds v) as [Hl|]; [|lia].
  destruct (Z.leb_spec 2 (2 + picoquic_varint_len v)); [|lia].
  replace (Z.to_nat (2 + picoquic_varint_len v) + 65)%nat with (S (S (Z.to_nat (2 + picoquic_varint_len v) + 63))) by lia.
  set (c0 := with_defaults _). set (L := 2 + picoquic_varint_len v).
  assert (Ep : receive_param true mode ([picoquic_tp_initial_max_data; 1] ++ varint v) L (Receiving 0 0 0 c0) =
    Some (Receiving 0 L (Z.lor 0 (Z.shiftl 1 picoquic_tp_initial_max_data)) (set_max_data v c0))).
  { unfold receive_param. cbn [rs_index rs_cnx rs_present]. destruct (Z.ltb_spec L (0 + 2)); [lia|].
    assert (E1 : picoquic_varint_decode ([picoquic_tp_initial_max_data; 1] ++ varint v) (L - 0) = Some (1, 4)).
    { apply (decode_varint 4 (L - 0) ([1] ++ varint v)); [lia|unfold L; cbn; lia]. }
    assert (E2 : picoquic_varint_decode ([1] ++ varint v) (L - 1) = Some (1, 1)) by (apply (decode_varint 1 (L - 1) (varint v)); [lia|unfold L; cbn; lia]).
    assert (E3 : receive_int (varint v) (L - 2) 0 set_max_data any_value c0 = Some (0, picoquic_varint_len v, set_max_data v c0)).
    { pose proof (receive_int_ok v [] (L - 2) set_max_data any_value c0 Hv) as E. rewrite app_nil_r, length_varint in E by done. apply E; [unfold L; lia|done]. }
    change (drop (Z.to_nat 0) ?l) with l. rewrite E1. cbn [mbind option_bind]. change (drop (Z.to_nat (0 + 1)) ([picoquic_tp_initial_max_data; 1] ++ varint v)) with ([1] ++ varint v).
    change (L - (0 + 1)) with (L - 1). rewrite E2. cbn [mbind option_bind]. destruct (Z.ltb_spec L (0 + 1 + 1 + 1)); [unfold L in *; lia|].
    change (check_length 4 1 c0) with (0, c0). cbv beta iota. change (check_duplicate 4 0 0 c0) with (0, Z.lor 0 (Z.shiftl 1 4), c0). cbv beta iota.
    change (drop (Z.to_nat (0 + 1 + 1)) ([picoquic_tp_initial_max_data; 1] ++ varint v)) with (varint v). change (L - (0 + 1 + 1)) with (L - 2).
    change (receive_value true mode 4 1 (varint v) (L - 2) 0 c0) with (receive_int (varint v) (L - 2) 0 set_max_data any_value c0). rewrite E3. cbn [mbind option_bind].
    destruct (Z.ltb_spec (0 + 1 + 1 + picoquic_varint_len v) (0 + 1 + 1 + 1)); [lia|]. reflexivity. }
  exists (set_max_data v c0). split; [|reflexivity]. cbn [receive_loop rs_ret rs_index]. destruct (Z.ltb_spec 0 L); [|unfold L in *; lia].
  change (0 =? 0) with true. cbn [andb]. rewrite Ep. cbn [rs_ret rs_index]. rewrite Z.ltb_irrefl, andb_false_r. cbn [mbind option_bind rs_ret rs_present].
  change (0 =? 0) with true. destruct (mode =? 0); reflexivity.
Qed.

Lemma overlong_value_accepted_witness : exists c', picoquic_receive_transport_extensions true sample_client 1 ([4; 1] ++ varint (2 ^ 40)) 10 = Some (Some (0, 10, c')).
Proof. destruct (overlong_value_accepted sample_client 1 (2 ^ 40)) as (c' & E & _); [lia|]. exists c'. exact E. Defined.

(** A peer that announces no stream at all, or a multiple of 65536, is taken to allow four billion of them; when it does not mention the
    number of streams, which means none, the limit is computed from the receiver's own parameters. *)
Theorem stream_counts_misread (mode stream_type k : Z) :
  picoquic_decode_transport_param_stream_id (65536 * k) mode stream_type = 0xFFFFFFFF /\
  (exists c', picoquic_receive_transport_extensions true sample_client 1 [picoquic_tp_initial_max_streams_bidi; 1; 0] 3 = Some (Some (0, 3, c')) /\
     Streams.max_stream_id_bidir_remote (base c') = 0xFFFFFFFF) /\
  (exists c', picoquic_receive_transport_extensions true sample_client 1 [picoquic_tp_initial_max_data; 1; 9] 3 = Some (Some (0, 3, c')) /\
     initial_max_streams_bidi (remote_tp c') = 0 /\ Streams.max_stream_id_bidir_remote (base c') = 4 * 9999).
Proof.
  split_and!.
  - unfold picoquic_decode_transport_param_stream_id, u16. change (2 ^ 16) with 65536. rewrite Z.mul_comm, Z.mod_mul by lia. done.
  - eexists. by vm_compute.
  - eexists. by vm_compute.
Qed.

(** A client whose limits need eight bytes. *)
Definition large_client : conn :=
  sample_conn true (replicate 16 0) (Streams.StreamParameters (2 ^ 40) (2 ^ 40) (2 ^ 40), set_initial_max_data (2 ^ 40) (picoquic_init_transport_parameters default_tp).2).

(** The writer asks for four bytes per limit.  Limits of 2^30 and more need eight: in a buffer of the size it asked for, the parameters that
    do not fit take back a byte of the one before instead, the code is still 0, and the peer refuses what was written. *)
Theorem large_limits_corrupt :
  exists out c', picoquic_prepare_transport_extensions true [] [] [] large_client 0 (param_size large_client 0 None None) = Some (0, out) /\
    picoquic_receive_transport_extensions true sample_server 0 out (Z.of_nat (length out)) = Some (Some (PICOQUIC_ERROR_DETECTED, Z.of_nat (length out), c')).
Proof. eexists _, _. split; [by vm_compute|]. by vm_compute. Qed.

(** The error of a duplicate preferred address is forgotten: the code is 0 although the connection has failed. *)
Example duplicate_address_forgotten :
  let bytes := picoquic_tp_preferred_address :: 41 :: replicate 41 0 in
  exists c', picoquic_receive_transport_extensions true sample_client 1 (bytes ++ bytes) 86 = Some (Some (0, 86, c')) /\
    Streams.cnx_local_error (base c') = PICOQUIC_TRANSPORT_PARAMETER_ERROR.
Proof. eexists. by vm_compute. Qed.

End Transport.
