(* ===== verification/Containers.v ===== *)
(** * Generic containers of the core

    picoquic/picohash.c
      the hash table with chained bins that finds connections by id and by address
    picoquic/queue.c
      the singly linked queue of pending frames and cached plugins

    A bin is the list of its items in the order of their chain.  The items that are deleted are
    those that a search found, or the first ones of their bins: both are the first items with their keys,
    so that the key of an item stands for the pointer to it.  The nodes of a queue are in a
    heap; following a pointer to a node that is not there is [None]. *)
From stdpp Require Import base list gmap numbers.
From Stdlib Require Import ZArith Lia Bool.
From S2P Require Import Prelude.
#[local] Open Scope Z_scope.

Module Containers.

(** ** The hash table *)

(** [picohash_bytes] *)
Definition picohash_bytes (key : list Z) : Z :=
  foldl (fun hash b => let hash := Z.lxor hash b in Z.lxor hash (Z.lxor (u64 (Z.shiftl hash 31)) (Z.shiftr hash 17))) 0xDEADBEEF key.

Section Table.
(** The functions [picohash_hash] and [picohash_compare] that a table is created with; the second is true when the C function returns 0.
    A key is compared by its part in [K] and carries a value in [V]. *)
Context {K V : Type} `{EK : EqDecision K} `{CK : !Countable K} (picohash_hash : K -> Z) (picohash_compare : K -> K -> bool).

Record item := Item { it_hash : Z; it_key : K; it_value : V }.

Record table := Table { hash_bin : list (list item); nb_bin : Z; count : Z }.

Definition picohash_create (malloc_ok : bool) (nb_bin : Z) : option table :=
  if malloc_ok then Some (Table (replicate (Z.to_nat nb_bin) []) nb_bin 0) else None.

Definition bin_of (t : table) (hash : Z) : nat := Z.to_nat (u32 (hash mod nb_bin t)).

Fixpoint find_item (key : K) (l : list item) : option item :=
  match l with
  | [] => None
  | it :: l => if picohash_compare key (it_key it) then Some it else find_item key l
  end.

Definition picohash_retrieve (t : table) (key : K) : option (option item) :=
  l ← hash_bin t !! bin_of t (picohash_hash key);
  Some (find_item key l).

Definition picohash_insert (malloc_ok : bool) (t : table) (key : K) (v : V) : option (Z * table) :=
  let hash := picohash_hash key in
  let bin := bin_of t hash in
  if malloc_ok then
    l ← hash_bin t !! bin;
    Some (0, Table (<[bin := Item hash key v :: l]> (hash_bin t)) (nb_bin t) (count t + 1))
  else Some (-1, t).

(** Takes the item out of the chain. *)
Fixpoint remove_item (key : K) (l : list item) : list item :=
  match l with
  | [] => []
  | it :: l => if bool_decide (it_key it = key) then l else it :: remove_item key l
  end.

Definition picohash_item_delete (t : table) (it : item) : option table :=
  let bin := bin_of t (it_hash it) in
  l ← hash_bin t !! bin;
  Some (Table (<[bin := remove_item (it_key it) l]> (hash_bin t)) (nb_bin t) (count t)).

(** The loop of [picohash_delete] over one bin: its first item is deleted until there is none. *)
Fixpoint empty_bin (fuel : nat) (t : table) (i : nat) : option table :=
  l ← hash_bin t !! i;
  match l, fuel with
  | [], _ => Some t
  | it :: _, S fuel => t ← picohash_item_delete t it; empty_bin fuel t i
  | _, O => None
  end.

Fixpoint empty_bins (n : nat) (t : table) : option table :=
  match n with
  | O => Some t
  | S n => t ← empty_bins n t; l ← hash_bin t !! n; empty_bin (length l) t n
  end.

(** The table before it is freed. *)
Definition picohash_delete (t : table) : option table := empty_bins (Z.to_nat (nb_bin t)) t.

(** *** The table stands for a finite map *)

Context (compare_ok : forall k1 k2, picohash_compare k1 k2 = true <-> k1 = k2).

Record bin_ok (t : table) (i : nat) (l : list item) : Prop := BinOk {
  bo_items : forall it, it ∈ l -> it_hash it = picohash_hash (it_key it) /\ bin_of t (picohash_hash (it_key it)) = i;
  bo_keys : NoDup (it_key <$> l)
}.

Record table_of (t : table) (m : gmap K V) : Prop := TableOf {
  to_bins : 0 < nb_bin t < 2 ^ 32;
  to_array : length (hash_bin t) = Z.to_nat (nb_bin t);
  to_ok : forall i l, hash_bin t !! i = Some l -> bin_ok t i l;
  to_map : forall k v l, hash_bin t !! bin_of t (picohash_hash k) = Some l -> m !! k = Some v <-> exists h, Item h k v ∈ l
}.

Lemma create_table_ok n : 0 < n < 2 ^ 32 -> table_of (Table (replicate (Z.to_nat n) []) n 0) ∅.
Proof.
  intros Hn. split; cbn [hash_bin nb_bin].
  - done.
  - apply length_replicate.
  - intros i l [-> _]%lookup_replicate_1. split; [intros it Hin; by apply elem_of_nil in Hin|constructor].
  - intros k v l [-> _]%lookup_replicate_1. rewrite lookup_empty. split; [done|]. intros [h Hin]. by apply elem_of_nil in Hin.
Qed.

Lemma bin_lookup t m k : table_of t m -> is_Some (hash_bin t !! bin_of t (picohash_hash k)).
Proof.
  intros H. apply lookup_lt_is_Some_2. rewrite (to_array _ _ H). unfold bin_of. pose proof (to_bins _ _ H).
  pose proof (Z.mod_pos_bound (picohash_hash k) (nb_bin t)). rewrite u32_small; lia.
Qed.

Lemma find_item_spec k l : NoDup (it_key <$> l) ->
  match find_item k l with Some it => it ∈ l /\ it_key it = k | None => forall it, it ∈ l -> it_key it <> k end.
Proof.
  induction l as [|it l IH]; intros Hnd; cbn [find_item]; [set_solver|]. cbn in Hnd. inversion_clear Hnd as [|? ? Hni Hnd'].
  destruct (picohash_compare k (it_key it)) eqn:E.
  - apply compare_ok in E as ->. split; [left|done].
  - assert (k <> it_key it) by (intros Ek; apply compare_ok in Ek; congruence). specialize (IH Hnd'). destruct (find_item k l) as [x|].
    + destruct IH. split; [by right|done].
    + intros y [->|Hy]%elem_of_cons; [done|by apply IH].
Qed.

Lemma retrieve_ok t m k : table_of t m -> exists r, picohash_retrieve t k = Some r /\ it_value <$> r = m !! k /\
  (forall it, r = Some it -> it_key it = k /\ it_hash it = picohash_hash k).
Proof.
  intros H. destruct (bin_lookup t m k H) as [l El]. unfold picohash_retrieve. rewrite El. cbn [mbind option_bind]. exists (find_item k l). split; [done|].
  destruct (to_ok _ _ H _ _ El) as [Hit Hnd]. pose proof (find_item_spec k l Hnd) as Hf. destruct (find_item k l) as [it|] eqn:Ef.
  - destruct Hf as [Hin Hk]. split.
    + symmetry. apply (to_map _ _ H k (it_value it) l El). exists (it_hash it). rewrite <- Hk. by destruct it.
    + intros it' [= <-]. split; [done|]. destruct (Hit _ Hin) as [-> _]. by rewrite Hk.
  - split; [|done]. cbn. destruct (m !! k) as [v|] eqn:Em; [|done]. apply (to_map _ _ H k v l El) in Em as [h Hin]. by destruct (Hf _ Hin).
Qed.

(** Writing a bin: what the bins say about the keys that fall into them. *)
Lemma write_bin t m m' bin l l' n : table_of t m -> hash_bin t !! bin = Some l ->
  (forall it, it ∈ l' -> it_hash it = picohash_hash (it_key it) /\ bin_of t (picohash_hash (it_key it)) = bin) -> NoDup (it_key <$> l') ->
  (forall k v, bin_of t (picohash_hash k) = bin -> m' !! k = Some v <-> exists h, Item h k v ∈ l') ->
  (forall k, bin_of t (picohash_hash k) <> bin -> m' !! k = m !! k) ->
  table_of (Table (<[bin := l']> (hash_bin t)) (nb_bin t) n) m'.
Proof.
  intros H El Hit Hnd Hin Hout. pose proof (lookup_lt_Some _ _ _ El) as Hlt. split; cbn [hash_bin nb_bin].
  - apply H.
  - rewrite length_insert. apply H.
  - intros i x Hx. destruct (decide (i = bin)) as [->|Hne].
    + rewrite list_lookup_insert_eq in Hx by done. injection Hx as <-. by split.
    + rewrite list_lookup_insert_ne in Hx by done. by destruct (to_ok _ _ H _ _ Hx).
  - intros k v x Hx. change (bin_of (Table _ (nb_bin t) n) (picohash_hash k)) with (bin_of t (picohash_hash k)) in Hx.
    destruct (decide (bin_of t (picohash_hash k) = bin)) as [E|Hne].
    + rewrite E, list_lookup_insert_eq in Hx by done. injection Hx as <-. by apply Hin.
    + rewrite list_lookup_insert_ne in Hx by done. rewrite Hout by done. by apply (to_map _ _ H).
Qed.

Lemma insert_item_ok t m k v : table_of t m -> m !! k = None -> exists t', picohash_insert true t k v = Some (0, t') /\ table_of t' (<[k := v]> m) /\
  count t' = count t + 1.
Proof.
  intros H Hnew. destruct (bin_lookup t m k H) as [l El]. unfold picohash_insert. rewrite El. cbn [mbind option_bind]. eexists. split; [done|]. split; [|done].
  destruct (to_ok _ _ H _ _ El) as [Hit Hnd]. eapply write_bin; [done|done|..].
  - intros it [->|Hin]%elem_of_cons; [done|by apply Hit].
  - cbn. constructor; [|done]. intros ([h k' v'] & Ek & Hin)%list_elem_of_fmap. cbn in Ek. subst k'.
    assert (m !! k = Some v') by (apply (to_map _ _ H k v' l El); by exists h). congruence.
  - intros k' v' Hb. rewrite <- Hb in El. destruct (decide (k' = k)) as [->|Hne].
    + rewrite lookup_insert_eq. split.
      * intros [= ->]. exists (picohash_hash k). left.
      * intros [h [[= -> ->]|Hin]%elem_of_cons]; [done|]. assert (m !! k = Some v') by (apply (to_map _ _ H k v' l El); by exists h). congruence.
    + rewrite lookup_insert_ne, (to_map _ _ H k' v' l El) by done. split; intros [h Hin]; exists h; [by right|]. apply elem_of_cons in Hin as [[= -> -> ->]|]; done.
  - intros k' Hb. rewrite lookup_insert_ne; [done|]. intros ->. done.
Qed.

Lemma remove_item_spec k l : NoDup (it_key <$> l) -> forall it, it ∈ remove_item k l <-> it ∈ l /\ it_key it <> k.
Proof.
  induction l as [|x l IH]; intros Hnd it; cbn [remove_item]; [split; [intros Hin|intros [Hin _]]; by apply elem_of_nil in Hin|]. cbn in Hnd. inversion_clear Hnd as [|? ? Hni Hnd'].
  case_bool_decide as E.
  - split.
    + intros Hin. split; [by right|]. intros <-. apply Hni. rewrite E. apply list_elem_of_fmap. by exists it.
    + intros [[->|Hin]%elem_of_cons Hne]; done.
  - rewrite !elem_of_cons, IH by done. split.
    + intros [->|[Hin Hne]]; [split; [by left|done]|split; [by right|done]].
    + intros [[->|Hin] Hne]; [by left|by right].
Qed.

Lemma remove_item_sublist k l : remove_item k l `sublist_of` l.
Proof. induction l as [|x l IH]; cbn [remove_item]; [done|]. case_bool_decide; [by apply sublist_cons|by apply sublist_skip]. Qed.

Lemma delete_item_ok t m it k : table_of t m -> it_key it = k -> it_hash it = picohash_hash k ->
  exists t', picohash_item_delete t it = Some t' /\ table_of t' (delete k m) /\ count t' = count t.
Proof.
  intros H Hk Hh. destruct (bin_lookup t m k H) as [l El]. unfold picohash_item_delete. rewrite Hh, El. cbn [mbind option_bind]. eexists. split; [done|]. split; [|done].
  destruct (to_ok _ _ H _ _ El) as [Hit Hnd]. rewrite Hk. eapply write_bin; [done|done|..].
  - intros x [Hin _]%remove_item_spec; [by apply Hit|done].
  - eapply sublist_NoDup; [exact Hnd|]. apply fmap_sublist, remove_item_sublist.
  - intros k' v' Hb. rewrite <- Hb in El. rewrite lookup_delete_Some, (to_map _ _ H k' v' l El). split.
    + intros [Hne [h Hin]]. exists h. apply remove_item_spec; [done|]. split; [done|]. cbn. congruence.
    + intros [h [Hin Hne]%remove_item_spec]; [|done]. cbn in Hne. split; [congruence|by exists h].
  - intros k' Hb. rewrite lookup_delete_ne; [done|]. intros ->. done.
Qed.

(** *** Registering and unregistering *)

(** What the tables of connections do with a hash table: a key is registered when it is not there yet, and unregistered when it is. *)
Inductive table_op := Register (k : K) (v : V) | Unregister (k : K).

Definition run_table_op (t : table) (o : table_op) : option table :=
  match o with
  | Register k v =>
    r ← picohash_retrieve t k;
    match r with Some _ => Some t | None => '(_, t) ← picohash_insert true t k v; Some t end
  | Unregister k =>
    r ← picohash_retrieve t k;
    match r with Some it => picohash_item_delete t it | None => Some t end
  end.

Fixpoint run_table_ops (t : table) (ops : list table_op) : option table :=
  match ops with
  | [] => Some t
  | o :: ops => t ← run_table_op t o; run_table_ops t ops
  end.

Definition map_op (m : gmap K V) (o : table_op) : gmap K V :=
  match o with
  | Register k v => match m !! k with Some _ => m | None => <[k := v]> m end
  | Unregister k => delete k m
  end.

Lemma table_op_ok t m o : table_of t m -> exists t', run_table_op t o = Some t' /\ table_of t' (map_op m o).
Proof.
  intros H. destruct o as [k v|k]; cbn [run_table_op map_op]; destruct (retrieve_ok t m k H) as (r & -> & Er & Hr); cbn [mbind option_bind].
  - destruct r as [it|]; cbn in Er; rewrite <- Er; [by exists t|]. destruct (insert_item_ok t m k v H (eq_sym Er)) as (t' & -> & H' & _). by exists t'.
  - destruct r as [it|]; cbn in Er.
    + destruct (Hr it eq_refl) as [Hk Hh]. destruct (delete_item_ok t m it k H Hk Hh) as (t' & -> & H' & _). by exists t'.
    + exists t. split; [done|]. by rewrite delete_id.
Qed.

Lemma table_ops_ok ops : forall t m, table_of t m -> exists t', run_table_ops t ops = Some t' /\ table_of t' (foldl map_op m ops).
Proof.
  induction ops as [|o ops IH]; intros t m H; cbn [run_table_ops foldl]; [by exists t|].
  destruct (table_op_ok t m o H) as (t1 & -> & H1). by apply IH.
Qed.

(** *** The table stands for a list of entries *)

(** The calls of the table themselves; what is deleted is what the search for a key finds.  [picohash_insert] does not look for
    the key, which may be there already. *)
Inductive entry_op := Insert (malloc_ok : bool) (k : K) (v : V) | Delete (k : K).

Definition run_entry_op (t : table) (o : entry_op) : option table :=
  match o with
  | Insert malloc_ok k v => '(_, t) ← picohash_insert malloc_ok t k v; Some t
  | Delete k =>
    r ← picohash_retrieve t k;
    match r with Some it => picohash_item_delete t it | None => Some t end
  end.

Fixpoint run_entry_ops (t : table) (ops : list entry_op) : option table :=
  match ops with
  | [] => Some t
  | o :: ops => t ← run_entry_op t o; run_entry_ops t ops
  end.

(** The entries, the latest first; a key has the value of its latest entry, which a deletion takes away. *)
Fixpoint without_latest (k : K) (l : list (K * V)) : list (K * V) :=
  match l with
  | [] => []
  | x :: l => if decide (x.1 = k) then l else x :: without_latest k l
  end.

Definition entries_op (l : list (K * V)) (o : entry_op) : list (K * V) :=
  match o with
  | Insert true k v => (k, v) :: l
  | Insert false _ _ => l
  | Delete k => without_latest k l
  end.

Definition latest (k : K) (l : list (K * V)) : option V := snd <$> list.head (filter (fun x => x.1 = k) l).

(** Bin [i] holds the entries whose keys fall into it, in their order. *)
Record table_entries (t : table) (l : list (K * V)) : Prop := TableEntries {
  te_bins : 0 < nb_bin t < 2 ^ 32;
  te_array : length (hash_bin t) = Z.to_nat (nb_bin t);
  te_items : forall i b, hash_bin t !! i = Some b -> (fun it => (it_key it, it_value it)) <$> b = filter (fun x => bin_of t (picohash_hash x.1) = i) l;
  te_hashes : forall i b it, hash_bin t !! i = Some b -> it ∈ b -> it_hash it = picohash_hash (it_key it)
}.

Lemma create_entries n : 0 < n < 2 ^ 32 -> table_entries (Table (replicate (Z.to_nat n) []) n 0) [].
Proof.
  intros Hn. split; cbn [hash_bin nb_bin]; [done|apply length_replicate|by intros i b [-> _]%lookup_replicate_1|].
  intros i b it [-> _]%lookup_replicate_1 Hin. by apply elem_of_nil in Hin.
Qed.

Lemma entries_bin t l k : table_entries t l -> exists b, hash_bin t !! bin_of t (picohash_hash k) = Some b.
Proof.
  intros H. apply lookup_lt_is_Some_2. rewrite (te_array _ _ H). unfold bin_of. pose proof (te_bins _ _ H).
  pose proof (Z.mod_pos_bound (picohash_hash k) (nb_bin t)). rewrite u32_small; lia.
Qed.

Lemma find_item_head k b : find_item k b = list.head (filter (fun it => it_key it = k) b).
Proof.
  induction b as [|it b IH]; [done|]. cbn [find_item]. rewrite filter_cons. destruct (picohash_compare k (it_key it)) eqn:E.
  - apply compare_ok in E as ->. by rewrite decide_True.
  - rewrite decide_False; [done|]. intros Ek. apply eq_sym, compare_ok in Ek. congruence.
Qed.

Lemma filter_key_bin t (l : list (K * V)) k : filter (fun x => x.1 = k) (filter (fun x => bin_of t (picohash_hash x.1) = bin_of t (picohash_hash k)) l)
  = filter (fun x => x.1 = k) l.
Proof.
  rewrite list_filter_filter. apply list_filter_iff. intros [k' v]. cbn. split; [tauto|]. by intros ->.
Qed.

Lemma entries_retrieve t l k : table_entries t l ->
  exists r, picohash_retrieve t k = Some r /\ it_value <$> r = latest k l /\ (forall it, r = Some it -> it_key it = k /\ it_hash it = picohash_hash k).
Proof.
  intros H. destruct (entries_bin t l k H) as [b Hb]. unfold picohash_retrieve. rewrite Hb. cbn [mbind option_bind]. eexists. split; [reflexivity|].
  rewrite find_item_head. split.
  - unfold latest. rewrite <- (filter_key_bin t l k), <- (te_items _ _ H _ _ Hb). clear. induction b as [|it b IH]; [done|].
    rewrite fmap_cons, !filter_cons. cbn [fst]. by destruct (decide (it_key it = k)).
  - intros it Hit. assert (it ∈ filter (fun it => it_key it = k) b) as Hin by (by apply head_Some_elem_of).
    apply list_elem_of_filter in Hin as [<- Hin]. split; [done|]. by eapply te_hashes.
Qed.

Lemma entries_insert t l k v : table_entries t l -> exists t', picohash_insert true t k v = Some (0, t') /\ table_entries t' ((k, v) :: l).
Proof.
  intros H. destruct (entries_bin t l k H) as [b Hb]. unfold picohash_insert. rewrite Hb. cbn [mbind option_bind]. eexists. split; [reflexivity|].
  pose proof (lookup_lt_Some _ _ _ Hb). split; cbn [hash_bin nb_bin].
  - apply (te_bins _ _ H).
  - rewrite length_insert. apply (te_array _ _ H).
  - intros i b'. change (bin_of (Table _ (nb_bin t) _)) with (bin_of t). rewrite filter_cons. cbn [fst].
    intros [(<- & <- & _)|[Hne Hi]]%list_lookup_insert_Some.
    + rewrite decide_True by done. by rewrite fmap_cons, (te_items _ _ H _ _ Hb).
    + rewrite decide_False by congruence. by apply (te_items _ _ H).
  - intros i b' it [(<- & <- & _)|[Hne Hi]]%list_lookup_insert_Some; [|by eapply te_hashes].
    intros [->|Hin]%elem_of_cons; [done|]. by eapply te_hashes.
Qed.

Lemma without_latest_filter t i k (l : list (K * V)) :
  let P (k : K) := bin_of t (picohash_hash k) = i in
  filter (fun x => P x.1) (without_latest k l) =
  if decide (P k) then without_latest k (filter (fun x => P x.1) l) else filter (fun x => P x.1) l.
Proof.
  cbv zeta. set (P k := bin_of t (picohash_hash k) = i).
  induction l as [|[k' v] l IH]; [by destruct (decide (P k))|]. cbn [without_latest fst]. rewrite (filter_cons _ (k', v) l). cbn [fst].
  destruct (decide (k' = k)) as [->|Hne].
  - destruct (decide (P k)); [|done]. cbn [without_latest fst]. by rewrite decide_True.
  - rewrite filter_cons, IH. cbn [fst]. destruct (decide (P k')), (decide (P k)); try done. cbn [without_latest fst]. by rewrite decide_False.
Qed.

Lemma remove_item_latest k b : (fun it : item => (it_key it, it_value it)) <$> remove_item k b = without_latest k ((fun it => (it_key it, it_value it)) <$> b).
Proof.
  induction b as [|it b IH]; [done|]. cbn [remove_item]. rewrite fmap_cons. cbn [without_latest fst]. case_bool_decide as E.
  - by rewrite decide_True.
  - rewrite decide_False by done. rewrite fmap_cons. by rewrite IH.
Qed.

Lemma remove_item_subset k b it : it ∈ remove_item k b -> it ∈ b.
Proof.
  induction b as [|x b IH]; [done|]. cbn [remove_item]. case_bool_decide; [by right|]. intros [->|Hin]%elem_of_cons; [left|right; by apply IH].
Qed.

Lemma entries_delete t l it : table_entries t l -> it_hash it = picohash_hash (it_key it) ->
  exists t', picohash_item_delete t it = Some t' /\ table_entries t' (without_latest (it_key it) l).
Proof.
  intros H Hh. destruct (entries_bin t l (it_key it) H) as [b Hb]. unfold picohash_item_delete. rewrite Hh, Hb. cbn [mbind option_bind].
  eexists. split; [reflexivity|]. split; cbn [hash_bin nb_bin].
  - apply (te_bins _ _ H).
  - rewrite length_insert. apply (te_array _ _ H).
  - intros i b'. change (bin_of (Table _ (nb_bin t) _)) with (bin_of t).
    rewrite (without_latest_filter t i). intros [(<- & <- & _)|[Hne Hi]]%list_lookup_insert_Some.
    + rewrite decide_True by done. rewrite remove_item_latest. by rewrite (te_items _ _ H _ _ Hb).
    + rewrite decide_False by congruence. by apply (te_items _ _ H).
  - intros i b' x [(<- & <- & _)|[Hne Hi]]%list_lookup_insert_Some Hin; [|by eapply te_hashes].
    eapply te_hashes; [done|exact Hb|]. by eapply remove_item_subset.
Qed.

Lemma entry_ops_ok ops : forall t l, table_entries t l -> exists t', run_entry_ops t ops = Some t' /\ table_entries t' (foldl entries_op l ops).
Proof.
  induction ops as [|o ops IH]; intros t l H; cbn [run_entry_ops foldl]; [by exists t|].
  assert (exists t1, run_entry_op t o = Some t1 /\ table_entries t1 (entries_op l o)) as (t1 & -> & H1); [|by apply IH].
  destruct o as [[] k v|k]; cbn [run_entry_op entries_op].
  - destruct (entries_insert t l k v H) as (t1 & -> & H1). by exists t1.
  - by exists t.
  - destruct (entries_retrieve t l k H) as (r & -> & Hl & Hr). cbn [mbind option_bind]. destruct r as [it|].
    + destruct (Hr it eq_refl) as [<- Hh]. by apply entries_delete.
    + exists t. split; [done|]. assert (without_latest k l = l) as ->; [|done]. unfold latest in Hl. clear -Hl.
      induction l as [|x l IHl]; [done|]. rewrite filter_cons in Hl. cbn [without_latest]. destruct (decide (x.1 = k)); [done|]. f_equal. by apply IHl.
Qed.

(** *** Emptying the table *)

Lemma empty_bin_ok fuel : forall t i l, (forall it, it ∈ l -> bin_of t (it_hash it) = i) -> NoDup (it_key <$> l) -> hash_bin t !! i = Some l -> (length l <= fuel)%nat ->
  empty_bin fuel t i = Some (Table (<[i := []]> (hash_bin t)) (nb_bin t) (count t)).
Proof.
  induction fuel as [|fuel IH]; intros t i l Hit Hnd El Hlen; cbn [empty_bin]; rewrite El; cbn [mbind option_bind]; (destruct l as [|it l]; [|cbn in Hlen; try lia]).
  - by rewrite list_insert_id; destruct t.
  - by rewrite list_insert_id; destruct t.
  - unfold picohash_item_delete. rewrite (Hit it) by left. rewrite El. cbn [mbind option_bind remove_item]. rewrite bool_decide_true by done.
    pose proof (lookup_lt_Some _ _ _ El) as Hlt. cbn in Hnd. inversion_clear Hnd as [|? ? _ Hnd'].
    erewrite (IH _ i l); [|intros x Hx; apply Hit; by right|done|cbn; by apply list_lookup_insert_eq|lia]. cbn [hash_bin nb_bin count]. by rewrite list_insert_insert_eq.
Qed.

Lemma empty_bins_ok t m n : table_of t m -> (n <= Z.to_nat (nb_bin t))%nat ->
  empty_bins n t = Some (Table (replicate n [] ++ drop n (hash_bin t)) (nb_bin t) (count t)).
Proof.
  intros H. induction n as [|n IH]; intros Hn; cbn [empty_bins]; [by destruct t|]. rewrite IH by lia. cbn [mbind option_bind hash_bin].
  pose proof (to_array _ _ H) as Ha. destruct (lookup_lt_is_Some_2 (hash_bin t) n) as [l El]; [lia|].
  rewrite (drop_S _ l n El), list_lookup_middle by (by rewrite length_replicate). cbn [mbind option_bind].
  destruct (to_ok _ _ H _ _ El) as [Hit Hnd]. erewrite empty_bin_ok; [|..|done]; cbn [hash_bin nb_bin count].
  - rewrite insert_app_r_alt by (by rewrite length_replicate). rewrite length_replicate, Nat.sub_diag. cbn [insert list_insert].
    rewrite replicate_S_end, <- app_assoc. done.
  - intros it Hin. destruct (Hit it Hin) as [-> Hb]. exact Hb.
  - done.
  - apply list_lookup_middle. by rewrite length_replicate.
Qed.

End Table.
Arguments item : clear implicits.
Arguments table : clear implicits.
Arguments table_op : clear implicits.
Arguments entry_op : clear implicits.

(** ** The queue *)

Section Queue.
Context {D : Type}.

Record node := Node { data : D; next : option positive }.

(** [queue_t], with the nodes in a heap. *)
Record queue := Queue { head : option positive; tail : option positive; size : Z; heap : gmap positive node }.

Definition queue_init : queue := Queue None None 0 ∅.

(** [malloc] returns a pointer that is not in use, or a null pointer. *)
Definition queue_enqueue (malloc : option positive) (q : queue) (d : D) : option (Z * queue) :=
  match malloc with
  | None => Some (1, q)
  | Some n =>
    let h := <[n := Node d None]> (heap q) in
    match head q with
    | None => Some (0, Queue (Some n) (Some n) (size q + 1) h)
    | Some first =>
      last ← tail q;
      x ← h !! last;
      Some (0, Queue (Some first) (Some n) (size q + 1) (<[last := Node (data x) (Some n)]> h))
    end
  end.

Definition queue_dequeue (q : queue) : option (option D * queue) :=
  match head q with
  | None => Some (None, q)
  | Some n =>
    x ← heap q !! n;
    let h := delete n (heap q) in
    if bool_decide (head q = tail q) then Some (Some (data x), Queue None None (size q - 1) h)
    else Some (Some (data x), Queue (next x) (tail q) (size q - 1) h)
  end.

Definition queue_peek (q : queue) : option (option D) :=
  match head q with None => Some None | Some n => x ← heap q !! n; Some (Some (data x)) end.

(** [queue_peek_any]: the first element of the first queue that has one. *)
Fixpoint queue_peek_any (l : list queue) : option (option D) :=
  match l with
  | [] => Some None
  | q :: l => d ← queue_peek q; match d with Some d => Some (Some d) | None => queue_peek_any l end
  end.

(** [queue_free]: dequeues until the head is null. *)
Fixpoint queue_free (fuel : nat) (q : queue) : option queue :=
  match head q, fuel with
  | None, _ => Some q
  | Some _, S fuel => '(_, q) ← queue_dequeue q; queue_free fuel q
  | Some _, O => None
  end.

(** *** The queue stands for a list *)

Fixpoint chain (h : gmap positive node) (l : list (positive * D)) : Prop :=
  match l with
  | [] => True
  | (n, d) :: l => h !! n = Some (Node d (fst <$> hd_error l)) /\ chain h l
  end.

Record queue_of (q : queue) (l : list (positive * D)) : Prop := QueueOf {
  qo_head : head q = fst <$> hd_error l;
  qo_tail : tail q = fst <$> list.last l;
  qo_size : size q = Z.of_nat (length l);
  qo_chain : chain (heap q) l;
  qo_nodes : NoDup l.*1;
  qo_heap : dom (heap q) = list_to_set l.*1
}.

Lemma node_chain_frame h h' l : (forall n, n ∈ l.*1 -> h' !! n = h !! n) -> chain h l -> chain h' l.
Proof.
  induction l as [|[n d] l IH]; intros Hf; cbn [chain]; [done|]. intros [Hn Hl]. split; [rewrite Hf; [done|left]|]. apply IH; [|done]. intros m Hm. apply Hf. by right.
Qed.

(** Appending a node behind the last one. *)
Lemma node_chain_snoc h l n d : NoDup (l ++ [(n, d)]).*1 -> chain h l -> forall last x, list.last l.*1 = Some last -> h !! last = Some x ->
  chain (<[last := Node (data x) (Some n)]> (<[n := Node d None]> h)) (l ++ [(n, d)]).
Proof.
  induction l as [|[m e] l IH]; intros Hnd Hc last x Hlast Hx; [done|]. cbn [chain app fmap list_fmap fst] in *. destruct Hc as [Hm Hc]. inversion_clear Hnd as [|? ? Hni Hnd'].
  destruct l as [|[m' e'] l].
  - injection Hlast as ->. rewrite Hm in Hx. injection Hx as <-. cbn. cbn in Hni. rewrite lookup_insert_eq, lookup_insert_ne, lookup_insert_eq by set_solver. done.
  - change (list.last (m :: ((m', e') :: l).*1)) with (list.last ((m', e') :: l).*1) in Hlast. split; [|by apply IH].
    assert (last ∈ ((m', e') :: l).*1) by (by apply last_Some_elem_of). rewrite fmap_app in Hni.
    rewrite !lookup_insert_ne; [by rewrite Hm| |].
    + intros ->. apply Hni, elem_of_app. right. left.
    + intros ->. apply Hni, elem_of_app. by left.
Qed.

Lemma queue_init_ok : queue_of queue_init [].
Proof. split; cbn; try done. constructor. Qed.

Lemma chain_lookup h l n d : chain h l -> (n, d) ∈ l -> exists x, h !! n = Some (Node d x).
Proof.
  induction l as [|[m e] l IH]; intros Hc Hin; [by apply elem_of_nil in Hin|]. destruct Hc as [Hm Hc]. apply elem_of_cons in Hin as [[= -> ->]|Hin]; [by eexists|by apply IH].
Qed.

Lemma enqueue_ok q l n d : queue_of q l -> n ∉ dom (heap q) -> exists q', queue_enqueue (Some n) q d = Some (0, q') /\ queue_of q' (l ++ [(n, d)]).
Proof.
  intros [Hh Ht Hs Hc Hnd Hdom] Hfresh. unfold queue_enqueue. rewrite Hh.
  assert (Hn : n ∉ l.*1) by (rewrite Hdom in Hfresh; set_solver).
  assert (Hnd' : NoDup (l ++ [(n, d)]).*1). { rewrite fmap_app. apply list.NoDup_app. split_and!; [done| |apply NoDup_singleton]. intros x Hx Hx'. apply list_elem_of_singleton in Hx' as ->. done. }
  destruct l as [|[m e] l].
  - eexists. split; [done|]. split; cbn [head tail size heap app length chain].
    + done.
    + done.
    + rewrite Hs. done.
    + split; [apply lookup_insert_eq|done].
    + done.
    + rewrite dom_insert_L, Hdom. set_solver.
  - destruct (list.last ((m, e) :: l)) as [[last y]|] eqn:El; [|by apply last_None in El]. cbn [fmap option_fmap option_map hd_error] in *. rewrite Ht. cbn [mbind option_bind fst].
    assert (Hin : (last, y) ∈ (m, e) :: l) by (by apply last_Some_elem_of). destruct (chain_lookup _ _ _ _ Hc Hin) as [x Hx].
    assert (last <> n). { intros ->. apply Hn, list_elem_of_fmap. by exists (n, y). }
    rewrite lookup_insert_ne, Hx by done. cbn [mbind option_bind]. eexists. split; [done|]. split; cbn [head tail size heap].
    + done.
    + by rewrite last_snoc.
    + rewrite Hs, length_app. cbn [length]. lia.
    + apply (node_chain_snoc (heap q) ((m, e) :: l) n d Hnd' Hc last (Node y x)); [|done]. by rewrite fmap_last, El.
    + done.
    + rewrite !dom_insert_L, Hdom, fmap_app, list_to_set_app_L. assert (last ∈ (((m, e) :: l).*1)) by (apply list_elem_of_fmap; by exists (last, y)). set_solver.
Qed.

Lemma dequeue_ok q n d l : queue_of q ((n, d) :: l) -> exists q', queue_dequeue q = Some (Some d, q') /\ queue_of q' l.
Proof.
  intros [Hh Ht Hs Hc Hnd Hdom]. unfold queue_dequeue. rewrite Hh, Ht. cbn [fmap option_fmap option_map hd_error fst]. destruct Hc as [Hn Hc]. rewrite Hn. cbn [mbind option_bind data next].
  cbn in Hnd. inversion_clear Hnd as [|? ? Hni Hnd'].
  assert (Hc' : chain (delete n (heap q)) l). { eapply node_chain_frame; [|exact Hc]. intros m Hm. rewrite lookup_delete_ne; [done|]. by intros ->. }
  assert (Hd : dom (delete n (heap q)) = list_to_set l.*1) by (rewrite dom_delete_L, Hdom; set_solver).
  assert (Hl : size q - 1 = Z.of_nat (length l)) by (rewrite Hs; cbn [length]; lia).
  destruct l as [|[m e] l].
  - rewrite bool_decide_true by done. eexists. split; [done|]. by split.
  - change (list.last ((n, d) :: (m, e) :: l)) with (list.last ((m, e) :: l)).
    destruct (list.last ((m, e) :: l)) as [[last y]|] eqn:El; [|by apply last_None in El].
    rewrite bool_decide_false.
    + eexists. split; [done|]. split; [done| |done..]. cbn [tail]. by rewrite El.
    + intros [= ->]. apply Hni, list_elem_of_fmap. exists (last, y). split; [done|]. by apply last_Some_elem_of.
Qed.

Lemma dequeue_nil_ok q : queue_of q [] -> queue_dequeue q = Some (None, q).
Proof. intros [Hh _ _ _ _ _]. unfold queue_dequeue. by rewrite Hh. Qed.

Lemma peek_ok q l : queue_of q l -> queue_peek q = Some (snd <$> hd_error l).
Proof. intros [Hh _ _ Hc _ _]. unfold queue_peek. rewrite Hh. destruct l as [|[n d] l]; [done|]. destruct Hc as [Hn _]. cbn. by rewrite Hn. Qed.

Lemma queue_free_ok l : forall fuel q, queue_of q l -> (length l <= fuel)%nat -> exists q', queue_free fuel q = Some q' /\ queue_of q' [].
Proof.
  induction l as [|[n d] l IH]; intros fuel q H Hf.
  - exists q. split; [|done]. pose proof (qo_head _ _ H) as Hh. destruct fuel; cbn [queue_free]; by rewrite Hh.
  - destruct fuel as [|fuel]; [cbn in Hf; lia|]. cbn [queue_free]. rewrite (qo_head _ _ H). cbn [fmap option_fmap option_map hd_error].
    destruct (dequeue_ok q n d l H) as (q' & -> & H'). cbn [mbind option_bind]. apply IH; [done|]. cbn in Hf. lia.
Qed.

(** *** Sequences of operations *)

(** An enqueued element comes with the node that [malloc] returns. *)
Inductive queue_op := Enqueue (malloc : option positive) (d : D) | Dequeue.

Definition run_queue_op (q : queue) (o : queue_op) : option (queue * option D) :=
  match o with
  | Enqueue malloc d => '(_, q) ← queue_enqueue malloc q d; Some (q, None)
  | Dequeue => '(d, q) ← queue_dequeue q; Some (q, d)
  end.

Fixpoint run_queue_ops (q : queue) (ops : list queue_op) : option (queue * list D) :=
  match ops with
  | [] => Some (q, [])
  | o :: ops => '(q, d) ← run_queue_op q o; '(q, ds) ← run_queue_ops q ops; Some (q, option_list d ++ ds)
  end.

(** The elements that wait and those that came out. *)
Definition list_op (l : list D) (o : queue_op) : list D * list D :=
  match o with
  | Enqueue (Some _) d => (l ++ [d], [])
  | Enqueue None d => (l, [])
  | Dequeue => (drop 1 l, take 1 l)
  end.

Fixpoint list_ops (l : list D) (ops : list queue_op) : list D * list D :=
  match ops with
  | [] => (l, [])
  | o :: ops => let '(l, out) := list_op l o in let '(l, outs) := list_ops l ops in (l, out ++ outs)
  end.

(** [malloc] returns no node that is in use. *)
Definition malloc_fresh (q : queue) (o : queue_op) : Prop := match o with Enqueue (Some n) _ => n ∉ dom (heap q) | _ => True end.

Fixpoint mallocs_fresh (q : queue) (ops : list queue_op) : Prop :=
  match ops with
  | [] => True
  | o :: ops => malloc_fresh q o /\ forall q' d, run_queue_op q o = Some (q', d) -> mallocs_fresh q' ops
  end.

Lemma linked_op_ok q l o : queue_of q l -> malloc_fresh q o -> exists q' d l', run_queue_op q o = Some (q', d) /\ queue_of q' l' /\
  list_op l.*2 o = (l'.*2, option_list d).
Proof.
  intros H Hf. destruct o as [[n|] d|]; cbn [run_queue_op list_op].
  - destruct (enqueue_ok q l n d H Hf) as (q' & -> & H'). exists q', None, (l ++ [(n, d)]). split_and!; [done|done|]. by rewrite fmap_app.
  - by exists q, None, l.
  - destruct l as [|[n d] l].
    + rewrite (dequeue_nil_ok q H). by exists q, None, [].
    + destruct (dequeue_ok q n d l H) as (q' & -> & H'). exists q', (Some d), l. split_and!; [done|done|]. cbn. by rewrite drop_0, take_0.
Qed.

Lemma linked_ops_ok ops : forall q l, queue_of q l -> mallocs_fresh q ops -> exists q' ds l', run_queue_ops q ops = Some (q', ds) /\ queue_of q' l' /\
  list_ops l.*2 ops = (l'.*2, ds).
Proof.
  induction ops as [|o ops IH]; intros q l H Hf; cbn [run_queue_ops list_ops]; [by exists q, [], l|]. destruct Hf as [Ho Hf].
  destruct (linked_op_ok q l o H Ho) as (q1 & d & l1 & E & H1 & ->). rewrite E. cbn [mbind option_bind].
  destruct (IH q1 l1 H1 (Hf q1 d E)) as (q2 & ds & l2 & -> & H2 & ->). cbn [mbind option_bind]. by exists q2, (option_list d ++ ds), l2.
Qed.

End Queue.
Arguments node : clear implicits.
Arguments queue : clear implicits.
Arguments queue_op : clear implicits.

(** ** The theorems *)

(** C31. The hash table is a list of entries: whatever is inserted, keys that are there already and failing allocations among them,
    and deleted after a search, in any order and for every hash function, the search for a key finds the latest entry with this key
    that was not deleted, and nothing when there is none; no operation leaves the array of bins. *)
Theorem hash_table_refines_entries {K V : Type} `{EK : EqDecision K} (picohash_hash : K -> Z) (picohash_compare : K -> K -> bool)
    (n : Z) (ops : list (entry_op K V)) :
  (forall k1 k2, picohash_compare k1 k2 = true <-> k1 = k2) -> 0 < n < 2 ^ 32 ->
  exists t0 t, picohash_create true n = Some t0 /\ run_entry_ops picohash_hash picohash_compare t0 ops = Some t /\
    forall k, exists r, picohash_retrieve picohash_hash picohash_compare t k = Some r /\ it_value <$> r = latest k (foldl entries_op [] ops).
Proof.
  intros Hcmp Hn. destruct (entry_ops_ok picohash_hash picohash_compare Hcmp ops _ _ (create_entries picohash_hash n Hn)) as (t & E & H).
  eexists _, t. split; [reflexivity|]. split; [exact E|]. intros k.
  destruct (entries_retrieve picohash_hash picohash_compare Hcmp t _ k H) as (r & Er & Ev & _). by exists r.
Qed.

(** Where a key is only inserted after a search that did not find it, as the tables of connections do, the table is a finite map:
    a key is found exactly when it is in the map after the same operations, with the value it was first registered with. *)
Theorem hash_table_refines_map {K V : Type} `{EK : EqDecision K} `{CK : !Countable K} (picohash_hash : K -> Z) (picohash_compare : K -> K -> bool)
    (n : Z) (ops : list (table_op K V)) :
  (forall k1 k2, picohash_compare k1 k2 = true <-> k1 = k2) -> 0 < n < 2 ^ 32 ->
  exists t0 t, picohash_create true n = Some t0 /\ run_table_ops picohash_hash picohash_compare t0 ops = Some t /\
    forall k, exists r, picohash_retrieve picohash_hash picohash_compare t k = Some r /\ it_value <$> r = foldl map_op ∅ ops !! k.
Proof.
  intros Hcmp Hn. destruct (table_ops_ok picohash_hash picohash_compare Hcmp ops _ _ (create_table_ok picohash_hash n Hn)) as (t & E & H).
  eexists _, t. split; [reflexivity|]. split; [exact E|]. intros k. destruct (retrieve_ok picohash_hash picohash_compare Hcmp t _ k H) as (r & Er & Ev & _). by exists r.
Qed.

(** Two ids that fall into the same bin of a table of eight. *)
Definition sample_hash (k : list Z) : Z := picohash_bytes k.
Definition sample_compare (k1 k2 : list Z) : bool := bool_decide (k1 = k2).
Definition sample_table_ops : list (table_op (list Z) Z) := [Register [1; 2] 10; Register [3; 4] 20; Register [1; 2] 30; Unregister [3; 4]; Unregister [5]].

(** A key that is inserted twice and deleted once. *)
Definition sample_entry_ops : list (entry_op (list Z) Z) :=
  [Insert true [1; 2] 10; Insert true [3; 4] 20; Insert true [1; 2] 30; Insert false [1; 2] 40; Delete [1; 2]; Delete [3; 4]].

Lemma hash_table_refines_entries_witness :
  exists t0 t r r', picohash_create true 8 = Some t0 /\ run_entry_ops sample_hash sample_compare t0 sample_entry_ops = Some t /\
    picohash_retrieve sample_hash sample_compare t [1; 2] = Some r /\ it_value <$> r = Some 10 /\
    picohash_retrieve sample_hash sample_compare t [3; 4] = Some r' /\ it_value <$> r' = None.
Proof.
  destruct (hash_table_refines_entries sample_hash sample_compare 8 sample_entry_ops) as (t0 & t & E0 & E & Hr).
  - intros k1 k2. apply bool_decide_eq_true.
  - lia.
  - destruct (Hr [1; 2]) as (r & E1 & E2). destruct (Hr [3; 4]) as (r' & E3 & E4). exists t0, t, r, r'. split; [exact E0|]. split; [exact E|].
    split; [exact E1|]. rewrite E2, E4. split; [vm_compute; reflexivity|]. split; [exact E3|vm_compute; reflexivity].
Defined.

Lemma hash_table_refines_map_witness :
  exists t0 t r, picohash_create true 8 = Some t0 /\ run_table_ops sample_hash sample_compare t0 sample_table_ops = Some t /\
    picohash_retrieve sample_hash sample_compare t [1; 2] = Some r /\ it_value <$> r = Some 10.
Proof.
  destruct (hash_table_refines_map sample_hash sample_compare 8 sample_table_ops) as (t0 & t & E0 & E & Hr).
  - intros k1 k2. apply bool_decide_eq_true.
  - lia.
  - destruct (Hr [1; 2]) as (r & E1 & E2). exists t0, t, r. split; [exact E0|]. split; [exact E|]. split; [exact E1|]. rewrite E2. reflexivity.
Defined.

(** Freeing a table takes every item out of every bin: the loop over a bin ends, since deleting the first item of a
    chain shortens this chain and no other. *)
Theorem hash_table_emptied {K V : Type} `{EK : EqDecision K} `{CK : !Countable K} (picohash_hash : K -> Z) (t : table K V) (m : gmap K V) :
  table_of picohash_hash t m -> exists t', picohash_delete t = Some t' /\ hash_bin t' = replicate (length (hash_bin t)) [].
Proof.
  intros H. unfold picohash_delete. rewrite (empty_bins_ok picohash_hash t m) by (done || lia). eexists. split; [done|]. cbn [hash_bin].
  rewrite drop_ge, app_nil_r; rewrite (to_array _ _ _ H); done.
Qed.

Lemma hash_table_emptied_witness : exists (t t' : table (list Z) Z), it_value <$> hash_bin t !!! 0%nat = [20] /\ picohash_delete t = Some t' /\ hash_bin t' = replicate 4 [].
Proof.
  assert (H0 : table_of sample_hash (Table (replicate 4 []) 4 0) (∅ : gmap (list Z) Z)) by (apply (create_table_ok sample_hash 4); lia).
  destruct (insert_item_ok sample_hash _ ∅ [3; 4] 20 H0 eq_refl) as (t & E & H & _).
  exists t. destruct (hash_table_emptied sample_hash _ _ H) as (t' & E' & Eb). exists t'. split; [injection E as <-; reflexivity|]. split; [exact E'|].
  injection E as <-. exact Eb.
Defined.

(** Deleting does not change [count]. *)
Example count_never_decreases : forall t : table (list Z) Z, run_table_ops sample_hash sample_compare (Table (replicate 8 []) 8 0) [Register [1] 10; Unregister [1]] = Some t -> count t = 1.
Proof. intros t E. injection E as <-. reflexivity. Qed.

(** The linked queue is a first-in first-out queue: whatever is enqueued and dequeued, with failing allocations among them, no
    operation follows a dangling pointer, the elements come out in the order in which they went in, the size is the number of those
    that wait, and no other node stays allocated; freeing the queue frees them all. *)
Theorem linked_queue_refines_fifo {D : Type} (ops : list (queue_op D)) : mallocs_fresh queue_init ops ->
  exists q l, run_queue_ops queue_init ops = Some (q, (list_ops [] ops).2) /\ l.*2 = (list_ops [] ops).1 /\ size q = Z.of_nat (length l) /\
    queue_peek q = Some (hd_error (list_ops [] ops).1) /\ dom (heap q) = list_to_set l.*1 /\
    (exists q', queue_free (length l) q = Some q' /\ heap q' = ∅).
Proof.
  intros Hf. destruct (linked_ops_ok ops queue_init [] queue_init_ok Hf) as (q & ds & l & E & H & El). cbn in El. rewrite El. cbn [fst snd].
  exists q, l. split_and!; [exact E|done|apply (qo_size _ _ H)| |apply (qo_heap _ _ H)|].
  - rewrite (peek_ok q l H). destruct l as [|[n d] l]; done.
  - destruct (queue_free_ok l (length l) q H (Nat.le_refl _)) as (q' & E' & H'). exists q'. split; [done|]. apply dom_empty_inv_L. apply (qo_heap _ _ H').
Qed.

Definition sample_queue_ops : list (queue_op Z) := [Enqueue (Some 1%positive) 7; Enqueue None 8; Enqueue (Some 2%positive) 9; Dequeue; Enqueue (Some 1%positive) 5].

Lemma linked_queue_refines_fifo_witness : exists q (l : list (positive * Z)), run_queue_ops queue_init sample_queue_ops = Some (q, [7]) /\ l.*2 = [9; 5] /\ size q = Z.of_nat (length l).
Proof.
  destruct (linked_queue_refines_fifo sample_queue_ops) as (q & l & E & El & Es & _).
  - unfold sample_queue_ops.
    repeat (split; [first [exact I|apply not_elem_of_dom; reflexivity]|intros ? ? E; injection E as <- <-]). exact I.
  - exists q, l. split; [exact E|]. split; [exact El|exact Es].
Defined.

End Containers.
