(* ===== verification/Connections.v ===== *)
(** * The connections of a context

    picoquic/quicctx.c
      the tables that find a connection by its ids and by the address of its peer
      the list of all connections and the list that is sorted by wake time
      the parts of creation and deletion of a connection that concern them

    The connections are in a heap and their links are pointers into it; following a null or dangling
    pointer is [None].  The two doubly linked lists use the same code on different fields, which the
    class [Links] names.  Of the chain of keys that a connection owns, only the ids are kept: the key
    of a hash item is the object of that chain. *)
From stdpp Require Import base list gmap numbers sorting.
From Stdlib Require Import ZArith Lia Bool.
From S2P Require Import Prelude Packet PacketIn Containers.
#[local] Open Scope Z_scope.

Module Connections.

Abbreviation pointer := positive.
Abbreviation key := (list Z).

(** ** Data *)

(** The part of [picoquic_cnx_t] that concerns the context; [first_cnx_id] and [first_net_id] are chains of keys. *)
Record cnx := Cnx {
  next_in_table : option pointer;
  previous_in_table : option pointer;
  next_by_wake_time : option pointer;
  previous_by_wake_time : option pointer;
  next_wake_time : Z;
  first_cnx_id : list key;
  first_net_id : list key
}.

Definition set_wake_time (t : Z) (c : cnx) : cnx :=
  Cnx (next_in_table c) (previous_in_table c) (next_by_wake_time c) (previous_by_wake_time c) t (first_cnx_id c) (first_net_id c).
Definition set_cnx_ids (l : list key) (c : cnx) : cnx :=
  Cnx (next_in_table c) (previous_in_table c) (next_by_wake_time c) (previous_by_wake_time c) (next_wake_time c) l (first_net_id c).
Definition set_net_ids (l : list key) (c : cnx) : cnx :=
  Cnx (next_in_table c) (previous_in_table c) (next_by_wake_time c) (previous_by_wake_time c) (next_wake_time c) (first_cnx_id c) l.

(** The part of [picoquic_quic_t]. *)
Record quic := Quic {
  cnx_list : option pointer;
  cnx_last : option pointer;
  cnx_wake_first : option pointer;
  cnx_wake_last : option pointer;
  table_cnx_by_id : Containers.table key pointer;
  table_cnx_by_net : Containers.table key pointer;
  heap : gmap pointer cnx
}.

Definition set_heap (h : gmap pointer cnx) (q : quic) : quic :=
  Quic (cnx_list q) (cnx_last q) (cnx_wake_first q) (cnx_wake_last q) (table_cnx_by_id q) (table_cnx_by_net q) h.
Definition set_list (first last : option pointer) (q : quic) : quic :=
  Quic first last (cnx_wake_first q) (cnx_wake_last q) (table_cnx_by_id q) (table_cnx_by_net q) (heap q).
Definition set_wake_list (first last : option pointer) (q : quic) : quic :=
  Quic (cnx_list q) (cnx_last q) first last (table_cnx_by_id q) (table_cnx_by_net q) (heap q).
Definition set_id_table (t : Containers.table key pointer) (q : quic) : quic :=
  Quic (cnx_list q) (cnx_last q) (cnx_wake_first q) (cnx_wake_last q) t (table_cnx_by_net q) (heap q).
Definition set_net_table (t : Containers.table key pointer) (q : quic) : quic :=
  Quic (cnx_list q) (cnx_last q) (cnx_wake_first q) (cnx_wake_last q) (table_cnx_by_id q) t (heap q).

(** The two pairs of links. *)
Class Links := {
  nxt : cnx -> option pointer; prv : cnx -> option pointer;
  set_nxt : option pointer -> cnx -> cnx; set_prv : option pointer -> cnx -> cnx
}.

Definition table_links : Links := {|
  nxt := next_in_table; prv := previous_in_table;
  set_nxt := fun v c => Cnx v (previous_in_table c) (next_by_wake_time c) (previous_by_wake_time c) (next_wake_time c) (first_cnx_id c) (first_net_id c);
  set_prv := fun v c => Cnx (next_in_table c) v (next_by_wake_time c) (previous_by_wake_time c) (next_wake_time c) (first_cnx_id c) (first_net_id c) |}.

Definition wake_links : Links := {|
  nxt := next_by_wake_time; prv := previous_by_wake_time;
  set_nxt := fun v c => Cnx (next_in_table c) (previous_in_table c) v (previous_by_wake_time c) (next_wake_time c) (first_cnx_id c) (first_net_id c);
  set_prv := fun v c => Cnx (next_in_table c) (previous_in_table c) (next_by_wake_time c) v (next_wake_time c) (first_cnx_id c) (first_net_id c) |}.

Definition update (h : gmap pointer cnx) (x : pointer) (f : cnx -> cnx) : option (gmap pointer cnx) := c ← h !! x; Some (<[x := f c]> h).

(** ** The lists *)

(** The body of [picoquic_remove_cnx_from_list] and of [picoquic_remove_cnx_from_wake_list]: the heap and the ends. *)
Definition remove_links (L : Links) (h : gmap pointer cnx) (first last : option pointer) (x : pointer) :
    option (gmap pointer cnx * option pointer * option pointer) :=
  c ← h !! x;
  '(h, last) ← (match nxt c with
                | None => Some (h, prv c)
                | Some n => h ← update h n (set_prv (prv c)); Some (h, last)
                end);
  match prv c with
  | None => Some (h, nxt c, last)
  | Some p => h ← update h p (set_nxt (nxt c)); Some (h, first, last)
  end.

Definition picoquic_remove_cnx_from_list (q : quic) (x : pointer) : option quic :=
  '(h, first, last) ← remove_links table_links (heap q) (cnx_list q) (cnx_last q) x;
  Some (set_heap h (set_list first last q)).

Definition picoquic_remove_cnx_from_wake_list (q : quic) (x : pointer) : option quic :=
  '(h, first, last) ← remove_links wake_links (heap q) (cnx_wake_first q) (cnx_wake_last q) x;
  Some (set_heap h (set_wake_list first last q)).

Definition picoquic_insert_cnx_in_list (q : quic) (x : pointer) : option quic :=
  match cnx_list q with
  | Some first =>
    h ← update (heap q) first (@set_prv table_links (Some x));
    h ← update h x (fun c => @set_prv table_links None (@set_nxt table_links (Some first) c));
    Some (set_heap h (set_list (Some x) (cnx_last q) q))
  | None =>
    h ← update (heap q) x (fun c => @set_prv table_links None (@set_nxt table_links None c));
    Some (set_heap h (set_list (Some x) (Some x) q))
  end.

(** The walk to the first connection that wakes later: the one before it and itself.  The outer option is the fuel. *)
Fixpoint find_wake (fuel : nat) (h : gmap pointer cnx) (time : Z) (previous cnx_next : option pointer) : option (option (option pointer * option pointer)) :=
  match cnx_next with
  | None => Some (Some (previous, None))
  | Some n =>
    match h !! n with
    | None => Some None
    | Some c =>
      if next_wake_time c <=? time then match fuel with O => None | S fuel => find_wake fuel h time (Some n) (next_by_wake_time c) end
      else Some (Some (previous, Some n))
    end
  end.

Definition picoquic_insert_cnx_by_wake_time (q : quic) (x : pointer) : option quic :=
  c ← heap q !! x;
  r ← find_wake (size (heap q)) (heap q) (next_wake_time c) None (cnx_wake_first q);
  '(previous, cnx_next) ← r;
  h ← update (heap q) x (@set_prv wake_links previous);
  '(h, first) ← (match previous with
                 | None => Some (h, Some x)
                 | Some p => h ← update h p (@set_nxt wake_links (Some x)); Some (h, cnx_wake_first q)
                 end);
  h ← update h x (@set_nxt wake_links cnx_next);
  match cnx_next with
  | None => Some (set_heap h (set_wake_list first (Some x) q))
  | Some n => h ← update h n (@set_prv wake_links (Some x)); Some (set_heap h (set_wake_list first (cnx_wake_last q) q))
  end.

Definition picoquic_reinsert_by_wake_time (q : quic) (x : pointer) (next_time : Z) : option quic :=
  q ← picoquic_remove_cnx_from_wake_list q x;
  h ← update (heap q) x (set_wake_time next_time);
  picoquic_insert_cnx_by_wake_time (set_heap h q) x.

(** [None]: a dangling pointer. *)
Definition picoquic_get_earliest_cnx_to_wake (q : quic) (max_wake_time : Z) : option (option pointer) :=
  match cnx_wake_first q with
  | None => Some None
  | Some x => c ← heap q !! x; Some (if negb (max_wake_time =? 0) && (max_wake_time <? next_wake_time c) then None else Some x)
  end.

(** The subtraction is a 64-bit one, stored in a signed integer. *)
Definition picoquic_get_next_wake_delay (q : quic) (current_time delay_max : Z) : option Z :=
  match cnx_wake_first q with
  | None => Some delay_max
  | Some x =>
    c ← heap q !! x;
    Some (if current_time <? next_wake_time c then
            let wake_delay := s64 (u64 (next_wake_time c - current_time)) in if delay_max <? wake_delay then delay_max else wake_delay
          else 0)
  end.

(** ** The tables *)

Definition id_hash (id : key) : Z := Packet.picoquic_val64_connection_id id.
Definition id_compare (id1 id2 : key) : bool := Packet.picoquic_compare_connection_id id1 id2.
Definition net_hash (k : key) : Z := Containers.picohash_bytes k.
Definition net_compare (k1 k2 : key) : bool := bool_decide (k1 = k2).

(** [picoquic_set_hash_key_by_address]: the 128 bytes of the [sockaddr_storage], with the flow and the scope of an IPv6 address left at zero. *)
Definition picoquic_set_hash_key_by_address (a : PacketIn.sockaddr) : key :=
  let pad l := l ++ replicate (128 - length l) 0 in
  match a with
  | PacketIn.sockaddr_in addr port => pad ([2; 0; Z.shiftr port 8; u8 port] ++ addr)
  | PacketIn.sockaddr_in6 addr port => pad ([10; 0; Z.shiftr port 8; u8 port; 0; 0; 0; 0] ++ addr)
  end.

Definition picoquic_register_cnx_id (key_ok item_ok : bool) (q : quic) (x : pointer) (id : key) : option (Z * quic) :=
  if key_ok then
    r ← Containers.picohash_retrieve id_hash id_compare (table_cnx_by_id q) id;
    match r with
    | Some _ => Some (-1, q)
    | None =>
      '(ret, t) ← Containers.picohash_insert id_hash item_ok (table_cnx_by_id q) id x;
      if ret =? 0 then
        h ← update (heap q) x (fun c => set_cnx_ids (id :: first_cnx_id c) c);
        Some (ret, set_heap h (set_id_table t q))
      else Some (ret, set_id_table t q)
    end
  else Some (-1, q).

Definition picoquic_register_net_id (key_ok item_ok : bool) (q : quic) (x : pointer) (addr : PacketIn.sockaddr) : option (Z * quic) :=
  let k := picoquic_set_hash_key_by_address addr in
  if key_ok then
    r ← Containers.picohash_retrieve net_hash net_compare (table_cnx_by_net q) k;
    match r with
    | Some _ => Some (-1, q)
    | None =>
      '(ret, t) ← Containers.picohash_insert net_hash item_ok (table_cnx_by_net q) k x;
      if ret =? 0 then
        h ← update (heap q) x (fun c => set_net_ids (k :: first_net_id c) c);
        Some (ret, set_heap h (set_net_table t q))
      else Some (ret, set_net_table t q)
    end
  else Some (-1, q).

Definition picoquic_cnx_by_id (q : quic) (id : key) : option (option pointer) :=
  r ← Containers.picohash_retrieve id_hash id_compare (table_cnx_by_id q) id;
  Some (match r with Some it => Some (Containers.it_value it) | None => None end).

Definition picoquic_cnx_by_net (q : quic) (addr : PacketIn.sockaddr) : option (option pointer) :=
  r ← Containers.picohash_retrieve net_hash net_compare (table_cnx_by_net q) (picoquic_set_hash_key_by_address addr);
  Some (match r with Some it => Some (Containers.it_value it) | None => None end).

(** ** Creation and deletion *)

Definition picoquic_create (nb_connections : Z) : option quic :=
  by_id ← Containers.picohash_create true (u32 (nb_connections * 4));
  by_net ← Containers.picohash_create true (u32 (nb_connections * 4));
  Some (Quic None None None None by_id by_net ∅).

(** The loop of [picoquic_delete_cnx] over the chain of ids. *)
Fixpoint unregister (hash : key -> Z) (compare : key -> key -> bool) (l : list key) (t : Containers.table key pointer) : option (Containers.table key pointer) :=
  match l with
  | [] => Some t
  | id :: l =>
    r ← Containers.picohash_retrieve hash compare t id;
    t ← (match r with Some it => Containers.picohash_item_delete t it | None => Some t end);
    unregister hash compare l t
  end.

Definition picoquic_delete_cnx (q : quic) (x : pointer) : option quic :=
  c ← heap q !! x;
  t ← unregister id_hash id_compare (first_cnx_id c) (table_cnx_by_id q);
  t' ← unregister net_hash net_compare (first_net_id c) (table_cnx_by_net q);
  let q := set_net_table t' (set_id_table t (set_heap (<[x := set_net_ids [] (set_cnx_ids [] c)]> (heap q)) q)) in
  q ← picoquic_remove_cnx_from_list q x;
  q ← picoquic_remove_cnx_from_wake_list q x;
  Some (set_heap (delete x (heap q)) q).

(** What [picoquic_create_cnx_with_transport_parameters] does with the lists and the tables, for a block [x] that malloc returned
    and a first path that could be made: the plugins may fail, the TLS context or the initial keys may fail, and so may
    the allocations of the two registrations.  The flag says whether a connection is returned. *)
Definition picoquic_create_cnx (plugins_ok tls_ok : bool) (id_mallocs net_mallocs : bool * bool) (q : quic) (x : pointer) (start_time : Z)
    (local_cnxid : key) (addr : option PacketIn.sockaddr) : option (bool * quic) :=
  let q := set_heap (<[x := Cnx None None None None start_time [] []]> (heap q)) q in
  q ← picoquic_insert_cnx_in_list q x;
  q ← picoquic_insert_cnx_by_wake_time q x;
  if negb plugins_ok then Some (false, q)
  else if negb tls_ok then q ← picoquic_delete_cnx q x; Some (false, q)
  else
    '(_, q) ← (if negb (Packet.picoquic_is_connection_id_null local_cnxid) then picoquic_register_cnx_id id_mallocs.1 id_mallocs.2 q x local_cnxid else Some (0, q));
    '(_, q) ← (match addr with Some a => picoquic_register_net_id net_mallocs.1 net_mallocs.2 q x a | None => Some (0, q) end);
    Some (true, q).

(** ** Doubly linked lists *)

(** A connection without the links of the list. *)
Definition rest {L : Links} (c : cnx) : cnx := set_nxt None (set_prv None c).

Class LinkLaws (L : Links) : Prop := {
  nxt_set_nxt : forall v c, nxt (set_nxt v c) = v;
  prv_set_nxt : forall v c, prv (set_nxt v c) = prv c;
  nxt_set_prv : forall v c, nxt (set_prv v c) = nxt c;
  prv_set_prv : forall v c, prv (set_prv v c) = v;
  rest_set_nxt : forall v c, rest (set_nxt v c) = rest c;
  rest_set_prv : forall v c, rest (set_prv v c) = rest c
}.

#[export] Instance table_link_laws : LinkLaws table_links.
Proof. by split. Qed.
#[export] Instance wake_link_laws : LinkLaws wake_links.
Proof. by split. Qed.

Definition next_of (l : list pointer) (nx : option pointer) : option pointer := match l with [] => nx | y :: _ => Some y end.
Definition prev_of (pv : option pointer) (l : list pointer) : option pointer := match list.last l with None => pv | Some x => Some x end.

Section Lists.
Context {L : Links} `{LL : !LinkLaws L}.

(** The nodes of [l] are linked in this order, between [pv] and [nx]. *)
Fixpoint linked (h : gmap pointer cnx) (pv : option pointer) (l : list pointer) (nx : option pointer) : Prop :=
  match l with
  | [] => True
  | x :: l' => exists c, h !! x = Some c /\ prv c = pv /\ nxt c = next_of l' nx /\ linked h (Some x) l' nx
  end.

Definition same_rest (h h' : gmap pointer cnx) : Prop := forall y, rest <$> h' !! y = rest <$> h !! y.

Lemma same_rest_trans h1 h2 h3 : same_rest h1 h2 -> same_rest h2 h3 -> same_rest h1 h3.
Proof. intros H1 H2 y. by rewrite (H2 y). Qed.

Lemma same_rest_update h x c c' : h !! x = Some c -> rest c' = rest c -> same_rest h (<[x := c']> h).
Proof.
  intros Hx Hf y. destruct (decide (y = x)) as [->|]; [by rewrite lookup_insert_eq, Hx; cbn; rewrite Hf|]. by rewrite lookup_insert_ne.
Qed.

Lemma prev_of_snoc_link pv l x : prev_of pv (l ++ [x]) = Some x.
Proof. unfold prev_of. by rewrite last_snoc. Qed.

Lemma linked_app h pv l1 l2 nx : linked h pv (l1 ++ l2) nx <-> linked h pv l1 (next_of l2 nx) /\ linked h (prev_of pv l1) l2 nx.
Proof.
  revert pv. induction l1 as [|x l1 IH]; intros pv; [cbn; tauto|].
  assert (Ep : prev_of pv (x :: l1) = prev_of (Some x) l1) by (unfold prev_of; rewrite last_cons; by destruct (list.last l1)).
  rewrite Ep. cbn [app linked]. setoid_rewrite IH. assert (En : next_of (l1 ++ l2) nx = next_of l1 (next_of l2 nx)) by (by destruct l1). rewrite En. naive_solver.
Qed.

Lemma linked_frame h h' pv l nx : (forall y, y ∈ l -> h' !! y = h !! y) -> linked h pv l nx -> linked h' pv l nx.
Proof.
  revert pv. induction l as [|x l IH]; intros pv Hf Hd; [done|]. destruct Hd as (c & Hc & Hp & Hn & Hd). exists c. split; [rewrite Hf; [done|left]|].
  split_and!; [done|done|]. apply IH; [|done]. intros y Hy. apply Hf. by right.
Qed.

Lemma linked_lookup h pv l nx x : linked h pv l nx -> x ∈ l -> exists c, h !! x = Some c.
Proof.
  revert pv. induction l as [|y l IH]; intros pv Hd Hx; [by apply elem_of_nil in Hx|]. destruct Hd as (c & Hc & _ & _ & Hd).
  apply elem_of_cons in Hx as [->|Hx]; [by exists c|by eapply IH].
Qed.

Lemma linked_set_prv h pv pv' x l nx c : h !! x = Some c -> x ∉ l -> linked h pv (x :: l) nx -> linked (<[x := set_prv pv' c]> h) pv' (x :: l) nx.
Proof.
  intros Hc Hx (c' & Hc' & Hp & Hn & Hd). rewrite Hc in Hc'. injection Hc' as <-. eexists. split; [apply lookup_insert_eq|].
  rewrite prv_set_prv, nxt_set_prv. split_and!; [done|done|]. eapply linked_frame; [|done]. intros y Hy. apply lookup_insert_ne. by intros ->.
Qed.

Lemma linked_set_nxt h pv l x nx nx' c : h !! x = Some c -> x ∉ l -> linked h pv (l ++ [x]) nx -> linked (<[x := set_nxt nx' c]> h) pv (l ++ [x]) nx'.
Proof.
  intros Hc Hx [Hl (c' & Hc' & Hp & Hn & _)]%linked_app. rewrite Hc in Hc'. injection Hc' as <-. apply linked_app. split.
  - cbn [next_of] in *. eapply linked_frame; [|done]. intros y Hy. apply lookup_insert_ne. by intros ->.
  - eexists. split; [apply lookup_insert_eq|]. by rewrite prv_set_nxt, nxt_set_nxt.
Qed.

Definition list_ends (l : list pointer) (first last : option pointer) : Prop := first = head l /\ last = list.last l.

(** The node before a gap gets a new successor. *)
Lemma relink_prev h l1 nx nx' : linked h None l1 nx -> NoDup l1 -> l1 <> [] ->
  exists p c, prev_of None l1 = Some p /\ p ∈ l1 /\ h !! p = Some c /\ linked (<[p := set_nxt nx' c]> h) None l1 nx'.
Proof.
  intros Hd Hnd Hne. destruct l1 as [|a l1' _] using rev_ind; [done|]. rewrite prev_of_snoc_link.
  apply list.NoDup_app in Hnd as (_ & Hdis & _). assert (Ha : a ∉ l1') by (intros H; apply (Hdis a H); left).
  destruct (linked_lookup _ _ _ _ a Hd) as [c Hc]; [apply elem_of_app; right; left|]. exists a, c.
  split_and!; [done|apply elem_of_app; right; left|done|by eapply linked_set_nxt].
Qed.

Lemma remove_links_spec h l1 x l2 first last : linked h None (l1 ++ x :: l2) None -> NoDup (l1 ++ x :: l2) -> list_ends (l1 ++ x :: l2) first last ->
  exists h' first' last', remove_links L h first last x = Some (h', first', last') /\ linked h' None (l1 ++ l2) None /\ list_ends (l1 ++ l2) first' last' /\
    same_rest h h' /\ (forall y, y ∉ l1 ++ l2 -> h' !! y = h !! y).
Proof.
  intros Hd Hnd [Hf Hl]. apply linked_app in Hd as [Hd1 (c & Hc & Hp & Hn & Hd2)]. cbn [next_of] in Hd1.
  apply list.NoDup_app in Hnd as (Hnd1 & Hdis & Hnd2). apply list.NoDup_cons in Hnd2 as [Hx2 Hnd2].
  assert (Hx1 : x ∉ l1) by (intros H; apply (Hdis x H); left). assert (H12 : forall y, y ∈ l1 -> y ∉ l2) by (intros y Hy Hy2; apply (Hdis y Hy); by right).
  unfold remove_links. rewrite Hc. cbn [mbind option_bind]. rewrite Hn, Hp.
  (* the node behind [x] *)
  assert (exists h1, (match next_of l2 None with
      | None => Some (h, prev_of None l1) | Some n => h ← update h n (set_prv (prev_of None l1)); Some (h, last) end) = Some (h1, list.last (l1 ++ l2)) /\
    linked h1 None l1 (Some x) /\ linked h1 (prev_of None l1) l2 None /\ same_rest h h1 /\ (forall y, y ∉ l2 -> h1 !! y = h !! y)) as (h1 & E1 & Hd1' & Hd2' & Hs1 & Hf1).
  { destruct l2 as [|b l2]; cbn [next_of].
    - exists h. rewrite app_nil_r. split_and!; try done. do 2 f_equal. unfold prev_of. by destruct (list.last l1).
    - destruct (linked_lookup _ _ _ _ b Hd2) as [cb Hb]; [left|]. unfold update. rewrite Hb. cbn [mbind option_bind]. apply list.NoDup_cons in Hnd2 as [Hb2 _].
      eexists. split; [rewrite Hl, !last_app_cons, last_cons_cons; reflexivity|]. split_and!.
      + eapply linked_frame; [|exact Hd1]. intros y Hy. apply lookup_insert_ne. intros ->. apply (H12 y Hy). left.
      + by eapply linked_set_prv.
      + eapply same_rest_update; [done|apply rest_set_prv].
      + intros y Hy. apply lookup_insert_ne. intros ->. apply Hy. left. }
  rewrite E1. cbn [mbind option_bind]. destruct l1 as [|a l1].
  - cbn [prev_of list.last app] in *. eexists _, _, _. split; [reflexivity|]. split_and!; [done|by split; [destruct l2|]|done|done].
  - destruct (relink_prev h1 (a :: l1) (Some x) (next_of l2 None) Hd1' Hnd1) as (p & cp & Ep & Hin & Hcp & Hd1''); [done|]. rewrite Ep. unfold update. rewrite Hcp.
    cbn [mbind option_bind]. eexists _, _, _. split; [reflexivity|]. split_and!.
    + apply linked_app. split; [done|]. eapply linked_frame; [|exact Hd2']. intros y Hy. apply lookup_insert_ne. intros ->. by apply (H12 y).
    + split; [by rewrite Hf|done].
    + eapply same_rest_trans; [exact Hs1|]. eapply same_rest_update; [done|apply rest_set_nxt].
    + intros y Hy. rewrite lookup_insert_ne; [apply Hf1|]; intros Hy'; apply Hy, elem_of_app; [by right|left; by rewrite <- Hy'].
Qed.

(** A node [x] that is not in the list is put between [l1] and [l2]; its own links are set first. *)
Lemma insert_links_spec h l1 x l2 c : linked h None (l1 ++ l2) None -> NoDup (l1 ++ l2) -> x ∉ l1 ++ l2 -> h !! x = Some c ->
  prv c = prev_of None l1 -> nxt c = next_of l2 None ->
  exists h1 h2, match prev_of None l1 with None => Some h | Some p => update h p (set_nxt (Some x)) end = Some h1 /\
    match next_of l2 None with None => Some h1 | Some n => update h1 n (set_prv (Some x)) end = Some h2 /\
    linked h2 None (l1 ++ x :: l2) None /\ same_rest h h2 /\ h2 !! x = Some c /\ (forall y, y ∉ l1 ++ l2 -> h2 !! y = h !! y).
Proof.
  intros Hd Hnd Hx Hc Hp Hn. apply linked_app in Hd as [Hd1 Hd2]. apply list.NoDup_app in Hnd as (Hnd1 & Hdis & Hnd2).
  assert (Hx1 : x ∉ l1) by (intros H; apply Hx, elem_of_app; by left). assert (Hx2 : x ∉ l2) by (intros H; apply Hx, elem_of_app; by right).
  assert (exists h1, match prev_of None l1 with None => Some h | Some p => update h p (set_nxt (Some x)) end = Some h1 /\ linked h1 None l1 (Some x) /\
    linked h1 (prev_of None l1) l2 None /\ same_rest h h1 /\ (forall y, y ∉ l1 -> h1 !! y = h !! y)) as (h1 & E1 & Hd1' & Hd2' & Hs1 & Hf1).
  { destruct l1 as [|a l1]; [exists h; by split_and!|].
    destruct (relink_prev h (a :: l1) (next_of l2 None) (Some x) Hd1 Hnd1) as (p & cp & Ep & Hin & Hcp & Hd1'); [done|]. rewrite Ep in *. unfold update. rewrite Hcp.
    eexists. split; [reflexivity|]. split_and!; [done| |eapply same_rest_update; [done|apply rest_set_nxt]|].
    - eapply linked_frame; [|exact Hd2]. intros y Hy. apply lookup_insert_ne. intros ->. by apply (Hdis y).
    - intros y Hy. apply lookup_insert_ne. by intros ->. }
  exists h1. rewrite E1. assert (Hc1 : h1 !! x = Some c) by (by rewrite Hf1). destruct l2 as [|b l2]; cbn [next_of].
  - exists h1. split_and!; [done|done| |done|done|].
    + apply linked_app. split; [done|]. exists c. by split_and!.
    + intros y Hy. apply Hf1. intros H. apply Hy, elem_of_app. by left.
  - destruct (linked_lookup _ _ _ _ b Hd2') as [cb Hb]; [left|]. unfold update. rewrite Hb. cbn [mbind option_bind]. apply list.NoDup_cons in Hnd2 as [Hb2 _].
    eexists. split; [done|]. split; [reflexivity|]. assert (x <> b) by (intros ->; apply Hx2; left). split_and!.
    + apply linked_app. split.
      * eapply linked_frame; [|exact Hd1']. intros y Hy. apply lookup_insert_ne. intros ->. apply (Hdis y Hy). left.
      * exists c. rewrite lookup_insert_ne by done. split_and!; [done|done|done|]. by eapply linked_set_prv.
    + eapply same_rest_trans; [exact Hs1|]. eapply same_rest_update; [done|apply rest_set_prv].
    + by rewrite lookup_insert_ne.
    + intros y Hy. rewrite lookup_insert_ne by (intros ->; apply Hy, elem_of_app; right; left). apply Hf1. intros H'. apply Hy, elem_of_app. by left.
Qed.



(** The order of the assignments in [picoquic_insert_cnx_by_wake_time]. *)
Definition insert_between (h : gmap pointer cnx) (x : pointer) (previous cnx_next : option pointer) : option (gmap pointer cnx) :=
  h ← update h x (set_prv previous);
  h ← (match previous with None => Some h | Some p => update h p (set_nxt (Some x)) end);
  h ← update h x (set_nxt cnx_next);
  match cnx_next with None => Some h | Some n => update h n (set_prv (Some x)) end.

Lemma insert_between_spec h l1 x l2 c : linked h None (l1 ++ l2) None -> NoDup (l1 ++ l2) -> x ∉ l1 ++ l2 -> h !! x = Some c ->
  exists h', insert_between h x (prev_of None l1) (next_of l2 None) = Some h' /\ linked h' None (l1 ++ x :: l2) None /\ same_rest h h' /\
    (forall y, y ∉ l1 ++ x :: l2 -> h' !! y = h !! y).
Proof.
  intros Hd Hnd Hx Hc. set (c1 := set_nxt (next_of l2 None) (set_prv (prev_of None l1) c)). set (h0 := <[x := c1]> h).
  assert (Hd0 : linked h0 None (l1 ++ l2) None). { eapply linked_frame; [|exact Hd]. intros y Hy. apply lookup_insert_ne. by intros ->. }
  destruct (insert_links_spec h0 l1 x l2 c1 Hd0 Hnd Hx) as (h1 & h2 & E1 & E2 & Hd2 & Hs2 & _ & Hf2).
  { apply lookup_insert_eq. }
  { unfold c1. by rewrite prv_set_nxt, prv_set_prv. }
  { unfold c1. by rewrite nxt_set_nxt. }
  exists h2. split; [|split; [done|split]].
  - assert (Eu : update h x (set_prv (prev_of None l1)) = Some (<[x := set_prv (prev_of None l1) c]> h)) by (unfold update; by rewrite Hc).
    unfold insert_between. rewrite Eu. cbn [mbind option_bind].
    assert (Hp : prev_of None l1 <> Some x).
    { unfold prev_of. destruct (list.last l1) as [p|] eqn:Ep; [|done]. intros [= ->]. apply Hx, elem_of_app. left. by apply last_Some_elem_of. }
    assert (Emid : (h ← (match prev_of None l1 with None => Some (<[x := set_prv (prev_of None l1) c]> h) | Some p => update (<[x := set_prv (prev_of None l1) c]> h) p (set_nxt (Some x)) end);
        update h x (set_nxt (next_of l2 None))) = Some h1).
    { destruct (prev_of None l1) as [p|] eqn:Ep.
      - unfold update in E1 |- *. assert (p <> x) by congruence. unfold h0 in E1. rewrite lookup_insert_ne in E1 |- * by done.
        destruct (h !! p) as [cp|]; [|done]. cbn [mbind option_bind] in *. injection E1 as <-. rewrite lookup_insert_ne, lookup_insert_eq by done. cbn [mbind option_bind].
        f_equal. rewrite (insert_insert_ne _ x p), insert_insert_eq by done. unfold c1. by rewrite ?Ep.
      - injection E1 as <-. cbn [mbind option_bind]. unfold update. rewrite lookup_insert_eq. cbn [mbind option_bind]. unfold h0, c1. by rewrite insert_insert_eq. }
    set (m := match prev_of None l1 with None => Some (<[x := set_prv (prev_of None l1) c]> h) | Some p => _ end) in Emid |- *.
    destruct m as [hm|]; [|discriminate Emid]. cbn [mbind option_bind] in Emid |- *. rewrite Emid. exact E2.
  - eapply same_rest_trans; [|exact Hs2]. eapply same_rest_update; [done|]. unfold c1. by rewrite rest_set_nxt, rest_set_prv.
  - intros y Hy. rewrite Hf2 by (intros H; apply Hy; apply elem_of_app in H as [H|H]; apply elem_of_app; [by left|right; by right]).
    apply lookup_insert_ne. intros ->. apply Hy, elem_of_app. right. left.
Qed.

(** A list only depends on its links. *)
Lemma linked_same h h' pv l nx : (forall y, (fun c => (nxt c, prv c)) <$> h' !! y = (fun c => (nxt c, prv c)) <$> h !! y) -> linked h pv l nx -> linked h' pv l nx.
Proof.
  intros Hs. revert pv. induction l as [|x l IH]; intros pv Hd; [done|]. destruct Hd as (c & Hc & Hp & Hn & Hd). specialize (Hs x) as Hx. rewrite Hc in Hx.
  destruct (h' !! x) as [c'|] eqn:Hc'; [|done]. injection Hx as E1 E2. exists c'. split_and!; [done|congruence|congruence|by apply IH].
Qed.

End Lists.

(** ** The tables and the lists together *)

(** What no list operation changes. *)
Definition payload (c : cnx) : Z * list key * list key := (next_wake_time c, first_cnx_id c, first_net_id c).
Definition same_payload (h h' : gmap pointer cnx) : Prop := forall y, payload <$> h' !! y = payload <$> h !! y.

Lemma fmap_factor {A B C} (f : A -> B) (g : B -> C) (o o' : option A) : f <$> o = f <$> o' -> (fun x => g (f x)) <$> o = (fun x => g (f x)) <$> o'.
Proof. destruct o, o'; cbn; congruence. Qed.

Lemma table_rest h h' : @same_rest table_links h h' -> same_payload h h' /\
  forall y, (fun c => (@nxt wake_links c, @prv wake_links c)) <$> h' !! y = (fun c => (@nxt wake_links c, @prv wake_links c)) <$> h !! y.
Proof. intros H. split; intros y; [exact (fmap_factor (@rest table_links) payload _ _ (H y))|exact (fmap_factor (@rest table_links) (fun c => (@nxt wake_links c, @prv wake_links c)) _ _ (H y))]. Qed.

Lemma wake_rest h h' : @same_rest wake_links h h' -> same_payload h h' /\
  forall y, (fun c => (@nxt table_links c, @prv table_links c)) <$> h' !! y = (fun c => (@nxt table_links c, @prv table_links c)) <$> h !! y.
Proof. intros H. split; intros y; [exact (fmap_factor (@rest wake_links) payload _ _ (H y))|exact (fmap_factor (@rest wake_links) (fun c => (@nxt table_links c, @prv table_links c)) _ _ (H y))]. Qed.

(** All connections with the newest first, the times at which they wake, and the two maps. *)
Record abstract := Abs { order : list pointer; wakes : list (pointer * Z); by_id : gmap key pointer; by_net : gmap key pointer }.

(** The keys in the chains of the connections are those of the map. *)
Definition owns (f : cnx -> list key) (m : gmap key pointer) (h : gmap pointer cnx) : Prop :=
  (forall x c, h !! x = Some c -> NoDup (f c) /\ forall k, k ∈ f c <-> m !! k = Some x) /\ (forall k x, m !! k = Some x -> is_Some (h !! x)).

Record lists_ok (q : quic) (ord : list pointer) (wk : list (pointer * Z)) : Prop := ListsOk {
  lk_table : @linked table_links (heap q) None ord None;
  lk_table_ends : list_ends ord (cnx_list q) (cnx_last q);
  lk_wake : @linked wake_links (heap q) None wk.*1 None;
  lk_wake_ends : list_ends wk.*1 (cnx_wake_first q) (cnx_wake_last q);
  lk_times : forall x t, (x, t) ∈ wk -> next_wake_time <$> heap q !! x = Some t;
  lk_nodup : NoDup ord;
  lk_nodup_wake : NoDup wk.*1
}.

Record represents (q : quic) (a : abstract) : Prop := Represents {
  rp_lists : lists_ok q (order a) (wakes a);
  rp_perm : (wakes a).*1 ≡ₚ order a;
  rp_heap : dom (heap q) = list_to_set (order a);
  rp_ids : owns first_cnx_id (by_id a) (heap q);
  rp_nets : owns first_net_id (by_net a) (heap q);
  rp_id_table : Containers.table_of id_hash (table_cnx_by_id q) (by_id a);
  rp_net_table : Containers.table_of net_hash (table_cnx_by_net q) (by_net a)
}.

(** Where a connection goes that wakes at [t]: behind those that wake at the same time or before. *)
Fixpoint insert_wake (x : pointer) (t : Z) (l : list (pointer * Z)) : list (pointer * Z) :=
  match l with
  | [] => [(x, t)]
  | (y, s) :: l' => if s <=? t then (y, s) :: insert_wake x t l' else (x, t) :: l
  end.

Lemma insert_wake_split x t l : exists l1 l2, l = l1 ++ l2 /\ insert_wake x t l = l1 ++ (x, t) :: l2 /\ Forall (fun y => y.2 <= t) l1 /\
  match l2 with [] => True | y :: _ => t < y.2 end.
Proof.
  induction l as [|[y s] l IH]; cbn [insert_wake]; [by exists [], []|]. destruct (Z.leb_spec s t).
  - destruct IH as (l1 & l2 & -> & -> & Hl1 & Hl2). exists ((y, s) :: l1), l2. split_and!; [done|done|by constructor|done].
  - exists [], ((y, s) :: l). by split_and!.
Qed.

Lemma find_wake_ok fuel : forall h t pv l1 l2, @linked wake_links h pv (l1 ++ l2).*1 None ->
  (forall x s, (x, s) ∈ l1 ++ l2 -> next_wake_time <$> h !! x = Some s) -> Forall (fun y => y.2 <= t) l1 -> match l2 with [] => True | y :: _ => t < y.2 end ->
  (length l1 <= fuel)%nat ->
  find_wake fuel h t pv (next_of (l1 ++ l2).*1 None) = Some (Some (prev_of pv l1.*1, next_of l2.*1 None)).
Proof.
  induction fuel as [|fuel IH]; intros h t pv l1 l2 Hd Ht Hl1 Hl2 Hlen.
  all: destruct l1 as [|[y s] l1]; [|try (cbn in Hlen; lia)].
  1, 2: destruct l2 as [|[z s] l2]; cbn [app fmap list_fmap next_of find_wake fst] in *; [done|].
  1, 2: specialize (Ht z s ltac:(left)); destruct (h !! z) as [c|]; [|done]; injection Ht as Es; rewrite Es; cbn in Hl2; destruct (Z.leb_spec s t); [lia|done].
  cbn [app fmap list_fmap next_of find_wake fst] in *. destruct Hd as (c & Hc & Hp & Hn & Hd). pose proof (Ht y s ltac:(left)) as Hs. rewrite Hc in Hs |- *. injection Hs as Es.
  apply list.Forall_cons in Hl1 as [Hy Hl1]. cbn in Hy. rewrite Es. destruct (Z.leb_spec s t); [|lia].
  change (next_by_wake_time c) with (@nxt wake_links c). rewrite Hn, (IH h t (Some y) l1 l2); [|done|intros ? ? ?; apply Ht; by right|done|done|cbn in Hlen; lia].
  do 3 f_equal. unfold prev_of. rewrite last_cons. by destruct (list.last l1.*1).
Qed.

(** *** The list operations *)

Definition same_tables (q q' : quic) : Prop := table_cnx_by_id q' = table_cnx_by_id q /\ table_cnx_by_net q' = table_cnx_by_net q.

Lemma same_times h h' (wk : list (pointer * Z)) : same_payload h h' -> (forall x t, (x, t) ∈ wk -> next_wake_time <$> h !! x = Some t) ->
  forall x t, (x, t) ∈ wk -> next_wake_time <$> h' !! x = Some t.
Proof. intros Hs Ht x t Hin. rewrite <- (Ht x t Hin). exact (fmap_factor payload (fun p => p.1.1) _ _ (Hs x)). Qed.

Lemma insert_in_list_ok q ord wk x c : lists_ok q ord wk -> x ∉ ord -> heap q !! x = Some c ->
  exists q', picoquic_insert_cnx_in_list q x = Some q' /\ lists_ok q' (x :: ord) wk /\ same_payload (heap q) (heap q') /\ same_tables q q'.
Proof.
  intros [Ht He Hw Hwe Htm Hnd Hndw] Hx Hc. unfold picoquic_insert_cnx_in_list. destruct He as [Hf Hl].
  assert (Hdone : forall h' last, @linked table_links h' None (x :: ord) None -> @same_rest table_links (heap q) h' -> last = list.last (x :: ord) ->
    lists_ok (set_heap h' (set_list (Some x) last q)) (x :: ord) wk /\ same_payload (heap q) h').
  { intros h' last Hd Hs Hlast. destruct (table_rest _ _ Hs) as [Hp Hv]. split; [|done]. split; [done|by split|by eapply linked_same|done|by eapply same_times|by constructor|done]. }
  destruct ord as [|f ord].
  - rewrite Hf. cbn [head]. unfold update. rewrite Hc. cbn [mbind option_bind]. eexists. split; [reflexivity|].
    destruct (Hdone (<[x := @set_prv table_links None (@set_nxt table_links None c)]> (heap q)) (Some x)) as [H1 H2]; [| |done|by split_and!].
    + eexists. split; [apply lookup_insert_eq|]. done.
    + by eapply same_rest_update.
  - rewrite Hf. cbn [head]. destruct (linked_lookup _ _ _ _ f Ht) as [cf Hcf]; [left|]. assert (x <> f) by (intros ->; apply Hx; left).
    unfold update. rewrite Hcf. cbn [mbind option_bind]. rewrite lookup_insert_ne, Hc by done. cbn [mbind option_bind]. eexists. split; [reflexivity|].
    set (h1 := <[f := @set_prv table_links (Some x) cf]> (heap q)). set (h2 := <[x := @set_prv table_links None (@set_nxt table_links (Some f) c)]> h1).
    destruct (Hdone h2 (cnx_last q)) as [H1 H2].
    + eexists. split; [apply lookup_insert_eq|]. split; [done|]. split; [done|]. apply (linked_frame (L := table_links) h1); [intros y Hy; apply lookup_insert_ne; by intros ->|].
      apply (linked_set_prv (L := table_links) (heap q) None (Some x) f ord None cf); [done| |exact Ht]. apply list.NoDup_cons in Hnd as [? _]. done.
    + apply (same_rest_trans (L := table_links) _ h1); [by apply (same_rest_update (L := table_links) _ _ cf)|].
      apply (same_rest_update (L := table_links) _ _ c); [unfold h1; by rewrite lookup_insert_ne|done].
    + by rewrite Hl.
    + by split_and!.
Qed.

Lemma remove_from_list_ok q l1 x l2 wk : lists_ok q (l1 ++ x :: l2) wk ->
  exists q', picoquic_remove_cnx_from_list q x = Some q' /\ lists_ok q' (l1 ++ l2) wk /\ same_payload (heap q) (heap q') /\ same_tables q q'.
Proof.
  intros [Ht He Hw Hwe Htm Hnd Hndw]. unfold picoquic_remove_cnx_from_list.
  destruct (remove_links_spec (L := table_links) _ _ _ _ _ _ Ht Hnd He) as (h' & f' & l' & -> & Hd & He' & Hs & _). cbn [mbind option_bind]. eexists. split; [done|].
  destruct (table_rest _ _ Hs) as [Hp Hv]. split; [|by split_and!]. split; [done|done|by eapply linked_same|done|by eapply same_times| |done].
  apply list.NoDup_app in Hnd as (H1 & H2 & H3). apply list.NoDup_cons in H3 as [_ H3]. apply list.NoDup_app. split_and!; [done| |done]. intros y Hy Hy2. apply (H2 y Hy). by right.
Qed.

Lemma NoDup_without {A} (l1 l2 : list A) x : NoDup (l1 ++ x :: l2) -> NoDup (l1 ++ l2) /\ x ∉ l1 ++ l2.
Proof. intros H. rewrite <- Permutation_middle in H. apply list.NoDup_cons in H as [H1 H2]. done. Qed.

Lemma remove_from_wake_list_ok q ord w1 x t w2 : lists_ok q ord (w1 ++ (x, t) :: w2) ->
  exists q', picoquic_remove_cnx_from_wake_list q x = Some q' /\ lists_ok q' ord (w1 ++ w2) /\ same_payload (heap q) (heap q') /\ same_tables q q'.
Proof.
  intros [Ht He Hw Hwe Htm Hnd Hndw]. unfold picoquic_remove_cnx_from_wake_list. rewrite fmap_app in Hw, Hwe, Hndw. cbn [fmap list_fmap fst] in Hw, Hwe, Hndw.
  destruct (remove_links_spec (L := wake_links) _ _ _ _ _ _ Hw Hndw Hwe) as (h' & f' & l' & -> & Hd & He' & Hs & _). cbn [mbind option_bind]. eexists. split; [done|].
  destruct (wake_rest _ _ Hs) as [Hp Hv]. split; [|by split_and!]. split.
  - by eapply linked_same.
  - done.
  - by rewrite fmap_app.
  - by rewrite fmap_app.
  - eapply same_times; [done|]. intros y s Hin. apply Htm. apply elem_of_app in Hin as [Hin|Hin]; apply elem_of_app; [by left|right; by right].
  - done.
  - rewrite fmap_app. by destruct (NoDup_without _ _ _ Hndw).
Qed.

Lemma linked_size {L : Links} h pv l nx : linked h pv l nx -> NoDup l -> (length l <= size h)%nat.
Proof.
  intros Hd Hnd. rewrite <- (size_dom h). rewrite <- (size_list_to_set (C := gset pointer) l) by done. apply subseteq_size. intros x Hx%elem_of_list_to_set.
  apply elem_of_dom. destruct (linked_lookup _ _ _ _ x Hd Hx) as [c ->]. by eexists.
Qed.

Lemma insert_by_wake_time_ok q ord wk x c : lists_ok q ord wk -> x ∉ wk.*1 -> heap q !! x = Some c ->
  exists q', picoquic_insert_cnx_by_wake_time q x = Some q' /\ lists_ok q' ord (insert_wake x (next_wake_time c) wk) /\ same_payload (heap q) (heap q') /\ same_tables q q'.
Proof.
  intros [Ht He Hw Hwe Htm Hnd Hndw] Hx Hc. unfold picoquic_insert_cnx_by_wake_time. rewrite Hc. cbn [mbind option_bind].
  destruct (insert_wake_split x (next_wake_time c) wk) as (w1 & w2 & -> & Ei & Hw1 & Hw2). destruct Hwe as [Hf Hl].
  assert (Hfirst : cnx_wake_first q = next_of (w1 ++ w2).*1 None) by (rewrite Hf; by destruct ((w1 ++ w2).*1)). rewrite Hfirst.
  rewrite (find_wake_ok _ _ _ None w1 w2); [|done|done|done|done|].
  2: { pose proof (linked_size _ _ _ _ Hw Hndw) as Hsz. rewrite length_fmap, length_app in Hsz. lia. }
  cbn [mbind option_bind]. rewrite fmap_app in Hw, Hl, Hx, Hndw, Hfirst |- *.
  destruct (insert_between_spec (L := wake_links) _ _ x _ c Hw Hndw Hx Hc) as (h' & E & Hd & Hs & _).
  unfold insert_between in E. destruct (wake_rest _ _ Hs) as [Hp Hv].
  assert (Hdone : forall first last, first = head (w1.*1 ++ x :: w2.*1) -> last = list.last (w1.*1 ++ x :: w2.*1) ->
    lists_ok (set_heap h' (set_wake_list first last q)) ord (insert_wake x (next_wake_time c) (w1 ++ w2))).
  { intros first last Hf' Hl'. rewrite Ei. split; cbn [set_heap set_wake_list heap cnx_list cnx_last cnx_wake_first cnx_wake_last]; rewrite ?fmap_app; try done.
    - by eapply linked_same.
    - intros y s Hin. apply elem_of_app in Hin as [Hin|[[= -> ->]|Hin]%elem_of_cons].
      + eapply same_times; [exact Hp|exact Htm|]. apply elem_of_app. by left.
      + pose proof (fmap_factor payload (fun p => p.1.1) _ _ (Hp x)) as E1. cbn in E1. rewrite Hc in E1. exact E1.
      + eapply same_times; [exact Hp|exact Htm|]. apply elem_of_app. by right.
    - cbn [fmap list_fmap fst]. rewrite <- Permutation_middle. by apply list.NoDup_cons. }
  destruct (update (heap q) x (@set_prv wake_links (prev_of None w1.*1))) as [h1|]; [|discriminate E]. cbn [mbind option_bind] in E |- *.
  assert (E2 : exists hm first, (match prev_of None w1.*1 with None => Some (h1, Some x) | Some p => h ← update h1 p (@set_nxt wake_links (Some x)); Some (h, next_of (w1.*1 ++ w2.*1) None) end) = Some (hm, first) /\
    match prev_of None w1.*1 with None => Some h1 | Some p => update h1 p (@set_nxt wake_links (Some x)) end = Some hm /\ first = head (w1.*1 ++ x :: w2.*1)).
  { destruct w1 as [|[y s] w1]; [cbn; by eexists _, _|]. cbn [fmap list_fmap fst] in *.
    destruct (prev_of None (y :: w1.*1)) as [p|] eqn:Ep.
    - destruct (update h1 p _) as [hm|]; [|discriminate E]. cbn [mbind option_bind]. by eexists _, _.
    - unfold prev_of in Ep. destruct (list.last (y :: w1.*1)) eqn:El; [done|]. by apply last_None in El. }
  destruct E2 as (hm & first & -> & Em & Hf'). rewrite Em in E. cbn [mbind option_bind] in E |- *.
  destruct (update hm x _) as [h3|]; [|discriminate E]. cbn [mbind option_bind] in E |- *. destruct w2 as [|[z s] w2]; cbn [fmap list_fmap next_of fst] in *.
  - injection E as ->. eexists. split; [done|]. split; [|by split_and!]. apply Hdone; [done|]. by rewrite last_snoc.
  - rewrite E. cbn [mbind option_bind]. eexists. split; [done|]. split; [|by split_and!]. apply Hdone; [done|]. rewrite Hl, !last_app_cons. by rewrite (last_cons_cons x).
Qed.


(** *** The tables *)

Lemma id_compare_ok k1 k2 : id_compare k1 k2 = true <-> k1 = k2.
Proof. apply bool_decide_eq_true. Qed.
Lemma net_compare_ok k1 k2 : net_compare k1 k2 = true <-> k1 = k2.
Proof. apply bool_decide_eq_true. Qed.

(** The links and the wake time: all that the lists depend on. *)
Definition core (c : cnx) : option pointer * option pointer * (option pointer * option pointer) * Z :=
  (next_in_table c, previous_in_table c, (next_by_wake_time c, previous_by_wake_time c), next_wake_time c).

Lemma lists_ok_core q q' ord wk : lists_ok q ord wk -> (forall y, core <$> heap q' !! y = core <$> heap q !! y) ->
  cnx_list q' = cnx_list q -> cnx_last q' = cnx_last q -> cnx_wake_first q' = cnx_wake_first q -> cnx_wake_last q' = cnx_wake_last q -> lists_ok q' ord wk.
Proof.
  intros [Ht He Hw Hwe Htm Hnd Hndw] Hs E1 E2 E3 E4. split; rewrite ?E1, ?E2, ?E3, ?E4; try done.
  - eapply linked_same; [|done]. intros y. exact (fmap_factor core (fun p => (p.1.1.1, p.1.1.2)) _ _ (Hs y)).
  - eapply linked_same; [|done]. intros y. exact (fmap_factor core (fun p => (p.1.2.1, p.1.2.2)) _ _ (Hs y)).
  - intros x t Hin. rewrite <- (Htm x t Hin). exact (fmap_factor core (fun p => p.2) _ _ (Hs x)).
Qed.

Lemma fmap_update {B} (f : cnx -> B) (h : gmap pointer cnx) x c c' : h !! x = Some c -> f c' = f c -> forall y, f <$> <[x := c']> h !! y = f <$> h !! y.
Proof.
  intros Hx Hf y. destruct (decide (y = x)) as [->|]; [|by rewrite lookup_insert_ne]. rewrite lookup_insert_eq, Hx. cbn. by rewrite Hf.
Qed.

Lemma owns_same f m h h' : (forall y, f <$> h' !! y = f <$> h !! y) -> owns f m h -> owns f m h'.
Proof.
  intros Hs [H1 H2]. split.
  - intros x c Hc. specialize (Hs x). rewrite Hc in Hs. destruct (h !! x) as [c0|] eqn:E0; [|done]. injection Hs as ->. by apply H1.
  - intros k x Hk. specialize (Hs x). destruct (H2 k x Hk) as [c0 E0]. rewrite E0 in Hs. destruct (h' !! x); [by eexists|done].
Qed.

Lemma owns_new f m h x c : owns f m h -> h !! x = None -> f c = [] -> owns f m (<[x := c]> h).
Proof.
  intros [H1 H2] Hx Hf. split.
  - intros y d Hd. destruct (decide (y = x)) as [->|].
    + rewrite lookup_insert_eq in Hd. injection Hd as <-. rewrite Hf. split; [constructor|]. intros k. split; [by intros ?%elem_of_nil|].
      intros Hk. destruct (H2 k x Hk) as [d Hd]. congruence.
    + rewrite lookup_insert_ne in Hd by done. by apply H1.
  - intros k y Hk. destruct (decide (y = x)) as [->|]; [rewrite lookup_insert_eq; by eexists|]. rewrite lookup_insert_ne by done. by eapply H2.
Qed.

Lemma owns_register f m h x c c' k : owns f m h -> m !! k = None -> h !! x = Some c -> f c' = k :: f c -> owns f (<[k := x]> m) (<[x := c']> h).
Proof.
  intros [H1 H2] Hk Hx Hf. split.
  - intros y d Hd. destruct (decide (y = x)) as [->|Hne].
    + rewrite lookup_insert_eq in Hd. injection Hd as <-. destruct (H1 x c Hx) as [Hnd Hin]. rewrite Hf. split.
      * constructor; [|done]. rewrite Hin. congruence.
      * intros k'. rewrite elem_of_cons, Hin, lookup_insert_Some. destruct (decide (k' = k)) as [->|]; naive_solver congruence.
    + rewrite lookup_insert_ne in Hd by done. destruct (H1 y d Hd) as [Hnd Hin]. split; [done|]. intros k'. rewrite Hin, lookup_insert_Some.
      destruct (decide (k' = k)) as [->|]; naive_solver congruence.
  - intros k' y Hy. apply lookup_insert_is_Some. destruct (decide (x = y)) as [|Hne]; [by left|right]. split; [done|]. apply lookup_insert_Some in Hy as [[_ ->]|[_ Hy]]; [done|by eapply H2].
Qed.

(** The ids that pointed to [x]. *)
Definition without (x : pointer) (m : gmap key pointer) : gmap key pointer := filter (fun kv => kv.2 <> x) m.

Lemma owns_delete f m h x c : owns f m h -> h !! x = Some c -> owns f (without x m) (delete x h).
Proof.
  intros [H1 H2] Hx. split.
  - intros y d Hd. apply lookup_delete_Some in Hd as [Hne Hd]. destruct (H1 y d Hd) as [Hnd Hin]. split; [done|]. intros k. rewrite Hin. unfold without.
    rewrite map_lookup_filter_Some. cbn. naive_solver.
  - intros k y Hk. apply map_lookup_filter_Some in Hk as [Hk Hne]. cbn in Hne. rewrite lookup_delete_ne by done. by eapply H2.
Qed.

Lemma unregister_ok hash compare (Hc : forall k1 k2, compare k1 k2 = true <-> k1 = k2) l : forall t m, Containers.table_of hash t m ->
  exists t', unregister hash compare l t = Some t' /\ Containers.table_of hash t' (foldl (fun m k => delete k m) m l).
Proof.
  induction l as [|k l IH]; intros t m H; cbn [unregister foldl]; [by exists t|].
  destruct (Containers.retrieve_ok hash compare Hc t m k H) as (r & -> & Hv & Hr). cbn [mbind option_bind]. destruct r as [it|].
  - destruct (Hr it eq_refl) as [Hk Hh]. destruct (Containers.delete_item_ok hash t m it k H Hk Hh) as (t1 & -> & H1 & _). cbn [mbind option_bind]. by apply IH.
  - cbn [mbind option_bind]. rewrite delete_id by done. by apply IH.
Qed.

Lemma lookup_delete_all (l : list key) : forall (m : gmap key pointer) k, foldl (fun m k => delete k m) m l !! k = if bool_decide (k ∈ l) then None else m !! k.
Proof.
  induction l as [|a l IH]; intros m k; cbn [foldl]; [by rewrite bool_decide_false by (by apply not_elem_of_nil)|]. rewrite IH. destruct (decide (k = a)) as [->|Hne].
  - rewrite lookup_delete_eq, (bool_decide_true (a ∈ a :: l)) by (by left). by case_bool_decide.
  - rewrite lookup_delete_ne by done. do 2 case_bool_decide; set_solver.
Qed.

Lemma delete_chain f m h x c : owns f m h -> h !! x = Some c -> foldl (fun m k => delete k m) m (f c) = without x m.
Proof.
  intros [H1 _] Hx. apply map_eq. intros k. rewrite lookup_delete_all. destruct (H1 x c Hx) as [_ Hin]. case_bool_decide as Hk.
  - apply Hin in Hk. symmetry. apply map_lookup_filter_None. right. intros y Hy. cbn. intros ?. congruence.
  - destruct (m !! k) as [y|] eqn:E; symmetry.
    + apply map_lookup_filter_Some. split; [done|]. cbn. intros ->. apply Hk. by apply Hin.
    + apply map_lookup_filter_None. by left.
Qed.

(** A registration takes a key that is not in use. *)
Definition registered (ok : bool) (k : key) (x : pointer) (m : gmap key pointer) : gmap key pointer :=
  if ok && bool_decide (m !! k = None) then <[k := x]> m else m.

Definition result (ok : bool) (k : key) (m : gmap key pointer) : Z := if ok && bool_decide (m !! k = None) then 0 else -1.

Lemma register_cnx_id_ok q a key_ok item_ok x id : represents q a -> x ∈ order a ->
  exists q', picoquic_register_cnx_id key_ok item_ok q x id = Some (result (key_ok && item_ok) id (by_id a), q') /\
    represents q' (Abs (order a) (wakes a) (registered (key_ok && item_ok) id x (by_id a)) (by_net a)).
Proof.
  intros H Hx. destruct a as [ord wk m m']. cbn [order wakes by_id by_net] in *. unfold picoquic_register_cnx_id, result, registered.
  destruct key_ok; [|by exists q]. destruct (Containers.retrieve_ok _ _ id_compare_ok _ _ id (rp_id_table _ _ H)) as (r & -> & Hv & _).
  cbn [mbind option_bind andb by_id] in *. destruct r as [it|]; cbn [fmap option_fmap option_map] in Hv.
  { rewrite bool_decide_false by (rewrite <- Hv; done). rewrite andb_false_r. by exists q. }
  rewrite bool_decide_true by done. rewrite andb_true_r. destruct item_ok; [|exists q; split; [by destruct q|done]].
  destruct (Containers.insert_item_ok id_hash _ _ id x (rp_id_table _ _ H) (eq_sym Hv)) as (t & -> & Ht & _). cbn [mbind option_bind]. change (0 =? 0) with true. cbn iota.
  destruct H as [Hl Hp Hd Hi Hn Hti Htn]. cbn [order wakes by_id by_net] in *.
  destruct (heap q !! x) as [c|] eqn:Hc; [|exfalso; apply not_elem_of_dom in Hc; apply Hc; rewrite Hd; by apply elem_of_list_to_set].
  unfold update. rewrite Hc. cbn [mbind option_bind]. eexists. split; [reflexivity|]. split; cbn [order wakes by_id by_net set_heap set_id_table heap table_cnx_by_id table_cnx_by_net]; try done.
  - eapply lists_ok_core; [exact Hl| |done..]. by eapply fmap_update.
  - rewrite dom_insert_lookup_L by (by eexists). done.
  - by eapply owns_register.
  - eapply owns_same; [|exact Hn]. by eapply fmap_update.
Qed.

Lemma register_net_id_ok q a key_ok item_ok x addr : represents q a -> x ∈ order a ->
  let k := picoquic_set_hash_key_by_address addr in
  exists q', picoquic_register_net_id key_ok item_ok q x addr = Some (result (key_ok && item_ok) k (by_net a), q') /\
    represents q' (Abs (order a) (wakes a) (by_id a) (registered (key_ok && item_ok) k x (by_net a))).
Proof.
  intros H Hx k. destruct a as [ord wk m m']. cbn [order wakes by_id by_net] in *. unfold picoquic_register_net_id, result, registered. fold k.
  destruct key_ok; [|by exists q]. destruct (Containers.retrieve_ok _ _ net_compare_ok _ _ k (rp_net_table _ _ H)) as (r & -> & Hv & _).
  cbn [mbind option_bind andb by_net] in *. destruct r as [it|]; cbn [fmap option_fmap option_map] in Hv.
  { rewrite bool_decide_false by (rewrite <- Hv; done). rewrite andb_false_r. by exists q. }
  rewrite bool_decide_true by done. rewrite andb_true_r. destruct item_ok; [|exists q; split; [by destruct q|done]].
  destruct (Containers.insert_item_ok net_hash _ _ k x (rp_net_table _ _ H) (eq_sym Hv)) as (t & -> & Ht & _). cbn [mbind option_bind]. change (0 =? 0) with true. cbn iota.
  destruct H as [Hl Hp Hd Hi Hn Hti Htn]. cbn [order wakes by_id by_net] in *.
  destruct (heap q !! x) as [c|] eqn:Hc; [|exfalso; apply not_elem_of_dom in Hc; apply Hc; rewrite Hd; by apply elem_of_list_to_set].
  unfold update. rewrite Hc. cbn [mbind option_bind]. eexists. split; [reflexivity|]. split; cbn [order wakes by_id by_net set_heap set_net_table heap table_cnx_by_id table_cnx_by_net]; try done.
  - eapply lists_ok_core; [exact Hl| |done..]. by eapply fmap_update.
  - rewrite dom_insert_lookup_L by (by eexists). done.
  - eapply owns_same; [|exact Hi]. by eapply fmap_update.
  - by eapply owns_register.
Qed.

(** *** The operations on the whole context *)

Definition drop_order (x : pointer) (l : list pointer) : list pointer := filter (fun y => y <> x) l.
Definition drop_wake (x : pointer) (l : list (pointer * Z)) : list (pointer * Z) := filter (fun y => y.1 <> x) l.

Lemma filter_none {A} (P : A -> Prop) `{!forall a, Decision (P a)} (l : list A) : (forall a, a ∈ l -> P a) -> filter P l = l.
Proof.
  induction l as [|a l IH]; intros Hall; [done|]. rewrite filter_cons_True by (apply Hall; left). f_equal. apply IH. intros b Hb. apply Hall. by right.
Qed.

Lemma drop_order_split x l1 l2 : NoDup (l1 ++ x :: l2) -> drop_order x (l1 ++ x :: l2) = l1 ++ l2.
Proof.
  intros Hnd. destruct (NoDup_without _ _ _ Hnd) as [_ Hx]. unfold drop_order. rewrite filter_app, filter_cons_False by (intros H; by apply H).
  f_equal; apply filter_none; intros a Ha ->; apply Hx, elem_of_app; auto.
Qed.

Lemma wake_without x t (w1 w2 : list (pointer * Z)) : NoDup (w1 ++ (x, t) :: w2).*1 -> NoDup (w1 ++ w2).*1 /\ x ∉ (w1 ++ w2).*1.
Proof. rewrite !fmap_app. apply NoDup_without. Qed.

Lemma drop_wake_split x t w1 w2 : NoDup (w1 ++ (x, t) :: w2).*1 -> drop_wake x (w1 ++ (x, t) :: w2) = w1 ++ w2.
Proof.
  intros Hnd. destruct (wake_without _ _ _ _ Hnd) as [_ Hx]. rewrite fmap_app in Hx. unfold drop_wake. rewrite filter_app, filter_cons_False by (intros H; by apply H).
  f_equal; apply filter_none; intros [a s] Ha E; cbn in E; subst a; apply Hx, elem_of_app; [left|right]; apply list_elem_of_fmap; by exists (x, s).
Qed.

Lemma wake_entry (wk : list (pointer * Z)) x : x ∈ wk.*1 -> exists w1 t w2, wk = w1 ++ (x, t) :: w2.
Proof. intros ([y t] & -> & Hin)%list_elem_of_fmap. apply list_elem_of_split in Hin as (w1 & w2 & ->). by exists w1, t, w2. Qed.

Lemma insert_wake_perm x t l : (insert_wake x t l).*1 ≡ₚ x :: l.*1.
Proof.
  destruct (insert_wake_split x t l) as (l1 & l2 & -> & -> & _). rewrite !fmap_app. cbn. by rewrite Permutation_middle.
Qed.

Lemma same_payload_dom h h' : same_payload h h' -> dom h' = dom h.
Proof.
  intros Hs. apply set_eq. intros y. specialize (Hs y). rewrite !elem_of_dom. destruct (h !! y), (h' !! y); try done; split; intros [? ?]; done.
Qed.

Lemma owns_payload h h' m : same_payload h h' -> (owns first_cnx_id m h -> owns first_cnx_id m h') /\ (owns first_net_id m h -> owns first_net_id m h').
Proof.
  intros Hs. split; apply owns_same; intros y; [exact (fmap_factor payload (fun p => p.1.2) _ _ (Hs y))|exact (fmap_factor payload (fun p => p.2) _ _ (Hs y))].
Qed.

Lemma same_payload_trans h1 h2 h3 : same_payload h1 h2 -> same_payload h2 h3 -> same_payload h1 h3.
Proof. intros H1 H2 y. by rewrite (H2 y). Qed.

Lemma live_lookup q a x : represents q a -> x ∈ order a -> exists c, heap q !! x = Some c.
Proof. intros H Hx. apply elem_of_dom. rewrite (rp_heap _ _ H). by apply elem_of_list_to_set. Qed.

(** The wake time of a connection that is in no wake list. *)
Lemma set_time_ok q ord wk x c t : lists_ok q ord wk -> x ∉ wk.*1 -> heap q !! x = Some c -> lists_ok (set_heap (<[x := set_wake_time t c]> (heap q)) q) ord wk.
Proof.
  intros [Ht He Hw Hwe Htm Hnd Hndw] Hx Hc. split; cbn [set_heap heap cnx_list cnx_last cnx_wake_first cnx_wake_last]; try done.
  - eapply linked_same; [|done]. by eapply fmap_update.
  - eapply linked_same; [|done]. by eapply fmap_update.
  - intros y s Hin. rewrite lookup_insert_ne; [by apply Htm|]. intros <-. apply Hx, list_elem_of_fmap. by exists (x, s).
Qed.

Lemma reinsert_ok q a x t : represents q a -> x ∈ order a ->
  exists q', picoquic_reinsert_by_wake_time q x t = Some q' /\ represents q' (Abs (order a) (insert_wake x t (drop_wake x (wakes a))) (by_id a) (by_net a)).
Proof.
  intros H Hx. destruct (live_lookup q a x H Hx) as [c Hc]. destruct H as [Hl Hp Hd Hi Hn Hti Htn]. rewrite <- Hp in Hx. destruct (wake_entry _ _ Hx) as (w1 & s & w2 & Ew).
  unfold picoquic_reinsert_by_wake_time. rewrite Ew in Hl. destruct (remove_from_wake_list_ok _ _ _ _ _ _ Hl) as (q1 & -> & Hl1 & Hs1 & Ht1). cbn [mbind option_bind].
  assert (Hnd : NoDup (w1 ++ (x, s) :: w2).*1) by apply Hl. rewrite Ew, (drop_wake_split _ _ _ _ Hnd). destruct (wake_without _ _ _ _ Hnd) as [_ Hx1].
  specialize (Hs1 x) as Hc1. rewrite Hc in Hc1. destruct (heap q1 !! x) as [c1|] eqn:E1; [|done]. unfold update. rewrite E1. cbn [mbind option_bind].
  set (q2 := set_heap (<[x := set_wake_time t c1]> (heap q1)) q1).
  destruct (insert_by_wake_time_ok q2 (order a) (w1 ++ w2) x (set_wake_time t c1)) as (q3 & E3 & Hl3 & Hs3 & Ht3); [by apply set_time_ok|done|apply lookup_insert_eq|].
  exists q3. split; [done|]. change (next_wake_time (set_wake_time t c1)) with t in Hl3. destruct Ht1 as [Ha1 Hb1], Ht3 as [Ha3 Hb3].
  assert (Hids : forall f : cnx -> list key, (forall c, f (set_wake_time t c) = f c) -> forall m, owns f m (heap q1) -> owns f m (heap q2)).
  { intros f Hf m. apply owns_same. eapply fmap_update; [done|apply Hf]. }
  split; cbn [order wakes by_id by_net].
  - done.
  - rewrite insert_wake_perm, <- Hp, Ew, !fmap_app. cbn. by rewrite Permutation_middle.
  - rewrite (same_payload_dom _ _ Hs3). cbn [q2 set_heap heap]. rewrite dom_insert_lookup_L by (by eexists). by rewrite (same_payload_dom _ _ Hs1).
  - apply (owns_payload _ _ _ Hs3). apply Hids; [done|]. by apply (owns_payload _ _ _ Hs1).
  - apply (owns_payload _ _ _ Hs3). apply Hids; [done|]. by apply (owns_payload _ _ _ Hs1).
  - by rewrite Ha3; cbn; rewrite Ha1.
  - by rewrite Hb3; cbn; rewrite Hb1.
Qed.

(** Freeing a connection that is in no list. *)
Lemma free_node_ok q ord wk x : lists_ok q ord wk -> x ∉ ord -> x ∉ wk.*1 -> lists_ok (set_heap (delete x (heap q)) q) ord wk.
Proof.
  intros [Ht He Hw Hwe Htm Hnd Hndw] Hx Hxw. split; cbn [set_heap heap cnx_list cnx_last cnx_wake_first cnx_wake_last]; try done.
  - eapply linked_frame; [|done]. intros y Hy. apply lookup_delete_ne. by intros ->.
  - eapply linked_frame; [|done]. intros y Hy. apply lookup_delete_ne. by intros ->.
  - intros y s Hin. rewrite lookup_delete_ne; [by apply Htm|]. intros <-. apply Hxw, list_elem_of_fmap. by exists (x, s).
Qed.

Lemma same_except f h h' x c' m : (forall y, f <$> h' !! y = f <$> <[x := c']> h !! y) -> owns f m (delete x h) -> owns f m (delete x h').
Proof.
  intros Hs. apply owns_same. intros y. destruct (decide (y = x)) as [->|]; [by rewrite !lookup_delete_eq|]. rewrite !lookup_delete_ne by done. rewrite Hs. by rewrite lookup_insert_ne.
Qed.

Lemma delete_cnx_ok q a x : represents q a -> x ∈ order a ->
  exists q', picoquic_delete_cnx q x = Some q' /\
    represents q' (Abs (drop_order x (order a)) (drop_wake x (wakes a)) (without x (by_id a)) (without x (by_net a))).
Proof.
  intros H Hx. destruct (live_lookup q a x H Hx) as [c Hc]. destruct a as [ord wk m m']. destruct H as [Hl Hp Hd Hi Hn Hti Htn]. cbn [order wakes by_id by_net] in *.
  assert (Hxw : x ∈ wk.*1) by (by rewrite Hp). destruct (wake_entry _ _ Hxw) as (w1 & s & w2 & ->). apply list_elem_of_split in Hx as (l1 & l2 & ->).
  unfold picoquic_delete_cnx. rewrite Hc. cbn [mbind option_bind].
  destruct (unregister_ok id_hash id_compare id_compare_ok (first_cnx_id c) _ _ Hti) as (t & -> & Ht). rewrite (delete_chain first_cnx_id m _ x c Hi Hc) in Ht.
  destruct (unregister_ok net_hash net_compare net_compare_ok (first_net_id c) _ _ Htn) as (t' & -> & Ht'). rewrite (delete_chain first_net_id m' _ x c Hn Hc) in Ht'.
  cbn [mbind option_bind]. set (c1 := set_net_ids [] (set_cnx_ids [] c)). set (q1 := set_net_table t' (set_id_table t (set_heap (<[x := c1]> (heap q)) q))).
  assert (Hl1 : lists_ok q1 (l1 ++ x :: l2) (w1 ++ (x, s) :: w2)) by (eapply lists_ok_core; [exact Hl| |done..]; by eapply fmap_update).
  rewrite (drop_order_split _ _ _ (lk_nodup _ _ _ Hl)), (drop_wake_split _ _ _ _ (lk_nodup_wake _ _ _ Hl)).
  destruct (NoDup_without _ _ _ (lk_nodup _ _ _ Hl)) as [_ Hxo]. destruct (wake_without _ _ _ _ (lk_nodup_wake _ _ _ Hl)) as [_ Hxw'].
  destruct (remove_from_list_ok _ _ _ _ _ Hl1) as (q2 & -> & Hl2 & Hs2 & [Ha2 Hb2]). cbn [mbind option_bind].
  destruct (remove_from_wake_list_ok _ _ _ _ _ _ Hl2) as (q3 & -> & Hl3 & Hs3 & [Ha3 Hb3]). cbn [mbind option_bind]. eexists. split; [reflexivity|].
  pose proof (same_payload_trans _ _ _ Hs2 Hs3) as Hs.
  split; cbn [order wakes by_id by_net set_heap heap table_cnx_by_id table_cnx_by_net].
  - by apply free_node_ok.
  - rewrite fmap_app in Hp |- *. cbn in Hp. rewrite <- !Permutation_middle in Hp. by apply Permutation_cons_inv in Hp.
  - rewrite dom_delete_L, (same_payload_dom _ _ Hs). cbn [q1 heap set_net_table set_id_table set_heap]. rewrite dom_insert_lookup_L by (by eexists). rewrite Hd, list_to_set_app_L, list_to_set_cons.
    rewrite list_to_set_app_L. assert (x ∉ (list_to_set l1 : gset pointer)) by (rewrite elem_of_list_to_set; set_solver). assert (x ∉ (list_to_set l2 : gset pointer)) by (rewrite elem_of_list_to_set; set_solver). set_solver.
  - eapply (same_except _ (heap q) _ x c1); [intros y; exact (fmap_factor payload (fun p => p.1.2) _ _ (Hs y))|]. by eapply owns_delete.
  - eapply (same_except _ (heap q) _ x c1); [intros y; exact (fmap_factor payload (fun p => p.2) _ _ (Hs y))|]. by eapply owns_delete.
  - by rewrite Ha3, Ha2.
  - by rewrite Hb3, Hb2.
Qed.

Definition delete_spec (x : pointer) (a : abstract) : abstract :=
  Abs (drop_order x (order a)) (drop_wake x (wakes a)) (without x (by_id a)) (without x (by_net a)).

(** A new connection: it is the first of the list, it is in the wake list, and if all goes well it has its id and its address. *)
Definition create_spec (plugins_ok tls_ok id_ok net_ok : bool) (x : pointer) (start_time : Z) (local_cnxid : key) (addr : option PacketIn.sockaddr) (a : abstract) : abstract :=
  let a1 := Abs (x :: order a) (insert_wake x start_time (wakes a)) (by_id a) (by_net a) in
  if negb plugins_ok then a1
  else if negb tls_ok then a
  else Abs (order a1) (wakes a1)
         (if negb (Packet.picoquic_is_connection_id_null local_cnxid) then registered id_ok local_cnxid x (by_id a) else by_id a)
         (match addr with Some s => registered net_ok (picoquic_set_hash_key_by_address s) x (by_net a) | None => by_net a end).

Lemma alloc_node_ok q ord wk x c : lists_ok q ord wk -> heap q !! x = None -> lists_ok (set_heap (<[x := c]> (heap q)) q) ord wk.
Proof.
  intros [Ht He Hw Hwe Htm Hnd Hndw] Hx. split; cbn [set_heap heap cnx_list cnx_last cnx_wake_first cnx_wake_last]; try done.
  - eapply linked_frame; [|done]. intros y Hy. apply lookup_insert_ne. intros <-. destruct (linked_lookup _ _ _ _ x Ht Hy). congruence.
  - eapply linked_frame; [|done]. intros y Hy. apply lookup_insert_ne. intros <-. destruct (linked_lookup _ _ _ _ x Hw Hy). congruence.
  - intros y s Hin. rewrite lookup_insert_ne; [by apply Htm|]. intros <-. specialize (Htm x s Hin). by rewrite Hx in Htm.
Qed.

(** The first part of the creation. *)
Lemma link_new_ok q a x t : represents q a -> x ∉ order a ->
  exists q' q'', picoquic_insert_cnx_in_list (set_heap (<[x := Cnx None None None None t [] []]> (heap q)) q) x = Some q' /\
    picoquic_insert_cnx_by_wake_time q' x = Some q'' /\ represents q'' (Abs (x :: order a) (insert_wake x t (wakes a)) (by_id a) (by_net a)).
Proof.
  intros [Hl Hp Hd Hi Hn Hti Htn] Hx. set (c0 := Cnx None None None None t [] []). set (q0 := set_heap (<[x := c0]> (heap q)) q).
  assert (Hfresh : heap q !! x = None) by (apply not_elem_of_dom; by rewrite Hd, elem_of_list_to_set).
  destruct (insert_in_list_ok q0 (order a) (wakes a) x c0) as (q1 & E1 & Hl1 & Hs1 & [Ha1 Hb1]); [by apply alloc_node_ok|done|apply lookup_insert_eq|].
  specialize (Hs1 x) as Hc1. cbn [q0 set_heap heap] in Hc1. rewrite lookup_insert_eq in Hc1. destruct (heap q1 !! x) as [c1|] eqn:Ec1; [|done].
  destruct (insert_by_wake_time_ok q1 (x :: order a) (wakes a) x c1 Hl1) as (q2 & E2 & Hl2 & Hs2 & [Ha2 Hb2]); [by rewrite Hp|done|].
  exists q1, q2. split; [done|]. split; [done|]. assert (Et : next_wake_time c1 = t) by (by injection Hc1). rewrite Et in Hl2.
  pose proof (same_payload_trans _ _ _ Hs1 Hs2) as Hs. split; cbn [order wakes by_id by_net].
  - done.
  - by rewrite insert_wake_perm, Hp.
  - rewrite (same_payload_dom _ _ Hs). cbn [q0 set_heap heap]. by rewrite dom_insert_L, Hd.
  - apply (owns_payload _ _ _ Hs). by apply owns_new.
  - apply (owns_payload _ _ _ Hs). by apply owns_new.
  - by rewrite Ha2, Ha1.
  - by rewrite Hb2, Hb1.
Qed.

Lemma without_fresh f m h x : owns f m h -> h !! x = None -> without x m = m.
Proof.
  intros [_ H2] Hx. apply map_eq. intros k. unfold without. destruct (m !! k) as [y|] eqn:E.
  - apply map_lookup_filter_Some. split; [done|]. cbn. intros ->. destruct (H2 k x E). congruence.
  - apply map_lookup_filter_None. by left.
Qed.

(** Creating and deleting a connection leaves what was there. *)
Lemma delete_new q a x t : represents q a -> x ∉ order a -> delete_spec x (Abs (x :: order a) (insert_wake x t (wakes a)) (by_id a) (by_net a)) = a.
Proof.
  intros [Hl Hp Hd Hi Hn _ _] Hx. assert (Hfresh : heap q !! x = None) by (apply not_elem_of_dom; by rewrite Hd, elem_of_list_to_set).
  destruct a as [ord wk m m']. unfold delete_spec. cbn [order wakes by_id by_net] in *. f_equal.
  - apply (drop_order_split x [] ord). cbn. constructor; [done|]. apply Hl.
  - destruct (insert_wake_split x t wk) as (w1 & w2 & -> & -> & _). apply drop_wake_split. rewrite fmap_app. cbn. rewrite <- Permutation_middle, <- fmap_app.
    constructor; [by rewrite Hp|apply Hl].
  - by eapply without_fresh.
  - by eapply without_fresh.
Qed.

Lemma create_cnx_ok q a plugins_ok tls_ok idm netm x t id addr : represents q a -> x ∉ order a ->
  exists q', picoquic_create_cnx plugins_ok tls_ok idm netm q x t id addr = Some (plugins_ok && tls_ok, q') /\
    represents q' (create_spec plugins_ok tls_ok (idm.1 && idm.2) (netm.1 && netm.2) x t id addr a).
Proof.
  intros H Hx. unfold picoquic_create_cnx, create_spec. destruct (link_new_ok q a x t H Hx) as (q1 & q2 & E1 & E2 & H2). rewrite E1. cbn [mbind option_bind]. rewrite E2. cbn [mbind option_bind].
  set (a1 := Abs (x :: order a) _ _ _) in *. assert (Hx1 : x ∈ order a1) by left. destruct plugins_ok; cbn [negb andb]; [|by exists q2]. destruct tls_ok; cbn [negb andb].
  2: { destruct (delete_cnx_ok q2 a1 x H2 Hx1) as (q3 & -> & H3). cbn [mbind option_bind]. exists q3. split; [done|]. pose proof (delete_new q a x t H Hx) as Ed. unfold delete_spec in Ed. fold a1 in Ed. by rewrite Ed in H3. }
  assert (exists r q3, (if negb (Packet.picoquic_is_connection_id_null id) then picoquic_register_cnx_id idm.1 idm.2 q2 x id else Some (0, q2)) = Some (r, q3) /\
    represents q3 (Abs (order a1) (wakes a1) (if negb (Packet.picoquic_is_connection_id_null id) then registered (idm.1 && idm.2) id x (by_id a) else by_id a) (by_net a))) as (r & q3 & -> & H3).
  { destruct (negb _); [|by eexists _, q2]. destruct (register_cnx_id_ok q2 a1 idm.1 idm.2 x id H2 Hx1) as (q3 & -> & H3). by eexists _, q3. }
  cbn [mbind option_bind]. destruct addr as [s|]; [|by exists q3].
  destruct (register_net_id_ok q3 _ netm.1 netm.2 x s H3 Hx1) as (q4 & -> & H4). by exists q4.
Qed.

(** ** Sequences of operations *)

Inductive operation :=
  | Create (plugins_ok tls_ok : bool) (id_mallocs net_mallocs : bool * bool) (x : pointer) (start_time : Z) (local_cnxid : key) (addr : option PacketIn.sockaddr)
  | RegisterId (key_ok item_ok : bool) (x : pointer) (id : key)
  | RegisterNet (key_ok item_ok : bool) (x : pointer) (addr : PacketIn.sockaddr)
  | Reinsert (x : pointer) (next_time : Z)
  | Delete (x : pointer).

Definition run (q : quic) (o : operation) : option quic :=
  match o with
  | Create p t im nm x start id addr => '(_, q) ← picoquic_create_cnx p t im nm q x start id addr; Some q
  | RegisterId k i x id => '(_, q) ← picoquic_register_cnx_id k i q x id; Some q
  | RegisterNet k i x addr => '(_, q) ← picoquic_register_net_id k i q x addr; Some q
  | Reinsert x t => picoquic_reinsert_by_wake_time q x t
  | Delete x => picoquic_delete_cnx q x
  end.

Fixpoint run_all (q : quic) (ops : list operation) : option quic :=
  match ops with [] => Some q | o :: ops => q ← run q o; run_all q ops end.

Definition spec (a : abstract) (o : operation) : abstract :=
  match o with
  | Create p t im nm x start id addr => create_spec p t (im.1 && im.2) (nm.1 && nm.2) x start id addr a
  | RegisterId k i x id => Abs (order a) (wakes a) (registered (k && i) id x (by_id a)) (by_net a)
  | RegisterNet k i x addr => Abs (order a) (wakes a) (by_id a) (registered (k && i) (picoquic_set_hash_key_by_address addr) x (by_net a))
  | Reinsert x t => Abs (order a) (insert_wake x t (drop_wake x (wakes a))) (by_id a) (by_net a)
  | Delete x => delete_spec x a
  end.

(** A block that malloc returns is not in use, and the others are connections of the context. *)
Definition proper (a : abstract) (o : operation) : bool :=
  match o with
  | Create _ _ _ _ x _ _ _ => bool_decide (x ∉ order a)
  | RegisterId _ _ x _ | RegisterNet _ _ x _ | Reinsert x _ | Delete x => bool_decide (x ∈ order a)
  end.

Fixpoint all_proper (a : abstract) (ops : list operation) : bool :=
  match ops with [] => true | o :: ops => proper a o && all_proper (spec a o) ops end.

Definition sorted_wakes (a : abstract) : Prop := StronglySorted (fun y z => y.2 <= z.2) (wakes a).

Lemma insert_wake_sorted x t l : StronglySorted (fun y z : pointer * Z => y.2 <= z.2) l -> StronglySorted (fun y z => y.2 <= z.2) (insert_wake x t l).
Proof.
  induction l as [|[y s] l IH]; intros Hs; cbn [insert_wake]; [repeat constructor|]. inversion_clear Hs as [|? ? Hl Hy]. destruct (Z.leb_spec s t).
  - constructor; [by apply IH|]. destruct (insert_wake_split x t l) as (l1 & l2 & -> & -> & _ & _). rewrite list.Forall_app in Hy |- *. destruct Hy. split; [done|]. constructor; [done|done].
  - constructor; [by constructor|]. constructor; [cbn; lia|]. eapply list.Forall_impl; [exact Hy|]. cbn. intros. lia.
Qed.

Lemma drop_wake_sorted x l : StronglySorted (fun y z : pointer * Z => y.2 <= z.2) l -> StronglySorted (fun y z => y.2 <= z.2) (drop_wake x l).
Proof.
  unfold drop_wake. induction 1 as [|y l Hl IH Hy]; [constructor|]. rewrite filter_cons. destruct (decide _); [|done]. constructor; [done|].
  apply list.Forall_forall. intros z [_ Hz]%list_elem_of_filter. by eapply list.Forall_forall in Hy.
Qed.

Lemma spec_sorted a o : sorted_wakes a -> sorted_wakes (spec a o).
Proof.
  unfold sorted_wakes. intros Hs. destruct o as [p t im nm x start id addr| | |x t|x]; cbn [spec wakes delete_spec]; try done.
  - unfold create_spec. destruct p, t; cbn [negb wakes]; try done; by apply insert_wake_sorted.
  - by apply insert_wake_sorted, drop_wake_sorted.
  - by apply drop_wake_sorted.
Qed.

Lemma run_ok q a o : represents q a -> proper a o = true -> exists q', run q o = Some q' /\ represents q' (spec a o).
Proof.
  intros H Hp. destruct o as [p t im nm x start id addr|k i x id|k i x addr|x t|x]; cbn [proper run spec] in *; apply bool_decide_eq_true in Hp.
  - destruct (create_cnx_ok q a p t im nm x start id addr H Hp) as (q' & -> & H'). by exists q'.
  - destruct (register_cnx_id_ok q a k i x id H Hp) as (q' & -> & H'). by exists q'.
  - destruct (register_net_id_ok q a k i x addr H Hp) as (q' & -> & H'). by exists q'.
  - by apply reinsert_ok.
  - by apply delete_cnx_ok.
Qed.

Lemma run_all_ok ops : forall q a, represents q a -> sorted_wakes a -> all_proper a ops = true ->
  exists q', run_all q ops = Some q' /\ represents q' (foldl spec a ops) /\ sorted_wakes (foldl spec a ops).
Proof.
  induction ops as [|o ops IH]; intros q a H Hs Hp; cbn [run_all foldl]; [by exists q|]. cbn in Hp. apply andb_true_iff in Hp as [Ho Hp].
  destruct (run_ok q a o H Ho) as (q1 & -> & H1). cbn [mbind option_bind]. apply IH; [done|by apply spec_sorted|done].
Qed.

Definition empty : abstract := Abs [] [] ∅ ∅.

Lemma owns_empty f : owns f ∅ ∅.
Proof. split; [intros x c Hc; by rewrite lookup_empty in Hc|intros k x Hk; by rewrite lookup_empty in Hk]. Qed.

Lemma create_context_ok n : 0 < n < 2 ^ 30 -> exists q, picoquic_create n = Some q /\ represents q empty.
Proof.
  intros Hn. eexists. split; [reflexivity|]. assert (Hu : u32 (n * 4) = n * 4) by (apply u32_small; lia).
  split; cbn -[dom]; [| done | apply dom_empty_L | | | |].
  - split; cbn; [done|by split|done|by split| |constructor|constructor]. intros x t Hin. by apply elem_of_nil in Hin.
  - apply owns_empty.
  - apply owns_empty.
  - rewrite Hu. apply Containers.create_table_ok. lia.
  - rewrite Hu. apply Containers.create_table_ok. lia.
Qed.

Lemma by_id_ok q a id : represents q a -> picoquic_cnx_by_id q id = Some (by_id a !! id).
Proof.
  intros H. unfold picoquic_cnx_by_id. destruct (Containers.retrieve_ok _ _ id_compare_ok _ _ id (rp_id_table _ _ H)) as (r & -> & <- & _). by destruct r.
Qed.

Lemma by_net_ok q a addr : represents q a -> picoquic_cnx_by_net q addr = Some (by_net a !! picoquic_set_hash_key_by_address addr).
Proof.
  intros H. unfold picoquic_cnx_by_net. destruct (Containers.retrieve_ok _ _ net_compare_ok _ _ (picoquic_set_hash_key_by_address addr) (rp_net_table _ _ H)) as (r & -> & <- & _). by destruct r.
Qed.

Lemma wake_head q a : represents q a -> cnx_wake_first q = fst <$> hd_error (wakes a) /\ forall x t l, wakes a = (x, t) :: l -> exists c, heap q !! x = Some c /\ next_wake_time c = t.
Proof.
  intros H. destruct (rp_lists _ _ H) as [_ _ _ [Hf _] Htm _ _]. split; [rewrite Hf; by destruct (wakes a) as [|[x t] l]|].
  intros x t l E. rewrite E in Htm. specialize (Htm x t ltac:(left)). destruct (heap q !! x) as [c|]; [|done]. exists c. split; [done|]. by injection Htm.
Qed.

Lemma earliest_ok q a max_wake_time : represents q a ->
  picoquic_get_earliest_cnx_to_wake q max_wake_time =
  Some (match wakes a with [] => None | (x, t) :: _ => if negb (max_wake_time =? 0) && (max_wake_time <? t) then None else Some x end).
Proof.
  intros H. destruct (wake_head q a H) as [Hf Hh]. unfold picoquic_get_earliest_cnx_to_wake. rewrite Hf. destruct (wakes a) as [|[x t] l] eqn:E; [done|].
  destruct (Hh x t l eq_refl) as (c & Hc & Ht). cbn. rewrite Hc. cbn. by rewrite Ht.
Qed.

(** The delay is right as long as the first wake time is less than 2^63 microseconds away. *)
Lemma delay_ok q a current_time delay_max : represents q a -> 0 <= delay_max -> Forall (fun y => y.2 - current_time < 2 ^ 63) (wakes a) ->
  picoquic_get_next_wake_delay q current_time delay_max =
  Some (match wakes a with [] => delay_max | (_, t) :: _ => Z.min delay_max (Z.max 0 (t - current_time)) end).
Proof.
  intros H Hd Hr. destruct (wake_head q a H) as [Hf Hh]. unfold picoquic_get_next_wake_delay. rewrite Hf. destruct (wakes a) as [|[x t] l] eqn:E; [done|].
  destruct (Hh x t l eq_refl) as (c & Hc & Ht). cbn. rewrite Hc. cbn. rewrite Ht. f_equal. apply list.Forall_cons in Hr as [Hr _]. cbn in Hr.
  destruct (Z.ltb_spec current_time t); [|lia]. rewrite u64_small, s64_small by lia. destruct (Z.ltb_spec delay_max (t - current_time)); lia.
Qed.

Lemma owned_live q a : represents q a -> (forall k x, by_id a !! k = Some x -> x ∈ order a) /\ (forall k x, by_net a !! k = Some x -> x ∈ order a).
Proof.
  intros [_ _ Hd [_ Hi] [_ Hn] _ _].
  split; intros k x Hk; apply (elem_of_list_to_set (C := gset pointer)); rewrite <- Hd; apply elem_of_dom; [by eapply Hi|by eapply Hn].
Qed.

(** The wake time of a connection of the context. *)
Definition wakes_at (q : quic) (x : pointer) : option Z := next_wake_time <$> heap q !! x.

Lemma wakes_at_sorted q a x t l : represents q a -> sorted_wakes a -> wakes a = (x, t) :: l -> forall y s, y ∈ order a -> wakes_at q y = Some s -> t <= s.
Proof.
  intros H Hs E y s Hy Hw. rewrite <- (rp_perm _ _ H) in Hy. apply list_elem_of_fmap in Hy as ([y' s'] & -> & Hin).
  unfold wakes_at in Hw. cbn in Hw. rewrite (lk_times _ _ _ (rp_lists _ _ H) y' s' Hin) in Hw. injection Hw as <-. unfold sorted_wakes in Hs. rewrite E in Hs, Hin.
  inversion_clear Hs as [|? ? _ Hf]. apply elem_of_cons in Hin as [[= -> ->]|Hin]; [lia|]. eapply list.Forall_forall in Hf; [|exact Hin]. exact Hf.
Qed.

(** ** The theorems *)

(** C15. The connections of a context: whatever connections are created (with failing plugins, TLS contexts and allocations among
    them), registered under further ids and addresses, moved in the wake list and deleted, no operation follows a null or dangling pointer,
    exactly the live connections stay allocated, an id or an address finds the connection that two finite maps
    give after the same operations, and this connection is always a live one. *)
Theorem connection_tables_refine (nb_connections : Z) (ops : list operation) :
  0 < nb_connections < 2 ^ 30 -> all_proper empty ops = true ->
  exists q0 q, picoquic_create nb_connections = Some q0 /\ run_all q0 ops = Some q /\ dom (heap q) = list_to_set (order (foldl spec empty ops)) /\
    (forall id, picoquic_cnx_by_id q id = Some (by_id (foldl spec empty ops) !! id)) /\
    (forall addr, picoquic_cnx_by_net q addr = Some (by_net (foldl spec empty ops) !! picoquic_set_hash_key_by_address addr)) /\
    (forall id x, picoquic_cnx_by_id q id = Some (Some x) -> is_Some (heap q !! x)) /\
    (forall addr x, picoquic_cnx_by_net q addr = Some (Some x) -> is_Some (heap q !! x)).
Proof.
  intros Hn Hp. destruct (create_context_ok nb_connections Hn) as (q0 & E0 & H0). destruct (run_all_ok ops q0 empty H0 ltac:(constructor) Hp) as (q & E & H & _).
  exists q0, q. destruct (owned_live _ _ H) as [Hi Hnet]. split; [done|]. split; [done|]. split; [apply H|]. split; [intros id; by apply by_id_ok|]. split; [intros addr; by apply by_net_ok|].
  split.
  - intros id x. rewrite (by_id_ok _ _ id H). intros [= Hx]. eapply live_lookup; [exact H|by eapply Hi].
  - intros addr x. rewrite (by_net_ok _ _ addr H). intros [= Hx]. eapply live_lookup; [exact H|by eapply Hnet].
Qed.

(** Two connections, a second id that moves nothing, an id that is taken, and a deletion. *)
Definition sample_addr : PacketIn.sockaddr := PacketIn.sockaddr_in [10; 0; 0; 1] 4433.
Definition sample_ops : list operation :=
  [Create true true (true, true) (true, true) 1 500 [1; 2; 3; 4] (Some sample_addr); Create true false (true, true) (true, true) 2 400 [5; 6; 7; 8] None;
   Create true true (true, true) (true, true) 3 300 [5; 6; 7; 8] (Some sample_addr); RegisterId true true 3 [1; 2; 3; 4]; RegisterId true true 1 [9; 9; 9; 9]; Reinsert 3 900; Delete 1].

Lemma connection_tables_refine_witness : exists q0 q, picoquic_create 8 = Some q0 /\ run_all q0 sample_ops = Some q /\
  picoquic_cnx_by_id q [5; 6; 7; 8] = Some (Some 3%positive) /\ picoquic_cnx_by_id q [9; 9; 9; 9] = Some None /\ picoquic_cnx_by_net q sample_addr = Some None.
Proof.
  destruct (connection_tables_refine 8 sample_ops) as (q0 & q & E0 & E & _ & Hi & Hn & _).
  - lia.
  - vm_compute. reflexivity.
  - exists q0, q. split; [exact E0|]. split; [exact E|]. split; [rewrite Hi; vm_compute; reflexivity|]. split; [rewrite Hi; vm_compute; reflexivity|]. rewrite Hn. vm_compute. reflexivity.
Defined.

(** C27. The connection that is served next is one that wakes first: the search always ends with an answer, a connection it
    returns wakes no later than any live one and, with a limit, not after the limit; it returns none only when
    every live connection wakes after the limit; and the delay until then is that to the earliest wake time, within 0 and the maximum,
    as long as wake times are less than 2^63 away. *)
Theorem earliest_connection_served (nb_connections : Z) (ops : list operation) (q0 q : quic) (max_wake_time : Z) :
  0 < nb_connections < 2 ^ 30 -> all_proper empty ops = true -> picoquic_create nb_connections = Some q0 -> run_all q0 ops = Some q ->
  exists r, picoquic_get_earliest_cnx_to_wake q max_wake_time = Some r /\
    match r with
    | Some x => exists t, wakes_at q x = Some t /\ (max_wake_time = 0 \/ t <= max_wake_time) /\ (forall y s, wakes_at q y = Some s -> t <= s) /\
        forall current_time delay_max, 0 <= delay_max -> (forall y s, wakes_at q y = Some s -> s - current_time < 2 ^ 63) ->
          picoquic_get_next_wake_delay q current_time delay_max = Some (Z.min delay_max (Z.max 0 (t - current_time)))
    | None => forall y s, wakes_at q y = Some s -> max_wake_time <> 0 /\ max_wake_time < s
    end.
Proof.
  intros Hn Hp E0 E. destruct (create_context_ok nb_connections Hn) as (q0' & E0' & H0). rewrite E0 in E0'. injection E0' as <-.
  destruct (run_all_ok ops q0 empty H0 ltac:(constructor) Hp) as (q' & E' & H & Hs). rewrite E in E'. injection E' as <-. rewrite (earliest_ok q _ max_wake_time H).
  set (a := foldl spec empty ops) in *. eexists. split; [reflexivity|].
  assert (Hlive : forall y s, wakes_at q y = Some s -> y ∈ order a).
  { intros y s Hy. apply (elem_of_list_to_set (C := gset pointer)). rewrite <- (rp_heap _ _ H). apply elem_of_dom. unfold wakes_at in Hy. destruct (heap q !! y); [by eexists|done]. }
  destruct (wakes a) as [|[x t] l] eqn:Ew.
  - intros y s Hy. apply Hlive in Hy. rewrite <- (rp_perm _ _ H), Ew in Hy. by apply elem_of_nil in Hy.
  - assert (Hmin : forall y s, wakes_at q y = Some s -> t <= s) by (intros y s Hy; eapply wakes_at_sorted; eauto).
    destruct (Z.eqb_spec max_wake_time 0), (Z.ltb_spec max_wake_time t); cbn [negb andb].
    3: { intros y s Hy. specialize (Hmin y s Hy). lia. }
    all: exists t; split; [apply (lk_times _ _ _ (rp_lists _ _ H)); rewrite Ew; left|]; split; [lia|]; split; [done|]; intros now dm Hdm Hr.
    all: rewrite (delay_ok q a now dm H Hdm), Ew; [done|]; apply list.Forall_forall; intros [y s] Hin; apply (Hr y), (lk_times _ _ _ (rp_lists _ _ H) y s Hin).
Qed.

Lemma earliest_connection_served_witness : exists q0 q, picoquic_create 8 = Some q0 /\ run_all q0 sample_ops = Some q /\
  picoquic_get_earliest_cnx_to_wake q 1000 = Some (Some 3%positive) /\ picoquic_get_next_wake_delay q 700 1000 = Some 200.
Proof.
  destruct (create_context_ok 8 ltac:(lia)) as (q0 & E0 & H0). destruct (run_all_ok sample_ops q0 empty H0 ltac:(constructor) ltac:(vm_compute; reflexivity)) as (q & E & H & _).
  exists q0, q. split; [exact E0|]. split; [exact E|].
  destruct (earliest_connection_served 8 sample_ops q0 q 1000 ltac:(lia) ltac:(vm_compute; reflexivity) E0 E) as (r & Er & Hr).
  assert (Hq : Some r = Some (Some 3%positive)) by (rewrite <- Er, (earliest_ok q _ 1000 H); vm_compute; reflexivity).
  injection Hq as ->. split; [exact Er|]. destruct Hr as (t & Ht & _ & _ & Hd).
  assert (Et : t = 900).
  { destruct (wake_head q _ H) as [_ Hw]. destruct (Hw 3%positive 900 [] ltac:(vm_compute; reflexivity)) as (c & Hc & Hwt). unfold wakes_at in Ht. rewrite Hc in Ht. injection Ht as <-. exact Hwt. }
  subst t. rewrite Hd; [reflexivity|lia|]. intros y s Hy. unfold wakes_at in Hy. destruct (heap q !! y) as [c|] eqn:Hc; [|discriminate Hy].
  assert (Hin : y ∈ order (foldl spec empty sample_ops)) by (apply (elem_of_list_to_set (C := gset pointer)); rewrite <- (rp_heap _ _ H); apply elem_of_dom; by exists c).
  assert (Ho : order (foldl spec empty sample_ops) = [3%positive]) by (vm_compute; reflexivity). rewrite Ho in Hin. apply list_elem_of_singleton in Hin as ->.
  unfold wakes_at in Ht. rewrite Hc in Ht. injection Ht as Ht. cbn in Hy. injection Hy as <-. lia.
Defined.

(** A connection whose plugins cannot be inserted is not returned, but it stays allocated and in both lists. *)
Example failed_plugins_leave_connection : spec empty (Create false true (true, true) (true, true) 1 500 [1; 2; 3; 4] None) = Abs [1%positive] [(1%positive, 500)] ∅ ∅.
Proof. reflexivity. Qed.
End Connections.
