(* ===== verification/Timers.v ===== *)
(** * When a connection wakes

    picoquic/sender.c
      the time at which a connection is served again: before its handshake is complete
      ([picoquic_cnx_set_next_wake_time_init]) and after ([set_next_wake_time])
      the test that nothing waits for an acknowledgement
    picoquic/frames.c
      the tests whether an ACK frame is due and whether TLS data waits

    The packets in flight of a packet context are in a heap, as in [Retransmit]; following a dangling
    pointer is [None].  Every packet of a queue was sent on the path and in the context that own the queue.
    Whether a stream has data and whether plugins have frames are fields of the connection.  What the
    computation changes is kept: the pacing buckets, [wake_now] and the paths whose congestion controller is told that it blocks. *)
From stdpp Require Import base list gmap numbers.
From Stdlib Require Import ZArith Lia Bool.
From S2P Require Import Prelude Packet PacketIn Retransmit Connections.
#[local] Open Scope Z_scope.

Module Timers.
Import Packet.

Definition PICOQUIC_MICROSEC_SILENCE_MAX : Z := 120000000.
Definition PICOQUIC_MICROSEC_HANDSHAKE_MAX : Z := 15000000.
Definition PICOQUIC_CHALLENGE_REPEAT_MAX : Z := 4.
Definition PICOQUIC_MAX_PACKET_SIZE : Z := 1350.
Definition PICOQUIC_PRACTICAL_MAX_MTU : Z := 1300.

(** ** State *)

Record queued := Queued { pkt : Retransmit.packet; contains_crypto : bool; is_pure_ack : bool; is_mtu_probe : bool }.

Record packet_context := PacketContext {
  ack_needed : bool;
  highest_ack_sent : Z;
  highest_ack_time : Z;
  ack_delay_local : Z;
  end_of_sack_range : Z;             (* of first_sack_item *)
  highest_acknowledged : Z;
  latest_time_acknowledged : Z;
  nb_retransmit : Z;
  packets : gmap nat queued;
  retransmit_oldest : option nat
}.

Record path := Path {
  pkt_ctx : list packet_context;     (* application, handshake, initial *)
  challenge_verified : bool;
  challenge_repeat_count : Z;
  challenge_time : Z;
  retransmit_timer : Z;
  smoothed_rtt : Z;
  last_1rtt_acknowledged_at : Z;
  cwin : Z;
  bytes_in_transit : Z;
  bucket : Retransmit.pacing;
  send_mtu : Z;
  send_mtu_max_tried : Z;
  mtu_probe_sent : bool
}.

Definition set_bucket (b : Retransmit.pacing) (x : path) : path :=
  Path (pkt_ctx x) (challenge_verified x) (challenge_repeat_count x) (challenge_time x) (retransmit_timer x) (smoothed_rtt x)
    (last_1rtt_acknowledged_at x) (cwin x) (bytes_in_transit x) b (send_mtu x) (send_mtu_max_tried x) (mtu_probe_sent x).

(** [tls_stream] has the length and the offset of the first item of each [send_queue]; [aead_encrypt] says whether a key is there. *)
Record cnx := Cnx {
  state_of : cnx_state;
  client_mode : bool;
  start_time : Z;
  latest_progress_time : Z;
  handshake_done : bool;
  handshake_done_sent : bool;
  handshake_done_acked : bool;
  wake_now : bool;
  keep_alive_interval : Z;
  data_received : Z;
  maxdata_local : Z;
  zero_rtt_data_accepted : bool;
  tls_stream : list (option (Z * Z));
  aead_encrypt : list bool;
  stream_ready : bool;               (* picoquic_find_ready_stream *)
  plugin_frames_cc : bool;           (* picoquic_has_congestion_controlled_plugin_frames_to_send *)
  plugin_frames_booked : bool;       (* picoquic_has_booked_plugin_frames *)
  max_packet_size : Z;               (* of the remote parameters *)
  mtu_max : Z;                       (* of the context *)
  paths : list path
}.

Definition wake_up_done (c : cnx) (l : list path) : cnx :=
  Cnx (state_of c) (client_mode c) (start_time c) (latest_progress_time c) (handshake_done c) (handshake_done_sent c) (handshake_done_acked c) false
    (keep_alive_interval c) (data_received c) (maxdata_local c) (zero_rtt_data_accepted c) (tls_stream c) (aead_encrypt c) (stream_ready c) (plugin_frames_cc c)
    (plugin_frames_booked c) (max_packet_size c) (mtu_max c) l.

Definition set_paths (l : list path) (c : cnx) : cnx :=
  Cnx (state_of c) (client_mode c) (start_time c) (latest_progress_time c) (handshake_done c) (handshake_done_sent c) (handshake_done_acked c) (wake_now c)
    (keep_alive_interval c) (data_received c) (maxdata_local c) (zero_rtt_data_accepted c) (tls_stream c) (aead_encrypt c) (stream_ready c) (plugin_frames_cc c)
    (plugin_frames_booked c) (max_packet_size c) (mtu_max c) l.

(** ** Tests *)

Definition ack_time (k : packet_context) : Z := u64 (highest_ack_time k + ack_delay_local k).

Definition is_ack_needed (k : packet_context) (current_time : Z) : bool :=
  if ack_needed k then
    (u64 (highest_ack_sent k + 2) <=? end_of_sack_range k) || (ack_time k <=? current_time)
  else if (u64 (highest_ack_sent k + 8) <=? end_of_sack_range k) && (ack_time k <=? current_time) then
    negb (end_of_sack_range k =? UINT64_MAX)
  else false.

Definition picoquic_should_send_max_data (c : cnx) : bool := maxdata_local c <? u64 (2 * data_received c).

Definition tls_queued (c : cnx) (epoch : nat) : option (Z * Z) := default None (tls_stream c !! epoch).
Definition has_key (c : cnx) (epoch : nat) : bool := default false (aead_encrypt c !! epoch).

Definition is_tls_stream_ready (c : cnx) : bool :=
  existsb (fun epoch => match tls_queued c epoch with Some (length, offset) => (offset <? length) && has_key c epoch | None => false end) (seq 0 4).

Definition cnx_ready (c : cnx) : bool := bool_decide (state_of c = client_ready) || bool_decide (state_of c = server_ready).

(** The comparison with [mtu_max] is one of 32-bit unsigned integers. *)
Definition picoquic_mtu_probe_length (c : cnx) (x : path) : Z :=
  if send_mtu_max_tried x =? 0 then
    if 0 <? max_packet_size c then
      let probe_length := max_packet_size c in
      let probe_length :=
        if (0 <? mtu_max c) && (mtu_max c <? u32 probe_length) then mtu_max c
        else if PICOQUIC_MAX_PACKET_SIZE <? probe_length then PICOQUIC_MAX_PACKET_SIZE else probe_length in
      if probe_length <? send_mtu x then send_mtu x else probe_length
    else if 0 <? mtu_max c then mtu_max c else PICOQUIC_PRACTICAL_MAX_MTU
  else u32 (send_mtu x + send_mtu_max_tried x) / 2.

Definition picoquic_is_mtu_probe_needed (c : cnx) (x : path) : bool :=
  cnx_ready c && negb (mtu_probe_sent x) && ((send_mtu_max_tried x =? 0) || (u32 (send_mtu x + 10) <? send_mtu_max_tried x)) && (send_mtu x <? picoquic_mtu_probe_length c x).

(** The packet at [retransmit_oldest]. *)
Definition oldest (k : packet_context) : option (option queued) :=
  match retransmit_oldest k with
  | None => Some None
  | Some p => q ← packets k !! p; Some (Some q)
  end.

(** What loss detection reads of the path and the context of a packet. *)
Definition loss (c : cnx) (x : path) (k : packet_context) : Retransmit.loss_ctx :=
  Retransmit.LossCtx (highest_acknowledged k) (latest_time_acknowledged k) (nb_retransmit k) (smoothed_rtt x) (retransmit_timer x) (last_1rtt_acknowledged_at x)
    (cnx_ready c || bool_decide (state_of c = client_almost_ready) || bool_decide (state_of c = server_almost_ready)) (zero_rtt_data_accepted c).

Definition retransmit_due (c : cnx) (x : path) (k : packet_context) (q : queued) (current_time : Z) : bool :=
  (Retransmit.retransmit_needed_by_packet (loss c x k) (pkt q) current_time).1.1.
Definition retransmit_time (c : cnx) (x : path) (k : packet_context) (q : queued) (current_time : Z) : Z :=
  (Retransmit.retransmit_needed_by_packet (loss c x k) (pkt q) current_time).2.

(** ** Before the handshake is complete *)

(** The contexts whose keys are ready: application, handshake, initial. *)
Definition pc_ready (c : cnx) : list bool :=
  match tls_queued c 0 with
  | Some _ => [false; false; true]
  | None =>
    if has_key c 1 && bool_decide (is_Some (tls_queued c 1)) then [true; false; true]
    else if has_key c 2 && bool_decide (tls_queued c 1 = None) then [false; true; true]
    else [false; false; true]
  end.

(** What the loops carry: [blocked], [pacing], [next_time], and the paths of which the controller is told that the window blocks. *)
Record verdict := Verdict { blocked : bool; pacing : bool; next_time : Z; cwin_blocked : list nat }.

(** One path that has something to send: the window and the pacing decide. *)
Definition try_send (i : nat) (x : path) (current_time : Z) (v : verdict) : path * verdict :=
  if bytes_in_transit x <? cwin x then
    let '(ok, b, next) := Retransmit.picoquic_is_sending_authorized_by_pacing (bucket x) current_time (next_time v) in
    (set_bucket b x, if ok then Verdict false (pacing v) next (cwin_blocked v) else Verdict (blocked v) true next (cwin_blocked v))
  else (x, Verdict (blocked v) (pacing v) (next_time v) (cwin_blocked v ++ [i])).

Definition wants_to_send_init (c : cnx) : bool :=
  picoquic_should_send_max_data c || is_tls_stream_ready c || (has_key c 1 && stream_ready c).

Fixpoint send_loop_init (c : cnx) (current_time : Z) (i : nat) (l : list path) (v : verdict) : list path * verdict :=
  match l with
  | [] => ([], v)
  | x :: l' =>
    if blocked v && negb (pacing v) then
      let '(x, v) := if challenge_verified x && wants_to_send_init c then try_send i x current_time v else (x, v) in
      let '(l', v) := send_loop_init c current_time (S i) l' v in (x :: l', v)
    else (l, v)
  end.

(** The first packet from [p] on along [next_packet] that is not a 0-RTT packet without CRYPTO frames. *)
Fixpoint skip_zero_rtt (fuel : nat) (k : packet_context) (p : option nat) : option (option queued) :=
  match p with
  | None => Some None
  | Some p =>
    q ← packets k !! p;
    if bool_decide (Retransmit.pkt_ptype (pkt q) = zero_rtt_protected) && negb (contains_crypto q) then
      match fuel with O => None | S fuel => skip_zero_rtt fuel k (Retransmit.next_packet (pkt q)) end
    else Some (Some q)
  end.

Definition timeout_init (x : path) (k : packet_context) (q : queued) : Z :=
  u64 (Retransmit.send_time (pkt q) + if nb_retransmit k =? 0 then retransmit_timer x else u64 (Z.shiftl 1000000 (nb_retransmit k - 1))).

Definition earlier (t next_time : Z) : Z := if t <? next_time then t else next_time.

Definition context_time_init (x : path) (k : packet_context) (next_time : Z) : option Z :=
  let next_time := if ack_needed k then earlier (ack_time k) next_time else next_time in
  p ← skip_zero_rtt (size (packets k)) k (retransmit_oldest k);
  Some (match p with Some q => earlier (timeout_init x k q) next_time | None => next_time end).

Fixpoint paths_time (f : path -> packet_context -> Z -> option Z) (pc : nat) (l : list path) (next_time : Z) : option Z :=
  match l with
  | [] => Some next_time
  | x :: l => k ← pkt_ctx x !! pc; next_time ← f x k next_time; paths_time f pc l next_time
  end.

Fixpoint contexts_time (f : path -> packet_context -> Z -> option Z) (pcs : list nat) (l : list path) (next_time : Z) : option Z :=
  match pcs with
  | [] => Some next_time
  | pc :: pcs => next_time ← paths_time f pc l next_time; contexts_time f pcs l next_time
  end.

(** The contexts that the flag lets through. *)
Definition ready_contexts (c : cnx) : list nat := filter (fun pc => default false (pc_ready c !! pc) = true) (seq 0 3).

(** [picoquic_cnx_set_next_wake_time_init] without the final reinsertion.  Its first loop, over due retransmissions and acknowledgements, runs while
    [blocked] is 0, which it is not when the loop starts: the loop does nothing. *)
Definition picoquic_cnx_set_next_wake_time_init (c : cnx) (current_time : Z) : option (cnx * Z * list nat) :=
  let next := u64 (start_time c + PICOQUIC_MICROSEC_HANDSHAKE_MAX) in
  if next <? current_time then Some (c, current_time, [])
  else
    let '(l, v) := send_loop_init c current_time 0 (paths c) (Verdict true false next []) in
    let c := set_paths l c in
    if negb (blocked v) then Some (c, current_time, cwin_blocked v)
    else if negb (pacing v) then t ← contexts_time context_time_init (ready_contexts c) l (next_time v); Some (c, t, cwin_blocked v)
    else Some (c, next_time v, cwin_blocked v).

(** ** When the connection is ready *)

(** How many contexts the loops look at. *)
Definition contexts (c : cnx) : list nat := if handshake_done c && (client_mode c || handshake_done_acked c) then [0%nat] else seq 0 3.

(** [blocked] after the contexts of a path. *)
Fixpoint contexts_blocked (c : cnx) (x : path) (current_time : Z) (pcs : list nat) (blocked : bool) : option bool :=
  match pcs with
  | [] => Some blocked
  | pc :: pcs =>
    k ← pkt_ctx x !! pc;
    p ← oldest k;
    let due := match p with Some q => retransmit_due c x k q current_time | None => false end in
    contexts_blocked c x current_time pcs (if due || is_ack_needed k current_time then false else blocked)
  end.

Definition wants_to_send (c : cnx) : bool :=
  picoquic_should_send_max_data c || is_tls_stream_ready c || (negb (client_mode c) && handshake_done c && negb (handshake_done_sent c)) ||
  (cnx_ready c && (stream_ready c || plugin_frames_cc c)).

Fixpoint send_loop (c : cnx) (current_time : Z) (i : nat) (l : list path) (v : verdict) : option (list path * verdict) :=
  match l with
  | [] => Some ([], v)
  | x :: l' =>
    if blocked v && negb (pacing v) then
      b ← contexts_blocked c x current_time (contexts c) (blocked v);
      let v := Verdict b (pacing v) (next_time v) (cwin_blocked v) in
      let '(x, v) := if b && challenge_verified x && wants_to_send c then try_send i x current_time v else (x, v) in
      '(l', v) ← send_loop c current_time (S i) l' v; Some (x :: l', v)
    else Some (l, v)
  end.

(** The loop over MTU probes and frames booked by plugins. *)
Definition probe_or_booked (c : cnx) (x : path) : bool :=
  picoquic_is_mtu_probe_needed c x || ((bytes_in_transit x <? cwin x) && plugin_frames_booked c).

Definition context_time (c : cnx) (current_time : Z) (x : path) (k : packet_context) (next_time : Z) : option Z :=
  let next_time := if ack_needed k then earlier (ack_time k) next_time else next_time in
  p ← oldest k;
  Some (match p with Some q => earlier (retransmit_time c x k q current_time) next_time | None => next_time end).

Definition challenge_due (x : path) : Z := u64 (challenge_time x + retransmit_timer x).
Definition awaits_challenge (x : path) : bool := negb (challenge_verified x) && (challenge_repeat_count x <? PICOQUIC_CHALLENGE_REPEAT_MAX).
Definition keep_alive_time (c : cnx) : Z := u64 (latest_progress_time c + keep_alive_interval c).

(** Path challenges and the keep-alive timer. *)
Definition path_time (c : cnx) (current_time : Z) (x : path) (next_time : Z) : Z :=
  let next_time :=
    if awaits_challenge x then
      if challenge_due x <=? current_time then current_time else earlier (challenge_due x) next_time
    else next_time in
  if negb (keep_alive_interval c =? 0) then earlier (keep_alive_time c) next_time else next_time.

Definition idle_time (c : cnx) : Z := u64 (latest_progress_time c + PICOQUIC_MICROSEC_SILENCE_MAX * (if client_mode c then 1 else 2)).

Definition set_next_wake_time (c : cnx) (current_time : Z) : option (cnx * Z * list nat) :=
  if PacketIn.state_value (state_of c) <? PacketIn.state_value client_ready then picoquic_cnx_set_next_wake_time_init c current_time
  else
    let next := idle_time c in
    let free := bool_decide (state_of c = disconnecting) || bool_decide (state_of c = handshake_failure) || bool_decide (state_of c = closing_received) in
    '(l, v) ← send_loop c current_time 0 (paths c) (Verdict (negb free) false next []);
    let blocked := blocked v && negb (negb (pacing v) && existsb (probe_or_booked c) l) in
    t ← (if negb blocked || (wake_now c && negb (pacing v)) then Some current_time
         else if negb (pacing v) then
           t ← contexts_time (context_time c current_time) (contexts c) l (next_time v);
           Some (foldl (fun t x => path_time c current_time x t) t l)
         else Some (next_time v));
    Some (wake_up_done c l, t, cwin_blocked v).

(** ** Deadlines *)

(** A context whose queue ends at its oldest packet, as [Retransmit] shows. *)
Definition context_ok (k : packet_context) : bool :=
  match retransmit_oldest k with
  | None => true
  | Some p => match packets k !! p with Some q => bool_decide (Retransmit.next_packet (pkt q) = None) | None => false end
  end.
Definition path_ok (x : path) : bool := (length (pkt_ctx x) =? 3)%nat && forallb context_ok (pkt_ctx x).
Definition cnx_ok (c : cnx) : bool := forallb path_ok (paths c).

Definition mins (t : Z) (l : list Z) : Z := foldl Z.min t l.

Lemma mins_app t l1 l2 : mins t (l1 ++ l2) = mins (mins t l1) l2.
Proof. apply foldl_app. Qed.

Lemma mins_spec l : forall t, mins t l <= t /\ (forall d, d ∈ l -> mins t l <= d) /\ (mins t l = t \/ mins t l ∈ l).
Proof.
  induction l as [|a l IH]; intros t.
  - unfold mins. cbn. split_and!; [lia|intros d Hd; by apply elem_of_nil in Hd|by left].
  - change (mins t (a :: l)) with (mins (Z.min t a) l). destruct (IH (Z.min t a)) as (H1 & H2 & H3). split_and!; [lia| |].
    + intros d [->|Hd]%elem_of_cons; [lia|by apply H2].
    + destruct H3 as [->|H3]; [|right; by right]. destruct (Z.min_spec t a) as [[_ ->]|[_ ->]]; [by left|right; by left].
Qed.

Lemma earlier_min t n : earlier t n = Z.min n t.
Proof. unfold earlier. destruct (Z.ltb_spec t n); lia. Qed.

(** A path of which only the pacing bucket has changed. *)
Definition rebucket (x x' : path) : Prop := exists b, x' = set_bucket b x.

Lemma rebucket_refl_all (l : list path) : Forall2 rebucket l l.
Proof. induction l as [|x l IH]; constructor; [|done]. exists (bucket x). by destruct x. Qed.

(** The loops over contexts and paths take the earliest of the times that [g] lists. *)
Section Times.
Context (f : path -> packet_context -> Z -> option Z) (g : path -> packet_context -> list Z).
Context (f_ok : forall x k t, context_ok k = true -> f x k t = Some (mins t (g x k))).
Context (f_bucket : forall x k t b, f (set_bucket b x) k t = f x k t).

Definition times_at (pc : nat) (x : path) : list Z := match pkt_ctx x !! pc with Some k => g x k | None => [] end.

Lemma path_context x pc : path_ok x = true -> (pc < 3)%nat -> exists k, pkt_ctx x !! pc = Some k /\ context_ok k = true.
Proof.
  intros Hx Hpc. apply andb_true_iff in Hx as [Hl Hk]. apply Nat.eqb_eq in Hl. destruct (lookup_lt_is_Some_2 (pkt_ctx x) pc) as [k Ek]; [lia|].
  exists k. split; [done|]. rewrite forallb_forall in Hk. apply Hk, list_elem_of_In. by eapply list_elem_of_lookup_2.
Qed.

Lemma paths_time_spec pc l l' t : (pc < 3)%nat -> forallb path_ok l = true -> Forall2 rebucket l l' -> paths_time f pc l' t = Some (mins t (l ≫= times_at pc)).
Proof.
  intros Hpc Hl Hb. revert t Hl. induction Hb as [|x x' l l' [b ->] Hb IH]; intros t Hl; [done|]. cbn in Hl. apply andb_true_iff in Hl as [Hx Hl].
  cbn [paths_time mbind list_bind]. destruct (path_context x pc Hx Hpc) as (k & Ek & Hk). change (pkt_ctx (set_bucket b x)) with (pkt_ctx x). unfold times_at at 1. rewrite Ek.
  cbn [mbind option_bind]. rewrite f_bucket, f_ok by done. cbn [mbind option_bind]. rewrite IH by done. by rewrite mins_app.
Qed.

Lemma contexts_time_spec pcs l l' : Forall (fun pc => (pc < 3)%nat) pcs -> forallb path_ok l = true -> Forall2 rebucket l l' ->
  forall t, contexts_time f pcs l' t = Some (mins t (pcs ≫= fun pc => l ≫= times_at pc)).
Proof.
  intros Hpcs Hl Hb. induction Hpcs as [|pc pcs Hpc Hpcs IH]; intros t; [done|]. cbn [contexts_time].
  rewrite (paths_time_spec pc l l' t Hpc Hl Hb). cbn [mbind option_bind list_bind]. rewrite IH. by rewrite mins_app.
Qed.
End Times.

(** The times at which a context needs attention. *)
Definition context_deadlines (c : cnx) (current_time : Z) (x : path) (k : packet_context) : list Z :=
  (if ack_needed k then [ack_time k] else []) ++
  match oldest k with Some (Some q) => [retransmit_time c x k q current_time] | _ => [] end.

Lemma oldest_ok k : context_ok k = true -> exists o, oldest k = Some o.
Proof. unfold context_ok, oldest. destruct (retransmit_oldest k) as [p|]; [|by eexists]. destruct (packets k !! p) as [q|]; [|done]. by eexists. Qed.

Lemma context_time_spec c now x k t : context_ok k = true -> context_time c now x k t = Some (mins t (context_deadlines c now x k)).
Proof.
  intros Hk. unfold context_time, context_deadlines. destruct (oldest_ok k Hk) as [o ->]. cbn [mbind option_bind]. f_equal. rewrite mins_app.
  destruct o as [q|]; destruct (ack_needed k); cbn [mins foldl]; by rewrite ?earlier_min.
Qed.

(** A path wakes the connection for its challenge, and any path does for the keep-alive timer. *)
Definition path_deadlines (c : cnx) (x : path) : list Z :=
  (if awaits_challenge x then [challenge_due x] else []) ++ (if negb (keep_alive_interval c =? 0) then [keep_alive_time c] else []).

Lemma path_time_spec c now x t : let t' := path_time c now x t in
  t' <= Z.max now t /\ (forall d, d ∈ path_deadlines c x -> t' <= Z.max now d) /\ (t' = now \/ t' = t \/ t' ∈ path_deadlines c x).
Proof.
  cbn zeta. unfold path_time, path_deadlines. rewrite !earlier_min.
  destruct (awaits_challenge x), (negb (keep_alive_interval c =? 0)); cbn [app]; try destruct (Z.leb_spec (challenge_due x) now).
  all: split_and!; [lia|intros d Hd; repeat (apply elem_of_cons in Hd as [->|Hd]; [lia|]); by apply elem_of_nil in Hd|rewrite ?elem_of_cons; lia].
Qed.

Lemma paths_end_spec c now l : forall l' t, Forall2 rebucket l l' -> let t' := foldl (fun t x => path_time c now x t) t l' in
  t' <= Z.max now t /\ (forall d x, x ∈ l -> d ∈ path_deadlines c x -> t' <= Z.max now d) /\ (t' = now \/ t' = t \/ exists x, x ∈ l /\ t' ∈ path_deadlines c x).
Proof.
  induction l as [|x l IH]; intros l' t Hb; inversion Hb as [|? x' ? l'' [b ->] Hb']; subst; cbn [foldl].
  - split_and!; [lia|intros d x Hx; by apply elem_of_nil in Hx|tauto].
  - change (path_time c now (set_bucket b x) t) with (path_time c now x t). destruct (path_time_spec c now x t) as (H1 & H2 & H3). set (t1 := path_time c now x t) in *.
    destruct (IH l'' t1 Hb') as (K1 & K2 & K3). cbn zeta in *. set (t' := foldl _ _ _) in *. split_and!; [lia| |].
    + intros d y [->|Hy]%elem_of_cons Hd; [specialize (H2 d Hd); lia|by eapply K2].
    + destruct K3 as [->|[->|(y & Hy & Hd)]]; [by left| |right; right; exists y; split; [by right|done]].
      destruct H3 as [->|[->|Hd]]; [by left|right; by left|right; right; exists x; split; [by left|done]].
Qed.

(** Everything that wakes a connection that is not blocked by pacing. *)
Definition deadlines (c : cnx) (current_time : Z) : list Z :=
  idle_time c :: (contexts c ≫= fun pc => paths c ≫= times_at (context_deadlines c current_time) pc) ++ (paths c ≫= path_deadlines c).

(** ** What can be done now *)

Definition context_due (c : cnx) (current_time : Z) (x : path) (k : packet_context) : bool :=
  match oldest k with Some (Some q) => retransmit_due c x k q current_time | _ => false end || is_ack_needed k current_time.
Definition path_due (c : cnx) (current_time : Z) (x : path) : bool :=
  existsb (fun pc => match pkt_ctx x !! pc with Some k => context_due c current_time x k | None => false end) (contexts c).

Lemma contexts_blocked_spec c now x pcs b : path_ok x = true -> Forall (fun pc => (pc < 3)%nat) pcs ->
  contexts_blocked c x now pcs b = Some (b && negb (existsb (fun pc => match pkt_ctx x !! pc with Some k => context_due c now x k | None => false end) pcs)).
Proof.
  intros Hx Hp. revert b. induction Hp as [|pc pcs Hpc Hp IH]; intros b; cbn [contexts_blocked existsb]; [by rewrite andb_true_r|].
  destruct (path_context x pc Hx Hpc) as (k & Ek & Hk). destruct (oldest_ok k Hk) as [o Eo]. rewrite Ek. cbn [mbind option_bind]. rewrite Eo. cbn [mbind option_bind]. rewrite IH. f_equal.
  assert (Ec : context_due c now x k = match o with Some q => retransmit_due c x k q now | None => false end || is_ack_needed k now) by (unfold context_due; rewrite Eo; by destruct o).
  rewrite Ec. destruct (_ || is_ack_needed k now); cbn; [by rewrite andb_false_r|done].
Qed.

Lemma contexts_small c : Forall (fun pc => (pc < 3)%nat) (contexts c).
Proof. unfold contexts. destruct (_ && _); cbn; repeat constructor; lia. Qed.

Definition window_open (x : path) : bool := challenge_verified x && (bytes_in_transit x <? cwin x).

(** Nothing can be sent on the path now. *)
Definition path_quiet (c : cnx) (current_time : Z) (x : path) : bool :=
  negb (path_due c current_time x) && negb (window_open x && wants_to_send c) && negb (probe_or_booked c x).

Definition pacing_exhausted (x : path) (current_time : Z) : bool :=
  Retransmit.pacing_bucket_nanosec (Retransmit.picoquic_update_pacing_bucket (bucket x) current_time) <=? 0.
Definition pacing_time (x : path) (current_time : Z) : Z := u64 (current_time + Retransmit.pacing_packet_time_microsec (bucket x)).

Definition paced (c : cnx) (current_time : Z) (x : path) : bool := window_open x && wants_to_send c && pacing_exhausted x current_time.

Lemma update_bucket_time b now : Retransmit.pacing_packet_time_microsec (Retransmit.picoquic_update_pacing_bucket b now) = Retransmit.pacing_packet_time_microsec b.
Proof. unfold Retransmit.picoquic_update_pacing_bucket. by destruct (_ <? _). Qed.

(** A path with something to send that is not blocked by its window. *)
Lemma try_send_open i x now v : (bytes_in_transit x <? cwin x) = true -> exists b, try_send i x now v =
  (set_bucket b x, if pacing_exhausted x now then Verdict (blocked v) true (Z.min (next_time v) (pacing_time x now)) (cwin_blocked v)
                   else Verdict false (pacing v) (next_time v) (cwin_blocked v)).
Proof.
  intros Hw. unfold try_send. rewrite Hw. unfold Retransmit.picoquic_is_sending_authorized_by_pacing, pacing_exhausted, pacing_time. eexists.
  destruct (_ <=? 0); [|reflexivity]. rewrite update_bucket_time. do 2 f_equal. destruct (Z.ltb_spec (u64 (now + Retransmit.pacing_packet_time_microsec (bucket x))) (next_time v)); lia.
Qed.

Lemma try_send_closed i x now v : (bytes_in_transit x <? cwin x) = false -> try_send i x now v = (x, Verdict (blocked v) (pacing v) (next_time v) (cwin_blocked v ++ [i])).
Proof. intros Hw. unfold try_send. by rewrite Hw. Qed.

(** What the loop over the paths finds: something to do, a path that waits for its pacing, or nothing. *)
Definition loop_result (due : path -> bool) (wants : bool) (now : Z) (l : list path) (next : Z) (v : verdict) : Prop :=
  match blocked v, pacing v with
  | false, p => p = false
  | true, true => exists x, x ∈ l /\ window_open x && wants && pacing_exhausted x now = true /\ next_time v = Z.min next (pacing_time x now)
  | true, false => next_time v = next /\ forall x, x ∈ l -> due x = false /\ window_open x && wants = false
  end.

Lemma loop_result_cons due wants now x l next v : due x = false -> window_open x && wants = false -> loop_result due wants now l next v -> loop_result due wants now (x :: l) next v.
Proof.
  intros Hd Hw. unfold loop_result. destruct (blocked v), (pacing v); try done.
  - intros (y & Hy & H). exists y. split; [by right|done].
  - intros [Hn H]. split; [done|]. intros y [->|Hy]%elem_of_cons; [done|by apply H].
Qed.

Lemma rebucket_self x : rebucket x x.
Proof. exists (bucket x). by destruct x. Qed.

(** The rest of a loop that has ended. *)
Lemma send_loop_stop c now i l v : blocked v && negb (pacing v) = false -> send_loop c now i l v = Some (l, v).
Proof. destruct l; [done|]. cbn [send_loop]. by intros ->. Qed.

Lemma send_loop_spec c now l : forall i v, forallb path_ok l = true -> blocked v = true -> pacing v = false ->
  exists l' v', send_loop c now i l v = Some (l', v') /\ Forall2 rebucket l l' /\ loop_result (path_due c now) (wants_to_send c) now l (next_time v) v'.
Proof.
  induction l as [|x l IH]; intros i v Hl Hb Hp.
  { exists [], v. split_and!; [done|constructor|]. unfold loop_result. rewrite Hb, Hp. split; [done|]. intros x Hx. by apply elem_of_nil in Hx. }
  cbn in Hl. apply andb_true_iff in Hl as [Hx Hl]. cbn [send_loop]. rewrite Hb, Hp. cbn [andb negb]. rewrite (contexts_blocked_spec c now x (contexts c) true Hx (contexts_small c)). cbn [mbind option_bind andb].
  fold (path_due c now x). destruct (path_due c now x) eqn:Hdue; cbn [negb andb].
  { rewrite send_loop_stop by done. cbn [mbind option_bind]. eexists _, _. split; [reflexivity|]. split; [apply rebucket_refl_all|done]. }
  destruct (challenge_verified x && wants_to_send c) eqn:Hc.
  2: { destruct (IH (S i) (Verdict true false (next_time v) (cwin_blocked v)) Hl eq_refl eq_refl) as (l' & v' & -> & Hr & Hv). cbn [mbind option_bind]. eexists _, v'. split; [reflexivity|].
       split; [by constructor; [apply rebucket_self|]|]. apply loop_result_cons; [done| |done]. unfold window_open. destruct (challenge_verified x), (wants_to_send c), (bytes_in_transit x <? cwin x); done. }
  apply andb_true_iff in Hc as [Hcv Hw]. destruct (bytes_in_transit x <? cwin x) eqn:Hwin.
  - destruct (try_send_open i x now (Verdict true false (next_time v) (cwin_blocked v)) Hwin) as [b ->]. cbn [blocked pacing next_time cwin_blocked].
    rewrite send_loop_stop by (by destruct (pacing_exhausted x now)). cbn [mbind option_bind]. eexists _, _. split; [reflexivity|].
    split; [constructor; [by exists b|apply rebucket_refl_all]|]. unfold loop_result. destruct (pacing_exhausted x now) eqn:He; cbn [blocked pacing next_time]; [|done].
    exists x. split; [left|]. split; [|done]. unfold window_open. by rewrite Hcv, Hwin, Hw.
  - rewrite try_send_closed by done. cbn [blocked pacing next_time cwin_blocked].
    destruct (IH (S i) (Verdict true false (next_time v) (cwin_blocked v ++ [i])) Hl eq_refl eq_refl) as (l' & v' & -> & Hr & Hv). cbn [mbind option_bind]. eexists _, v'. split; [reflexivity|].
    split; [by constructor; [apply rebucket_self|]|]. apply loop_result_cons; [done| |done]. unfold window_open. by rewrite Hwin, andb_false_r.
Qed.

(** The states in which the connection always wakes at once. *)
Definition closing_state (c : cnx) : bool := bool_decide (state_of c = disconnecting) || bool_decide (state_of c = closing_received).

Lemma probe_or_booked_rebucket c l l' : Forall2 rebucket l l' -> existsb (probe_or_booked c) l' = existsb (probe_or_booked c) l.
Proof. induction 1 as [|x x' l l' [b ->] Hb IH]; [done|]. cbn [existsb]. by rewrite IH. Qed.

Lemma existsb_none {A} (f : A -> bool) l : existsb f l = false -> forall x, x ∈ l -> f x = false.
Proof. intros H x Hx. destruct (f x) eqn:E; [|done]. assert (existsb f l = true) by (apply existsb_exists; exists x; split; [by apply list_elem_of_In|done]). congruence. Qed.

(** A wake-up time that misses no deadline and has a reason. *)
Definition in_time (c : cnx) (current_time t : Z) : Prop :=
  (forall d, d ∈ deadlines c current_time -> t <= Z.max current_time d) /\ (t = current_time \/ t ∈ deadlines c current_time) /\
  (current_time < t -> closing_state c = false /\ wake_now c = false /\ forall x, x ∈ paths c -> path_quiet c current_time x = true).

Lemma in_time_now c now : in_time c now now.
Proof. split_and!; [intros d _; lia|by left|lia]. Qed.

Lemma deadlines_in_time c now l : cnx_ok c = true -> Forall2 rebucket (paths c) l -> closing_state c = false -> wake_now c = false -> (forall x, x ∈ paths c -> path_quiet c now x = true) ->
  exists t, contexts_time (context_time c now) (contexts c) l (idle_time c) = Some t /\ in_time c now (foldl (fun t x => path_time c now x t) t l).
Proof.
  intros Hok Hr Hs Hwk Hq. rewrite (contexts_time_spec (context_time c now) (context_deadlines c now) (context_time_spec c now) (fun x k t b => eq_refl) (contexts c) (paths c) l (contexts_small c) Hok Hr).
  eexists. split; [reflexivity|]. set (ds := contexts c ≫= _). destruct (mins_spec ds (idle_time c)) as (M1 & M2 & M3). set (t := mins (idle_time c) ds) in *.
  destruct (paths_end_spec c now (paths c) l t Hr) as (K1 & K2 & K3). cbn zeta in *. set (t' := foldl _ _ _) in *. unfold in_time, deadlines. fold ds. split_and!.
  - intros d [->|[Hd|(x & Hd & Hx)%list_elem_of_bind]%elem_of_app]%elem_of_cons; [lia|specialize (M2 d Hd); lia|by eapply K2].
  - destruct K3 as [->|[->|(x & Hx & Hd)]]; [by left| |].
    + right. destruct M3 as [->|M3]; [left|right; apply elem_of_app; by left].
    + right. right. apply elem_of_app. right. apply list_elem_of_bind. by exists x.
  - done.
Qed.

(** The result once the connection is ready. *)
Lemma wake_time_ready c now : cnx_ok c = true -> PacketIn.state_value client_ready <= PacketIn.state_value (state_of c) ->
  exists c' t notes, set_next_wake_time c now = Some (c', t, notes) /\ wake_now c' = false /\
    ((exists x, x ∈ paths c /\ paced c now x = true /\ t = Z.min (idle_time c) (pacing_time x now)) \/ in_time c now t).
Proof.
  intros Hok Hst. unfold set_next_wake_time. destruct (Z.ltb_spec (PacketIn.state_value (state_of c)) (PacketIn.state_value client_ready)) as [?|_]; [lia|].
  assert (Hf : bool_decide (state_of c = handshake_failure) = false) by (apply bool_decide_eq_false; intros E; rewrite E in Hst; cbv in Hst; by apply Hst). rewrite Hf, orb_false_r.
  fold (closing_state c). destruct (closing_state c) eqn:Hs.
  { rewrite send_loop_stop by done. cbn [mbind option_bind blocked negb andb orb]. eexists _, _, _. split; [reflexivity|]. split; [done|]. right. apply in_time_now. }
  destruct (send_loop_spec c now (paths c) 0 (Verdict true false (idle_time c) []) Hok eq_refl eq_refl) as (l & v & E & Hr & Hv). cbn [negb]. rewrite E. cbn [mbind option_bind].
  rewrite (probe_or_booked_rebucket c _ _ Hr). unfold loop_result in Hv. destruct (blocked v), (pacing v); cbn [negb andb orb] in *; rewrite ?andb_false_r, ?andb_true_r.
  - destruct Hv as (x & Hx & Hpx & Hn). eexists _, _, _. split; [reflexivity|]. split; [done|]. left. exists x. by split_and!.
  - destruct Hv as [Hn Hv]. destruct (existsb (probe_or_booked c) (paths c)) eqn:Hprobe; cbn [negb orb].
    { eexists _, _, _. split; [reflexivity|]. split; [done|]. right. apply in_time_now. }
    destruct (wake_now c) eqn:Hwk.
    { eexists _, _, _. split; [reflexivity|]. split; [done|]. right. apply in_time_now. }
    cbn [next_time] in Hn. rewrite Hn. destruct (deadlines_in_time c now l Hok Hr Hs Hwk) as (t & -> & Hin).
    { intros x Hx. destruct (Hv x Hx) as [Hd Hw]. unfold path_quiet. by rewrite Hd, Hw, (existsb_none _ _ Hprobe x Hx). }
    cbn [mbind option_bind]. eexists _, _, _. split; [reflexivity|]. split; [done|]. by right.
  - eexists _, _, _. split; [reflexivity|]. split; [done|]. right. apply in_time_now.
  - eexists _, _, _. split; [reflexivity|]. split; [done|]. right. apply in_time_now.
Qed.

(** ** The handshake *)

Definition is_skipped (q : queued) : bool := bool_decide (Retransmit.pkt_ptype (pkt q) = zero_rtt_protected) && negb (contains_crypto q).

Definition context_deadlines_init (x : path) (k : packet_context) : list Z :=
  (if ack_needed k then [ack_time k] else []) ++
  match oldest k with Some (Some q) => if is_skipped q then [] else [timeout_init x k q] | _ => [] end.

Lemma skip_zero_rtt_spec k : context_ok k = true ->
  skip_zero_rtt (size (packets k)) k (retransmit_oldest k) = Some (match oldest k with Some (Some q) => if is_skipped q then None else Some q | _ => None end).
Proof.
  unfold context_ok, oldest. destruct (retransmit_oldest k) as [p|]; [|by destruct (size (packets k))]. destruct (packets k !! p) as [q|] eqn:Hq; [|done]. intros Hn%bool_decide_eq_true.
  assert (Hsz : size (packets k) <> 0%nat) by (intros Hz; apply map_size_empty_inv in Hz; rewrite Hz, lookup_empty in Hq; done).
  destruct (size (packets k)) as [|fuel]; [done|]. cbn [skip_zero_rtt mbind option_bind]. rewrite Hq. cbn [mbind option_bind]. fold (is_skipped q). destruct (is_skipped q); [|done].
  rewrite Hn. by destruct fuel.
Qed.

Lemma context_time_init_spec x k t : context_ok k = true -> context_time_init x k t = Some (mins t (context_deadlines_init x k)).
Proof.
  intros Hk. unfold context_time_init, context_deadlines_init. rewrite (skip_zero_rtt_spec k Hk). cbn [mbind option_bind]. f_equal. rewrite mins_app.
  destruct (oldest k) as [[q|]|]; [destruct (is_skipped q)|..]; destruct (ack_needed k); cbn [mins foldl]; by rewrite ?earlier_min.
Qed.

Definition handshake_time (c : cnx) : Z := u64 (start_time c + PICOQUIC_MICROSEC_HANDSHAKE_MAX).

Definition deadlines_init (c : cnx) : list Z :=
  handshake_time c :: (ready_contexts c ≫= fun pc => paths c ≫= times_at context_deadlines_init pc).

Lemma ready_contexts_small c : Forall (fun pc => (pc < 3)%nat) (ready_contexts c).
Proof. unfold ready_contexts. apply list.Forall_forall. intros pc [_ Hpc]%list_elem_of_filter. apply list_elem_of_In, in_seq in Hpc. lia. Qed.

Lemma send_loop_init_stop c now i l v : blocked v && negb (pacing v) = false -> send_loop_init c now i l v = (l, v).
Proof. destruct l; [done|]. cbn [send_loop_init]. by intros ->. Qed.

Lemma send_loop_init_spec c now l : forall i v, blocked v = true -> pacing v = false ->
  exists l' v', send_loop_init c now i l v = (l', v') /\ Forall2 rebucket l l' /\ loop_result (fun _ => false) (wants_to_send_init c) now l (next_time v) v'.
Proof.
  induction l as [|x l IH]; intros i v Hb Hp.
  { exists [], v. split_and!; [done|constructor|]. unfold loop_result. rewrite Hb, Hp. split; [done|]. intros x Hx. by apply elem_of_nil in Hx. }
  cbn [send_loop_init]. rewrite Hb, Hp. cbn [andb negb]. destruct (challenge_verified x && wants_to_send_init c) eqn:Hc.
  2: { destruct (IH (S i) v Hb Hp) as (l' & v' & -> & Hr & Hv). eexists _, v'. split; [reflexivity|].
       split; [by constructor; [apply rebucket_self|]|]. apply loop_result_cons; [done| |done]. unfold window_open. destruct (challenge_verified x), (wants_to_send_init c), (bytes_in_transit x <? cwin x); done. }
  apply andb_true_iff in Hc as [Hcv Hw]. destruct (bytes_in_transit x <? cwin x) eqn:Hwin.
  - destruct (try_send_open i x now v Hwin) as [b ->]. rewrite send_loop_init_stop by (destruct (pacing_exhausted x now); cbn; by rewrite ?Hb). eexists _, _. split; [reflexivity|].
    split; [constructor; [by exists b|apply rebucket_refl_all]|]. unfold loop_result. destruct (pacing_exhausted x now) eqn:He; cbn [blocked pacing next_time]; [|done].
    rewrite Hb. exists x. split; [left|]. split; [|done]. unfold window_open. by rewrite Hcv, Hwin, Hw.
  - rewrite try_send_closed by done. destruct (IH (S i) (Verdict (blocked v) (pacing v) (next_time v) (cwin_blocked v ++ [i])) Hb Hp) as (l' & v' & -> & Hr & Hv). eexists _, v'. split; [reflexivity|].
    split; [by constructor; [apply rebucket_self|]|]. apply loop_result_cons; [done| |done]. unfold window_open. by rewrite Hwin, andb_false_r.
Qed.

(** Where the connection waits for the pacing of a path. *)
Definition paced_init (c : cnx) (current_time : Z) (x : path) : bool := window_open x && wants_to_send_init c && pacing_exhausted x current_time.

Lemma wake_time_handshake c now : cnx_ok c = true -> PacketIn.state_value (state_of c) < PacketIn.state_value client_ready ->
  exists c' t notes, set_next_wake_time c now = Some (c', t, notes) /\
    ((exists x, x ∈ paths c /\ paced_init c now x = true /\ t = Z.min (handshake_time c) (pacing_time x now)) \/
     ((forall d, d ∈ deadlines_init c -> t <= Z.max now d) /\ (t = now \/ t ∈ deadlines_init c) /\
      (now < t -> forall x, x ∈ paths c -> window_open x && wants_to_send_init c = false))).
Proof.
  intros Hok Hst. unfold set_next_wake_time. destruct (Z.ltb_spec (PacketIn.state_value (state_of c)) (PacketIn.state_value client_ready)) as [_|?]; [|lia].
  unfold picoquic_cnx_set_next_wake_time_init. fold (handshake_time c).
  assert (Hnow : forall t, t = now -> (forall d, d ∈ deadlines_init c -> t <= Z.max now d) /\ (t = now \/ t ∈ deadlines_init c) /\
      (now < t -> forall x, x ∈ paths c -> window_open x && wants_to_send_init c = false)) by (intros t ->; split_and!; [intros d _; lia|by left|lia]).
  destruct (Z.ltb_spec (handshake_time c) now) as [?|Hle]; [eexists _, _, _; split; [reflexivity|]; right; by apply Hnow|].
  destruct (send_loop_init_spec c now (paths c) 0 (Verdict true false (handshake_time c) []) eq_refl eq_refl) as (l & v & -> & Hr & Hv). unfold loop_result in Hv. cbn [next_time] in Hv.
  destruct (blocked v), (pacing v); cbn [negb].
  - destruct Hv as (x & Hx & Hpx & Hn). eexists _, _, _. split; [reflexivity|]. left. exists x. by split_and!.
  - destruct Hv as [Hn Hv]. rewrite Hn. change (ready_contexts (set_paths l c)) with (ready_contexts c).
    rewrite (contexts_time_spec context_time_init context_deadlines_init context_time_init_spec (fun x k t b => eq_refl) (ready_contexts c) (paths c) l (ready_contexts_small c) Hok Hr).
    cbn [mbind option_bind]. eexists _, _, _. split; [reflexivity|]. right. unfold deadlines_init. set (ds := ready_contexts c ≫= _). destruct (mins_spec ds (handshake_time c)) as (M1 & M2 & M3). split_and!.
    + intros d [->|Hd]%elem_of_cons; [lia|specialize (M2 d Hd); lia].
    + right. destruct M3 as [->|M3]; [left|by right].
    + intros _ x Hx. by apply Hv.
  - eexists _, _, _. split; [reflexivity|]. right. by apply Hnow.
  - eexists _, _, _. split; [reflexivity|]. right. by apply Hnow.
Qed.

(** ** The wake list *)

(** [picoquic_cnx_set_next_wake_time]: the connection [x] of a context, with the fields that the computation reads, gets its new place in the wake list. *)
Definition picoquic_cnx_set_next_wake_time (q : Connections.quic) (x : positive) (c : cnx) (current_time : Z) : option (Connections.quic * cnx) :=
  '(c, t, _) ← set_next_wake_time c current_time;
  q ← Connections.picoquic_reinsert_by_wake_time q x t;
  Some (q, c).

Lemma reinserted_wakes_at q a x t q' : Connections.represents q a -> x ∈ Connections.order a -> Connections.picoquic_reinsert_by_wake_time q x t = Some q' ->
  Connections.wakes_at q' x = Some t /\ (forall id, Connections.picoquic_cnx_by_id q' id = Connections.picoquic_cnx_by_id q id).
Proof.
  intros H Hx E. destruct (Connections.reinsert_ok q a x t H Hx) as (q1 & E1 & H1). rewrite E in E1. injection E1 as <-. split.
  - apply (Connections.lk_times _ _ _ (Connections.rp_lists _ _ H1)). cbn [Connections.wakes].
    destruct (Connections.insert_wake_split x t (Connections.drop_wake x (Connections.wakes a))) as (l1 & l2 & _ & -> & _). apply elem_of_app. right. left.
  - intros id. by rewrite (Connections.by_id_ok q' _ id H1), (Connections.by_id_ok q _ id H).
Qed.

(** ** Nothing waits for an acknowledgement *)

(** The walk from the oldest packet along [previous_packet]. *)
Fixpoint queue_backlog_empty (fuel : nat) (k : packet_context) (p : option nat) : option bool :=
  match p with
  | None => Some true
  | Some p =>
    q ← packets k !! p;
    if negb (is_pure_ack q) && negb (is_mtu_probe q) then Some false
    else match fuel with O => None | S fuel => queue_backlog_empty fuel k (Retransmit.previous_packet (pkt q)) end
  end.

Fixpoint paths_backlog_empty (pc : nat) (l : list path) : option bool :=
  match l with
  | [] => Some true
  | x :: l =>
    k ← pkt_ctx x !! pc;
    b ← queue_backlog_empty (size (packets k)) k (retransmit_oldest k);
    if (b : bool) then paths_backlog_empty pc l else Some false
  end.

Fixpoint contexts_backlog_empty (pcs : list nat) (l : list path) : option bool :=
  match pcs with
  | [] => Some true
  | pc :: pcs => b ← paths_backlog_empty pc l; if (b : bool) then contexts_backlog_empty pcs l else Some false
  end.

Definition picoquic_is_cnx_backlog_empty (c : cnx) : option bool := contexts_backlog_empty (contexts c) (paths c).

(** The packets from [p] on, newer ones later. *)
Fixpoint newer_chain (k : packet_context) (p : option nat) (l : list queued) : Prop :=
  match l with
  | [] => p = None
  | q :: l => exists n, p = Some n /\ packets k !! n = Some q /\ newer_chain k (Retransmit.previous_packet (pkt q)) l
  end.

Definition waits (q : queued) : bool := negb (is_pure_ack q) && negb (is_mtu_probe q).

Lemma queue_backlog_spec k l : forall fuel p, newer_chain k p l -> (length l <= fuel)%nat -> queue_backlog_empty fuel k p = Some (negb (existsb waits l)).
Proof.
  induction l as [|q l IH]; intros fuel p Hc Hl; cbn [newer_chain] in Hc; [subst p; by destruct fuel|]. destruct Hc as (n & -> & Hn & Hc). destruct fuel as [|fuel]; [cbn in Hl; lia|].
  cbn [queue_backlog_empty existsb]. rewrite Hn. cbn [mbind option_bind]. fold (waits q). destruct (waits q); cbn [orb negb]; [done|]. apply IH; [done|cbn in Hl; lia].
Qed.

Section Backlog.
Context (queue : path -> nat -> list queued).
Context (queue_ok : forall x pc k, pkt_ctx x !! pc = Some k -> newer_chain k (retransmit_oldest k) (queue x pc) /\ (length (queue x pc) <= size (packets k))%nat).

Lemma paths_backlog_spec pc l : (pc < 3)%nat -> forallb path_ok l = true -> paths_backlog_empty pc l = Some (negb (existsb (fun x => existsb waits (queue x pc)) l)).
Proof.
  intros Hpc. induction l as [|x l IH]; intros Hl; [done|]. cbn in Hl. apply andb_true_iff in Hl as [Hx Hl]. cbn [paths_backlog_empty existsb].
  destruct (path_context x pc Hx Hpc) as (k & Ek & _). rewrite Ek. cbn [mbind option_bind]. destruct (queue_ok x pc k Ek) as [Hc Hsz]. rewrite (queue_backlog_spec k _ _ _ Hc Hsz). cbn [mbind option_bind].
  destruct (existsb waits (queue x pc)); cbn [negb orb]; [done|by apply IH].
Qed.

Lemma backlog_spec c : cnx_ok c = true ->
  picoquic_is_cnx_backlog_empty c = Some (negb (existsb (fun pc => existsb (fun x => existsb waits (queue x pc)) (paths c)) (contexts c))).
Proof.
  intros Hc. unfold picoquic_is_cnx_backlog_empty. pose proof (contexts_small c) as Hs. revert Hs. generalize (contexts c). intros pcs Hs. induction Hs as [|pc pcs Hpc Hs IH]; [done|].
  cbn [contexts_backlog_empty existsb]. rewrite paths_backlog_spec by done. cbn [mbind option_bind]. destruct (existsb _ (paths c)); cbn [negb orb]; [done|exact IH].
Qed.
End Backlog.

(** ** The theorems *)

(** C16. A connection that is ready never sleeps too long and never wakes for nothing: computing its next wake time always gives an
    answer and moves it to that time in the wake list.  Either a path with data and an open window waits for its pacing bucket, and
    the connection wakes when the bucket allows the next packet; or it wakes by every deadline (delayed ACK, loss or
    retransmission timer of each context, path challenge, keep-alive, idle timeout), it wakes now or exactly at one of them,
    and it only waits when nothing can be sent now. *)
Theorem wakes_in_time (q : Connections.quic) (a : Connections.abstract) (x : positive) (c : cnx) (current_time : Z) :
  Connections.represents q a -> x ∈ Connections.order a -> cnx_ok c = true -> PacketIn.state_value client_ready <= PacketIn.state_value (state_of c) ->
  exists q' c' t, picoquic_cnx_set_next_wake_time q x c current_time = Some (q', c') /\ Connections.wakes_at q' x = Some t /\ wake_now c' = false /\
    ((exists y, y ∈ paths c /\ paced c current_time y = true /\ t = Z.min (idle_time c) (pacing_time y current_time)) \/ in_time c current_time t).
Proof.
  intros H Hx Hok Hst. destruct (wake_time_ready c current_time Hok Hst) as (c' & t & notes & E & Hw & Ht). unfold picoquic_cnx_set_next_wake_time. rewrite E. cbn [mbind option_bind].
  destruct (Connections.reinsert_ok q a x t H Hx) as (q' & E' & _). rewrite E'. cbn [mbind option_bind]. exists q', c', t. split; [done|].
  split; [|done]. by destruct (reinserted_wakes_at q a x t q' H Hx E').
Qed.

(** A client with one path: an ACK frame may wait until 1500, the oldest packet is repeated at 2000. *)
Definition sample_packet : queued := Queued (Retransmit.Pkt None None 7 one_rtt_protected_phi0 1200 1216 1000 true []) false false false.
Definition no_context : packet_context := PacketContext false UINT64_MAX 0 0 UINT64_MAX UINT64_MAX 0 0 ∅ None.
Definition sample_context : packet_context := PacketContext true 3 1400 100 4 5 0 0 {[ 1%nat := sample_packet ]} (Some 1%nat).
Definition sample_path : path :=
  Path [sample_context; no_context; no_context] true 0 0 1000 500 0 12000 1216 (Retransmit.Pacing 0 1000 16000 1000 2) 1280 1280 false.
Definition sample_cnx (s : cnx_state) (l : list path) : cnx :=
  Cnx s true 0 900 true false false false 0 0 100000 false [None; None; None; None] [true; false; true; true] false false false 0 0 l.
Definition sample_quic_ops : list Connections.operation := [Connections.Create true true (true, true) (true, true) 1 0 [1; 2; 3; 4] None].

Lemma wakes_in_time_witness : exists q q' c', Connections.picoquic_cnx_by_id q [1; 2; 3; 4] = Some (Some 1%positive) /\
  picoquic_cnx_set_next_wake_time q 1 (sample_cnx client_ready [sample_path]) 1450 = Some (q', c') /\ Connections.wakes_at q' 1 = Some 1500.
Proof.
  destruct (Connections.create_context_ok 8 ltac:(lia)) as (q0 & E0 & H0).
  destruct (Connections.run_all_ok sample_quic_ops q0 Connections.empty H0 ltac:(constructor) ltac:(vm_compute; reflexivity)) as (q & E & H & _). exists q.
  destruct (wakes_in_time q _ 1 (sample_cnx client_ready [sample_path]) 1450 H) as (q' & c' & t & E' & Hw & _).
  - vm_compute. left.
  - vm_compute. reflexivity.
  - vm_compute. discriminate.
  - exists q', c'. split; [rewrite (Connections.by_id_ok q _ _ H); vm_compute; reflexivity|]. split; [exact E'|].
    assert (Es : set_next_wake_time (sample_cnx client_ready [sample_path]) 1450 = Some (wake_up_done (sample_cnx client_ready [sample_path]) [sample_path], 1500, [])) by (vm_compute; reflexivity).
    unfold picoquic_cnx_set_next_wake_time in E'. rewrite Es in E'. cbn [mbind option_bind] in E'.
    destruct (Connections.picoquic_reinsert_by_wake_time q 1 1500) as [q1|] eqn:Er; [|discriminate E']. cbn in E'. injection E' as <- <-.
    apply (proj1 (reinserted_wakes_at q _ 1 1500 q1 H ltac:(vm_compute; left) Er)).
Defined.

(** During the handshake the wake time is also found in every state: a path that waits for its pacing decides, or else the connection wakes
    by every deadline of the contexts whose keys are ready and by the end of the handshake, now or exactly at one of them, and it
    waits only when no path with an open window has anything to send. *)
Theorem handshake_wakes_in_time (c : cnx) (current_time : Z) : cnx_ok c = true -> PacketIn.state_value (state_of c) < PacketIn.state_value client_ready ->
  exists c' t notes, set_next_wake_time c current_time = Some (c', t, notes) /\
    ((exists x, x ∈ paths c /\ paced_init c current_time x = true /\ t = Z.min (handshake_time c) (pacing_time x current_time)) \/
     ((forall d, d ∈ deadlines_init c -> t <= Z.max current_time d) /\ (t = current_time \/ t ∈ deadlines_init c) /\
      (current_time < t -> forall x, x ∈ paths c -> window_open x && wants_to_send_init c = false))).
Proof. apply wake_time_handshake. Qed.

(** An ACK frame for two packets is due in the initial context at time 1450. *)
Definition handshake_path : path :=
  Path [no_context; no_context; PacketContext true 3 1400 25000 5 5 0 0 ∅ None] true 0 0 1000 500 0 12000 0 (Retransmit.Pacing 0 1000 16000 1000 2) 1280 1280 false.

Lemma handshake_wakes_in_time_witness : exists c' notes, set_next_wake_time (sample_cnx client_init_sent [handshake_path]) 1450 = Some (c', 26400, notes).
Proof.
  destruct (handshake_wakes_in_time (sample_cnx client_init_sent [handshake_path]) 1450) as (c' & t & notes & E & _).
  - vm_compute. reflexivity.
  - vm_compute. reflexivity.
  - exists c', notes. rewrite E. vm_compute in E. injection E as _ <- _. reflexivity.
Defined.

(** The loop over due acknowledgements and retransmissions is never entered during the handshake: an ACK frame that is due at once
    waits for the end of the ACK delay. *)
Example handshake_ack_delayed : is_ack_needed (PacketContext true 3 1400 25000 5 5 0 0 ∅ None) 1450 = true /\
  (exists c' notes, set_next_wake_time (sample_cnx client_init_sent [handshake_path]) 1450 = Some (c', 26400, notes)) /\
  (exists c' notes, set_next_wake_time (sample_cnx client_ready [Path [PacketContext true 3 1400 25000 5 5 0 0 ∅ None; no_context; no_context] true 0 0 1000 500 0 12000 0
      (Retransmit.Pacing 0 1000 16000 1000 2) 1280 1280 false]) 1450 = Some (c', 1450, notes)).
Proof. split; [vm_compute; reflexivity|]. split; eexists _, _; vm_compute; reflexivity. Qed.
End Timers.
