(* ===== verification/PathMtu.v ===== *)
(** * Discovery of the path MTU

    picoquic/sender.c
      [prepare_mtu_probe], the part of [schedule_frames_on_path] that sends a probe and the part of
      [retransmit_needed] that handles a lost one; the length of the next probe and the test that one is
      needed are in [Timers]
    picoquic/frames.c
      what an acknowledged packet, also one acknowledged late, says about the path

    The network is a function of the model: a probe arrives when its size is at most that of the path and it is not
    dropped for another reason. *)
From stdpp Require Import base list numbers.
From Stdlib Require Import ZArith Lia Bool.
From S2P Require Import Prelude Packet Retransmit Timers.
#[local] Open Scope Z_scope.

Module PathMtu.
Import Timers.

Definition picoquic_frame_type_ping : Z := 1.

Definition set_mtu (mtu tried : Z) (sent : bool) (x : path) : path :=
  Path (pkt_ctx x) (challenge_verified x) (challenge_repeat_count x) (challenge_time x) (retransmit_timer x) (smoothed_rtt x)
    (last_1rtt_acknowledged_at x) (cwin x) (bytes_in_transit x) (bucket x) mtu tried sent.

(** The packet buffer with a PING frame and padding behind the header, and the length without the checksum; [None] when it does not fit into the buffer. *)
Definition prepare_mtu_probe (c : cnx) (x : path) (header_length checksum_length : Z) (bytes : list Z) : option (list Z * Z) :=
  let probe_length := u32 (picoquic_mtu_probe_length c x) in
  let padding := u32 (probe_length - checksum_length - (header_length + 2)) in
  if header_length + 2 + padding <=? Z.of_nat (length bytes) then
    let start := Z.to_nat header_length in
    let content := [picoquic_frame_type_ping; 0] ++ replicate (Z.to_nat padding) 0 in
    Some (take start bytes ++ content ++ drop (start + length content) bytes, u32 (probe_length - checksum_length))
  else None.

(** An acknowledged packet larger than the MTU raises it. *)
Definition packet_acked (len checksum_overhead : Z) (x : path) : path :=
  if send_mtu x <? u32 (len + checksum_overhead) then set_mtu (u32 (len + checksum_overhead)) (send_mtu_max_tried x) false x else x.

(** One that was taken for lost also raises the upper end of the search. *)
Definition spurious_acked (len checksum_overhead : Z) (x : path) : path :=
  if send_mtu x <? u32 (len + checksum_overhead) then
    let mtu := u32 (len + checksum_overhead) in
    set_mtu mtu (if send_mtu_max_tried x <? mtu then mtu else send_mtu_max_tried x) false x
  else x.

(** A lost probe; one that is not longer than the MTU without its checksum is handled as any other packet. *)
Definition probe_lost (len : Z) (x : path) : path := if send_mtu x <? len then set_mtu (send_mtu x) len false x else x.

Definition probe_sent (x : path) : path := set_mtu (send_mtu x) (send_mtu_max_tried x) true x.

(** One round of the search on a path that carries datagrams of at most [path_mtu] bytes: the probe is sent, and it is acknowledged or declared lost. *)
Definition probe_round (c : cnx) (checksum_overhead path_mtu : Z) (dropped : bool) (x : path) : path :=
  if picoquic_is_mtu_probe_needed c x then
    let size := picoquic_mtu_probe_length c x in
    let len := u32 (size - checksum_overhead) in
    if negb dropped && (size <=? path_mtu) then packet_acked len checksum_overhead (probe_sent x) else probe_lost len (probe_sent x)
  else x.

Definition search (c : cnx) (checksum_overhead path_mtu : Z) (drops : list bool) (x : path) : path :=
  foldl (fun x dropped => probe_round c checksum_overhead path_mtu dropped x) x drops.

(** ** The search ends *)

Section Search.
Context (c : cnx) (overhead path_mtu : Z).

Lemma search_stop drops x : picoquic_is_mtu_probe_needed c x = false -> search c overhead path_mtu drops x = x.
Proof.
  intros Hn. unfold search. induction drops as [|d drops IH]; [done|]. cbn [foldl]. assert (E : probe_round c overhead path_mtu d x = x) by (unfold probe_round; by rewrite Hn). by rewrite E.
Qed.

Lemma sent_not_needed x : mtu_probe_sent x = true -> picoquic_is_mtu_probe_needed c x = false.
Proof. intros Hs. unfold picoquic_is_mtu_probe_needed. rewrite Hs. cbn [negb]. by rewrite andb_false_r. Qed.

(** What the sizes of a search say about the path. *)
Definition sizes_ok (x : path) : Prop := 0 <= overhead <= send_mtu x /\ send_mtu x < 2 ^ 31 /\ 0 <= send_mtu_max_tried x < 2 ^ 31 /\ send_mtu x <= path_mtu.

(** After a round in which a probe of the size [p] was sent. *)
Inductive after_round (dropped : bool) (p : Z) (x : path) : path -> Prop :=
  | round_acked : dropped = false -> p <= path_mtu -> after_round dropped p x (set_mtu p (send_mtu_max_tried x) false x)
  | round_lost : (dropped = false -> path_mtu < p) -> send_mtu x < p - overhead -> after_round dropped p x (set_mtu (send_mtu x) (p - overhead) false x)
  | round_stuck : (dropped = false -> path_mtu < p) -> p - overhead <= send_mtu x -> after_round dropped p x (probe_sent x).

Lemma probe_round_cases dropped x : sizes_ok x -> picoquic_mtu_probe_length c x < 2 ^ 32 -> picoquic_is_mtu_probe_needed c x = true ->
  after_round dropped (picoquic_mtu_probe_length c x) x (probe_round c overhead path_mtu dropped x).
Proof.
  intros (Ho & Hm & _ & _) Hp Hn. unfold probe_round. rewrite Hn. assert (Hgt : send_mtu x < picoquic_mtu_probe_length c x).
  { unfold picoquic_is_mtu_probe_needed in Hn. apply andb_true_iff in Hn as [_ Hn]. lia. }
  set (p := picoquic_mtu_probe_length c x) in *. rewrite (u32_small (p - overhead)) by lia. destruct (negb dropped && (p <=? path_mtu)) eqn:E.
  - apply andb_true_iff in E as [Ed E]. unfold packet_acked. rewrite u32_small by lia. replace (p - overhead + overhead) with p by lia.
    change (send_mtu (probe_sent x)) with (send_mtu x). destruct (Z.ltb_spec (send_mtu x) p); [|lia].
    change (set_mtu p (send_mtu_max_tried (probe_sent x)) false (probe_sent x)) with (set_mtu p (send_mtu_max_tried x) false x). apply round_acked; [by destruct dropped|lia].
  - assert (Hlost : dropped = false -> path_mtu < p) by (intros ->; cbn in E; lia). unfold probe_lost. change (send_mtu (probe_sent x)) with (send_mtu x).
    destruct (Z.ltb_spec (send_mtu x) (p - overhead)); [|by apply round_stuck].
    change (set_mtu (send_mtu x) (p - overhead) false (probe_sent x)) with (set_mtu (send_mtu x) (p - overhead) false x). by apply round_lost.
Qed.

(** The bisection: [n] rounds are enough for an interval of 2^n bytes. *)
Lemma bisect_ends n : forall drops x, sizes_ok x -> send_mtu_max_tried x <> 0 -> send_mtu_max_tried x <= send_mtu x + 2 ^ Z.of_nat n -> (n <= length drops)%nat ->
  let y := search c overhead path_mtu drops x in
  picoquic_is_mtu_probe_needed c y = false /\ send_mtu x <= send_mtu y <= path_mtu /\
  (Forall (eq false) drops -> cnx_ready c = true -> mtu_probe_sent x = false -> path_mtu < send_mtu_max_tried x + overhead -> path_mtu < send_mtu y + 10 + overhead).
Proof.
  induction n as [|n IH]; intros drops x Hs Ht Hd Hl y; pose proof Hs as (Ho & Hm & Htr & Hle).
  all: destruct (picoquic_is_mtu_probe_needed c x) eqn:Hn.
  2, 4: unfold y; rewrite search_stop by done; split_and!; [done|lia|lia|]; intros _ Hr Hsent Hp; unfold picoquic_is_mtu_probe_needed in Hn; rewrite Hr, Hsent in Hn; cbn [negb andb] in Hn;
    destruct (Z.eqb_spec (send_mtu_max_tried x) 0) as [|_]; [done|]; rewrite u32_small in Hn by lia; cbn [orb] in Hn; unfold picoquic_mtu_probe_length in Hn;
    destruct (Z.eqb_spec (send_mtu_max_tried x) 0) as [|_]; [done|]; rewrite u32_small in Hn by lia; pose proof (Z.div_mod (send_mtu x + send_mtu_max_tried x) 2); pose proof (Z.mod_pos_bound (send_mtu x + send_mtu_max_tried x) 2); lia.
  all: assert (Hgap : send_mtu x + 10 < send_mtu_max_tried x /\ picoquic_mtu_probe_length c x = (send_mtu x + send_mtu_max_tried x) / 2).
  1, 3: unfold picoquic_is_mtu_probe_needed in Hn; unfold picoquic_mtu_probe_length in *; destruct (Z.eqb_spec (send_mtu_max_tried x) 0) as [|_]; [done|];
    rewrite !u32_small in * by lia; cbn [orb] in Hn; lia.
  { exfalso. change (2 ^ Z.of_nat 0) with 1 in Hd. lia. }
  destruct Hgap as [Hgap Hp]. destruct drops as [|d drops]; [cbn in Hl; lia|]. change y with (search c overhead path_mtu drops (probe_round c overhead path_mtu d x)). clear y.
  assert (Hmid : send_mtu x + 5 <= (send_mtu x + send_mtu_max_tried x) / 2 < send_mtu_max_tried x /\ 2 * ((send_mtu x + send_mtu_max_tried x) / 2) <= send_mtu x + send_mtu_max_tried x <= 2 * ((send_mtu x + send_mtu_max_tried x) / 2) + 1).
  { pose proof (Z.div_mod (send_mtu x + send_mtu_max_tried x) 2). pose proof (Z.mod_pos_bound (send_mtu x + send_mtu_max_tried x) 2). lia. }
  rewrite Nat2Z.inj_succ, Z.pow_succ_r in Hd by lia. cbn in Hl. pose proof (probe_round_cases d x Hs ltac:(lia) Hn) as Hr. rewrite Hp in Hr. set (p := (send_mtu x + send_mtu_max_tried x) / 2) in *.
  destruct Hr as [Hdr Hpm|Hlost Hlt|Hlost Hle'].
  - destruct (IH drops (set_mtu p (send_mtu_max_tried x) false x)) as (H1 & H2 & H3); [unfold sizes_ok; cbn [send_mtu send_mtu_max_tried set_mtu]; lia|done|cbn [send_mtu send_mtu_max_tried set_mtu]; lia|lia|].
    cbn [send_mtu send_mtu_max_tried set_mtu mtu_probe_sent] in *. split_and!; [done|lia|lia|]. intros [_ Hf]%list.Forall_cons Hrd _ Hpm'. by apply H3.
  - destruct (IH drops (set_mtu (send_mtu x) (p - overhead) false x)) as (H1 & H2 & H3); [unfold sizes_ok; cbn [send_mtu send_mtu_max_tried set_mtu]; lia|cbn [send_mtu_max_tried set_mtu]; lia|cbn [send_mtu send_mtu_max_tried set_mtu]; lia|lia|].
    cbn [send_mtu send_mtu_max_tried set_mtu mtu_probe_sent] in *. split_and!; [done|lia|lia|]. intros [Hd0 Hf]%list.Forall_cons Hrd _ _. apply H3; [done|done|done|]. specialize (Hlost (eq_sym Hd0)). lia.
  - rewrite search_stop by (by apply sent_not_needed). split_and!; [by apply sent_not_needed|cbn; lia|cbn; lia|]. intros [Hd0 _]%list.Forall_cons _ _ _. specialize (Hlost (eq_sym Hd0)). cbn. lia.
Qed.

(** The first probe has the largest size; once it has arrived there is nothing left to try. *)
Lemma largest_tried x : send_mtu_max_tried x = 0 -> picoquic_is_mtu_probe_needed c (set_mtu (picoquic_mtu_probe_length c x) 0 false x) = false.
Proof.
  intros Ht. unfold picoquic_is_mtu_probe_needed, picoquic_mtu_probe_length. rewrite Ht. cbn [send_mtu_max_tried set_mtu send_mtu]. change (0 =? 0) with true. cbn iota.
  apply andb_false_iff. right. destruct (0 <? max_packet_size c); [|destruct (0 <? mtu_max c); lia]. set (q := if (0 <? mtu_max c) && _ then _ else _).
  destruct (Z.ltb_spec q (send_mtu x)); [destruct (Z.ltb_spec q (send_mtu x)); lia|]. destruct (Z.ltb_spec q q); lia.
Qed.

End Search.

(** ** The theorem *)

(** C35. The search for the path MTU ends, is safe and comes close: after one probe and as many more as halve the interval, whatever probes are
    lost, no more probes are needed; the MTU in use never shrinks and never exceeds what the path carries; and if probes are only lost
    for their size, the MTU in use is the largest size that is tried at all, or the path carries less than
    10 bytes and a checksum more. *)
Theorem path_mtu_found (c : cnx) (overhead path_mtu : Z) (drops : list bool) (x : path) (n : nat) :
  cnx_ready c = true -> send_mtu_max_tried x = 0 -> mtu_probe_sent x = false -> 0 <= overhead <= send_mtu x -> send_mtu x <= path_mtu -> send_mtu x < 2 ^ 31 ->
  picoquic_mtu_probe_length c x < 2 ^ 31 -> picoquic_mtu_probe_length c x <= send_mtu x + 2 ^ Z.of_nat n -> (S n <= length drops)%nat ->
  let y := search c overhead path_mtu drops x in
  picoquic_is_mtu_probe_needed c y = false /\ send_mtu x <= send_mtu y <= path_mtu /\
  (Forall (eq false) drops -> send_mtu y = Z.max (send_mtu x) (picoquic_mtu_probe_length c x) \/ path_mtu < send_mtu y + 10 + overhead).
Proof.
  intros Hr Ht Hsent Ho Hle Hm Hp0 Hp Hl y. assert (Hs : sizes_ok overhead path_mtu x) by (unfold sizes_ok; lia).
  destruct (picoquic_is_mtu_probe_needed c x) eqn:Hn.
  2: { unfold y. rewrite search_stop by done. split_and!; [done|lia|lia|]. intros _. left. unfold picoquic_is_mtu_probe_needed in Hn. rewrite Hr, Hsent, Ht in Hn. change (0 =? 0) with true in Hn. cbn in Hn. lia. }
  destruct drops as [|d drops]; [cbn in Hl; lia|]. change y with (search c overhead path_mtu drops (probe_round c overhead path_mtu d x)). clear y. cbn in Hl.
  assert (Hgt : send_mtu x < picoquic_mtu_probe_length c x) by (unfold picoquic_is_mtu_probe_needed in Hn; apply andb_true_iff in Hn as [_ Hn]; lia).
  destruct (probe_round_cases c overhead path_mtu d x Hs ltac:(lia) Hn) as [Hd Hpm|Hlost Hlt|Hlost Hle'].
  - rewrite Ht, search_stop by (by apply largest_tried). split_and!; [by apply largest_tried|cbn; lia|cbn; lia|]. intros _. left. cbn [send_mtu set_mtu]. lia.
  - set (p := picoquic_mtu_probe_length c x) in *.
    destruct (bisect_ends c overhead path_mtu n drops (set_mtu (send_mtu x) (p - overhead) false x)) as (H1 & H2 & H3);
      [unfold sizes_ok; cbn [send_mtu send_mtu_max_tried set_mtu]; lia|cbn [send_mtu_max_tried set_mtu]; lia|cbn [send_mtu send_mtu_max_tried set_mtu]; lia|lia|].
    cbn [send_mtu send_mtu_max_tried set_mtu mtu_probe_sent] in *. split_and!; [done|lia|lia|]. intros [Hd0 Hf]%list.Forall_cons. right. apply H3; [done|done|done|]. specialize (Hlost (eq_sym Hd0)). lia.
  - rewrite search_stop by (by apply sent_not_needed). split_and!; [by apply sent_not_needed|cbn; lia|cbn; lia|]. intros [Hd0 _]%list.Forall_cons. specialize (Hlost (eq_sym Hd0)). right. cbn. lia.
Qed.

(** A path of 1316 bytes, searched from 1252 to 1350. *)
Definition start_path : path := Path [] true 0 0 1000 500 0 12000 0 (Retransmit.Pacing 0 1000 16000 1000 2) 1252 0 false.
Definition start_cnx : cnx := Cnx Packet.client_ready true 0 0 true false false false 0 0 0 false [] [] false false false 1500 0 [start_path].

Lemma path_mtu_found_witness : picoquic_is_mtu_probe_needed start_cnx (search start_cnx 16 1316 (replicate 8 false) start_path) = false /\
  1316 < send_mtu (search start_cnx 16 1316 (replicate 8 false) start_path) + 26.
Proof.
  destruct (path_mtu_found start_cnx 16 1316 (replicate 8 false) start_path 7) as (H1 & _ & H3).
  - reflexivity.
  - reflexivity.
  - reflexivity.
  - vm_compute. split; discriminate.
  - vm_compute. discriminate.
  - vm_compute. reflexivity.
  - vm_compute. reflexivity.
  - vm_compute. discriminate.
  - cbn. lia.
  - split; [exact H1|]. destruct (H3 ltac:(repeat constructor)) as [E|E]; [vm_compute in E; discriminate E|lia].
Defined.

(** The upper end of the search forgets the checksum: a lost probe of 1350 bytes ends it below 1334, although the path carries 1340. *)
Example search_ends_early : send_mtu (search start_cnx 16 1340 (replicate 20 false) start_path) = 1328.
Proof. vm_compute. reflexivity. Qed.

(** With a large [mtu_max] the first probe is longer than the buffer of a packet. *)
Example probe_overruns_packet : prepare_mtu_probe (Cnx Packet.client_ready true 0 0 true false false false 0 0 0 false [] [] false false false 0 1500 [start_path]) start_path 20 16
  (replicate (Z.to_nat PICOQUIC_MAX_PACKET_SIZE) 0) = None.
Proof. vm_compute. reflexivity. Qed.
End PathMtu.
