(* ===== verification/FecReceiver.v ===== *)
(** * Packets and symbols

    plugins/simple_fec/fec.h
      the frames of a packet that are protected, and how they are cut into source symbols
    plugins/simple_fec/window_framework/framework_receiver.h
      the receiver: source and repair symbols that arrive, the packets put together again from
      recovered symbols, the window that is advertised

    The bytes of a symbol are a metadata byte, with the flags N (the symbol starts with the packet number), S (start of
    a packet) and E (end of a packet), and a chunk.  Reading or writing outside of a block, a copy of a negative length and a
    null pointer that is followed are [None].  The coding scheme is a class of operations. *)
From stdpp Require Import base list gmap numbers.
From Stdlib Require Import ZArith Lia Bool.
From S2P Require Import Prelude Frames FecFrames WindowBuffers.
#[local] Open Scope Z_scope.

Module FecReceiver.

Definition picoquic_frame_type_stream_range_min : Z := 0x08.
Definition picoquic_frame_type_stream_range_max : Z := 0x0f.
Definition PICOQUIC_MAX_PACKET_SIZE : Z := 1350.

(** ** Symbols *)

Record source_symbol := Symbol { id : Z; chunk_size : Z; whole_data : list Z }.

Definition metadata (s : source_symbol) : Z := default 0 (whole_data s !! 0%nat).
Definition chunk_data (s : source_symbol) : list Z := drop 1 (whole_data s).

Definition set_metadata (f : Z -> Z) (data : list Z) : list Z := alter f 0%nat data.
Definition set_ss_metadata_N (val : bool) (data : list Z) : list Z := set_metadata (fun m => if val then Z.lor m 4 else Z.land m 3) data.
Definition set_ss_metadata_S (val : bool) (data : list Z) : list Z := set_metadata (fun m => if val then Z.lor m 2 else Z.land m 5) data.
Definition set_ss_metadata_E (val : bool) (data : list Z) : list Z := set_metadata (fun m => if val then Z.lor m 1 else Z.land m 6) data.
Definition get_ss_metadata_N (s : source_symbol) : bool := negb (Z.land (metadata s) 4 =? 0).
Definition get_ss_metadata_S (s : source_symbol) : bool := negb (Z.land (metadata s) 2 =? 0).
Definition get_ss_metadata_E (s : source_symbol) : bool := negb (Z.land (metadata s) 1 =? 0).

(** A block of zeros; [chunk_size] of the structure is left at zero. *)
Definition create_larger_source_symbol (chunk : Z) : list Z := replicate (Z.to_nat (chunk + 1)) 0.
Definition created_chunk_size : Z := 0.

(** [my_memcpy] of [n] bytes from [offset] of a block. *)
Definition slice (block : list Z) (offset n : Z) : option (list Z) :=
  if (0 <=? n) && (offset + n <=? Z.of_nat (length block)) then Some (take (Z.to_nat n) (drop (Z.to_nat offset) block)) else None.

(** [my_memcpy] of [data] to [offset] of a block. *)
Definition copy_to (block : list Z) (offset : Z) (data : list Z) : option (list Z) :=
  if offset + Z.of_nat (length data) <=? Z.of_nat (length block) then
    Some (take (Z.to_nat offset) block ++ data ++ drop (Z.to_nat offset + length data) block)
  else None.

(** ** From packets to symbols *)

Definition is_stream_type (type_byte : Z) : bool :=
  (picoquic_frame_type_stream_range_min <=? type_byte) && (type_byte <=? picoquic_frame_type_stream_range_max).

(** The STREAM frames of a payload, or the error of the first frame that cannot be skipped.  The outer [None] is also the loop over a frame of
    which nothing is consumed. *)
Fixpoint preprocess_packet_payload (fuel : nat) (payload : list Z) : option (Z + list Z) :=
  match payload with
  | [] => Some (inr [])
  | type_byte :: _ =>
    let '(err, consumed, _) := Frames.skip_frame payload in
    if negb (err =? 0) then Some (inl err)
    else
      match fuel with
      | O => None
      | S fuel =>
        frame ← slice payload 0 consumed;
        r ← preprocess_packet_payload fuel (drop (Z.to_nat consumed) payload);
        Some (match r with inl err => inl err | inr out => inr (if is_stream_type type_byte then frame ++ out else out) end)
      end
  end.

(** The symbols behind the first one. *)
Fixpoint next_symbols (n : nat) (processed : list Z) (chunk offset : Z) : option (list (list Z)) :=
  match n with
  | O => Some []
  | S n =>
    data ← slice processed offset chunk;
    symbol ← copy_to (create_larger_source_symbol chunk) 1 data;
    symbols ← next_symbols n processed chunk (offset + chunk);
    Some (set_ss_metadata_N false symbol :: symbols)
  end.

Definition first_symbol (processed : list Z) (chunk padding : Z) : option (list Z) :=
  let symbol := set_ss_metadata_S true (set_ss_metadata_N true (create_larger_source_symbol chunk)) in
  number ← slice processed 0 8;
  symbol ← copy_to symbol 1 number;
  data ← slice processed 8 (chunk - padding - 8);
  copy_to symbol (1 + 8 + padding) data.

Definition set_last_end (l : list (list Z)) : list (list Z) := alter (set_ss_metadata_E true) (length l - 1)%nat l.

(** [packet_payload_to_source_symbols]: the bytes of the symbols.  [tmp_buffer] is the block behind the same name; [inl] is the null pointer. *)
Definition packet_payload_to_source_symbols (malloc_ok : bool) (tmp_buffer payload : list Z) (symbol_size packet_number : Z) : option (unit + list (list Z)) :=
  let payload_length := Z.of_nat (length payload) in
  if payload_length =? 0 then Some (inl tt)
  else
    buffer ← copy_to tmp_buffer 0 (replicate (Z.to_nat (payload_length + 8)) 0);
    let chunk := u16 (symbol_size - 1) in
    buffer ← copy_to buffer 0 (FecFrames.encode_u64 packet_number);
    r ← preprocess_packet_payload (length payload) payload;
    match r with
    | inl _ => Some (inl tt)
    | inr frames =>
      buffer ← copy_to buffer 8 frames;
      let processed_length := 8 + Z.of_nat (length frames) in
      let padded_length := u16 (if processed_length mod chunk =? 0 then processed_length else chunk * (processed_length / chunk + 1)) in
      let padding_length := u16 (padded_length - processed_length) in
      let n_chunks := padded_length / chunk in
      if negb malloc_ok then Some (inl tt)
      else if n_chunks =? 0 then Some (inr [])
      else
        first ← first_symbol buffer chunk padding_length;
        symbols ← next_symbols (Z.to_nat (n_chunks - 1)) buffer chunk (8 + (chunk - padding_length));
        Some (inr (set_last_end (first :: symbols)))
    end.

(** ** From symbols to packets *)

Abbreviation buffer_of := (WindowBuffers.ring source_symbol).

(** The walk back to the start of the packet: its id and the packet number if the symbol has it.  [Some None] is a return of false; the outer [None] is
    also a loop that does not end. *)
Fixpoint find_start (fuel : nat) (b : buffer_of) (current_id : Z) : option (option (Z * Z)) :=
  if WindowBuffers.first_id b <=? current_id then
    present ← WindowBuffers.ring_contains id b current_id;
    if negb present then Some None
    else
      ss ← WindowBuffers.ring_get b current_id;
      ss ← ss;
      if get_ss_metadata_S ss then
        number ← (if get_ss_metadata_N ss then FecFrames.decode_u64 (chunk_data ss) else Some 0);
        Some (if current_id =? 0 then None else Some (current_id, number))
      else match fuel with O => None | S fuel => find_start fuel b (u32 (current_id - 1)) end
  else Some None.

(** The walk to the end of the packet; when the loop runs over the last symbol the end stays 0. *)
Fixpoint find_end (fuel : nat) (b : buffer_of) (current_id : Z) : option (option Z) :=
  if current_id <=? WindowBuffers.last_id b then
    present ← WindowBuffers.ring_contains id b current_id;
    if negb present then Some None
    else
      ss ← WindowBuffers.ring_get b current_id;
      ss ← ss;
      if get_ss_metadata_E ss then Some (Some current_id)
      else match fuel with O => None | S fuel => find_end fuel b (u32 (current_id + 1)) end
  else Some (Some 0).

(** The offset behind the zeros from [offset] on. *)
Fixpoint skip_padding (n : nat) (chunk : list Z) (offset : Z) : option Z :=
  match n with
  | O => Some offset
  | S n => b ← chunk !! Z.to_nat offset; if b =? 0 then skip_padding n chunk (offset + 1) else Some offset
  end.

(** The bytes that a symbol contributes. *)
Definition unpadded (s : source_symbol) : option (list Z) :=
  let data_offset := if get_ss_metadata_N s then 8 else 0 in
  offset ← skip_padding (Z.to_nat (chunk_size s - data_offset)) (chunk_data s) data_offset;
  slice (chunk_data s) offset (chunk_size s - offset).

Fixpoint join_symbols (n : nat) (b : buffer_of) (recovered : source_symbol) (i : Z) (out : list Z) : option (list Z) :=
  match n with
  | O => Some out
  | S n =>
    ss ← (if i =? id recovered then Some (Some recovered) else WindowBuffers.ring_get b i);
    ss ← ss;
    data ← unpadded ss;
    if PICOQUIC_MAX_PACKET_SIZE <? Z.of_nat (length out + length data) then None
    else join_symbols n b recovered (i + 1) (out ++ data)
  end.

(** The payload, the packet number and the id of the first symbol, or false. *)
Definition reassemble_packet_from_recovered_symbol (b : buffer_of) (recovered : source_symbol) : option (option (list Z * Z * Z)) :=
  let rid := id recovered in
  bounds ← (if get_ss_metadata_S recovered && get_ss_metadata_E recovered then
              number ← (if get_ss_metadata_N recovered then FecFrames.decode_u64 (chunk_data recovered) else Some 0);
              Some (Some (rid, number, rid))
            else
              start ← find_start (Z.to_nat (rid - WindowBuffers.first_id b + 1)) b rid;
              match start with
              | None => Some None
              | Some (start_id, number) =>
                stop ← find_end (Z.to_nat (WindowBuffers.last_id b - rid + 1)) b rid;
                Some (match stop with None => None | Some end_id => Some (start_id, number, end_id) end)
              end);
  match bounds with
  | None => Some None
  | Some (start_id, number, end_id) =>
    payload ← join_symbols (Z.to_nat (end_id - start_id + 1)) b recovered start_id [];
    Some (Some (payload, number, start_id))
  end.

(** ** The receiver *)

(** The coding scheme: its state, what it does with symbols, the symbols it recovers. *)
Class Scheme (S R : Type) := {
  scheme_receive_source : S -> source_symbol -> S;
  scheme_receive_repair : S -> R -> S * bool;                   (* used_in_system *)
  scheme_recover : S -> S * (bool * list (option source_symbol)); (* could_recover, recovered_symbols *)
  scheme_remove_unused : S -> Z -> S
}.

Section Receiver.
Context {S R : Type} `{Scheme S R}.
(** [metadata.first_id] and [metadata.n_protected_symbols] of a repair symbol. *)
Context (first_protected n_protected : R -> Z).

Record receiver := Receiver {
  has_received_a_source_symbol : bool;
  has_received_a_repair_symbol : bool;
  highest_removed : Z;
  receive_buffer_size : Z;
  smallest_considered_id_to_advertise : Z;
  scheme : S;
  symbols_tracker : WindowBuffers.intervals;
  received_source_symbols : buffer_of
}.

Definition window_update_flow_control_infos (r : receiver) : option receiver :=
  highest_contiguous ← WindowBuffers.get_highest_contiguous_received_source_symbol (symbols_tracker r);
  Some (Receiver (has_received_a_source_symbol r) (has_received_a_repair_symbol r) (highest_removed r) (receive_buffer_size r) (u32 highest_contiguous)
          (scheme r) (symbols_tracker r) (received_source_symbols r)).

(** False is PICOQUIC_ERROR_MEMORY. *)
Definition window_receive_source_symbol (malloc_ok : bool) (r : receiver) (ss : source_symbol) : option (bool * receiver) :=
  '(b, _) ← WindowBuffers.ring_add id (received_source_symbols r) ss;
  let removed := Z.max (highest_removed r) (WindowBuffers.first_id b) in
  before ← WindowBuffers.get_highest_contiguous_received_source_symbol (symbols_tracker r);
  '(ok, t) ← WindowBuffers.tracker_receive_source_symbol malloc_ok (symbols_tracker r) (id ss);
  if negb (ok : bool) then
    Some (false, Receiver (has_received_a_source_symbol r) (has_received_a_repair_symbol r) removed (receive_buffer_size r) (smallest_considered_id_to_advertise r) (scheme r) t b)
  else
    let s := scheme_receive_source (scheme r) ss in
    after ← WindowBuffers.get_highest_contiguous_received_source_symbol t;
    let s := if negb (before =? after) then scheme_remove_unused s after else s in
    r ← window_update_flow_control_infos
          (Receiver true (has_received_a_repair_symbol r) removed (receive_buffer_size r) (smallest_considered_id_to_advertise r) s t b);
    Some (true, r).

(** The loop over the symbols of a packet; it stops at an error. *)
Fixpoint receive_symbols (malloc_ok : bool) (r : receiver) (first_symbol_id : Z) (l : list (list Z)) : option (bool * receiver) :=
  match l with
  | [] => Some (true, r)
  | data :: l =>
    '(ok, r) ← window_receive_source_symbol malloc_ok r (Symbol first_symbol_id created_chunk_size data);
    if (ok : bool) then receive_symbols malloc_ok r (u32 (first_symbol_id + 1)) l else Some (false, r)
  end.

Definition window_receive_packet_payload (malloc_ok tracker_malloc_ok : bool) (buffer : list Z) (r : receiver) (payload : list Z)
    (packet_number first_symbol_id symbol_size : Z) : option (bool * receiver) :=
  sss ← packet_payload_to_source_symbols malloc_ok buffer payload symbol_size packet_number;
  match sss with
  | inl _ => Some (false, r)
  | inr l => receive_symbols tracker_malloc_ok r first_symbol_id l
  end.

(** False: the symbol protects nothing that is missing. *)
Definition window_receive_repair_symbol (r : receiver) (rs : R) : option (bool * receiver) :=
  highest ← WindowBuffers.get_highest_contiguous_received_source_symbol (symbols_tracker r);
  if u32 (first_protected rs + n_protected rs - 1) <=? u32 highest then Some (false, r)
  else
    let '(s, _) := scheme_receive_repair (scheme r) rs in
    Some (true, Receiver (has_received_a_source_symbol r) true (highest_removed r) (receive_buffer_size r) (smallest_considered_id_to_advertise r) s
                  (symbols_tracker r) (received_source_symbols r)).

Fixpoint window_receive_repair_symbols (r : receiver) (l : list R) : option receiver :=
  match l with
  | [] => Some r
  | rs :: l => '(_, r) ← window_receive_repair_symbol r rs; window_receive_repair_symbols r l
  end.

(** The loop of [try_to_recover] over the recovered symbols; [decode] is [picoquic_decode_frames_without_current_time] on the connection [C],
    and the result has the packets that were recovered with the ids of their first symbols. *)
Fixpoint recover_loop {C : Type} (malloc_ok : bool) (decode : list Z -> C -> Z * C) (c : C) (r : receiver) (l : list (option source_symbol)) :
    option (C * receiver * list (Z * Z)) :=
  match l with
  | [] => Some (c, r, [])
  | None :: l => recover_loop malloc_ok decode c r l
  | Some ss :: l =>
    '(_, r) ← window_receive_source_symbol malloc_ok r ss;
    packet ← reassemble_packet_from_recovered_symbol (received_source_symbols r) ss;
    match packet with
    | None => recover_loop malloc_ok decode c r l
    | Some (payload, number, first) =>
      let '(err, c) := decode payload c in
      '(c, r, packets) ← recover_loop malloc_ok decode c r l;
      Some (c, r, if err =? 0 then (number, first) :: packets else packets)
    end
  end.

Definition try_to_recover {C : Type} (malloc_ok : bool) (decode : list Z -> C -> Z * C) (c : C) (r : receiver) : option (C * receiver * list (Z * Z)) :=
  let '(s, (could_recover, recovered)) := scheme_recover (scheme r) in
  highest ← WindowBuffers.get_highest_contiguous_received_source_symbol (symbols_tracker r);
  let s := scheme_remove_unused s highest in
  let r := Receiver (has_received_a_source_symbol r) (has_received_a_repair_symbol r) (highest_removed r) (receive_buffer_size r) (smallest_considered_id_to_advertise r) s
             (symbols_tracker r) (received_source_symbols r) in
  recover_loop malloc_ok decode c r (if (could_recover : bool) then recovered else []).

Definition create_framework_receiver (s : S) (size : Z) (garbage : list (option source_symbol)) : option receiver :=
  b ← WindowBuffers.new_ring size true (Some garbage);
  t ← WindowBuffers.create_received_symbols_tracker true true WindowBuffers.WINDOW_INITIAL_SYMBOL_ID;
  Some (Receiver false false 0 (u32 size) 1 s t b).

End Receiver.
Arguments receiver : clear implicits.

(** ** The frames that are protected *)

(** A payload as the list of its frames. *)
Inductive frames_of : list Z -> list (list Z) -> Prop :=
  | no_frames : frames_of [] []
  | a_frame f rest fs pure_ack : f <> [] -> Frames.skip_frame (f ++ rest) = (0, Z.of_nat (length f), pure_ack) -> frames_of rest fs -> frames_of (f ++ rest) (f :: fs).

Definition is_stream_frame (f : list Z) : bool := match f with [] => false | t :: _ => is_stream_type t end.
Definition protected (fs : list (list Z)) : list Z := concat (List.filter is_stream_frame fs).

Lemma preprocess_spec payload fs : frames_of payload fs -> forall fuel, (length payload <= fuel)%nat -> preprocess_packet_payload fuel payload = Some (inr (protected fs)).
Proof.
  induction 1 as [|f rest fs pure_ack Hf Hs Hr IH]; intros fuel Hl; [by destruct fuel|]. destruct f as [|t f]; [done|]. cbn [app] in *.
  destruct fuel as [|fuel]; [cbn in Hl; lia|]. cbn [preprocess_packet_payload]. rewrite Hs. change (negb (0 =? 0)) with false. cbn iota.
  unfold slice. rewrite Nat2Z.id. assert (E : (0 <=? Z.of_nat (length (t :: f))) && (0 + Z.of_nat (length (t :: f)) <=? Z.of_nat (length (t :: f ++ rest))) = true).
  { cbn [length]. rewrite length_app. apply andb_true_iff. split; apply Z.leb_le; lia. }
  rewrite E. cbn [mbind option_bind]. rewrite drop_0. change (t :: f ++ rest) with ((t :: f) ++ rest). rewrite take_app_length, drop_app_length.
  rewrite IH by (cbn in Hl; rewrite length_app in Hl; lia). cbn [mbind option_bind]. unfold protected. cbn [List.filter is_stream_frame]. by destruct (is_stream_type t).
Qed.

Lemma protected_length payload fs : frames_of payload fs -> (length (protected fs) <= length payload)%nat.
Proof.
  induction 1 as [|f rest fs pure_ack Hf Hs Hr IH]; [done|]. unfold protected in *. cbn [List.filter]. rewrite length_app. destruct (is_stream_frame f); cbn [concat]; [rewrite length_app; lia|lia].
Qed.

(** A STREAM frame starts with its type, which is not zero. *)
Lemma protected_start fs : match protected fs with [] => True | b :: _ => b <> 0 end.
Proof.
  unfold protected. induction fs as [|f fs IH]; [done|]. cbn [List.filter]. destruct f as [|t f]; [exact IH|]. destruct (is_stream_frame (t :: f)) eqn:E; [|exact IH].
  cbn. cbn in E. unfold is_stream_type, picoquic_frame_type_stream_range_min in E. lia.
Qed.

(** ** Cutting *)

Lemma copy_to_ok block offset data : 0 <= offset -> offset + Z.of_nat (length data) <= Z.of_nat (length block) ->
  copy_to block offset data = Some (take (Z.to_nat offset) block ++ data ++ drop (Z.to_nat offset + length data) block).
Proof. intros Ho Hl. unfold copy_to. by rewrite (proj2 (Z.leb_le _ _)) by lia. Qed.

Lemma slice_ok block offset n : 0 <= offset -> 0 <= n -> offset + n <= Z.of_nat (length block) -> slice block offset n = Some (take (Z.to_nat n) (drop (Z.to_nat offset) block)).
Proof. intros Ho Hn Hl. unfold slice. by rewrite (proj2 (Z.leb_le 0 n)), (proj2 (Z.leb_le _ (Z.of_nat _))) by lia. Qed.

Lemma take_zeros n m : (n <= m)%nat -> take n (replicate m 0) = replicate n 0.
Proof. intros H. rewrite take_replicate. f_equal. lia. Qed.

Lemma first_symbol_spec number data chunk padding : length number = 8%nat -> 0 <= padding -> 8 + padding <= chunk -> chunk - padding - 8 <= Z.of_nat (length data) ->
  first_symbol (number ++ data) chunk padding = Some (6 :: number ++ replicate (Z.to_nat padding) 0 ++ take (Z.to_nat (chunk - padding - 8)) data).
Proof.
  intros Hn Hp Hc Hd. unfold first_symbol. rewrite (slice_ok _ 0 8) by (rewrite ?length_app; lia). change (Z.to_nat 8) with 8%nat. change (Z.to_nat 0) with 0%nat.
  rewrite drop_0, take_app_length' by done. cbn [mbind option_bind].
  assert (Es : set_ss_metadata_S true (set_ss_metadata_N true (create_larger_source_symbol chunk)) = 6 :: replicate (Z.to_nat chunk) 0).
  { unfold create_larger_source_symbol. replace (Z.to_nat (chunk + 1)) with (S (Z.to_nat chunk)) by lia. reflexivity. }
  rewrite Es, copy_to_ok by (cbn [length]; rewrite ?length_replicate; lia). change (Z.to_nat 1) with 1%nat. cbn [take mbind option_bind app].
  rewrite (slice_ok _ 8) by (rewrite ?length_app; lia). change (Z.to_nat 8) with 8%nat. rewrite drop_app_length' by done. cbn [mbind option_bind].
  set (k := Z.to_nat (chunk - padding - 8)). assert (Hk : length (take k data) = k) by (rewrite length_take; unfold k; lia).
  cbn [Nat.add drop]. rewrite Hn. rewrite drop_replicate. replace (Z.to_nat chunk - 8)%nat with (Z.to_nat padding + k)%nat by (unfold k; lia).
  rewrite take_0. cbn [app]. rewrite copy_to_ok; [|lia|rewrite Hk; cbn [length]; rewrite length_app, length_replicate, Hn; unfold k; lia]. rewrite Hk. f_equal.
  replace (Z.to_nat (1 + 8 + padding)) with (S (8 + Z.to_nat padding)) by lia. cbn [take app Nat.add drop]. f_equal.
  change (S (S (S (S (S (S (S (S (Z.to_nat padding))))))))) with (8 + Z.to_nat padding)%nat. rewrite <- Hn.
  rewrite take_app_add, take_zeros by lia. rewrite <- app_assoc. do 2 f_equal. rewrite drop_ge; [by rewrite app_nil_r|]. rewrite length_app, length_replicate. lia.
Qed.

Lemma next_symbol_spec buffer chunk offset : 0 <= chunk -> 0 <= offset -> offset + chunk <= Z.of_nat (length buffer) ->
  next_symbols 1 buffer chunk offset = Some [0 :: take (Z.to_nat chunk) (drop (Z.to_nat offset) buffer)].
Proof.
  intros Hc Ho Hl. cbn [next_symbols]. rewrite slice_ok by lia. cbn [mbind option_bind]. set (data := take _ _). assert (Hd : length data = Z.to_nat chunk) by (unfold data; rewrite length_take, length_drop; lia).
  unfold create_larger_source_symbol. rewrite copy_to_ok by (rewrite ?length_replicate, ?Hd; lia). cbn [mbind option_bind]. do 2 f_equal.
  replace (Z.to_nat (chunk + 1)) with (S (Z.to_nat chunk)) by lia. change (Z.to_nat 1) with 1%nat. cbn [replicate take app Nat.add drop]. rewrite Hd, drop_replicate, Nat.sub_diag, app_nil_r. reflexivity.
Qed.

(** The buffer with the number of the packet and its STREAM frames. *)
Lemma buffer_spec tmp payload_length number out : length number = 8%nat -> 0 <= payload_length -> payload_length + 8 <= Z.of_nat (length tmp) -> Z.of_nat (length out) <= payload_length ->
  exists rest, (b ← copy_to tmp 0 (replicate (Z.to_nat (payload_length + 8)) 0); b ← copy_to b 0 number; copy_to b 8 out) = Some (number ++ out ++ rest) /\
    (length number + length out + length rest = length tmp)%nat.
Proof.
  intros Hn Hp Ht Ho. rewrite copy_to_ok by (rewrite ?length_replicate; lia). change (Z.to_nat 0) with 0%nat. rewrite take_0. cbn [app mbind option_bind Nat.add]. rewrite length_replicate.
  set (b0 := replicate _ 0 ++ _). assert (Hb0 : length b0 = length tmp) by (unfold b0; rewrite length_app, length_replicate, length_drop; lia).
  rewrite copy_to_ok by lia. change (Z.to_nat 0) with 0%nat. rewrite take_0. cbn [app mbind option_bind Nat.add]. set (b1 := number ++ _). assert (Hb1 : length b1 = length tmp) by (unfold b1; rewrite length_app, length_drop; lia).
  rewrite copy_to_ok by lia. change (Z.to_nat 8) with 8%nat. unfold b1 at 1. rewrite take_app_length' by done. eexists. split; [reflexivity|]. rewrite length_drop. lia.
Qed.

(** How the payload is cut, for the buffer of the frame work. *)
Lemma cut_spec tmp payload fs symbol_size packet_number chunk : frames_of payload fs -> payload <> [] -> Z.of_nat (length payload) + 8 <= Z.of_nat (length tmp) ->
  chunk = symbol_size - 1 -> 8 <= chunk < 2 ^ 15 -> 8 + Z.of_nat (length (protected fs)) <= 2 ^ 15 ->
  let processed := 8 + Z.of_nat (length (protected fs)) in
  let n := (processed + chunk - 1) / chunk in
  exists rest, (8 + length (protected fs) + length rest = length tmp)%nat /\
    packet_payload_to_source_symbols true tmp payload symbol_size packet_number =
    (first ← first_symbol (FecFrames.encode_u64 packet_number ++ protected fs ++ rest) chunk (n * chunk - processed);
     symbols ← next_symbols (Z.to_nat (n - 1)) (FecFrames.encode_u64 packet_number ++ protected fs ++ rest) chunk (8 + (chunk - (n * chunk - processed)));
     Some (inr (set_last_end (first :: symbols)))).
Proof.
  intros Hf Hne Ht Ec Hc Ho processed n. set (number := FecFrames.encode_u64 packet_number). assert (Hn : length number = 8%nat) by apply FecFrames.length_encode_un.
  destruct (buffer_spec tmp (Z.of_nat (length payload)) number (protected fs) Hn ltac:(lia) Ht ltac:(pose proof (protected_length _ _ Hf); lia)) as (rest & Eb & Hrest).
  exists rest. split; [lia|]. unfold packet_payload_to_source_symbols. fold number. destruct (Z.eqb_spec (Z.of_nat (length payload)) 0) as [E0|_]; [destruct payload; [done|cbn in E0; lia]|].
  destruct (copy_to tmp 0 _) as [b0|]; [|discriminate Eb]. cbn [mbind option_bind] in Eb |- *. destruct (copy_to b0 0 number) as [b1|]; [|discriminate Eb]. cbn [mbind option_bind] in Eb |- *.
  rewrite (preprocess_spec payload fs Hf) by lia. cbn [mbind option_bind]. rewrite Eb. cbn [mbind option_bind negb]. fold processed.
  rewrite (u16_small (symbol_size - 1)) by lia. rewrite <- Ec.
  assert (Hpos : 8 <= processed <= 2 ^ 15) by (unfold processed; lia).
  pose proof (Z.div_mod processed chunk ltac:(lia)) as Hdm. pose proof (Z.mod_pos_bound processed chunk ltac:(lia)) as Hmb.
  pose proof (Z.div_mod (processed + chunk - 1) chunk ltac:(lia)) as Hdm'. pose proof (Z.mod_pos_bound (processed + chunk - 1) chunk ltac:(lia)) as Hmb'. fold n in Hdm'.
  assert (Hn1 : 1 <= n) by nia. assert (Hpad : (if processed mod chunk =? 0 then processed else chunk * (processed / chunk + 1)) = n * chunk).
  { destruct (Z.eqb_spec (processed mod chunk) 0); [assert (n = processed / chunk) by nia; nia|assert (n = processed / chunk + 1) by nia; nia]. }
  rewrite Hpad. assert (Hnc : n * chunk < processed + chunk) by nia. rewrite (u16_small (n * chunk)) by lia. rewrite (u16_small (n * chunk - processed)) by nia.
  rewrite Z.div_mul by lia. destruct (Z.eqb_spec n 0); [lia|]. reflexivity.
Qed.

(** ** Putting together *)

Lemma skip_padding_spec out p : forall pre n, n = (p + length out)%nat -> match out with [] => True | b :: _ => b <> 0 end ->
  skip_padding n (pre ++ replicate p 0 ++ out) (Z.of_nat (length pre)) = Some (Z.of_nat (length pre + p)).
Proof.
  induction p as [|p IH]; intros pre n -> Ho; cbn [replicate app Nat.add].
  - rewrite Nat.add_0_r. destruct out as [|b out]; [done|]. cbn [length skip_padding]. rewrite Nat2Z.id, list_lookup_middle by done. cbn [mbind option_bind]. destruct (Z.eqb_spec b 0); [done|reflexivity].
  - cbn [skip_padding]. rewrite Nat2Z.id, list_lookup_middle by done. cbn [mbind option_bind]. change (0 =? 0) with true. cbn iota.
    specialize (IH (pre ++ [0]) _ eq_refl Ho). rewrite <- app_assoc in IH. cbn [app] in IH. rewrite length_app in IH. cbn [length] in IH.
    replace (Z.of_nat (length pre + 1)) with (Z.of_nat (length pre) + 1) in IH by lia. rewrite IH. f_equal. lia.
Qed.

(** A chunk of a packet number, padding and the start of a packet. *)
Lemma unpadded_spec rid chunk m number p out : Z.land m 4 <> 0 -> length number = 8%nat -> chunk = Z.of_nat (8 + p + length out) -> match out with [] => True | b :: _ => b <> 0 end ->
  unpadded (Symbol rid chunk (m :: number ++ replicate p 0 ++ out)) = Some out.
Proof.
  intros Hm Hn Hc Ho. unfold unpadded, get_ss_metadata_N, metadata, chunk_data. cbn [whole_data chunk_size lookup list_lookup default].
  change (drop 1 (m :: number ++ replicate p 0 ++ out)) with (number ++ replicate p 0 ++ out). change (Datatypes.id m) with m.
  destruct (Z.eqb_spec (Z.land m 4) 0) as [|_]; [done|]. cbn [negb]. cbn iota. pose proof (skip_padding_spec out p number (p + length out) eq_refl Ho) as Hsk. rewrite Hn in Hsk. change (Z.of_nat 8) with 8 in Hsk.
  replace (Z.to_nat (chunk - 8)) with (p + length out)%nat by lia. rewrite Hsk. cbn [mbind option_bind].
  rewrite slice_ok by (rewrite ?length_app, ?length_replicate; lia). f_equal. rewrite Nat2Z.id. replace (8 + p)%nat with (length (number ++ replicate p 0)) by (rewrite length_app, length_replicate; lia).
  rewrite app_assoc, drop_app_length. apply take_ge. rewrite length_app, length_replicate. lia.
Qed.

Lemma number_read number rest pn : 0 <= pn < 2 ^ 64 -> number = FecFrames.encode_u64 pn -> FecFrames.decode_u64 (number ++ rest) = Some pn.
Proof. intros Hp ->. unfold FecFrames.decode_u64, FecFrames.encode_u64. rewrite FecFrames.decode_encode_un; [done|lia|]. change (8 * Z.of_nat 8) with 64. lia. Qed.

(** ** Reassembly *)

Lemma whole_packet b rid chunk m data number out : Z.land m 2 <> 0 -> Z.land m 1 <> 0 -> Z.land m 4 <> 0 ->
  FecFrames.decode_u64 data = Some number -> unpadded (Symbol rid chunk (m :: data)) = Some out -> Z.of_nat (length out) <= PICOQUIC_MAX_PACKET_SIZE ->
  reassemble_packet_from_recovered_symbol b (Symbol rid chunk (m :: data)) = Some (Some (out, number, rid)).
Proof.
  intros H2 H1 H4 Hn Hu Hl. unfold reassemble_packet_from_recovered_symbol, get_ss_metadata_S, get_ss_metadata_E, get_ss_metadata_N, metadata, chunk_data. cbn [whole_data lookup list_lookup default id]. change (drop 1 (m :: data)) with data. change (Datatypes.id m) with m.
  destruct (Z.eqb_spec (Z.land m 2) 0) as [|_]; [done|]. destruct (Z.eqb_spec (Z.land m 1) 0) as [|_]; [done|]. destruct (Z.eqb_spec (Z.land m 4) 0) as [|_]; [done|]. cbn [negb andb].
  rewrite Hn. cbn [mbind option_bind]. replace (Z.to_nat (rid - rid + 1)) with 1%nat by lia. cbn [join_symbols id]. rewrite Z.eqb_refl. cbn [mbind option_bind]. rewrite Hu. cbn [mbind option_bind length Nat.add].
  rewrite (proj2 (Z.ltb_ge _ _)) by done. reflexivity.
Qed.

(** When the end of a packet has not arrived, the loop runs over the last symbol. *)
Lemma find_end_missing b w : WindowBuffers.stands_for id b w -> forall fuel i, 1 <= i -> i <= WindowBuffers.w_last w + 1 -> WindowBuffers.w_last w - i + 1 <= Z.of_nat fuel ->
  (forall j, i <= j <= WindowBuffers.w_last w -> exists s, WindowBuffers.w_map w !! j = Some s /\ get_ss_metadata_E s = false) -> find_end fuel b i = Some (Some 0).
Proof.
  intros Hw. pose proof (WindowBuffers.stands_last _ b w Hw) as Hl. pose proof (WindowBuffers.sf_bounds _ _ _ Hw) as Hb. induction fuel as [|fuel IH]; intros i H1 Hi Hf Hall; cbn [find_end]; rewrite Hl.
  - destruct (Z.leb_spec i (WindowBuffers.w_last w)); [lia|done].
  - destruct (Z.leb_spec i (WindowBuffers.w_last w)) as [Hle|]; [|done]. destruct (Hall i ltac:(lia)) as (s & Hs & He).
    rewrite (WindowBuffers.ring_contains_ok id b w i Hw), (WindowBuffers.ring_get_ok id b w i Hw), Hs. rewrite bool_decide_true by (by eexists). cbn [mbind option_bind negb]. rewrite He.
    rewrite u32_small by lia. apply IH; [lia|lia|lia|]. intros j Hj. apply Hall. lia.
Qed.

Lemma find_start_here b w rid r fuel number : WindowBuffers.stands_for id b w -> 1 <= rid -> WindowBuffers.w_map w !! rid = Some r -> get_ss_metadata_S r = true ->
  (if get_ss_metadata_N r then FecFrames.decode_u64 (chunk_data r) else Some 0) = Some number -> find_start fuel b rid = Some (Some (rid, number)).
Proof.
  intros Hw H1 Hr Hs Hn. assert (Hge : WindowBuffers.first_id b <= rid) by (rewrite (WindowBuffers.sf_first _ _ _ Hw); apply (WindowBuffers.sf_dom _ _ _ Hw) in Hr; lia).
  destruct fuel; cbn [find_start]; rewrite (proj2 (Z.leb_le _ _)) by done; rewrite (WindowBuffers.ring_contains_ok id b w rid Hw), (WindowBuffers.ring_get_ok id b w rid Hw), Hr;
    rewrite bool_decide_true by (by eexists); cbn [mbind option_bind negb]; rewrite Hs, Hn; cbn [mbind option_bind]; destruct (Z.eqb_spec rid 0); [lia|done|lia|done].
Qed.

(** ** What the receiver knows *)

Section Receiving.
Context {S R : Type} `{SR : !Scheme S R}.

Fixpoint receive_all (r : receiver S) (l : list source_symbol) : option (receiver S) :=
  match l with
  | [] => Some r
  | ss :: l => '(_, r) ← window_receive_source_symbol true r ss; receive_all r l
  end.

Record receiver_ok (r : receiver S) (w : WindowBuffers.window source_symbol) (ids : list Z) : Prop := ReceiverOk {
  ro_ring : WindowBuffers.ring_ok id (received_source_symbols r) w;
  ro_chain : WindowBuffers.chain (-1) (symbols_tracker r);
  ro_start : exists e l, symbols_tracker r = (0, e) :: l;
  ro_members : forall x, WindowBuffers.member x (symbols_tracker r) <-> x = 0 \/ x ∈ ids;
  ro_ids : Forall (fun x => 1 <= x < 2 ^ 31) ids
}.

(** The highest id below which nothing is missing. *)
Lemma contiguous r w ids : receiver_ok r w ids -> exists h, WindowBuffers.get_highest_contiguous_received_source_symbol (symbols_tracker r) = Some h /\ 0 <= h < 2 ^ 31 /\
  (h + 1 ∉ ids) /\ forall x, 1 <= x <= h -> x ∈ ids.
Proof.
  intros [_ Hc (e & l & Et) Hm Hi]. rewrite Et in *. destruct (WindowBuffers.first_gap e l Hc) as [Hgap Hall]. rewrite Hm in Hgap.
  assert (He : 0 < e <= 2 ^ 31).
  { cbn [WindowBuffers.chain] in Hc. split; [lia|]. destruct (Z.eq_dec (e - 1) 0); [lia|]. specialize (Hall (e - 1) ltac:(lia)).
    apply Hm in Hall as [?|Hin]; [lia|]. rewrite list.Forall_forall in Hi. specialize (Hi _ Hin). lia. }
  exists (e - 1). cbn [WindowBuffers.get_highest_contiguous_received_source_symbol]. rewrite u32_small, s32_small by lia. split; [done|]. split; [lia|]. split.
  - replace (e - 1 + 1) with e by lia. tauto.
  - intros x Hx. specialize (Hall x ltac:(lia)). apply Hm in Hall as [?|?]; [lia|done].
Qed.

Lemma receive_ok r w ids ss : receiver_ok r w ids -> 1 <= id ss < 2 ^ 31 -> (WindowBuffers.w_first w <= WindowBuffers.w_last w -> id ss < WindowBuffers.w_last w + WindowBuffers.w_size w) ->
  exists r', window_receive_source_symbol true r ss = Some (true, r') /\ receiver_ok r' (WindowBuffers.window_add id w ss) (id ss :: ids) /\
    Some (smallest_considered_id_to_advertise r') = u32 <$> WindowBuffers.get_highest_contiguous_received_source_symbol (symbols_tracker r').
Proof.
  intros H Hid Hg. destruct (contiguous r w ids H) as (h & Eh & _). unfold window_receive_source_symbol.
  destruct (WindowBuffers.ring_add_ok id (received_source_symbols r) w ss (ro_ring _ _ _ H) Hid Hg) as (b & f & -> & Hb & _). cbn [mbind option_bind]. rewrite Eh. cbn [mbind option_bind].
  pose proof (WindowBuffers.tracker_loop_ok true (id ss) ltac:(lia) (symbols_tracker r) [] (ro_chain _ _ _ H) (ro_start _ _ _ H) (or_introl eq_refl)) as Ht. cbn [app] in Ht.
  assert (Et : WindowBuffers.tracker_receive_source_symbol true (symbols_tracker r) (id ss) = WindowBuffers.tracker_loop true [] (symbols_tracker r) (id ss)) by (destruct (ro_start _ _ _ H) as (e & l & ->); done).
  rewrite Et. destruct (WindowBuffers.tracker_loop true [] (symbols_tracker r) (id ss)) as [[[|] t]|]; [|by destruct Ht|done]. destruct Ht as (Hc & Hst & Hm). cbn [mbind option_bind negb].
  set (r1 := fun (adv : Z) (s : S) => Receiver true (has_received_a_repair_symbol r) (Z.max (highest_removed r) (WindowBuffers.first_id b)) (receive_buffer_size r) adv s t b).
  assert (Hr1 : forall adv s, receiver_ok (r1 adv s) (WindowBuffers.window_add id w ss) (id ss :: ids)).
  { intros adv s. split; cbn [r1 received_source_symbols symbols_tracker]; [by left|done|done| |].
    - intros x. rewrite Hm, (ro_members _ _ _ H), elem_of_cons. tauto.
    - constructor; [done|apply H]. }
  destruct (contiguous _ _ _ (Hr1 0 (scheme r))) as (h' & Eh' & _). cbn [r1 symbols_tracker] in Eh'. rewrite Eh'. cbn [mbind option_bind]. unfold window_update_flow_control_infos. cbn [symbols_tracker]. rewrite Eh'.
  cbn [mbind option_bind]. eexists. split; [reflexivity|]. split; [apply Hr1|]. cbn [symbols_tracker smallest_considered_id_to_advertise]. by rewrite Eh'.
Qed.

Lemma receive_all_ok l : forall r w ids, receiver_ok r w ids -> WindowBuffers.small_gaps id w l ->
  exists r' ids', receive_all r l = Some r' /\ receiver_ok r' (foldl (WindowBuffers.window_add id) w l) ids' /\ (forall x, x ∈ ids' <-> x ∈ ids \/ x ∈ id <$> l) /\
    (l <> [] -> Some (smallest_considered_id_to_advertise r') = u32 <$> WindowBuffers.get_highest_contiguous_received_source_symbol (symbols_tracker r')).
Proof.
  induction l as [|ss l IH]; intros r w ids H Hg; cbn [receive_all foldl WindowBuffers.small_gaps] in *.
  - exists r, ids. split_and!; [done|done| |done]. intros x. cbn. pose proof (not_elem_of_nil x). tauto.
  - destruct Hg as (Hid & Hg1 & Hg). destruct (receive_ok r w ids ss H Hid Hg1) as (r1 & -> & H1 & Ha). cbn [mbind option_bind].
    destruct (IH r1 _ _ H1 Hg) as (r' & ids' & E & H' & Hm & Ha'). exists r', ids'. split_and!; [done|done| |].
    + intros x. rewrite Hm, fmap_cons, !elem_of_cons. tauto.
    + intros _. destruct l as [|s2 l]; [|by apply Ha']. cbn in E. injection E as <-. exact Ha.
Qed.

End Receiving.

(** ** The theorems *)

(** C28. A packet whose STREAM frames fit into one symbol survives its loss: the sender cuts it into exactly one symbol of the symbol size, and a
    receiver that recovers this symbol, whatever else it has received, gets back the packet number and exactly the STREAM frames of the
    packet, the other frames left out and the padding removed. *)
Theorem single_symbol_roundtrip (tmp_buffer payload : list Z) (fs : list (list Z)) (symbol_size packet_number rid : Z) (b : buffer_of) :
  frames_of payload fs -> payload <> [] -> Z.of_nat (length tmp_buffer) = PICOQUIC_MAX_PACKET_SIZE -> Z.of_nat (length payload) + 8 <= PICOQUIC_MAX_PACKET_SIZE ->
  0 <= packet_number < 2 ^ 64 -> symbol_size <= 2 ^ 15 -> 8 + Z.of_nat (length (protected fs)) <= symbol_size - 1 ->
  exists data, packet_payload_to_source_symbols true tmp_buffer payload symbol_size packet_number = Some (inr [data]) /\ Z.of_nat (length data) = symbol_size /\
    reassemble_packet_from_recovered_symbol b (Symbol rid (symbol_size - 1) data) = Some (Some (protected fs, packet_number, rid)).
Proof.
  intros Hf Hne Ht Hp Hpn Hs Hfit. set (chunk := symbol_size - 1). set (out := protected fs) in *. unfold PICOQUIC_MAX_PACKET_SIZE in *.
  destruct (cut_spec tmp_buffer payload fs symbol_size packet_number chunk Hf Hne) as (rest & Hrest & ->); [lia|done|unfold chunk; lia|fold out; lia|]. fold out.
  assert (Hn1 : (8 + Z.of_nat (length out) + chunk - 1) / chunk = 1) by (symmetry; apply (Z.div_unique _ _ 1 (8 + Z.of_nat (length out) - 1)); unfold chunk; lia). rewrite Hn1.
  set (number := FecFrames.encode_u64 packet_number). assert (Hn : length number = 8%nat) by apply FecFrames.length_encode_un.
  rewrite (first_symbol_spec number (out ++ rest) chunk) by (rewrite ?length_app; unfold chunk; lia). cbn [mbind option_bind]. change (Z.to_nat (1 - 1)) with 0%nat. cbn [next_symbols mbind option_bind].
  replace (Z.to_nat (chunk - (1 * chunk - (8 + Z.of_nat (length out))) - 8)) with (length out) by lia. rewrite take_app_length. set (p := Z.to_nat (1 * chunk - _)). assert (Hpl : (8 + p + length out)%nat = Z.to_nat chunk) by (unfold p, chunk; lia).
  exists (7 :: number ++ replicate p 0 ++ out). split; [reflexivity|]. split.
  - cbn [length]. rewrite !length_app, length_replicate. unfold chunk in *. lia.
  - apply whole_packet; [done|done|done| | |pose proof (protected_length _ _ Hf) as Hol; unfold PICOQUIC_MAX_PACKET_SIZE; fold out in Hol; lia].
    + by apply number_read.
    + apply unpadded_spec; [done|done|unfold chunk in *; lia|apply protected_start].
Qed.

(** A PING frame and a STREAM frame with six bytes. *)
Definition sample_stream : list Z := [0x0a; 4; 6; 104; 101; 108; 108; 111; 33].
Definition sample_payload : list Z := [1] ++ sample_stream.
Definition zeros : list Z := replicate 1350 0.
Definition empty_ring : buffer_of := WindowBuffers.Ring 4 0 0 0 [None; None; None; None].

Lemma single_symbol_roundtrip_witness : exists data, packet_payload_to_source_symbols true zeros sample_payload 33 77 = Some (inr [data]) /\
  reassemble_packet_from_recovered_symbol empty_ring (Symbol 5 (33 - 1) data) = Some (Some (sample_stream, 77, 5)).
Proof.
  destruct (single_symbol_roundtrip zeros sample_payload [[1]; sample_stream] 33 77 5 empty_ring) as (data & E & _ & Hr).
  - apply (a_frame [1] sample_stream [sample_stream] 0); [discriminate|vm_compute; reflexivity|].
    apply (a_frame sample_stream [] [] 0); [discriminate|vm_compute; reflexivity|constructor].
  - discriminate.
  - vm_compute. reflexivity.
  - vm_compute. discriminate.
  - lia.
  - lia.
  - vm_compute. discriminate.
  - exists data. split; [exact E|exact Hr].
Defined.

(** A packet that needs two symbols loses eight bytes: the first symbol ends at the byte [k] of the STREAM frames and the second one starts
    at the byte [k + 8], so that the eight bytes in between are in no symbol, and eight bytes from behind the payload are added. *)
Theorem two_symbols_lose_bytes (tmp_buffer payload : list Z) (fs : list (list Z)) (symbol_size packet_number : Z) :
  let chunk := symbol_size - 1 in
  let out := protected fs in
  let padding := 2 * chunk - (8 + Z.of_nat (length out)) in
  let k := Z.to_nat (chunk - padding - 8) in
  frames_of payload fs -> Z.of_nat (length tmp_buffer) = PICOQUIC_MAX_PACKET_SIZE -> Z.of_nat (length payload) + 8 <= PICOQUIC_MAX_PACKET_SIZE -> 16 + Z.of_nat (length out) <= PICOQUIC_MAX_PACKET_SIZE ->
  8 <= chunk < 8 + Z.of_nat (length out) -> 0 <= padding -> 8 + padding <= chunk ->
  exists data1 data2 rest, packet_payload_to_source_symbols true tmp_buffer payload symbol_size packet_number = Some (inr [data1; data2]) /\
    drop (9 + Z.to_nat padding) data1 = take k out /\ drop 1 data2 = drop (k + 8) out ++ rest /\ length rest = 8%nat.
Proof.
  intros chunk out padding k Hf Ht Hp Hl Hc Hpad Hk. unfold PICOQUIC_MAX_PACKET_SIZE in *. assert (Hne : payload <> []) by (intros ->; inversion Hf; subst; [cbn in Hc; lia|destruct f; done]).
  destruct (cut_spec tmp_buffer payload fs symbol_size packet_number chunk Hf Hne) as (rest & Hrest & ->); [lia|done|lia|fold out; lia|]. fold out. fold out in Hrest.
  assert (Hn2 : (8 + Z.of_nat (length out) + chunk - 1) / chunk = 2) by (symmetry; apply (Z.div_unique _ _ 2 (chunk - padding - 1)); unfold padding in *; lia). rewrite Hn2. fold padding.
  set (number := FecFrames.encode_u64 packet_number). assert (Hn : length number = 8%nat) by apply FecFrames.length_encode_un.
  rewrite (first_symbol_spec number (out ++ rest) chunk padding Hn Hpad Hk) by (rewrite length_app; unfold padding in *; lia). fold k. cbn [mbind option_bind]. change (Z.to_nat (2 - 1)) with 1%nat.
  rewrite next_symbol_spec by (rewrite ?length_app; unfold padding in *; lia). cbn [mbind option_bind].
  assert (Hko : (k <= length out)%nat) by (unfold k, padding in *; lia). rewrite (take_app_le out rest k Hko).
  exists (6 :: number ++ replicate (Z.to_nat padding) 0 ++ take k out), (1 :: drop (k + 8) out ++ take 8 rest), (take 8 rest). split.
  - assert (E2 : take (Z.to_nat chunk) (drop (Z.to_nat (8 + (chunk - padding))) (number ++ out ++ rest)) = drop (k + 8) out ++ take 8 rest).
    { replace (Z.to_nat (8 + (chunk - padding))) with (length number + (k + 8))%nat by (unfold k; lia). rewrite <- drop_drop, drop_app_length. rewrite drop_app_le by (unfold k, padding in *; lia).
      replace (Z.to_nat chunk) with (length (drop (k + 8) out) + 8)%nat by (rewrite length_drop; unfold k, padding in *; lia). by rewrite take_app_add. }
    rewrite E2. reflexivity.
  - split_and!; [|reflexivity|rewrite length_take; lia].
    change (drop (9 + Z.to_nat padding) (6 :: number ++ replicate (Z.to_nat padding) 0 ++ take k out)) with (drop (8 + Z.to_nat padding) (number ++ replicate (Z.to_nat padding) 0 ++ take k out)).
    rewrite app_assoc. apply drop_app_length'. rewrite length_app, length_replicate. lia.
Qed.

Definition long_stream : list Z := [0x0a; 4; 30] ++ ((fun n => Z.of_nat n + 65) <$> seq 0 30).

Lemma two_symbols_lose_bytes_witness : exists data1 data2 rest, packet_payload_to_source_symbols true zeros long_stream 26 77 = Some (inr [data1; data2]) /\
  drop 18 data1 = take 8 long_stream /\ drop 1 data2 = drop 16 long_stream ++ rest /\ length rest = 8%nat.
Proof.
  apply (two_symbols_lose_bytes zeros long_stream [long_stream] 26 77).
  - apply (a_frame long_stream [] [] 0); [discriminate|vm_compute; reflexivity|constructor].
  - vm_compute. reflexivity.
  - vm_compute. discriminate.
  - vm_compute. discriminate.
  - vm_compute. split; [discriminate|reflexivity].
  - vm_compute. discriminate.
  - vm_compute. discriminate.
Defined.

(** A packet whose end has not arrived is reported as recovered: when the first symbol of a packet of several symbols is recovered and no symbol from there
    to the newest one is the end of a packet, [reassemble_packet_from_recovered_symbol] succeeds with the number of the packet and an empty
    payload. *)
Theorem unfinished_packet_reported (b : buffer_of) (w : WindowBuffers.window source_symbol) (r : source_symbol) (number : Z) :
  WindowBuffers.stands_for id b w -> 1 <= id r -> WindowBuffers.w_map w !! id r = Some r -> get_ss_metadata_S r = true -> get_ss_metadata_N r = true -> FecFrames.decode_u64 (chunk_data r) = Some number ->
  (forall j, id r <= j <= WindowBuffers.w_last w -> exists s, WindowBuffers.w_map w !! j = Some s /\ get_ss_metadata_E s = false) ->
  reassemble_packet_from_recovered_symbol b r = Some (Some ([], number, id r)).
Proof.
  intros Hw H1 Hr HS HN Hn Hall. pose proof (WindowBuffers.sf_dom _ _ _ Hw _ _ Hr) as [Hb _]. unfold reassemble_packet_from_recovered_symbol. rewrite HS.
  destruct (Hall (id r) ltac:(lia)) as (s & Hs & He). rewrite Hr in Hs. injection Hs as <-. rewrite He. cbn [andb].
  rewrite (find_start_here b w (id r) r _ number Hw H1 Hr HS) by (by rewrite HN). cbn [mbind option_bind]. rewrite (WindowBuffers.stands_last _ b w Hw).
  rewrite (find_end_missing b w Hw) by (done || lia). cbn [mbind option_bind]. replace (Z.to_nat (0 - id r + 1)) with 0%nat by lia. reflexivity.
Qed.

(** The first symbol of a packet with the number 77, the second symbol has not arrived. *)
Definition first_half : source_symbol := Symbol 1 25 ([6] ++ FecFrames.encode_u64 77 ++ replicate 17 65).

Lemma unfinished_packet_reported_witness : exists b f, WindowBuffers.ring_add id (WindowBuffers.Ring 4 0 0 0 [None; None; None; None]) first_half = Some (b, f) /\
  reassemble_packet_from_recovered_symbol b first_half = Some (Some ([], 77, 1)).
Proof.
  destruct (WindowBuffers.ring_add_ok id (WindowBuffers.Ring 4 0 0 0 [None; None; None; None]) (WindowBuffers.empty_window 4) first_half) as (b & f & E & Hb & _).
  - right. cbn. split_and!; [reflexivity|lia|lia|reflexivity|lia|reflexivity].
  - cbn. lia.
  - cbn. lia.
  - exists b, f. split; [exact E|]. apply (unfinished_packet_reported b _ first_half 77 Hb).
    + cbn. lia.
    + vm_compute. reflexivity.
    + reflexivity.
    + reflexivity.
    + vm_compute. reflexivity.
    + intros j Hj. assert (Hl : WindowBuffers.w_last (WindowBuffers.window_add id (WindowBuffers.empty_window 4) first_half) = 1) by reflexivity. rewrite Hl in Hj. cbn [id first_half] in Hj. assert (j = 1) as -> by lia. exists first_half. split; vm_compute; reflexivity.
Defined.

(** The receiver knows what it has: after any sequence of source symbols, received or recovered, in any order and with
    duplicates, none of them a whole buffer ahead, the buffer of symbols is the window of the newest ids, and the id that is advertised to the sender is the
    highest one below which no symbol is missing. *)
Theorem receiver_advertises_contiguous {S R : Type} `{SR : !Scheme S R} (s : S) (size : Z) (garbage : list (option source_symbol)) (l : list source_symbol) (r : receiver S) :
  0 < size < 2 ^ 31 -> create_framework_receiver s size garbage = Some r -> l <> [] -> WindowBuffers.small_gaps id (WindowBuffers.empty_window size) l ->
  exists r', receive_all r l = Some r' /\
    (forall i, WindowBuffers.ring_get (received_source_symbols r') i = Some (WindowBuffers.w_map (foldl (WindowBuffers.window_add id) (WindowBuffers.empty_window size) l) !! i)) /\
    (smallest_considered_id_to_advertise r' + 1 ∉ id <$> l) /\ forall x, 1 <= x <= smallest_considered_id_to_advertise r' -> x ∈ id <$> l.
Proof.
  intros Hs E Hne Hg. unfold create_framework_receiver, WindowBuffers.new_ring in E. destruct (Z.eqb_spec size 0); [lia|]. cbn in E. injection E as <-. rewrite u32_small by lia.
  destruct (receive_all_ok l (Receiver false false 0 size 1 s [(0, 1)] (WindowBuffers.Ring size 0 0 0 garbage)) (WindowBuffers.empty_window size) []) as (r' & ids & E & H & Hm & Ha).
  { split; cbn [received_source_symbols symbols_tracker].
    - right. cbn. split_and!; (done || lia).
    - cbn. lia.
    - by eexists _, _.
    - intros x. rewrite WindowBuffers.member_cons, WindowBuffers.member_nil. pose proof (not_elem_of_nil x). cbn. intuition lia.
    - constructor. }
  { done. }
  exists r'. split; [done|]. specialize (Ha Hne). destruct (contiguous _ _ _ H) as (h & Eh & Hh & Hnot & Hall). rewrite Eh in Ha. injection Ha as Ha. rewrite u32_small in Ha by lia. rewrite Ha.
  assert (Hids : forall x, x ∈ ids <-> x ∈ id <$> l) by (intros x; rewrite Hm; pose proof (not_elem_of_nil x); tauto).
  split; [|split; [by rewrite <- Hids|intros x Hx; rewrite <- Hids; by apply Hall]].
  intros i. destruct (ro_ring _ _ _ H) as [Hw|(_ & _ & _ & Hlt & _)]; [by eapply WindowBuffers.ring_get_ok|]. exfalso.
  destruct (WindowBuffers.add_all_stands id l (WindowBuffers.Ring size 0 0 0 garbage) (WindowBuffers.empty_window size)) as (b' & _ & Hb'); [right; cbn; split_and!; (done || lia)|done..|].
  pose proof (WindowBuffers.sf_bounds _ _ _ Hb'). lia.
Qed.

(** A scheme that recovers nothing. *)
#[local] Instance no_scheme : Scheme unit unit := {|
  scheme_receive_source := fun s _ => s; scheme_receive_repair := fun s _ => (s, false); scheme_recover := fun s => (s, (false, [])); scheme_remove_unused := fun s _ => s |}.

Definition sample_symbols : list source_symbol := [Symbol 2 0 [0]; Symbol 1 0 [0]; Symbol 4 0 [0]].

Lemma receiver_advertises_contiguous_witness : exists r r', create_framework_receiver tt 8 (replicate 8 None) = Some r /\ receive_all r sample_symbols = Some r' /\
  smallest_considered_id_to_advertise r' + 1 ∉ [2; 1; 4].
Proof.
  assert (E0 : exists r : receiver unit, create_framework_receiver tt 8 (replicate 8 None) = Some r) by (eexists; reflexivity). destruct E0 as [r E0]. exists r.
  destruct (receiver_advertises_contiguous tt 8 (replicate 8 None) sample_symbols r) as (r' & E & _ & Hn & _).
  - lia.
  - exact E0.
  - discriminate.
  - cbn. repeat split; lia.
  - exists r'. split; [exact E0|]. split; [exact E|exact Hn].
Defined.

(** A symbol that arrived in a packet has a [chunk_size] of zero: it adds nothing to a packet that is put together again, and the copy of one that starts with the packet
    number would be of eight bytes less than nothing. *)
Example received_symbols_empty : unpadded (Symbol 2 created_chunk_size ([1] ++ replicate 25 65)) = Some [] /\
  unpadded (Symbol 1 created_chunk_size ([6] ++ FecFrames.encode_u64 77 ++ replicate 17 65)) = None.
Proof. split; vm_compute; reflexivity. Qed.

(** Zeros at the start of a chunk are taken for padding, also behind the first symbol of a packet. *)
Example zeros_taken_for_padding : unpadded (Symbol 2 4 [1; 0; 0; 65; 66]) = Some [65; 66].
Proof. vm_compute. reflexivity. Qed.

(** STREAM frames that fill the last chunk with less than eight bytes make the length of the copy negative. *)
Example short_last_chunk : packet_payload_to_source_symbols true zeros ([0x0a; 4; 17] ++ replicate 17 65) 26 77 = None.
Proof. vm_compute. reflexivity. Qed.
End FecReceiver.
