(* ===== verification/SendStream.v ===== *)
(** * Sending on streams: picoquic/sender.c and picoquic/frames.c

    What the application queues on a stream ([picoquic_add_to_stream] and the calls that
    mark, reset or refuse a stream), how a STREAM frame is written from it
    ([prepare_stream_frame], with the polling of active streams), the CRYPTO frames of the
    handshake, and the two loops that fill a packet with STREAM frames.

    The connection is that of Streams; [sender] adds the fields only the sending side
    writes.  A buffer is the list of the bytes written in it.  The application is a
    parameter: what its callback returns when it is polled, and the calls it makes to
    [picoquic_provide_stream_data_buffer] meanwhile.  Allocations succeed.  [None] is the
    use of a null pointer.  The logs are left out, and of the recomputation of the wake
    time (see Timers) only that it was asked for is recorded. *)
From stdpp Require Import base tactics list numbers sorting gmap.
From Stdlib Require Import ZArith Lia Bool.
From S2P Require Import Prelude IntFormat Frames Reassembly Streams.
Import IntFormat Frames Reassembly Streams.
#[local] Open Scope Z_scope.

Module SendStream.

Definition PICOQUIC_ERROR_INVALID_STREAM_ID : Z := 0x400 + 14.
Definition PICOQUIC_ERROR_STREAM_ALREADY_CLOSED : Z := 0x400 + 15.
Definition PICOQUIC_ERROR_CANNOT_SET_ACTIVE_STREAM : Z := 0x400 + 36.

(** ** State *)

(** The sending side of a stream: offset, queue, and the flags of the application. *)
Definition set_sending (off : Z) (q : list stream_data) (active finreq fins : bool) (x : stream_head) : stream_head :=
  StreamHead (stream_id x) (recv x) (maxdata_local x) (maxdata_remote x) (local_error x) (remote_error x)
    (local_stop_error x) (remote_stop_error x) off q active finreq fins (reset_requested x) (reset_sent x)
    (reset_received x) (reset_signalled x) (stop_sending_requested x) (stop_sending_sent x) (stop_sending_received x)
    (stop_sending_signalled x) (max_stream_updated x).
Definition set_is_active (v : bool) (x : stream_head) : stream_head :=
  set_sending (sent_offset x) (send_queue x) v (fin_requested x) (fin_sent x) x.
Definition set_reset_request (err : Z) (x : stream_head) : stream_head :=
  StreamHead (stream_id x) (recv x) (maxdata_local x) (maxdata_remote x) err (remote_error x)
    (local_stop_error x) (remote_stop_error x) (sent_offset x) (send_queue x) (is_active x) (fin_requested x) (fin_sent x)
    true (reset_sent x) (reset_received x) (reset_signalled x) (stop_sending_requested x) (stop_sending_sent x)
    (stop_sending_received x) (stop_sending_signalled x) (max_stream_updated x).
Definition set_stop_sending (err : Z) (requested sent : bool) (x : stream_head) : stream_head :=
  StreamHead (stream_id x) (recv x) (maxdata_local x) (maxdata_remote x) (local_error x) (remote_error x)
    err (remote_stop_error x) (sent_offset x) (send_queue x) (is_active x) (fin_requested x) (fin_sent x)
    (reset_requested x) (reset_sent x) (reset_received x) (reset_signalled x) requested sent
    (stop_sending_received x) (stop_sending_signalled x) (max_stream_updated x).
Definition set_data_sent (v : Z) (x : cnx) : cnx :=
  Cnx (client_mode x) (streams x) (local_parameters x) (remote_parameters x) (cnx_maxdata_local x) (cnx_maxdata_remote x)
    (data_received x) v (max_stream_id_bidir_local x) (max_stream_id_unidir_local x)
    (max_stream_id_bidir_local_computed x) (max_stream_id_unidir_local_computed x) (max_stream_id_bidir_remote x)
    (max_stream_id_unidir_remote x) (max_stream_receive_window_size x) (last_visited_stream_id x) (cnx_state x)
    (cnx_local_error x) (offending_frame_type x) (latest_progress_time x) (callbacks x).
Definition set_last_visited (v : Z) (x : cnx) : cnx :=
  Cnx (client_mode x) (streams x) (local_parameters x) (remote_parameters x) (cnx_maxdata_local x) (cnx_maxdata_remote x)
    (data_received x) (data_sent x) (max_stream_id_bidir_local x) (max_stream_id_unidir_local x)
    (max_stream_id_bidir_local_computed x) (max_stream_id_unidir_local_computed x) (max_stream_id_bidir_remote x)
    (max_stream_id_unidir_remote x) (max_stream_receive_window_size x) v (cnx_state x)
    (cnx_local_error x) (offending_frame_type x) (latest_progress_time x) (callbacks x).

(** [sending_offset] is a field of the streams, 0 when a stream is created. *)
Record sender := Sender {
  conn : cnx;
  has_callback_fn : bool;
  sending_offset : gmap Z Z;
  nb_bytes_queued : Z;
  sent_stream0 : bool;
  wake_asked : bool
}.

Definition set_conn (v : cnx) (x : sender) : sender :=
  Sender v (has_callback_fn x) (sending_offset x) (nb_bytes_queued x) (sent_stream0 x) (wake_asked x).
Definition set_sending_offset (v : gmap Z Z) (x : sender) : sender :=
  Sender (conn x) (has_callback_fn x) v (nb_bytes_queued x) (sent_stream0 x) (wake_asked x).
Definition set_nb_bytes_queued (v : Z) (x : sender) : sender :=
  Sender (conn x) (has_callback_fn x) (sending_offset x) v (sent_stream0 x) (wake_asked x).
Definition set_sent_stream0 (v : bool) (x : sender) : sender :=
  Sender (conn x) (has_callback_fn x) (sending_offset x) (nb_bytes_queued x) v (wake_asked x).
Definition ask_wake (x : sender) : sender :=
  Sender (conn x) (has_callback_fn x) (sending_offset x) (nb_bytes_queued x) (sent_stream0 x) true.

Definition upd (id : Z) (f : stream_head -> stream_head) (x : sender) : sender := set_conn (update_stream id f (conn x)) x.

(** ** The calls of the application *)

(** [is_unidir] stays 0, so the stream is never marked as finished in the other direction. *)
Definition picoquic_find_stream_for_writing (id : Z) (x : sender) : Z * option stream_head * sender :=
  match picoquic_find_stream id false (conn x) with
  | (Some s, _) => (0, Some s, x)
  | (None, _) =>
    if negb (Bool.eqb (IS_CLIENT_STREAM_ID id) (client_mode (conn x))) then (PICOQUIC_ERROR_INVALID_STREAM_ID, None, x)
    else (0, Some (new_stream (conn x) id), set_conn (picoquic_create_stream id (conn x)) x)
  end.

Definition picoquic_mark_active_stream (id : Z) (active : bool) (x : sender) : Z * sender :=
  let '(ret, stream, x) := picoquic_find_stream_for_writing id x in
  match stream with
  | None => (ret, x)
  | Some s =>
    if active then
      if match send_queue s with [] => true | _ => false end && negb (fin_requested s) && negb (reset_requested s)
         && has_callback_fn x
      then (0, upd id (set_is_active true) x)
      else (PICOQUIC_ERROR_CANNOT_SET_ACTIVE_STREAM, x)
    else (0, upd id (set_is_active false) x)
  end.

(** The flags of the stream are read even when there is no stream. *)
Definition picoquic_add_to_stream (id : Z) (data : list Z) (set_fin : bool) (x : sender) : option (Z * sender) :=
  let length' := Z.of_nat (length data) in
  let '(ret, stream, x) := picoquic_find_stream_for_writing id x in
  match stream with
  | None => None
  | Some s =>
    let '(ret, x) :=
      if set_fin then
        if fin_requested s then (if 0 <? length' then -1 else ret, x)
        else (ret, upd id (set_fin_requested true) x)
      else (ret, x) in
    let ret := if reset_sent s || stop_sending_received s then -1 else ret in
    let x :=
      if (ret =? 0) && (0 <? length') then
        let x := upd id (fun s => set_send_queue (send_queue s ++ [StreamData 0 data]) s) x in
        let x := set_sending_offset (<[id := u64 (default 0 (sending_offset x !! id) + length')]> (sending_offset x)) x in
        ask_wake x
      else x in
    if ret =? 0 then
      Some (ret, upd id (set_is_active false) (set_nb_bytes_queued (u64 (nb_bytes_queued x + length')) x))
    else Some (ret, x)
  end.

Definition picoquic_reset_stream (id local_stream_error : Z) (x : sender) : Z * sender :=
  match picoquic_find_stream id true (conn x) with
  | (None, c) => (PICOQUIC_ERROR_INVALID_STREAM_ID, ask_wake (set_conn c x))
  | (Some s, c) =>
    let x := set_conn c x in
    if fin_sent s then (PICOQUIC_ERROR_STREAM_ALREADY_CLOSED, ask_wake x)
    else if negb (reset_requested s) then (0, ask_wake (upd id (set_reset_request local_stream_error) x))
    else (0, ask_wake x)
  end.

Definition picoquic_stop_sending (id local_stream_error : Z) (x : sender) : Z * sender :=
  match picoquic_find_stream id true (conn x) with
  | (None, c) => (PICOQUIC_ERROR_INVALID_STREAM_ID, ask_wake (set_conn c x))
  | (Some s, c) =>
    let x := set_conn c x in
    if reset_received s then (PICOQUIC_ERROR_STREAM_ALREADY_CLOSED, ask_wake x)
    else if negb (stop_sending_requested s)
    then (0, ask_wake (upd id (fun s => set_stop_sending local_stream_error true (stop_sending_sent s) s) x))
    else (0, ask_wake x)
  end.

(** ** Writing a STREAM frame *)

(** [bytes[0] |= b] *)
Definition or_first (b : Z) (bytes : list Z) : list Z :=
  match bytes with [] => [] | b0 :: bytes' => Z.lor b0 b :: bytes' end.

(** [picoquic_stream_data_buffer_argument_t]: [db_bytes] are the bytes before [byte_index],
    [db_data] those the application wrote from there on. *)
Record data_buffer := DataBuffer {
  db_bytes : list Z; db_byte_space : Z; db_space : Z; db_data : list Z; db_is_fin : bool; db_is_still_active : bool
}.

(** A call of the application and the bytes it then writes at the address it is given. *)
Record provide_call := Provide { pc_data : list Z; pc_fin : bool; pc_active : bool }.

Definition picoquic_provide_stream_data_buffer (ctx : data_buffer) (call : provide_call) : data_buffer :=
  let length' := Z.of_nat (length (pc_data call)) in
  if length' <=? db_space ctx then
    let bytes := if pc_fin call then or_first 1 (db_bytes ctx) else db_bytes ctx in
    let bytes :=
      if length' <? db_byte_space ctx then
        if length' =? db_byte_space ctx - 1 then picoquic_frame_type_padding :: bytes
        else or_first 2 (bytes ++ picoquic_varint_encode (db_space ctx) length')
      else bytes in
    DataBuffer bytes (db_byte_space ctx) (db_space ctx) (pc_data call) (pc_fin call || db_is_fin ctx) (pc_active call)
  else ctx.

(** The type, the stream id and the offset, with the lengths of the two. *)
Definition stream_frame_header (s : stream_head) (bytes_max : Z) : list Z * Z * Z :=
  let bytes := [picoquic_frame_type_stream_range_min] in
  let e1 := if 1 <? bytes_max then picoquic_varint_encode (bytes_max - 1) (stream_id s) else [] in
  let bytes := bytes ++ e1 in
  let byte_index := 1 + Z.of_nat (length e1) in
  let '(bytes, l_off) :=
    if (0 <? sent_offset s) && (byte_index <? bytes_max) then
      let e2 := picoquic_varint_encode (bytes_max - byte_index) (sent_offset s) in
      (or_first 4 bytes ++ e2, Z.of_nat (length e2))
    else (bytes, 0) in
  (bytes, Z.of_nat (length e1), l_off).

Section Application.
(** What the callback returns for a stream and a space, and the calls it makes; the value
    of [is_still_active] before them, which the code does not set. *)
Variable poll : Z -> Z -> Z * list provide_call.
Variable uninit : bool.

(** The branch of a stream the application wants to be polled for. *)
Definition write_polled (s : stream_head) (bytes : list Z) (byte_space allowed_space : Z) (x : sender) :
    Z * Z * list Z * sender :=
  let '(failed, calls) := poll (stream_id s) allowed_space in
  if negb (failed =? 0) then
    (PICOQUIC_ERROR_DETECTED, 0, bytes, set_conn (connection_error PICOQUIC_TRANSPORT_INTERNAL_ERROR 0 (conn x)) x)
  else
    let ctx := foldl picoquic_provide_stream_data_buffer (DataBuffer bytes byte_space allowed_space [] false uninit) calls in
    let written := db_bytes ctx ++ db_data ctx in
    let length' := Z.of_nat (length (db_data ctx)) in
    let c := set_data_sent (u64 (data_sent (conn x) + length')) (conn x) in
    let c := update_stream (stream_id s) (fun s =>
      if db_is_fin ctx then set_sending (u64 (sent_offset s + length')) (send_queue s) false true true s
      else set_sending (u64 (sent_offset s + length')) (send_queue s) (db_is_still_active ctx) (fin_requested s) (fin_sent s) s) c in
    let c := if db_is_fin ctx then picoquic_update_max_stream_ID_local (stream_id s) c else c in
    (0, Z.of_nat (length written), written, set_conn c x).

(** The queue after [length'] bytes of its first block were copied. *)
Definition consume_queue (length' : Z) (q : list stream_data) : list stream_data :=
  match q with
  | [] => []
  | d :: q' => if sd_length d <=? sd_offset d + length' then q' else StreamData (sd_offset d + length') (sd_bytes d) :: q'
  end.

(** The branch that takes the data from the queue. *)
Definition write_queued (s : stream_head) (bytes : list Z) (byte_space allowed_space : Z) (x : sender) :
    Z * Z * list Z * sender :=
  let available := match send_queue s with [] => 0 | d :: _ => sd_length d - sd_offset d end in
  let length' := if allowed_space <=? available then allowed_space else available in
  let '(bytes, start_index) :=
    if length' <? byte_space then
      if length' =? byte_space - 1 then (picoquic_frame_type_padding :: bytes, 1%nat)
      else (or_first 2 (bytes ++ picoquic_varint_encode byte_space length'), 0%nat)
    else (bytes, 0%nat) in
  let '(bytes, q, x) :=
    match send_queue s with
    | d :: _ =>
      if 0 <? length' then
        let q := consume_queue length' (send_queue s) in
        (bytes ++ take (Z.to_nat length') (drop (Z.to_nat (sd_offset d)) (sd_bytes d)), q,
         set_conn (set_data_sent (u64 (data_sent (conn x) + length'))
           (update_stream (stream_id s)
             (fun s => set_sending (u64 (sent_offset s + length')) q (is_active s) (fin_requested s) (fin_sent s) s) (conn x))) x)
      else (bytes, send_queue s, x)
    | [] => (bytes, [], x)
    end in
  match q with
  | [] =>
    if fin_requested s then
      let bytes := take start_index bytes ++ or_first 1 (drop start_index bytes) in
      (0, Z.of_nat (length bytes), bytes,
       set_conn (picoquic_update_max_stream_ID_local (stream_id s) (update_stream (stream_id s) (set_fin_sent true) (conn x))) x)
    else (0, Z.of_nat (length bytes), bytes, x)
  | _ :: _ =>
    if length' =? 0 then (PICOQUIC_ERROR_FRAME_BUFFER_TOO_SMALL, 0, bytes, x)
    else (0, Z.of_nat (length bytes), bytes, x)
  end.

(** [STREAM_SEND_STOP_SENDING]: the frame of Frames, on the flags of the stream. *)
Definition stop_sending_branch (s : stream_head) (bytes_max : Z) (x : sender) : Z * Z * list Z * sender :=
  let '(ret, consumed, bytes, sent) :=
    picoquic_prepare_stop_sending_frame (stream_id s) (local_stop_error s) (stop_sending_requested s) (stop_sending_sent s)
      (fin_received (recv s)) (reset_received s) bytes_max in
  (ret, consumed, bytes, upd (stream_id s) (set_stop_sending (local_stop_error s) (stop_sending_requested s) sent) x).

Definition nothing_to_send (s : stream_head) : bool :=
  negb (is_active s) &&
  match send_queue s with [] => true | d :: _ => sd_length d <=? sd_offset d end &&
  (negb (fin_requested s) || fin_sent s).

(** The error code, [consumed], and the bytes written. *)
Definition prepare_stream_frame (s : stream_head) (bytes_max : Z) (x : sender) : Z * Z * list Z * sender :=
  if reset_requested s && negb (reset_sent s) then
    let '(ret, consumed, bytes, c) := picoquic_prepare_stream_reset_frame s bytes_max (conn x) in
    (ret, consumed, bytes, set_conn c x)
  else if stop_sending_requested s && negb (stop_sending_sent s) then stop_sending_branch s bytes_max x
  else if nothing_to_send s then (0, 0, [], x)
  else
    let '(bytes, l_stream, l_off) := stream_frame_header s bytes_max in
    let byte_index := Z.of_nat (length bytes) in
    let '(ret, consumed, bytes, x) :=
      if (bytes_max <? byte_index + 3) || (l_stream =? 0) || ((0 <? sent_offset s) && (l_off =? 0)) then
        (PICOQUIC_ERROR_FRAME_BUFFER_TOO_SMALL, 0, bytes, x)
      else
        let byte_space := bytes_max - byte_index in
        let allowed_space := Z.min byte_space (u64 (maxdata_remote s - sent_offset s)) in
        let allowed_space := Z.min allowed_space (u64 (cnx_maxdata_remote (conn x) - data_sent (conn x))) in
        if is_active s && negb (fin_requested s) then write_polled s bytes byte_space allowed_space x
        else write_queued s bytes byte_space allowed_space x in
    let x := if ret =? 0 then set_conn (set_last_visited (stream_id s) (conn x)) x else x in
    let x := if (0 <? consumed) && (stream_id s =? 0) then set_sent_stream0 true x else x in
    (ret, consumed, bytes, x).

(** ** Filling a packet with STREAM frames *)

(** The loop of [picoquic_prepare_packet_ready]; [cap] is the size of the buffer less the
    checksum, [length'] what the packet holds, and the hook [stream_bytes_max] is built in.
    [None]: the fuel did not suffice. *)
Fixpoint encode_stream_frames (fuel : nat) (cap checksum_overhead length' stream_bytes_max : Z) (stream : option Z)
    (written : list Z) (x : sender) : option (Z * list Z * sender) :=
  match fuel with
  | O => None
  | S fuel =>
    match stream ≫= fun id => find_in id (streams (conn x)) with
    | None => Some (0, written, x)
    | Some s =>
      let '(ret, data_bytes, bytes, x) := prepare_stream_frame s stream_bytes_max x in
      if ret =? 0 then
        let length' := length' + data_bytes in
        let written := written ++ take (Z.to_nat data_bytes) bytes in
        if checksum_overhead + length' + 8 <? stream_bytes_max then
          encode_stream_frames fuel cap checksum_overhead length' (cap - length')
            (stream_id <$> find_ready_stream_round_robin (conn x)) written x
        else Some (0, written, x)
      else if ret =? PICOQUIC_ERROR_FRAME_BUFFER_TOO_SMALL then Some (0, written, x)
      else encode_stream_frames fuel cap checksum_overhead length' stream_bytes_max stream written x
    end
  end.

(** The loop of [picoquic_prepare_packet_0rtt]. *)
Fixpoint encode_0rtt_frames (fuel : nat) (cap length' : Z) (ret : Z) (written : list Z) (x : sender) :
    option (Z * list Z * sender) :=
  match fuel with
  | O => None
  | S fuel =>
    match find_ready_stream_round_robin (conn x) with
    | None => Some (ret, written, x)
    | Some s =>
      let '(ret, data_bytes, bytes, x) := prepare_stream_frame s (cap - length') x in
      if ret =? 0
      then encode_0rtt_frames fuel cap (length' + data_bytes) ret (written ++ take (Z.to_nat data_bytes) bytes) x
      else encode_0rtt_frames fuel cap length' ret written x
    end
  end.

End Application.

(** ** CRYPTO frames *)

(** The stream of a handshake epoch: [sent_offset] and [send_queue] of [tls_stream]. *)
Definition prepare_crypto_hs_frame (sent_offset : Z) (send_queue : list stream_data) (bytes_max : Z) :
    Z * Z * list Z * Z * list stream_data :=
  match send_queue with
  | [] => (0, 0, [], sent_offset, send_queue)
  | d :: _ =>
    if sd_length d <=? sd_offset d then (0, 0, [], sent_offset, send_queue)
    else
      let e := if 1 <? bytes_max then picoquic_varint_encode (bytes_max - 1) sent_offset else [] in
      let bytes := picoquic_frame_type_crypto_hs :: e in
      let byte_index := Z.of_nat (length bytes) in
      if (bytes_max <? byte_index) || ((0 <? sent_offset) && (Z.of_nat (length e) =? 0))
      then (PICOQUIC_ERROR_FRAME_BUFFER_TOO_SMALL, 0, bytes, sent_offset, send_queue)
      else
        let space := bytes_max - byte_index in
        let '(ret, length', bytes) :=
          if space <? 2 then (0, 0, bytes)
          else
            let available := sd_length d - sd_offset d in
            let l_len := Z.of_nat (length (picoquic_varint_encode space available)) in
            if space <=? available + l_len then
              if space <? l_len then (PICOQUIC_ERROR_FRAME_BUFFER_TOO_SMALL, available, bytes)
              else (0, space - l_len, bytes ++ picoquic_varint_encode space (space - l_len))
            else (0, available, bytes ++ picoquic_varint_encode space available) in
        if negb (ret =? 0) then (ret, 0, bytes, sent_offset, send_queue)
        else if 0 <? length' then
          let bytes := bytes ++ take (Z.to_nat length') (drop (Z.to_nat (sd_offset d)) (sd_bytes d)) in
          (0, Z.of_nat (length bytes), bytes, u64 (sent_offset + length'), consume_queue length' send_queue)
        else (PICOQUIC_ERROR_FRAME_BUFFER_TOO_SMALL, 0, bytes, sent_offset, send_queue)
  end.

(** ** STREAM frames on the wire *)

(** [e] is an encoding of [n]. *)
Definition encodes (e : list Z) (n : Z) : Prop := e <> [] /\ exists m, e = picoquic_varint_encode m n.

Lemma encodes_intro m n : picoquic_varint_encode m n <> [] -> encodes (picoquic_varint_encode m n) n.
Proof. intros. by split; [|exists m]. Qed.

(** The encoder writes all of a value or nothing. *)
Lemma encode_exact_length m n : 0 <= n < 2 ^ 62 ->
  Z.of_nat (length (picoquic_varint_encode m n)) = if picoquic_varint_len n <=? m then picoquic_varint_len n else 0.
Proof.
  intros Hn. unfold picoquic_varint_encode, picoquic_varint_len. case_cmp; cbn [length]; try lia.
Qed.

Lemma encodes_length e n : 0 <= n < 2 ^ 62 -> encodes e n -> Z.of_nat (length e) = picoquic_varint_len n.
Proof.
  intros Hn [Hne [m ->]]. pose proof (encode_exact_length m n Hn) as H. destruct (Z.leb_spec (picoquic_varint_len n) m); [done|].
  destruct (picoquic_varint_encode m n); [done|]. cbn in H. lia.
Qed.

Lemma varint_at_encoding pre e n rest i : 0 <= n < 2 ^ 62 -> encodes e n -> i = Z.of_nat (length pre) ->
  varint_at (pre ++ e ++ rest) i = (Z.of_nat (length e), n).
Proof.
  intros Hn He ->. pose proof (encodes_length e n Hn He) as Hl. destruct He as [Hne [m ->]].
  unfold varint_at. rewrite Nat2Z.id, drop_app_length, !length_app.
  assert (1 <= picoquic_varint_len n) by (unfold picoquic_varint_len; case_cmp; lia).
  destruct (Z.ltb_spec (Z.of_nat (length pre)) (Z.of_nat (length pre + (length (picoquic_varint_encode m n) + length rest)))); [|lia].
  assert (Hm : picoquic_varint_len n <= m).
  { pose proof (encode_exact_length m n Hn) as H'. destruct (Z.leb_spec (picoquic_varint_len n) m); lia. }
  destruct (varint_encode_decode n m (Z.of_nat (length pre + (length (picoquic_varint_encode m n) + length rest)) -
    Z.of_nat (length pre)) rest Hn Hm ltac:(lia)) as (Hlen & _ & Hdec & _).
  cbv zeta in Hlen, Hdec. rewrite Hdec. cbn. by rewrite Hlen.
Qed.

(** A STREAM frame with its optional fields. *)
Definition stream_type (off : Z) (with_len fin : bool) : Z := 8 + 4 * b2z (0 <? off) + 2 * b2z with_len + b2z fin.
Definition stream_wire (off : Z) (with_len fin : bool) (e1 e2 e3 data : list Z) : list Z :=
  stream_type off with_len fin :: e1 ++ e2 ++ e3 ++ data.

Lemma stream_type_bits off with_len fin :
  let t := stream_type off with_len fin in
  0 <= t < 64 /\ is_stream_type t = true /\
  Z.land t 2 = 2 * b2z with_len /\ Z.land t 4 = 4 * b2z (0 <? off) /\ negb (Z.land t 1 =? 0) = fin.
Proof. unfold stream_type. destruct (0 <? off), with_len, fin; vm_compute; split_and!; done. Qed.

(** Reading a frame that has all it announces. *)
Lemma parse_wire id off (with_len fin : bool) e1 e2 e3 data rest :
  0 <= id < 2 ^ 62 -> 0 <= off < 2 ^ 62 -> Z.of_nat (length data) < 2 ^ 62 -> encodes e1 id ->
  (if 0 <? off then encodes e2 off else e2 = []) ->
  (if with_len then encodes e3 (Z.of_nat (length data)) else e3 = [] /\ rest = []) ->
  let w := stream_wire off with_len fin e1 e2 e3 data in
  reads (parse_stream_frame (w ++ rest)) (Z.of_nat (length w)) (stream_frame id off fin (Z.of_nat (length data)) data).
Proof.
  intros Hid Hoff Hdl H1 H2 H3. cbv zeta. destruct (stream_type_bits off with_len fin) as (Ht & _ & Hb2 & Hb4 & Hb1).
  set (n := Z.of_nat (length data)) in *. set (t := stream_type off with_len fin) in *.
  unfold stream_wire. fold t. set (b := (t :: e1 ++ e2 ++ e3 ++ data) ++ rest).
  assert (Hbmax : Z.of_nat (length b) = 1 + Z.of_nat (length e1) + Z.of_nat (length e2) + Z.of_nat (length e3) + n + Z.of_nat (length rest)).
  { unfold b, n. cbn [app length]. rewrite !length_app. lia. }
  pose proof (encodes_length _ _ Hid H1) as L1.
  assert (0 < picoquic_varint_len id) by (unfold picoquic_varint_len; case_cmp; lia).
  assert (V1 : varint_at b 1 = (Z.of_nat (length e1), id)).
  { replace b with ([t] ++ e1 ++ (e2 ++ e3 ++ data ++ rest)) by (unfold b; cbn; by rewrite <- !app_assoc).
    by apply varint_at_encoding. }
  assert (V2 : (if Z.land t 4 =? 0 then (0, 0) else varint_at b (1 + Z.of_nat (length e1))) = (Z.of_nat (length e2), off) /\
    (negb (Z.land t 4 =? 0) && (Z.of_nat (length e2) =? 0)) = false).
  { rewrite Hb4. destruct (Z.ltb_spec 0 off); cbn [b2z Z.mul Z.eqb Pos.mul negb andb].
    - assert (0 < picoquic_varint_len off) by (unfold picoquic_varint_len; case_cmp; lia).
      pose proof (encodes_length _ _ Hoff H2). split; [|destruct (Z.eqb_spec (Z.of_nat (length e2)) 0); [lia|done]].
      replace b with ((t :: e1) ++ e2 ++ (e3 ++ data ++ rest)) by (unfold b; cbn; by rewrite <- !app_assoc).
      apply varint_at_encoding; [done|done|]. cbn [length]. lia.
    - subst e2. split; [|done]. replace off with 0 by lia. done. }
  destruct V2 as [V2 V2'].
  assert (Hh : picoquic_parse_stream_header b = StreamHeader 0 id off n fin (1 + Z.of_nat (length e1) + Z.of_nat (length e2) + Z.of_nat (length e3))).
  { unfold picoquic_parse_stream_header. change (nth 0 b 0) with t. rewrite V1, V2, V2', Hb1, Hb2.
    destruct (Z.ltb_spec (Z.of_nat (length b)) (1 + Z.of_nat (length e1) + Z.of_nat (length e2))); [unfold n in *; lia|].
    destruct (Z.eqb_spec (Z.of_nat (length e1)) 0); [lia|]. cbn [orb].
    destruct with_len; cbn [b2z Z.mul Z.eqb Pos.mul].
    - assert (0 < picoquic_varint_len n) by (unfold picoquic_varint_len, n; case_cmp; lia).
      assert (0 <= n) by (unfold n; lia). pose proof (encodes_length e3 n ltac:(lia) H3).
      replace (varint_at b (1 + Z.of_nat (length e1) + Z.of_nat (length e2))) with (Z.of_nat (length e3), n).
      2: { symmetry. replace b with ((t :: e1 ++ e2) ++ e3 ++ (data ++ rest)) by (unfold b; cbn; by rewrite <- !app_assoc).
           apply varint_at_encoding; [lia|done|]. cbn [length]. rewrite length_app. lia. }
      destruct (Z.eqb_spec (Z.of_nat (length e3)) 0); [lia|].
      destruct (Z.ltb_spec (Z.of_nat (length b)) (1 + Z.of_nat (length e1) + Z.of_nat (length e2) + Z.of_nat (length e3))); [unfold n in *; lia|].
      cbn [orb]. destruct (Z.ltb_spec (Z.of_nat (length b)) (1 + Z.of_nat (length e1) + Z.of_nat (length e2) + Z.of_nat (length e3) + n)); [lia|done].
    - destruct H3 as [-> ->]. cbn [length] in Hbmax |- *. f_equal; lia. }
  unfold parse_stream_frame. rewrite Hh. cbn [sh_ret Z.eqb negb sh_data_length sh_consumed sh_stream_id sh_offset sh_fin].
  unfold reads. cbn [pr_consumed pr_frame pr_error]. split_and!; [|do 2 f_equal|done].
  - f_equal. unfold n. cbn [length]. rewrite !length_app. lia.
  - replace b with ((t :: e1 ++ e2 ++ e3) ++ data ++ rest) by (unfold b; cbn; by rewrite <- !app_assoc).
    rewrite drop_app_length' by (cbn [length]; rewrite !length_app; lia). rewrite take_app_length'; [done|]. unfold n. lia.
Qed.

(** ** Layout of the frames that are written *)

(** [bytes] is a STREAM frame, after at most one byte of padding; it ends the buffer when it
    has no length. *)
Definition frame_bytes (id off : Z) (fin : bool) (data : list Z) (bytes_max : Z) (bytes : list Z) : Prop :=
  exists (pad : nat) (with_len : bool) e1 e2 e3,
    bytes = replicate pad 0 ++ stream_wire off with_len fin e1 e2 e3 data /\ (pad <= 1)%nat /\ encodes e1 id /\
    (if 0 <? off then encodes e2 off else e2 = []) /\
    (if with_len then encodes e3 (Z.of_nat (length data)) else e3 = [] /\ Z.of_nat (length bytes) = bytes_max) /\
    Z.of_nat (length bytes) <= bytes_max.

Lemma or_first_cons b0 b l : or_first b (b0 :: l) = Z.lor b0 b :: l.
Proof. done. Qed.

Lemma stream_type_or off with_len fin :
  Z.lor (stream_type off with_len fin) 1 = stream_type off with_len true /\
  Z.lor (stream_type off with_len fin) 2 = stream_type off true fin.
Proof. unfold stream_type. by destruct (0 <? off), with_len, fin. Qed.

Lemma encoding_length_range n : 0 <= n < 2 ^ 62 -> 1 <= picoquic_varint_len n <= 8.
Proof. unfold picoquic_varint_len. case_cmp; lia. Qed.

Definition frame_ids_ok (s : stream_head) : Prop := 0 <= stream_id s < 2 ^ 62 /\ 0 <= sent_offset s < 2 ^ 62.

(** What the tests after the header leave. *)
Lemma header_shape s bytes_max bytes l1 l2 :
  frame_ids_ok s -> stream_frame_header s bytes_max = (bytes, l1, l2) ->
  (bytes_max <? Z.of_nat (length bytes) + 3) || (l1 =? 0) || ((0 <? sent_offset s) && (l2 =? 0)) = false ->
  exists e1 e2, bytes = stream_type (sent_offset s) false false :: e1 ++ e2 /\ encodes e1 (stream_id s) /\
    (if 0 <? sent_offset s then encodes e2 (sent_offset s) else e2 = []) /\ Z.of_nat (length bytes) + 3 <= bytes_max.
Proof.
  intros [Hid Hoff]. unfold stream_frame_header. destruct (Z.ltb_spec 1 bytes_max) as [Hmax|Hmax].
  2: { cbn [length app]. destruct (0 <? sent_offset s); destruct (Z.ltb_spec (1 + Z.of_nat 0) bytes_max); [lia| |lia|];
       cbn [andb]; intros [= <- <- <-]; cbn [length]; intros Hor;
       destruct (Z.ltb_spec bytes_max (Z.of_nat 1 + 3)); (done || lia). }
  set (e1 := picoquic_varint_encode (bytes_max - 1) (stream_id s)).
  assert (H1 : (Z.of_nat (length e1) =? 0) = false -> encodes e1 (stream_id s)).
  { intros Hl. apply encodes_intro. apply length_nonzero. by apply Z.eqb_neq. }
  destruct (Z.ltb_spec 0 (sent_offset s)) as [Hpos|Hpos]; cbn [andb].
  - destruct (Z.ltb_spec (1 + Z.of_nat (length e1)) bytes_max) as [Hlt|Hlt].
    + set (e2 := picoquic_varint_encode _ (sent_offset s)). intros [= <- <- <-] Hor.
      apply orb_false_iff in Hor as [[H3 H4]%orb_false_iff H5]. exists e1, e2. split_and!.
      * unfold stream_type. destruct (Z.ltb_spec 0 (sent_offset s)); [done|lia].
      * by apply H1.
      * apply encodes_intro. apply length_nonzero. by apply Z.eqb_neq.
      * apply Z.ltb_ge in H3. exact H3.
    + intros [= <- <- <-] Hor. by rewrite !orb_true_r in Hor.
  - intros [= <- <- <-] Hor. apply orb_false_iff in Hor as [[H3 H4]%orb_false_iff _]. exists e1, [].
    rewrite app_nil_r. split_and!; [|by apply H1|done|by apply Z.ltb_ge in H3].
    unfold stream_type. destruct (Z.ltb_spec 0 (sent_offset s)); [lia|done].
Qed.

(** With 20 bytes the header always fits. *)
Lemma header_fits s bytes_max bytes l1 l2 :
  frame_ids_ok s -> 20 <= bytes_max -> stream_frame_header s bytes_max = (bytes, l1, l2) ->
  (bytes_max <? Z.of_nat (length bytes) + 3) || (l1 =? 0) || ((0 <? sent_offset s) && (l2 =? 0)) = false.
Proof.
  intros [Hid Hoff] Hmax. unfold stream_frame_header. destruct (Z.ltb_spec 1 bytes_max); [|lia].
  pose proof (encoding_length_range _ Hid). pose proof (encoding_length_range _ Hoff).
  pose proof (encode_exact_length (bytes_max - 1) (stream_id s) Hid) as L1.
  destruct (Z.leb_spec (picoquic_varint_len (stream_id s)) (bytes_max - 1)) in L1; [|lia].
  set (e1 := picoquic_varint_encode _ _) in *. destruct (Z.ltb_spec (1 + Z.of_nat (length e1)) bytes_max); [|lia].
  destruct (Z.ltb_spec 0 (sent_offset s)) as [Hpos|Hpos]; cbn [andb]; intros [= <- <- <-].
  - pose proof (encode_exact_length (bytes_max - (1 + Z.of_nat (length e1))) (sent_offset s) Hoff) as L2.
    destruct (Z.leb_spec (picoquic_varint_len (sent_offset s)) (bytes_max - (1 + Z.of_nat (length e1)))) in L2; [|lia].
    set (e2 := picoquic_varint_encode _ (sent_offset s)) in *. cbn [or_first app length]. rewrite length_app.
    destruct (Z.ltb_spec bytes_max (Z.of_nat (S (length e1 + length e2)) + 3)); [lia|].
    destruct (Z.eqb_spec (Z.of_nat (length e1)) 0); [lia|]. destruct (Z.eqb_spec (Z.of_nat (length e2)) 0); [lia|done].
  - cbn [app length]. destruct (Z.ltb_spec bytes_max (Z.of_nat (S (length e1)) + 3)); [lia|].
    by destruct (Z.eqb_spec (Z.of_nat (length e1)) 0); [lia|].
Qed.

(** The length field, the byte of padding, or neither: [m] is the room the encoder is given. *)
Definition add_length (m byte_space n : Z) (bytes : list Z) : list Z :=
  if n <? byte_space then
    if n =? byte_space - 1 then picoquic_frame_type_padding :: bytes
    else or_first 2 (bytes ++ picoquic_varint_encode m n)
  else bytes.

Lemma add_length_frame id off fin e1 e2 data bytes_max m :
  let hdr := stream_type off false fin :: e1 ++ e2 in
  let byte_space := bytes_max - Z.of_nat (length hdr) in
  let n := Z.of_nat (length data) in
  encodes e1 id -> (if 0 <? off then encodes e2 off else e2 = []) -> n <= byte_space <= 16384 -> 1 <= m -> n <= m ->
  frame_bytes id off fin data bytes_max (add_length m byte_space n hdr ++ data).
Proof.
  intros hdr byte_space n H1 H2 Hn Hm Hnm. unfold add_length, frame_bytes.
  assert (Hhdr : Z.of_nat (length hdr) = 1 + Z.of_nat (length e1) + Z.of_nat (length e2))
    by (unfold hdr; cbn [length]; rewrite length_app; lia).
  assert (0 <= n) by (unfold n; lia).
  destruct (Z.ltb_spec n byte_space) as [Hlt|Hge]; [destruct (Z.eqb_spec n (byte_space - 1)) as [He|Hne]|].
  - exists 1%nat, false, e1, e2, []. unfold stream_wire. rewrite app_nil_l. change (replicate 1 0) with [0].
    assert (Z.of_nat (length ((picoquic_frame_type_padding :: hdr) ++ data)) = bytes_max)
      by (rewrite length_app; cbn [length]; unfold n, byte_space in *; lia).
    split_and!; try done; try lia. unfold hdr. cbn [app]. by rewrite <- app_assoc.
  - set (e3 := picoquic_varint_encode m n). exists 0%nat, true, e1, e2, e3.
    assert (Hl : Z.of_nat (length e3) = picoquic_varint_len n).
    { unfold e3. rewrite encode_exact_length by lia. destruct (Z.leb_spec (picoquic_varint_len n) m) as [|Hbad]; [done|].
      unfold picoquic_varint_len in Hbad. revert Hbad. case_cmp; lia. }
    assert (picoquic_varint_len n <= 2) by (unfold picoquic_varint_len; case_cmp; lia).
    assert (picoquic_varint_len n = 2 -> 64 <= n) by (unfold picoquic_varint_len; case_cmp; lia).
    split_and!; try done; try lia.
    + unfold stream_wire, hdr. cbn [replicate app or_first]. rewrite <- !app_assoc. f_equal. apply (stream_type_or off false fin).
    + split; [|by exists m]. apply length_nonzero. pose proof (encoding_length_range n ltac:(lia)). lia.
    + unfold hdr in *. cbn [or_first app length] in *. rewrite !length_app in *. unfold byte_space, n in *. cbn [length] in *. rewrite ?length_app in *. lia.
  - exists 0%nat, false, e1, e2, []. unfold stream_wire. rewrite app_nil_l.
    assert (Z.of_nat (length (hdr ++ data)) = bytes_max) by (rewrite length_app; unfold n, byte_space in *; lia).
    split_and!; try done; try lia. unfold hdr. cbn [replicate app]. by rewrite <- app_assoc.
Qed.

(** ** The receiver's reading of what was sent *)

(** The STREAM frames among the frames of a packet: stream, offset, end of stream, data. *)
Definition stream_frames (q : list (Z * frame)) : list (Z * Z * bool * list Z) :=
  omap (fun f => match f.2 with stream_frame id off fin _ data => Some (id, off, fin, data) | _ => None end) q.

(** The loop over the frames of an application packet (epoch 3) reads all of [bytes] without
    an error, and these are the STREAM frames it finds. *)
Definition decodes_to (bytes : list Z) (fs : list (Z * Z * bool * list Z)) : Prop :=
  forall fuel s, d_bytes s = Some bytes -> (length bytes <= fuel)%nat ->
  exists a q, decode_loop fuel 3 s = Some (DecodeState (Some []) a (d_queue s ++ q) (d_errors s)) /\ stream_frames q = fs.

Lemma decodes_nil : decodes_to [] [].
Proof.
  intros fuel [b a q e] Hs _. cbn in Hs. subst b. exists a, []. split; [|done]. cbn [d_queue d_errors]. rewrite app_nil_r. by destruct fuel.
Qed.

(** One frame that is read whole. *)
Lemma decode_one w rest f s :
  w <> [] -> reads (parse_frame (peek_frame_type (w ++ rest)) (w ++ rest)) (Z.of_nat (length w)) f ->
  exists a t, decode_step 3 (w ++ rest) s = DecodeState (Some rest) a (d_queue s ++ [(t, f)]) (d_errors s).
Proof.
  intros _ (Hc & Hf & He). unfold decode_step. change (allowed_in_epoch 3 _) with true. cbn [negb].
  rewrite Hc, Hf, He. cbn [signalled]. rewrite app_nil_r. eexists _, _. do 2 f_equal.
  by rewrite Nat2Z.id, drop_app_length.
Qed.

Lemma decodes_cons w rest f fs :
  w <> [] -> reads (parse_frame (peek_frame_type (w ++ rest)) (w ++ rest)) (Z.of_nat (length w)) f -> decodes_to rest fs ->
  decodes_to (w ++ rest) (stream_frames [(0, f)] ++ fs).
Proof.
  intros Hne Hr Hrest fuel s Hs Hl. destruct w as [|b w]; [done|]. rewrite length_app in Hl. cbn [length] in Hl.
  destruct fuel as [|fuel]; [lia|]. cbn [decode_loop]. rewrite Hs.
  destruct (decode_one (b :: w) rest f s Hne Hr) as (a & t & Hstep).
  rewrite <- app_comm_cons in Hstep |- *. rewrite Hstep.
  destruct (Hrest fuel (DecodeState (Some rest) a (d_queue s ++ [(t, f)]) (d_errors s)) eq_refl ltac:(lia)) as (a' & q & Hd & Hq).
  exists a', ([(t, f)] ++ q). cbn [d_queue d_errors] in Hd. rewrite Hd, <- app_assoc. split; [done|]. rewrite <- Hq.
  unfold stream_frames. rewrite omap_app. done.
Qed.

Lemma padding_read b rest : b <> 0 -> reads (parse_frame (peek_frame_type (0 :: b :: rest)) (0 :: b :: rest)) 1 (padding_or_ping_frame 0 1).
Proof.
  intros Hb. rewrite peek_byte by lia. change (parse_frame 0) with parse_padding_or_ping_frame.
  unfold reads, parse_padding_or_ping_frame. cbn. destruct (Z.eqb_spec b 0); [done|]. done.
Qed.

(** A frame that was written is read back, and nothing that follows it is lost. *)
Lemma frame_bytes_decodes id off fin data bytes_max bytes rest fs :
  0 <= id < 2 ^ 62 -> 0 <= off < 2 ^ 62 -> Z.of_nat (length data) < 2 ^ 62 ->
  frame_bytes id off fin data bytes_max bytes -> rest = [] \/ Z.of_nat (length bytes) < bytes_max -> decodes_to rest fs ->
  decodes_to (bytes ++ rest) ((id, off, fin, data) :: fs).
Proof.
  intros Hid Hoff Hdl (pad & with_len & e1 & e2 & e3 & -> & Hpad & H1 & H2 & H3 & Hmax) Hrest Hd.
  set (w := stream_wire off with_len fin e1 e2 e3 data) in *.
  destruct (stream_type_bits off with_len fin) as (Ht & Hst & _). set (t := stream_type off with_len fin) in *.
  assert (Hw : decodes_to (w ++ rest) ((id, off, fin, data) :: fs)).
  { apply (decodes_cons w rest (stream_frame id off fin (Z.of_nat (length data)) data) fs); [done| |done].
    unfold w, stream_wire. fold t. rewrite <- app_comm_cons, peek_byte by done. rewrite (parse_frame_stream _ Hst).
    rewrite app_comm_cons. apply parse_wire; try done. destruct with_len; [done|]. destruct H3 as [-> Hl]. split; [done|].
    destruct Hrest; [done|]. lia. }
  destruct pad as [|[|pad]]; [done| |lia]. change (replicate 1 0) with [0]. rewrite <- app_assoc.
  apply (decodes_cons [0] (w ++ rest) (padding_or_ping_frame 0 1)); [done| |done].
  unfold w, stream_wire. fold t. cbn [app length]. apply padding_read. intros E.
  unfold is_stream_type in Hst. rewrite E in Hst. done.
Qed.

(** ** The send queue *)

(** The bytes of the queue that are still to be sent. *)
Definition pending (q : list stream_data) : list Z := mjoin ((fun d => drop (Z.to_nat (sd_offset d)) (sd_bytes d)) <$> q).

Definition block_ok (d : stream_data) : Prop := 0 <= sd_offset d < sd_length d.
Definition queue_ok (q : list stream_data) : Prop := Forall block_ok q.

Lemma pending_cons d q : pending (d :: q) = drop (Z.to_nat (sd_offset d)) (sd_bytes d) ++ pending q.
Proof. done. Qed.

Lemma pending_app q1 q2 : pending (q1 ++ q2) = pending q1 ++ pending q2.
Proof. unfold pending. by rewrite fmap_app, join_app. Qed.

Lemma pending_length d q : block_ok d -> Z.of_nat (length (pending (d :: q))) = sd_length d - sd_offset d + Z.of_nat (length (pending q)).
Proof. unfold block_ok, sd_length. intros. rewrite pending_cons, length_app, length_drop. lia. Qed.

(** No block is empty: nothing is pending exactly when the queue is empty. *)
Lemma pending_nil q : queue_ok q -> pending q = [] -> q = [].
Proof.
  intros [|d q' Hd Hq]; [done|]. intros Hp. pose proof (pending_length d q' Hd) as Hl. rewrite Hp in Hl. cbn [length] in Hl.
  unfold block_ok in *. lia.
Qed.

Lemma consume_queue_ok n d q :
  queue_ok (d :: q) -> 0 <= n <= sd_length d - sd_offset d ->
  queue_ok (consume_queue n (d :: q)) /\
  pending (d :: q) = take (Z.to_nat n) (drop (Z.to_nat (sd_offset d)) (sd_bytes d)) ++ pending (consume_queue n (d :: q)) /\
  Z.of_nat (length (take (Z.to_nat n) (drop (Z.to_nat (sd_offset d)) (sd_bytes d)))) = n.
Proof.
  intros [Hd Hq]%list.Forall_cons Hn. unfold block_ok, sd_length in *. cbn [consume_queue].
  assert (Hlen : Z.of_nat (length (take (Z.to_nat n) (drop (Z.to_nat (sd_offset d)) (sd_bytes d)))) = n)
    by (rewrite length_take, length_drop; lia).
  split_and!; [| |done].
  - destruct (Z.leb_spec (sd_length d) (sd_offset d + n)); [done|]. apply Forall_cons. split; [|done].
    unfold block_ok, sd_length in *. cbn. lia.
  - destruct (Z.leb_spec (sd_length d) (sd_offset d + n)); rewrite !pending_cons; unfold sd_length in *.
    + rewrite firstn_all2; [done|]. rewrite length_drop. lia.
    + cbn [sd_offset sd_bytes]. rewrite app_assoc. f_equal. rewrite Z2Nat.inj_add, <- drop_drop by lia. by rewrite take_drop.
Qed.

(** ** Invariant of the sending side *)

Definition send_stream_ok (s : stream_head) : Prop :=
  frame_ids_ok s /\ sent_offset s <= maxdata_remote s < 2 ^ 62 /\ queue_ok (send_queue s) /\
  (is_active s = true -> send_queue s = []).

Definition total_sent (l : list stream_head) : Z := foldr (fun s acc => sent_offset s + acc) 0 l.

Definition remote_ok (p : stream_parameters) : Prop :=
  0 <= initial_max_stream_data_bidi_local p < 2 ^ 62 /\ 0 <= initial_max_stream_data_bidi_remote p < 2 ^ 62 /\
  0 <= initial_max_stream_data_uni p < 2 ^ 62.

(** No stream has sent beyond the limit the peer set for it, and [data_sent], the sum over
    the streams, is within the limit of the connection. *)
Definition send_ok (c : cnx) : Prop :=
  sorted_ids (streams c) /\ Forall send_stream_ok (streams c) /\ remote_ok (remote_parameters c) /\
  data_sent c = total_sent (streams c) /\ data_sent c <= cnx_maxdata_remote c < 2 ^ 62.

Lemma total_sent_app l1 l2 : total_sent (l1 ++ l2) = total_sent l1 + total_sent l2.
Proof. induction l1 as [|s l1 IH]; cbn; [done|]. fold (total_sent (l1 ++ l2)) (total_sent l1). lia. Qed.

Lemma total_sent_cons s l : total_sent (s :: l) = sent_offset s + total_sent l.
Proof. done. Qed.

Lemma send_stream_in c id s : send_ok c -> find_in id (streams c) = Some s -> send_stream_ok s /\ stream_id s = id.
Proof.
  intros (_ & Hok & _) Hf. destruct (find_in_split _ _ _ Hf) as (l1 & l2 & Heq & Hid). rewrite Heq in Hok.
  apply Forall_app in Hok as [_ Hok]. by apply list.Forall_cons in Hok as [? _].
Qed.

Lemma total_sent_nonneg l : Forall send_stream_ok l -> 0 <= total_sent l.
Proof.
  induction 1 as [|s l Hs _ IH]; [done|]. rewrite total_sent_cons. destruct Hs as ([_ Hoff] & _). lia.
Qed.

(** [c'] is [c] with the stream [s] changed into [s'] and [n] more bytes sent. *)
Record moves (c c' : cnx) (s s' : stream_head) (n : Z) : Prop := Moves {
  mv_streams : exists g, streams c' = update_in (stream_id s) g (streams c) /\ g s = s' /\ (forall t, stream_id (g t) = stream_id t);
  mv_data : data_sent c' = data_sent c + n;
  mv_max : cnx_maxdata_remote c' = cnx_maxdata_remote c;
  mv_params : remote_parameters c' = remote_parameters c;
  mv_mode : client_mode c' = client_mode c;
  mv_limit : max_stream_id_bidir_remote c' = max_stream_id_bidir_remote c
}.

Lemma update_in_compose id f g l :
  (forall t, stream_id (f t) = stream_id t) -> update_in id g (update_in id f l) = update_in id (g ∘ f) l.
Proof.
  intros Hf. unfold update_in. rewrite <- list_fmap_compose. apply list_fmap_ext. intros i t _. cbn.
  destruct (Z.eqb_spec (stream_id t) id) as [He|Hne]; [by rewrite Hf, He, Z.eqb_refl|]. by destruct (Z.eqb_spec (stream_id t) id).
Qed.

Lemma update_in_id id l : update_in id (fun s => s) l = l.
Proof. unfold update_in. rewrite <- (list_fmap_id l) at 2. apply list_fmap_ext. intros i t _. by destruct (_ =? _). Qed.

Lemma moves_id c c' s s' n : moves c c' s s' n -> stream_id s' = stream_id s.
Proof. intros [(g & _ & <- & Hg) _ _ _ _ _]. apply Hg. Qed.

Lemma moves_trans c c1 c2 s s1 s2 n m : moves c c1 s s1 n -> moves c1 c2 s1 s2 m -> moves c c2 s s2 (n + m).
Proof.
  intros H1 H2. pose proof (moves_id _ _ _ _ _ H1) as Hid. destruct H1 as [(g1 & Hs1 & He1 & Hg1) Hd1 Hm1 Hp1 Hc1 Hl1].
  destruct H2 as [(g2 & Hs2 & He2 & Hg2) Hd2 Hm2 Hp2 Hc2 Hl2]. constructor; try congruence; try lia.
  exists (g2 ∘ g1). rewrite Hs2, Hs1, Hid, update_in_compose by done. split_and!; [done|cbn; congruence|]. intros t. cbn. by rewrite Hg2.
Qed.

Lemma moves_trans_0 c c1 c2 s s1 s2 n : moves c c1 s s1 n -> moves c1 c2 s1 s2 0 -> moves c c2 s s2 n.
Proof. intros H1 H2. rewrite <- (Z.add_0_r n). by eapply moves_trans. Qed.

Lemma moves_0_trans c c1 c2 s s1 s2 n : moves c c1 s s1 0 -> moves c1 c2 s1 s2 n -> moves c c2 s s2 n.
Proof. intros H1 H2. change (moves c c2 s s2 (0 + n)). by eapply moves_trans. Qed.

(** A change of fields that are not seen. *)
Lemma moves_same c c' s :
  streams c' = streams c -> data_sent c' = data_sent c -> cnx_maxdata_remote c' = cnx_maxdata_remote c ->
  remote_parameters c' = remote_parameters c -> client_mode c' = client_mode c ->
  max_stream_id_bidir_remote c' = max_stream_id_bidir_remote c -> moves c c' s s 0.
Proof.
  intros. constructor; try congruence; try lia. exists (fun t => t). by rewrite update_in_id.
Qed.

Lemma moves_update c s f : (forall t, stream_id (f t) = stream_id t) -> moves c (update_stream (stream_id s) f c) s (f s) 0.
Proof. intros Hf. constructor; try done; cbn; [by exists f|lia]. Qed.

Lemma moves_data c s n : moves c (set_data_sent (data_sent c + n) c) s s n.
Proof. constructor; try done. exists (fun t => t). by rewrite update_in_id. Qed.

Lemma set_updated_same s : set_max_stream_updated (max_stream_updated s) s = s.
Proof. by destruct s. Qed.

Lemma moves_max c s : exists v, moves c (picoquic_update_max_stream_ID_local (stream_id s) c) s (set_max_stream_updated v s) 0.
Proof.
  unfold picoquic_update_max_stream_ID_local. assert (H0 : moves c c s (set_max_stream_updated (max_stream_updated s) s) 0).
  { rewrite set_updated_same. by apply moves_same. }
  destruct (find_in (stream_id s) (streams c)); [|by eexists].
  repeat (destruct (_ && _); [|by eexists]). set (c1 := update_stream (stream_id s) (set_max_stream_updated true) c).
  assert (H1 : moves c c1 s (set_max_stream_updated true s) 0) by (by apply moves_update).
  destruct (IS_BIDIR_STREAM_ID (stream_id s)); [destruct (_ || _); [|by eexists]|];
    (exists true; eapply moves_trans_0; [exact H1|by apply moves_same]).
Qed.

Lemma moves_error c s e t : moves c (connection_error e t c) s s 0.
Proof. unfold connection_error. destruct (_ || _); [by apply moves_same|]. destruct (_ <? _); by apply moves_same. Qed.

Lemma find_in_update_other id id' f l :
  (forall t, stream_id (f t) = stream_id t) -> id' <> id -> find_in id' (update_in id f l) = find_in id' l.
Proof.
  intros Hf Hne. induction l as [|t l IH]; [done|]. cbn. rewrite <- IH. destruct (Z.eqb_spec (stream_id t) id) as [He|].
  - rewrite Hf, He. by destruct (Z.eqb_spec id id').
  - done.
Qed.

Lemma moves_find c c' s s' n id :
  find_in (stream_id s) (streams c) = Some s -> moves c c' s s' n ->
  find_in id (streams c') = if id =? stream_id s then Some s' else find_in id (streams c).
Proof.
  intros Hf [(g & -> & <- & Hg) _ _ _ _ _]. destruct (Z.eqb_spec id (stream_id s)) as [->|Hne].
  - by apply find_in_update.
  - by apply find_in_update_other.
Qed.

Lemma moves_ok c c' s s' n :
  send_ok c -> find_in (stream_id s) (streams c) = Some s -> moves c c' s s' n -> send_stream_ok s' ->
  sent_offset s' = sent_offset s + n -> data_sent c + n <= cnx_maxdata_remote c -> send_ok c'.
Proof.
  intros (Hs & Hok & Hp & Hd & Hm) Hf Hmv Hnew Hoff Hmax. pose proof (moves_id _ _ _ _ _ Hmv) as Hid.
  destruct Hmv as [(g & Hg & Hgs & _) Hdata Hmx Hpar _ _].
  destruct (update_in_split (stream_id s) g _ _ Hs Hf) as (l1 & l2 & Heq & Hup & _). unfold send_ok.
  rewrite Hdata, Hmx, Hpar, Hg, Hup, Hgs. rewrite Heq in Hs, Hok, Hd. unfold sorted_ids in *. rewrite fmap_app, fmap_cons in *.
  rewrite Hid. rewrite Forall_app, list.Forall_cons in *. rewrite total_sent_app, total_sent_cons in *. rewrite Hoff.
  split_and!; try tauto; try done; lia.
Qed.

(** ** Frames written from the queue *)

Definition nilb {A} (l : list A) : bool := match l with [] => true | _ => false end.

(** The stream after [data] was sent from its queue, with or without the end of the stream. *)
Definition sent_as (s s' : stream_head) (data : list Z) (fin : bool) : Prop :=
  exists v q', s' = set_max_stream_updated v (set_sending (sent_offset s + Z.of_nat (length data)) q' (is_active s)
                      (fin_requested s) (fin_sent s || fin) s) /\
    pending (send_queue s) = data ++ pending q' /\ queue_ok q' /\ fin = fin_requested s && nilb q'.

(** The frame type is changed after the byte of padding was put in front of it. *)
Lemma fin_bit off e1 e2 m byte_space n data :
  let hdr := stream_type off false false :: e1 ++ e2 in
  let k := if (n <? byte_space) && (n =? byte_space - 1) then 1%nat else 0%nat in
  let bytes := add_length m byte_space n hdr ++ data in
  take k bytes ++ or_first 1 (drop k bytes) = add_length m byte_space n (stream_type off false true :: e1 ++ e2) ++ data.
Proof.
  cbv zeta. unfold add_length. destruct (n <? byte_space); [destruct (n =? byte_space - 1)|]; cbn [andb].
  - cbn [app]. change (take 1 (?a :: ?b :: ?l)) with [a]. cbn. f_equal. f_equal. apply (stream_type_or off false false).
  - cbn [app or_first]. rewrite take_0, drop_0. cbn [or_first app]. f_equal. unfold stream_type. by destruct (0 <? off).
  - cbn [app]. rewrite take_0, drop_0. cbn [or_first app]. f_equal. apply (stream_type_or off false false).
Qed.

(** The outcome of the branch that reads the queue. *)
Definition queued_outcome (s : stream_head) (bytes_max allowed : Z) (x : sender) (r : Z * Z * list Z * sender) : Prop :=
  let '(ret, consumed, bytes, x') := r in
  (ret = PICOQUIC_ERROR_FRAME_BUFFER_TOO_SMALL /\ consumed = 0 /\ x' = x /\ allowed = 0 /\ send_queue s <> []) \/
  (ret = 0 /\ consumed = Z.of_nat (length bytes) /\ exists data fin s',
     sent_as s s' data fin /\ moves (conn x) (conn x') s s' (Z.of_nat (length data)) /\
     frame_bytes (stream_id s) (sent_offset s) fin data bytes_max bytes /\ Z.of_nat (length data) <= allowed /\
     (data <> [] \/ fin = true) /\ x' = set_conn (conn x') x).

Lemma set_conn_conn c x : conn (set_conn c x) = c.
Proof. done. Qed.

Lemma set_sending_same s q b : send_queue s = q ->
  set_sending (sent_offset s) q (is_active s) (fin_requested s) (fin_sent s || b) s = if b then set_fin_sent true s else s.
Proof. intros <-. destruct s, b; unfold set_sending, set_fin_sent; cbn; by rewrite ?orb_true_r, ?orb_false_r. Qed.

Section Queued.
Context (s : stream_head) (x : sender) (e1 e2 : list Z) (bytes_max allowed : Z).
Let hdr := stream_type (sent_offset s) false false :: e1 ++ e2.
Let byte_space := bytes_max - Z.of_nat (length hdr).
Context (Hs : send_stream_ok s) (Hd : 0 <= data_sent (conn x)) (Hmax : cnx_maxdata_remote (conn x) < 2 ^ 62).
Context (H1 : encodes e1 (stream_id s)) (H2 : if 0 <? sent_offset s then encodes e2 (sent_offset s) else e2 = []).
Context (Hbs : 3 <= byte_space <= 16384) (Ha : 0 <= allowed <= byte_space).
Context (Ha1 : allowed <= maxdata_remote s - sent_offset s) (Ha2 : allowed <= cnx_maxdata_remote (conn x) - data_sent (conn x)).

(** Setting the bit of the end of the stream, or not. *)
Lemma finish_queued q' data c n :
  n = Z.of_nat (length data) -> n <= allowed -> queue_ok q' -> pending (send_queue s) = data ++ pending q' ->
  data <> [] \/ fin_requested s && nilb q' = true ->
  (forall b, moves (conn x) (if b : bool then update_stream (stream_id s) (set_fin_sent true) c else c) s
     (set_sending (sent_offset s + n) q' (is_active s) (fin_requested s) (fin_sent s || b) s) n) ->
  let k := if (n <? byte_space) && (n =? byte_space - 1) then 1%nat else 0%nat in
  let bytes := add_length byte_space byte_space n hdr ++ data in
  queued_outcome s bytes_max allowed x
    (if nilb q' then
       if fin_requested s then
         let bytes := take k bytes ++ or_first 1 (drop k bytes) in
         (0, Z.of_nat (length bytes), bytes,
          set_conn (picoquic_update_max_stream_ID_local (stream_id s) (update_stream (stream_id s) (set_fin_sent true) c)) x)
       else (0, Z.of_nat (length bytes), bytes, set_conn c x)
     else (0, Z.of_nat (length bytes), bytes, set_conn c x)).
Proof.
  intros Hn Hna Hq Hp Hsome Hmv k bytes. subst n.
  assert (Hplain : frame_bytes (stream_id s) (sent_offset s) false data bytes_max bytes)
    by (apply add_length_frame; try done; unfold byte_space, hdr in *; cbn [length] in *; lia).
  assert (Hno : fin_requested s && nilb q' = false -> queued_outcome s bytes_max allowed x (0, Z.of_nat (length bytes), bytes, set_conn c x)).
  { intros Hf. right. split_and!; [done|done|]. specialize (Hmv false). cbn beta iota in Hmv.
    exists data, false. eexists. split_and!; try done; [|destruct Hsome as [?|?]; [by left|congruence]].
    exists (max_stream_updated s), q'. split_and!; [by destruct s|done|done|done]. }
  destruct (nilb q') eqn:Eq; [|by apply Hno; rewrite andb_false_r].
  destruct (fin_requested s) eqn:Ef; [|by apply Hno]. clear Hno.
  cbv zeta. right. split_and!; [done|done|]. specialize (Hmv true). cbn beta iota in Hmv.
  set (s1 := set_sending _ _ _ _ _ s) in Hmv.
  destruct (moves_max (update_stream (stream_id s) (set_fin_sent true) c) s1) as [v Hv]. change (stream_id s1) with (stream_id s) in Hv.
  exists data, true, (set_max_stream_updated v s1). split_and!; [|by eapply moves_trans_0| | |by right|done].
  - exists v, q'. subst s1. rewrite Ef, Eq. done.
  - replace (take k bytes ++ or_first 1 (drop k bytes))
      with (add_length byte_space byte_space (Z.of_nat (length data)) (stream_type (sent_offset s) false true :: e1 ++ e2) ++ data)
      by (symmetry; apply fin_bit).
    refine (add_length_frame (stream_id s) (sent_offset s) true e1 e2 data bytes_max byte_space H1 H2 _ _ _); cbn [length]; unfold byte_space, hdr in *; cbn [length] in *; lia.
  - done.
Qed.

Lemma write_queued_effect :
  (send_queue s = [] -> fin_requested s = true) ->
  queued_outcome s bytes_max allowed x (write_queued s hdr byte_space allowed x).
Proof.
  intros Hempty. destruct Hs as ([Hid Hoff] & Hlim & Hq & _). unfold write_queued.
  destruct (send_queue s) as [|d q] eqn:Eq.
  - replace (if allowed <=? 0 then allowed else 0) with 0 by (destruct (Z.leb_spec allowed 0); lia).
    pose proof (finish_queued [] [] (conn x) 0) as H. rewrite Eq in H.
    specialize (H eq_refl ltac:(lia) ltac:(constructor) eq_refl ltac:(right; by rewrite (Hempty eq_refl))).
    cbn [nilb] in H. unfold add_length in H. rewrite !app_nil_r in H.
    assert (Hx : x = set_conn (conn x) x) by (by destruct x). rewrite <- Hx in H.
    destruct (0 <? byte_space); [destruct (0 =? byte_space - 1)|]; cbn [andb] in *; apply H; clear H;
      intros b; rewrite Z.add_0_r, (set_sending_same s [] b Eq); destruct b; (by apply moves_update) || (by apply moves_same).
  - set (n := if allowed <=? sd_length d - sd_offset d then allowed else sd_length d - sd_offset d).
    pose proof Hq as Hq0. apply list.Forall_cons in Hq0 as [Hblock _]. unfold block_ok in Hblock.
    assert (Hn : 0 <= n <= allowed /\ n <= sd_length d - sd_offset d /\ (n = 0 -> allowed = 0))
      by (unfold n; destruct (Z.leb_spec allowed (sd_length d - sd_offset d)); lia).
    destruct (Z.ltb_spec 0 n) as [Hpos|Hzero].
    2: { assert (Hz : n = 0) by lia. assert (allowed = 0) by (by apply Hn). rewrite Hz. change (0 =? 0) with true. cbv iota.
         destruct (0 <? byte_space); [destruct (0 =? byte_space - 1)|]; left; split_and!; (done || by rewrite Eq). }
    destruct (consume_queue_ok n d q Hq ltac:(lia)) as (Hq' & Hp & Hlen).
    set (data := take (Z.to_nat n) _) in *. set (q' := consume_queue n (d :: q)) in *.
    rewrite !u64_small by lia.
    set (c := set_data_sent (data_sent (conn x) + n) _).
    pose proof (finish_queued q' data c n ltac:(done) ltac:(lia) Hq' ltac:(by rewrite Eq)) as H.
    assert (Hne : data <> []) by (intros E; rewrite E in Hlen; cbn in Hlen; lia).
    specialize (H ltac:(by left)). unfold add_length in H.
    destruct (Z.eqb_spec n 0); [lia|].
    assert (Hc : forall b : bool, moves (conn x) (if b then update_stream (stream_id s) (set_fin_sent true) c else c) s
      (set_sending (sent_offset s + n) q' (is_active s) (fin_requested s) (fin_sent s || b) s) n).
    { assert (Hmc : moves (conn x) c s (set_sending (sent_offset s + n) q' (is_active s) (fin_requested s) (fin_sent s) s) n).
      { subst c. eapply moves_0_trans; [exact (moves_update (conn x) s (fun t => set_sending (u64 (sent_offset t + n)) q' (is_active t) (fin_requested t) (fin_sent t) t) ltac:(done))|].
        cbn beta. rewrite u64_small by lia. exact (moves_data (update_stream (stream_id s) _ (conn x)) _ n). }
      intros [|]; rewrite ?orb_true_r, ?orb_false_r; [|done]. eapply moves_trans_0; [exact Hmc|]. by apply (moves_update c (set_sending (sent_offset s + n) q' (is_active s) (fin_requested s) (fin_sent s) s) (set_fin_sent true)). }
    specialize (H Hc). clearbody data.
    destruct (n <? byte_space); [destruct (n =? byte_space - 1)|]; cbn [andb] in *; destruct q'; exact H.
Qed.
End Queued.

(** ** What [prepare_stream_frame] does to the connection *)

(** The stream and the counters stay within the limits. *)
Definition moves_within (c c' : cnx) (s s' : stream_head) : Prop :=
  exists n, moves c c' s s' n /\ send_stream_ok s' /\ sent_offset s' = sent_offset s + n /\ data_sent c + n <= cnx_maxdata_remote c.

Lemma within_same c c' s s' :
  send_ok c -> moves c c' s s' 0 -> send_stream_ok s' -> sent_offset s' = sent_offset s -> moves_within c c' s s'.
Proof. intros (_ & _ & _ & _ & Hm) Hmv Hs' Ho. exists 0. split_and!; try done; lia. Qed.

(** Whatever the application does when it is polled, it gets at most the space it was told. *)
Lemma provide_bounds calls ctx :
  Z.of_nat (length (db_data ctx)) <= db_space ctx ->
  let ctx' := foldl picoquic_provide_stream_data_buffer ctx calls in
  Z.of_nat (length (db_data ctx')) <= db_space ctx.
Proof.
  cbv zeta. revert ctx. induction calls as [|call calls IH]; intros ctx Hc; cbn [foldl]; [done|].
  assert (H : db_space (picoquic_provide_stream_data_buffer ctx call) = db_space ctx /\
    Z.of_nat (length (db_data (picoquic_provide_stream_data_buffer ctx call))) <= db_space ctx).
  { unfold picoquic_provide_stream_data_buffer. destruct (Z.leb_spec (Z.of_nat (length (pc_data call))) (db_space ctx)); by cbn. }
  destruct H as [Hsp Hd]. rewrite <- Hsp. apply IH. by rewrite Hsp.
Qed.

Section Effect.
Context (poll : Z -> Z -> Z * list provide_call) (uninit : bool).

Lemma write_polled_effect s bytes byte_space allowed x :
  send_ok (conn x) -> send_stream_ok s -> is_active s = true -> 0 <= allowed ->
  allowed <= maxdata_remote s - sent_offset s -> allowed <= cnx_maxdata_remote (conn x) - data_sent (conn x) ->
  let '(_, _, _, x') := write_polled poll uninit s bytes byte_space allowed x in
  exists s', moves_within (conn x) (conn x') s s'.
Proof.
  intros Hok Hs Hact Ha Ha1 Ha2. unfold write_polled. destruct (poll (stream_id s) allowed) as [failed calls].
  destruct (negb (failed =? 0)).
  { exists s. apply within_same; try done. cbn. apply moves_error. }
  pose proof (provide_bounds calls (DataBuffer bytes byte_space allowed [] false uninit) ltac:(done)) as Hb. cbv zeta in Hb.
  set (ctx := foldl _ _ _) in *. set (n := Z.of_nat (length (db_data ctx))) in *. cbn [db_space] in Hb.
  assert (0 <= n) by (unfold n; lia). destruct Hok as (Hsort & Hall & _ & Hd & Hmax). pose proof (total_sent_nonneg _ Hall).
  destruct Hs as ([Hid Hoff] & Hlim & Hq & Hempty). rewrite set_conn_conn. rewrite (u64_small (data_sent (conn x) + n)) by lia.
  set (f := fun t => if db_is_fin ctx then set_sending (u64 (sent_offset t + n)) (send_queue t) false true true t
    else set_sending (u64 (sent_offset t + n)) (send_queue t) (db_is_still_active ctx) (fin_requested t) (fin_sent t) t).
  assert (Hf : forall t, stream_id (f t) = stream_id t) by (intros t; unfold f; by destruct (db_is_fin ctx)).
  set (c1 := update_stream (stream_id s) f (set_data_sent (data_sent (conn x) + n) (conn x))).
  assert (Hmv : moves (conn x) c1 s (f s) n) by (eapply moves_trans_0; [apply moves_data|]; by apply moves_update).
  assert (Hok1 : send_stream_ok (f s) /\ sent_offset (f s) = sent_offset s + n).
  { unfold f, send_stream_ok, frame_ids_ok. destruct (db_is_fin ctx); cbn; rewrite u64_small by lia; rewrite (Hempty Hact) in *;
      split_and!; (done || lia). }
  destruct Hok1 as [Hok1 Ho1]. destruct (db_is_fin ctx); [|by exists (f s), n; split_and!; try done; lia].
  destruct (moves_max c1 (f s)) as [v Hv]. rewrite Hf in Hv. exists (set_max_stream_updated v (f s)), n.
  split_and!; [by eapply moves_trans_0|done|done|lia].
Qed.

Lemma reset_effect s bytes_max c :
  send_ok c -> send_stream_ok s ->
  let '(_, _, _, c') := picoquic_prepare_stream_reset_frame s bytes_max c in
  exists s', moves_within c c' s s' /\ is_active s' = is_active s /\ fin_requested s' = fin_requested s /\
    (s' = s \/ (sent_offset s' = sent_offset s /\ send_queue s' = [] /\ reset_sent s' = true /\ fin_sent s' = true)).
Proof.
  intros Hok Hs. unfold picoquic_prepare_stream_reset_frame.
  assert (H0 : moves_within c c s s) by (apply within_same; try done; by apply moves_same).
  destruct (negb _ || _); [by exists s; auto|]. destruct (if 2 <? bytes_max then _ else _) as [[[bs l1] l2] l3]. destruct (orb _ _); [by exists s; auto|].
  clear H0. set (c1 := update_stream (stream_id s) _ c). set (s1 := set_fin_sent true (set_reset_sent true s)).
  assert (H1 : moves c c1 s s1 0) by (by apply moves_update).
  destruct (moves_max c1 s1) as [v1 Hv1]. set (s2 := set_max_stream_updated v1 s1) in *.
  destruct (moves_max (picoquic_update_max_stream_ID_local (stream_id s1) c1) s2) as [v2 Hv2]. set (s3 := set_max_stream_updated v2 s2) in *.
  exists (set_send_queue [] s3). split; [|split; [done|split; [done|by right]]]. apply within_same; [done| | |done].
  - eapply moves_trans_0; [exact H1|]. eapply moves_trans_0; [exact Hv1|]. eapply moves_trans_0; [exact Hv2|].
    by apply (moves_update _ s3 (set_send_queue [])).
  - destruct Hs as ([? ?] & ? & _ & _). unfold send_stream_ok, frame_ids_ok. cbn. split_and!; try done; try lia. constructor.
Qed.

(** The end of [prepare_stream_frame] touches nothing that matters. *)
Lemma epilogue_moves c s s' x' (ret consumed id : Z) n :
  moves c (conn x') s s' n ->
  let x1 := if ret =? 0 then set_conn (set_last_visited id (conn x')) x' else x' in
  let x2 := if (0 <? consumed) && (id =? 0) then set_sent_stream0 true x1 else x1 in
  moves c (conn x2) s s' n.
Proof.
  intros Hmv. cbv zeta. assert (H : moves c (conn (if ret =? 0 then set_conn (set_last_visited id (conn x')) x' else x')) s s' n).
  { destruct (ret =? 0); [|done]. eapply moves_trans_0; [exact Hmv|]. by apply moves_same. }
  by destruct (_ && _).
Qed.

Lemma within_epilogue c s s' x' (ret consumed id : Z) :
  moves_within c (conn x') s s' ->
  let x1 := if ret =? 0 then set_conn (set_last_visited id (conn x')) x' else x' in
  let x2 := if (0 <? consumed) && (id =? 0) then set_sent_stream0 true x1 else x1 in
  moves_within c (conn x2) s s'.
Proof. intros (n & Hmv & Hrest). exists n. split; [|done]. by apply epilogue_moves. Qed.

(** The space left by the limits of the peer. *)
Definition allowed (s : stream_head) (c : cnx) (byte_space : Z) : Z :=
  Z.min (Z.min byte_space (maxdata_remote s - sent_offset s)) (cnx_maxdata_remote c - data_sent c).

Lemma allowed_eq s c byte_space :
  send_ok c -> send_stream_ok s ->
  Z.min (Z.min byte_space (u64 (maxdata_remote s - sent_offset s))) (u64 (cnx_maxdata_remote c - data_sent c)) = allowed s c byte_space.
Proof.
  intros (_ & Hall & _ & Hd & Hmax) ([_ Hoff] & Hlim & _). pose proof (total_sent_nonneg _ Hall). unfold allowed.
  by rewrite !u64_small by lia.
Qed.

(** The queue is read when the stream is not polled. *)
Definition not_polled (s : stream_head) : Prop := is_active s && negb (fin_requested s) = false.

Definition no_control (s : stream_head) : Prop :=
  reset_requested s && negb (reset_sent s) = false /\ stop_sending_requested s && negb (stop_sending_sent s) = false.

Lemma reads_queue s : not_polled s -> nothing_to_send s = false -> queue_ok (send_queue s) -> send_queue s = [] -> fin_requested s = true.
Proof.
  unfold not_polled, nothing_to_send. intros Hn Hsome Hq He. rewrite He in Hsome. destruct (is_active s), (fin_requested s); try done.
Qed.

(** The outcome of a call that does not concern RESET_STREAM, STOP_SENDING or polling. *)
Definition data_outcome (s : stream_head) (bytes_max : Z) (x : sender) (r : Z * Z * list Z * sender) : Prop :=
  let '(ret, consumed, bytes, x') := r in
  (ret = 0 /\ consumed = 0 /\ x' = x /\ nothing_to_send s = true) \/
  (ret = PICOQUIC_ERROR_FRAME_BUFFER_TOO_SMALL /\ consumed = 0 /\ x' = x /\ nothing_to_send s = false /\
   (20 <= bytes_max -> (sent_offset s = maxdata_remote s \/ data_sent (conn x) = cnx_maxdata_remote (conn x)) /\ send_queue s <> [])) \/
  (ret = 0 /\ consumed = Z.of_nat (length bytes) /\ nothing_to_send s = false /\ exists data fin s',
     sent_as s s' data fin /\ moves_within (conn x) (conn x') s s' /\
     frame_bytes (stream_id s) (sent_offset s) fin data bytes_max bytes /\ Z.of_nat (length data) < 2 ^ 62 /\
     (data <> [] \/ fin = true) /\ sending_offset x' = sending_offset x /\ has_callback_fn x' = has_callback_fn x).

Lemma prepare_data s bytes_max x :
  send_ok (conn x) -> send_stream_ok s -> bytes_max <= 16384 -> no_control s -> not_polled s ->
  data_outcome s bytes_max x (prepare_stream_frame poll uninit s bytes_max x).
Proof.
  intros Hok Hs Hb [Hr Hst] Hnp. pose proof Hs as ([Hid Hoff] & Hlim & Hq & Hact).
  pose proof Hok as (_ & Hall & _ & Hd & Hmax). pose proof (total_sent_nonneg _ Hall) as Hnn.
  unfold prepare_stream_frame. rewrite Hr, Hst. destruct (nothing_to_send s) eqn:En; [left; by split_and!|].
  destruct (stream_frame_header s bytes_max) as [[hdr l1] l2] eqn:Eh.
  destruct ((bytes_max <? Z.of_nat (length hdr) + 3) || _ || _) eqn:Eg.
  { right; left. assert (Hpost : forall b, x = (if (0 <? 0) && b then set_sent_stream0 true x else x)) by done.
    split_and!; try done. intros Hb20. pose proof (header_fits s bytes_max hdr l1 l2 ltac:(done) Hb20 Eh) as Hf. congruence. }
  destruct (header_shape s bytes_max hdr l1 l2 ltac:(done) Eh Eg) as (e1 & e2 & -> & H1 & H2 & Hmin).
  rewrite (allowed_eq s (conn x) _ Hok Hs), Hnp. set (hdr := stream_type (sent_offset s) false false :: e1 ++ e2) in *.
  set (bs := bytes_max - Z.of_nat (length hdr)).
  assert (Ha : 0 <= allowed s (conn x) bs <= bs) by (unfold allowed; lia).
  assert (Ha1 : allowed s (conn x) bs <= maxdata_remote s - sent_offset s) by (unfold allowed; lia).
  assert (Ha2 : allowed s (conn x) bs <= cnx_maxdata_remote (conn x) - data_sent (conn x)) by (unfold allowed; lia).
  pose proof (write_queued_effect s x e1 e2 bytes_max (allowed s (conn x) bs) Hs ltac:(lia) ltac:(lia) H1 H2 ltac:(unfold hdr in *; lia)
    Ha Ha1 Ha2 (reads_queue s Hnp En Hq)) as H.
  fold hdr in H. fold bs in H. destruct (write_queued s hdr bs (allowed s (conn x) bs) x) as [[[ret consumed] bytes] x'].
  destruct H as [(-> & -> & -> & Hz & Hne)|(-> & -> & data & fin & s' & Hsa & Hmv & Hfb & Hl & Hsome & Hx')].
  - right; left. split_and!; try done. intros _. split; [|done]. unfold allowed in Hz. lia.
  - right; right. split_and!; [done|done|done|]. exists data, fin, s'.
    assert (Hso : send_stream_ok s' /\ sent_offset s' = sent_offset s + Z.of_nat (length data)).
    { destruct Hsa as (v & q' & -> & Hp & Hq' & _). unfold send_stream_ok, frame_ids_ok. cbn. split_and!; try done; try lia.
      intros Hact'. assert (Hp0 : pending (send_queue s) = []) by (by rewrite (Hact Hact')). rewrite Hp in Hp0.
      apply app_eq_nil in Hp0 as [_ Hp0]. by apply pending_nil. }
    destruct Hso as [Hso Ho]. split_and!; try done; try lia.
    + apply within_epilogue. exists (Z.of_nat (length data)). split_and!; try done; lia.
    + assert (Hso' : sending_offset x' = sending_offset x) by (by rewrite Hx'). destruct ((0 <? Z.of_nat (length bytes)) && (stream_id s =? 0)); exact Hso'.
    + assert (Hcb : has_callback_fn x' = has_callback_fn x) by (by rewrite Hx'). destruct ((0 <? Z.of_nat (length bytes)) && (stream_id s =? 0)); exact Hcb.
Qed.

(** Every branch keeps the connection within the limits. *)
Lemma prepare_within s bytes_max x :
  send_ok (conn x) -> send_stream_ok s -> bytes_max <= 16384 ->
  let '(_, _, _, x') := prepare_stream_frame poll uninit s bytes_max x in exists s', moves_within (conn x) (conn x') s s'.
Proof.
  intros Hok Hs Hb. pose proof Hs as (Hids & Hlim & Hq & Hact).
  assert (H0 : exists s', moves_within (conn x) (conn x) s s') by (exists s; apply within_same; try done; by apply moves_same).
  destruct (reset_requested s && negb (reset_sent s)) eqn:Er.
  { unfold prepare_stream_frame. rewrite Er. pose proof (reset_effect s bytes_max (conn x) Hok Hs) as H.
    destruct (picoquic_prepare_stream_reset_frame s bytes_max (conn x)) as [[[? ?] ?] ?]. destruct H as (s' & H & _). by exists s'. }
  destruct (stop_sending_requested s && negb (stop_sending_sent s)) eqn:Est.
  { unfold prepare_stream_frame. rewrite Er, Est. unfold stop_sending_branch.
    destruct (picoquic_prepare_stop_sending_frame _ _ _ _ _ _ _) as [[[? ?] ?] sent]. eexists. apply within_same; [done| | |].
    - by apply moves_update.
    - done.
    - done. }
  destruct (is_active s && negb (fin_requested s)) eqn:Ep.
  2: { pose proof (prepare_data s bytes_max x Hok Hs Hb ltac:(done) Ep) as H.
       destruct (prepare_stream_frame poll uninit s bytes_max x) as [[[ret consumed] bytes] x'].
       destruct H as [(_ & _ & -> & _)|[(_ & _ & -> & _)|(_ & _ & _ & data & fin & s' & _ & Hw & _)]]; [done|done|by exists s']. }
  unfold prepare_stream_frame. rewrite Er, Est. apply andb_true_iff in Ep as [Ea Ef]. unfold nothing_to_send. rewrite Ea, Ef. cbn [negb andb].
  destruct (stream_frame_header s bytes_max) as [[hdr l1] l2] eqn:Eh.
  destruct ((bytes_max <? Z.of_nat (length hdr) + 3) || _ || _) eqn:Eg; [done|]. clear H0.
  destruct (header_shape s bytes_max hdr l1 l2 Hids Eh Eg) as (_ & _ & _ & _ & _ & Hmin).
  rewrite (allowed_eq s (conn x) _ Hok Hs). pose proof Hok as (_ & _ & _ & _ & Hm).
  pose proof (write_polled_effect s hdr (bytes_max - Z.of_nat (length hdr)) (allowed s (conn x) (bytes_max - Z.of_nat (length hdr))) x
    Hok Hs Ea ltac:(unfold allowed; lia) ltac:(unfold allowed; lia) ltac:(unfold allowed; lia)) as H.
  destruct (write_polled _ _ _ _ _ _ _) as [[[ret consumed] bytes] x']. destruct H as [s' H]. exists s'. by apply within_epilogue.
Qed.
End Effect.

(** ** Properties *)

(** C13. A STREAM frame carries what it takes from the queue: when the writer succeeds and
    writes something, the receiver's loop over the frames of a packet reads one STREAM frame
    at the stream's offset and goes on behind it, unless the frame fills the buffer; its data is
    what left the queue, the offset moves past it, and the end of the stream is set exactly when
    it was asked for and the queue is empty. *)
Theorem stream_frame_roundtrip poll uninit s bytes_max x rest fs :
  send_ok (conn x) -> find_in (stream_id s) (streams (conn x)) = Some s -> bytes_max <= 16384 -> no_control s -> not_polled s ->
  let '(ret, consumed, bytes, x') := prepare_stream_frame poll uninit s bytes_max x in
  0 < consumed -> rest = [] \/ consumed < bytes_max -> decodes_to rest fs ->
  ret = 0 /\ consumed = Z.of_nat (length bytes) /\ consumed <= bytes_max /\ exists data fin s', find_in (stream_id s) (streams (conn x')) = Some s' /\
    decodes_to (bytes ++ rest) ((stream_id s, sent_offset s, fin, data) :: fs) /\
    pending (send_queue s) = data ++ pending (send_queue s') /\ sent_offset s' = sent_offset s + Z.of_nat (length data) /\
    fin = fin_requested s && nilb (send_queue s').
Proof.
  intros Hok Hf Hb Hnc Hnp. destruct (send_stream_in _ _ _ Hok Hf) as [Hs _]. pose proof Hs as ([Hid Hoff] & _).
  pose proof (prepare_data poll uninit s bytes_max x Hok Hs Hb Hnc Hnp) as H.
  destruct (prepare_stream_frame poll uninit s bytes_max x) as [[[ret consumed] bytes] x']. intros Hpos Hrest Hd.
  destruct H as [(_ & -> & _)|[(_ & -> & _)|(-> & -> & _ & data & fin & s' & Hsa & (n & Hmv & _) & Hfb & Hl & _)]]; [lia|lia|].
  split; [done|]. assert (Hle : Z.of_nat (length bytes) <= bytes_max) by (by destruct Hfb as (? & ? & ? & ? & ? & _ & _ & _ & _ & _ & ?)).
  do 2 (split; [done|]). exists data, fin, s'. split; [rewrite (moves_find _ _ _ _ _ _ Hf Hmv); by rewrite Z.eqb_refl|].
  split; [by eapply frame_bytes_decodes|]. by destruct Hsa as (v & q' & -> & Hp & _ & ->).
Qed.

(** A stream of a client with 100 bytes queued, and a connection with it. *)
Definition example_stream : stream_head :=
  set_sending 70 [StreamData 0 (replicate 100 7)] false true false
    (StreamHead 4 init_recv 1000 1000 0 0 0 0 0 [] false false false false false false false false false false false false).

Definition example_sender (l : list stream_head) : sender :=
  Sender (set_data_sent (total_sent l) (set_streams l example_cnx)) true ∅ 0 false false.

Lemma example_send_ok : send_ok (conn (example_sender [example_stream])).
Proof.
  unfold send_ok, sorted_ids, remote_ok, send_stream_ok, frame_ids_ok, queue_ok, block_ok. cbn.
  split_and!; try lia; try done.
  - repeat constructor.
  - constructor; [|constructor]. split_and!; try lia; try done. constructor; [vm_compute; split; congruence|constructor].
Qed.

Lemma stream_frame_roundtrip_witness :
  let x := example_sender [example_stream] in
  let '(ret, consumed, bytes, x') := prepare_stream_frame (fun _ _ => (0, [])) false example_stream 50 x in
  (ret = 0 /\ consumed = Z.of_nat (length bytes) /\ consumed <= 50 /\ exists data fin s', find_in 4 (streams (conn x')) = Some s' /\
    decodes_to (bytes ++ []) ((4, 70, fin, data) :: []) /\
    pending (send_queue example_stream) = data ++ pending (send_queue s') /\ sent_offset s' = 70 + Z.of_nat (length data) /\
    fin = fin_requested example_stream && nilb (send_queue s')) /\ consumed = 50.
Proof.
  pose proof (stream_frame_roundtrip (fun _ _ => (0, [])) false example_stream 50 (example_sender [example_stream]) [] []
    example_send_ok ltac:(reflexivity) ltac:(lia) ltac:(by split) ltac:(reflexivity)) as H.
  assert (Hc : (prepare_stream_frame (fun _ _ => (0, [])) false example_stream 50 (example_sender [example_stream])).1.1.2 = 50)
    by (vm_compute; reflexivity).
  cbv zeta. destruct (prepare_stream_frame (fun _ _ => (0, [])) false example_stream 50 (example_sender [example_stream]))
    as [[[ret consumed] bytes] x']. cbn [fst snd] in Hc. split; [|exact Hc].
  apply H; [lia|by left|apply decodes_nil].
Defined.

(** A stream the peer opens cannot be written before it exists: when the stream is not open
    and its id is one of the peer's, [picoquic_find_stream_for_writing] reports the error and
    returns no stream, and [picoquic_add_to_stream] then reads the flags of that stream, through
    a null pointer. *)
Theorem add_uses_null_stream id data set_fin x :
  find_in id (streams (conn x)) = None -> IS_CLIENT_STREAM_ID id <> client_mode (conn x) ->
  picoquic_find_stream_for_writing id x = (PICOQUIC_ERROR_INVALID_STREAM_ID, None, x) /\
  picoquic_add_to_stream id data set_fin x = None.
Proof.
  intros Hf Hp. unfold picoquic_add_to_stream, picoquic_find_stream_for_writing, picoquic_find_stream. rewrite Hf.
  destruct (Bool.eqb _ _) eqn:E; [by apply eqb_prop in E|]. done.
Qed.

Lemma add_uses_null_stream_witness :
  picoquic_find_stream_for_writing 1 (example_sender []) = (PICOQUIC_ERROR_INVALID_STREAM_ID, None, example_sender []) /\
  picoquic_add_to_stream 1 [5] false (example_sender []) = None.
Proof. apply (add_uses_null_stream 1 [5] false (example_sender [])); [reflexivity|discriminate]. Defined.

(** An application that is polled and provides nothing leaves a frame without a length: the
    header is counted as written, and the receiver takes whatever follows it in the packet as
    data of the stream. *)
Theorem silent_poll_swallows poll uninit s bytes_max x hdr l1 l2 rest :
  send_ok (conn x) -> send_stream_ok s -> no_control s -> is_active s = true -> fin_requested s = false ->
  stream_frame_header s bytes_max = (hdr, l1, l2) -> 20 <= bytes_max -> (forall id space, poll id space = (0, [])) ->
  Z.of_nat (length rest) < 2 ^ 62 ->
  (prepare_stream_frame poll uninit s bytes_max x).1 = (0, Z.of_nat (length hdr), hdr) /\
  reads (parse_stream_frame (hdr ++ rest)) (Z.of_nat (length hdr + length rest))
    (stream_frame (stream_id s) (sent_offset s) false (Z.of_nat (length rest)) rest).
Proof.
  intros Hok Hs [Hr Hst] Ha Hf Hh Hb Hpoll Hl. pose proof Hs as ([Hid Hoff] & _).
  pose proof (header_fits s bytes_max hdr l1 l2 ltac:(done) Hb Hh) as Hg.
  destruct (header_shape s bytes_max hdr l1 l2 ltac:(done) Hh Hg) as (e1 & e2 & -> & H1 & H2 & _). split.
  - unfold prepare_stream_frame. rewrite Hr, Hst. unfold nothing_to_send. rewrite Ha, Hf, Hh, Hg. cbn [negb andb].
    unfold write_polled. rewrite Hpoll. change (negb (0 =? 0)) with false. cbn iota.
    cbn [foldl db_bytes db_data db_is_fin]. by rewrite app_nil_r.
  - replace ((stream_type (sent_offset s) false false :: e1 ++ e2) ++ rest)
      with (stream_wire (sent_offset s) false false e1 e2 [] rest ++ []) by (unfold stream_wire; cbn; by rewrite app_nil_r, <- app_assoc).
    replace (length (stream_type (sent_offset s) false false :: e1 ++ e2) + length rest)%nat
      with (length (stream_wire (sent_offset s) false false e1 e2 [] rest)) by (unfold stream_wire; cbn; rewrite !length_app; lia).
    by apply parse_wire.
Qed.

Lemma silent_poll_swallows_witness :
  let s := set_sending 70 [] true false false example_stream in
  (prepare_stream_frame (fun _ _ => (0, [])) false s 50 (example_sender [s])).1 = (0, 4, [12; 4; 64; 70]) /\
  reads (parse_stream_frame ([12; 4; 64; 70] ++ [1; 0; 0])) 7 (stream_frame 4 70 false 3 [1; 0; 0]).
Proof.
  cbv zeta. set (s := set_sending 70 [] true false false example_stream).
  assert (Hs : send_stream_ok s) by (unfold send_stream_ok, frame_ids_ok; cbn; split_and!; try done; try lia; constructor).
  apply (silent_poll_swallows (fun _ _ => (0, [])) false s 50 (example_sender [s]) [12; 4; 64; 70] 1 2 [1; 0; 0]); try done.
  - unfold send_ok, sorted_ids, remote_ok. cbn. split_and!; try lia; try done; [repeat constructor|by constructor].
Defined.

(** ** CRYPTO frames *)

Lemma encoding_length_mono n m : 0 <= n <= m -> m < 2 ^ 62 -> picoquic_varint_len n <= picoquic_varint_len m.
Proof. unfold picoquic_varint_len. intros. case_cmp; lia. Qed.

(** The length of the data and its encoding fit in the space. *)
Lemma crypto_length space available :
  0 < available < 2 ^ 62 -> 2 <= space -> picoquic_varint_len available <= space ->
  let l_len := Z.of_nat (length (picoquic_varint_encode space available)) in
  let n := if space <=? available + l_len then space - l_len else available in
  0 <= n <= available /\ l_len <= space /\ encodes (picoquic_varint_encode space n) n /\
  Z.of_nat (length (picoquic_varint_encode space n)) + n <= space.
Proof.
  intros Ha Hs Hl. cbv zeta. rewrite !encode_exact_length by lia.
  destruct (Z.leb_spec (picoquic_varint_len available) space); [|lia]. pose proof (encoding_length_range available ltac:(lia)).
  assert (Hn : forall n, 0 <= n <= available -> n + picoquic_varint_len available <= space ->
    encodes (picoquic_varint_encode space n) n /\ Z.of_nat (length (picoquic_varint_encode space n)) + n <= space).
  { intros n Hn Hle. pose proof (encoding_length_mono n available Hn ltac:(lia)). rewrite encode_exact_length by lia.
    destruct (Z.leb_spec (picoquic_varint_len n) space); [|lia]. split; [|lia]. apply encodes_intro, encode_nonempty; lia. }
  destruct (Z.leb_spec space (available + picoquic_varint_len available)).
  - destruct (Hn (space - picoquic_varint_len available) ltac:(lia) ltac:(lia)). split_and!; (done || lia).
  - destruct (Hn available ltac:(lia) ltac:(lia)). split_and!; (done || lia).
Qed.

(** A CRYPTO frame carries what it takes from the queue of the handshake: when something is
    written, with room for the length of what is queued, the frame stays in the buffer, the
    receiver reads the offset and the data back whatever follows, and the data is what left the
    queue. *)
Theorem crypto_frame_roundtrip off q bytes_max rest :
  0 <= off < 2 ^ 61 -> queue_ok q -> Z.of_nat (length (pending q)) < 2 ^ 61 ->
  17 <= bytes_max \/ Forall (fun d => sd_length d < 16384) q ->
  let '(ret, consumed, bytes, off', q') := prepare_crypto_hs_frame off q bytes_max in
  0 < consumed ->
  ret = 0 /\ consumed = Z.of_nat (length bytes) /\ consumed <= bytes_max /\ exists data, data <> [] /\ queue_ok q' /\
    pending q = data ++ pending q' /\ off' = off + Z.of_nat (length data) /\
    reads (parse_crypto_hs_frame (bytes ++ rest)) consumed (crypto_frame off (Z.of_nat (length data)) data).
Proof.
  intros Hoff Hq Hpl Hroom. unfold prepare_crypto_hs_frame. destruct q as [|d q]; [lia|].
  pose proof Hq as Hq0. apply list.Forall_cons in Hq0 as [Hd _]. pose proof (pending_length d q Hd) as Hpend. unfold block_ok in Hd.
  destruct (Z.leb_spec (sd_length d) (sd_offset d)); [lia|].
  set (e := if 1 <? bytes_max then picoquic_varint_encode (bytes_max - 1) off else []).
  destruct (orb _ _) eqn:Hg; [lia|]. apply orb_false_iff in Hg as [Hg1%Z.ltb_ge Hg2]. cbn [length] in Hg1.
  set (space := bytes_max - Z.of_nat (length (picoquic_frame_type_crypto_hs :: e))) in *.
  set (available := sd_length d - sd_offset d) in *.
  destruct (Z.ltb_spec space 2); [change (negb (0 =? 0)) with false; cbn; lia|].
  pose proof (encoding_length_range off ltac:(lia)) as Hlo.
  assert (He : encodes e off).
  { unfold space in *. cbn [length] in *. unfold e in *. destruct (Z.ltb_spec 1 bytes_max); [|cbn [length] in *; lia].
    pose proof (encode_exact_length (bytes_max - 1) off ltac:(lia)) as Hl.
    destruct (Z.leb_spec (picoquic_varint_len off) (bytes_max - 1)) as [|Hbad]; [apply encodes_intro, encode_nonempty; lia|].
    rewrite Hl in Hg2. destruct (Z.ltb_spec 0 off); [done|]. assert (off = 0) as -> by lia. cbn in Hbad. lia. }
  pose proof (encodes_length e off ltac:(lia) He) as Hle.
  assert (Hva : picoquic_varint_len available <= space).
  { destruct Hroom as [Hbig|[Hsmall _]%list.Forall_cons].
    - pose proof (encoding_length_range available ltac:(unfold available in *; lia)). unfold space. cbn [length]. lia.
    - unfold picoquic_varint_len, available in *. case_cmp; lia. }
  pose proof (crypto_length space available ltac:(unfold available in *; lia) ltac:(lia) Hva) as (Hn & Hll & Henc & Hfit).
  set (l_len := Z.of_nat (length (picoquic_varint_encode space available))) in *.
  set (n := if space <=? available + l_len then space - l_len else available) in *.
  assert (Hbr : (if space <=? available + l_len
      then if space <? l_len then (PICOQUIC_ERROR_FRAME_BUFFER_TOO_SMALL, available, picoquic_frame_type_crypto_hs :: e)
           else (0, space - l_len, (picoquic_frame_type_crypto_hs :: e) ++ picoquic_varint_encode space (space - l_len))
      else (0, available, (picoquic_frame_type_crypto_hs :: e) ++ picoquic_varint_encode space available))
    = (0, n, (picoquic_frame_type_crypto_hs :: e) ++ picoquic_varint_encode space n)).
  { unfold n. destruct (Z.leb_spec space (available + l_len)); [|done]. destruct (Z.ltb_spec space l_len); [lia|done]. }
  rewrite Hbr. change (negb (0 =? 0)) with false. cbv iota. destruct (Z.ltb_spec 0 n); [|lia]. intros _.
  destruct (consume_queue_ok n d q Hq ltac:(unfold available in *; lia)) as (Hq' & Hp & Hlen).
  set (data := take (Z.to_nat n) _) in *. rewrite u64_small by (unfold available in *; lia).
  split_and!; [done|done| |].
  - rewrite !length_app. cbn [length]. assert (space = bytes_max - Z.of_nat (S (length e))) by done. lia.
  - exists data. split_and!; [intros E; rewrite E in Hlen; cbn in Hlen; lia|done|done|by rewrite Hlen|]. rewrite Hlen.
    unfold parse_crypto_hs_frame. cbn [app]. rewrite after_type_byte, <- !app_assoc by done.
    destruct He as [Hne [m Hm]]. rewrite Hm in Hne |- *. rewrite varint_decode_encode by (lia || done). cbn [mbind option_bind].
    destruct Henc as [Hne3 [m3 Hm3]]. rewrite varint_decode_encode by (done || (unfold available in *; lia)). cbn [mbind option_bind].
    rewrite length_app. destruct (Z.ltb_spec (Z.of_nat (length data + length rest)) n); [lia|].
    rewrite take_app_length' by lia. rewrite drop_app_length' by lia. cbn [finish].
    apply parsed_reads; cbn [length]; rewrite ?length_app; cbn [length]; lia.
Qed.

Lemma crypto_frame_roundtrip_witness :
  let q := [StreamData 2 [1; 2; 3; 4; 5; 6]; StreamData 0 [7]] in
  prepare_crypto_hs_frame 100 q 7 = (0, 7, [6; 64; 100; 3; 3; 4; 5], 103, [StreamData 5 [1; 2; 3; 4; 5; 6]; StreamData 0 [7]]) /\
  exists data, pending q = data ++ pending [StreamData 5 [1; 2; 3; 4; 5; 6]; StreamData 0 [7]] /\
    reads (parse_crypto_hs_frame ([6; 64; 100; 3; 3; 4; 5] ++ [9; 9])) 7 (crypto_frame 100 (Z.of_nat (length data)) data).
Proof.
  cbv zeta. split; [vm_compute; reflexivity|].
  pose proof (crypto_frame_roundtrip 100 [StreamData 2 [1; 2; 3; 4; 5; 6]; StreamData 0 [7]] 7 [9; 9] ltac:(lia)
    ltac:(repeat (constructor; [vm_compute; split; congruence|]); constructor) ltac:(vm_compute; reflexivity)
    ltac:(right; repeat (constructor; [vm_compute; reflexivity|]); constructor)) as H.
  change (prepare_crypto_hs_frame 100 [StreamData 2 [1; 2; 3; 4; 5; 6]; StreamData 0 [7]] 7)
    with (0, 7, [6; 64; 100; 3; 3; 4; 5], 103, [StreamData 5 [1; 2; 3; 4; 5; 6]; StreamData 0 [7]]) in H.
  destruct H as (_ & _ & _ & data & _ & _ & Hp & _ & Hr); [lia|]. by exists data.
Defined.

(** The trial encoding of the length can fail: with two or three bytes left and a block of 16384
    bytes or more, the encoder writes nothing, the whole space is taken for data, and the frame is
    one byte longer than the buffer. *)
Theorem crypto_frame_overruns off d q bytes_max :
  0 <= off < 2 ^ 61 -> 0 <= sd_offset d -> 16384 <= sd_length d - sd_offset d < 2 ^ 61 ->
  2 <= bytes_max - 1 - picoquic_varint_len off <= 3 ->
  let '(ret, consumed, bytes, _, _) := prepare_crypto_hs_frame off (d :: q) bytes_max in
  ret = 0 /\ consumed = bytes_max + 1 /\ Z.of_nat (length bytes) = bytes_max + 1.
Proof.
  intros Hoff Hd0 Hd Hsp. unfold prepare_crypto_hs_frame. destruct (Z.leb_spec (sd_length d) (sd_offset d)); [lia|].
  pose proof (encoding_length_range off ltac:(lia)). destruct (Z.ltb_spec 1 bytes_max); [|lia].
  pose proof (encode_exact_length (bytes_max - 1) off ltac:(lia)) as He.
  destruct (Z.leb_spec (picoquic_varint_len off) (bytes_max - 1)) in He; [|lia]. set (e := picoquic_varint_encode (bytes_max - 1) off) in *.
  cbn [length]. replace (Z.of_nat (S (length e))) with (1 + Z.of_nat (length e)) by lia. rewrite He.
  destruct (orb _ _) eqn:Hg; [apply orb_true_iff in Hg as [Hg%Z.ltb_lt|[_ Hg%Z.eqb_eq]%andb_true_iff]; lia|]. clear Hg.
  set (space := bytes_max - (1 + picoquic_varint_len off)) in *. destruct (Z.ltb_spec space 2); [lia|].
  pose proof (encode_exact_length space (sd_length d - sd_offset d) ltac:(lia)) as Ha.
  destruct (Z.leb_spec (picoquic_varint_len (sd_length d - sd_offset d)) space) as [Hbad|] in Ha.
  { exfalso. unfold picoquic_varint_len in Hbad at 1. revert Hbad. case_cmp; lia. }
  rewrite Ha, Z.add_0_r, Z.sub_0_r. destruct (Z.leb_spec space (sd_length d - sd_offset d)); [|lia].
  destruct (Z.ltb_spec space 0); [lia|]. change (negb (0 =? 0)) with false. cbv iota. destruct (Z.ltb_spec 0 space); [|lia].
  assert (Hlen : Z.of_nat (length (((picoquic_frame_type_crypto_hs :: e) ++ picoquic_varint_encode space space) ++
    take (Z.to_nat space) (drop (Z.to_nat (sd_offset d)) (sd_bytes d)))) = bytes_max + 1).
  { rewrite !length_app, length_take, length_drop. cbn [length]. pose proof (encode_exact_length space space ltac:(lia)) as Hs.
    replace (picoquic_varint_len space) with 1 in Hs by (unfold picoquic_varint_len; case_cmp; lia).
    destruct (Z.leb_spec 1 space) in Hs; [|lia]. unfold sd_length in *. lia. }
  split; [done|]. by split.
Qed.

Lemma crypto_frame_overruns_witness :
  let '(ret, consumed, bytes, _, _) := prepare_crypto_hs_frame 0 [StreamData 0 (replicate (Z.to_nat 16384) 1)] 4 in
  ret = 0 /\ consumed = 5 /\ Z.of_nat (length bytes) = 5.
Proof.
  apply (crypto_frame_overruns 0 (StreamData 0 (replicate (Z.to_nat 16384) 1)) [] 4).
  - lia.
  - cbn. lia.
  - vm_compute. split; congruence.
  - vm_compute. split; congruence.
Defined.
End SendStream.
