(* ===== verification/StreamTransfer.v ===== *)
(** * The sending side of a connection over time

    Traces of the sending side of SendStream: the calls of the application, the frames of
    the peer (Streams) and the STREAM frames that are sent, in any order.  The limits of the
    peer hold at every point; what the application queued on a stream is sent in order,
    once, in frames the receiver reads back (Frames) and reassembles (Reassembly) into the
    same bytes; and the queues drain when the limits allow it. *)
From stdpp Require Import base tactics list numbers sorting gmap.
From Stdlib Require Import ZArith Lia Bool.
From S2P Require Import Prelude IntFormat Frames Reassembly Streams SendStream.
Import IntFormat Frames Reassembly Streams SendStream.
#[local] Open Scope Z_scope.

Module StreamTransfer.

(** ** Steps that leave the sending side alone *)

(** The sending side of a stream is the same, with a limit that may have grown. *)
Definition same_sending (s s' : stream_head) : Prop :=
  stream_id s' = stream_id s /\ sent_offset s' = sent_offset s /\ send_queue s' = send_queue s /\ is_active s' = is_active s /\
  fin_requested s' = fin_requested s /\ fin_sent s' = fin_sent s /\ reset_sent s' = reset_sent s /\
  maxdata_remote s <= maxdata_remote s'.

(** A stream nothing was sent on. *)
Definition idle (s : stream_head) : Prop :=
  sent_offset s = 0 /\ send_queue s = [] /\ is_active s = false /\ reset_sent s = false.

Definition evolves (o o' : option stream_head) : Prop :=
  match o, o' with
  | Some s, Some s' => same_sending s s'
  | None, Some s' => idle s'
  | None, None => True
  | Some _, None => False
  end.

Record quiet (c c' : cnx) : Prop := Quiet {
  q_ok : send_ok c -> send_ok c';
  q_streams : forall id, evolves (find_in id (streams c)) (find_in id (streams c'))
}.

Lemma same_sending_refl s : same_sending s s.
Proof. by repeat split. Qed.

Lemma evolves_refl o : evolves o o.
Proof. destruct o; [apply same_sending_refl|done]. Qed.

Lemma evolves_trans o1 o2 o3 : evolves o1 o2 -> evolves o2 o3 -> evolves o1 o3.
Proof.
  destruct o1, o2, o3; cbn; try done; unfold same_sending, idle; intros; destruct_and!; split_and!; (congruence || lia).
Qed.

#[global] Instance quiet_preorder : PreOrder quiet.
Proof.
  split.
  - intros c. split; [done|]. intros. apply evolves_refl.
  - intros c1 c2 c3 [H1 E1] [H2 E2]. split; [auto|]. intros id. by eapply evolves_trans.
Qed.

(** Fields that are not seen. *)
Lemma quiet_same c c' :
  streams c' = streams c -> data_sent c' = data_sent c -> cnx_maxdata_remote c' = cnx_maxdata_remote c ->
  remote_parameters c' = remote_parameters c -> quiet c c'.
Proof. intros Hs Hd Hm Hp. split; [unfold send_ok; by rewrite Hs, Hd, Hm, Hp|]. intros id. rewrite Hs. apply evolves_refl. Qed.

(** An update of one stream that does not touch its sending side. *)
Definition quiet_update (f : stream_head -> stream_head) : Prop :=
  forall s, same_sending s (f s) /\ (send_stream_ok s -> send_stream_ok (f s)).

Lemma quiet_stream id f c : quiet_update f -> quiet c (update_stream id f c).
Proof.
  intros Hf. assert (Hid : forall t, stream_id (f t) = stream_id t) by (intros t; apply Hf).
  destruct (find_in id (streams c)) as [s|] eqn:E.
  - destruct (find_in_split _ _ _ E) as (_ & _ & _ & Hs). rewrite <- Hs in E |- *.
    pose proof (moves_update c s f Hid) as Hmv. split.
    + intros Hok. destruct (send_stream_in _ _ _ Hok E) as [Hso _]. eapply moves_ok; [done|done|exact Hmv| | |].
      * by apply Hf.
      * destruct (Hf s) as [(_ & Ho & _) _]. lia.
      * destruct Hok as (_ & _ & _ & _ & ?). lia.
    + intros id'. rewrite (moves_find _ _ _ _ _ id' E Hmv). destruct (Z.eqb_spec id' (stream_id s)) as [->|_].
      * rewrite E. apply Hf.
      * apply evolves_refl.
  - unfold update_stream. rewrite update_in_none by done. by apply quiet_same.
Qed.

(** Solves [quiet_update] for the setters of the receiving side and of the flags. *)
Ltac quiet_setter := intros ?; unfold same_sending, send_stream_ok, frame_ids_ok; cbn; split_and!; (done || lia || auto).

Lemma quiet_error e t c : quiet c (connection_error e t c).
Proof. unfold connection_error. destruct (_ || _); [by apply quiet_same|]. destruct (_ <? _); by apply quiet_same. Qed.

Lemma quiet_max id c : quiet c (picoquic_update_max_stream_ID_local id c).
Proof.
  unfold picoquic_update_max_stream_ID_local. destruct (find_in id (streams c)); [|done].
  repeat (destruct (_ && _); [|done]).
  assert (H : quiet c (update_stream id (set_max_stream_updated true) c)) by (apply quiet_stream; quiet_setter).
  destruct (IS_BIDIR_STREAM_ID id); [destruct (_ || _); [|done]|]; (etransitivity; [exact H|by apply quiet_same]).
Qed.

Lemma new_stream_send c id : remote_ok (remote_parameters c) -> 0 <= id < 2 ^ 62 ->
  stream_id (new_stream c id) = id /\ idle (new_stream c id) /\ send_stream_ok (new_stream c id).
Proof.
  unfold remote_ok, new_stream, idle, send_stream_ok, frame_ids_ok, queue_ok. intros Hp Hid.
  destruct (IS_LOCAL_STREAM_ID _ _), (IS_BIDIR_STREAM_ID _); cbn; split_and!; try done; try lia; constructor.
Qed.

Lemma find_in_insert_other s l id : id <> stream_id s -> find_in id (insert_stream s l) = find_in id l.
Proof.
  intros Hne. induction l as [|t l IH]; cbn; [by destruct (Z.eqb_spec (stream_id s) id)|].
  destruct (stream_id t <? stream_id s); cbn; [by rewrite IH|]. by destruct (Z.eqb_spec (stream_id s) id).
Qed.

(** Opening a stream. *)
Lemma quiet_create id c : remote_ok (remote_parameters c) -> 0 <= id < 2 ^ 62 -> find_in id (streams c) = None ->
  quiet c (picoquic_create_stream id c).
Proof.
  intros Hp Hid Hf. destruct (new_stream_send c id Hp Hid) as (Hsid & Hidle & Hso). unfold picoquic_create_stream.
  set (s := new_stream c id) in *. split.
  - intros (Hs & Hok & _ & Hd & Hm). unfold send_ok. cbn [set_streams streams remote_parameters data_sent cnx_maxdata_remote].
    split; [apply insert_stream_sorted; [done|by rewrite Hsid]|].
    destruct (insert_stream_split s (streams c)) as (l1 & l2 & Heq & -> & _). rewrite Heq in Hok, Hd.
    rewrite Forall_app, list.Forall_cons in *. rewrite total_sent_app, total_sent_cons in *. destruct Hidle as (-> & _).
    split_and!; try tauto; try done; lia.
  - intros id'. cbn [set_streams streams]. destruct (Z.eq_dec id' id) as [->|Hne].
    + rewrite Hf. rewrite <- Hsid in Hf |- *. by rewrite find_in_insert.
    + rewrite find_in_insert_other by (by rewrite Hsid). apply evolves_refl.
Qed.

Section Peer.
Context (has_callback : bool) (fails : callback -> bool).

Lemma quiet_callback t b c : quiet c (run_callback fails t b c).
Proof.
  unfold run_callback. destruct (fails b); [|by apply quiet_same].
  etransitivity; [|apply quiet_error]. by apply quiet_same.
Qed.

Lemma quiet_callbacks id (l : list (list Z * callback_event)) c :
  quiet c (foldl (fun c e => run_callback fails 0 (app_call id e) c) c l).
Proof. apply (foldl_inv (quiet c)); [done|]. intros c' e H _. etransitivity; [exact H|apply quiet_callback]. Qed.

Lemma quiet_flow s new c : quiet c (picoquic_flow_control_check_stream_offset s new c).2.
Proof.
  unfold picoquic_flow_control_check_stream_offset. destruct (_ <? _); [apply quiet_error|].
  destruct (fin_offset _ <? _); [|done]. destruct (_ || _); [apply quiet_error|]. cbn [snd].
  etransitivity; [|apply quiet_stream; quiet_setter]. by apply quiet_same.
Qed.

Lemma quiet_open id c : remote_ok (remote_parameters c) -> 0 <= id < 2 ^ 62 ->
  quiet c (picoquic_find_or_create_stream id true c).2.
Proof.
  intros Hp Hid. unfold picoquic_find_or_create_stream. destruct (find_in id (streams c)) eqn:E; [done|].
  destruct (negb _ || _); [apply quiet_error|]. cbn [snd]. pose proof (quiet_create id c Hp Hid E) as Hc.
  destruct (IS_BIDIR_STREAM_ID id); [done|]. split.
  - intros Hok. apply Hc in Hok. destruct (new_stream_send c id Hp Hid) as (Hsid & Hidle & Hso). revert Hok.
    assert (Hf : find_in (stream_id (new_stream c id)) (streams (picoquic_create_stream id c)) = Some (new_stream c id)).
    { unfold picoquic_create_stream. cbn [set_streams streams]. apply find_in_insert. by rewrite Hsid. }
    intros Hok. rewrite <- Hsid at 1.
    eapply moves_ok; [exact Hok|exact Hf|apply moves_update; done|done|cbn; lia|]. destruct Hok as (_ & _ & _ & _ & ?). lia.
  - intros id'. destruct (Z.eq_dec id' id) as [->|Hne].
    + rewrite E. destruct (find_in id (streams (picoquic_create_stream id c))) as [s|] eqn:Es.
      * unfold update_stream. cbn [set_streams streams]. rewrite (find_in_update _ _ _ s) by done.
        pose proof (q_streams _ _ Hc id) as Hev. rewrite E, Es in Hev. exact Hev.
      * unfold update_stream. cbn [set_streams streams]. rewrite update_in_none by done. by rewrite Es.
    + unfold update_stream. cbn [set_streams streams]. rewrite find_in_update_other by done. apply (q_streams _ _ Hc id').
Qed.

(** The values a parser of the frames can produce. *)
Definition peer_range (f : peer_frame) : Prop :=
  match f with
  | PF_stream id _ _ _ | PF_reset_stream id _ _ | PF_stop_sending id _ => 0 <= id < 2 ^ 62
  | PF_max_data v => 0 <= v < 2 ^ 62
  | PF_max_stream_data id v => 0 <= id < 2 ^ 62 /\ 0 <= v < 2 ^ 62
  | PF_max_streams _ _ => True
  end.

Lemma quiet_final_size s fin new t c : quiet c (check_final_size s fin new t c).2.
Proof.
  unfold check_final_size. destruct (fin_received (recv s)).
  { destruct (if fin then _ else _); [apply quiet_error|done]. }
  set (c1 := if fin then _ else c). assert (H1 : quiet c c1).
  { subst c1. destruct fin; [|done]. etransitivity; [|apply quiet_max].
    etransitivity; [apply (quiet_stream (stream_id s) set_recv_fin_received); quiet_setter|by apply quiet_same]. }
  destruct (fin_offset (recv s) <? new); [|done]. pose proof (quiet_flow s new c1) as H2.
  destruct (picoquic_flow_control_check_stream_offset s new c1). cbn [snd] in *. by etransitivity.
Qed.

Lemma quiet_input id offset fin bytes t c : remote_ok (remote_parameters c) -> 0 <= id < 2 ^ 62 ->
  quiet c (picoquic_stream_network_input has_callback fails id offset fin bytes t c).2.
Proof.
  intros Hp Hid. unfold picoquic_stream_network_input. pose proof (quiet_open id c Hp Hid) as H1.
  destruct (picoquic_find_or_create_stream id true c) as [[s|] c1]; [|done]. cbn [snd] in H1.
  pose proof (quiet_final_size s fin (u64 (offset + Z.of_nat (length bytes))) t c1) as H2.
  destruct (check_final_size _ _ _ _ _) as [[ret notify] c2]. cbn [snd] in H2. assert (H3 : quiet c c2) by (by etransitivity).
  destruct (negb (ret =? 0)); [done|]. destruct (find_in id (streams c2)) as [s2|]; [|done].
  destruct (queue_and_notify _ _ _ _ _ _) as [[? events] r]. cbn [snd].
  etransitivity; [|apply quiet_callbacks]. etransitivity; [|apply quiet_stream; quiet_setter].
  destruct (picoquic_queue_network_input _ _ _ _ _) as [[? ?] nd]. cbn [snd]. destruct nd; [|done].
  etransitivity; [exact H3|by apply quiet_same].
Qed.

Lemma quiet_reset id err final c : remote_ok (remote_parameters c) -> 0 <= id < 2 ^ 62 ->
  quiet c (process_stream_reset_frame has_callback fails id err final c).2.
Proof.
  intros Hp Hid. unfold process_stream_reset_frame. pose proof (quiet_open id c Hp Hid) as H1.
  destruct (picoquic_find_or_create_stream id true c) as [[s|] c1]; [|done]. cbn [snd] in H1.
  destruct (_ && _); [etransitivity; [exact H1|apply quiet_error]|]. pose proof (quiet_flow s final c1) as H2.
  destruct (picoquic_flow_control_check_stream_offset s final c1) as [ret c2]. cbn [snd] in H2.
  assert (H3 : quiet c c2) by (by etransitivity). destruct (negb (ret =? 0)); [done|]. destruct (reset_received s); [done|].
  assert (H4 : quiet c (picoquic_update_max_stream_ID_local id
    (update_stream id (fun s => set_remote_error err (set_reset_received true s)) c2))).
  { etransitivity; [exact H3|]. etransitivity; [|apply quiet_max]. apply quiet_stream. quiet_setter. }
  destruct (has_callback && _); [|done]. cbn [snd]. etransitivity; [exact H4|]. etransitivity; [apply quiet_callback|].
  apply quiet_stream. quiet_setter.
Qed.

Lemma quiet_stop id err c : remote_ok (remote_parameters c) -> 0 <= id < 2 ^ 62 ->
  quiet c (process_stop_sending_frame has_callback fails id err c).2.
Proof.
  intros Hp Hid. unfold process_stop_sending_frame. pose proof (quiet_open id c Hp Hid) as H1.
  destruct (picoquic_find_or_create_stream id true c) as [[s|] c1]; [|done]. cbn [snd] in H1.
  destruct (_ && _); [|done]. assert (H2 : quiet c (update_stream id
    (fun s => set_remote_stop_error err (set_stop_sending_received true s)) c1)).
  { etransitivity; [exact H1|]. apply quiet_stream. quiet_setter. }
  destruct (has_callback && _); [|done]. cbn [snd]. etransitivity; [exact H2|]. etransitivity; [apply quiet_callback|].
  apply quiet_stream. quiet_setter.
Qed.

Lemma quiet_max_stream_data id v c : remote_ok (remote_parameters c) -> 0 <= id < 2 ^ 62 -> 0 <= v < 2 ^ 62 ->
  quiet c (process_max_stream_data_frame id v c).2.
Proof.
  intros Hp Hid Hv. unfold process_max_stream_data_frame, picoquic_find_stream.
  assert (H : forall c1 s, find_in id (streams c1) = Some s ->
    quiet c1 (if maxdata_remote s <? v then update_stream id (set_maxdata_remote v) c1 else c1)).
  { intros c1 s Hf. destruct (Z.ltb_spec (maxdata_remote s) v) as [Hlt|]; [|done].
    destruct (find_in_split _ _ _ Hf) as (_ & _ & _ & Hs). rewrite <- Hs in Hf |- *.
    pose proof (moves_update c1 s (set_maxdata_remote v) ltac:(done)) as Hmv. split.
    - intros Hok. destruct (send_stream_in _ _ _ Hok Hf) as [Hso _].
      eapply moves_ok; [done|done|exact Hmv| |cbn; lia|destruct Hok as (_ & _ & _ & _ & ?); lia].
      destruct Hso as (Hi & Hlim & Hq). unfold send_stream_ok. cbn. split_and!; try tauto; lia.
    - intros id'. rewrite (moves_find _ _ _ _ _ id' Hf Hmv). destruct (Z.eqb_spec id' (stream_id s)) as [->|_].
      + rewrite Hf. unfold evolves, same_sending. cbn. split_and!; try done; lia.
      + apply evolves_refl. }
  destruct (find_in id (streams c)) as [s|] eqn:E; [by apply H|]. cbn [snd].
  transitivity (picoquic_create_stream id c); [by apply quiet_create|]. apply H. unfold picoquic_create_stream. cbn [set_streams streams].
  destruct (new_stream_send c id Hp Hid) as (Hsid & _). rewrite <- Hsid at 1. apply find_in_insert. by rewrite Hsid.
Qed.

Lemma quiet_process t f c : remote_ok (remote_parameters c) -> peer_range f -> quiet c (process_frame has_callback fails t f c).2.
Proof.
  intros Hp Hf. destruct f as [id offset fin bytes|id err final|id err|v|id v|uni v]; cbn in Hf; cbn [process_frame].
  - unfold process_stream_frame. pose proof (quiet_input id offset fin bytes t c Hp Hf) as H.
    by destruct (picoquic_stream_network_input _ _ _ _ _ _ _ _).
  - by apply quiet_reset.
  - by apply quiet_stop.
  - unfold process_max_data_frame. cbn [snd]. destruct (Z.ltb_spec (cnx_maxdata_remote c) v); [|done]. split.
    + unfold send_ok. cbn. intros (? & ? & ? & ? & ?). split_and!; try done; lia.
    + intros id. apply evolves_refl.
  - destruct Hf. by apply quiet_max_stream_data.
  - destruct uni; [done|]. unfold process_max_stream_id_frame. cbn [snd]. destruct (_ <? _); [|done]. by apply quiet_same.
Qed.
End Peer.

(** ** The calls of the application *)

Lemma quiet_trivial x : quiet (conn x) (conn x).
Proof. done. Qed.

Lemma find_in_create c id : remote_ok (remote_parameters c) -> 0 <= id < 2 ^ 62 -> find_in id (streams c) = None ->
  find_in id (streams (picoquic_create_stream id c)) = Some (new_stream c id).
Proof.
  intros Hp Hid Hf. destruct (new_stream_send c id Hp Hid) as (Hsid & _). unfold picoquic_create_stream. cbn [set_streams streams].
  rewrite <- Hsid at 1. apply find_in_insert. by rewrite Hsid.
Qed.

(** [picoquic_find_stream_for_writing] finds or opens the stream, or refuses. *)
Lemma for_writing_spec id x :
  send_ok (conn x) -> 0 <= id < 2 ^ 62 ->
  let '(ret, stream, x') := picoquic_find_stream_for_writing id x in
  quiet (conn x) (conn x') /\ sending_offset x' = sending_offset x /\ has_callback_fn x' = has_callback_fn x /\
  match stream with
  | Some s => ret = 0 /\ find_in id (streams (conn x')) = Some s /\ evolves (find_in id (streams (conn x))) (Some s) /\
    fin_requested s = match find_in id (streams (conn x)) with Some s0 => fin_requested s0 | None => false end
  | None => ret = PICOQUIC_ERROR_INVALID_STREAM_ID /\ x' = x
  end.
Proof.
  intros Hok Hid. unfold picoquic_find_stream_for_writing, picoquic_find_stream.
  destruct (find_in id (streams (conn x))) as [s|] eqn:E.
  { rewrite E. by split_and!. }
  destruct (negb _); [by split_and!|]. assert (Hp : remote_ok (remote_parameters (conn x))) by apply Hok.
  rewrite set_conn_conn. split_and!; [by apply quiet_create|done|done|done|by apply find_in_create| |].
  - by apply new_stream_send.
  - unfold new_stream. by destruct (IS_LOCAL_STREAM_ID _ _), (IS_BIDIR_STREAM_ID _).
Qed.

(** An update through the pointer of a stream that was found. *)
Lemma update_found id s f c :
  send_ok c -> find_in id (streams c) = Some s -> (forall t, stream_id (f t) = stream_id t) ->
  send_stream_ok (f s) -> sent_offset (f s) = sent_offset s ->
  send_ok (update_stream id f c) /\
  forall id', find_in id' (streams (update_stream id f c)) = if id' =? id then Some (f s) else find_in id' (streams c).
Proof.
  intros Hok Hf Hid Hso Ho. destruct (send_stream_in _ _ _ Hok Hf) as [_ Hs]. rewrite <- Hs in Hf |- *.
  pose proof (moves_update c s f Hid) as Hmv. split.
  - eapply moves_ok; [done|done|exact Hmv|done|lia|]. destruct Hok as (_ & _ & _ & _ & ?). lia.
  - intros id'. by apply (moves_find _ _ _ _ _ id' Hf Hmv).
Qed.

(** [picoquic_add_to_stream] as one change of the stream it finds. *)
Definition add_update (data : list Z) (set_fin accepted : bool) (s : stream_head) : stream_head :=
  set_sending (sent_offset s) (if accepted && (0 <? Z.of_nat (length data)) then send_queue s ++ [StreamData 0 data] else send_queue s)
    (if accepted then false else is_active s) (fin_requested s || set_fin) (fin_sent s) s.

Definition add_return (s : stream_head) (data : list Z) (set_fin : bool) : Z :=
  if reset_sent s || stop_sending_received s then -1
  else if set_fin && fin_requested s && (0 <? Z.of_nat (length data)) then -1 else 0.

Lemma moves_upd x id f s : stream_id s = id -> (forall t, stream_id (f t) = stream_id t) -> moves (conn x) (conn (upd id f x)) s (f s) 0.
Proof. intros <- Hf. by apply moves_update. Qed.

Lemma moves_eq c c' s s1 s2 n : moves c c' s s1 n -> s1 = s2 -> moves c c' s s2 n.
Proof. by intros H <-. Qed.

Lemma add_spec id data set_fin x :
  send_ok (conn x) -> 0 <= id < 2 ^ 62 ->
  match picoquic_find_stream_for_writing id x with
  | (_, None, _) => picoquic_add_to_stream id data set_fin x = None
  | (_, Some s, x1) =>
    let ret := add_return s data set_fin in
    exists x', picoquic_add_to_stream id data set_fin x = Some (ret, x') /\
      moves (conn x1) (conn x') s (add_update data set_fin (ret =? 0) s) 0
  end.
Proof.
  intros Hok Hid. pose proof (for_writing_spec id x Hok Hid) as Hw. unfold picoquic_add_to_stream.
  destruct (picoquic_find_stream_for_writing id x) as [[ret0 [s|]] x1]; [|done].
  destruct Hw as (_ & _ & _ & -> & Hf & _). destruct (find_in_split _ _ _ Hf) as (_ & _ & _ & Hs). cbv zeta.
  set (len := Z.of_nat (length data)).
  set (r1 := if set_fin then _ else _). assert (Hr1 : exists x2 s2, r1 = (if set_fin && fin_requested s && (0 <? len) then -1 else 0, x2) /\
    moves (conn x1) (conn x2) s s2 0 /\ s2 = set_sending (sent_offset s) (send_queue s) (is_active s) (fin_requested s || set_fin) (fin_sent s) s).
  { subst r1. destruct set_fin; [destruct (fin_requested s) eqn:Ef|]; cbn [andb].
    - exists x1, s. split_and!; [done|by apply moves_same|]. destruct s; cbn in *; by subst.
    - eexists _, _. split_and!; [done|by apply moves_upd|]. by destruct s.
    - exists x1, s. split_and!; [done|by apply moves_same|]. rewrite orb_false_r. by destruct s. }
  destruct Hr1 as (x2 & s2 & -> & Hmv & Hs2). fold (add_return s data set_fin). unfold len.
  set (ret := if reset_sent s || _ then -1 else _). change (add_return s data set_fin) with ret.
  assert (Hs2id : stream_id s2 = id) by (by rewrite Hs2).
  destruct (Z.eqb_spec ret 0) as [Hz|Hnz]; cbn [andb].
  2: { exists x2. split; [done|]. eapply moves_eq; [exact Hmv|]. by rewrite Hs2. }
  destruct (0 <? Z.of_nat (length data)) eqn:El.
  - set (f := fun t => set_send_queue (send_queue t ++ [StreamData 0 data]) t).
    eexists. split; [done|]. eapply moves_eq; [eapply moves_trans_0; [exact Hmv|]; eapply moves_trans_0|].
    + exact (moves_upd x2 id f s2 Hs2id ltac:(done)).
    + exact (moves_upd (upd id f x2) id (set_is_active false) (f s2) Hs2id ltac:(done)).
    + rewrite Hs2. unfold add_update. by rewrite El.
  - eexists. split; [done|]. eapply moves_eq; [eapply moves_trans_0; [exact Hmv|]|].
    + by apply (moves_upd x2 id (set_is_active false) s2).
    + rewrite Hs2. unfold add_update. by rewrite El.
Qed.

(** ** Traces *)

Inductive send_op :=
| call_add (id : Z) (data : list Z) (set_fin : bool)
| call_mark_active (id : Z) (active : bool)
| call_reset (id local_stream_error : Z)
| call_stop_sending (id local_stream_error : Z)
| send_next (bytes_max : Z)
| from_peer (current_time : Z) (f : peer_frame).

Definition op_range (op : send_op) : Prop :=
  match op with
  | call_add id _ _ | call_mark_active id _ | call_reset id _ | call_stop_sending id _ => 0 <= id < 2 ^ 62
  | send_next bytes_max => bytes_max <= 16384
  | from_peer _ f => peer_range f
  end.

Definition has_control (s : stream_head) : bool :=
  (reset_requested s && negb (reset_sent s)) || (stop_sending_requested s && negb (stop_sending_sent s)).

(** ** The next stream *)

Lemma ready_pass_in n c l s : ready_pass n c l = Some s -> s ∈ l /\ stream_ready c s = true.
Proof.
  induction l as [|t l IH]; cbn; [done|]. destruct (stream_ready c t) eqn:E; [intros [= <-]; split; [left|done]|].
  destruct l as [|t' l]; [done|]. destruct (_ && _); [done|]. intros H. destruct (IH H) as [Hin Hr]. split; [by right|done].
Qed.

Lemma skip_visited_in v l s : s ∈ skip_visited v l -> s ∈ l.
Proof. induction l as [|t l IH]; cbn; [done|]. destruct (_ <=? _); [intros; right; auto|done]. Qed.

Lemma sorted_find_in l s : sorted_ids l -> s ∈ l -> find_in (stream_id s) l = Some s.
Proof.
  unfold sorted_ids. induction l as [|t l IH]; [by intros _ ?%not_elem_of_nil|]. rewrite fmap_cons. intros [Hl Ht]%StronglySorted_inv.
  cbn. intros [->|Hin]%elem_of_cons; [by rewrite Z.eqb_refl|]. destruct (Z.eqb_spec (stream_id t) (stream_id s)) as [He|]; [|by apply IH].
  assert (stream_id t < stream_id s); [|lia]. rewrite list.Forall_forall in Ht. apply Ht. by apply list_elem_of_fmap_2.
Qed.

Lemma find_ready_in c s : sorted_ids (streams c) -> find_ready_stream_round_robin c = Some s ->
  find_in (stream_id s) (streams c) = Some s /\ stream_ready c s = true.
Proof.
  intros Hs. unfold find_ready_stream_round_robin. destruct (ready_pass 0 _ _) as [t|] eqn:E.
  - intros [= <-]. apply ready_pass_in in E as [Hin Hr]. split; [|done]. by eapply sorted_find_in, skip_visited_in.
  - intros E2. apply ready_pass_in in E2 as [Hin Hr]. split; [|done]. by apply sorted_find_in.
Qed.

Section Trace.
Context (poll : Z -> Z -> Z * list provide_call) (uninit has_callback : bool) (fails : callback -> bool).

(** One step: the new state, and the STREAM frame it wrote if it wrote one; [None] when a
    null pointer is used. *)
Definition step (op : send_op) (x : sender) : option (sender * list (list Z)) :=
  match op with
  | call_add id data set_fin => '(_, x) ← picoquic_add_to_stream id data set_fin x; Some (x, [])
  | call_mark_active id active => Some ((picoquic_mark_active_stream id active x).2, [])
  | call_reset id err => Some ((picoquic_reset_stream id err x).2, [])
  | call_stop_sending id err => Some ((picoquic_stop_sending id err x).2, [])
  | send_next bytes_max =>
    match find_ready_stream_round_robin (conn x) with
    | None => Some (x, [])
    | Some s =>
      let '(ret, consumed, bytes, x) := prepare_stream_frame poll uninit s bytes_max x in
      Some (x, if negb (has_control s) && (ret =? 0) && (0 <? consumed) then [take (Z.to_nat consumed) bytes] else [])
    end
  | from_peer t f => Some (set_conn (process_frame has_callback fails t f (conn x)).2 x, [])
  end.

Fixpoint run (ops : list send_op) (x : sender) : option (sender * list (list Z)) :=
  match ops with
  | [] => Some (x, [])
  | op :: ops => '(x1, out1) ← step op x; '(x2, out2) ← run ops x1; Some (x2, out1 ++ out2)
  end.

Lemma add_update_ok data set_fin accepted s : send_stream_ok s -> send_stream_ok (add_update data set_fin accepted s).
Proof.
  intros (Hids & Hlim & Hq & Hact). unfold send_stream_ok, add_update, frame_ids_ok. cbn. split_and!; try tauto; try apply Hids.
  - destruct (accepted && _) eqn:E; [|done]. apply andb_true_iff in E as [_ E%Z.ltb_lt]. apply Forall_app. split; [done|].
    constructor; [|constructor]. unfold block_ok, sd_length. cbn. lia.
  - destruct accepted; [done|]. cbn [andb]. done.
Qed.

Lemma reset_call_quiet id err x : send_ok (conn x) -> 0 <= id < 2 ^ 62 -> quiet (conn x) (conn (picoquic_reset_stream id err x).2).
Proof.
  intros Hok Hid. unfold picoquic_reset_stream, picoquic_find_stream. assert (Hp : remote_ok (remote_parameters (conn x))) by apply Hok.
  assert (H : forall s c, quiet (conn x) c -> quiet (conn x) (conn (if fin_sent s then (PICOQUIC_ERROR_STREAM_ALREADY_CLOSED, ask_wake (set_conn c x))
    else if negb (reset_requested s) then (0, ask_wake (upd id (set_reset_request err) (set_conn c x))) else (0, ask_wake (set_conn c x))).2)).
  { intros s c Hc. destruct (fin_sent s); [done|]. destruct (negb _); [|done]. cbn. etransitivity; [exact Hc|].
    apply quiet_stream. quiet_setter. }
  destruct (find_in id (streams (conn x))) as [s|] eqn:E; apply H; [done|]. by apply quiet_create.
Qed.

Lemma stop_call_quiet id err x : send_ok (conn x) -> 0 <= id < 2 ^ 62 -> quiet (conn x) (conn (picoquic_stop_sending id err x).2).
Proof.
  intros Hok Hid. unfold picoquic_stop_sending, picoquic_find_stream. assert (Hp : remote_ok (remote_parameters (conn x))) by apply Hok.
  assert (H : forall s c, quiet (conn x) c -> quiet (conn x) (conn (if reset_received s then (PICOQUIC_ERROR_STREAM_ALREADY_CLOSED, ask_wake (set_conn c x))
    else if negb (stop_sending_requested s)
    then (0, ask_wake (upd id (fun s => set_stop_sending err true (stop_sending_sent s) s) (set_conn c x))) else (0, ask_wake (set_conn c x))).2)).
  { intros s c Hc. destruct (reset_received s); [done|]. destruct (negb _); [|done]. cbn. etransitivity; [exact Hc|].
    apply quiet_stream. quiet_setter. }
  destruct (find_in id (streams (conn x))) as [s|] eqn:E; apply H; [done|]. by apply quiet_create.
Qed.

Lemma mark_active_ok id active x : send_ok (conn x) -> 0 <= id < 2 ^ 62 -> send_ok (conn (picoquic_mark_active_stream id active x).2).
Proof.
  intros Hok Hid. pose proof (for_writing_spec id x Hok Hid) as H. unfold picoquic_mark_active_stream.
  destruct (picoquic_find_stream_for_writing id x) as [[ret [s|]] x1]; [|by destruct H as ([? _] & _); auto].
  destruct H as ([Hok1 _] & _ & _ & _ & Hf & _). specialize (Hok1 Hok). destruct (send_stream_in _ _ _ Hok1 Hf) as [(Hids & Hlim & Hq & Hact) Hs].
  assert (Hset : forall v, (v = true -> send_queue s = []) -> send_ok (conn (upd id (set_is_active v) x1))).
  { intros v Hv. apply (update_found id s); done. }
  destruct active; [|by apply Hset]. destruct (send_queue s) as [|d q] eqn:E; cbn [andb]; [|done].
  destruct (_ && _); [by apply Hset|done].
Qed.

(** ** What one step does *)

(** A call of [prepare_stream_frame] on a stream that is not polled. *)
Inductive sends (s s' : stream_head) : list (list Z) -> Prop :=
| sends_nothing : same_sending s s' -> sends s s' []
| sends_reset : sent_offset s' = sent_offset s -> is_active s' = is_active s -> fin_requested s' = fin_requested s ->
    send_queue s' = [] -> reset_sent s' = true -> fin_sent s' = true -> sends s s' []
| sends_data data fin bytes_max bytes : nothing_to_send s = false -> sent_as s s' data fin -> Z.of_nat (length data) < 2 ^ 62 ->
    frame_bytes (stream_id s) (sent_offset s) fin data bytes_max bytes -> sends s s' [bytes].

Lemma frame_bytes_nonempty id off fin data m bytes : frame_bytes id off fin data m bytes -> 0 < Z.of_nat (length bytes).
Proof. intros (pad & wl & e1 & e2 & e3 & -> & _). unfold stream_wire. rewrite length_app. cbn [length]. lia. Qed.

Lemma prepare_sends s bytes_max x :
  send_ok (conn x) -> send_stream_ok s -> bytes_max <= 16384 -> is_active s = false ->
  let '(ret, consumed, bytes, x') := prepare_stream_frame poll uninit s bytes_max x in
  exists s', moves_within (conn x) (conn x') s s' /\
    sends s s' (if negb (has_control s) && (ret =? 0) && (0 <? consumed) then [take (Z.to_nat consumed) bytes] else []).
Proof.
  intros Hok Hs Hb Hact. unfold has_control.
  destruct (reset_requested s && negb (reset_sent s)) eqn:Er.
  { unfold prepare_stream_frame. rewrite Er. cbn [orb negb andb]. pose proof (reset_effect s bytes_max (conn x) Hok Hs) as H.
    destruct (picoquic_prepare_stream_reset_frame s bytes_max (conn x)) as [[[? ?] ?] ?].
    destruct H as (s' & Hw & Ha & Hf & [->|(Ho & Hq & Hrs & Hfs)]); [by exists s; split; [|by constructor]|]. exists s'.
    split; [done|]. by apply sends_reset. }
  destruct (stop_sending_requested s && negb (stop_sending_sent s)) eqn:Est.
  { unfold prepare_stream_frame. rewrite Er, Est. unfold stop_sending_branch. cbn [orb negb andb].
    destruct (picoquic_prepare_stop_sending_frame _ _ _ _ _ _ _) as [[[? ?] ?] sent]. eexists. split.
    - apply within_same; [done|by apply moves_update|done|done].
    - apply sends_nothing. unfold same_sending. cbn. split_and!; (done || lia). }
  cbn [orb negb andb]. assert (Hnp : not_polled s) by (unfold not_polled; by rewrite Hact).
  pose proof (prepare_data poll uninit s bytes_max x Hok Hs Hb ltac:(done) Hnp) as H.
  destruct (prepare_stream_frame poll uninit s bytes_max x) as [[[ret consumed] bytes] x'].
  assert (H0 : exists s', moves_within (conn x) (conn x) s s' /\ sends s s' []).
  { exists s. split; [apply within_same; try done; by apply moves_same|]. apply sends_nothing, same_sending_refl. }
  destruct H as [(-> & -> & -> & _)|[(-> & -> & -> & _)|(-> & -> & Hn & data & fin & s' & Hsa & Hw & Hfb & Hl & _)]]; [done|done|].
  pose proof (frame_bytes_nonempty _ _ _ _ _ _ Hfb). exists s'. split; [done|].
  destruct (Z.ltb_spec 0 (Z.of_nat (length bytes))); [|lia]. change (0 =? 0) with true. cbn [andb]. rewrite Nat2Z.id, take_ge by done.
  by eapply sends_data.
Qed.

(** What the application got accepted on the stream [id], and whether it was after the end. *)
Definition accepted (id : Z) (op : send_op) (x : sender) : list Z :=
  match op with
  | call_add id' data set_fin =>
    match picoquic_add_to_stream id' data set_fin x with Some (0, _) => if id' =? id then data else [] | _ => [] end
  | _ => []
  end.

Definition late (id : Z) (op : send_op) (x : sender) : bool :=
  negb (nilb (accepted id op x)) &&
  match find_in id (streams (conn x)) with Some s => fin_requested s | None => false end.

Definition inactive (c : cnx) : Prop := forall id s, find_in id (streams c) = Some s -> is_active s = false.

Inductive steps (op : send_op) (x x' : sender) : list (list Z) -> Prop :=
| steps_quiet : quiet (conn x) (conn x') -> (forall id, accepted id op x = []) -> steps op x x' []
| steps_add id data set_fin c s : op = call_add id data set_fin -> quiet (conn x) c -> find_in id (streams c) = Some s ->
    fin_requested s = match find_in id (streams (conn x)) with Some s0 => fin_requested s0 | None => false end ->
    picoquic_add_to_stream id data set_fin x = Some (add_return s data set_fin, x') ->
    moves c (conn x') s (add_update data set_fin (add_return s data set_fin =? 0) s) 0 -> steps op x x' []
| steps_send s s' out : (forall id, accepted id op x = []) -> find_in (stream_id s) (streams (conn x)) = Some s -> is_active s = false ->
    moves_within (conn x) (conn x') s s' -> sends s s' out -> steps op x x' out.

Definition polls (op : send_op) : bool := match op with call_mark_active _ _ => true | _ => false end.

Lemma step_cases op x x' out :
  send_ok (conn x) -> inactive (conn x) -> op_range op -> polls op = false -> step op x = Some (x', out) -> steps op x x' out.
Proof.
  intros Hok Hin Hop Hp. assert (Hpar : remote_ok (remote_parameters (conn x))) by apply Hok.
  destruct op as [id data fin|id active|id err|id err|m|t f]; cbn [op_range polls] in Hop, Hp; try done; cbn [step].
  - pose proof (add_spec id data fin x Hok Hop) as Ha. pose proof (for_writing_spec id x Hok Hop) as Hw.
    destruct (picoquic_find_stream_for_writing id x) as [[ret [s|]] x1]; [|by rewrite Ha].
    destruct Ha as (x2 & Hadd & Hmv). rewrite Hadd. cbn [mbind option_bind]. intros [= <- <-].
    destruct Hw as (Hq & _ & _ & _ & Hf & _ & Hfr). by eapply steps_add.
  - intros [= <- <-]. apply steps_quiet; [by apply reset_call_quiet|done].
  - intros [= <- <-]. apply steps_quiet; [by apply stop_call_quiet|done].
  - destruct (find_ready_stream_round_robin (conn x)) as [s|] eqn:E; [|by intros [= <- <-]; apply steps_quiet].
    destruct (find_ready_in _ _ (proj1 Hok) E) as [Hf _]. destruct (send_stream_in _ _ _ Hok Hf) as [Hs _].
    pose proof (prepare_sends s m x Hok Hs Hop (Hin _ _ Hf)) as H.
    destruct (prepare_stream_frame poll uninit s m x) as [[[ret consumed] bytes] x2]. intros [= <- <-].
    destruct H as (s' & Hw & Hsd). eapply steps_send; [done|done|by eapply Hin|done|done].
  - intros [= <- <-]. apply steps_quiet; [by apply quiet_process|done].
Qed.

Lemma within_ok c c' s s' : send_ok c -> find_in (stream_id s) (streams c) = Some s -> moves_within c c' s s' -> send_ok c'.
Proof. intros Hok Hf (n & Hmv & Hs & Ho & Hm). by eapply moves_ok. Qed.

(** Every step keeps the limits of the peer, polling included. *)
Lemma step_ok op x x' out : send_ok (conn x) -> op_range op -> step op x = Some (x', out) -> send_ok (conn x').
Proof.
  intros Hok Hop. assert (Hpar : remote_ok (remote_parameters (conn x))) by apply Hok.
  destruct op as [id data fin|id active|id err|id err|m|t f]; cbn [op_range] in Hop; cbn [step].
  - pose proof (add_spec id data fin x Hok Hop) as Ha. pose proof (for_writing_spec id x Hok Hop) as Hw.
    destruct (picoquic_find_stream_for_writing id x) as [[ret [s|]] x1]; [|by rewrite Ha].
    destruct Ha as (x2 & Hadd & Hmv). rewrite Hadd. cbn [mbind option_bind]. intros [= <- <-].
    destruct Hw as (Hq & _ & _ & _ & Hf & _). apply (q_ok _ _ Hq) in Hok as Hok1. destruct (send_stream_in _ _ _ Hok1 Hf) as [Hs Hid].
    rewrite <- Hid in Hf. eapply moves_ok; [exact Hok1|exact Hf|exact Hmv|by apply add_update_ok|cbn; lia|].
    destruct Hok1 as (_ & _ & _ & _ & ?). lia.
  - intros [= <- <-]. by apply mark_active_ok.
  - intros [= <- <-]. by apply (reset_call_quiet id err x Hok Hop).
  - intros [= <- <-]. by apply (stop_call_quiet id err x Hok Hop).
  - destruct (find_ready_stream_round_robin (conn x)) as [s|] eqn:E; [|by intros [= <- <-]].
    destruct (find_ready_in _ _ (proj1 Hok) E) as [Hf _]. destruct (send_stream_in _ _ _ Hok Hf) as [Hs _].
    pose proof (prepare_within poll uninit s m x Hok Hs Hop) as H.
    destruct (prepare_stream_frame poll uninit s m x) as [[[ret consumed] bytes] x2]. intros [= <- <-].
    destruct H as (s' & Hw). by eapply within_ok.
  - intros [= <- <-]. by apply (quiet_process has_callback fails t f (conn x) Hpar Hop).
Qed.

Lemma trace_ok ops x x' out : send_ok (conn x) -> Forall op_range ops -> run ops x = Some (x', out) -> send_ok (conn x').
Proof.
  intros Hok Hops. revert x out Hok. induction Hops as [|op ops Hop _ IH]; intros x out Hok; cbn [run]; [by intros [= <- <-]|].
  destruct (step op x) as [[x1 out1]|] eqn:E; [|done]. cbn [mbind option_bind].
  destruct (run ops x1) as [[x2 out2]|] eqn:E2; [|done]. cbn [mbind option_bind]. intros [= <- <-].
  eapply IH; [by eapply step_ok|exact E2].
Qed.

(** ** The frames of one stream *)

(** The frames of the stream [id]: offset, end of stream, data. *)
Definition on_stream (id : Z) (fs : list (Z * Z * bool * list Z)) : list (Z * bool * list Z) :=
  omap (fun f => let '(i, off, fin, data) := f in if i =? id then Some (off, fin, data) else None) fs.

Definition sent_data (fs : list (Z * bool * list Z)) : list Z := mjoin fs.*2.

(** Each frame starts where the one before it ended. *)
Fixpoint contiguous (off : Z) (fs : list (Z * bool * list Z)) : Prop :=
  match fs with
  | [] => True
  | (o, _, data) :: fs => o = off /\ contiguous (off + Z.of_nat (length data)) fs
  end.

Lemma sent_data_app fs1 fs2 : sent_data (fs1 ++ fs2) = sent_data fs1 ++ sent_data fs2.
Proof. unfold sent_data. by rewrite fmap_app, join_app. Qed.

Lemma contiguous_snoc off fs o fin data :
  contiguous off fs -> o = off + Z.of_nat (length (sent_data fs)) -> contiguous off (fs ++ [(o, fin, data)]).
Proof.
  revert off. induction fs as [|[[o' fin'] d'] fs IH]; intros off; cbn [contiguous app].
  - intros _ ->. cbn. split; [lia|done].
  - intros [-> Hc] ->. split; [done|]. apply IH; [done|]. change (sent_data ((off, fin', d') :: fs)) with (d' ++ sent_data fs).
    rewrite length_app. lia.
Qed.

Definition ends_stream (f : Z * bool * list Z) : Prop := f.1.2 = true.
#[global] Instance ends_stream_dec f : Decision (ends_stream f).
Proof. unfold ends_stream. apply _. Defined.

Definition frame_end (f : Z * bool * list Z) : Z := f.1.1 + Z.of_nat (length f.2).

(** What was accepted on a stream is what was sent, then what is queued, then what a reset
    dropped; unless data was added after the end of the stream, a frame that ends the
    stream ends where the data ends. *)
Definition tracks (w : list Z) (fs : list (Z * bool * list Z)) (lt : bool) (s : stream_head) (dropped : list Z) : Prop :=
  w = sent_data fs ++ pending (send_queue s) ++ dropped /\ sent_offset s = Z.of_nat (length (sent_data fs)) /\ contiguous 0 fs /\
  (reset_sent s = false -> dropped = []) /\ (reset_sent s = true -> send_queue s = [] /\ fin_sent s = true) /\
  (lt = false -> Exists ends_stream fs -> fin_requested s = true /\ pending (send_queue s) = [] /\ dropped = []) /\
  (lt = false -> Forall (fun f => ends_stream f -> frame_end f = Z.of_nat (length (sent_data fs))) fs).

Definition track (w : list Z) (fs : list (Z * bool * list Z)) (lt : bool) (o : option stream_head) : Prop :=
  match o with
  | None => w = [] /\ fs = []
  | Some s => exists dropped, tracks w fs lt s dropped
  end.

Lemma track_evolves w fs lt o o' : evolves o o' -> track w fs lt o -> track w fs lt o'.
Proof.
  destruct o as [s|], o' as [s'|]; cbn; try done.
  - intros (_ & Ho & Hq & _ & Hf & Hfs & Hr & _) (dropped & H). exists dropped. unfold tracks in *. by rewrite Ho, Hq, Hf, Hr, Hfs.
  - intros (Ho & Hq & _ & Hr) [-> ->]. exists []. unfold tracks. rewrite Ho, Hq, Hr. split_and!; try done. by intros _ ?%Exists_nil.
Qed.

(** More tracking of late data only weakens what is claimed. *)
Lemma track_late w fs lt b o : track w fs lt o -> track w fs (lt || b) o.
Proof.
  destruct o as [s|]; [|done]. intros (dropped & H1 & H2 & H3 & H4 & H5 & H6 & H7). exists dropped. split_and!; try done.
  - intros Hl. apply H6. by destruct lt.
  - intros Hl. apply H7. by destruct lt.
Qed.

Lemma track_reset w fs lt s s' :
  sent_offset s' = sent_offset s -> fin_requested s' = fin_requested s -> send_queue s' = [] -> reset_sent s' = true -> fin_sent s' = true ->
  track w fs lt (Some s) -> track w fs lt (Some s').
Proof.
  intros Ho Hf Hq Hr Hfs (dropped & -> & H2 & H3 & H4 & H5 & H6 & H7). exists (pending (send_queue s) ++ dropped). unfold tracks.
  rewrite Ho, Hf, Hq, Hr, Hfs. split_and!; try done. intros Hl He. destruct (H6 Hl He) as (? & -> & ->). done.
Qed.

Lemma track_sent w fs lt s s' data fin :
  is_active s = false -> nothing_to_send s = false -> sent_as s s' data fin ->
  track w fs lt (Some s) -> track w (fs ++ [(sent_offset s, fin, data)]) lt (Some s').
Proof.
  intros Hact Hsome (v & q' & -> & Hp & Hq' & Hfin) (dropped & -> & H2 & H3 & H4 & H5 & H6 & H7). exists dropped. unfold tracks.
  cbn [set_max_stream_updated set_sending send_queue sent_offset reset_sent fin_requested].
  rewrite sent_data_app, length_app. change (sent_data [(sent_offset s, fin, data)]) with (data ++ []). rewrite app_nil_r.
  assert (Hr : reset_sent s = false).
  { destruct (reset_sent s); [|done]. destruct (H5 eq_refl) as [Hq Hfs]. unfold nothing_to_send in Hsome.
    rewrite Hact, Hq, Hfs in Hsome. by rewrite orb_true_r in Hsome. }
  assert (Hf : fin = true -> fin_requested s = true /\ q' = []).
  { intros ->. symmetry in Hfin. apply andb_true_iff in Hfin as [? Hn]. by destruct q'. }
  assert (Hd : lt = false -> Exists ends_stream fs -> data = [] /\ pending q' = []).
  { intros Hl He. destruct (H6 Hl He) as (_ & Hp0 & _). rewrite Hp in Hp0. by apply app_eq_nil in Hp0. }
  split_and!; try done; try congruence.
  - rewrite Hp. by rewrite !app_assoc.
  - lia.
  - apply contiguous_snoc; [done|lia].
  - intros Hl He. apply Exists_app in He as [He|He].
    + destruct (H6 Hl He) as (? & _ & ?). destruct (Hd Hl He). done.
    + apply Exists_cons in He as [He|He%Exists_nil]; [|done]. destruct (Hf He) as [? ->]. split_and!; auto.
  - intros Hl. apply Forall_app. split.
    + destruct (decide (Exists ends_stream fs)) as [He|Hne].
      * destruct (Hd Hl He) as [-> _]. cbn [length]. rewrite Nat.add_0_r. by apply H7.
      * apply list.Forall_forall. intros f Hin Hends. exfalso. apply Hne. apply list.Exists_exists. by exists f.
    + constructor; [|constructor]. intros _. unfold frame_end. cbn. lia.
Qed.

(** Queueing [d] behind what is queued. *)
Lemma track_queue w fs lt s s' d :
  sent_offset s' = sent_offset s -> reset_sent s' = reset_sent s -> fin_sent s' = fin_sent s ->
  (fin_requested s = true -> fin_requested s' = true) -> pending (send_queue s') = pending (send_queue s) ++ d ->
  (reset_sent s = true -> send_queue s' = send_queue s) ->
  track w fs lt (Some s) -> track (w ++ d) fs (lt || (negb (nilb d) && fin_requested s)) (Some s').
Proof.
  intros Ho Hr Hfs Hf Hp Hrq (dropped & -> & H2 & H3 & H4 & H5 & H6 & H7). exists dropped. unfold tracks. rewrite Ho, Hr, Hfs, Hp.
  assert (Hdrop : dropped = [] \/ d = []).
  { destruct (reset_sent s); [|by left; apply H4]. right. rewrite Hrq in Hp by done. by apply (app_inv_head (pending (send_queue s))); rewrite app_nil_r. }
  split_and!; try done.
  - destruct Hdrop as [-> | ->]; by rewrite ?app_nil_r, <- ?app_assoc.
  - intros Hr'. rewrite Hrq by done. by apply H5.
  - intros [Hl Hlate]%orb_false_iff He. destruct (H6 Hl He) as (Hfr & Hp0 & Hd0). rewrite Hfr, andb_true_r in Hlate.
    destruct d; [|done]. rewrite Hp0. auto.
  - intros [Hl _]%orb_false_iff. by apply H7.
Qed.

Lemma track_add w fs lt s data set_fin :
  track w fs lt (Some s) -> let ok := add_return s data set_fin =? 0 in
  track (w ++ if ok then data else []) fs (lt || (negb (nilb (if ok then data else [])) && fin_requested s)) (Some (add_update data set_fin ok s)).
Proof.
  intros Ht. cbv zeta. set (ok := add_return s data set_fin =? 0). apply track_queue; try done; cbn [add_update set_sending send_queue fin_requested].
  - by intros ->.
  - destruct ok; cbn [andb]; [|by rewrite app_nil_r]. destruct data as [|b data]; [by rewrite app_nil_r|].
    change (0 <? Z.of_nat (length (b :: data))) with true. cbv iota. rewrite pending_app, pending_cons. cbn. by rewrite app_nil_r.
  - intros Hr. assert (ok = false) as ->; [|done]. subst ok. unfold add_return. by rewrite Hr.
Qed.

(** The receiver reads one list of frames per frame that was written. *)
Definition decoded (out : list (list Z)) (fss : list (list (Z * Z * bool * list Z))) : Prop := Forall2 decodes_to out fss.

Lemma evolves_inactive c c' : (forall id, evolves (find_in id (streams c)) (find_in id (streams c'))) -> inactive c -> inactive c'.
Proof.
  intros Hev Hin id s' Hf. specialize (Hev id). rewrite Hf in Hev. destruct (find_in id (streams c)) as [s|] eqn:E; cbn in Hev.
  - destruct Hev as (_ & _ & _ & -> & _). by eapply Hin.
  - apply Hev.
Qed.

Lemma moves_inactive c c' s s' n : find_in (stream_id s) (streams c) = Some s -> moves c c' s s' n -> is_active s' = false -> inactive c -> inactive c'.
Proof.
  intros Hf Hmv Ha Hin id t. rewrite (moves_find _ _ _ _ _ id Hf Hmv). destruct (Z.eqb_spec id (stream_id s)); [by intros [= <-]|apply Hin].
Qed.

(** One step, as seen from the stream [id]. *)
Lemma step_tracks id op x x' out w fs lt :
  send_ok (conn x) -> inactive (conn x) -> steps op x x' out -> track w fs lt (find_in id (streams (conn x))) ->
  inactive (conn x') /\ exists fss, decoded out fss /\
    track (w ++ accepted id op x) (fs ++ on_stream id (mjoin fss)) (lt || late id op x) (find_in id (streams (conn x'))).
Proof.
  intros Hok Hin Hstep Ht. destruct Hstep as [[_ Hev] Hacc|id' data fin c s -> [_ Hev] Hf Hfr Hadd Hmv|s s' out Hacc Hf Hact Hw Hsd].
  - split; [by eapply evolves_inactive|]. exists []. split; [constructor|]. rewrite Hacc, !app_nil_r. apply track_late.
    by eapply track_evolves.
  - pose proof (evolves_inactive _ _ Hev Hin) as Hin1. destruct (find_in_split _ _ _ Hf) as (_ & _ & _ & Hid).
    rewrite <- Hid in Hf. assert (Hact : is_active s = false) by (by eapply Hin1).
    split; [eapply moves_inactive; [exact Hf|exact Hmv| |done]; cbn; by destruct (_ =? 0)|].
    exists []. split; [constructor|]. cbn [mjoin list_join]. rewrite app_nil_r, (moves_find _ _ _ _ _ id Hf Hmv).
    specialize (Hev id). apply (track_evolves _ _ _ _ _ Hev) in Ht. unfold late. cbn [accepted]. rewrite Hadd.
    destruct (Z.eqb_spec id (stream_id s)) as [->|Hne].
    + rewrite Hf in Ht. pose proof (track_add _ _ _ _ data fin Ht) as H. cbv zeta in H.
      replace (match add_return s data fin with 0 => if id' =? stream_id s then data else [] | _ => [] end)
        with (if add_return s data fin =? 0 then data else []).
      2: { rewrite Hid, Z.eqb_refl. by destruct (add_return s data fin). }
      rewrite <- Hid in Hfr. rewrite <- Hfr. exact H.
    + assert ((id' =? id) = false) as -> by (apply Z.eqb_neq; lia).
      replace (match add_return s data fin with 0 => [] | _ => [] end) with (@nil Z) by (by destruct (add_return s data fin)).
      rewrite app_nil_r. by apply track_late.
  - assert (Hact' : is_active s' = false).
    { destruct Hsd as [(_ & _ & _ & -> & _)|_ -> _ _ _ _|data fin m bytes _ (v & q' & -> & _) _ _]; done. }
    destruct (send_stream_in _ _ _ Hok Hf) as [([Hid Hoff] & _) _]. destruct Hw as (n & Hmv & _).
    split; [eapply moves_inactive; [exact Hf|exact Hmv|done|done]|]. rewrite Hacc, app_nil_r.
    assert (Hfind : find_in id (streams (conn x')) = if id =? stream_id s then Some s' else find_in id (streams (conn x)))
      by (by apply (moves_find _ _ _ _ _ id Hf Hmv)). rewrite Hfind. clear Hfind.
    destruct Hsd as [Hsame|Ho _ Hfr Hq Hr Hfs|data fin m bytes Hsome Hsa Hl Hfb].
    + exists []. split; [constructor|]. rewrite app_nil_r. apply track_late. destruct (Z.eqb_spec id (stream_id s)) as [->|]; [|done].
      rewrite Hf in Ht. by apply (track_evolves _ _ _ (Some s) (Some s')).
    + exists []. split; [constructor|]. rewrite app_nil_r. apply track_late. destruct (Z.eqb_spec id (stream_id s)) as [->|]; [|done].
      rewrite Hf in Ht. by apply (track_reset _ _ _ s).
    + exists [[(stream_id s, sent_offset s, fin, data)]]. split.
      { constructor; [|constructor]. rewrite <- (app_nil_r bytes).
        eapply frame_bytes_decodes; [done|done|done|done|by left|apply decodes_nil]. }
      apply track_late. cbn. rewrite Z.eqb_sym. destruct (Z.eqb_spec id (stream_id s)) as [->|]; [|by rewrite app_nil_r].
      rewrite Hf in Ht. by eapply track_sent.
Qed.

(** What was accepted on the stream [id] during a trace, and whether some of it came after
    the end of the stream. *)
Fixpoint written (id : Z) (ops : list send_op) (x : sender) : list Z :=
  match ops with
  | [] => []
  | op :: ops => accepted id op x ++ match step op x with Some (x1, _) => written id ops x1 | None => [] end
  end.

Fixpoint written_late (id : Z) (ops : list send_op) (x : sender) : bool :=
  match ops with
  | [] => false
  | op :: ops => late id op x || match step op x with Some (x1, _) => written_late id ops x1 | None => false end
  end.

Lemma on_stream_app id fs1 fs2 : on_stream id (fs1 ++ fs2) = on_stream id fs1 ++ on_stream id fs2.
Proof. apply omap_app. Qed.

Lemma run_tracks id ops x x' out w fs lt :
  send_ok (conn x) -> inactive (conn x) -> Forall op_range ops -> Forall (fun op => polls op = false) ops ->
  run ops x = Some (x', out) -> track w fs lt (find_in id (streams (conn x))) ->
  exists fss, decoded out fss /\
    track (w ++ written id ops x) (fs ++ on_stream id (mjoin fss)) (lt || written_late id ops x) (find_in id (streams (conn x'))).
Proof.
  intros Hok Hin Hops. revert x out w fs lt Hok Hin. induction Hops as [|op ops Hop _ IH]; intros x out w fs lt Hok Hin Hp; cbn [run written written_late].
  { intros [= <- <-] Ht. exists []. split; [constructor|]. by rewrite !app_nil_r, orb_false_r. }
  apply list.Forall_cons in Hp as [Hp1 Hp]. destruct (step op x) as [[x1 out1]|] eqn:E; [|done]. cbn [mbind option_bind].
  destruct (run ops x1) as [[x2 out2]|] eqn:E2; [|done]. cbn [mbind option_bind]. intros [= <- <-] Ht.
  destruct (step_tracks id op x x1 out1 w fs lt Hok Hin (step_cases _ _ _ _ Hok Hin Hop Hp1 E) Ht) as (Hin1 & fss1 & Hd1 & Ht1).
  destruct (IH x1 out2 _ _ _ (step_ok _ _ _ _ Hok Hop E) Hin1 Hp E2 Ht1) as (fss2 & Hd2 & Ht2).
  exists (fss1 ++ fss2). split; [by apply Forall2_app|]. rewrite join_app, on_stream_app, !app_assoc, orb_assoc. exact Ht2.
Qed.
End Trace.

(** ** Delivery *)

(** The arrival of frames at a receiver that starts, oldest first. *)
Fixpoint receive (arrived : list (Z * bool * list Z)) (r : recv_state) : list (list Z * callback_event) * recv_state :=
  match arrived with
  | [] => ([], r)
  | (off, _, data) :: arrived =>
    let '(_, events, r) := queue_and_notify true true false r off data in
    let '(events', r) := receive arrived r in (events ++ events', r)
  end.

(** The bytes of a stream as a function of the offset. *)
Definition content (w : list Z) (n : Z) : Z := nth (Z.to_nat n) w 0.

Lemma slice_content w off len : 0 <= off -> 0 <= len -> off + len <= Z.of_nat (length w) ->
  slice (content w) off len = take (Z.to_nat len) (drop (Z.to_nat off) w).
Proof.
  intros Ho Hl Hle. apply list_eq. intros i. unfold slice. destruct (decide (i < Z.to_nat len)%nat) as [Hi|Hi].
  - rewrite list_lookup_fmap, lookup_seqZ_lt by lia. rewrite lookup_take_lt by done. rewrite lookup_drop. cbn. unfold content.
    replace (Z.to_nat (off + (0 + Z.of_nat i))) with (Z.to_nat off + i)%nat by lia.
    destruct (lookup_lt_is_Some_2 w (Z.to_nat off + i)) as [y Hy]; [lia|]. rewrite Hy. f_equal. by apply nth_lookup_Some.
  - rewrite !lookup_ge_None_2; [done|rewrite length_take; lia|rewrite length_fmap, length_seqZ; lia].
Qed.

(** A frame carries the part of the stream it says it does. *)
Definition part_of (w : list Z) (f : Z * bool * list Z) : Prop :=
  0 <= f.1.1 /\ frame_end f <= Z.of_nat (length w) /\ f.2 = slice (content w) f.1.1 (Z.of_nat (length f.2)).

Lemma contiguous_parts pre fs rest : contiguous (Z.of_nat (length pre)) fs ->
  Forall (part_of (pre ++ sent_data fs ++ rest)) fs /\ Forall (fun f => Z.of_nat (length pre) <= f.1.1) fs.
Proof.
  revert pre. induction fs as [|[[o fin] d] fs IH]; intros pre; cbn [contiguous]; [by split|]. intros [-> Hc].
  change (sent_data ((Z.of_nat (length pre), fin, d) :: fs)) with (d ++ sent_data fs).
  specialize (IH (pre ++ d)). rewrite length_app, Nat2Z.inj_add in IH. destruct (IH Hc) as [Hp Hge]. split.
  - constructor; [|by rewrite <- !app_assoc in Hp |- *]. unfold part_of, frame_end. cbn [fst snd]. rewrite !length_app.
    split_and!; [lia|lia|]. rewrite slice_content by (rewrite ?length_app; lia).
    rewrite !Nat2Z.id, drop_app_length, <- app_assoc. by rewrite take_app_length.
  - constructor; [done|]. eapply list.Forall_impl; [exact Hge|]. cbn. lia.
Qed.

Lemma receive_run_frames w arrived r : Forall (part_of w) arrived ->
  receive arrived r = run_frames (content w) r ((fun f => (f.1.1, Z.of_nat (length f.2))) <$> arrived).
Proof.
  intros Ha. revert r. induction Ha as [|[[off fin] d] arrived (_ & _ & Hd) _ IH]; intros r; [done|].
  rewrite fmap_cons. cbn [receive run_frames fst snd] in *. rewrite <- Hd.
  destruct (queue_and_notify true true false r off d) as [[? events] r1]. by rewrite IH.
Qed.

Definition range_of (f : Z * bool * list Z) : Z * Z := (f.1.1, Z.of_nat (length f.2)).

Lemma contiguous_ge off fs : contiguous off fs -> Forall (fun f => off <= f.1.1) fs.
Proof.
  revert off. induction fs as [|[[o fin] d] fs IH]; intros off; cbn [contiguous]; [done|]. intros [-> Hc].
  constructor; [done|]. eapply list.Forall_impl; [exact (IH _ Hc)|]. cbn. lia.
Qed.

Lemma contiguous_aligned off fs f g : contiguous off fs -> f ∈ fs -> g ∈ fs -> aligned (range_of f) (range_of g).
Proof.
  revert off. induction fs as [|[[o fin] d] fs IH]; intros off; cbn [contiguous]; [by intros _ ?%not_elem_of_nil|].
  intros [-> Hc]. pose proof (contiguous_ge _ _ Hc) as Hge. rewrite list.Forall_forall in Hge. unfold aligned in *.
  intros [->|Hf]%elem_of_cons [->|Hg]%elem_of_cons.
  - by left.
  - right. left. apply Hge in Hg. unfold range_of. cbn in *. lia.
  - right. right. apply Hge in Hf. unfold range_of. cbn in *. lia.
  - by apply (IH _ Hc).
Qed.

Lemma contiguous_cover off fs n : contiguous off fs -> off <= n < off + Z.of_nat (length (sent_data fs)) ->
  exists f, f ∈ fs /\ in_frame n (range_of f).
Proof.
  revert off. induction fs as [|[[o fin] d] fs IH]; intros off; cbn [contiguous]; [cbn; lia|]. intros [-> Hc].
  change (sent_data ((off, fin, d) :: fs)) with (d ++ sent_data fs). rewrite length_app. intros Hn.
  destruct (decide (n < off + Z.of_nat (length d))) as [Hlt|].
  - exists (off, fin, d). split; [left|]. unfold in_frame, range_of. cbn. lia.
  - destruct (IH _ Hc ltac:(lia)) as (f & Hf & Hin). exists f. split; [by right|done].
Qed.

(** Whatever part of the frames arrives, in whatever order and however often. *)
Lemma delivery fs rest arrived :
  contiguous 0 fs -> Z.of_nat (length (sent_data fs)) < 2 ^ 62 -> (forall f, f ∈ arrived -> f ∈ fs) ->
  let '(events, r) := receive arrived init_recv in
  mjoin events.*1 = take (Z.to_nat (consumed_offset r)) (sent_data fs ++ rest) /\
  ((forall f, f ∈ fs -> f ∈ arrived) -> consumed_offset r = Z.of_nat (length (sent_data fs))).
Proof.
  intros Hc Hlen Harr. destruct (contiguous_parts [] fs [] Hc) as [Hparts _]. rewrite app_nil_r in Hparts. cbn [app] in Hparts.
  set (w := sent_data fs) in *. rewrite list.Forall_forall in Hparts.
  assert (Hpa : Forall (part_of w) arrived) by (apply list.Forall_forall; auto).
  rewrite (receive_run_frames w) by done. change (fun f => _) with range_of.
  assert (Hok : Forall frame_ok (range_of <$> arrived)).
  { apply Forall_fmap. eapply list.Forall_impl; [exact Hpa|]. intros f (Ho & He & _). unfold frame_ok, frame_end, compose, range_of in *. cbn. lia. }
  pose proof (frames_in_order (content w) (range_of <$> arrived) Hok) as H.
  destruct (run_frames _ _ _) as [events r]. destruct H as (Hpos & Hev & _ & Hhas & Hmiss).
  set (n := consumed_offset r) in *.
  assert (Hn : n <= Z.of_nat (length w)).
  { destruct (decide (n <= Z.of_nat (length w))) as [|Hgt]; [done|]. exfalso.
    destruct (proj1 (Exists_exists _ _) (Hhas (Z.of_nat (length w)) ltac:(lia))) as (f & Hf & Hin).
    apply list_elem_of_fmap_1 in Hf as (g & -> & Hg). apply Harr, Hparts in Hg as (_ & He & _).
    unfold in_frame, range_of, frame_end in *. cbn in *. lia. }
  split.
  - rewrite Hev, slice_content by lia. rewrite drop_0. symmetry. apply take_app_le. lia.
  - intros Hall. destruct (decide (n = Z.of_nat (length w))) as [|Hne]; [done|]. exfalso.
    destruct (contiguous_cover 0 fs n Hc ltac:(fold w; lia)) as (f & Hf & Hin). apply Hmiss.
    + intros f1 f2 H1 H2. apply list_elem_of_fmap_1 in H1 as (g1 & -> & Hg1). apply list_elem_of_fmap_1 in H2 as (g2 & -> & Hg2).
      eapply contiguous_aligned; eauto.
    + apply Exists_exists. exists (range_of f). split; [|done]. apply list_elem_of_fmap_2. auto.
Qed.

(** C4. What the application queues on a stream arrives, when it polls no stream: from a
    connection without streams, after any sequence of its other calls, of frames of the peer
    and of STREAM frames sent, each STREAM frame that was written is read back by the
    receiver; the frames of a stream carry the first bytes of what was accepted on it, in
    order and once; if nothing was written after the end of the stream, a frame that ends it
    ends where the accepted data ends; and a receiver that gets any of the frames, in any order and
    repeated at will, delivers a prefix of the data, all that was sent if it gets them all. *)
Theorem stream_delivery poll uninit has_callback fails ops x x' out id :
  send_ok (conn x) -> streams (conn x) = [] -> Forall op_range ops -> Forall (fun op => polls op = false) ops ->
  run poll uninit has_callback fails ops x = Some (x', out) ->
  let w := written poll uninit has_callback fails id ops x in
  exists fss, Forall2 decodes_to out fss /\
  let fs := on_stream id (mjoin fss) in
  (exists rest, w = sent_data fs ++ rest) /\
  (written_late poll uninit has_callback fails id ops x = false ->
   Forall (fun f => ends_stream f -> frame_end f = Z.of_nat (length w)) fs) /\
  forall arrived, (forall f, f ∈ arrived -> f ∈ fs) ->
    let '(events, r) := receive arrived init_recv in
    mjoin events.*1 = take (Z.to_nat (consumed_offset r)) w /\
    ((forall f, f ∈ fs -> f ∈ arrived) -> consumed_offset r = Z.of_nat (length (sent_data fs))).
Proof.
  intros Hok Hs Hops Hp Hrun w. assert (Hin : inactive (conn x)) by (intros i s; by rewrite Hs).
  destruct (run_tracks poll uninit has_callback fails id ops x x' out [] [] false Hok Hin Hops Hp Hrun ltac:(by rewrite Hs)) as (fss & Hd & Ht).
  exists fss. split; [done|]. cbv zeta. cbn [app orb] in Ht. fold w in Ht. set (fs := on_stream id (mjoin fss)) in *.
  pose proof (trace_ok _ _ _ _ _ _ _ _ Hok Hops Hrun) as Hok'.
  destruct (find_in id (streams (conn x'))) as [s|] eqn:E; cbn in Ht.
  - destruct Ht as (dropped & Hw & Hoff & Hc & _ & _ & Hfin & Hend). destruct (send_stream_in _ _ _ Hok' E) as [([_ Ho] & _) _].
    split_and!; [by eexists| |].
    + intros Hl. destruct (decide (Exists ends_stream fs)) as [He|Hne].
      * destruct (Hfin Hl He) as (_ & Hq & Hdr). rewrite Hw, Hq, Hdr, app_nil_r. by apply Hend.
      * apply list.Forall_forall. intros f Hf Hends. exfalso. apply Hne, Exists_exists. by exists f.
    + intros arrived Harr. rewrite Hw. by apply delivery; [|lia|].
  - destruct Ht as [-> ->]. split_and!; [by exists []|constructor|]. intros arrived Harr.
    destruct arrived as [|f arrived]; [done|]. exfalso. by apply (not_elem_of_nil f), Harr; left.
Qed.

(** ** Draining the queues *)

(** What is left to send on a stream: its bytes, and the end of the stream. *)
Definition backlog_of (s : stream_head) : nat := length (pending (send_queue s)) + (if fin_requested s && negb (fin_sent s) then 1 else 0).
Definition backlog (c : cnx) : nat := sum_list_with backlog_of (streams c).

(** Nothing to send but data, on no stream that is polled. *)
Definition plain (s : stream_head) : Prop := is_active s = false /\ has_control s = false.

(** The peer does not let the stream send, or the stream has sent everything. *)
Definition done_or_blocked (c : cnx) (s : stream_head) : Prop :=
  (send_queue s = [] /\ (fin_requested s = true -> fin_sent s = true)) \/
  data_sent c = cnx_maxdata_remote c \/ sent_offset s = maxdata_remote s \/
  (IS_CLIENT_STREAM_ID (stream_id s) = client_mode c /\ max_stream_id_bidir_remote c < stream_id s).

Lemma not_ready_done c s : send_ok c -> send_stream_ok s -> plain s -> stream_ready c s = false -> done_or_blocked c s.
Proof.
  intros (_ & _ & _ & _ & Hm) (_ & Hlim & Hq & _) [Ha Hc] Hr. unfold stream_ready in Hr. unfold has_control in Hc.
  apply orb_false_iff in Hc as [Hc1 Hc2]. rewrite Hc1, Hc2, Ha, !orb_false_r in Hr. cbn [orb] in Hr. unfold done_or_blocked.
  apply andb_false_iff in Hr as [Hr|Hr].
  - destruct (Z.ltb_spec (data_sent c) (cnx_maxdata_remote c)); [|right; left; lia].
    destruct (Z.ltb_spec (sent_offset s) (maxdata_remote s)); [|right; right; left; lia]. cbn [andb] in Hr.
    left. destruct (send_queue s) as [|d q]; [|apply list.Forall_cons in Hq as [[_ Hd] _]; destruct (Z.ltb_spec (sd_offset d) (sd_length d)); [done|lia]].
    split; [done|]. intros Hf. rewrite Hf in Hr. cbn in Hr. by destruct (fin_sent s).
  - right; right; right. destruct (Bool.eqb _ _) eqn:E; [|done]. apply eqb_prop in E. apply Z.leb_gt in Hr. by split.
Qed.

Lemma no_ready_all c : send_ok c -> find_ready_stream_round_robin c = None -> Forall (fun s => stream_ready c s = false) (streams c).
Proof.
  intros (Hs & _). rewrite round_robin_fair by done. intros Hn. apply list.Forall_forall. intros s Hin.
  apply (List.find_none _ _ Hn). unfold rotation. apply List.in_app_iff.
  rewrite (skip_visited_split (last_visited_stream_id c) _ Hs) in Hin. apply elem_of_app in Hin as [Hin|Hin]; [right|left]; by apply list_elem_of_In.
Qed.

Lemma moves_split c c' s s' n : send_ok c -> find_in (stream_id s) (streams c) = Some s -> moves c c' s s' n ->
  exists l1 l2, streams c = l1 ++ s :: l2 /\ streams c' = l1 ++ s' :: l2.
Proof.
  intros (Hs & _) Hf [(g & -> & <- & _) _ _ _ _ _]. destruct (update_in_split _ g _ _ Hs Hf) as (l1 & l2 & -> & -> & _). by exists l1, l2.
Qed.

(** A ready stream has something to send, or something to say. *)
Lemma ready_some c s : plain s -> queue_ok (send_queue s) -> stream_ready c s = true ->
  nothing_to_send s = false /\ data_sent c < cnx_maxdata_remote c /\ sent_offset s < maxdata_remote s.
Proof.
  intros [Ha Hc] Hq Hready. unfold has_control in Hc. apply orb_false_iff in Hc as [Hc1 Hc2].
  unfold stream_ready in Hready. rewrite Hc1, Hc2, Ha, !orb_false_r in Hready. cbn [orb] in Hready.
  apply andb_true_iff in Hready as [Hready _]. apply andb_true_iff in Hready as [[Hr1%Z.ltb_lt Hr2%Z.ltb_lt]%andb_true_iff Hr3].
  split; [|done]. unfold nothing_to_send. rewrite Ha. cbn [negb andb]. destruct (send_queue s) as [|d q]; cbn [orb] in Hr3.
  - by destruct (fin_requested s), (fin_sent s).
  - apply list.Forall_cons in Hq as [[_ Hd] _]. by destruct (Z.leb_spec (sd_length d) (sd_offset d)); [lia|].
Qed.

Section Drain.
Context (poll : Z -> Z -> Z * list provide_call) (uninit has_callback : bool) (fails : callback -> bool).
Let step := step poll uninit has_callback fails.
Let run := run poll uninit has_callback fails.

(** A frame that is sent takes something off the backlog. *)
Lemma sent_as_backlog s s' data fin :
  plain s -> queue_ok (send_queue s) -> nothing_to_send s = false -> sent_as s s' data fin -> data <> [] \/ fin = true ->
  plain s' /\ (backlog_of s' < backlog_of s)%nat.
Proof.
  intros [Ha Hc] Hq Hsome (v & q' & -> & Hp & Hq' & Hfin) Hne. split; [by split|]. unfold backlog_of.
  cbn [set_max_stream_updated set_sending send_queue fin_requested fin_sent]. rewrite Hp, length_app.
  destruct data as [|b data]; cbn [length].
  - destruct Hne as [|Hf]; [done|]. rewrite Hf in Hfin |- *. symmetry in Hfin. apply andb_true_iff in Hfin as [Hfr Hn]. destruct q'; [|done].
    apply pending_nil in Hp; [|done]. unfold nothing_to_send in Hsome. rewrite Ha, Hp, Hfr in Hsome. cbn in Hsome. rewrite Hfr, Hsome. cbn. lia.
  - destruct (fin_requested s); cbn [andb]; [|lia]. destruct (fin_sent s), fin; cbn [orb negb]; lia.
Qed.

Lemma send_progress m x : send_ok (conn x) -> Forall plain (streams (conn x)) -> 20 <= m <= 16384 ->
  exists x' out, step (send_next m) x = Some (x', out) /\ send_ok (conn x') /\ Forall plain (streams (conn x')) /\
    (x' = x /\ find_ready_stream_round_robin (conn x) = None \/ (backlog (conn x') < backlog (conn x))%nat).
Proof.
  intros Hok Hpl Hm. unfold step, StreamTransfer.step. destruct (find_ready_stream_round_robin (conn x)) as [s|] eqn:E; [|exists x, []; split_and!; try done; by left].
  destruct (find_ready_in _ _ (proj1 Hok) E) as [Hf Hready]. destruct (send_stream_in _ _ _ Hok Hf) as [Hs _].
  assert (Hps : plain s). { destruct (find_in_split _ _ _ Hf) as (l1 & l2 & Heq & _). rewrite Heq in Hpl. by apply Forall_app in Hpl as [_ [? _]%list.Forall_cons]. }
  pose proof Hps as [Ha Hc]. unfold has_control in Hc. apply orb_false_iff in Hc as [Hc1 Hc2]. pose proof Hs as (_ & _ & Hq & _).
  pose proof (prepare_data poll uninit s m x Hok Hs ltac:(lia) ltac:(done) ltac:(unfold not_polled; by rewrite Ha)) as H.
  destruct (prepare_stream_frame poll uninit s m x) as [[[ret consumed] bytes] x']. eexists _, _. split; [done|].
  destruct (ready_some _ _ Hps Hq Hready) as (Hsome & Hr1 & Hr2).
  destruct H as [(_ & _ & _ & Hn)|[(_ & _ & _ & _ & Hz)|(_ & _ & _ & data & fin & s' & Hsa & Hw & _ & _ & Hne & _)]].
  - congruence.
  - exfalso. destruct (Hz ltac:(lia)) as [[?|?] _]; lia.
  - destruct (sent_as_backlog s s' data fin Hps Hq Hsome Hsa Hne) as [Hps' Hlt]. split; [by eapply within_ok|].
    destruct Hw as (n & Hmv & _). destruct (moves_split _ _ _ _ _ Hok Hf Hmv) as (l1 & l2 & H1 & H2).
    unfold backlog. rewrite H1 in Hpl |- *. rewrite H2, !sum_list_with_app. cbn [sum_list_with].
    rewrite !Forall_app, !list.Forall_cons in *. split; [tauto|]. right. lia.
Qed.

Lemma drain n m x : send_ok (conn x) -> Forall plain (streams (conn x)) -> 20 <= m <= 16384 ->
  find_ready_stream_round_robin (conn x) = None \/ (backlog (conn x) <= n)%nat ->
  exists x' out, run (replicate n (send_next m)) x = Some (x', out) /\ send_ok (conn x') /\ Forall plain (streams (conn x')) /\
    (find_ready_stream_round_robin (conn x') = None \/ backlog (conn x') = 0%nat).
Proof.
  revert x. induction n as [|n IH]; intros x Hok Hpl Hm Hn; cbn [replicate].
  { exists x, []. split_and!; try done. destruct Hn; [by left|right; lia]. }
  destruct (send_progress m x Hok Hpl Hm) as (x1 & out1 & Hst & Hok1 & Hpl1 & Hor).
  assert (Hn1 : find_ready_stream_round_robin (conn x1) = None \/ (backlog (conn x1) <= n)%nat).
  { destruct Hor as [[-> Hnone]|Hlt]; [by left|]. destruct Hn as [Hnone|]; [|right; lia].
    left. unfold step, StreamTransfer.step in Hst. rewrite Hnone in Hst. injection Hst as <- _. done. }
  destruct (IH x1 Hok1 Hpl1 Hm Hn1) as (x2 & out2 & Hrun & Hrest). exists x2, (out1 ++ out2). split; [|done].
  unfold run. cbn [StreamTransfer.run]. unfold step in Hst. rewrite Hst. cbn [mbind option_bind]. unfold run in Hrun. by rewrite Hrun.
Qed.

Lemma backlog_zero c s : backlog c = 0%nat -> s ∈ streams c -> backlog_of s = 0%nat.
Proof.
  unfold backlog. induction (streams c) as [|t l IH]; cbn; [by intros _ ?%not_elem_of_nil|]. intros Hz [->|Hin]%elem_of_cons; [lia|].
  apply IH; [lia|done].
Qed.
End Drain.

(** C17. The queues drain: with plain streams (none polled, reset or with a pending
    STOP_SENDING, see [stop_sending_never_ends]), frames with 20 to 16384 bytes of room, and
    as many frames sent as there are bytes and ends of streams waiting, every stream has sent
    all its data and its end, or is held by the limit of the connection, by its own limit or
    by the limit on the streams. *)
Theorem streams_drain poll uninit has_callback fails n m x :
  send_ok (conn x) -> Forall plain (streams (conn x)) -> 20 <= m <= 16384 -> (backlog (conn x) <= n)%nat ->
  exists x' out, run poll uninit has_callback fails (replicate n (send_next m)) x = Some (x', out) /\
    Forall (done_or_blocked (conn x')) (streams (conn x')).
Proof.
  intros Hok Hpl Hm Hn. destruct (drain poll uninit has_callback fails n m x Hok Hpl Hm ltac:(by right)) as (x' & out & Hrun & Hok' & Hpl' & Hend).
  exists x', out. split; [done|]. pose proof Hok' as (_ & Hall & _). rewrite list.Forall_forall in Hall, Hpl'.
  apply list.Forall_forall. intros s Hin. destruct Hend as [Hnone|Hzero].
  - apply not_ready_done; auto. pose proof (no_ready_all _ Hok' Hnone) as Hnr. rewrite list.Forall_forall in Hnr. auto.
  - left. pose proof (backlog_zero _ s Hzero Hin) as Hb. unfold backlog_of in Hb. split.
    + apply pending_nil; [by apply Hall|]. apply length_zero_iff_nil. lia.
    + intros Hf. rewrite Hf in Hb. destruct (fin_sent s); [done|]. cbn in Hb. lia.
Qed.

(** C5. The limits of the peer hold whatever the application does: after any sequence of its
    calls (polled or not), of frames of the peer and of frames sent, no stream has sent
    beyond the limit the peer set for it, and the bytes sent on all streams together are
    counted in [data_sent], which is within the limit of the connection. *)
Theorem sending_within_limits poll uninit has_callback fails ops x x' out :
  send_ok (conn x) -> Forall op_range ops -> run poll uninit has_callback fails ops x = Some (x', out) ->
  send_ok (conn x') /\ Forall (fun s => sent_offset s <= maxdata_remote s) (streams (conn x')) /\
  total_sent (streams (conn x')) <= cnx_maxdata_remote (conn x').
Proof.
  intros Hok Hops Hrun. pose proof (trace_ok _ _ _ _ _ _ _ _ Hok Hops Hrun) as Hok'. split; [done|].
  destruct Hok' as (_ & Hall & _ & Hd & Hm). split; [|lia]. eapply list.Forall_impl; [exact Hall|]. intros s (_ & ? & _). lia.
Qed.

(** ** Loops that do not end *)

(** The data queued on all streams. *)
Definition total_pending (c : cnx) : nat := sum_list_with (fun s => length (pending (send_queue s))) (streams c).

(** Streams with data only, and more credit than [k] bytes. *)
Definition roomy_stream (c : cnx) (k : Z) (s : stream_head) : Prop :=
  plain s /\ k < maxdata_remote s - sent_offset s /\
  (IS_CLIENT_STREAM_ID (stream_id s) = client_mode c -> stream_id s <= max_stream_id_bidir_remote c).
Definition roomy (c : cnx) (k : Z) : Prop :=
  k < cnx_maxdata_remote c - data_sent c /\ Forall (roomy_stream c k) (streams c).

Lemma done_no_pending c : Forall (fun s => send_queue s = []) (streams c) -> total_pending c = 0%nat.
Proof. unfold total_pending. induction 1 as [|s l Hs _ IH]; [done|]. cbn [sum_list_with]. by rewrite Hs, IH. Qed.

(** The loop that fills a 0-RTT packet does not end when the data does not fit: with credit for
    more than the packet holds and more data queued than that, the loop goes on asking for a stream
    and being told that the buffer is too small, whatever the number of iterations. *)
Theorem zero_rtt_never_ends poll uninit fuel cap length' ret written x :
  send_ok (conn x) -> 0 <= cap - length' <= 16384 -> roomy (conn x) (cap - length') ->
  cap - length' < Z.of_nat (total_pending (conn x)) ->
  encode_0rtt_frames poll uninit fuel cap length' ret written x = None.
Proof.
  revert length' ret written x. induction fuel as [|fuel IH]; intros length' ret written x Hok Hcap [Hcr Hroom] Hmore; [done|].
  cbn [encode_0rtt_frames]. pose proof Hok as (Hsort & Hall & _ & _ & Hm). destruct (find_ready_stream_round_robin (conn x)) as [s|] eqn:E.
  2: { exfalso. pose proof (no_ready_all _ Hok E) as Hnr. rewrite list.Forall_forall in Hnr, Hall, Hroom.
       rewrite done_no_pending in Hmore; [lia|]. apply list.Forall_forall. intros t Ht. destruct (Hroom t Ht) as (Hp & Hl & Hid).
       destruct (not_ready_done _ t Hok (Hall t Ht) Hp (Hnr t Ht)) as [[? _]|[?|[?|[Hc ?]]]]; [done|lia|lia|]. specialize (Hid Hc). lia. }
  destruct (find_ready_in _ _ Hsort E) as [Hf Hready]. destruct (send_stream_in _ _ _ Hok Hf) as [Hs _]. pose proof Hs as (_ & _ & Hq & _).
  assert (Hrs : roomy_stream (conn x) (cap - length') s).
  { destruct (find_in_split _ _ _ Hf) as (l1 & l2 & Heq & _). rewrite Heq in Hroom. by apply Forall_app in Hroom as [_ [? _]%list.Forall_cons]. }
  destruct Hrs as (Hps & Hlim & Hidl). destruct (ready_some _ _ Hps Hq Hready) as (Hsome & _ & _). destruct Hps as [Ha Hc].
  pose proof Hc as Hc0. unfold has_control in Hc0. apply orb_false_iff in Hc0 as [Hc1 Hc2].
  pose proof (prepare_data poll uninit s (cap - length') x Hok Hs ltac:(lia) ltac:(done) ltac:(unfold not_polled; by rewrite Ha)) as H.
  destruct (prepare_stream_frame poll uninit s (cap - length') x) as [[[ret' consumed] bytes] x'].
  destruct H as [(_ & _ & _ & Hn)|[(-> & _ & -> & _)|(-> & -> & _ & data & fin & s' & Hsa & Hw & Hfb & _)]]; [congruence|by apply IH|].
  change (0 =? 0) with true. cbv iota. destruct Hfb as (pad & wl & e1 & e2 & e3 & Hbytes & _ & _ & _ & _ & Hle).
  assert (Hdl : Z.of_nat (length data) <= Z.of_nat (length bytes))
    by (rewrite Hbytes; unfold stream_wire; rewrite length_app; cbn [length]; rewrite !length_app; lia).
  pose proof (within_ok _ _ _ _ Hok Hf Hw) as Hok'. destruct Hw as (n & Hmv & _ & Ho & _).
  destruct Hsa as (v & q' & -> & Hp & _ & _). cbn [set_max_stream_updated set_sending sent_offset] in Ho.
  destruct (moves_split _ _ _ _ _ Hok Hf Hmv) as (l1 & l2 & H1 & H2). destruct Hmv as [_ Hds Hmx _ Hmode Hml].
  apply IH; [done|lia| |].
  - split; [rewrite Hds, Hmx; lia|]. rewrite H1 in Hroom. rewrite H2. apply Forall_app in Hroom as [Hr1 [_ Hr2]%list.Forall_cons].
    assert (Hw : forall t, roomy_stream (conn x) (cap - length') t -> roomy_stream (conn x') (cap - (length' + Z.of_nat (length bytes))) t).
    { intros t (? & ? & ?). unfold roomy_stream. rewrite Hmode, Hml. split_and!; [done|lia|done]. }
    apply Forall_app. split; [by eapply list.Forall_impl|]. apply Forall_cons; split; [|by eapply list.Forall_impl].
    unfold roomy_stream. cbn. rewrite Hmode, Hml. split_and!; [done|lia|done].
  - unfold total_pending in *. rewrite H1 in Hmore. rewrite H2. rewrite sum_list_with_app in *. cbn [sum_list_with] in *.
    cbn [set_max_stream_updated set_sending send_queue]. rewrite Hp, length_app in Hmore. lia.
Qed.

(** A STOP_SENDING that is no longer needed stops everything: when the application asks for it on
    a stream whose end the peer has already announced, the frame is never written and the request
    stays, so the stream stays ready and the loop that fills a packet picks it again and again. *)
Theorem stop_sending_never_ends poll uninit fuel cap checksum_overhead length' written x s :
  send_ok (conn x) -> find_ready_stream_round_robin (conn x) = Some s ->
  reset_requested s = false -> stop_sending_requested s = true -> stop_sending_sent s = false -> fin_received (recv s) = true ->
  7 <= cap - length' -> checksum_overhead + length' + 8 < cap - length' ->
  encode_stream_frames poll uninit fuel cap checksum_overhead length' (cap - length') (Some (stream_id s)) written x = None.
Proof.
  intros Hok E Hr Hst Hss Hfin Hcap Hck. destruct (find_ready_in _ _ (proj1 Hok) E) as [Hf _].
  assert (Hx : upd (stream_id s) (set_stop_sending (local_stop_error s) true false) x = x).
  { unfold upd, update_stream. destruct (update_in_split _ (set_stop_sending (local_stop_error s) true false) _ _ (proj1 Hok) Hf)
      as (l1 & l2 & Heq & Hup & _). rewrite Hup.
    replace (set_stop_sending (local_stop_error s) true false s) with s by (destruct s; cbn in *; by subst).
    rewrite <- Heq. destruct x as [c ? ? ? ? ?]. unfold set_conn. cbn. f_equal. by destruct c. }
  induction fuel as [|fuel IH] in written |- *; [done|]. cbn [encode_stream_frames mbind option_bind]. rewrite Hf.
  unfold prepare_stream_frame. rewrite Hr, Hst, Hss. cbn [andb negb]. unfold stop_sending_branch, picoquic_prepare_stop_sending_frame.
  rewrite Hst, Hss, Hfin. cbn [negb orb]. destruct (Z.ltb_spec (cap - length') (1 + 4 + 2)); [lia|]. change (0 =? 0) with true. cbv iota.
  rewrite Hx, Z.add_0_r. destruct (Z.ltb_spec (checksum_overhead + length' + 8) (cap - length')); [|lia].
  rewrite E. cbn [fmap option_fmap option_map]. change (take (Z.to_nat 0) []) with (@nil Z). rewrite app_nil_r. apply IH.
Qed.

(** ** Examples *)

Definition no_poll (id space : Z) : Z * list provide_call := (0, []).
Definition never_fails (b : callback) : bool := false.

Lemma example_empty_ok : send_ok (conn (example_sender [])).
Proof. unfold send_ok, sorted_ids, remote_ok. cbn. split_and!; try lia; constructor. Qed.

(** Two streams, one of them held by its limit until the peer raises it. *)
Definition example_ops : list send_op :=
  [call_add 0 [1; 2; 3] false; call_add 4 [9] true; send_next 30; call_add 0 [4; 5] true; send_next 30;
   from_peer 7 (PF_max_data 6000); send_next 30; send_next 30].

Lemma example_ops_range : Forall op_range example_ops /\ Forall (fun op => polls op = false) example_ops.
Proof. split; repeat (constructor; [cbn; (lia || done)|]); constructor. Qed.

Lemma stream_delivery_witness :
  exists x' out, run no_poll false true never_fails example_ops (example_sender []) = Some (x', out) /\
  out = [[11; 4; 1; 9]; [10; 0; 3; 1; 2; 3]; [15; 0; 3; 2; 4; 5]] /\
  written no_poll false true never_fails 0 example_ops (example_sender []) = [1; 2; 3; 4; 5] /\
  exists fss, Forall2 decodes_to out fss /\
  let fs := on_stream 0 (mjoin fss) in
  (exists rest, [1; 2; 3; 4; 5] = sent_data fs ++ rest) /\
  Forall (fun f => ends_stream f -> frame_end f = 5) fs.
Proof.
  destruct (run no_poll false true never_fails example_ops (example_sender [])) as [[x' out]|] eqn:E; [|vm_compute in E; discriminate].
  exists x', out. split; [done|].
  pose proof (stream_delivery no_poll false true never_fails example_ops (example_sender []) x' out 0 example_empty_ok eq_refl
    (proj1 example_ops_range) (proj2 example_ops_range) E) as H.
  split; [vm_compute in E; by injection E as _ <-|]. split; [vm_compute; reflexivity|].
  destruct H as (fss & Hd & Hpre & Hfin & _). exists fss. split; [exact Hd|]. split; [exact Hpre|]. apply Hfin. vm_compute. reflexivity.
Defined.

Lemma sending_within_limits_witness :
  exists x' out, run (fun _ space => (0, [Provide (replicate (Z.to_nat space) 1) false true])) false true never_fails
    (call_mark_active 8 true :: replicate 4 (send_next 400)) (example_sender []) = Some (x', out) /\
  send_ok (conn x') /\ (sent_offset <$> streams (conn x')) = [1000].
Proof.
  set (poll := fun (_ space : Z) => (0, [Provide (replicate (Z.to_nat space) 1) false true])).
  destruct (run poll false true never_fails (call_mark_active 8 true :: replicate 4 (send_next 400)) (example_sender []))
    as [[x' out]|] eqn:E; [|vm_compute in E; discriminate].
  exists x', out. split; [done|]. split.
  - apply (sending_within_limits poll false true never_fails (call_mark_active 8 true :: replicate 4 (send_next 400)) (example_sender []) x' out);
      [apply example_empty_ok| |exact E]. repeat (constructor; [cbn; lia|]). constructor.
  - vm_compute in E. by injection E as <- _.
Defined.

Lemma example_plain : Forall plain (streams (conn (example_sender [example_stream]))).
Proof. constructor; [by split|constructor]. Qed.

Lemma streams_drain_witness :
  exists x' out, run no_poll false true never_fails (replicate 101 (send_next 60)) (example_sender [example_stream]) = Some (x', out) /\
    Forall (done_or_blocked (conn x')) (streams (conn x')) /\ length out = 2%nat /\
    ((fun s => (sent_offset s, fin_sent s)) <$> streams (conn x')) = [(170, true)].
Proof.
  destruct (streams_drain no_poll false true never_fails 101 60 (example_sender [example_stream]) example_send_ok example_plain
    ltac:(lia) ltac:(vm_compute; lia)) as (x' & out & E & H).
  exists x', out. split; [exact E|]. split; [exact H|]. vm_compute in E. injection E as <- <-. by split.
Defined.

Lemma zero_rtt_never_ends_witness :
  encode_0rtt_frames no_poll false 1000 80 20 0 [] (example_sender [example_stream]) = None.
Proof.
  apply (zero_rtt_never_ends no_poll false 1000 80 20 0 [] (example_sender [example_stream]) example_send_ok).
  - lia.
  - split; [cbn; lia|]. constructor; [|constructor]. unfold roomy_stream, plain. cbn. split_and!; (done || lia).
  - vm_compute. reflexivity.
Defined.

(** The end of the stream was received and the application asks the peer to stop. *)
Definition example_stopped : stream_head :=
  set_stop_sending 3 true false (set_recv (RecvState 5 5 true true []) (set_sending 0 [] false false false example_stream)).

Lemma stop_sending_never_ends_witness :
  encode_stream_frames no_poll false 1000 1400 16 50 1350 (Some 4) [] (example_sender [example_stopped]) = None.
Proof.
  apply (stop_sending_never_ends no_poll false 1000 1400 16 50 [] (example_sender [example_stopped]) example_stopped); try done.
  unfold send_ok, sorted_ids, remote_ok. cbn. split_and!; try lia; try done; [repeat constructor|].
  constructor; [|constructor]. unfold send_stream_ok, frame_ids_ok, queue_ok. cbn. by split_and!; try lia.
Defined.

(** Data added after the end of the stream is accepted and sent, with a second end further on;
    the receiver closes the connection over it. *)
Example data_after_the_end :
  let ops := [call_add 0 [1] true; send_next 30; call_add 0 [2; 3] false; send_next 30] in
  snd <$> run no_poll false true never_fails ops (example_sender []) = Some [[11; 0; 1; 1]; [15; 0; 1; 2; 2; 3]] /\
  written_late no_poll false true never_fails 0 ops (example_sender []) = true /\
  let server := Cnx false [] (StreamParameters 1000 1000 1000) (StreamParameters 1000 1000 1000) 5000 5000 0 0 100 102 100 102 101 103
    4000 0 picoquic_state_server_ready 0 0 0 [] in
  cnx_local_error (run_peer true never_fails [(1, PF_stream 0 0 true [1]); (2, PF_stream 0 1 true [2; 3])] server)
    = PICOQUIC_TRANSPORT_FINAL_SIZE_ERROR.
Proof. vm_compute. by split. Qed.
End StreamTransfer.
