(* ===== verification/Protoops.v ===== *)
(** * Protocol operations and pluglets

    picoquic/plugin.c, picoquic/quicctx.c, picoquic/getset.c, picoquic/picoquic_internal.h
      the table of protocol operations of a connection and its registration functions
      plugging a pluglet before, after or instead of an operation, and unplugging it
      [plugin_run_protoop_internal], through which every operation of the program is called

    The body of an operation, a C function or a loaded pluglet, is a [prog]: a tree of the accesses it
    makes to the arguments and results in the connection, of its calls of other operations and of its
    effects on everything else, a type [U] that is left open.  A body ends; it does not register or
    plug operations while it runs.  The ELF loader is a parameter.  [exit(-1)], the use of a null
    pointer and a write past an array are outcomes of their own. *)
From Stdlib Require Import ZArith Lia Bool Ascii String.
From stdpp Require Import base strings list gmap numbers list_numbers.
From S2P Require Import Prelude.
#[local] Open Scope Z_scope.

Module Protoops.

(** ** The hash of a name

    uthash.h takes [HASH_FNV] for [HASH_FCN]; [hash_value_str] runs the macro on a variable of 64 bits,
    the lookups of uthash on one of 32; [w] is that width. *)
Definition bytes_of_string (s : string) : list Z :=
  map (fun a => Z.of_N (N_of_ascii a)) (list_ascii_of_string s).

Definition HASH_FNV (w : Z) (key : list Z) : Z :=
  foldl (fun hashv k => (Z.lxor hashv k * 16777619) mod 2 ^ w) 2166136261 key.

Definition hash_value_str (id : string) : Z := HASH_FNV 64 (bytes_of_string id).

(** ** Data *)

Definition NO_PARAM : Z := 65535.
Definition PROTOOPARGS_MAX : Z := 16.
Definition TOO_MANY_ARGUMENTS : Z := 0x400 + 40.

Inductive pluglet_type_enum := pluglet_replace | pluglet_pre | pluglet_post | pluglet_extern.
#[export] Instance pluglet_type_eq_dec : EqDecision pluglet_type_enum.
Proof. solve_decision. Defined.

Record protoop_id := ProtoopId { pid_hash : Z; pid_id : string }.

(** [outputv_given]: the caller provides a buffer for the additional results. *)
Record protoop_params := ProtoopParams {
  pp_pid : protoop_id;
  pp_param : Z;
  pp_caller_is_intern : bool;
  pp_inputv : list Z;
  pp_outputv_given : bool
}.

(** The hash of an operation is computed when it is not yet there. *)
Definition hash_of (pid : protoop_id) : Z :=
  if pid_hash pid =? 0 then hash_value_str (pid_id pid) else pid_hash pid.

(** What a call gives: a result, the end of the process, or an error of memory. *)
Inductive outcome (A : Type) :=
| Done (a : A)
| Fatal
| NullPointer
| Overrun
| OutOfFuel.
Arguments Done {A} a.
Arguments Fatal {A}.
Arguments NullPointer {A}.
Arguments Overrun {A}.
Arguments OutOfFuel {A}.

Definition obind {A B} (m : outcome A) (k : A -> outcome B) : outcome B :=
  match m with
  | Done a => k a
  | Fatal => Fatal
  | NullPointer => NullPointer
  | Overrun => Overrun
  | OutOfFuel => OutOfFuel
  end.
Notation "'let?' x := m 'in' k" := (obind m (fun x => k)) (at level 10, x pattern, m at level 100, k at level 200).

Section Operations.
Context {U : Type}.

(** The body of an operation.  [ReadInput] is the direct access of the C code to the array of the
    arguments, [GetInput] to [ReturnValue] are the accesses of a pluglet through getset.c. *)
Inductive prog :=
| Return (status : Z)
| ReadInput (i : nat) (k : Z -> prog)
| GetInput (i : nat) (k : Z -> prog)
| GetOutput (i : nat) (k : Z -> prog)
| SetOutput (i : nat) (v : Z) (k : prog)
| SaveOutputs (vs : list Z) (k : prog)
| ReturnValue (k : Z -> prog)
| RunProtoop (pp : protoop_params) (k : Z -> list Z -> prog)
| Effect (f : U -> U) (k : U -> prog).

(** The plugin of a pluglet is known by its address. *)
Record pluglet := Pluglet { pluglet_p : Z; pluglet_code : prog }.

Record param_struct := ParamStruct {
  param : Z;
  core : option prog;
  replace : option pluglet;
  intern : bool;
  running : bool;
  pre : list pluglet;
  post : list pluglet
}.

(** [params] is the structure itself or a hash map, as [is_parametrable] says. *)
Inductive op_params :=
| NotParametrable (popst : param_struct)
| Parametrable (params : gmap Z param_struct).

Record protoop_struct := ProtoopStruct { op_id : string; op_params_of : op_params }.

(** The part of [picoquic_cnx_t] of the plugins; [rest] stands for all its other fields. *)
Record cnx := Cnx {
  ops : gmap Z protoop_struct;
  protoop_inputc : Z;
  protoop_inputv : list Z;
  protoop_outputv : list Z;
  protoop_outputc_callee : Z;
  protoop_output : Z;
  current_protoop : option Z;
  current_anchor : pluglet_type_enum;
  current_plugin : option Z;
  previous_plugin_in_replace : option Z;
  rest : U
}.

Definition set_ops (o : gmap Z protoop_struct) (c : cnx) : cnx :=
  Cnx o (protoop_inputc c) (protoop_inputv c) (protoop_outputv c) (protoop_outputc_callee c) (protoop_output c)
    (current_protoop c) (current_anchor c) (current_plugin c) (previous_plugin_in_replace c) (rest c).
Definition set_inputs (n : Z) (v : list Z) (c : cnx) : cnx :=
  Cnx (ops c) n v (protoop_outputv c) (protoop_outputc_callee c) (protoop_output c)
    (current_protoop c) (current_anchor c) (current_plugin c) (previous_plugin_in_replace c) (rest c).
Definition set_outputs (n : Z) (v : list Z) (c : cnx) : cnx :=
  Cnx (ops c) (protoop_inputc c) (protoop_inputv c) v n (protoop_output c)
    (current_protoop c) (current_anchor c) (current_plugin c) (previous_plugin_in_replace c) (rest c).
Definition set_output (v : Z) (c : cnx) : cnx :=
  Cnx (ops c) (protoop_inputc c) (protoop_inputv c) (protoop_outputv c) (protoop_outputc_callee c) v
    (current_protoop c) (current_anchor c) (current_plugin c) (previous_plugin_in_replace c) (rest c).
Definition set_current (o : option Z) (a : pluglet_type_enum) (p : option Z) (c : cnx) : cnx :=
  Cnx (ops c) (protoop_inputc c) (protoop_inputv c) (protoop_outputv c) (protoop_outputc_callee c) (protoop_output c)
    o a p (previous_plugin_in_replace c) (rest c).
Definition set_previous (p : option Z) (c : cnx) : cnx :=
  Cnx (ops c) (protoop_inputc c) (protoop_inputv c) (protoop_outputv c) (protoop_outputc_callee c) (protoop_output c)
    (current_protoop c) (current_anchor c) (current_plugin c) p (rest c).
Definition set_rest (u : U) (c : cnx) : cnx :=
  Cnx (ops c) (protoop_inputc c) (protoop_inputv c) (protoop_outputv c) (protoop_outputc_callee c) (protoop_output c)
    (current_protoop c) (current_anchor c) (current_plugin c) (previous_plugin_in_replace c) u.

(** ** Registration (quicctx.c)

    [true] is the error of the source, the value 1. *)
Definition create_protocol_operation_param (param : Z) (op : option prog) : param_struct :=
  ParamStruct param op None true false [] [].

Definition register_noparam_protoop (pid : protoop_id) (op : option prog) (c : cnx) : bool * cnx :=
  let h := hash_of pid in
  match ops c !! h with
  | Some _ => (true, c)
  | None =>
      (false, set_ops (<[h := ProtoopStruct (pid_id pid) (NotParametrable (create_protocol_operation_param NO_PARAM op))]> (ops c)) c)
  end.

Definition register_param_protoop (pid : protoop_id) (param : Z) (op : option prog) (c : cnx) : bool * cnx :=
  let h := hash_of pid in
  let popst := create_protocol_operation_param param op in
  match ops c !! h with
  | Some (ProtoopStruct _ (NotParametrable _)) => (true, c)
  | Some (ProtoopStruct id (Parametrable m)) =>
      match m !! param with
      | Some _ => (true, c)
      | None => (false, set_ops (<[h := ProtoopStruct id (Parametrable (<[param := popst]> m))]> (ops c)) c)
      end
  | None => (false, set_ops (<[h := ProtoopStruct (pid_id pid) (Parametrable {[param := popst]})]> (ops c)) c)
  end.

Definition register_param_protoop_default (pid : protoop_id) (op : option prog) (c : cnx) : bool * cnx :=
  register_param_protoop pid NO_PARAM op c.

(** ** Plugging and unplugging (plugin.c)

    [load] is the ELF loader: the program in a file, when there is a valid one. *)
Section Plugging.
Variable load : string -> option prog.

Definition plugin_plug_elf_param_struct (popst : param_struct) (p : Z) (pte : pluglet_type_enum) (elf_fname : string)
    : option param_struct :=
  if ((bool_decide (pte = pluglet_replace) || bool_decide (pte = pluglet_extern)) && bool_decide (is_Some (replace popst)))%bool
  then None
  else if (negb (intern popst) && (bool_decide (pte = pluglet_pre) || bool_decide (pte = pluglet_post)))%bool then None
  else if (intern popst && bool_decide (pte = pluglet_extern)
           && (bool_decide (is_Some (core popst)) || negb (bool_decide (pre popst = [])) || negb (bool_decide (post popst = []))))%bool
  then None
  else
    match load elf_fname with
    | None => None
    | Some code =>
        let new_pluglet := Pluglet p code in
        Some (match pte with
              | pluglet_extern =>
                  ParamStruct (param popst) (core popst) (Some new_pluglet) false (running popst) (pre popst) (post popst)
              | pluglet_replace =>
                  ParamStruct (param popst) (core popst) (Some new_pluglet) (intern popst) (running popst) (pre popst) (post popst)
              | pluglet_pre =>
                  ParamStruct (param popst) (core popst) (replace popst) (intern popst) (running popst) (new_pluglet :: pre popst) (post popst)
              | pluglet_post =>
                  ParamStruct (param popst) (core popst) (replace popst) (intern popst) (running popst) (pre popst) (new_pluglet :: post popst)
              end)
    end.

Definition plugin_plug_elf_noparam (ps : protoop_struct) (p : Z) (pte : pluglet_type_enum) (elf_fname : string)
    : option protoop_struct :=
  match op_params_of ps with
  | Parametrable _ => None
  | NotParametrable popst =>
      match plugin_plug_elf_param_struct popst p pte elf_fname with
      | None => None
      | Some popst => Some (ProtoopStruct (op_id ps) (NotParametrable popst))
      end
  end.

Definition plugin_plug_elf_param (ps : protoop_struct) (p : Z) (param : Z) (pte : pluglet_type_enum) (elf_fname : string)
    : option protoop_struct :=
  match op_params_of ps with
  | NotParametrable _ => None
  | Parametrable m =>
      let popst := default (create_protocol_operation_param param None) (m !! param) in
      match plugin_plug_elf_param_struct popst p pte elf_fname with
      | None => None
      | Some popst => Some (ProtoopStruct (op_id ps) (Parametrable (<[param := popst]> m)))
      end
  end.

(** An operation that is registered here stays when plugging fails. *)
Definition plugin_plug_elf (p : Z) (pid_str : string) (param : Z) (pte : pluglet_type_enum) (elf_fname : string) (c : cnx)
    : bool * cnx :=
  let h := hash_value_str pid_str in
  let pid := ProtoopId h pid_str in
  let '(err, c) :=
    match ops c !! h with
    | Some _ => (false, c)
    | None => if param =? NO_PARAM then register_noparam_protoop pid None c else register_param_protoop pid param None c
    end in
  if (err : bool) then (true, c)
  else
    match ops c !! h with
    | None => (true, c)
    | Some ps =>
        match (if param =? NO_PARAM then plugin_plug_elf_noparam ps p pte elf_fname
               else plugin_plug_elf_param ps p param pte elf_fname) with
        | None => (true, c)
        | Some ps => (false, set_ops (<[h := ps]> (ops c)) c)
        end
    end.
End Plugging.

(** [HASH_FIND_STR] in the table of the operations, whose keys are the eight bytes of the 64-bit hash:
    the string itself is compared with a key. *)
Definition le_value (bs : list Z) : Z := foldr (fun b acc => b + 256 * acc) 0 bs.

Definition find_str (o : gmap Z protoop_struct) (s : string) : option (Z * protoop_struct) :=
  let bs := bytes_of_string s in
  if Z.of_nat (length bs) =? 8 then
    let key := le_value bs in
    if HASH_FNV 32 bs =? u32 key then (fun ps => (key, ps)) <$> o !! key else None
  else None.

(** The pluglet is taken off; an operation with nothing left goes. *)
Definition unplug_param_struct (popst : param_struct) (pte : pluglet_type_enum) : option param_struct :=
  match pte with
  | pluglet_extern | pluglet_replace =>
      if (bool_decide (pte = pluglet_extern) && intern popst)%bool then None
      else match replace popst with
           | None => None
           | Some _ => Some (ParamStruct (param popst) (core popst) None (intern popst) (running popst) (pre popst) (post popst))
           end
  | pluglet_pre =>
      match pre popst with
      | [] => None
      | _ :: l => Some (ParamStruct (param popst) (core popst) (replace popst) (intern popst) (running popst) l (post popst))
      end
  | pluglet_post =>
      match post popst with
      | [] => None
      | _ :: l => Some (ParamStruct (param popst) (core popst) (replace popst) (intern popst) (running popst) (pre popst) l)
      end
  end.

Definition nothing_left (popst : param_struct) : bool :=
  match core popst, replace popst, pre popst, post popst with None, None, [], [] => true | _, _, _, _ => false end.

Definition plugin_unplug (pid : string) (param : Z) (pte : pluglet_type_enum) (c : cnx) : bool * cnx :=
  match find_str (ops c) pid with
  | None => (true, c)
  | Some (h, ps) =>
      match op_params_of ps with
      | NotParametrable popst =>
          if negb (param =? NO_PARAM) then (true, c)
          else match unplug_param_struct popst pte with
               | None => (true, c)
               | Some popst =>
                   if nothing_left popst then (false, set_ops (delete h (ops c)) c)
                   else (false, set_ops (<[h := ProtoopStruct (op_id ps) (NotParametrable popst)]> (ops c)) c)
               end
      | Parametrable m =>
          if param =? NO_PARAM then (true, c)
          else match m !! param with
               | None => (true, c)
               | Some popst =>
                   match unplug_param_struct popst pte with
                   | None => (true, c)
                   | Some popst =>
                       let m := if nothing_left popst then delete param m else <[param := popst]> m in
                       (false, set_ops (<[h := ProtoopStruct (op_id ps) (Parametrable m)]> (ops c)) c)
                   end
               end
      end
  end.

(** [plugin_pluglet_exists]. *)
Definition plugin_pluglet_exists (pid : protoop_id) (param : Z) (anchor : pluglet_type_enum) (c : cnx) : bool :=
  match ops c !! hash_of pid with
  | None => false
  | Some ps =>
      match (match op_params_of ps with NotParametrable popst => Some popst | Parametrable m => m !! param end) with
      | None => false
      | Some popst =>
          match anchor with
          | pluglet_extern => (bool_decide (is_Some (replace popst)) && negb (intern popst))%bool
          | pluglet_replace => (bool_decide (is_Some (replace popst)) && intern popst)%bool
          | pluglet_pre => negb (bool_decide (pre popst = []))
          | pluglet_post => negb (bool_decide (post popst = []))
          end
      end
  end.

(** ** Running a body *)

Section Exec.
Variable call : protoop_params -> cnx -> outcome (Z * list Z * cnx).

(** [protoop_save_outputs_helper]; the counts of the macros end at 16. *)
Definition protoop_save_outputs (vs : list Z) (c : cnx) : outcome cnx :=
  if PROTOOPARGS_MAX <? Z.of_nat (length vs) then Overrun
  else Done (set_outputs (Z.of_nat (length vs)) (vs ++ drop (length vs) (protoop_outputv c)) c).

(** The accessors of getset.c for inputs, outputs and the return value. *)
Definition get_cnx_input (i : nat) (c : cnx) : Z :=
  if protoop_inputc c <=? Z.of_nat i then 0 else nth i (protoop_inputv c) 0.
Definition get_cnx_output (i : nat) (c : cnx) : Z :=
  if protoop_outputc_callee c <=? Z.of_nat i then 0 else nth i (protoop_outputv c) 0.

(** The next free output may be set, whatever its index. *)
Definition set_cnx_output (i : nat) (v : Z) (c : cnx) : outcome cnx :=
  if protoop_outputc_callee c <? Z.of_nat i then Done c
  else if PROTOOPARGS_MAX <=? Z.of_nat i then Overrun
  else Done (set_outputs (if Z.of_nat i =? protoop_outputc_callee c then protoop_outputc_callee c + 1 else protoop_outputc_callee c)
               (<[i := v]> (protoop_outputv c)) c).

Fixpoint exec (p : prog) (c : cnx) : outcome (Z * cnx) :=
  match p with
  | Return status => Done (status, c)
  | ReadInput i k => match protoop_inputv c !! i with Some v => exec (k v) c | None => Overrun end
  | GetInput i k => exec (k (get_cnx_input i c)) c
  | GetOutput i k => exec (k (get_cnx_output i c)) c
  | SetOutput i v k => let? c := set_cnx_output i v c in exec k c
  | SaveOutputs vs k => let? c := protoop_save_outputs vs c in exec k c
  | ReturnValue k => exec (k (protoop_output c)) c
  | RunProtoop pp k => let? r := call pp c in let '(status, outputs, c) := r in exec (k status outputs) c
  | Effect f k => exec (k (rest c)) (set_rest (f (rest c)) c)
  end.

(** A loop over observers; their results are not used. *)
Fixpoint run_observers (anchor : pluglet_type_enum) (l : list pluglet) (c : cnx) : outcome cnx :=
  match l with
  | [] => Done c
  | o :: l =>
      let? r := exec (pluglet_code o) (set_current (current_protoop c) anchor (Some (pluglet_p o)) c) in
      run_observers anchor l (snd r)
  end.

(** A parameter structure is found by the key of its operation and its own, if the operation has parameters. *)
Abbreviation address := (Z * option Z)%type.

Definition lookup_popst (a : address) (o : gmap Z protoop_struct) : option param_struct :=
  match op_params_of <$> o !! fst a, snd a with
  | Some (NotParametrable popst), None => Some popst
  | Some (Parametrable m), Some k => m !! k
  | _, _ => None
  end.

Definition set_running_params (b : bool) (k : option Z) (x : op_params) : op_params :=
  let f popst := ParamStruct (param popst) (core popst) (replace popst) (intern popst) b (pre popst) (post popst) in
  match x, k with
  | NotParametrable popst, None => NotParametrable (f popst)
  | Parametrable m, Some k => Parametrable (alter f k m)
  | _, _ => x
  end.

Definition set_running (b : bool) (a : address) (c : cnx) : cnx :=
  set_ops (alter (fun ps => ProtoopStruct (op_id ps) (set_running_params b (snd a) (op_params_of ps))) (fst a) (ops c)) c.

(** The structure of a call: that of the parameter, or the default one. *)
Definition find_popst (pp : protoop_params) (ps : protoop_struct) : option (option Z * param_struct) :=
  match op_params_of ps with
  | NotParametrable popst => Some (None, popst)
  | Parametrable m =>
      match m !! pp_param pp with
      | Some popst => Some (Some (pp_param pp), popst)
      | None => (fun popst => (Some NO_PARAM, popst)) <$> m !! NO_PARAM
      end
  end.

(** The operation itself: the pluglet that replaces it, or the function of the program; with the
    value of [replace_plugin]. *)
Definition run_operation (popst : param_struct) (c : cnx) : outcome (Z * option Z * cnx) :=
  match replace popst with
  | Some r =>
      let? res := exec (pluglet_code r) (set_current (current_protoop c) pluglet_replace (Some (pluglet_p r)) c) in
      let '(status, c) := res in
      Done (status, current_plugin c, set_previous (current_plugin c) c)
  | None =>
      match core popst with
      | Some f =>
          let? res := exec f (set_current (current_protoop c) (current_anchor c) None c) in
          Done (fst res, None, snd res)
      | None => Fatal
      end
  end.

(** The code after the label [cleanup], for a call that found its structure at [a]. *)
Definition cleanup (old : cnx) (a : address) (replace_plugin : option Z) (suppress_replace_plugin : bool) (c : cnx) : cnx :=
  let ninputs := Z.to_nat (protoop_inputc old) in
  let noutputs := Z.to_nat (protoop_outputc_callee old) in
  let c := set_inputs (protoop_inputc old) (take ninputs (protoop_inputv old) ++ drop ninputs (protoop_inputv c)) c in
  let c := set_outputs (protoop_outputc_callee old) (take noutputs (protoop_outputv old) ++ drop noutputs (protoop_outputv c)) c in
  let c := set_running false a c in
  let c :=
    if (bool_decide (is_Some replace_plugin) || suppress_replace_plugin)%bool then set_previous replace_plugin c else c in
  set_current (current_protoop old) (current_anchor old) (current_plugin old) c.

(** The operation with its observers. *)
Definition run_popst (popst : param_struct) (c : cnx) : outcome (Z * option Z * cnx) :=
  let? c := run_observers pluglet_pre (pre popst) c in
  let? r := run_operation popst c in
  let '(status, replace_plugin, c) := r in
  let c := match post popst with [] => c | _ => set_output status c end in
  let? c := run_observers pluglet_post (post popst) c in
  Done (status, replace_plugin, set_output 0 c).

(** One call; [call] runs the operations that the bodies call. *)
Definition run_protoop_once (pp : protoop_params) (c : cnx) : outcome (Z * list Z * cnx) :=
  let inputc := length (pp_inputv pp) in
  if PROTOOPARGS_MAX <? Z.of_nat inputc then Done (TOO_MANY_ARGUMENTS, [], c)
  else
    let c1 := set_inputs (Z.of_nat inputc) (pp_inputv pp ++ drop inputc (protoop_inputv c)) c in
    let c1 := set_outputs 0 (protoop_outputv c1) c1 in
    let h := hash_of (pp_pid pp) in
    match ops c !! h with
    | None => Fatal
    | Some ps =>
        match find_popst pp ps with
        | None => NullPointer
        | Some (k, popst) =>
            if negb (Bool.eqb (pp_caller_is_intern pp) (intern popst)) then Fatal
            else if running popst then Fatal
            else
              let c2 := set_current (Some h) (current_anchor c1) (current_plugin c1) (set_running true (h, k) c1) in
              let? r := run_popst popst c2 in
              let '(status, replace_plugin, c3) := r in
              let outputs :=
                if pp_outputv_given pp then take (Z.to_nat (protoop_outputc_callee c3)) (protoop_outputv c3) else [] in
              Done (status, outputs, cleanup c (h, k) replace_plugin (bool_decide (replace popst = None)) c3)
        end
    end.
End Exec.

(** [plugin_run_protoop_internal]: the fuel bounds the depth of nested calls. *)
Fixpoint plugin_run_protoop_internal (fuel : nat) (pp : protoop_params) (c : cnx) : outcome (Z * list Z * cnx) :=
  match fuel with
  | O => OutOfFuel
  | S fuel => run_protoop_once (plugin_run_protoop_internal fuel) pp c
  end.

(** [plugin_run_protoop]: by name, with an id that is filled in when it has no hash. *)
Definition plugin_run_protoop (fuel : nat) (pp : protoop_params) (pid_str : string) (pid : option protoop_id) (c : cnx)
    : outcome (Z * list Z * cnx) :=
  let id :=
    match pid with
    | Some pid => if pid_hash pid =? 0 then ProtoopId (hash_value_str pid_str) pid_str else pid
    | None => ProtoopId (hash_value_str pid_str) pid_str
    end in
  plugin_run_protoop_internal fuel
    (ProtoopParams id (pp_param pp) (pp_caller_is_intern pp) (pp_inputv pp) (pp_outputv_given pp)) c.

(** [protoop_prepare_and_run_helper]. *)
Definition protoop_prepare_and_run (fuel : nat) (pid : protoop_id) (param : Z) (caller : bool) (outputv_given : bool) (args : list Z) (c : cnx)
    : outcome (Z * list Z * cnx) :=
  plugin_run_protoop_internal fuel (ProtoopParams pid param caller args outputv_given) c.

(** ** What a call leaves behind *)

(** The arrays have 16 cells and the counts are within them. *)
Definition args_wf (c : cnx) : Prop :=
  length (protoop_inputv c) = 16%nat /\ length (protoop_outputv c) = 16%nat
  /\ 0 <= protoop_inputc c <= 16 /\ 0 <= protoop_outputc_callee c <= 16.

Definition inputs (c : cnx) : list Z := take (Z.to_nat (protoop_inputc c)) (protoop_inputv c).
Definition outputs (c : cnx) : list Z := take (Z.to_nat (protoop_outputc_callee c)) (protoop_outputv c).

(** A body leaves the table, its arguments and the operation it belongs to. *)
Definition kept (c c' : cnx) : Prop :=
  ops c' = ops c /\ protoop_inputc c' = protoop_inputc c /\ inputs c' = inputs c
  /\ current_protoop c' = current_protoop c /\ args_wf c'.

(** A call also leaves the results so far and the plugin and anchor that run. *)
Definition restored (c c' : cnx) : Prop :=
  kept c c' /\ protoop_outputc_callee c' = protoop_outputc_callee c /\ outputs c' = outputs c
  /\ current_anchor c' = current_anchor c /\ current_plugin c' = current_plugin c.

Lemma kept_refl c : args_wf c -> kept c c.
Proof. intros. unfold kept. by split_and!. Qed.

Lemma kept_trans c1 c2 c3 : kept c1 c2 -> kept c2 c3 -> kept c1 c3.
Proof. intros (?&?&?&?&_) (?&?&?&?&?). unfold kept. split_and!; first [done|congruence]. Qed.

Lemma kept_wf c c' : kept c c' -> args_wf c'.
Proof. by intros (?&?&?&?&?). Qed.

Lemma obind_done {A B} (m : outcome A) (k : A -> outcome B) b :
  obind m k = Done b -> exists a, m = Done a /\ k a = Done b.
Proof. destruct m; cbn; intros; simplify_eq; eauto. Qed.

(** Takes a successful sequence of steps apart. *)
Ltac odone :=
  repeat match goal with
  | H : obind _ _ = Done _ |- _ => apply obind_done in H as (?&?&?)
  | H : Done _ = Done _ |- _ => injection H as H; subst
  | H : (_, _) = (_, _) |- _ => injection H as H; subst
  | p : (_ * _)%type |- _ => destruct p
  end; cbn [fst snd] in *.

Lemma take_restore {A} n (old new : list A) : (n <= length old)%nat -> take n (take n old ++ drop n new) = take n old.
Proof. intros. rewrite take_app_le by (rewrite length_take; lia). by rewrite take_take, Nat.min_id. Qed.

Lemma length_restore {A} n (old new : list A) : length old = length new -> length (take n old ++ drop n new) = length old.
Proof. intros. rewrite length_app, length_take, length_drop. lia. Qed.

Section Calls.
Variable call : protoop_params -> cnx -> outcome (Z * list Z * cnx).
Hypothesis call_restores : forall pp c st o c', args_wf c -> call pp c = Done (st, o, c') -> restored c c'.

Lemma save_outputs_kept vs c c' : args_wf c -> protoop_save_outputs vs c = Done c' -> kept c c'.
Proof.
  intros (Hi&Ho&?&?) Hs. unfold protoop_save_outputs, PROTOOPARGS_MAX in Hs.
  destruct (16 <? Z.of_nat (length vs)) eqn:E; simplify_eq.
  apply Z.ltb_ge in E. repeat split; cbn; try lia. rewrite length_app, length_drop. lia.
Qed.

Lemma set_output_kept i v c c' : args_wf c -> set_cnx_output i v c = Done c' -> kept c c'.
Proof.
  intros Hw H. pose proof Hw as (Hi&Ho&?&?). unfold set_cnx_output, PROTOOPARGS_MAX in H.
  repeat (case_match; simplify_eq); [by apply kept_refl|..]; repeat split; cbn; rewrite ?length_insert; lia.
Qed.

Lemma exec_kept p : forall c st c', args_wf c -> exec call p c = Done (st, c') -> kept c c'.
Proof.
  induction p as [st|i k IH|i k IH|i k IH|i v k IH|vs k IH|k IH|pp k IH|f k IH]; cbn [exec]; intros c s c' Hw H;
    try (by eapply IH; [|exact H]).
  - simplify_eq. by apply kept_refl.
  - case_match; [eauto|done].
  - odone. eapply kept_trans; [by eapply set_output_kept|]. eapply IH; [|done]. eapply kept_wf. by eapply set_output_kept.
  - odone. eapply kept_trans; [by eapply save_outputs_kept|]. eapply IH; [|done]. eapply kept_wf. by eapply save_outputs_kept.
  - odone. destruct (call_restores _ _ _ _ _ Hw H) as [Hk _]. eapply kept_trans; [done|]. eapply IH; [|done].
    by eapply kept_wf.
  - apply IH in H; [|done]. by destruct H as (?&?&?&?&?).
Qed.

Lemma set_current_wf o a p c : args_wf c -> args_wf (set_current o a p c).
Proof. by intros (?&?&?&?). Qed.

Lemma observers_kept anchor l : forall c c', args_wf c -> run_observers call anchor l c = Done c' -> kept c c'.
Proof.
  induction l as [|o l IH]; cbn [run_observers]; intros c c' Hw H; [simplify_eq; by apply kept_refl|].
  odone. apply exec_kept in H; [|by apply set_current_wf]. eapply kept_trans; [exact H|]. eapply IH; [|done].
  by eapply kept_wf.
Qed.

Lemma run_operation_kept popst c st rp c' : args_wf c -> run_operation call popst c = Done (st, rp, c') -> kept c c'.
Proof.
  unfold run_operation. intros Hw H.
  destruct (replace popst) as [r|]; [|destruct (core popst) as [f|]; [|done]]; odone;
    apply exec_kept in H; [exact H|by apply set_current_wf|exact H|by apply set_current_wf].
Qed.

Lemma run_popst_kept popst c st rp c' : args_wf c -> run_popst call popst c = Done (st, rp, c') -> kept c c'.
Proof.
  intros Hw H. unfold run_popst in H. odone. rename x into c1, c0 into c2, x0 into c3.
  apply observers_kept in H; [|done]. apply run_operation_kept in H0; [|by eapply kept_wf].
  assert (kept c c2) as H2 by by eapply kept_trans.
  assert (kept c (match post popst with [] => c2 | _ => set_output st c2 end)) as Hp by by destruct (post popst).
  apply observers_kept in H1; [|by eapply kept_wf]. exact (kept_trans _ _ _ Hp H1).
Qed.
End Calls.

Lemma set_running_params_undo k ps popst :
  (match ps, k with NotParametrable p, None => Some p | Parametrable m, Some k => m !! k | _, _ => None end) = Some popst ->
  running popst = false ->
  set_running_params false k (set_running_params true k ps) = ps.
Proof.
  intros Hl Hr. destruct ps as [p|m], k as [k|]; try done; cbn in *.
  - simplify_eq. destruct popst; cbn in *; by subst.
  - f_equal. apply map_eq. intros j. destruct (decide (j = k)) as [->|].
    + rewrite !lookup_alter_eq, Hl. cbn. f_equal. destruct popst; cbn in *; by subst.
    + by rewrite !lookup_alter_ne.
Qed.

Lemma set_running_undo a popst o :
  lookup_popst a o = Some popst -> running popst = false ->
  alter (fun ps => ProtoopStruct (op_id ps) (set_running_params false (snd a) (op_params_of ps))) (fst a)
    (alter (fun ps => ProtoopStruct (op_id ps) (set_running_params true (snd a) (op_params_of ps))) (fst a) o) = o.
Proof.
  intros Hl Hr. apply map_eq. intros j. destruct (decide (j = fst a)) as [->|]; [|by rewrite !lookup_alter_ne].
  rewrite !lookup_alter_eq. unfold lookup_popst in Hl. destruct (o !! fst a) as [[id ps]|]; [|done]. cbn in *.
  do 2 f_equal. by eapply set_running_params_undo.
Qed.

Lemma find_popst_lookup pp ps k popst h o :
  o !! h = Some ps -> find_popst pp ps = Some (k, popst) -> lookup_popst (h, k) o = Some popst.
Proof.
  unfold find_popst, lookup_popst. cbn. intros -> H. cbn. destruct (op_params_of ps) as [p|m]; [by simplify_eq|].
  destruct (m !! pp_param pp) eqn:Hm; [by simplify_eq|]. by destruct (m !! NO_PARAM) eqn:Hd; simplify_eq/=.
Qed.

Lemma run_once_restores call :
  (forall pp c st o c', args_wf c -> call pp c = Done (st, o, c') -> restored c c') ->
  forall pp c st o c', args_wf c -> run_protoop_once call pp c = Done (st, o, c') -> restored c c'.
Proof.
  intros Hcall pp c st o c' Hw H. unfold run_protoop_once in H. unfold PROTOOPARGS_MAX in H. case_match.
  { odone. split; [by apply kept_refl|done]. }
  destruct (ops c !! hash_of (pp_pid pp)) as [ps|] eqn:Hps; [|done].
  destruct (find_popst pp ps) as [[k popst]|] eqn:Hf; [|done].
  case_match; [done|]. destruct (running popst) eqn:Hr; [done|]. odone. rename c0 into c3.
  pose proof Hw as (?&?&?&?). apply Z.ltb_ge in H0.
  apply run_popst_kept in H; [|done|]; last first.
  { repeat split; cbn; rewrite ?length_app, ?length_drop; lia. }
  destruct H as (Ho&_&_&_&(?&?&?&?)).
  assert (take (Z.to_nat (protoop_inputc c)) (take (Z.to_nat (protoop_inputc c)) (protoop_inputv c)
          ++ drop (Z.to_nat (protoop_inputc c)) (protoop_inputv c3)) = inputs c) as Hin by (apply take_restore; lia).
  assert (take (Z.to_nat (protoop_outputc_callee c)) (take (Z.to_nat (protoop_outputc_callee c)) (protoop_outputv c)
          ++ drop (Z.to_nat (protoop_outputc_callee c)) (protoop_outputv c3)) = outputs c) as Hout by (apply take_restore; lia).
  unfold cleanup, restored, kept, args_wf. repeat case_match; cbn in *;
    (repeat split; try done; try lia; try (rewrite length_restore; congruence)).
  all: rewrite Ho; by apply (set_running_undo (hash_of (pp_pid pp), k) popst); [eapply find_popst_lookup|].
Qed.

Lemma run_restores fuel : forall pp c st o c', args_wf c ->
  plugin_run_protoop_internal fuel pp c = Done (st, o, c') -> restored c c'.
Proof. induction fuel as [|fuel IH]; [done|]. cbn [plugin_run_protoop_internal]. by apply run_once_restores. Qed.

(** ** Calls end

    A nested call that succeeds marks one more structure as running; a call that finds it so ends. *)
Definition msum {A} (f : A -> nat) (m : gmap Z A) : nat := sum_list_with (fun x => f (snd x)) (map_to_list m).

Lemma msum_delete {A} (f : A -> nat) (m : gmap Z A) i x : m !! i = Some x -> msum f m = (f x + msum f (delete i m))%nat.
Proof. intros H. unfold msum. by rewrite <- (map_to_list_delete m i x H). Qed.

Lemma msum_alter {A} (f : A -> nat) (g : A -> A) (m : gmap Z A) i x :
  m !! i = Some x -> (msum f (alter g i m) + f x = msum f m + f (g x))%nat.
Proof.
  intros H. rewrite (msum_delete f m i x H), (msum_delete f (alter g i m) i (g x)), delete_alter_eq; [lia|].
  by rewrite lookup_alter_eq, H.
Qed.

Definition idle (popst : param_struct) : nat := if running popst then 0 else 1.
Definition idle_params (x : op_params) : nat :=
  match x with NotParametrable popst => idle popst | Parametrable m => msum idle m end.

(** The number of structures that do not run. *)
Definition idle_ops (o : gmap Z protoop_struct) : nat := msum (fun ps => idle_params (op_params_of ps)) o.

Lemma idle_params_running k x popst :
  (match x, k with NotParametrable p, None => Some p | Parametrable m, Some k => m !! k | _, _ => None end) = Some popst ->
  running popst = false -> (idle_params (set_running_params true k x) < idle_params x)%nat.
Proof.
  intros Hl Hr. destruct x as [p|m], k as [k|]; try done; cbn in *.
  - simplify_eq. unfold idle. cbn. rewrite Hr. lia.
  - set (f := fun _ => _). pose proof (msum_alter idle f m k popst Hl) as H. revert H. unfold idle at 2 4, f. cbn.
    rewrite Hr. fold f. lia.
Qed.

Lemma idle_ops_running a popst c :
  lookup_popst a (ops c) = Some popst -> running popst = false ->
  (idle_ops (ops (set_running true a c)) < idle_ops (ops c))%nat.
Proof.
  intros Hl Hr. unfold lookup_popst in Hl. destruct (ops c !! fst a) as [ps|] eqn:Hps; [|done].
  unfold idle_ops, set_running. cbn [ops set_ops]. set (f := fun ps => ProtoopStruct _ _).
  pose proof (msum_alter (fun ps => idle_params (op_params_of ps)) f (ops c) (fst a) ps Hps) as H.
  pose proof (idle_params_running (snd a) (op_params_of ps) popst Hl Hr). cbn in H. lia.
Qed.

Section Fuel.
Variable call : protoop_params -> cnx -> outcome (Z * list Z * cnx).
Variable o : gmap Z protoop_struct.
Hypothesis call_restores : forall pp c st out c', args_wf c -> call pp c = Done (st, out, c') -> restored c c'.
Hypothesis call_ends : forall pp c, args_wf c -> ops c = o -> call pp c <> OutOfFuel.

Lemma obind_ends {A B} (m : outcome A) (k : A -> outcome B) :
  m <> OutOfFuel -> (forall a, m = Done a -> k a <> OutOfFuel) -> obind m k <> OutOfFuel.
Proof. destruct m; cbn; intros Hm Hk; try done. by apply Hk. Qed.

Lemma exec_ends p : forall c, args_wf c -> ops c = o -> exec call p c <> OutOfFuel.
Proof.
  induction p as [st|i k IH|i k IH|i k IH|i v k IH|vs k IH|k IH|pp k IH|f k IH]; cbn [exec]; intros c Hw Ho;
    try (by apply IH).
  - done.
  - case_match; [by apply IH|done].
  - apply obind_ends; [unfold set_cnx_output; by repeat case_match|]. intros c' Hc.
    apply set_output_kept in Hc as (?&_&_&_&?); [|done]. apply IH; congruence.
  - apply obind_ends; [unfold protoop_save_outputs; by case_match|]. intros c' Hc.
    apply save_outputs_kept in Hc as (?&_&_&_&?); [|done]. apply IH; congruence.
  - apply obind_ends; [by apply call_ends|]. intros [[st out] c'] Hc.
    apply call_restores in Hc as ((?&_&_&_&?)&_); [|done]. apply IH; congruence.
Qed.

Lemma observers_end anchor l : forall c, args_wf c -> ops c = o -> run_observers call anchor l c <> OutOfFuel.
Proof.
  induction l as [|p l IH]; cbn [run_observers]; intros c Hw Ho; [done|]. apply obind_ends.
  - by apply exec_ends; [apply set_current_wf|].
  - intros [st c'] Hc. apply exec_kept in Hc as (?&_&_&_&?); [|done|by apply set_current_wf]. apply IH; cbn in *; congruence.
Qed.

Lemma run_popst_ends popst c : args_wf c -> ops c = o -> run_popst call popst c <> OutOfFuel.
Proof.
  intros Hw Ho. unfold run_popst. apply obind_ends; [by apply observers_end|]. intros c1 H1.
  apply observers_kept in H1 as (Ho1&_&_&_&Hw1); [|done|done]. apply obind_ends.
  { unfold run_operation. repeat case_match; try done; apply obind_ends; try done;
      try (by apply exec_ends; [apply set_current_wf|cbn; congruence]); by intros [? ?]. }
  intros [[st rp] c2] H2. apply run_operation_kept in H2 as (Ho2&_&_&_&Hw2); [|done|done].
  apply obind_ends; [|done]. apply observers_end; destruct (post popst); cbn; try done; congruence.
Qed.
End Fuel.

Lemma run_ends fuel : forall pp c, args_wf c -> (idle_ops (ops c) < fuel)%nat ->
  plugin_run_protoop_internal fuel pp c <> OutOfFuel.
Proof.
  induction fuel as [|fuel IH]; intros pp c Hw Hf; [lia|]. cbn [plugin_run_protoop_internal].
  unfold run_protoop_once, PROTOOPARGS_MAX. case_match eqn:Hn; [done|].
  destruct (ops c !! hash_of (pp_pid pp)) as [ps|] eqn:Hps; [|done].
  destruct (find_popst pp ps) as [[k popst]|] eqn:Hp; [|done].
  case_match; [done|]. destruct (running popst) eqn:Hr; [done|].
  apply Z.ltb_ge in Hn. pose proof Hw as (?&?&?&?).
  pose proof (idle_ops_running (hash_of (pp_pid pp), k) popst c (find_popst_lookup _ _ _ _ _ _ Hps Hp) Hr) as Hi.
  apply obind_ends; [|by intros [[? ?] ?]]. eapply run_popst_ends; [by apply run_restores| |..|reflexivity].
  - intros pp' c' Hw' Ho'. apply IH; [done|]. rewrite Ho'. cbn [ops set_current]. cbn in Hi |- *. lia.
  - repeat split; cbn; rewrite ?length_app, ?length_drop; lia.
Qed.

(** ** Observers that only look

    A passive program reads and returns. *)
Inductive passive : prog -> Prop :=
| passive_return st : passive (Return st)
| passive_read_input i k : (i < 16)%nat -> (forall v, passive (k v)) -> passive (ReadInput i k)
| passive_get_input i k : (forall v, passive (k v)) -> passive (GetInput i k)
| passive_get_output i k : (forall v, passive (k v)) -> passive (GetOutput i k)
| passive_return_value k : (forall v, passive (k v)) -> passive (ReturnValue k)
| passive_effect f k : (forall u, f u = u) -> (forall u, passive (k u)) -> passive (Effect f k).

(** The second list has passive pluglets among those of the first. *)
Inductive adds_passive : list pluglet -> list pluglet -> Prop :=
| adds_nil : adds_passive [] []
| adds_same o l l' : adds_passive l l' -> adds_passive (o :: l) (o :: l')
| adds_new o l l' : passive (pluglet_code o) -> adds_passive l l' -> adds_passive l (o :: l').

Lemma adds_passive_refl l : adds_passive l l.
Proof. induction l; by constructor. Qed.

Definition popst_sim (s s' : param_struct) : Prop :=
  param s = param s' /\ core s = core s' /\ replace s = replace s' /\ intern s = intern s' /\ running s = running s'
  /\ adds_passive (pre s) (pre s') /\ adds_passive (post s) (post s').

Definition params_sim (x x' : op_params) : Prop :=
  match x, x' with
  | NotParametrable s, NotParametrable s' => popst_sim s s'
  | Parametrable m, Parametrable m' => forall k, option_Forall2 popst_sim (m !! k) (m' !! k)
  | _, _ => False
  end.

Definition op_sim (p p' : protoop_struct) : Prop := op_id p = op_id p' /\ params_sim (op_params_of p) (op_params_of p').
Definition ops_sim (o o' : gmap Z protoop_struct) : Prop := forall h, option_Forall2 op_sim (o !! h) (o' !! h).

(** Two connections that differ in passive observers, and in the plugin and anchor that run. *)
Record sim (c c' : cnx) : Prop := Sim {
  sim_ops : ops_sim (ops c) (ops c');
  sim_inputc : protoop_inputc c = protoop_inputc c';
  sim_inputv : protoop_inputv c = protoop_inputv c';
  sim_outputv : protoop_outputv c = protoop_outputv c';
  sim_outputc : protoop_outputc_callee c = protoop_outputc_callee c';
  sim_output : protoop_output c = protoop_output c';
  sim_protoop : current_protoop c = current_protoop c';
  sim_previous : previous_plugin_in_replace c = previous_plugin_in_replace c';
  sim_rest : rest c = rest c'
}.

Lemma popst_sim_refl s : popst_sim s s.
Proof. unfold popst_sim. split_and!; try done; apply adds_passive_refl. Qed.

Lemma params_sim_refl x : params_sim x x.
Proof. destruct x; cbn; [apply popst_sim_refl|]. intros k. destruct (params !! k); constructor. apply popst_sim_refl. Qed.

Lemma op_sim_refl p : op_sim p p.
Proof. split; [done|apply params_sim_refl]. Qed.

(** The same outcome, with related results. *)
Definition osim {A} (R : A -> A -> Prop) (m m' : outcome A) : Prop :=
  match m, m' with
  | Done a, Done a' => R a a'
  | Fatal, Fatal | NullPointer, NullPointer | Overrun, Overrun | OutOfFuel, OutOfFuel => True
  | _, _ => False
  end.

Lemma osim_bind {A B} (R : A -> A -> Prop) (S : B -> B -> Prop) m m' (k k' : A -> outcome B) :
  osim R m m' -> (forall a a', m = Done a -> m' = Done a' -> R a a' -> osim S (k a) (k' a')) ->
  osim S (obind m k) (obind m' k').
Proof. destruct m, m'; cbn; try done. intros HR H. by apply H. Qed.

Lemma sim_wf c c' : sim c c' -> args_wf c -> args_wf c'.
Proof. intros [] (?&?&?&?). unfold args_wf. split_and!; first [congruence|lia]. Qed.

Lemma set_current_sim o a p o' a' p' c c' : o = o' -> sim c c' -> sim (set_current o a p c) (set_current o' a' p' c').
Proof. intros -> []. by constructor. Qed.

Lemma passive_exec call p : passive p -> forall c, args_wf c -> exists st, exec call p c = Done (st, c).
Proof.
  induction 1 as [st|i k Hi _ IH|i k _ IH|i k _ IH|k _ IH|f k Hf _ IH]; cbn [exec]; intros c Hw; eauto.
  - destruct (lookup_lt_is_Some_2 (protoop_inputv c) i) as [v ->]; [|eauto]. destruct Hw as (->&_). lia.
  - rewrite Hf. replace (set_rest (rest c) c) with c by (by destruct c). eauto.
Qed.

Section Simulation.
Variable call : protoop_params -> cnx -> outcome (Z * list Z * cnx).
Hypothesis call_restores : forall pp c st out c', args_wf c -> call pp c = Done (st, out, c') -> restored c c'.

(** Results that are the same, in states that are related. *)
Definition result_sim {A} (r r' : A * cnx) : Prop := fst r = fst r' /\ sim (snd r) (snd r').
Hypothesis call_sim : forall pp c c', args_wf c -> sim c c' -> osim result_sim (call pp c) (call pp c').

Lemma set_cnx_output_sim i v c c' : sim c c' -> osim sim (set_cnx_output i v c) (set_cnx_output i v c').
Proof.
  intros Hs. unfold set_cnx_output. rewrite (sim_outputc _ _ Hs), (sim_outputv _ _ Hs).
  repeat case_match; cbn; try done; destruct Hs; by constructor.
Qed.

Lemma save_outputs_sim vs c c' : sim c c' -> osim sim (protoop_save_outputs vs c) (protoop_save_outputs vs c').
Proof.
  intros Hs. unfold protoop_save_outputs. rewrite (sim_outputv _ _ Hs). case_match; cbn; [done|].
  destruct Hs; by constructor.
Qed.

Lemma exec_sim p : forall c c', args_wf c -> sim c c' -> osim result_sim (exec call p c) (exec call p c').
Proof.
  induction p as [st|i k IH|i k IH|i k IH|i v k IH|vs k IH|k IH|pp k IH|f k IH]; cbn [exec]; intros c c' Hw Hs.
  - done.
  - rewrite (sim_inputv _ _ Hs). case_match; [by apply IH|done].
  - unfold get_cnx_input. rewrite (sim_inputv _ _ Hs), (sim_inputc _ _ Hs). by apply IH.
  - unfold get_cnx_output. rewrite (sim_outputv _ _ Hs), (sim_outputc _ _ Hs). by apply IH.
  - eapply osim_bind; [by apply set_cnx_output_sim|]. intros c1 c1' H1 _ Hs1. apply IH; [|done].
    eapply kept_wf. by eapply set_output_kept.
  - eapply osim_bind; [by apply save_outputs_sim|]. intros c1 c1' H1 _ Hs1. apply IH; [|done].
    eapply kept_wf. by eapply save_outputs_kept.
  - rewrite (sim_output _ _ Hs). by apply IH.
  - eapply osim_bind; [by apply call_sim|]. intros [[st out] c1] [[st' out'] c1'] H1 _ [Heq Hs1]. cbn in Heq, Hs1. simplify_eq.
    apply IH; [|done]. eapply kept_wf. by eapply call_restores.
  - rewrite (sim_rest _ _ Hs). apply IH; [done|]. destruct Hs. by constructor.
Qed.

(** Passive observers change the plugin and anchor, nothing else. *)
Lemma observers_sim anchor l l' : adds_passive l l' -> forall c c', args_wf c -> sim c c' ->
  osim sim (run_observers call anchor l c) (run_observers call anchor l' c').
Proof.
  induction 1 as [|o l l' _ IH|o l l' Ho _ IH]; cbn [run_observers]; intros c c' Hw Hs; [done|..].
  - eapply osim_bind; [apply exec_sim; [by apply set_current_wf|by apply set_current_sim; [apply sim_protoop|]]|].
    intros [st c1] [st' c1'] H1 _ [_ Hs1]. apply IH; [|done]. eapply kept_wf. eapply exec_kept, H1; [done|by apply set_current_wf].
  - destruct (passive_exec call _ Ho (set_current (current_protoop c') anchor (Some (pluglet_p o)) c')) as [st ->];
      [apply set_current_wf; by eapply sim_wf|]. cbn. apply IH; [done|]. destruct Hs. by constructor.
Qed.

Lemma exec_plugin p : forall c st c', args_wf c -> exec call p c = Done (st, c') -> current_plugin c' = current_plugin c.
Proof.
  induction p as [st|i k IH|i k IH|i k IH|i v k IH|vs k IH|k IH|pp k IH|f k IH]; cbn [exec]; intros c s c' Hw H;
    try (by eapply IH; [|exact H]).
  - by simplify_eq.
  - case_match; [eauto|done].
  - odone. rewrite (IH _ _ _ (kept_wf _ _ (set_output_kept _ _ _ _ Hw H)) H0). unfold set_cnx_output in H.
    by repeat case_match; simplify_eq.
  - odone. rewrite (IH _ _ _ (kept_wf _ _ (save_outputs_kept _ _ _ Hw H)) H0). unfold protoop_save_outputs in H.
    by repeat case_match; simplify_eq.
  - odone. destruct (call_restores _ _ _ _ _ Hw H) as ((?&?&?&?&Hw1)&?&?&?&?). apply IH in H0; [congruence|done].
  - by apply IH in H.
Qed.

Lemma run_operation_sim s s' c c' : popst_sim s s' -> args_wf c -> sim c c' ->
  osim result_sim (run_operation call s c) (run_operation call s' c').
Proof.
  intros (_&Hcore&Hrepl&_) Hw Hs. unfold run_operation. rewrite <- Hcore, <- Hrepl.
  destruct (replace s) as [r|]; [|destruct (core s) as [f|]; [|done]];
    (eapply osim_bind; [apply exec_sim; [by apply set_current_wf|by apply set_current_sim; [apply sim_protoop|]]|]).
  - intros [st c1] [st' c1'] H1 H1' [Heq Hs1]. cbn in Heq. subst.
    apply exec_plugin in H1; [|by apply set_current_wf]. apply exec_plugin in H1'; [|apply set_current_wf; by eapply sim_wf].
    cbn in *. rewrite H1, H1'. split; [done|]. destruct Hs1. by constructor.
  - intros [st c1] [st' c1'] H1 H1' [Heq Hs1]. cbn in Heq. by subst.
Qed.

Lemma set_output_sim v c c' : sim c c' -> sim (set_output v c) (set_output v c').
Proof. intros []. by constructor. Qed.

Lemma run_popst_sim s s' c c' : popst_sim s s' -> args_wf c -> sim c c' ->
  osim result_sim (run_popst call s c) (run_popst call s' c').
Proof.
  intros Hp Hw Hs. pose proof Hp as (_&_&_&_&_&Hpre&Hpost). unfold run_popst.
  eapply osim_bind; [by eapply observers_sim|]. intros c1 c1' H1 _ Hs1.
  assert (args_wf c1) as Hw1 by (eapply kept_wf, observers_kept, H1; done).
  eapply osim_bind; [by eapply run_operation_sim|]. intros [[st rp] c2] [[st' rp'] c2'] H2 _ [Heq Hs2]. cbn in Heq, Hs2. simplify_eq.
  assert (args_wf c2) as Hw2 by (eapply kept_wf, run_operation_kept, H2; done).
  eapply (osim_bind (fun c3 c3' => sim (set_output 0 c3) (set_output 0 c3'))); [|by intros].
  destruct (post s) as [|o l] eqn:Hl.
  - cbn [run_observers].
    assert (forall l' d d', adds_passive [] l' -> args_wf d -> sim (set_output 0 d) (set_output 0 d') ->
      osim (fun c3 c3' => sim (set_output 0 c3) (set_output 0 c3')) (Done d) (run_observers call pluglet_post l' d')) as Hpass.
    { induction l' as [|o l' IH]; intros d d' Ha Hd Hsd; [done|]. inversion Ha as [| |? ? ? Hpo Ha']; subst. cbn [run_observers].
      destruct (passive_exec call _ Hpo (set_current (current_protoop d') pluglet_post (Some (pluglet_p o)) d')) as [x ->];
        [apply set_current_wf; exact (sim_wf _ _ Hsd Hd)|]. apply IH; [done|done|]. destruct Hsd. by constructor. }
    apply Hpass; [done|done|]. destruct (post s'); [by apply set_output_sim|]. destruct Hs2. by constructor.
  - assert (post s' <> []) as Hne by (inversion Hpost; congruence). destruct (post s') as [|o' l'] eqn:Hl'; [done|].
    pose proof (observers_sim pluglet_post _ _ Hpost (set_output st' c2) (set_output st' c2') Hw2 (set_output_sim _ _ _ Hs2)) as Ho.
    revert Ho. generalize (run_observers call pluglet_post (o :: l) (set_output st' c2)) as m,
      (run_observers call pluglet_post (o' :: l') (set_output st' c2')) as m'. intros [] []; cbn; try done. apply set_output_sim.
Qed.

(** Running flags are set on both sides alike. *)
Lemma set_running_sim b a c c' : sim c c' -> sim (set_running b a c) (set_running b a c').
Proof.
  intros []. constructor; try done. cbn. intros h. destruct (decide (h = fst a)) as [->|];
    [rewrite !lookup_alter_eq|rewrite !lookup_alter_ne by done; apply sim_ops0].
  destruct (sim_ops0 (fst a)) as [p p' [Hid Hps]|]; constructor. split; [done|]. cbn.
  destruct (op_params_of p) as [s|m], (op_params_of p') as [s'|m'], (snd a) as [k|]; cbn in *; try done.
  - destruct Hps as (?&?&?&?&?&?&?). unfold popst_sim. by split_and!.
  - intros j. destruct (decide (j = k)) as [->|]; [|rewrite !lookup_alter_ne by done; apply Hps]. rewrite !lookup_alter_eq.
    destruct (Hps k) as [s s' (?&?&?&?&?&?&?)|]; constructor. unfold popst_sim. by split_and!.
Qed.

Lemma find_popst_sim pp p p' : op_sim p p' ->
  match find_popst pp p, find_popst pp p' with
  | Some (k, s), Some (k', s') => k = k' /\ popst_sim s s'
  | None, None => True
  | _, _ => False
  end.
Proof.
  intros [_ H]. unfold find_popst. destruct (op_params_of p) as [s|m], (op_params_of p') as [s'|m']; cbn in H; try done.
  destruct (H (pp_param pp)) as [s s' Hs|]; [done|]. by destruct (H NO_PARAM) as [s s' Hs|]; cbn.
Qed.

Lemma run_once_sim pp c c' : args_wf c -> sim c c' ->
  osim result_sim (run_protoop_once call pp c) (run_protoop_once call pp c').
Proof.
  intros Hw Hs. unfold run_protoop_once, PROTOOPARGS_MAX. case_match eqn:Hn; [done|]. apply Z.ltb_ge in Hn.
  destruct (sim_ops _ _ Hs (hash_of (pp_pid pp))) as [p p' Hp|]; [|done].
  pose proof (find_popst_sim pp p p' Hp) as Hf.
  destruct (find_popst pp p) as [[k s]|] eqn:Hfp, (find_popst pp p') as [[k' s']|] eqn:Hfp'; try done.
  destruct Hf as [<- Hsim]. pose proof Hsim as (_&_&Hrep&Hi&Hr&_). rewrite <- Hi, <- Hr.
  case_match; [done|]. destruct (running s); [done|].
  eapply osim_bind.
  - apply run_popst_sim; [done| |].
    + destruct Hw as (?&?&?&?). repeat split; cbn; rewrite ?length_app, ?length_drop; lia.
    + apply set_current_sim; [done|]. apply set_running_sim. destruct Hs. constructor; cbn; first [done|congruence].
  - intros [[st rp] c3] [[st' rp'] c3'] H3 _ [Heq Hs3]. cbn in Heq, Hs3. simplify_eq. rewrite <- Hrep.
    split; cbn [fst snd]; [by rewrite (sim_outputc _ _ Hs3), (sim_outputv _ _ Hs3)|].
    unfold cleanup. apply set_current_sim; [apply Hs|].
    assert (forall d d', sim d d' -> sim (set_running false (hash_of (pp_pid pp), k) (set_outputs (protoop_outputc_callee c)
        (take (Z.to_nat (protoop_outputc_callee c)) (protoop_outputv c) ++ drop (Z.to_nat (protoop_outputc_callee c)) (protoop_outputv d)) d))
      (set_running false (hash_of (pp_pid pp), k) (set_outputs (protoop_outputc_callee c')
        (take (Z.to_nat (protoop_outputc_callee c')) (protoop_outputv c') ++ drop (Z.to_nat (protoop_outputc_callee c')) (protoop_outputv d')) d'))) as Hout.
    { intros d d' Hd. apply set_running_sim. rewrite (sim_outputc _ _ Hs), (sim_outputv _ _ Hs), (sim_outputv _ _ Hd).
      destruct Hd. by constructor. }
    assert (sim (set_inputs (protoop_inputc c) (take (Z.to_nat (protoop_inputc c)) (protoop_inputv c) ++ drop (Z.to_nat (protoop_inputc c)) (protoop_inputv c3)) c3)
      (set_inputs (protoop_inputc c') (take (Z.to_nat (protoop_inputc c')) (protoop_inputv c') ++ drop (Z.to_nat (protoop_inputc c')) (protoop_inputv c3')) c3')) as Hin.
    { rewrite (sim_inputc _ _ Hs), (sim_inputv _ _ Hs), (sim_inputv _ _ Hs3). destruct Hs3. by constructor. }
    apply Hout in Hin. case_match; [|exact Hin]. destruct Hin. by constructor.
Qed.
End Simulation.

Lemma run_sim fuel : forall pp c c', args_wf c -> sim c c' ->
  osim result_sim (plugin_run_protoop_internal fuel pp c) (plugin_run_protoop_internal fuel pp c').
Proof.
  induction fuel as [|fuel IH]; intros pp c c' Hw Hs; [done|]. cbn [plugin_run_protoop_internal].
  apply run_once_sim; [apply run_restores|exact IH|done|done].
Qed.

(** ** A reference: a stack of frames

    Each call has its own arguments and results, the table does not change and the operations that run
    are on a stack.  A body that reads an argument it was not given, or leaves more than 16 results,
    has no meaning here: [Overrun].  The return value that observers may read is one register. *)
Record frame := Frame { fr_inputs : list Z; fr_outputs : list Z }.

Section Frames.
Variable call : protoop_params -> Z * U -> outcome (Z * list Z * (Z * U)).

Definition frame_set_output (i : nat) (v : Z) (fr : frame) : outcome frame :=
  let n := length (fr_outputs fr) in
  if (n <? i)%nat then Done fr
  else if (16 <=? i)%nat then Overrun
  else Done (Frame (fr_inputs fr) (if (i =? n)%nat then fr_outputs fr ++ [v] else <[i := v]> (fr_outputs fr))).

(** An argument or result, 0 when there is none. *)
Definition frame_nth (i : nat) (l : list Z) : Z := nth i l 0.

Fixpoint frame_exec (p : prog) (fr : frame) (s : Z * U) : outcome (Z * frame * (Z * U)) :=
  match p with
  | Return status => Done (status, fr, s)
  | ReadInput i k => match fr_inputs fr !! i with Some v => frame_exec (k v) fr s | None => Overrun end
  | GetInput i k => frame_exec (k (frame_nth i (fr_inputs fr))) fr s
  | GetOutput i k => frame_exec (k (frame_nth i (fr_outputs fr))) fr s
  | SetOutput i v k => let? fr := frame_set_output i v fr in frame_exec k fr s
  | SaveOutputs vs k =>
      if PROTOOPARGS_MAX <? Z.of_nat (length vs) then Overrun else frame_exec k (Frame (fr_inputs fr) vs) s
  | ReturnValue k => frame_exec (k (fst s)) fr s
  | RunProtoop pp k => let? r := call pp s in let '(status, outs, s) := r in frame_exec (k status outs) fr s
  | Effect f k => frame_exec (k (snd s)) fr (fst s, f (snd s))
  end.

Fixpoint frame_observers (l : list pluglet) (fr : frame) (s : Z * U) : outcome (frame * (Z * U)) :=
  match l with
  | [] => Done (fr, s)
  | o :: l => let? r := frame_exec (pluglet_code o) fr s in let '(_, fr, s) := r in frame_observers l fr s
  end.

Definition frame_operation (popst : param_struct) (fr : frame) (s : Z * U) : outcome (Z * frame * (Z * U)) :=
  match replace popst, core popst with
  | Some r, _ => frame_exec (pluglet_code r) fr s
  | None, Some f => frame_exec f fr s
  | None, None => Fatal
  end.

Definition frame_popst (popst : param_struct) (fr : frame) (s : Z * U) : outcome (Z * frame * U) :=
  let? r := frame_observers (pre popst) fr s in
  let '(fr, s) := r in
  let? r := frame_operation popst fr s in
  let '(status, fr, s) := r in
  let s := match post popst with [] => s | _ => (status, snd s) end in
  let? r := frame_observers (post popst) fr s in
  Done (status, fst r, snd (snd r)).
End Frames.

Fixpoint frame_run (o : gmap Z protoop_struct) (fuel : nat) (stack : list (Z * option Z)) (pp : protoop_params) (s : Z * U)
    : outcome (Z * list Z * (Z * U)) :=
  match fuel with
  | O => OutOfFuel
  | S fuel =>
      if PROTOOPARGS_MAX <? Z.of_nat (length (pp_inputv pp)) then Done (TOO_MANY_ARGUMENTS, [], s)
      else
        let h := hash_of (pp_pid pp) in
        match o !! h with
        | None => Fatal
        | Some ps =>
            match find_popst pp ps with
            | None => NullPointer
            | Some (k, popst) =>
                if negb (Bool.eqb (pp_caller_is_intern pp) (intern popst)) then Fatal
                else if bool_decide ((h, k) ∈ stack) then Fatal
                else
                  let? r := frame_popst (frame_run o fuel ((h, k) :: stack)) popst (Frame (pp_inputv pp) []) s in
                  let '(status, fr, u) := r in
                  Done (status, if pp_outputv_given pp then fr_outputs fr else [], (0, u))
            end
        end
  end.

(** The flags of the table say what is on the stack. *)
Definition with_running (b : bool) (s : param_struct) : param_struct :=
  ParamStruct (param s) (core s) (replace s) (intern s) b (pre s) (post s).

Definition mark (a : Z * option Z) (o : gmap Z protoop_struct) : gmap Z protoop_struct :=
  alter (fun ps => ProtoopStruct (op_id ps) (set_running_params true (snd a) (op_params_of ps))) (fst a) o.

Definition marked (o : gmap Z protoop_struct) (stack : list (Z * option Z)) : gmap Z protoop_struct := foldr mark o stack.

Lemma mark_lookup a o h :
  mark a o !! h = (fun ps => if decide (h = fst a) then ProtoopStruct (op_id ps) (set_running_params true (snd a) (op_params_of ps)) else ps) <$> o !! h.
Proof.
  unfold mark. case_decide as Hd; [subst; by rewrite lookup_alter_eq|]. rewrite lookup_alter_ne by done. by destruct (o !! h).
Qed.

Definition mark_found (h : Z) (stack : list (Z * option Z)) (r : option Z * param_struct) : option Z * param_struct :=
  (fst r, with_running (running (snd r) || bool_decide ((h, fst r) ∈ stack)) (snd r)).

Lemma with_running_orb b s : with_running (running s || b) s = if b then with_running true s else s.
Proof. destruct s, b; unfold with_running; cbn; by rewrite ?orb_true_r, ?orb_false_r. Qed.

Definition get_param (k : option Z) (x : op_params) : option param_struct :=
  match x, k with NotParametrable s, None => Some s | Parametrable m, Some k => m !! k | _, _ => None end.

Definition key_used (pp : protoop_params) (x : op_params) : option Z :=
  match x with
  | NotParametrable _ => None
  | Parametrable m => Some (if bool_decide (is_Some (m !! pp_param pp)) then pp_param pp else NO_PARAM)
  end.

Lemma find_popst_key pp ps :
  find_popst pp ps = pair (key_used pp (op_params_of ps)) <$> get_param (key_used pp (op_params_of ps)) (op_params_of ps).
Proof.
  unfold find_popst, key_used, get_param. destruct (op_params_of ps) as [s|m]; [done|].
  destruct (m !! pp_param pp) as [s|] eqn:Hm.
  - rewrite bool_decide_eq_true_2 by done. by rewrite Hm.
  - by rewrite bool_decide_eq_false_2 by (by intros [? ?]).
Qed.

Lemma key_used_running pp k x : key_used pp (set_running_params true k x) = key_used pp x.
Proof.
  destruct x as [s|m], k as [k|]; cbn; try done. f_equal.
  rewrite (bool_decide_ext _ (is_Some (m !! pp_param pp))); [done|apply lookup_alter_is_Some].
Qed.

Lemma get_param_running k k' x :
  get_param k (set_running_params true k' x) = (fun s => with_running (running s || bool_decide (k = k')) s) <$> get_param k x.
Proof.
  destruct x as [s|m], k as [k|], k' as [k'|]; cbn; try done.
  - by rewrite with_running_orb.
  - by rewrite with_running_orb.
  - destruct (decide (k = k')) as [->|Hk].
    + rewrite lookup_alter_eq, bool_decide_eq_true_2 by done. destruct (m !! k'); cbn; [|done]. by rewrite orb_true_r.
    + rewrite lookup_alter_ne, bool_decide_eq_false_2 by congruence. destruct (m !! k); cbn; [|done]. by rewrite with_running_orb.
  - destruct (m !! k); cbn; [|done]. by rewrite with_running_orb.
Qed.

Lemma find_mark pp h' k' h ps :
  find_popst pp (if decide (h = h') then ProtoopStruct (op_id ps) (set_running_params true k' (op_params_of ps)) else ps)
  = mark_found h [(h', k')] <$> find_popst pp ps.
Proof.
  rewrite !find_popst_key. unfold mark_found. case_decide as Hd.
  - cbn. rewrite key_used_running, get_param_running. set (k := key_used _ _). destruct (get_param k (op_params_of ps)); [|done].
    cbn. do 4 f_equal. apply bool_decide_ext. rewrite list_elem_of_singleton. naive_solver.
  - set (k := key_used _ _). destruct (get_param k (op_params_of ps)); [|done]. cbn. do 2 f_equal.
    rewrite bool_decide_eq_false_2 by (rewrite list_elem_of_singleton; congruence). by rewrite with_running_orb.
Qed.

Lemma find_marked pp o stack h :
  match o !! h with
  | None => marked o stack !! h = None
  | Some ps => exists ps', marked o stack !! h = Some ps' /\ find_popst pp ps' = mark_found h stack <$> find_popst pp ps
  end.
Proof.
  induction stack as [|[h' k'] stack IH]; cbn [marked foldr].
  - destruct (o !! h) as [ps|]; [|done]. exists ps. split; [done|]. destruct (find_popst pp ps) as [[k s]|]; [|done].
    unfold mark_found. cbn. by rewrite with_running_orb.
  - rewrite mark_lookup. fold (marked o stack). destruct (o !! h) as [ps|]; [|by rewrite IH].
    destruct IH as (ps' & -> & Hf). eexists. split; [done|]. cbn [fst snd]. rewrite find_mark, Hf.
    destruct (find_popst pp ps) as [[k s]|]; [|done]. unfold mark_found, with_running. cbn. do 3 f_equal.
    rewrite <- orb_assoc. f_equal. rewrite orb_comm, <- bool_decide_or. apply bool_decide_ext.
    rewrite !elem_of_cons, elem_of_nil. tauto.
Qed.

(** ** The shared arrays implement the frames *)

(** The same outcome as the reference, where that has one. *)
Definition refines {A B} (R : A -> B -> Prop) (m : outcome A) (m' : outcome B) : Prop :=
  match m, m' with
  | Overrun, _ => True
  | Done a, Done b => R a b
  | Fatal, Fatal | NullPointer, NullPointer | OutOfFuel, OutOfFuel => True
  | _, _ => False
  end.

Lemma refines_bind {A B A' B'} (R : A -> A' -> Prop) (S : B -> B' -> Prop) m m' (k : A -> outcome B) (k' : A' -> outcome B') :
  refines R m m' -> (forall a a', m' = Done a' -> R a a' -> refines S (k a) (k' a')) -> refines S (obind m k) (obind m' k').
Proof. destruct m, m'; cbn; try done. intros HR H. by apply H. Qed.

(** The current frame, the return value and the other fields are in the connection. *)
Definition holds (o : gmap Z protoop_struct) (fr : frame) (s : Z * U) (c : cnx) : Prop :=
  args_wf c /\ ops c = o /\ inputs c = fr_inputs fr /\ outputs c = fr_outputs fr /\ protoop_output c = fst s /\ rest c = snd s.

Lemma holds_inputc o fr s c : holds o fr s c -> protoop_inputc c = Z.of_nat (length (fr_inputs fr)).
Proof. intros ((Hi&_&?&_)&_&<-&_). unfold inputs. rewrite length_take. lia. Qed.

Lemma holds_outputc o fr s c : holds o fr s c -> protoop_outputc_callee c = Z.of_nat (length (fr_outputs fr)).
Proof. intros ((_&Ho&_&?)&_&_&<-&_). unfold outputs. rewrite length_take. lia. Qed.

Lemma nth_take (l : list Z) n i : nth i (take n l) 0 = if decide (i < n)%nat then nth i l 0 else 0.
Proof. rewrite !nth_lookup, lookup_take. by case_decide. Qed.

Lemma holds_get_input o fr s c i : holds o fr s c -> get_cnx_input i c = frame_nth i (fr_inputs fr).
Proof.
  intros ((_&_&?&_)&_&<-&_). unfold get_cnx_input, frame_nth, inputs. rewrite nth_take.
  case_match eqn:Hi; case_decide; rewrite ?Z.leb_gt, ?Z.leb_le in Hi; try done; lia.
Qed.

Lemma holds_get_output o fr s c i : holds o fr s c -> get_cnx_output i c = frame_nth i (fr_outputs fr).
Proof.
  intros ((_&_&_&?)&_&_&<-&_). unfold get_cnx_output, frame_nth, outputs. rewrite nth_take.
  case_match eqn:Hi; case_decide; rewrite ?Z.leb_gt, ?Z.leb_le in Hi; try done; lia.
Qed.

Lemma holds_save_outputs o fr s c vs :
  holds o fr s c -> (PROTOOPARGS_MAX <? Z.of_nat (length vs)) = false ->
  exists c', protoop_save_outputs vs c = Done c' /\ holds o (Frame (fr_inputs fr) vs) s c'.
Proof.
  intros H Hn. unfold protoop_save_outputs. rewrite Hn. eexists. split; [done|]. unfold PROTOOPARGS_MAX in Hn.
  apply Z.ltb_ge in Hn. destruct H as ((?&?&?&?)&?&?&?&?&?). unfold holds, outputs, inputs. cbn.
  rewrite Nat2Z.id, take_app_length. split_and!; try done.
  repeat split; cbn; rewrite ?length_app, ?length_drop; lia.
Qed.

Lemma holds_set_output o fr s c i v :
  holds o fr s c -> refines (fun fr' c' => holds o fr' s c') (frame_set_output i v fr) (set_cnx_output i v c).
Proof.
  intros H. pose proof (holds_outputc _ _ _ _ H) as Hc. unfold frame_set_output, set_cnx_output, PROTOOPARGS_MAX. rewrite Hc.
  destruct (Nat.ltb_spec (length (fr_outputs fr)) i), (Z.ltb_spec (Z.of_nat (length (fr_outputs fr))) (Z.of_nat i)); try lia; [done|].
  destruct (Nat.leb_spec 16 i), (Z.leb_spec 16 (Z.of_nat i)); try lia; [done|].
  destruct H as (Hw&?&?&Hout&?&?). pose proof Hw as (?&Hl&?&?). cbn. unfold holds, outputs, inputs in *. cbn.
  destruct (Nat.eqb_spec i (length (fr_outputs fr))) as [Hi|Hi], (Z.eqb_spec (Z.of_nat i) (Z.of_nat (length (fr_outputs fr)))); try lia;
    (split_and!; [repeat split; cbn; rewrite ?length_insert; lia|done|done| |done|done]).
  - replace (Z.to_nat (Z.of_nat (length (fr_outputs fr)) + 1)) with (S i) by lia.
    rewrite (take_S_r _ _ v) by (apply list_lookup_insert_eq; lia). f_equal. rewrite take_insert_ge by lia.
    etransitivity; [|exact Hout]. f_equal. lia.
  - rewrite take_insert_lt by lia. f_equal. etransitivity; [|exact Hout]. f_equal. lia.
Qed.

Section Refinement.
Variable o : gmap Z protoop_struct.
Variable fcall : protoop_params -> Z * U -> outcome (Z * list Z * (Z * U)).
Variable call : protoop_params -> cnx -> outcome (Z * list Z * cnx).
Hypothesis call_restores : forall pp c st out c', args_wf c -> call pp c = Done (st, out, c') -> restored c c'.

(** Results agree, and so do the return value and the other fields. *)
Definition call_result (r : Z * list Z * (Z * U)) (r' : Z * list Z * cnx) : Prop :=
  let '(st, out, s) := r in let '(st', out', c') := r' in
  st = st' /\ out = out' /\ protoop_output c' = fst s /\ rest c' = snd s.
Hypothesis call_refines : forall pp c s,
  args_wf c -> ops c = o -> protoop_output c = fst s -> rest c = snd s -> refines call_result (fcall pp s) (call pp c).

Definition exec_result (r : Z * frame * (Z * U)) (r' : Z * cnx) : Prop :=
  let '(st, fr, s) := r in st = fst r' /\ holds o fr s (snd r').

Lemma exec_refines p : forall fr s c, holds o fr s c -> refines exec_result (frame_exec fcall p fr s) (exec call p c).
Proof.
  induction p as [st|i k IH|i k IH|i k IH|i v k IH|vs k IH|k IH|pp k IH|f k IH]; cbn [exec frame_exec]; intros fr s c H.
  - done.
  - destruct (fr_inputs fr !! i) as [v|] eqn:Hv; [|done]. pose proof H as (_&_&Hin&_). rewrite <- Hin in Hv.
    unfold inputs in Hv. apply lookup_take_Some in Hv as [-> _]. by apply IH.
  - rewrite (holds_get_input _ _ _ _ i H). by apply IH.
  - rewrite (holds_get_output _ _ _ _ i H). by apply IH.
  - eapply refines_bind; [by apply holds_set_output|]. intros fr' c' _ H'. by apply IH.
  - destruct (PROTOOPARGS_MAX <? _) eqn:Hn; [done|]. destruct (holds_save_outputs _ _ _ _ vs H Hn) as (c' & -> & H'). by apply IH.
  - pose proof H as (_&_&_&_&->&_). by apply IH.
  - pose proof H as (Hw&Ho&Hi&Hout&Hr&Hu). eapply refines_bind; [by apply call_refines|].
    intros [[st out] s'] [[st' out'] c'] Hc (->&->&Hr'&Hu'). apply IH.
    destruct (call_restores _ _ _ _ _ Hw Hc) as ((?&?&?&?&?)&?&?&?&?). unfold holds. split_and!; congruence.
  - pose proof H as (Hw&Ho&Hi&Hout&Hr&Hu). rewrite Hu. apply IH. by unfold holds.
Qed.

Lemma observers_refine anchor l : forall fr s c, holds o fr s c ->
  refines (fun r c' => holds o (fst r) (snd r) c') (frame_observers fcall l fr s) (run_observers call anchor l c).
Proof.
  induction l as [|p l IH]; cbn [frame_observers run_observers]; intros fr s c H; [done|].
  eapply refines_bind; [by apply exec_refines|]. intros [[st fr'] s'] [st' c'] _ [_ H']. by apply IH.
Qed.

Lemma operation_refines popst fr s c : holds o fr s c ->
  refines (fun r r' => let '(st, fr, s) := r in st = fst (fst r') /\ holds o fr s (snd r'))
    (frame_operation fcall popst fr s) (run_operation call popst c).
Proof.
  intros H. unfold frame_operation, run_operation.
  destruct (replace popst) as [r|]; [|destruct (core popst) as [f|]; [|done]].
  - pose proof (exec_refines (pluglet_code r) fr s (set_current (current_protoop c) pluglet_replace (Some (pluglet_p r)) c) H) as He.
    destruct (frame_exec _ _ _ _) as [[[st fr'] s']| | | |], (exec _ _ _) as [[st' c']| | | |]; cbn in *; try done.
  - pose proof (exec_refines f fr s (set_current (current_protoop c) (current_anchor c) None c) H) as He.
    destruct (frame_exec _ _ _ _) as [[[st fr'] s']| | | |], (exec _ _ _) as [[st' c']| | | |]; cbn in *; try done.
Qed.

Lemma popst_refines popst fr s c : holds o fr s c ->
  refines (fun r r' => let '(st, fr, u) := r in st = fst (fst r') /\ holds o fr (0, u) (snd r'))
    (frame_popst fcall popst fr s) (run_popst call popst c).
Proof.
  intros H. unfold frame_popst, run_popst. eapply refines_bind; [by apply observers_refine|].
  intros [fr1 s1] c1 _ H1. eapply refines_bind; [by apply operation_refines|].
  intros [[st fr2] s2] [[st' rp] c2] _ [Heq H2]. cbn in Heq. subst st'.
  eapply refines_bind; [apply observers_refine|].
  - destruct (post popst); [exact H2|]. destruct H2 as (?&?&?&?&?&?). by unfold holds.
  - intros [fr3 s3] c3 _ (?&?&?&?&?&?). split; [done|]. by unfold holds.
Qed.
End Refinement.

Definition all_idle (o : gmap Z protoop_struct) : Prop :=
  forall a popst, lookup_popst a o = Some popst -> running popst = false.

Lemma run_popst_running call b popst c : run_popst call (with_running b popst) c = run_popst call popst c.
Proof. done. Qed.

Lemma run_refines o : all_idle o -> forall fuel stack pp s c,
  args_wf c -> ops c = marked o stack -> protoop_output c = fst s -> rest c = snd s ->
  refines call_result (frame_run o fuel stack pp s) (plugin_run_protoop_internal fuel pp c).
Proof.
  intros Hidle. induction fuel as [|fuel IH]; intros stack pp s c Hw Ho Hr Hu; [done|].
  cbn [frame_run plugin_run_protoop_internal]. unfold run_protoop_once.
  destruct (PROTOOPARGS_MAX <? Z.of_nat (length (pp_inputv pp))) eqn:Hn; [done|]. unfold PROTOOPARGS_MAX in Hn. apply Z.ltb_ge in Hn.
  pose proof (find_marked pp o stack (hash_of (pp_pid pp))) as Hf. rewrite Ho. destruct (o !! hash_of (pp_pid pp)) as [ps|] eqn:Hps; [|by rewrite Hf].
  destruct Hf as (ps' & -> & ->). destruct (find_popst pp ps) as [[k popst]|] eqn:Hfp; [|done]. cbn [fmap option_fmap option_map mark_found fst snd].
  rewrite (Hidle (hash_of (pp_pid pp), k) popst (find_popst_lookup _ _ _ _ _ _ Hps Hfp)). cbn [orb with_running intern running].
  case_match; [done|]. case_match; [done|]. rewrite run_popst_running.
  eapply refines_bind.
  - apply (popst_refines (marked o ((hash_of (pp_pid pp), k) :: stack))).
    + apply run_restores.
    + intros pp' c' s' Hw' Ho' Hr' Hu'. by apply IH.
    + destruct Hw as (?&?&?&?). unfold holds, inputs, outputs. cbn. rewrite Nat2Z.id, take_app_length, Ho.
      split_and!; try done. repeat split; cbn; rewrite ?length_app, ?length_drop; lia.
  - intros [[st fr] u] [[st' rp] c3] _ [Heq (?&?&?&Hout&?&?)]. cbn in Heq, Hout. subst st'. cbn.
    split_and!; [done| |by unfold cleanup; case_match|by unfold cleanup; case_match].
    fold (outputs c3). by rewrite Hout.
Qed.

(** ** Plugging *)

(** A structure under its key; what only the application may call has no observers and no function of the program. *)
Definition popst_ok (k : option Z) (s : param_struct) : Prop :=
  param s = default NO_PARAM k /\ running s = false
  /\ (intern s = false -> core s = None /\ pre s = [] /\ post s = []).

Definition params_ok (x : op_params) : Prop := forall k s, get_param k x = Some s -> popst_ok k s.
Definition ops_ok (o : gmap Z protoop_struct) : Prop := map_Forall (fun _ ps => params_ok (op_params_of ps)) o.

Lemma ops_ok_idle o : ops_ok o -> all_idle o.
Proof.
  intros Ho [h k] s Hl. unfold lookup_popst in Hl. cbn in Hl. destruct (o !! h) as [ps|] eqn:Hp; [|done].
  destruct (Ho h ps Hp k s) as (_&H&_); [|done]. cbn in Hl. unfold get_param. by destruct (op_params_of ps), k.
Qed.

Lemma params_ok_insert k s m : params_ok (Parametrable m) -> popst_ok (Some k) s -> params_ok (Parametrable (<[k := s]> m)).
Proof.
  intros Hm Hs [j|] s' H; [|done]. cbn in H. destruct (decide (j = k)) as [->|].
  - rewrite lookup_insert_eq in H. by simplify_eq.
  - rewrite lookup_insert_ne in H by done. by apply (Hm (Some j)).
Qed.

Lemma params_ok_delete k m : params_ok (Parametrable m) -> params_ok (Parametrable (delete k m)).
Proof. intros Hm [j|] s H; [|done]. cbn in H. apply lookup_delete_Some in H as [_ H]. by apply (Hm (Some j)). Qed.

Lemma params_ok_single s : popst_ok None s -> params_ok (NotParametrable s).
Proof. intros Hs [j|] s' H; [done|]. cbn in H. by simplify_eq. Qed.

Lemma create_struct_ok k op : popst_ok k (create_protocol_operation_param (default NO_PARAM k) op).
Proof. by split_and!. Qed.

Lemma register_noparam_ok pid op c : ops_ok (ops c) -> ops_ok (ops (snd (register_noparam_protoop pid op c))).
Proof.
  intros H. unfold register_noparam_protoop. case_match; [done|]. cbn. apply map_Forall_insert_2; [|done].
  apply params_ok_single, (create_struct_ok None).
Qed.

Lemma register_param_ok pid param op c : ops_ok (ops c) -> ops_ok (ops (snd (register_param_protoop pid param op c))).
Proof.
  intros H. unfold register_param_protoop. destruct (ops c !! hash_of pid) as [[id [s|m]]|] eqn:Hp; [done|..].
  - case_match; [done|]. cbn. apply map_Forall_insert_2; [|done]. apply params_ok_insert; [exact (H _ _ Hp)|apply (create_struct_ok (Some param))].
  - cbn. apply map_Forall_insert_2; [|done]. rewrite <- (insert_empty (M := gmap Z)). apply params_ok_insert; [by intros [?|] ? ?|].
    apply (create_struct_ok (Some param)).
Qed.

Lemma extern_guard s :
  (bool_decide (is_Some (core s)) || negb (bool_decide (pre s = [])) || negb (bool_decide (post s = [])))%bool = false ->
  core s = None /\ pre s = [] /\ post s = [].
Proof.
  rewrite !orb_false_iff, !negb_false_iff, !bool_decide_eq_true, bool_decide_eq_false. intros [[Hc ?] ?].
  split_and!; [|done|done]. by apply eq_None_not_Some.
Qed.

Lemma plug_struct_ok load k s p pte fname s' :
  popst_ok k s -> plugin_plug_elf_param_struct load s p pte fname = Some s' -> popst_ok k s'.
Proof.
  intros (Hk&Hr&Hi) H. unfold plugin_plug_elf_param_struct in H.
  set (g := (bool_decide (is_Some (core s)) || negb (bool_decide (pre s = [])) || negb (bool_decide (post s = [])))%bool) in H.
  destruct (g) eqn:Hg, (intern s) eqn:Hint, pte; cbn in H; repeat (case_match; try done); simplify_eq;
    unfold popst_ok; cbn; rewrite ?Hint; (split_and!; [done|done|]); try done; try (by intros; apply Hi).
  intros _. by apply extern_guard.
Qed.

Lemma plug_ok load p pid param pte fname c :
  ops_ok (ops c) -> ops_ok (ops (snd (plugin_plug_elf load p pid param pte fname c))).
Proof.
  intros H. unfold plugin_plug_elf. set (reg := match ops c !! hash_value_str pid with Some _ => _ | None => _ end).
  assert (ops_ok (ops (snd reg))) as Hreg.
  { subst reg. destruct (ops c !! hash_value_str pid); [done|].
    destruct (param =? NO_PARAM); [by apply register_noparam_ok|by apply register_param_ok]. }
  destruct reg as [err c1]. cbn [snd] in Hreg. destruct err; [exact Hreg|].
  destruct (ops c1 !! hash_value_str pid) as [ps|] eqn:Hp; [|exact Hreg].
  destruct (if param =? NO_PARAM then _ else _) as [ps'|] eqn:Hplug; [|exact Hreg].
  cbn. apply map_Forall_insert_2; [|done]. specialize (Hreg _ _ Hp). cbn in Hreg.
  destruct (param =? NO_PARAM); unfold plugin_plug_elf_noparam, plugin_plug_elf_param in Hplug;
    destruct (op_params_of ps) as [s|m]; try done; case_match eqn:Hs; try done; simplify_eq; cbn.
  - apply params_ok_single. eapply plug_struct_ok, Hs. by apply (Hreg None).
  - apply params_ok_insert; [done|]. eapply plug_struct_ok, Hs. destruct (m !! param) eqn:Hm; cbn; [by apply (Hreg (Some param))|].
    apply (create_struct_ok (Some param)).
Qed.

Lemma unplug_struct_ok k s pte s' : popst_ok k s -> unplug_param_struct s pte = Some s' -> popst_ok k s'.
Proof.
  intros (Hk&Hr&Hi) H. unfold unplug_param_struct in H.
  destruct pte; repeat (case_match; try done); simplify_eq; unfold popst_ok; cbn; split_and!; try done;
    intros Hf; destruct (Hi Hf) as (?&?&?); congruence.
Qed.

Lemma unplug_ok pid param pte c : ops_ok (ops c) -> ops_ok (ops (snd (plugin_unplug pid param pte c))).
Proof.
  intros H. unfold plugin_unplug. destruct (find_str (ops c) pid) as [[h ps]|] eqn:Hf; [|done].
  assert (ops c !! h = Some ps) as Hp.
  { unfold find_str in Hf. repeat case_match; try done. destruct (ops c !! _) eqn:Hk; by simplify_eq/=. }
  specialize (H _ _ Hp) as Hps. cbn in Hps. destruct (op_params_of ps) as [s|m].
  - case_match; [done|]. destruct (unplug_param_struct s pte) as [s'|] eqn:Hs; [|done]. case_match; cbn.
    + by apply map_Forall_delete.
    + apply map_Forall_insert_2; [|done]. apply params_ok_single. eapply unplug_struct_ok, Hs. by apply (Hps None).
  - case_match; [done|]. destruct (m !! param) as [s|] eqn:Hm; [|done].
    destruct (unplug_param_struct s pte) as [s'|] eqn:Hs; [|done]. cbn. apply map_Forall_insert_2; [|done]. cbn.
    case_match; [by apply params_ok_delete|]. apply params_ok_insert; [done|]. eapply unplug_struct_ok, Hs. by apply (Hps (Some param)).
Qed.

(** What happens to a connection: registrations, pluglets that come and go, calls that return. *)
Inductive protoops_step (load : string -> option prog) : cnx -> cnx -> Prop :=
| step_register_noparam pid op c : protoops_step load c (snd (register_noparam_protoop pid op c))
| step_register_param pid param op c : protoops_step load c (snd (register_param_protoop pid param op c))
| step_plug p pid param pte fname c : protoops_step load c (snd (plugin_plug_elf load p pid param pte fname c))
| step_unplug pid param pte c : protoops_step load c (snd (plugin_unplug pid param pte c))
| step_call fuel pp st out c c' : plugin_run_protoop_internal fuel pp c = Done (st, out, c') -> protoops_step load c c'.

Lemma args_wf_set_ops o c : args_wf c -> args_wf (set_ops o c).
Proof. done. Qed.

Lemma plug_args_wf load p pid param pte fname c : args_wf c -> args_wf (snd (plugin_plug_elf load p pid param pte fname c)).
Proof.
  intros H. unfold plugin_plug_elf, register_noparam_protoop, register_param_protoop. by repeat (case_match; simplify_eq/=; try done).
Qed.

Lemma step_keeps load c c' : protoops_step load c c' -> args_wf c /\ ops_ok (ops c) -> args_wf c' /\ ops_ok (ops c').
Proof.
  intros Hs [Hw Ho]. destruct Hs as [pid op c|pid param op c|p pid param pte fname c|pid param pte c|fuel pp st out c c' H].
  - split; [|by apply register_noparam_ok]. unfold register_noparam_protoop. by case_match.
  - split; [|by apply register_param_ok]. unfold register_param_protoop. by repeat case_match.
  - split; [by apply plug_args_wf|by apply plug_ok].
  - split; [|by apply unplug_ok]. unfold plugin_unplug. by repeat (case_match; try done).
  - apply run_restores in H as ((Hops&_&_&_&Hw')&_); [|done]. by rewrite Hops.
Qed.

(** ** Plugged observers *)

(** The key of the structure that [plugin_plug_elf] uses. *)
Definition plug_key (param : Z) : option Z := if param =? NO_PARAM then None else Some param.

Definition is_observer (pte : pluglet_type_enum) : bool :=
  match pte with pluglet_pre | pluglet_post => true | _ => false end.

Lemma ops_sim_insert h ps ps' o : o !! h = Some ps -> op_sim ps ps' -> ops_sim o (<[h := ps']> o).
Proof.
  intros Hps Hsim j. destruct (decide (j = h)) as [->|]; [rewrite lookup_insert_eq, Hps; by constructor|].
  rewrite lookup_insert_ne by done. destruct (o !! j); constructor. apply op_sim_refl.
Qed.

Lemma plug_struct_sim load s p pte fname code s' :
  load fname = Some code -> passive code -> is_observer pte = true ->
  plugin_plug_elf_param_struct load s p pte fname = Some s' -> popst_sim s s'.
Proof.
  intros Hl Hc Hp H. unfold plugin_plug_elf_param_struct in H. rewrite Hl in H.
  destruct pte; try done; repeat (case_match; try done); simplify_eq; unfold popst_sim; cbn; split_and!; try done;
    try apply adds_passive_refl; (apply adds_new; [done|apply adds_passive_refl]).
Qed.

Lemma plug_sim load p pid param pte fname code popst c c' :
  load fname = Some code -> passive code -> is_observer pte = true ->
  lookup_popst (hash_value_str pid, plug_key param) (ops c) = Some popst ->
  plugin_plug_elf load p pid param pte fname c = (false, c') -> sim c c'.
Proof.
  intros Hl Hc Hp Hlook H. unfold plugin_plug_elf in H. unfold lookup_popst, plug_key in Hlook. cbn [fst snd] in Hlook.
  destruct (ops c !! hash_value_str pid) as [ps|] eqn:Hps; [|done]. cbn in Hlook. cbv beta iota zeta in H. rewrite Hps in H.
  destruct (if param =? NO_PARAM then _ else _) as [ps'|] eqn:Hplug in H; [|done]. simplify_eq. constructor; try done.
  cbn. eapply ops_sim_insert; [done|].
  destruct (param =? NO_PARAM); unfold plugin_plug_elf_noparam, plugin_plug_elf_param in Hplug;
    destruct (op_params_of ps) as [s|m] eqn:Hpar; try done; case_match eqn:Hs; try done; simplify_eq; split; try done; cbn;
    rewrite Hpar; cbn.
  - by eapply plug_struct_sim.
  - rewrite Hlook in Hs. cbn in Hs. intros k. destruct (decide (k = param)) as [->|].
    + rewrite lookup_insert_eq, Hlook. constructor. by eapply plug_struct_sim.
    + rewrite lookup_insert_ne by done. destruct (m !! k); constructor. apply popst_sim_refl.
Qed.

(** A call clears the return value that observers read. *)
Lemma run_clears_output fuel pp c st out c' : Z.of_nat (length (pp_inputv pp)) <= 16 ->
  plugin_run_protoop_internal fuel pp c = Done (st, out, c') -> protoop_output c' = 0.
Proof.
  intros Hn H. destruct fuel; [done|]. cbn [plugin_run_protoop_internal] in H. unfold run_protoop_once, PROTOOPARGS_MAX in H.
  rewrite (proj2 (Z.ltb_ge _ _) Hn) in H. destruct (ops c !! _) as [ps|]; [|done].
  destruct (find_popst pp ps) as [[k popst]|]; [|done]. case_match; [done|]. case_match; [done|].
  unfold run_popst in H. odone. unfold cleanup. destruct (_ || _)%bool; done.
Qed.

(** Taking a pluglet off gives the structure back. *)
Lemma unplug_plug load s p pte fname s' :
  pte <> pluglet_extern -> plugin_plug_elf_param_struct load s p pte fname = Some s' -> unplug_param_struct s' pte = Some s.
Proof.
  intros Hp H. unfold plugin_plug_elf_param_struct in H.
  destruct pte; try done; cbn in H; repeat (case_match; try done); simplify_eq; cbn; try (by destruct s).
  apply bool_decide_eq_false, eq_None_not_Some in H0. destruct s; cbn in *. by subst.
Qed.

(** C7. Calls through the connection behave as calls with frames of their own.  From any state in
    which no operation runs, [plugin_run_protoop_internal] gives the outcome of [frame_run]: the same
    status and results, the same effect on the rest of the connection, the same fatal errors (an
    unknown operation, a call loop, a caller of the wrong kind), unless a body reads an argument it
    was not given or leaves more than 16 results.  When it returns, the caller's arguments, results,
    plugin and anchor and the whole table are as they were. *)
Theorem protoop_calls_are_frames fuel pp c :
  args_wf c -> ops_ok (ops c) ->
  refines call_result (frame_run (ops c) fuel [] pp (protoop_output c, rest c)) (plugin_run_protoop_internal fuel pp c)
  /\ forall st out c', plugin_run_protoop_internal fuel pp c = Done (st, out, c') -> restored c c'.
Proof.
  intros Hw Ho. split; [|by intros; eapply run_restores].
  apply (run_refines (ops c) (ops_ok_idle _ Ho) fuel []); done.
Qed.

(** C22. Nested calls of protocol operations end: the depth is at most the number of structures that do
    not run yet, since a structure that runs refuses a second call. *)
Theorem protoop_calls_end fuel pp c :
  args_wf c -> (idle_ops (ops c) < fuel)%nat -> plugin_run_protoop_internal fuel pp c <> OutOfFuel.
Proof. apply run_ends. Qed.

(** C14. Plugging an observer that only reads, on an operation and a parameter for which there is a structure
    already, changes no result: every call, of any operation, that leads to the observed one directly or
    through other pluglets, has the same outcome, status, results and effects as before, and leaves
    connections that differ in the observer only.  (Without a structure for the parameter the default
    behaviour is lost: [observer_hides_default].) *)
Theorem passive_observer_transparent load p pid param pte fname code popst c c' fuel pp :
  args_wf c -> load fname = Some code -> passive code -> is_observer pte = true ->
  lookup_popst (hash_value_str pid, plug_key param) (ops c) = Some popst ->
  plugin_plug_elf load p pid param pte fname c = (false, c') ->
  osim result_sim (plugin_run_protoop_internal fuel pp c) (plugin_run_protoop_internal fuel pp c').
Proof. intros. apply run_sim; [done|]. by eapply plug_sim. Qed.

(** An operation with parameters serves a parameter of which it knows nothing by its default
    behaviour; once an observer is plugged for that parameter, every call with it ends the process. *)
Theorem observer_hides_default load p pid param fname code id m c :
  args_wf c -> load fname = Some code -> passive code -> param <> NO_PARAM ->
  ops c !! hash_value_str pid = Some (ProtoopStruct id (Parametrable m)) -> m !! param = None ->
  exists c', plugin_plug_elf load p pid param pluglet_pre fname c = (false, c')
    /\ forall fuel pp, hash_of (pp_pid pp) = hash_value_str pid -> pp_param pp = param -> Z.of_nat (length (pp_inputv pp)) <= 16 ->
       plugin_run_protoop_internal (S fuel) pp c' = Fatal.
Proof.
  intros Hw Hl Hc Hnp Hps Hm. unfold plugin_plug_elf. rewrite Hps. rewrite Hps.
  rewrite (proj2 (Z.eqb_neq _ _) Hnp). unfold plugin_plug_elf_param. cbn [op_params_of]. rewrite Hm. cbn [default].
  unfold plugin_plug_elf_param_struct. rewrite Hl. cbn. eexists. split; [done|].
  intros fuel pp Hh Hpar Hn. unfold run_protoop_once, PROTOOPARGS_MAX. rewrite (proj2 (Z.ltb_ge _ _) Hn), Hh. cbn [ops set_ops].
  rewrite lookup_insert_eq. unfold find_popst. cbn [op_params_of]. rewrite Hpar, lookup_insert_eq. cbn [intern running].
  case_match; [done|]. unfold run_popst. cbn [pre run_observers pluglet_code]. match goal with |- context [exec ?f code ?d] =>
    destruct (passive_exec f code Hc d) as [st ->] end; [|done].
  destruct Hw as (?&?&?&?). repeat split; cbn; rewrite ?length_app, ?length_drop; lia.
Qed.

(** C25. Whatever is registered, plugged, unplugged and called, the table stays well formed: every structure
    has the parameter of its key, none is marked as running between calls, and what only the application
    may call has neither observers nor a function of the program. *)
Theorem protoops_invariant load c0 c :
  args_wf c0 -> ops c0 = ∅ -> rtc (protoops_step load) c0 c -> args_wf c /\ ops_ok (ops c).
Proof.
  intros Hw Ho Hs. assert (args_wf c0 /\ ops_ok (ops c0)) as H.
  { split; [done|]. rewrite Ho. apply map_Forall_empty. }
  clear Hw Ho. induction Hs as [|c1 c2 c3 H1 _ IH]; [done|]. apply IH. by eapply step_keeps.
Qed.

End Operations.

(** ** Examples

    The rest of the connection is a number here. *)
Definition ex_empty : @cnx Z := Cnx ∅ 0 (replicate 16 0) (replicate 16 0) 0 0 None pluglet_replace None None 0.

Definition name (s : string) : protoop_id := ProtoopId 0 s.
Definition call_of (s : string) (param : Z) (args : list Z) : protoop_params := ProtoopParams (name s) param true args true.

(** [f] counts its calls and gives two results. *)
Definition ex_f : @prog Z := ReadInput 0 (fun x => SaveOutputs [x + 1; x + 2] (Effect (fun u => u + 1) (fun _ => Return x))).
(** [g] calls [f] and reads its own argument again. *)
Definition ex_g : @prog Z :=
  GetInput 0 (fun x => RunProtoop (call_of "f" NO_PARAM [2 * x]) (fun st outs => GetInput 0 (fun y =>
    SetOutput 0 (st + y) (Return (foldr Z.add 0 outs))))).
(** [many] sets seventeen results. *)
Definition ex_many : @prog Z := foldr (fun i k => SetOutput i 1 k) (Return 0) (seq 0 17).
(** [loop] calls itself through [g]'s caller. *)
Definition ex_loop : @prog Z := RunProtoop (call_of "loop" NO_PARAM []) (fun _ _ => Return 0).

Definition ex_register : cnx :=
  snd (register_noparam_protoop (name "loop") (Some ex_loop)
  (snd (register_noparam_protoop (name "many") (Some ex_many)
  (snd (register_param_protoop (name "nodefault") 5 (Some ex_f)
  (snd (register_param_protoop_default (name "h") (Some (Return 7))
  (snd (register_noparam_protoop (name "g") (Some ex_g)
  (snd (register_noparam_protoop (name "f") (Some ex_f) ex_empty))))))))))).

Definition ex_load (fname : string) : option (@prog Z) :=
  if String.eqb fname "look.o" then Some (GetInput 0 (fun _ => Return 0))
  else if String.eqb fname "nested.o" then Some (RunProtoop (call_of "h" NO_PARAM []) (fun _ _ => Return 0))
  else if String.eqb fname "status.o" then Some (ReturnValue (fun v => Effect (fun _ => v) (fun _ => Return 0)))
  else None.

Lemma ex_register_ok : args_wf ex_register /\ ops_ok (ops ex_register).
Proof.
  split; [repeat split; vm_compute; congruence|]. unfold ex_register, register_param_protoop_default.
  repeat match goal with
  | |- ops_ok (ops (snd (register_noparam_protoop ?p ?o ?c))) => apply (register_noparam_ok p o c)
  | |- ops_ok (ops (snd (register_param_protoop ?p ?k ?o ?c))) => apply (register_param_ok p k o c)
  end. apply map_Forall_empty.
Qed.

Lemma ex_initial : (protoop_output ex_register, rest ex_register) = (0, 0).
Proof. by vm_compute. Qed.

(** [g] sees its argument after the call and gives its own result; the call of [f] left its mark. *)
Example ex_call_g :
  frame_run (ops ex_register) 3 [] (call_of "g" NO_PARAM [5]) (0, 0) = Done (23, [15], (0, 1)).
Proof. by vm_compute. Qed.

Lemma protoop_calls_are_frames_witness :
  exists c', plugin_run_protoop_internal 3 (call_of "g" NO_PARAM [5]) ex_register = Done (23, [15], c')
    /\ rest c' = 1 /\ restored ex_register c'.
Proof.
  destruct (protoop_calls_are_frames 3 (call_of "g" NO_PARAM [5]) ex_register (proj1 ex_register_ok) (proj2 ex_register_ok)) as [Href Hres].
  rewrite ex_initial, ex_call_g in Href. destruct (plugin_run_protoop_internal _ _ _) as [[[st out] c']| | | |]; cbn in Href; try done.
  destruct Href as (<-&<-&_&Hr). exists c'. eauto.
Defined.

(** A loop of calls is found at the second entry. *)
Example ex_loop_detected : plugin_run_protoop_internal 3 (call_of "loop" NO_PARAM []) ex_register = Fatal.
Proof. by vm_compute. Qed.

Lemma protoop_calls_end_witness : plugin_run_protoop_internal 7 (call_of "loop" NO_PARAM []) ex_register <> OutOfFuel.
Proof. apply protoop_calls_end; [apply ex_register_ok|vm_compute; lia]. Defined.

(** The observer of [f] is seen by no call of [g]. *)
Lemma passive_observer_transparent_witness :
  osim result_sim (plugin_run_protoop_internal 3 (call_of "g" NO_PARAM [5]) ex_register)
    (plugin_run_protoop_internal 3 (call_of "g" NO_PARAM [5]) (snd (plugin_plug_elf ex_load 1 "f" NO_PARAM pluglet_pre "look.o" ex_register))).
Proof.
  eapply (passive_observer_transparent ex_load 1 "f" NO_PARAM pluglet_pre "look.o");
    [apply ex_register_ok|reflexivity|repeat constructor|reflexivity|vm_compute; reflexivity|].
  vm_compute. reflexivity.
Defined.

(** Parameter 3 of [h] has the default behaviour, until an observer is plugged for it. *)
Lemma observer_hides_default_witness :
  (exists c', plugin_run_protoop_internal 1 (call_of "h" 3 []) ex_register = Done (7, [], c'))
  /\ exists c', plugin_plug_elf ex_load 1 "h" 3 pluglet_pre "look.o" ex_register = (false, c')
     /\ plugin_run_protoop_internal 1 (call_of "h" 3 []) c' = Fatal.
Proof.
  split; [eexists; vm_compute; reflexivity|].
  destruct (observer_hides_default ex_load 1 "h" 3 "look.o" (GetInput 0 (fun _ => Return 0)) "h"
    {[NO_PARAM := create_protocol_operation_param NO_PARAM (Some (Return 7))]} ex_register) as (c' & Hp & H);
    [apply ex_register_ok|reflexivity|repeat constructor|done|vm_compute; reflexivity|vm_compute; reflexivity|].
  exists c'. split; [exact Hp|]. apply H; [vm_compute; reflexivity|reflexivity|cbn; lia].
Defined.

Lemma protoops_invariant_witness : args_wf ex_register /\ ops_ok (ops ex_register).
Proof.
  apply (protoops_invariant ex_load ex_empty); [repeat split; vm_compute; congruence|reflexivity|].
  unfold ex_register, register_param_protoop_default.
  repeat match goal with
  | |- rtc ?R _ (snd (register_noparam_protoop ?p ?o ?c)) => apply (rtc_r _ c); [|apply (step_register_noparam ex_load p o c)]
  | |- rtc ?R _ (snd (register_param_protoop ?p ?k ?o ?c)) => apply (rtc_r _ c); [|apply (step_register_param ex_load p k o c)]
  end. apply rtc_refl.
Defined.

(** Without a default, a parameter that is not known leads to the use of a null pointer. *)
Example missing_default_crashes : plugin_run_protoop_internal 1 (call_of "nodefault" 3 []) ex_register = NullPointer.
Proof. by vm_compute. Qed.

(** The seventeenth result is written past the array. *)
Example seventeenth_output_overruns : plugin_run_protoop_internal 1 (call_of "many" NO_PARAM []) ex_register = Overrun.
Proof. by vm_compute. Qed.

Definition ex_observed : cnx :=
  snd (plugin_plug_elf ex_load 1 "f" NO_PARAM pluglet_post "nested.o"
  (snd (plugin_plug_elf ex_load 1 "f" NO_PARAM pluglet_post "status.o" ex_register))).

(** The observer plugged last runs first; when it calls an operation, the next one sees the status 0. *)
Example return_value_lost :
  option_map rest (match plugin_run_protoop_internal 2 (call_of "f" NO_PARAM [9])
    (snd (plugin_plug_elf ex_load 1 "f" NO_PARAM pluglet_post "status.o" ex_register)) with Done (_, _, c) => Some c | _ => None end) = Some 9
  /\ option_map rest (match plugin_run_protoop_internal 2 (call_of "f" NO_PARAM [9]) ex_observed with Done (_, _, c) => Some c | _ => None end) = Some 0.
Proof. by vm_compute. Qed.

(** An operation that is left extern by a pluglet stays so when it goes. *)
Example extern_stays :
  option_map (fun s => (intern s, bool_decide (is_Some (replace s))))
    (s ← plugin_plug_elf_param_struct ex_load (create_protocol_operation_param NO_PARAM None) 1 pluglet_extern "look.o";
     unplug_param_struct s pluglet_extern) = Some (false, false).
Proof. by vm_compute. Qed.

End Protoops.
