(* ===== verification/PluginLoad.v ===== *)
(** * Loading plugins

    picoquic/plugin.c
      the first line of a plugin file and the lines of its pluglets
      the expansion of include lines
      inserting a plugin in one go, or in two around the negotiation with the peer
      the cache of plugins and the metadata that plugins attach to structures

    A C string is the list of its characters without the final zero.  The file system is a function from
    names to contents.  Writing past a buffer, or reading before it, is [Overrun]; a variable that the
    source leaves uninitialised has a value that is an argument here. *)
From Stdlib Require Import ZArith Lia Bool Ascii String.
From stdpp Require Import base strings list gmap numbers.
From S2P Require Import Prelude Protoops.
Import Protoops.
#[local] Open Scope Z_scope.

Module PluginLoad.

Abbreviation cstr := (list ascii).
Definition lit (s : string) : cstr := list_ascii_of_string s.
Definition str (s : cstr) : string := string_of_list_ascii s.

(** ** Functions of the C library *)

Definition space : ascii := " ".
Definition newline : ascii := "010".
Definition return_char : ascii := "013".

(** [strsep]: the token before the first separator and what follows it, if there is a separator. *)
Fixpoint cut (sep : ascii -> bool) (s : cstr) : cstr * option cstr :=
  match s with
  | [] => ([], None)
  | a :: s => if (sep a : bool) then ([], Some s) else let '(t, r) := cut sep s in (a :: t, r)
  end.

Definition strsep (sep : ascii -> bool) (line : option cstr) : option cstr * option cstr :=
  match line with
  | None => (None, None)
  | Some s => let '(t, r) := cut sep s in (Some t, r)
  end.

Definition is_space (a : ascii) : bool := Ascii.eqb a space.
Definition is_eol (a : ascii) : bool := (Ascii.eqb a return_char || Ascii.eqb a newline)%bool.
Definition is_blank (a : ascii) : bool := (is_space a || is_eol a)%bool.

(** [strncmp(s, p, strlen(p)) == 0]. *)
Fixpoint starts_with (p s : cstr) : bool :=
  match p, s with
  | [], _ => true
  | a :: p, b :: s => (Ascii.eqb a b && starts_with p s)%bool
  | _ :: _, [] => false
  end.

Definition cstr_eqb (s t : cstr) : bool := bool_decide (s = t).

(** The offset of the first occurrence of a character. *)
Fixpoint strchr (a : ascii) (s : cstr) : option nat :=
  match s with
  | [] => None
  | b :: s => if Ascii.eqb a b then Some 0%nat else S <$> strchr a s
  end.

Definition code (a : ascii) : Z := Z.of_N (N_of_ascii a).

(** The value of a digit in a base up to 16. *)
Definition digit (base : Z) (a : ascii) : option Z :=
  let c := code a in
  let v := if (48 <=? c) && (c <=? 57) then c - 48
           else if (97 <=? c) && (c <=? 102) then c - 87
           else if (65 <=? c) && (c <=? 70) then c - 55 else base in
  if v <? base then Some v else None.

Fixpoint digits (base acc : Z) (s : cstr) : Z * cstr :=
  match s with
  | a :: s' => match digit base a with Some v => digits base (acc * base + v) s' | None => (acc, s) end
  | [] => (acc, [])
  end.

Definition is_white (a : ascii) : bool := (is_space a || (9 <=? code a) && (code a <=? 13))%bool.
Fixpoint skip_white (s : cstr) : cstr :=
  match s with a :: s' => if is_white a then skip_white s' else s | [] => [] end.

(** [strtoul] in base 0: the value and what follows the number, the string itself when there is none. *)
Definition strtoul (s : cstr) : Z * cstr :=
  let t := skip_white s in
  let '(negative, t) :=
    match t with
    | a :: t' => if Ascii.eqb a "-" then (true, t') else if Ascii.eqb a "+" then (false, t') else (false, t)
    | [] => (false, t)
    end in
  let '(base, t) :=
    match t with
    | z :: x :: d :: _ =>
        if (Ascii.eqb z "0" && (Ascii.eqb x "x" || Ascii.eqb x "X") && bool_decide (is_Some (digit 16 d)))%bool then (16, drop 2 t)
        else if Ascii.eqb z "0" then (8, t) else (10, t)
    | z :: _ => if Ascii.eqb z "0" then (8, t) else (10, t)
    | [] => (10, t)
    end in
  match t with
  | d :: _ =>
      match digit base d with
      | Some _ =>
          let '(v, rest) := digits base 0 t in
          (if 2 ^ 64 <=? v then 2 ^ 64 - 1 else if (negative : bool) then u64 (- v) else v, rest)
      | None => (0, s)
      end
  | [] => (0, s)
  end.

(** [dirname]. *)
Definition slash : ascii := "/".
Fixpoint skip_slashes (s : cstr) : cstr :=
  match s with a :: s' => if Ascii.eqb a slash then skip_slashes s' else s | [] => [] end.
Definition dirname (path : cstr) : cstr :=
  match path with
  | [] => lit "."
  | _ =>
      match skip_slashes (reverse path) with
      | [] => lit "/"
      | r =>
          match cut (Ascii.eqb slash) r with
          | (_, None) => lit "."
          | (_, Some r) => match skip_slashes r with [] => lit "/" | r => reverse r end
          end
      end
  end.

(** [getline]: the lines of a text, each with its end of line. *)
Fixpoint getlines (s : cstr) : list cstr :=
  match s with
  | [] => []
  | a :: s =>
      if Ascii.eqb a newline then [a] :: getlines s
      else match getlines s with [] => [[a]] | l :: ls => (a :: l) :: ls end
  end.

(** ** The first line of a plugin file *)

Record plugin_parameters := PluginParameters {
  rate_unlimited : bool;
  dynamic_memory : bool;
  require_negotiation : bool
}.

Definition no_parameters : plugin_parameters := PluginParameters false false false.

Definition plugin_parse_parameter (token : cstr) (params : plugin_parameters) : option plugin_parameters :=
  if cstr_eqb token (lit "rate_unlimited")
  then Some (PluginParameters true (dynamic_memory params) (require_negotiation params))
  else if cstr_eqb token (lit "dynamic_memory")
  then Some (PluginParameters (rate_unlimited params) true (require_negotiation params))
  else if cstr_eqb token (lit "negotiate")
  then Some (PluginParameters (rate_unlimited params) (dynamic_memory params) true)
  else None.

(** The test for a name without a point compares with the end of the name, where [strchr] does not point. *)
Definition get_plugin_id (first_line : option cstr) : option cstr * option cstr :=
  let '(token, line) := strsep is_blank first_line in
  match token with
  | None => (None, line)
  | Some plugin_name =>
      if bool_decide (strchr "." plugin_name = Some (length plugin_name)) then (None, line) else (Some plugin_name, line)
  end.

(** The loop stops when nothing follows the token: that token is not looked at. *)
Fixpoint parse_parameters (fuel : nat) (line : option cstr) (params : plugin_parameters) : option plugin_parameters :=
  match fuel with
  | O => None
  | S fuel =>
      match strsep is_blank line with
      | (Some token, Some line) =>
          if (0 <? Z.of_nat (length token)) then
            match plugin_parse_parameter token params with
            | None => None
            | Some params => parse_parameters fuel (Some line) params
            end
          else parse_parameters fuel (Some line) params
      | _ => Some params
      end
  end.

Definition plugin_parse_first_plugin_line (first_line : cstr) : option (cstr * plugin_parameters) :=
  match get_plugin_id (Some first_line) with
  | (None, _) => None
  | (Some plugin_name, line) =>
      match parse_parameters (S (length first_line)) line no_parameters with
      | None => None
      | Some params => Some (plugin_name, params)
      end
  end.

(** [protoop_plugin_t]: where it is, its name (100 bytes at most are copied) and its parameters. *)
Record plugin := Plugin { plugin_address : Z; plugin_name : cstr; plugin_params : plugin_parameters }.

Definition plugin_initialize (address : Z) (first_line : cstr) : option plugin :=
  match plugin_parse_first_plugin_line first_line with
  | None => None
  | Some (id, params) => Some (Plugin address (take 100 id) params)
  end.

(** ** The lines of the pluglets *)

(** The variables of the caller that a line fills in. *)
Record line_vars := LineVars { inserted_pid : cstr; line_param : Z; line_pte : pluglet_type_enum }.

(** [Parsed]: the file name of the pluglet. *)
Inductive parsed := Parsed (pluglet_fname : cstr) | EndPreplugin | Refused.

Definition pluglet_type_of (token : cstr) : option pluglet_type_enum :=
  if starts_with (lit "replace") token then Some pluglet_replace
  else if starts_with (lit "pre") token then Some pluglet_pre
  else if starts_with (lit "post") token then Some pluglet_post
  else if starts_with (lit "extern") token then Some pluglet_extern
  else None.

(** From the keyword to the end of the line. *)
Definition parse_anchor_and_file (token : cstr) (line : option cstr) (v : line_vars) : parsed * line_vars :=
  match pluglet_type_of token with
  | None => (Refused, v)
  | Some pte =>
      let v := LineVars (inserted_pid v) (line_param v) pte in
      match strsep is_space line with
      | (None, _) => (Refused, v)
      | (Some token, _) => (Parsed (fst (cut is_eol token)), v)
      end
  end.

(** The id is copied to a buffer of 100 characters. *)
Definition parse_plugin_line (line : cstr) (v : line_vars) : outcome (parsed * line_vars) :=
  let '(token, line) := strsep is_space (Some line) in
  match token with
  | None => Done (Refused, v)
  | Some token =>
      if starts_with (lit "-") token then Done (EndPreplugin, v)
      else if 100 <=? Z.of_nat (length token) then Overrun
      else
        let v := LineVars token (line_param v) (line_pte v) in
        match strsep is_space line with
        | (None, _) => Done (Refused, v)
        | (Some token, line) =>
            if starts_with (lit "param") token then
              match strsep is_space line with
              | (None, _) => Done (Refused, v)
              | (Some token, line) =>
                  let '(value, errmsg) := strtoul token in
                  let v := LineVars (inserted_pid v) (u16 value) (line_pte v) in
                  match errmsg with
                  | _ :: _ => Done (Refused, v)
                  | [] =>
                      match strsep is_space line with
                      | (None, _) => Done (Refused, v)
                      | (Some token, line) => Done (parse_anchor_and_file token line v)
                      end
                  end
              end
            else Done (parse_anchor_and_file token line (LineVars (inserted_pid v) NO_PARAM (line_pte v)))
        end
  end.

(** ** Include lines *)

Section Preprocessing.
Variable files : cstr -> option cstr.

Definition file_len : Z := 500.

(** Appending to the output, for which [cap] bytes are allocated, with the test on the first size only;
    [n] is the new length, without the final zero. *)
Definition append_output (out piece : cstr) (cap : Z) : outcome (cstr * Z) :=
  let n := Z.of_nat (length out) + Z.of_nat (length piece) in
  let cap := if file_len <? n then 2 * n else cap in
  if cap <=? n then Overrun else Done (out ++ piece, cap).

(** An included text, with an end of line; the last character of an empty text is before its buffer. *)
Definition included (sub : cstr) : outcome cstr :=
  match hd_error (reverse sub) with
  | None => Overrun
  | Some a => Done (if Ascii.eqb a newline then sub else sub ++ [newline])
  end.

(** The lines of one file; [None] is the error 1. *)
Fixpoint preprocess_lines (rec : cstr -> outcome (option cstr)) (dir : cstr) (lines : list cstr) (out : cstr) (cap : Z)
    : outcome (option cstr) :=
  match lines with
  | [] => Done (Some out)
  | line :: lines =>
      if starts_with (lit "#") line then preprocess_lines rec dir lines out cap
      else
        match strsep is_space (Some line) with
        | (None, _) => Done None
        | (Some token, line_tmp) =>
            if 149 <? Z.of_nat (length token) then Done None
            else
              let append piece := let? r := append_output out piece cap in preprocess_lines rec dir lines (fst r) (snd r) in
              match strsep is_space line_tmp with
              | (Some keyword, _) =>
                  if starts_with (lit "inclu") keyword then
                    let? sub := rec (dir ++ slash :: token) in
                    match sub with
                    | None => Done None
                    | Some sub => let? sub := included sub in append sub
                    end
                  else append line
              | (None, _) => append line
              end
        end
  end.

(** [plugin_preprocess_file]; the fuel bounds the depth of the includes. *)
Fixpoint plugin_preprocess_file (fuel : nat) (dir fname : cstr) : outcome (option cstr) :=
  match fuel with
  | O => OutOfFuel
  | S fuel =>
      match files fname with
      | None => Done None
      | Some text => preprocess_lines (plugin_preprocess_file fuel dir) dir (getlines text) [] file_len
      end
  end.

(** [get_file_from_fname]: the expanded file, read line by line. *)
Definition get_file_from_fname (fuel : nat) (fname : cstr) : outcome (option (list cstr)) :=
  if 250 <=? Z.of_nat (length fname) then Done None
  else let? r := plugin_preprocess_file fuel (dirname fname) fname in Done (getlines <$> r).

(** [plugin_parse_plugin_id] reads the first line of the file itself. *)
Definition plugin_parse_plugin_id (fname : cstr) : option (cstr * bool) :=
  match files fname with
  | None => None
  | Some text =>
      match getlines text with
      | [] => None
      | line :: _ => (fun '(id, params) => (id, require_negotiation params)) <$> plugin_parse_first_plugin_line line
      end
  end.
End Preprocessing.

(** ** Inserting a plugin *)

Inductive plugin_inject_mode := plugin_inject_all | plugin_inject_preplugins | plugin_inject_postplugins.
#[export] Instance plugin_inject_mode_eq_dec : EqDecision plugin_inject_mode.
Proof. solve_decision. Defined.

Section Insertion.
Context {U : Type}.
Variable load : string -> option (@prog U).

(** The path of a pluglet is built in a buffer of 250 characters. *)
Definition plug_line (p : Z) (dir fname : cstr) (v : line_vars) (c : @cnx U) : outcome (bool * cnx) :=
  if 250 <=? Z.of_nat (length dir) then Done (false, c)
  else
    let abs_path := dir ++ slash :: fname in
    if 250 <=? Z.of_nat (length abs_path) then Overrun
    else
      let '(err, c) := plugin_plug_elf load p (str (inserted_pid v)) (line_param v) (line_pte v) (str abs_path) c in
      Done (negb err, c).

(** What a line does in a mode: whether the loop goes on, whether the marker has been seen. *)
Definition insert_pluglet_from_plugin_line (p : Z) (dir : cstr) (pim : plugin_inject_mode) (line : cstr)
    (v : line_vars) (seen : bool) (c : @cnx U) : outcome (bool * line_vars * bool * cnx) :=
  let? r := parse_plugin_line line v in
  let '(res, v) := r in
  let plug fname := let? r := plug_line p dir fname v c in let '(ok, c) := r in Done (ok, v, seen, c) in
  match pim, res with
  | plugin_inject_all, Parsed fname => plug fname
  | plugin_inject_all, _ => Done (false, v, seen, c)
  | plugin_inject_preplugins, Parsed fname => if seen then Done (true, v, seen, c) else plug fname
  | plugin_inject_postplugins, Parsed fname => if seen then plug fname else Done (true, v, seen, c)
  | _, EndPreplugin => if seen then Done (false, v, seen, c) else Done (true, v, true, c)
  | _, Refused => Done (false, v, seen, c)
  end.

(** The nodes of the stack of what was inserted. *)
Abbreviation pid_node := (cstr * Z * pluglet_type_enum)%type.

Definition tracks (pim : plugin_inject_mode) (seen : bool) : bool :=
  match pim with
  | plugin_inject_all => true
  | plugin_inject_preplugins => negb seen
  | plugin_inject_postplugins => seen
  end.

(** The loop over the lines of the file. *)
Fixpoint insert_lines (p : Z) (dir : cstr) (pim : plugin_inject_mode) (lines : list cstr)
    (v : line_vars) (seen : bool) (stack : list pid_node) (c : @cnx U) : outcome (bool * list pid_node * cnx) :=
  match lines with
  | [] => Done (true, stack, c)
  | line :: lines =>
      if Z.of_nat (length line) <=? 1 then insert_lines p dir pim lines v seen stack c
      else
        let? r := insert_pluglet_from_plugin_line p dir pim line v seen c in
        let '(ok, v, seen, c) := r in
        if (ok : bool) then
          let stack := if tracks pim seen then (inserted_pid v, line_param v, line_pte v) :: stack else stack in
          insert_lines p dir pim lines v seen stack c
        else Done (false, stack, c)
  end.

(** After a failure what was inserted is unplugged, the last first. *)
Definition rollback (ok : bool) (stack : list pid_node) (c : @cnx U) : cnx :=
  if ok then c
  else foldl (fun c '(pid, param, pte) => snd (plugin_unplug (str pid) param pte c)) c stack.

(** The plugins of a connection beside its operations; [plugin_path] is set after an insertion. *)
Record host := Host { host_cnx : @cnx U; host_plugins : list (plugin * cstr) }.

(** [plugin_insert_plugin] from the lines of the expanded file; 0 is success, [address] where the plugin is allocated. *)
Definition insert_plugin_lines (address : Z) (fname : cstr) (v : line_vars) (lines : list cstr) (h : host) : outcome (Z * host) :=
  match lines with
  | [] => Done (1, h)
  | first_line :: lines =>
      match plugin_initialize address first_line with
      | None => Done (1, h)
      | Some p =>
          let pim := if require_negotiation (plugin_params p) then plugin_inject_preplugins else plugin_inject_all in
          let? r := insert_lines address (dirname fname) pim lines v false [] (host_cnx h) in
          let '(ok, stack, c) := r in
          Done (if (ok : bool) then 0 else 1,
                Host (rollback ok stack c) (if ok then (p, fname) :: host_plugins h else host_plugins h))
      end
  end.

(** [plugin_insert_post_plugin] from the lines of the expanded file. *)
Definition insert_post_lines (p : plugin) (fname : cstr) (v : line_vars) (lines : list cstr) (c : @cnx U) : outcome (Z * cnx) :=
  match lines with
  | [] => Done (1, c)
  | _ :: lines =>
      let? r := insert_lines (plugin_address p) (dirname fname) plugin_inject_postplugins lines v false [] c in
      let '(ok, stack, c) := r in
      Done (if (ok : bool) then 0 else 1, rollback ok stack c)
  end.

(** [plugin_insert_plugin]: a path that is too long is answered by a null pointer, which is the value of success. *)
Definition plugin_insert_plugin (files : cstr -> option cstr) (fuel : nat) (address : Z) (fname : cstr) (v : line_vars) (h : host)
    : outcome (Z * host) :=
  if 250 <=? Z.of_nat (length fname) then Done (0, h)
  else
    let? file := get_file_from_fname files fuel fname in
    match file with
    | None => Done (1, h)
    | Some lines => insert_plugin_lines address fname v lines h
    end.

Definition plugin_insert_post_plugin (files : cstr -> option cstr) (fuel : nat) (p : plugin) (path : cstr) (v : line_vars) (c : @cnx U)
    : outcome (Z * cnx) :=
  if 250 <=? Z.of_nat (length path) then Done (0, c)
  else
    let? file := get_file_from_fname files fuel path in
    match file with
    | None => Done (1, c)
    | Some lines => insert_post_lines p path v lines c
    end.

(** ** The cache of plugins *)

(** [cached_plugins_t], known by its address. *)
Record cached_plugins := CachedPlugins {
  cached_address : Z;
  cached_ops : gmap Z (@protoop_struct U);
  cached_plugin_set : list (plugin * cstr);
  cached_names : list cstr
}.

(** [plugin_fname_t]. *)
Record plugin_fname := PluginFname { fname_name : cstr; fname_path : cstr; fname_negotiation : bool }.

(** As many names, each requested one among the cached ones. *)
Definition cache_matches (plugins : list plugin_fname) (e : cached_plugins) : bool :=
  (bool_decide (length (cached_names e) = length plugins)
   && forallb (fun p => existsb (cstr_eqb (fname_name p)) (cached_names e)) plugins)%bool.

(** The loop: an entry that does not match goes to the end of the queue; the loop stops when the first
    one comes back, or when the queue is empty. *)
Fixpoint cache_loop (fuel : nat) (plugins : list plugin_fname) (first : Z) (curr : cached_plugins) (queue : list cached_plugins)
    : option (option cached_plugins * list cached_plugins) :=
  match fuel with
  | O => None
  | S fuel =>
      if cache_matches plugins curr then Some (Some curr, queue)
      else
        match queue ++ [curr] with
        | [] => Some (None, [])
        | next :: queue =>
            if cached_address next =? first then Some (None, queue) else cache_loop fuel plugins first next queue
        end
  end.

(** [plugin_insert_plugins_from_cache]: whether the plugins were found, the connection and the queue. *)
Definition plugin_insert_plugins_from_cache (plugins : list plugin_fname) (queue : list cached_plugins) (h : host)
    : option (bool * host * list cached_plugins) :=
  if existsb fname_negotiation plugins then Some (false, h, queue)
  else
    match queue with
    | [] => Some (false, h, queue)
    | first :: queue =>
        match cache_loop (S (length queue)) plugins (cached_address first) first queue with
        | None => None
        | Some (Some e, queue) => Some (true, Host (set_ops (cached_ops e) (host_cnx h)) (cached_plugin_set e), queue)
        | Some (None, queue) => Some (false, h, queue)
        end
    end.

(** [plugin_insert_plugins], without the cache; the result is the number of failures. *)
Fixpoint insert_each (files : cstr -> option cstr) (fuel : nat) (address : Z) (plugins : list plugin_fname) (v : line_vars) (h : host)
    : outcome (Z * host) :=
  match plugins with
  | [] => Done (0, h)
  | p :: plugins =>
      let? r := plugin_insert_plugin files fuel address (fname_path p) v h in
      let '(err, h) := r in
      let? r := insert_each files fuel (address + 1) plugins v h in
      let '(ret, h) := r in
      Done (if err =? 0 then ret else ret + 1, h)
  end.

Definition plugin_insert_plugins (files : cstr -> option cstr) (fuel : nat) (address : Z) (plugins : list plugin_fname) (v : line_vars)
    (queue : list cached_plugins) (h : host) : outcome (Z * host * list cached_plugins) :=
  match plugin_insert_plugins_from_cache plugins queue h with
  | None => OutOfFuel
  | Some (true, h, queue) => Done (0, h, queue)
  | Some (false, h, queue) => let? r := insert_each files fuel address plugins v h in Done (fst r, snd r, queue)
  end.

(** [plugin_insert_plugins_from_fnames]: a file whose name cannot be read is answered by 0 failures. *)
Definition plugin_insert_plugins_from_fnames (files : cstr -> option cstr) (fuel : nat) (address : Z) (fnames : list cstr) (v : line_vars)
    (queue : list cached_plugins) (h : host) : outcome (Z * host * list cached_plugins) :=
  match mapM (fun f => (fun '(id, neg) => PluginFname id f neg) <$> plugin_parse_plugin_id files f) fnames with
  | None => Done (0, h, queue)
  | Some [] => Done (0, h, queue)
  | Some plugins => plugin_insert_plugins files fuel address plugins v queue h
  end.

End Insertion.

(** ** Metadata

    A table from the hash of a plugin's name to an array of ten numbers. *)
Definition STRUCT_METADATA_MAX : Z := 10.
Abbreviation metadata := (gmap Z (list Z)).

(** The array of a plugin, made of zeros when it is not there. *)
Definition find_metadata (hash : Z) (m : metadata) : list Z := default (replicate 10 0) (m !! hash).

(** -1 is an error; an index below 0 is not refused. *)
Definition set_plugin_metadata (plugin : option Z) (m : metadata) (idx val : Z) : outcome (Z * metadata) :=
  match plugin with
  | None => Done (-1, m)
  | Some hash =>
      if STRUCT_METADATA_MAX <=? idx then Done (-1, m)
      else if idx <? 0 then Overrun
      else Done (0, <[hash := <[Z.to_nat idx := val]> (find_metadata hash m)]> m)
  end.

Definition get_plugin_metadata (plugin : option Z) (m : metadata) (idx : Z) : outcome (option Z * metadata) :=
  match plugin with
  | None => Done (None, m)
  | Some hash =>
      if STRUCT_METADATA_MAX <=? idx then Done (None, m)
      else if idx <? 0 then Overrun
      else Done (find_metadata hash m !! Z.to_nat idx, <[hash := find_metadata hash m]> m)
  end.

(** The loops of the variants for several indices stop at the first that is too large. *)
Fixpoint set_each (md : list Z) (ivs : list (Z * Z)) : outcome (Z * list Z) :=
  match ivs with
  | [] => Done (0, md)
  | (idx, val) :: ivs =>
      if STRUCT_METADATA_MAX <=? idx then Done (-1, md)
      else if idx <? 0 then Overrun
      else set_each (<[Z.to_nat idx := val]> md) ivs
  end.

Definition set_plugin_n_metadata (plugin : option Z) (m : metadata) (ivs : list (Z * Z)) : outcome (Z * metadata) :=
  match plugin with
  | None => Done (-1, m)
  | Some hash => let? r := set_each (find_metadata hash m) ivs in Done (fst r, <[hash := snd r]> m)
  end.

(** The values read before the end or the first index that is too large. *)
Fixpoint get_each (md : list Z) (idxs : list Z) : outcome (Z * list Z) :=
  match idxs with
  | [] => Done (0, [])
  | idx :: idxs =>
      if STRUCT_METADATA_MAX <=? idx then Done (-1, [])
      else if idx <? 0 then Overrun
      else let? r := get_each md idxs in Done (fst r, nth (Z.to_nat idx) md 0 :: snd r)
  end.

Definition get_plugin_n_metadata (plugin : option Z) (m : metadata) (idxs : list Z) : outcome (Z * list Z * metadata) :=
  match plugin with
  | None => Done (-1, [], m)
  | Some hash => let? r := get_each (find_metadata hash m) idxs in Done (fst r, snd r, <[hash := find_metadata hash m]> m)
  end.

(** ** Tokens *)

Lemma cut_app sep t a r : Forall (fun x => sep x = false) t -> sep a = true -> cut sep (t ++ a :: r) = (t, Some r).
Proof. induction 1 as [|x t Hx _ IH]; cbn; intros Ha; [by rewrite Ha|]. by rewrite Hx, (IH Ha). Qed.

Lemma cut_none sep t : Forall (fun x => sep x = false) t -> cut sep t = (t, None).
Proof. induction 1 as [|x t Hx _ IH]; cbn; [done|]. by rewrite Hx, IH. Qed.

Lemma cut_length sep s t r : cut sep s = (t, Some r) -> (length r < length s)%nat.
Proof.
  revert t. induction s as [|a s IH]; cbn; intros t H; [done|]. destruct (sep a); [simplify_eq; lia|].
  destruct (cut sep s) as [t' [r'|]] eqn:Hc; simplify_eq. specialize (IH t' eq_refl). lia.
Qed.

(** The fuel of the loop over the parameters does not matter when it exceeds the length of the line. *)
Lemma parse_parameters_fuel fuel : forall fuel' s params, (length s < fuel)%nat -> (length s < fuel')%nat ->
  parse_parameters fuel (Some s) params = parse_parameters fuel' (Some s) params.
Proof.
  induction fuel as [|fuel IH]; intros [|fuel'] s params H H'; try lia. cbn [parse_parameters strsep].
  destruct (cut is_blank s) as [t [r|]] eqn:Hc; [|done]. apply cut_length in Hc.
  repeat (case_match; try done); apply IH; lia.
Qed.

(** No name is refused for having no point in it. *)
Lemma strchr_inside a s n : strchr a s = Some n -> (n < length s)%nat.
Proof.
  revert n. induction s as [|b s IH]; intros n; cbn; [done|]. destruct (Ascii.eqb a b); [intros; simplify_eq; lia|].
  destruct (strchr a s) as [k|]; cbn; intros; simplify_eq. specialize (IH k eq_refl). lia.
Qed.

Lemma any_plugin_name_accepted line : fst (get_plugin_id (Some line)) = Some (fst (cut is_blank line)).
Proof.
  unfold get_plugin_id. cbn. destruct (cut is_blank line) as [t r]. rewrite bool_decide_eq_false_2; [done|].
  intros H. apply strchr_inside in H. lia.
Qed.

(** *** Printing a line *)

Definition hexchar (d : Z) : ascii := ascii_of_N (Z.to_N (if d <? 10 then 48 + d else 87 + d)).
Definition print_param (k : Z) : cstr :=
  lit "0x" ++ [hexchar (k / 4096); hexchar (k / 256 mod 16); hexchar (k / 16 mod 16); hexchar (k mod 16)].
Definition print_anchor (pte : pluglet_type_enum) : cstr := lit (match pte with
  | pluglet_replace => "replace" | pluglet_pre => "pre" | pluglet_post => "post" | pluglet_extern => "extern" end).
Definition print_line (pid : cstr) (param : Z) (pte : pluglet_type_enum) (fname : cstr) : cstr :=
  pid ++ space :: (if param =? NO_PARAM then [] else lit "param" ++ space :: print_param param ++ [space])
  ++ print_anchor pte ++ space :: fname ++ [newline].

Lemma digit_hexchar d : 0 <= d < 16 -> digit 16 (hexchar d) = Some d.
Proof.
  intros H. assert (In d (seqZ 0 16)) as Hin by (apply list_elem_of_In, elem_of_seqZ; lia). revert Hin. cbn.
  repeat intros [<-|Hin]; try (by vm_compute); try done.
  repeat (destruct Hin as [<-|Hin]; [by vm_compute|]). done.
Qed.

Lemma hexchar_not_space d : 0 <= d < 16 -> is_space (hexchar d) = false.
Proof.
  intros H. pose proof (digit_hexchar d H) as Hd. destruct (is_space (hexchar d)) eqn:Hs; [|done].
  apply Ascii.eqb_eq in Hs. by rewrite Hs in Hd.
Qed.

Lemma print_param_digits k : 0 <= k < 65536 ->
  0 <= k / 4096 < 16 /\ 0 <= k / 256 mod 16 < 16 /\ 0 <= k / 16 mod 16 < 16 /\ 0 <= k mod 16 < 16
  /\ ((k / 4096 * 16 + k / 256 mod 16) * 16 + k / 16 mod 16) * 16 + k mod 16 = k.
Proof. intros. split_and!; try (apply Z.mod_pos_bound; lia); Z.to_euclidean_division_equations; lia. Qed.

Lemma strtoul_print k : 0 <= k < 65536 -> strtoul (print_param k) = (k, []).
Proof.
  intros Hk. destruct (print_param_digits k Hk) as (H3&H2&H1&H0&Hsum).
  unfold strtoul, print_param. cbn [lit list_ascii_of_string app skip_white is_white].
  change (is_white "0") with false. cbv iota. change (Ascii.eqb "0" "-") with false. change (Ascii.eqb "0" "+") with false.
  cbv iota beta. change (Ascii.eqb "0" "0") with true. change (Ascii.eqb "x" "x") with true. cbn [andb orb].
  rewrite (digit_hexchar _ H3), bool_decide_eq_true_2 by done. cbv iota beta. cbn [drop].
  rewrite (digit_hexchar _ H3). cbn [digits].
  rewrite (digit_hexchar _ H3), (digit_hexchar _ H2), (digit_hexchar _ H1), (digit_hexchar _ H0).
  rewrite Z.add_0_l, Hsum. rewrite (proj2 (Z.leb_gt _ _)) by lia. done.
Qed.

Lemma anchor_token pte r : cut is_space (print_anchor pte ++ space :: r) = (print_anchor pte, Some r).
Proof. apply cut_app; [|done]. destruct pte; repeat constructor. Qed.

Lemma parse_anchor_print pte fname v : Forall (fun a => is_blank a = false) fname ->
  parse_anchor_and_file (print_anchor pte) (Some (fname ++ [newline])) v = (Parsed fname, LineVars (inserted_pid v) (line_param v) pte).
Proof.
  intros Hf. unfold parse_anchor_and_file. replace (pluglet_type_of (print_anchor pte)) with (Some pte) by (by destruct pte).
  cbn [strsep]. rewrite cut_none.
  - cbn [fst]. rewrite cut_app; [done| |done]. eapply list.Forall_impl; [exact Hf|]. intros a [_ H]%orb_false_iff. done.
  - apply Forall_app. split; [|by repeat constructor]. eapply list.Forall_impl; [exact Hf|]. intros a [H _]%orb_false_iff. done.
Qed.

(** A line of a plugin file that names an operation, a parameter or none, an anchor and a file is read back
    as it was written, whatever the variables held before. *)
Theorem plugin_line_roundtrip pid param pte fname v :
  Forall (fun a => is_space a = false) pid -> starts_with (lit "-") pid = false -> Z.of_nat (length pid) < 100 ->
  0 <= param < 65536 -> Forall (fun a => is_blank a = false) fname ->
  parse_plugin_line (print_line pid param pte fname) v = Done (Parsed fname, LineVars pid param pte).
Proof.
  intros Hpid Hm Hl Hp Hf. unfold parse_plugin_line, print_line. cbn [strsep]. rewrite cut_app by done.
  rewrite Hm, (proj2 (Z.leb_gt _ _)) by lia. destruct (Z.eqb_spec param NO_PARAM) as [->|Hn]; cbn [app].
  - cbn [strsep]. rewrite anchor_token. replace (starts_with (lit "param") (print_anchor pte)) with false by (by destruct pte).
    by rewrite parse_anchor_print.
  - change ((lit "param" ++ space :: print_param param ++ [space]) ++ print_anchor pte ++ space :: fname ++ [newline])
      with (lit "param" ++ space :: (print_param param ++ [space]) ++ print_anchor pte ++ space :: fname ++ [newline]).
    cbn [strsep]. rewrite cut_app by (try done; repeat constructor). cbn [starts_with lit list_ascii_of_string]. cbn [Ascii.eqb Bool.eqb andb].
    rewrite <- app_assoc. cbn [app strsep]. rewrite cut_app; [| |done]; last first.
    { destruct (print_param_digits param Hp) as (?&?&?&?&_). repeat constructor; by apply hexchar_not_space. }
    rewrite strtoul_print by done. cbn [strsep]. rewrite anchor_token, parse_anchor_print by done. unfold u16.
    by rewrite Z.mod_small by lia.
Qed.

(** ** Insertion in one go and in two *)

Section Phases.
Context {U : Type}.
Variable load : string -> option (@prog U).

(** The pluglets of the lines, one after the other, until one fails. *)
Fixpoint plug_entries (p : Z) (dir : cstr) (es : list (line_vars * cstr)) (c : @cnx U) : outcome (bool * cnx) :=
  match es with
  | [] => Done (true, c)
  | (v, fname) :: es =>
      let? r := plug_line load p dir fname v c in
      let '(ok, c) := r in
      if (ok : bool) then plug_entries p dir es c else Done (false, c)
  end.

(** Lines that are short, or that name a pluglet. *)
Inductive reads : list cstr -> list (line_vars * cstr) -> Prop :=
| reads_nil : reads [] []
| reads_short l ls es : Z.of_nat (length l) <= 1 -> reads ls es -> reads (l :: ls) es
| reads_line l ls v fname es : 1 < Z.of_nat (length l) -> (forall v0, parse_plugin_line l v0 = Done (Parsed fname, v)) ->
    reads ls es -> reads (l :: ls) ((v, fname) :: es).

Definition is_marker (l : cstr) : Prop := 1 < Z.of_nat (length l) /\ starts_with (lit "-") l = true.

Lemma marker_parsed l v : is_marker l -> parse_plugin_line l v = Done (EndPreplugin, v).
Proof.
  intros [_ Hs]. destruct l as [|a l]; [done|]. cbn [starts_with lit list_ascii_of_string] in Hs. apply andb_true_iff in Hs as [Ha _].
  apply Ascii.eqb_eq in Ha. subst a. unfold parse_plugin_line. cbn [strsep cut]. change (is_space "-") with false. cbv iota.
  by destruct (cut is_space l) as [t r].
Qed.

(** The result without the stack. *)
Definition result_of (m : outcome (bool * list (cstr * Z * pluglet_type_enum) * @cnx U)) : outcome (bool * cnx) :=
  let? r := m in Done (fst (fst r), snd r).

(** One line of a mode that plugs it. *)
Lemma insert_lines_plug p dir pim l ls v0 seen stack c v fname :
  1 < Z.of_nat (length l) -> (forall v0, parse_plugin_line l v0 = Done (Parsed fname, v)) ->
  (pim = plugin_inject_all \/ (pim = plugin_inject_preplugins /\ seen = false) \/ (pim = plugin_inject_postplugins /\ seen = true)) ->
  insert_lines load p dir pim (l :: ls) v0 seen stack c =
  let? r := plug_line load p dir fname v c in
  let '(ok, c) := r in
  if (ok : bool) then insert_lines load p dir pim ls v seen ((inserted_pid v, line_param v, line_pte v) :: stack) c else Done (false, stack, c).
Proof.
  intros Hl Hp Hm. cbn [insert_lines]. rewrite (proj2 (Z.leb_gt _ _) Hl). unfold insert_pluglet_from_plugin_line. rewrite Hp.
  cbn [obind]. destruct Hm as [->|[[-> ->]|[-> ->]]]; destruct (plug_line load p dir fname v c) as [[[] c']| | | |]; done.
Qed.

(** One line of a mode that passes over it. *)
Lemma insert_lines_pass p dir pim l ls v0 seen stack c v fname :
  1 < Z.of_nat (length l) -> (forall v0, parse_plugin_line l v0 = Done (Parsed fname, v)) ->
  ((pim = plugin_inject_preplugins /\ seen = true) \/ (pim = plugin_inject_postplugins /\ seen = false)) ->
  insert_lines load p dir pim (l :: ls) v0 seen stack c = insert_lines load p dir pim ls v seen stack c.
Proof.
  intros Hl Hp Hm. cbn [insert_lines]. rewrite (proj2 (Z.leb_gt _ _) Hl). unfold insert_pluglet_from_plugin_line. rewrite Hp.
  by destruct Hm as [[-> ->]|[-> ->]].
Qed.

Lemma insert_lines_short p dir pim l ls v seen stack c : Z.of_nat (length l) <= 1 ->
  insert_lines load p dir pim (l :: ls) v seen stack c = insert_lines load p dir pim ls v seen stack c.
Proof. intros Hl. cbn [insert_lines]. by rewrite (proj2 (Z.leb_le _ _) Hl). Qed.

Lemma insert_lines_marker p dir pim l ls v stack c : is_marker l -> pim <> plugin_inject_all ->
  exists stack', insert_lines load p dir pim (l :: ls) v false stack c = insert_lines load p dir pim ls v true stack' c.
Proof.
  intros Hm Hp. cbn [insert_lines]. rewrite (proj2 (Z.leb_gt _ _) (proj1 Hm)). unfold insert_pluglet_from_plugin_line.
  rewrite marker_parsed by done. destruct pim; cbn; [done|by eexists|by eexists].
Qed.

(** The part that a mode plugs, followed by lines on which it does nothing more. *)
Lemma plugged_part p dir pim seen ls es rest :
  reads ls es ->
  (pim = plugin_inject_all \/ (pim = plugin_inject_preplugins /\ seen = false) \/ (pim = plugin_inject_postplugins /\ seen = true)) ->
  (forall v stack c, result_of (insert_lines load p dir pim rest v seen stack c) = Done (true, c)) ->
  forall v stack c, result_of (insert_lines load p dir pim (ls ++ rest) v seen stack c) = plug_entries p dir es c.
Proof.
  intros Hr Hm Hrest. induction Hr as [|l ls es Hl _ IH|l ls v fname es Hl Hp _ IH]; intros v0 stack c; cbn [app plug_entries].
  - apply Hrest.
  - rewrite insert_lines_short by done. apply IH.
  - rewrite (insert_lines_plug _ _ _ _ _ _ _ _ _ v fname) by done.
    destruct (plug_line load p dir fname v c) as [[[] c']| | | |]; cbn [obind]; [apply IH|done..].
Qed.

Lemma passed_part p dir pim seen ls es : reads ls es ->
  ((pim = plugin_inject_preplugins /\ seen = true) \/ (pim = plugin_inject_postplugins /\ seen = false)) ->
  forall rest v stack c, exists v', insert_lines load p dir pim (ls ++ rest) v seen stack c = insert_lines load p dir pim rest v' seen stack c.
Proof.
  intros Hr Hm rest. induction Hr as [|l ls es Hl _ IH|l ls v fname es Hl Hp _ IH]; intros v0 stack c; cbn [app].
  - by eexists.
  - rewrite insert_lines_short by done. apply IH.
  - rewrite (insert_lines_pass _ _ _ _ _ _ _ _ _ v fname) by done. apply IH.
Qed.

Lemma all_phase p dir ls es v c : reads ls es ->
  result_of (insert_lines load p dir plugin_inject_all ls v false [] c) = plug_entries p dir es c.
Proof.
  intros Hr. rewrite <- (app_nil_r ls). apply (plugged_part p dir plugin_inject_all false ls es []); [done|by left|done].
Qed.

Lemma pre_phase p dir before es marker after es' v c : reads before es -> is_marker marker -> reads after es' ->
  result_of (insert_lines load p dir plugin_inject_preplugins (before ++ marker :: after) v false [] c) = plug_entries p dir es c.
Proof.
  intros Hb Hm Ha. apply (plugged_part p dir plugin_inject_preplugins false before es (marker :: after)); [done|by right; left|].
  intros v' stack' c'. destruct (insert_lines_marker p dir plugin_inject_preplugins marker after v' stack' c') as [st ->]; [done|done|].
  destruct (passed_part p dir plugin_inject_preplugins true after es' Ha ltac:(by left) [] v' st c') as [v'' H].
  rewrite app_nil_r in H. by rewrite H.
Qed.

Lemma post_phase p dir before es marker after es' v c : reads before es -> is_marker marker -> reads after es' ->
  result_of (insert_lines load p dir plugin_inject_postplugins (before ++ marker :: after) v false [] c) = plug_entries p dir es' c.
Proof.
  intros Hb Hm Ha.
  destruct (passed_part p dir plugin_inject_postplugins false before es Hb ltac:(by right) (marker :: after) v [] c) as [v' ->].
  destruct (insert_lines_marker p dir plugin_inject_postplugins marker after v' [] c) as [st ->]; [done|done|].
  rewrite <- (app_nil_r after). apply (plugged_part p dir plugin_inject_postplugins true after es' []); [done|by right; right|done].
Qed.

Lemma plug_entries_app p dir es es' c :
  plug_entries p dir (es ++ es') c =
  let? r := plug_entries p dir es c in let '(ok, c) := r in if (ok : bool) then plug_entries p dir es' c else Done (false, c).
Proof.
  revert c. induction es as [|[v fname] es IH]; intros c; cbn; [done|].
  destruct (plug_line load p dir fname v c) as [[[] c']| | | |]; cbn; done || apply IH.
Qed.

Lemma reads_app ls es ls' es' : reads ls es -> reads ls' es' -> reads (ls ++ ls') (es ++ es').
Proof. induction 1; cbn; intros; [done|apply reads_short; auto|apply reads_line; auto]. Qed.

(** *** What a failure leaves *)

Lemma unplug_by_name pid param pte (c : @cnx U) : length (bytes_of_string pid) <> 8%nat -> plugin_unplug pid param pte c = (true, c).
Proof.
  intros H. unfold plugin_unplug, find_str. rewrite (proj2 (Z.eqb_neq _ _)); [done|]. lia.
Qed.

Lemma rollback_nothing stack (c : @cnx U) : Forall (fun '(pid, _, _) => length (bytes_of_string (str pid)) <> 8%nat) stack ->
  rollback false stack c = c.
Proof.
  unfold rollback. intros H. revert c. induction H as [|[[pid param] pte] stack Hp _ IH]; intros c; cbn; [done|].
  by rewrite unplug_by_name.
Qed.

Lemma insert_all_stack p dir ls es : reads ls es -> Forall (fun '(v, _) => length (bytes_of_string (str (inserted_pid v))) <> 8%nat) es ->
  forall v stack c ok stack' c', Forall (fun '(pid, _, _) => length (bytes_of_string (str pid)) <> 8%nat) stack ->
  insert_lines load p dir plugin_inject_all ls v false stack c = Done (ok, stack', c') ->
  Forall (fun '(pid, _, _) => length (bytes_of_string (str pid)) <> 8%nat) stack'.
Proof.
  induction 1 as [|l ls es Hl _ IH|l ls v fname es Hl Hp _ IH]; intros He v0 stack c ok stack' c' Hs H.
  - cbn in H. by simplify_eq.
  - rewrite insert_lines_short in H by done. by eapply IH.
  - apply list.Forall_cons in He as [Hv He]. rewrite (insert_lines_plug _ _ _ _ _ _ _ _ _ v fname) in H; [|done|done|by left].
    destruct (plug_line load p dir fname v c) as [[[] c1]| | | |]; cbn in H; try done; [|by simplify_eq].
    eapply IH; [done| |exact H]. by apply list.Forall_cons.
Qed.

(** ** The cache *)

Lemma cache_loop_spec plugins first (todo : list (@cached_plugins U)) : forall fuel done curr,
  cached_address <$> hd_error (done ++ [curr]) = Some first ->
  NoDup (cached_address <$> done ++ curr :: todo) -> Forall (fun e => cache_matches plugins e = false) done ->
  (length todo < fuel)%nat ->
  cache_loop fuel plugins first curr (todo ++ done) =
  Some (match list_find (fun e => cache_matches plugins e = true) (curr :: todo) with
        | Some (i, e) => (Some e, drop i todo ++ done ++ take i (curr :: todo))
        | None => (None, tail (done ++ curr :: todo))
        end).
Proof.
  induction todo as [|next todo IH]; intros fuel done curr Hfirst Hnd Hdone Hf; (destruct fuel as [|fuel]; [lia|]); cbn [cache_loop].
  - destruct (cache_matches plugins curr) eqn:Hm.
    + cbn [list_find]. rewrite decide_True by done. cbn. by rewrite ?take_0, ?app_nil_r.
    + cbn [list_find]. rewrite decide_False by congruence. cbn [app fmap option_fmap option_map].
      destruct done as [|d done]; cbn in *; simplify_eq; by rewrite Z.eqb_refl.
  - destruct (cache_matches plugins curr) eqn:Hm.
    + cbn [list_find]. rewrite decide_True by done. cbn. by rewrite ?take_0, ?app_nil_r.
    + cbn [app]. rewrite (proj2 (Z.eqb_neq _ _)); last first.
      { intros He. rewrite <- He in Hfirst. cbn in Hfirst. rewrite fmap_app in Hnd. cbn in Hnd. apply list.NoDup_app in Hnd as (_&Hd&Hc).
        destruct done as [|d done]; cbn in Hfirst; simplify_eq.
        - apply list.NoDup_cons in Hc as [Hc _]. apply Hc. rewrite Hfirst. by left.
        - apply (Hd (cached_address next)); [rewrite <- Hfirst; by left|]. by right; left. }
      rewrite <- app_assoc. rewrite IH.
      * cbn [list_find]. rewrite (decide_False (P := cache_matches plugins curr = true)) by congruence.
        f_equal. destruct (decide (cache_matches plugins next = true)) as [Hn|Hn].
        -- cbn. by rewrite ?take_0, ?app_nil_r, ?drop_0.
        -- destruct (list_find _ todo) as [[i e]|]; cbn [fmap option_fmap option_map prod_map fst snd]; f_equal.
           ++ cbn [drop take]. by rewrite <- app_assoc.
           ++ by rewrite <- app_assoc.
      * destruct done; [done|]. by cbn in *.
      * by rewrite <- app_assoc.
      * apply Forall_app. split; [done|]. by repeat constructor.
      * cbn in Hf. lia.
Qed.
End Phases.

(** ** Metadata *)

Definition metadata_ok (m : metadata) : Prop := map_Forall (fun _ md => length md = 10%nat) m.

Lemma find_metadata_length h m : metadata_ok m -> length (find_metadata h m) = 10%nat.
Proof. intros H. unfold find_metadata. destruct (m !! h) eqn:Hm; cbn; [by eapply H|done]. Qed.

(** ** The theorems *)

(** C21. A plugin that is negotiated is inserted in two passes over its file, up to the marker before the negotiation
    and from it on afterwards.  The two passes together do what one pass over the file without the marker does:
    the same pluglets in the same order, stopping at the same failure. *)
Theorem negotiated_insertion {U} (load : string -> option (@prog U)) p dir before es marker after es' v v' c :
  reads before es -> is_marker marker -> reads after es' ->
  (let? r := result_of (insert_lines load p dir plugin_inject_preplugins (before ++ marker :: after) v false [] c) in
   let '(ok, c1) := r in
   if (ok : bool) then result_of (insert_lines load p dir plugin_inject_postplugins (before ++ marker :: after) v' false [] c1)
   else Done (false, c1))
  = result_of (insert_lines load p dir plugin_inject_all (before ++ after) v false [] c).
Proof.
  intros Hb Hm Ha. rewrite (all_phase load p dir _ _ v c (reads_app _ _ _ _ Hb Ha)), plug_entries_app, (pre_phase load p dir _ _ _ _ _ v c Hb Hm Ha).
  destruct (plug_entries load p dir es c) as [[[] c1]| | | |]; cbn [obind]; try done. by apply (post_phase load p dir before es).
Qed.

(** When a pluglet of a plugin that is not negotiated cannot be plugged, those that were plugged before it stay, although
    the source means to unplug them: the operations are looked up by their name in a table whose keys are hashes, so that
    none is found (a name of eight bytes could be taken for a hash and is left out here).  The insertion fails, the plugin is not among those of the
    connection, and the connection is as the failing line left it. *)
Theorem failed_insertion_keeps_pluglets {U} (load : string -> option (@prog U)) address fname v first lines es p h c' :
  plugin_initialize address first = Some p -> require_negotiation (plugin_params p) = false -> reads lines es ->
  Forall (fun '(v, _) => length (bytes_of_string (str (inserted_pid v))) <> 8%nat) es ->
  plug_entries load address (dirname fname) es (host_cnx h) = Done (false, c') ->
  insert_plugin_lines load address fname v (first :: lines) h = Done (1, Host c' (host_plugins h)).
Proof.
  intros Hp Hn Hr Hes Hplug. cbn [insert_plugin_lines]. rewrite Hp, Hn.
  rewrite <- (all_phase load address (dirname fname) lines es v (host_cnx h) Hr) in Hplug.
  destruct (insert_lines load address (dirname fname) plugin_inject_all lines v false [] (host_cnx h)) as [[[ok stack] c]| | | |] eqn:Hi; cbn in Hplug; try done.
  simplify_eq. cbv beta iota delta [obind]. rewrite rollback_nothing; [done|].
  exact (insert_all_stack load address (dirname fname) lines es Hr Hes v [] (host_cnx h) false stack c' (list.Forall_nil_2 _) Hi).
Qed.

(** The cache gives the plugins of the oldest entry that has the requested names, and moves the entries before it to
    the end; when no entry has them, the oldest entry is lost. *)
Theorem cache_lookup {U} plugins (queue : list (@cached_plugins U)) h :
  existsb fname_negotiation plugins = false -> NoDup (cached_address <$> queue) ->
  plugin_insert_plugins_from_cache plugins queue h =
  Some (match list_find (fun e => cache_matches plugins e = true) queue with
        | Some (i, e) => (true, Host (set_ops (cached_ops e) (host_cnx h)) (cached_plugin_set e), drop (S i) queue ++ take i queue)
        | None => (false, h, tail queue)
        end).
Proof.
  intros Hn Hnd. unfold plugin_insert_plugins_from_cache. rewrite Hn. destruct queue as [|first queue]; [done|].
  pose proof (cache_loop_spec plugins (cached_address first) queue (S (length queue)) [] first eq_refl Hnd (list.Forall_nil_2 _) ltac:(lia)) as H.
  rewrite app_nil_r in H. rewrite H. by destruct (list_find _ (first :: queue)) as [[i e]|].
Qed.

(** The metadata of a plugin is its own: a value that is set is read back, and no other index and no other plugin
    sees the change. *)
Theorem metadata_set_get m plugin idx val :
  metadata_ok m -> 0 <= idx < 10 ->
  exists m', set_plugin_metadata (Some plugin) m idx val = Done (0, m') /\ metadata_ok m'
    /\ forall plugin' idx', 0 <= idx' < 10 -> exists m'',
       get_plugin_metadata (Some plugin') m' idx' =
       Done (if bool_decide (plugin' = plugin /\ idx' = idx) then Some val else find_metadata plugin' m !! Z.to_nat idx', m'').
Proof.
  intros Hm Hi. unfold set_plugin_metadata, STRUCT_METADATA_MAX. rewrite (proj2 (Z.leb_gt _ _)), (proj2 (Z.ltb_ge _ _)) by lia.
  eexists. split; [done|]. split.
  { apply map_Forall_insert_2; [|done]. rewrite length_insert. by apply find_metadata_length. }
  intros plugin' idx' Hi'. unfold get_plugin_metadata, STRUCT_METADATA_MAX. rewrite (proj2 (Z.leb_gt _ _)), (proj2 (Z.ltb_ge _ _)) by lia.
  eexists. do 2 f_equal. unfold find_metadata at 1. destruct (decide (plugin' = plugin)) as [->|Hp].
  - rewrite lookup_insert_eq. cbn. destruct (decide (idx' = idx)) as [->|Hx].
    + rewrite bool_decide_eq_true_2 by done. apply list_lookup_insert_eq. rewrite find_metadata_length by done. lia.
    + rewrite bool_decide_eq_false_2 by intuition congruence. apply list_lookup_insert_ne. lia.
  - rewrite lookup_insert_ne by done. by rewrite bool_decide_eq_false_2 by intuition congruence.
Qed.

(** ** Examples *)

Definition ex_vars : line_vars := LineVars [] 0 pluglet_pre.
Definition eol (s : string) : cstr := lit s ++ [newline].

Lemma plugin_line_roundtrip_witness :
  parse_plugin_line (eol "parse_frame param 0x002c replace parse_datagram_frame.o") ex_vars
  = Done (Parsed (lit "parse_datagram_frame.o"), LineVars (lit "parse_frame") 0x2c pluglet_replace).
Proof.
  apply (plugin_line_roundtrip (lit "parse_frame") 0x2c pluglet_replace (lit "parse_datagram_frame.o") ex_vars);
    first [by repeat constructor | done | cbn; lia].
Defined.

Definition ex_before : list cstr := [eol "f pre look.o"; eol ""].
Definition ex_after : list cstr := [eol "g replace status.o"].
Definition ex_marker : cstr := eol "---".

(** A loader for files of the directory [d]. *)
Definition ex_files_load (fname : string) : option (@prog Z) :=
  if String.eqb fname "d/look.o" then ex_load "look.o" else if String.eqb fname "d/status.o" then ex_load "status.o" else None.

Lemma ex_before_reads : reads ex_before [(LineVars (lit "f") NO_PARAM pluglet_pre, lit "look.o")].
Proof. apply reads_line; [cbn; lia|done|]. apply reads_short; [cbn; lia|]. apply reads_nil. Qed.

Lemma ex_after_reads : reads ex_after [(LineVars (lit "g") NO_PARAM pluglet_replace, lit "status.o")].
Proof. apply reads_line; [cbn; lia|done|]. apply reads_nil. Qed.

Lemma negotiated_insertion_witness :
  (let? r := result_of (insert_lines ex_files_load 7 (lit "d") plugin_inject_preplugins (ex_before ++ ex_marker :: ex_after) ex_vars false [] ex_register) in
   let '(ok, c1) := r in
   if (ok : bool) then result_of (insert_lines ex_files_load 7 (lit "d") plugin_inject_postplugins (ex_before ++ ex_marker :: ex_after) ex_vars false [] c1)
   else Done (false, c1))
  = result_of (insert_lines ex_files_load 7 (lit "d") plugin_inject_all (ex_before ++ ex_after) ex_vars false [] ex_register).
Proof.
  apply (fun Hm => negotiated_insertion ex_files_load 7 (lit "d") _ _ ex_marker _ _ ex_vars ex_vars ex_register ex_before_reads Hm ex_after_reads).
  split; [cbn; lia|done].
Defined.

(** The second pluglet replaces an operation that the first one has replaced already. *)
Definition ex_twice : list cstr := [eol "f replace status.o"; eol "f replace look.o"].
Definition ex_entries : list (line_vars * cstr) :=
  [(LineVars (lit "f") NO_PARAM pluglet_replace, lit "status.o"); (LineVars (lit "f") NO_PARAM pluglet_replace, lit "look.o")].
Definition ex_plugin : plugin := Plugin 7 (lit "org.example") no_parameters.

Lemma failed_insertion_keeps_pluglets_witness :
  exists c', insert_plugin_lines ex_files_load 7 (lit "d/x.plugin") ex_vars (eol "org.example" :: ex_twice) (Host ex_register []) = Done (1, Host c' [])
    /\ plugin_pluglet_exists (name "f") NO_PARAM pluglet_replace c' = true.
Proof.
  eexists. split.
  - apply (failed_insertion_keeps_pluglets ex_files_load 7 (lit "d/x.plugin") ex_vars (eol "org.example") ex_twice ex_entries ex_plugin (Host ex_register []));
      [reflexivity|reflexivity| |repeat constructor; vm_compute; congruence|].
    + apply reads_line; [cbn; lia|done|]. apply reads_line; [cbn; lia|done|]. apply reads_nil.
    + vm_compute. reflexivity.
  - vm_compute. reflexivity.
Defined.

Definition ex_entry (address : Z) (names : list cstr) : @cached_plugins Z := CachedPlugins address ∅ [] names.

(** A request that no entry serves loses the oldest one. *)
Lemma cache_lookup_witness :
  plugin_insert_plugins_from_cache [PluginFname (lit "c") (lit "c.plugin") false] [ex_entry 1 [lit "a"]; ex_entry 2 [lit "b"]] (Host ex_empty [])
  = Some (false, Host ex_empty [], [ex_entry 2 [lit "b"]]).
Proof.
  rewrite (cache_lookup [PluginFname (lit "c") (lit "c.plugin") false] [ex_entry 1 [lit "a"]; ex_entry 2 [lit "b"]] (Host ex_empty []));
    [reflexivity|reflexivity|]. cbn. apply list.NoDup_cons. split; [rewrite elem_of_cons, elem_of_nil; lia|]. apply list.NoDup_singleton.
Defined.

Lemma metadata_set_get_witness :
  exists m', set_plugin_metadata (Some 5) ∅ 3 42 = Done (0, m') /\ exists m'', get_plugin_metadata (Some 5) m' 3 = Done (Some 42, m'').
Proof.
  destruct (metadata_set_get ∅ 5 3 42 (map_Forall_empty _) ltac:(lia)) as (m' & Hs & _ & Hg). exists m'. split; [exact Hs|].
  destruct (Hg 5 3 ltac:(lia)) as (m'' & Hm). exists m''. exact Hm.
Defined.

(** An index below 0 is used. *)
Example negative_index : set_plugin_metadata (Some 5) ∅ (-1) 42 = Overrun.
Proof. done. Qed.

(** The last word of a first line without end of line is not read. *)
Example last_parameter_ignored :
  option_map snd (plugin_parse_first_plugin_line (lit "org.example negotiate")) = Some no_parameters
  /\ option_map snd (plugin_parse_first_plugin_line (eol "org.example negotiate")) = Some (PluginParameters false false true).
Proof. done. Qed.

(** Files that include each other are expanded for ever. *)
Theorem cyclic_include_never_ends fuel dir fname :
  plugin_preprocess_file (fun _ => Some (eol "a.plugin include")) fuel dir fname = OutOfFuel.
Proof.
  revert fname. induction fuel as [|fuel IH]; intros fname; [done|]. cbn [plugin_preprocess_file].
  change (getlines (eol "a.plugin include")) with [eol "a.plugin include"]. cbn [preprocess_lines].
  change (starts_with (lit "#") (eol "a.plugin include")) with false.
  change (strsep is_space (Some (eol "a.plugin include"))) with (Some (lit "a.plugin"), Some (eol "include")).
  change (149 <? Z.of_nat (length (lit "a.plugin"))) with false.
  change (strsep is_space (Some (eol "include"))) with (Some (eol "include"), None : option cstr). cbv iota beta zeta.
  change (starts_with (lit "inclu") (eol "include")) with true. cbv iota. by rewrite IH.
Qed.

(** A file of exactly 500 characters takes 501 bytes of 500. *)
Definition ex_line_of (n : nat) : cstr := replicate (n - 1) "a"%char ++ [newline].
Definition ex_text (n : nat) : cstr := concat (replicate 9 (ex_line_of 50)) ++ ex_line_of n.
Example text_of_500 :
  plugin_preprocess_file (fun _ => Some (ex_text 49)) 1 [] [] = Done (Some (ex_text 49))
  /\ plugin_preprocess_file (fun _ => Some (ex_text 50)) 1 [] [] = Overrun
  /\ plugin_preprocess_file (fun _ => Some (ex_text 51)) 1 [] [] = Done (Some (ex_text 51)).
Proof. by vm_compute. Qed.

(** A path that is too long, and a file that cannot be opened, are answered as successes. *)
Example long_path_succeeds h :
  plugin_insert_plugin ex_files_load (fun _ => None) 1 7 (replicate 250 "a"%char) ex_vars h = Done (0, h).
Proof. done. Qed.
Example unreadable_file_succeeds h :
  plugin_insert_plugins_from_fnames ex_files_load (fun _ => None) 1 7 [lit "x.plugin"] ex_vars [] h = Done (0, h, []).
Proof. done. Qed.

(** The path of a pluglet overruns its buffer when the directory alone fits. *)
Example pluglet_path_overruns :
  plug_line ex_files_load 7 (replicate 200 "d"%char) (replicate 60 "f"%char) (LineVars (lit "f") NO_PARAM pluglet_replace) ex_register = Overrun.
Proof. by vm_compute. Qed.

(** So does the name of an operation of 100 characters. *)
Example long_name_overruns : parse_plugin_line (replicate 100 "a"%char ++ lit " pre x.o") ex_vars = Overrun.
Proof. by vm_compute. Qed.

End PluginLoad.
