(* ===== verification/Tickets.v ===== *)
(** * Session tickets

    picoquic/ticket_store.c
      the tickets that a client keeps by server name and application protocol
      their records, and the file in which they outlive the process

    A ticket has its strings as lists of bytes, whose lengths are the length fields of the source; the
    chain of tickets is a list.  Reading past an array, or writing past the buffer of 2048 bytes, is
    [None].  Memory is taken to suffice, and the writes to the file to succeed. *)
From stdpp Require Import base list numbers.
From Stdlib Require Import ZArith Lia Bool.
From S2P Require Import Prelude IntFormat.
Import IntFormat.
#[local] Open Scope Z_scope.

Module Tickets.

Record stored_ticket := StoredTicket {
  time_valid_until : Z;
  sni : list Z;
  alpn : list Z;
  ticket : list Z
}.

Definition ERROR_FRAME_BUFFER_TOO_SMALL : Z := 0x400 + 16.
Definition ERROR_INVALID_TICKET : Z := 0x400 + 23.
Definition ERROR_INVALID_FILE : Z := 0x400 + 24.

Definition len (l : list Z) : Z := Z.of_nat (length l).

(** ** Records *)

Definition picoquic_serialize_ticket (t : stored_ticket) (bytes_max : Z) : Z * list Z :=
  let required_length := 8 + 2 + 2 + 2 + len (sni t) + len (alpn t) + len (ticket t) in
  if bytes_max <? required_length then (ERROR_FRAME_BUFFER_TOO_SMALL, [])
  else
    (0, picoformat_64 (time_valid_until t)
        ++ picoformat_16 (len (sni t)) ++ sni t
        ++ picoformat_16 (len (alpn t)) ++ alpn t
        ++ picoformat_16 (len (ticket t)) ++ ticket t).

(** [memcpy] of [n] bytes at [i]. *)
Definition slice (i n : Z) (bytes : list Z) : list Z := take (Z.to_nat n) (drop (Z.to_nat i) bytes).
Definition from (i : Z) (bytes : list Z) : list Z := drop (Z.to_nat i) bytes.

(** The result, the ticket and what it consumed. *)
Definition picoquic_deserialize_ticket (bytes : list Z) : option (Z * option stored_ticket * Z) :=
  let bytes_max := len bytes in
  let required_length := 8 + 2 + 2 + 2 in
  '(time, sni_length, sni_index, required_length, byte_index) ←
    (if required_length <? bytes_max then
       t ← PICOPARSE_64 bytes; n ← PICOPARSE_16 (from 8 bytes);
       Some (t, n, 10, required_length + n, 10 + n)
     else Some (0, 0, 0, required_length, 0));
  '(alpn_length, alpn_index, required_length, byte_index) ←
    (if required_length <? bytes_max then
       n ← PICOPARSE_16 (from byte_index bytes);
       Some (n, byte_index + 2, required_length + n, byte_index + 2 + n)
     else Some (0, 0, required_length, byte_index));
  '(ticket_length, ticket_index, required_length) ←
    (if required_length <? bytes_max then
       n ← PICOPARSE_16 (from byte_index bytes);
       Some (n, byte_index + 2, required_length + n)
     else Some (0, 0, required_length));
  if bytes_max <? required_length then Some (ERROR_INVALID_TICKET, None, 0)
  else
    Some (0, Some (StoredTicket time (slice sni_index sni_length bytes) (slice alpn_index alpn_length bytes)
                     (slice ticket_index ticket_length bytes)), required_length).

(** ** The store *)

Definition same_key (s a : list Z) (t : stored_ticket) : bool :=
  ((len (sni t) =? len s) && (len (alpn t) =? len a) && bool_decide (sni t = s) && bool_decide (alpn t = a))%bool.

(** The loop that removes older tickets of the same name and protocol. *)
Fixpoint remove_old (stored : stored_ticket) (next : list stored_ticket) : list stored_ticket :=
  match next with
  | [] => []
  | t :: next =>
      if ((time_valid_until t <=? time_valid_until stored) && same_key (sni stored) (alpn stored) t)%bool
      then remove_old stored next
      else t :: remove_old stored next
  end.

Definition max_ttl : Z := 7 * 24 * 3600.

(** Tickets have their time of issue, in milliseconds, and their lifetime inside. *)
Definition picoquic_store_ticket (first_ticket : list stored_ticket) (current_time : Z) (s a tk : list Z)
    : option (Z * list stored_ticket) :=
  if len tk <? 17 then Some (ERROR_INVALID_TICKET, first_ticket)
  else
    ticket_issued_time ← PICOPARSE_64 tk;
    ttl ← PICOPARSE_32 (from 13 tk);
    let ttl_seconds := if max_ttl <? ttl then max_ttl else ttl in
    let time := u64 (u64 (ticket_issued_time * 1000) + ttl_seconds * 1000000) in
    if (negb (current_time =? 0) && (time <? current_time))%bool then Some (ERROR_INVALID_TICKET, first_ticket)
    else let stored := StoredTicket time s a tk in Some (0, stored :: remove_old stored first_ticket).

Fixpoint picoquic_get_ticket (next : list stored_ticket) (current_time : Z) (s a : list Z) : option (list Z) :=
  match next with
  | [] => None
  | t :: next =>
      if ((current_time <? time_valid_until t) && same_key s a t)%bool then Some (ticket t)
      else picoquic_get_ticket next current_time s a
  end.

(** ** The file *)

(** Four bytes of a number of this machine, the least significant first. *)
Definition le32 (n : Z) : list Z := [u8 n; u8 (Z.shiftr n 8); u8 (Z.shiftr n 16); u8 (Z.shiftr n 24)].
Definition of_le32 (b : list Z) : option (Z * list Z) :=
  match b with
  | b0 :: b1 :: b2 :: b3 :: rest => Some (b0 + 256 * b1 + 65536 * b2 + 16777216 * b3, rest)
  | _ => None
  end.

(** The result and the file. *)
Fixpoint picoquic_save_tickets (next : list stored_ticket) (current_time : Z) : Z * list Z :=
  match next with
  | [] => (0, [])
  | t :: next =>
      if current_time <? time_valid_until t then
        let '(ret, record) := picoquic_serialize_ticket t 2048 in
        if ret =? 0 then
          let '(ret, file) := picoquic_save_tickets next current_time in (ret, le32 (len record) ++ record ++ file)
        else (ret, [])
      else picoquic_save_tickets next current_time
  end.

(** [offsetof(struct st_picoquic_stored_ticket_t, time_valid_until)]: four pointers. *)
Definition offset_time_valid_until : Z := 32.

(** The loop over the records: the result and the tickets that were kept. *)
Fixpoint load_loop (fuel : nat) (file : list Z) (current_time : Z) : option (Z * list stored_ticket) :=
  match fuel with
  | O => None
  | S fuel =>
      match of_le32 file with
      | None => Some (0, [])
      | Some (storage_size, file) =>
          let record_size := u32 (storage_size + offset_time_valid_until) in
          if 2048 <? record_size then Some (ERROR_INVALID_FILE, [])
          else if (2048 <? storage_size) && (2048 <? len file) then None
          else if len file <? storage_size then Some (ERROR_INVALID_FILE, [])
          else
            '(ret, next, consumed) ← picoquic_deserialize_ticket (slice 0 storage_size file);
            if negb (ret =? 0) then Some (ret, [])
            else
              match next with
              | Some t =>
                  if negb (consumed =? storage_size) then Some (ERROR_INVALID_FILE, [])
                  else
                    '(ret, l) ← load_loop fuel (from storage_size file) current_time;
                    Some (ret, if time_valid_until t <? current_time then l else t :: l)
              | None => Some (ERROR_INVALID_FILE, [])
              end
      end
  end.

(** The chain is replaced when a ticket was kept. *)
Definition picoquic_load_tickets (first_ticket : list stored_ticket) (file : list Z) (current_time : Z)
    : option (Z * list stored_ticket) :=
  '(ret, l) ← load_loop (S (length file)) file current_time;
  Some (ret, match l with [] => first_ticket | _ => l end).

(** ** Records are read back *)

Definition ticket_ok (t : stored_ticket) : Prop :=
  is_u64 (time_valid_until t) /\ len (sni t) < 2 ^ 16 /\ len (alpn t) < 2 ^ 16 /\ 0 < len (ticket t) < 2 ^ 16.

Definition record_length (t : stored_ticket) : Z := 14 + len (sni t) + len (alpn t) + len (ticket t).

(** The record without the test of the buffer. *)
Definition record_of (t : stored_ticket) : list Z :=
  picoformat_64 (time_valid_until t) ++ picoformat_16 (len (sni t)) ++ sni t
  ++ picoformat_16 (len (alpn t)) ++ alpn t ++ picoformat_16 (len (ticket t)) ++ ticket t.

Lemma serialize_fits t bytes_max : record_length t <= bytes_max -> picoquic_serialize_ticket t bytes_max = (0, record_of t).
Proof. unfold record_length. intros H. unfold picoquic_serialize_ticket. by rewrite (proj2 (Z.ltb_ge _ _)) by lia. Qed.

Lemma length_picoformat_16 n : length (picoformat_16 n) = 2%nat.
Proof. done. Qed.

Lemma len_record t : len (record_of t) = record_length t.
Proof. unfold record_of, record_length, len. rewrite !length_app. cbn. lia. Qed.

Lemma from_app i (l r : list Z) : i = len l -> from i (l ++ r) = r.
Proof. intros ->. unfold from, len. by rewrite Nat2Z.id, drop_app_length. Qed.

Lemma slice_middle i n (l m r : list Z) : i = len l -> n = len m -> slice i n (l ++ m ++ r) = m.
Proof. intros -> ->. unfold slice, len. by rewrite !Nat2Z.id, drop_app_length, take_app_length. Qed.

Lemma parse_16 n rest : 0 <= n < 2 ^ 16 -> PICOPARSE_16 (picoformat_16 n ++ rest) = Some n.
Proof. apply picoformat_roundtrip. Qed.

Lemma parse_64 n rest : is_u64 n -> PICOPARSE_64 (picoformat_64 n ++ rest) = Some n.
Proof. apply picoformat_roundtrip. Qed.

Lemma len_nonneg l : 0 <= len l.
Proof. unfold len. lia. Qed.

Lemma deserialize_record t : ticket_ok t -> picoquic_deserialize_ticket (record_of t) = Some (0, Some t, record_length t).
Proof.
  intros (Ht&Hs&Ha&Hk). unfold picoquic_deserialize_ticket. rewrite len_record. unfold record_length.
  pose proof (len_nonneg (sni t)). pose proof (len_nonneg (alpn t)).
  set (time := picoformat_64 (time_valid_until t)). assert (len time = 8) as H8 by done.
  assert (record_of t = time ++ (picoformat_16 (len (sni t)) ++ sni t ++ picoformat_16 (len (alpn t)) ++ alpn t
            ++ picoformat_16 (len (ticket t)) ++ ticket t)) as E1 by done.
  assert (record_of t = (time ++ picoformat_16 (len (sni t))) ++ sni t ++ (picoformat_16 (len (alpn t)) ++ alpn t
            ++ picoformat_16 (len (ticket t)) ++ ticket t)) as E2 by (rewrite E1, <- !app_assoc; done).
  assert (record_of t = (time ++ picoformat_16 (len (sni t)) ++ sni t) ++ (picoformat_16 (len (alpn t)) ++ alpn t
            ++ picoformat_16 (len (ticket t)) ++ ticket t)) as E3 by (rewrite E1, <- !app_assoc; done).
  assert (record_of t = (time ++ picoformat_16 (len (sni t)) ++ sni t ++ picoformat_16 (len (alpn t))) ++ alpn t
            ++ (picoformat_16 (len (ticket t)) ++ ticket t)) as E4 by (rewrite E1, <- !app_assoc; done).
  assert (record_of t = (time ++ picoformat_16 (len (sni t)) ++ sni t ++ picoformat_16 (len (alpn t)) ++ alpn t)
            ++ (picoformat_16 (len (ticket t)) ++ ticket t)) as E5 by (rewrite E1, <- !app_assoc; done).
  assert (record_of t = (time ++ picoformat_16 (len (sni t)) ++ sni t ++ picoformat_16 (len (alpn t)) ++ alpn t
            ++ picoformat_16 (len (ticket t))) ++ ticket t ++ []) as E6 by (rewrite app_nil_r, E1, <- !app_assoc; done).
  assert (forall a b, len (a ++ b) = len a + len b) as La by (intros; unfold len; rewrite length_app; lia).
  assert (forall n, len (picoformat_16 n) = 2) as L2 by done.
  rewrite (proj2 (Z.ltb_lt _ _)) by lia. rewrite (f_equal PICOPARSE_64 E1). unfold time at 1. rewrite parse_64 by done.
  cbn [mbind option_bind].
  rewrite (f_equal (from 8) E1), from_app, parse_16 by (first [done|lia]). cbn [mbind option_bind].
  rewrite (proj2 (Z.ltb_lt _ _)) by lia.
  rewrite (f_equal (from (10 + len (sni t))) E3), from_app, parse_16 by (rewrite ?La, ?L2, ?H8; lia). cbn [mbind option_bind].
  rewrite (proj2 (Z.ltb_lt _ _)) by lia.
  rewrite (f_equal (from (10 + len (sni t) + 2 + len (alpn t))) E5), from_app, parse_16 by (rewrite ?La, ?L2, ?H8; lia).
  cbn [mbind option_bind]. rewrite (proj2 (Z.ltb_ge _ _)) by lia.
  rewrite (f_equal (slice 10 (len (sni t))) E2), slice_middle by (rewrite ?La, ?L2, ?H8; done).
  rewrite (f_equal (slice (10 + len (sni t) + 2) (len (alpn t))) E4), slice_middle by (rewrite ?La, ?L2, ?H8; first [done|lia]).
  rewrite (f_equal (slice (10 + len (sni t) + 2 + len (alpn t) + 2) (len (ticket t))) E6), slice_middle by (rewrite ?La, ?L2, ?H8; first [done|lia]).
  by destruct t.
Qed.

(** Parsing stays in the record, and what it consumes is in it. *)
Lemma parse_16_some i bytes : 0 <= i -> i + 2 <= len bytes -> exists n, PICOPARSE_16 (from i bytes) = Some n.
Proof.
  unfold len, from. intros Hi H. assert (2 <= length (drop (Z.to_nat i) bytes))%nat as Hl by (rewrite length_drop; lia).
  destruct (drop (Z.to_nat i) bytes) as [|b0 [|b1 r]]; cbn in Hl; try lia. by eexists.
Qed.

Lemma parse_16_nonneg bytes n : Forall is_u8 bytes -> PICOPARSE_16 bytes = Some n -> 0 <= n.
Proof.
  intros Hb H. destruct bytes as [|b0 [|b1 r]]; try done. cbn in H. simplify_eq.
  apply list.Forall_cons in Hb as [H0 Hb]. apply list.Forall_cons in Hb as [H1 _].
  unfold is_u8 in *. apply Z.lor_nonneg. split; [apply Z.shiftl_nonneg|]; lia.
Qed.

Lemma from_u8 i bytes : Forall is_u8 bytes -> Forall is_u8 (from i bytes).
Proof. apply Forall_drop. Qed.

Lemma parse_64_some bytes : 8 <= len bytes -> exists n, PICOPARSE_64 bytes = Some n.
Proof.
  unfold len. intros H. destruct bytes as [|? [|? [|? [|? [|? [|? [|? [|? ?]]]]]]]]; cbn in H; try lia. by eexists.
Qed.

(** An integer at [i] that is in the record, and is not negative. *)
Lemma read_16 i bytes : Forall is_u8 bytes -> 0 <= i -> i + 2 <= len bytes ->
  exists n, PICOPARSE_16 (from i bytes) = Some n /\ 0 <= n.
Proof.
  intros Hb Hi H. destruct (parse_16_some i bytes Hi H) as [n Hn]. exists n. split; [done|].
  eapply parse_16_nonneg, Hn. by apply from_u8.
Qed.

Lemma deserialize_end bytes t required : 
  exists ret t' consumed,
    (if len bytes <? required then Some (ERROR_INVALID_TICKET, None : option stored_ticket, 0) else Some (0, Some t, required)) = Some (ret, t', consumed)
    /\ (ret = 0 -> t' <> None) /\ (t' = None -> ret = ERROR_INVALID_TICKET) /\ (14 <= len bytes -> consumed <= len bytes).
Proof.
  destruct (Z.ltb_spec (len bytes) required); do 3 eexists; (split; [reflexivity|]); split_and!; intros; try done; lia.
Qed.

Lemma deserialize_total bytes : Forall is_u8 bytes ->
  exists ret t consumed, picoquic_deserialize_ticket bytes = Some (ret, t, consumed)
    /\ (ret = 0 -> t <> None) /\ (t = None -> ret = ERROR_INVALID_TICKET) /\ (14 <= len bytes -> consumed <= len bytes).
Proof.
  intros Hb. unfold picoquic_deserialize_ticket. destruct (Z.ltb_spec (8 + 2 + 2 + 2) (len bytes)) as [Hn|Hn]; cbn [mbind option_bind].
  - destruct (parse_64_some bytes ltac:(lia)) as [time Ht]. destruct (read_16 8 bytes Hb ltac:(lia) ltac:(lia)) as (ns & Hs & ?).
    rewrite Ht, Hs. cbn [mbind option_bind].
    destruct (Z.ltb_spec (8 + 2 + 2 + 2 + ns) (len bytes)) as [Hn2|Hn2]; cbn [mbind option_bind].
    + destruct (read_16 (10 + ns) bytes Hb ltac:(lia) ltac:(lia)) as (na & Ha & ?). rewrite Ha. cbn [mbind option_bind].
      destruct (Z.ltb_spec (8 + 2 + 2 + 2 + ns + na) (len bytes)) as [Hn3|Hn3]; cbn [mbind option_bind].
      * destruct (read_16 (10 + ns + 2 + na) bytes Hb ltac:(lia) ltac:(lia)) as (nt & Hk & ?). rewrite Hk. cbn [mbind option_bind].
        apply deserialize_end.
      * apply deserialize_end.
    + rewrite (proj2 (Z.ltb_ge _ _) Hn2). cbn [mbind option_bind].
      apply deserialize_end.
  - repeat (rewrite (proj2 (Z.ltb_ge _ _) Hn); cbn [mbind option_bind]).
    apply deserialize_end.
Qed.

(** ** The file is read back *)

Lemma le32_read n r : 0 <= n < 2 ^ 32 -> of_le32 (le32 n ++ r) = Some (n, r).
Proof.
  intros Hn. cbn. do 2 f_equal. unfold u8. rewrite !Z.shiftr_div_pow2 by lia.
  change (2 ^ 8) with 256. change (2 ^ 16) with 65536. change (2 ^ 24) with 16777216.
  Z.to_euclidean_division_equations; lia.
Qed.

Definition loadable (t : stored_ticket) : Prop := ticket_ok t /\ record_length t <= 2048 - offset_time_valid_until.

Definition still_valid (now : Z) (t : stored_ticket) : bool := now <? time_valid_until t.
Definition kept_on_load (now : Z) (t : stored_ticket) : bool := negb (time_valid_until t <? now).

Lemma load_step fuel t rest now : loadable t ->
  load_loop (S fuel) (le32 (record_length t) ++ record_of t ++ rest) now =
  '(ret, l) ← load_loop fuel rest now; Some (ret, if time_valid_until t <? now then l else t :: l).
Proof.
  intros [Hok Hl]. unfold offset_time_valid_until in Hl.
  assert (14 < record_length t) by (destruct Hok as (_&_&_&?); unfold record_length;
    pose proof (len_nonneg (sni t)); pose proof (len_nonneg (alpn t)); lia).
  cbn [load_loop]. rewrite le32_read by lia. unfold offset_time_valid_until, u32. rewrite Z.mod_small by lia.
  rewrite (proj2 (Z.ltb_ge _ _)), (proj2 (Z.ltb_ge 2048 (record_length t))) by lia. cbn [andb].
  assert (len (record_of t ++ rest) = record_length t + len rest) as Hlen
    by (rewrite <- len_record; unfold len; rewrite length_app; lia).
  pose proof (len_nonneg rest). rewrite (proj2 (Z.ltb_ge _ _)) by lia.
  rewrite (slice_middle 0 _ [] (record_of t) rest) by (rewrite ?len_record; done). rewrite deserialize_record by done. cbn [mbind option_bind].
  rewrite !Z.eqb_refl. cbn [negb]. rewrite from_app by (by rewrite len_record). done.
Qed.

Lemma save_load l now now' : Forall loadable l -> forall fuel, (length (snd (picoquic_save_tickets l now)) < fuel)%nat ->
  fst (picoquic_save_tickets l now) = 0
  /\ load_loop fuel (snd (picoquic_save_tickets l now)) now' =
     Some (0, List.filter (kept_on_load now') (List.filter (still_valid now) l)).
Proof.
  induction 1 as [|t l Ht _ IH]; intros fuel Hf; [by destruct fuel; [cbn in Hf; lia|]|]. cbn [picoquic_save_tickets List.filter] in *.
  unfold still_valid at 1. destruct (now <? time_valid_until t); [|by apply IH].
  rewrite serialize_fits in * by (destruct Ht as [_ Ht]; unfold offset_time_valid_until in Ht; lia). cbn [Z.eqb] in *.
  destruct (picoquic_save_tickets l now) as [ret file]. cbn [fst snd] in *. rewrite len_record in *.
  destruct fuel as [|fuel]; [lia|]. rewrite !length_app in Hf. destruct (IH fuel ltac:(cbn in Hf; lia)) as [-> Hload].
  split; [done|]. rewrite load_step by done. rewrite Hload. cbn. unfold kept_on_load. by destruct (time_valid_until t <? now').
Qed.

(** ** The store *)

Lemma remove_old_get stored l now s a :
  same_key s a stored = false \/ time_valid_until stored <= now ->
  picoquic_get_ticket (remove_old stored l) now s a = picoquic_get_ticket l now s a.
Proof.
  intros H. induction l as [|t l IH]; [done|]. cbn [remove_old picoquic_get_ticket].
  destruct ((time_valid_until t <=? time_valid_until stored) && same_key (sni stored) (alpn stored) t)%bool eqn:E;
    cbn [picoquic_get_ticket]; [|by rewrite IH].
  apply andb_true_iff in E as [E1 E2]. apply Z.leb_le in E1.
  assert (((now <? time_valid_until t) && same_key s a t)%bool = false) as ->; [|exact IH].
  apply andb_false_iff. destruct H as [H|H]; [right|left; apply Z.ltb_ge; lia].
  unfold same_key in *. rewrite !andb_true_iff, !bool_decide_eq_true in E2. destruct E2 as [[[_ _] Es] Ea]. by rewrite Es, Ea.
Qed.

(** A call of [picoquic_store_ticket]; its allocation succeeds. *)
Record store_call := StoreCall { call_time : Z; call_sni : list Z; call_alpn : list Z; call_ticket : list Z }.

Fixpoint run_calls (calls : list store_call) (l : list stored_ticket) : option (list stored_ticket) :=
  match calls with
  | [] => Some l
  | k :: calls => '(_, l) ← picoquic_store_ticket l (call_time k) (call_sni k) (call_alpn k) (call_ticket k); run_calls calls l
  end.

(** *** What the store promises *)

(** The end of a ticket: it starts with its time of issue in milliseconds, and has its lifetime in seconds, of which at
    most a week counts, in the four bytes from the fourteenth on. *)
Definition end_of_ticket (tk : list Z) : Z :=
  (1000 * be_decode 0 (take 8 tk) + 1000000 * Z.min (7 * 24 * 3600) (be_decode 0 (take 4 (drop 13 tk)))) mod 2 ^ 64.

(** Whether a call adds a ticket: it has both fields, and it has not ended (there is no test at time 0). *)
Definition acceptable (k : store_call) : Prop :=
  (17 <= length (call_ticket k))%nat /\ (call_time k = 0 \/ call_time k <= end_of_ticket (call_ticket k)).
#[export] Instance acceptable_dec k : Decision (acceptable k) := _.

Definition ticket_of (k : store_call) : stored_ticket :=
  StoredTicket (end_of_ticket (call_ticket k)) (call_sni k) (call_alpn k) (call_ticket k).

(** Every ticket that was ever accepted, the latest first. *)
Definition history (calls : list store_call) : list stored_ticket := reverse (ticket_of <$> filter acceptable calls).

(** A ticket for this server and this protocol that has not ended. *)
Definition valid_for (now : Z) (s a : list Z) (t : stored_ticket) : Prop := now < time_valid_until t /\ sni t = s /\ alpn t = a.
#[export] Instance valid_for_dec now s a t : Decision (valid_for now s a t) := _.

Definition last_valid (h : list stored_ticket) (now : Z) (s a : list Z) : option (list Z) := ticket <$> head (filter (valid_for now s a) h).

Lemma valid_for_test now s a t : ((now <? time_valid_until t) && same_key s a t)%bool = bool_decide (valid_for now s a t).
Proof.
  apply eq_bool_prop_intro. rewrite !Is_true_true, bool_decide_eq_true. unfold same_key, valid_for, len.
  rewrite !andb_true_iff, !bool_decide_eq_true, Z.ltb_lt, !Z.eqb_eq. split; [tauto|]. intros (? & -> & ->). done.
Qed.

(** The search finds the first valid ticket. *)
Lemma get_ticket_last_valid l now s a : picoquic_get_ticket l now s a = last_valid l now s a.
Proof.
  unfold last_valid. induction l as [|t l IH]; [done|]. cbn [picoquic_get_ticket]. rewrite valid_for_test, filter_cons.
  case_bool_decide; [by rewrite decide_True|by rewrite decide_False].
Qed.

Definition same_answers (l h : list stored_ticket) : Prop :=
  forall now s a, picoquic_get_ticket l now s a = picoquic_get_ticket h now s a.

Lemma parse_32_some i bytes : 0 <= i -> i + 4 <= len bytes -> exists n, PICOPARSE_32 (from i bytes) = Some n.
Proof.
  unfold len, from. intros Hi H. assert (4 <= length (drop (Z.to_nat i) bytes))%nat as Hl by (rewrite length_drop; lia).
  destruct (drop (Z.to_nat i) bytes) as [|? [|? [|? [|? ?]]]]; cbn in Hl; try lia. by eexists.
Qed.

Lemma store_total l now s a tk : is_Some (picoquic_store_ticket l now s a tk).
Proof.
  unfold picoquic_store_ticket. destruct (Z.ltb_spec (len tk) 17); [done|].
  destruct (parse_64_some tk ltac:(lia)) as [issued ->]. destruct (parse_32_some 13 tk ltac:(lia) ltac:(lia)) as [ttl ->].
  cbn. by case_match.
Qed.

Lemma store_spec l k : Forall is_u8 (call_ticket k) ->
  exists ret, picoquic_store_ticket l (call_time k) (call_sni k) (call_alpn k) (call_ticket k)
    = Some (ret, if decide (acceptable k) then ticket_of k :: remove_old (ticket_of k) l else l).
Proof.
  intros Hb. unfold picoquic_store_ticket, acceptable. destruct (Z.ltb_spec (len (call_ticket k)) 17) as [Hlt|Hge]; unfold len in *.
  { rewrite decide_False by lia. by eexists. }
  assert (PICOPARSE_64 (call_ticket k) = Some (be_decode 0 (take 8 (call_ticket k)))) as ->.
  { rewrite <- (take_drop 8 (call_ticket k)) at 1. apply PICOPARSE_64_be; [by apply Forall_take|rewrite length_take; lia]. }
  assert (PICOPARSE_32 (from 13 (call_ticket k)) = Some (be_decode 0 (take 4 (drop 13 (call_ticket k))))) as ->.
  { unfold from. change (Z.to_nat 13) with 13%nat. rewrite <- (take_drop 4 (drop 13 (call_ticket k))) at 1.
    apply PICOPARSE_32_be; [by apply Forall_take, Forall_drop|rewrite length_take, length_drop; lia]. }
  cbn [mbind option_bind]. set (ttl := be_decode 0 (take 4 _)).
  assert ((if max_ttl <? ttl then max_ttl else ttl) = Z.min (7 * 24 * 3600) ttl) as -> by (unfold max_ttl; destruct (Z.ltb_spec (7 * 24 * 3600) ttl); lia).
  assert (u64 (u64 (be_decode 0 (take 8 (call_ticket k)) * 1000) + Z.min (7 * 24 * 3600) ttl * 1000000) = end_of_ticket (call_ticket k)) as ->.
  { unfold u64, end_of_ticket. rewrite Zplus_mod_idemp_l. f_equal. fold ttl. lia. }
  destruct (Z.eqb_spec (call_time k) 0) as [E|E]; cbn [negb andb].
  { rewrite decide_True by lia. by eexists. }
  destruct (Z.ltb_spec (end_of_ticket (call_ticket k)) (call_time k)); [rewrite decide_False by lia|rewrite decide_True by lia]; by eexists.
Qed.

Lemma store_run calls : forall l h, Forall (fun k => Forall is_u8 (call_ticket k)) calls -> same_answers l h ->
  exists l', run_calls calls l = Some l' /\ same_answers l' (history calls ++ h).
Proof.
  induction calls as [|k calls IH]; intros l h Hb Hs; [by exists l|]. apply list.Forall_cons in Hb as [Hk Hb]. cbn [run_calls].
  destruct (store_spec l k Hk) as [ret ->]. cbn [mbind option_bind]. unfold history. rewrite filter_cons. destruct (decide (acceptable k)) as [Ha|Ha].
  - rewrite fmap_cons, reverse_cons, <- app_assoc. cbn [app]. apply (IH _ (ticket_of k :: h)); [done|]. intros now s a. cbn [picoquic_get_ticket].
    rewrite <- (Hs now s a). destruct ((now <? time_valid_until (ticket_of k)) && same_key s a (ticket_of k))%bool eqn:E; [done|].
    apply remove_old_get. apply andb_false_iff in E as [E|E]; [right; by apply Z.ltb_ge|by left].
  - by apply IH.
Qed.

(** ** The theorems *)

(** C32. The store removes only tickets that it will never need: after any sequence of calls with tickets of whatever
    bytes, when the allocations succeed, the ticket that [picoquic_get_ticket] finds, at any time and for any server and protocol, is the last one
    for them that was accepted and has not ended.  Accepted is a ticket that has a time of issue and a lifetime
    and has not ended when it is stored. *)
Theorem ticket_store_refines_history calls :
  Forall (fun k => Forall is_u8 (call_ticket k)) calls ->
  exists l, run_calls calls [] = Some l /\ forall now s a, picoquic_get_ticket l now s a = last_valid (history calls) now s a.
Proof.
  intros Hb. destruct (store_run calls [] [] Hb ltac:(done)) as (l & Hl & Hs). exists l. split; [done|]. intros now s a.
  by rewrite (Hs now s a), app_nil_r, get_ticket_last_valid.
Qed.

(** Two tickets for one server, of which the second ends first, and what is found before and after that. *)
Definition sample_call (issued ttl id : Z) : store_call :=
  StoreCall 0 [115] [104] (picoformat_64 issued ++ replicate 5 0 ++ picoformat_32 ttl ++ [id]).

Lemma ticket_store_refines_history_witness :
  exists l, run_calls [sample_call 5000 3600 1; sample_call 6000 60 2] [] = Some l
    /\ picoquic_get_ticket l 65000000 [115] [104] = Some (call_ticket (sample_call 6000 60 2))
    /\ picoquic_get_ticket l 67000000 [115] [104] = Some (call_ticket (sample_call 5000 3600 1))
    /\ picoquic_get_ticket l 4000000000 [115] [104] = None.
Proof.
  destruct (ticket_store_refines_history [sample_call 5000 3600 1; sample_call 6000 60 2]) as (l & Hl & Hs).
  - apply list.Forall_cons. split; [|apply list.Forall_cons; split; [|constructor]]; apply (bool_decide_unpack _); vm_compute; exact I.
  - exists l. split; [exact Hl|]. rewrite !Hs. split; [vm_compute; reflexivity|]. split; vm_compute; reflexivity.
Defined.

(** C33. Tickets survive the process: what [picoquic_save_tickets] writes, [picoquic_load_tickets] reads back,
    without those that have ended, as long as no record is longer than 2016 bytes. *)
Theorem saved_tickets_loaded l now now' first :
  Forall loadable l ->
  fst (picoquic_save_tickets l now) = 0
  /\ picoquic_load_tickets first (snd (picoquic_save_tickets l now)) now' =
     Some (0, match List.filter (kept_on_load now') (List.filter (still_valid now) l) with [] => first | l => l end).
Proof.
  intros Hl. destruct (save_load l now now' Hl (S (length (snd (picoquic_save_tickets l now)))) ltac:(lia)) as [H1 H2].
  split; [done|]. unfold picoquic_load_tickets. rewrite H2. cbn [mbind option_bind]. by case_match.
Qed.

(** Reading a record of whatever bytes stays inside it. *)
Theorem deserialize_in_bounds bytes :
  Forall is_u8 bytes ->
  exists ret t consumed, picoquic_deserialize_ticket bytes = Some (ret, t, consumed)
    /\ (ret = 0 -> t <> None) /\ (t = None -> ret = ERROR_INVALID_TICKET) /\ (14 <= len bytes -> consumed <= len bytes).
Proof. apply deserialize_total. Qed.

(** ** Examples *)

Definition ex_ticket (n : nat) : stored_ticket := StoredTicket 1000 [97; 98] [104] (replicate n 7).

Lemma saved_tickets_loaded_witness :
  picoquic_load_tickets [] (snd (picoquic_save_tickets [ex_ticket 20; ex_ticket 30] 10)) 999 = Some (0, [ex_ticket 20; ex_ticket 30]).
Proof.
  apply (saved_tickets_loaded [ex_ticket 20; ex_ticket 30] 10 999 []).
  repeat constructor; vm_compute; congruence.
Defined.

Lemma deserialize_in_bounds_witness :
  exists ret t consumed, picoquic_deserialize_ticket (replicate 14 0) = Some (ret, t, consumed)
    /\ (ret = 0 -> t <> None) /\ (t = None -> ret = ERROR_INVALID_TICKET) /\ (14 <= len (replicate 14 0) -> consumed <= len (replicate 14 0)).
Proof. apply (deserialize_in_bounds (replicate 14 0)). apply Forall_replicate. unfold is_u8. lia. Defined.

(** The size of a record is compared with the buffer after the offset of a field was added: a record of 2017 bytes is
    written and refused, and the tickets behind it are lost. *)
Example long_record_not_loaded :
  fst (picoquic_save_tickets [ex_ticket 2000; ex_ticket 20] 10) = 0
  /\ picoquic_load_tickets [] (snd (picoquic_save_tickets [ex_ticket 2000; ex_ticket 20] 10)) 10 = Some (ERROR_INVALID_FILE, []).
Proof. by vm_compute. Qed.

(** The sum wraps around: a file can make the buffer overflow. *)
Example record_size_wraps : picoquic_load_tickets [] ([0xf0; 0xff; 0xff; 0xff] ++ replicate 2049 0) 0 = None.
Proof. by vm_compute. Qed.

(** A record of 14 bytes is not looked at. *)
Example short_record_ignored :
  picoquic_deserialize_ticket (replicate 8 9 ++ [0; 9; 0; 9; 0; 9]) = Some (0, Some (StoredTicket 0 [] [] []), 14).
Proof. by vm_compute. Qed.

End Tickets.
