(* ===== verification/PluginFrames.v ===== *)
(** * Frames of plugins

    picoquic/quicctx.c, picoquic/sender.c
      the reservations that plugins make for frames they want to send
      [picoquic_frame_fair_reserve], which picks reservations for the next packet, plugin by plugin
      [scheduler_write_new_frames], which writes retransmitted frames, retried frames and reserved frames

    The plugins of a connection are the list in the order of their hash table; a plugin is known by its
    position.  A slot is known by its address.  Queues are lists (see Containers for the queue itself);
    what a plugin writes for a slot is a parameter.  Outcomes are those of [Protoops]. *)
From stdpp Require Import base list numbers list_numbers.
From Stdlib Require Import ZArith Lia Bool.
From S2P Require Import Prelude Protoops.
Import Protoops.
#[local] Open Scope Z_scope.

Module PluginFrames.

(** ** Data *)

(** [reserve_frame_slot_t]; [rfs_p] is set when the slot is scheduled. *)
Record slot := Slot {
  rfs_address : Z;
  rfs_is_congestion_controlled : bool;
  rfs_contributes_to_bytes_in_transit : bool;
  rfs_low_priority : bool;
  rfs_frame_type : Z;
  rfs_nb_bytes : Z;
  rfs_p : nat
}.

(** [reserve_frames_block_t]. *)
Record block := Block {
  total_bytes : Z;
  is_congestion_controlled : bool;
  low_priority : bool;
  frames : list slot
}.

(** The fields of [protoop_plugin_t] that sending uses. *)
Record plugin := Plugin {
  block_queue_cc : list block;
  block_queue_non_cc : list block;
  bytes_in_flight : Z;
  bytes_total : Z;
  frames_total : Z;
  rate_unlimited : bool
}.

(** [struct iovec]: a copy of a frame, or a null pointer when there was no memory for it. *)
Record iovec := IoVec { iov_len : Z; iov_base : option (list Z) }.

(** The fields of [picoquic_cnx_t]; [rtx_frames] is the queue of the packet's context. *)
Record sender := Sender {
  plugins : list plugin;
  first_drr : option nat;
  core_rate : Z;
  reserved_frames : list slot;
  retry_frames : list slot;
  rtx_frames : list iovec;
  wake_now : bool
}.

Definition set_plugins (l : list plugin) (s : sender) : sender :=
  Sender l (first_drr s) (core_rate s) (reserved_frames s) (retry_frames s) (rtx_frames s) (wake_now s).
Definition set_queues (res retry : list slot) (rtx : list iovec) (s : sender) : sender :=
  Sender (plugins s) (first_drr s) (core_rate s) res retry rtx (wake_now s).
Definition set_wake (b : bool) (s : sender) : sender :=
  Sender (plugins s) (first_drr s) (core_rate s) (reserved_frames s) (retry_frames s) (rtx_frames s) b.
Definition set_first (o : option nat) (s : sender) : sender :=
  Sender (plugins s) o (core_rate s) (reserved_frames s) (retry_frames s) (rtx_frames s) (wake_now s).

Definition set_cc (q : list block) (p : plugin) : plugin :=
  Plugin q (block_queue_non_cc p) (bytes_in_flight p) (bytes_total p) (frames_total p) (rate_unlimited p).
Definition set_non_cc (q : list block) (p : plugin) : plugin :=
  Plugin (block_queue_cc p) q (bytes_in_flight p) (bytes_total p) (frames_total p) (rate_unlimited p).
Definition add_sent (n : Z) (p : plugin) : plugin :=
  Plugin (block_queue_cc p) (block_queue_non_cc p) (u64 (bytes_in_flight p + n)) (u64 (bytes_total p + n))
    (u64 (frames_total p + 1)) (rate_unlimited p).
Definition set_plugin (i : nat) (slot' : slot) : slot :=
  Slot (rfs_address slot') (rfs_is_congestion_controlled slot') (rfs_contributes_to_bytes_in_transit slot')
    (rfs_low_priority slot') (rfs_frame_type slot') (rfs_nb_bytes slot') i.

(** ** Reservations (quicctx.c) *)

Definition make_block (slots : list slot) : block :=
  Block (foldr (fun s acc => u64 (rfs_nb_bytes s + acc)) 0 slots)
    (existsb rfs_is_congestion_controlled slots) (forallb rfs_low_priority slots) slots.

(** [current]: the plugin that runs; the result is the number of bytes reserved. *)
Definition reserve_frames (current : option nat) (slots : list slot) (s : sender) : Z * sender :=
  match current with
  | None => (0, s)
  | Some i =>
      let b := make_block slots in
      let enqueue p :=
        if is_congestion_controlled b then set_cc (block_queue_cc p ++ [b]) p
        else set_non_cc (block_queue_non_cc p ++ [b]) p in
      (total_bytes b, set_wake true (set_plugins (alter enqueue i (plugins s)) s))
  end.

(** The oldest block of a queue is given back to the plugin. *)
Definition cancel_head_reservation (current : option nat) (congestion_controlled : bool) (s : sender) : list slot * sender :=
  match current ≫= fun i => (fun p => (i, p)) <$> plugins s !! i with
  | None => ([], s)
  | Some (i, p) =>
      match if congestion_controlled then block_queue_cc p else block_queue_non_cc p with
      | [] => ([], s)
      | b :: q => (frames b, set_plugins (alter (if congestion_controlled then set_cc q else set_non_cc q) i (plugins s)) s)
      end
  end.

Definition picoquic_has_booked_plugin_frames (s : sender) : bool :=
  match reserved_frames s, retry_frames s with [], [] => false | _, _ => true end.

(** ** Scheduling (sender.c) *)

(** The next plugin, the first one after the last. *)
Definition get_next_plugin (s : sender) (i : nat) : nat := if (S i <? length (plugins s))%nat then S i else 0%nat.

(** The plugins in the order of one round that starts with [i]. *)
Definition round (n i : nat) : list nat := seq i (n - i) ++ seq 0 i.

Definition has_congestion_controlled_plugin_frames_to_send (s : sender) : bool :=
  match first_drr s with
  | None => false
  | Some i => existsb (fun j => match plugins s !! j with Some p => negb (bool_decide (block_queue_cc p = [])) | None => false end)
                (round (length (plugins s)) i)
  end.

(** The congestion window and what is in transit on the path. *)
Record path := Path { cwin : Z; bytes_in_transit : Z }.

(** What a pass carries along. *)
Record pass := Pass {
  queued_bytes : Z;
  should_wake_now : bool;
  scheduled : list slot
}.

(** The inner loop: blocks of plugin [i] while [allowed] and while they fit. *)
Fixpoint take_blocks (i : nat) (allowed : bool) (x : path) (frame_mss : Z) (q : list block) (a : pass) : list block * pass :=
  match q with
  | [] => ([], a)
  | b :: q' =>
      if ((u64 (queued_bytes a + total_bytes b) <? frame_mss) && allowed
          && (negb (is_congestion_controlled b) || (bytes_in_transit x <? cwin x)))%bool
      then take_blocks i allowed x frame_mss q'
             (Pass (u64 (queued_bytes a + total_bytes b)) (should_wake_now a || negb (low_priority b))
                   (scheduled a ++ map (set_plugin i) (frames b)))
      else (q, a)
  end.

(** A round over one kind of queue, [get] and [set]; [allowed] says whether a plugin may send, given what the plugins
    before it have in flight.  The sum goes on in the second round. *)
Fixpoint run_pass (get : plugin -> list block) (set : list block -> plugin -> plugin) (allowed : plugin -> Z -> bool)
    (order : list nat) (x : path) (frame_mss total : Z) (ps : list plugin) (a : pass) : list plugin * pass * Z :=
  match order with
  | [] => (ps, a, total)
  | i :: order =>
      match ps !! i with
      | None => (ps, a, total)
      | Some p =>
          let '(q, a) := take_blocks i (allowed p total) x frame_mss (get p) a in
          run_pass get set allowed order x frame_mss (u64 (total + bytes_in_flight p)) (alter (set q) i ps) a
      end
  end.

(** First pass: the congestion controlled blocks of plugins under their rate, or without one. *)
Definition under_rate (stream : bool) (plugin_use max_plugin_cwin : Z) (p : plugin) (total : Z) : bool :=
  ((rate_unlimited p || (total <? max_plugin_cwin))
   && negb (stream && (negb (rate_unlimited p) && (max_plugin_cwin <=? plugin_use))))%bool.

Definition first_pass (order : list nat) (x : path) (stream : bool) (frame_mss plugin_use max_plugin_cwin : Z)
    (ps : list plugin) (a : pass) : list plugin * pass * Z :=
  run_pass block_queue_cc set_cc (under_rate stream plugin_use max_plugin_cwin) order x frame_mss 0 ps a.

(** Second pass: the other blocks of all plugins. *)
Definition second_pass (order : list nat) (x : path) (frame_mss total : Z) (ps : list plugin) (a : pass) : list plugin * pass * Z :=
  run_pass block_queue_non_cc set_non_cc (fun _ _ => true) order x frame_mss total ps a.

Definition max_plugin_cwin_of (x : path) (s : sender) : Z := u64 (cwin x * u64 (1000 - core_rate s)) / 1000.

Definition picoquic_frame_fair_reserve (x : path) (stream : bool) (frame_mss : Z) (s : sender) : Z * sender :=
  match plugins s with
  | [] => (0, s)
  | _ =>
      let first := default 0%nat (first_drr s) in
      let plugin_use := foldr (fun p acc => u64 (bytes_in_flight p + acc)) 0 (plugins s) in
      let max_plugin_cwin := max_plugin_cwin_of x s in
      let order := round (length (plugins s)) first in
      let '(ps, a, total) := first_pass order x stream frame_mss plugin_use max_plugin_cwin (plugins s) (Pass 0 false []) in
      let '(ps, a, total) := second_pass order x frame_mss total ps a in
      let s := set_queues (reserved_frames s ++ scheduled a) (retry_frames s) (rtx_frames s) (set_plugins ps s) in
      let s := set_first (Some (get_next_plugin s first)) s in
      let s := set_wake (should_wake_now a && (negb stream || (total <? max_plugin_cwin)))%bool s in
      (queued_bytes a, s)
  end.

(** ** Writing (sender.c) *)

Definition RETRY_NXT_PKT : Z := 0x800 + 1.

(** What the operation [write_frame] of a slot gives: its result, the number of bytes it claims to have written,
    whether the frame must be retransmitted, and what is then in the area of the packet that the slot reserved; and
    whether there is memory for the note of the frame. *)
Record written := Written { w_ret : Z; w_data_bytes : Z; w_is_retransmittable : bool; w_content : list Z; w_noted : bool }.

Section Writing.
Variable write_frame : slot -> written.

(** What is in the packet: its bytes, the flags, the plugin frames (the last one first); and the slots that were
    given up, of which the plugin is notified. *)
Record packet := Packet {
  pk_bytes : list Z;
  pk_is_pure_ack : bool;
  pk_is_congestion_controlled : bool;
  pk_plugin_frames : list (slot * Z * Z);
  pk_given_up : list slot
}.

Definition room (max_bytes : Z) (pk : packet) : Z := u64 (max_bytes - Z.of_nat (length (pk_bytes pk))).

(** First loop: frames of packets that were split for retransmission. *)
Fixpoint write_rtx (max_bytes : Z) (q : list iovec) (pk : packet) : list iovec * packet :=
  match q with
  | [] => ([], pk)
  | f :: q' =>
      if iov_len f <=? room max_bytes pk then
        write_rtx max_bytes q'
          (match iov_base f with
           | Some bytes => Packet (pk_bytes pk ++ bytes) false true (pk_plugin_frames pk) (pk_given_up pk)
           | None => pk
           end)
      else (q, pk)
  end.

(** The note of a frame is lost when there is no memory for it. *)
Definition register_plugin_in_pkt (noted : bool) (frame_offset bytes : Z) (rfs : slot) (l : list (slot * Z * Z)) : list (slot * Z * Z) :=
  if noted then (rfs, frame_offset, bytes) :: l else l.

(** One slot: [None] when it is to be tried again in the next packet.  The length of the packet grows by the number of
    bytes cut to 32 bits. *)
Definition write_slot (payload_offset : Z) (rfs : slot) (ps : list plugin) (pk : packet) : option (Z * list plugin * packet) :=
  let w := write_frame rfs in
  if ((w_ret w =? 0) && (0 <? w_data_bytes w) && (w_data_bytes w <=? rfs_nb_bytes rfs))%bool then
    Some (w_ret w, alter (add_sent (w_data_bytes w)) (rfs_p rfs) ps,
          Packet (pk_bytes pk ++ take (Z.to_nat (u32 (w_data_bytes w))) (w_content w))
            (if w_is_retransmittable w then false else pk_is_pure_ack pk)
            (pk_is_congestion_controlled pk || (rfs_is_congestion_controlled rfs || rfs_contributes_to_bytes_in_transit rfs))
            (register_plugin_in_pkt (w_noted w) (payload_offset + Z.of_nat (length (pk_bytes pk))) (w_data_bytes w) rfs (pk_plugin_frames pk))
            (pk_given_up pk))
  else if w_ret w =? RETRY_NXT_PKT then None
  else Some (w_ret w, ps, Packet (pk_bytes pk) (pk_is_pure_ack pk) (pk_is_congestion_controlled pk) (pk_plugin_frames pk) (rfs :: pk_given_up pk)).

(** The warning about a frame that is too long, with the name of the plugin that runs. *)
Definition too_long (rfs : slot) : bool :=
  let w := write_frame rfs in
  (negb ((w_ret w =? 0) && (0 <? w_data_bytes w) && (w_data_bytes w <=? rfs_nb_bytes rfs))
   && negb (w_ret w =? RETRY_NXT_PKT) && (rfs_nb_bytes rfs <? w_data_bytes w))%bool.

(** Second loop: slots to try again; it stops at the first one that it has put back.  The warning is printed without
    a test that a plugin runs. *)
Fixpoint write_retry (fuel : nat) (in_plugin : bool) (max_bytes payload_offset : Z) (first_retry : option Z) (q : list slot)
    (ret : Z) (ps : list plugin) (pk : packet) : outcome (Z * list slot * list plugin * packet) :=
  match fuel with
  | O => OutOfFuel
  | S fuel =>
      match q with
      | [] => Done (ret, [], ps, pk)
      | rfs :: q' =>
          if (negb (bool_decide (first_retry = Some (rfs_address rfs))) && (rfs_nb_bytes rfs <=? room max_bytes pk))%bool then
            if (negb in_plugin && too_long rfs)%bool then NullPointer
            else
              match write_slot payload_offset rfs ps pk with
              | Some (ret, ps, pk) => write_retry fuel in_plugin max_bytes payload_offset first_retry q' ret ps pk
              | None =>
                  write_retry fuel in_plugin max_bytes payload_offset (Some (default (rfs_address rfs) first_retry)) (q' ++ [rfs]) 0 ps pk
              end
          else Done (ret, q, ps, pk)
      end
  end.

(** Third loop: the reserved slots; those to be tried again go to the other queue. *)
Fixpoint write_reserved (max_bytes payload_offset : Z) (q retry : list slot) (ret : Z) (ps : list plugin) (pk : packet)
    : Z * list slot * list slot * list plugin * packet :=
  match q with
  | [] => (ret, [], retry, ps, pk)
  | rfs :: q' =>
      if rfs_nb_bytes rfs <=? room max_bytes pk then
        match write_slot payload_offset rfs ps pk with
        | Some (ret, ps, pk) => write_reserved max_bytes payload_offset q' retry ret ps pk
        | None => write_reserved max_bytes payload_offset q' (retry ++ [rfs]) 0 ps pk
        end
      else (ret, q, retry, ps, pk)
  end.

(** [scheduler_write_new_frames]: the result is that of the last slot. *)
Definition scheduler_write_new_frames (in_plugin : bool) (max_bytes payload_offset : Z) (cc : bool) (s : sender)
    : outcome (Z * sender * packet) :=
  let '(rtx, pk) := write_rtx max_bytes (rtx_frames s) (Packet [] true cc [] []) in
  let? r := write_retry (S (length (retry_frames s))) in_plugin max_bytes payload_offset None (retry_frames s) 0 (plugins s) pk in
  let '(ret, retry, ps, pk) := r in
  let '(ret, res, retry, ps, pk) := write_reserved max_bytes payload_offset (reserved_frames s) retry ret ps pk in
  Done (ret, set_queues res retry rtx (set_plugins ps s), pk).
End Writing.

(** ** What a round takes *)

Definition pending (q : list block) : list slot := concat (map frames q).
Definition bytes_of (q : list block) : Z := foldr (fun b acc => total_bytes b + acc) 0 q.

(** Sizes do not come near the end of the integers. *)
Definition sizes_ok (frame_mss : Z) (q : list block) : Prop :=
  frame_mss <= 2 ^ 63 /\ Forall (fun b => 0 <= total_bytes b < 2 ^ 63) q.

Definition of_plugin (i : nat) (l : list slot) : list slot := List.filter (fun s => Nat.eqb (rfs_p s) i) l.

Lemma of_plugin_app i l l' : of_plugin i (l ++ l') = of_plugin i l ++ of_plugin i l'.
Proof. apply List.filter_app. Qed.

Lemma of_plugin_same i l : of_plugin i (map (set_plugin i) l) = map (set_plugin i) l.
Proof. induction l as [|s l IH]; [done|]. cbn. rewrite Nat.eqb_refl. by f_equal. Qed.

Lemma of_plugin_other i j l : i <> j -> of_plugin i (map (set_plugin j) l) = [].
Proof. intros H. induction l as [|s l IH]; [done|]. cbn. destruct (Nat.eqb_spec j i); [congruence|done]. Qed.

Lemma pending_blocks_app q q' : pending (q ++ q') = pending q ++ pending q'.
Proof. unfold pending. by rewrite map_app, concat_app. Qed.

(** A queue gives some of its first blocks, and what they hold is scheduled in order. *)
Lemma take_blocks_spec i allowed x frame_mss q : sizes_ok frame_mss q -> forall a q' a',
  0 <= queued_bytes a < 2 ^ 63 -> take_blocks i allowed x frame_mss q a = (q', a') ->
  exists t, q = t ++ q' /\ scheduled a' = scheduled a ++ map (set_plugin i) (pending t)
    /\ queued_bytes a' = queued_bytes a + bytes_of t /\ (t = [] \/ queued_bytes a' < frame_mss)
    /\ (queued_bytes a < frame_mss -> queued_bytes a' < frame_mss) /\ 0 <= queued_bytes a' < 2 ^ 63
    /\ Forall (fun b => total_bytes b < frame_mss) t.
Proof.
  intros [Hm Hq]. induction Hq as [|b q Hb Hq IH]; intros a q' a' Ha H; cbn [take_blocks] in H.
  { simplify_eq. exists []. cbn. rewrite app_nil_r, Z.add_0_r. by repeat split; auto; lia. }
  destruct ((u64 (queued_bytes a + total_bytes b) <? frame_mss) && allowed && _)%bool eqn:E.
  - rewrite !andb_true_iff in E. destruct E as [[E _] _]. apply Z.ltb_lt in E.
    rewrite (u64_small (queued_bytes a + total_bytes b)) in * by lia.
    apply IH in H as (t & -> & Hs & Hn & Ht & _ & Hr & Hsm); [|cbn; lia]. cbn in Hs, Hn.
    assert (queued_bytes a' < frame_mss) as Hlt by (destruct Ht as [->|]; [cbn in Hn; lia|done]).
    exists (b :: t). split_and!; auto; try lia.
    + rewrite Hs. unfold pending. cbn. by rewrite <- app_assoc, map_app.
    + change (bytes_of (b :: t)) with (total_bytes b + bytes_of t). lia.
    + apply list.Forall_cons. split; [lia|done].
  - simplify_eq. exists []. cbn. rewrite app_nil_r, Z.add_0_r. by repeat split; auto; lia.
Qed.

(** The two kinds of queues of a plugin. *)
Record queue_kind (get : plugin -> list block) (set : list block -> plugin -> plugin) : Prop := QueueKind {
  kind_get : forall q p, get (set q p) = q;
  kind_set : forall q q' p, set q (set q' p) = set q p;
  kind_same : forall p, set (get p) p = p;
  kind_flight : forall q p, bytes_in_flight (set q p) = bytes_in_flight p;
  kind_rate : forall q p, rate_unlimited (set q p) = rate_unlimited p
}.

Lemma kind_cc : queue_kind block_queue_cc set_cc.
Proof. by split; intros; try done; destruct p. Qed.

Lemma kind_non_cc : queue_kind block_queue_non_cc set_non_cc.
Proof. by split; intros; try done; destruct p. Qed.

(** What happened to the plugin at [i]: the blocks [t] left its queue and [new] has what they hold. *)
Definition gave (m : Z) (get : plugin -> list block) (set : list block -> plugin -> plugin) (i : nat) (p p' : plugin) (new : list slot) : Prop :=
  exists t, get p = t ++ get p' /\ p' = set (get p') p /\ of_plugin i new = map (set_plugin i) (pending t)
    /\ Forall (fun b => total_bytes b < m) t.

Section Round.
Variable get : plugin -> list block.
Variable set : list block -> plugin -> plugin.
Variable allowed : plugin -> Z -> bool.
Variable x : path.
Variable frame_mss : Z.
Hypothesis kind : queue_kind get set.

Lemma gave_nothing i p new : of_plugin i new = [] -> gave frame_mss get set i p p new.
Proof. intros H. exists []. rewrite (kind_same _ _ kind). by rewrite H. Qed.

Lemma gave_trans i p p1 p2 new new' : gave frame_mss get set i p p1 new -> gave frame_mss get set i p1 p2 new' -> gave frame_mss get set i p p2 (new ++ new').
Proof.
  intros (t & Ht & Hp & Hn & Hm) (t' & Ht' & Hp' & Hn' & Hm'). exists (t ++ t'). split_and!.
  - by rewrite Ht, Ht', <- app_assoc.
  - rewrite Hp' at 1. rewrite Hp. by rewrite (kind_set _ _ kind).
  - by rewrite of_plugin_app, Hn, Hn', pending_blocks_app, map_app.
  - by apply Forall_app.
Qed.

Lemma run_pass_spec order : forall total ps a ps' a' total',
  Forall (fun i => (i < length ps)%nat) order -> Forall (fun p => sizes_ok frame_mss (get p)) ps -> 0 <= queued_bytes a < 2 ^ 63 ->
  run_pass get set allowed order x frame_mss total ps a = (ps', a', total') ->
  length ps' = length ps /\ exists new, scheduled a' = scheduled a ++ new
    /\ Forall (fun s => rfs_p s ∈ order) new
    /\ (forall i p, ps !! i = Some p -> exists p', ps' !! i = Some p' /\ gave frame_mss get set i p p' new)
    /\ (queued_bytes a < frame_mss -> queued_bytes a' < frame_mss) /\ (new = [] \/ queued_bytes a' < frame_mss \/ frame_mss <= queued_bytes a) /\ 0 <= queued_bytes a' < 2 ^ 63.
Proof.
  induction order as [|i order IH]; intros total ps a ps' a' total' Ho Hs Ha H; cbn [run_pass] in H.
  { simplify_eq. split; [done|]. exists []. rewrite app_nil_r.
    assert (forall i p, ps' !! i = Some p -> exists p', ps' !! i = Some p' /\ gave frame_mss get set i p p' []) as Hg by (intros i p Hp; exists p; split; [done|by apply gave_nothing]).
    split_and!; auto; lia. }
  apply list.Forall_cons in Ho as [Hi Ho]. destruct (lookup_lt_is_Some_2 ps i Hi) as [p Hp]. rewrite Hp in H.
  destruct (take_blocks i (allowed p total) x frame_mss (get p) a) as [q a1] eqn:Htb.
  assert (sizes_ok frame_mss (get p)) as Hsp by (exact (list.Forall_lookup_1 _ _ _ _ Hs Hp)).
  destruct (take_blocks_spec i _ x frame_mss (get p) Hsp a q a1 Ha Htb) as (t & Hg & Hsch & Hn & Htn & Hlt & Hr & Hsm).
  apply IH in H as (Hlen & new & Hs' & Hin & Hall & Hlt' & Hnew & Hr').
  - rewrite length_alter in Hlen. split; [done|]. exists (map (set_plugin i) (pending t) ++ new). split_and!.
    + by rewrite Hs', Hsch, <- app_assoc.
    + apply Forall_app. split; [|eapply list.Forall_impl; [exact Hin|]; intros; by right].
      apply list.Forall_forall. intros s (s' & -> & _)%list_elem_of_fmap. by left.
    + intros j pj Hj. destruct (decide (j = i)) as [->|Hne].
      * rewrite Hp in Hj. simplify_eq. destruct (Hall i (set q pj)) as (p' & Hp' & Hgave); [by rewrite list_lookup_alter_eq, Hp|].
        exists p'. split; [done|]. eapply gave_trans; [|exact Hgave]. exists t. rewrite (kind_get _ _ kind). split_and!; [done|done| |done].
        apply of_plugin_same.
      * destruct (Hall j pj) as (p' & Hp' & t' & H1 & H2 & H3 & H4); [by rewrite list_lookup_alter_ne|]. exists p'. split; [done|]. exists t'.
        split_and!; [done|done| |done]. rewrite of_plugin_app, of_plugin_other by done. done.
    + intros. auto.
    + destruct (decide (queued_bytes a < frame_mss)); [right; left; auto|]. right. right. lia.
    + lia.
    + lia.
  - eapply list.Forall_impl; [exact Ho|]. intros j Hj. by rewrite length_alter.
  - apply Forall_alter; [done|]. intros p0 Hp0 Hsp0. rewrite Hp in Hp0. simplify_eq. rewrite (kind_get _ _ kind).
    destruct Hsp as [? Hf]. split; [done|]. rewrite Hg in Hf. by apply Forall_app in Hf as [_ ?].
  - done.
Qed.

(** The plugin that comes first gives at least one block, if it may send and its first block fits. *)
Lemma run_pass_first i order total ps a ps' a' total' p b q :
  Forall (fun i => (i < length ps)%nat) (i :: order) -> Forall (fun p => sizes_ok frame_mss (get p)) ps -> 0 <= queued_bytes a < 2 ^ 63 ->
  ps !! i = Some p -> get p = b :: q -> queued_bytes a + total_bytes b < frame_mss -> allowed p total = true ->
  (is_congestion_controlled b = false \/ bytes_in_transit x < cwin x) ->
  run_pass get set allowed (i :: order) x frame_mss total ps a = (ps', a', total') ->
  exists p', ps' !! i = Some p' /\ (length (get p') < length (get p))%nat.
Proof.
  intros Ho Hs Ha Hp Hg Hb Hal Hcc H. cbn [run_pass] in H. rewrite Hp in H.
  assert (sizes_ok frame_mss (get p)) as Hsp by (exact (list.Forall_lookup_1 _ _ _ _ Hs Hp)).
  rewrite Hal, Hg in H. cbn [take_blocks] in H. rewrite Hg in Hsp. pose proof Hsp as [Hm Hf]. apply list.Forall_cons in Hf as [Hbb Hf].
  rewrite (u64_small (queued_bytes a + total_bytes b)) in H by lia. rewrite (proj2 (Z.ltb_lt _ _) Hb) in H.
  replace (negb (is_congestion_controlled b) || (bytes_in_transit x <? cwin x))%bool with true in H
    by (destruct Hcc as [->|Hcc]; [done|]; by rewrite (proj2 (Z.ltb_lt _ _) Hcc), orb_true_r).
  cbn [andb] in H. match type of H with context [take_blocks ?i ?al ?x ?m ?q ?a] => destruct (take_blocks i al x m q a) as [q1 a1] eqn:Htb end.
  apply take_blocks_spec in Htb as (t & -> & _ & Hn & _ & _ & Hr & _); [|split; done|cbn; lia].
  apply run_pass_spec in H as (_ & new & _ & _ & Hall & _).
  - destruct (Hall i (set q1 p)) as (p' & Hp' & t' & H1 & _); [by rewrite list_lookup_alter_eq, Hp|]. exists p'. split; [done|].
    rewrite (kind_get _ _ kind) in H1. rewrite Hg, H1. cbn. rewrite !length_app. lia.
  - apply list.Forall_cons in Ho as [_ Ho]. eapply list.Forall_impl; [exact Ho|]. intros j Hj. by rewrite length_alter.
  - apply Forall_alter; [done|]. intros p0 Hp0 _. rewrite Hp in Hp0. simplify_eq. rewrite (kind_get _ _ kind). split; [done|].
    by apply Forall_app in Hf as [_ ?].
  - done.
Qed.
End Round.

(** ** A call of the scheduler *)

Record sender_ok (frame_mss : Z) (s : sender) : Prop := SenderOk {
  ok_some : plugins s <> [];
  ok_first : forall i, first_drr s = Some i -> (i < length (plugins s))%nat;
  ok_cc : Forall (fun p => sizes_ok frame_mss (block_queue_cc p)) (plugins s);
  ok_non_cc : Forall (fun p => sizes_ok frame_mss (block_queue_non_cc p)) (plugins s)
}.

Definition first_of (s : sender) : nat := default 0%nat (first_drr s).

Lemma first_of_lt m s : sender_ok m s -> (first_of s < length (plugins s))%nat.
Proof.
  intros [Hn Hf _ _]. unfold first_of. destruct (first_drr s) as [i|] eqn:E; cbn; [by apply Hf|].
  destruct (plugins s); [done|cbn; lia].
Qed.

Lemma round_lt n i : (i < n)%nat -> Forall (fun j => (j < n)%nat) (round n i).
Proof.
  intros Hi. unfold round. apply Forall_app. split; apply list.Forall_forall; intros j Hj%elem_of_seq; lia.
Qed.

Lemma round_first n i : (i < n)%nat -> exists order, round n i = i :: order.
Proof. intros Hi. unfold round. replace (n - i)%nat with (S (n - S i)) by lia. cbn. by eexists. Qed.

Definition next_of (n i : nat) : nat := if (S i <? n)%nat then S i else 0%nat.

Lemma next_of_lt n i : (0 < n)%nat -> (next_of n i < n)%nat.
Proof. unfold next_of. destruct (Nat.ltb_spec (S i) n); lia. Qed.

(** What a call does to a plugin: blocks leave the two queues, nothing else changes. *)
Record served (m : Z) (i : nat) (p p' : plugin) (new : list slot) : Prop := Served {
  served_blocks : exists cc non_cc, block_queue_cc p = cc ++ block_queue_cc p' /\ block_queue_non_cc p = non_cc ++ block_queue_non_cc p'
    /\ of_plugin i new = map (set_plugin i) (pending cc ++ pending non_cc)
    /\ Forall (fun b => total_bytes b < m) (cc ++ non_cc);
  served_flight : bytes_in_flight p' = bytes_in_flight p;
  served_total : bytes_total p' = bytes_total p /\ frames_total p' = frames_total p;
  served_rate : rate_unlimited p' = rate_unlimited p
}.

Lemma gave_served m i p p1 p2 new1 new2 :
  gave m block_queue_cc set_cc i p p1 new1 -> gave m block_queue_non_cc set_non_cc i p1 p2 new2 -> served m i p p2 (new1 ++ new2).
Proof.
  intros (t & Ht & Hp & Hn & Hm) (t' & Ht' & Hp' & Hn' & Hm'). rewrite Hp' at 1. rewrite Hp. split; try done. exists t, t'. cbn.
  rewrite Hp in Ht'. cbn in Ht'. split_and!; [done|done| |by apply Forall_app]. by rewrite of_plugin_app, Hn, Hn', map_app.
Qed.

Section Call.
Variable x : path.
Variable stream : bool.
Variable frame_mss : Z.
Hypothesis mss_pos : 0 < frame_mss.

Definition plugin_use_of (s : sender) : Z := foldr (fun p acc => u64 (bytes_in_flight p + acc)) 0 (plugins s).

Lemma fair_reserve_spec s n s' : sender_ok frame_mss s -> picoquic_frame_fair_reserve x stream frame_mss s = (n, s') ->
  sender_ok frame_mss s' /\ length (plugins s') = length (plugins s) /\ first_drr s' = Some (get_next_plugin s (first_of s))
  /\ core_rate s' = core_rate s /\ 0 <= n < frame_mss
  /\ exists new, reserved_frames s' = reserved_frames s ++ new /\ Forall (fun r => (rfs_p r < length (plugins s))%nat) new
     /\ forall i p, plugins s !! i = Some p -> exists p', plugins s' !! i = Some p' /\ served frame_mss i p p' new.
Proof.
  intros Hok H. pose proof (first_of_lt _ _ Hok) as Hf. pose proof (round_lt _ _ Hf) as Hround. pose proof Hok as [Hne _ Hcc Hnon].
  unfold picoquic_frame_fair_reserve in H. destruct (plugins s) as [|p0 ps0] eqn:Hps; [done|]. rewrite <- Hps in *.
  fold (first_of s) in H. fold (plugin_use_of s) in H.
  destruct (first_pass _ _ _ _ _ _ _ _) as [[ps1 a1] total1] eqn:H1.
  destruct (second_pass _ _ _ _ _ _) as [[ps2 a2] total2] eqn:H2. injection H as <- <-.
  unfold first_pass in H1. unfold second_pass in H2.
  apply run_pass_spec in H1 as (Hl1 & new1 & Hs1 & Hin1 & Hall1 & Hlt1 & _ & Hr1); [|exact kind_cc|done|done|cbn; lia].
  assert (Forall (fun p => sizes_ok frame_mss (block_queue_non_cc p)) ps1) as Hnon1.
  { apply list.Forall_lookup. intros i p1 Hp1. destruct (lookup_lt_is_Some_2 (plugins s) i) as [p Hp].
    { rewrite <- Hl1. by eapply lookup_lt_Some. }
    destruct (Hall1 i p Hp) as (p' & Hp' & t & _ & Heq & _). rewrite Hp1 in Hp'. simplify_eq. rewrite Heq. cbn.
    exact (list.Forall_lookup_1 _ _ _ _ Hnon Hp). }
  apply run_pass_spec in H2 as (Hl2 & new2 & Hs2 & Hin2 & Hall2 & Hlt2 & _ & Hr2); [|exact kind_non_cc|by rewrite Hl1|done|lia].
  assert (forall i p, plugins s !! i = Some p -> exists p', ps2 !! i = Some p' /\ served frame_mss i p p' (new1 ++ new2)) as Hall.
  { intros i p Hp. destruct (Hall1 i p Hp) as (p1 & Hp1 & G1). destruct (Hall2 i p1 Hp1) as (p2 & Hp2 & G2).
    exists p2. split; [done|]. by eapply gave_served. }
  assert (forall q q' t, q = t ++ q' -> sizes_ok frame_mss q -> sizes_ok frame_mss q') as Hsuf.
  { intros q q' t -> [? Hq]. split; [done|]. by apply Forall_app in Hq as [_ ?]. }
  cbn [plugins first_drr core_rate reserved_frames queued_bytes set_wake set_first set_queues set_plugins] in *.
  unfold get_next_plugin. cbn [plugins set_queues set_plugins]. fold (next_of (length ps2) (first_of s)) (next_of (length (plugins s)) (first_of s)).
  split_and!; try (done || lia || congruence).
  - assert (forall i p2, ps2 !! i = Some p2 -> exists p, plugins s !! i = Some p /\ served frame_mss i p p2 (new1 ++ new2)) as Hback.
    { intros i p2 Hp2. destruct (lookup_lt_is_Some_2 (plugins s) i) as [p Hp].
      { rewrite <- Hl1, <- Hl2. by eapply lookup_lt_Some. }
      destruct (Hall i p Hp) as (p' & Hp' & Hsv). simplify_eq. eauto. }
    constructor; cbn [plugins first_drr set_wake set_first set_queues set_plugins].
    + intros ->. cbn in Hl2. rewrite Hl1, Hps in Hl2. done.
    + intros i [= <-]. apply next_of_lt. rewrite Hl2, Hl1, Hps. cbn. lia.
    + apply list.Forall_lookup. intros i p2 Hp2. destruct (Hback i p2 Hp2) as (p & Hp & [(cc & non & Hq & _) _ _ _]).
      eapply Hsuf; [exact Hq|]. exact (list.Forall_lookup_1 _ _ _ _ Hcc Hp).
    + apply list.Forall_lookup. intros i p2 Hp2. destruct (Hback i p2 Hp2) as (p & Hp & [(cc & non & _ & Hq & _) _ _ _]).
      eapply Hsuf; [exact Hq|]. exact (list.Forall_lookup_1 _ _ _ _ Hnon Hp).
  - exists (new1 ++ new2). split_and!; [by rewrite Hs2, Hs1| |exact Hall].
    apply Forall_app. split; (eapply list.Forall_impl; [eassumption|]; intros r Hr; exact (proj1 (list.Forall_forall _ _) Hround _ Hr)).
Qed.

(** *** Every plugin has its turn *)

Fixpoint calls (k : nat) (s : sender) : sender :=
  match k with O => s | S k => calls k (snd (picoquic_frame_fair_reserve x stream frame_mss s)) end.

(** A plugin that may send when it comes first. *)
Definition may_send (s : sender) (p : plugin) : Prop :=
  rate_unlimited p = true \/ (0 < max_plugin_cwin_of x s /\ (stream = false \/ plugin_use_of s < max_plugin_cwin_of x s)).

Lemma may_send_allowed s p : may_send s p -> under_rate stream (plugin_use_of s) (max_plugin_cwin_of x s) p 0 = true.
Proof.
  intros H. unfold under_rate. destruct H as [->|[H0 H]]; cbn [negb orb andb]; [by rewrite andb_false_r|].
  rewrite (proj2 (Z.ltb_lt _ _) H0), orb_true_r. destruct H as [->|H]; [done|]. rewrite (proj2 (Z.leb_gt _ _) H).
  by rewrite !andb_false_r.
Qed.

Lemma call_first s p b q : sender_ok frame_mss s -> plugins s !! first_of s = Some p -> block_queue_cc p = b :: q ->
  total_bytes b < frame_mss -> may_send s p -> bytes_in_transit x < cwin x ->
  exists p', plugins (snd (picoquic_frame_fair_reserve x stream frame_mss s)) !! first_of s = Some p'
    /\ (length (block_queue_cc p') < length (block_queue_cc p))%nat.
Proof.
  intros Hok Hp Hq Hb Hm Hx. pose proof (first_of_lt _ _ Hok) as Hf. pose proof (round_lt _ _ Hf) as Hround. pose proof Hok as [Hne _ Hcc Hnon].
  unfold picoquic_frame_fair_reserve. destruct (plugins s) as [|p0 ps0] eqn:Hps; [done|]. rewrite <- Hps in *.
  fold (first_of s). fold (plugin_use_of s). destruct (round_first _ _ Hf) as [order Hord].
  destruct (first_pass _ _ _ _ _ _ _ _) as [[ps1 a1] total1] eqn:H1.
  destruct (second_pass _ _ _ _ _ _) as [[ps2 a2] total2] eqn:H2. cbn [snd plugins set_wake set_first set_queues set_plugins].
  unfold first_pass in H1. unfold second_pass in H2. pose proof H1 as H1'.
  rewrite Hord in H1. apply (run_pass_first _ _ _ _ _ kind_cc _ _ _ _ _ _ _ _ p b q) in H1 as (p1 & Hp1 & Hlt1);
    [|by rewrite <- Hord|done|cbn; lia|done|done|cbn; lia|by apply may_send_allowed|by right].
  apply run_pass_spec in H1' as (Hl1 & new1 & _ & _ & Hall1 & _ & _ & Hr1); [|exact kind_cc|done|done|cbn; lia].
  assert (Forall (fun p => sizes_ok frame_mss (block_queue_non_cc p)) ps1) as Hnon1.
  { apply list.Forall_lookup. intros i p' Hp'. destruct (lookup_lt_is_Some_2 (plugins s) i) as [p2 Hp2].
    { rewrite <- Hl1. by eapply lookup_lt_Some. }
    destruct (Hall1 i p2 Hp2) as (p'' & Hp'' & t & _ & Heq & _). rewrite Hp' in Hp''. simplify_eq. rewrite Heq. cbn.
    exact (list.Forall_lookup_1 _ _ _ _ Hnon Hp2). }
  apply run_pass_spec in H2 as (_ & new2 & _ & _ & Hall2 & _); [|exact kind_non_cc|by rewrite Hl1|done|lia].
  destruct (Hall2 _ _ Hp1) as (p2 & Hp2 & t & _ & Heq & _). exists p2. split; [done|]. rewrite Heq. by cbn.
Qed.

Lemma call_keeps s i p : sender_ok frame_mss s -> plugins s !! i = Some p ->
  let s' := snd (picoquic_frame_fair_reserve x stream frame_mss s) in
  sender_ok frame_mss s' /\ length (plugins s') = length (plugins s) /\ first_drr s' = Some (next_of (length (plugins s)) (first_of s))
  /\ (forall p, may_send s p -> may_send s' p)
  /\ exists p' t, plugins s' !! i = Some p' /\ block_queue_cc p = t ++ block_queue_cc p' /\ rate_unlimited p' = rate_unlimited p
     /\ Forall (fun b => total_bytes b < frame_mss) t.
Proof.
  intros Hok Hp s'. destruct (picoquic_frame_fair_reserve x stream frame_mss s) as [n s1] eqn:H. subst s'. cbn [snd].
  apply fair_reserve_spec in H as (Hok1 & Hl & Hfst & Hrate & _ & new & _ & _ & Hall); [|done].
  assert (plugin_use_of s1 = plugin_use_of s) as Huse.
  { unfold plugin_use_of. assert (map bytes_in_flight (plugins s1) = map bytes_in_flight (plugins s)) as Hmap.
    { apply list_eq. intros j. change (bytes_in_flight <$> plugins s1) with (fmap bytes_in_flight (plugins s1)).
      rewrite !list_lookup_fmap. destruct (plugins s !! j) as [pj|] eqn:Hj.
      - destruct (Hall j pj Hj) as (p' & -> & [_ Hfl _ _]). cbn. by rewrite Hfl.
      - apply lookup_ge_None in Hj. by rewrite (proj2 (lookup_ge_None (plugins s1) j)) by lia. }
    clear -Hmap. revert Hmap. generalize (plugins s1), (plugins s). intros l. induction l as [|a l IH]; intros [|b l'] H; try done.
    cbn in H |- *. simplify_eq. by rewrite (IH l'), H. }
  split_and!; [done|done|exact Hfst| |].
  - intros p1 [?|?]; [by left|right]. unfold max_plugin_cwin_of in *. by rewrite Hrate, Huse.
  - destruct (Hall i p Hp) as (p' & Hp' & [(cc & non & Hq & _ & _ & Hsm) _ _ Hr]). apply Forall_app in Hsm as [Hsm _]. by exists p', cc.
Qed.

Lemma calls_shrink k : forall s i p, sender_ok frame_mss s -> plugins s !! i = Some p ->
  exists p', plugins (calls k s) !! i = Some p' /\ (length (block_queue_cc p') <= length (block_queue_cc p))%nat.
Proof.
  induction k as [|k IH]; intros s i p Hok Hp; cbn [calls]; [eauto|].
  destruct (call_keeps s i p Hok Hp) as (Hok' & _ & _ & _ & p' & t & Hp' & Hq & _).
  destruct (IH _ i p' Hok' Hp') as (p2 & Hp2 & Hle). exists p2. split; [done|]. rewrite Hq, length_app. lia.
Qed.

(** From [s] to [s'], plugin [i] gave its oldest blocks [cc] and [non_cc]: their frames, and no others of that plugin, were
    appended to the reserved frames, those of each kind in their order. *)
Record given (i : nat) (p p' : plugin) (cc non_cc : list block) (s s' : sender) : Prop := Given {
  given_cc : block_queue_cc p = cc ++ block_queue_cc p';
  given_non_cc : block_queue_non_cc p = non_cc ++ block_queue_non_cc p';
  given_frames : exists new, of_plugin i (reserved_frames s') = of_plugin i (reserved_frames s) ++ new
    /\ new ≡ₚ map (set_plugin i) (pending cc ++ pending non_cc)
    /\ map (set_plugin i) (pending cc) `sublist_of` new /\ map (set_plugin i) (pending non_cc) `sublist_of` new
}.

Lemma given_trans i p p1 p2 cc non_cc cc' non_cc' s s1 s2 :
  given i p p1 cc non_cc s s1 -> given i p1 p2 cc' non_cc' s1 s2 -> given i p p2 (cc ++ cc') (non_cc ++ non_cc') s s2.
Proof.
  intros [Hc Hn (new & Hr & Hp & S1 & S2)] [Hc' Hn' (new' & Hr' & Hp' & S1' & S2')]. split.
  - by rewrite Hc, Hc', app_assoc.
  - by rewrite Hn, Hn', app_assoc.
  - exists (new ++ new'). rewrite !pending_blocks_app, !map_app in *. split_and!; [by rewrite Hr', Hr, app_assoc|rewrite Hp, Hp'; solve_Permutation|..];
      by apply sublist_app.
Qed.

Lemma calls_give k : forall s i p, sender_ok frame_mss s -> plugins s !! i = Some p ->
  sender_ok frame_mss (calls k s) /\ exists p' cc non_cc, plugins (calls k s) !! i = Some p' /\ given i p p' cc non_cc s (calls k s).
Proof.
  induction k as [|k IH]; intros s i p Hok Hp; cbn [calls].
  { split; [done|]. exists p, [], []. split; [done|]. split; [done|done|]. exists []. cbn. by rewrite app_nil_r. }
  destruct (picoquic_frame_fair_reserve x stream frame_mss s) as [n s1] eqn:H. cbn [snd].
  apply fair_reserve_spec in H as (Hok1 & _ & _ & _ & _ & new & Hr & _ & Hall); [|done].
  destruct (Hall i p Hp) as (p1 & Hp1 & [(cc & non & Hc & Hn & Hf & _) _ _ _]).
  destruct (IH s1 i p1 Hok1 Hp1) as (Hok2 & p2 & cc2 & non2 & Hp2 & Hg). split; [done|]. exists p2, (cc ++ cc2), (non ++ non2). split; [done|].
  eapply given_trans; [|exact Hg]. split; [done|done|]. exists (of_plugin i new). rewrite Hr, of_plugin_app, Hf, map_app.
  split_and!; [done|done|by apply sublist_inserts_r|by apply sublist_inserts_l].
Qed.

Lemma calls_add k k' s : calls (k + k') s = calls k' (calls k s).
Proof. revert s. induction k as [|k IH]; intros s; [done|]. cbn. apply IH. Qed.

(** A plugin that comes first after [k] more rounds has given a block by then. *)
Lemma served_in k : forall s p b q i, sender_ok frame_mss s -> Nat.iter k (next_of (length (plugins s))) (first_of s) = i ->
  plugins s !! i = Some p -> block_queue_cc p = b :: q -> total_bytes b < frame_mss -> may_send s p -> bytes_in_transit x < cwin x ->
  exists p', plugins (calls (S k) s) !! i = Some p' /\ (length (block_queue_cc p') < length (block_queue_cc p))%nat.
Proof.
  induction k as [|k IH]; intros s p b q i Hok Hi Hp Hq Hb Hm Hx.
  { cbn in Hi |- *. subst i. by eapply call_first. }
  change (calls (S (S k)) s) with (calls (S k) (snd (picoquic_frame_fair_reserve x stream frame_mss s))).
  destruct (call_keeps s i p Hok Hp) as (Hok' & Hl & Hf & Hms & p' & t & Hp' & Hqt & Hr & _).
  set (s' := snd (picoquic_frame_fair_reserve x stream frame_mss s)) in *. destruct t as [|b' t].
  - cbn in Hqt. rewrite Nat.iter_succ_r in Hi. rewrite Hqt.
    apply (IH s' p' b q i); [done| |done|congruence|done| |done].
    + unfold first_of at 1. by rewrite Hf, Hl.
    + apply Hms. destruct Hm as [Hm|Hm]; [left; congruence|by right].
  - destruct (calls_shrink (S k) s' i p' Hok' Hp') as (p2 & Hp2 & Hle). exists p2. split; [done|]. rewrite Hqt. cbn.
    rewrite length_app. lia.
Qed.

Lemma next_reaches n f i : (f < n)%nat -> (i < n)%nat -> exists k, (k < n)%nat /\ Nat.iter k (next_of n) f = i.
Proof.
  intros Hf Hi. assert (forall k, (f + k < n)%nat -> Nat.iter k (next_of n) f = (f + k)%nat) as H1.
  { induction k as [|k IH]; intros Hk; [cbn; lia|]. rewrite Nat.iter_succ, IH by lia. unfold next_of. rewrite (proj2 (Nat.ltb_lt _ _)); lia. }
  destruct (le_lt_dec f i); [exists (i - f)%nat; rewrite H1; lia|].
  assert (forall j, (j < n)%nat -> Nat.iter (n - f + j) (next_of n) f = j) as H2.
  { induction j as [|j IH]; intros Hj.
    - replace (n - f + 0)%nat with (S (n - f - 1)) by lia. rewrite Nat.iter_succ, H1 by lia. unfold next_of. by rewrite (proj2 (Nat.ltb_ge _ _)) by lia.
    - replace (n - f + S j)%nat with (S (n - f + j)) by lia. rewrite Nat.iter_succ, IH by lia. unfold next_of. by rewrite (proj2 (Nat.ltb_lt _ _)) by lia. }
  exists (n - f + i)%nat. rewrite H2; lia.
Qed.
End Call.

(** ** What the writer leaves *)

Section Writer.
Variable write_frame : slot -> written.

(** The area of a slot has the size that was reserved. *)
Definition area_ok : Prop := forall rfs, 0 <= rfs_nb_bytes rfs -> Z.of_nat (length (w_content (write_frame rfs))) = rfs_nb_bytes rfs.
Hypothesis areas : area_ok.

Variable max_bytes payload_offset : Z.
Hypothesis max_ok : 0 <= max_bytes < 2 ^ 63.

(** The frame that a slot was used for: the first bytes of its area, as many as the plugin says. *)
Definition frame_of (rfs : slot) : list Z := take (Z.to_nat (w_data_bytes (write_frame rfs))) (w_content (write_frame rfs)).

(** The notes of the frames of [ws], written one after the other from [offset] on, as far as there was memory for them. *)
Fixpoint notes (offset : Z) (ws : list slot) : list (slot * Z * Z) :=
  match ws with
  | [] => []
  | rfs :: ws =>
      (if w_noted (write_frame rfs) then [(rfs, offset, Z.of_nat (length (frame_of rfs)))] else [])
      ++ notes (offset + Z.of_nat (length (frame_of rfs))) ws
  end.

(** The bytes and the frames that the plugins of [ws] have sent. *)
Definition count_sent (ws : list slot) (ps : list plugin) : list plugin :=
  foldl (fun ps rfs => alter (add_sent (Z.of_nat (length (frame_of rfs)))) (rfs_p rfs) ps) ps ws.

(** The packet fits and is what was in it first, followed by the frames of [ws] in this order, with their notes. *)
Record packet_ok (base : list Z) (ws : list slot) (pk : packet) : Prop := PacketOk {
  ok_fits : Z.of_nat (length (pk_bytes pk)) <= max_bytes;
  ok_bytes : pk_bytes pk = base ++ concat (map frame_of ws);
  ok_notes : pk_plugin_frames pk = rev (notes (payload_offset + Z.of_nat (length base)) ws)
}.

Lemma room_exact base ws pk : packet_ok base ws pk -> room max_bytes pk = max_bytes - Z.of_nat (length (pk_bytes pk)).
Proof. intros [Hf _ _]. unfold room. apply u64_small. lia. Qed.

Lemma notes_app offset ws ws' :
  notes offset (ws ++ ws') = notes offset ws ++ notes (offset + Z.of_nat (length (concat (map frame_of ws)))) ws'.
Proof.
  revert offset. induction ws as [|rfs ws IH]; intros offset; cbn; [by rewrite Z.add_0_r|].
  rewrite IH, <- app_assoc, length_app. do 3 f_equal. lia.
Qed.

Lemma count_sent_app ws ws' ps : count_sent (ws ++ ws') ps = count_sent ws' (count_sent ws ps).
Proof. apply foldl_app. Qed.

(** A slot is written, behind what is in the packet, or given up. *)
Lemma write_slot_ok base ws rfs ps pk ret ps' pk' : max_bytes < 2 ^ 32 -> packet_ok base ws pk -> rfs_nb_bytes rfs <= room max_bytes pk ->
  write_slot write_frame payload_offset rfs ps pk = Some (ret, ps', pk') ->
  exists new, packet_ok base (ws ++ new) pk' /\ ps' = count_sent new ps /\ new ++ pk_given_up pk' ≡ₚ rfs :: pk_given_up pk.
Proof.
  intros H32 Hok Hr H. rewrite (room_exact _ _ _ Hok) in Hr. unfold write_slot in H. destruct Hok as [Hf Hb Hp].
  destruct ((w_ret (write_frame rfs) =? 0) && (0 <? w_data_bytes (write_frame rfs)) && (w_data_bytes (write_frame rfs) <=? rfs_nb_bytes rfs))%bool eqn:E.
  - rewrite !andb_true_iff in E. destruct E as [[E1 E2] E3]. apply Z.ltb_lt in E2. apply Z.leb_le in E3.
    rewrite (u32_small (w_data_bytes _)) in H by lia. fold (frame_of rfs) in H.
    assert (Z.of_nat (length (frame_of rfs)) = w_data_bytes (write_frame rfs)) as Hlen.
    { pose proof (areas rfs ltac:(lia)). unfold frame_of. rewrite length_take. lia. }
    injection H as <- <- <-. exists [rfs]. rewrite <- Hlen. split_and!; [|done|done]. constructor; cbn [pk_bytes pk_plugin_frames].
    + rewrite length_app. lia.
    + by rewrite Hb, map_app, concat_app, <- app_assoc; cbn; rewrite app_nil_r.
    + rewrite notes_app, rev_app_distr, Hb, Hp, length_app. cbn [notes]. rewrite app_nil_r, Nat2Z.inj_add, Z.add_assoc.
      by destruct (w_noted (write_frame rfs)).
  - case_match; [done|]. simplify_eq. exists []. rewrite app_nil_r. split_and!; [by constructor|done|done].
Qed.

Lemma write_retry_ok in_plugin base todo : max_bytes < 2 ^ 32 -> forall fuel back first_retry ret ws ps pk,
  NoDup (rfs_address <$> todo ++ back) -> first_retry = rfs_address <$> head back -> (length todo < fuel)%nat -> packet_ok base ws pk ->
  match write_retry write_frame fuel in_plugin max_bytes payload_offset first_retry (todo ++ back) ret ps pk with
  | Done (_, q, ps', pk') => exists new, packet_ok base (ws ++ new) pk' /\ ps' = count_sent new ps
      /\ todo ++ back ++ pk_given_up pk ≡ₚ q ++ new ++ pk_given_up pk'
  | NullPointer => in_plugin = false /\ Exists (fun r => too_long write_frame r = true) todo
  | _ => False
  end.
Proof.
  intros H32. induction todo as [|rfs todo IH]; intros fuel back first_retry ret ws ps pk Hnd Hfst Hfuel Hok; (destruct fuel as [|fuel]; [lia|]);
    cbn [app write_retry].
  { destruct back as [|b back]; [exists []; by rewrite app_nil_r|]. subst first_retry. cbn. rewrite bool_decide_eq_true_2 by done.
    exists []. by rewrite app_nil_r. }
  rewrite (bool_decide_eq_false_2 (first_retry = Some (rfs_address rfs))); last first.
  { subst first_retry. destruct back as [|b back]; cbn; [done|]. intros [= Heq]. cbn in Hnd. apply list.NoDup_cons in Hnd as [Hni _].
    apply Hni. rewrite <- Heq. rewrite fmap_app. apply elem_of_app. right. by left. }
  cbn [negb andb]. destruct (Z.leb_spec (rfs_nb_bytes rfs) (room max_bytes pk)) as [Hr|Hr];
    [|exists []; rewrite app_nil_r; split_and!; [done|done|]; cbn; by rewrite <- app_assoc].
  destruct (negb in_plugin && too_long write_frame rfs)%bool eqn:Hlong.
  { apply andb_true_iff in Hlong as [Hi Hlong]. split; [by destruct in_plugin|]. by left. }
  cbn in Hfuel. pose proof Hnd as Hnd'. cbn in Hnd'. apply list.NoDup_cons in Hnd' as [Hni Hnd'].
  destruct (write_slot write_frame payload_offset rfs ps pk) as [[[ret' ps'] pk']|] eqn:Hw.
  - destruct (write_slot_ok base ws rfs ps pk ret' ps' pk' H32 Hok Hr Hw) as (new & Hok' & -> & Hd).
    specialize (IH fuel back first_retry ret' _ (count_sent new ps) pk' Hnd' Hfst ltac:(lia) Hok').
    destruct (write_retry _ _ _ _ _ _ _ _ _ _) as [[[[r q] ps2] pk2]| | | |]; try done; [|destruct IH; split; [done|by right]].
    destruct IH as (new2 & Hok2 & -> & Hp). exists (new ++ new2). rewrite app_assoc, count_sent_app. split_and!; [done|done|].
    transitivity (todo ++ back ++ rfs :: pk_given_up pk); [solve_Permutation|]. rewrite <- Hd.
    transitivity (new ++ todo ++ back ++ pk_given_up pk'); [solve_Permutation|]. rewrite Hp. solve_Permutation.
  - rewrite <- app_assoc.
    specialize (IH fuel (back ++ [rfs]) (Some (default (rfs_address rfs) first_retry)) 0 ws ps pk).
    assert (NoDup (rfs_address <$> todo ++ back ++ [rfs])) as Hnd2 by (rewrite app_assoc, fmap_app, Permutation_app_comm; cbn; by constructor).
    specialize (IH Hnd2 ltac:(by subst first_retry; destruct back) ltac:(lia) Hok).
    destruct (write_retry _ _ _ _ _ _ _ _ _ _) as [[[[r q] ps2] pk2]| | | |]; try done; [|destruct IH; split; [done|by right]].
    destruct IH as (new & Hok2 & -> & Hp). exists new. split_and!; [done|done|]. rewrite <- Hp, <- app_assoc. cbn. by rewrite !Permutation_middle.
Qed.

Lemma write_reserved_ok base q : max_bytes < 2 ^ 32 -> forall retry ret ws ps pk, packet_ok base ws pk ->
  let '(_, q', retry', ps', pk') := write_reserved write_frame max_bytes payload_offset q retry ret ps pk in
  exists new, packet_ok base (ws ++ new) pk' /\ ps' = count_sent new ps /\ q ++ retry ++ pk_given_up pk ≡ₚ q' ++ retry' ++ new ++ pk_given_up pk'.
Proof.
  intros H32. induction q as [|rfs q IH]; intros retry ret ws ps pk Hok; cbn [write_reserved]; [exists []; by rewrite app_nil_r|].
  destruct (Z.leb_spec (rfs_nb_bytes rfs) (room max_bytes pk)) as [Hr|Hr]; [|exists []; by rewrite app_nil_r].
  destruct (write_slot write_frame payload_offset rfs ps pk) as [[[ret' ps'] pk']|] eqn:Hw.
  - destruct (write_slot_ok base ws rfs ps pk ret' ps' pk' H32 Hok Hr Hw) as (new & Hok' & -> & Hd).
    specialize (IH retry ret' _ (count_sent new ps) pk' Hok').
    destruct (write_reserved _ _ _ _ _ _ _ _) as [[[[r q'] retry'] ps2] pk2]. destruct IH as (new2 & Hok2 & -> & Hp).
    exists (new ++ new2). rewrite app_assoc, count_sent_app. split_and!; [done|done|].
    transitivity (q ++ retry ++ rfs :: pk_given_up pk); [solve_Permutation|]. rewrite <- Hd.
    transitivity (new ++ q ++ retry ++ pk_given_up pk'); [solve_Permutation|]. rewrite Hp. solve_Permutation.
  - specialize (IH (retry ++ [rfs]) 0 ws ps pk Hok).
    destruct (write_reserved _ _ _ _ _ _ _ _) as [[[[r q'] retry'] ps2] pk2]. destruct IH as (new & Hok2 & -> & Hp).
    exists new. split_and!; [done|done|]. rewrite <- Hp. rewrite <- app_assoc. cbn. by rewrite !Permutation_middle.
Qed.

(** The length of a frame is that of its copy. *)
Definition iovec_ok (f : iovec) : Prop := 0 <= iov_len f /\ forall b, iov_base f = Some b -> iov_len f = Z.of_nat (length b).

Definition rtx_bytes (l : list iovec) : list Z := concat (map (fun f => default [] (iov_base f)) l).

(** The frames that are retransmitted come first. *)
Lemma write_rtx_ok q : Forall iovec_ok q -> forall pk q' pk', packet_ok (pk_bytes pk) [] pk ->
  write_rtx max_bytes q pk = (q', pk') ->
  exists t, q = t ++ q' /\ pk_bytes pk' = pk_bytes pk ++ rtx_bytes t /\ packet_ok (pk_bytes pk') [] pk' /\ pk_given_up pk' = pk_given_up pk.
Proof.
  induction 1 as [|f q [Hl0 Hl] _ IH]; intros pk q' pk' Hok H; cbn [write_rtx] in H.
  { simplify_eq. exists []. unfold rtx_bytes. cbn. by rewrite app_nil_r. }
  rewrite (room_exact _ _ _ Hok) in H.
  destruct (Z.leb_spec (iov_len f) (max_bytes - Z.of_nat (length (pk_bytes pk)))) as [Hr|Hr].
  - set (pk1 := match iov_base f with Some bytes => _ | None => pk end) in H.
    assert (pk_bytes pk1 = pk_bytes pk ++ default [] (iov_base f) /\ pk_plugin_frames pk1 = [] /\ pk_given_up pk1 = pk_given_up pk) as (Hb1 & Hn1 & Hg1).
    { destruct Hok as [_ _ Hn]. cbn in Hn. subst pk1; destruct (iov_base f); cbn; rewrite ?app_nil_r; done. }
    apply IH in H as (t & -> & Hb & Hok' & Hg).
    + exists (f :: t). split_and!; try done; [|congruence]. unfold rtx_bytes. cbn. by rewrite Hb, Hb1, <- app_assoc.
    + constructor; rewrite ?Hn1; cbn; [|by rewrite app_nil_r|done]. rewrite Hb1, length_app. destruct (iov_base f) as [b|]; cbn; [rewrite (Hl b eq_refl) in Hr|]; destruct Hok; lia.
  - simplify_eq. exists []. unfold rtx_bytes. cbn. by rewrite app_nil_r.
Qed.

Lemma scheduler_ok in_plugin cc s : max_bytes < 2 ^ 32 -> Forall iovec_ok (rtx_frames s) -> NoDup (rfs_address <$> retry_frames s) ->
  match scheduler_write_new_frames write_frame in_plugin max_bytes payload_offset cc s with
  | Done (_, s', pk) =>
      exists rtx ws, rtx_frames s = rtx ++ rtx_frames s' /\ packet_ok (rtx_bytes rtx) ws pk /\ plugins s' = count_sent ws (plugins s)
      /\ retry_frames s ++ reserved_frames s ≡ₚ retry_frames s' ++ reserved_frames s' ++ ws ++ pk_given_up pk
  | NullPointer => in_plugin = false /\ Exists (fun r => too_long write_frame r = true) (retry_frames s)
  | _ => False
  end.
Proof.
  intros H32 Hio Hnd. unfold scheduler_write_new_frames. destruct (write_rtx _ _ _) as [rtx pk1] eqn:Hrtx.
  apply write_rtx_ok in Hrtx as (t & Ht & Hb & Hok1 & Hg1); [|done|constructor; cbn; [lia|done|done]].
  cbn in Hb. rewrite Hb in Hok1.
  pose proof (write_retry_ok in_plugin (rtx_bytes t) (retry_frames s) H32 (S (length (retry_frames s))) [] None 0 [] (plugins s) pk1
    ltac:(by rewrite app_nil_r) eq_refl ltac:(lia) Hok1) as Hretry. rewrite app_nil_r in Hretry.
  destruct (write_retry _ _ _ _ _ _ _ _ _ _) as [[[[ret q] ps] pk2]| | | |]; cbn [obind]; try done.
  destruct Hretry as (new & Hok2 & -> & Hp2).
  pose proof (write_reserved_ok _ (reserved_frames s) H32 q ret _ (count_sent new (plugins s)) pk2 Hok2) as Hres.
  destruct (write_reserved _ _ _ _ _ _ _ _) as [[[[ret' res] retry] ps'] pk3]. destruct Hres as (new2 & Hok3 & -> & Hp3).
  exists t, (new ++ new2). cbn. split_and!; [done|done|by rewrite count_sent_app|].
  rewrite Hg1 in Hp2. cbn in Hp2. rewrite app_nil_r in Hp2.
  rewrite Hp2. transitivity (new ++ reserved_frames s ++ q ++ pk_given_up pk2); [solve_Permutation|]. rewrite Hp3. solve_Permutation.
Qed.
End Writer.

(** ** The theorems *)

(** Picking reservations for a packet loses nothing and keeps the order: what leaves the two queues of a plugin are
    their oldest blocks, whose frames are appended to the reserved frames in order, the congestion controlled ones
    first, and belong to that plugin; what is picked is smaller than the packet. *)
Theorem fair_reserve_fifo x stream frame_mss s n s' :
  0 < frame_mss -> sender_ok frame_mss s -> picoquic_frame_fair_reserve x stream frame_mss s = (n, s') ->
  0 <= n < frame_mss /\ exists new, reserved_frames s' = reserved_frames s ++ new
    /\ Forall (fun r => (rfs_p r < length (plugins s))%nat) new
    /\ forall i p, plugins s !! i = Some p -> exists p' cc non_cc, plugins s' !! i = Some p'
       /\ block_queue_cc p = cc ++ block_queue_cc p' /\ block_queue_non_cc p = non_cc ++ block_queue_non_cc p'
       /\ of_plugin i new = map (set_plugin i) (pending cc ++ pending non_cc).
Proof.
  intros Hm Hok H. apply fair_reserve_spec in H as (_ & _ & _ & _ & Hn & new & Hr & Hp & Hall); [|done|done]. split; [done|].
  exists new. split_and!; [done|done|]. intros i p Hi. destruct (Hall i p Hi) as (p' & Hp' & [(cc & non & H1 & H2 & H3 & _) _ _ _]).
  by exists p', cc, non.
Qed.

(** C19. Every plugin has its turn: within as many calls as there are plugins, each plugin that may send and whose oldest
    congestion controlled block fits in a packet has given that block, as long as the window is open.  The block has left the
    queue and its frames are among the reserved frames; what the plugin has given by then are its oldest blocks of both
    kinds, and the frames of these blocks, in the order of each queue, are all that was reserved for it. *)
Theorem every_plugin_served x stream frame_mss s i p b q :
  0 < frame_mss -> sender_ok frame_mss s -> plugins s !! i = Some p -> block_queue_cc p = b :: q -> total_bytes b < frame_mss ->
  may_send x stream s p -> bytes_in_transit x < cwin x ->
  let s' := calls x stream frame_mss (length (plugins s)) s in
  exists p' cc non_cc, plugins s' !! i = Some p' /\ given i p p' (b :: cc) non_cc s s'.
Proof.
  intros Hm Hok Hp Hq Hb Hms Hx s'. pose proof (first_of_lt _ _ Hok) as Hf. apply lookup_lt_Some in Hp as Hi.
  destruct (next_reaches _ _ _ Hf Hi) as (k & Hk & Hit).
  destruct (served_in x stream frame_mss Hm k s p b q i Hok Hit Hp Hq Hb Hms Hx) as (p1 & Hp1 & Hlt).
  destruct (calls_give x stream frame_mss Hm (S k) s i p Hok Hp) as (Hok1 & _).
  destruct (calls_shrink x stream frame_mss Hm (length (plugins s) - S k) _ i p1 Hok1 Hp1) as (p2 & Hp2 & Hle).
  rewrite <- calls_add in Hp2. replace (S k + (length (plugins s) - S k))%nat with (length (plugins s)) in Hp2 by lia.
  destruct (calls_give x stream frame_mss Hm (length (plugins s)) s i p Hok Hp) as (_ & p' & cc & non & Hp' & Hg). fold s' in Hp2, Hp', Hg.
  simplify_eq. pose proof (given_cc _ _ _ _ _ _ _ Hg) as Hcc. rewrite Hq in Hcc. destruct cc as [|b' cc]; [cbn in Hcc; rewrite <- Hcc in Hle; rewrite Hq in Hlt; lia|].
  injection Hcc as <- _. by exists p2, cc, non.
Qed.

(** A block that is not smaller than the packets is never picked, and neither is anything behind it. *)
Theorem large_block_starves x stream frame_mss s i p b q k :
  0 < frame_mss -> sender_ok frame_mss s -> plugins s !! i = Some p -> block_queue_cc p = b :: q -> frame_mss <= total_bytes b ->
  exists p', plugins (calls x stream frame_mss k s) !! i = Some p' /\ block_queue_cc p' = b :: q.
Proof.
  intros Hm. revert s p. induction k as [|k IH]; intros s p Hok Hp Hq Hb; [eauto|]. cbn [calls].
  destruct (picoquic_frame_fair_reserve x stream frame_mss s) as [n s1] eqn:H.
  destruct (call_keeps x stream frame_mss Hm s i p Hok Hp) as (Hok' & _ & _ & _ & p' & t & Hp' & Hqt & _ & Hsm). rewrite H in *. cbn [snd] in *.
  apply (IH s1 p'); [done|done| |done]. destruct t as [|b' t]; [cbn in Hqt; congruence|].
  apply list.Forall_cons in Hsm as [Hsm _]. rewrite Hq in Hqt. injection Hqt as <- _. lia.
Qed.

(** C18. The writer accounts for every slot: what was in the two queues is in the packet ([ws]), or its plugin was told that it
    is given up, or it is still in a queue.  The packet starts with the retransmitted frames, goes on with the frames of [ws]
    in the order in which they were written, does not exceed its size, and has a note of each of them at its offset and with
    its length, when there was memory for the note; the counters of the plugins grow by these frames.  The loops end, with
    one exception: the run stops at a null pointer when a retried frame is too long and no plugin runs, whose name would
    be printed.  The packet has fewer than 2^32 bytes and the retried slots are distinct objects. *)
Theorem writer_accounts_for_slots write_frame in_plugin max_bytes payload_offset cc s :
  area_ok write_frame -> 0 <= max_bytes < 2 ^ 32 -> Forall iovec_ok (rtx_frames s) -> NoDup (rfs_address <$> retry_frames s) ->
  match scheduler_write_new_frames write_frame in_plugin max_bytes payload_offset cc s with
  | Done (_, s', pk) =>
      exists rtx ws, rtx_frames s = rtx ++ rtx_frames s' /\ packet_ok write_frame max_bytes payload_offset (rtx_bytes rtx) ws pk
      /\ plugins s' = count_sent write_frame ws (plugins s)
      /\ retry_frames s ++ reserved_frames s ≡ₚ retry_frames s' ++ reserved_frames s' ++ ws ++ pk_given_up pk
  | NullPointer => in_plugin = false /\ Exists (fun r => too_long write_frame r = true) (retry_frames s)
  | _ => False
  end.
Proof. intros Ha Hm Hio Hnd. apply scheduler_ok; [done|lia|lia|done|done]. Qed.

(** ** Examples *)

Definition ex_slot (address size : Z) : slot := Slot address true false false 0x2c size 0.
Definition ex_plugin (q : list block) : plugin := Plugin q [] 0 0 0 false.
Definition ex_path : path := Path 10000 0.

(** Two plugins, the second one with a block that does not fit. *)
Definition ex_sender : sender :=
  Sender [ex_plugin [make_block [ex_slot 1 100; ex_slot 2 50]; make_block [ex_slot 3 70]];
          ex_plugin [make_block [ex_slot 4 1200]; make_block [ex_slot 5 10]]] None 500 [] [] [] false.

Lemma ex_sender_ok : sender_ok 1000 ex_sender.
Proof.
  constructor; [done|done|..]; repeat constructor; cbn; try lia; vm_compute; try congruence.
Qed.

Lemma fair_reserve_fifo_witness :
  exists new, reserved_frames (snd (picoquic_frame_fair_reserve ex_path true 1000 ex_sender)) = new
    /\ of_plugin 0 new = [set_plugin 0 (ex_slot 1 100); set_plugin 0 (ex_slot 2 50); set_plugin 0 (ex_slot 3 70)].
Proof.
  destruct (fair_reserve_fifo ex_path true 1000 ex_sender _ _ ltac:(lia) ex_sender_ok (surjective_pairing _)) as (_ & new & Hr & _ & _).
  exists new. split; [exact Hr|]. assert (reserved_frames (snd (picoquic_frame_fair_reserve ex_path true 1000 ex_sender))
    = [set_plugin 0 (ex_slot 1 100); set_plugin 0 (ex_slot 2 50); set_plugin 0 (ex_slot 3 70)]) as E by (vm_compute; reflexivity).
  rewrite E in Hr. cbn in Hr. rewrite <- Hr. reflexivity.
Defined.

Lemma every_plugin_served_witness :
  exists p' cc non_cc, plugins (calls ex_path true 1000 2 ex_sender) !! 0%nat = Some p'
    /\ given 0 (ex_plugin [make_block [ex_slot 1 100; ex_slot 2 50]; make_block [ex_slot 3 70]]) p'
         (make_block [ex_slot 1 100; ex_slot 2 50] :: cc) non_cc ex_sender (calls ex_path true 1000 2 ex_sender).
Proof.
  apply (every_plugin_served ex_path true 1000 ex_sender 0 (ex_plugin [make_block [ex_slot 1 100; ex_slot 2 50]; make_block [ex_slot 3 70]])
    (make_block [ex_slot 1 100; ex_slot 2 50]) [make_block [ex_slot 3 70]]);
    [lia|exact ex_sender_ok|reflexivity|reflexivity|vm_compute; reflexivity| |vm_compute; reflexivity].
  right. split; [vm_compute; reflexivity|right; vm_compute; reflexivity].
Defined.

(** The small block of the second plugin waits behind the large one. *)
Lemma large_block_starves_witness :
  exists p', plugins (calls ex_path true 1000 100 ex_sender) !! 1%nat = Some p'
    /\ block_queue_cc p' = [make_block [ex_slot 4 1200]; make_block [ex_slot 5 10]].
Proof.
  apply (large_block_starves ex_path true 1000 ex_sender 1 (ex_plugin [make_block [ex_slot 4 1200]; make_block [ex_slot 5 10]])
    (make_block [ex_slot 4 1200]) [make_block [ex_slot 5 10]] 100);
    [lia|exact ex_sender_ok|reflexivity|reflexivity|vm_compute; congruence].
Defined.

(** Slot 1 is written, slot 2 fails, slot 3 is for the next packet; slot 5 is written without a note. *)
Definition ex_write (rfs : slot) : written :=
  let area := replicate (Z.to_nat (rfs_nb_bytes rfs)) 9 in
  if rfs_address rfs =? 1 then Written 0 3 true area true
  else if rfs_address rfs =? 3 then Written RETRY_NXT_PKT 0 false area true
  else if rfs_address rfs =? 4 then Written 0 1300 false area true
  else if rfs_address rfs =? 5 then Written 0 1 false area false
  else Written 5 0 false area true.

Lemma ex_write_area : area_ok ex_write.
Proof. intros rfs H. unfold ex_write. repeat case_match; cbn [w_content]; rewrite length_replicate; lia. Qed.

Definition ex_ready (retry : list slot) : sender :=
  Sender [ex_plugin []] None 500 [ex_slot 1 10; ex_slot 3 10; ex_slot 5 10; ex_slot 2 10] retry [IoVec 2 (Some [7; 7])] false.

Lemma writer_accounts_for_slots_witness :
  exists ret s' pk, scheduler_write_new_frames ex_write false 1000 0 false (ex_ready []) = Done (ret, s', pk)
    /\ ret = 5 /\ pk_bytes pk = [7; 7; 9; 9; 9; 9] /\ pk_plugin_frames pk = [(ex_slot 1 10, 2, 3)] /\ retry_frames s' = [ex_slot 3 10]
    /\ exists ws, [ex_slot 1 10; ex_slot 3 10; ex_slot 5 10; ex_slot 2 10] ≡ₚ retry_frames s' ++ reserved_frames s' ++ ws ++ pk_given_up pk.
Proof.
  pose proof (writer_accounts_for_slots ex_write false 1000 0 false (ex_ready []) ex_write_area ltac:(lia)
    ltac:(repeat constructor; cbn; [lia|by intros b [= <-]]) ltac:(constructor)) as H.
  do 3 eexists. split; [vm_compute; reflexivity|]. split_and!; [reflexivity..|].
  destruct (scheduler_write_new_frames _ _ _ _ _ _) as [[[ret s'] pk]| | | |] eqn:E; try (exfalso; vm_compute in E; discriminate).
  destruct H as (rtx & ws & _ & _ & _ & Hp). exists ws. vm_compute in E. injection E as <- <- <-. exact Hp.
Defined.

(** A retried frame that is too long is fatal when no plugin runs; the same frame is only given up among the reserved ones. *)
Example retried_too_long :
  scheduler_write_new_frames ex_write false 3000 0 false (ex_ready [ex_slot 4 1200]) = NullPointer.
Proof. by vm_compute. Qed.

End PluginFrames.
