(* ===== verification/Repeat.v ===== *)
(** * Repeating the content of lost packets

    picoquic/sender.c
      [retransmit_needed], which takes a lost packet out of the queue of its path and copies what is to be
      repeated into a new packet
      [get_checksum_length]
    picoquic/frames.c
      [check_stream_frame_already_acked], [process_ack_of_stream_frame], [process_possible_ack_of_ack_frame]:
      the bytes of a stream that were acknowledged, kept as a chain of ranges like received packet numbers
    picoquic/util.c
      [picoquic_split_stream_frame], which cuts a STREAM frame that does not fit

    The queues of the paths are those of Retransmit, with their pointers; what a packet holds beside is kept in a
    map by the same addresses ([contents]).  The frames of plugins and the frames that wait for room are those of
    PluginFrames, streams those of Streams.  The hooks of plugins have their built-in behaviour; the send path of a
    packet is the path in whose queue it is, and there is one packet context.  Allocations succeed; the events for the log
    and the recomputation of the wake time are left out.
    Outcomes are those of Protoops: [Overrun] is a write past the end of an allocation, [NullPointer] the use of a
    null or dangling pointer. *)
From stdpp Require Import base tactics list numbers gmap.
From Stdlib Require Import ZArith Lia Bool.
From S2P Require Import Prelude IntFormat Sacks Frames AckFrame Streams Packet Retransmit SendStream Protoops PluginFrames.
Import Packet Protoops IntFormat Sacks Frames SendStream.
#[local] Open Scope Z_scope.

Module Repeat.

(** ** Cutting a STREAM frame (util.c) *)

(** The result and what is written in the two buffers; [None] for the result -1, which leaves them alone.  A frame
    without data is taken to reach to the end of [bytes]. *)
Definition picoquic_split_stream_frame (bytes : list Z) (buf1_max buf2_max : Z) : option (Z * list Z * list Z) :=
  let h := picoquic_parse_stream_header bytes in
  if sh_ret h =? -1 then None
  else
    let hdr := sh_consumed h in
    let data_length := if sh_data_length h =? 0 then Z.of_nat (length bytes) - hdr else sh_data_length h in
    if (buf1_max <=? hdr) || (buf2_max <=? hdr) || (buf1_max + buf2_max - hdr - hdr <=? data_length) then None
    else
      let data := drop (Z.to_nat hdr) bytes in
      let first_byte := Z.lor picoquic_frame_type_stream_range_min 0x02 in
      let first_byte := if negb (sh_offset h =? 0) then Z.lor first_byte 0x04 else first_byte in
      let buf1 := [first_byte] in
      let buf1 := buf1 ++ picoquic_varint_encode (buf1_max - Z.of_nat (length buf1)) (sh_stream_id h) in
      let buf1 := if negb (sh_offset h =? 0) then buf1 ++ picoquic_varint_encode (buf1_max - Z.of_nat (length buf1)) (sh_offset h)
                  else buf1 in
      let room := buf1_max - Z.of_nat (length buf1) in
      let n := u64 (room - picoquic_varint_len room) in
      let '(n, buf1) := if data_length <=? n then (data_length, if sh_fin h then or_first 0x01 buf1 else buf1) else (n, buf1) in
      let buf1 := buf1 ++ picoquic_varint_encode (buf1_max - Z.of_nat (length buf1)) n in
      let buf1 := buf1 ++ take (Z.to_nat n) data in
      let buf2 :=
        if n <? data_length then
          let first_byte := Z.lor first_byte 0x04 in
          let first_byte := if sh_fin h then Z.lor first_byte 0x01 else first_byte in
          let buf2 := [first_byte] in
          let buf2 := buf2 ++ picoquic_varint_encode (buf2_max - Z.of_nat (length buf2)) (sh_stream_id h) in
          let buf2 := buf2 ++ picoquic_varint_encode (buf2_max - Z.of_nat (length buf2)) (u64 (sh_offset h + n)) in
          let m := data_length - n in
          let buf2 := buf2 ++ picoquic_varint_encode (buf2_max - Z.of_nat (length buf2)) m in
          buf2 ++ take (Z.to_nat m) (drop (Z.to_nat n) data)
        else [] in
      Some (hdr + data_length, buf1, buf2).

(** ** Acknowledged bytes of streams (frames.c) *)

(** [first_sack_item] of the streams; the chain of a stream that is not in the map is the initial one. *)
Abbreviation stream_sacks := (gmap Z sack_chain).

Definition sacks_of (a : stream_sacks) (id : Z) : sack_chain := default init_sack_chain (a !! id).

(** [PICOQUIC_IN_RANGE(bytes[0], 0x08, 0x0f)] *)
Definition is_stream_frame (bytes : list Z) : bool :=
  Z.land (nth 0 bytes 0) (Z.lnot (Z.lxor picoquic_frame_type_stream_range_min picoquic_frame_type_stream_range_max))
  =? picoquic_frame_type_stream_range_min.

(** The result and [no_need_to_repeat]; the frame has [bytes_max] bytes.  The byte after its last one is looked up too. *)
Definition check_stream_frame_already_acked (c : Streams.cnx) (a : stream_sacks) (bytes : list Z) (bytes_max : Z) : Z * Z :=
  if is_stream_frame bytes then
    let h := picoquic_parse_stream_header (take (Z.to_nat bytes_max) bytes) in
    if sh_ret h =? 0 then
      match fst (Streams.picoquic_find_stream (sh_stream_id h) false c) with
      | None => (0, 1)
      | Some stream =>
          if Streams.reset_sent stream then (0, 1)
          else (0, picoquic_check_sack_list (sacks_of a (sh_stream_id h)) (sh_offset h) (u64 (sh_offset h + sh_data_length h)))
      end
    else (sh_ret h, 0)
  else (0, 0).

(** The result, [consumed] and the ranges. *)
Definition process_ack_of_stream_frame (c : Streams.cnx) (a : stream_sacks) (bytes : list Z) : Z * Z * stream_sacks :=
  let h := picoquic_parse_stream_header bytes in
  if sh_ret h =? 0 then
    let consumed := sh_consumed h + sh_data_length h in
    match fst (Streams.picoquic_find_stream (sh_stream_id h) false c) with
    | None => (0, consumed, a)
    | Some _ =>
        let '(_, chain) := picoquic_update_sack_list true (sacks_of a (sh_stream_id h)) (sh_offset h)
                             (u64 (sh_offset h + sh_data_length h - 1)) in
        (0, consumed, <[sh_stream_id h := chain]> a)
    end
  else (sh_ret h, sh_consumed h, a).

(** The walk over the frames of a packet that was acknowledged; [c] is the connection, [pn] the numbers received in
    the context of the packet.  [None]: the fuel did not suffice. *)
Fixpoint ack_of_frames (fuel : nat) (c : Streams.cnx) (bytes : list Z) (pn : sack_chain) (a : stream_sacks)
    : option (sack_chain * stream_sacks) :=
  match bytes with
  | [] => Some (pn, a)
  | b0 :: _ =>
      match fuel with
      | O => None
      | S fuel =>
          let '(ret, frame_length, pn, a) :=
            if (b0 =? picoquic_frame_type_ack) || (b0 =? picoquic_frame_type_ack_ecn) then
              let '(ret, n, pn) := AckFrame.picoquic_process_ack_of_ack_frame pn bytes (b0 =? picoquic_frame_type_ack_ecn) in (ret, n, pn, a)
            else if is_stream_frame bytes then
              let '(ret, n, a) := process_ack_of_stream_frame c a bytes in (ret, n, pn, a)
            else let '(ret, n, _) := skip_frame bytes in (ret, n, pn, a) in
          if ret =? 0 then ack_of_frames fuel c (drop (Z.to_nat frame_length) bytes) pn a else Some (pn, a)
      end
  end.

(** [offset] is where the payload of the packet starts; the count of acknowledged 0-RTT packets goes up. *)
Definition process_possible_ack_of_ack_frame (c : Streams.cnx) (ptype : Packet.packet_type) (offset : nat) (bytes : list Z)
    (nb_zero_rtt_acked : Z) (pn : sack_chain) (a : stream_sacks) : option (Z * sack_chain * stream_sacks) :=
  let n := if bool_decide (ptype = Packet.zero_rtt_protected) then nb_zero_rtt_acked + 1 else nb_zero_rtt_acked in
  '(pn, a) ← ack_of_frames (length bytes) c (drop offset bytes) pn a;
  Some (n, pn, a).

(** ** Copying the frames of a lost packet (sender.c) *)

(** The fields of [picoquic_packet_t] that Retransmit has no use for.  [l_bytes] are the [length] bytes of the packet,
    of which the first [l_offset] are its header; a plugin frame is where it starts in the payload and its length. *)
Record lost := Lost {
  l_bytes : list Z;
  l_offset : nat;
  l_is_pure_ack : bool;
  l_contains_crypto : bool;
  l_is_mtu_probe : bool;
  l_plugin_frames : list (Z * Z)
}.

(** The new packet: its payload so far, after [header_length] bytes that are left for the header. *)
Record fresh := Fresh {
  f_ptype : packet_type;
  f_offset : Z;
  f_sequence_number : Z;
  f_send_path : nat;
  f_payload : list Z;
  f_length : Z;
  f_is_pure_ack : bool;
  f_has_handshake_done : bool;
  f_is_congestion_controlled : bool;
  f_plugin_frames : list (PluginFrames.slot * Z * Z)
}.

Definition set_payload (v : list Z) (x : fresh) : fresh :=
  Fresh (f_ptype x) (f_offset x) (f_sequence_number x) (f_send_path x) v (f_length x) (f_is_pure_ack x) (f_has_handshake_done x)
    (f_is_congestion_controlled x) (f_plugin_frames x).
Definition set_header (t : packet_type) (off seq : Z) (i : nat) (x : fresh) : fresh :=
  Fresh t off seq i [] (f_length x) (f_is_pure_ack x) (f_has_handshake_done x) (f_is_congestion_controlled x) (f_plugin_frames x).
Definition set_flags (pure_ack hs : bool) (x : fresh) : fresh :=
  Fresh (f_ptype x) (f_offset x) (f_sequence_number x) (f_send_path x) (f_payload x) (f_length x) pure_ack hs
    (f_is_congestion_controlled x) (f_plugin_frames x).
Definition set_length (n : Z) (x : fresh) : fresh :=
  Fresh (f_ptype x) (f_offset x) (f_sequence_number x) (f_send_path x) (f_payload x) n (f_is_pure_ack x) (f_has_handshake_done x)
    (f_is_congestion_controlled x) (f_plugin_frames x).
(** What [scheduler_write_new_frames] notes in the packet, and the bytes it writes, which the caller counts. *)
Definition note_written (pk : PluginFrames.packet) (x : fresh) : fresh :=
  Fresh (f_ptype x) (f_offset x) (f_sequence_number x) (f_send_path x) (f_payload x) (f_length x)
    (f_is_pure_ack x) (f_has_handshake_done x) (PluginFrames.pk_is_congestion_controlled pk)
    (PluginFrames.pk_plugin_frames pk ++ f_plugin_frames x).
Definition add_written (pk : PluginFrames.packet) (x : fresh) : fresh :=
  set_payload (f_payload x ++ PluginFrames.pk_bytes pk) (note_written pk x).

(** What the loop over the frames carries along. *)
Record copy := Copy {
  cp_packet : fresh;
  cp_sender : PluginFrames.sender;
  written_non_pure_ack_frames : bool;
  has_handshake_done : bool;
  has_unlimited_frame : bool
}.

Definition enqueue_rtx (f : list Z) (s : PluginFrames.sender) : PluginFrames.sender :=
  PluginFrames.set_queues (PluginFrames.reserved_frames s) (PluginFrames.retry_frames s)
    (PluginFrames.rtx_frames s ++ [PluginFrames.IoVec (Z.of_nat (length f)) (Some f)]) s.

Section Copying.
(** What a plugin writes for a slot, and whether a plugin is running. *)
Variable write_frame : PluginFrames.slot -> PluginFrames.written.
Variable in_plugin : bool.
(** The connection and what was acknowledged on its streams; whether the packet is in the application context; the size
    of the packet, of its header and of the checksum; the path of the new packet. *)
Variable c : Streams.cnx.
Variable a : stream_sacks.
Variable app : bool.
Variable send_buffer_max header_length checksum_length : Z.
Variable x : PluginFrames.path.

Definition length_of (f : fresh) : Z := header_length + Z.of_nat (length (f_payload f)).

(** [picoquic_schedule_next_stream] finds a stream. *)
Definition has_stream : bool := match Streams.find_ready_stream_round_robin c with Some _ => true | None => false end.

(** The frames of plugins go before a frame without length, and padding after them, so that it ends the packet. *)
Definition before_unlimited (packet_is_pure_ack : bool) (frame_length : Z) (st : copy) : outcome copy :=
  let f := cp_packet st in
  let length := length_of f in
  let? st :=
    if negb packet_is_pure_ack && (checksum_length + length + frame_length <? send_buffer_max) then
      let s := cp_sender st in
      let s := match PluginFrames.reserved_frames s with
               | [] => snd (PluginFrames.picoquic_frame_fair_reserve x has_stream (send_buffer_max - length - checksum_length) s)
               | _ => s
               end in
      let? r := PluginFrames.scheduler_write_new_frames write_frame in_plugin (send_buffer_max - checksum_length - length - frame_length)
                  (length - f_offset f) (f_is_congestion_controlled f) s in
      let '(_, s, pk) := r in
      Done (Copy (add_written pk f) s
              (written_non_pure_ack_frames st
               || (negb (bool_decide (PluginFrames.pk_bytes pk = [])) && negb (PluginFrames.pk_is_pure_ack pk)))%bool
              (has_handshake_done st) true)
    else Done (Copy f (cp_sender st) (written_non_pure_ack_frames st) (has_handshake_done st) true) in
  let f := cp_packet st in
  let padding := Z.to_nat (send_buffer_max - (checksum_length + length_of f + frame_length)) in
  Done (Copy (set_payload (f_payload f ++ replicate padding picoquic_frame_type_padding) f) (cp_sender st)
          (written_non_pure_ack_frames st) (has_handshake_done st) true).

(** A frame that is to be repeated, at the start of [bytes]: the error code and what was copied.  A frame that does not fit
    waits among the frames to retransmit, a STREAM frame after its first part was copied. *)
Definition copy_frame (packet_is_pure_ack : bool) (bytes : list Z) (frame_length : Z) (st : copy) : outcome (Z * copy) :=
  let frame := take (Z.to_nat frame_length) bytes in
  let length := length_of (cp_packet st) in
  if length + checksum_length + frame_length <=? send_buffer_max then
    let? st := if app && picoquic_is_stream_frame_unlimited bytes then before_unlimited packet_is_pure_ack frame_length st else Done st in
    let f := cp_packet st in
    if length_of f + checksum_length + frame_length <=? send_buffer_max then
      Done (0, Copy (set_payload (f_payload f ++ frame) f) (cp_sender st) true
                 (has_handshake_done st || (peek_frame_type bytes =? picoquic_frame_type_handshake_done)) (has_unlimited_frame st))
    else Done (0, st)
  else if is_stream_frame bytes then
    match picoquic_split_stream_frame bytes (u64 (send_buffer_max - length - checksum_length)) frame_length with
    | None => Done (1, st)
    | Some (r, buf1, buf2) =>
        if (u64 (send_buffer_max - length - checksum_length) <? Z.of_nat (List.length buf1)) || (frame_length <? Z.of_nat (List.length buf2))
        then Overrun
        else if r =? frame_length then
          let f := cp_packet st in
          Done (0, Copy (set_payload (f_payload f ++ buf1) f) (enqueue_rtx buf2 (cp_sender st)) true (has_handshake_done st) (has_unlimited_frame st))
        else Done (1, st)
    end
  else Done (0, Copy (cp_packet st) (enqueue_rtx frame (cp_sender st)) (written_non_pure_ack_frames st) (has_handshake_done st) (has_unlimited_frame st)).

(** The frame of a plugin that starts at [at], if any: its length. *)
Definition plugin_frame_at (l : list (Z * Z)) (at_ : Z) : option Z := snd <$> List.find (fun f => fst f =? at_) l.

(** The loop over the frames of the lost packet; [at_] is the place in its payload. *)
Fixpoint copy_frames (fuel : nat) (packet_is_pure_ack : bool) (plugin_frames : list (Z * Z)) (at_ : Z) (bytes : list Z) (st : copy)
    : outcome (Z * copy) :=
  match bytes with
  | [] => Done (0, st)
  | _ =>
      match fuel with
      | O => OutOfFuel
      | S fuel =>
          match plugin_frame_at plugin_frames at_ with
          | Some n => copy_frames fuel packet_is_pure_ack plugin_frames (at_ + n) (drop (Z.to_nat n) bytes) st
          | None =>
              let '(ret, n, pure_ack) := skip_frame bytes in
              let '(ret, pure_ack) :=
                if (ret =? 0) && (pure_ack =? 0) then check_stream_frame_already_acked c a bytes n else (ret, pure_ack) in
              let? r := if (ret =? 0) && (pure_ack =? 0) then copy_frame packet_is_pure_ack bytes n st else Done (ret, st) in
              let '(ret, st) := r in
              if ret =? 0 then copy_frames fuel packet_is_pure_ack plugin_frames (at_ + n) (drop (Z.to_nat n) bytes) st
              else Done (ret, st)
          end
      end
  end.

(** The room that is left is filled with frames of plugins; [fuel] bounds the rounds. *)
Fixpoint fill_packet (fuel : nat) (queued_bytes : Z) (st : copy) : outcome (Z * copy) :=
  match fuel with
  | O => OutOfFuel
  | S fuel =>
      let f := cp_packet st in
      let room := send_buffer_max - length_of f - checksum_length in
      let? r := PluginFrames.scheduler_write_new_frames write_frame in_plugin room (length_of f - f_offset f) (f_is_congestion_controlled f) (cp_sender st) in
      let '(ret, s, pk) := r in
      let consumed := Z.of_nat (length (PluginFrames.pk_bytes pk)) in
      let '(ret, st) :=
        if (ret =? 0) && (room <? consumed) then (PICOQUIC_ERROR_FRAME_BUFFER_TOO_SMALL, Copy (note_written pk f) s (written_non_pure_ack_frames st) (has_handshake_done st) (has_unlimited_frame st))
        else if ret =? 0 then
          (0, Copy (add_written pk f) s (written_non_pure_ack_frames st || negb (PluginFrames.pk_is_pure_ack pk)) (has_handshake_done st) (has_unlimited_frame st))
        else (ret, Copy (note_written pk f) s (written_non_pure_ack_frames st) (has_handshake_done st) (has_unlimited_frame st)) in
      let room := send_buffer_max - length_of (cp_packet st) - checksum_length in
      let '(queued_bytes, st) :=
        if (ret =? 0) && match PluginFrames.reserved_frames (cp_sender st) with [] => true | _ => false end then
          let '(n, s) := PluginFrames.picoquic_frame_fair_reserve x has_stream room (cp_sender st) in
          (n, Copy (cp_packet st) s (written_non_pure_ack_frames st) (has_handshake_done st) (has_unlimited_frame st))
        else (queued_bytes, st) in
      if (ret =? 0) && (0 <? queued_bytes) && (consumed <? room) then fill_packet fuel queued_bytes st else Done (ret, st)
  end.

(** Everything that is written of a lost packet. *)
Definition copy_packet (fuel : nat) (l : lost) (st : copy) : outcome (Z * copy) :=
  let? r := copy_frames (length (l_bytes l)) (l_is_pure_ack l) (l_plugin_frames l) 0 (drop (l_offset l) (l_bytes l)) st in
  let '(ret, st) := r in
  if app && negb (l_is_pure_ack l) && negb (has_unlimited_frame st) && (checksum_length + length_of (cp_packet st) <? send_buffer_max)
  then fill_packet fuel 0 st
  else Done (ret, st).
End Copying.

(** ** The loop over the paths (sender.c) *)

(** [tag] and [tag2] are the sizes of the checksums of the initial and of the application keys, when they are there. *)
Definition get_checksum_length (tag : Z) (tag2 : option Z) (is_cleartext_mode : bool) : Z :=
  if is_cleartext_mode then tag else default tag tag2.

Definition is_cleartext (t : packet_type) : bool :=
  negb (bool_decide (t = one_rtt_protected_phi0) || bool_decide (t = one_rtt_protected_phi1) || bool_decide (t = zero_rtt_protected)).

(** A path and its packet context. *)
Record path := Path {
  queue : Retransmit.state;
  loss : Retransmit.loss_ctx;
  path_cwin : Z;
  send_sequence : Z;
  mtu_probe_sent : bool;
  send_mtu_max_tried : Z;
  time_stamp_largest_received : Z;
  latest_retransmit_time : Z;
  path_latest_progress_time : Z;
  latest_retransmit_cc_notification_time : Z
}.

Definition set_queue (v : Retransmit.state) (x : path) : path :=
  Path v (loss x) (path_cwin x) (send_sequence x) (mtu_probe_sent x) (send_mtu_max_tried x) (time_stamp_largest_received x)
    (latest_retransmit_time x) (path_latest_progress_time x) (latest_retransmit_cc_notification_time x).
Definition probe_lost (n : Z) (x : path) : path :=
  Path (queue x) (loss x) (path_cwin x) (send_sequence x) false n (time_stamp_largest_received x)
    (latest_retransmit_time x) (path_latest_progress_time x) (latest_retransmit_cc_notification_time x).
Definition set_nb_retransmit (n : Z) (c : Retransmit.loss_ctx) : Retransmit.loss_ctx :=
  Retransmit.LossCtx (Retransmit.highest_acknowledged c) (Retransmit.latest_time_acknowledged c) n (Retransmit.smoothed_rtt c)
    (Retransmit.retransmit_timer c) (Retransmit.last_1rtt_acknowledged_at c) (Retransmit.cnx_is_ready c) (Retransmit.zero_rtt_data_accepted c).
Definition timed_out (now : Z) (count : bool) (x : path) : path :=
  Path (queue x) (if count then set_nb_retransmit (Retransmit.nb_retransmit (loss x) + 1) (loss x) else loss x) (path_cwin x) (send_sequence x)
    (mtu_probe_sent x) (send_mtu_max_tried x) (time_stamp_largest_received x) now (path_latest_progress_time x)
    (latest_retransmit_cc_notification_time x).
Definition notified (now : Z) (x : path) : path :=
  Path (queue x) (loss x) (path_cwin x) (send_sequence x) (mtu_probe_sent x) (send_mtu_max_tried x) (time_stamp_largest_received x)
    (latest_retransmit_time x) (path_latest_progress_time x) now.

(** What the congestion controller and the application are told. *)
Inductive event :=
| Congestion (i : nat) (timeout : bool) (lost_packet_number : Z)
| CallbackClose.

Record world := World {
  paths : list path;
  contents : gmap Retransmit.pointer lost;
  conn : Streams.cnx;
  acked : stream_sacks;
  frames : PluginFrames.sender;
  nb_retransmission_total : Z;
  events : list event
}.

Definition set_path (i : nat) (x : path) (w : world) : world :=
  World (<[i := x]> (paths w)) (contents w) (conn w) (acked w) (frames w) (nb_retransmission_total w) (events w).
Definition set_frames (s : PluginFrames.sender) (w : world) : world :=
  World (paths w) (contents w) (conn w) (acked w) s (nb_retransmission_total w) (events w).
Definition count_retransmission (w : world) : world :=
  World (paths w) (contents w) (conn w) (acked w) (frames w) (u64 (nb_retransmission_total w + 1)) (events w).
Definition note (e : event) (w : world) : world :=
  World (paths w) (contents w) (conn w) (acked w) (frames w) (nb_retransmission_total w) (events w ++ [e]).
Definition picoquic_state_disconnected : Z := 18.
Definition disconnect (w : world) : world :=
  let c := conn w in
  note CallbackClose
    (World (paths w) (contents w)
       (Streams.Cnx (Streams.client_mode c) (Streams.streams c) (Streams.local_parameters c) (Streams.remote_parameters c)
          (Streams.cnx_maxdata_local c) (Streams.cnx_maxdata_remote c) (Streams.data_received c) (Streams.data_sent c)
          (Streams.max_stream_id_bidir_local c) (Streams.max_stream_id_unidir_local c) (Streams.max_stream_id_bidir_local_computed c)
          (Streams.max_stream_id_unidir_local_computed c) (Streams.max_stream_id_bidir_remote c) (Streams.max_stream_id_unidir_remote c)
          (Streams.max_stream_receive_window_size c) (Streams.last_visited_stream_id c) picoquic_state_disconnected
          (Streams.cnx_local_error c) (Streams.offending_frame_type c) (Streams.latest_progress_time c) (Streams.callbacks c))
       (acked w) (frames w) (nb_retransmission_total w) (events w)).

(** The variables of the function that outlive a packet. *)
Record locals := Locals { lc_packet : fresh; lc_is_cleartext_mode : bool; lc_header_length : Z }.

(** What becomes of the walk after a packet: on to the next one, no more of this path, or a packet of this length. *)
Inductive verdict := Next | EndOfPath | Stop (length : Z).

Definition of_option {A} (o : option A) : outcome A := match o with Some x => Done x | None => NullPointer end.

Section Paths.
Variable write_frame : PluginFrames.slot -> PluginFrames.written.
Variable in_plugin : bool.
Variable fuel : nat.
(** What the header of a packet on a path takes from the connection; the sizes of the checksums. *)
Variable header : nat -> Packet.cnx.
Variable tag : Z.
Variable tag2 : option Z.
(** The arguments of the function: the context, the index of the path of the new packet, the time and the size. *)
Variable app : bool.
Variable path_x : nat.
Variable current_time send_buffer_max : Z.
Variable has_congestion_alg : bool.

(** The type of the new packet and the length of its header; [None]: a 0-RTT packet that is not repeated yet. *)
Definition repeated_as (w : world) (i : nat) (t : packet_type) (l : lost) : option (packet_type * Z) :=
  if bool_decide (t = zero_rtt_protected) then
    if l_contains_crypto l then Some (zero_rtt_protected, predict_packet_header_length (header i) zero_rtt_protected)
    else if Streams.cnx_state (conn w) <? Streams.picoquic_state_client_ready then None
    else Some (one_rtt_protected_phi0, predict_packet_header_length (header path_x) one_rtt_protected_phi0)
  else Some (t, predict_packet_header_length (header path_x) t).

(** When a repetition counts as a timeout: the last of the times at which something happened, plus a round trip. *)
Definition retrans_timer_of (x : path) : Z :=
  let rtt := Retransmit.smoothed_rtt (loss x) in
  let t := u64 (time_stamp_largest_received x + rtt) in
  let t := if time_stamp_largest_received x <=? latest_retransmit_time x then u64 (latest_retransmit_time x + rtt) else t in
  if t <? u64 (path_latest_progress_time x + rtt) then u64 (path_latest_progress_time x + rtt) else t.

(** The end of the walk with a packet of [length] bytes: timers, padding, and the notification of the controller. *)
Definition finish_packet (w : world) (i : nat) (x : path) (p : Retransmit.packet) (timer_based : bool) (checksum_length length : Z) (lc : locals)
    : world * locals * verdict :=
  let is_timer_based := timer_based && (retrans_timer_of x <=? current_time) in
  let cc_timer := u64 (latest_retransmit_cc_notification_time x + Retransmit.smoothed_rtt (loss x)) in
  if is_timer_based && (5 <? Retransmit.nb_retransmit (loss x)) then (disconnect w, lc, Stop 0)
  else
    let x := if is_timer_based then timed_out current_time (cc_timer <=? current_time) x else x in
    let pad := if bool_decide (Retransmit.pkt_ptype p = initial) && Streams.client_mode (conn w)
               then Z.to_nat (send_buffer_max - checksum_length - length) else 0%nat in
    let f := lc_packet lc in
    let length := length + Z.of_nat pad in
    let f := set_length length (set_payload (f_payload f ++ replicate pad 0) f) in
    let tell := (cc_timer <=? current_time) && has_congestion_alg in
    let x := if tell then notified current_time x else x in
    let w := count_retransmission (set_path i x w) in
    let w := if tell then note (Congestion i is_timer_based (Retransmit.sequence_number p)) w else w in
    (w, Locals f (lc_is_cleartext_mode lc) (lc_header_length lc), Stop length).

(** A packet of path [i] that counts as lost. *)
Definition repeat_packet (w : world) (i : nat) (x : path) (p : Retransmit.pointer) (pk : Retransmit.packet) (l : lost) (timer_based : bool)
    (lc : locals) : outcome (world * locals * verdict) :=
  match repeated_as w i (Retransmit.pkt_ptype pk) l with
  | None => Done (w, Locals (lc_packet lc) (lc_is_cleartext_mode lc) 0, Next)
  | Some (t, header_length) =>
      let? seq := of_option (send_sequence <$> paths w !! path_x) in
      let f := set_header t header_length seq path_x (lc_packet lc) in
      let t := Retransmit.pkt_ptype pk in
      let is_cleartext_mode := is_cleartext t in
      let st := Copy f (frames w) false false false in
      let packet_length := Z.of_nat (length (l_bytes l)) in
      let is_probe := l_is_mtu_probe l && (Retransmit.send_mtu (queue x) <? packet_length) in
      let checksum_length := if is_probe then 0 else get_checksum_length tag tag2 is_cleartext_mode in
      let? r :=
        if is_probe then Done (probe_lost (u32 packet_length) x, st)
        else
          let? px := of_option ((fun y => PluginFrames.Path (path_cwin y) (Retransmit.bytes_in_transit (queue y))) <$> paths w !! path_x) in
          let? r := copy_packet write_frame in_plugin (conn w) (acked w) app send_buffer_max header_length checksum_length px fuel l st in
          Done (x, snd r) in
      let '(x, st) := r in
      let f := cp_packet st in
      let f := set_flags (f_is_pure_ack f && negb (written_non_pure_ack_frames st)) (f_has_handshake_done f || has_handshake_done st) f in
      let? q := of_option (Retransmit.dequeue_retransmit_packet (queue x) p (l_is_pure_ack l && negb is_probe)) in
      let x := set_queue q x in
      let w := set_frames (cp_sender st) (set_path i x w) in
      let lc := Locals f is_cleartext_mode header_length in
      let length := length_of header_length f in
      if is_probe || l_is_pure_ack l || (length <=? header_length) then Done (w, lc, Next)
      else Done (finish_packet w i x pk timer_based checksum_length length lc)
  end.

(** One packet of the queue, and the one after it.  Packets are repeated in order, but a 0-RTT packet that is not lost is passed. *)
Definition repeat_step (w : world) (i : nat) (p : Retransmit.pointer) (lc : locals)
    : outcome (world * locals * verdict * option Retransmit.pointer) :=
  let? x := of_option (paths w !! i) in
  let? pk := of_option (Retransmit.heap (queue x) !! p) in
  let? l := of_option (contents w !! p) in
  let '(should_retransmit, timer_based, _) := Retransmit.retransmit_needed_by_packet (loss x) pk current_time in
  if negb should_retransmit then
    Done (w, lc, if bool_decide (Retransmit.pkt_ptype pk = zero_rtt_protected) then Next else EndOfPath, Retransmit.next_packet pk)
  else
    let? r := repeat_packet w i x p pk l timer_based lc in
    Done (r, Retransmit.next_packet pk).

(** The queue of a path, from its oldest packet along [next_packet]. *)
Fixpoint repeat_queue (n : nat) (w : world) (i : nat) (p : option Retransmit.pointer) (lc : locals) : outcome (world * locals * option Z) :=
  match p with
  | None => Done (w, lc, None)
  | Some p =>
      match n with
      | O => OutOfFuel
      | S n =>
          let? r := repeat_step w i p lc in
          match r with
          | (w, lc, Next, p_next) => repeat_queue n w i p_next lc
          | (w, lc, EndOfPath, _) => Done (w, lc, None)
          | (w, lc, Stop length, _) => Done (w, lc, Some length)
          end
      end
  end.

Fixpoint repeat_paths (n : nat) (order : list nat) (w : world) (lc : locals) : outcome (world * locals * option Z) :=
  match order with
  | [] => Done (w, lc, None)
  | i :: order =>
      let? x := of_option (paths w !! i) in
      let? r := repeat_queue n w i (Retransmit.retransmit_oldest (queue x)) lc in
      match r with
      | (w, lc, None) => repeat_paths n order w lc
      | r => Done r
      end
  end.

(** The length of the new packet, 0 if there is none; [n] bounds the packets of a queue. *)
Definition retransmit_needed (n : nat) (w : world) (lc : locals) : outcome (world * locals * Z) :=
  let? r := repeat_paths n (seq 0 (length (paths w))) w lc in
  let '(w, lc, length) := r in
  Done (w, lc, default 0 length).
End Paths.

(** ** What a cut frame carries *)

Lemma varint_at_safe bytes i l v : Forall is_u8 bytes -> 0 <= i -> varint_at bytes i = (l, v) -> l <> 0 ->
  0 <= v < 2 ^ 62 /\ 1 <= picoquic_varint_len v <= l.
Proof.
  intros Hb Hi H Hl. unfold varint_at in H. destruct (Z.ltb_spec i (Z.of_nat (length bytes))) as [Hlt|]; [|by simplify_eq].
  destruct (varint_decode_safe (drop (Z.to_nat i) bytes) (Z.of_nat (length bytes) - i)) as (l' & v' & Hd & Hc).
  - by apply Forall_drop.
  - rewrite length_drop. lia.
  - rewrite Hd in H. cbn in H. simplify_eq. destruct Hc as [(? & _)|(_ & ? & ? & _)]; [done|]. split; lia.
Qed.

(** The fields of a header that was read are in range, and their shortest encodings are not longer than the header.  With a
    length field it has room for that as well. *)
Lemma header_fields bytes : Forall is_u8 bytes -> let h := picoquic_parse_stream_header bytes in sh_ret h = 0 ->
  0 <= sh_stream_id h < 2 ^ 62 /\ 0 <= sh_offset h < 2 ^ 62
  /\ 1 + picoquic_varint_len (sh_stream_id h) + (if sh_offset h =? 0 then 0 else picoquic_varint_len (sh_offset h)) <= sh_consumed h
  /\ (Z.land (nth 0 bytes 0) 2 <> 0 -> sh_data_length h < 2 ^ 62
      /\ 1 + picoquic_varint_len (sh_stream_id h) + (if sh_offset h =? 0 then 0 else picoquic_varint_len (sh_offset h))
         + picoquic_varint_len (sh_data_length h) <= sh_consumed h).
Proof.
  intros Hb. cbv zeta. unfold picoquic_parse_stream_header.
  destruct (varint_at bytes 1) as [l1 id] eqn:E1.
  destruct (if Z.land (nth 0 bytes 0) 4 =? 0 then _ else _) as [l2 off] eqn:E2.
  destruct (orb _ _) eqn:Hor; [done|]. rewrite !orb_false_iff, andb_false_iff in Hor. destruct Hor as [[H0 H1] H2].
  apply Z.ltb_ge in H0. apply Z.eqb_neq in H1. destruct (varint_at_safe bytes 1 l1 id Hb ltac:(lia) E1 H1) as [Hid Hl1].
  assert (0 <= off < 2 ^ 62 /\ 0 <= l2 /\ (if off =? 0 then 0 else picoquic_varint_len off) <= l2) as (Hoff & Hl2 & Hlo).
  { destruct (Z.eqb_spec (Z.land (nth 0 bytes 0) 4) 0) as [H4|H4]; [simplify_eq; cbn; lia|].
    destruct H2 as [H2|H2]; [done|]. apply Z.eqb_neq in H2.
    destruct (varint_at_safe bytes (1 + l1) l2 off Hb ltac:(lia) E2 H2) as [? ?]. split_and!; try lia. destruct (off =? 0); lia. }
  destruct (Z.eqb_spec (Z.land (nth 0 bytes 0) 2) 0) as [H3|H3]; cbn [sh_ret sh_stream_id sh_offset sh_consumed sh_data_length].
  { intros _. split_and!; try lia; intros; done. }
  destruct (varint_at bytes (1 + l1 + l2)) as [l3 len] eqn:E3.
  destruct (orb _ _) eqn:Hor; [done|]. apply orb_false_iff in Hor as [H5 H6]. apply Z.eqb_neq in H5.
  destruct (varint_at_safe bytes (1 + l1 + l2) l3 len Hb ltac:(lia) E3 H5) as [? ?].
  destruct (Z.of_nat (length bytes) <? 1 + l1 + l2 + l3 + len); cbn; intros Hr; [done|]. split_and!; lia.
Qed.

(** A frame with a length field, as both buffers get it. *)
Definition wire (id off : Z) (fin : bool) (data : list Z) : list Z :=
  let n := Z.of_nat (length data) in
  stream_wire off true fin (picoquic_varint_encode (picoquic_varint_len id) id)
    (if 0 <? off then picoquic_varint_encode (picoquic_varint_len off) off else [])
    (picoquic_varint_encode (picoquic_varint_len n) n) data.

(** The encoder writes the same bytes whenever there is room. *)
Lemma encode_enough m n : 0 <= n < 2 ^ 62 -> picoquic_varint_len n <= m ->
  picoquic_varint_encode m n = picoquic_varint_encode (picoquic_varint_len n) n.
Proof.
  intros Hn. unfold picoquic_varint_len. destruct (Z.leb_spec n 63), (Z.leb_spec n 16383), (Z.leb_spec n 1073741823), (Z.leb_spec n 4611686018427387903); try lia;
    intros; unfold picoquic_varint_encode; case_cmp; try done; lia.
Qed.

Lemma encode_len n : 0 <= n < 2 ^ 62 -> Z.of_nat (length (picoquic_varint_encode (picoquic_varint_len n) n)) = picoquic_varint_len n.
Proof. intros Hn. rewrite encode_exact_length by done. by rewrite Z.leb_refl. Qed.

Lemma shortest_encodes n : 0 <= n < 2 ^ 62 -> encodes (picoquic_varint_encode (picoquic_varint_len n) n) n.
Proof.
  intros Hn. apply encodes_intro. pose proof (encode_len n Hn) as H. pose proof (encoding_length_range n Hn).
  intros E. rewrite E in H. cbn in H. lia.
Qed.

Definition header_size (id off : Z) : Z := 1 + picoquic_varint_len id + (if 0 <? off then picoquic_varint_len off else 0).

Lemma wire_length id off fin data : 0 <= id < 2 ^ 62 -> 0 <= off < 2 ^ 62 -> Z.of_nat (length data) < 2 ^ 62 ->
  Z.of_nat (length (wire id off fin data)) = header_size id off + picoquic_varint_len (Z.of_nat (length data)) + Z.of_nat (length data).
Proof.
  intros Hid Hoff Hd. unfold wire, stream_wire, header_size. cbn [length]. rewrite !length_app, !Nat2Z.inj_succ, !Nat2Z.inj_add, !encode_len by lia.
  destruct (0 <? off); cbn [length]; rewrite ?encode_len by done; lia.
Qed.

Lemma wire_reads id off fin data rest : 0 <= id < 2 ^ 62 -> 0 <= off < 2 ^ 62 -> Z.of_nat (length data) < 2 ^ 62 ->
  reads (parse_stream_frame (wire id off fin data ++ rest)) (Z.of_nat (length (wire id off fin data)))
    (stream_frame id off fin (Z.of_nat (length data)) data).
Proof.
  intros Hid Hoff Hd. apply parse_wire; try done; try (by apply shortest_encodes).
  - by destruct (0 <? off); [apply shortest_encodes|].
  - cbn. apply shortest_encodes. lia.
Qed.

Lemma varint_len_le n : 1 <= n < 2 ^ 62 -> 1 <= picoquic_varint_len n <= n /\ (2 <= n -> picoquic_varint_len n < n).
Proof. intros Hn. unfold picoquic_varint_len. case_cmp; lia. Qed.

Lemma first_byte_type off : 0 <= off ->
  (if negb (off =? 0) then Z.lor (Z.lor picoquic_frame_type_stream_range_min 2) 4 else Z.lor picoquic_frame_type_stream_range_min 2)
  = stream_type off true false.
Proof. intros H. unfold stream_type. destruct (Z.eqb_spec off 0), (Z.ltb_spec 0 off); try lia; done. Qed.

Lemma or_first_type off data : or_first 1 (stream_type off true false :: data) = stream_type off true true :: data.
Proof. cbn [or_first]. f_equal. unfold stream_type. by destruct (0 <? off). Qed.

(** The data of a STREAM frame. *)
Definition data_of (bytes : list Z) : list Z :=
  let h := picoquic_parse_stream_header bytes in take (Z.to_nat (sh_data_length h)) (drop (Z.to_nat (sh_consumed h)) bytes).

Lemma length_data_of bytes : Forall is_u8 bytes -> sh_ret (picoquic_parse_stream_header bytes) = 0 ->
  Z.of_nat (length (data_of bytes)) = sh_data_length (picoquic_parse_stream_header bytes).
Proof.
  intros Hb Hr. destruct (stream_header_bounds bytes Hb Hr) as (? & ? & ?). unfold data_of. rewrite length_take, length_drop. lia.
Qed.

(** Type, stream and offset, as the first buffer gets them. *)
Lemma header_written id off m : 0 <= id < 2 ^ 62 -> 0 <= off < 2 ^ 62 -> header_size id off <= m ->
  let t := stream_type off true false in
  let buf := [t] ++ picoquic_varint_encode (m - Z.of_nat (length [t])) id in
  (if negb (off =? 0) then buf ++ picoquic_varint_encode (m - Z.of_nat (length buf)) off else buf)
  = t :: picoquic_varint_encode (picoquic_varint_len id) id ++ (if 0 <? off then picoquic_varint_encode (picoquic_varint_len off) off else []).
Proof.
  intros Hid Hoff Hm. cbv zeta. unfold header_size in Hm. pose proof (encoding_length_range _ Hid). pose proof (encoding_length_range _ Hoff).
  rewrite (encode_enough _ id) by (try (cbn [length]; destruct (0 <? off)); cbn [length] in *; lia).
  pose proof (encode_len id Hid) as Hl. destruct (Z.eqb_spec off 0) as [E|E], (Z.ltb_spec 0 off); try lia; cbn [negb app]; [by rewrite app_nil_r|].
  f_equal. f_equal. apply encode_enough; [done|]. cbn [length]. lia.
Qed.

(** The frame in the second buffer, which always has an offset. *)
Lemma second_written id off fin d m : 0 <= id < 2 ^ 62 -> 0 < off < 2 ^ 62 -> Z.of_nat (length d) < 2 ^ 62 ->
  header_size id off + picoquic_varint_len (Z.of_nat (length d)) <= m ->
  let buf := [stream_type off true fin] in
  let buf := buf ++ picoquic_varint_encode (m - Z.of_nat (length buf)) id in
  let buf := buf ++ picoquic_varint_encode (m - Z.of_nat (length buf)) off in
  (buf ++ picoquic_varint_encode (m - Z.of_nat (length buf)) (Z.of_nat (length d))) ++ d = wire id off fin d.
Proof.
  intros Hid Hoff Hd Hm. cbv zeta. unfold header_size in Hm. rewrite (proj2 (Z.ltb_lt 0 off)) in Hm by lia.
  pose proof (encoding_length_range id Hid). pose proof (encoding_length_range off ltac:(lia)). pose proof (encoding_length_range (Z.of_nat (length d)) ltac:(lia)).
  pose proof (encode_len id Hid). pose proof (encode_len off ltac:(lia)).
  rewrite (encode_enough _ id) by (cbn; lia).
  rewrite (encode_enough _ off) by (try (cbn [length app]; rewrite ?length_app); cbn [length]; lia).
  rewrite (encode_enough _ (Z.of_nat (length d))); [|lia|cbn [length app]; rewrite length_app; lia].
  unfold wire, stream_wire. rewrite (proj2 (Z.ltb_lt 0 off)) by lia. cbn. by rewrite <- !app_assoc.
Qed.

(** What is in the buffers: all of the frame in the first one, or two frames. *)
Lemma split_spec bytes buf1_max buf2_max r buf1 buf2 :
  let h := picoquic_parse_stream_header bytes in
  Forall is_u8 bytes -> sh_ret h = 0 -> 0 < sh_data_length h -> sh_offset h + sh_data_length h < 2 ^ 62 -> buf1_max < 2 ^ 62 ->
  picoquic_split_stream_frame bytes buf1_max buf2_max = Some (r, buf1, buf2) ->
  r = sh_consumed h + sh_data_length h /\ sh_consumed h < buf1_max /\ Z.of_nat (length buf1) <= buf1_max /\
  ((buf1 = wire (sh_stream_id h) (sh_offset h) (sh_fin h) (data_of bytes) /\ buf2 = []) \/
   exists n, 0 <= n < sh_data_length h /\ (Z.land (nth 0 bytes 0) 2 <> 0 -> 1 <= n)
     /\ buf1 = wire (sh_stream_id h) (sh_offset h) false (take (Z.to_nat n) (data_of bytes))
     /\ (0 < sh_offset h + n ->
         header_size (sh_stream_id h) (sh_offset h + n) + picoquic_varint_len (sh_data_length h - n) + (sh_data_length h - n) <= buf2_max ->
         buf2 = wire (sh_stream_id h) (sh_offset h + n) (sh_fin h) (drop (Z.to_nat n) (data_of bytes)))).
Proof.
  cbv zeta. intros Hb Hr Hd Hod Hm H. pose proof (length_data_of bytes Hb Hr) as Hdl. destruct (stream_header_bounds bytes Hb Hr) as (Hc & _ & Hcd).
  destruct (header_fields bytes Hb Hr) as (Hid & Hoff & Hh & Hlen). unfold picoquic_split_stream_frame in H.
  set (h := picoquic_parse_stream_header bytes) in *. rewrite Hr in H. cbn [Z.eqb] in H.
  rewrite (proj2 (Z.eqb_neq (sh_data_length h) 0)) in H by lia. destruct (orb _ _) eqn:Hor; [done|].
  rewrite !orb_false_iff, !Z.leb_gt in Hor. destruct Hor as [[Hb1 Hb2] _].
  rewrite (first_byte_type (sh_offset h)) in H by lia. set (t := stream_type (sh_offset h) true false) in *.
  set (d := data_of bytes) in *. set (e1 := picoquic_varint_encode (picoquic_varint_len (sh_stream_id h)) (sh_stream_id h)).
  set (e2 := if 0 <? sh_offset h then picoquic_varint_encode (picoquic_varint_len (sh_offset h)) (sh_offset h) else []).
  pose proof (encoding_length_range _ Hid) as Hl1. pose proof (encoding_length_range _ Hoff) as Hl2.
  assert (Z.of_nat (length e1) = picoquic_varint_len (sh_stream_id h)) as He1 by (by apply encode_len).
  assert (Z.of_nat (length e2) = if sh_offset h =? 0 then 0 else picoquic_varint_len (sh_offset h)) as He2.
  { unfold e2. destruct (Z.ltb_spec 0 (sh_offset h)), (Z.eqb_spec (sh_offset h) 0); try lia; [by apply encode_len|done]. }
  assert (header_size (sh_stream_id h) (sh_offset h) = 1 + picoquic_varint_len (sh_stream_id h) + Z.of_nat (length e2)) as Hhs.
  { unfold header_size. rewrite He2. destruct (Z.eqb_spec (sh_offset h) 0), (Z.ltb_spec 0 (sh_offset h)); lia. }
  pose proof (header_written (sh_stream_id h) (sh_offset h) buf1_max Hid Hoff ltac:(lia)) as Hpre. cbv zeta in Hpre. fold t e1 e2 in Hpre.
  cbv zeta in H. rewrite Hpre in H. clear Hpre.
  set (room := buf1_max - Z.of_nat (length (t :: e1 ++ e2))) in *.
  assert (room = buf1_max - 1 - picoquic_varint_len (sh_stream_id h) - Z.of_nat (length e2)) as Hroom
    by (unfold room; cbn [length]; rewrite length_app; lia).
  pose proof (varint_len_le room ltac:(lia)) as [Hvr Hvr'].
  rewrite (u64_small (room - picoquic_varint_len room)) in H by lia.
  assert (d = take (Z.to_nat (sh_data_length h)) (drop (Z.to_nat (sh_consumed h)) bytes)) as Hdd by done.
  destruct (Z.leb_spec (sh_data_length h) (room - picoquic_varint_len room)) as [Hle|Hgt].
  - (* all of it *)
    rewrite Z.ltb_irrefl in H. injection H as <- <- <-. split; [done|]. split; [done|].
    assert ((if sh_fin h then Z.lor t 1 :: e1 ++ e2 else t :: e1 ++ e2) = stream_type (sh_offset h) true (sh_fin h) :: e1 ++ e2) as Et.
    { destruct (sh_fin h); [|done]. exact (or_first_type (sh_offset h) (e1 ++ e2)). }
    rewrite Et. pose proof (encoding_length_mono (sh_data_length h) room ltac:(lia) ltac:(lia)).
    rewrite (encode_enough _ (sh_data_length h)) by (try (cbn [length] in *; rewrite ?length_app in *); cbn [length] in *; lia).
    rewrite <- Hdd. assert (((stream_type (sh_offset h) true (sh_fin h) :: e1 ++ e2) ++ picoquic_varint_encode (picoquic_varint_len (sh_data_length h)) (sh_data_length h)) ++ d
      = wire (sh_stream_id h) (sh_offset h) (sh_fin h) d) as Ew.
    { unfold wire, stream_wire. rewrite Hdl. cbn. by rewrite <- !app_assoc. }
    rewrite Ew. split; [|by left]. rewrite wire_length by lia. rewrite Hdl, Hhs. lia.
  - set (n := room - picoquic_varint_len room) in *. rewrite (proj2 (Z.ltb_lt _ _) Hgt) in H. injection H as <- <- <-. split; [done|]. split; [done|].
    pose proof (encoding_length_mono n room ltac:(lia) ltac:(lia)).
    rewrite (encode_enough _ n) by (cbn [length]; rewrite ?length_app; lia).
    assert (take (Z.to_nat n) (drop (Z.to_nat (sh_consumed h)) bytes) = take (Z.to_nat n) d) as Htake by (rewrite Hdd, take_take; f_equal; lia).
    rewrite Htake. assert (Z.of_nat (length (take (Z.to_nat n) d)) = n) as Hnl by (rewrite length_take; lia).
    assert (t :: ((e1 ++ e2) ++ picoquic_varint_encode (picoquic_varint_len n) n) ++ take (Z.to_nat n) d
      = wire (sh_stream_id h) (sh_offset h) false (take (Z.to_nat n) d)) as Ew.
    { unfold wire, stream_wire. rewrite Hnl. cbn. by rewrite <- !app_assoc. }
    rewrite Ew. split.
    { rewrite wire_length by lia. rewrite Hnl, Hhs. lia. }
    right. exists n. split; [lia|]. split; [intros HL; destruct (Hlen HL) as [? ?]; pose proof (encoding_length_range (sh_data_length h) ltac:(lia)); lia|].
    split; [done|]. intros Hpos Hfit. set (m := sh_data_length h - n) in *. rewrite (u64_small (sh_offset h + n)) by lia.
    assert (take (Z.to_nat m) (drop (Z.to_nat n) (drop (Z.to_nat (sh_consumed h)) bytes)) = drop (Z.to_nat n) d) as Hdrop.
    { rewrite Hdd, skipn_firstn_comm. f_equal. lia. }
    rewrite Hdrop. assert (Z.of_nat (length (drop (Z.to_nat n) d)) = m) as Hml by (rewrite length_drop; lia).
    pose proof (second_written (sh_stream_id h) (sh_offset h + n) (sh_fin h) (drop (Z.to_nat n) d) buf2_max Hid ltac:(lia) ltac:(lia) ltac:(rewrite Hml; lia)) as Hw.
    cbv zeta in Hw. rewrite Hml in Hw. rewrite <- Hw.
    assert ((if sh_fin h then Z.lor (Z.lor t 4) 1 else Z.lor t 4) = stream_type (sh_offset h + n) true (sh_fin h)) as ->; [|done].
    unfold t, stream_type. rewrite (proj2 (Z.ltb_lt 0 _) Hpos). by destruct (0 <? sh_offset h), (sh_fin h).
Qed.

(** A frame that can be cut anywhere: it has a length, and its offset has the same size everywhere in the frame. *)
Definition safe_to_cut (f : list Z) : Prop :=
  let h := picoquic_parse_stream_header f in
  Z.land (nth 0 f 0) 2 <> 0 /\ sh_offset h + sh_data_length h < 2 ^ 62 /\
  (sh_offset h = 0 \/ picoquic_varint_len (sh_offset h + sh_data_length h) = picoquic_varint_len (sh_offset h)).

Lemma cut_fits f n : let h := picoquic_parse_stream_header f in
  Forall is_u8 f -> sh_ret h = 0 -> safe_to_cut f -> 1 <= n < sh_data_length h ->
  header_size (sh_stream_id h) (sh_offset h + n) + picoquic_varint_len (sh_data_length h - n) + (sh_data_length h - n)
  <= sh_consumed h + sh_data_length h.
Proof.
  cbv zeta. intros Hb Hr (HL & Hod & Hw) Hn. destruct (header_fields f Hb Hr) as (Hid & Hoff & _ & Hlen). destruct (Hlen HL) as [Hd Hc]. clear Hlen.
  set (h := picoquic_parse_stream_header f) in *. unfold header_size. rewrite (proj2 (Z.ltb_lt 0 _)) by lia.
  pose proof (encoding_length_mono (sh_data_length h - n) (sh_data_length h) ltac:(lia) ltac:(lia)).
  pose proof (encoding_length_mono (sh_offset h + n) (sh_offset h + sh_data_length h) ltac:(lia) ltac:(lia)).
  destruct (Z.eqb_spec (sh_offset h) 0) as [E|E].
  - rewrite E in *. pose proof (varint_len_le n ltac:(lia)). rewrite Z.add_0_l. lia.
  - destruct Hw as [Hw|Hw]; lia.
Qed.

(** [b] is read as this frame, whatever follows it. *)
Definition stream_part (b : list Z) (id off : Z) (fin : bool) (d : list Z) : Prop :=
  forall rest, reads (parse_stream_frame (b ++ rest)) (Z.of_nat (length b)) (stream_frame id off fin (Z.of_nat (length d)) d).

(** What stands for a frame: itself; two frames with its data one after the other, of which the second has its end of stream;
    or the same frame with shorter fields, beside nothing. *)
Inductive carries (f : list Z) : list (list Z) -> Prop :=
| carries_whole : carries f [f]
| carries_cut id off fin d1 d2 x y :
    reads (parse_stream_frame f) (Z.of_nat (length f)) (stream_frame id off fin (Z.of_nat (length (d1 ++ d2))) (d1 ++ d2)) ->
    stream_part x id off false d1 -> stream_part y id (off + Z.of_nat (length d1)) fin d2 -> carries f [x; y]
| carries_again id off fin d x :
    reads (parse_stream_frame f) (Z.of_nat (length f)) (stream_frame id off fin (Z.of_nat (length d)) d) ->
    stream_part x id off fin d -> carries f [x; []].

Lemma reads_alone f : let h := picoquic_parse_stream_header f in Forall is_u8 f ->
  sh_ret h = 0 -> sh_consumed h + sh_data_length h = Z.of_nat (length f) ->
  reads (parse_stream_frame f) (Z.of_nat (length f))
    (stream_frame (sh_stream_id h) (sh_offset h) (sh_fin h) (Z.of_nat (length (data_of f))) (data_of f)).
Proof.
  cbv zeta. intros Hb Hr Hl. rewrite (length_data_of f Hb Hr). unfold parse_stream_frame, reads. rewrite Hr. cbn. by rewrite Hl.
Qed.

(** A frame that is safe to cut is carried by the two buffers. *)
Lemma split_carries f rest buf1_max r buf1 buf2 : let h := picoquic_parse_stream_header f in
  Forall is_u8 (f ++ rest) -> picoquic_parse_stream_header (f ++ rest) = h -> f <> [] -> sh_ret h = 0 ->
  sh_consumed h + sh_data_length h = Z.of_nat (length f) -> safe_to_cut f -> buf1_max < Z.of_nat (length f) -> Z.of_nat (length f) < 2 ^ 62 ->
  picoquic_split_stream_frame (f ++ rest) buf1_max (Z.of_nat (length f)) = Some (r, buf1, buf2) ->
  r = Z.of_nat (length f) /\ Z.of_nat (length buf1) <= buf1_max /\ Z.of_nat (length buf2) <= Z.of_nat (length f) /\ carries f [buf1; buf2].
Proof.
  cbv zeta. intros Hb Hsame Hne Hr Hl Hsafe Hmax Hlen H. apply Forall_app in Hb as Hb'. destruct Hb' as [Hbf Hbr].
  pose proof Hsafe as (HL & Hod & _). destruct (header_fields f Hbf Hr) as (Hid & Hoff & _ & _). destruct (stream_header_bounds f Hbf Hr) as (Hc & Hd0 & _).
  set (h := picoquic_parse_stream_header f) in *.
  assert (0 < sh_data_length h) as Hd.
  { destruct (Z.eq_dec (sh_data_length h) 0) as [E|]; [exfalso|lia]. unfold picoquic_split_stream_frame in H. rewrite Hsame, Hr, E in H. cbn [Z.eqb] in H.
    rewrite (proj2 (Z.leb_le buf1_max (sh_consumed h))) in H by lia. done. }
  pose proof (split_spec (f ++ rest) buf1_max (Z.of_nat (length f)) r buf1 buf2) as S. cbv zeta in S. rewrite Hsame in S.
  destruct (S Hb Hr Hd Hod ltac:(lia) H) as (-> & _ & Hb1 & Hc1). clear S H.
  assert (data_of (f ++ rest) = data_of f) as Hdata.
  { unfold data_of. rewrite Hsame. fold h. rewrite drop_app_le by lia. rewrite take_app_le; [done|]. rewrite length_drop. lia. }
  rewrite Hdata in Hc1. pose proof (length_data_of f Hbf Hr) as Hdl. fold h in Hdl. pose proof (reads_alone f Hbf Hr Hl) as Hreads. fold h in Hreads.
  split; [lia|]. split; [done|]. destruct Hc1 as [[-> ->]|(n & Hn & Hn1 & -> & H2)].
  - split; [cbn; lia|]. eapply carries_again; [exact Hreads|]. intros rest'. apply wire_reads; lia.
  - assert (nth 0 (f ++ rest) 0 = nth 0 f 0) as Hnth by (by destruct f). rewrite Hnth in Hn1. specialize (Hn1 HL).
    pose proof (cut_fits f n Hbf Hr Hsafe ltac:(fold h; lia)) as Hfit. fold h in Hfit. rewrite H2 by lia.
    assert (Z.of_nat (length (take (Z.to_nat n) (data_of f))) = n) as Hn2 by (rewrite length_take; lia).
    assert (Z.of_nat (length (drop (Z.to_nat n) (data_of f))) = sh_data_length h - n) as Hn3 by (rewrite length_drop; lia).
    split; [rewrite wire_length by lia; rewrite Hn3; lia|].
    eapply (carries_cut f _ _ _ (take (Z.to_nat n) (data_of f)) (drop (Z.to_nat n) (data_of f))).
    + rewrite take_drop. exact Hreads.
    + intros rest'. apply wire_reads; lia.
    + intros rest'. rewrite Hn2. apply wire_reads; lia.
Qed.

(** ** Nothing is lost *)

(** No plugin has frames to send. *)
Definition plain (s : PluginFrames.sender) : Prop :=
  PluginFrames.plugins s = [] /\ PluginFrames.reserved_frames s = [] /\ PluginFrames.retry_frames s = [].

(** The frames that wait to be retransmitted. *)
Definition waiting (s : PluginFrames.sender) : list (list Z) := map (fun f => default [] (PluginFrames.iov_base f)) (PluginFrames.rtx_frames s).

(** What the writer does when no plugin has frames: it copies waiting frames, as many as fit. *)
Lemma plain_writer write_frame in_plugin max_bytes payload_offset cc s :
  plain s -> Forall PluginFrames.iovec_ok (PluginFrames.rtx_frames s) -> 0 <= max_bytes < 2 ^ 63 ->
  exists s' pk t, PluginFrames.scheduler_write_new_frames write_frame in_plugin max_bytes payload_offset cc s = Done (0, s', pk)
    /\ plain s' /\ Forall PluginFrames.iovec_ok (PluginFrames.rtx_frames s') /\ waiting s = t ++ waiting s'
    /\ PluginFrames.pk_bytes pk = concat t /\ Z.of_nat (length (PluginFrames.pk_bytes pk)) <= max_bytes.
Proof.
  intros (Hp & Hres & Hret) Hio Hm. unfold PluginFrames.scheduler_write_new_frames.
  destruct (PluginFrames.write_rtx _ _ _) as [rtx pk1] eqn:Hw.
  apply (PluginFrames.write_rtx_ok write_frame max_bytes payload_offset Hm) in Hw as (t & Ht & Hb & Hok & _);
    [|done|constructor; cbn; [lia|done|done]].
  rewrite Hret, Hres. cbn. do 3 eexists. split; [reflexivity|]. unfold plain, waiting. cbn. rewrite Hp. split; [done|].
  rewrite Ht in Hio |- *. apply Forall_app in Hio as [_ Hio]. split; [done|]. rewrite map_app. split; [reflexivity|].
  cbn in Hb. split; [done|]. by destruct Hok.
Qed.

Lemma plain_reserve x stream frame_mss s : plain s -> PluginFrames.picoquic_frame_fair_reserve x stream frame_mss s = (0, s).
Proof. intros (Hp & _). unfold PluginFrames.picoquic_frame_fair_reserve. by rewrite Hp. Qed.

(** [fs] were taken over: each of them, and all that was waiting, is now in the payload or waiting. *)
Definition moved (fs : list (list Z)) (payload payload' : list Z) (s s' : PluginFrames.sender) : Prop :=
  exists pieces segs, Forall2 carries fs pieces /\ payload' = payload ++ concat segs /\
    waiting s ++ concat pieces ⊆+ segs ++ waiting s'.

Lemma moved_nothing payload s : moved [] payload payload s s.
Proof. exists [], []. cbn. by rewrite !app_nil_r. Qed.

Lemma moved_trans fs gs p p1 p2 s s1 s2 : moved fs p p1 s s1 -> moved gs p1 p2 s1 s2 -> moved (fs ++ gs) p p2 s s2.
Proof.
  intros (q & t & Hq & -> & Hw) (q' & t' & Hq' & -> & Hw'). exists (q ++ q'), (t ++ t'). split_and!.
  - by apply Forall2_app.
  - by rewrite concat_app, app_assoc.
  - rewrite concat_app, app_assoc. etrans; [apply submseteq_skips_r, Hw|]. rewrite <- !app_assoc. by apply submseteq_skips_l.
Qed.

(** Bytes that stand for no frame. *)
Lemma moved_more fs p p1 more s s1 : moved fs p p1 s s1 -> moved fs p (p1 ++ more) s s1.
Proof.
  intros (q & t & Hq & -> & Hw). exists q, (t ++ [more]). rewrite concat_app. cbn. rewrite app_nil_r, app_assoc. split_and!; [done|done|].
  etrans; [exact Hw|]. rewrite <- app_assoc. apply submseteq_skips_l. cbn. by apply submseteq_cons.
Qed.

Lemma moved_copied f p s : moved [f] p (p ++ f) s s.
Proof.
  exists [[f]], [f]. cbn. rewrite app_nil_r. split_and!; [repeat constructor|done|]. by rewrite Permutation_app_comm.
Qed.

Lemma waiting_enqueue f s : waiting (enqueue_rtx f s) = waiting s ++ [f].
Proof. unfold waiting, enqueue_rtx. cbn. by rewrite map_app. Qed.

Lemma moved_queued f p s : moved [f] p p s (enqueue_rtx f s).
Proof.
  exists [[f]], []. rewrite waiting_enqueue. cbn [concat app]. rewrite !app_nil_r. split_and!; [repeat constructor|done|done].
Qed.

Lemma moved_cut f x y p s : carries f [x; y] -> moved [f] p (p ++ x) s (enqueue_rtx y s).
Proof.
  intros Hc. exists [[x; y]], [x]. rewrite waiting_enqueue. cbn [concat app]. rewrite ?app_nil_r. split_and!; [by repeat constructor|done|].
  apply Permutation_submseteq. by rewrite Permutation_middle.
Qed.

Lemma moved_drained t p s s' : waiting s = t ++ waiting s' -> moved [] p (p ++ concat t) s s'.
Proof. intros H. exists [], t. cbn. by rewrite app_nil_r, H. Qed.

Section Copied.
Variable write_frame : PluginFrames.slot -> PluginFrames.written.
Variable in_plugin : bool.
Variable c : Streams.cnx.
Variable a : stream_sacks.
Variable app_ : bool.
Variable send_buffer_max header_length checksum_length : Z.
Variable x : PluginFrames.path.
Hypothesis sizes_ok : 0 <= header_length /\ 0 <= checksum_length /\ send_buffer_max < 2 ^ 62.

Record copy_ok (st : copy) : Prop := CopyOk {
  ok_plain : plain (cp_sender st);
  ok_rtx : Forall PluginFrames.iovec_ok (PluginFrames.rtx_frames (cp_sender st));
  ok_room : length_of header_length (cp_packet st) + checksum_length <= send_buffer_max
}.

Definition takes (fs : list (list Z)) (st st' : copy) : Prop :=
  moved fs (f_payload (cp_packet st)) (f_payload (cp_packet st')) (cp_sender st) (cp_sender st').

Lemma length_payload (st st' : copy) more : f_payload (cp_packet st') = f_payload (cp_packet st) ++ more ->
  length_of header_length (cp_packet st') = length_of header_length (cp_packet st) + Z.of_nat (length more).
Proof. intros E. unfold length_of. rewrite E, length_app. lia. Qed.

Lemma enqueue_rtx_ok f st st' : copy_ok st -> cp_sender st' = enqueue_rtx f (cp_sender st) ->
  length_of header_length (cp_packet st') + checksum_length <= send_buffer_max -> copy_ok st'.
Proof.
  intros [Hp Hr _] Hs Hl. constructor; [|..|done]; rewrite Hs.
  - exact Hp.
  - cbn. apply Forall_app. split; [done|]. repeat constructor; cbn; [lia|]. by intros b [= <-].
Qed.

(** Before a frame without length: what was waiting may come first, and the room that is left is the size of the frame. *)
Lemma before_unlimited_ok pure_ack (f : list Z) st : copy_ok st ->
  length_of header_length (cp_packet st) + checksum_length + Z.of_nat (length f) <= send_buffer_max ->
  exists st', before_unlimited write_frame in_plugin c send_buffer_max header_length checksum_length x pure_ack (Z.of_nat (length f)) st = Done st'
    /\ plain (cp_sender st') /\ Forall PluginFrames.iovec_ok (PluginFrames.rtx_frames (cp_sender st'))
    /\ length_of header_length (cp_packet st') + checksum_length + Z.of_nat (length f) = send_buffer_max
    /\ takes [] st st' /\ has_unlimited_frame st' = true.
Proof.
  intros [Hp Hr Hl] Hfit. unfold before_unlimited.
  assert (0 <= length_of header_length (cp_packet st)) as Hnn by (unfold length_of; lia).
  assert (forall st1, plain (cp_sender st1) -> Forall PluginFrames.iovec_ok (PluginFrames.rtx_frames (cp_sender st1)) -> takes [] st st1 ->
    length_of header_length (cp_packet st1) + checksum_length + Z.of_nat (length f) <= send_buffer_max ->
    exists st', (let f0 := cp_packet st1 in
      Done (Copy (set_payload (f_payload f0 ++ replicate (Z.to_nat (send_buffer_max - (checksum_length + length_of header_length f0 + Z.of_nat (length f)))) picoquic_frame_type_padding) f0)
        (cp_sender st1) (written_non_pure_ack_frames st1) (has_handshake_done st1) true)) = Done st'
      /\ plain (cp_sender st') /\ Forall PluginFrames.iovec_ok (PluginFrames.rtx_frames (cp_sender st'))
      /\ length_of header_length (cp_packet st') + checksum_length + Z.of_nat (length f) = send_buffer_max
      /\ takes [] st st' /\ has_unlimited_frame st' = true) as Hpad.
  { intros st1 Hp1 Hr1 Hm1 Hl1. eexists. split; [reflexivity|]. cbn [cp_sender cp_packet has_unlimited_frame]. split_and!; try done.
    - unfold length_of in *. cbn [f_payload set_payload]. rewrite length_app, length_replicate. lia.
    - unfold takes. cbn. by apply moved_more. }
  destruct (_ && _) eqn:Hc; cbn [obind]; [|apply Hpad; try done; apply moved_nothing].
  apply andb_true_iff in Hc as [_ Hc]. apply Z.ltb_lt in Hc.
  set (s0 := match PluginFrames.reserved_frames (cp_sender st) with [] => _ | _ => _ end).
  assert (s0 = cp_sender st) as -> by (subst s0; rewrite plain_reserve by done; by destruct (PluginFrames.reserved_frames _)).
  destruct (plain_writer write_frame in_plugin (send_buffer_max - checksum_length - length_of header_length (cp_packet st) - Z.of_nat (length f))
    (length_of header_length (cp_packet st) - f_offset (cp_packet st)) (f_is_congestion_controlled (cp_packet st)) (cp_sender st) Hp Hr ltac:(lia))
    as (s' & pk & t & -> & Hp' & Hr' & Ht & Hb & Hle). cbn [obind].
  apply Hpad; try done.
  - unfold takes. cbn. rewrite Hb. by apply moved_drained.
  - unfold length_of in *. cbn. rewrite length_app. lia.
Qed.

(** A STREAM frame that is read the same way on its own and is as long as it says. *)
Definition own_stream (f rest : list Z) : Prop :=
  let h := picoquic_parse_stream_header f in
  picoquic_parse_stream_header (f ++ rest) = h /\ sh_ret h = 0 /\ sh_consumed h + sh_data_length h = Z.of_nat (length f).

(** The type of a STREAM frame without length. *)
Lemma unlimited_type bytes : is_u8 (nth 0 bytes 0) -> picoquic_is_stream_frame_unlimited bytes = true ->
  is_stream_frame bytes = true /\ Z.land (nth 0 bytes 0) 2 = 0.
Proof.
  unfold picoquic_is_stream_frame_unlimited, is_stream_frame. generalize (nth 0 bytes 0). intros b Hb Hu. revert b Hb Hu.
  set (mask := Z.lnot (Z.lxor picoquic_frame_type_stream_range_min picoquic_frame_type_stream_range_max)).
  set (mask' := Z.lnot (Z.lxor (Z.lxor picoquic_frame_type_stream_range_min picoquic_frame_type_stream_range_max) 2)).
  assert (forall b, is_u8 b -> implb (Z.land b mask' =? picoquic_frame_type_stream_range_min)
            ((Z.land b mask =? picoquic_frame_type_stream_range_min) && (Z.land b 2 =? 0)) = true) as H by (apply forall_bytes; vm_compute; reflexivity).
  intros b Hb Hu. specialize (H b Hb). rewrite Hu in H. cbn [implb] in H. apply andb_true_iff in H as [H1 H2].
  split; [done|by apply Z.eqb_eq].
Qed.

Lemma unlimited_is_last f rest : Forall is_u8 f -> f <> [] -> own_stream f rest ->
  picoquic_is_stream_frame_unlimited (f ++ rest) = true -> rest = [].
Proof.
  intros Hb Hne (Hsame & Hr & Hl) Hu. destruct f as [|b f]; [done|]. apply list.Forall_cons in Hb as [Hb _].
  destruct (unlimited_type ((b :: f) ++ rest) Hb Hu) as [_ H2]. cbn [app nth] in H2.
  assert (forall l, nth 0 l 0 = b -> let h := picoquic_parse_stream_header l in sh_ret h = 0 -> sh_consumed h + sh_data_length h = Z.of_nat (length l)) as Hlen.
  { intros l Hn. cbv zeta. unfold picoquic_parse_stream_header. rewrite Hn, H2. cbn [Z.eqb].
    destruct (varint_at l 1) as [l1 id]. destruct (if Z.land b 4 =? 0 then _ else _) as [l2 off].
    destruct (orb _ _); cbn; [done|lia]. }
  specialize (Hlen ((b :: f) ++ rest) eq_refl). cbv zeta in Hlen. rewrite Hsame in Hlen. specialize (Hlen Hr).
  rewrite Hl, length_app in Hlen. destruct rest; [done|cbn in Hlen; lia].
Qed.

(** The room that is left for more frames. *)
Definition room_for (st : copy) (n : nat) : Prop :=
  length_of header_length (cp_packet st) + checksum_length + Z.of_nat n <= send_buffer_max.

(** A STREAM frame for whose header there is not enough room behind the payload. *)
Definition stuck (f payload : list Z) : Prop :=
  is_stream_frame f = true /\
  send_buffer_max - (header_length + Z.of_nat (length payload)) - checksum_length <= sh_consumed (picoquic_parse_stream_header f).

#[local] Abbreviation copy_frame' := (copy_frame write_frame in_plugin c app_ send_buffer_max header_length checksum_length x).

Lemma split_stuck f rest room : let h := picoquic_parse_stream_header f in Forall is_u8 f -> own_stream f rest -> room < Z.of_nat (length f) ->
  picoquic_split_stream_frame (f ++ rest) room (Z.of_nat (length f)) = None -> room <= sh_consumed h.
Proof.
  cbv zeta. intros Hb (Hsame & Hr & Hl) Hroom H. unfold picoquic_split_stream_frame in H. rewrite Hsame, Hr in H. cbn [Z.eqb] in H.
  destruct (stream_header_bounds f Hb Hr) as (? & ? & ?). set (h := picoquic_parse_stream_header f) in *.
  destruct (Z.leb_spec room (sh_consumed h)); [done|]. cbn [orb] in H.
  destruct (Z.eqb_spec (sh_data_length h) 0) as [E|E]; [lia|].
  destruct (Z.leb_spec (Z.of_nat (length f)) (sh_consumed h)); [lia|]. cbn [orb] in H.
  destruct (Z.leb_spec (room + Z.of_nat (length f) - sh_consumed h - sh_consumed h) (sh_data_length h)); [lia|].
  by destruct (if sh_data_length h <=? _ then _ else _).
Qed.

(** What goes before a frame that fits. *)
Lemma before_fitting pure_ack f rest st : copy_ok st -> f <> [] -> Forall is_u8 f -> (is_stream_frame f = true -> own_stream f rest) ->
  room_for st (length f) ->
  exists st1, (if app_ && picoquic_is_stream_frame_unlimited (f ++ rest)
       then before_unlimited write_frame in_plugin c send_buffer_max header_length checksum_length x pure_ack (Z.of_nat (length f)) st else Done st) = Done st1
    /\ copy_ok st1 /\ takes [] st st1 /\ room_for st1 (length f) /\ (room_for st (length f + length rest) -> room_for st1 (length f + length rest)).
Proof.
  intros Hok Hne Hbf Hst Hfit. destruct (app_ && _) eqn:Hunl; [|exists st; split_and!; try done; apply moved_nothing].
  destruct (before_unlimited_ok pure_ack f st Hok Hfit) as (st1 & H1 & H2 & H3 & H4 & H5 & _). exists st1. apply andb_true_iff in Hunl as [_ Hunl].
  split_and!; [done|constructor; [done|done|lia]|done|unfold room_for; lia|]. intros _.
  assert (is_stream_frame f = true) as Hs.
  { destruct f as [|b f]; [done|]. apply list.Forall_cons in Hbf as [Hb0 _]. exact (proj1 (unlimited_type ((b :: f) ++ rest) Hb0 Hunl)). }
  rewrite (unlimited_is_last f rest Hbf Hne (Hst Hs) Hunl). unfold room_for. cbn [length]. lia.
Qed.

(** A STREAM frame that does not fit is cut, or it is stuck. *)
Lemma copy_cut pure_ack f rest st : copy_ok st -> f <> [] -> Forall is_u8 (f ++ rest) -> Z.of_nat (length f) < 2 ^ 62 ->
  is_stream_frame f = true -> own_stream f rest -> safe_to_cut f -> ~ room_for st (length f) ->
  exists ret st', copy_frame' pure_ack (f ++ rest) (Z.of_nat (length f)) st = Done (ret, st')
    /\ (ret = 0 -> copy_ok st' /\ takes [f] st st') /\ (ret <> 0 -> st' = st /\ stuck f (f_payload (cp_packet st))).
Proof.
  intros Hok Hne Hb Hlf Hs Hown Hsafe Hfit. pose proof Hown as (Hsame & Hret & Hl). pose proof Hok as [_ _ Hroom]. apply Forall_app in Hb as Hb'. destruct Hb' as [Hbf _].
  unfold room_for in Hfit. unfold copy_frame. rewrite (proj2 (Z.leb_gt _ _)) by lia.
  assert (is_stream_frame (f ++ rest) = is_stream_frame f) as -> by (by destruct f). rewrite Hs.
  set (room := send_buffer_max - length_of header_length (cp_packet st) - checksum_length).
  assert (0 <= length_of header_length (cp_packet st)) by (unfold length_of; lia). rewrite (u64_small room) by (unfold room; lia).
  destruct (picoquic_split_stream_frame (f ++ rest) room (Z.of_nat (length f))) as [[[r buf1] buf2]|] eqn:Hsp.
  - destruct (split_carries f rest room r buf1 buf2 Hb Hsame Hne Hret Hl Hsafe ltac:(unfold room; lia) Hlf Hsp) as (-> & Hb1 & Hb2 & Hc).
    rewrite (proj2 (Z.ltb_ge _ _) Hb1), (proj2 (Z.ltb_ge _ _) Hb2), Z.eqb_refl. cbn [orb]. do 2 eexists. split; [reflexivity|]. split; [|done].
    intros _. split; [eapply enqueue_rtx_ok; [exact Hok|reflexivity|]|unfold takes; cbn; by apply moved_cut].
    cbn [cp_packet]. unfold length_of in *. cbn. rewrite length_app. unfold room in Hb1. lia.
  - do 2 eexists. split; [reflexivity|]. split; [done|]. intros _. split; [done|]. split; [done|].
    apply (split_stuck f rest room Hbf Hown); [unfold room; lia|done].
Qed.

Lemma copy_frame_ok pure_ack f rest st :
  copy_ok st -> f <> [] -> Forall is_u8 (f ++ rest) -> Z.of_nat (length f) < 2 ^ 62 -> (is_stream_frame f = true -> own_stream f rest) ->
  room_for st (length (f ++ rest)) \/ (is_stream_frame f = true -> safe_to_cut f) ->
  exists ret st', copy_frame' pure_ack (f ++ rest) (Z.of_nat (length f)) st = Done (ret, st')
    /\ (ret = 0 -> copy_ok st' /\ takes [f] st st') /\ (ret <> 0 -> st' = st /\ stuck f (f_payload (cp_packet st)))
    /\ (room_for st (length (f ++ rest)) -> ret = 0 /\ room_for st' (length rest)).
Proof.
  intros Hok Hne Hb Hlf Hst Hmode. apply Forall_app in Hb as Hb'. destruct Hb' as [Hbf _]. rewrite length_app in *.
  destruct (Z_le_gt_dec (length_of header_length (cp_packet st) + checksum_length + Z.of_nat (length f)) send_buffer_max) as [Hfit|Hfit].
  - destruct (before_fitting pure_ack f rest st Hok Hne Hbf Hst Hfit) as (st1 & He & [Hp1 Hr1 _] & Ht1 & Hl1 & Hm1).
    unfold copy_frame. rewrite (proj2 (Z.leb_le _ _) Hfit), He. cbn [obind]. unfold room_for in Hl1, Hm1 |- *. rewrite (proj2 (Z.leb_le _ _) Hl1).
    rewrite Nat2Z.id, take_app_length. do 2 eexists. split; [reflexivity|]. cbn [cp_packet cp_sender].
    assert (forall n, length_of header_length (set_payload (f_payload (cp_packet st1) ++ f) (cp_packet st1)) + n
      = length_of header_length (cp_packet st1) + Z.of_nat (length f) + n) as Hlen by (intros; unfold length_of; cbn; rewrite length_app; lia).
    split_and!; [|done|].
    + intros _. split; [constructor; cbn [cp_sender cp_packet]; try done; rewrite Hlen; lia|].
      unfold takes in *. cbn. exact (moved_trans [] [f] _ _ _ _ _ _ Ht1 (moved_copied f _ _)).
    + intros Hm. split; [done|]. specialize (Hm1 Hm). rewrite Hlen. lia.
  - assert (~ room_for st (length f)) as Hnf by (unfold room_for; lia).
    assert (~ room_for st (length f + length rest)) as Hno by (unfold room_for; lia).
    destruct Hmode as [Hm|Hmode]; [done|]. destruct (is_stream_frame f) eqn:Hs.
    + destruct (copy_cut pure_ack f rest st Hok Hne Hb Hlf Hs (Hst eq_refl) (Hmode eq_refl) Hnf) as (ret & st' & He & H0 & H1).
      exists ret, st'. split_and!; [done|done|done|]. intros Hm. done.
    + unfold copy_frame. rewrite (proj2 (Z.leb_gt _ _)) by lia. assert (is_stream_frame (f ++ rest) = false) as -> by (by destruct f).
      rewrite Nat2Z.id, take_app_length. do 2 eexists. split; [reflexivity|]. split_and!; [|done|intros Hm; done].
      destruct Hok as [? ? ?]. intros _. split; [eapply enqueue_rtx_ok; [done|reflexivity|done]|]. unfold takes. cbn. apply moved_queued.
Qed.

(** What is to be repeated of the frames that do not only acknowledge: all but the STREAM frames whose data was acknowledged,
    or whose stream was reset or is gone. *)
Definition to_repeat (f : list Z) (pure_ack : Z) : bool :=
  (pure_ack =? 0) && (snd (check_stream_frame_already_acked c a f (Z.of_nat (length f))) =? 0).

(** A payload, from [at_] on, as a sequence of frames of plugins and other frames, of which [fs] are to be repeated. *)
Inductive frames_at (pf : list (Z * Z)) : Z -> list Z -> list (list Z) -> Prop :=
| frames_end at_ : frames_at pf at_ [] []
| frames_plugin at_ b rest fs :
    b <> [] -> plugin_frame_at pf at_ = Some (Z.of_nat (length b)) -> frames_at pf (at_ + Z.of_nat (length b)) rest fs ->
    frames_at pf at_ (b ++ rest) fs
| frames_own at_ f rest pure_ack fs :
    f <> [] -> plugin_frame_at pf at_ = None -> skip_frame (f ++ rest) = (0, Z.of_nat (length f), pure_ack) ->
    (is_stream_frame f = true -> picoquic_parse_stream_header (f ++ rest) = picoquic_parse_stream_header f) ->
    frames_at pf (at_ + Z.of_nat (length f)) rest fs ->
    frames_at pf at_ (f ++ rest) ((if to_repeat f pure_ack then [f] else []) ++ fs).

Lemma skip_stream bytes n pure_ack : Forall is_u8 bytes -> is_stream_frame bytes = true -> skip_frame bytes = (0, n, pure_ack) -> 0 < n ->
  let h := picoquic_parse_stream_header bytes in sh_ret h = 0 /\ sh_consumed h + sh_data_length h = n.
Proof.
  intros Hb Hs Hsk Hn. destruct bytes as [|b bytes]; [by vm_compute in Hs|]. apply list.Forall_cons in Hb as [Hb _].
  unfold is_stream_frame in Hs. cbn [nth] in Hs.
  assert (forall b, is_u8 b -> implb (Z.land b (Z.lnot (Z.lxor picoquic_frame_type_stream_range_min picoquic_frame_type_stream_range_max)) =? picoquic_frame_type_stream_range_min)
            (is_stream_type b && (b <? 64)) = true) as H by (apply forall_bytes; vm_compute; reflexivity).
  specialize (H b Hb). rewrite Hs in H. cbn [implb] in H. apply andb_true_iff in H as [Ht H64]. apply Z.ltb_lt in H64.
  unfold skip_frame in Hsk. rewrite peek_byte in Hsk by (unfold is_u8 in Hb; lia). rewrite (parse_frame_stream b Ht) in Hsk.
  unfold parse_stream_frame in Hsk. destruct (Z.eqb_spec (sh_ret (picoquic_parse_stream_header (b :: bytes))) 0) as [Hr|Hr]; cbn [negb pr_consumed] in Hsk; injection Hsk as Hn' _; [split; [done|lia]|lia].
Qed.

Lemma check_prefix f rest : f <> [] ->
  check_stream_frame_already_acked c a (f ++ rest) (Z.of_nat (length f)) = check_stream_frame_already_acked c a f (Z.of_nat (length f)).
Proof.
  intros Hne. unfold check_stream_frame_already_acked. rewrite Nat2Z.id, take_app_length, firstn_all.
  assert (is_stream_frame (f ++ rest) = is_stream_frame f) as -> by (by destruct f). done.
Qed.

Lemma check_readable f : (is_stream_frame f = true -> sh_ret (picoquic_parse_stream_header f) = 0) ->
  fst (check_stream_frame_already_acked c a f (Z.of_nat (length f))) = 0.
Proof.
  intros H. unfold check_stream_frame_already_acked. rewrite Nat2Z.id, firstn_all. destruct (is_stream_frame f); [|done].
  rewrite (H eq_refl). cbn [Z.eqb]. destruct (fst (Streams.picoquic_find_stream _ _ _)) as [s|]; [|done]. by destruct (Streams.reset_sent s).
Qed.

Lemma room_for_less st n m : (m <= n)%nat -> room_for st n -> room_for st m.
Proof. unfold room_for. lia. Qed.

#[local] Abbreviation copy_frames' := (copy_frames write_frame in_plugin c a app_ send_buffer_max header_length checksum_length x).

(** What the loop over the frames leaves: all frames were taken over, or it stopped at one that is stuck. *)
Definition copied (fs : list (list Z)) (st : copy) (ret : Z) (st' : copy) : Prop :=
  copy_ok st' /\ ((ret = 0 /\ takes fs st st') \/
    (ret <> 0 /\ exists before f after, fs = before ++ f :: after /\ takes before st st' /\ stuck f (f_payload (cp_packet st')))).

Lemma copied_step fs gs st st1 ret st' : takes fs st st1 -> copied gs st1 ret st' -> copied (fs ++ gs) st ret st'.
Proof.
  intros H1 [Hok [[Hr H2]|(Hr & b & f & t & -> & H2 & Hs)]]; (split; [done|]); [left|right]; (split; [done|]).
  - by eapply moved_trans.
  - exists (fs ++ b), f, t. split_and!; [by rewrite app_assoc|by eapply moved_trans|done].
Qed.

Lemma copied_nothing st : copy_ok st -> copied [] st 0 st.
Proof. intros H. split; [done|]. left. split; [done|]. apply moved_nothing. Qed.

(** One frame that is not of a plugin. *)
Lemma own_frame_ok pure_ack f rest pa st :
  copy_ok st -> f <> [] -> Forall is_u8 (f ++ rest) -> Z.of_nat (length f) < 2 ^ 62 -> skip_frame (f ++ rest) = (0, Z.of_nat (length f), pa) ->
  (is_stream_frame f = true -> own_stream f rest) ->
  room_for st (length f + length rest) \/ (to_repeat f pa = true -> is_stream_frame f = true -> safe_to_cut f) ->
  exists ret st1, (let '(ret, n, pa) := skip_frame (f ++ rest) in
      let '(ret, pa) := if (ret =? 0) && (pa =? 0) then check_stream_frame_already_acked c a (f ++ rest) n else (ret, pa) in
      if (ret =? 0) && (pa =? 0) then copy_frame' pure_ack (f ++ rest) n st else Done (ret, st)) = Done (ret, st1)
    /\ copied (if to_repeat f pa then [f] else []) st ret st1
    /\ (room_for st (length f + length rest) -> ret = 0 /\ room_for st1 (length rest)).
Proof.
  intros Hok Hne Hb Hlen Hsk Hown Hmode. rewrite Hsk. cbn [Z.eqb andb].
  assert (room_for st (length f + length rest) -> room_for st (length rest)) as Hless by (apply room_for_less; lia).
  destruct (to_repeat f pa) eqn:Hrep; unfold to_repeat in Hrep.
  - apply andb_true_iff in Hrep as [Hpa Hn]. apply Z.eqb_eq in Hpa, Hn. subst pa. cbn [Z.eqb]. rewrite check_prefix by done.
    pose proof (check_readable f (fun Hs => proj1 (proj2 (Hown Hs)))) as Hr0.
    destruct (check_stream_frame_already_acked c a f (Z.of_nat (length f))) as [r n]. cbn [fst snd] in Hr0, Hn. subst r n. cbn [Z.eqb andb].
    rewrite <- length_app in *. destruct (copy_frame_ok pure_ack f rest st Hok Hne Hb Hlen Hown) as (ret & st1 & He & H0 & H1 & H2).
    { destruct Hmode as [?|Hmode]; [by left|right; by apply Hmode]. }
    exists ret, st1. split_and!; [done| |done]. destruct (Z.eq_dec ret 0) as [E|E].
    + destruct (H0 E). split; [done|by left].
    + destruct (H1 E) as [-> Hs]. split; [done|right]. split; [done|]. exists [], f, []. split_and!; [done|apply moved_nothing|done].
  - exists 0, st. split; [|split; [by apply copied_nothing|by split; [|apply Hless]]].
    destruct (Z.eqb_spec pa 0) as [->|Hpa]; [|by rewrite (proj2 (Z.eqb_neq pa 0) Hpa)]. cbn [andb] in Hrep. rewrite check_prefix by done.
    pose proof (check_readable f (fun Hs => proj1 (proj2 (Hown Hs)))) as Hr0.
    destruct (check_stream_frame_already_acked c a f (Z.of_nat (length f))) as [r n]. cbn [fst snd] in Hr0, Hrep. subst r. by rewrite Hrep.
Qed.

Lemma copy_frames_ok pure_ack pf at_ bytes fs : frames_at pf at_ bytes fs -> forall fuel st,
  (length bytes <= fuel)%nat -> copy_ok st -> Forall is_u8 bytes -> Z.of_nat (length bytes) < 2 ^ 62 ->
  room_for st (length bytes) \/ Forall (fun f => is_stream_frame f = true -> safe_to_cut f) fs ->
  exists ret st', copy_frames' fuel pure_ack pf at_ bytes st = Done (ret, st') /\ copied fs st ret st' /\ (room_for st (length bytes) -> ret = 0).
Proof.
  induction 1 as [at_|at_ b rest fs Hne Hat Hfr IH|at_ f rest pa fs Hne Hat Hsk Hsame Hfr IH]; intros fuel st Hfuel Hok Hb Hlen Hmode.
  { exists 0, st. assert (copied [] st 0 st) by (by apply copied_nothing). by destruct fuel. }
  all: rewrite length_app in *.
  - assert (0 < length b)%nat by (destruct b; [done|cbn; lia]). destruct fuel as [|fuel]; [lia|]. apply Forall_app in Hb as [_ Hb].
    destruct (IH fuel st) as (ret & st' & He & Hc & Hm); [lia|done|done|lia|destruct Hmode as [Hmode|]; [left; eapply room_for_less; [|exact Hmode]; lia|by right]|].
    exists ret, st'. cbn [copy_frames]. destruct (b ++ rest) as [|z l] eqn:Ebr; [by destruct b|]. rewrite <- Ebr, Hat, Nat2Z.id, drop_app_length.
    split_and!; [done|done|]. intros Hr. apply Hm. eapply room_for_less; [|exact Hr]. lia.
  - assert (0 < length f)%nat as Hf0 by (destruct f; [done|cbn; lia]). destruct fuel as [|fuel]; [lia|]. apply Forall_app in Hb as Hb'. destruct Hb' as [Hbf Hbr].
    assert (is_stream_frame f = true -> own_stream f rest) as Hown.
    { intros Hs. assert (is_stream_frame (f ++ rest) = true) as Hs' by (by destruct f). destruct (skip_stream _ _ _ Hb Hs' Hsk ltac:(lia)) as [Hr Hl].
      unfold own_stream. rewrite (Hsame Hs) in *. done. }
    destruct (own_frame_ok pure_ack f rest pa st Hok Hne Hb ltac:(lia) Hsk Hown) as (ret & st1 & He & Hc & Hm).
    { destruct Hmode as [?|Hmode]; [by left|right]. intros Ht. rewrite Ht in Hmode. by apply list.Forall_cons in Hmode as [? _]. }
    cbn [copy_frames]. destruct (f ++ rest) as [|z l] eqn:Ebr; [by destruct f|]. rewrite <- Ebr in *. rewrite Hat.
    rewrite Hsk in He |- *. cbn [Z.eqb andb] in He |- *.
    destruct (if pa =? 0 then _ else _) as [r0 pa0] eqn:Ecl. rewrite He. cbn [obind]. destruct (Z.eqb_spec ret 0) as [->|Hret].
    + rewrite Nat2Z.id, drop_app_length. destruct Hc as [Hok1 [[_ Ht]|[? _]]]; [|done].
      destruct (IH fuel st1) as (ret' & st' & He' & Hc' & Hm'); [lia|done|done|lia| |].
      { destruct Hmode as [Hmode|Hmode]; [left; exact (proj2 (Hm Hmode))|right; by apply Forall_app in Hmode as [_ ?]]. }
      exists ret', st'. split_and!; [done|by eapply copied_step|]. intros Hr. apply Hm', (Hm Hr).
    + exists ret, st1. split_and!; [done| |intros Hr; by destruct (Hm Hr)].
      destruct Hc as [Hok1 [[? _]|(_ & b & g & t & Hfs & Ht & Hs)]]; [done|]. split; [done|right]. split; [done|].
      exists b, g, (t ++ fs). rewrite Hfs, <- app_assoc. done.
Qed.

Lemma fill_packet_ok fuel st : copy_ok st -> exists st',
  fill_packet write_frame in_plugin c send_buffer_max header_length checksum_length x (S fuel) 0 st = Done (0, st') /\ copy_ok st' /\ takes [] st st'.
Proof.
  intros [Hp Hr Hl]. cbn [fill_packet]. set (room := send_buffer_max - length_of header_length (cp_packet st) - checksum_length).
  assert (0 <= length_of header_length (cp_packet st)) by (unfold length_of; lia).
  destruct (plain_writer write_frame in_plugin room (length_of header_length (cp_packet st) - f_offset (cp_packet st))
    (f_is_congestion_controlled (cp_packet st)) (cp_sender st) Hp Hr ltac:(unfold room; lia)) as (s' & pk & t & -> & Hp' & Hr' & Ht & Hb & Hle).
  cbn [obind Z.eqb andb]. rewrite (proj2 (Z.ltb_ge _ _) Hle). cbn [cp_sender]. rewrite (proj1 (proj2 Hp')), plain_reserve by done.
  cbn [Z.ltb Z.compare andb cp_packet]. eexists. split; [reflexivity|]. split.
  - constructor; cbn [cp_sender cp_packet]; try done. unfold length_of in *. cbn. rewrite length_app. unfold room in Hle. lia.
  - unfold takes. cbn. rewrite Hb. by apply moved_drained.
Qed.

(** What is left of a lost packet: all frames that are to be repeated were taken over, or those before one that was stuck: the
    payload had grown to [payload1] then, behind which there was no room for its header, and afterwards only what was waiting
    was added. *)
Definition repeated_frames (fs : list (list Z)) (payload payload' : list Z) (s s' : PluginFrames.sender) : Prop :=
  moved fs payload payload' s s' \/
  exists before f after payload1 s1, fs = before ++ f :: after /\ moved before payload payload1 s s1 /\ stuck f payload1
    /\ moved [] payload1 payload' s1 s'.

Lemma copy_packet_ok fuel l fs st :
  let payload := drop (l_offset l) (l_bytes l) in
  frames_at (l_plugin_frames l) 0 payload fs -> copy_ok st -> Forall is_u8 (l_bytes l) -> Z.of_nat (length (l_bytes l)) < 2 ^ 62 ->
  room_for st (length payload) \/ Forall (fun f => is_stream_frame f = true -> safe_to_cut f) fs ->
  exists ret st', copy_packet write_frame in_plugin c a app_ send_buffer_max header_length checksum_length x (S fuel) l st = Done (ret, st')
    /\ copy_ok st' /\ repeated_frames fs (f_payload (cp_packet st)) (f_payload (cp_packet st')) (cp_sender st) (cp_sender st')
    /\ (room_for st (length payload) -> takes fs st st').
Proof.
  cbv zeta. intros Hfr Hok Hb Hlen Hmode. unfold copy_packet.
  destruct (copy_frames_ok (l_is_pure_ack l) _ _ _ _ Hfr (length (l_bytes l)) st) as (ret & st1 & He & Hc & Hm);
    [rewrite length_drop; lia|done|by apply Forall_drop|rewrite length_drop; lia|done|].
  rewrite He. cbn [obind].
  assert (exists ret' st', (if app_ && negb (l_is_pure_ack l) && negb (has_unlimited_frame st1) && (checksum_length + length_of header_length (cp_packet st1) <? send_buffer_max)
      then fill_packet write_frame in_plugin c send_buffer_max header_length checksum_length x (S fuel) 0 st1 else Done (ret, st1)) = Done (ret', st')
      /\ copy_ok st' /\ takes [] st1 st') as (ret' & st' & He' & Hok' & Ht').
  { destruct Hc as [Hok1 _]. destruct (_ && _); [|exists ret, st1; split_and!; [done|done|apply moved_nothing]].
    destruct (fill_packet_ok fuel st1 Hok1) as (st' & ? & ? & ?). by exists 0, st'. }
  exists ret', st'. split_and!; [done|done| |].
  - destruct Hc as [_ [[_ Ht]|(_ & b & f & t & -> & Ht & Hs)]]; [left|right].
    + rewrite <- (app_nil_r fs). by eapply moved_trans.
    + exists b, f, t, (f_payload (cp_packet st1)), (cp_sender st1). done.
  - intros Hr. destruct Hc as [_ [[_ Ht]|[Hn _]]]; [|by destruct (Hn (Hm Hr))]. rewrite <- (app_nil_r fs). by eapply moved_trans.
Qed.
End Copied.

(** ** The theorems *)

Section Needed.
Variable write_frame : PluginFrames.slot -> PluginFrames.written.
Variable in_plugin : bool.
Variable fuel : nat.
Variable header : nat -> Packet.cnx.
Variable tag : Z.
Variable tag2 : option Z.
Variable app_ : bool.
Variable current_time send_buffer_max : Z.
Variable has_congestion_alg : bool.

#[local] Abbreviation retransmit_needed' := (retransmit_needed write_frame in_plugin (S fuel) header tag tag2 app_ 0 current_time send_buffer_max has_congestion_alg).

(** The queue of the only path of the connection, whose oldest packet is [p], with what the packet holds. *)
Record oldest_packet (w : world) (x : path) (other : Z) (ab : Retransmit.abstract) (p : Retransmit.pointer) (pk : Retransmit.packet) (l : lost) : Prop := OldestPacket {
  only_path : paths w = [x];
  queue_ok : Retransmit.represents other (queue x) ab;
  other_ok : 0 <= other;
  is_oldest : list.last (Retransmit.in_flight ab).*1 = Some p;
  packet_there : Retransmit.heap (queue x) !! p = Some pk;
  content_there : contents w !! p = Some l
}.

Lemma oldest_ends w x other ab p pk l : oldest_packet w x other ab p pk l ->
  Retransmit.retransmit_oldest (queue x) = Some p /\ Retransmit.next_packet pk = None /\ p ∈ (Retransmit.in_flight ab).*1.
Proof.
  intros [_ [Hd _ _ [_ Ho] _ _ _] _ Hl Hp _]. rewrite Hl in Ho. split; [done|].
  apply last_Some in Hl as [q Hq]. rewrite Hq in Hd |- *. apply Retransmit.dll_app in Hd as [_ (x' & Hx' & _ & Hn & _)]. rewrite Hp in Hx'. simplify_eq.
  split; [done|]. set_solver.
Qed.

(** One step decides: there is no packet after the oldest one. *)
Lemma needed_step w lc x other ab p pk l r : oldest_packet w x other ab p pk l ->
  repeat_step write_frame in_plugin (S fuel) header tag tag2 app_ 0 current_time send_buffer_max has_congestion_alg w 0 p lc = Done (r, None) ->
  retransmit_needed' 1 w lc = Done (fst (fst r), snd (fst r), match snd r with Stop n => n | _ => 0 end).
Proof.
  intros H Hs. destruct (oldest_ends _ _ _ _ _ _ _ H) as (Ho & _ & _). unfold retransmit_needed. rewrite (only_path _ _ _ _ _ _ _ H).
  cbn [length seq repeat_paths]. rewrite (only_path _ _ _ _ _ _ _ H). cbn [lookup list_lookup of_option obind]. rewrite Ho. cbn [repeat_queue]. rewrite Hs.
  destruct r as [[w' lc'] v]. by destruct v.
Qed.

Lemma step_start w lc x other ab p pk l : oldest_packet w x other ab p pk l ->
  repeat_step write_frame in_plugin (S fuel) header tag tag2 app_ 0 current_time send_buffer_max has_congestion_alg w 0 p lc =
  let '(should, timer_based, _) := Retransmit.retransmit_needed_by_packet (loss x) pk current_time in
  if negb should then Done (w, lc, if bool_decide (Retransmit.pkt_ptype pk = zero_rtt_protected) then Next else EndOfPath, None)
  else let? r := repeat_packet write_frame in_plugin (S fuel) header tag tag2 app_ 0 current_time send_buffer_max has_congestion_alg w 0 x p pk l timer_based lc in Done (r, None).
Proof.
  intros H. destruct (oldest_ends _ _ _ _ _ _ _ H) as (_ & Hn & _). pose proof H as [Hx _ _ _ Hp Hl]. unfold repeat_step. rewrite Hx. cbn [lookup list_lookup of_option obind].
  rewrite Hp. cbn [of_option obind]. rewrite Hl. cbn [of_option obind]. by rewrite Hn.
Qed.

(** What the end of the walk does to the queue, the payload and the frames that wait. *)
Lemma finish_packet_ok w x pk timer_based checksum_length n lc w' lc' v :
  n <= send_buffer_max - checksum_length -> paths w = [x] ->
  finish_packet current_time send_buffer_max has_congestion_alg w 0 x pk timer_based checksum_length n lc = (w', lc', v) ->
  (exists x', paths w' = [x'] /\ queue x' = queue x) /\ frames w' = frames w
  /\ (exists pad, f_payload (lc_packet lc') = f_payload (lc_packet lc) ++ replicate pad 0
      /\ (v = Stop 0 /\ Streams.cnx_state (conn w') = picoquic_state_disconnected
          \/ v = Stop (n + Z.of_nat pad) /\ n + Z.of_nat pad <= send_buffer_max - checksum_length)).
Proof.
  intros Hn Hx. unfold finish_packet. set (tb := timer_based && _). set (cc := _ <=? current_time).
  destruct (tb && _) eqn:Hd.
  { intros [= <- <- <-]. split; [by exists x|]. split; [done|]. exists 0%nat. cbn. rewrite app_nil_r. split; [done|]. by left. }
  set (pad := if bool_decide (Retransmit.pkt_ptype pk = initial) && _ then _ else _). intros [= <- <- <-].
  assert (n + Z.of_nat pad <= send_buffer_max - checksum_length) as Hpad by (unfold pad; destruct (bool_decide _ && Streams.client_mode _); lia).
  clearbody pad. split; [|split].
  - destruct (cc && has_congestion_alg); cbn; rewrite Hx; cbn; (eexists; split; [reflexivity|]); by destruct tb.
  - by destruct (cc && has_congestion_alg).
  - exists pad. split; [done|]. by right.
Qed.

(** A packet that was lost, can be repeated and fits in the new one without its frames; [fs] are the frames that are to be repeated. *)
Record lost_packet (w : world) (x : path) (pk : Retransmit.packet) (l : lost) (header_length checksum_length : Z) (fs : list (list Z)) : Prop := LostPacket {
  lost_now : fst (fst (Retransmit.retransmit_needed_by_packet (loss x) pk current_time)) = true;
  lost_header : exists t, repeated_as header 0 w 0 (Retransmit.pkt_ptype pk) l = Some (t, header_length);
  lost_checksum : checksum_length = get_checksum_length tag tag2 (is_cleartext (Retransmit.pkt_ptype pk));
  lost_sizes : 0 <= header_length /\ 0 <= checksum_length /\ header_length + checksum_length <= send_buffer_max < 2 ^ 62;
  lost_no_probe : l_is_mtu_probe l = false;
  lost_no_ack : l_is_pure_ack l = false;
  lost_bytes : Forall is_u8 (l_bytes l) /\ Z.of_nat (length (l_bytes l)) < 2 ^ 62;
  lost_frames : frames_at (conn w) (acked w) (l_plugin_frames l) 0 (drop (l_offset l) (l_bytes l)) fs
}.

(** The payload of the packet fits in the new one. *)
Definition fits (l : lost) (header_length checksum_length : Z) : Prop :=
  header_length + checksum_length + Z.of_nat (length (drop (l_offset l) (l_bytes l))) <= send_buffer_max.

(** What a call leaves of the lost packet [p]: it is in the list of the repeated packets; its frames and those that were waiting are
    in the payload or waiting.  The new packet has the length that is returned and fits, or there is none, and then nothing was
    written or the connection was closed. *)
Definition repeated_well (w : world) (other : Z) (ab : Retransmit.abstract) (p : Retransmit.pointer) (l : lost) (header_length checksum_length : Z)
    (fs : list (list Z)) (w' : world) (lc' : locals) (n : Z) : Prop :=
  let payload := f_payload (lc_packet lc') in
  (exists x', paths w' = [x'] /\ Retransmit.represents other (queue x') (Retransmit.spec_op ab (Retransmit.Lost p)))
  /\ repeated_frames send_buffer_max header_length checksum_length fs [] payload (frames w) (frames w')
  /\ (fits l header_length checksum_length -> moved fs [] payload (frames w) (frames w'))
  /\ (n = header_length + Z.of_nat (length payload) /\ n + checksum_length <= send_buffer_max
      \/ n = 0 /\ (payload = [] \/ Streams.cnx_state (conn w') = picoquic_state_disconnected)).

Lemma repeat_packet_ok w lc x other ab p pk l header_length checksum_length fs timer_based :
  oldest_packet w x other ab p pk l -> lost_packet w x pk l header_length checksum_length fs ->
  plain (frames w) -> Forall PluginFrames.iovec_ok (PluginFrames.rtx_frames (frames w)) ->
  fits l header_length checksum_length \/ Forall (fun f => is_stream_frame f = true -> safe_to_cut f) fs ->
  exists w' lc' v, repeat_packet write_frame in_plugin (S fuel) header tag tag2 app_ 0 current_time send_buffer_max has_congestion_alg w 0 x p pk l timer_based lc
      = Done (w', lc', v)
    /\ repeated_well w other ab p l header_length checksum_length fs w' lc' (match v with Stop n => n | _ => 0 end).
Proof.
  intros Ho [_ [t Hh] Hcs Hsz Hpr Hpa [Hb Hlen] Hfr] Hplain Hio Hmode. pose proof Ho as [Hx Hrep Hother _ _ _].
  destruct (oldest_ends _ _ _ _ _ _ _ Ho) as (_ & _ & Hin).
  unfold repeat_packet. rewrite Hh. cbv zeta. rewrite Hx, Hpr, Hpa, <- Hcs. cbn [lookup list_lookup fmap option_fmap option_map of_option obind andb].
  set (px := PluginFrames.Path _ _). set (st := Copy _ (frames w) false false false).
  assert (copy_ok send_buffer_max header_length checksum_length st) as Hok by (constructor; cbn; [done|done|unfold length_of; cbn; lia]).
  destruct (copy_packet_ok write_frame in_plugin (conn w) (acked w) app_ send_buffer_max header_length checksum_length px ltac:(lia) fuel l fs st Hfr Hok Hb Hlen)
    as (ret & st' & -> & Hok' & Hrf & Hall).
  { destruct Hmode as [Hmode|]; [left|by right]. unfold room_for, length_of, fits in *. cbn. lia. }
  cbn [obind snd]. destruct (Retransmit.lost_refines other (queue x) ab p Hrep Hother Hin) as (q & Hq & Hrq). cbn [Retransmit.run_op] in Hq. rewrite Hq.
  cbn [of_option obind orb]. set (f' := set_flags _ _ _). set (w1 := set_frames _ _). set (lc1 := Locals f' _ _).
  assert (f_payload f' = f_payload (cp_packet st')) as Hf' by done.
  assert (paths w1 = [set_queue q x]) as Hw1 by (unfold w1; cbn; by rewrite Hx).
  assert (fits l header_length checksum_length -> moved fs [] (f_payload (cp_packet st')) (frames w) (cp_sender st')) as Hall'.
  { intros Hf. unfold takes in Hall. apply Hall. unfold room_for, length_of, fits in *. cbn. lia. }
  assert (length_of header_length f' = header_length + Z.of_nat (length (f_payload (cp_packet st')))) as Hl' by (unfold length_of; by rewrite Hf').
  destruct (Z.leb_spec (length_of header_length f') header_length) as [Hle|Hgt].
  - do 3 eexists. split; [reflexivity|]. split_and!; [exists (set_queue q x); by rewrite Hw1|exact Hrf|exact Hall'|].
    right. split; [done|left]. change (f_payload (cp_packet st') = []). apply length_zero_iff_nil. lia.
  - destruct (finish_packet _ _ _ w1 _ _ _ _ _ _ _) as [[w' lc'] v] eqn:Hfin. exists w', lc', v. split; [done|].
    apply finish_packet_ok in Hfin as ((x' & Hx' & Hqx) & Hfw & pad & Hpay & Hv); [|destruct Hok' as [_ _ Hr]; rewrite Hl'; unfold length_of in Hr; lia|done].
    cbn in Hpay. split_and!.
    + exists x'. split; [done|]. by rewrite Hqx.
    + rewrite Hpay, Hfw. destruct Hrf as [Hm|(b & f & aft & p1 & s1 & Hfs & Hm & Hs & Hm')]; [left; by apply moved_more|right].
      exists b, f, aft, p1, s1. split_and!; [done|done|done|by apply moved_more].
    + intros Hf. rewrite Hpay, Hfw. by apply moved_more, Hall'.
    + destruct Hv as [[-> Hc]|[-> Hc]]; [right; split; [done|by right]|left]. rewrite Hpay, length_app, length_replicate.
      change (f_payload (lc_packet lc1)) with (f_payload (cp_packet st')). lia.
Qed.
End Needed.

(** C10. When the oldest packet of a connection counts as lost, it is taken out of the queue of packets in flight and kept in the list of
    repeated packets, and nothing of it is forgotten: every frame that is to be repeated, and every frame that was waiting for
    room, is in the new packet or waits, whole or cut in two STREAM frames that carry the same data; only a STREAM frame for whose
    header there is no room behind what was copied before it ends the copying.  If the payload of the lost packet fits in the new one, all frames are taken over.
    The new packet does not exceed its size.  This holds for packets that do not only acknowledge and are not probes, of a
    connection with one path and without frames of plugins, when STREAM frames that have to be cut have a length and an offset
    that keeps its size. *)
Theorem lost_frames_repeated write_frame in_plugin fuel header tag tag2 app_ current_time send_buffer_max has_congestion_alg
    w lc x other ab p pk l header_length checksum_length fs :
  oldest_packet w x other ab p pk l -> lost_packet header tag tag2 current_time send_buffer_max w x pk l header_length checksum_length fs ->
  plain (frames w) -> Forall PluginFrames.iovec_ok (PluginFrames.rtx_frames (frames w)) ->
  fits send_buffer_max l header_length checksum_length \/ Forall (fun f => is_stream_frame f = true -> safe_to_cut f) fs ->
  exists w' lc' n,
    retransmit_needed write_frame in_plugin (S fuel) header tag tag2 app_ 0 current_time send_buffer_max has_congestion_alg 1 w lc = Done (w', lc', n)
    /\ repeated_well send_buffer_max w other ab p l header_length checksum_length fs w' lc' n.
Proof.
  intros Ho Hl Hp Hio Hmode. pose proof (lost_now _ _ _ _ _ _ _ _ _ _ _ _ Hl) as Hnow.
  destruct (Retransmit.retransmit_needed_by_packet (loss x) pk current_time) as [[should tb] tm] eqn:Hneed. cbn in Hnow. subst should.
  destruct (repeat_packet_ok write_frame in_plugin fuel header tag tag2 app_ current_time send_buffer_max has_congestion_alg w lc x other ab p pk l _ _ fs tb
    Ho Hl Hp Hio Hmode) as (w' & lc' & v & Hr & Hw).
  exists w', lc', (match v with Stop n => n | _ => 0 end). split; [|done].
  apply (needed_step write_frame in_plugin fuel header tag tag2 app_ current_time send_buffer_max has_congestion_alg w lc x other ab p pk l (w', lc', v) Ho).
  rewrite (step_start _ _ _ _ _ _ _ _ _ _ _ _ _ _ _ _ _ _ Ho), Hneed. cbn [negb]. by rewrite Hr.
Qed.

(** A 0-RTT packet at the end of the queue that does not count as lost ends the search, although the loop means to pass it: the
    newer packets are not looked at, because the oldest packet has no next one. *)
Theorem zero_rtt_blocks_queue write_frame in_plugin fuel header tag tag2 app_ current_time send_buffer_max has_congestion_alg w lc x other ab p pk l :
  oldest_packet w x other ab p pk l -> Retransmit.pkt_ptype pk = zero_rtt_protected ->
  fst (fst (Retransmit.retransmit_needed_by_packet (loss x) pk current_time)) = false ->
  retransmit_needed write_frame in_plugin (S fuel) header tag tag2 app_ 0 current_time send_buffer_max has_congestion_alg 1 w lc = Done (w, lc, 0).
Proof.
  intros Ho Ht Hnot. destruct (Retransmit.retransmit_needed_by_packet (loss x) pk current_time) as [[should tb] tm] eqn:Hneed. cbn in Hnot. subst should.
  apply (needed_step write_frame in_plugin fuel header tag tag2 app_ current_time send_buffer_max has_congestion_alg w lc x other ab p pk l (w, lc, Next) Ho).
  rewrite (step_start _ _ _ _ _ _ _ _ _ _ _ _ _ _ _ _ _ _ Ho), Hneed. cbn [negb]. by rewrite (bool_decide_eq_true_2 _ Ht).
Qed.

(** ** Acknowledged bytes *)

(** A STREAM frame with data. *)
Definition data_frame (f : list Z) : Prop :=
  let h := picoquic_parse_stream_header f in
  Forall is_u8 f /\ sh_ret h = 0 /\ 0 < sh_data_length h /\ sh_offset h + sh_data_length h < 2 ^ 62.

(** Frames that are acknowledged one after the other. *)
Definition ack_all (c : Streams.cnx) (fs : list (list Z)) (a : stream_sacks) : stream_sacks :=
  foldl (fun a f => snd (process_ack_of_stream_frame c a f)) a fs.

(** Byte [n] of stream [id] is in the frame. *)
Definition has_byte (id n : Z) (f : list Z) : Prop :=
  let h := picoquic_parse_stream_header f in sh_stream_id h = id /\ sh_offset h <= n < sh_offset h + sh_data_length h.

Definition there (c : Streams.cnx) (id : Z) : Prop := fst (Streams.picoquic_find_stream id false c) <> None.

Lemma ack_step c a f : (forall id, chain_ok (sacks_of a id)) -> data_frame f ->
  let a' := snd (process_ack_of_stream_frame c a f) in
  forall id, chain_ok (sacks_of a' id) /\ (there c id -> forall n, received (sacks_of a' id) n <-> received (sacks_of a id) n \/ has_byte id n f).
Proof.
  intros Ha (Hb & Hr & Hd & Hod). cbv zeta. intros id. destruct (header_fields f Hb Hr) as (_ & Hoff & _).
  unfold process_ack_of_stream_frame, has_byte. set (h := picoquic_parse_stream_header f) in *. rewrite Hr. cbn [Z.eqb].
  destruct (fst (Streams.picoquic_find_stream (sh_stream_id h) false c)) as [s|] eqn:Hs; cbn [snd].
  - rewrite u64_small by lia. pose proof (update_sack_list_spec (sacks_of a (sh_stream_id h)) (sh_offset h) (sh_offset h + sh_data_length h - 1)
      (Ha _) ltac:(lia) ltac:(unfold UINT64_MAX; lia)) as Hu.
    destruct (picoquic_update_sack_list _ _ _ _) as [ret chain]. destruct Hu as (Hok & Hrec & _). cbn [snd]. unfold sacks_of in *.
    destruct (decide (id = sh_stream_id h)) as [->|Hne].
    + rewrite lookup_insert_eq. cbn. split; [done|]. intros _ n. rewrite Hrec. split; (intros [?|?]; [by left|right; lia]).
    + rewrite lookup_insert_ne by done. split; [apply Ha|]. intros _ n. split; [by left|]. intros [?|[? _]]; [done|congruence].
  - split; [apply Ha|]. intros Hth n. split; [by left|]. intros [?|[Hid _]]; [done|]. subst id. by destruct Hth.
Qed.

Lemma ack_all_spec c fs : forall a, (forall id, chain_ok (sacks_of a id)) -> Forall data_frame fs ->
  forall id, chain_ok (sacks_of (ack_all c fs a) id) /\
    (there c id -> forall n, received (sacks_of (ack_all c fs a) id) n <-> received (sacks_of a id) n \/ exists f, f ∈ fs /\ has_byte id n f).
Proof.
  induction fs as [|f fs IH]; intros a Ha Hfs id; cbn.
  { split; [apply Ha|]. intros _ n. split; [by left|]. intros [?|(f & Hf & _)]; [done|set_solver]. }
  apply list.Forall_cons in Hfs as [Hf Hfs]. pose proof (ack_step c a f Ha Hf) as Hstep. cbv zeta in Hstep.
  destruct (IH _ (fun id => proj1 (Hstep id)) Hfs id) as [Hok Hrec]. split; [done|]. intros Hth n. rewrite (Hrec Hth n), (proj2 (Hstep id) Hth n).
  split.
  - intros [[?|?]|(g & Hg & ?)]; [by left|right; exists f; split; [by left|done]|right; exists g; split; [by right|done]].
  - intros [?|(g & Hg & ?)]; [by left; left|]. apply elem_of_cons in Hg as [->|Hg]; [by left; right|right; by exists g].
Qed.

Lemma sacks_empty id : sacks_of ∅ id = init_sack_chain.
Proof. unfold sacks_of. by rewrite lookup_empty. Qed.

(** A STREAM frame of a stream that is there and was not reset. *)
Definition live_frame (c : Streams.cnx) (g : list Z) : Prop :=
  let h := picoquic_parse_stream_header g in
  Forall is_u8 g /\ is_stream_frame g = true /\ sh_ret h = 0 /\ sh_offset h + sh_data_length h < 2 ^ 62 /\
  exists s, fst (Streams.picoquic_find_stream (sh_stream_id h) false c) = Some s /\ Streams.reset_sent s = false.

(** The bytes that the check looks up. *)
Lemma check_looks_up c fs g : let h := picoquic_parse_stream_header g in
  Forall data_frame fs -> live_frame c g ->
  exists v, check_stream_frame_already_acked c (ack_all c fs ∅) g (Z.of_nat (length g)) = (0, v) /\
    (v <> 0 <-> forall n, sh_offset h <= n <= sh_offset h + sh_data_length h -> exists f, f ∈ fs /\ has_byte (sh_stream_id h) n f).
Proof.
  cbv zeta. intros Hfs (Hb & Hg & Hr & Hod & s & Hs & Hreset). unfold check_stream_frame_already_acked. rewrite Hg, Nat2Z.id, firstn_all, Hr. cbn [Z.eqb].
  destruct (header_fields g Hb Hr) as (_ & Hoff & _). destruct (stream_header_bounds g Hb Hr) as (_ & Hd & _).
  set (h := picoquic_parse_stream_header g) in *. rewrite Hs, Hreset. eexists. split; [reflexivity|].
  destruct (ack_all_spec c fs ∅ ltac:(intros; by rewrite sacks_empty) Hfs (sh_stream_id h)) as [Hok Hrec].
  specialize (Hrec ltac:(unfold there; by rewrite Hs)). rewrite u64_small by lia.
  destruct (check_sack_list_predicts _ (sh_offset h) (sh_offset h + sh_data_length h) Hok ltac:(lia) ltac:(unfold UINT64_MAX; lia)) as [_ Hc].
  assert (forall n, received (sacks_of (ack_all c fs ∅) (sh_stream_id h)) n <-> exists f, f ∈ fs /\ has_byte (sh_stream_id h) n f) as Hrec'.
  { intros n. rewrite Hrec. split; [|by right]. rewrite sacks_empty. intros [[He _]|?]; [done|done]. }
  split.
  - intros Hv n Hn. apply Hrec'. destruct (received_dec (sacks_of (ack_all c fs ∅) (sh_stream_id h)) n Hok) as [?|Hnr]; [done|].
    destruct Hv. apply Hc. by exists n.
  - intros Hall Hv. apply Hc in Hv as (n & Hn & Hnr). apply Hnr, Hrec', Hall, Hn.
Qed.

(** C34. No data is lost when a repetition leaves it out: after any sequence of acknowledged STREAM frames with data, a frame of a
    stream that is there and was not reset is left out only if each of its bytes was in one of those frames; and it is left
    out when all its bytes and the byte after them were. *)
Theorem dropped_data_acknowledged c fs g :
  let h := picoquic_parse_stream_header g in
  let acknowledged n := exists f, f ∈ fs /\ has_byte (sh_stream_id h) n f in
  Forall data_frame fs -> live_frame c g ->
  exists v, check_stream_frame_already_acked c (ack_all c fs ∅) g (Z.of_nat (length g)) = (0, v) /\
    (v <> 0 -> forall n, sh_offset h <= n < sh_offset h + sh_data_length h -> acknowledged n) /\
    ((forall n, sh_offset h <= n <= sh_offset h + sh_data_length h -> acknowledged n) -> v <> 0).
Proof.
  cbv zeta. intros Hfs Hg. destruct (check_looks_up c fs g Hfs Hg) as (v & Hv & Hiff). exists v. split; [done|].
  split; [|by apply Hiff]. intros Hne n Hn. apply Hiff; [done|lia].
Qed.

(** A frame all of whose bytes were acknowledged is repeated all the same when the byte after it was not, as at the end of the data
    sent so far: the range that is looked up has one byte too many. *)
Theorem acknowledged_frame_repeated c fs g :
  let h := picoquic_parse_stream_header g in
  Forall data_frame fs -> live_frame c g ->
  (forall f, f ∈ fs -> ~ has_byte (sh_stream_id h) (sh_offset h + sh_data_length h) f) ->
  check_stream_frame_already_acked c (ack_all c fs ∅) g (Z.of_nat (length g)) = (0, 0).
Proof.
  cbv zeta. intros Hfs Hg Hno. destruct (check_looks_up c fs g Hfs Hg) as (v & -> & Hiff). destruct (Z.eq_dec v 0) as [->|Hne]; [done|exfalso].
  destruct Hg as (Hb & _ & Hr & _). destruct (stream_header_bounds _ Hb Hr) as (_ & Hd & _).
  destruct (proj1 Hiff Hne (sh_offset (picoquic_parse_stream_header g) + sh_data_length (picoquic_parse_stream_header g)) ltac:(lia)) as (f & Hf & Hby).
  by apply (Hno f).
Qed.

(** ** Examples *)

Definition ex_stream_frame (len : nat) : list Z := wire 4 70 false (replicate len 9).
Definition ex_max_data : list Z := [picoquic_frame_type_max_data; 0x40; 100].

(** A packet with a MAX_DATA and a STREAM frame, sent long ago and before packets that were acknowledged. *)
Definition ex_lost : lost := Lost (replicate 10 0 ++ ex_max_data ++ ex_stream_frame 20) 10 false false false [].
Definition ex_packet : Retransmit.packet := Retransmit.Pkt None None 7 one_rtt_protected_phi0 38 57 0 true [].
Definition ex_queue : Retransmit.state :=
  Retransmit.St {[1%nat := ex_packet]} (Some 1%nat) (Some 1%nat) None None 57 (fun _ => 0) Retransmit.sample_pacing 1350.
Definition ex_path : path := Path ex_queue (Retransmit.LossCtx 20 900 0 100 1000 900 true true) 10000 21 false 0 0 0 0 0.
Definition ex_frames : PluginFrames.sender := PluginFrames.Sender [] None 500 [] [] [PluginFrames.IoVec 3 (Some ex_max_data)] false.
Definition ex_world : world :=
  World [ex_path] {[1%nat := ex_lost]} (SendStream.conn (example_sender [example_stream])) ∅ ex_frames 0 [].
Definition ex_fresh : fresh := Fresh packet_error 0 0 0 [] 0 true false true [].
Definition ex_write : PluginFrames.slot -> PluginFrames.written := fun _ => PluginFrames.Written 1 0 false [] true.

(** The function, for a packet of [max] bytes in all, at time 1000. *)
Definition ex_needed (max : Z) (w : world) : outcome (world * locals * Z) :=
  retransmit_needed ex_write false 1 (fun _ => Packet.sample_cnx) 16 (Some 16) true 0 1000 max true 1 w (Locals ex_fresh false 0).

Lemma ex_oldest : oldest_packet ex_world ex_path 0 (Retransmit.Abs [(1%nat, 57)] []) 1 ex_packet ex_lost.
Proof.
  constructor; try reflexivity. constructor; cbn; try done.
  - exists ex_packet. by rewrite lookup_singleton_eq.
  - apply NoDup_singleton.
  - apply list.Forall_cons. split; [|apply list.Forall_nil_2]. cbn. rewrite lookup_singleton_eq. cbn. split; [done|lia].
Qed.

Lemma ex_frames_at : frames_at (conn ex_world) (acked ex_world) [] 0 (drop 10 (l_bytes ex_lost)) [ex_max_data; ex_stream_frame 20].
Proof.
  apply (frames_own (conn ex_world) (acked ex_world) [] 0 ex_max_data (ex_stream_frame 20) 0 [ex_stream_frame 20]);
    [done|done|vm_compute; reflexivity|vm_compute; discriminate|].
  apply (frames_own (conn ex_world) (acked ex_world) [] (0 + Z.of_nat (length ex_max_data)) (ex_stream_frame 20) [] 0 []);
    [done|done|vm_compute; reflexivity|by rewrite app_nil_r|constructor].
Qed.

Lemma ex_lost_packet max : 26 <= max < 2 ^ 62 ->
  lost_packet (fun _ => Packet.sample_cnx) 16 (Some 16) 1000 max ex_world ex_path ex_packet ex_lost 10 16 [ex_max_data; ex_stream_frame 20].
Proof.
  intros Hm. constructor; [vm_compute; reflexivity|by eexists|vm_compute; reflexivity|lia|done|done| |exact ex_frames_at].
  split; [|vm_compute; reflexivity]. repeat (apply list.Forall_cons; split; [unfold is_u8; vm_compute; split; congruence|]). constructor.
Qed.

(** With 20 bytes of payload, the STREAM frame is cut. *)
Lemma lost_frames_repeated_witness :
  exists w' lc' n, ex_needed 46 ex_world = Done (w', lc', n)
    /\ repeated_well 46 ex_world 0 (Retransmit.Abs [(1%nat, 57)] []) 1 ex_lost 10 16 [ex_max_data; ex_stream_frame 20] w' lc' n
    /\ n = 30 /\ f_payload (lc_packet lc') = ex_max_data ++ wire 4 70 false (replicate 12 9)
    /\ waiting (frames w') = [ex_max_data; wire 4 82 false (replicate 8 9)].
Proof.
  destruct (lost_frames_repeated ex_write false 0 (fun _ => Packet.sample_cnx) 16 (Some 16) true 1000 46 true ex_world (Locals ex_fresh false 0) ex_path 0
    (Retransmit.Abs [(1%nat, 57)] []) 1 ex_packet ex_lost 10 16 [ex_max_data; ex_stream_frame 20]) as (w' & lc' & n & He & Hw).
  - exact ex_oldest.
  - apply ex_lost_packet. lia.
  - by split_and!.
  - apply list.Forall_cons. split; [split; cbn; [lia|by intros b [= <-]]|constructor].
  - right. apply list.Forall_cons. split; [by vm_compute|]. apply list.Forall_cons. split; [|constructor].
    intros _. split_and!; [vm_compute; congruence|vm_compute; reflexivity|right; vm_compute; reflexivity].
  - exists w', lc', n. fold (ex_needed 46 ex_world) in He. split; [exact He|]. split; [exact Hw|].
    revert He. vm_compute. intros [= <- <- <-]. done.
Defined.

(** An old 0-RTT packet at the end of the queue, before packet 1. *)
Definition ex_blocked : Retransmit.state :=
  Retransmit.St {[1%nat := Retransmit.set_next ex_packet (Some 2%nat); 2%nat := Retransmit.Pkt (Some 1%nat) None 5 zero_rtt_protected 38 57 990 true []]}
    (Some 1%nat) (Some 2%nat) None None 114 (fun _ => 0) Retransmit.sample_pacing 1350.
Definition ex_blocked_world : world :=
  World [set_queue ex_blocked ex_path] {[1%nat := ex_lost; 2%nat := ex_lost]} (SendStream.conn (example_sender [example_stream])) ∅ ex_frames 0 [].

Lemma ex_blocked_oldest : oldest_packet ex_blocked_world (set_queue ex_blocked ex_path) 0 (Retransmit.Abs [(1%nat, 57); (2%nat, 57)] []) 2
  (Retransmit.Pkt (Some 1%nat) None 5 zero_rtt_protected 38 57 990 true []) ex_lost.
Proof.
  constructor; try reflexivity. constructor; cbn; try done.
  - exists (Retransmit.set_next ex_packet (Some 2%nat)). split_and!; try reflexivity. eexists. split_and!; reflexivity.
  - by apply (bool_decide_unpack _).
  - apply list.Forall_cons. split; [split; [reflexivity|cbn; lia]|]. apply list.Forall_cons. split; [split; [reflexivity|cbn; lia]|]. constructor.
Qed.

(** Packet 1 counts as lost and is not repeated. *)
Lemma zero_rtt_blocks_queue_witness :
  ex_needed 46 ex_blocked_world = Done (ex_blocked_world, Locals ex_fresh false 0, 0)
  /\ fst (fst (Retransmit.retransmit_needed_by_packet (loss ex_path) ex_packet 1000)) = true.
Proof.
  split; [|vm_compute; reflexivity].
  apply (zero_rtt_blocks_queue ex_write false 0 (fun _ => Packet.sample_cnx) 16 (Some 16) true 1000 46 true ex_blocked_world (Locals ex_fresh false 0)
    (set_queue ex_blocked ex_path) 0 (Retransmit.Abs [(1%nat, 57); (2%nat, 57)] []) 2 (Retransmit.Pkt (Some 1%nat) None 5 zero_rtt_protected 38 57 990 true []) ex_lost);
    [exact ex_blocked_oldest|reflexivity|vm_compute; reflexivity].
Defined.

(** Two frames with the bytes 70 to 89 and 90 to 99 were acknowledged: the first one is not repeated, the second one is. *)
Definition ex_acked : list (list Z) := [ex_stream_frame 20; wire 4 90 false (replicate 10 9)].

Lemma ex_bytes f : forallb (fun b => (0 <=? b) && (b <? 256)) f = true -> Forall is_u8 f.
Proof.
  intros Hf. apply list.Forall_forall. intros b Hb. rewrite forallb_forall in Hf. specialize (Hf b (proj1 (list_elem_of_In _ _) Hb)).
  unfold is_u8. lia.
Qed.

Lemma ex_acked_data : Forall data_frame ex_acked.
Proof.
  apply list.Forall_cons. split; [|apply list.Forall_cons; split; [|constructor]];
    (split; [apply ex_bytes; vm_compute; reflexivity|split; [vm_compute; reflexivity|split; vm_compute; reflexivity]]).
Qed.

Lemma ex_live g : g ∈ ex_acked -> live_frame (SendStream.conn (example_sender [example_stream])) g.
Proof.
  intros Hg. assert (g = ex_stream_frame 20 \/ g = wire 4 90 false (replicate 10 9)) as [-> | ->] by (unfold ex_acked in Hg; set_solver);
    (split; [apply ex_bytes; vm_compute; reflexivity|]; split; [vm_compute; reflexivity|]; split; [vm_compute; reflexivity|];
     split; [vm_compute; reflexivity|]; exists example_stream; split; vm_compute; reflexivity).
Qed.

Lemma dropped_data_acknowledged_witness :
  let c := SendStream.conn (example_sender [example_stream]) in
  (exists v, check_stream_frame_already_acked c (ack_all c ex_acked ∅) (ex_stream_frame 20) (Z.of_nat (length (ex_stream_frame 20))) = (0, v) /\
    (v <> 0 -> forall n, 70 <= n < 70 + 20 -> exists f, f ∈ ex_acked /\ has_byte 4 n f)) /\
  snd (check_stream_frame_already_acked c (ack_all c ex_acked ∅) (ex_stream_frame 20) 25) = -1.
Proof.
  cbv zeta. split; [|vm_compute; reflexivity].
  destruct (dropped_data_acknowledged (SendStream.conn (example_sender [example_stream])) ex_acked (ex_stream_frame 20) ex_acked_data
    (ex_live _ (list_elem_of_here _ _))) as (v & Hv & Hs & _).
  exists v. split; [exact Hv|]. intros Hne n Hn. apply (Hs Hne n).
  assert (picoquic_parse_stream_header (ex_stream_frame 20) = StreamHeader 0 4 70 20 false 5) as -> by (vm_compute; reflexivity). exact Hn.
Defined.

Lemma acknowledged_frame_repeated_witness :
  let c := SendStream.conn (example_sender [example_stream]) in
  check_stream_frame_already_acked c (ack_all c ex_acked ∅) (wire 4 90 false (replicate 10 9)) (Z.of_nat (length (wire 4 90 false (replicate 10 9)))) = (0, 0).
Proof.
  apply acknowledged_frame_repeated; [apply ex_acked_data|apply ex_live; set_solver|].
  intros f Hf. assert (f = ex_stream_frame 20 \/ f = wire 4 90 false (replicate 10 9)) as [-> | ->] by (unfold ex_acked in Hf; set_solver);
    unfold has_byte; vm_compute; intros [_ [H1 H2]]; congruence || by destruct H1.
Defined.

(** With room for the header of the STREAM frame only, copying stops there: the packet is no longer in flight and its STREAM frame is
    neither in the new packet nor waiting. *)
Example stuck_frame_lost :
  match ex_needed 34 ex_world with
  | Done (w', lc', n) =>
      n = 16 /\ f_payload (lc_packet lc') = ex_max_data ++ ex_max_data /\ waiting (frames w') = []
      /\ map (fun x => Retransmit.retransmit_oldest (queue x)) (paths w') = [None]
  | _ => False
  end.
Proof. vm_compute. done. Qed.

(** A frame without length that is cut near its start needs more room than it had. *)
Example cut_frame_overruns :
  let f := 8 :: 4 :: replicate 70 9 in
  match picoquic_split_stream_frame f 3 (Z.of_nat (length f)) with
  | Some (_, buf1, buf2) => buf1 = [10; 4; 0] /\ Z.of_nat (length buf2) = Z.of_nat (length f) + 3
  | None => False
  end.
Proof. vm_compute. done. Qed.

(** The frame of an application that is polled and provides no bytes: once it is acknowledged, all data of the stream counts as
    acknowledged, and nothing that is lost is repeated. *)
Example empty_frame_acknowledges_all :
  let c := SendStream.conn (example_sender [example_stream]) in
  let a := snd (process_ack_of_stream_frame c ∅ (wire 4 0 false [])) in
  sacks_of a 4 = Chain (Sack 0 UINT64_MAX) [] /\ check_stream_frame_already_acked c a (ex_stream_frame 20) 25 = (0, -1).
Proof. vm_compute. done. Qed.

(** Frames that waited are taken from the queue and lost when a plugin fails to write the frame after them. *)
Example failed_slot_loses_waiting :
  let slot := PluginFrames.Slot 1 true false false 0x2c 10 0 in
  let s := PluginFrames.Sender [PluginFrames.Plugin [] [] 0 0 0 false] None 500 [slot] [] [PluginFrames.IoVec 3 (Some ex_max_data)] false in
  match fill_packet ex_write false (conn ex_world) 1000 10 16 (PluginFrames.Path 10000 0) 1 0 (Copy ex_fresh s false false false) with
  | Done (ret, st) => ret = 1 /\ f_payload (cp_packet st) = [] /\ waiting (cp_sender st) = []
  | _ => False
  end.
Proof. vm_compute. done. Qed.

End Repeat.
