(* ===== verification/Acks.v ===== *)
(** * What an acknowledgement does: picoquic/frames.c

    [process_ack_frame_maybe_ecn] with the parts it calls: [update_rtt] and [update_ack_delay], the estimate of the
    bandwidth, and [process_ack_range], which takes the packets of a range out of the queue of packets in flight.

    The connection has one path with its three packet contexts; each keeps its own packets, with the queues of
    Retransmit and their pointers, and they share the bytes in transit, the pacing and the MTU of the path.  What the
    packets of the context of the frame hold beside is kept in a map by the same addresses.  Streams and their
    acknowledged bytes are those of Streams and Repeat.  The operation [packet_acknowledged], which does nothing unless
    a plugin replaces it, is a parameter.  The congestion controller is told what happens ([events]).  The check for
    spurious retransmissions is switched off in the source.  Outcomes are those of Protoops; the log is left out. *)
From stdpp Require Import base tactics list numbers gmap sorting.
From Stdlib Require Import ZArith Lia Bool.
From S2P Require Import Prelude Sacks Frames AckFrame Streams Packet Retransmit Protoops SendStream Repeat.
Import Protoops Sacks Retransmit.
#[local] Open Scope Z_scope.

Module Acks.

(** ** Round trips *)

Definition PICOQUIC_INITIAL_RTT : Z := 250000.
Definition PICOQUIC_MIN_RETRANSMIT_TIMER : Z := 50000.
Definition PICOQUIC_ACK_DELAY_MAX : Z := 25000.

(** The times of [picoquic_path_t] that are measured. *)
Record rtt_state := Rtt {
  r_max_ack_delay : Z;
  r_rtt_sample : Z;
  r_smoothed_rtt : Z;
  r_rtt_variant : Z;
  r_retransmit_timer : Z;
  r_rtt_min : Z
}.

(** The delay of our own acknowledgements, from [rtt_min]. *)
Definition update_ack_delay (rtt_min : Z) (first_estimate : bool) : Z :=
  let d := rtt_min / 4 in
  if d <? 1000 then 1000 else if negb first_estimate && (10000 <? d) then 10000 else d.

(** The estimators after a round trip of [rtt_estimate], which is positive, and [ack_delay_local]. *)
Definition rtt_measured (e : rtt_state) (ack_delay_local ack_delay rtt_estimate : Z) : rtt_state * Z :=
  let max_delay := if r_max_ack_delay e <? ack_delay then ack_delay else r_max_ack_delay e in
  let '(smoothed, variant, rtt_min, timer, delay_local) :=
    if (r_smoothed_rtt e =? PICOQUIC_INITIAL_RTT) && (r_rtt_variant e =? 0) then
      (rtt_estimate, rtt_estimate / 2, rtt_estimate, u64 (3 * rtt_estimate + max_delay), update_ack_delay rtt_estimate true)
    else
      let delta_rtt := s64 (rtt_estimate - r_smoothed_rtt e) in
      let smoothed := u64 (r_smoothed_rtt e + Z.quot delta_rtt 8) in
      let delta_rtt_average := s64 (if delta_rtt <? 0 then - delta_rtt - r_rtt_variant e else delta_rtt - r_rtt_variant e) in
      let variant := u64 (r_rtt_variant e + Z.quot delta_rtt_average 4) in
      let '(rtt_min, delay_local) :=
        if rtt_estimate <? s64 (r_rtt_min e) then (rtt_estimate, update_ack_delay rtt_estimate false) else (r_rtt_min e, ack_delay_local) in
      let variant := if u64 (4 * variant) <? rtt_min then rtt_min / 4 else variant in
      (smoothed, variant, rtt_min, u64 (smoothed + 4 * variant + max_delay), delay_local) in
  let timer := if timer <? PICOQUIC_MIN_RETRANSMIT_TIMER then PICOQUIC_MIN_RETRANSMIT_TIMER else timer in
  (Rtt max_delay rtt_estimate smoothed variant timer rtt_min, delay_local).

(** ** Bandwidth *)

Definition PICOQUIC_BANDWIDTH_ESTIMATE_MAX : Z := 10000000000.
Definition PICOQUIC_BANDWIDTH_TIME_INTERVAL_MIN : Z := 1000.

Record delivery := Delivery {
  delivered : Z;
  delivered_last : Z;
  delivered_time_last : Z;
  delivered_sent_last : Z;
  delivered_limited_index : Z;
  delivered_last_packet : Z;
  bandwidth_estimate : Z;
  last_bw_estimate_path_limited : bool
}.

Definition estimate_path_bandwidth (d : delivery) (send_time delivered_prior delivered_time_prior delivered_sent_prior delivery_time current_time : Z)
    (rs_is_path_limited : bool) : delivery :=
  if delivered_sent_last d <=? send_time then
    if delivered_time_last d =? 0 then
      Delivery (delivered d) current_time (delivered d) send_time (delivered_limited_index d) (delivered_last_packet d) (bandwidth_estimate d)
        (last_bw_estimate_path_limited d)
    else
      let receive_interval := u64 (delivery_time - delivered_time_prior) in
      if PICOQUIC_BANDWIDTH_TIME_INTERVAL_MIN <? receive_interval then
        let n := u64 (delivered d - delivered_prior) in
        let send_interval := u64 (send_time - delivered_sent_prior) in
        let receive_interval := if receive_interval <? send_interval then send_interval else receive_interval in
        let bw := if receive_interval =? 0 then PICOQUIC_BANDWIDTH_ESTIMATE_MAX else u64 (n * 1000000) / receive_interval in
        Delivery (delivered d) (delivered d) delivery_time send_time (if delivered_limited_index d <? delivered d then 0 else delivered_limited_index d)
          delivered_prior (if negb rs_is_path_limited || (bandwidth_estimate d <? bw) then bw else bandwidth_estimate d) rs_is_path_limited
      else d
  else d.

Definition add_delivered (n : Z) (d : delivery) : delivery :=
  Delivery (u64 (delivered d + n)) (delivered_last d) (delivered_time_last d) (delivered_sent_last d) (delivered_limited_index d)
    (delivered_last_packet d) (bandwidth_estimate d) (last_bw_estimate_path_limited d).

(** ** State *)

(** The fields of [picoquic_packet_t] that Retransmit has no use for; [s_bytes] are its [length] bytes. *)
Record sent := Sent_ {
  s_bytes : list Z;
  s_offset : nat;
  s_checksum_overhead : Z;
  s_has_handshake_done : bool;
  s_delivered_prior : Z;
  s_delivered_time_prior : Z;
  s_delivered_sent_prior : Z;
  s_delivered_app_limited : bool
}.

(** The queues of a packet context. *)
Record ctx_queue := CtxQueue {
  cq_heap : gmap pointer packet;
  cq_retransmit_newest : option pointer;
  cq_retransmit_oldest : option pointer;
  cq_retransmitted_newest : option pointer;
  cq_retransmitted_oldest : option pointer
}.

(** The contexts of a path and what they share. *)
Record queues := Queues {
  ctx_application : ctx_queue;
  ctx_handshake : ctx_queue;
  ctx_initial : ctx_queue;
  q_bytes_in_transit : Z;
  q_bytes_in_flight : nat -> Z;
  q_bucket : pacing;
  q_send_mtu : Z
}.

#[local] Existing Instance Packet.packet_context_id_eq_dec.
Abbreviation context := Packet.packet_context_id (only parsing).

Definition pkt_ctx (k : context) (q : queues) : ctx_queue :=
  match k with
  | Packet.context_application => ctx_application q
  | Packet.context_handshake => ctx_handshake q
  | Packet.context_initial => ctx_initial q
  end.

(** A context as the operations of Retransmit see it, and what they leave. *)
Definition view (k : context) (q : queues) : Retransmit.state :=
  let x := pkt_ctx k q in
  St (cq_heap x) (cq_retransmit_newest x) (cq_retransmit_oldest x) (cq_retransmitted_newest x) (cq_retransmitted_oldest x)
     (q_bytes_in_transit q) (q_bytes_in_flight q) (q_bucket q) (q_send_mtu q).

Definition put (k : context) (s : Retransmit.state) (q : queues) : queues :=
  let x := CtxQueue (heap s) (retransmit_newest s) (retransmit_oldest s) (retransmitted_newest s) (retransmitted_oldest s) in
  let at_ctx j := if decide (j = k) then x else pkt_ctx j q in
  Queues (at_ctx Packet.context_application) (at_ctx Packet.context_handshake) (at_ctx Packet.context_initial)
    (bytes_in_transit s) (bytes_in_flight s) (bucket s) (send_mtu s).

(** The path and, for the packet context of the frame, what its acknowledgements change. *)
Record ack_path := AckPath {
  all_queues : queues;
  rtt : rtt_state;
  bandwidth : delivery;
  p_highest_acknowledged : Z;
  p_latest_time_acknowledged : Z;
  ack_delay_local : Z;
  p_nb_retransmit : Z;
  pkt_latest_progress_time : Z;
  last_1rtt_acknowledged : Z;
  p_last_1rtt_acknowledged_at : Z;
  mtu_probe_sent : bool;
  send_sequence : Z;
  received_numbers : sack_chain
}.

Inductive event :=
| Acknowledged (bytes : Z)
| RttMeasurement (rtt : Z)
| BwMeasurement (rtt : Z).

Record ack_cnx := AckCnx {
  path0 : ack_path;
  packets : gmap pointer sent;
  conn : Streams.cnx;
  acked : Repeat.stream_sacks;
  nb_zero_rtt_acked : Z;
  handshake_done_acked : bool;
  ecn_remote : Z * Z * Z;
  cnx_progress_time : Z;
  events : list event
}.

Definition set_path (x : ack_path) (c : ack_cnx) : ack_cnx :=
  AckCnx x (packets c) (conn c) (acked c) (nb_zero_rtt_acked c) (handshake_done_acked c) (ecn_remote c) (cnx_progress_time c) (events c).
Definition set_conn (s : Streams.cnx) (c : ack_cnx) : ack_cnx :=
  AckCnx (path0 c) (packets c) s (acked c) (nb_zero_rtt_acked c) (handshake_done_acked c) (ecn_remote c) (cnx_progress_time c) (events c).
Definition set_ecn (e : Z * Z * Z) (c : ack_cnx) : ack_cnx :=
  AckCnx (path0 c) (packets c) (conn c) (acked c) (nb_zero_rtt_acked c) (handshake_done_acked c) e (cnx_progress_time c) (events c).
Definition set_progress (t : Z) (c : ack_cnx) : ack_cnx :=
  AckCnx (path0 c) (packets c) (conn c) (acked c) (nb_zero_rtt_acked c) (handshake_done_acked c) (ecn_remote c) t (events c).
Definition note (e : event) (c : ack_cnx) : ack_cnx :=
  AckCnx (path0 c) (packets c) (conn c) (acked c) (nb_zero_rtt_acked c) (handshake_done_acked c) (ecn_remote c) (cnx_progress_time c) (events c ++ [e]).
Definition set_queues (q : queues) (x : ack_path) : ack_path :=
  AckPath q (rtt x) (bandwidth x) (p_highest_acknowledged x) (p_latest_time_acknowledged x) (ack_delay_local x) (p_nb_retransmit x)
    (pkt_latest_progress_time x) (last_1rtt_acknowledged x) (p_last_1rtt_acknowledged_at x) (mtu_probe_sent x) (send_sequence x) (received_numbers x).
Definition set_bandwidth (b : delivery) (x : ack_path) : ack_path :=
  AckPath (all_queues x) (rtt x) b (p_highest_acknowledged x) (p_latest_time_acknowledged x) (ack_delay_local x) (p_nb_retransmit x)
    (pkt_latest_progress_time x) (last_1rtt_acknowledged x) (p_last_1rtt_acknowledged_at x) (mtu_probe_sent x) (send_sequence x) (received_numbers x).
Definition set_highest (n : Z) (x : ack_path) : ack_path :=
  AckPath (all_queues x) (rtt x) (bandwidth x) n (p_latest_time_acknowledged x) (ack_delay_local x) (p_nb_retransmit x)
    (pkt_latest_progress_time x) (last_1rtt_acknowledged x) (p_last_1rtt_acknowledged_at x) (mtu_probe_sent x) (send_sequence x) (received_numbers x).
Definition set_latest_time (n : Z) (x : ack_path) : ack_path :=
  AckPath (all_queues x) (rtt x) (bandwidth x) (p_highest_acknowledged x) n (ack_delay_local x) (p_nb_retransmit x)
    (pkt_latest_progress_time x) (last_1rtt_acknowledged x) (p_last_1rtt_acknowledged_at x) (mtu_probe_sent x) (send_sequence x) (received_numbers x).
Definition set_rtt (e : rtt_state) (delay : Z) (x : ack_path) : ack_path :=
  AckPath (all_queues x) e (bandwidth x) (p_highest_acknowledged x) (p_latest_time_acknowledged x) delay (p_nb_retransmit x)
    (pkt_latest_progress_time x) (last_1rtt_acknowledged x) (p_last_1rtt_acknowledged_at x) (mtu_probe_sent x) (send_sequence x) (received_numbers x).
Definition set_last_1rtt (n t : Z) (x : ack_path) : ack_path :=
  AckPath (all_queues x) (rtt x) (bandwidth x) (p_highest_acknowledged x) (p_latest_time_acknowledged x) (ack_delay_local x) (p_nb_retransmit x)
    (pkt_latest_progress_time x) n t (mtu_probe_sent x) (send_sequence x) (received_numbers x).
(** [nb_retransmit = 0; latest_progress_time = current_time] *)
Definition progressed (t : Z) (x : ack_path) : ack_path :=
  AckPath (all_queues x) (rtt x) (bandwidth x) (p_highest_acknowledged x) (p_latest_time_acknowledged x) (ack_delay_local x) 0
    t (last_1rtt_acknowledged x) (p_last_1rtt_acknowledged_at x) (mtu_probe_sent x) (send_sequence x) (received_numbers x).
Definition set_received (r : sack_chain) (x : ack_path) : ack_path :=
  AckPath (all_queues x) (rtt x) (bandwidth x) (p_highest_acknowledged x) (p_latest_time_acknowledged x) (ack_delay_local x) (p_nb_retransmit x)
    (pkt_latest_progress_time x) (last_1rtt_acknowledged x) (p_last_1rtt_acknowledged_at x) (mtu_probe_sent x) (send_sequence x) r.
(** [send_mtu = n; mtu_probe_sent = 0] *)
Definition with_mtu (n : Z) (q : queues) : queues :=
  Queues (ctx_application q) (ctx_handshake q) (ctx_initial q) (q_bytes_in_transit q) (q_bytes_in_flight q) (q_bucket q) n.
Definition set_mtu (n : Z) (x : ack_path) : ack_path :=
  AckPath (with_mtu n (all_queues x)) (rtt x) (bandwidth x) (p_highest_acknowledged x) (p_latest_time_acknowledged x) (ack_delay_local x) (p_nb_retransmit x)
    (pkt_latest_progress_time x) (last_1rtt_acknowledged x) (p_last_1rtt_acknowledged_at x) false (send_sequence x) (received_numbers x).
Definition set_handshake_done_acked (c : ack_cnx) : ack_cnx :=
  AckCnx (path0 c) (packets c) (conn c) (acked c) (nb_zero_rtt_acked c) true (ecn_remote c) (cnx_progress_time c) (events c).

(** ** Operations *)

Definition of_option {A} (o : option A) : outcome A := match o with Some x => Done x | None => NullPointer end.

Section Acknowledging.
(** The answer of the plugins for a packet, whether there is a congestion controller, the packet context of the frame, the
    time. *)
Variable packet_acknowledged : pointer -> Z.
Variable has_congestion_alg : bool.
Variable pc : context.
Variable current_time : Z.

#[local] Abbreviation queue x := (view pc (all_queues x)).

Definition tell (e : event) (c : ack_cnx) : ack_cnx := if has_congestion_alg then note e c else c.

(** The first packet, from [p] along the queue, whose number is not above [largest]. *)
Fixpoint find_packet (n : nat) (h : gmap pointer packet) (p : option pointer) (largest : Z) : outcome (option pointer) :=
  match p with
  | None => Done None
  | Some q =>
      match n with
      | O => OutOfFuel
      | S n =>
          let? x := of_option (h !! q) in
          if largest <? sequence_number x then find_packet n h (next_packet x) largest else Done (Some q)
      end
  end.

(** The packet where the ranges start, whether the acknowledgement is new, and the connection. *)
Definition update_rtt (n : nat) (largest ack_delay : Z) (c : ack_cnx) : outcome (option pointer * bool * ack_cnx) :=
  let x := path0 c in
  let newest := retransmit_newest (queue x) in
  if (p_highest_acknowledged x <? largest) || (start_of_sack_range (first_sack_item (received_numbers x)) =? UINT64_MAX)
     || (p_highest_acknowledged x =? UINT64_MAX) then
    let x := set_highest largest x in
    let c := set_path x c in
    if ack_delay <? PICOQUIC_ACK_DELAY_MAX then
      let? p := find_packet n (heap (queue x)) newest largest in
      match p with
      | None => Done (None, true, c)
      | Some q =>
          let? pk := of_option (heap (queue x) !! q) in
          if sequence_number pk <? largest then Done (p, true, c)
          else
            let rtt_estimate := s64 (u64 (current_time - ack_delay) - send_time pk) in
            let x := if p_latest_time_acknowledged x <? send_time pk then set_latest_time (send_time pk) x else x in
            let c := set_progress current_time (set_path x c) in
            if 0 <? rtt_estimate then
              let '(e, delay) := rtt_measured (rtt x) (ack_delay_local x) ack_delay rtt_estimate in
              Done (p, true, tell (RttMeasurement rtt_estimate) (set_path (set_rtt e delay x) c))
            else Done (p, true, c)
      end
    else Done (newest, true, c)
  else Done (newest, false, c).

(** [picoquic_implicit_handshake_ack] on a context of the path. *)
Definition implicit_handshake_ack (k : context) (c : ack_cnx) : outcome ack_cnx :=
  let q := view k (all_queues (path0 c)) in
  let? r := of_option (picoquic_implicit_handshake_ack (S (size (heap q))) q) in
  let '(q, told) := r in
  Done (foldl (fun c n => tell (Acknowledged n) c) (set_path (set_queues (put k q (all_queues (path0 c))) (path0 c)) c) told).

(** The packet had a HANDSHAKE_DONE frame. *)
Definition confirm_handshake (c : ack_cnx) : outcome ack_cnx :=
  let? c := implicit_handshake_ack Packet.context_initial (set_handshake_done_acked c) in
  implicit_handshake_ack Packet.context_handshake c.

(** A packet that was acknowledged. *)
Definition ack_packet (c : ack_cnx) (p : pointer) (pk : packet) (s : sent) : outcome (Z * ack_cnx) :=
  let length := Z.of_nat (length (s_bytes s)) in
  let x := path0 c in
  let x := set_bandwidth (add_delivered length (bandwidth x)) x in
  let x := if bool_decide (pc = Packet.context_application) && ((last_1rtt_acknowledged x <? sequence_number pk) || (last_1rtt_acknowledged x =? UINT64_MAX))
           then set_last_1rtt (sequence_number pk) current_time x else x in
  let c := tell (Acknowledged length) (set_path x c) in
  match Repeat.process_possible_ack_of_ack_frame (conn c) (pkt_ptype pk) (s_offset s) (s_bytes s) (nb_zero_rtt_acked c) (received_numbers x) (acked c) with
  | None => OutOfFuel
  | Some (zero_rtt, numbers, acked') =>
      let x := set_received numbers x in
      let x := if send_mtu (queue x) <? length + s_checksum_overhead s then set_mtu (u32 (length + s_checksum_overhead s)) x else x in
      let x := progressed current_time x in
      let c := AckCnx x (packets c) (conn c) acked' zero_rtt (handshake_done_acked c) (ecn_remote c) (cnx_progress_time c) (events c) in
      let? c := if s_has_handshake_done s then confirm_handshake c else Done c in
      let ret := packet_acknowledged p in
      if negb (ret =? 0) then Done (ret, c)
      else
        let? q := of_option (dequeue_retransmit_packet (queue (path0 c)) p true) in
        Done (0, set_path (set_queues (put pc q (all_queues (path0 c))) (path0 c)) c)
  end.

(** The result, the connection and the packet where the next range starts. *)
Fixpoint process_ack_range (n : nat) (highest range : Z) (p : option pointer) (c : ack_cnx) : outcome (Z * ack_cnx * option pointer) :=
  match p with
  | None => Done (0, c, None)
  | Some q =>
      if range <=? 0 then Done (0, c, p)
      else
        match n with
        | O => OutOfFuel
        | S n =>
            let? x := of_option (heap (queue (path0 c)) !! q) in
            if highest <? sequence_number x then process_ack_range n highest range (next_packet x) c
            else if sequence_number x =? highest then
              let? s := of_option (packets c !! q) in
              let? r := ack_packet c q x s in
              let '(ret, c) := r in
              if negb (ret =? 0) then Done (ret, c, p)
              else process_ack_range n (u64 (highest - 1)) (u64 (range - 1)) (next_packet x) c
            else process_ack_range n (u64 (highest - 1)) (u64 (range - 1)) p c
        end
  end.

(** [ack_frame_t] *)
Record ack_frame := AckFrame_ {
  is_ack_ecn : bool;
  largest_acknowledged : Z;
  ack_delay : Z;
  first_ack_block : Z;
  ack_blocks : list (Z * Z);
  ecnx3 : Z * Z * Z
}.

Definition first_byte (f : ack_frame) : Z := if is_ack_ecn f then Frames.picoquic_frame_type_ack_ecn else Frames.picoquic_frame_type_ack.

Definition fail (code : Z) (f : ack_frame) (c : ack_cnx) : ack_cnx := set_conn (Streams.connection_error code (first_byte f) (conn c)) c.

(** No packet in flight has a number that is not above [largest]. *)
Definition no_more_packets (largest : Z) (q : Retransmit.state) : outcome bool :=
  match retransmit_oldest q with
  | None => Done true
  | Some p => let? x := of_option (heap q !! p) in Done (largest <? sequence_number x)
  end.

(** The ranges after the first one. *)
Fixpoint process_ack_blocks (n : nat) (f : ack_frame) (blocks : list (Z * Z)) (largest range : Z) (p : option pointer) (c : ack_cnx) : outcome (Z * ack_cnx) :=
  match blocks with
  | [] => Done (0, c)
  | (gap, additional_ack_block) :: blocks =>
      let block_to_block := u64 (u64 (gap + 1) + range) in
      if largest <? block_to_block then Done (1, fail Frames.PICOQUIC_TRANSPORT_FRAME_FORMAT_ERROR f c)
      else
        let largest := largest - block_to_block in
        let range := u64 (additional_ack_block + 1) in
        if u64 (largest + 1) <? range then Done (1, fail Frames.PICOQUIC_TRANSPORT_FRAME_FORMAT_ERROR f c)
        else
          let? r := process_ack_range n largest range p c in
          let '(ret, c, p) := r in
          if negb (ret =? 0) then Done (1, c)
          else
            let? last := no_more_packets largest (queue (path0 c)) in
            if (last : bool) then Done (0, c) else process_ack_blocks n f blocks largest range p c
  end.

(** What the bandwidth is estimated from, when the acknowledgement is new and the packet was found. *)
Definition ack_measured (top : option (packet * sent)) (is_new_ack : bool) (c : ack_cnx) : ack_cnx :=
  match top with
  | Some (pk, s) =>
      if is_new_ack then
        let x := path0 c in
        let b := estimate_path_bandwidth (bandwidth x) (send_time pk) (s_delivered_prior s) (s_delivered_time_prior s) (s_delivered_sent_prior s)
                   current_time current_time (s_delivered_app_limited s) in
        note (BwMeasurement (r_rtt_sample (rtt x))) (set_path (set_bandwidth b x) c)
      else c
  | None => c
  end.

(** [n] bounds the walks over the queue. *)
Definition process_ack_frame_maybe_ecn (n : nat) (epoch : Z) (f : ack_frame) (c : ack_cnx) : outcome (Z * ack_cnx) :=
  if epoch =? 1 then Done (1, fail Frames.PICOQUIC_TRANSPORT_PROTOCOL_VIOLATION f c)
  else if send_sequence (path0 c) <=? largest_acknowledged f then Done (1, fail Frames.PICOQUIC_TRANSPORT_PROTOCOL_VIOLATION f c)
  else
    let c := if is_ack_ecn f then set_ecn (ecnx3 f) c else c in
    let? r := update_rtt n (largest_acknowledged f) (ack_delay f) c in
    let '(p, is_new_ack, c) := r in
    let? top := match p with
                | None => Done None
                | Some q => let? pk := of_option (heap (queue (path0 c)) !! q) in let? s := of_option (packets c !! q) in Done (Some (pk, s))
                end in
    let range := u64 (first_ack_block f + 1) in
    if u64 (largest_acknowledged f + 1) <? range then Done (1, fail Frames.PICOQUIC_TRANSPORT_FRAME_FORMAT_ERROR f c)
    else
      let? r := process_ack_range n (largest_acknowledged f) range p c in
      let '(ret, c, p) := r in
      if negb (ret =? 0) then Done (1, c)
      else
        let? r := process_ack_blocks n f (ack_blocks f) (largest_acknowledged f) range p c in
        let '(ret, c) := r in
        if negb (ret =? 0) then Done (ret, c) else Done (0, ack_measured top is_new_ack c).
End Acknowledging.

(** ** The walk over the frames of an acknowledged packet *)

(** How far the walk goes does not depend on what was received or acknowledged before. *)
Lemma ack_of_ack_ranges_same num bytes : forall i largest k k',
  fst (AckFrame.ack_of_ack_ranges num bytes i largest k) = fst (AckFrame.ack_of_ack_ranges num bytes i largest k').
Proof.
  induction num as [|num IH]; intros i largest k k'; cbn [AckFrame.ack_of_ack_ranges]; repeat case_match; try done; apply IH.
Qed.

Lemma ack_of_ack_same k k' bytes ecn :
  fst (AckFrame.picoquic_process_ack_of_ack_frame k bytes ecn) = fst (AckFrame.picoquic_process_ack_of_ack_frame k' bytes ecn).
Proof. unfold AckFrame.picoquic_process_ack_of_ack_frame. case_match; [apply ack_of_ack_ranges_same|done]. Qed.

Lemma ack_of_stream_same c a a' bytes :
  fst (Repeat.process_ack_of_stream_frame c a bytes) = fst (Repeat.process_ack_of_stream_frame c a' bytes).
Proof. unfold Repeat.process_ack_of_stream_frame. repeat case_match; done. Qed.

Lemma ack_of_frames_same n c : forall bytes pn a pn' a',
  Repeat.ack_of_frames n c bytes pn a <> None -> Repeat.ack_of_frames n c bytes pn' a' <> None.
Proof.
  induction n as [|n IH]; intros bytes pn a pn' a' H; (destruct bytes as [|b bytes]; [done|]); [done|]. cbn [Repeat.ack_of_frames] in *.
  destruct (_ || _).
  - pose proof (ack_of_ack_same pn pn' (b :: bytes) (b =? Frames.picoquic_frame_type_ack_ecn)) as Hs.
    destruct (AckFrame.picoquic_process_ack_of_ack_frame pn _ _) as [[r m] pn1], (AckFrame.picoquic_process_ack_of_ack_frame pn' _ _) as [[r' m'] pn1'].
    cbn in Hs. simplify_eq. case_match; [by eapply IH|done].
  - destruct (Repeat.is_stream_frame _).
    + pose proof (ack_of_stream_same c a a' (b :: bytes)) as Hs.
      destruct (Repeat.process_ack_of_stream_frame c a _) as [[r m] a1], (Repeat.process_ack_of_stream_frame c a' _) as [[r' m'] a1'].
      cbn in Hs. simplify_eq. case_match; [by eapply IH|done].
    + destruct (Frames.skip_frame _) as [[r m] ?]. case_match; [by eapply IH|done].
Qed.

(** The frames of the packet can be walked over. *)
Definition walkable (c : Streams.cnx) (s : sent) : Prop :=
  Repeat.ack_of_frames (length (s_bytes s)) c (drop (s_offset s) (s_bytes s)) init_sack_chain ∅ <> None.

Lemma walkable_walks c s t n pn a : walkable c s ->
  exists r, Repeat.process_possible_ack_of_ack_frame c t (s_offset s) (s_bytes s) n pn a = Some r.
Proof.
  intros H. unfold Repeat.process_possible_ack_of_ack_frame.
  pose proof (ack_of_frames_same _ _ _ _ _ pn a H) as H'. destruct (Repeat.ack_of_frames _ _ _ pn a) as [[pn' a']|]; [|done]. by eexists.
Qed.

(** ** Taking packets out of the queue *)

Lemma update_keeps h p f h' : update_packet h p f = Some h' -> (forall x, data (f x) = data x) -> same_data h h'.
Proof.
  unfold update_packet. destruct (h !! p) as [x|] eqn:E; cbn; [|done]. intros [= <-] Hf. by eapply same_data_update.
Qed.

Lemma unlink_keeps h newest oldest p h' newest' oldest' : unlink h newest oldest p = Some (h', newest', oldest') -> same_data h h'.
Proof.
  unfold unlink. intros H. destruct (h !! p) as [x|]; cbn in H; [|done].
  destruct (match previous_packet x with Some _ => _ | None => _ end) as [[h1 nw]|] eqn:E1; cbn in H; [|done].
  assert (same_data h h1) as H1.
  { destruct (previous_packet x); [|by simplify_eq]. destruct (update_packet h _ _) as [h2|] eqn:E; cbn in E1; [|done]. simplify_eq. by eapply update_keeps. }
  destruct (h1 !! p) as [x1|]; cbn in H; [|done].
  destruct (match next_packet x1 with Some _ => _ | None => _ end) as [[h2 od]|] eqn:E2; cbn in H; [|done]. simplify_eq.
  eapply same_data_trans; [exact H1|]. destruct (next_packet x1); [|by simplify_eq].
  destruct (update_packet h1 _ _) as [h3|] eqn:E; cbn in E2; [|done]. simplify_eq. by eapply update_keeps.
Qed.

Lemma dequeue_keeps s p s' y : dequeue_retransmit_packet s p true = Some s' -> y <> p -> data <$> heap s' !! y = data <$> heap s !! y.
Proof.
  unfold dequeue_retransmit_packet. intros H Hy. destruct (heap s !! p) as [x|]; cbn [mbind option_bind] in H; [|done].
  destruct (unlink _ _ _ _) as [[[h nw] od]|] eqn:E; cbn [mbind option_bind] in H; [|done]. apply unlink_keeps in E.
  set (s1 := remove_registered_plugin_frames _ _) in H. assert (heap s1 = h) as Hh by (unfold s1; by destruct (is_congestion_controlled x)).
  rewrite Hh in H. unfold update_packet in H. destruct (h !! p) as [x1|]; cbn [mbind option_bind] in H; [|done]. injection H as <-. cbn.
  rewrite lookup_delete_ne, lookup_insert_ne by done. apply E.
Qed.

(** ** The contexts of a path *)

(** The bytes in transit of all contexts. *)
Definition total (a : context -> abstract) : Z :=
  transit (a Packet.context_application) + transit (a Packet.context_handshake) + transit (a Packet.context_initial).

Definition upd (k : context) (b : abstract) (a : context -> abstract) : context -> abstract := fun j => if decide (j = k) then b else a j.

(** Every context holds what [a] says; [other] are bytes in transit that belong to no context. *)
Definition holds (other : Z) (q : queues) (a : context -> abstract) : Prop :=
  forall k, represents (other + total a - transit (a k)) (view k q) (a k).

Lemma holds_ext other q a a' : (forall k, a k = a' k) -> holds other q a -> holds other q a'.
Proof. intros H Ha k. unfold total. rewrite <- !H. apply Ha. Qed.

Lemma holds_mtu other q a n : holds other q a -> holds other (with_mtu n q) a.
Proof. intros H k. destruct (H k). by constructor; destruct k. Qed.

Lemma holds_others other q a k : 0 <= other -> holds other q a -> 0 <= other + total a - transit (a k).
Proof.
  intros H0 Hq. assert (forall j, 0 <= transit (a j)) as Ht.
  { intros j. destruct (Hq j) as [_ _ _ _ _ Hc _]. apply transit_nonneg with (r := repeated (a j)) in Hc. exact Hc. }
  pose proof (Ht Packet.context_application). pose proof (Ht Packet.context_handshake). pose proof (Ht Packet.context_initial).
  unfold total. destruct k; lia.
Qed.

Lemma pkt_ctx_put j k s q : j <> k -> pkt_ctx j (put k s q) = pkt_ctx j q.
Proof. intros H. unfold put. destruct j; cbn; by rewrite decide_False. Qed.

Lemma view_put k s q : view k (put k s q) = s.
Proof. unfold view, put. destruct s, k; cbn; by rewrite decide_True. Qed.

Lemma total_upd k b a : total (upd k b a) = total a - transit (a k) + transit b.
Proof. unfold total, upd. destruct k; repeat case_decide; done || lia. Qed.

(** A context is changed: the others do not notice, whatever the bytes in transit have become. *)
Lemma holds_put other q a k s b : holds other q a -> represents (other + total a - transit (a k)) s b -> holds other (put k s q) (upd k b a).
Proof.
  intros Hq Hs j. rewrite total_upd. destruct (decide (j = k)) as [->|Hne].
  - unfold upd. rewrite decide_True, view_put by done. replace (_ - transit b) with (other + total a - transit (a k)) by lia. exact Hs.
  - unfold upd. rewrite decide_False by done. destruct (Hq j) as [H1 H2 H3 H4 H5 H6 H7], Hs as [_ _ _ _ _ _ Ht].
    constructor; unfold view in *; rewrite ?pkt_ctx_put by done; try done. cbn. lia.
Qed.

(** Without the oldest [n] packets in flight. *)
Definition drop_oldest (n : nat) (b : abstract) : abstract := Abs (take (length (in_flight b) - n) (in_flight b)) (repeated b).

Lemma drop_oldest_0 b : drop_oldest 0 b = b.
Proof. destruct b as [l r]. unfold drop_oldest. cbn. by rewrite Nat.sub_0_r, firstn_all. Qed.

Lemma drop_oldest_S d b : drop_oldest 1 (drop_oldest d b) = drop_oldest (S d) b.
Proof. unfold drop_oldest. cbn. rewrite length_take, take_take. do 2 f_equal. lia. Qed.

(** The implicit acknowledgement of a context takes its oldest packet. *)
Lemma implicit_ack_holds other q a k : 0 <= other -> holds other q a ->
  exists s told, picoquic_implicit_handshake_ack (S (size (heap (view k q)))) (view k q) = Some (s, told)
    /\ holds other (put k s q) (upd k (drop_oldest 1 (a k)) a).
Proof.
  intros H0 Hq. pose proof (Hq k) as Hk. pose proof (holds_others other q a k H0 Hq) as Hnn.
  assert (in_flight (a k) = [] \/ exists l p n, in_flight (a k) = l ++ [(p, n)]) as [He|(l & p & n & He)]
    by (destruct (in_flight (a k)) as [|[p n] l _] using rev_ind; [by left|right; by eexists _, _, _]).
  - exists (view k q), []. unfold picoquic_implicit_handshake_ack. pose proof Hk as [_ _ _ [_ Ho] _ _ _]. rewrite He in Ho. cbn [fmap list_fmap list.last] in Ho.
    rewrite Ho. split; [done|]. apply holds_put; [done|]. destruct (a k) as [f r]. cbn in He. subst f. exact Hk.
  - destruct (implicit_ack_removes_oldest_only _ _ _ l p n (size (heap (view k q))) Hk Hnn He) as (x & s & _ & Hs & Hr). eexists s, _.
    split; [exact Hs|]. apply holds_put; [done|]. unfold drop_oldest. rewrite He, length_app. cbn. by rewrite Nat.add_sub, take_app_length.
Qed.

Lemma tell_all_same has told c : let c' := foldl (fun c n => tell has (Acknowledged n) c) c told in
  path0 c' = path0 c /\ conn c' = conn c /\ packets c' = packets c.
Proof.
  revert c. induction told as [|n told IH]; intros c; [done|]. cbn. destruct (IH (tell has (Acknowledged n) c)) as (-> & -> & ->).
  unfold tell. by destruct has.
Qed.

Lemma implicit_handshake_ack_ok has other k c a : 0 <= other -> holds other (all_queues (path0 c)) a ->
  exists c' s, implicit_handshake_ack has k c = Done c' /\ path0 c' = set_queues (put k s (all_queues (path0 c))) (path0 c) /\ conn c' = conn c
    /\ packets c' = packets c /\ holds other (all_queues (path0 c')) (upd k (drop_oldest 1 (a k)) a).
Proof.
  intros H0 Hq. destruct (implicit_ack_holds other _ a k H0 Hq) as (s & told & Hs & Hh). unfold implicit_handshake_ack. rewrite Hs. cbn [of_option obind].
  eexists _, s. split; [reflexivity|]. destruct (tell_all_same has told (set_path (set_queues (put k s (all_queues (path0 c))) (path0 c)) c)) as (-> & -> & ->).
  by split_and!.
Qed.

(** After HANDSHAKE_DONE: the two contexts of the handshake lose their oldest packet. *)
Lemma confirm_handshake_ok has other c a : 0 <= other -> holds other (all_queues (path0 c)) a ->
  exists c' q, confirm_handshake has c = Done c' /\ path0 c' = set_queues q (path0 c) /\ conn c' = conn c /\ packets c' = packets c
    /\ ctx_application q = ctx_application (all_queues (path0 c))
    /\ holds other q (fun k => if decide (k = Packet.context_application) then a k else drop_oldest 1 (a k)).
Proof.
  intros H0 Hq. unfold confirm_handshake.
  destruct (implicit_handshake_ack_ok has other Packet.context_initial (set_handshake_done_acked c) a H0 Hq) as (c1 & s1 & -> & Hp1 & Hc1 & Hk1 & Hh1).
  cbn [obind]. destruct (implicit_handshake_ack_ok has other Packet.context_handshake c1 _ H0 Hh1) as (c2 & s2 & -> & Hp2 & Hc2 & Hk2 & Hh2).
  exists c2, (all_queues (path0 c2)). split; [done|]. rewrite Hc2, Hk2, Hc1, Hk1. split_and!; [by rewrite Hp2, Hp1|done|done|by rewrite Hp2, Hp1|].
  eapply holds_ext; [|exact Hh2]. intros k. unfold upd. by destruct k; repeat case_decide.
Qed.

Lemma without_middle p k l1 l2 : p ∉ l1.*1 -> p ∉ l2.*1 -> without p (l1 ++ (p, k) :: l2) = l1 ++ l2.
Proof.
  intros H1 H2. unfold without. rewrite filter_app, filter_cons, decide_False by naive_solver.
  assert (forall l : list (pointer * Z), p ∉ l.*1 -> filter (fun x => x.1 <> p) l = l) as Hf.
  { intros l Hl. apply filter_all. intros [y m] Hy Heq. cbn in Heq. subst y. apply Hl. apply list_elem_of_fmap. by exists (p, m). }
  by rewrite !Hf.
Qed.

(** ** Ranges *)

Section Ranges.
Variable packet_acknowledged : pointer -> Z.
Variable has_congestion_alg : bool.
Variable pc : context.
Variable current_time : Z.
#[local] Abbreviation queue x := (view pc (all_queues x)).
(** No plugin replaces [packet_acknowledged]: [protoop_noop] answers 0. *)
Hypothesis plugins_agree : forall p, packet_acknowledged p = 0.

Variable other : Z.
Hypothesis other_ok : 0 <= other.
(** The packet numbers, and which packets carried a HANDSHAKE_DONE frame: only packets of the application context do. *)
Variable number : pointer -> Z.
Variable has_done : pointer -> bool.
Hypothesis done_in_application : pc = Packet.context_application \/ forall p, has_done p = false.
(** What the other contexts hold. *)
Variable held : context -> abstract.

#[local] Abbreviation ack_packet' := (ack_packet packet_acknowledged has_congestion_alg pc current_time).
#[local] Abbreviation process_ack_range' := (process_ack_range packet_acknowledged has_congestion_alg pc current_time).
#[local] Abbreviation process_ack_frame' := (process_ack_frame_maybe_ecn packet_acknowledged has_congestion_alg pc current_time).
#[local] Abbreviation update_rtt' := (update_rtt has_congestion_alg pc current_time).
#[local] Abbreviation process_ack_blocks' := (process_ack_blocks packet_acknowledged has_congestion_alg pc current_time).

(** The context of the frame holds [l] and [rep], the others have lost their [d] oldest packets. *)
Definition at_ctx (l : list (pointer * Z)) (rep : list pointer) (d : nat) : context -> abstract :=
  fun k => if decide (k = pc) then Abs l rep else drop_oldest d (held k).

(** The queue holds [l], newest first, with falling numbers, and [rep] was repeated; the content of the packets can be read;
    the bytes in transit are those of all contexts. *)
Record in_order (c : ack_cnx) (l : list (pointer * Z)) (rep : list pointer) (d : nat) : Prop := InOrder {
  io_queue : holds other (all_queues (path0 c)) (at_ctx l rep d);
  io_numbers : Forall (fun x => sequence_number <$> heap (queue (path0 c)) !! x.1 = Some (number x.1)) l;
  io_falling : StronglySorted (fun x y => number y.1 < number x.1) l;
  io_content : Forall (fun x => exists s, packets c !! x.1 = Some s /\ s_has_handshake_done s = has_done x.1 /\ walkable (conn c) s) l
}.

Lemma in_order_rep c l rep d : in_order c l rep d -> exists o, 0 <= o /\ represents o (queue (path0 c)) (Abs l rep).
Proof.
  intros [Hq _ _ _]. exists (other + total (at_ctx l rep d) - transit (at_ctx l rep d pc)). split; [by eapply holds_others|].
  pose proof (Hq pc) as Hk. unfold at_ctx at 3 in Hk. by rewrite decide_True in Hk.
Qed.

Lemma in_order_next c l1 p k l2 rep d : in_order c (l1 ++ (p, k) :: l2) rep d ->
  exists x, heap (queue (path0 c)) !! p = Some x /\ sequence_number x = number p /\ next_packet x = head l2.*1.
Proof.
  intros Hio. destruct (in_order_rep _ _ _ _ Hio) as (o & _ & [Hd _ _ _ _ _ _]). destruct Hio as [_ Hn _ _].
  cbn in Hd. rewrite fmap_app in Hd. apply dll_app in Hd as [_ (x & Hx & _ & Hnx & _)].
  apply Forall_app in Hn as [_ Hn]. apply list.Forall_cons in Hn as [Hn _]. cbn [fst] in Hx, Hn. cbn in Hn. rewrite Hx in Hn. injection Hn as Hn.
  exists x. split_and!; [done|done|]. rewrite Hnx. by destruct l2.
Qed.

Lemma Forall_middle {A} (P : A -> Prop) l1 x l2 : Forall P (l1 ++ x :: l2) -> P x /\ Forall P (l1 ++ l2).
Proof. rewrite !Forall_app, list.Forall_cons. tauto. Qed.

Lemma falling_middle {A} (R : A -> A -> Prop) l1 x l2 : StronglySorted R (l1 ++ x :: l2) -> StronglySorted R (l1 ++ l2).
Proof.
  induction l1 as [|y l1 IH]; cbn; intros H; apply StronglySorted_inv in H as [H1 H2]; [done|].
  constructor; [by apply IH|]. by apply Forall_middle in H2 as [_ ?].
Qed.

(** The first part of [ack_packet]: what it changes of the path leaves the queues. *)
Lemma ack_packet_queue c l1 p k l2 rep d x : in_order c (l1 ++ (p, k) :: l2) rep d -> forall q, q = all_queues (path0 c) \/ (exists m, q = with_mtu m (all_queues (path0 c))) ->
  holds other q (at_ctx (l1 ++ (p, k) :: l2) rep d) /\ pkt_ctx pc q = pkt_ctx pc (all_queues (path0 c)) /\ (heap (queue (path0 c)) !! p = Some x -> cq_heap (pkt_ctx pc q) !! p = Some x).
Proof.
  intros [Hq _ _ _] q [->|[m ->]]; (split; [|split; [by destruct pc|intros <-; by destruct pc]]); [done|by apply holds_mtu].
Qed.

(** The packet leaves its queue. *)
Lemma acked_holds q l1 p k l2 rep d : holds other q (at_ctx (l1 ++ (p, k) :: l2) rep d) ->
  exists s, dequeue_retransmit_packet (view pc q) p true = Some s /\ holds other (put pc s q) (at_ctx (l1 ++ l2) rep d)
    /\ (p ∉ l1.*1) /\ (p ∉ l2.*1).
Proof.
  intros Hq. pose proof (Hq pc) as Hk. pose proof (holds_others _ _ _ pc other_ok Hq) as Hnn. unfold at_ctx at 3 in Hk. rewrite decide_True in Hk by done.
  destruct (acked_refines _ _ _ p Hk Hnn) as (s & Hs & Hr); [cbn; rewrite fmap_app; apply elem_of_app; right; by left|]. cbn [run_op] in Hs.
  assert ((p ∉ l1.*1) /\ (p ∉ l2.*1)) as [H1 H2].
  { destruct Hk as [_ _ Hnd _ _ _ _]. cbn in Hnd. rewrite fmap_app in Hnd. apply NoDup_app in Hnd as (Hnd & _ & _). cbn in Hnd.
    apply NoDup_app in Hnd as (_ & Hd & Hnd). apply NoDup_cons in Hnd as [? _]. split; [|done]. intros Hin. apply (Hd p Hin). by left. }
  exists s. split_and!; [done| |done|done]. cbn [spec_op in_flight repeated] in Hr. rewrite without_middle in Hr by done.
  eapply holds_ext; [|by apply holds_put]. intros j. unfold upd, at_ctx. by case_decide.
Qed.

(** A packet that is acknowledged leaves the queue, and the oldest packets of the handshake go with it when it carried
    HANDSHAKE_DONE; everything else stays. *)
Lemma ack_packet_ok c l1 p k l2 rep d x s : in_order c (l1 ++ (p, k) :: l2) rep d -> heap (queue (path0 c)) !! p = Some x -> packets c !! p = Some s ->
  exists c', ack_packet' c p x s = Done (0, c') /\ in_order c' (l1 ++ l2) rep (if has_done p then S d else d) /\ conn c' = conn c /\ packets c' = packets c.
Proof.
  intros Hio Hx Hs. pose proof Hio as [Hq Hn Hf Hc]. apply Forall_middle in Hc as [(s' & Hs' & Hdone & Hw) Hc]. cbn in Hs', Hdone. rewrite Hs in Hs'. simplify_eq.
  unfold ack_packet. set (x1 := if bool_decide _ && _ then _ else _). set (c1 := tell _ _ _).
  assert (all_queues x1 = all_queues (path0 c)) as Hx1 by (unfold x1; by destruct (bool_decide _ && _)).
  assert (conn c1 = conn c /\ packets c1 = packets c) as [Hc1 Hp1] by (unfold c1, tell; by destruct has_congestion_alg).
  rewrite Hc1. destruct (walkable_walks (conn c) s' (pkt_ptype x) (nb_zero_rtt_acked c1) (received_numbers x1) (acked c1) Hw) as [[[zr nums] a'] ->].
  set (x2 := progressed current_time (if send_mtu _ <? _ then _ else _)). set (c2 := AckCnx _ _ _ _ _ _ _ _ _).
  assert (all_queues x2 = all_queues (path0 c) \/ exists m, all_queues x2 = with_mtu m (all_queues (path0 c))) as Hx2.
  { unfold x2. destruct (send_mtu _ <? _); [right; rewrite <- Hx1; eexists; reflexivity|left; exact Hx1]. }
  destruct (ack_packet_queue _ _ _ _ _ _ _ x Hio _ Hx2) as (Hq2 & Hctx & _).
  assert (exists c3 q3, (if s_has_handshake_done s' then confirm_handshake has_congestion_alg c2 else Done c2) = Done c3 /\ path0 c3 = set_queues q3 x2
    /\ conn c3 = conn c /\ packets c3 = packets c /\ pkt_ctx pc q3 = pkt_ctx pc (all_queues (path0 c))
    /\ holds other q3 (at_ctx (l1 ++ (p, k) :: l2) rep (if has_done p then S d else d))) as (c3 & q3 & -> & Hp3 & Hc3 & Hk3 & Hctx3 & Hq3).
  { rewrite Hdone. destruct (has_done p) eqn:Ed; [|exists c2, (all_queues x2); by split_and!].
    destruct done_in_application as [Happ|Hno]; [|by rewrite Hno in Ed].
    destruct (confirm_handshake_ok has_congestion_alg other c2 _ other_ok Hq2) as (c3 & q3 & E & Hp3 & Hc3 & Hk3 & Ha3 & Hh3).
    exists c3, q3. split_and!; [done|done|by rewrite Hc3|by rewrite Hk3|rewrite <- Hctx, Happ; exact Ha3|].
    eapply holds_ext; [|exact Hh3]. intros j. unfold at_ctx. rewrite Happ. case_decide; [done|apply drop_oldest_S]. }
  cbn [obind]. rewrite plugins_agree. cbn [Z.eqb negb]. destruct (acked_holds q3 l1 p k l2 rep _ Hq3) as (q & Hdq & Hh & Hp1' & Hp2').
  rewrite Hp3. change (all_queues (set_queues q3 x2)) with q3. rewrite Hdq. cbn [of_option obind]. eexists. split; [reflexivity|]. split; [|by cbn].
  apply Forall_middle in Hn as [_ Hn]. constructor; [exact Hh| |by eapply falling_middle|cbn; rewrite Hc3, Hk3; exact Hc].
  change (all_queues (path0 (set_path (set_queues (put pc q q3) (set_queues q3 x2)) c3))) with (put pc q q3). rewrite view_put.
  apply list.Forall_forall. intros [y ky] Hy. rewrite list.Forall_forall in Hn. specialize (Hn _ Hy). cbn [fst] in *. rewrite <- Hn.
  assert (y <> p) as Hyp by (intros ->; apply elem_of_app in Hy as [Hy|Hy]; [apply Hp1'|apply Hp2']; apply list_elem_of_fmap; by exists (p, ky)).
  pose proof (dequeue_keeps _ _ _ y Hdq Hyp) as Hk. unfold view in Hk |- *. rewrite Hctx3 in Hk. cbn [heap] in Hk |- *.
  destruct (heap q !! y) as [y1|], (cq_heap (pkt_ctx pc (all_queues (path0 c))) !! y) as [y2|]; cbn in Hk |- *; try done.
  injection Hk. intros. f_equal. done.
Qed.

(** The packets with HANDSHAKE_DONE. *)
Definition dones (l : list (pointer * Z)) : nat := length (filter (fun x => has_done x.1 = true) l).

Lemma dones_app l1 l2 : dones (l1 ++ l2) = (dones l1 + dones l2)%nat.
Proof. unfold dones. by rewrite filter_app, length_app. Qed.

Lemma dones_cons p k l : dones ((p, k) :: l) = ((if has_done p then 1 else 0) + dones l)%nat.
Proof. unfold dones. rewrite filter_cons. cbn. by destruct (has_done p). Qed.

(** Whether a number is in a range. *)
Definition in_range (r : Z * Z) (m : Z) : Prop := fst r - snd r < m <= fst r.
#[local] Instance in_range_dec r m : Decision (in_range r m) := _.

(** The packets that a range leaves. *)
Definition left_by (r : Z * Z) (l : list (pointer * Z)) : list (pointer * Z) := filter (fun x => ~ in_range r (number x.1)) l.

Lemma left_by_app r l1 l2 : left_by r (l1 ++ l2) = left_by r l1 ++ left_by r l2.
Proof. apply filter_app. Qed.

Lemma left_by_all r l : Forall (fun x => ~ in_range r (number x.1)) l -> left_by r l = l.
Proof. intros H. apply filter_all. by apply list.Forall_forall. Qed.

Lemma left_by_none l r : snd r = 0 -> left_by r l = l.
Proof. intros H. apply left_by_all, list.Forall_forall. intros x _. unfold in_range. lia. Qed.

(** One number less, when no packet has the highest. *)
Lemma left_by_lower highest range l : Forall (fun x => number x.1 < highest) l -> left_by (highest, range) l = left_by (highest - 1, range - 1) l.
Proof.
  intros H. unfold left_by. induction H as [|x l Hx _ IH]; [done|]. rewrite !filter_cons, IH. unfold in_range. cbn.
  destruct (decide _), (decide _); try done; lia.
Qed.

Lemma range_done n highest p c : process_ack_range' n highest 0 p c = Done (0, c, p).
Proof. destruct n, p; done. Qed.

(** Processing a range removes its packets, and goes on with the packets below it. *)
Lemma process_ack_range_ok n : forall highest range l1 l2 rep d c,
  in_order c (l1 ++ l2) rep d -> 0 <= range <= highest + 1 -> highest < 2 ^ 62 -> (range = 0 -> Forall (fun x => number x.1 <= highest) l2) ->
  (length l2 + Z.to_nat range <= n)%nat ->
  exists c' kept rest d', process_ack_range' n highest range (head l2.*1) c = Done (0, c', head rest.*1)
    /\ in_order c' (l1 ++ kept ++ rest) rep d' /\ (d' + dones (kept ++ rest) = d + dones l2)%nat /\ conn c' = conn c /\ packets c' = packets c
    /\ kept ++ rest = left_by (highest, range) l2 /\ Forall (fun x => highest < number x.1) kept /\ Forall (fun x => number x.1 <= highest - range) rest.
Proof.
  induction n as [|n IH]; intros highest range l1 l2 rep d c Hio Hr Hh H0 Hn.
  all: destruct (Z.eq_dec range 0) as [->|Hr0];
    [exists c, [], l2, d; rewrite range_done, left_by_none, Z.sub_0_r by done; by split_and!; auto|].
  { lia. }
  destruct l2 as [|[p k] l2]; [exists c, [], [], d; by split_and!|]. cbn [fmap list_fmap head fst process_ack_range].
  rewrite (proj2 (Z.leb_gt range 0)) by lia. destruct (in_order_next _ _ _ _ _ _ _ Hio) as (x & Hx & Hnum & Hnext). rewrite Hx. cbn [of_option obind]. rewrite Hnum, Hnext.
  assert (Forall (fun y => number y.1 < number p) l2) as Hbelow.
  { pose proof (io_falling _ _ _ _ Hio) as Hs. clear -Hs. induction l1; cbn in Hs; apply StronglySorted_inv in Hs as [Hs Hf]; [done|by apply IHl1]. }
  destruct (Z.ltb_spec highest (number p)) as [Hgt|Hle].
  { (* above the range *)
    destruct (IH highest range (l1 ++ [(p, k)]) l2 rep d c) as (c' & kept & rest & d' & He & Hi & Hd & Hc & Hp & Hk & Hk1 & Hk2); [by rewrite <- app_assoc|lia|lia|lia|cbn in Hn; lia|].
    exists c', ((p, k) :: kept), rest, d'. rewrite <- app_assoc in Hi. split_and!; try done; [cbn [app]; rewrite !dones_cons; lia| |by constructor].
    rewrite <- app_comm_cons, Hk. unfold left_by. rewrite filter_cons, decide_True; [done|]. unfold in_range. cbn. lia. }
  destruct (Z.eqb_spec (number p) highest) as [Heq|Hne].
  - (* a packet of the range *)
    assert (exists s, packets c !! p = Some s) as [s Hs].
    { destruct Hio as [_ _ _ Hc]. apply Forall_middle in Hc as [(s & Hs & _) _]. by exists s. }
    rewrite Hs. cbn [of_option obind]. destruct (ack_packet_ok c l1 p k l2 rep d x s Hio Hx Hs) as (c1 & -> & Hi1 & Hc1 & Hp1). cbn [obind Z.eqb negb].
    assert (left_by (highest, range) ((p, k) :: l2) = left_by (highest - 1, range - 1) l2) as Hleft.
    { unfold left_by at 1. rewrite filter_cons, decide_False; [|unfold in_range; cbn; lia]. apply left_by_lower. by rewrite <- Heq. }
    destruct (Z.eq_dec range 1) as [->|Hr1].
    + rewrite range_done. exists c1, [], l2, (if has_done p then S d else d). rewrite Hleft, left_by_none by done. split_and!; try done; [cbn [app]; rewrite dones_cons; destruct (has_done p); lia|].
      eapply list.Forall_impl; [exact Hbelow|]. cbn. lia.
    + rewrite (u64_small (highest - 1)), (u64_small (range - 1)) by lia.
      destruct (IH (highest - 1) (range - 1) l1 l2 rep (if has_done p then S d else d) c1) as (c' & kept & rest & d' & He & Hi & Hd & Hc & Hp & Hk & Hk1 & Hk2); [done|lia|lia|lia|cbn in Hn; lia|].
      exists c', kept, rest, d'. rewrite Hleft, Hc, Hp. split_and!; try done; [rewrite dones_cons; destruct (has_done p); lia| |eapply list.Forall_impl; [exact Hk2|]; cbn; lia].
      apply list.Forall_forall. intros y Hy. assert (y ∈ l2) as Hyl.
      { assert (y ∈ kept ++ rest) as H by (apply elem_of_app; by left). rewrite Hk in H. by apply list_elem_of_filter in H as [_ ?]. }
      rewrite list.Forall_forall in Hk1, Hbelow. specialize (Hk1 y Hy). specialize (Hbelow y Hyl). cbn in *. lia.
  - (* no packet has this number *)
    assert (Forall (fun y => number y.1 < highest) ((p, k) :: l2)) as Hlow.
    { constructor; [cbn; lia|]. eapply list.Forall_impl; [exact Hbelow|]. cbn. lia. }
    destruct (Z.eq_dec range 1) as [->|Hr1].
    + rewrite range_done. exists c, [], ((p, k) :: l2), d. rewrite left_by_lower, left_by_none by done. split_and!; try done.
      eapply list.Forall_impl; [exact Hlow|]. cbn. lia.
    + rewrite (u64_small (highest - 1)), (u64_small (range - 1)) by lia.
      destruct (IH (highest - 1) (range - 1) l1 ((p, k) :: l2) rep d c) as (c' & kept & rest & d' & He & Hi & Hd & Hc & Hp & Hk & Hk1 & Hk2); [done|lia|lia|lia|cbn in Hn |- *; lia|].
      exists c', kept, rest, d'. rewrite (left_by_lower highest range) by done. cbn in He. split_and!; try done; [|eapply list.Forall_impl; [exact Hk2|]; cbn; lia].
      apply list.Forall_forall. intros y Hy. assert (y ∈ (p, k) :: l2) as Hyl.
      { assert (y ∈ kept ++ rest) as H by (apply elem_of_app; by left). rewrite Hk in H. by apply list_elem_of_filter in H as [_ ?]. }
      rewrite list.Forall_forall in Hk1, Hlow. specialize (Hk1 y Hy). specialize (Hlow y Hyl). cbn in *. lia.
Qed.

(** ** Frames *)

(** A range of the frame has the number. *)
Definition named (rs : list (Z * Z)) (m : Z) : Prop := Exists (fun r => in_range r m) rs.
#[local] Instance named_dec rs m : Decision (named rs m) := _.

(** The packets that the ranges do not name. *)
Definition not_named (rs : list (Z * Z)) (l : list (pointer * Z)) : list (pointer * Z) := filter (fun x => ~ named rs (number x.1)) l.

Lemma not_named_nil l : not_named [] l = l.
Proof. apply filter_all. intros x _ H. by apply Exists_nil in H. Qed.

Lemma not_named_cons r rs l : not_named (r :: rs) l = not_named rs (left_by r l).
Proof.
  unfold not_named, left_by. induction l as [|x l IH]; [done|]. rewrite (filter_cons _ x l), (filter_cons _ x l). unfold named in *.
  destruct (decide (~ in_range r (number x.1))) as [H|H].
  - rewrite filter_cons, <- IH. destruct (decide _) as [H1|H1], (decide _) as [H2|H2]; try done; exfalso.
    + apply H2. contradict H1. by right.
    + apply H1. intros [?|?]%Exists_cons; [by apply H|by apply H2].
  - rewrite decide_False; [done|]. intros H1. apply H. contradict H1. by left.
Qed.

Lemma not_named_app rs l1 l2 : not_named rs (l1 ++ l2) = not_named rs l1 ++ not_named rs l2.
Proof. apply filter_app. Qed.

(** Ranges that are all below the packets. *)
Lemma not_named_above rs l m : Forall (fun r => fst r <= m) rs -> Forall (fun x => m < number x.1) l -> not_named rs l = l.
Proof.
  intros Hr Hl. apply filter_all. rewrite list.Forall_forall in Hl. intros x Hx%Hl He. unfold named in He. rewrite Exists_exists in He.
  destruct He as (r & Hin & Hm). rewrite list.Forall_forall in Hr. specialize (Hr r Hin). unfold in_range in Hm. lia.
Qed.

(** Sizes that the integers of a frame can have. *)
Definition block_ok (b : Z * Z) : Prop := 0 <= fst b < 2 ^ 62 /\ 0 <= snd b < 2 ^ 62.

(** The ranges that follow are below the one before. *)
Lemma walked_below blocks : forall largest range rs, Forall block_ok blocks -> 0 < range <= largest + 1 -> largest < 2 ^ 62 ->
  AckFrame.walk_blocks blocks largest range = Some rs -> Forall (fun r => fst r <= largest - range) rs.
Proof.
  induction blocks as [|[gap add] blocks IH]; intros largest range rs Hb Hr Hl Hw; [injection Hw as <-; constructor|]. apply list.Forall_cons in Hb as [[Hg Ha] Hb]. cbn in Hg, Ha.
  cbn [AckFrame.walk_blocks] in Hw. rewrite (u64_small (gap + 1)), (u64_small (gap + 1 + range)) in Hw by lia. case_match eqn:E1; [done|].
  apply Z.ltb_ge in E1. rewrite (u64_small (add + 1)), u64_small in Hw by lia. case_match eqn:E2; [done|]. apply Z.ltb_ge in E2.
  destruct (AckFrame.walk_blocks blocks _ _) as [rs'|] eqn:E; cbn in Hw; [|done]. simplify_eq. constructor; [cbn; lia|].
  apply IH in E; [|done|lia|lia]. eapply list.Forall_impl; [exact E|]. cbn. lia.
Qed.

(** The queue as the operations after the first packet find it. *)
Lemma in_order_newest c l rep d : in_order c l rep d -> retransmit_newest (queue (path0 c)) = head l.*1.
Proof. intros Hio. by destruct (in_order_rep _ _ _ _ Hio) as (o & _ & [_ _ _ [? _] _ _ _]). Qed.

Lemma no_more_packets_ok c l rep d largest : in_order c l rep d ->
  exists b : bool, no_more_packets largest (queue (path0 c)) = Done b /\ (b = true -> Forall (fun x => largest < number x.1) l).
Proof.
  intros Hio. pose proof Hio as [_ _ Hf _]. destruct (in_order_rep _ _ _ _ Hio) as (o & _ & [_ _ _ [_ Ho] _ _ _]). unfold no_more_packets. rewrite Ho. cbn [in_flight].
  destruct l as [|[p k] l _] using rev_ind; [by exists true|]. rewrite fmap_app, last_app. cbn [fmap list_fmap list.last fst].
  destruct (in_order_next _ _ _ _ [] _ _ Hio) as (x & Hx & Hnum & _). rewrite Hx. cbn [of_option obind]. eexists. split; [reflexivity|].
  rewrite Hnum. intros Hlt%Z.ltb_lt. apply Forall_app. split; [|by repeat constructor].
  clear -Hf Hlt. induction l as [|y l IH]; cbn in Hf; [constructor|]. apply StronglySorted_inv in Hf as [Hf Hy]. constructor; [|by apply IH].
  apply Forall_app in Hy as [_ Hy]. apply list.Forall_cons in Hy as [Hy _]. cbn in Hy. lia.
Qed.

(** The ranges after the first: the packets they name leave the queue. *)
Lemma process_ack_blocks_ok n f blocks : forall largest range rs l1 l2 rep d c,
  AckFrame.walk_blocks blocks largest range = Some rs -> Forall block_ok blocks -> 0 < range <= largest + 1 -> largest < 2 ^ 62 ->
  in_order c (l1 ++ l2) rep d -> Forall (fun x => largest - range < number x.1) l1 -> (length l2 + Z.to_nat (largest + 1) <= n)%nat ->
  exists c' d', process_ack_blocks' n f blocks largest range (head l2.*1) c = Done (0, c')
    /\ in_order c' (not_named rs (l1 ++ l2)) rep d' /\ (d' + dones (not_named rs (l1 ++ l2)) = d + dones (l1 ++ l2))%nat /\ conn c' = conn c /\ packets c' = packets c.
Proof.
  induction blocks as [|[gap add] blocks IH]; intros largest range rs l1 l2 rep d c Hw Hb Hr Hl Hio H1 Hn.
  { injection Hw as <-. exists c, d. by rewrite not_named_nil. }
  pose proof (walked_below _ _ _ _ Hb Hr Hl Hw) as Hlow. apply list.Forall_cons in Hb as [[Hg Ha] Hb]. cbn in Hg, Ha.
  cbn [AckFrame.walk_blocks process_ack_blocks] in *. rewrite (u64_small (gap + 1)), (u64_small (gap + 1 + range)) in * by lia. case_match eqn:E1; [done|].
  apply Z.ltb_ge in E1. rewrite (u64_small (add + 1)), u64_small in * by lia. case_match eqn:E2; [done|]. apply Z.ltb_ge in E2.
  set (largest' := largest - (gap + 1 + range)) in *.
  destruct (AckFrame.walk_blocks blocks _ _) as [rs'|] eqn:E; cbn in Hw; [|done]. injection Hw as <-.
  destruct (process_ack_range_ok n largest' (add + 1) l1 l2 rep d c Hio) as (c1 & kept & rest & d1 & Heq & Hi1 & Hd1 & Hc1 & Hp1 & Hk & Hk1 & Hk2); [lia|lia|lia|lia|].
  rewrite Heq. cbn [obind Z.eqb negb].
  assert (l1 ++ kept ++ rest = left_by (largest', add + 1) (l1 ++ l2)) as Hleft.
  { rewrite left_by_app, <- Hk. f_equal. symmetry. apply left_by_all. eapply list.Forall_impl; [exact H1|]. unfold in_range. cbn. lia. }
  rewrite not_named_cons, <- Hleft. destruct (no_more_packets_ok c1 _ rep d1 largest' Hi1) as (b & -> & Hb'). cbn [obind]. destruct b.
  - exists c1, d1. rewrite (not_named_above rs' _ largest'); [rewrite !dones_app in *; (split_and!; [done|done|lia|done..])| |by apply Hb'].
    apply walked_below in E; [|done|lia|lia]. eapply list.Forall_impl; [exact E|]. cbn. lia.
  - destruct (IH largest' (add + 1) rs' (l1 ++ kept) rest rep d1 c1) as (c' & d' & -> & Hi & Hd & Hc & Hp); try done; [lia|lia|by rewrite <- app_assoc| | |].
    + apply Forall_app. split; [eapply list.Forall_impl; [exact H1|]|eapply list.Forall_impl; [exact Hk1|]]; cbn; lia.
    + apply (f_equal length) in Hk. rewrite length_app in Hk. pose proof (length_filter (fun x => ~ in_range (largest', add + 1) (number x.1)) l2).
      unfold left_by in Hk. lia.
    + exists c', d'. rewrite <- app_assoc in Hi, Hd. rewrite Hc, Hp. rewrite !(dones_app l1) in *. split_and!; [done|done|lia|done..].
Qed.

Lemma in_order_same c c' l rep d : all_queues (path0 c') = all_queues (path0 c) -> conn c' = conn c -> packets c' = packets c -> in_order c l rep d -> in_order c' l rep d.
Proof. intros Hq Hc Hp [? ? ? ?]. constructor; rewrite ?Hq, ?Hc, ?Hp; done. Qed.

(** The packet the search stops at. *)
Lemma find_packet_ok n largest c rep d : forall l1 l2, in_order c (l1 ++ l2) rep d -> (length l2 <= n)%nat ->
  exists l3 l4, l2 = l3 ++ l4 /\ find_packet n (heap (queue (path0 c))) (head l2.*1) largest = Done (head l4.*1) /\ Forall (fun x => largest < number x.1) l3.
Proof.
  induction n as [|n IH]; intros l1 l2 Hio Hn; (destruct l2 as [|[p k] l2]; [by exists [], []|]); cbn in Hn; [lia|].
  destruct (in_order_next _ _ _ _ _ _ _ Hio) as (x & Hx & Hnum & Hnext). cbn [fmap list_fmap head fst find_packet]. rewrite Hx. cbn [of_option obind].
  rewrite Hnum, Hnext. destruct (Z.ltb_spec largest (number p)).
  - destruct (IH (l1 ++ [(p, k)]) l2) as (l3 & l4 & -> & He & Hf); [by rewrite <- app_assoc|lia|]. exists ((p, k) :: l3), l4. by repeat constructor.
  - by exists [], ((p, k) :: l2).
Qed.

(** The round trip changes no queue, and the ranges start above or at their first packet. *)
Lemma update_rtt_ok n largest delay c l rep d : in_order c l rep d -> (length l <= n)%nat ->
  exists l1 l2 is_new c', l = l1 ++ l2 /\ update_rtt' n largest delay c = Done (head l2.*1, is_new, c') /\ Forall (fun x => largest < number x.1) l1
    /\ all_queues (path0 c') = all_queues (path0 c) /\ conn c' = conn c /\ packets c' = packets c.
Proof.
  intros Hio Hn. unfold update_rtt. rewrite (in_order_newest _ _ _ _ Hio). destruct (_ || _); [|by exists [], l, false, c].
  destruct (delay <? _); [|by eexists [], l, true, _].
  destruct (find_packet_ok n largest c rep d [] l Hio Hn) as (l1 & l2 & -> & He & Hf). cbn [set_highest all_queues]. rewrite He. cbn [obind].
  exists l1, l2. destruct l2 as [|[p k] l2]; [by eexists true, _|]. cbn [fmap list_fmap head fst].
  destruct (in_order_next _ _ _ _ _ _ _ Hio) as (x & Hx & Hnum & _). rewrite Hx. cbn [of_option obind]. destruct (_ <? _); [by eexists true, _|].
  set (x1 := if p_latest_time_acknowledged _ <? _ then _ else _). assert (all_queues x1 = all_queues (path0 c)) as Hq by (unfold x1; by destruct (_ <? _)).
  destruct (0 <? _); [destruct (rtt_measured _ _ _ _) as [e dl]|]; exists true; eexists; (split_and!; [done|reflexivity|done|..]);
    unfold tell; try destruct has_congestion_alg; done.
Qed.

(** What is asked of the integers of a frame: they are read from its bytes. *)
Record frame_ok (f : ack_frame) : Prop := FrameOk {
  fo_largest : 0 <= largest_acknowledged f < 2 ^ 62;
  fo_first : 0 <= first_ack_block f < 2 ^ 62;
  fo_blocks : Forall block_ok (ack_blocks f)
}.

(** The packet from which the bandwidth is measured can be read. *)
Lemma top_packet_ok c l1 l2 rep d : in_order c (l1 ++ l2) rep d ->
  exists top, match head l2.*1 with
    | None => Done None
    | Some q => let? pk := of_option (heap (queue (path0 c)) !! q) in let? s := of_option (packets c !! q) in Done (Some (pk, s))
    end = Done top.
Proof.
  intros Hio. destruct l2 as [|[p k] l2]; [by eexists|]. destruct (in_order_next _ _ _ _ _ _ _ Hio) as (x & Hx & _).
  destruct Hio as [_ _ _ Hc]. apply Forall_middle in Hc as [(s & Hs & _) _]. cbn in Hs. cbn [fmap list_fmap head fst]. rewrite Hx, Hs. by eexists.
Qed.

Lemma measured_same top is_new c : let c' := ack_measured current_time top is_new c in
  all_queues (path0 c') = all_queues (path0 c) /\ conn c' = conn c /\ packets c' = packets c.
Proof. unfold ack_measured. by destruct top as [[pk s]|], is_new. Qed.

(** The packets that the ranges name. *)
Definition named_by (rs : list (Z * Z)) (l : list (pointer * Z)) : list (pointer * Z) := filter (fun x => named rs (number x.1)) l.

Lemma dones_split rs l : dones l = (dones (named_by rs l) + dones (not_named rs l))%nat.
Proof.
  induction l as [|[p k] l IH]; [done|]. unfold named_by, not_named in *. rewrite !filter_cons. cbn [fst].
  destruct (decide (named rs (number p))) as [H|H]; [rewrite decide_False by auto|rewrite decide_True by auto]; rewrite !dones_cons; lia.
Qed.

(** C11. An ACK frame that the parser accepts, for numbers that were sent, takes exactly the packets it names out of the queue of
    packets in flight of its context: the ones in its ranges are gone, the others stay in their order, and the walk ends.  The
    contexts of the handshake lose their oldest packets, one for each HANDSHAKE_DONE packet of the application context that the
    frame names, and nothing otherwise; what remains in the three contexts is what counts as in transit.  No plugin
    replaces [packet_acknowledged]. *)
Theorem ack_removes_named n epoch f c l rep rs :
  in_order c l rep 0 -> frame_ok f -> epoch <> 1 -> largest_acknowledged f < send_sequence (path0 c) ->
  AckFrame.walk_ranges (largest_acknowledged f) (first_ack_block f) (ack_blocks f) = Some rs ->
  (length l + Z.to_nat (largest_acknowledged f + 1) <= n)%nat ->
  exists c', process_ack_frame' n epoch f c = Done (0, c') /\ in_order c' (not_named rs l) rep (dones (named_by rs l))
    /\ conn c' = conn c /\ packets c' = packets c.
Proof.
  intros Hio [Hl Hf Hb] He Hs Hw Hn. unfold process_ack_frame_maybe_ecn. rewrite (proj2 (Z.eqb_neq epoch 1)), (proj2 (Z.leb_gt _ _)) by done.
  set (c0 := if is_ack_ecn f then _ else _).
  assert (in_order c0 l rep 0 /\ conn c0 = conn c /\ packets c0 = packets c) as (Hio0 & Hc0 & Hp0)
    by (unfold c0; destruct (is_ack_ecn f); (split_and!; [by eapply in_order_same; [..|exact Hio]|done..])).
  destruct (update_rtt_ok n (largest_acknowledged f) (ack_delay f) c0 l rep 0 Hio0) as (l1 & l2 & is_new & c1 & -> & -> & Ha & Hq1 & Hc1 & Hp1); [lia|].
  cbn [obind]. assert (in_order c1 (l1 ++ l2) rep 0) as Hio1 by by eapply in_order_same; [..|exact Hio0].
  unfold AckFrame.walk_ranges in Hw. rewrite (u64_small (first_ack_block f + 1)), u64_small in * by lia. case_match eqn:E2; [done|]. apply Z.ltb_ge in E2.
  destruct (AckFrame.walk_blocks _ _ _) as [rs'|] eqn:E; cbn in Hw; [|done]. injection Hw as <-. rewrite length_app in Hn.
  destruct (top_packet_ok c1 l1 l2 rep 0 Hio1) as [top ->]. cbn [obind].
  destruct (process_ack_range_ok n (largest_acknowledged f) (first_ack_block f + 1) l1 l2 rep 0 c1 Hio1)
    as (c2 & kept & rest & d2 & -> & Hi2 & Hd2 & Hc2 & Hp2 & Hk & Hk1 & Hk2); [lia|lia|lia|lia|]. cbn [obind Z.eqb negb].
  assert (length rest <= length l2)%nat as Hrest.
  { apply (f_equal length) in Hk. rewrite length_app in Hk. pose proof (length_filter (fun x => ~ in_range (largest_acknowledged f, first_ack_block f + 1) (number x.1)) l2).
    unfold left_by in Hk. lia. }
  rewrite app_assoc in Hi2.
  destruct (process_ack_blocks_ok n f (ack_blocks f) _ _ _ _ _ _ _ _ E Hb ltac:(lia) ltac:(lia) Hi2) as (c3 & d3 & -> & Hi3 & Hd3 & Hc3 & Hp3); [|lia|].
  { apply Forall_app. split; [eapply list.Forall_impl; [exact Ha|]|eapply list.Forall_impl; [exact Hk1|]]; cbn; lia. }
  cbn [obind Z.eqb negb]. eexists. split; [reflexivity|].
  assert (not_named ((largest_acknowledged f, first_ack_block f + 1) :: rs') (l1 ++ l2) = not_named rs' ((l1 ++ kept) ++ rest)) as Hnn.
  { rewrite not_named_cons, left_by_app, <- Hk, (left_by_all _ l1), app_assoc; [done|]. eapply list.Forall_impl; [exact Ha|]. unfold in_range. cbn. lia. }
  assert (d3 = dones (named_by ((largest_acknowledged f, first_ack_block f + 1) :: rs') (l1 ++ l2))) as <-.
  { pose proof (dones_split ((largest_acknowledged f, first_ack_block f + 1) :: rs') (l1 ++ l2)) as Hsp. rewrite Hnn in Hsp.
    rewrite <- app_assoc in Hd3, Hsp. rewrite !(dones_app l1) in *. lia. }
  rewrite Hnn. destruct (measured_same top is_new c3) as (Hq4 & Hc4 & Hp4). rewrite Hc4, Hp4, Hc3, Hp3, Hc2, Hp2, Hc1, Hp1. split_and!; [by eapply in_order_same; [..|exact Hi3]|done|done].
Qed.

End Ranges.

(** ** Bounds of the round trip times *)

Record rtt_ok (e : rtt_state) : Prop := RttOk {
  ro_delay : 0 <= r_max_ack_delay e < 2 ^ 60;
  ro_smoothed : 0 <= r_smoothed_rtt e < 2 ^ 60;
  ro_variant : 0 <= r_rtt_variant e < 2 ^ 60;
  ro_min : 0 <= r_rtt_min e < 2 ^ 60
}.

Lemma update_ack_delay_at_least rtt_min first : 1000 <= update_ack_delay rtt_min first.
Proof. unfold update_ack_delay. destruct (Z.ltb_spec (rtt_min / 4) 1000); [lia|]. destruct (_ && _); lia. Qed.

(** C38. A round trip of less than 2^58 microseconds leaves the estimators in their ranges.  The average lies between what it was and the
    new measure, the minimum is not above the measure, the deviation is at least about a quarter of the minimum, and the
    retransmission timer is at least 50 milliseconds and covers the average, four deviations and the delay of the peer. *)
Theorem rtt_estimators_sound e delay_local ack_delay rtt_estimate :
  rtt_ok e -> 1000 <= delay_local -> 0 <= ack_delay < PICOQUIC_ACK_DELAY_MAX -> 0 < rtt_estimate < 2 ^ 58 ->
  let '(e', delay_local') := rtt_measured e delay_local ack_delay rtt_estimate in
  rtt_ok e' /\ 1000 <= delay_local' /\ r_rtt_sample e' = rtt_estimate
  /\ Z.min (r_smoothed_rtt e) rtt_estimate <= r_smoothed_rtt e' <= Z.max (r_smoothed_rtt e) rtt_estimate
  /\ r_rtt_min e' <= rtt_estimate /\ r_rtt_min e' <= 4 * r_rtt_variant e' + 3
  /\ PICOQUIC_MIN_RETRANSMIT_TIMER <= r_retransmit_timer e'
  /\ r_smoothed_rtt e' + 4 * r_rtt_variant e' + ack_delay <= r_retransmit_timer e'.
Proof.
  intros [Hd Hs Hv Hm] Hl Ha He. unfold PICOQUIC_ACK_DELAY_MAX, rtt_measured in *.
  assert (exists m, (if r_max_ack_delay e <? ack_delay then ack_delay else r_max_ack_delay e) = m /\ ack_delay <= m < 2 ^ 60 /\ 0 <= m) as (m & -> & Hm1 & Hm2).
  { eexists. split; [reflexivity|]. destruct (Z.ltb_spec (r_max_ack_delay e) ack_delay); lia. }
  destruct (_ && _).
  - pose proof (update_ack_delay_at_least rtt_estimate true). rewrite u64_small by lia. destruct (Z.ltb_spec (3 * rtt_estimate + m) PICOQUIC_MIN_RETRANSMIT_TIMER);
      (split; [constructor|]); cbn [r_max_ack_delay r_rtt_sample r_smoothed_rtt r_rtt_variant r_retransmit_timer r_rtt_min]; unfold PICOQUIC_MIN_RETRANSMIT_TIMER in *; Z.to_euclidean_division_equations; lia.
  - rewrite (s64_small (rtt_estimate - _)), (s64_small (r_rtt_min e)) by lia. set (d := rtt_estimate - r_smoothed_rtt e) in *.
    assert (s64 (if d <? 0 then - d - r_rtt_variant e else d - r_rtt_variant e) = Z.abs d - r_rtt_variant e) as ->
      by (destruct (Z.ltb_spec d 0); rewrite s64_small; lia).
    assert (exists s, r_smoothed_rtt e + Z.quot d 8 = s /\ Z.min (r_smoothed_rtt e) rtt_estimate <= s <= Z.max (r_smoothed_rtt e) rtt_estimate) as (s & -> & Hs')
      by (eexists; (split; [reflexivity|]); Z.to_euclidean_division_equations; lia).
    assert (exists v, r_rtt_variant e + Z.quot (Z.abs d - r_rtt_variant e) 4 = v /\ 0 <= v < 2 ^ 60) as (v & -> & Hv')
      by (eexists; (split; [reflexivity|]); Z.to_euclidean_division_equations; lia).
    rewrite (u64_small s), (u64_small v), (u64_small (4 * v)) by lia.
    pose proof (update_ack_delay_at_least rtt_estimate false).
    assert (exists mn dl, (if rtt_estimate <? r_rtt_min e then (rtt_estimate, update_ack_delay rtt_estimate false) else (r_rtt_min e, delay_local)) = (mn, dl)
      /\ 0 <= mn <= rtt_estimate /\ 1000 <= dl) as (mn & dl & -> & Hmn & Hdl).
    { destruct (Z.ltb_spec rtt_estimate (r_rtt_min e)); do 2 eexists; (split; [reflexivity|lia]). }
    assert (exists v', (if 4 * v <? mn then mn / 4 else v) = v' /\ 0 <= v' < 2 ^ 60 /\ mn <= 4 * v' + 3) as (v' & -> & Hv1 & Hv2).
    { destruct (Z.ltb_spec (4 * v) mn); eexists; (split; [reflexivity|]); Z.to_euclidean_division_equations; lia. }
    rewrite u64_small by lia. destruct (_ <? _) eqn:E; [apply Z.ltb_lt in E|apply Z.ltb_ge in E];
      (split; [constructor|]); cbn [r_max_ack_delay r_rtt_sample r_smoothed_rtt r_rtt_variant r_retransmit_timer r_rtt_min]; unfold PICOQUIC_MIN_RETRANSMIT_TIMER in *; Z.to_euclidean_division_equations; lia.
Qed.

(** ** Examples *)

(** Packets 5, 4 and 2 are in flight; 4 carries a STREAM frame and 5 HANDSHAKE_DONE.  Two packets of the handshake wait too. *)
Definition ex_ack_packet (prev next : option pointer) (number : Z) : packet := Pkt prev next number Packet.one_rtt_protected_phi0 40 57 (1000 * number) true [].
Definition ex_ack_queue : queues :=
  Queues
    (CtxQueue {[5%nat := ex_ack_packet None (Some 4%nat) 5; 4%nat := ex_ack_packet (Some 5%nat) (Some 2%nat) 4; 2%nat := ex_ack_packet (Some 4%nat) None 2]}
      (Some 5%nat) (Some 2%nat) None None)
    (CtxQueue {[1%nat := ex_ack_packet None (Some 0%nat) 1; 0%nat := ex_ack_packet (Some 1%nat) None 0]} (Some 1%nat) (Some 0%nat) None None)
    (CtxQueue ∅ None None None None) 285 (fun _ => 0) sample_pacing 1350.
Definition ex_sent (bytes : list Z) (handshake_done : bool) : sent := Sent_ (replicate 10 0 ++ bytes) 10 16 handshake_done 100 700 600 false.
Definition ex_delivery : delivery := Delivery 5000 0 0 0 0 0 0 false.
Definition ex_ack_path : ack_path :=
  AckPath ex_ack_queue (Rtt 0 0 PICOQUIC_INITIAL_RTT 0 1000000 0) ex_delivery 1 1000 1000 2 0 1 0 false 6 init_sack_chain.
Definition ex_ack_cnx : ack_cnx :=
  AckCnx ex_ack_path {[5%nat := ex_sent [30] true; 4%nat := ex_sent (Repeat.ex_stream_frame 20) false; 2%nat := ex_sent Repeat.ex_max_data false]}
    (SendStream.conn (SendStream.example_sender [SendStream.example_stream])) ∅ 0 false (0, 0, 0) 0 [].
(** Acknowledges 5 and 2. *)
Definition ex_ack_frame : ack_frame := AckFrame_ false 5 100 0 [(1, 0)] (0, 0, 0).

Definition ex_in_flight : list (pointer * Z) := [(5%nat, 57); (4%nat, 57); (2%nat, 57)].

Definition ex_held (k : context) : abstract :=
  match k with Packet.context_handshake => Abs [(1%nat, 57); (0%nat, 57)] [] | _ => Abs [] [] end.
Definition ex_done (p : pointer) : bool := (p =? 5)%nat.

Ltac dll_holds := cbn; repeat (eexists; split; [reflexivity|]; split; [done|]; split; [done|]); done.

Lemma ex_holds : holds 0 ex_ack_queue (at_ctx Packet.context_application ex_held ex_in_flight [] 0).
Proof.
  intros [| |]; constructor; try done; try dll_holds; try (apply (bool_decide_unpack _); vm_compute; exact I);
    repeat (apply list.Forall_cons; split; [split; [reflexivity|cbn; lia]|]); constructor.
Qed.

Lemma ex_in_order : in_order Packet.context_application 0 Z.of_nat ex_done ex_held ex_ack_cnx ex_in_flight [] 0.
Proof.
  constructor.
  - exact ex_holds.
  - repeat (apply list.Forall_cons; split; [reflexivity|]). constructor.
  - repeat constructor; cbn; lia.
  - repeat (apply list.Forall_cons; split; [eexists; split; [reflexivity|]; split; [reflexivity|vm_compute; done]|]). constructor.
Qed.

(** Packet 4 stays, and one packet of the handshake; they are what is in transit. *)
Lemma ack_removes_named_witness :
  exists c', process_ack_frame_maybe_ecn (fun _ => 0) true Packet.context_application 30000 9 3 ex_ack_frame ex_ack_cnx = Done (0, c')
    /\ in_order Packet.context_application 0 Z.of_nat ex_done ex_held c' [(4%nat, 57)] [] 1
    /\ q_bytes_in_transit (all_queues (path0 c')) = 114.
Proof.
  destruct (ack_removes_named (fun _ => 0) true Packet.context_application 30000 (fun _ => eq_refl) 0 ltac:(lia) Z.of_nat ex_done (or_introl eq_refl) ex_held
    9 3 ex_ack_frame ex_ack_cnx ex_in_flight [] [(5, 1); (2, 1)] ex_in_order)
    as (c' & Hc & Hi & _); [constructor; cbn; [lia|lia|repeat constructor; cbn; lia]|lia|cbn; lia|reflexivity|cbn; lia|].
  exists c'. split; [exact Hc|].
  assert (not_named Z.of_nat [(5, 1); (2, 1)] ex_in_flight = [(4%nat, 57)]) as E by (vm_compute; reflexivity). rewrite E in Hi.
  split; [exact Hi|]. destruct Hi as [Hq _ _ _]. specialize (Hq Packet.context_application). destruct Hq as [_ _ _ _ _ _ Ht]. exact Ht.
Defined.

Lemma rtt_estimators_sound_witness :
  let '(e', delay_local') := rtt_measured (Rtt 0 0 PICOQUIC_INITIAL_RTT 0 1000000 0) 1000 100 24900 in
  rtt_ok e' /\ 1000 <= delay_local' /\ r_rtt_sample e' = 24900
  /\ Z.min 250000 24900 <= r_smoothed_rtt e' <= Z.max 250000 24900
  /\ r_rtt_min e' <= 24900 /\ r_rtt_min e' <= 4 * r_rtt_variant e' + 3
  /\ PICOQUIC_MIN_RETRANSMIT_TIMER <= r_retransmit_timer e'
  /\ r_smoothed_rtt e' + 4 * r_rtt_variant e' + 100 <= r_retransmit_timer e'.
Proof. apply (rtt_estimators_sound (Rtt 0 0 PICOQUIC_INITIAL_RTT 0 1000000 0) 1000 100 24900);
  [constructor; cbn|..]; unfold PICOQUIC_ACK_DELAY_MAX, PICOQUIC_INITIAL_RTT; lia. Defined.

(** The first estimate takes the time for the bytes delivered and the bytes for the time.  The next packet is sent with these values
    (sender.c: [delivered_prior = delivered_last]), and for 2500 bytes in ten milliseconds the
    estimate is 9145 bytes a second. *)
Example first_estimate_swapped :
  let now := 1700000000000000 in
  let d := estimate_path_bandwidth (Delivery 5000 0 0 0 0 0 0 false) (now - 10000) 0 0 0 now now false in
  delivered_last d = now /\ delivered_time_last d = 5000 /\
  let d' := estimate_path_bandwidth (add_delivered 2500 d) now (delivered_last d) (delivered_time_last d) (delivered_sent_last d) (now + 10000) (now + 10000) false in
  bandwidth_estimate d' = 9145.
Proof. vm_compute. done. Qed.

(** A frame whose second block reaches below zero is accepted when the queue is empty after the first. *)
Example malformed_block_accepted :
  AckFrame.walk_ranges 5 3 [(0, 0); (9, 0)] = None /\
  match process_ack_frame_maybe_ecn (fun _ => 0) true Packet.context_application 30000 9 3 (AckFrame_ false 5 100 3 [(0, 0); (9, 0)] (0, 0, 0)) ex_ack_cnx with
  | Done (ret, c') => ret = 0 /\ retransmit_newest (view Packet.context_application (all_queues (path0 c'))) = None
  | _ => False
  end.
Proof. vm_compute. done. Qed.

End Acks.
